(* ===== verification/_CoqProject ===== *)
-Q . S2P
Prelude.v
RustStd.v
RustText.v
Ids.v
Api.v
Policy.v
Wire.v
Encode.v
Febp.v
Wasm.v
Compiler.v
Envelope.v
RuntimeEval.v
Datapath.v
KRules.v
Event.v
Prefilter.v
Loader.v
Program.v
Admit.v
Planes.v
Crypto.v
Grant.v
Journal.v
BreakGlass.v
Encoding.v
Json.v
Bundle.v
Subject.v
Review.v
Webhook.v
Clock.v
Cgroup.v
Labels.v
Pods.v
Watch.v
WatchedLabels.v
Respond.v
Lkg.v
AgentSource.v
AgentState.v
Degraded.v
React.v
Update.v
Proto.v
Export.v
ExportFile.v
ExportQueue.v
KernelMaps.v
Http.v
ApiClient.v
Publish.v
Health.v
Controller.v
ControllerLoops.v
ControllerRun.v
Btf.v
Siem.v
SiemRead.v
SiemSink.v
Metrics.v
MetricsRead.v
MetricsServe.v
AgentStatus.v
Der.v
ServingCert.v
X509.v
Mtls.v
Cli.v
GenPki.v
AdmissionMain.v
