(* ===== verification/Prelude.v ===== *)
(** * FERRUM: a verification development

    FERRUM is a Kubernetes enforcement plane. A policy (a custom resource) is
    validated and compiled off line into one signed bundle; an admission webhook
    answers API-server requests by the bundle's admission program; a node agent loads
    the bundle's runtime program, compiles part of it into slots of a kernel map, and
    decides every system-call record its tracepoints produce. Break-glass suspends the
    webhook for a bounded time, by a signed grant and on record.

    ** Which file models what (paths under [src/crates/])

    - [RustStd]: what the sources use of Rust's library: strings as bytes, UTF-8,
      [trim], [chars], [split_once], [BTreeMap] iteration. [RustText]: splitting, lines,
      case and decimal text.
    - [Ids]: [ferrum-common] (the error type) and [ferrum-ids] (hooked system calls,
      buffer limits, equivalence classes of system calls).
    - [Api]: [ferrum-api/src/types.rs], the policy structs with their defaults.
    - [Policy]: [ferrum-policy/src/lib.rs] (validators) and [eval.rs] (exceptions and
      the combination of rule hits).
    - [Wire]: the writer of [ferrum-compiler/src/encode.rs] and the bounded [Reader]
      that [ferrum-ebpf/src/spec.rs], [envelope.rs] and [ferrum-admission/src/program.rs]
      each repeat, as one writer monad and one reader monad, with a codec class that
      states when a reader undoes a writer.
    - [Encode]: the FADM and FEBP encoders of [ferrum-compiler/src/encode.rs].
    - [Febp], module [Spec]: the FEBP parser and its gates, [ferrum-ebpf/src/spec.rs].
    - [Wasm]: [ferrum-wasm-abi] and [ferrum-wasm-host], the reserved slot.
    - [Compiler]: [ferrum-compiler/src/lib.rs] and the digest of [ferrum-crypto].
    - [Envelope]: the FRMB envelope reader, [ferrum-ebpf/src/envelope.rs].
    - [RuntimeEval]: [ferrum-ebpf/src/eval.rs], rules and selectors on one record.
    - [Datapath]: [ferrum-ebpf-progs/src/lib.rs] (the branch-free slot predicate) and
      the LSM hook and slot walk of [main.rs].
    - [KRules]: [ferrum-ebpf/src/krules.rs], rules to kernel slots.
    - [Event]: [ferrum-ebpf/src/event.rs], the ring record, with the tracepoint of
      [ferrum-ebpf-progs/src/main.rs] that writes it.
    - [Prefilter]: [ferrum-ebpf/src/prefilter.rs].
    - [Loader]: [ferrum-ebpf/src/loader.rs] and the tracepoint plan of [lib.rs].
    - [Program], module [Admission]: [ferrum-admission/src/program.rs].
    - [Admit]: [ferrum-admission/src/eval.rs] and [admit_bytes] of [lib.rs]. The
      function the source calls [admit] is [admit_request].
    - [Planes]: no source of its own; relates [Admit] to [RuntimeEval].
    - [Crypto]: [ferrum-crypto/src/lib.rs].
    - [Grant], [Journal]: [ferrum-breakglass/src/lib.rs] and [journal.rs].
    - [BreakGlass]: [ferrum-admission/src/break_glass.rs].
    - [Encoding]: [ferrum-admission/src/encoding.rs], hex and Base64.
    - [Json]: [serde_json::Value] as the sources use it.
    - [Bundle]: [ferrum-admission/src/bundle.rs], the signed envelope (FSIG), the Secret
      and directory forms of the mount, and the load under a pinned key.
    - [Subject]: [ferrum-admission/src/subject.rs], from a Kubernetes object to the
      subject of the evaluator.
    - [Review]: [ferrum-admission/src/review.rs] and [labels.rs], one request from its
      body to the reply.
    - [Webhook]: the [WebhookState] of [ferrum-admission/src/server.rs] with one turn of
      each of its file watches.
    - [Cgroup], [Labels], [Pods], [Watch]: [ferrum-k8smeta], from the cgroup tree
      ([cgroupfs.rs]) and the API server ([watch.rs], [labels.rs], [source.rs]) to the
      index that names the workload of a cgroup ([index.rs], [resolver.rs]).
    - [WatchedLabels]: the watched label source of [ferrum-admission/src/labels.rs].
    - [Clock], [Respond], [AgentSource]: [clock.rs], [respond.rs] and [source.rs] of
      [ferrum-agent].
    - [Lkg]: the last-known-good directory of [ferrum-agent/src/lib.rs], over a file
      system whose calls may fail or be interrupted.
    - [AgentState]: the [Agent] of [ferrum-agent/src/lib.rs] and every operation that
      records an observation in it. [Degraded]: why it is degraded, with the ids of
      [metrics.rs].
    - [React]: from a ring record to decision, reaction and written record
      ([handle_event_at], [react], [pump.rs]), and the ring schedule of [ring.rs].
    - [Update]: installing, saving, restoring and polling of bundles and exceptions, the
      start of [main.rs], and the process as a set of reachable states.
    - [Proto]: the event envelope of [ferrum-proto] and the context that fills it.
      [Export], [ExportFile], [ExportQueue]: the sinks, the rotating file and the bounded
      queue with its writer thread, [ferrum-export].
    - [KernelMaps]: the writes of the policy maps in [ferrum-ebpf/src/kernel.rs], the
      republish of [ferrum-agent/src/lib.rs] and its turn in the ring thread of [main.rs].
    - [Http], [ApiClient]: the API server client of [ferrum-k8smeta/src/watch.rs]: framing,
      requests, the list-and-watch cycle and its delays.
    - [Publish]: [key.rs], [bundle.rs], [lib.rs] and the plans of [apply.rs] of
      [ferrum-controller]. [Health]: its [health.rs]. [Controller]: the handlers of its
      [watch.rs], the requests of [apply.rs], the counters of [metrics.rs] and the flags of
      [main.rs]. [ControllerLoops]: the loops of [watch.rs] interleaved. [ControllerRun]:
      no source of its own; the controller against an API server that obeys.
    - [Btf]: [ferrum-ebpf/src/btf.rs], the offset of a struct member in the kernel's types.
    - [Siem], [SiemSink]: [ferrum-siem], the three record formats and the sink with its
      connection. [SiemRead]: the receivers the formats are written for.
    - [Metrics]: [ferrum-metrics/src/lib.rs] and the pages of webhook and controller.
      [MetricsRead]: the reader of the text format. [MetricsServe]: the port,
      [ferrum-metrics/src/serve.rs].
    - [AgentStatus]: [status.rs] and [metrics.rs] of [ferrum-agent].
    - [Der], [ServingCert]: [ferrum-admission/src/serving_cert.rs], the walk over a
      certificate and the source that serves and rotates it.
    - [X509], [Mtls]: [x509.rs] and [mtls.rs] of [ferrum-crypto].
    - [Cli]: [validate.rs], [compile.rs], [fsig.rs], [sign.rs], [verify.rs] and
      [break_glass.rs] of [ferrum-cli]. [GenPki]: its [gen_pki.rs], with a certificate
      library (module [ToyPki]) that keeps the laws.
    - [AdmissionMain]: [ferrum-admission/src/main.rs] up to the first connection.

    ** How the code is represented

    A fallible function returns [result]; [?] is monadic bind and a guard clause is
    [refuse_if]. The text of a [format!] is the list of its pieces. Integers are [Z]
    with the wrap-around of their width written out ([mod U8], [mod U64], [sub8],
    [neg8]); bit operations are those of [Z]. An array access is an option whose
    [None] is the bounds panic. A [String] is a byte string and [str_ok] its UTF-8
    invariant. A [DateTime] is a number of nanoseconds, and [Utc::now()] an argument.
    Native-endian fields of a ring record are little-endian, as on both supported
    architectures. A mutable object is passed and returned; the loader, break-glass, the
    webhook, the label caches and the agent process are state machines with an inductive
    set of reachable states; a lock is held for one step. An [async] function of the
    controller is a program that returns, acts on the shared state or sends a request and
    goes on with the answer, and its loops take such steps in any order.
    [Instant::now()] is an argument. The bound
    [len bytes <= ISIZE_MAX] is the allocation limit of a Rust slice.

    Code outside the repository is a parameter: SHA-256 is a function, Ed25519 the
    class [Ed25519], [serde_json] the classes [GrantJson], [EntryJson], [ExceptionsJson],
    [ExceptionsWriter], [SpecJson], [SubjectJson] and [JsonText] (the text of a JSON
    value), [serde_yaml] the class [YamlText], chrono the classes [ChronoText] and
    [TimeText], rustls the class [TlsLib], x509-parser and rcgen the classes [X509Lib] and
    [CertBuilder] with the laws [CertLaws], webpki and ring the class [TlsCrypto], the text
    of [format!] (where a string is stored) a function [fmt], and what the kernel helpers
    and the file system answer are fields of a context or of the state. Where a theorem
    relies on the documented behaviour of one of them, it is a law class or a named
    hypothesis, and a concrete instance shows that it can hold. Recursion is structural,
    over the bytes, the rules or the lines, with two exceptions: the cgroup scan runs on
    as many steps as [visits] counts, which [scan_exact] proves to be enough for every
    file system, and a path is resolved through at most [MAXSYMLINKS] links, which is the
    limit of Linux itself.

    ** What the theorems show

    - Compilation: the validator accepts exactly the enforceable policies; after it no
      second gate of the compiler fires; the envelope, the FEBP slice and the FADM slice
      of a compiled policy are read back as the policy; no bytes at all make the FEBP
      parser return a program with an unnarrowed kill or a rule no record can match.
    - Runtime: the strongest matching rule decides; truncated paths and unobserved
      labels never weaken a decision (under the stated condition on the default);
      nothing is enforced outside enforce mode; the prefilter loses no decision; the
      ring decoder accepts exactly the wire images, and every hit is recorded or counted.
    - Kernel: the branch-free predicate and the comparison-free walk equal their plain
      specifications and stay inside their arrays; every prevention rule is in the
      slots, listed as excluded, or the set is refused; and, end to end, the hook and the
      evaluator agree on an exec that both see.
    - Loader: in every reachable state decisions come from a program whose digest and
      gates were checked, or everything is denied; a failed load changes no decision.
    - Admission: exact conditions for a denial, fail-closed labels, monotonicity in the
      strictness of the program, image references read back; both planes answer one
      selector alike; the subject of a Pod accounts for every container.
    - Webhook: a policy that compiles, signed and wrapped, is loaded as its own admission
      program; nothing the pinned key did not sign is loaded; in every reachable state a
      request is allowed only through a lawful suspension or by the evaluator of a signed
      program with signed waivers; waivers follow their mount.
    - Break-glass: signature domains are separate; a grant is honoured exactly under its
      conditions; a suspension is signed, bounded and already recorded in every reachable
      state; the outcome of a poll on every branch; the journal file verifies after every
      append that succeeds, and one published hash fixes the history before it.

    - Workload metadata: the scan of the cgroup tree ends and finds exactly the container
      cgroups; names are read back; label caches keep their ceilings; a cache that answers
      holds exactly what the API server delivered; an owed relist is paid; the index names
      only live containers; both planes read one label cache alike.
    - Agent: its clock never runs back; it accepts a bundle exactly when the webhook
      would; a save is atomic under faults and crashes, and a restart resumes the policy;
      in every reachable state only a signed policy kills and only a signed waiver spares;
      the exact conditions of a signal; every reaction and every record is accounted for;
      every degradation has its own id; its table of unproven cgroups is bounded.
    - Export: whatever fails and however threads interleave, an event is written or
      counted as lost; every line of every file is a whole record; the files stay within
      their bound; a close writes what was accepted.
    - Kernel maps: at every instant of a republish, under any failures, the kernel
      enforces at most one policy, on the cgroups that policy selects; the first turn
      without failures leaves exactly the policy in force.
    - API server client: whatever a server sends, reading it ends within its ceilings; a
      cache fed from the bytes of the wire holds the delivered world.
    - Kernel types: an offset is answered for exactly the type blobs in which every
      [linux_binprm] has its file name at that byte.
    - SIEM: a record of any profile is one line and is read back; every event is
      acknowledged or counted.
    - Metrics: a page is read back by a reader of the format; the port is bounded in bytes
      and connections; in every agent state the page is complete and shows no workload.
    - Certificates: the DER walk reads back what an encoder writes; over every run the
      certificate that is served is good; the base64 and PEM readers accept exactly what
      they should; a chain and a peer are accepted exactly under their conditions; nothing
      is issued that does not verify, and under a CA of its own issuance succeeds.
    - Command line: compile, sign and verify agree with the planes; a signed grant is
      honoured; a journal file verifies exactly when each of its chains does; the PKI
      command never changes a file that is there and writes a consistent set; a server
      that starts is a reachable state of the webhook.
    - Controller: the Secret planned for a policy is one that both planes load as that
      policy; over every interleaving and every answer of the API server each request is
      one it may send; the lists of exceptions are those of the delivered events; one turn
      on an obedient server brings a policy into force and the next writes nothing; the
      exact condition under which it ends itself.

    Lemmas named in the findings ([non_utf8_path_evades_suffix],
    [nul_comm_widens_in_kernel], [execve_only_rule_refuses_execveat],
    [unknown_operator_splits_planes], [allow_rule_outranks_default_audit],
    [corrupt_comm_len_matches], [reason_bound_counts_bytes], [failed_sync_breaks_chain],
    [torn_line_feed_breaks_chain], [broken_journal_keeps_window],
    [second_image_unchecked], [patches_overwrite_each_other], [restart_revives_waiver],
    [refused_update_stays_warm], [resigned_bundle_not_persisted],
    [failed_reload_not_retried], [flag_window_grows], [restart_glues_records],
    [close_waits_for_a_pause], [shutdown_race_loses_an_event], [failed_move_keeps_rules],
    [oversized_set_keeps_rules], [selected_error_names_cgroups], [immediate_end_spins],
    [short_line_reported_as_flood], [replayed_list_restores_waivers], [slow_run_is_terminal],
    [stale_list_overwrites_revocation], [restart_revokes_until_relisted],
    [long_chain_is_refused], [refused_connect_is_not_delayed],
    [unfinished_request_is_answered], [failed_rotation_not_retried], [lifetime_overshoots],
    [other_key_formats_are_refused], [blank_lines_shift_the_report]) evaluate the model on
    inputs where the code differs from what its comments say or its policy asks.

    ** Not modelled

    Sockets, DNS, TCP, TLS and threads themselves (a read, a write or a turn of a thread is
    an input), the kube client and its watcher, [main.rs] of the agent past its start, the
    resolution of mount paths in [bundle.rs] and [source.rs], the offline compile command of
    the controller (its YAML is read by a third-party parser), the argument parser of the
    command line (clap) and its deployment linter ([lint_deploy.rs], a list of checks over
    YAML manifests), the map layout check of the kernel object and the calls into aya
    ([kernel.rs]), log lines, and test fixtures. *)

From stdpp Require Export base tactics option list list_numbers numbers strings gmap fin_maps sorting.
From Stdlib Require Export ZArith Lia Ascii.

#[global] Open Scope string_scope.
#[global] Open Scope list_scope.
#[global] Open Scope Z_scope.
#[global] Set Default Goal Selector "!".

(** ** Results

    [Result<T, E>] of Rust, with the [?] operator as monadic bind. *)

Inductive result (E A : Type) : Type :=
| Ok (a : A)
| Err (e : E).

Arguments Ok {E A} a.
Arguments Err {E A} e.

#[global] Instance result_mret {E} : MRet (result E) := fun A a => Ok a.

#[global] Instance result_mbind {E} : MBind (result E) :=
  fun A B k m => match m with Ok a => k a | Err e => Err e end.

#[global] Instance result_fmap {E} : FMap (result E) :=
  fun A B f m => match m with Ok a => Ok (f a) | Err e => Err e end.

(** [Result::map_err]. *)
Definition map_err {E E' A} (f : E -> E') (m : result E A) : result E' A :=
  match m with Ok a => Ok a | Err e => Err (f e) end.

(** [Result::is_ok]. *)
Definition is_ok {E A} (m : result E A) : bool :=
  match m with Ok _ => true | Err _ => false end.

(** [Option::ok_or]. *)
Definition ok_or {E A} (o : option A) (e : E) : result E A :=
  match o with Some a => Ok a | None => Err e end.

(** A guard clause: [if cond { return Err(e) }]. *)
Definition refuse_if {E} (cond : bool) (e : E) : result E unit :=
  if cond then Err e else Ok tt.

(** [for x in xs { f(x)? }]: the first error wins and nothing after it runs. *)
Fixpoint try_each {E A} (f : A -> result E unit) (xs : list A) : result E unit :=
  match xs with
  | [] => Ok tt
  | x :: xs' => f x ≫= fun _ => try_each f xs'
  end.

(** [for x in xs { out.push(f(x)?) }]. *)
Fixpoint try_map {E A B} (f : A -> result E B) (xs : list A) : result E (list B) :=
  match xs with
  | [] => Ok []
  | x :: xs' => f x ≫= fun y => try_map f xs' ≫= fun ys => Ok (y :: ys)
  end.

Section result_lemmas.
Context {E : Type}.

Lemma bind_ok {A B} (m : result E A) (k : A -> result E B) b :
  m ≫= k = Ok b <-> exists a, m = Ok a /\ k a = Ok b.
Proof. destruct m; simpl; naive_solver. Qed.

Lemma bind_err {A B} (m : result E A) (k : A -> result E B) e :
  m ≫= k = Err e <-> m = Err e \/ exists a, m = Ok a /\ k a = Err e.
Proof. destruct m; simpl; naive_solver. Qed.

Lemma bind_ok_unit {B} (m : result E unit) (k : unit -> result E B) b :
  m ≫= k = Ok b <-> m = Ok tt /\ k tt = Ok b.
Proof. destruct m as [[]|]; simpl; naive_solver. Qed.

Lemma refuse_if_ok c (e : E) : refuse_if c e = Ok tt <-> c = false.
Proof. destruct c; simpl; naive_solver. Qed.

Lemma refuse_if_err c (e e' : E) : refuse_if c e = Err e' <-> c = true /\ e = e'.
Proof. destruct c; simpl; naive_solver. Qed.

Lemma try_each_ok {A} (f : A -> result E unit) xs :
  try_each f xs = Ok tt <-> Forall (fun x => f x = Ok tt) xs.
Proof.
  induction xs as [|x xs IH]; simpl.
  - split; [constructor | done].
  - rewrite bind_ok_unit, IH, Forall_cons. done.
Qed.

Lemma try_map_ok {A B} (f : A -> result E B) xs ys :
  try_map f xs = Ok ys <-> Forall2 (fun x y => f x = Ok y) xs ys.
Proof.
  revert ys. induction xs as [|x xs IH]; intros ys; simpl.
  - split; [by intros [= <-] | by inversion 1].
  - rewrite bind_ok. setoid_rewrite bind_ok. split.
    + intros (y & Hy & zs & Hzs%IH & [= <-]). by constructor.
    + inversion 1; subst. naive_solver.
Qed.

Lemma try_each_err {A} (f : A -> result E unit) xs e :
  try_each f xs = Err e <->
  exists pre x post, xs = pre ++ x :: post /\
    Forall (fun y => f y = Ok tt) pre /\ f x = Err e.
Proof.
  induction xs as [|x xs IH]; simpl.
  - split; [done | intros (pre & y & post & H & _); by destruct pre].
  - rewrite bind_err. split.
    + intros [Hx | ([] & Hx & Hxs)].
      * by exists [], x, xs.
      * apply IH in Hxs as (pre & y & post & -> & Hpre & Hy).
        exists (x :: pre), y, post. by repeat constructor.
    + intros ([|x' pre] & y & post & [= -> ->] & Hpre & Hy); [by left|].
      apply Forall_cons in Hpre as [Hx Hpre].
      right. exists tt. split; [done|]. apply IH. naive_solver.
Qed.
End result_lemmas.

Lemma map_err_ok {E E' A} (f : E -> E') (m : result E A) a : map_err f m = Ok a <-> m = Ok a.
Proof. destruct m; simpl; naive_solver. Qed.

Create HintDb ferrum.
Create Rewrite HintDb ferrum.
#[export] Hint Rewrite @refuse_if_ok @try_each_ok @bind_ok_unit : ferrum.

(** Break every [?] and guard of a successful run into its conditions. *)
Ltac inv_ok :=
  repeat match goal with
  | H : _ ≫= _ = Ok _ |- _ =>
      first [ apply bind_ok_unit in H; destruct H as [? H]
            | apply bind_ok in H; destruct H as (? & ? & H) ]
  | H : refuse_if _ _ = Ok _ |- _ => apply refuse_if_ok in H
  | H : mret _ = Ok _ |- _ => injection H as H; try subst
  | H : Ok _ = Ok _ |- _ => injection H as H; try subst
  | H : Err _ = Ok _ |- _ => discriminate H
  | H : Ok _ = Err _ |- _ => discriminate H
  end.

(** ** Booleans *)

Ltac bool_hyps :=
  repeat match goal with
  | H : _ && _ = true |- _ => apply andb_true_iff in H; destruct H
  | H : _ || _ = false |- _ => apply orb_false_iff in H; destruct H
  | H : negb _ = true |- _ => apply negb_true_iff in H
  | H : negb _ = false |- _ => apply negb_false_iff in H
  | H : bool_decide _ = true |- _ => apply bool_decide_eq_true in H
  | H : bool_decide _ = false |- _ => apply bool_decide_eq_false in H
  end.

Lemma existsb_false_Forall {A} (f : A -> bool) l :
  existsb f l = false <-> Forall (fun x => f x = false) l.
Proof.
  induction l as [|x l IH]; simpl; [by split; [constructor|] |].
  rewrite orb_false_iff, IH, Forall_cons. done.
Qed.

Lemma forallb_true_Forall {A} (f : A -> bool) l :
  forallb f l = true <-> Forall (fun x => f x = true) l.
Proof.
  induction l as [|x l IH]; simpl; [by split; [constructor|] |].
  rewrite andb_true_iff, IH, Forall_cons. done.
Qed.

Lemma existsb_ext_in {A} (f g : A -> bool) l :
  (forall x, x ∈ l -> f x = g x) -> existsb f l = existsb g l.
Proof.
  induction l as [|x l IH]; simpl; intros H; [done|].
  rewrite H, IH; [done | |]; set_solver.
Qed.

Lemma find_none_existsb {A} (f : A -> bool) l :
  List.find f l = None <-> existsb f l = false.
Proof.
  induction l as [|x l IH]; simpl; [done|].
  destruct (f x); simpl; [naive_solver | done].
Qed.

(** [iter.find_map(f)] over already mapped items: the first [Some]. *)
Fixpoint first_some {A} (l : list (option A)) : option A :=
  match l with
  | [] => None
  | Some a :: _ => Some a
  | None :: l' => first_some l'
  end.

Lemma first_some_none {A} (l : list (option A)) :
  first_some l = None <-> Forall (fun o => o = None) l.
Proof.
  induction l as [|[a|] l IH]; simpl.
  - by split; [constructor|].
  - split; [done | intros [? _]%Forall_cons; done].
  - rewrite IH, Forall_cons. naive_solver.
Qed.

(** [list.is_empty()]. *)
Definition is_empty {A} (l : list A) : bool :=
  match l with [] => true | _ => false end.

Lemma is_empty_true {A} (l : list A) : is_empty l = true <-> l = [].
Proof. destruct l; naive_solver. Qed.

Lemma is_empty_false {A} (l : list A) : is_empty l = false <-> l <> [].
Proof. destruct l; naive_solver. Qed.

(** ** Machine integers

    A [w]-bit unsigned integer is a [Z] in [0, 2^w); wrap-around is written out. *)

Definition U8 : Z := 256.
Definition U16 : Z := 65536.
Definition U32 : Z := 4294967296.
Definition U64 : Z := 18446744073709551616.
Definition I31 : Z := 2147483648.
(** [isize::MAX]: no Rust slice or [Vec<u8>] is longer. *)
Definition ISIZE_MAX : Z := 9223372036854775807.

(** Length of a list as a [usize]. *)
Definition len {A} (l : list A) : Z := Z.of_nat (length l).

Lemma len_app {A} (l k : list A) : len (l ++ k) = len l + len k.
Proof. unfold len. rewrite length_app. lia. Qed.

Lemma len_nonneg {A} (l : list A) : 0 <= len l.
Proof. unfold len. lia. Qed.

Lemma len_cons {A} (x : A) l : len (x :: l) = 1 + len l.
Proof. unfold len. simpl length. lia. Qed.

(** [n.to_le_bytes()] of an [n]-byte integer. *)
Fixpoint le_bytes (n : nat) (z : Z) : list Z :=
  match n with
  | O => []
  | S n' => z mod 256 :: le_bytes n' (z / 256)
  end.

(** [uN::from_le_bytes]. *)
Fixpoint le_val (l : list Z) : Z :=
  match l with
  | [] => 0
  | b :: l' => b + 256 * le_val l'
  end.

Lemma length_le_bytes n z : length (le_bytes n z) = n.
Proof. revert z. induction n; simpl; auto. Qed.

Lemma le_val_bytes n z : le_val (le_bytes n z) = z mod 256 ^ Z.of_nat n.
Proof.
  revert z. induction n as [|n IH]; intros z.
  - simpl. by rewrite Z.mod_1_r.
  - cbn [le_bytes le_val]. rewrite IH.
    rewrite Nat2Z.inj_succ, Z.pow_succ_r by lia.
    rewrite Z.rem_mul_r by lia. done.
Qed.

Lemma le_val_range l : Forall (fun b => 0 <= b < 256) l -> 0 <= le_val l < 256 ^ len l.
Proof.
  induction 1 as [|b l Hb _ IH]; [done|]. cbn [le_val]. rewrite len_cons.
  rewrite Z.add_comm, Z.pow_add_r, Z.pow_1_r by (pose proof (len_nonneg l); lia). lia.
Qed.

Lemma le_bytes_val l :
  Forall (fun b => 0 <= b < 256) l -> le_bytes (length l) (le_val l) = l.
Proof.
  induction 1 as [|b l Hb _ IH]; [done|]. cbn [length le_bytes le_val].
  rewrite (Z.mul_comm 256), Z.mod_add, Z.div_add, Z.mod_small, Z.div_small by lia.
  by rewrite Z.add_0_l, IH.
Qed.

Lemma le_bytes_ok n z : Forall (fun b => 0 <= b < 256) (le_bytes n z).
Proof.
  revert z. induction n; intros z; simpl; constructor; [|done]. apply Z.mod_pos_bound. done.
Qed.

(** [i32] as two's complement over its unsigned image. *)
Definition signed32 (u : Z) : Z := if u <? I31 then u else u - U32.

Lemma signed32_mod z : - I31 <= z < I31 -> signed32 (z mod U32) = z.
Proof.
  unfold signed32, I31, U32. intros Hz.
  destruct (decide (0 <= z)).
  - rewrite Z.mod_small by lia. case_match; lia.
  - replace (z mod 4294967296) with (z + 4294967296).
    + case_match; lia.
    + symmetry. rewrite <- (Z.mod_add z 1) by lia. apply Z.mod_small. lia.
Qed.

(** Decide a statement about all bytes by evaluating it on each of the 256. *)
Definition all_bytes : list Z := seqZ 0 256.

Lemma byte_sweep (P : Z -> bool) :
  forallb P all_bytes = true -> forall b, 0 <= b < 256 -> P b = true.
Proof.
  intros H b Hb. apply forallb_true_Forall in H.
  rewrite Forall_forall in H. apply H.
  unfold all_bytes. apply elem_of_seqZ. lia.
Qed.

(** ** Slices *)

(** [slice.get(a..b)]: [None] when [a > b] or [b] is past the end. *)
Definition get_range {A} (l : list A) (a b : Z) : option (list A) :=
  if (a <=? b) && (b <=? len l)
  then Some (take (Z.to_nat (b - a)) (drop (Z.to_nat a) l))
  else None.

(** Is [p] a prefix of [l]? [slice.starts_with(p)]. *)
Fixpoint prefixb (p l : list Z) : bool :=
  match p, l with
  | [], _ => true
  | _ :: _, [] => false
  | x :: p', y :: l' => (x =? y) && prefixb p' l'
  end.

(** [slice.ends_with(p)]. *)
Definition suffixb (p l : list Z) : bool := prefixb (rev p) (rev l).

(** Does [p] occur in [l]? *)
Fixpoint infixb (p l : list Z) : bool :=
  prefixb p l ||
  match l with
  | [] => false
  | _ :: l' => infixb p l'
  end.

Lemma prefixb_spec p l : prefixb p l = true <-> exists k, l = p ++ k.
Proof.
  revert l. induction p as [|x p IH]; intros [|y l]; simpl.
  - naive_solver.
  - naive_solver.
  - naive_solver.
  - rewrite andb_true_iff, Z.eqb_eq, IH. naive_solver.
Qed.

Lemma suffixb_spec p l : suffixb p l = true <-> exists k, l = k ++ p.
Proof.
  unfold suffixb. rewrite prefixb_spec. split.
  - intros [k Hk]. exists (rev k).
    rewrite <- (rev_involutive l), Hk, rev_app_distr, rev_involutive. done.
  - intros [k ->]. exists (rev k). by rewrite rev_app_distr.
Qed.

Lemma prefixb_length p l : prefixb p l = true -> (length p <= length l)%nat.
Proof. intros [k ->]%prefixb_spec. rewrite length_app. lia. Qed.

Lemma prefixb_take p l : prefixb p l = bool_decide (take (length p) l = p).
Proof.
  apply eq_bool_prop_intro. rewrite !Is_true_true, bool_decide_eq_true, prefixb_spec.
  split.
  - intros [k ->]. by rewrite take_app_length.
  - intros H. exists (drop (length p) l). rewrite <- H at 1. by rewrite take_drop.
Qed.

Lemma suffixb_drop p l :
  suffixb p l = bool_decide ((length p <= length l)%nat /\ drop (length l - length p) l = p).
Proof.
  apply eq_bool_prop_intro. rewrite !Is_true_true, bool_decide_eq_true, suffixb_spec.
  split.
  - intros [k ->]. rewrite length_app. split; [lia|].
    replace (length k + length p - length p)%nat with (length k) by lia.
    apply drop_app_length.
  - intros [Hl H]. exists (take (length l - length p) l).
    rewrite <- H at 2. by rewrite take_drop.
Qed.
