(* ===== verification/RustStd.v ===== *)
(** * What the sources use of Rust's standard library

    Strings are byte strings (an [ascii] is one byte), so [str::len] is the byte
    length the sources compare against buffer sizes. UTF-8 validity, [trim] and
    the slice predicates are executable functions over the bytes. A [BTreeMap]
    is a [gmap]; iterating it visits the keys in byte order. *)

From S2P Require Import Prelude.

(** ** Strings and bytes *)

Definition byte_of_ascii (c : ascii) : Z := Z.of_N (N_of_ascii c).
Definition ascii_of_byte (b : Z) : ascii := ascii_of_N (Z.to_N b).

(** [s.as_bytes()]. *)
Definition as_bytes (s : string) : list Z := map byte_of_ascii (String.list_ascii_of_string s).

(** The string whose bytes are [l]. *)
Definition string_of_bytes (l : list Z) : string :=
  String.string_of_list_ascii (map ascii_of_byte l).

(** [s.len()], in bytes. *)
Definition slen (s : string) : Z := len (as_bytes s).

Lemma ascii_byte_roundtrip c : ascii_of_byte (byte_of_ascii c) = c.
Proof. unfold ascii_of_byte, byte_of_ascii. rewrite N2Z.id. apply ascii_N_embedding. Qed.

Lemma byte_of_ascii_range c : 0 <= byte_of_ascii c < 256.
Proof. unfold byte_of_ascii. pose proof (N_ascii_bounded c). lia. Qed.

Lemma byte_ascii_roundtrip b : 0 <= b < 256 -> byte_of_ascii (ascii_of_byte b) = b.
Proof.
  intros Hb. unfold ascii_of_byte, byte_of_ascii.
  rewrite N_ascii_embedding by lia. lia.
Qed.

Lemma as_bytes_app s t : as_bytes (s +:+ t) = as_bytes s ++ as_bytes t.
Proof. unfold as_bytes. rewrite <- map_app. f_equal. induction s as [|c s IH]; [done|]. simpl. by f_equal. Qed.

Lemma string_of_as_bytes s : string_of_bytes (as_bytes s) = s.
Proof.
  unfold string_of_bytes, as_bytes. rewrite map_map.
  rewrite (map_ext _ id) by (intros; apply ascii_byte_roundtrip).
  rewrite map_id. apply String.string_of_list_ascii_of_string.
Qed.

Lemma as_bytes_of_string l :
  Forall (fun b => 0 <= b < 256) l -> as_bytes (string_of_bytes l) = l.
Proof.
  intros Hl. unfold string_of_bytes, as_bytes.
  rewrite String.list_ascii_of_string_of_list_ascii, map_map.
  induction Hl as [|b l Hb Hl IH]; simpl; [done|].
  by rewrite byte_ascii_roundtrip, IH.
Qed.

Lemma as_bytes_inj s t : as_bytes s = as_bytes t -> s = t.
Proof. intros H. by rewrite <- (string_of_as_bytes s), H, string_of_as_bytes. Qed.

Lemma as_bytes_range s : Forall (fun b => 0 <= b < 256) (as_bytes s).
Proof.
  unfold as_bytes. apply Forall_map, Forall_true. intros. apply byte_of_ascii_range.
Qed.

(** ** UTF-8 ([core::str::from_utf8]) *)

Definition in_range (lo hi b : Z) : bool := (lo <=? b) && (b <=? hi).
Definition is_cont (b : Z) : bool := in_range 0x80 0xBF b.

(** Second-byte ranges of a three-byte and of a four-byte sequence. *)
Definition utf8_second3 (b0 b1 : Z) : bool :=
  if b0 =? 0xE0 then in_range 0xA0 0xBF b1
  else if b0 =? 0xED then in_range 0x80 0x9F b1
  else in_range 0xE1 0xEF b0 && is_cont b1.

Definition utf8_second4 (b0 b1 : Z) : bool :=
  if b0 =? 0xF0 then in_range 0x90 0xBF b1
  else if b0 =? 0xF4 then in_range 0x80 0x8F b1
  else in_range 0xF1 0xF3 b0 && is_cont b1.

(** [Utf8Error::valid_up_to]: bytes of the longest valid prefix made of whole
    scalar values; the whole length when the input is valid. *)
Fixpoint utf8_valid_up_to (l : list Z) : nat :=
  match l with
  | [] => O
  | b0 :: l1 =>
      if b0 <? 0x80 then S (utf8_valid_up_to l1) else
      match l1 with
      | [] => O
      | b1 :: l2 =>
          if in_range 0xC2 0xDF b0 then
            if is_cont b1 then S (S (utf8_valid_up_to l2)) else O
          else
          match l2 with
          | [] => O
          | b2 :: l3 =>
              if in_range 0xE0 0xEF b0 then
                if utf8_second3 b0 b1 && is_cont b2
                then S (S (S (utf8_valid_up_to l3))) else O
              else
              match l3 with
              | [] => O
              | b3 :: l4 =>
                  if in_range 0xF0 0xF4 b0 then
                    if utf8_second4 b0 b1 && is_cont b2 && is_cont b3
                    then S (S (S (S (utf8_valid_up_to l4)))) else O
                  else O
              end
          end
      end
  end.

Definition utf8_ok (l : list Z) : bool := Nat.eqb (utf8_valid_up_to l) (length l).

(** [String::from_utf8(bytes)] as an option. *)
Definition from_utf8 (l : list Z) : option string :=
  if utf8_ok l then Some (string_of_bytes l) else None.

(** The type invariant of [str] and [String]: the bytes are UTF-8. *)
Definition str_ok (s : string) : Prop := utf8_ok (as_bytes s) = true.

#[global] Instance str_ok_dec s : Decision (str_ok s).
Proof. unfold str_ok. apply _. Defined.

Lemma from_utf8_as_bytes s : str_ok s -> from_utf8 (as_bytes s) = Some s.
Proof. intros H. unfold from_utf8. rewrite H. by rewrite string_of_as_bytes. Qed.

(** ASCII bytes are valid UTF-8 on their own. *)
Lemma utf8_valid_ascii l :
  Forall (fun b => b < 128) l -> utf8_valid_up_to l = length l.
Proof.
  induction 1 as [|b l Hb Hl IH]; simpl; [done|].
  rewrite (proj2 (Z.ltb_lt b 128)) by done. by rewrite IH.
Qed.

Lemma utf8_valid_le l : (utf8_valid_up_to l <= length l)%nat.
Proof.
  remember (length l) as n eqn:Hn. revert l Hn.
  induction (lt_wf n) as [n _ IH]. intros l ->.
  destruct l as [|b0 [|b1 [|b2 [|b3 l]]]]; simpl; repeat case_match; try lia;
    repeat match goal with
    | |- context [utf8_valid_up_to ?k] =>
        pose proof (IH (length k) ltac:(simpl; lia) k eq_refl);
        generalize dependent (utf8_valid_up_to k); intros
    end; simpl in *; lia.
Qed.

(** ** [str::chars]

    A [char] is kept as the bytes of its UTF-8 encoding. *)

Fixpoint chars (l : list Z) : list (list Z) :=
  match l with
  | [] => []
  | b0 :: l1 =>
      if b0 <? 0x80 then [b0] :: chars l1 else
      match l1 with
      | [] => [[b0]]
      | b1 :: l2 =>
          if b0 <? 0xE0 then [b0; b1] :: chars l2 else
          match l2 with
          | [] => [[b0; b1]]
          | b2 :: l3 =>
              if b0 <? 0xF0 then [b0; b1; b2] :: chars l3 else
              match l3 with
              | [] => [[b0; b1; b2]]
              | b3 :: l4 => [b0; b1; b2; b3] :: chars l4
              end
          end
      end
  end.

(** The encodings of one scalar value. *)
Definition is_scalar (c : list Z) : bool :=
  match c with
  | [b0] => b0 <? 0x80
  | [b0; b1] => in_range 0xC2 0xDF b0 && is_cont b1
  | [b0; b1; b2] => in_range 0xE0 0xEF b0 && utf8_second3 b0 b1 && is_cont b2
  | [b0; b1; b2; b3] => in_range 0xF0 0xF4 b0 && utf8_second4 b0 b1 && is_cont b2 && is_cont b3
  | _ => false
  end.

(** [char::is_control]: category Cc, U+0000..001F and U+007F..009F. *)
Definition is_control (c : list Z) : bool :=
  match c with
  | [b] => (b <? 0x20) || (b =? 0x7F)
  | [b0; b1] => (b0 =? 0xC2) && in_range 0x80 0x9F b1
  | _ => false
  end.

Lemma utf8_cons_scalar c l :
  is_scalar c = true -> utf8_valid_up_to (c ++ l) = (length c + utf8_valid_up_to l)%nat.
Proof.
  destruct c as [|b0 [|b1 [|b2 [|b3 [|b4 c]]]]]; simpl; try done.
  - by intros ->.
  - intros [H0 ->]%andb_true_iff. rewrite H0. unfold in_range in H0. bool_hyps.
    by rewrite (proj2 (Z.ltb_ge b0 128)) by lia.
  - intros [[H0 H1]%andb_true_iff H2]%andb_true_iff. rewrite H0, H1, H2. unfold in_range in *. bool_hyps.
    rewrite (proj2 (Z.ltb_ge b0 128)), (proj2 (Z.leb_gt b0 223)), andb_false_r by lia. done.
  - intros [[[H0 H1]%andb_true_iff H2]%andb_true_iff H3]%andb_true_iff. rewrite H0, H1, H2, H3.
    unfold in_range in *. bool_hyps.
    rewrite (proj2 (Z.ltb_ge b0 128)), (proj2 (Z.leb_gt b0 223)), (proj2 (Z.leb_gt b0 239)),
      !andb_false_r by lia. done.
Qed.

(** What is made of whole scalar values is UTF-8, and a UTF-8 string falls apart
    into them. *)
Lemma utf8_concat cs : Forall (fun c => is_scalar c = true) cs -> utf8_ok (concat cs) = true.
Proof.
  unfold utf8_ok. rewrite Nat.eqb_eq. induction 1 as [|c cs Hc _ IH]; simpl; [done|].
  by rewrite utf8_cons_scalar, length_app, IH.
Qed.

Lemma utf8_chars l :
  utf8_ok l = true -> Forall (fun c => is_scalar c = true) (chars l) /\ concat (chars l) = l.
Proof.
  unfold utf8_ok. rewrite Nat.eqb_eq. remember (length l) as n eqn:Hn. revert l Hn.
  induction (lt_wf n) as [n _ IH]. intros l ->.
  assert (Hstep : forall c k, l = c ++ k -> chars l = c :: chars k -> is_scalar c = true ->
    utf8_valid_up_to l = length l ->
    Forall (fun c => is_scalar c = true) (chars l) /\ concat (chars l) = l).
  { intros c k -> -> Hc Hv. rewrite utf8_cons_scalar, length_app in Hv by done.
    destruct (IH (length k)) with (l := k) as [Hf He]; try lia.
    - rewrite length_app. destruct c; [done|]. simpl. lia.
    - simpl. rewrite He. auto. }
  destruct l as [|b0 l1]; [by split|]. intros Hv. pose proof Hv as Hv'. simpl in Hv'.
  destruct (b0 <? 128) eqn:E0; [refine (Hstep [b0] l1 eq_refl _ _ Hv); simpl; by rewrite ?E0|].
  destruct l1 as [|b1 l2]; [done|].
  destruct (in_range 194 223 b0) eqn:E1.
  { destruct (is_cont b1) eqn:E2; [|done].
    refine (Hstep [b0; b1] l2 eq_refl _ _ Hv); simpl; rewrite ?E0, ?E1, ?E2; try done.
    unfold in_range in E1. bool_hyps. by rewrite (proj2 (Z.ltb_lt b0 224)) by lia. }
  destruct l2 as [|b2 l3]; [done|].
  destruct (in_range 224 239 b0) eqn:E2.
  { destruct (utf8_second3 b0 b1) eqn:E3; [|done]. destruct (is_cont b2) eqn:E4; [|done].
    refine (Hstep [b0; b1; b2] l3 eq_refl _ _ Hv); simpl; rewrite ?E0, ?E2, ?E3, ?E4; try done.
    unfold in_range in E2. bool_hyps.
    by rewrite (proj2 (Z.ltb_ge b0 224)), (proj2 (Z.ltb_lt b0 240)) by lia. }
  destruct l3 as [|b3 l4]; [done|].
  destruct (in_range 240 244 b0) eqn:E3; [|done].
  destruct (utf8_second4 b0 b1) eqn:E4; [|done]. destruct (is_cont b2) eqn:E5; [|done].
  destruct (is_cont b3) eqn:E6; [|done].
  refine (Hstep [b0; b1; b2; b3] l4 eq_refl _ _ Hv); simpl; rewrite ?E0, ?E3, ?E4, ?E5, ?E6; try done.
  unfold in_range in E3. bool_hyps.
  by rewrite (proj2 (Z.ltb_ge b0 224)), (proj2 (Z.ltb_ge b0 240)) by lia.
Qed.

(** ** [str::trim]

    White space is Unicode's [White_Space]: six ASCII bytes and the encodings of
    U+0085, U+00A0, U+1680, U+2000..200A, U+2028, U+2029, U+202F, U+205F, U+3000. *)

Definition ws1 (b : Z) : bool := in_range 9 13 b || (b =? 32).
Definition ws2 (b0 b1 : Z) : bool := (b0 =? 0xC2) && ((b1 =? 0x85) || (b1 =? 0xA0)).
Definition ws3 (b0 b1 b2 : Z) : bool :=
  ((b0 =? 0xE1) && (b1 =? 0x9A) && (b2 =? 0x80))
  || ((b0 =? 0xE2) && (b1 =? 0x80) &&
      (in_range 0x80 0x8A b2 || (b2 =? 0xA8) || (b2 =? 0xA9) || (b2 =? 0xAF)))
  || ((b0 =? 0xE2) && (b1 =? 0x81) && (b2 =? 0x9F))
  || ((b0 =? 0xE3) && (b1 =? 0x80) && (b2 =? 0x80)).

Fixpoint trim_start_bytes (l : list Z) : list Z :=
  match l with
  | [] => []
  | b0 :: l1 =>
      if ws1 b0 then trim_start_bytes l1 else
      match l1 with
      | [] => l
      | b1 :: l2 =>
          if ws2 b0 b1 then trim_start_bytes l2 else
          match l2 with
          | [] => l
          | b2 :: l3 => if ws3 b0 b1 b2 then trim_start_bytes l3 else l
          end
      end
  end.

(** The same from the other end: [l] is the string reversed, so a multi-byte
    white space shows its last byte first. *)
Fixpoint trim_rev_bytes (l : list Z) : list Z :=
  match l with
  | [] => []
  | b0 :: l1 =>
      if ws1 b0 then trim_rev_bytes l1 else
      match l1 with
      | [] => l
      | b1 :: l2 =>
          if ws2 b1 b0 then trim_rev_bytes l2 else
          match l2 with
          | [] => l
          | b2 :: l3 => if ws3 b2 b1 b0 then trim_rev_bytes l3 else l
          end
      end
  end.

Definition trim_bytes (l : list Z) : list Z :=
  rev (trim_rev_bytes (rev (trim_start_bytes l))).

(** [s.trim()]. *)
Definition trim (s : string) : string := string_of_bytes (trim_bytes (as_bytes s)).

Lemma trim_start_suffix l : exists k, l = k ++ trim_start_bytes l.
Proof.
  remember (length l) as n eqn:Hn. revert l Hn.
  induction (lt_wf n) as [n _ IH]. intros l ->.
  destruct l as [|b0 l1]; [by exists []|]. simpl.
  destruct (ws1 b0).
  { destruct (IH (length l1) ltac:(simpl; lia) l1 eq_refl) as [k Hk].
    exists (b0 :: k). simpl. by rewrite <- Hk. }
  destruct l1 as [|b1 l2]; [by exists []|].
  destruct (ws2 b0 b1).
  { destruct (IH (length l2) ltac:(simpl; lia) l2 eq_refl) as [k Hk].
    exists (b0 :: b1 :: k). simpl. by rewrite <- Hk. }
  destruct l2 as [|b2 l3]; [by exists []|].
  destruct (ws3 b0 b1 b2); [|by exists []].
  destruct (IH (length l3) ltac:(simpl; lia) l3 eq_refl) as [k Hk].
  exists (b0 :: b1 :: b2 :: k). simpl. by rewrite <- Hk.
Qed.

Lemma trim_rev_suffix l : exists k, l = k ++ trim_rev_bytes l.
Proof.
  remember (length l) as n eqn:Hn. revert l Hn.
  induction (lt_wf n) as [n _ IH]. intros l ->.
  destruct l as [|b0 l1]; [by exists []|]. simpl.
  destruct (ws1 b0).
  { destruct (IH (length l1) ltac:(simpl; lia) l1 eq_refl) as [k Hk].
    exists (b0 :: k). simpl. by rewrite <- Hk. }
  destruct l1 as [|b1 l2]; [by exists []|].
  destruct (ws2 b1 b0).
  { destruct (IH (length l2) ltac:(simpl; lia) l2 eq_refl) as [k Hk].
    exists (b0 :: b1 :: k). simpl. by rewrite <- Hk. }
  destruct l2 as [|b2 l3]; [by exists []|].
  destruct (ws3 b2 b1 b0); [|by exists []].
  destruct (IH (length l3) ltac:(simpl; lia) l3 eq_refl) as [k Hk].
  exists (b0 :: b1 :: b2 :: k). simpl. by rewrite <- Hk.
Qed.

(** [trim] cuts a piece off each end and changes nothing between. *)
Lemma trim_bytes_infix l : exists k k', l = k ++ trim_bytes l ++ k'.
Proof.
  unfold trim_bytes. destruct (trim_start_suffix l) as [k Hk].
  destruct (trim_rev_suffix (rev (trim_start_bytes l))) as [k' Hk'].
  exists k, (rev k'). rewrite <- rev_app_distr, <- Hk', rev_involutive. done.
Qed.

Lemma trim_bytes_id l : length (trim_bytes l) = length l -> trim_bytes l = l.
Proof.
  destruct (trim_bytes_infix l) as (k & k' & Hl). intros Hlen.
  apply (f_equal length) in Hl as Hlen'. rewrite !length_app in Hlen'.
  assert (k = []) as -> by (destruct k; [done | simpl in *; lia]).
  assert (k' = []) as -> by (destruct k'; [done | simpl in *; lia]).
  rewrite app_nil_r in Hl. done.
Qed.

Lemma trim_bytes_range l :
  Forall (fun b => 0 <= b < 256) l -> Forall (fun b => 0 <= b < 256) (trim_bytes l).
Proof.
  destruct (trim_bytes_infix l) as (k & k' & Hl). rewrite Hl at 1.
  rewrite !Forall_app. naive_solver.
Qed.

Lemma as_bytes_trim s : as_bytes (trim s) = trim_bytes (as_bytes s).
Proof. apply as_bytes_of_string, trim_bytes_range, as_bytes_range. Qed.

(** A string whose trimmed form has the same length is already trimmed. *)
Lemma trim_same_len s : slen (trim s) = slen s -> trim s = s.
Proof.
  unfold slen, len. intros H. apply as_bytes_inj. rewrite as_bytes_trim in *.
  apply trim_bytes_id. lia.
Qed.

Lemma trim_slen_le s : slen (trim s) <= slen s.
Proof.
  unfold slen. rewrite as_bytes_trim.
  destruct (trim_bytes_infix (as_bytes s)) as (k & k' & H).
  rewrite H at 2. rewrite !len_app.
  pose proof (len_nonneg k). pose proof (len_nonneg k'). lia.
Qed.

(** ** Predicates on [str] *)

(** [s.is_empty()]. *)
Definition str_empty (s : string) : bool := is_empty (as_bytes s).
(** [s.starts_with(p)], [s.ends_with(p)], [s.contains(p)] for a string pattern. *)
Definition starts_with (s p : string) : bool := prefixb (as_bytes p) (as_bytes s).
Definition ends_with (s p : string) : bool := suffixb (as_bytes p) (as_bytes s).
Definition contains (s p : string) : bool := infixb (as_bytes p) (as_bytes s).

(** String equality as a boolean, and membership in a list of strings. *)
Definition str_eqb (s t : string) : bool := bool_decide (s = t).
Definition list_contains (l : list string) (s : string) : bool := existsb (str_eqb s) l.

Lemma str_eqb_true s t : str_eqb s t = true <-> s = t.
Proof. apply bool_decide_eq_true. Qed.

Lemma str_eqb_false s t : str_eqb s t = false <-> s <> t.
Proof. apply bool_decide_eq_false. Qed.

Lemma str_eqb_refl s : str_eqb s s = true.
Proof. by apply str_eqb_true. Qed.

Lemma str_eqb_sym s t : str_eqb s t = str_eqb t s.
Proof. apply bool_decide_ext. naive_solver. Qed.

Lemma list_contains_elem l s : list_contains l s = true <-> s ∈ l.
Proof.
  unfold list_contains. rewrite existsb_exists. split.
  - intros (t & Ht & ->%str_eqb_true). by apply list_elem_of_In.
  - intros Hs. exists s. split; [by apply list_elem_of_In | by apply str_eqb_true].
Qed.

Lemma str_empty_true s : str_empty s = true <-> s = "".
Proof.
  unfold str_empty. rewrite is_empty_true. split.
  - intros H. by apply as_bytes_inj.
  - by intros ->.
Qed.

Lemma str_empty_false s : str_empty s = false <-> s <> "".
Proof. rewrite <- not_true_iff_false, str_empty_true. done. Qed.

#[export] Hint Rewrite str_eqb_true str_eqb_false list_contains_elem str_empty_true : ferrum.

(** ** [split_once] and [rsplit_once] at a one-byte character, over the bytes *)

Fixpoint split_once (c : Z) (l : list Z) : option (list Z * list Z) :=
  match l with
  | [] => None
  | b :: l' =>
      if b =? c then Some ([], l')
      else match split_once c l' with
           | Some (left_, right_) => Some (b :: left_, right_)
           | None => None
           end
  end.

Definition rsplit_once (c : Z) (l : list Z) : option (list Z * list Z) :=
  match split_once c (rev l) with
  | Some (right_, left_) => Some (rev left_, rev right_)
  | None => None
  end.

Definition has_byte (c : Z) (l : list Z) : bool := existsb (Z.eqb c) l.

Lemma has_byte_false c l : has_byte c l = false <-> c ∉ l.
Proof.
  unfold has_byte. rewrite existsb_false_Forall, Forall_forall. split.
  - intros H Hin. specialize (H _ Hin). lia.
  - intros H x Hx. apply Z.eqb_neq. naive_solver.
Qed.

Lemma split_once_some c l r : c ∉ l -> split_once c (l ++ c :: r) = Some (l, r).
Proof.
  induction l as [|b l IH]; simpl; intros H; [by rewrite Z.eqb_refl|].
  rewrite (proj2 (Z.eqb_neq b c)) by set_solver. by rewrite IH by set_solver.
Qed.

Lemma split_once_none c l : split_once c l = None <-> c ∉ l.
Proof.
  induction l as [|b l IH]; simpl; [set_solver|].
  destruct (Z.eqb_spec b c) as [->|Hne]; [set_solver|].
  destruct (split_once c l) as [[]|]; [|set_solver].
  split; [done|]. intros H. assert (c ∉ l) as Hc by set_solver. by apply IH in Hc.
Qed.

Lemma split_once_inv c l a b : split_once c l = Some (a, b) -> l = a ++ c :: b /\ c ∉ a.
Proof.
  revert a. induction l as [|x l IH]; intros a; simpl; [done|].
  destruct (Z.eqb_spec x c) as [->|Hne].
  - intros [= <- <-]. set_solver.
  - destruct (split_once c l) as [[a' b']|]; [|done]. intros [= <- <-].
    destruct (IH a' eq_refl) as [-> Hn]. set_solver.
Qed.

Lemma rsplit_once_some c l r : c ∉ r -> rsplit_once c (l ++ c :: r) = Some (l, r).
Proof.
  intros H. unfold rsplit_once. rewrite rev_app_distr. simpl. rewrite <- app_assoc. simpl.
  rewrite split_once_some by (by rewrite list_elem_of_In, <- in_rev, <- list_elem_of_In).
  by rewrite !rev_involutive.
Qed.

Lemma rsplit_once_none c l : c ∉ l -> rsplit_once c l = None.
Proof.
  intros H. unfold rsplit_once. rewrite (proj2 (split_once_none c (rev l))); [done|].
  by rewrite list_elem_of_In, <- in_rev, <- list_elem_of_In.
Qed.

(** ** [BTreeMap<String, V>] iteration

    The iterator yields the entries in ascending byte order of their keys. *)

Fixpoint bytes_leb (a b : list Z) : bool :=
  match a, b with
  | [], _ => true
  | _ :: _, [] => false
  | x :: a', y :: b' => (x <? y) || ((x =? y) && bytes_leb a' b')
  end.

Definition key_le {V} (a b : string * V) : Prop :=
  bytes_leb (as_bytes a.1) (as_bytes b.1) = true.

#[global] Instance key_le_dec {V} (a b : string * V) : Decision (key_le a b).
Proof. unfold key_le. apply _. Defined.

(** Entries of the map, in iteration order. *)
Definition btree_iter {V} (m : gmap string V) : list (string * V) :=
  merge_sort key_le (map_to_list m).

(** [BTreeMap::insert] for each pair in turn; a later pair wins. *)
Definition insert_all {V} (l : list (string * V)) : gmap string V :=
  foldl (fun m kv => <[kv.1 := kv.2]> m) ∅ l.

Lemma btree_iter_perm {V} (m : gmap string V) : btree_iter m ≡ₚ map_to_list m.
Proof. apply merge_sort_Permutation. Qed.

Lemma foldl_insert_nodup {V} (l : list (string * V)) (m : gmap string V) :
  NoDup l.*1 -> Forall (fun kv => m !! kv.1 = None) l ->
  foldl (fun m kv => <[kv.1 := kv.2]> m) m l = list_to_map l ∪ m.
Proof.
  revert m. induction l as [|[k v] l IH]; intros m Hnd Hm; simpl.
  - by rewrite (left_id_L ∅ (∪)).
  - apply NoDup_cons in Hnd as [Hk Hnd]. apply Forall_cons in Hm as [Hkm Hm].
    rewrite IH; [| done |].
    + rewrite <- insert_union_r, insert_union_l; [done|].
      by apply not_elem_of_list_to_map_1.
    + rewrite Forall_forall in *. intros [k' v'] Hin. simpl in *.
      rewrite lookup_insert_ne; [by apply (Hm (k', v'))|].
      intros ->. apply Hk. apply list_elem_of_fmap. by exists (k', v').
Qed.

(** Re-inserting what the iterator yields rebuilds the map. *)
Lemma insert_all_iter {V} (m : gmap string V) : insert_all (btree_iter m) = m.
Proof.
  unfold insert_all. rewrite foldl_insert_nodup.
  - rewrite (right_id_L ∅ (∪)).
    rewrite (list_to_map_proper _ (map_to_list m)); [apply list_to_map_to_list | |].
    + rewrite (btree_iter_perm m). apply NoDup_fst_map_to_list.
    + apply btree_iter_perm.
  - rewrite (btree_iter_perm m). apply NoDup_fst_map_to_list.
  - apply Forall_true. intros. apply lookup_empty.
Qed.

Lemma btree_iter_elem {V} (m : gmap string V) k v :
  (k, v) ∈ btree_iter m <-> m !! k = Some v.
Proof. by rewrite (btree_iter_perm m), elem_of_map_to_list. Qed.

Lemma btree_iter_len {V} (m : gmap string V) : len (btree_iter m) = Z.of_nat (size m).
Proof. unfold len. by rewrite (btree_iter_perm m), length_map_to_list. Qed.

Definition map_empty {V} (m : gmap string V) : bool := bool_decide (m = ∅).
