(* ===== verification/RustText.v ===== *)
(** * Text handling of Rust's library

    The string methods the node-side sources use beyond [RustStd]: patterns of several
    bytes, white-space separated words, lines, ASCII case, percent and decimal text. *)

From S2P Require Import Prelude RustStd.

(** ** Prefixes, suffixes and splits *)

(** [strip_prefix] and [strip_suffix]. *)
Definition strip_prefix (p l : list Z) : option (list Z) :=
  if prefixb p l then Some (drop (length p) l) else None.

Definition strip_suffix (p l : list Z) : option (list Z) :=
  if suffixb p l then Some (take (length l - length p) l) else None.

(** [split_once] at a pattern: its first occurrence. *)
Fixpoint split_once_str (pat l : list Z) : option (list Z * list Z) :=
  if prefixb pat l then Some ([], drop (length pat) l)
  else match l with
       | [] => None
       | b :: l' =>
           match split_once_str pat l' with
           | Some (left_, right_) => Some (b :: left_, right_)
           | None => None
           end
       end.

(** [rsplit_once]: its last. *)
Definition rsplit_once_str (pat l : list Z) : option (list Z * list Z) :=
  match split_once_str (rev pat) (rev l) with
  | Some (right_, left_) => Some (rev left_, rev right_)
  | None => None
  end.

(** [split] at one byte: one piece more than there are separators. *)
Fixpoint split_on (c : Z) (l : list Z) : list (list Z) :=
  match l with
  | [] => [[]]
  | b :: l' =>
      match split_on c l' with
      | [] => [[b]]
      | p :: ps => if b =? c then [] :: p :: ps else (b :: p) :: ps
      end
  end.

(** [char::is_whitespace] of one scalar. *)
Definition is_whitespace (c : list Z) : bool :=
  match c with
  | [b] => ws1 b
  | [b0; b1] => ws2 b0 b1
  | [b0; b1; b2] => ws3 b0 b1 b2
  | _ => false
  end.

Fixpoint words_from (acc : list Z) (cs : list (list Z)) : list (list Z) :=
  match cs with
  | [] => if is_empty acc then [] else [acc]
  | c :: cs' =>
      if is_whitespace c then (if is_empty acc then [] else [acc]) ++ words_from [] cs'
      else words_from (acc ++ c) cs'
  end.

(** [split_whitespace]. *)
Definition split_whitespace (l : list Z) : list (list Z) := words_from [] (chars l).

(** ** Lines ([BufRead::lines], [str::lines]) *)

Definition strip_cr (l : list Z) : list Z :=
  match rev l with 13 :: r => rev r | _ => l end.

(** Pieces ended by a line feed, less a carriage return before it; a last piece
    without one counts when it is not empty, and is kept as it is. *)
Fixpoint lines_from (acc l : list Z) : list (list Z) :=
  match l with
  | [] => if is_empty acc then [] else [acc]
  | b :: l' => if b =? 10 then strip_cr acc :: lines_from [] l' else lines_from (acc ++ [b]) l'
  end.

Definition lines_of (l : list Z) : list (list Z) := lines_from [] l.

(** [u8::is_ascii_whitespace]: space, tab, line feed, form feed, carriage return. *)
Definition is_ascii_whitespace (b : Z) : bool :=
  (b =? 32) || (b =? 9) || (b =? 10) || (b =? 12) || (b =? 13).

(** ** Numbers *)

(** Decimal digits, most significant first; [None] at any other byte. *)
Definition decimal (l : list Z) : option Z :=
  foldl (fun acc b => a ← acc; if in_range 48 57 b then Some (10 * a + (b - 48)) else None) (Some 0) l.

(** [str::parse::<u64>]: an optional plus sign, at least one digit, no overflow. *)
Definition parse_u64 (l : list Z) : option Z :=
  let digits := match l with 43 :: l' => l' | _ => l end in
  if is_empty digits then None
  else match decimal digits with
       | Some n => if n <? U64 then Some n else None
       | None => None
       end.

(** ** Case *)

Definition ascii_lower (b : Z) : Z := if in_range 65 90 b then b + 32 else b.

(** [to_ascii_lowercase] and [eq_ignore_ascii_case]. *)
Definition to_ascii_lowercase (l : list Z) : list Z := map ascii_lower l.
Definition eq_ignore_ascii_case (l k : list Z) : bool :=
  bool_decide (to_ascii_lowercase l = to_ascii_lowercase k).

(** ** Sorting

    [sort_by] and [sort] are stable: an element goes before the first one that it is
    not greater than. *)

Section sort.
Context {A : Type} (leb : A -> A -> bool).

Fixpoint insert_sorted (x : A) (l : list A) : list A :=
  match l with
  | [] => [x]
  | y :: l' => if leb x y then x :: y :: l' else y :: insert_sorted x l'
  end.

Definition stable_sort (l : list A) : list A := foldr insert_sorted [] l.

Lemma insert_sorted_perm x l : insert_sorted x l ≡ₚ x :: l.
Proof.
  induction l as [|y l IH]; simpl; [done|]. destruct (leb x y); [done|]. rewrite IH. apply Permutation_swap.
Qed.

Lemma stable_sort_perm l : stable_sort l ≡ₚ l.
Proof. induction l as [|x l IH]; simpl; [done|]. by rewrite insert_sorted_perm, IH. Qed.

Lemma stable_sort_elem l x : x ∈ stable_sort l <-> x ∈ l.
Proof. by rewrite stable_sort_perm. Qed.
End sort.

(** ** Facts *)

Lemma strip_prefix_app p l : strip_prefix p (p ++ l) = Some l.
Proof.
  unfold strip_prefix. rewrite (proj2 (prefixb_spec p (p ++ l))) by eauto. by rewrite drop_app_length.
Qed.

Lemma strip_suffix_app p l : strip_suffix p (l ++ p) = Some l.
Proof.
  unfold strip_suffix. rewrite (proj2 (suffixb_spec p (l ++ p))) by eauto.
  rewrite length_app. replace (length l + length p - length p)%nat with (length l) by lia.
  by rewrite take_app_length.
Qed.

Lemma split_once_str_inv pat l a b : split_once_str pat l = Some (a, b) -> l = a ++ pat ++ b.
Proof.
  revert a. induction l as [|x l IH]; intros a; cbn [split_once_str].
  - destruct (prefixb pat []) eqn:E; [|done]. intros [= <- <-].
    apply prefixb_spec in E as [k Hk]. destruct pat; [done | discriminate].
  - destruct (prefixb pat (x :: l)) eqn:E.
    + intros [= <- <-]. apply prefixb_spec in E as [k ->]. by rewrite drop_app_length.
    + destruct (split_once_str pat l) as [[a' b']|]; [|done]. intros [= <- <-].
      by rewrite (IH a' eq_refl).
Qed.

Lemma rsplit_once_str_inv pat l a b : rsplit_once_str pat l = Some (a, b) -> l = a ++ pat ++ b.
Proof.
  unfold rsplit_once_str. destruct (split_once_str (rev pat) (rev l)) as [[r' l']|] eqn:E; [|done].
  intros [= <- <-]. apply split_once_str_inv in E.
  rewrite <- (rev_involutive l), E, !rev_app_distr, rev_involutive. by rewrite app_assoc.
Qed.

(** A pattern whose first byte does not occur in the text before it is found there. *)
Lemma split_once_str_at c pat a b : c ∉ a -> split_once_str (c :: pat) (a ++ c :: pat ++ b) = Some (a, b).
Proof.
  induction a as [|x a IH]; intros Hc.
  - cbn [app]. destruct (pat ++ b) eqn:E; cbn [split_once_str];
      (rewrite (proj2 (prefixb_spec (c :: pat) _)); [|exists b; by rewrite <- E]);
      rewrite <- E; cbn [length drop]; by rewrite drop_app_length.
  - apply not_elem_of_cons in Hc as [Hx Ha]. cbn [app split_once_str].
    assert (E : prefixb (c :: pat) (x :: a ++ c :: pat ++ b) = false).
    { cbn [prefixb]. by rewrite (proj2 (Z.eqb_neq c x)). }
    rewrite E, IH by done. done.
Qed.

Lemma lower_idem b : ascii_lower (ascii_lower b) = ascii_lower b.
Proof. unfold ascii_lower, in_range. destruct (65 <=? b) eqn:E1, (b <=? 90) eqn:E2; simpl;
  repeat (case_match; bool_hyps); try lia; done. Qed.

Lemma lower_bytes_idem l : to_ascii_lowercase (to_ascii_lowercase l) = to_ascii_lowercase l.
Proof. unfold to_ascii_lowercase. rewrite map_map. apply map_ext. apply lower_idem. Qed.
