(* ===== verification/Ids.v ===== *)
(** * ferrum-common and ferrum-ids

    The error type every crate returns, and the datapath constants: which
    syscalls are hooked, how long a [comm] or a path can be, and which names
    spell one kernel operation. *)

From S2P Require Import Prelude RustStd.

(** ** Errors (ferrum-common)

    A [format!] call is kept as the list of its pieces: literal text, strings
    shown with [{}] or [{:?}], numbers, and instants. *)

Inductive frag : Type :=
| Lit (s : string)
| Str (s : string)
| Dbg (s : string)
| Num (n : Z)
| Names (l : list string)
| Time (t : Z)
| Span (d : Z).

Definition msg : Type := list frag.

Inductive FerrumError : Type :=
| Validation (m : msg)
| Compile (m : msg)
| Integrity (m : msg)
| Degraded (m : msg).

#[global] Instance frag_eq_dec : EqDecision frag.
Proof. solve_decision. Defined.
#[global] Instance FerrumError_eq_dec : EqDecision FerrumError.
Proof. solve_decision. Defined.

(** The [Display] that [thiserror] derives. *)
Definition error_to_string (e : FerrumError) : msg :=
  match e with
  | Validation m => Lit "validation failed: " :: m
  | Compile m => Lit "policy compile error: " :: m
  | Integrity m => Lit "bundle integrity error: " :: m
  | Degraded m => Lit "degraded: " :: m
  end.

Abbreviation Result := (result FerrumError).

(** ** Datapath vocabulary (ferrum-ids) *)

Definition AGENT_ABI : Z := 1.
Definition ADMISSION_ABI : Z := 1.

Definition DATAPATH_SYSCALLS : list string :=
  ["bpf"; "execve"; "execveat"; "finit_module"; "init_module"; "open"; "openat"].

Definition COMM_MATCH_MAX : Z := 15.
Definition PATH_MATCH_MAX : Z := 255.

Definition first_over_limit (named : list string) (limit : Z) : option (string * Z) :=
  option_map (fun s => (s, slen s)) (List.find (fun s => limit <? slen s) named).

Definition unobservable_comm (named : list string) : option (string * Z) :=
  first_over_limit named COMM_MATCH_MAX.

Definition unobservable_path_pattern (named : list string) : option (string * Z) :=
  first_over_limit named PATH_MATCH_MAX.

Record ArchRestrictedSyscall : Type := {
  ars_syscall : string;
  ars_arches : list string
}.

Definition ARCH_RESTRICTED_SYSCALLS : list ArchRestrictedSyscall :=
  [{| ars_syscall := "open"; ars_arches := ["x86_64"] |}].

Definition SYSCALL_EQUIVALENCE_CLASSES : list (list string) := [["open"; "openat"]].

Definition is_datapath_syscall (name : string) : bool :=
  list_contains DATAPATH_SYSCALLS name.

Definition arch_restricted_syscall (name : string) : option ArchRestrictedSyscall :=
  List.find (fun r => str_eqb (ars_syscall r) name) ARCH_RESTRICTED_SYSCALLS.

Definition syscall_equivalence_class (name : string) : option (list string) :=
  List.find (fun class => list_contains class name) SYSCALL_EQUIVALENCE_CLASSES.

(** The [for class in ...] loop of [uncovered_equivalent_syscall]. *)
Fixpoint uncovered_in (classes : list (list string)) (names : list string)
    : option (string * string) :=
  match classes with
  | [] => None
  | class :: rest =>
      match List.find (fun m => list_contains names m) class with
      | None => uncovered_in rest names
      | Some listed =>
          match List.find (fun m => negb (list_contains names m)) class with
          | Some missing => Some (listed, missing)
          | None => uncovered_in rest names
          end
      end
  end.

Definition uncovered_equivalent_syscall (named : list string) : option (string * string) :=
  uncovered_in SYSCALL_EQUIVALENCE_CLASSES (map trim named).

Definition datapath_syscalls_for_arch (arch : string) : list string :=
  List.filter (fun name =>
      match arch_restricted_syscall name with
      | Some r => list_contains (ars_arches r) arch
      | None => true
      end) DATAPATH_SYSCALLS.

(** ** Lemmas *)

Lemma first_over_limit_none named limit :
  first_over_limit named limit = None <-> Forall (fun s => slen s <= limit) named.
Proof.
  unfold first_over_limit.
  split.
  - intros H. destruct (List.find _ _) eqn:Hf; [done|].
    apply find_none_existsb, existsb_false_Forall in Hf.
    eapply Forall_impl; [exact Hf | intros s; simpl; lia].
  - intros H. destruct (List.find _ _) as [s|] eqn:Hf; [|done].
    apply find_some in Hf as [Hin Hs].
    rewrite Forall_forall in H. apply list_elem_of_In in Hin.
    specialize (H _ Hin). lia.
Qed.

Lemma uncovered_in_none classes names :
  uncovered_in classes names = None <->
  Forall (fun class => (exists m, m ∈ class /\ m ∈ names) ->
                       forall m, m ∈ class -> m ∈ names) classes.
Proof.
  induction classes as [|class rest IH]; simpl; [by split; [constructor|]|].
  rewrite Forall_cons, <- IH.
  destruct (List.find (fun m => list_contains names m) class) as [listed|] eqn:Hl.
  - apply find_some in Hl as [Hin Hls%list_contains_elem].
    apply list_elem_of_In in Hin.
    destruct (List.find _ _) as [missing|] eqn:Hm.
    + apply find_some in Hm as [Hmin Hms%negb_true_iff]. split; [done|].
      intros [H _]. apply list_elem_of_In in Hmin.
      assert (missing ∈ names) as Hc by eauto.
      apply list_contains_elem in Hc. congruence.
    + split; [|naive_solver]. intros ->. split; [|done]. intros _ m Hmin.
      apply find_none_existsb, existsb_false_Forall in Hm.
      rewrite Forall_forall in Hm. specialize (Hm _ Hmin).
      apply negb_false_iff in Hm. by apply list_contains_elem.
  - apply find_none_existsb, existsb_false_Forall in Hl.
    split; [|naive_solver]. intros ->. split; [|done].
    intros (m & Hmc & Hmn). rewrite Forall_forall in Hl.
    specialize (Hl _ Hmc). apply list_contains_elem in Hmn. congruence.
Qed.
