(* ===== verification/Api.v ===== *)
(** * ferrum-api: the [ferrum.io/v1] resource types

    Records and enums of [crates/ferrum-api/src/types.rs]. A field is prefixed
    with the initials of its type. A [DateTime<Utc>] is its count of nanoseconds
    since the epoch. *)

From S2P Require Import Prelude RustStd Ids.

Inductive PolicyMode : Type := Observe | Audit | Enforce.
Inductive FailurePolicy : Type := Fail_ | Ignore_.
Inductive PssProfile : Type := Privileged | Baseline | Restricted | Custom.
Inductive RuntimeAction : Type := RAllow | RAudit | RDeny | RKill | RIsolate.

#[global] Instance PolicyMode_eq_dec : EqDecision PolicyMode.
Proof. solve_decision. Defined.
#[global] Instance FailurePolicy_eq_dec : EqDecision FailurePolicy.
Proof. solve_decision. Defined.
#[global] Instance PssProfile_eq_dec : EqDecision PssProfile.
Proof. solve_decision. Defined.
#[global] Instance RuntimeAction_eq_dec : EqDecision RuntimeAction.
Proof. solve_decision. Defined.

Record LabelSelectorRequirement : Type := {
  lsr_key : string;
  lsr_operator : string;
  lsr_values : list string
}.

Record LabelSelector : Type := {
  ls_match_labels : gmap string string;
  ls_match_expressions : list LabelSelectorRequirement
}.

Record ImageSelector : Type := {
  is_registries_allow : list string;
  is_require_digest : bool
}.

Record PolicySelector : Type := {
  ps_cluster_selector : LabelSelector;
  ps_namespace_selector : LabelSelector;
  ps_workload_selector : LabelSelector;
  ps_service_account_selector : LabelSelector;
  ps_image : ImageSelector
}.

Record TrustRoot : Type := {
  tr_name : string;
  tr_keyless_issuer_allow : list string;
  tr_public_keys : list string
}.

Record SupplySpec : Type := {
  ss_require_signed : bool;
  ss_deny_unsigned : bool;
  ss_deny_latest_tag : bool;
  ss_trust_roots : list TrustRoot
}.

Record AdmitDeny : Type := {
  ad_privileged : bool;
  ad_host_pid : bool;
  ad_host_ipc : bool;
  ad_host_network : bool;
  ad_host_path : bool;
  ad_allow_privilege_escalation : bool;
  ad_run_as_root : bool;
  ad_wildcards_rbac : bool;
  ad_cluster_admin_bind : bool;
  ad_added_capabilities : list string
}.

Record AdmitMutate : Type := {
  am_inject_seccomp_runtime_default : bool;
  am_drop_all_capabilities : bool;
  am_read_only_root_filesystem : bool
}.

Record AdmitSpec : Type := {
  as_failure_policy : FailurePolicy;
  as_pss : PssProfile;
  as_deny : AdmitDeny;
  as_mutate : AdmitMutate
}.

Record RuntimeMatch : Type := {
  rm_comm_in : list string;
  rm_container_only : bool;
  rm_path_prefix : list string;
  rm_path_suffix : list string;
  rm_not_agent_self : bool
}.

Record RuntimeRule : Type := {
  rr_id : string;
  rr_syscalls : list string;
  rr_match_on : RuntimeMatch;
  rr_action : RuntimeAction
}.

Record RuntimeSpec : Type := {
  rs_default_action : RuntimeAction;
  rs_rules : list RuntimeRule
}.

Record ClusterSecurityPolicySpec : Type := {
  csp_mode : PolicyMode;
  csp_priority : Z;
  csp_disabled : bool;
  csp_selector : PolicySelector;
  csp_supply : SupplySpec;
  csp_admit : AdmitSpec;
  csp_runtime : RuntimeSpec
}.

Record SecurityPolicySpec : Type := {
  sp_mode : PolicyMode;
  sp_priority : Z;
  sp_disabled : bool;
  sp_selector : PolicySelector;
  sp_supply : SupplySpec;
  sp_admit : AdmitSpec;
  sp_runtime : RuntimeSpec
}.

Record ExceptionTarget : Type := {
  et_namespace : string;
  et_policies : list string;
  et_rules : list string
}.

Record PolicyExceptionSpec : Type := {
  pe_ticket : string;
  pe_requested_by : string;
  pe_approved_by : string;
  pe_reason : string;
  pe_expires_at : Z;
  pe_mode : PolicyMode;
  pe_four_eyes : bool;
  pe_target : ExceptionTarget
}.

(** ** [Default] of the types that derive it *)

Definition default_label_selector : LabelSelector :=
  {| ls_match_labels := ∅; ls_match_expressions := [] |}.
Definition default_image_selector : ImageSelector :=
  {| is_registries_allow := []; is_require_digest := false |}.
Definition default_selector : PolicySelector :=
  {| ps_cluster_selector := default_label_selector;
     ps_namespace_selector := default_label_selector;
     ps_workload_selector := default_label_selector;
     ps_service_account_selector := default_label_selector;
     ps_image := default_image_selector |}.
Definition default_supply : SupplySpec :=
  {| ss_require_signed := false; ss_deny_unsigned := false;
     ss_deny_latest_tag := false; ss_trust_roots := [] |}.
Definition default_deny : AdmitDeny :=
  {| ad_privileged := false; ad_host_pid := false; ad_host_ipc := false;
     ad_host_network := false; ad_host_path := false;
     ad_allow_privilege_escalation := false; ad_run_as_root := false;
     ad_wildcards_rbac := false; ad_cluster_admin_bind := false;
     ad_added_capabilities := [] |}.
Definition default_mutate : AdmitMutate :=
  {| am_inject_seccomp_runtime_default := false; am_drop_all_capabilities := false;
     am_read_only_root_filesystem := false |}.
Definition default_admit : AdmitSpec :=
  {| as_failure_policy := Fail_; as_pss := Restricted;
     as_deny := default_deny; as_mutate := default_mutate |}.
Definition default_match : RuntimeMatch :=
  {| rm_comm_in := []; rm_container_only := false; rm_path_prefix := [];
     rm_path_suffix := []; rm_not_agent_self := false |}.

(** ** The invariant Rust's types carry

    Every [String] is UTF-8 and every [i32] is in range; the round trips below
    need it because the model's strings are arbitrary byte strings. *)

Definition strs_ok (l : list string) : Prop := Forall str_ok l.

Definition requirement_ok (e : LabelSelectorRequirement) : Prop :=
  str_ok (lsr_key e) /\ str_ok (lsr_operator e) /\ strs_ok (lsr_values e).

Definition label_selector_ok (s : LabelSelector) : Prop :=
  map_Forall (fun k v => str_ok k /\ str_ok v) (ls_match_labels s) /\
  Forall requirement_ok (ls_match_expressions s).

Definition selector_ok (s : PolicySelector) : Prop :=
  label_selector_ok (ps_cluster_selector s) /\
  label_selector_ok (ps_namespace_selector s) /\
  label_selector_ok (ps_workload_selector s) /\
  label_selector_ok (ps_service_account_selector s) /\
  strs_ok (is_registries_allow (ps_image s)).

Definition trust_root_ok (t : TrustRoot) : Prop :=
  str_ok (tr_name t) /\ strs_ok (tr_keyless_issuer_allow t) /\ strs_ok (tr_public_keys t).

Definition rule_ok (r : RuntimeRule) : Prop :=
  str_ok (rr_id r) /\ strs_ok (rr_syscalls r) /\
  strs_ok (rm_comm_in (rr_match_on r)) /\
  strs_ok (rm_path_prefix (rr_match_on r)) /\
  strs_ok (rm_path_suffix (rr_match_on r)).

Definition i32_ok (z : Z) : Prop := - I31 <= z < I31.

#[global] Instance strs_ok_dec l : Decision (strs_ok l).
Proof. unfold strs_ok. apply _. Defined.
#[global] Instance requirement_ok_dec e : Decision (requirement_ok e).
Proof. unfold requirement_ok. apply _. Defined.
#[global] Instance label_selector_ok_dec s : Decision (label_selector_ok s).
Proof. unfold label_selector_ok. apply _. Defined.
#[global] Instance selector_ok_dec s : Decision (selector_ok s).
Proof. unfold selector_ok. apply _. Defined.
#[global] Instance trust_root_ok_dec t : Decision (trust_root_ok t).
Proof. unfold trust_root_ok. apply _. Defined.
#[global] Instance rule_ok_dec r : Decision (rule_ok r).
Proof. unfold rule_ok. apply _. Defined.
#[global] Instance i32_ok_dec z : Decision (i32_ok z).
Proof. unfold i32_ok. apply _. Defined.
