(* ===== verification/Policy.v ===== *)
(** * ferrum-policy: validation of policies and combination of hits

    [validate_*] of [crates/ferrum-policy/src/lib.rs] and [evaluate] with
    [exception_applies] of [crates/ferrum-policy/src/eval.rs]. The clock reading
    [Utc::now()] is the argument [now]. *)

From S2P Require Import Prelude RustStd Ids Api.

Definition MIN_REASON_LEN : Z := 8.
Definition MAX_EXCEPTION_DAYS : Z := 90.

(** [Days::new(n)] as nanoseconds. *)
Definition days (n : Z) : Z := n * 86400 * 1000000000.

(** ** Exceptions *)

Definition validate_exception (spec : PolicyExceptionSpec) (now : Z) : Result unit :=
  _ ← refuse_if (str_empty (trim (pe_ticket spec)))
        (Validation [Lit "PolicyException.ticket пуст"]);
  _ ← refuse_if (slen (trim (pe_reason spec)) <? MIN_REASON_LEN)
        (Validation [Lit "reason короче восьми символов — это не обоснование, это статус в Slack"]);
  _ ← refuse_if (str_empty (trim (pe_approved_by spec)))
        (Validation [Lit "PolicyException.approvedBy пуст — waiver без второго согласующего не waiver"]);
  _ ← refuse_if (str_eqb (trim (pe_approved_by spec)) (trim (pe_requested_by spec)))
        (Validation [Lit "requestedBy совпадает с approvedBy — self-approve запрещён"]);
  _ ← refuse_if (pe_expires_at spec <=? now)
        (Validation [Lit "expiresAt уже в прошлом. Исключение родилось мёртвым"]);
  _ ← refuse_if (now + days MAX_EXCEPTION_DAYS <? pe_expires_at spec)
        (Validation [Lit "waiver длиннее 90 дней. Это уже не исключение, а новая политика без комитета"]);
  _ ← refuse_if (is_empty (et_policies (pe_target spec))
                 || existsb (fun p => str_empty (trim p)) (et_policies (pe_target spec)))
        (Validation [Lit "PolicyException.target.policies пуст — пустой target это не scope, это global waiver"]);
  refuse_if (is_empty (et_rules (pe_target spec))
             || existsb (fun r => str_empty (trim r)) (et_rules (pe_target spec)))
        (Validation [Lit "PolicyException.target.rules пуст — исключение без rule id не бьёт deny"]).

(** ** Policies *)

Definition validate_selector (selector : PolicySelector) : Result unit :=
  let cluster := ps_cluster_selector selector in
  refuse_if (negb (map_empty (ls_match_labels cluster))
             || negb (is_empty (ls_match_expressions cluster)))
    (Validation [Lit "selector.clusterSelector вне MVP-1: у меток кластера нет источника ни на одной плоскости — admission может их только заявить флагом --cluster-label, а узел не может и этого. Политика с ним отказывает каждому Pod в admission и применяется к каждому workload на рантайме, держа Degraded вечно истинным. Сузьте политику namespaceSelector / workloadSelector / serviceAccountSelector"]).

Definition ED25519_PUBLIC_KEY_HEX_LEN : Z := 64.

(** [u8::is_ascii_hexdigit]. *)
Definition is_ascii_hexdigit (b : Z) : bool :=
  in_range 48 57 b || in_range 97 102 b || in_range 65 70 b.

Definition is_ed25519_public_key_hex (s : string) : bool :=
  (slen s =? ED25519_PUBLIC_KEY_HEX_LEN) && forallb is_ascii_hexdigit (as_bytes s).

(** Inner loop over the keys of one root; carries [has_verifying_key]. *)
Fixpoint supply_keys (name : string) (keys : list string) (has : bool) : Result bool :=
  match keys with
  | [] => Ok has
  | key :: keys' =>
      if negb (is_ed25519_public_key_hex key)
      then Err (Validation [Lit "trustRoot '"; Str name;
                            Lit "': publicKey должен быть 64 hex-символа (Ed25519)"])
      else supply_keys name keys' true
  end.

Fixpoint supply_roots (roots : list TrustRoot) (has : bool) : Result bool :=
  match roots with
  | [] => Ok has
  | root :: roots' =>
      if str_empty (trim (tr_name root))
      then Err (Validation [Lit "trustRoot.name пуст"])
      else has' ← supply_keys (tr_name root) (tr_public_keys root) has;
           supply_roots roots' has'
  end.

Definition validate_supply (supply : SupplySpec) : Result unit :=
  let signed := ss_require_signed supply || ss_deny_unsigned supply in
  _ ← refuse_if (signed && is_empty (ss_trust_roots supply))
        (Validation [Lit "requireSigned/denyUnsigned без trustRoots: корни доверия едут в bundle, admission не ходит в Rekor на каждый Pod"]);
  has_verifying_key ← supply_roots (ss_trust_roots supply) false;
  refuse_if (signed && negb has_verifying_key)
    (Validation [Lit "requireSigned/denyUnsigned без publicKeys: keyless issuer не корень в bundle, admission не ходит в Rekor"]).

(** Both branches of the source's [if] are [Ok(())]. *)
Definition validate_admit (adm : AdmitSpec) : Result unit := Ok tt.

Definition equivalence_gap (listed missing : string) : msg :=
  match arch_restricted_syscall listed, arch_restricted_syscall missing with
  | _, Some r => [Lit "это одна операция ядра, и на "; Names (ars_arches r);
                  Lit " вызов '"; Str missing; Lit "' обходит правило"]
  | Some r, None => [Lit "'"; Str listed; Lit "' есть только на "; Names (ars_arches r);
                     Lit ", на остальных арках правило мертво"]
  | None, None => [Lit "это одна операция ядра, вызов '"; Str missing; Lit "' обходит правило"]
  end.

Definition validate_rule_syscalls (rule_id : string) (syscalls : list string) : Result unit :=
  _ ← try_each (fun syscall =>
        let name := trim syscall in
        refuse_if (negb (is_datapath_syscall name))
          (Validation [Lit "rule '"; Str rule_id; Lit "': syscall '"; Str name;
             Lit "' — датапас его не наблюдает; правило не может сработать. Наблюдаемые: ";
             Names DATAPATH_SYSCALLS])) syscalls;
  match uncovered_equivalent_syscall syscalls with
  | Some (listed, missing) =>
      Err (Validation ([Lit "rule '"; Str rule_id; Lit "': syscall '"; Str listed;
             Lit "' назван без '"; Str missing; Lit "' — "]
             ++ equivalence_gap listed missing
             ++ [Lit ". Bundle один на кластер: перечислите обе формы"]))
  | None => Ok tt
  end.

Definition validate_rule_predicates (rule_id : string)
    (comm_in path_prefix path_suffix : list string) : Result unit :=
  _ ← match unobservable_comm comm_in with
      | Some (comm, n) =>
          Err (Validation [Lit "rule '"; Str rule_id; Lit "': comm '"; Str comm;
                 Lit "' длиной "; Num n; Lit " байт, ядро отдаёт не больше ";
                 Num COMM_MATCH_MAX; Lit " — правило не может совпасть никогда"])
      | None => Ok tt
      end;
  try_each (fun '(field, patterns) =>
      match unobservable_path_pattern patterns with
      | Some (pattern, n) =>
          Err (Validation [Lit "rule '"; Str rule_id; Lit "': "; Str field; Lit " '";
                 Str pattern; Lit "' длиной "; Num n;
                 Lit " байт, датапас несёт не больше "; Num PATH_MATCH_MAX;
                 Lit " — правило не может совпасть никогда"])
      | None => Ok tt
      end) [("pathPrefix", path_prefix); ("pathSuffix", path_suffix)].

Definition validate_rule_action (rule_id : string) (action : RuntimeAction) : Result unit :=
  match action with
  | RDeny => Err (Validation [Lit "rule '"; Str rule_id;
      Lit "': action=deny — runtime-план его не исполняет: tracepoint срабатывает после syscall, отменить вызов нечем. Deny — глагол admission (admit.deny); в runtime исполнимы allow, audit, kill"])
  | RIsolate => Err (Validation [Lit "rule '"; Str rule_id;
      Lit "': action=isolate — реализации изоляции нет; правило совпадёт и не сделает ничего. В runtime исполнимы allow, audit, kill"])
  | RAllow | RAudit | RKill => Ok tt
  end.

(** [{:?}] of an action. *)
Definition action_debug (action : RuntimeAction) : string :=
  match action with
  | RAllow => "Allow" | RAudit => "Audit" | RDeny => "Deny"
  | RKill => "Kill" | RIsolate => "Isolate"
  end.

(** [matches!(action, Kill | Isolate)]. *)
Definition kills (action : RuntimeAction) : bool :=
  match action with RKill | RIsolate => true | _ => false end.

(** The rule names nothing it could match on. *)
Definition without_match (rule : RuntimeRule) : bool :=
  is_empty (rm_comm_in (rr_match_on rule))
  && is_empty (rm_path_prefix (rr_match_on rule))
  && is_empty (rm_path_suffix (rr_match_on rule))
  && is_empty (rr_syscalls rule).

(** Body of the rule loop, [ids] being the set of ids already inserted. *)
Fixpoint validate_rules (ids : gset string) (rules : list RuntimeRule) : Result unit :=
  match rules with
  | [] => Ok tt
  | rule :: rules' =>
      _ ← refuse_if (str_empty (trim (rr_id rule))) (Validation [Lit "runtime rule без id"]);
      _ ← refuse_if (bool_decide (rr_id rule ∈ ids))
            (Validation [Lit "дубль runtime rule id '"; Str (rr_id rule); Lit "'"]);
      _ ← validate_rule_action (rr_id rule) (rr_action rule);
      _ ← validate_rule_syscalls (rr_id rule) (rr_syscalls rule);
      _ ← validate_rule_predicates (rr_id rule) (rm_comm_in (rr_match_on rule))
            (rm_path_prefix (rr_match_on rule)) (rm_path_suffix (rr_match_on rule));
      _ ← refuse_if (kills (rr_action rule) && without_match rule)
            (Validation [Lit "rule '"; Str (rr_id rule); Lit "' с action=";
                         Dbg (action_debug (rr_action rule)); Lit " без match — это kill-all, не политика"]);
      validate_rules ({[rr_id rule]} ∪ ids) rules'
  end.

Definition validate_runtime (runtime : RuntimeSpec) : Result unit :=
  _ ← refuse_if (kills (rs_default_action runtime))
        (Validation [Lit "runtime.defaultAction Kill/Isolate — это kill-all, не политика"]);
  _ ← refuse_if (bool_decide (rs_default_action runtime = RDeny))
        (Validation [Lit "runtime.defaultAction deny — runtime-план его не исполняет: tracepoint срабатывает после syscall. Deny — глагол admission (admit.deny); по умолчанию исполнимы allow и audit"]);
  validate_rules ∅ (rs_rules runtime).

Definition validate_common (mode : PolicyMode) (disabled : bool) (selector : PolicySelector)
    (supply : SupplySpec) (adm : AdmitSpec) (runtime : RuntimeSpec) : Result unit :=
  _ ← refuse_if (disabled && bool_decide (mode = Enforce))
        (Validation [Lit "disabled=true вместе с mode=enforce: выключите политику или не притворяйтесь"]);
  _ ← validate_selector selector;
  _ ← validate_supply supply;
  _ ← validate_admit adm;
  validate_runtime runtime.

Definition validate_cluster_policy (spec : ClusterSecurityPolicySpec) : Result unit :=
  validate_common (csp_mode spec) (csp_disabled spec) (csp_selector spec)
    (csp_supply spec) (csp_admit spec) (csp_runtime spec).

Definition validate_namespaced_policy (spec : SecurityPolicySpec) : Result unit :=
  _ ← validate_common (sp_mode spec) (sp_disabled spec) (sp_selector spec)
        (sp_supply spec) (sp_admit spec) (sp_runtime spec);
  refuse_if (bool_decide (as_failure_policy (sp_admit spec) = Ignore_))
    (Validation [Lit "namespaced SecurityPolicy не может ставить failurePolicy=Ignore — это break-glass уровня ИБ"]).

(** ** Combination of hits (eval.rs) *)

Record RuleHit : Type := {
  rh_namespace : string;
  rh_policy : string;
  rh_rule : string;
  rh_action : RuntimeAction
}.

Definition action_rank (action : RuntimeAction) : Z :=
  match action with
  | RAllow => 0 | RAudit => 1 | RDeny => 2 | RIsolate => 3 | RKill => 4
  end.

Definition namespace_matches (exception_ns hit_ns : string) : bool :=
  let exception_ns := trim exception_ns in
  let hit_ns := trim hit_ns in
  if str_empty exception_ns then str_empty hit_ns else str_eqb exception_ns hit_ns.

Definition exception_applies (spec : PolicyExceptionSpec)
    (namespace policy rule : string) (now : Z) : bool :=
  if str_empty (trim (pe_ticket spec)) || (slen (trim (pe_reason spec)) <? MIN_REASON_LEN)
  then false else
  if str_empty (trim (pe_approved_by spec))
     || str_eqb (trim (pe_approved_by spec)) (trim (pe_requested_by spec))
  then false else
  if pe_expires_at spec <=? now then false else
  if now + days MAX_EXCEPTION_DAYS <? pe_expires_at spec then false else
  if negb (namespace_matches (et_namespace (pe_target spec)) namespace) then false else
  if negb (existsb (fun p => str_eqb p policy) (et_policies (pe_target spec))) then false else
  if negb (existsb (fun r => str_eqb r rule) (et_rules (pe_target spec))) then false else
  true.

Definition exception_applies_to (exceptions : list PolicyExceptionSpec)
    (hit : RuleHit) (now : Z) : bool :=
  existsb (fun spec =>
    exception_applies spec (rh_namespace hit) (rh_policy hit) (rh_rule hit) now) exceptions.

(** [Iterator::max_by_key]: of several maxima the last one. *)
Definition max_by_key {A} (key : A -> Z) (l : list A) : option A :=
  foldl (fun best x =>
    match best with
    | None => Some x
    | Some y => if key y <=? key x then Some x else Some y
    end) None l.

Definition evaluate (hits : list RuleHit) (default_action : RuntimeAction)
    (exceptions : list PolicyExceptionSpec) (now : Z) : RuntimeAction :=
  default default_action
    (max_by_key action_rank
      (map rh_action
        (List.filter (fun hit => negb (exception_applies_to exceptions hit now)) hits))).

(** ** What an accepted policy satisfies

    The abstract contract of the validator, stated without its control flow. *)

(** The rule names only syscalls some tracepoint reports, and every spelling of
    an operation it names one spelling of. *)
Definition syscalls_observable (syscalls : list string) : Prop :=
  Forall (fun s => trim s ∈ DATAPATH_SYSCALLS) syscalls /\
  Forall (fun class => (exists m, m ∈ class /\ m ∈ map trim syscalls) ->
                       forall m, m ∈ class -> m ∈ map trim syscalls)
    SYSCALL_EQUIVALENCE_CLASSES.

(** Every literal fits the buffer it is compared with. *)
Definition predicates_observable (comm_in path_prefix path_suffix : list string) : Prop :=
  Forall (fun s => slen s <= COMM_MATCH_MAX) comm_in /\
  Forall (fun s => slen s <= PATH_MATCH_MAX) path_prefix /\
  Forall (fun s => slen s <= PATH_MATCH_MAX) path_suffix.

Definition executable (action : RuntimeAction) : Prop :=
  action = RAllow \/ action = RAudit \/ action = RKill.

Record rule_enforceable (rule : RuntimeRule) : Prop := {
  re_named : trim (rr_id rule) <> "";
  re_action : executable (rr_action rule);
  re_syscalls : syscalls_observable (rr_syscalls rule);
  re_predicates : predicates_observable (rm_comm_in (rr_match_on rule))
                    (rm_path_prefix (rr_match_on rule)) (rm_path_suffix (rr_match_on rule));
  re_bounded : rr_action rule = RKill -> without_match rule = false
}.

Record runtime_enforceable (runtime : RuntimeSpec) : Prop := {
  rte_default : rs_default_action runtime = RAllow \/ rs_default_action runtime = RAudit;
  rte_unique : NoDup (map rr_id (rs_rules runtime));
  rte_rules : Forall rule_enforceable (rs_rules runtime)
}.

Record supply_verifiable (supply : SupplySpec) : Prop := {
  sv_names : Forall (fun r => trim (tr_name r) <> "") (ss_trust_roots supply);
  sv_keys : Forall (fun r => Forall (fun k => is_ed25519_public_key_hex k = true)
                               (tr_public_keys r)) (ss_trust_roots supply);
  sv_some_key : ss_require_signed supply || ss_deny_unsigned supply = true ->
                exists r k, r ∈ ss_trust_roots supply /\ k ∈ tr_public_keys r
}.

Definition cluster_selector_empty (selector : PolicySelector) : Prop :=
  ls_match_labels (ps_cluster_selector selector) = ∅ /\
  ls_match_expressions (ps_cluster_selector selector) = [].

Lemma validate_rule_syscalls_ok id syscalls :
  validate_rule_syscalls id syscalls = Ok tt <-> syscalls_observable syscalls.
Proof.
  unfold validate_rule_syscalls, syscalls_observable.
  rewrite bind_ok_unit, try_each_ok. unfold uncovered_equivalent_syscall.
  rewrite <- uncovered_in_none.
  split; intros [H1 H2]; split.
  - eapply Forall_impl; [exact H1|]. intros s Hs%refuse_if_ok%negb_false_iff.
    by apply list_contains_elem.
  - by destruct (uncovered_in _ _) as [[]|].
  - eapply Forall_impl; [exact H1|]. intros s Hs. apply refuse_if_ok, negb_false_iff.
    by apply list_contains_elem.
  - by rewrite H2.
Qed.

Lemma validate_rule_predicates_ok id c p s :
  validate_rule_predicates id c p s = Ok tt <-> predicates_observable c p s.
Proof.
  unfold validate_rule_predicates, predicates_observable.
  rewrite bind_ok_unit, try_each_ok, !Forall_cons, Forall_nil.
  rewrite <- !first_over_limit_none.
  fold (unobservable_comm c) (unobservable_path_pattern p) (unobservable_path_pattern s).
  destruct (unobservable_comm c) as [[]|], (unobservable_path_pattern p) as [[]|],
    (unobservable_path_pattern s) as [[]|]; naive_solver.
Qed.

Lemma validate_rule_action_ok id a :
  validate_rule_action id a = Ok tt <-> executable a.
Proof. unfold executable. destruct a; simpl; naive_solver. Qed.

Lemma validate_rules_ok ids rules :
  validate_rules ids rules = Ok tt <->
  Forall rule_enforceable rules /\ NoDup (map rr_id rules) /\
  Forall (fun r => rr_id r ∉ ids) rules.
Proof.
  revert ids. induction rules as [|rule rules IH]; intros ids.
  { simpl. split; [|done]. intros _. repeat split; constructor. }
  cbn [validate_rules map]. rewrite !bind_ok_unit, !refuse_if_ok, IH.
  rewrite validate_rule_action_ok, validate_rule_syscalls_ok, validate_rule_predicates_ok.
  rewrite !Forall_cons, NoDup_cons, str_empty_false, bool_decide_eq_false, andb_false_iff.
  assert (Hids : Forall (fun r => rr_id r ∉ {[rr_id rule]} ∪ ids) rules <->
          rr_id rule ∉ map rr_id rules /\ Forall (fun r => rr_id r ∉ ids) rules).
  { rewrite !Forall_forall. split.
    - intros H. split; [|set_solver]. intros (r & Hr & Hin)%list_elem_of_fmap. set_solver.
    - intros [H1 H2] r Hr. specialize (H2 r Hr).
      assert (rr_id r <> rr_id rule); [|set_solver].
      intros Heq. apply H1. rewrite <- Heq. by apply list_elem_of_fmap_2. }
  rewrite Hids. split.
  - intros (Hn & Hid & Ha & Hs & Hp & Hk & Hrs & Hnd & Hnotin & Hids').
    split_and!; [|done..]. constructor; try done.
    intros HK. rewrite HK in Hk. naive_solver.
  - intros ([[Hn Ha Hs Hp Hk] Hrs] & [Hnotin Hnd] & Hid & Hids').
    split_and!; try done.
    destruct Ha as [-> | [-> | HK]]; [by left | by left | right; by apply Hk].
Qed.

Lemma validate_runtime_ok runtime :
  validate_runtime runtime = Ok tt <-> runtime_enforceable runtime.
Proof.
  unfold validate_runtime. rewrite !bind_ok_unit, !refuse_if_ok, validate_rules_ok.
  rewrite bool_decide_eq_false. split.
  - intros (Hk & Hd & Hr & Hnd & _). constructor; [|done..].
    destruct (rs_default_action runtime); naive_solver.
  - intros [[-> | ->] Hnd Hr]; split_and!; try done; by apply Forall_true.
Qed.

Lemma supply_keys_ok name keys has b :
  supply_keys name keys has = Ok b <->
  Forall (fun k => is_ed25519_public_key_hex k = true) keys /\
  b = has || negb (is_empty keys).
Proof.
  revert has. induction keys as [|k keys IH]; intros has; simpl.
  - rewrite orb_false_r. split; [intros [= ->]; split; [constructor|done] | by intros [_ ->]].
  - rewrite Forall_cons, orb_true_r.
    destruct (is_ed25519_public_key_hex k); simpl; [|naive_solver].
    rewrite IH. simpl. naive_solver.
Qed.

Lemma supply_roots_ok roots has b :
  supply_roots roots has = Ok b <->
  Forall (fun r => trim (tr_name r) <> "") roots /\
  Forall (fun r => Forall (fun k => is_ed25519_public_key_hex k = true) (tr_public_keys r)) roots /\
  b = has || existsb (fun r => negb (is_empty (tr_public_keys r))) roots.
Proof.
  revert has. induction roots as [|r roots IH]; intros has; simpl.
  - rewrite orb_false_r. split; [|naive_solver].
    intros [= ->]. split_and!; [constructor.. | done].
  - rewrite !Forall_cons. destruct (str_empty (trim (tr_name r))) eqn:Hn.
    + apply str_empty_true in Hn. naive_solver.
    + apply str_empty_false in Hn. rewrite bind_ok. setoid_rewrite supply_keys_ok.
      setoid_rewrite IH. rewrite orb_assoc. naive_solver.
Qed.

Lemma some_key_spec roots :
  existsb (fun r => negb (is_empty (tr_public_keys r))) roots = true <->
  exists r k, r ∈ roots /\ k ∈ tr_public_keys r.
Proof.
  rewrite existsb_exists. split.
  - intros (r & Hr%list_elem_of_In & Hk%negb_true_iff%is_empty_false).
    destruct (tr_public_keys r) as [|k ks] eqn:E; [done|].
    exists r, k. rewrite E. set_solver.
  - intros (r & k & Hr%list_elem_of_In & Hk). exists r. split; [done|].
    apply negb_true_iff, is_empty_false. intros E. rewrite E in Hk. set_solver.
Qed.

Lemma validate_supply_ok supply :
  validate_supply supply = Ok tt <-> supply_verifiable supply.
Proof.
  unfold validate_supply. rewrite bind_ok_unit, refuse_if_ok, bind_ok.
  setoid_rewrite supply_roots_ok. setoid_rewrite refuse_if_ok.
  pose proof (some_key_spec (ss_trust_roots supply)) as Hsome.
  set (signed := ss_require_signed supply || ss_deny_unsigned supply).
  simpl. split.
  - intros (_ & has & (Hn & Hk & ->) & Hs). constructor; [done.. |].
    fold signed. intros Hsig. rewrite Hsig in Hs. simpl in Hs.
    apply Hsome. by apply negb_false_iff.
  - intros [Hn Hk Hs]. fold signed in Hs. split.
    + destruct signed; [|done]. simpl. apply is_empty_false.
      destruct (Hs eq_refl) as (r & k & Hr & _). intros E. rewrite E in Hr. set_solver.
    + eexists. split; [split_and!; [done.. | reflexivity]|].
      destruct signed; [|done]. simpl. apply negb_false_iff, Hsome, Hs. done.
Qed.

Lemma validate_selector_ok selector :
  validate_selector selector = Ok tt <-> cluster_selector_empty selector.
Proof.
  unfold validate_selector, cluster_selector_empty, map_empty.
  rewrite refuse_if_ok, orb_false_iff, !negb_false_iff, is_empty_true, bool_decide_eq_true.
  done.
Qed.

Lemma validate_common_ok mode disabled selector supply adm runtime :
  validate_common mode disabled selector supply adm runtime = Ok tt <->
  (disabled = true -> mode <> Enforce) /\ cluster_selector_empty selector /\
  supply_verifiable supply /\ runtime_enforceable runtime.
Proof.
  unfold validate_common, validate_admit. rewrite !bind_ok_unit, refuse_if_ok.
  rewrite validate_selector_ok, validate_supply_ok, validate_runtime_ok, andb_false_iff.
  rewrite bool_decide_eq_false. destruct disabled; naive_solver.
Qed.

(** ** Properties *)

(** the validator accepts a ClusterSecurityPolicy exactly when the policy can
    be enforced as written: it is not disabled-and-enforcing, selects no cluster
    labels, carries a well-formed verifying key whenever it demands signatures,
    and every runtime rule is named once, uses an executable action, observable
    syscalls in all their spellings, literals that fit the datapath buffers, and
    never kills without a predicate. *)
Lemma validate_cluster_policy_exact spec :
  validate_cluster_policy spec = Ok tt <->
  (csp_disabled spec = true -> csp_mode spec <> Enforce) /\
  cluster_selector_empty (csp_selector spec) /\
  supply_verifiable (csp_supply spec) /\
  runtime_enforceable (csp_runtime spec).
Proof. apply validate_common_ok. Qed.

Lemma exception_paperwork spec now :
  validate_exception spec now = Ok tt ->
  str_empty (trim (pe_ticket spec)) = false /\
  (slen (trim (pe_reason spec)) <? MIN_REASON_LEN) = false /\
  str_empty (trim (pe_approved_by spec)) = false /\
  str_eqb (trim (pe_approved_by spec)) (trim (pe_requested_by spec)) = false /\
  now < pe_expires_at spec <= now + days MAX_EXCEPTION_DAYS.
Proof. unfold validate_exception. intros H. inv_ok. split_and!; try done; lia. Qed.

(** A waiver accepted at [t0] is in force, for the namespace, policies and
    rules its target names and for nothing else, at every later instant before
    [expiresAt], and at no instant from [expiresAt] on. *)
Lemma accepted_exception_window spec t0 t namespace policy rule
    (Haccepted : validate_exception spec t0 = Ok tt) (Hlater : t0 <= t) :
  exception_applies spec namespace policy rule t =
  (t <? pe_expires_at spec)
  && namespace_matches (et_namespace (pe_target spec)) namespace
  && existsb (fun p => str_eqb p policy) (et_policies (pe_target spec))
  && existsb (fun r => str_eqb r rule) (et_rules (pe_target spec)).
Proof.
  destruct (exception_paperwork _ _ Haccepted) as (Ht & Hr & Ha & Hs & He).
  unfold exception_applies. rewrite Ht, Hr, Ha, Hs. simpl.
  rewrite Z.leb_antisym.
  rewrite (proj2 (Z.ltb_ge (t + days MAX_EXCEPTION_DAYS) (pe_expires_at spec))) by lia.
  destruct (t <? pe_expires_at spec), (namespace_matches _ _), (existsb _ (et_policies _)),
    (existsb _ (et_rules _)); reflexivity.
Qed.

(** The strongest action of a list, if it has one. *)
Lemma max_by_key_spec {A} (key : A -> Z) l :
  match max_by_key key l with
  | None => l = []
  | Some x => x ∈ l /\ Forall (fun y => key y <= key x) l
  end.
Proof.
  unfold max_by_key. induction l as [|x l IH] using rev_ind; [done|].
  rewrite foldl_app. simpl.
  destruct (foldl _ _ _) as [y|]; [|subst l; simpl; split; [by left|by repeat constructor]].
  destruct IH as [Hin Hall]. destruct (Z.leb_spec (key y) (key x));
    rewrite elem_of_app, list_elem_of_singleton, Forall_app, Forall_singleton.
  - split; [by right|]. split; [|lia].
    eapply Forall_impl; [exact Hall|]. intros; simpl in *; lia.
  - split; [by left|]. split; [done|lia].
Qed.

(** Hits left after the exceptions in force at [now]. *)
Definition unwaived (hits : list RuleHit) exceptions now : list RuleHit :=
  List.filter (fun hit => negb (exception_applies_to exceptions hit now)) hits.

(** Combining hits yields the strongest action among the hits no exception
    waives (allow < audit < deny < isolate < kill), and the default action only
    when none is left, so a deny is never lost to an allow. *)
Lemma evaluate_strongest hits default_action exceptions now :
  match unwaived hits exceptions now with
  | [] => evaluate hits default_action exceptions now = default_action
  | left_ => (exists h, h ∈ left_ /\ evaluate hits default_action exceptions now = rh_action h) /\
             Forall (fun h => action_rank (rh_action h) <=
                action_rank (evaluate hits default_action exceptions now)) left_
  end.
Proof.
  unfold evaluate. fold (unwaived hits exceptions now).
  pose proof (max_by_key_spec action_rank (map rh_action (unwaived hits exceptions now))) as H.
  destruct (unwaived hits exceptions now) as [|h hs] eqn:E; [done|].
  destruct (max_by_key _ _) as [a|]; [|done]. simpl default.
  destruct H as [(h' & -> & Hin)%list_elem_of_fmap Hall].
  split; [by exists h'|]. by rewrite Forall_map in Hall.
Qed.

(** ** Examples *)

Definition example_exception : PolicyExceptionSpec :=
  {| pe_ticket := "SEC-1"; pe_requested_by := "ann"; pe_approved_by := "bob";
     pe_reason := "migration"; pe_expires_at := days 30; pe_mode := Audit;
     pe_four_eyes := true;
     pe_target := {| et_namespace := "prod"; et_policies := ["p"]; et_rules := ["hostPath"] |} |}.

Lemma accepted_exception_window_witness :
  exception_applies example_exception "prod" "p" "hostPath" (days 29) = true /\
  exception_applies example_exception "prod" "p" "hostPath" (days 30) = false.
Proof.
  split.
  - rewrite (accepted_exception_window example_exception 0 (days 29));
      [vm_compute; reflexivity | vm_compute; reflexivity | vm_compute; discriminate].
  - rewrite (accepted_exception_window example_exception 0 (days 30));
      [vm_compute; reflexivity | vm_compute; reflexivity | vm_compute; discriminate].
Defined.

(** A four-character Cyrillic reason is eight bytes long and passes the bound the
    message states in characters. *)
Definition short_reason_exception : PolicyExceptionSpec :=
  {| pe_ticket := "SEC-1"; pe_requested_by := "ann"; pe_approved_by := "bob";
     pe_reason := "тест"; pe_expires_at := days 30; pe_mode := Audit;
     pe_four_eyes := true;
     pe_target := {| et_namespace := "prod"; et_policies := ["p"]; et_rules := ["hostPath"] |} |}.

Lemma reason_bound_counts_bytes :
  validate_exception short_reason_exception 0 = Ok tt /\
  validate_exception {| pe_ticket := "SEC-1"; pe_requested_by := "ann"; pe_approved_by := "bob";
     pe_reason := "test"; pe_expires_at := days 30; pe_mode := Audit; pe_four_eyes := true;
     pe_target := pe_target short_reason_exception |} 0 =
  Err (Validation [Lit "reason короче восьми символов — это не обоснование, это статус в Slack"]).
Proof. split; vm_compute; reflexivity. Qed.
