(* ===== verification/Wire.v ===== *)
(** * Wire format: the [Writer] and the [Reader] of the compiled programs

    The compiler writes little-endian, length-prefixed fields into a [Vec<u8>]
    ([Writer] of [crates/ferrum-compiler/src/encode.rs]); four crates read them
    back with a bounds-checked cursor ([Reader] of [ferrum-ebpf/src/spec.rs] and
    [envelope.rs], [ferrum-admission/src/program.rs] and [bundle.rs]), which
    differ in their error texts only. Both are state monads with errors; [Codec]
    is the law that ties an encoder to the decoder of the other crate. *)

From S2P Require Import Prelude RustStd Ids.

(** ** Writer *)

Definition wr (A : Type) : Type := list Z -> Result (A * list Z).

#[global] Instance wr_mret : MRet wr := fun A a w => Ok (a, w).
#[global] Instance wr_mbind : MBind wr :=
  fun A B k m w => match m w with Ok (a, w') => k a w' | Err e => Err e end.

(** A [Result] inside a writing function: [let x = m?;]. *)
Definition wr_try {A} (m : Result A) : wr A :=
  fun w => match m with Ok a => Ok (a, w) | Err e => Err e end.

Definition put_bytes (l : list Z) : wr unit := fun w => Ok (tt, w ++ l).
Definition put_u8 (v : Z) : wr unit := put_bytes [v].
Definition put_u16 (v : Z) : wr unit := put_bytes (le_bytes 2 v).
Definition put_u32 (v : Z) : wr unit := put_bytes (le_bytes 4 v).
Definition put_i32 (v : Z) : wr unit := put_bytes (le_bytes 4 (v mod U32)).
Definition put_bool (v : bool) : wr unit := put_u8 (if v then 1 else 0).

(** [u16::try_from(n).map_err(|_| Compile(..))]. *)
Definition try_u16 (n : Z) (e : msg) : Result Z :=
  if n <? U16 then Ok n else Err (Compile e).

(** [let count = u16::try_from(n)...?; w.put_u16(count);] *)
Definition put_count (n : Z) (e : msg) : wr unit :=
  count ← wr_try (try_u16 n e); put_u16 count.

Definition put_str (s : string) : wr unit :=
  _ ← put_count (slen s) [Lit "string exceeds u16 length ("; Num (slen s); Lit ")"];
  put_bytes (as_bytes s).

(** [for item in items { f(w, item)?; }] *)
Fixpoint wr_each {A} (f : A -> wr unit) (items : list A) : wr unit :=
  match items with
  | [] => mret tt
  | item :: items' => _ ← f item; wr_each f items'
  end.

Definition put_str_list (items : list string) : wr unit :=
  _ ← put_count (len items) [Lit "list exceeds u16 count ("; Num (len items); Lit ")"];
  wr_each put_str items.

(** [let mut w = Writer::new(); ..; Ok(w.finish())] *)
Definition run_writer (m : wr unit) : Result (list Z) := snd <$> m [].

(** ** Reader *)

Record Reader : Type := { buf : list Z; pos : Z }.

Definition new_reader (b : list Z) : Reader := {| buf := b; pos := 0 |}.

Definition rd (A : Type) : Type := Reader -> Result (A * Reader).

#[global] Instance rd_mret : MRet rd := fun A a r => Ok (a, r).
#[global] Instance rd_mbind : MBind rd :=
  fun A B k m r => match m r with Ok (a, r') => k a r' | Err e => Err e end.

Definition rd_try {A} (m : Result A) : rd A :=
  fun r => match m with Ok a => Ok (a, r) | Err e => Err e end.

(** The texts one crate's reader fails with. *)
Record ReaderTexts : Type := {
  t_truncated : string;
  t_magic : string;
  t_non_utf8 : string;
  t_trailing : string
}.

Section Reader.
  Context (T : ReaderTexts).

(** [checked_add] overflows past [usize::MAX]; [get(pos..end)] past the end. *)
Definition rd_take (n : Z) : rd (list Z) := fun r =>
  let end_ := pos r + n in
  if U64 <=? end_ then Err (Compile [Lit (t_truncated T)]) else
  match get_range (buf r) (pos r) end_ with
  | None => Err (Compile [Lit (t_truncated T)])
  | Some slice => Ok (slice, {| buf := buf r; pos := end_ |})
  end.

Definition rd_expect_magic (magic : list Z) : rd unit :=
  got ← rd_take 4;
  rd_try (refuse_if (bool_decide (got <> magic)) (Compile [Lit (t_magic T)])).

(** [take(1)?[0]]: the slice has exactly one byte. *)
Definition rd_u8 : rd Z := b ← rd_take 1; mret (default 0 (head b)).
Definition rd_u16 : rd Z := b ← rd_take 2; mret (le_val b).
Definition rd_u32 : rd Z := b ← rd_take 4; mret (le_val b).
Definition rd_i32 : rd Z := b ← rd_take 4; mret (signed32 (le_val b)).

Definition bool_of_u8 (v : Z) : Result bool :=
  if v =? 0 then Ok false else if v =? 1 then Ok true
  else Err (Compile [Lit "invalid bool byte "; Num v]).

Definition rd_bool : rd bool := v ← rd_u8; rd_try (bool_of_u8 v).

Definition rd_str : rd string :=
  n ← rd_u16;
  bytes ← rd_take n;
  rd_try (ok_or (from_utf8 bytes) (Compile [Lit (t_non_utf8 T)])).

(** [for _ in 0..count { out.push(m()?); }] *)
Fixpoint rd_repeat {A} (count : nat) (m : rd A) : rd (list A) :=
  match count with
  | O => mret []
  | S count' => x ← m; xs ← rd_repeat count' m; mret (x :: xs)
  end.

(** [let count = r.u16()?; for _ in 0..count { .. }] *)
Definition rd_list {A} (m : rd A) : rd (list A) :=
  count ← rd_u16; rd_repeat (Z.to_nat count) m.

Definition rd_str_list : rd (list string) := rd_list rd_str.

(** [r.finish()?]: everything was consumed. *)
Definition rd_finish : rd unit := fun r =>
  if bool_decide (pos r <> len (buf r))
  then Err (Compile [Lit (t_trailing T)]) else Ok (tt, r).

(** Run a decoder over a whole buffer. *)
Definition run_reader {A} (m : rd A) (b : list Z) : Result A := fst <$> m (new_reader b).

(** ** The law between an encoder and a decoder *)

(** The reader has consumed everything of its buffer but [l]. *)
Definition reader_at (r : Reader) (l : list Z) : Prop :=
  (exists pre, buf r = pre ++ l /\ pos r = len pre) /\ len (buf r) <= ISIZE_MAX.

(** Whatever follows [bs], [m] consumes exactly [bs] and returns [a]. *)
Definition reads {A} (m : rd A) (bs : list Z) (a : A) : Prop :=
  forall r rest, reader_at r (bs ++ rest) ->
  exists r', m r = Ok (a, r') /\ reader_at r' rest.

(** What [m] appends, [m'] reads back as [c]. *)
Definition agrees {C} (m : wr unit) (m' : rd C) (c : C) : Prop :=
  forall w w', m w = Ok (tt, w') -> exists bs, w' = w ++ bs /\ reads m' bs c.

Lemma reads_bind {A B} (m : rd A) (k : A -> rd B) bs1 bs2 a b :
  reads m bs1 a -> reads (k a) bs2 b -> reads (m ≫= k) (bs1 ++ bs2) b.
Proof.
  intros Hm Hk r rest Hr. rewrite <- app_assoc in Hr.
  destruct (Hm _ _ Hr) as (r1 & Hr1 & Hat1).
  destruct (Hk _ _ Hat1) as (r2 & Hr2 & Hat2).
  exists r2. split; [|done]. unfold mbind, rd_mbind. by rewrite Hr1.
Qed.

Lemma reads_ret {A} (a : A) : reads (mret a) [] a.
Proof. intros r rest Hr. by exists r. Qed.

Lemma reads_try {A} (m : Result A) a : m = Ok a -> reads (rd_try m) [] a.
Proof. intros -> r rest Hr. by exists r. Qed.

Lemma reads_map {A B} (m : rd A) (k : A -> rd B) bs a b :
  reads m bs a -> reads (k a) [] b -> reads (m ≫= k) bs b.
Proof. intros Hm Hk. rewrite <- (app_nil_r bs). by eapply reads_bind. Qed.

Lemma agrees_bind {B C} (m : wr unit) (k : unit -> wr unit) (m' : rd B) (k' : B -> rd C) b c :
  agrees m m' b -> agrees (k tt) (k' b) c -> agrees (m ≫= k) (m' ≫= k') c.
Proof.
  intros Hm Hk w w' H. unfold mbind, wr_mbind in H.
  destruct (m w) as [[[] w1]|] eqn:E; [|done].
  destruct (Hm _ _ E) as (bs1 & -> & Hr1). destruct (Hk _ _ H) as (bs2 & -> & Hr2).
  exists (bs1 ++ bs2). split; [by rewrite app_assoc | by eapply reads_bind].
Qed.

Lemma agrees_ret {C} (c : C) : agrees (mret tt) (mret c) c.
Proof. intros w w' [= <-]. exists []. split; [by rewrite app_nil_r | apply reads_ret]. Qed.

Lemma agrees_map {B C} (m : wr unit) (m' : rd B) (k : B -> rd C) b c :
  agrees m m' b -> reads (k b) [] c -> agrees m (m' ≫= k) c.
Proof.
  intros Hm Hk w w' H. destruct (Hm _ _ H) as (bs & -> & Hr).
  exists bs. split; [done | by eapply reads_map].
Qed.

(** An encoder that ends in [mret tt] is the encoder before it. *)
Lemma agrees_skip {C} (m : wr unit) (m' : rd C) c :
  agrees m m' c -> agrees (m ≫= fun _ => mret tt) m' c.
Proof.
  intros Hm w w' H. unfold mbind, wr_mbind in H.
  destruct (m w) as [[[] w1]|] eqn:E; [|done]. injection H as <-. by apply Hm.
Qed.

Lemma agrees_put_bytes {C} bs (m' : rd C) c : reads m' bs c -> agrees (put_bytes bs) m' c.
Proof. intros Hr w w' [= <-]. by exists bs. Qed.

(** A check the decoder makes between two fields. *)
Lemma agrees_check {C} (m : wr unit) (chk : Result unit) (k : unit -> rd C) c :
  chk = Ok tt -> agrees m (k tt) c -> agrees m (rd_try chk ≫= k) c.
Proof. intros -> H w w' Hw. by apply H. Qed.

(** Encoding to a whole buffer and decoding it to the end. *)
Lemma decode_run {C} m (m' : rd C) c bs :
  agrees m m' c -> run_writer m = Ok bs -> len bs <= ISIZE_MAX ->
  run_reader (x ← m'; _ ← rd_finish; mret x) bs = Ok c.
Proof.
  intros Hm H Hlen. unfold run_writer in H. destruct (m []) as [[[] w]|] eqn:E; [|done].
  injection H as <-. destruct (Hm _ _ E) as (bs & -> & Hr). simpl in *.
  destruct (Hr (new_reader bs) []) as (r' & Hr' & (pre & Hb & Hp) & _).
  { split; [|done]. exists []. by rewrite app_nil_r. }
  unfold run_reader, mbind, rd_mbind. rewrite Hr'. unfold rd_finish.
  rewrite bool_decide_eq_false_2; [done|]. rewrite Hb, Hp, app_nil_r. naive_solver.
Qed.

(** Writers only append: every encoder here is built from the primitives, so what
    comes first stays first. *)
Definition appends {A} (m : wr A) : Prop :=
  forall w a w', m w = Ok (a, w') -> exists bs, w' = w ++ bs.

Lemma appends_bytes l : appends (put_bytes l).
Proof. intros w [] w' [= <-]. by exists l. Qed.

Lemma appends_ret {A} (a : A) : appends (mret a).
Proof. intros w a' w' [= <- <-]. exists []. by rewrite app_nil_r. Qed.

Lemma appends_try {A} (m : Result A) : appends (wr_try m).
Proof.
  intros w a w' H. unfold wr_try in H. destruct m; [|done]. injection H as <- <-.
  exists []. by rewrite app_nil_r.
Qed.

Lemma appends_bind {A B} (m : wr A) (k : A -> wr B) :
  appends m -> (forall a, appends (k a)) -> appends (m ≫= k).
Proof.
  intros Hm Hk w b w' H. unfold mbind, wr_mbind in H. destruct (m w) as [[a w1]|] eqn:E; [|done].
  destruct (Hm _ _ _ E) as [bs1 ->]. destruct (Hk _ _ _ _ H) as [bs2 ->].
  exists (bs1 ++ bs2). by rewrite app_assoc.
Qed.

Lemma appends_each {A} (f : A -> wr unit) items :
  (forall a, appends (f a)) -> appends (wr_each f items).
Proof.
  intros Hf. induction items; simpl; [apply appends_ret|]. by apply appends_bind.
Qed.

(** The first bytes written are the first bytes of the buffer. *)
Lemma wr_starts {A} l (k : unit -> wr A) a w' :
  appends (k tt) -> (put_bytes l ≫= k) [] = Ok (a, w') -> exists rest, w' = l ++ rest.
Proof. intros Hk H. by apply Hk in H. Qed.

(** *** Primitive fields *)

Lemma reads_take bs : reads (rd_take (len bs)) bs bs.
Proof.
  intros [b p] rest [(pre & Hb & Hp) Hlen]. simpl in *. subst b p.
  unfold rd_take, get_range. simpl.
  rewrite !len_app in *. pose proof (len_nonneg pre). pose proof (len_nonneg bs).
  pose proof (len_nonneg rest). unfold ISIZE_MAX, U64 in *.
  rewrite (proj2 (Z.leb_gt 18446744073709551616 (len pre + len bs))) by lia.
  rewrite (proj2 (Z.leb_le (len pre) _)), (proj2 (Z.leb_le (len pre + len bs) _)) by lia.
  simpl. eexists. split.
  - repeat f_equal. unfold len. rewrite !Nat2Z.id.
    replace (Z.of_nat (length pre) + Z.of_nat (length bs) - Z.of_nat (length pre))
      with (Z.of_nat (length bs)) by lia.
    rewrite Nat2Z.id, drop_app_length. apply take_app_length.
  - split; [|simpl; rewrite !len_app; unfold ISIZE_MAX; lia].
    exists (pre ++ bs). simpl. rewrite <- app_assoc, len_app. done.
Qed.

Lemma reads_take_n n bs : n = len bs -> reads (rd_take n) bs bs.
Proof. intros ->. apply reads_take. Qed.

Lemma agrees_u8 v : agrees (put_u8 v) rd_u8 v.
Proof.
  apply agrees_put_bytes. eapply reads_map; [by apply reads_take_n|]. apply reads_ret.
Qed.

Lemma len_le_bytes n z : len (le_bytes n z) = Z.of_nat n.
Proof. unfold len. by rewrite length_le_bytes. Qed.

Lemma agrees_u16 v : 0 <= v < U16 -> agrees (put_u16 v) rd_u16 v.
Proof.
  intros Hv. apply agrees_put_bytes.
  eapply reads_map; [apply reads_take_n; by rewrite len_le_bytes|].
  rewrite le_val_bytes. change (256 ^ Z.of_nat 2) with U16. rewrite Z.mod_small by done.
  apply reads_ret.
Qed.

Lemma agrees_u32 v : 0 <= v < U32 -> agrees (put_u32 v) rd_u32 v.
Proof.
  intros Hv. apply agrees_put_bytes.
  eapply reads_map; [apply reads_take_n; by rewrite len_le_bytes|].
  rewrite le_val_bytes. change (256 ^ Z.of_nat 4) with U32. rewrite Z.mod_small by done.
  apply reads_ret.
Qed.

Lemma agrees_i32 v : - I31 <= v < I31 -> agrees (put_i32 v) rd_i32 v.
Proof.
  intros Hv. apply agrees_put_bytes.
  eapply reads_map; [apply reads_take_n; by rewrite len_le_bytes|].
  rewrite le_val_bytes. change (256 ^ Z.of_nat 4) with U32.
  rewrite Z.mod_mod, signed32_mod by done. apply reads_ret.
Qed.

Lemma agrees_bool v : agrees (put_bool v) rd_bool v.
Proof.
  eapply agrees_map; [apply agrees_u8|]. apply reads_try. by destruct v.
Qed.

Lemma agrees_magic magic : len magic = 4 ->
  agrees (put_bytes magic) (rd_expect_magic magic) tt.
Proof.
  intros Hm. apply agrees_put_bytes. eapply reads_map; [by apply reads_take_n|].
  apply reads_try, refuse_if_ok, bool_decide_eq_false. naive_solver.
Qed.

Lemma put_count_inv n e w w' :
  put_count n e w = Ok (tt, w') -> n < U16 /\ put_u16 n w = Ok (tt, w').
Proof.
  unfold put_count, wr_try, try_u16, mbind, wr_mbind.
  destruct (Z.ltb_spec n U16); simpl; [done | discriminate].
Qed.

Lemma agrees_count n e : 0 <= n -> agrees (put_count n e) rd_u16 n.
Proof.
  intros Hn w w' H. apply put_count_inv in H as [Hlt H].
  by apply (agrees_u16 n (conj Hn Hlt)).
Qed.

Lemma agrees_str s : str_ok s -> agrees (put_str s) rd_str s.
Proof.
  intros Hs. eapply agrees_bind; [apply agrees_count, len_nonneg|].
  apply agrees_put_bytes. eapply reads_map; [apply reads_take|].
  apply reads_try. by rewrite from_utf8_as_bytes.
Qed.

Lemma agrees_each {A B} (enc : A -> wr unit) (dec : rd B) (view : A -> B) items :
  Forall (fun a => agrees (enc a) dec (view a)) items ->
  agrees (wr_each enc items) (rd_repeat (length items) dec) (map view items).
Proof.
  induction 1 as [|a items Ha Hitems IH]; simpl; [apply agrees_ret|].
  eapply agrees_bind; [exact Ha|]. eapply agrees_map; [exact IH|]. apply reads_ret.
Qed.

(** A counted list of encoded items. *)
Lemma agrees_list {A B} (enc : A -> wr unit) (dec : rd B) (view : A -> B) items n e :
  n = len items -> Forall (fun a => agrees (enc a) dec (view a)) items ->
  agrees (_ ← put_count n e; wr_each enc items) (rd_list dec) (map view items).
Proof.
  intros -> Hitems. eapply agrees_bind; [apply agrees_count, len_nonneg|].
  unfold len. rewrite Nat2Z.id. by apply agrees_each.
Qed.

Lemma agrees_str_list l : Forall str_ok l -> agrees (put_str_list l) rd_str_list l.
Proof.
  intros Hl. rewrite <- (map_id l) at 2. apply agrees_list; [done|].
  eapply Forall_impl; [exact Hl|]. apply agrees_str.
Qed.

(** An enum tag: one byte, checked by [of_u8]. *)
Lemma agrees_tag {A} (tag : Z) (of_u8 : Z -> Result A) a :
  of_u8 tag = Ok a -> agrees (put_u8 tag) (v ← rd_u8; rd_try (of_u8 v)) a.
Proof. intros H. eapply agrees_map; [apply agrees_u8|]. by apply reads_try. Qed.
End Reader.

(** The interface between an encoder and the decoder of another crate: on the
    values Rust's types allow, what one writes the other reads back as [view]. *)
Class Codec {A B} (T : ReaderTexts) (enc : A -> wr unit) (dec : rd B)
    (dom : A -> Prop) (view : A -> B) : Prop :=
  codec : forall a, dom a -> agrees (enc a) dec (view a).

#[global] Instance codec_bool T : Codec T put_bool (rd_bool T) (fun _ => True) id.
Proof. intros a _. apply agrees_bool. Qed.
#[global] Instance codec_str T : Codec T put_str (rd_str T) str_ok id.
Proof. intros a Ha. by apply agrees_str. Qed.
#[global] Instance codec_str_list T : Codec T put_str_list (rd_str_list T) (Forall str_ok) id.
Proof. intros a Ha. by apply agrees_str_list. Qed.

(** A list codec from an item codec. *)
Lemma codec_list {A B} T enc dec dom (view : A -> B) `{!Codec T enc dec dom view} items n e :
  n = len items -> Forall dom items ->
  agrees (_ ← put_count n e; wr_each enc items) (rd_list T dec) (map view items).
Proof.
  intros Hn Hd. apply agrees_list; [done|]. eapply Forall_impl; [exact Hd|]. apply codec.
Qed.

Ltac solve_appends :=
  repeat first [ apply appends_bytes | apply appends_ret | apply appends_try
               | apply appends_each; intros | apply appends_bind; [|intros] ].

#[export] Hint Resolve agrees_u8 agrees_u16 agrees_u32 agrees_i32 agrees_bool agrees_str
  agrees_str_list agrees_ret agrees_tag : ferrum.

(** One field: both sides start with a bind whose heads agree. *)
Ltac codec_field lem := eapply agrees_bind; [lem | cbn beta].
