(* ===== verification/Encode.v ===== *)
(** * ferrum-compiler, encoding: a policy as FADM and FEBP bytes

    [crates/ferrum-compiler/src/encode.rs]: the view of a policy both programs
    are encoded from, and the two encoders. *)

From S2P Require Import Prelude RustStd Ids Api Wire.

(** [*b"FADM"] and [*b"FEBP"]. *)
Definition ADMISSION_MAGIC : list Z := as_bytes "FADM".
Definition EBPF_MAGIC : list Z := as_bytes "FEBP".

Record Effects : Type := {
  fx_mode : PolicyMode;
  fx_priority : Z;
  fx_disabled : bool;
  fx_selector : PolicySelector;
  fx_supply : SupplySpec;
  fx_admit : AdmitSpec;
  fx_runtime : RuntimeSpec
}.

(** [Effects::from], one instance per policy kind. *)
Definition effects_of_cluster (spec : ClusterSecurityPolicySpec) : Effects :=
  {| fx_mode := csp_mode spec; fx_priority := csp_priority spec;
     fx_disabled := csp_disabled spec; fx_selector := csp_selector spec;
     fx_supply := csp_supply spec; fx_admit := csp_admit spec;
     fx_runtime := csp_runtime spec |}.

Definition effects_of_namespaced (spec : SecurityPolicySpec) : Effects :=
  {| fx_mode := sp_mode spec; fx_priority := sp_priority spec;
     fx_disabled := sp_disabled spec; fx_selector := sp_selector spec;
     fx_supply := sp_supply spec; fx_admit := sp_admit spec;
     fx_runtime := sp_runtime spec |}.

Definition mode_to_u8 (mode : PolicyMode) : Z :=
  match mode with Observe => 0 | Audit => 1 | Enforce => 2 end.

Definition failure_policy_to_u8 (policy : FailurePolicy) : Z :=
  match policy with Fail_ => 0 | Ignore_ => 1 end.

Definition pss_to_u8 (pss : PssProfile) : Z :=
  match pss with Privileged => 0 | Baseline => 1 | Restricted => 2 | Custom => 3 end.

Definition action_to_u8 (action : RuntimeAction) : Z :=
  match action with RAllow => 0 | RAudit => 1 | RDeny => 2 | RKill => 3 | RIsolate => 4 end.

Definition encode_entry (kv : string * string) : wr unit :=
  _ ← put_str kv.1; put_str kv.2.

Definition encode_requirement (e : LabelSelectorRequirement) : wr unit :=
  _ ← put_str (lsr_key e); _ ← put_str (lsr_operator e); put_str_list (lsr_values e).

Definition encode_label_selector (selector : LabelSelector) : wr unit :=
  let n := Z.of_nat (size (ls_match_labels selector)) in
  let m := len (ls_match_expressions selector) in
  _ ← (_ ← put_count n [Lit "matchLabels count exceeds u16 ("; Num n; Lit ")"];
       wr_each encode_entry (btree_iter (ls_match_labels selector)));
  _ ← put_count m [Lit "matchExpressions count exceeds u16 ("; Num m; Lit ")"];
  wr_each encode_requirement (ls_match_expressions selector).

Definition encode_selector (selector : PolicySelector) : wr unit :=
  _ ← encode_label_selector (ps_cluster_selector selector);
  _ ← encode_label_selector (ps_namespace_selector selector);
  _ ← encode_label_selector (ps_workload_selector selector);
  _ ← encode_label_selector (ps_service_account_selector selector);
  _ ← put_str_list (is_registries_allow (ps_image selector));
  put_bool (is_require_digest (ps_image selector)).

Definition encode_rule (rule : RuntimeRule) : wr unit :=
  _ ← put_str (rr_id rule);
  _ ← put_str_list (rr_syscalls rule);
  _ ← put_u8 (action_to_u8 (rr_action rule));
  _ ← put_str_list (rm_comm_in (rr_match_on rule));
  _ ← put_bool (rm_container_only (rr_match_on rule));
  _ ← put_str_list (rm_path_prefix (rr_match_on rule));
  _ ← put_str_list (rm_path_suffix (rr_match_on rule));
  put_bool (rm_not_agent_self (rr_match_on rule)).

Definition encode_trust_root (root : TrustRoot) : wr unit :=
  _ ← put_str (tr_name root);
  _ ← put_str_list (tr_keyless_issuer_allow root);
  put_str_list (tr_public_keys root).

Definition encode_supply (supply : SupplySpec) : wr unit :=
  let n := len (ss_trust_roots supply) in
  _ ← put_bool (ss_require_signed supply);
  _ ← put_bool (ss_deny_unsigned supply);
  _ ← put_bool (ss_deny_latest_tag supply);
  _ ← put_count n [Lit "trust root count exceeds u16 ("; Num n; Lit ")"];
  wr_each encode_trust_root (ss_trust_roots supply).

Definition encode_deny (deny : AdmitDeny) : wr unit :=
  _ ← put_bool (ad_privileged deny);
  _ ← put_bool (ad_host_pid deny);
  _ ← put_bool (ad_host_ipc deny);
  _ ← put_bool (ad_host_network deny);
  _ ← put_bool (ad_host_path deny);
  _ ← put_bool (ad_allow_privilege_escalation deny);
  _ ← put_bool (ad_run_as_root deny);
  _ ← put_bool (ad_wildcards_rbac deny);
  _ ← put_bool (ad_cluster_admin_bind deny);
  put_str_list (ad_added_capabilities deny).

Definition encode_mutate (mutate : AdmitMutate) : wr unit :=
  _ ← put_bool (am_inject_seccomp_runtime_default mutate);
  _ ← put_bool (am_drop_all_capabilities mutate);
  put_bool (am_read_only_root_filesystem mutate).

(** FADM: magic, ABI, mode, disabled, priority, failure policy, PSS, supply,
    deny, mutate, selector. *)
Definition encode_admission (fx : Effects) : Result (list Z) := run_writer (
  _ ← put_bytes ADMISSION_MAGIC;
  _ ← put_u32 ADMISSION_ABI;
  _ ← put_u8 (mode_to_u8 (fx_mode fx));
  _ ← put_bool (fx_disabled fx);
  _ ← put_i32 (fx_priority fx);
  _ ← put_u8 (failure_policy_to_u8 (as_failure_policy (fx_admit fx)));
  _ ← put_u8 (pss_to_u8 (as_pss (fx_admit fx)));
  _ ← encode_supply (fx_supply fx);
  _ ← encode_deny (as_deny (fx_admit fx));
  _ ← encode_mutate (as_mutate (fx_admit fx));
  encode_selector (fx_selector fx)).

(** FEBP: magic, ABI, mode, disabled, priority, default action, selector, rules. *)
Definition encode_ebpf (fx : Effects) : Result (list Z) := run_writer (
  let n := len (rs_rules (fx_runtime fx)) in
  _ ← put_bytes EBPF_MAGIC;
  _ ← put_u32 AGENT_ABI;
  _ ← put_u8 (mode_to_u8 (fx_mode fx));
  _ ← put_bool (fx_disabled fx);
  _ ← put_i32 (fx_priority fx);
  _ ← put_u8 (action_to_u8 (rs_default_action (fx_runtime fx)));
  _ ← encode_selector (fx_selector fx);
  _ ← put_count n [Lit "runtime rule count exceeds u16 ("; Num n; Lit ")"];
  wr_each encode_rule (rs_rules (fx_runtime fx))).

(** What Rust's types guarantee of a policy: UTF-8 strings and a 32-bit priority. *)
Definition effects_ok (fx : Effects) : Prop :=
  i32_ok (fx_priority fx) /\ selector_ok (fx_selector fx) /\
  Forall trust_root_ok (ss_trust_roots (fx_supply fx)) /\
  strs_ok (ad_added_capabilities (as_deny (fx_admit fx))) /\
  Forall rule_ok (rs_rules (fx_runtime fx)).

#[global] Instance effects_ok_dec fx : Decision (effects_ok fx).
Proof. unfold effects_ok. apply _. Defined.
