(* ===== verification/Febp.v ===== *)
(** * ferrum-ebpf, spec.rs: the FEBP program and its parser

    The loader's own types (they are not ferrum-api's), the decoder, and the two
    gates a decoded program passes: no kill-all, no rule no record can match. *)

From S2P Require Import Prelude RustStd Ids Api Wire Encode.

Module Spec.

Inductive Mode : Type := MObserve | MAudit | MEnforce.
Inductive Action : Type := Allow | Audit | Deny | Kill | Isolate.

#[global] Instance Mode_eq_dec : EqDecision Mode.
Proof. solve_decision. Defined.
#[global] Instance Action_eq_dec : EqDecision Action.
Proof. solve_decision. Defined.

Definition mode_from_u8 (v : Z) : Result Mode :=
  if v =? 0 then Ok MObserve else if v =? 1 then Ok MAudit else if v =? 2 then Ok MEnforce
  else Err (Compile [Lit "unknown policy mode "; Num v]).

Definition mode_as_u8 (m : Mode) : Z :=
  match m with MObserve => 0 | MAudit => 1 | MEnforce => 2 end.

Definition action_from_u8 (v : Z) : Result Action :=
  if v =? 0 then Ok Allow else if v =? 1 then Ok Audit else if v =? 2 then Ok Deny
  else if v =? 3 then Ok Kill else if v =? 4 then Ok Isolate
  else Err (Compile [Lit "unknown runtime action "; Num v]).

Definition action_as_u8 (a : Action) : Z :=
  match a with Allow => 0 | Audit => 1 | Deny => 2 | Kill => 3 | Isolate => 4 end.

Definition action_as_str (a : Action) : string :=
  match a with
  | Allow => "allow" | Audit => "audit" | Deny => "deny" | Kill => "kill" | Isolate => "isolate"
  end.

Definition action_debug (a : Action) : string :=
  match a with
  | Allow => "Allow" | Audit => "Audit" | Deny => "Deny" | Kill => "Kill" | Isolate => "Isolate"
  end.

Definition rank (a : Action) : Z :=
  match a with Allow => 0 | Audit => 1 | Deny => 2 | Isolate => 3 | Kill => 4 end.

Record Rule : Type := {
  r_id : string;
  r_syscalls : list string;
  r_action : Action;
  r_comm_in : list string;
  r_container_only : bool;
  r_path_prefix : list string;
  r_path_suffix : list string;
  r_not_agent_self : bool
}.

Record LabelRequirement : Type := {
  req_key : string;
  req_operator : string;
  req_values : list string
}.

Record LabelSelector : Type := {
  match_labels : gmap string string;
  match_expressions : list LabelRequirement
}.

Record ImageSelector : Type := {
  registries_allow : list string;
  require_digest : bool
}.

Record PolicySelector : Type := {
  cluster_selector : LabelSelector;
  namespace_selector : LabelSelector;
  workload_selector : LabelSelector;
  service_account_selector : LabelSelector;
  image : ImageSelector
}.

Record EbpfSpec : Type := {
  abi : Z;
  mode : Mode;
  disabled : bool;
  priority : Z;
  default_action : Action;
  selector : PolicySelector;
  rules : list Rule
}.

Inductive DeadRules : Type := Reject | Drop.

Definition label_selector_is_empty (s : LabelSelector) : bool :=
  map_empty (match_labels s) && is_empty (match_expressions s).

Definition selector_is_empty (s : PolicySelector) : bool :=
  label_selector_is_empty (cluster_selector s)
  && label_selector_is_empty (namespace_selector s)
  && label_selector_is_empty (workload_selector s)
  && label_selector_is_empty (service_account_selector s)
  && is_empty (registries_allow (image s))
  && negb (require_digest (image s)).

Definition selector_is_namespaced (s : PolicySelector) : bool :=
  negb (label_selector_is_empty (namespace_selector s))
  || negb (label_selector_is_empty (workload_selector s))
  || negb (label_selector_is_empty (service_account_selector s)).

(** ** Decoding *)

Definition febp_texts : ReaderTexts :=
  {| t_truncated := "truncated FEBP"; t_magic := "unexpected FEBP magic";
     t_non_utf8 := "non-utf8 string in FEBP"; t_trailing := "trailing bytes in FEBP" |}.

Definition trim_syscall (name : string) : string :=
  if slen (trim name) =? slen name then name else trim name.

Definition decode_entry : rd (string * string) :=
  k ← rd_str febp_texts; v ← rd_str febp_texts; mret (k, v).

Definition decode_requirement : rd LabelRequirement :=
  key ← rd_str febp_texts;
  operator ← rd_str febp_texts;
  values ← rd_str_list febp_texts;
  mret {| req_key := key; req_operator := operator; req_values := values |}.

Definition decode_label_selector : rd LabelSelector :=
  labels ← rd_list febp_texts decode_entry;
  exprs ← rd_list febp_texts decode_requirement;
  mret {| match_labels := insert_all labels; match_expressions := exprs |}.

Definition decode_selector : rd PolicySelector :=
  cluster ← decode_label_selector;
  namespace ← decode_label_selector;
  workload ← decode_label_selector;
  service_account ← decode_label_selector;
  registries ← rd_str_list febp_texts;
  digest ← rd_bool febp_texts;
  mret {| cluster_selector := cluster; namespace_selector := namespace;
          workload_selector := workload; service_account_selector := service_account;
          image := {| registries_allow := registries; require_digest := digest |} |}.

Definition decode_rule : rd Rule :=
  id ← rd_str febp_texts;
  syscalls ← rd_str_list febp_texts;
  action ← (v ← rd_u8 febp_texts; rd_try (action_from_u8 v));
  comm_in ← rd_str_list febp_texts;
  container_only ← rd_bool febp_texts;
  path_prefix ← rd_str_list febp_texts;
  path_suffix ← rd_str_list febp_texts;
  not_agent_self ← rd_bool febp_texts;
  mret {| r_id := id; r_syscalls := map trim_syscall syscalls; r_action := action;
          r_comm_in := comm_in; r_container_only := container_only;
          r_path_prefix := path_prefix; r_path_suffix := path_suffix;
          r_not_agent_self := not_agent_self |}.

(** The decoding half of [parse_febp_with], up to [r.finish()?]. *)
Definition decode_spec : rd EbpfSpec :=
  _ ← rd_expect_magic febp_texts EBPF_MAGIC;
  abi ← rd_u32 febp_texts;
  _ ← rd_try (refuse_if (negb (abi =? AGENT_ABI))
        (Degraded [Lit "eBPF ABI "; Num abi; Lit " incompatible with AGENT_ABI "; Num AGENT_ABI]));
  mode ← (v ← rd_u8 febp_texts; rd_try (mode_from_u8 v));
  disabled ← rd_bool febp_texts;
  priority ← rd_i32 febp_texts;
  default_action ← (v ← rd_u8 febp_texts; rd_try (action_from_u8 v));
  selector ← decode_selector;
  rules ← rd_list febp_texts decode_rule;
  mret {| abi := abi; mode := mode; disabled := disabled; priority := priority;
          default_action := default_action; selector := selector; rules := rules |}.

(** ** Gates *)

(** [for syscall in ..], [find_map]-style: the first unhooked name. *)
Definition dead_rule_reason (rule : Rule) : option msg :=
  match List.find (fun s => negb (is_datapath_syscall s)) (r_syscalls rule) with
  | Some syscall => Some [Lit "rule '"; Str (r_id rule); Lit "': syscall '"; Str syscall;
      Lit "' is not hooked by the datapath; the rule can never fire. Observed: ";
      Names DATAPATH_SYSCALLS]
  | None =>
  match unobservable_comm (r_comm_in rule) with
  | Some (comm, n) => Some [Lit "rule '"; Str (r_id rule); Lit "': comm '"; Str comm;
      Lit "' is "; Num n; Lit " bytes, the kernel reports at most "; Num COMM_MATCH_MAX;
      Lit "; the rule can never match"]
  | None =>
  match first_some (map unobservable_path_pattern [r_path_prefix rule; r_path_suffix rule]) with
  | Some (pattern, n) => Some [Lit "rule '"; Str (r_id rule); Lit "': path pattern '";
      Str pattern; Lit "' is "; Num n; Lit " bytes, the datapath path buffer carries at most ";
      Num PATH_MATCH_MAX; Lit "; the rule can never match"]
  | None => None
  end end end.

Definition kills (a : Action) : bool := match a with Kill | Isolate => true | _ => false end.

Definition kill_all_rule (rule : Rule) : bool :=
  kills (r_action rule) && is_empty (r_syscalls rule) && is_empty (r_comm_in rule)
  && is_empty (r_path_prefix rule) && is_empty (r_path_suffix rule).

Definition reject_kill_all (default_action : Action) (rules : list Rule) : Result unit :=
  _ ← refuse_if (kills default_action)
        (Compile [Lit "defaultAction "; Dbg (action_debug default_action);
           Lit " is kill-all: it decides every record no rule matched, and no match narrows it"]);
  try_each (fun rule => refuse_if (kill_all_rule rule)
    (Compile [Lit "rule '"; Str (r_id rule); Lit "' kill/isolate without match is kill-all"])) rules.

(** The [DeadRules::Drop] loop: kept rules and the reasons of the others. *)
Fixpoint drop_dead (rules : list Rule) : list Rule * list msg :=
  match rules with
  | [] => ([], [])
  | rule :: rules' =>
      let '(kept, dropped) := drop_dead rules' in
      match dead_rule_reason rule with
      | Some reason => (kept, reason :: dropped)
      | None => (rule :: kept, dropped)
      end
  end.

Definition with_rules (spec : EbpfSpec) (rs : list Rule) : EbpfSpec :=
  {| abi := abi spec; mode := mode spec; disabled := disabled spec; priority := priority spec;
     default_action := default_action spec; selector := selector spec; rules := rs |}.

Definition parse_febp_with (bytes : list Z) (dead : DeadRules) : Result (EbpfSpec * list msg) :=
  spec ← run_reader (x ← decode_spec; _ ← rd_finish febp_texts; mret x) bytes;
  _ ← reject_kill_all (default_action spec) (rules spec);
  match dead with
  | Reject =>
      match first_some (map dead_rule_reason (rules spec)) with
      | Some reason => Err (Compile reason)
      | None => Ok (spec, [])
      end
  | Drop =>
      let '(kept, dropped) := drop_dead (rules spec) in
      Ok (with_rules spec kept, dropped)
  end.

Definition parse_febp (bytes : list Z) : Result EbpfSpec :=
  fst <$> parse_febp_with bytes Reject.

(** ** What the loader sees of a compiled policy *)

Definition view_mode (m : PolicyMode) : Mode :=
  match m with Observe => MObserve | Api.Audit => MAudit | Enforce => MEnforce end.

Definition view_action (a : RuntimeAction) : Action :=
  match a with
  | RAllow => Allow | RAudit => Audit | RDeny => Deny | RKill => Kill | RIsolate => Isolate
  end.

Definition view_requirement (e : LabelSelectorRequirement) : LabelRequirement :=
  {| req_key := lsr_key e; req_operator := lsr_operator e; req_values := lsr_values e |}.

Definition view_label_selector (s : Api.LabelSelector) : LabelSelector :=
  {| match_labels := ls_match_labels s;
     match_expressions := map view_requirement (ls_match_expressions s) |}.

Definition view_selector (s : Api.PolicySelector) : PolicySelector :=
  {| cluster_selector := view_label_selector (ps_cluster_selector s);
     namespace_selector := view_label_selector (ps_namespace_selector s);
     workload_selector := view_label_selector (ps_workload_selector s);
     service_account_selector := view_label_selector (ps_service_account_selector s);
     image := {| registries_allow := is_registries_allow (ps_image s);
                 require_digest := is_require_digest (ps_image s) |} |}.

(** Syscall names arrive trimmed; everything else as written. *)
Definition view_rule (r : RuntimeRule) : Rule :=
  {| r_id := rr_id r; r_syscalls := map trim (rr_syscalls r);
     r_action := view_action (rr_action r);
     r_comm_in := rm_comm_in (rr_match_on r);
     r_container_only := rm_container_only (rr_match_on r);
     r_path_prefix := rm_path_prefix (rr_match_on r);
     r_path_suffix := rm_path_suffix (rr_match_on r);
     r_not_agent_self := rm_not_agent_self (rr_match_on r) |}.

Definition compiled_spec (fx : Effects) : EbpfSpec :=
  {| abi := AGENT_ABI; mode := view_mode (fx_mode fx); disabled := fx_disabled fx;
     priority := fx_priority fx; default_action := view_action (rs_default_action (fx_runtime fx));
     selector := view_selector (fx_selector fx);
     rules := map view_rule (rs_rules (fx_runtime fx)) |}.

Lemma trim_syscall_trim name : trim_syscall name = trim name.
Proof.
  unfold trim_syscall. destruct (Z.eqb_spec (slen (trim name)) (slen name)) as [H|]; [|done].
  symmetry. by apply trim_same_len.
Qed.

Lemma mode_tag m : mode_from_u8 (mode_to_u8 m) = Ok (view_mode m).
Proof. by destruct m. Qed.

Lemma action_tag a : action_from_u8 (action_to_u8 a) = Ok (view_action a).
Proof. by destruct a. Qed.

Lemma action_u8_roundtrip a : action_from_u8 (action_as_u8 a) = Ok a.
Proof. by destruct a. Qed.

#[global] Instance codec_entry :
  Codec febp_texts encode_entry decode_entry (fun kv => str_ok kv.1 /\ str_ok kv.2) id.
Proof.
  intros [k v] [Hk Hv]. codec_field ltac:(by apply agrees_str).
  eapply agrees_map; [by apply agrees_str | apply reads_ret].
Qed.

#[global] Instance codec_requirement :
  Codec febp_texts encode_requirement decode_requirement requirement_ok view_requirement.
Proof.
  intros e (Hk & Ho & Hv). do 2 codec_field ltac:(by apply agrees_str).
  eapply agrees_map; [by apply agrees_str_list | apply reads_ret].
Qed.

#[global] Instance codec_label_selector :
  Codec febp_texts encode_label_selector decode_label_selector label_selector_ok view_label_selector.
Proof.
  intros s [Hl He]. unfold encode_label_selector, decode_label_selector.
  codec_field ltac:(apply (codec_list febp_texts encode_entry decode_entry
                             (fun kv => str_ok kv.1 /\ str_ok kv.2) id)).
  - by rewrite btree_iter_len.
  - apply Forall_forall. intros [k v] Hin%btree_iter_elem. by apply Hl in Hin.
  - eapply agrees_map; [by apply (codec_list febp_texts encode_requirement decode_requirement requirement_ok view_requirement)|].
    rewrite map_id, insert_all_iter. apply reads_ret.
Qed.

#[global] Instance codec_selector :
  Codec febp_texts encode_selector decode_selector selector_ok view_selector.
Proof.
  intros s (Hc & Hn & Hw & Hs & Hr). unfold encode_selector, decode_selector.
  do 4 codec_field ltac:(by apply (codec (A := Api.LabelSelector))).
  codec_field ltac:(by apply agrees_str_list).
  eapply agrees_map; [apply agrees_bool | apply reads_ret].
Qed.

#[global] Instance codec_rule :
  Codec febp_texts encode_rule decode_rule rule_ok view_rule.
Proof.
  intros r (Hid & Hs & Hc & Hp & Hx). unfold encode_rule, decode_rule.
  codec_field ltac:(by apply agrees_str). codec_field ltac:(by apply agrees_str_list).
  codec_field ltac:(apply agrees_tag, action_tag).
  codec_field ltac:(by apply agrees_str_list). codec_field ltac:(apply agrees_bool).
  do 2 codec_field ltac:(by apply agrees_str_list).
  eapply agrees_map; [apply agrees_bool|].
  rewrite (map_ext trim_syscall trim trim_syscall_trim). apply reads_ret.
Qed.

(** The bytes the compiler emits decode to the policy it was given. *)
Lemma decode_encoded fx bs :
  effects_ok fx -> encode_ebpf fx = Ok bs -> len bs <= ISIZE_MAX ->
  run_reader (x ← decode_spec; _ ← rd_finish febp_texts; mret x) bs = Ok (compiled_spec fx).
Proof.
  intros (Hp & Hsel & _ & _ & Hr) H Hlen. eapply decode_run; [|exact H|exact Hlen].
  unfold decode_spec. codec_field ltac:(by apply agrees_magic).
  codec_field ltac:(by apply agrees_u32).
  apply agrees_check; [done|].
  codec_field ltac:(apply agrees_tag, mode_tag).
  codec_field ltac:(apply agrees_bool). codec_field ltac:(by apply agrees_i32).
  codec_field ltac:(apply agrees_tag, action_tag). codec_field ltac:(by apply codec).
  eapply agrees_map; [by apply (codec_list febp_texts encode_rule decode_rule rule_ok view_rule)|]. apply reads_ret.
Qed.

(** ** Gates: what a loaded program satisfies *)

Definition live (rule : Rule) : bool :=
  match dead_rule_reason rule with None => true | Some _ => false end.

Lemma live_spec rule :
  live rule = true <->
  Forall (fun s => s ∈ DATAPATH_SYSCALLS) (r_syscalls rule) /\
  Forall (fun s => slen s <= COMM_MATCH_MAX) (r_comm_in rule) /\
  Forall (fun s => slen s <= PATH_MATCH_MAX) (r_path_prefix rule) /\
  Forall (fun s => slen s <= PATH_MATCH_MAX) (r_path_suffix rule).
Proof.
  unfold live, dead_rule_reason. rewrite <- !first_over_limit_none.
  fold (unobservable_comm (r_comm_in rule)) (unobservable_path_pattern (r_path_prefix rule))
    (unobservable_path_pattern (r_path_suffix rule)).
  assert (Hs : List.find (fun s => negb (is_datapath_syscall s)) (r_syscalls rule) = None <->
          Forall (fun s => s ∈ DATAPATH_SYSCALLS) (r_syscalls rule)).
  { rewrite find_none_existsb, existsb_false_Forall. apply Forall_proper; [|done].
    intros x. rewrite negb_false_iff. apply list_contains_elem. }
  rewrite <- Hs. simpl map.
  destruct (List.find _ _); [naive_solver|].
  destruct (unobservable_comm _) as [[]|]; [naive_solver|].
  destruct (unobservable_path_pattern (r_path_prefix rule)) as [[]|];
    destruct (unobservable_path_pattern (r_path_suffix rule)) as [[]|]; simpl; naive_solver.
Qed.

Lemma drop_dead_spec rs :
  drop_dead rs = (List.filter live rs,
                  omap dead_rule_reason rs).
Proof.
  induction rs as [|r rs IH]; [done|]. cbn [drop_dead]. rewrite IH.
  unfold live at 2. csimpl. unfold live at 2. by destruct (dead_rule_reason r).
Qed.

Lemma first_dead_none rs :
  first_some (map dead_rule_reason rs) = None <-> Forall (fun r => live r = true) rs.
Proof.
  rewrite first_some_none, Forall_map. apply Forall_proper; [|done].
  intros r. unfold live. destruct (dead_rule_reason r); naive_solver.
Qed.

Lemma filter_live_all rs :
  Forall (fun r => live r = true) rs -> List.filter live rs = rs.
Proof. induction 1 as [|r rs Hr _ IH]; [done|]. simpl. by rewrite Hr, IH. Qed.

Lemma dropped_none rs :
  omap dead_rule_reason rs = [] <-> Forall (fun r => live r = true) rs.
Proof.
  induction rs as [|r rs IH]; csimpl; [by split; [constructor|]|].
  rewrite Forall_cons. unfold live at 1. destruct (dead_rule_reason r); naive_solver.
Qed.

(** A program is safe to run when nothing in it kills without a predicate. *)
Definition no_kill_all (spec : EbpfSpec) : Prop :=
  kills (default_action spec) = false /\ Forall (fun r => kill_all_rule r = false) (rules spec).

Lemma febp_kill_all_ok a rs :
  reject_kill_all a rs = Ok tt <->
  kills a = false /\ Forall (fun r => kill_all_rule r = false) rs.
Proof.
  unfold reject_kill_all. rewrite bind_ok_unit, refuse_if_ok, try_each_ok.
  apply and_iff_compat_l, Forall_proper; [|done]. intros r. apply refuse_if_ok.
Qed.

Lemma parse_febp_with_inv bytes dead spec dropped :
  parse_febp_with bytes dead = Ok (spec, dropped) ->
  exists raw, run_reader (x ← decode_spec; _ ← rd_finish febp_texts; mret x) bytes = Ok raw /\
    no_kill_all raw /\ spec = with_rules raw (List.filter live (rules raw)) /\
    dropped = omap dead_rule_reason (rules raw) /\ (dead = Reject -> dropped = []).
Proof.
  unfold parse_febp_with. intros (raw & Hraw & H)%bind_ok.
  apply bind_ok_unit in H as [Hk%febp_kill_all_ok H]. exists raw. split; [done|].
  split; [done|]. destruct dead.
  - destruct (first_some _) eqn:Hf; [done|]. injection H as <- <-.
    apply first_dead_none in Hf as Hlive. rewrite filter_live_all by done.
    rewrite (proj2 (dropped_none _) Hlive). split_and!; [by destruct raw | done..].
  - rewrite drop_dead_spec in H. injection H as <- <-. done.
Qed.


(** Restoring last-known-good differs from a fresh install only in dead
    rules: the strict parser accepts exactly when the dropping one accepts with
    nothing dropped, and then both yield the same program. *)
Lemma restore_agrees_with_install bytes spec :
  parse_febp_with bytes Reject = Ok (spec, []) <-> parse_febp_with bytes Drop = Ok (spec, []).
Proof.
  unfold parse_febp_with. rewrite !bind_ok. apply exist_proper. intros raw.
  apply and_iff_compat_l. rewrite !bind_ok_unit. apply and_iff_compat_l.
  rewrite drop_dead_spec. destruct (first_some _) eqn:Hf.
  - split; [done|]. intros [= _ H%dropped_none%first_dead_none]. congruence.
  - apply first_dead_none in Hf. rewrite filter_live_all, (proj2 (dropped_none _) Hf) by done.
    by destruct raw.
Qed.

(** A policy with one dead rule: [ptrace2] never reaches the ring buffer. *)
Definition half_dead_effects : Effects :=
  {| fx_mode := Api.Enforce; fx_priority := 1; fx_disabled := false;
     fx_selector := default_selector; fx_supply := default_supply; fx_admit := default_admit;
     fx_runtime := {| rs_default_action := RAllow;
       rs_rules := [ {| rr_id := "dead"; rr_syscalls := ["ptrace2"]; rr_match_on := default_match;
                        rr_action := RDeny |};
                     {| rr_id := "exec"; rr_syscalls := ["execve"]; rr_match_on := default_match;
                        rr_action := RKill |} ] |} |}.

End Spec.
