(* ===== verification/Wasm.v ===== *)
(** * ferrum-wasm-abi and ferrum-wasm-host: the wasm slot of a bundle

    No module is ever executed: a bundle may carry the versioned placeholder and
    nothing else. *)

From S2P Require Import Prelude RustStd Ids.

Definition ABI_VERSION : Z := 1.
Definition MODULE_MAGIC : list Z := as_bytes "FWSM".
Definition KIND_PLACEHOLDER : Z := 0.
Definition HEADER_LEN : Z := 9.

Record ModuleHeader : Type := { mh_abi : Z; mh_kind : Z }.

Definition placeholder_module : list Z :=
  MODULE_MAGIC ++ le_bytes 4 ABI_VERSION ++ [KIND_PLACEHOLDER].

Definition parse_header (module : list Z) : option ModuleHeader :=
  if len module <? HEADER_LEN then None else
  if bool_decide (take 4 module <> MODULE_MAGIC) then None else
  Some {| mh_abi := le_val (take 4 (drop 4 module)); mh_kind := default 0 (module !! 8%nat) |}.

Definition check_header (header : ModuleHeader) : Result unit :=
  refuse_if (negb (mh_abi header =? ABI_VERSION))
    (Degraded [Lit "wasm ABI "; Num (mh_abi header); Lit " incompatible with host ABI ";
               Num ABI_VERSION]).

Definition eval_policy (module _input : list Z) : Result bool :=
  _ ← refuse_if (is_empty module) (Degraded [Lit "wasm module is empty"]);
  header ← ok_or (parse_header module)
             (Compile [Lit "wasm module missing or unknown ABI header"]);
  _ ← check_header header;
  if mh_kind header =? KIND_PLACEHOLDER
  then Err (Degraded [Lit "wasm module is a versioned placeholder; host does not execute it"])
  else Err (Compile [Lit "unsupported wasm module kind "; Num (mh_kind header)]).

Definition accept_bundle_slot (module : list Z) : Result unit :=
  header ← ok_or (parse_header module)
    (Compile [Lit "bundle wasm slot is not a Ferrum wasm module: "; Num (len module);
              Lit " bytes, no readable header"]);
  _ ← check_header header;
  if mh_kind header =? KIND_PLACEHOLDER then Ok tt
  else Err (Degraded [Lit "bundle wasm slot carries module kind "; Num (mh_kind header);
         Lit " and this host executes none: loading it would enforce every part of the bundle except that module"]).

(** The host executes nothing: no module and no input is ever allowed by it. *)
Lemma eval_policy_never_ok module input b : eval_policy module input <> Ok b.
Proof.
  unfold eval_policy. intros H. inv_ok. by case_match.
Qed.

Lemma accept_placeholder : accept_bundle_slot placeholder_module = Ok tt.
Proof. vm_compute. reflexivity. Qed.

Lemma accept_bundle_slot_ok module :
  accept_bundle_slot module = Ok tt ->
  parse_header module = Some {| mh_abi := ABI_VERSION; mh_kind := KIND_PLACEHOLDER |}.
Proof.
  unfold accept_bundle_slot, check_header. destruct (parse_header module) as [[a k]|]; [|done].
  intros H. simpl in H. apply bind_ok_unit in H as [Ha%refuse_if_ok Hk]. simpl in *.
  apply negb_false_iff, Z.eqb_eq in Ha as ->.
  destruct (k =? KIND_PLACEHOLDER) eqn:E; [|done]. by apply Z.eqb_eq in E as ->.
Qed.
