(* ===== verification/Compiler.v ===== *)
(** * ferrum-compiler: policy in, bundle out

    [crates/ferrum-compiler/src/lib.rs]. The compiler validates, runs its own
    second copy of the gates, encodes both programs and hashes the FRMB envelope.
    SHA-256 is the [sha2] crate's and is a parameter. *)

From S2P Require Import Prelude RustStd Ids Api Policy Wire Encode Febp Wasm.

Definition BUNDLE_MAGIC : list Z := as_bytes "FRMB".
Definition BUNDLE_FORMAT : Z := 1.

Record CompiledBundle : Type := {
  cb_digest : string;
  cb_admission_program : list Z;
  cb_ebpf_spec : list Z;
  cb_wasm : list Z
}.

(** ** Second gates *)

Definition reject_kill_all (fx : Effects) : Result unit :=
  let default_verb :=
    match rs_default_action (fx_runtime fx) with
    | RKill => Some "kill" | RIsolate => Some "isolate"
    | RAllow | RAudit | RDeny => None
    end in
  _ ← match default_verb with
      | Some verb => Err (Compile [Lit "runtime.defaultAction "; Str verb;
          Lit " is kill-all: it decides every record no rule matched and no match can narrow it. Executable defaults are allow and audit"])
      | None => Ok tt
      end;
  try_each (fun rule =>
    refuse_if (kills (rr_action rule) && is_empty (rr_syscalls rule)
               && is_empty (rm_comm_in (rr_match_on rule))
               && is_empty (rm_path_prefix (rr_match_on rule))
               && is_empty (rm_path_suffix (rr_match_on rule)))
      (Compile [Lit "rule '"; Str (rr_id rule); Lit "' kill/isolate without match is kill-all"]))
    (rs_rules (fx_runtime fx)).

Definition reject_unobservable_syscalls (fx : Effects) : Result unit :=
  try_each (fun rule =>
    _ ← try_each (fun syscall =>
          let name := trim syscall in
          refuse_if (negb (is_datapath_syscall name))
            (Compile [Lit "rule '"; Str (rr_id rule); Lit "': syscall '"; Str name;
               Lit "' is not hooked by the datapath; the rule can never fire. Observed: ";
               Names DATAPATH_SYSCALLS])) (rr_syscalls rule);
    match uncovered_equivalent_syscall (rr_syscalls rule) with
    | Some (listed, missing) =>
        let arches :=
          match arch_restricted_syscall missing with
          | Some r => Names (ars_arches r)
          | None => match arch_restricted_syscall listed with
                    | Some r => Names (ars_arches r)
                    | None => Lit "every arch"
                    end
          end in
        Err (Compile [Lit "rule '"; Str (rr_id rule); Lit "': syscall '"; Str listed;
          Lit "' named without '"; Str missing; Lit "'; they are one kernel operation and "; arches;
          Lit " serves both, so one signed bundle for the whole cluster must name both or the other form walks past the rule"])
    | None => Ok tt
    end) (rs_rules (fx_runtime fx)).

Definition reject_unobservable_predicates (fx : Effects) : Result unit :=
  try_each (fun rule =>
    _ ← match unobservable_comm (rm_comm_in (rr_match_on rule)) with
        | Some (comm, n) =>
            Err (Compile [Lit "rule '"; Str (rr_id rule); Lit "': comm '"; Str comm; Lit "' is ";
              Num n; Lit " bytes; the kernel reports at most "; Num COMM_MATCH_MAX;
              Lit ", so the rule can never match"])
        | None => Ok tt
        end;
    try_each (fun '(field, patterns) =>
      match unobservable_path_pattern patterns with
      | Some (pattern, n) =>
          Err (Compile [Lit "rule '"; Str (rr_id rule); Lit "': "; Str field; Lit " '"; Str pattern;
            Lit "' is "; Num n; Lit " bytes; the datapath path buffer carries at most ";
            Num PATH_MATCH_MAX; Lit ", so the rule can never match"])
      | None => Ok tt
      end) [("pathPrefix", rm_path_prefix (rr_match_on rule));
            ("pathSuffix", rm_path_suffix (rr_match_on rule))]) (rs_rules (fx_runtime fx)).

Definition reject_cluster_selector (fx : Effects) : Result unit :=
  let cluster := ps_cluster_selector (fx_selector fx) in
  refuse_if (negb (map_empty (ls_match_labels cluster))
             || negb (is_empty (ls_match_expressions cluster)))
    (Compile [Lit "selector.clusterSelector is outside MVP-1: nothing on either plane observes cluster labels, so the bundle would deny every Pod at admission and apply to every workload at runtime while holding the node Degraded"]).

Definition reject_unexecutable_actions (fx : Effects) : Result unit :=
  _ ← refuse_if (bool_decide (rs_default_action (fx_runtime fx) = RDeny))
        (Compile [Lit "runtime.defaultAction deny: the runtime plane does not execute it — the tracepoint fires after the syscall. Deny is admission's verb (admit.deny); allow and audit are executable defaults"]);
  try_each (fun rule =>
    match rr_action rule with
    | RDeny => Err (Compile [Lit "rule '"; Str (rr_id rule);
        Lit "': action=deny is not executed by the runtime plane — the tracepoint fires after the syscall, there is nothing left to cancel. Deny is admission's verb (admit.deny); runtime executes allow, audit, kill"])
    | RIsolate => Err (Compile [Lit "rule '"; Str (rr_id rule);
        Lit "': action=isolate has no implementation; the rule would match and do nothing. Runtime executes allow, audit, kill"])
    | RAllow | RAudit | RKill => Ok tt
    end) (rs_rules (fx_runtime fx)).

(** ** The envelope *)

(** [u32::try_from(blob.len())] and the two [extend_from_slice]. *)
Definition append_len_prefixed (out blob : list Z) (name : string) : Result (list Z) :=
  if len blob <? U32 then Ok (out ++ le_bytes 4 (len blob) ++ blob)
  else Err (Compile [Str name; Lit " exceeds u32 length"]).

Definition bundle_digest_material (min_agent_abi min_admission_abi : Z)
    (admission_program ebpf_spec wasm : list Z) : Result (list Z) :=
  let out := BUNDLE_MAGIC ++ le_bytes 4 BUNDLE_FORMAT ++ le_bytes 4 min_agent_abi
             ++ le_bytes 4 min_admission_abi in
  out ← append_len_prefixed out admission_program "admission_program";
  out ← append_len_prefixed out ebpf_spec "ebpf_spec";
  append_len_prefixed out wasm "wasm".

(** ** Digest (ferrum-crypto) *)

Definition hex_digit (n : Z) : Z := if n <? 10 then 48 + n else 87 + n.

(** Lowercase hex, high nibble first. *)
Definition hex_encode (bytes : list Z) : string :=
  string_of_bytes (concat (map (fun b => [hex_digit (Z.shiftr b 4); hex_digit (Z.land b 15)]) bytes)).

Section Compile.
  Context (sha256 : list Z -> list Z).

Definition bundle_digest (raw : list Z) : string := hex_encode (sha256 raw).

Definition verify_bundle_digest (raw : list Z) (expected : string) : Result unit :=
  _ ← refuse_if (str_empty expected) (Integrity [Lit "expected bundle digest is empty"]);
  refuse_if (negb (str_eqb (bundle_digest raw) expected))
    (Integrity [Lit "bundle digest mismatch: expected "; Str expected; Lit ", got ";
                Str (bundle_digest raw)]).

Definition emit_bundle (fx : Effects) : Result CompiledBundle :=
  _ ← reject_kill_all fx;
  _ ← reject_unobservable_syscalls fx;
  _ ← reject_unobservable_predicates fx;
  _ ← reject_unexecutable_actions fx;
  _ ← reject_cluster_selector fx;
  admission_program ← encode_admission fx;
  ebpf_spec ← encode_ebpf fx;
  let wasm := placeholder_module in
  material ← bundle_digest_material AGENT_ABI ADMISSION_ABI admission_program ebpf_spec wasm;
  mret {| cb_digest := bundle_digest material; cb_admission_program := admission_program;
          cb_ebpf_spec := ebpf_spec; cb_wasm := wasm |}.

Definition compile_cluster_policy (spec : ClusterSecurityPolicySpec) : Result CompiledBundle :=
  _ ← validate_cluster_policy spec; emit_bundle (effects_of_cluster spec).

Definition compile_namespaced_policy (spec : SecurityPolicySpec) : Result CompiledBundle :=
  _ ← validate_namespaced_policy spec; emit_bundle (effects_of_namespaced spec).
End Compile.

(** ** The gates *)

(** What the five gates of [emit_bundle] enforce together. *)
Record gates_hold (fx : Effects) : Prop := {
  gh_default : rs_default_action (fx_runtime fx) = RAllow \/
               rs_default_action (fx_runtime fx) = RAudit;
  gh_actions : Forall (fun r => executable (rr_action r)) (rs_rules (fx_runtime fx));
  gh_bounded : Forall (fun r => rr_action r = RKill -> without_match r = false)
                 (rs_rules (fx_runtime fx));
  gh_syscalls : Forall (fun r => syscalls_observable (rr_syscalls r)) (rs_rules (fx_runtime fx));
  gh_predicates : Forall (fun r => predicates_observable (rm_comm_in (rr_match_on r))
      (rm_path_prefix (rr_match_on r)) (rm_path_suffix (rr_match_on r))) (rs_rules (fx_runtime fx));
  gh_cluster : cluster_selector_empty (fx_selector fx)
}.

Lemma reject_kill_all_ok fx :
  reject_kill_all fx = Ok tt <->
  kills (rs_default_action (fx_runtime fx)) = false /\
  Forall (fun r => kills (rr_action r) = true -> without_match r = false) (rs_rules (fx_runtime fx)).
Proof.
  unfold reject_kill_all. rewrite bind_ok_unit, try_each_ok. apply Morphisms_Prop.and_iff_morphism.
  - by destruct (rs_default_action (fx_runtime fx)).
  - apply Forall_proper; [|done]. intros r. rewrite refuse_if_ok. unfold without_match.
    destruct (kills _), (is_empty (rr_syscalls r)), (is_empty (rm_comm_in _)),
      (is_empty (rm_path_prefix _)), (is_empty (rm_path_suffix _)); naive_solver.
Qed.

Lemma reject_unobservable_syscalls_ok fx :
  reject_unobservable_syscalls fx = Ok tt <->
  Forall (fun r => syscalls_observable (rr_syscalls r)) (rs_rules (fx_runtime fx)).
Proof.
  unfold reject_unobservable_syscalls. rewrite try_each_ok.
  apply Forall_proper; [|done]. intros r. rewrite bind_ok_unit, try_each_ok.
  unfold syscalls_observable, uncovered_equivalent_syscall. rewrite <- uncovered_in_none.
  apply Morphisms_Prop.and_iff_morphism.
  - apply Forall_proper; [|done]. intros s. rewrite refuse_if_ok, negb_false_iff.
    apply list_contains_elem.
  - by destruct (uncovered_in _ _) as [[]|].
Qed.

Lemma reject_unobservable_predicates_ok fx :
  reject_unobservable_predicates fx = Ok tt <->
  Forall (fun r => predicates_observable (rm_comm_in (rr_match_on r))
    (rm_path_prefix (rr_match_on r)) (rm_path_suffix (rr_match_on r))) (rs_rules (fx_runtime fx)).
Proof.
  unfold reject_unobservable_predicates. rewrite try_each_ok.
  apply Forall_proper; [|done]. intros r. rewrite <- (validate_rule_predicates_ok (rr_id r)).
  unfold validate_rule_predicates. rewrite !bind_ok_unit, !try_each_ok, !Forall_cons, !Forall_nil.
  destruct (unobservable_comm _) as [[]|], (unobservable_path_pattern (rm_path_prefix _)) as [[]|],
    (unobservable_path_pattern (rm_path_suffix _)) as [[]|]; naive_solver.
Qed.

Lemma reject_unexecutable_actions_ok fx :
  reject_unexecutable_actions fx = Ok tt <->
  rs_default_action (fx_runtime fx) <> RDeny /\
  Forall (fun r => executable (rr_action r)) (rs_rules (fx_runtime fx)).
Proof.
  unfold reject_unexecutable_actions.
  rewrite bind_ok_unit, refuse_if_ok, bool_decide_eq_false, try_each_ok.
  apply and_iff_compat_l, Forall_proper; [|done]. intros r.
  unfold executable. destruct (rr_action r); naive_solver.
Qed.

Lemma reject_cluster_selector_ok fx :
  reject_cluster_selector fx = Ok tt <-> cluster_selector_empty (fx_selector fx).
Proof.
  unfold reject_cluster_selector, cluster_selector_empty, map_empty.
  rewrite refuse_if_ok, orb_false_iff, !negb_false_iff, is_empty_true, bool_decide_eq_true. done.
Qed.

Lemma gates_hold_iff fx :
  gates_hold fx <->
  reject_kill_all fx = Ok tt /\ reject_unobservable_syscalls fx = Ok tt /\
  reject_unobservable_predicates fx = Ok tt /\ reject_unexecutable_actions fx = Ok tt /\
  reject_cluster_selector fx = Ok tt.
Proof.
  rewrite reject_kill_all_ok, reject_unobservable_syscalls_ok, reject_unobservable_predicates_ok,
    reject_unexecutable_actions_ok, reject_cluster_selector_ok. split.
  - intros [Hd Ha Hb Hs Hp Hc]. split_and!; try done; try (destruct Hd as [-> | ->]; done).
    apply Forall_forall. intros r Hr Hk.
    eapply Forall_forall in Ha; [|done]. eapply Forall_forall in Hb; [|done].
    apply Hb. destruct Ha as [E|[E|E]]; rewrite E in Hk; done.
  - intros ((Hd & Hb) & Hs & Hp & (Hn & Ha) & Hc). constructor; try done.
    + destruct (rs_default_action (fx_runtime fx)); naive_solver.
    + eapply Forall_impl; [exact Hb|]. intros r H E. apply H. by rewrite E.
Qed.

(** The encoder is reached only past all five gates. *)
Lemma emit_bundle_inv sha256 fx b :
  emit_bundle sha256 fx = Ok b ->
  gates_hold fx /\ encode_admission fx = Ok (cb_admission_program b) /\
  encode_ebpf fx = Ok (cb_ebpf_spec b) /\ cb_wasm b = placeholder_module /\
  exists material,
    bundle_digest_material AGENT_ABI ADMISSION_ABI (cb_admission_program b) (cb_ebpf_spec b)
      (cb_wasm b) = Ok material /\ cb_digest b = bundle_digest sha256 material.
Proof.
  unfold emit_bundle. intros H.
  do 5 (apply bind_ok_unit in H as [? H]).
  apply bind_ok in H as (adm & Hadm & H). apply bind_ok in H as (ebpf & Hebpf & H).
  apply bind_ok in H as (mat & Hmat & [= <-]). simpl.
  split; [by apply gates_hold_iff|]. eauto 10.
Qed.
