(* ===== verification/Envelope.v ===== *)
(** * ferrum-ebpf, envelope.rs: FEBP out of a bundle

    [extract_febp] accepts raw FEBP or an FRMB envelope, checks the ABI and the
    wasm slot, and hands the FEBP slice to the parser. The theorems close the
    loop with the compiler: what it emits, the agent loads. *)

From S2P Require Import Prelude RustStd Ids Api Policy Wire Encode Febp Wasm Compiler.

Definition frmb_texts : ReaderTexts :=
  {| t_truncated := "truncated policy bundle"; t_magic := "unexpected policy bundle magic";
     t_non_utf8 := ""; t_trailing := "trailing bytes in policy bundle" |}.

(** [let n = r.u32()? as usize; r.take(n)?] *)
Definition rd_blob : rd (list Z) := n ← rd_u32 frmb_texts; rd_take frmb_texts n.

(** The reads of [parse_frmb], up to [r.finish()?]. *)
Definition parse_frmb_fields : rd (list Z * list Z) :=
  _ ← rd_expect_magic frmb_texts BUNDLE_MAGIC;
  format ← rd_u32 frmb_texts;
  _ ← rd_try (refuse_if (negb (format =? BUNDLE_FORMAT))
        (Compile [Lit "unknown policy bundle format "; Num format]));
  min_agent_abi ← rd_u32 frmb_texts;
  _ ← rd_u32 frmb_texts;
  _ ← rd_try (refuse_if (negb (min_agent_abi =? AGENT_ABI))
        (Degraded [Lit "bundle minAgentAbi "; Num min_agent_abi;
                   Lit " incompatible with AGENT_ABI "; Num AGENT_ABI]));
  _ ← rd_blob;
  spec ← rd_blob;
  wasm ← rd_blob;
  mret (spec, wasm).

Definition parse_frmb (raw : list Z) : Result (list Z) :=
  '(spec, wasm) ← run_reader (x ← parse_frmb_fields; _ ← rd_finish frmb_texts; mret x) raw;
  _ ← refuse_if ((len spec <? 4) || bool_decide (take 4 spec <> EBPF_MAGIC))
        (Compile [Lit "FRMB eBPF slice is not FEBP"]);
  _ ← accept_bundle_slot wasm;
  mret spec.

Definition extract_febp (raw : list Z) : Result (list Z) :=
  if (4 <=? len raw) && bool_decide (take 4 raw = EBPF_MAGIC) then Ok raw else parse_frmb raw.

(** ** The envelope as a writer *)

Definition put_blob (blob : list Z) (name : string) : wr unit :=
  fun w => (fun out => (tt, out)) <$> append_len_prefixed w blob name.

Definition material_writer (a b : Z) (adm ebpf wasm : list Z) : wr unit :=
  _ ← put_bytes BUNDLE_MAGIC; _ ← put_u32 BUNDLE_FORMAT; _ ← put_u32 a; _ ← put_u32 b;
  _ ← put_blob adm "admission_program"; _ ← put_blob ebpf "ebpf_spec"; put_blob wasm "wasm".

Lemma material_as_writer a b adm ebpf wasm :
  run_writer (material_writer a b adm ebpf wasm) = bundle_digest_material a b adm ebpf wasm.
Proof.
  unfold run_writer, material_writer, bundle_digest_material, put_blob, put_bytes, put_u32.
  unfold mbind, wr_mbind, put_bytes. simpl.
  destruct (append_len_prefixed _ adm _) as [o1|]; [|done]. simpl.
  destruct (append_len_prefixed _ ebpf _) as [o2|]; [|done]. simpl.
  by destruct (append_len_prefixed _ wasm _).
Qed.

Lemma agrees_blob blob name : agrees (put_blob blob name) rd_blob blob.
Proof.
  intros w w' H. unfold put_blob, append_len_prefixed in H.
  destruct (Z.ltb_spec (len blob) U32) as [Hlt|]; [|done].
  exists (le_bytes 4 (len blob) ++ blob). split; [by injection H|].
  eapply reads_bind; [|apply reads_take].
  assert (agrees (put_u32 (len blob)) (rd_u32 frmb_texts) (len blob)) as Hu.
  { apply agrees_u32. pose proof (len_nonneg blob). lia. }
  by destruct (Hu [] _ eq_refl) as (bs & [= <-] & Hr).
Qed.

Lemma appends_blob blob name : appends (put_blob blob name).
Proof.
  intros w a w' H. unfold put_blob, append_len_prefixed in H.
  case_match; [|done]. injection H as <- <-. by eexists.
Qed.

Lemma extract_frmb fx adm ebpf material :
  bundle_digest_material AGENT_ABI ADMISSION_ABI adm ebpf placeholder_module = Ok material ->
  encode_ebpf fx = Ok ebpf -> len material <= ISIZE_MAX ->
  extract_febp material = Ok ebpf.
Proof.
  intros Hmat Henc Hlen.
  assert (run_reader (x ← parse_frmb_fields; _ ← rd_finish frmb_texts; mret x) material =
          Ok (ebpf, placeholder_module)) as Hrun.
  { eapply decode_run; [|rewrite <- Hmat; apply material_as_writer|done].
    unfold material_writer, parse_frmb_fields.
    codec_field ltac:(by apply agrees_magic). codec_field ltac:(by apply agrees_u32).
    apply agrees_check; [done|]. do 2 codec_field ltac:(by apply agrees_u32).
    apply agrees_check; [done|]. do 2 codec_field ltac:(apply agrees_blob).
    eapply agrees_map; [apply agrees_blob | apply reads_ret]. }
  assert (exists rest, ebpf = EBPF_MAGIC ++ rest) as [rest ->].
  { unfold encode_ebpf, run_writer in Henc.
    match type of Henc with (snd <$> ?m) = _ => destruct m as [[u w]|] eqn:E; [|done] end.
    injection Henc as <-. apply wr_starts in E; [done|]. solve_appends. }
  assert (exists rest, material = BUNDLE_MAGIC ++ rest) as [mrest ->].
  { rewrite <- material_as_writer in Hmat. unfold run_writer in Hmat.
    destruct (material_writer _ _ _ _ _ []) as [[u w]|] eqn:E; [|done].
    injection Hmat as <-. apply wr_starts in E; [done|].
    solve_appends; apply appends_blob. }
  unfold extract_febp. rewrite andb_comm. rewrite bool_decide_eq_false_2 by done. simpl andb.
  assert ((len (EBPF_MAGIC ++ rest) <? 4)
          || bool_decide (take 4 (EBPF_MAGIC ++ rest) <> EBPF_MAGIC) = false) as Hspec.
  { apply orb_false_iff. split.
    - apply Z.ltb_ge. rewrite len_app. pose proof (len_nonneg rest).
      change (len EBPF_MAGIC) with 4. lia.
    - apply bool_decide_eq_false_2. intros H. by apply H. }
  unfold parse_frmb. rewrite Hrun. cbn [mbind result_mbind]. rewrite Hspec.
  cbn [refuse_if]. by rewrite accept_placeholder.
Qed.

(** ** Properties *)

(** A validated policy satisfies every gate the encoder repeats. *)
Lemma enforceable_passes_gates fx :
  cluster_selector_empty (fx_selector fx) -> runtime_enforceable (fx_runtime fx) -> gates_hold fx.
Proof.
  intros Hc [Hd Hu Hr]. constructor; try done;
    (eapply Forall_impl; [exact Hr|]); intros r [Hn Ha Hs Hp Hb]; done.
Qed.

(** After the validator accepts, none of the compiler's second gates can fire:
    compilation fails only where an encoder or the envelope finds a length that does
    not fit its prefix. *)
Lemma second_gates_never_fire_after_validation sha256 spec :
  validate_cluster_policy spec = Ok tt ->
  let fx := effects_of_cluster spec in
  (reject_kill_all fx = Ok tt /\ reject_unobservable_syscalls fx = Ok tt /\
   reject_unobservable_predicates fx = Ok tt /\ reject_unexecutable_actions fx = Ok tt /\
   reject_cluster_selector fx = Ok tt) /\
  forall e, compile_cluster_policy sha256 spec = Err e ->
    encode_admission fx = Err e \/ encode_ebpf fx = Err e \/
    exists ap eb, encode_admission fx = Ok ap /\ encode_ebpf fx = Ok eb /\
      bundle_digest_material AGENT_ABI ADMISSION_ABI ap eb placeholder_module = Err e.
Proof.
  intros Hv fx. pose proof Hv as (_ & Hc & _ & Hr)%validate_common_ok.
  assert (Hg : reject_kill_all fx = Ok tt /\ reject_unobservable_syscalls fx = Ok tt /\
    reject_unobservable_predicates fx = Ok tt /\ reject_unexecutable_actions fx = Ok tt /\
    reject_cluster_selector fx = Ok tt) by (apply gates_hold_iff; by apply enforceable_passes_gates).
  split; [exact Hg|]. intros e. destruct Hg as (H1 & H2 & H3 & H4 & H5).
  unfold compile_cluster_policy, emit_bundle. fold fx. rewrite Hv, H1, H2, H3, H4, H5. simpl.
  destruct (encode_admission fx) as [ap|]; [|intros [= <-]; by left]. simpl.
  destruct (encode_ebpf fx) as [eb|]; [|intros [= <-]; by right; left]. simpl.
  destruct (bundle_digest_material _ _ ap eb _) eqn:E; [done|]. intros [= <-].
  right. right. by exists ap, eb.
Qed.

Lemma gates_reject_kill_all fx :
  gates_hold fx ->
  Spec.reject_kill_all (Spec.default_action (Spec.compiled_spec fx))
    (Spec.rules (Spec.compiled_spec fx)) = Ok tt.
Proof.
  intros [Hd Ha Hb _ _ _]. apply Spec.febp_kill_all_ok. simpl. split.
  { by destruct Hd as [-> | ->]. }
  apply Forall_map, Forall_forall. intros r Hr.
  eapply Forall_forall in Ha; [|done]. eapply Forall_forall in Hb; [|done]. simpl in *.
  unfold Spec.kill_all_rule. simpl.
  destruct Ha as [E | [E | E]]; rewrite E; [done | done |]. simpl.
  specialize (Hb E). unfold without_match in Hb.
  assert (is_empty (map trim (rr_syscalls r)) = is_empty (rr_syscalls r)) as ->
    by (by destruct (rr_syscalls r)).
  destruct (is_empty (rr_syscalls r)), (is_empty (rm_comm_in _)), (is_empty (rm_path_prefix _)),
    (is_empty (rm_path_suffix _)); done.
Qed.

Lemma gates_live fx :
  gates_hold fx -> Forall (fun r => Spec.live r = true) (Spec.rules (Spec.compiled_spec fx)).
Proof.
  intros [_ _ _ Hs Hp _]. simpl. apply Forall_map, Forall_forall. intros r Hr.
  eapply Forall_forall in Hs as [Hs _]; [|done].
  eapply Forall_forall in Hp as (Hc & Hpp & Hps); [|done].
  apply Spec.live_spec. simpl. split_and!; try done.
  by apply Forall_map.
Qed.

Lemma parse_compiled fx bs :
  effects_ok fx -> gates_hold fx -> encode_ebpf fx = Ok bs -> len bs <= ISIZE_MAX ->
  Spec.parse_febp bs = Ok (Spec.compiled_spec fx).
Proof.
  intros Hok Hg Henc Hlen. unfold Spec.parse_febp, Spec.parse_febp_with.
  rewrite (Spec.decode_encoded fx) by done. cbn [mbind result_mbind].
  rewrite gates_reject_kill_all by done. cbn [mbind result_mbind].
  by rewrite (proj2 (Spec.first_dead_none _) (gates_live _ Hg)).
Qed.

(** what the compiler emits the agent loads: the FRMB envelope of a compiled
    cluster policy yields its FEBP slice, and the strict parser reads that slice
    back as the policy that was written (syscall names trimmed, nothing else
    changed), so no compiled bundle is refused by the loader's own gates. *)
Lemma compiled_bundle_loads sha256 spec b material
    (Htypes : effects_ok (effects_of_cluster spec))
    (Hcompile : compile_cluster_policy sha256 spec = Ok b)
    (Hmaterial : bundle_digest_material AGENT_ABI ADMISSION_ABI (cb_admission_program b)
       (cb_ebpf_spec b) (cb_wasm b) = Ok material)
    (Halloc : len material <= ISIZE_MAX /\ len (cb_ebpf_spec b) <= ISIZE_MAX) :
  extract_febp material = Ok (cb_ebpf_spec b) /\
  Spec.parse_febp (cb_ebpf_spec b) = Ok (Spec.compiled_spec (effects_of_cluster spec)) /\
  cb_digest b = bundle_digest sha256 material.
Proof.
  unfold compile_cluster_policy in Hcompile.
  apply bind_ok_unit in Hcompile as [_ (Hg & Hadm & Hebpf & Hw & m & Hm & Hd)%emit_bundle_inv].
  rewrite Hm in Hmaterial. injection Hmaterial as ->. rewrite Hw in Hm.
  destruct Halloc as [Hl1 Hl2].
  split_and!; [exact (extract_frmb _ _ _ _ Hm Hebpf Hl1) | by apply parse_compiled | done].
Qed.

(** ** An example policy *)

Definition example_rule : RuntimeRule :=
  {| rr_id := "no-shell"; rr_syscalls := ["execve "; "execveat"];
     rr_match_on := {| rm_comm_in := ["sh"]; rm_container_only := true; rm_path_prefix := [];
                       rm_path_suffix := ["docker.sock"]; rm_not_agent_self := true |};
     rr_action := RKill |}.

Definition example_policy : ClusterSecurityPolicySpec :=
  {| csp_mode := Enforce; csp_priority := -5; csp_disabled := false;
     csp_selector :=
       {| ps_cluster_selector := default_label_selector;
          ps_namespace_selector :=
            {| ls_match_labels := {["env" := "prod"; "app" := "web"]};
               ls_match_expressions := [] |};
          ps_workload_selector := default_label_selector;
          ps_service_account_selector := default_label_selector;
          ps_image := default_image_selector |};
     csp_supply := default_supply; csp_admit := default_admit;
     csp_runtime := {| rs_default_action := RAudit; rs_rules := [example_rule] |} |}.

(** A stand-in for SHA-256 with its output length. *)
Definition toy_sha256 (l : list Z) : list Z := repeat (foldr Z.add 0 l mod 256) 32.

Lemma example_policy_types : effects_ok (effects_of_cluster example_policy).
Proof. apply (bool_decide_unpack _). vm_compute. exact I. Qed.

Lemma compiled_bundle_loads_witness :
  exists b material,
    compile_cluster_policy toy_sha256 example_policy = Ok b /\
    extract_febp material = Ok (cb_ebpf_spec b) /\
    Spec.parse_febp (cb_ebpf_spec b) = Ok (Spec.compiled_spec (effects_of_cluster example_policy)) /\
    cb_digest b = bundle_digest toy_sha256 material.
Proof.
  eexists _, _. split; [vm_compute; reflexivity|].
  apply (compiled_bundle_loads toy_sha256 example_policy);
    [ apply example_policy_types | vm_compute; reflexivity | vm_compute; reflexivity
    | split; vm_compute; discriminate ].
Defined.

Lemma second_gates_witness :
  reject_kill_all (effects_of_cluster example_policy) = Ok tt.
Proof.
  apply (second_gates_never_fire_after_validation (fun l => l) example_policy).
  vm_compute. reflexivity.
Defined.
