(* ===== verification/RuntimeEval.v ===== *)
(** * ferrum-ebpf, eval.rs: deciding a syscall record

    Selector against workload identity, rules against the record, then the cap of
    the policy mode. [WorkloadIdentity] is [ferrum-k8smeta]'s. *)

From S2P Require Import Prelude RustStd Ids Api Febp.
Export Spec.

Record WorkloadIdentity : Type := {
  wi_namespace : string;
  wi_pod : string;
  wi_container : string;
  wi_service_account : string;
  wi_cluster_labels : gmap string string;
  wi_namespace_labels : gmap string string;
  wi_workload_labels : gmap string string;
  wi_service_account_labels : gmap string string;
  wi_cluster_labels_observed : bool;
  wi_namespace_labels_observed : bool;
  wi_service_account_labels_observed : bool;
  wi_image : string;
  wi_image_digest : string
}.

Definition unknown_identity : WorkloadIdentity :=
  {| wi_namespace := ""; wi_pod := ""; wi_container := ""; wi_service_account := "";
     wi_cluster_labels := ∅; wi_namespace_labels := ∅; wi_workload_labels := ∅;
     wi_service_account_labels := ∅; wi_cluster_labels_observed := false;
     wi_namespace_labels_observed := false; wi_service_account_labels_observed := false;
     wi_image := ""; wi_image_digest := "" |}.

Definition is_unknown (identity : WorkloadIdentity) : bool := str_empty (wi_pod identity).

Record SyscallEvent : Type := {
  se_syscall : string;
  se_comm : string;
  se_path : string;
  se_in_container : bool;
  se_agent_self : bool;
  se_path_truncated : bool
}.

Record Decision : Type := {
  d_action : Action;
  d_rule_id : option string;
  d_labels_unknown : bool;
  d_path_unknown : bool;
  d_container_unknown : bool
}.

Inductive RuleMatch : Type :=
| No
| SkippedContainer
| Yes (path_unknown : bool).

Inductive SelectorMatch : Type := Match_ | NoMatch | LabelsUnknown.

#[global] Instance SelectorMatch_eq_dec : EqDecision SelectorMatch.
Proof. solve_decision. Defined.

(** ** Rules *)

Definition prefix_hit (rule : Rule) (event : SyscallEvent) : bool :=
  existsb (fun p => negb (str_empty p) && starts_with (se_path event) p) (r_path_prefix rule).

Definition suffix_hit (rule : Rule) (event : SyscallEvent) : bool :=
  existsb (fun p => negb (str_empty p) && ends_with (se_path event) p) (r_path_suffix rule).

Definition path_unreadable (event : SyscallEvent) : bool :=
  se_path_truncated event && str_empty (se_path event).

Definition rule_matches (rule : Rule) (event : SyscallEvent) : RuleMatch :=
  if negb (is_empty (r_syscalls rule))
     && negb (existsb (fun s => str_eqb s (se_syscall event)) (r_syscalls rule)) then No else
  if negb (is_empty (r_comm_in rule))
     && negb (existsb (fun c => str_eqb c (se_comm event)) (r_comm_in rule)) then No else
  let prefix_miss := negb (is_empty (r_path_prefix rule)) && negb (prefix_hit rule event) in
  if prefix_miss && negb (path_unreadable event) then No else
  let suffix_miss := negb (is_empty (r_path_suffix rule)) && negb (suffix_hit rule event) in
  if suffix_miss && negb (se_path_truncated event) then No else
  if r_not_agent_self rule && se_agent_self event then No else
  if r_container_only rule && negb (se_in_container event) then SkippedContainer else
  Yes (prefix_miss || suffix_miss).

(** Loop state of [matched_action_with]: the best rule so far with its
    [path_unknown] and rank, and the best skipped container rank. *)
Definition match_step (container_unproven : bool) (event : SyscallEvent)
    (st : option (Rule * bool * Z) * option Z) (rule : Rule)
    : option (Rule * bool * Z) * option Z :=
  let '(best, skipped) := st in
  match rule_matches rule event with
  | No => (best, skipped)
  | SkippedContainer =>
      if container_unproven then
        let rk := rank (r_action rule) in
        (best, Some (match skipped with None => rk | Some b => Z.max b rk end))
      else (best, skipped)
  | Yes path_unknown =>
      let rk := rank (r_action rule) in
      let take := match best with None => true | Some (_, _, best_rank) => best_rank <? rk end in
      (if take then Some (rule, path_unknown, rk) else best, skipped)
  end.

Definition matched_action_with (spec : EbpfSpec) (event : SyscallEvent)
    (container_unproven : bool) : Decision :=
  let '(best, skipped_container) :=
    foldl (match_step container_unproven event) (None, None) (rules spec) in
  let taken_rank := match best with
                    | Some (_, _, rk) => rk
                    | None => rank (default_action spec)
                    end in
  let container_unknown :=
    match skipped_container with Some rk => taken_rank <? rk | None => false end in
  match best with
  | Some (rule, path_unknown, _) =>
      {| d_action := r_action rule; d_rule_id := Some (r_id rule); d_labels_unknown := false;
         d_path_unknown := path_unknown; d_container_unknown := container_unknown |}
  | None =>
      {| d_action := default_action spec; d_rule_id := None; d_labels_unknown := false;
         d_path_unknown := false; d_container_unknown := container_unknown |}
  end.

Definition matched_action (spec : EbpfSpec) (event : SyscallEvent) : Decision :=
  matched_action_with spec event false.

(** ** Selectors *)

Definition expression_matches (expr : LabelRequirement) (labels : gmap string string) : bool :=
  if str_eqb (req_operator expr) "In" then
    match labels !! req_key expr with
    | Some v => existsb (fun want => str_eqb want v) (req_values expr)
    | None => false
    end
  else if str_eqb (req_operator expr) "NotIn" then
    match labels !! req_key expr with
    | Some v => forallb (fun want => negb (str_eqb want v)) (req_values expr)
    | None => true
    end
  else if str_eqb (req_operator expr) "Exists" then bool_decide (is_Some (labels !! req_key expr))
  else if str_eqb (req_operator expr) "DoesNotExist" then
    negb (bool_decide (is_Some (labels !! req_key expr)))
  else false.

Definition label_selector_matches (selector : LabelSelector) (labels : gmap string string) : bool :=
  if label_selector_is_empty selector then true else
  forallb (fun kv => bool_decide (labels !! kv.1 = Some kv.2)) (btree_iter (match_labels selector))
  && forallb (fun expr => expression_matches expr labels) (match_expressions selector).

Definition labels_unobserved (selector : LabelSelector) (observed : bool) : bool :=
  negb (label_selector_is_empty selector) && negb observed.

Definition image_matches (selector : PolicySelector) (identity : WorkloadIdentity) : bool :=
  if negb (is_empty (registries_allow (image selector)))
     && negb (existsb (fun reg => negb (str_empty reg) && starts_with (wi_image identity) reg)
                (registries_allow (image selector)))
  then false else
  if require_digest (image selector)
     && negb (negb (str_empty (wi_image_digest identity)) || contains (wi_image identity) "@sha256:")
  then false else true.

Definition selector_match (selector : PolicySelector) (identity : WorkloadIdentity)
    : SelectorMatch :=
  if selector_is_empty selector then Match_ else
  if selector_is_namespaced selector && is_unknown identity then NoMatch else
  if labels_unobserved (cluster_selector selector) (wi_cluster_labels_observed identity)
     || labels_unobserved (namespace_selector selector) (wi_namespace_labels_observed identity)
     || labels_unobserved (service_account_selector selector)
          (wi_service_account_labels_observed identity)
  then LabelsUnknown else
  if label_selector_matches (cluster_selector selector) (wi_cluster_labels identity)
     && label_selector_matches (namespace_selector selector) (wi_namespace_labels identity)
     && label_selector_matches (workload_selector selector) (wi_workload_labels identity)
     && label_selector_matches (service_account_selector selector) (wi_service_account_labels identity)
     && image_matches selector identity
  then Match_ else NoMatch.

Definition selector_matches (selector : PolicySelector) (identity : WorkloadIdentity) : bool :=
  bool_decide (selector_match selector identity = Match_).

(** ** Decision *)

Definition cap_for_mode (mode : Mode) (disabled : bool) (action : Action) : Action :=
  if disabled || match mode with MObserve | MAudit => true | MEnforce => false end then
    match action with Allow | Audit => action | _ => Audit end
  else action.

Definition decide_with (spec : EbpfSpec) (event : SyscallEvent) (identity : WorkloadIdentity)
    (container_unproven : bool) : Decision :=
  match selector_match (selector spec) identity with
  | NoMatch => {| d_action := Allow; d_rule_id := None; d_labels_unknown := false;
                  d_path_unknown := false; d_container_unknown := false |}
  | m =>
      let decision := matched_action_with spec event container_unproven in
      {| d_action := cap_for_mode (mode spec) (disabled spec) (d_action decision);
         d_rule_id := d_rule_id decision;
         d_labels_unknown := bool_decide (m = LabelsUnknown);
         d_path_unknown := d_path_unknown decision;
         d_container_unknown := d_container_unknown decision |}
  end.

Definition decide (spec : EbpfSpec) (event : SyscallEvent) (identity : WorkloadIdentity)
    : Decision := decide_with spec event identity false.

(** ** Which rule decides *)

Definition matchb (event : SyscallEvent) (rule : Rule) : bool :=
  match rule_matches rule event with Yes _ => true | _ => false end.

(** [rule] is the first of the strongest matching rules of [rs]. *)
Definition decides (rs : list Rule) (event : SyscallEvent) (rule : Rule) (pu : bool) : Prop :=
  exists pre post, rs = pre ++ rule :: post /\ rule_matches rule event = Yes pu /\
    Forall (fun x => matchb event x = true -> rank (r_action x) < rank (r_action rule)) pre /\
    Forall (fun x => matchb event x = true -> rank (r_action x) <= rank (r_action rule)) post.

Lemma decides_max rs event rule pu :
  decides rs event rule pu ->
  rule ∈ rs /\ matchb event rule = true /\
  Forall (fun x => matchb event x = true -> rank (r_action x) <= rank (r_action rule)) rs.
Proof.
  intros (pre & post & -> & Hm & Hpre & Hpost). unfold matchb at 1. rewrite Hm.
  split; [set_solver|]. split; [done|]. rewrite Forall_app, Forall_cons. split_and!; [|lia|done].
  eapply Forall_impl; [exact Hpre|]. intros x H Hx. specialize (H Hx). lia.
Qed.

Lemma match_step_best cu event rs :
  match (foldl (match_step cu event) (None, None) rs).1 with
  | None => Forall (fun x => matchb event x = false) rs
  | Some (rule, pu, k) => k = rank (r_action rule) /\ decides rs event rule pu
  end.
Proof.
  induction rs as [|x rs IH] using rev_ind; [constructor|].
  rewrite foldl_app. simpl.
  destruct (foldl _ _ rs) as [best skipped]. simpl in IH. unfold match_step.
  assert (Hx : forall pu, rule_matches x event = Yes pu -> matchb event x = true)
    by (intros pu H; unfold matchb; by rewrite H).
  destruct (rule_matches x event) as [| |pu] eqn:Ex.
  3: specialize (Hx pu eq_refl).
  all: destruct best as [[[rule pu'] k]|]; simpl in *; try (destruct cu; simpl).
  all: try (apply Forall_app; split; [done | repeat constructor; unfold matchb; by rewrite Ex]).
  all: try (destruct IH as [-> (pre & post & -> & Hm & Hpre & Hpost)]; split; [done|];
            exists pre, (post ++ [x]); rewrite <- app_assoc; split_and!; try done;
            apply Forall_app; split; [done | repeat constructor; unfold matchb; rewrite Ex; done]).
  all: try (split; [done|]; exists rs, []; split_and!; try done;
            eapply Forall_impl; [exact IH|]; intros y Hy Hy'; simpl in *; congruence).
  all: destruct IH as [-> Hd]; destruct (Z.ltb_spec (rank (r_action rule)) (rank (r_action x)));
       (split; [done|]).
  1,3: exists rs, []; split_and!; try done; apply decides_max in Hd as (_ & _ & Hall);
       eapply Forall_impl; [exact Hall|]; intros y Hy Hy'; specialize (Hy Hy'); lia.
  all: destruct Hd as (pre & post & -> & Hm & Hpre & Hpost); exists pre, (post ++ [x]);
       rewrite <- app_assoc; split_and!; try done; apply Forall_app; split; [done|];
       repeat constructor; intros; lia.
Qed.

Lemma match_step_skipped event rs :
  match (foldl (match_step true event) (None, None) rs).2 with
  | None => Forall (fun x => rule_matches x event <> SkippedContainer) rs
  | Some k => (exists x, x ∈ rs /\ rule_matches x event = SkippedContainer /\ k = rank (r_action x)) /\
              Forall (fun x => rule_matches x event = SkippedContainer -> rank (r_action x) <= k) rs
  end.
Proof.
  induction rs as [|x rs IH] using rev_ind; [constructor|].
  rewrite foldl_app. simpl.
  destruct (foldl _ _ rs) as [best skipped]. simpl in IH. unfold match_step.
  assert (Hkeep : rule_matches x event <> SkippedContainer ->
     match skipped with
     | None => Forall (fun x => rule_matches x event <> SkippedContainer) (rs ++ [x])
     | Some k => (exists y, y ∈ rs ++ [x] /\ rule_matches y event = SkippedContainer /\ k = rank (r_action y)) /\
         Forall (fun y => rule_matches y event = SkippedContainer -> rank (r_action y) <= k) (rs ++ [x])
     end).
  { intros Hx. destruct skipped as [k|]; [|apply Forall_app; split; [done|by repeat constructor]].
    destruct IH as [(y & Hy & Hs & Hk) Hall]. split; [exists y; set_solver|].
    apply Forall_app; split; [done | by repeat constructor]. }
  destruct (rule_matches x event) as [| |pu] eqn:Ex; simpl; [by apply Hkeep | | by apply Hkeep].
  destruct skipped as [k|].
  - destruct IH as [(y & Hy & Hs & Hk) Hall]. split.
    + destruct (Z.max_spec k (rank (r_action x))) as [[_ ->]|[_ ->]];
        [exists x; set_solver | exists y; set_solver].
    + apply Forall_app; split; [|repeat constructor; intros; lia].
      eapply Forall_impl; [exact Hall|]. intros z Hz Hz'. specialize (Hz Hz'). lia.
  - split; [exists x; set_solver|]. apply Forall_app; split; [|repeat constructor; lia].
    eapply Forall_impl; [exact IH|]. intros z Hz Hz'. done.
Qed.

(** The deciding rule does not depend on what the carrier can prove. *)
Lemma match_step_best_unproven cu event rs :
  (foldl (match_step cu event) (None, None) rs).1 =
  (foldl (match_step false event) (None, None) rs).1.
Proof.
  induction rs as [|x rs IH] using rev_ind; [done|]. rewrite !foldl_app. simpl.
  destruct (foldl (match_step cu event) _ rs) as [b s], (foldl (match_step false event) _ rs) as [b' s'].
  simpl in IH. subst b'. unfold match_step. destruct (rule_matches x event); [done|by destruct cu|done].
Qed.

(** C11: a record is decided by the first of the strongest rules that match it
    (allow < audit < deny < isolate < kill), by the default action only when none
    does, and [path_unknown] is that rule's own. *)
Theorem matched_action_strongest spec event cu :
  let d := matched_action_with spec event cu in
  (Forall (fun r => matchb event r = false) (rules spec) /\
   d_rule_id d = None /\ d_action d = default_action spec /\ d_path_unknown d = false) \/
  (exists r pu, decides (rules spec) event r pu /\
   d_rule_id d = Some (r_id r) /\ d_action d = r_action r /\ d_path_unknown d = pu).
Proof.
  unfold matched_action_with. pose proof (match_step_best cu event (rules spec)) as H.
  destruct (foldl _ _ _) as [[[[r pu] k]|] skipped]; simpl in *.
  - right. exists r, pu. naive_solver.
  - by left.
Qed.

Lemma matched_rank spec event cu :
  let d := matched_action_with spec event cu in
  (Forall (fun r => matchb event r = false) (rules spec) /\ d_action d = default_action spec) \/
  ((exists r, r ∈ rules spec /\ matchb event r = true /\ d_action d = r_action r) /\
   Forall (fun r => matchb event r = true -> rank (r_action r) <= rank (d_action d)) (rules spec)).
Proof.
  unfold matched_action_with. pose proof (match_step_best cu event (rules spec)) as H.
  destruct (foldl _ _ _) as [[[[r pu] k]|] skipped]; simpl in *; [right|by left].
  destruct H as [_ (Hin & Hm & Hall)%decides_max]. eauto.
Qed.

(** ** Records whose container flag is not yet known *)

Definition flag_container (event : SyscallEvent) : SyscallEvent :=
  {| se_syscall := se_syscall event; se_comm := se_comm event; se_path := se_path event;
     se_in_container := true; se_agent_self := se_agent_self event;
     se_path_truncated := se_path_truncated event |}.

Lemma rule_matches_flagged rule event :
  matchb (flag_container event) rule =
  match rule_matches rule event with No => false | _ => true end.
Proof.
  unfold matchb, rule_matches, prefix_hit, suffix_hit, path_unreadable. simpl.
  rewrite andb_false_r. repeat case_match; done.
Qed.

Lemma flagged_match_cases event x :
  matchb (flag_container event) x = true <->
  matchb event x = true \/ rule_matches x event = SkippedContainer.
Proof.
  rewrite rule_matches_flagged. unfold matchb. destruct (rule_matches x event); naive_solver.
Qed.

(** What the carrier's doubt adds to a decision. *)
Lemma unproven_decision spec event :
  let proven := matched_action spec event in
  let unproven := matched_action_with spec event true in
  (d_action unproven, d_rule_id unproven, d_path_unknown unproven) =
  (d_action proven, d_rule_id proven, d_path_unknown proven) /\
  d_container_unknown unproven =
    match (foldl (match_step true event) (None, None) (rules spec)).2 with
    | Some rk => rank (d_action proven) <? rk
    | None => false
    end.
Proof.
  cbv zeta. unfold matched_action, matched_action_with.
  pose proof (match_step_best false event (rules spec)) as Hbest.
  pose proof (match_step_best_unproven true event (rules spec)) as Heq.
  destruct (foldl (match_step true event) _ _) as [b s], (foldl (match_step false event) _ _) as [b' s'].
  simpl in *. subst b'. destruct b as [[[r pu] k]|]; simpl; [|done]. by destruct Hbest as [-> _].
Qed.

(** [container_unknown] marks exactly the records whose decision would have
    been stronger had the datapath flagged them as a container's; it never changes
    the decision itself. *)
Lemma container_unknown_exact spec event :
  let proven := matched_action_with spec event false in
  let unproven := matched_action_with spec event true in
  d_container_unknown unproven =
    (rank (d_action proven) <? rank (d_action (matched_action spec (flag_container event)))) /\
  (d_action unproven, d_rule_id unproven, d_path_unknown unproven) =
  (d_action proven, d_rule_id proven, d_path_unknown proven).
Proof.
  cbv zeta. destruct (unproven_decision spec event) as [Hsame Hcu].
  fold (matched_action spec event). split; [rewrite Hcu|exact Hsame]. clear Hsame Hcu.
  pose proof (match_step_skipped event (rules spec)) as Hskip.
  pose proof (matched_rank spec (flag_container event) false) as Hflag.
  pose proof (matched_rank spec event false) as Hplain.
  fold (matched_action spec (flag_container event)) (matched_action spec event) in *.
  cbv zeta in *. set (fl := d_action (matched_action spec (flag_container event))) in *.
  set (pl := d_action (matched_action spec event)) in *. clearbody fl pl.
  setoid_rewrite flagged_match_cases in Hflag.
  rewrite !Forall_forall in *.
  assert (Hle : forall x, x ∈ rules spec -> matchb event x = true -> rank (r_action x) <= rank pl).
  { destruct Hplain as [[Hn _]|[_ Hall]]; [|exact Hall]. intros x Hx Hm. rewrite Hn in Hm; done. }
  destruct (foldl (match_step true event) _ _).2 as [rk|].
  - destruct Hskip as [(x & Hx & Hxs & ->) Hall]. rewrite Forall_forall in Hall.
    destruct Hflag as [[Hnone _] | [(r' & Hr' & Hm' & ->) Hmax]].
    { specialize (Hnone x Hx). by rewrite (proj2 (flagged_match_cases event x)) in Hnone by auto. }
    specialize (Hmax x Hx (or_intror Hxs)).
    destruct Hm' as [Hm' | Hm']; [specialize (Hle _ Hr' Hm') | specialize (Hall _ Hr' Hm')]; lia.
  - rewrite Forall_forall in Hskip.
    symmetry. apply Z.ltb_ge. destruct Hflag as [[Hnone ->] | [(r' & Hr' & [Hm'|Hm'] & ->) _]].
    + destruct Hplain as [[_ ->] | [(r & Hr & Hm & _) _]]; [lia|].
      specialize (Hnone r Hr). by rewrite (proj2 (flagged_match_cases event r)) in Hnone by auto.
    + by apply Hle.
    + by apply Hskip in Hr'.
Qed.

(** ** Records whose path did not fit *)

(** [seen] is what the datapath reports of [full] when the path did not fit the
    buffer or could not be read. *)
Record truncated_view (seen full : SyscallEvent) : Prop := {
  tv_syscall : se_syscall seen = se_syscall full;
  tv_comm : se_comm seen = se_comm full;
  tv_container : se_in_container seen = se_in_container full;
  tv_self : se_agent_self seen = se_agent_self full;
  tv_flag : se_path_truncated seen = true;
  tv_whole : se_path_truncated full = false;
  tv_path : se_path seen = "" \/
            (slen (se_path seen) = PATH_MATCH_MAX /\
             exists tail, as_bytes (se_path full) = as_bytes (se_path seen) ++ tail)
}.

Lemma prefix_of_head p head tail :
  prefixb p (head ++ tail) = true -> len p <= len head -> prefixb p head = true.
Proof.
  rewrite !prefixb_spec. intros [k Hk] Hlen. unfold len in Hlen.
  exists (drop (length p) head).
  assert (take (length p) (head ++ tail) = take (length p) (p ++ k)) as H by by rewrite Hk.
  rewrite take_app_length, take_app_le in H by lia.
  by rewrite <- H at 1; rewrite take_drop.
Qed.

Lemma truncated_still_matches rule seen full :
  truncated_view seen full ->
  Forall (fun s => slen s <= PATH_MATCH_MAX) (r_path_prefix rule) ->
  matchb full rule = true -> matchb seen rule = true.
Proof.
  intros [Hs Hc Hi Ha Ht Hw Hp] Hlen. unfold matchb, rule_matches, path_unreadable.
  rewrite Hs, Hc, Hi, Ha, Ht, Hw. simpl. rewrite !andb_false_r, !andb_true_r.
  destruct (negb (is_empty (r_syscalls rule)) && _); [done|].
  destruct (negb (is_empty (r_comm_in rule)) && _); [done|].
  assert (Hprefix : prefix_hit rule full = true ->
                    str_empty (se_path seen) = true \/ prefix_hit rule seen = true).
  { intros (p & Hin & [Hne Hst]%andb_true_iff)%existsb_exists.
    destruct Hp as [-> | [Hl [tail Htail]]]; [by left|]. right.
    apply existsb_exists. exists p. split; [done|]. rewrite Hne. simpl.
    unfold starts_with in *. rewrite Htail in Hst. eapply prefix_of_head; [exact Hst|].
    apply list_elem_of_In in Hin. rewrite Forall_forall in Hlen. specialize (Hlen _ Hin).
    unfold slen in *. lia. }
  destruct (is_empty (r_path_prefix rule)), (prefix_hit rule full), (str_empty (se_path seen)),
    (prefix_hit rule seen); simpl in *; try done;
  repeat (case_match; try done); destruct (Hprefix eq_refl); done.
Qed.

(** a record whose path the datapath could not carry is never decided weaker
    than the whole record would have been, as long as a rule decides the whole
    record or the default is allow: every rule the whole path would match still
    matches the head. The bound on the patterns is the loader's gate. *)
Lemma truncation_never_weakens spec seen full
    (Hpatterns : Forall (fun r => Forall (fun s => slen s <= PATH_MATCH_MAX) (r_path_prefix r))
                   (rules spec))
    (Hview : truncated_view seen full)
    (Hdecided : default_action spec = Allow \/ Exists (fun r => matchb full r = true) (rules spec)) :
  rank (d_action (matched_action spec full)) <= rank (d_action (matched_action spec seen)).
Proof.
  rewrite Forall_forall in Hpatterns.
  assert (Hmono : forall r, r ∈ rules spec -> matchb full r = true -> matchb seen r = true)
    by (intros r Hr; apply truncated_still_matches; auto).
  destruct (matched_rank spec full false) as [[Hnone Hf] | [(r & Hr & Hm & Hf) _]];
    unfold matched_action; rewrite Hf.
  - destruct Hdecided as [-> | (r & Hr & Hm)%Exists_exists].
    + by destruct (d_action (matched_action_with spec seen false)).
    + rewrite Forall_forall in Hnone. rewrite Hnone in Hm; done.
  - destruct (matched_rank spec seen false) as [[Hnone _] | [_ Hmax]].
    + rewrite Forall_forall in Hnone. specialize (Hnone _ Hr). rewrite Hmono in Hnone; done.
    + rewrite Forall_forall in Hmax. apply Hmax; auto.
Qed.

(** ** Label groups nobody has observed *)

(** [id'] is a way [id] could turn out once every label group is observed. *)
Record completes (id id' : WorkloadIdentity) : Prop := {
  cp_pod : wi_pod id' = wi_pod id;
  cp_workload : wi_workload_labels id' = wi_workload_labels id;
  cp_image : wi_image id' = wi_image id;
  cp_digest : wi_image_digest id' = wi_image_digest id;
  cp_cluster : wi_cluster_labels_observed id = true ->
    wi_cluster_labels_observed id' = true /\ wi_cluster_labels id' = wi_cluster_labels id;
  cp_namespace : wi_namespace_labels_observed id = true ->
    wi_namespace_labels_observed id' = true /\ wi_namespace_labels id' = wi_namespace_labels id;
  cp_service_account : wi_service_account_labels_observed id = true ->
    wi_service_account_labels_observed id' = true /\
    wi_service_account_labels id' = wi_service_account_labels id
}.

Lemma empty_selector_matches s labels :
  label_selector_is_empty s = true -> label_selector_matches s labels = true.
Proof. intros H. unfold label_selector_matches. by rewrite H. Qed.

(** One group: either unobserved in [id], or answered alike by [id] and [id']. *)
Lemma group_cases s obs obs' (l l' : gmap string string) :
  (obs = true -> obs' = true /\ l' = l) ->
  labels_unobserved s obs = false ->
  labels_unobserved s obs' = false /\ label_selector_matches s l' = label_selector_matches s l.
Proof.
  unfold labels_unobserved. intros H Hu.
  destruct (label_selector_is_empty s) eqn:He; simpl in *.
  - by rewrite !empty_selector_matches.
  - apply negb_false_iff in Hu. by destruct (H Hu) as [-> ->].
Qed.

Lemma no_match_is_final selector id id' :
  completes id id' -> selector_match selector id = NoMatch -> selector_match selector id' = NoMatch.
Proof.
  intros [Hp Hw Hi Hd Hc Hn Hs] H. unfold selector_match, is_unknown in *. rewrite Hp.
  destruct (selector_is_empty selector); [done|].
  destruct (selector_is_namespaced selector && str_empty (wi_pod id)); [done|].
  destruct (labels_unobserved (cluster_selector _) _) eqn:E1; [done|].
  destruct (labels_unobserved (namespace_selector _) _) eqn:E2; [done|].
  destruct (labels_unobserved (service_account_selector _) _) eqn:E3; [done|].
  destruct (group_cases _ _ _ _ _ Hc E1) as [-> ->].
  destruct (group_cases _ _ _ _ _ Hn E2) as [-> ->].
  destruct (group_cases _ _ _ _ _ Hs E3) as [-> ->].
  unfold image_matches in *. rewrite Hw, Hi, Hd. exact H.
Qed.

(** C23: unobserved labels fail closed: whatever the missing label groups turn out
    to hold, the decision taken without them is at least as strong as the one the
    complete identity would get. *)
Theorem unobserved_labels_fail_closed spec event id id' cu (Hcompletes : completes id id') :
  rank (d_action (decide_with spec event id' cu)) <= rank (d_action (decide_with spec event id cu)).
Proof.
  unfold decide_with. pose proof (no_match_is_final (selector spec) _ _ Hcompletes) as Hfinal.
  destruct (selector_match (selector spec) id) eqn:E; [| rewrite Hfinal by done; done |];
    destruct (selector_match (selector spec) id'); simpl;
    try lia; by destruct (cap_for_mode _ _ _).
Qed.

(** In observe or audit mode, and for a disabled policy, no record is ever
    denied, isolated or killed, whoever the workload is. *)
Lemma observe_and_audit_never_enforce spec event id cu
    (Hmode : disabled spec = true \/ mode spec <> MEnforce) :
  rank (d_action (decide_with spec event id cu)) <= rank Audit.
Proof.
  assert (Hcap : forall a, rank (cap_for_mode (mode spec) (disabled spec) a) <= rank Audit).
  { intros a. unfold cap_for_mode. destruct Hmode as [-> | Hm].
    - destruct a; done.
    - destruct (mode spec); [| |done]; rewrite orb_true_r; destruct a; done. }
  unfold decide_with. destruct (selector_match _ _); simpl; try apply Hcap; done.
Qed.

(** ** Concrete programs *)

Definition no_labels : LabelSelector := {| match_labels := ∅; match_expressions := [] |}.

Definition prod_selector : PolicySelector :=
  {| cluster_selector := no_labels;
     namespace_selector := {| match_labels := {["env" := "prod"]}; match_expressions := [] |};
     workload_selector := no_labels; service_account_selector := no_labels;
     image := {| registries_allow := []; require_digest := false |} |}.

Definition any_selector : PolicySelector :=
  {| cluster_selector := no_labels; namespace_selector := no_labels;
     workload_selector := no_labels; service_account_selector := no_labels;
     image := {| registries_allow := []; require_digest := false |} |}.

Definition socket_rule (a : Action) : Rule :=
  {| r_id := "socket"; r_syscalls := ["openat"]; r_action := a; r_comm_in := [];
     r_container_only := false; r_path_prefix := []; r_path_suffix := ["docker.sock"];
     r_not_agent_self := false |}.

Definition socket_spec (m : Mode) (a dflt : Action) (s : PolicySelector) : EbpfSpec :=
  {| abi := AGENT_ABI; mode := m; disabled := false; priority := 0; default_action := dflt;
     selector := s; rules := [socket_rule a] |}.

Definition open_event (path : string) (truncated : bool) : SyscallEvent :=
  {| se_syscall := "openat"; se_comm := "curl"; se_path := path; se_in_container := true;
     se_agent_self := false; se_path_truncated := truncated |}.

Definition cold_identity (observed : bool) (labels : gmap string string) : WorkloadIdentity :=
  {| wi_namespace := "shop"; wi_pod := "cart"; wi_container := ""; wi_service_account := "";
     wi_cluster_labels := ∅; wi_namespace_labels := labels; wi_workload_labels := ∅;
     wi_service_account_labels := ∅; wi_cluster_labels_observed := false;
     wi_namespace_labels_observed := observed; wi_service_account_labels_observed := false;
     wi_image := ""; wi_image_digest := "" |}.

Lemma truncation_never_weakens_witness :
  d_action (matched_action (socket_spec MEnforce Deny Allow any_selector)
              (open_event "/run/docker.sock" false)) = Deny /\
  2 <= rank (d_action (matched_action (socket_spec MEnforce Deny Allow any_selector)
              (open_event "" true))).
Proof.
  split; [reflexivity|].
  apply (truncation_never_weakens (socket_spec MEnforce Deny Allow any_selector)
           (open_event "" true) (open_event "/run/docker.sock" false)).
  - repeat constructor.
  - constructor; try reflexivity. left. reflexivity.
  - left. reflexivity.
Defined.

(** Where only the default would decide the whole record, an unread path can still
    weaken the answer: an allow rule asserted on a truncated path replaces the
    default audit. *)
Lemma allow_rule_outranks_default_audit :
  let spec := socket_spec MEnforce Allow Audit any_selector in
  d_action (matched_action spec (open_event "/etc/shadow" false)) = Audit /\
  d_action (matched_action spec (open_event "" true)) = Allow.
Proof. split; reflexivity. Qed.

Lemma unobserved_labels_fail_closed_witness :
  d_action (decide_with (socket_spec MEnforce Kill Allow prod_selector)
     (open_event "/run/docker.sock" false) (cold_identity true {["env" := "prod"]}) false) = Kill /\
  rank (d_action (decide_with (socket_spec MEnforce Kill Allow prod_selector)
     (open_event "/run/docker.sock" false) (cold_identity true {["env" := "prod"]}) false)) <=
  rank (d_action (decide_with (socket_spec MEnforce Kill Allow prod_selector)
     (open_event "/run/docker.sock" false) (cold_identity false ∅) false)).
Proof.
  split; [vm_compute; reflexivity|].
  apply (unobserved_labels_fail_closed (socket_spec MEnforce Kill Allow prod_selector)
     (open_event "/run/docker.sock" false) (cold_identity false ∅)
     (cold_identity true {["env" := "prod"]}) false).
  constructor; try reflexivity; intros H; discriminate H.
Defined.

Lemma observe_and_audit_never_enforce_witness :
  rank (d_action (decide_with (socket_spec MAudit Kill Allow any_selector)
     (open_event "/run/docker.sock" false) unknown_identity true)) <= 1.
Proof.
  apply (observe_and_audit_never_enforce (socket_spec MAudit Kill Allow any_selector)
     (open_event "/run/docker.sock" false) unknown_identity true).
  right. discriminate.
Defined.
