(* ===== verification/Datapath.v ===== *)
(** * ferrum-ebpf-progs: the in-kernel exec matcher

    [src/lib.rs] of the crate: rule slots, the path as the hook reads it, the
    branch-free predicate over one slot and the walk over all of them; and the LSM
    hook of [src/main.rs] that runs the walk. Bytes are [Z] in [0, 256); [u8] and
    [u16] arithmetic wraps as written. Indexing a fixed array returns an option, so
    [None] is Rust's bounds-check panic. *)

From S2P Require Import Prelude RustStd.

Definition ACTION_ALLOW : Z := 0.
Definition ACTION_AUDIT : Z := 1.
Definition ACTION_DENY : Z := 2.
Definition ACTION_KILL : Z := 3.
Definition ACTION_ISOLATE : Z := 4.

Definition COMM_LEN : Z := 16.
Definition PATH_LEN : Z := 256.
Definition KPATH_LEN : Z := 64.
Definition MAX_KERNEL_RULES : Z := 64.

Definition KRULE_FLAG_USED : Z := 1.
Definition KRULE_FLAG_CONTAINER_ONLY : Z := 2.
Definition KRULE_FLAG_NOT_AGENT_SELF : Z := 4.
Definition KRULE_FLAG_SELECTED_ONLY : Z := 8.
Definition KRULE_FLAG_PATH_PREFIX : Z := 16.
Definition KRULE_FLAG_PATH_SUFFIX : Z := 32.

Definition EXEC_PATH_KNOWN : Z := 1.
Definition EXEC_PATH_TRUNCATED : Z := 2.

Definition EPERM : Z := 1.

(** ** Machine arithmetic *)

Definition neg8 (x : Z) : Z := (- x) mod U8.
Definition sub8 (a b : Z) : Z := (a - b) mod U8.
Definition sub16 (a b : Z) : Z := (a - b) mod U16.
Definition add16 (a b : Z) : Z := (a + b) mod U16.

(** A fixed array and a read at an index. *)
Definition zeros (n : Z) : list Z := repeat 0 (Z.to_nat n).
Definition index (l : list Z) (i : Z) : option Z := l !! Z.to_nat i.

(** [buf[..n].copy_from_slice(&src[..n])] into a zeroed buffer of [size] bytes. *)
Definition padded (size : Z) (src : list Z) : list Z := src ++ zeros (size - len src).

(** ** Data *)

Record ExecPath : Type := {
  ep_bytes : list Z;
  ep_len : Z;
  ep_flags : Z
}.

Record KernelRule : Type := {
  kr_action : Z;
  kr_flags : Z;
  kr_comm_len : Z;
  kr_prefix_len : Z;
  kr_suffix_len : Z;
  kr_comm : list Z;
  kr_prefix : list Z;
  kr_suffix : list Z
}.

Definition exec_path_unknown : ExecPath :=
  {| ep_bytes := zeros PATH_LEN; ep_len := 0; ep_flags := 0 |}.

(** [ExecPath::from_bytes]. *)
Definition exec_path_from_bytes (path : list Z) (truncated : bool) : ExecPath :=
  let n := if PATH_LEN - 1 <? len path then PATH_LEN - 1 else len path in
  {| ep_bytes := padded PATH_LEN (take (Z.to_nat n) path);
     ep_len := n;
     ep_flags := Z.lor EXEC_PATH_KNOWN
                   (if truncated || (PATH_LEN - 1 <=? len path) then EXEC_PATH_TRUNCATED else 0) |}.

Definition kernel_rule_empty : KernelRule :=
  {| kr_action := ACTION_ALLOW; kr_flags := 0; kr_comm_len := 0; kr_prefix_len := 0;
     kr_suffix_len := 0; kr_comm := zeros COMM_LEN; kr_prefix := zeros KPATH_LEN;
     kr_suffix := zeros KPATH_LEN |}.

Definition set_prefix (r : KernelRule) (pattern : list Z) : KernelRule :=
  let n := Z.min (len pattern) KPATH_LEN in
  {| kr_action := kr_action r; kr_flags := Z.lor (kr_flags r) KRULE_FLAG_PATH_PREFIX;
     kr_comm_len := kr_comm_len r; kr_prefix_len := n; kr_suffix_len := kr_suffix_len r;
     kr_comm := kr_comm r; kr_prefix := padded KPATH_LEN (take (Z.to_nat n) pattern);
     kr_suffix := kr_suffix r |}.

Definition set_suffix (r : KernelRule) (pattern : list Z) : KernelRule :=
  let n := Z.min (len pattern) KPATH_LEN in
  {| kr_action := kr_action r; kr_flags := Z.lor (kr_flags r) KRULE_FLAG_PATH_SUFFIX;
     kr_comm_len := kr_comm_len r; kr_prefix_len := kr_prefix_len r; kr_suffix_len := n;
     kr_comm := kr_comm r; kr_prefix := kr_prefix r;
     kr_suffix := padded KPATH_LEN (take (Z.to_nat n) pattern) |}.

Definition names_a_path (r : KernelRule) : bool :=
  negb (Z.land (kr_flags r) (Z.lor KRULE_FLAG_PATH_PREFIX KRULE_FLAG_PATH_SUFFIX) =? 0).

Definition is_used (r : KernelRule) : bool := negb (Z.land (kr_flags r) KRULE_FLAG_USED =? 0).

(** ** The branch-free predicate *)

Definition nonzero (x : Z) : Z := Z.land (Z.shiftr (Z.lor x (neg8 x)) 7) 1.

(** The loop [while i < n { diff |= a[i] ^ b[i]; i += 1 }]. *)
Definition diff_over (n : Z) (a b : Z -> option Z) : option Z :=
  foldl (fun acc i => diff ← acc; x ← a i; y ← b i; Some (Z.lor diff (Z.lxor x y)))
    (Some 0) (seqZ 0 n).

Definition prefix_diff (rule : KernelRule) (path : ExecPath) : option Z :=
  diff_over (Z.min (kr_prefix_len rule) KPATH_LEN) (index (kr_prefix rule)) (index (ep_bytes path)).

Definition suffix_diff (rule : KernelRule) (path : ExecPath) : option Z :=
  let start := sub16 (ep_len path) (kr_suffix_len rule) in
  diff_over (Z.min (kr_suffix_len rule) KPATH_LEN) (index (kr_suffix rule))
    (fun i => index (ep_bytes path) (Z.land (add16 start i) (PATH_LEN - 1))).

Definition comm_diff (a b : list Z) : option Z := diff_over COMM_LEN (index a) (index b).

Definition kprefix_hit (rule : KernelRule) (path : ExecPath) : option Z :=
  let fits := Z.lxor (Z.shiftr (sub8 KPATH_LEN (kr_prefix_len rule)) 7) 1 in
  diff ← prefix_diff rule path;
  Some (Z.land (Z.land (Z.lxor (nonzero diff) 1) (nonzero (kr_prefix_len rule))) fits).

Definition ksuffix_hit (rule : KernelRule) (path : ExecPath) : option Z :=
  let start := sub16 (ep_len path) (kr_suffix_len rule) in
  let long_enough := Z.lxor (Z.land (Z.shiftr start 15 mod U8) 1) 1 in
  let fits := Z.lxor (Z.shiftr (sub8 KPATH_LEN (kr_suffix_len rule)) 7) 1 in
  diff ← suffix_diff rule path;
  Some (Z.land (Z.land (Z.land (Z.lxor (nonzero diff) 1) (nonzero (kr_suffix_len rule)))
          long_enough) fits).

Definition kernel_rule_mask (rule : KernelRule) (comm : list Z)
    (in_container agent_self selected : bool) (path : ExecPath) : option Z :=
  let flags := kr_flags rule in
  let used := Z.land flags KRULE_FLAG_USED in
  let container_only := Z.shiftr (Z.land flags KRULE_FLAG_CONTAINER_ONLY) 1 in
  let not_agent_self := Z.shiftr (Z.land flags KRULE_FLAG_NOT_AGENT_SELF) 2 in
  let selected_only := Z.shiftr (Z.land flags KRULE_FLAG_SELECTED_ONLY) 3 in
  let in_container := Z.b2z in_container in
  let agent_self := Z.b2z agent_self in
  let selected := Z.b2z selected in
  diff ← comm_diff (kr_comm rule) comm;
  let comm_equal := Z.lxor (Z.land (Z.shiftr (Z.lor diff (neg8 diff)) 7) 1) 1 in
  let names_a_comm :=
    Z.land (Z.shiftr (Z.lor (kr_comm_len rule) (neg8 (kr_comm_len rule))) 7) 1 in
  let comm_ok := Z.lor comm_equal (Z.lxor names_a_comm 1) in
  let comm_len_ok := Z.lxor (Z.shiftr (sub8 COMM_LEN (kr_comm_len rule)) 7) 1 in
  let has_prefix := Z.shiftr (Z.land flags KRULE_FLAG_PATH_PREFIX) 4 in
  let has_suffix := Z.shiftr (Z.land flags KRULE_FLAG_PATH_SUFFIX) 5 in
  let known := Z.land (ep_flags path) EXEC_PATH_KNOWN in
  let truncated := Z.shiftr (Z.land (ep_flags path) EXEC_PATH_TRUNCATED) 1 in
  let unreadable := Z.land truncated
     (Z.lxor (nonzero (Z.lor (ep_len path mod U8) (Z.shiftr (ep_len path) 8 mod U8))) 1) in
  prefix ← kprefix_hit rule path;
  suffix ← ksuffix_hit rule path;
  let prefix_ok := Z.lor (Z.lor (Z.lxor has_prefix 1) prefix) unreadable in
  let suffix_ok := Z.lor (Z.lor (Z.lxor has_suffix 1) suffix) truncated in
  let path_decidable := Z.lxor (Z.land (Z.lor has_prefix has_suffix) (Z.lxor known 1)) 1 in
  Some (Z.land (Z.land (Z.land (Z.land (Z.land (Z.land (Z.land (Z.land used comm_ok)
     prefix_ok) suffix_ok) path_decidable) comm_len_ok)
     (Z.lxor (Z.land not_agent_self agent_self) 1))
     (Z.lxor (Z.land container_only (Z.lxor in_container 1)) 1))
     (Z.lxor (Z.land selected_only (Z.lxor selected 1)) 1)).

Definition kernel_rule_matches (rule : KernelRule) (comm : list Z)
    (in_container agent_self selected : bool) (path : ExecPath) : option bool :=
  mask ← kernel_rule_mask rule comm in_container agent_self selected path;
  Some (negb (mask =? 0)).

(** ** Verdicts *)

Definition action_rank (action : Z) : Z :=
  Z.land (Z.shiftr 0x00034210 (Z.land action 7 * 4)) 0xf.

Definition action_refuses (action : Z) : bool :=
  (action =? ACTION_DENY) || (action =? ACTION_KILL).

Definition lsm_verdict (previous : Z) (refuses : bool) : Z :=
  if negb (previous =? 0) then previous else if refuses then - EPERM else 0.

(** The reference walk of [lib.rs]. *)
Definition kernel_verdict (rules : list KernelRule) (comm : list Z)
    (in_container agent_self selected : bool) (path : ExecPath) : option Z :=
  foldl (fun acc rule =>
      best ← acc;
      m ← kernel_rule_matches rule comm in_container agent_self selected path;
      Some (if m && (action_rank best <? action_rank (kr_action rule)) then kr_action rule else best))
    (Some ACTION_ALLOW) rules.

(** One callback of [bpf_loop]: what [walk_rules] in [main.rs] leaves in [verdict]. *)
Definition walk_rules (comm : list Z) (in_container agent_self selected : bool) (path : ExecPath)
    (verdict : Z) (rule : KernelRule) : option Z :=
  matches ← kernel_rule_mask rule comm in_container agent_self selected path;
  let candidate := (action_rank (kr_action rule) * matches) mod U8 in
  let current := action_rank verdict in
  let stronger := Z.land (Z.shiftr (sub8 current candidate) 7) 1 in
  Some (Z.lxor verdict (Z.land (Z.lxor verdict (kr_action rule)) (neg8 stronger))).

(** What [read_exec_path] leaves, given the offset global and the outcome of the
    two kernel reads: the bytes before the terminator, or a failed read. *)
Definition read_exec_path (offset : Z) (read : option (list Z)) : ExecPath :=
  if offset =? 0 then exec_path_unknown else
  match read with
  | Some name =>
      if len name <? PATH_LEN - 1 then
        {| ep_bytes := padded PATH_LEN name; ep_len := len name mod U16; ep_flags := EXEC_PATH_KNOWN |}
      else
        {| ep_bytes := padded PATH_LEN name; ep_len := Z.land (len name) (PATH_LEN - 1) mod U16;
           ep_flags := Z.lor EXEC_PATH_KNOWN EXEC_PATH_TRUNCATED |}
  | None =>
      {| ep_bytes := zeros PATH_LEN; ep_len := 0;
         ep_flags := Z.lor EXEC_PATH_KNOWN EXEC_PATH_TRUNCATED |}
  end.

(** What the hook sees of the task and the maps. *)
Record ExecContext : Type := {
  xc_previous : Z;
  xc_comm : option (list Z);
  xc_in_cgroups : bool;
  xc_in_selected : bool;
  xc_self_slot : option Z;
  xc_tgid : Z;
  xc_filename_offset : Z;
  xc_filename : option (list Z)
}.

(** [ferrum_bprm_check_security] over the [MAX_KERNEL_RULES] slots of the array map. *)
Definition ferrum_bprm_check_security (slots : list KernelRule) (ctx : ExecContext) : option Z :=
  let agent_self := match xc_self_slot ctx with
                    | Some self_tgid => negb (self_tgid =? 0) && (self_tgid =? xc_tgid ctx)
                    | None => false
                    end in
  let comm := default (zeros COMM_LEN) (xc_comm ctx) in
  let path := read_exec_path (xc_filename_offset ctx) (xc_filename ctx) in
  verdict ← foldl (fun acc rule =>
                     v ← acc; walk_rules comm (xc_in_cgroups ctx) agent_self (xc_in_selected ctx) path v rule)
              (Some ACTION_ALLOW) slots;
  Some (lsm_verdict (xc_previous ctx) (action_refuses verdict)).

(** ** Well-formed slots and paths *)

Definition bytes_ok (l : list Z) : Prop := Forall (fun b => 0 <= b < 256) l.
Definition nul_free (l : list Z) : Prop := Forall (fun b => b <> 0) l.

Definition prefix_pattern (r : KernelRule) : list Z :=
  take (Z.to_nat (kr_prefix_len r)) (kr_prefix r).
Definition suffix_pattern (r : KernelRule) : list Z :=
  take (Z.to_nat (kr_suffix_len r)) (kr_suffix r).
(** The path the hook read. *)
Definition exec_path (p : ExecPath) : list Z := take (Z.to_nat (ep_len p)) (ep_bytes p).

Record krule_ok (r : KernelRule) : Prop := {
  ko_action : 0 <= kr_action r < 256;
  ko_flags : 0 <= kr_flags r < 256;
  ko_comm_len : 0 <= kr_comm_len r <= COMM_LEN;
  ko_prefix_len : 0 <= kr_prefix_len r <= KPATH_LEN;
  ko_suffix_len : 0 <= kr_suffix_len r <= KPATH_LEN;
  ko_comm : len (kr_comm r) = COMM_LEN /\ bytes_ok (kr_comm r);
  ko_prefix : len (kr_prefix r) = KPATH_LEN /\ bytes_ok (kr_prefix r);
  ko_suffix : len (kr_suffix r) = KPATH_LEN /\ bytes_ok (kr_suffix r);
  ko_nul : nul_free (prefix_pattern r)
}.

Record exec_path_ok (p : ExecPath) : Prop := {
  eo_bytes : len (ep_bytes p) = PATH_LEN /\ bytes_ok (ep_bytes p);
  eo_len : 0 <= ep_len p < PATH_LEN;
  eo_flags : 0 <= ep_flags p < 256;
  eo_padding : Forall (fun b => b = 0) (drop (Z.to_nat (ep_len p)) (ep_bytes p))
}.

Definition flag (k : Z) (flags : Z) : bool := Z.testbit flags k.

(** The predicate one slot stands for, in the terms of [rule_matches]. *)
Definition slot_applies (r : KernelRule) (comm : list Z) (in_container agent_self selected : bool)
    (p : ExecPath) : bool :=
  let truncated := flag 1 (ep_flags p) in
  let unreadable := truncated && (ep_len p =? 0) in
  flag 0 (kr_flags r)
  && ((kr_comm_len r =? 0) || bool_decide (kr_comm r = comm))
  && (negb (flag 4 (kr_flags r))
      || (negb (kr_prefix_len r =? 0) && prefixb (prefix_pattern r) (exec_path p)) || unreadable)
  && (negb (flag 5 (kr_flags r))
      || (negb (kr_suffix_len r =? 0) && suffixb (suffix_pattern r) (exec_path p)) || truncated)
  && (negb (flag 4 (kr_flags r) || flag 5 (kr_flags r)) || flag 0 (ep_flags p))
  && negb (flag 2 (kr_flags r) && agent_self)
  && negb (flag 1 (kr_flags r) && negb in_container)
  && negb (flag 3 (kr_flags r) && negb selected).

(** ** Bits *)

Lemma lor_byte a b : 0 <= a < 256 -> 0 <= b < 256 -> 0 <= Z.lor a b < 256.
Proof.
  intros Ha Hb. split; [apply Z.lor_nonneg; lia|].
  destruct (Z.eq_dec (Z.lor a b) 0) as [->|Hne]; [lia|].
  assert (0 < Z.lor a b) by (pose proof (proj2 (Z.lor_nonneg a b)); lia).
  apply (Z.log2_lt_pow2 _ 8); [done|]. rewrite Z.log2_lor by lia.
  apply Z.max_lub_lt; (destruct (Z.eq_dec a 0), (Z.eq_dec b 0); subst; try (simpl; lia);
    apply Z.log2_lt_pow2; lia).
Qed.

Lemma lxor_byte a b : 0 <= a < 256 -> 0 <= b < 256 -> 0 <= Z.lxor a b < 256.
Proof.
  intros Ha Hb. assert (0 <= Z.lxor a b) by (apply Z.lxor_nonneg; lia). split; [done|].
  destruct (Z.eq_dec (Z.lxor a b) 0) as [->|Hne]; [lia|].
  apply (Z.log2_lt_pow2 _ 8); [lia|].
  eapply Z.le_lt_trans; [apply Z.log2_lxor; lia|].
  apply Z.max_lub_lt; (destruct (Z.eq_dec a 0), (Z.eq_dec b 0); subst; try (simpl; lia);
    apply Z.log2_lt_pow2; lia).
Qed.

Lemma nonzero_bit x : 0 <= x < 256 -> nonzero x = Z.b2z (negb (x =? 0)).
Proof.
  intros Hx. apply Z.eqb_eq. revert x Hx.
  apply (byte_sweep (fun x => nonzero x =? Z.b2z (negb (x =? 0)))). vm_compute. reflexivity.
Qed.

Lemma flag_bit k x :
  0 <= k < 8 -> 0 <= x < 256 -> Z.shiftr (Z.land x (2 ^ k)) k = Z.b2z (flag k x).
Proof.
  intros Hk Hx.
  assert (forall y, 0 <= y < 256 ->
    forallb (fun k => Z.shiftr (Z.land y (2 ^ k)) k =? Z.b2z (flag k y)) (seqZ 0 8) = true) as H
    by (apply byte_sweep; vm_compute; reflexivity).
  specialize (H x Hx). apply forallb_true_Forall in H. rewrite Forall_forall in H.
  apply Z.eqb_eq, H, elem_of_seqZ. lia.
Qed.

Lemma b2z_land a b : Z.land (Z.b2z a) (Z.b2z b) = Z.b2z (a && b).
Proof. by destruct a, b. Qed.
Lemma b2z_lor a b : Z.lor (Z.b2z a) (Z.b2z b) = Z.b2z (a || b).
Proof. by destruct a, b. Qed.
Lemma b2z_not a : Z.lxor (Z.b2z a) 1 = Z.b2z (negb a).
Proof. by destruct a. Qed.

(** [((max - n) >> 7) ^ 1] is 1 for an honest length. *)
Lemma fits_bit m n : 0 <= n <= m -> m < 128 -> Z.lxor (Z.shiftr (sub8 m n) 7) 1 = Z.b2z true.
Proof.
  intros Hn Hm. unfold sub8, U8. rewrite Z.mod_small by lia.
  rewrite Z.shiftr_div_pow2 by lia. rewrite Z.div_small by (simpl; lia). done.
Qed.

Lemma long_enough_bit a b :
  0 <= a < 32768 -> 0 <= b < 32768 ->
  Z.lxor (Z.land (Z.shiftr (sub16 a b) 15 mod U8) 1) 1 = Z.b2z (b <=? a).
Proof.
  intros Ha Hb. unfold sub16, U16, U8. rewrite Z.shiftr_div_pow2 by lia.
  destruct (Z.leb_spec b a).
  - rewrite (Z.mod_small (a - b)) by lia. rewrite Z.div_small by (simpl; lia). done.
  - replace ((a - b) mod 65536) with (a - b + 65536)
      by (rewrite <- (Z.mod_add _ 1) by lia; rewrite Z.mod_small; lia).
    replace ((a - b + 65536) / 2 ^ 15) with 1; [done|].
    apply Z.div_unique with (r := a - b + 32768); simpl; lia.
Qed.

(** ** Comparisons *)

Lemma diff_over_spec n a b :
  0 <= n ->
  (forall i, 0 <= i < n -> exists x y, a i = Some x /\ b i = Some y /\ 0 <= x < 256 /\ 0 <= y < 256) ->
  exists d, diff_over n a b = Some d /\ 0 <= d < 256 /\
            (d = 0 <-> forall i, 0 <= i < n -> a i = b i).
Proof.
  intros Hn. rewrite <- (Z2Nat.id n) by done. generalize (Z.to_nat n) as m. clear n Hn.
  induction m as [|m IH]; intros Hab.
  - exists 0. split; [done|]. split; [lia|]. split; [intros _ i Hi; lia | done].
  - destruct IH as (d & Hd & Hr & Hz); [intros i Hi; apply Hab; lia|].
    destruct (Hab (Z.of_nat m)) as (x & y & Hx & Hy & Hxr & Hyr); [lia|].
    exists (Z.lor d (Z.lxor x y)). unfold diff_over in *. rewrite seqZ_S, foldl_app, Hd, Z.add_0_l.
    cbn [foldl mbind option_bind]. rewrite Hx. cbn [mbind option_bind]. rewrite Hy. split; [done|]. split; [by apply lor_byte; [|apply lxor_byte]|].
    rewrite Z.lor_eq_0_iff, Z.lxor_eq_0_iff, Hz. split.
    + intros [H ->] i Hi. destruct (decide (i = Z.of_nat m)) as [->|]; [congruence|apply H; lia].
    + intros H. split; [intros i Hi; apply H; lia|].
      assert (a (Z.of_nat m) = b (Z.of_nat m)) as E by (apply H; lia). congruence.
Qed.

Lemma index_in l i : bytes_ok l -> 0 <= i < len l -> exists x, index l i = Some x /\ 0 <= x < 256.
Proof.
  intros Hl Hi. unfold index, len in *.
  destruct (lookup_lt_is_Some_2 l (Z.to_nat i)) as [x Hx]; [lia|].
  exists x. split; [done|]. by eapply Forall_lookup_1 in Hl.
Qed.

Lemma index_eq_take l k n :
  0 <= n <= len l -> n <= len k ->
  (forall i, 0 <= i < n -> index l i = index k i) <->
  take (Z.to_nat n) l = take (Z.to_nat n) k.
Proof.
  unfold index, len. intros Hl Hk. split.
  - intros H. apply list_eq. intros i. rewrite !lookup_take. case_decide as Hi; [|done].
    specialize (H (Z.of_nat i)). rewrite Nat2Z.id in H. apply H. lia.
  - intros H i Hi. rewrite <- (lookup_take_lt l (Z.to_nat n)), H by lia.
    by rewrite lookup_take_lt by lia.
Qed.

Lemma and_iff_compat_l' (P Q R : Prop) : (P -> (Q <-> R)) -> (P /\ Q <-> P /\ R).
Proof. tauto. Qed.

Lemma eq_sym_iff {A} (x y : A) : x = y <-> y = x.
Proof. split; congruence. Qed.

Lemma bool_iff (a b : bool) : (a = true <-> b = true) -> a = b.
Proof. destruct a, b; naive_solver. Qed.

Lemma take_padding_nul l n k :
  (k < n)%nat -> (n <= length l)%nat -> Forall (fun b => b = 0) (drop k l) -> nul_free (take n l) -> False.
Proof.
  intros Hkn Hn Hz Hnul. destruct (lookup_lt_is_Some_2 l k) as [x Hx]; [lia|].
  eapply (Forall_lookup_1 _ _ 0%nat x) in Hz; [|rewrite lookup_drop, Nat.add_0_r; done].
  eapply (Forall_lookup_1 _ _ k x) in Hnul; [done|]. by rewrite lookup_take_lt by lia.
Qed.

(** The head of a zero-padded buffer is the pattern exactly when the string in it
    starts with the pattern: a NUL-free pattern never meets the padding. *)
Lemma prefix_of_padded pat buf n :
  nul_free pat -> (length pat <= length buf)%nat ->
  Forall (fun b => b = 0) (drop n buf) ->
  prefixb pat (take n buf) = bool_decide (take (length pat) buf = pat).
Proof.
  intros Hnul Hl Hz. rewrite prefixb_take.
  destruct (decide (length pat <= n)%nat) as [Hle|Hgt].
  - by rewrite take_take, Nat.min_l by done.
  - rewrite !bool_decide_eq_false_2; [done | |].
    + intros E. apply (take_padding_nul buf (length pat) n); [lia | done | done | by rewrite E].
    + intros E%(f_equal length). rewrite length_take, length_take in E. lia.
Qed.

Lemma kprefix_hit_bit r p :
  krule_ok r -> exec_path_ok p ->
  kprefix_hit r p =
  Some (Z.b2z (negb (kr_prefix_len r =? 0) && prefixb (prefix_pattern r) (exec_path p))).
Proof.
  intros [_ _ _ Hlen _ _ [Hpl Hpb] _ Hnul] [[Hbl Hbb] Hel _ Hpad].
  unfold kprefix_hit, prefix_diff. rewrite Z.min_l by lia.
  destruct (diff_over_spec (kr_prefix_len r) (index (kr_prefix r)) (index (ep_bytes p)))
    as (d & -> & Hd & Hz); [lia | |].
  { intros i Hi. destruct (index_in (kr_prefix r) i) as (x & ? & ?), (index_in (ep_bytes p) i) as (y & ? & ?);
      unfold KPATH_LEN, PATH_LEN in *; try done; try lia; eauto 10. }
  cbn [mbind option_bind]. rewrite !nonzero_bit, fits_bit by (unfold KPATH_LEN in *; lia).
  rewrite b2z_not, !b2z_land. do 2 f_equal. rewrite andb_true_r, andb_comm. f_equal.
  rewrite negb_involutive. unfold exec_path. unfold len in *.
  assert (length (prefix_pattern r) = Z.to_nat (kr_prefix_len r)) as Hpat
    by (unfold prefix_pattern; rewrite length_take; lia).
  rewrite prefix_of_padded by (done || unfold KPATH_LEN, PATH_LEN in *; lia).
  apply bool_iff. rewrite Z.eqb_eq, bool_decide_eq_true, Hz, Hpat.
  rewrite index_eq_take by (unfold len, KPATH_LEN, PATH_LEN in *; lia). unfold prefix_pattern.
  split; done.
Qed.

(** The tail of the path, as the masked index visits it. *)
Lemma suffix_window r p i :
  krule_ok r -> exec_path_ok p -> kr_suffix_len r <= ep_len p -> 0 <= i < kr_suffix_len r ->
  index (ep_bytes p) (Z.land (add16 (sub16 (ep_len p) (kr_suffix_len r)) i) (PATH_LEN - 1)) =
  index (drop (Z.to_nat (ep_len p - kr_suffix_len r)) (exec_path p)) i.
Proof.
  intros Hr Hp Hle Hi. pose proof (ko_suffix_len _ Hr). pose proof (eo_len _ Hp).
  unfold PATH_LEN, KPATH_LEN, add16, sub16, U16 in *.
  rewrite (Z.mod_small (ep_len p - _)) by lia. rewrite Z.mod_small by lia.
  change (256 - 1) with (Z.ones 8). rewrite Z.land_ones by lia. rewrite Z.mod_small by (simpl; lia).
  unfold index, exec_path. rewrite lookup_drop, lookup_take_lt by lia. f_equal. lia.
Qed.

Lemma ksuffix_hit_bit r p :
  krule_ok r -> exec_path_ok p ->
  ksuffix_hit r p =
  Some (Z.b2z (negb (kr_suffix_len r =? 0) && suffixb (suffix_pattern r) (exec_path p))).
Proof.
  intros Hr Hp. pose proof (ko_suffix_len _ Hr) as Hlen. pose proof (eo_len _ Hp) as Hel.
  destruct (ko_suffix _ Hr) as [Hsl Hsb], (eo_bytes _ Hp) as [Hbl Hbb].
  unfold ksuffix_hit, suffix_diff. rewrite Z.min_l by lia.
  match goal with |- context [diff_over ?n ?a ?b] =>
    destruct (diff_over_spec n a b) as (d & -> & Hd & Hz); [lia | |] end.
  { intros i Hi. destruct (index_in (kr_suffix r) i) as (x & -> & ?); [done | lia |].
    change (PATH_LEN - 1) with (Z.ones 8). rewrite Z.land_ones by lia.
    destruct (index_in (ep_bytes p) (add16 (sub16 (ep_len p) (kr_suffix_len r)) i mod 2 ^ 8))
      as (y & -> & ?); eauto 10.
    rewrite Hbl. unfold PATH_LEN. apply Z.mod_pos_bound. done. }
  cbn [mbind option_bind].
  rewrite !nonzero_bit, fits_bit, long_enough_bit by (unfold KPATH_LEN, PATH_LEN in *; lia).
  rewrite b2z_not, !b2z_land, negb_involutive. do 2 f_equal.
  rewrite andb_true_r, (andb_comm (d =? 0)), <- andb_assoc. f_equal.
  rewrite suffixb_drop. unfold suffix_pattern, exec_path.
  assert (length (take (Z.to_nat (kr_suffix_len r)) (kr_suffix r)) = Z.to_nat (kr_suffix_len r)) as Hpat
    by (rewrite length_take; unfold len in *; lia).
  assert (length (take (Z.to_nat (ep_len p)) (ep_bytes p)) = Z.to_nat (ep_len p)) as Hpath
    by (rewrite length_take; unfold len, PATH_LEN in *; lia).
  rewrite Hpat, Hpath. apply bool_iff.
  rewrite andb_true_iff, Z.leb_le, Z.eqb_eq, bool_decide_eq_true, Hz.
  rewrite (and_comm _ (kr_suffix_len r <= ep_len p)).
  assert ((Z.to_nat (kr_suffix_len r) <= Z.to_nat (ep_len p))%nat <-> kr_suffix_len r <= ep_len p)
    as -> by lia.
  apply and_iff_compat_l'. intros Hle. fold (exec_path p). rewrite <- Z2Nat.inj_sub by lia.
  assert (length (drop (Z.to_nat (ep_len p - kr_suffix_len r)) (exec_path p))
          = Z.to_nat (kr_suffix_len r)) as Htail
    by (unfold exec_path; rewrite length_drop, Hpath; lia).
  rewrite <- (take_ge (drop _ (exec_path p)) (Z.to_nat (kr_suffix_len r))) by lia.
  rewrite (eq_sym_iff (take _ (drop _ _))), <- index_eq_take by (unfold len in *; lia).
  split; intros H i Hi; [rewrite <- suffix_window | rewrite suffix_window]; auto.
Qed.

Definition comm_buf_ok (comm : list Z) : Prop := len comm = COMM_LEN /\ bytes_ok comm.

Lemma comm_diff_spec a b :
  comm_buf_ok a -> comm_buf_ok b ->
  exists d, comm_diff a b = Some d /\ 0 <= d < 256 /\ (d =? 0) = bool_decide (a = b).
Proof.
  intros [Ha Hab] [Hb Hbb].
  destruct (diff_over_spec COMM_LEN (index a) (index b)) as (d & Hd & Hr & Hz); [done | |].
  { intros i Hi. destruct (index_in a i) as (x & ? & ?), (index_in b i) as (y & ? & ?);
      try done; try lia; eauto 10. }
  exists d. split_and!; [done | lia | lia |]. apply bool_iff.
  rewrite Z.eqb_eq, bool_decide_eq_true, Hz, index_eq_take by (unfold COMM_LEN in *; lia).
  unfold len, COMM_LEN in *. by rewrite !take_ge by (simpl; lia).
Qed.

Lemma unreadable_byte n :
  0 <= n < PATH_LEN -> Z.lor (n mod U8) (Z.shiftr n 8 mod U8) = n.
Proof.
  unfold PATH_LEN, U8. intros Hn. rewrite Z.shiftr_div_pow2, Z.div_small by (simpl; lia).
  rewrite Z.mod_small by lia. apply Z.lor_0_r.
Qed.

#[local] Hint Rewrite b2z_land b2z_lor b2z_not : bits.

Lemma mask_bit r comm in_container agent_self selected p :
  krule_ok r -> comm_buf_ok comm -> exec_path_ok p ->
  kernel_rule_mask r comm in_container agent_self selected p =
  Some (Z.b2z (slot_applies r comm in_container agent_self selected p)).
Proof.
  intros Hr Hc Hp. pose proof (ko_flags _ Hr) as Hf. pose proof (eo_flags _ Hp) as Hpf.
  pose proof (ko_comm_len _ Hr) as Hcl.
  unfold kernel_rule_mask. fold (nonzero (kr_comm_len r)).
  destruct (comm_diff_spec (kr_comm r) comm (ko_comm _ Hr) Hc) as (d & -> & Hd & Hdz).
  cbn [mbind option_bind]. fold (nonzero d).
  rewrite kprefix_hit_bit, ksuffix_hit_bit by done. cbn [mbind option_bind].
  rewrite unreadable_byte by apply Hp. pose proof (eo_len _ Hp) as Hl. unfold PATH_LEN in Hl.
  rewrite !nonzero_bit, fits_bit by (unfold COMM_LEN in *; lia).
  change KRULE_FLAG_CONTAINER_ONLY with (2 ^ 1). change KRULE_FLAG_NOT_AGENT_SELF with (2 ^ 2).
  change KRULE_FLAG_SELECTED_ONLY with (2 ^ 3). change KRULE_FLAG_PATH_PREFIX with (2 ^ 4).
  change KRULE_FLAG_PATH_SUFFIX with (2 ^ 5). change EXEC_PATH_TRUNCATED with (2 ^ 1).
  change (Z.land (kr_flags r) KRULE_FLAG_USED) with (Z.land (kr_flags r) (2 ^ 0)).
  change (Z.land (ep_flags p) EXEC_PATH_KNOWN) with (Z.land (ep_flags p) (2 ^ 0)).
  rewrite <- (Z.shiftr_0_r (Z.land (kr_flags r) (2 ^ 0))).
  rewrite <- (Z.shiftr_0_r (Z.land (ep_flags p) (2 ^ 0))).
  rewrite !flag_bit by lia. autorewrite with bits. do 2 f_equal.
  rewrite Hdz. unfold slot_applies. rewrite !negb_involutive, andb_true_r.
  rewrite (orb_comm (bool_decide _)), negb_andb, negb_involutive. done.
Qed.

(** C12: the branch-free slot predicate is the plain one: for every well-formed
    slot and path, no index leaves its array and the mask is 1 exactly when the
    slot is used, the names are equal, the path predicates hold or may not reject,
    and no flag excludes the task. *)
Theorem kernel_rule_mask_exact r comm in_container agent_self selected p
    (Hslot : krule_ok r) (Hcomm : comm_buf_ok comm) (Hpath : exec_path_ok p) :
  kernel_rule_mask r comm in_container agent_self selected p =
    Some (Z.b2z (slot_applies r comm in_container agent_self selected p)) /\
  kernel_rule_matches r comm in_container agent_self selected p =
    Some (slot_applies r comm in_container agent_self selected p).
Proof.
  unfold kernel_rule_matches. rewrite mask_bit by done. split; [done|].
  cbn. by destruct (slot_applies _ _ _ _ _ _).
Qed.

(** ** The walk *)

Lemma action_rank_range a : 0 <= action_rank a < 16.
Proof.
  unfold action_rank. change 0xf with (Z.ones 4). rewrite Z.land_ones by lia.
  apply Z.mod_pos_bound. done.
Qed.

(** The sign bit of the difference of two small ranks. *)
Lemma stronger_bit a b :
  0 <= a < 16 -> 0 <= b < 16 -> Z.land (Z.shiftr (sub8 a b) 7) 1 = Z.b2z (a <? b).
Proof.
  intros Ha Hb.
  assert (forall x, 0 <= x < 256 ->
    (Z.land (Z.shiftr (sub8 (x / 16) (x mod 16)) 7) 1 =? Z.b2z (x / 16 <? x mod 16)) = true) as H
    by (apply byte_sweep; vm_compute; reflexivity).
  specialize (H (a * 16 + b) ltac:(lia)). apply Z.eqb_eq in H.
  rewrite (Z.add_comm (a * 16)), Z.div_add, Z.mod_add, Z.div_small, Z.mod_small in H by lia.
  exact H.
Qed.

(** [v ^= (v ^ a) & -bit] is a select. *)
Lemma select_bit v a (b : bool) :
  0 <= v < 256 -> 0 <= a < 256 ->
  Z.lxor v (Z.land (Z.lxor v a) (neg8 (Z.b2z b))) = if b then a else v.
Proof.
  intros Hv Ha. destruct b.
  - change (neg8 (Z.b2z true)) with (Z.ones 8). rewrite Z.land_ones by lia.
    rewrite Z.mod_small by (apply lxor_byte; lia).
    by rewrite <- Z.lxor_assoc, Z.lxor_nilpotent, Z.lxor_0_l.
  - change (neg8 (Z.b2z false)) with 0. by rewrite Z.land_0_r, Z.lxor_0_r.
Qed.

(** One step of either walk. *)
Definition stronger_of (best : Z) (r : KernelRule) (m : bool) : Z :=
  if m && (action_rank best <? action_rank (kr_action r)) then kr_action r else best.

Lemma walk_rules_step comm ic self sel p v r :
  krule_ok r -> comm_buf_ok comm -> exec_path_ok p -> 0 <= v < 256 ->
  walk_rules comm ic self sel p v r = Some (stronger_of v r (slot_applies r comm ic self sel p)).
Proof.
  intros Hr Hc Hp Hv. unfold walk_rules. rewrite mask_bit by done. cbn [mbind option_bind].
  pose proof (action_rank_range v) as Hrv. pose proof (action_rank_range (kr_action r)) as Hra.
  unfold stronger_of. destruct (slot_applies _ _ _ _ _ _); unfold U8.
  - rewrite Z.mul_1_r, Z.mod_small, stronger_bit by lia.
    rewrite select_bit by (try apply Hr; done). done.
  - rewrite Z.mul_0_r, Z.mod_small, stronger_bit by lia.
    rewrite select_bit by (try apply Hr; done). destruct (Z.ltb_spec (action_rank v) 0); [lia|done].
Qed.

Definition strongest_slot (slots : list KernelRule) (applies : KernelRule -> bool) : Z :=
  foldl (fun best r => stronger_of best r (applies r)) ACTION_ALLOW slots.

Lemma strongest_slot_byte slots applies :
  Forall krule_ok slots -> 0 <= strongest_slot slots applies < 256.
Proof.
  unfold strongest_slot. induction slots as [|r slots IH] using rev_ind; intros H; [done|].
  apply Forall_app in H as [H Hr]. rewrite foldl_app. simpl.
  apply Forall_cons in Hr as [Hr _]. specialize (IH H). set (best := foldl _ _ slots) in *. clearbody best.
  unfold stronger_of. case_match; [exact (ko_action _ Hr) | done].
Qed.

Lemma kernel_verdict_strongest slots comm ic self sel p :
  Forall krule_ok slots -> comm_buf_ok comm -> exec_path_ok p ->
  kernel_verdict slots comm ic self sel p =
  Some (strongest_slot slots (fun r => slot_applies r comm ic self sel p)).
Proof.
  intros Hs Hc Hp. unfold kernel_verdict, strongest_slot.
  induction slots as [|r slots IH] using rev_ind; [done|].
  apply Forall_app in Hs as [Hs Hr]. apply Forall_cons in Hr as [Hr _].
  rewrite !foldl_app, IH by done. simpl.
  unfold kernel_rule_matches. rewrite mask_bit by done. cbn.
  by destruct (slot_applies _ _ _ _ _ _).
Qed.

Lemma walk_strongest slots comm ic self sel p :
  Forall krule_ok slots -> comm_buf_ok comm -> exec_path_ok p ->
  foldl (fun acc rule => v ← acc; walk_rules comm ic self sel p v rule) (Some ACTION_ALLOW) slots =
  Some (strongest_slot slots (fun r => slot_applies r comm ic self sel p)).
Proof.
  intros Hs Hc Hp. induction slots as [|r slots IH] using rev_ind; [done|].
  apply Forall_app in Hs as [Hs [Hr _]%Forall_cons].
  unfold strongest_slot. rewrite !foldl_app, IH by done. cbn [foldl mbind option_bind].
  rewrite walk_rules_step by (try apply strongest_slot_byte; done). done.
Qed.

Lemma zeros_ok n : bytes_ok (zeros n).
Proof. unfold zeros. apply Forall_forall. intros x Hx%list_elem_of_In%repeat_spec. lia. Qed.

Lemma len_zeros n : 0 <= n -> len (zeros n) = n.
Proof. intros. unfold len, zeros. rewrite repeat_length. lia. Qed.

Lemma padded_len size src : len src <= size -> len (padded size src) = size.
Proof. intros. unfold padded. rewrite len_app, len_zeros by lia. lia. Qed.

Lemma padded_ok size src : bytes_ok src -> bytes_ok (padded size src).
Proof. intros. apply Forall_app. split; [done|apply zeros_ok]. Qed.

Lemma padded_tail size src n :
  Z.to_nat n = length src -> Forall (fun b => b = 0) (drop (Z.to_nat n) (padded size src)).
Proof.
  intros ->. unfold padded. rewrite drop_app_length. unfold zeros.
  apply Forall_forall. by intros x Hx%list_elem_of_In%repeat_spec.
Qed.

Lemma padded_head size src n : Z.to_nat n = length src -> take (Z.to_nat n) (padded size src) = src.
Proof. intros ->. apply take_app_length. Qed.

(** The bytes before the first NUL. *)
Fixpoint until_nul (l : list Z) : list Z :=
  match l with
  | [] => []
  | b :: l' => if b =? 0 then [] else b :: until_nul l'
  end.

Lemma until_nul_padded size src : nul_free src -> until_nul (padded size src) = src.
Proof.
  intros H. unfold padded. generalize (size - len src) as n.
  induction H as [|b l Hb _ IH]; intros n; simpl.
  - unfold zeros. by destruct (Z.to_nat n).
  - rewrite (proj2 (Z.eqb_neq b 0)) by done. by rewrite IH.
Qed.

(** Buffers that hold NUL-free strings are equal when the strings are. *)
Lemma padded_inj size a b : nul_free a -> nul_free b -> padded size a = padded size b -> a = b.
Proof.
  intros Ha Hb H%(f_equal until_nul). by rewrite !until_nul_padded in H.
Qed.

Lemma padded_path_ok src flags :
  len src < PATH_LEN -> bytes_ok src -> 0 <= flags < 256 ->
  exec_path_ok {| ep_bytes := padded PATH_LEN src; ep_len := len src; ep_flags := flags |}.
Proof.
  intros Hl Hb Hf. pose proof (len_nonneg src). constructor; simpl.
  - split; [apply padded_len; lia | by apply padded_ok].
  - lia.
  - done.
  - apply padded_tail. unfold len. lia.
Qed.

(** What the two string helpers promise: at most [PATH_LEN - 1] bytes. *)
Definition read_ok (read : option (list Z)) : Prop :=
  match read with Some name => len name < PATH_LEN /\ bytes_ok name | None => True end.

(** A resolved offset gives the same path the ring decoder derives its flags for. *)
Lemma read_exec_path_view offset read :
  offset <> 0 -> read_ok read ->
  read_exec_path offset read =
    match read with
    | Some name => exec_path_from_bytes name false
    | None => exec_path_from_bytes [] true
    end.
Proof.
  intros Ho Hr. unfold read_exec_path, exec_path_from_bytes.
  rewrite (proj2 (Z.eqb_neq offset 0)) by done. destruct read as [name|]; [|done].
  destruct Hr as [Hl Hb]. pose proof (len_nonneg name). unfold PATH_LEN in *.
  rewrite (proj2 (Z.ltb_ge (256 - 1) (len name))) by lia.
  assert (take (Z.to_nat (len name)) name = name) as -> by (apply take_ge; unfold len; lia).
  assert (len name mod U16 = len name) as Hmod by (unfold U16; apply Z.mod_small; lia).
  destruct (Z.ltb_spec (len name) (256 - 1)).
  - rewrite (proj2 (Z.leb_gt (256 - 1) (len name))) by lia. by rewrite Hmod.
  - rewrite (proj2 (Z.leb_le (256 - 1) (len name))) by lia. f_equal.
    change (256 - 1) with (Z.ones 8). rewrite Z.land_ones by lia.
    rewrite (Z.mod_small (len name) (2 ^ 8)) by (simpl; lia). done.
Qed.

Lemma from_bytes_ok path truncated :
  len path < PATH_LEN -> bytes_ok path -> exec_path_ok (exec_path_from_bytes path truncated).
Proof.
  intros Hl Hb. pose proof (len_nonneg path). unfold exec_path_from_bytes, PATH_LEN in *.
  rewrite (proj2 (Z.ltb_ge (256 - 1) (len path))) by lia.
  assert (take (Z.to_nat (len path)) path = path) as -> by (apply take_ge; unfold len; lia).
  apply padded_path_ok; [done | done | by destruct (truncated || _)].
Qed.

Lemma read_exec_path_ok offset read : read_ok read -> exec_path_ok (read_exec_path offset read).
Proof.
  intros Hr. destruct (Z.eqb_spec offset 0) as [->|Hne].
  - apply (padded_path_ok [] 0); [done | constructor | done].
  - rewrite read_exec_path_view by done. destruct read as [name|].
    + destruct Hr. by apply from_bytes_ok.
    + apply from_bytes_ok; [done|constructor].
Qed.

Lemma empty_slot_ok : krule_ok kernel_rule_empty.
Proof. constructor; try done; try (split; [done | apply zeros_ok]). constructor. Qed.

Lemma empty_slot_inert best m : stronger_of best kernel_rule_empty m = best.
Proof.
  unfold stronger_of. change (action_rank (kr_action kernel_rule_empty)) with 0.
  pose proof (action_rank_range best).
  by rewrite (proj2 (Z.ltb_ge (action_rank best) 0)), andb_false_r by lia.
Qed.

Lemma empty_slots_inert slots n applies :
  strongest_slot (slots ++ repeat kernel_rule_empty n) applies = strongest_slot slots applies.
Proof.
  unfold strongest_slot. rewrite foldl_app. set (best := foldl _ _ slots). clearbody best.
  induction n as [|n IH]; [done|]. cbn [repeat foldl]. by rewrite empty_slot_inert.
Qed.

(** What the hook computes of the task before it walks. *)
Definition ctx_agent_self (ctx : ExecContext) : bool :=
  match xc_self_slot ctx with
  | Some self_tgid => negb (self_tgid =? 0) && (self_tgid =? xc_tgid ctx)
  | None => false
  end.
Definition ctx_comm (ctx : ExecContext) : list Z := default (zeros COMM_LEN) (xc_comm ctx).
Definition ctx_path (ctx : ExecContext) : ExecPath :=
  read_exec_path (xc_filename_offset ctx) (xc_filename ctx).

Record ctx_ok (ctx : ExecContext) : Prop := {
  co_comm : match xc_comm ctx with Some c => comm_buf_ok c | None => True end;
  co_read : read_ok (xc_filename ctx)
}.

Lemma hook_strongest slots n ctx :
  Forall krule_ok slots -> ctx_ok ctx ->
  ferrum_bprm_check_security (slots ++ repeat kernel_rule_empty n) ctx =
  Some (lsm_verdict (xc_previous ctx) (action_refuses (strongest_slot slots (fun r =>
    slot_applies r (ctx_comm ctx) (xc_in_cgroups ctx) (ctx_agent_self ctx) (xc_in_selected ctx)
      (ctx_path ctx))))).
Proof.
  intros Hs [Hc Hr]. unfold ferrum_bprm_check_security.
  fold (ctx_agent_self ctx) (ctx_comm ctx) (ctx_path ctx). rewrite walk_strongest.
  - by rewrite empty_slots_inert.
  - apply Forall_app. split; [done|]. apply Forall_forall.
    intros x ->%list_elem_of_In%repeat_spec. apply empty_slot_ok.
  - unfold ctx_comm. destruct (xc_comm ctx); [done|]. split; [done|apply zeros_ok].
  - by apply read_exec_path_ok.
Qed.

(** The hook the kernel runs, with its comparison-free walk over all the slots
    of the array map, zeroed tail included, returns what the reference walk over
    the written slots says, never panics on an index, and hands on unchanged the
    refusal of a program that ran before it. *)
Lemma hook_runs_reference_walk slots n ctx
    (Hslots : Forall krule_ok slots) (Hctx : ctx_ok ctx) :
  exists verdict,
    kernel_verdict slots (ctx_comm ctx) (xc_in_cgroups ctx) (ctx_agent_self ctx)
      (xc_in_selected ctx) (ctx_path ctx) = Some verdict /\
    ferrum_bprm_check_security (slots ++ repeat kernel_rule_empty n) ctx =
      Some (if xc_previous ctx =? 0 then if action_refuses verdict then - EPERM else 0
            else xc_previous ctx).
Proof.
  rewrite hook_strongest by done. rewrite kernel_verdict_strongest; [|done| |].
  - eexists. split; [done|]. unfold lsm_verdict. by destruct (xc_previous ctx =? 0).
  - unfold ctx_comm. destruct Hctx as [Hc _], (xc_comm ctx); [done|].
    split; [done|apply zeros_ok].
  - apply read_exec_path_ok, Hctx.
Qed.

(** ** Concrete slots *)

Definition shell_slot : KernelRule :=
  set_suffix
    {| kr_action := ACTION_DENY; kr_flags := 3; kr_comm_len := 2; kr_prefix_len := 0;
       kr_suffix_len := 0; kr_comm := padded COMM_LEN (as_bytes "sh");
       kr_prefix := zeros KPATH_LEN; kr_suffix := zeros KPATH_LEN |} (as_bytes "/nc").

Definition shell_ctx : ExecContext :=
  {| xc_previous := 0; xc_comm := Some (padded COMM_LEN (as_bytes "sh")); xc_in_cgroups := true;
     xc_in_selected := false; xc_self_slot := None; xc_tgid := 7; xc_filename_offset := 96;
     xc_filename := Some (as_bytes "/usr/bin/nc") |}.

Lemma shell_slot_ok : krule_ok shell_slot.
Proof.
  unfold shell_slot. constructor; unfold bytes_ok, nul_free; apply (bool_decide_unpack _); vm_compute; exact I.
Qed.

Lemma shell_ctx_ok : ctx_ok shell_ctx.
Proof.
  constructor; unfold comm_buf_ok, read_ok, bytes_ok; simpl; apply (bool_decide_unpack _);
    vm_compute; exact I.
Qed.

Lemma kernel_rule_mask_exact_witness :
  kernel_rule_matches shell_slot (ctx_comm shell_ctx) true false false (ctx_path shell_ctx) =
  Some (slot_applies shell_slot (ctx_comm shell_ctx) true false false (ctx_path shell_ctx)).
Proof.
  apply (kernel_rule_mask_exact shell_slot (ctx_comm shell_ctx) true false false (ctx_path shell_ctx)).
  - exact shell_slot_ok.
  - exact (co_comm _ shell_ctx_ok).
  - apply read_exec_path_ok. exact (co_read _ shell_ctx_ok).
Defined.

Lemma hook_runs_reference_walk_witness :
  exists verdict,
    kernel_verdict [shell_slot] (ctx_comm shell_ctx) true false false (ctx_path shell_ctx)
      = Some verdict /\
    ferrum_bprm_check_security ([shell_slot] ++ repeat kernel_rule_empty 63) shell_ctx =
      Some (if 0 =? 0 then if action_refuses verdict then - EPERM else 0 else 0).
Proof.
  apply (hook_runs_reference_walk [shell_slot] 63 shell_ctx);
    [constructor; [exact shell_slot_ok | constructor] | exact shell_ctx_ok].
Defined.

(** The hook refuses that exec, and only by its suffix. *)
Example shell_slot_refuses :
  ferrum_bprm_check_security [shell_slot] shell_ctx = Some (- EPERM).
Proof. vm_compute. reflexivity. Qed.

(** A length byte past the buffer is refused only up to 127 past it: from 145 on
    the borrow no longer reaches the top bit, and such a slot still matches. *)
Definition corrupt_slot (comm_len : Z) : KernelRule :=
  {| kr_action := ACTION_DENY; kr_flags := 1; kr_comm_len := comm_len; kr_prefix_len := 0;
     kr_suffix_len := 0; kr_comm := padded COMM_LEN (as_bytes "sh");
     kr_prefix := zeros KPATH_LEN; kr_suffix := zeros KPATH_LEN |}.

Lemma corrupt_comm_len_matches :
  let m n := kernel_rule_matches (corrupt_slot n) (padded COMM_LEN (as_bytes "sh"))
               true false false exec_path_unknown in
  m 144 = Some false /\ m 145 = Some true.
Proof. vm_compute. split; reflexivity. Qed.
