(* ===== verification/KRules.v ===== *)
(** * ferrum-ebpf, krules.rs: the part of a program the kernel decides

    Which rules become slots of [ferrum_rules], and the reason each other rule
    stays on the tracepoint path. *)

From S2P Require Import Prelude RustStd Ids Api Febp RuntimeEval Datapath.

Inductive ExecPathLayout : Type :=
| Known
| Unknown (why : string).

Definition EXEC_SYSCALLS : list string := ["execve"; "execveat"].

Record Excluded : Type := {
  ex_rule : string;
  ex_reason : msg
}.

Record KernelRuleSet : Type := {
  krs_rules : list KernelRule;
  krs_excluded : list Excluded;
  krs_selected_only : bool;
  krs_refused : option msg
}.

Definition refuse (reason : msg) : KernelRuleSet :=
  {| krs_rules := []; krs_excluded := []; krs_selected_only := false; krs_refused := Some reason |}.

Definition is_refused (s : KernelRuleSet) : bool :=
  match krs_refused s with Some _ => true | None => false end.

(** [path_patterns]: [[None]] for an empty list, one entry per pattern otherwise. *)
Definition path_patterns (patterns : list string) (field : string)
    : result msg (list (option (list Z))) :=
  if is_empty patterns then Ok [None] else
  try_map (fun pattern =>
    let bytes := as_bytes pattern in
    _ ← refuse_if (is_empty bytes)
          [Lit "пустой шаблон в "; Str field;
           Lit ": userspace его пропускает, а слот совпадал бы с чем угодно"];
    _ ← refuse_if (existsb (fun b => b =? 0) bytes)
          [Lit "шаблон "; Dbg pattern; Lit " в "; Str field;
           Lit " содержит NUL: в пути, скопированном ядром, его не бывает"];
    _ ← refuse_if (KPATH_LEN <? len bytes)
          [Lit "шаблон "; Dbg pattern; Lit " в "; Str field; Lit " длиннее "; Num KPATH_LEN;
           Lit " байт слота: обрезанный шаблон шире написанного"];
    Ok (Some bytes)) patterns.

(** The [comms] of [kernel_slots]. *)
Definition slot_comms (comm_in : list string) : result msg (list (option (list Z))) :=
  comms ← try_map (fun comm =>
    let bytes := as_bytes comm in
    _ ← refuse_if (is_empty bytes)
          [Lit "пустой comm в comm_in: предикат, который не с чем сравнить"];
    _ ← refuse_if (COMM_LEN - 1 <? len bytes)
          [Lit "comm "; Dbg comm; Lit " длиннее "; Num (COMM_LEN - 1);
           Lit " байт: ядро столько не отдаёт, а обрезанный предикат шире написанного"];
    Ok (Some bytes)) comm_in;
  Ok (if is_empty comms then [None] else comms).

Definition slot_flags (rule : Rule) (selected_only : bool) : Z :=
  Z.lor (Z.lor (Z.lor KRULE_FLAG_USED (if selected_only then KRULE_FLAG_SELECTED_ONLY else 0))
    (if r_container_only rule then KRULE_FLAG_CONTAINER_ONLY else 0))
    (if r_not_agent_self rule then KRULE_FLAG_NOT_AGENT_SELF else 0).

(** The body of the three nested loops. *)
Definition make_slot (action flags : Z) (comm prefix suffix : option (list Z)) : KernelRule :=
  let slot :=
    {| kr_action := action; kr_flags := flags;
       kr_comm_len := match comm with Some bytes => len bytes mod U8 | None => 0 end;
       kr_prefix_len := 0; kr_suffix_len := 0;
       kr_comm := match comm with Some bytes => padded COMM_LEN bytes | None => zeros COMM_LEN end;
       kr_prefix := zeros KPATH_LEN; kr_suffix := zeros KPATH_LEN |} in
  let slot := match prefix with Some bytes => set_prefix slot bytes | None => slot end in
  match suffix with Some bytes => set_suffix slot bytes | None => slot end.

Definition names_exec (rule : Rule) : bool :=
  existsb (fun s => list_contains EXEC_SYSCALLS s) (r_syscalls rule).

Definition kernel_slots (rule : Rule) (selected_only : bool) (layout : ExecPathLayout)
    : result msg (list KernelRule) :=
  _ ← refuse_if (negb match r_action rule with Deny | Kill => true | _ => false end)
        [Lit "действие "; Str (action_as_str (r_action rule));
         Lit " не отказывает exec'у; в ядре ему нечего делать"];
  _ ← refuse_if (negb (is_empty (r_syscalls rule)) && negb (names_exec rule))
        [Lit "правило не называет ни один из "; Names EXEC_SYSCALLS;
         Lit ", а этот набор решает только exec"];
  _ ← (if negb (is_empty (r_path_prefix rule)) || negb (is_empty (r_path_suffix rule)) then
         match layout with
         | Unknown why =>
             Err [Lit "предикат по пути, а хук не знает, где путь лежит в linux_binprm этого ядра: ";
                  Str why]
         | Known => Ok tt
         end
       else Ok tt);
  prefixes ← path_patterns (r_path_prefix rule) "pathPrefix";
  suffixes ← path_patterns (r_path_suffix rule) "pathSuffix";
  let flags := slot_flags rule selected_only in
  let action := action_as_u8 (r_action rule) in
  comms ← slot_comms (r_comm_in rule);
  Ok (flat_map (fun comm =>
        flat_map (fun prefix =>
          map (make_slot action flags comm prefix) suffixes) prefixes) comms).

(** One turn of the loop over the rules. *)
Definition compile_step (selected_only : bool) (layout : ExecPathLayout)
    (out : list KernelRule * list Excluded) (rule : Rule) : list KernelRule * list Excluded :=
  match kernel_slots rule selected_only layout with
  | Ok slots => (out.1 ++ slots, out.2)
  | Err reason => (out.1, out.2 ++ [{| ex_rule := r_id rule; ex_reason := reason |}])
  end.

Definition mode_debug (m : Mode) : string :=
  match m with MObserve => "Observe" | MAudit => "Audit" | MEnforce => "Enforce" end.

Definition compile_kernel_rules_for (spec : EbpfSpec) (layout : ExecPathLayout) : KernelRuleSet :=
  if disabled spec then refuse [Lit "политика отключена"] else
  if negb (bool_decide (mode spec = MEnforce)) then
    refuse [Lit "режим не enforce ("; Str (mode_debug (mode spec));
            Lit "): наблюдающая политика не отказывает syscall'у"] else
  if negb match default_action spec with Allow | Audit => true | _ => false end then
    refuse [Lit "defaultAction = "; Str (action_as_str (default_action spec));
            Lit ": «всё несовпавшее» списком совпадающих правил не выражается"] else
  let selected_only := negb (selector_is_empty (selector spec)) in
  let '(slots, excluded) := foldl (compile_step selected_only layout) ([], []) (rules spec) in
  if MAX_KERNEL_RULES <? len slots then
    {| krs_rules := []; krs_excluded := excluded; krs_selected_only := selected_only;
       krs_refused := Some [Lit "правил для ядра "; Num (len slots); Lit ", слотов ";
         Num MAX_KERNEL_RULES;
         Lit ": усечённый набор предотвращал бы часть политики и молчал об остальной"] |}
  else
    {| krs_rules := slots; krs_excluded := excluded; krs_selected_only := selected_only;
       krs_refused := None |}.

Definition compile_kernel_rules (spec : EbpfSpec) : KernelRuleSet :=
  compile_kernel_rules_for spec Known.

(** ** What one slot tests *)

(** A pattern [path_patterns] lets through. *)
Definition pattern_ok (bytes : list Z) : Prop :=
  bytes <> [] /\ nul_free bytes /\ len bytes <= KPATH_LEN /\ bytes_ok bytes.
Definition comm_pattern_ok (bytes : list Z) : Prop :=
  bytes <> [] /\ len bytes < COMM_LEN /\ bytes_ok bytes.
Definition opt_all (P : list Z -> Prop) (o : option (list Z)) : Prop :=
  match o with Some bytes => P bytes | None => True end.

Lemma path_patterns_ok patterns field ps :
  path_patterns patterns field = Ok ps ->
  Forall (opt_all pattern_ok) ps /\
  ((patterns = [] /\ ps = [None]) \/ (patterns <> [] /\ ps = map (Some ∘ as_bytes) patterns)).
Proof.
  unfold path_patterns. destruct (is_empty patterns) eqn:He.
  { apply is_empty_true in He. intros [= <-]. split; [by repeat constructor | by left]. }
  apply is_empty_false in He. intros H%try_map_ok.
  enough (Forall (opt_all pattern_ok) ps /\ ps = map (Some ∘ as_bytes) patterns) by naive_solver.
  clear He. induction H as [|x y xs ys Hxy _ [IH1 ->]]; [done|]. inv_ok.
  split; [|done]. constructor; [|done]. simpl. split_and!.
  - by apply is_empty_false.
  - match goal with H : existsb _ _ = false |- _ => apply existsb_false_Forall in H end.
    eapply Forall_impl; [eassumption|]. simpl. lia.
  - lia.
  - apply as_bytes_range.
Qed.

Lemma slot_comms_ok comm_in cs :
  slot_comms comm_in = Ok cs ->
  Forall (opt_all comm_pattern_ok) cs /\
  ((comm_in = [] /\ cs = [None]) \/ (comm_in <> [] /\ cs = map (Some ∘ as_bytes) comm_in)).
Proof.
  unfold slot_comms. intros (ys & H%try_map_ok & [= <-])%bind_ok.
  assert (Forall (opt_all comm_pattern_ok) ys /\ ys = map (Some ∘ as_bytes) comm_in) as [Hok ->].
  { induction H as [|x y xs ys Hxy _ [IH1 ->]]; [done|]. inv_ok. split; [|done].
    constructor; [|done]. split_and!; [by apply is_empty_false | simpl; lia | apply as_bytes_range]. }
  destruct comm_in; simpl; [|by split; [|right]]. split; [by repeat constructor | by left].
Qed.

(** The comparison each part of a slot makes on an exec. *)
Definition comm_hit (comm : list Z) (c : option (list Z)) : bool :=
  match c with Some bytes => bool_decide (bytes = comm) | None => true end.
Definition head_hit (path : list Z) (unreadable : bool) (p : option (list Z)) : bool :=
  match p with Some bytes => prefixb bytes path || unreadable | None => true end.
Definition tail_hit (path : list Z) (truncated : bool) (p : option (list Z)) : bool :=
  match p with Some bytes => suffixb bytes path || truncated | None => true end.

Definition context_hit (rule : Rule) (selected_only in_container agent_self selected : bool) : bool :=
  negb (r_not_agent_self rule && agent_self) && negb (r_container_only rule && negb in_container)
  && negb (selected_only && negb selected).

Section slot.
Context (rule : Rule) (selected_only : bool) (c p s : option (list Z)).
Context (Hc : opt_all comm_pattern_ok c) (Hp : opt_all pattern_ok p) (Hs : opt_all pattern_ok s).
Notation slot := (make_slot (action_as_u8 (r_action rule)) (slot_flags rule selected_only) c p s).

Lemma make_slot_flags :
  flag 0 (kr_flags slot) = true /\ flag 1 (kr_flags slot) = r_container_only rule /\
  flag 2 (kr_flags slot) = r_not_agent_self rule /\ flag 3 (kr_flags slot) = selected_only /\
  flag 4 (kr_flags slot) = bool_decide (is_Some p) /\
  flag 5 (kr_flags slot) = bool_decide (is_Some s) /\ 0 <= kr_flags slot < 256.
Proof using Type.
  clear Hc Hp Hs. unfold make_slot, slot_flags.
  destruct (r_container_only rule), (r_not_agent_self rule), selected_only, p, s; vm_compute;
    (split_and!; congruence).
Qed.

Lemma pattern_len bytes : pattern_ok bytes -> Z.min (len bytes) KPATH_LEN = len bytes.
Proof using Type. intros (_ & _ & H & _). lia. Qed.

Lemma slot_fields :
  kr_action slot = action_as_u8 (r_action rule) /\
  kr_comm_len slot = match c with Some b => len b | None => 0 end /\
  kr_comm slot = match c with Some b => padded COMM_LEN b | None => zeros COMM_LEN end /\
  kr_prefix_len slot = match p with Some b => len b | None => 0 end /\
  kr_prefix slot = match p with Some b => padded KPATH_LEN b | None => zeros KPATH_LEN end /\
  kr_suffix_len slot = match s with Some b => len b | None => 0 end /\
  kr_suffix slot = match s with Some b => padded KPATH_LEN b | None => zeros KPATH_LEN end.
Proof using Hc Hp Hs.
  assert (Htake : forall b : list Z, take (Z.to_nat (len b)) b = b)
    by (intros; apply take_ge; unfold len; lia).
  assert (Hmod : match c with Some b => len b mod U8 | None => 0 end =
                 match c with Some b => len b | None => 0 end).
  { destruct c as [b|]; [|done]. destruct Hc as (_ & H & _). pose proof (len_nonneg b).
    unfold COMM_LEN, U8 in *. apply Z.mod_small. lia. }
  unfold make_slot. destruct p as [pb|], s as [sb|]; simpl in *;
    rewrite ?pattern_len by done; rewrite ?Htake; done.
Qed.

Lemma padded_pattern b :
  pattern_ok b ->
  (len (padded KPATH_LEN b) = KPATH_LEN /\ bytes_ok (padded KPATH_LEN b)) /\
  take (Z.to_nat (len b)) (padded KPATH_LEN b) = b /\ (len b =? 0) = false /\
  0 <= len b <= KPATH_LEN.
Proof using Type.
  intros (Hne & _ & Hl & Hb). pose proof (len_nonneg b).
  split; [split; [by apply padded_len | by apply padded_ok]|].
  split; [apply padded_head; unfold len; lia|]. split; [|done].
  apply Z.eqb_neq. destruct b; [done|]. rewrite len_cons. pose proof (len_nonneg b). lia.
Qed.

Lemma zeros_pattern : len (zeros KPATH_LEN) = KPATH_LEN /\ bytes_ok (zeros KPATH_LEN).
Proof using Type. split; [done | apply zeros_ok]. Qed.

Lemma slot_ok : krule_ok slot.
Proof using Hc Hp Hs.
  destruct slot_fields as (Ea & Ecl & Ec & Epl & Ep & Esl & Es).
  constructor; unfold prefix_pattern; rewrite ?Ea, ?Ecl, ?Ec, ?Epl, ?Ep, ?Esl, ?Es.
  - by destruct (r_action rule).
  - apply make_slot_flags.
  - destruct c as [b|]; [|done]. destruct Hc as (_ & H & _). pose proof (len_nonneg b). lia.
  - destruct p as [b|]; [by apply padded_pattern | done].
  - destruct s as [b|]; [by apply padded_pattern | done].
  - destruct c as [b|]; [|split; [done | apply zeros_ok]]. destruct Hc as (_ & H & Hb).
    split; [apply padded_len; lia | by apply padded_ok].
  - destruct p as [b|]; [by apply padded_pattern | apply zeros_pattern].
  - destruct s as [b|]; [by apply padded_pattern | apply zeros_pattern].
  - destruct p as [b|]; [|constructor].
    destruct (padded_pattern b Hp) as (_ & -> & _). apply Hp.
Qed.
End slot.

(** The ring's path, re-read as the hook reads it. *)
Lemma from_bytes_fields path truncated :
  len path < PATH_LEN -> (len path = PATH_LEN - 1 -> truncated = true) ->
  let x := exec_path_from_bytes path truncated in
  exec_path x = path /\ ep_len x = len path /\ flag 0 (ep_flags x) = true /\
  flag 1 (ep_flags x) = truncated.
Proof.
  intros Hl Ht. cbv zeta. unfold exec_path, exec_path_from_bytes. simpl ep_len. simpl ep_bytes.
  simpl ep_flags. rewrite (proj2 (Z.ltb_ge (PATH_LEN - 1) (len path))) by lia.
  assert (take (Z.to_nat (len path)) path = path) as -> by (apply take_ge; unfold len; lia).
  rewrite padded_head by (unfold len; lia). split_and!; try done.
  - by destruct (truncated || _).
  - destruct truncated; [done|]. simpl orb. destruct (Z.leb_spec (PATH_LEN - 1) (len path)); [|done].
    discriminate (Ht ltac:(lia)).
Qed.

Lemma slot_decides rule so c p s comm ic self sel path truncated :
  opt_all comm_pattern_ok c -> opt_all pattern_ok p -> opt_all pattern_ok s ->
  opt_all nul_free c -> nul_free comm ->
  len path < PATH_LEN -> (len path = PATH_LEN - 1 -> truncated = true) ->
  slot_applies (make_slot (action_as_u8 (r_action rule)) (slot_flags rule so) c p s)
    (padded COMM_LEN comm) ic self sel (exec_path_from_bytes path truncated) =
  comm_hit comm c && head_hit path (truncated && is_empty path) p && tail_hit path truncated s
  && context_hit rule so ic self sel.
Proof.
  intros Hc Hp Hs Hcn Hcomm Hl Ht.
  destruct (from_bytes_fields path truncated Hl Ht) as (Ex & El & Ek & Et).
  destruct (slot_fields rule so c p s Hc Hp Hs) as (_ & Ecl & Ec & Epl & Ep & Esl & Es).
  destruct (make_slot_flags rule so c p s) as (E0 & E1 & E2 & E3 & E4 & E5 & _).
  unfold slot_applies, prefix_pattern, suffix_pattern.
  rewrite E0, E1, E2, E3, E4, E5, Ecl, Ec, Epl, Ep, Esl, Es, Ex, El, Ek, Et.
  assert ((len path =? 0) = is_empty path) as -> by (destruct path; [done|]; rewrite len_cons;
    pose proof (len_nonneg path); simpl; lia).
  rewrite orb_true_r, andb_true_r.
  assert (match c with Some b => len b | None => 0 end =? 0 = bool_decide (c = None)) as ->.
  { destruct c as [b|]; [|done]. destruct Hc as (Hne & _). destruct b; [done|]. rewrite len_cons.
    pose proof (len_nonneg b). simpl. lia. }
  assert (forall b, c = Some b -> bool_decide (padded COMM_LEN b = padded COMM_LEN comm) =
                                  bool_decide (b = comm)) as Hcb.
  { intros b ->. apply bool_decide_ext. split; [by apply padded_inj | by intros ->]. }
  unfold comm_hit, head_hit, tail_hit, context_hit. rewrite !andb_assoc.
  do 3 f_equal. simpl andb. f_equal; [f_equal|].
  - destruct c as [b|]; [|done]. simpl. by rewrite Hcb.
  - destruct p as [b|]; [|done]. simpl. destruct (padded_pattern b Hp) as (_ & -> & -> & _). done.
  - destruct s as [b|]; [|done]. simpl. destruct (padded_pattern b Hs) as (_ & -> & -> & _). done.
Qed.

(** ** What a rule's slots test together *)

Lemma existsb_flat_map {A B} (f : B -> bool) (g : A -> list B) l :
  existsb f (flat_map g l) = existsb (fun x => existsb f (g x)) l.
Proof. induction l as [|x l IH]; simpl; [done|]. by rewrite existsb_app, IH. Qed.

Lemma Forall_flat_map_all {A B} (P : B -> Prop) (g : A -> list B) l :
  (forall x, Forall P (g x)) -> Forall P (flat_map g l).
Proof. intros H. induction l as [|x l IH]; simpl; [constructor|]. apply Forall_app. auto. Qed.

Lemma existsb_map {A B} (f : B -> bool) (g : A -> B) l :
  existsb f (map g l) = existsb (fun x => f (g x)) l.
Proof. induction l as [|x l IH]; simpl; [done|]. by rewrite IH. Qed.

Lemma existsb_ext_Forall {A} (f g : A -> bool) l :
  Forall (fun x => f x = g x) l -> existsb f l = existsb g l.
Proof. induction 1 as [|x l Hx _ IH]; simpl; [done|]. by rewrite Hx, IH. Qed.

Lemma existsb_and_l {A} (f : A -> bool) (b : bool) l :
  existsb (fun x => f x && b) l = existsb f l && b.
Proof. induction l as [|x l IH]; simpl; [done|]. rewrite IH. by destruct (f x), b, (existsb f l). Qed.

Lemma existsb_and_r {A} (f : A -> bool) (b : bool) l :
  existsb (fun x => b && f x) l = b && existsb f l.
Proof. induction l as [|x l IH]; simpl; [by rewrite andb_false_r|]. rewrite IH. by destruct (f x), b, (existsb f l). Qed.

(** The record the tracepoint wrote and the exec the hook sees are one exec. *)
Record exec_view (e : SyscallEvent) (comm : list Z) (p : ExecPath) : Prop := {
  xv_syscall : se_syscall e ∈ EXEC_SYSCALLS;
  xv_comm : comm = padded COMM_LEN (as_bytes (se_comm e));
  xv_comm_ok : slen (se_comm e) < COMM_LEN /\ nul_free (as_bytes (se_comm e));
  xv_path : p = exec_path_from_bytes (as_bytes (se_path e)) (se_path_truncated e);
  xv_path_len : slen (se_path e) < PATH_LEN;
  xv_truncated : slen (se_path e) = PATH_LEN - 1 -> se_path_truncated e = true
}.

(** A rule as [rule_matches] decides it, as one conjunction. *)
Lemma matchb_conj e r :
  matchb e r =
  (is_empty (r_syscalls r) || existsb (fun s => str_eqb s (se_syscall e)) (r_syscalls r))
  && (is_empty (r_comm_in r) || existsb (fun c => str_eqb c (se_comm e)) (r_comm_in r))
  && (is_empty (r_path_prefix r) || prefix_hit r e || path_unreadable e)
  && (is_empty (r_path_suffix r) || suffix_hit r e || se_path_truncated e)
  && negb (r_not_agent_self r && se_agent_self e)
  && negb (r_container_only r && negb (se_in_container e)).
Proof.
  unfold matchb, rule_matches.
  destruct (is_empty (r_syscalls r)), (existsb _ (r_syscalls r)); simpl; try done;
  destruct (is_empty (r_comm_in r)), (existsb _ (r_comm_in r)); simpl; try done;
  destruct (is_empty (r_path_prefix r)), (prefix_hit r e), (path_unreadable e); simpl; try done;
  destruct (is_empty (r_path_suffix r)), (suffix_hit r e), (se_path_truncated e); simpl; try done;
  destruct (r_not_agent_self r && se_agent_self e); simpl; try done;
  by destruct (r_container_only r && negb (se_in_container e)).
Qed.

Lemma comms_hit comm_in cs e :
  slot_comms comm_in = Ok cs ->
  existsb (comm_hit (as_bytes (se_comm e))) cs =
  is_empty comm_in || existsb (fun c => str_eqb c (se_comm e)) comm_in.
Proof.
  intros [_ [[-> ->] | [Hne ->]]]%slot_comms_ok; [done|].
  rewrite existsb_map, (proj2 (is_empty_false _) Hne). simpl. apply existsb_ext_Forall, Forall_true.
  intros c. apply bool_decide_ext. split; [apply as_bytes_inj | by intros ->].
Qed.

Lemma str_pattern_nonempty s : pattern_ok (as_bytes s) -> str_empty s = false.
Proof. intros [H _]. by apply is_empty_false. Qed.

Lemma existsb_or_const {A} (f : A -> bool) b l :
  l <> [] -> existsb (fun x => f x || b) l = existsb f l || b.
Proof.
  intros Hne. destruct l as [|x l]; [done|]. clear Hne. simpl.
  induction l as [|y l IH]; simpl; [by rewrite !orb_false_r|].
  destruct (f x), (f y), b; simpl in *; try done; by rewrite ?orb_true_r.
Qed.

(** One pattern list, hit by some slot exactly when userspace has a hit. *)
Lemma patterns_hit patterns field ps (hit : list Z -> bool) b :
  path_patterns patterns field = Ok ps ->
  existsb (fun p => match p with Some bytes => hit bytes || b | None => true end) ps =
  is_empty patterns || existsb (fun p => negb (str_empty p) && hit (as_bytes p)) patterns || b.
Proof.
  intros [Hok [[-> ->] | [Hne ->]]]%path_patterns_ok; [done|].
  rewrite existsb_map, (proj2 (is_empty_false _) Hne). simpl.
  rewrite existsb_or_const by done. f_equal. apply existsb_ext_Forall.
  rewrite Forall_map in Hok. eapply Forall_impl; [exact Hok|].
  intros p Hp%str_pattern_nonempty. by rewrite Hp.
Qed.

Lemma kernel_slots_inv rule so layout slots :
  kernel_slots rule so layout = Ok slots ->
  (r_action rule = Deny \/ r_action rule = Kill) /\
  (r_syscalls rule = [] \/ names_exec rule = true) /\
  exists ps ss cs,
    path_patterns (r_path_prefix rule) "pathPrefix" = Ok ps /\
    path_patterns (r_path_suffix rule) "pathSuffix" = Ok ss /\
    slot_comms (r_comm_in rule) = Ok cs /\
    slots = flat_map (fun c => flat_map (fun p =>
      map (make_slot (action_as_u8 (r_action rule)) (slot_flags rule so) c p) ss) ps) cs.
Proof.
  unfold kernel_slots. intros H. inv_ok. split; [by destruct (r_action rule); auto|].
  split; [|naive_solver].
  destruct (r_syscalls rule); [by left|right]. by destruct (names_exec rule).
Qed.

Lemma existsb_factor {A B C} (f : A -> bool) (g : B -> bool) (h : C -> bool) (k : bool) ca cb cc :
  existsb (fun a => existsb (fun b => existsb (fun c => f a && g b && h c && k) cc) cb) ca =
  existsb f ca && existsb g cb && existsb h cc && k.
Proof.
  transitivity (existsb (fun a => f a && (existsb g cb && existsb h cc && k)) ca).
  { apply existsb_ext_Forall, Forall_true. intros a.
    transitivity (existsb (fun b => f a && g b && (existsb h cc && k)) cb).
    - apply existsb_ext_Forall, Forall_true. intros b.
      rewrite existsb_and_l, existsb_and_r, <- !andb_assoc. done.
    - rewrite existsb_and_l, existsb_and_r, <- !andb_assoc. done. }
  by rewrite existsb_and_l, <- !andb_assoc.
Qed.

(** The slots of one rule apply to an exec exactly when the rule matches
    its record, in a selected cgroup if the policy selects. *)
Lemma slots_agree rule so layout slots e comm p sel :
  kernel_slots rule so layout = Ok slots ->
  exec_view e comm p -> Forall (fun c => nul_free (as_bytes c)) (r_comm_in rule) ->
  (r_syscalls rule = [] \/ se_syscall e ∈ r_syscalls rule) ->
  existsb (fun s => slot_applies s comm (se_in_container e) (se_agent_self e) sel p) slots =
  matchb e rule && negb (so && negb sel).
Proof.
  intros (_ & _ & ps & ss & cs & Hps & Hss & Hcs & ->)%kernel_slots_inv [_ -> [Hcl Hcn] -> Hl Ht] Hnul Hsys.
  destruct (path_patterns_ok _ _ _ Hps) as [Hpok _], (path_patterns_ok _ _ _ Hss) as [Hsok _].
  destruct (slot_comms_ok _ _ Hcs) as [Hcok Hcshape].
  assert (Forall (opt_all nul_free) cs) as Hcnul.
  { destruct Hcshape as [[_ ->] | [_ ->]]; [by repeat constructor|]. by apply Forall_map. }
  transitivity (existsb (fun c => existsb (fun q => existsb (fun s =>
      comm_hit (as_bytes (se_comm e)) c && head_hit (as_bytes (se_path e)) (path_unreadable e) q
      && tail_hit (as_bytes (se_path e)) (se_path_truncated e) s
      && context_hit rule so (se_in_container e) (se_agent_self e) sel) ss) ps) cs).
  { rewrite existsb_flat_map. apply existsb_ext_Forall. rewrite Forall_forall in *. intros c Hc.
    rewrite existsb_flat_map. apply existsb_ext_Forall. rewrite Forall_forall. intros q Hq.
    rewrite existsb_map. apply existsb_ext_Forall. rewrite Forall_forall. intros s Hs.
    apply slot_decides; eauto. }
  rewrite existsb_factor. unfold head_hit, tail_hit.
  rewrite (patterns_hit _ _ _ (fun bytes => prefixb bytes (as_bytes (se_path e))) _ Hps).
  rewrite (patterns_hit _ _ _ (fun bytes => suffixb bytes (as_bytes (se_path e))) _ Hss).
  rewrite (comms_hit _ _ _ Hcs), matchb_conj.
  assert (is_empty (r_syscalls rule) || existsb (fun s => str_eqb s (se_syscall e)) (r_syscalls rule)
          = true) as ->.
  { destruct Hsys as [-> | Hin]; [done|]. apply orb_true_iff. right.
    apply existsb_exists. exists (se_syscall e). split; [by apply list_elem_of_In | apply str_eqb_refl]. }
  unfold context_hit, prefix_hit, suffix_hit, starts_with, ends_with. rewrite !andb_assoc. done.
Qed.

(** ** The whole set *)

Definition slots_of (so : bool) (layout : ExecPathLayout) (rule : Rule) : list KernelRule :=
  match kernel_slots rule so layout with Ok slots => slots | Err _ => [] end.
Definition excluded_of (so : bool) (layout : ExecPathLayout) (rule : Rule) : option Excluded :=
  match kernel_slots rule so layout with
  | Ok _ => None
  | Err reason => Some {| ex_rule := r_id rule; ex_reason := reason |}
  end.

Lemma compile_loop so layout rs :
  foldl (compile_step so layout) ([], []) rs =
  (flat_map (slots_of so layout) rs, omap (excluded_of so layout) rs).
Proof.
  induction rs as [|r rs IH] using rev_ind; [done|].
  rewrite foldl_app, IH, flat_map_app, omap_app. cbn [foldl flat_map]. unfold compile_step.
  cbn [fst snd]. unfold slots_of at 3, excluded_of at 3.
  destruct (kernel_slots r so layout) as [slots|reason] eqn:E; csimpl; unfold slots_of, excluded_of;
    rewrite E; csimpl; by rewrite ?app_nil_r.
Qed.

Lemma compile_accepted spec layout :
  krs_refused (compile_kernel_rules_for spec layout) = None ->
  let so := negb (selector_is_empty (selector spec)) in
  disabled spec = false /\ mode spec = MEnforce /\
  (default_action spec = Allow \/ default_action spec = Audit) /\
  krs_rules (compile_kernel_rules_for spec layout) = flat_map (slots_of so layout) (rules spec) /\
  krs_excluded (compile_kernel_rules_for spec layout) = omap (excluded_of so layout) (rules spec) /\
  len (krs_rules (compile_kernel_rules_for spec layout)) <= MAX_KERNEL_RULES.
Proof.
  unfold compile_kernel_rules_for. destruct (disabled spec); [done|].
  destruct (bool_decide_reflect (mode spec = MEnforce)); [|done]. simpl negb. cbv iota.
  destruct (negb _) eqn:Ed; [done|]. rewrite compile_loop.
  destruct (Z.ltb_spec MAX_KERNEL_RULES (len (flat_map
    (slots_of (negb (selector_is_empty (selector spec))) layout) (rules spec)))); [done|].
  intros _. simpl. split_and!; try done. destruct (default_action spec); auto; done.
Qed.

Lemma slots_of_ok so layout r : Forall krule_ok (slots_of so layout r).
Proof.
  unfold slots_of. destruct (kernel_slots r so layout) eqn:E; [|constructor].
  apply kernel_slots_inv in E as (_ & _ & ps & ss & cs & Hps & Hss & Hcs & ->).
  destruct (path_patterns_ok _ _ _ Hps) as [Hpok _], (path_patterns_ok _ _ _ Hss) as [Hsok _].
  destruct (slot_comms_ok _ _ Hcs) as [Hcok _].
  rewrite Forall_forall in Hcok. rewrite Forall_forall in Hpok. rewrite Forall_forall in Hsok.
  rewrite Forall_forall.
  intros s Hs%list_elem_of_In. apply in_flat_map in Hs as (c & Hc & Hs).
  apply in_flat_map in Hs as (p & Hp & Hs). apply in_map_iff in Hs as (x & <- & Hx).
  apply slot_ok; [apply Hcok | apply Hpok | apply Hsok]; by apply list_elem_of_In.
Qed.

Lemma slots_of_action so layout r :
  Forall (fun s => kr_action s = ACTION_DENY \/ kr_action s = ACTION_KILL) (slots_of so layout r).
Proof.
  unfold slots_of. destruct (kernel_slots r so layout) eqn:E; [|constructor].
  apply kernel_slots_inv in E as (Ha & _ & ps & ss & cs & Hps & Hss & Hcs & ->).
  rewrite Forall_forall. intros s Hs%list_elem_of_In. apply in_flat_map in Hs as (c & Hc & Hs).
  apply in_flat_map in Hs as (p & Hp & Hs). apply in_map_iff in Hs as (x & <- & Hx).
  unfold make_slot. destruct p, x; simpl; destruct Ha as [-> | ->]; auto.
Qed.

(** Among slots that all refuse, the strongest refuses when any applies. *)
Lemma strongest_refuses slots applies :
  Forall (fun s => kr_action s = ACTION_DENY \/ kr_action s = ACTION_KILL) slots ->
  action_refuses (strongest_slot slots applies) = existsb applies slots /\
  (strongest_slot slots applies = ACTION_ALLOW \/ strongest_slot slots applies = ACTION_DENY \/
   strongest_slot slots applies = ACTION_KILL).
Proof.
  unfold strongest_slot. induction slots as [|s slots IH] using rev_ind; intros H; [by auto|].
  apply Forall_app in H as [H [Hs _]%Forall_cons]. specialize (IH H) as [IHr IHv].
  rewrite foldl_app, existsb_app. simpl. rewrite <- IHr, orb_false_r. clear IHr.
  set (best := foldl _ _ slots) in *. clearbody best. unfold stronger_of.
  destruct (applies s), Hs as [-> | ->], IHv as [-> | [-> | ->]]; simpl; auto.
Qed.

Definition included (spec : EbpfSpec) (layout : ExecPathLayout) (r : Rule) : bool :=
  is_ok (kernel_slots r (negb (selector_is_empty (selector spec))) layout).

(** The kernel's answer to one exec, under a compiled set. *)
Definition kernel_refuses (spec : EbpfSpec) (layout : ExecPathLayout) (e : SyscallEvent)
    (comm : list Z) (p : ExecPath) (selected : bool) : option bool :=
  v ← kernel_verdict (krs_rules (compile_kernel_rules_for spec layout)) comm (se_in_container e)
        (se_agent_self e) selected p;
  Some (action_refuses v).

(** What the program must satisfy for the two matchers to be one: no name with a
    NUL, and a rule naming one exec syscall names the one that was called. *)
Record one_matcher (spec : EbpfSpec) (e : SyscallEvent) : Prop := {
  om_comm : Forall (fun r => Forall (fun c => nul_free (as_bytes c)) (r_comm_in r)) (rules spec);
  om_exec : Forall (fun r => names_exec r = true -> se_syscall e ∈ r_syscalls r) (rules spec)
}.

Lemma view_buffers e comm p : exec_view e comm p -> comm_buf_ok comm /\ exec_path_ok p.
Proof.
  intros [_ -> [Hl _] -> Hp _]. split.
  - split; [apply padded_len; unfold slen in *; lia | apply padded_ok, as_bytes_range].
  - apply from_bytes_ok; [done | apply as_bytes_range].
Qed.

Lemma kernel_refuses_exact spec layout e comm p selected :
  krs_refused (compile_kernel_rules_for spec layout) = None ->
  exec_view e comm p -> one_matcher spec e ->
  kernel_refuses spec layout e comm p selected =
  Some (existsb (fun r => included spec layout r && matchb e r) (rules spec)
        && (selector_is_empty (selector spec) || selected)).
Proof.
  intros (_ & _ & _ & Hrules & _ & _)%compile_accepted Hv [Hcomm Hexec].
  destruct (view_buffers _ _ _ Hv) as [Hcb Hpb]. unfold kernel_refuses. rewrite Hrules.
  set (so := negb (selector_is_empty (selector spec))).
  rewrite kernel_verdict_strongest by (try apply Forall_flat_map_all, slots_of_ok; done).
  cbn [mbind option_bind]. f_equal.
  rewrite (proj1 (strongest_refuses _ _
    (Forall_flat_map_all _ _ (rules spec) (slots_of_action so layout)))).
  rewrite existsb_flat_map, <- existsb_and_l. apply existsb_ext_Forall.
  rewrite Forall_forall in Hcomm. rewrite Forall_forall in Hexec. rewrite Forall_forall.
  intros r Hr. unfold slots_of, included. fold so.
  destruct (kernel_slots r so layout) as [slots|] eqn:E; [|done]. simpl.
  erewrite slots_agree; [| exact E | exact Hv | auto |].
  - f_equal. subst so. by destruct (selector_is_empty (selector spec)), selected.
  - apply kernel_slots_inv in E as (_ & [? | Hn] & _); [by left | right; auto].
Qed.

(** The deny and kill rules that match this record, all of them in the kernel set. *)
Definition fully_included (spec : EbpfSpec) (layout : ExecPathLayout) (e : SyscallEvent) : Prop :=
  Forall (fun r => matchb e r = true -> r_action r = Deny \/ r_action r = Kill ->
                   included spec layout r = true) (rules spec).

Lemma included_refuses spec layout r :
  included spec layout r = true -> r_action r = Deny \/ r_action r = Kill.
Proof.
  unfold included. destruct (kernel_slots _ _ _) eqn:E; [|done].
  by apply kernel_slots_inv in E as [Ha _].
Qed.

Lemma decide_enforced spec e id :
  disabled spec = false -> mode spec = MEnforce -> selector_match (selector spec) id <> NoMatch ->
  d_action (decide spec e id) = d_action (matched_action spec e).
Proof.
  intros Hd Hm Hs. unfold decide, decide_with, cap_for_mode, matched_action. rewrite Hd, Hm.
  by destruct (selector_match _ _).
Qed.

(** The kernel and userspace are one policy. On one exec, seen by the hook and
    by the ring record, with [selected] the resolved answer to the selector: the
    kernel refuses only what userspace decides deny or stronger; and it refuses
    everything userspace decides deny or kill, wherever the labels are observed and
    no matching rule is on the excluded list. *)
Lemma kernel_agrees_with_userspace spec layout e comm p id :
  krs_refused (compile_kernel_rules_for spec layout) = None ->
  exec_view e comm p -> one_matcher spec e ->
  let selected := selector_matches (selector spec) id in
  exists refuses, kernel_refuses spec layout e comm p selected = Some refuses /\
    (refuses = true -> rank Deny <= rank (d_action (decide spec e id))) /\
    (selector_match (selector spec) id <> LabelsUnknown -> fully_included spec layout e ->
     d_action (decide spec e id) = Deny \/ d_action (decide spec e id) = Kill -> refuses = true).
Proof.
  intros Haccepted Hview Hone. cbv zeta. rewrite kernel_refuses_exact by done.
  eexists. split; [done|]. apply compile_accepted in Haccepted as (Hd & Hm & Hdef & _).
  assert (Hsel : selector_is_empty (selector spec) || selector_matches (selector spec) id = true <->
                 selector_match (selector spec) id = Match_).
  { unfold selector_matches. rewrite orb_true_iff, bool_decide_eq_true. split; [|auto].
    intros [H|H]; [|done]. unfold selector_match. by rewrite H. }
  rewrite andb_true_iff, Hsel. split.
  - intros [(r & Hr & [Hi Hmb]%andb_true_iff)%existsb_exists Hsm].
    rewrite decide_enforced by (try rewrite Hsm; done). apply included_refuses in Hi.
    apply list_elem_of_In in Hr.
    destruct (matched_rank spec e false) as [[Hnone _] | [_ Hall]].
    + rewrite Forall_forall in Hnone. rewrite Hnone in Hmb; done.
    + rewrite Forall_forall in Hall. specialize (Hall r Hr Hmb). unfold matched_action.
      destruct Hi as [E|E]; rewrite E in Hall; simpl in *; lia.
  - intros Hlab Hincl Hact.
    assert (Hsm : selector_match (selector spec) id = Match_).
    { unfold decide, decide_with in Hact. destruct (selector_match _ _); [done | | done].
      simpl in Hact. by destruct Hact. }
    split; [|done]. rewrite decide_enforced in Hact by (try rewrite Hsm; done).
    destruct (matched_rank spec e false) as [[_ E] | [(r & Hr & Hmb & E) _]];
      unfold matched_action in Hact; rewrite E in Hact.
    + destruct Hdef as [E'|E'], Hact as [E2|E2]; congruence.
    + apply existsb_exists. exists r. split; [by apply list_elem_of_In|].
      unfold fully_included in Hincl. rewrite Forall_forall in Hincl.
      by rewrite (Hincl r Hr Hmb Hact), Hmb.
Qed.

(** no rule is dropped in silence. A policy is either refused whole, with a
    reason and no slot, or every one of its rules has at least one slot in the set
    or is on the excluded list with its reason; and the set fits the map. *)
Lemma no_rule_silently_dropped spec layout :
  let set := compile_kernel_rules_for spec layout in
  match krs_refused set with
  | Some _ => krs_rules set = []
  | None =>
      len (krs_rules set) <= MAX_KERNEL_RULES /\
      Forall (fun r =>
        (exists slots, kernel_slots r (krs_selected_only set) layout = Ok slots /\
           slots <> [] /\ slots ⊆ krs_rules set) \/
        (exists x, x ∈ krs_excluded set /\ ex_rule x = r_id r /\
           kernel_slots r (krs_selected_only set) layout = Err (ex_reason x))) (rules spec)
  end.
Proof.
  cbv zeta. destruct (krs_refused _) as [reason|] eqn:Hr.
  { unfold compile_kernel_rules_for in *. repeat (case_match; try done). }
  pose proof (compile_accepted _ _ Hr) as (_ & _ & _ & Hrules & Hexcl & Hlen). split; [done|].
  assert (krs_selected_only (compile_kernel_rules_for spec layout) =
          negb (selector_is_empty (selector spec))) as ->.
  { unfold compile_kernel_rules_for in *. repeat (case_match; try done). }
  rewrite Hrules, Hexcl. apply Forall_forall. intros r Hin.
  set (so := negb _). destruct (kernel_slots r so layout) as [slots|why] eqn:E.
  - left. exists slots. split; [done|]. split.
    + apply kernel_slots_inv in E as (_ & _ & ps & ss & cs & Hps & Hss & Hcs & ->).
      apply path_patterns_ok in Hps as [_ Hps], Hss as [_ Hss]. apply slot_comms_ok in Hcs as [_ Hcs].
      destruct cs, ps, ss; simpl; try done; exfalso;
        destruct Hps as [[? ?]|[Hn1 E1]], Hss as [[? ?]|[Hn2 E2]], Hcs as [[? ?]|[Hn3 E3]]; simplify_eq;
        repeat match goal with H : [] = map _ ?l |- _ => destruct l; done end.
    + intros s Hs. apply list_elem_of_In, in_flat_map. exists r. split; [by apply list_elem_of_In|].
      unfold slots_of. rewrite E. by apply list_elem_of_In.
  - right. exists {| ex_rule := r_id r; ex_reason := why |}. split_and!; try done.
    apply list_elem_of_omap. exists r. split; [done|]. unfold excluded_of. by rewrite E.
Qed.

(** ** Concrete execs *)

Definition exec_rule (syscalls comm_in suffix : list string) : Rule :=
  {| r_id := "no-nc"; r_syscalls := syscalls; r_action := Deny; r_comm_in := comm_in;
     r_container_only := true; r_path_prefix := []; r_path_suffix := suffix;
     r_not_agent_self := true |}.

Definition exec_spec (r : Rule) : EbpfSpec :=
  {| abi := AGENT_ABI; mode := MEnforce; disabled := false; priority := 0;
     default_action := Audit; selector := any_selector; rules := [r] |}.

Definition exec_event (syscall comm path : string) : SyscallEvent :=
  {| se_syscall := syscall; se_comm := comm; se_path := path; se_in_container := true;
     se_agent_self := false; se_path_truncated := false |}.

Definition hook_comm (comm : string) : list Z := padded COMM_LEN (as_bytes comm).
Definition hook_path (path : string) : ExecPath := exec_path_from_bytes (as_bytes path) false.

(** [bprm_check_security] does not know which syscall asked, so a rule naming only
    [execve] refuses an [execveat] in the kernel that userspace would only audit. *)
Lemma execve_only_rule_refuses_execveat :
  let spec := exec_spec (exec_rule ["execve"] ["sh"] []) in
  let e := exec_event "execveat" "sh" "/bin/nc" in
  kernel_refuses spec Known e (hook_comm "sh") (hook_path "/bin/nc") true = Some true /\
  d_action (decide spec e unknown_identity) = Audit.
Proof. split; vm_compute; reflexivity. Qed.

(** A [comm] pattern with a trailing NUL is not refused the way a path pattern is:
    the slot matches the name without it, userspace never does. *)
Lemma nul_comm_widens_in_kernel :
  let nul_sh := string_of_bytes [115; 104; 0] in
  let spec := exec_spec (exec_rule ["execve"; "execveat"] [nul_sh] []) in
  let e := exec_event "execve" "sh" "/bin/nc" in
  kernel_refuses spec Known e (hook_comm "sh") (hook_path "/bin/nc") true = Some true /\
  d_action (decide spec e unknown_identity) = Audit.
Proof. split; vm_compute; reflexivity. Qed.
