(* ===== verification/Event.v ===== *)
(** * ferrum-ebpf, event.rs: ring records

    The [Event] of ferrum-ebpf-progs as the tracepoint writes it, its wire layout
    (native endianness is little-endian on both supported architectures), and the
    view of it the evaluator decides on. *)

From S2P Require Import Prelude RustStd Ids Api Febp RuntimeEval Datapath KRules.

Definition EVENT_FLAG_CONTAINER : Z := 1.
Definition EVENT_FLAG_AGENT_SELF : Z := 2.
Definition EVENT_FLAG_PATH_TRUNCATED : Z := 4.
Definition DATAPATH_ABI : Z := 0xFE10.

Record Event : Type := {
  ev_cgroup_id : Z;
  ev_pid : Z;
  ev_tgid : Z;
  ev_syscall_nr : Z;
  ev_action : Z;
  ev_flags : Z;
  ev_pad : Z;
  ev_comm : list Z;
  ev_path : list Z
}.

Record EventMeta : Type := {
  em_cgroup_id : Z;
  em_pid : Z;
  em_tgid : Z;
  em_in_container : bool;
  em_agent_self : bool;
  em_path_truncated : bool
}.

Definition event_in_container (e : Event) : bool :=
  negb (Z.land (ev_flags e) EVENT_FLAG_CONTAINER =? 0).
Definition event_agent_self (e : Event) : bool :=
  negb (Z.land (ev_flags e) EVENT_FLAG_AGENT_SELF =? 0).
Definition event_flag_truncated (e : Event) : bool :=
  negb (Z.land (ev_flags e) EVENT_FLAG_PATH_TRUNCATED =? 0).

(** ** The wire *)

(** [size_of::<Event>()]. *)
Definition EVENT_WIRE_LEN : Z := 296.
Definition EVENT_FLAGS_OFFSET : Z := 21.

(** [bytes[a..b]], total because the length is checked first. *)
Definition slice (bytes : list Z) (a b : Z) : list Z :=
  take (Z.to_nat (b - a)) (drop (Z.to_nat a) bytes).

Definition encode_event (e : Event) : list Z :=
  le_bytes 8 (ev_cgroup_id e) ++ le_bytes 4 (ev_pid e) ++ le_bytes 4 (ev_tgid e)
  ++ le_bytes 4 (ev_syscall_nr e) ++ [ev_action e] ++ [ev_flags e] ++ le_bytes 2 (ev_pad e)
  ++ ev_comm e ++ ev_path e.

Definition decode_event (bytes : list Z) : Result Event :=
  _ ← refuse_if (negb (len bytes =? EVENT_WIRE_LEN))
        (Integrity [Lit "ring record must be "; Num EVENT_WIRE_LEN; Lit " bytes, got "; Num (len bytes)]);
  let abi := le_val (slice bytes 22 24) in
  _ ← refuse_if (negb (abi =? DATAPATH_ABI))
        (Integrity [Lit "ring record carries datapath ABI "; Num abi; Lit ", this agent decodes ";
           Num DATAPATH_ABI;
           Lit ": the attached eBPF ELF is not the build this agent was compiled against"]);
  Ok {| ev_cgroup_id := le_val (slice bytes 0 8);
        ev_pid := le_val (slice bytes 8 12);
        ev_tgid := le_val (slice bytes 12 16);
        ev_syscall_nr := le_val (slice bytes 16 20);
        ev_action := le_val (slice bytes 20 21);
        ev_flags := le_val (slice bytes EVENT_FLAGS_OFFSET 22);
        ev_pad := le_val (slice bytes 22 24);
        ev_comm := slice bytes 24 (24 + COMM_LEN);
        ev_path := slice bytes (24 + COMM_LEN) (24 + COMM_LEN + PATH_LEN) |}.

Definition abi_stamp_mismatch (bytes : list Z) : option Z :=
  if negb (len bytes =? EVENT_WIRE_LEN) then None else
  let abi := le_val (slice bytes 22 24) in
  if negb (abi =? DATAPATH_ABI) then Some abi else None.

(** ** The evaluator's view *)

Inductive SyscallArch : Type := X86_64 | Aarch64.

Definition arch_as_str (a : SyscallArch) : string :=
  match a with X86_64 => "x86_64" | Aarch64 => "aarch64" end.

Definition SYSCALL_UNKNOWN : string := "unknown".

Definition syscall_name (arch : SyscallArch) (nr : Z) : option string :=
  match arch with
  | X86_64 =>
      if nr =? 2 then Some "open" else if nr =? 59 then Some "execve"
      else if nr =? 175 then Some "init_module" else if nr =? 257 then Some "openat"
      else if nr =? 313 then Some "finit_module" else if nr =? 321 then Some "bpf"
      else if nr =? 322 then Some "execveat" else None
  | Aarch64 =>
      if nr =? 56 then Some "openat" else if nr =? 105 then Some "init_module"
      else if nr =? 221 then Some "execve" else if nr =? 273 then Some "finit_module"
      else if nr =? 280 then Some "bpf" else if nr =? 281 then Some "execveat" else None
  end.

(** [path_bytes] is [until_nul]. *)
Definition nul_trimmed_str (buf : list Z) : string :=
  let trimmed := until_nul buf in
  match from_utf8 trimmed with
  | Some s => s
  | None => default "" (from_utf8 (take (utf8_valid_up_to trimmed) trimmed))
  end.

Definition path_truncated (e : Event) : bool :=
  event_flag_truncated e || (PATH_LEN - 1 <=? len (until_nul (ev_path e))).

Definition syscall_event (e : Event) (arch : SyscallArch) : SyscallEvent :=
  {| se_syscall := default SYSCALL_UNKNOWN (syscall_name arch (ev_syscall_nr e));
     se_comm := nul_trimmed_str (ev_comm e); se_path := nul_trimmed_str (ev_path e);
     se_in_container := event_in_container e; se_agent_self := event_agent_self e;
     se_path_truncated := path_truncated e |}.

Definition event_meta (e : Event) : EventMeta :=
  {| em_cgroup_id := ev_cgroup_id e; em_pid := ev_pid e; em_tgid := ev_tgid e;
     em_in_container := event_in_container e; em_agent_self := event_agent_self e;
     em_path_truncated := path_truncated e |}.

(** ** The tracepoint (main.rs [emit])

    What the program reads: the context and helpers are the kernel's. [tp_path] is
    [None] for a syscall without a path argument; inside, [None] is a failed read. *)
Record Tracepoint : Type := {
  tp_syscall_nr : option Z;
  tp_pid_tgid : Z;
  tp_cgroup_id : Z;
  tp_comm : option (list Z);
  tp_in_cgroups : bool;
  tp_self_slot : option Z;
  tp_path : option (option (list Z))
}.

Record Ring : Type := {
  ring_records : list Event;
  ring_dropped : Z
}.

Definition tp_agent_self (tp : Tracepoint) : bool :=
  match tp_self_slot tp with
  | Some self_tgid => negb (self_tgid =? 0)
                      && (self_tgid =? Z.shiftr (tp_pid_tgid tp) 32 mod U32)
  | None => false
  end.

Definition emit_record (tp : Tracepoint) (nr : Z) : Event :=
  let fits := match tp_path tp with
              | None => true
              | Some (Some name) => len name <? PATH_LEN - 1
              | Some None => false
              end in
  {| ev_cgroup_id := tp_cgroup_id tp;
     ev_pid := tp_pid_tgid tp mod U32;
     ev_tgid := Z.shiftr (tp_pid_tgid tp) 32 mod U32;
     ev_syscall_nr := nr mod U32;
     ev_action := ACTION_AUDIT;
     ev_flags := Z.lor (Z.lor (if tp_in_cgroups tp then EVENT_FLAG_CONTAINER else 0)
                   (if tp_agent_self tp then EVENT_FLAG_AGENT_SELF else 0))
                   (if fits then 0 else EVENT_FLAG_PATH_TRUNCATED);
     ev_pad := DATAPATH_ABI;
     ev_comm := default (zeros COMM_LEN) (tp_comm tp);
     ev_path := match tp_path tp with
                | Some (Some name) => padded PATH_LEN name
                | _ => zeros PATH_LEN
                end |}.

(** [reserved]: whether [FERRUM_EVENTS.reserve] found room. *)
Definition emit (ring : Ring) (tp : Tracepoint) (reserved : bool) : Ring :=
  match tp_syscall_nr tp with
  | None => ring
  | Some nr =>
      if reserved then
        {| ring_records := ring_records ring ++ [emit_record tp nr];
           ring_dropped := ring_dropped ring |}
      else
        {| ring_records := ring_records ring; ring_dropped := (ring_dropped ring + 1) mod U64 |}
  end.

(** ** Round trip *)

Record event_ok (e : Event) : Prop := {
  vo_cgroup : 0 <= ev_cgroup_id e < U64;
  vo_pid : 0 <= ev_pid e < U32;
  vo_tgid : 0 <= ev_tgid e < U32;
  vo_nr : 0 <= ev_syscall_nr e < U32;
  vo_action : 0 <= ev_action e < U8;
  vo_flags : 0 <= ev_flags e < U8;
  vo_comm : comm_buf_ok (ev_comm e);
  vo_path : len (ev_path e) = PATH_LEN /\ bytes_ok (ev_path e)
}.

Lemma slice_skip x l a b :
  len x <= a -> slice (x ++ l) a b = slice l (a - len x) (b - len x).
Proof.
  intros H. unfold slice, len in *. rewrite drop_app_ge by lia. f_equal; [lia|]. f_equal. lia.
Qed.

Lemma slice_head x l a b : a = 0 -> b = len x -> slice (x ++ l) a b = x.
Proof.
  intros -> ->. unfold slice, len. simpl. rewrite Z.sub_0_r, Nat2Z.id. apply take_app_length.
Qed.

Lemma slice_all x a b : a = 0 -> b = len x -> slice x a b = x.
Proof. intros -> ->. rewrite <- (app_nil_r x) at 1. by apply slice_head. Qed.

Lemma slice_step bytes a b :
  0 <= a <= b -> drop (Z.to_nat a) bytes = slice bytes a b ++ drop (Z.to_nat b) bytes.
Proof.
  intros H. unfold slice. rewrite <- (take_drop (Z.to_nat (b - a)) (drop (Z.to_nat a) bytes)) at 1.
  f_equal. rewrite drop_drop. f_equal. lia.
Qed.

Lemma slice_len bytes a b : 0 <= a <= b -> b <= len bytes -> len (slice bytes a b) = b - a.
Proof. intros. unfold slice, len in *. rewrite length_take, length_drop. lia. Qed.

Lemma slice_ok bytes a b : bytes_ok bytes -> bytes_ok (slice bytes a b).
Proof. intros. by apply Forall_take, Forall_drop. Qed.

(** A little-endian field read back out of a record and written again. *)
Lemma field_bytes bytes a b n :
  bytes_ok bytes -> 0 <= a <= b -> b <= len bytes -> b - a = Z.of_nat n ->
  le_bytes n (le_val (slice bytes a b)) = slice bytes a b /\
  0 <= le_val (slice bytes a b) < 256 ^ Z.of_nat n.
Proof.
  intros Hb Ha Hl Hn. pose proof (slice_len bytes a b Ha Hl) as Hs.
  pose proof (slice_ok bytes a b Hb) as Ho. split.
  - assert (n = length (slice bytes a b)) as -> by (unfold len in Hs; lia). by apply le_bytes_val.
  - pose proof (le_val_range _ Ho) as H. rewrite Hs, Hn in H. exact H.
Qed.

Lemma field_val n z : 0 <= z < 256 ^ Z.of_nat n -> le_val (le_bytes n z) = z.
Proof. intros H. rewrite le_val_bytes. by apply Z.mod_small. Qed.

Lemma encode_len e : event_ok e -> len (encode_event e) = EVENT_WIRE_LEN.
Proof.
  intros [_ _ _ _ _ _ [Hc _] [Hp _]]. unfold encode_event. rewrite !len_app, Hc, Hp.
  unfold len. rewrite !length_le_bytes. done.
Qed.

Lemma encoded_fields e :
  event_ok e ->
  slice (encode_event e) 0 8 = le_bytes 8 (ev_cgroup_id e) /\
  slice (encode_event e) 8 12 = le_bytes 4 (ev_pid e) /\
  slice (encode_event e) 12 16 = le_bytes 4 (ev_tgid e) /\
  slice (encode_event e) 16 20 = le_bytes 4 (ev_syscall_nr e) /\
  slice (encode_event e) 20 21 = [ev_action e] /\
  slice (encode_event e) 21 22 = [ev_flags e] /\
  slice (encode_event e) 22 24 = le_bytes 2 (ev_pad e) /\
  slice (encode_event e) 24 40 = ev_comm e /\
  slice (encode_event e) 40 296 = ev_path e.
Proof.
  intros [_ _ _ _ _ _ [Hc _] [Hp _]]. unfold COMM_LEN, PATH_LEN in *. unfold encode_event.
  assert (Hl : forall n z, len (le_bytes n z) = Z.of_nat n)
    by (intros; unfold len; by rewrite length_le_bytes).
  pose proof (Hl 8%nat (ev_cgroup_id e)). pose proof (Hl 4%nat (ev_pid e)).
  pose proof (Hl 4%nat (ev_tgid e)). pose proof (Hl 4%nat (ev_syscall_nr e)).
  pose proof (Hl 2%nat (ev_pad e)).
  assert (len [ev_action e] = 1 /\ len [ev_flags e] = 1) as [??] by done.
  clear Hl. split_and!; repeat rewrite slice_skip by lia;
    (apply slice_head || apply slice_all); lia.
Qed.

Lemma byte_val z : le_val [z] = z.
Proof. simpl. lia. Qed.

Lemma decode_encoded_event e :
  event_ok e -> ev_pad e = DATAPATH_ABI -> decode_event (encode_event e) = Ok e.
Proof.
  intros Hok Hpad. destruct (encoded_fields e Hok) as (E1 & E2 & E3 & E4 & E5 & E6 & E7 & E8 & E9).
  unfold decode_event. rewrite (encode_len e Hok).
  change (24 + COMM_LEN + PATH_LEN) with 296. change (24 + COMM_LEN) with 40.
  change EVENT_FLAGS_OFFSET with 21. rewrite E1, E2, E3, E4, E5, E6, E7, E8, E9.
  destruct Hok as [Hcg Hpid Htg Hnr _ _ _ _].
  rewrite (field_val 8 (ev_cgroup_id e) Hcg), (field_val 4 (ev_pid e) Hpid),
    (field_val 4 (ev_tgid e) Htg), (field_val 4 (ev_syscall_nr e) Hnr).
  rewrite (byte_val (ev_action e)), (byte_val (ev_flags e)), Hpad.
  change (le_val (le_bytes 2 DATAPATH_ABI)) with DATAPATH_ABI.
  rewrite !Z.eqb_refl. cbn [negb refuse_if mbind result_mbind]. rewrite <- Hpad. by destruct e.
Qed.

Lemma decode_inv bytes e :
  bytes_ok bytes -> decode_event bytes = Ok e ->
  event_ok e /\ ev_pad e = DATAPATH_ABI /\ bytes = encode_event e.
Proof.
  intros Hb H. unfold decode_event in H.
  destruct (Z.eqb_spec (len bytes) EVENT_WIRE_LEN) as [Hlen|]; [|done].
  destruct (Z.eqb_spec (le_val (slice bytes 22 24)) DATAPATH_ABI) as [Habi|]; [|done].
  cbn [mbind result_mbind refuse_if negb] in H. injection H as H. subst e.
  unfold EVENT_WIRE_LEN in Hlen.
  assert (F : forall a b n, 0 <= a <= b -> b <= 296 -> b - a = Z.of_nat n ->
    le_bytes n (le_val (slice bytes a b)) = slice bytes a b /\
    0 <= le_val (slice bytes a b) < 256 ^ Z.of_nat n) by (intros; apply field_bytes; lia || done).
  assert (B : forall a b, 0 <= a <= b -> b <= 296 -> b - a = 1 ->
    [le_val (slice bytes a b)] = slice bytes a b).
  { intros a b Ha Hl Hn. pose proof (slice_len bytes a b Ha ltac:(lia)) as Hs. rewrite Hn in Hs.
    destruct (slice bytes a b) as [|x [|y l]]; [done | by rewrite byte_val |].
    rewrite !len_cons in Hs. pose proof (len_nonneg l). lia. }
  split; [|split; [done|]].
  - constructor; simpl; try (apply (F _ _ 8%nat) || apply (F _ _ 4%nat) || apply (F _ _ 1%nat); lia || done).
    + split; [rewrite slice_len by (unfold COMM_LEN in *; lia); done | by apply slice_ok].
    + split; [rewrite slice_len by (unfold PATH_LEN, COMM_LEN in *; lia); done | by apply slice_ok].
  - unfold encode_event.
    cbn [ev_cgroup_id ev_pid ev_tgid ev_syscall_nr ev_action ev_flags ev_pad ev_comm ev_path].
    change EVENT_FLAGS_OFFSET with 21. change (24 + COMM_LEN + PATH_LEN) with 296.
    change (24 + COMM_LEN) with 40.
    rewrite (proj1 (F 0 8 8%nat ltac:(lia) ltac:(lia) eq_refl)),
      (proj1 (F 8 12 4%nat ltac:(lia) ltac:(lia) eq_refl)),
      (proj1 (F 12 16 4%nat ltac:(lia) ltac:(lia) eq_refl)),
      (proj1 (F 16 20 4%nat ltac:(lia) ltac:(lia) eq_refl)),
      (proj1 (F 22 24 2%nat ltac:(lia) ltac:(lia) eq_refl)),
      (B 20 21 ltac:(lia) ltac:(lia) eq_refl), (B 21 22 ltac:(lia) ltac:(lia) eq_refl).
    change bytes with (drop (Z.to_nat 0) bytes) at 1.
    rewrite (slice_step bytes 0 8), (slice_step bytes 8 12), (slice_step bytes 12 16),
      (slice_step bytes 16 20), (slice_step bytes 20 21), (slice_step bytes 21 22),
      (slice_step bytes 22 24), (slice_step bytes 24 40), (slice_step bytes 40 296) by lia.
    rewrite (drop_ge bytes) by (unfold len in Hlen; lia). by rewrite app_nil_r.
Qed.

(** C39: the decoder accepts a record exactly when it is the wire image of a
    well-formed event carrying this build's stamp, and returns that event; so
    decoding loses nothing, and no partial or restamped record is half-parsed. *)
Theorem decode_event_exact bytes e (Hbytes : bytes_ok bytes) :
  decode_event bytes = Ok e <->
  event_ok e /\ ev_pad e = DATAPATH_ABI /\ bytes = encode_event e.
Proof.
  split; [by apply decode_inv|]. intros (Hok & Hpad & ->). by apply decode_encoded_event.
Qed.

(** Every refused record is accounted for: either it is not a whole record, or
    the stamp it carries is reported. *)
Lemma refused_record_explained bytes :
  is_ok (decode_event bytes) = false <->
  len bytes <> EVENT_WIRE_LEN \/ is_Some (abi_stamp_mismatch bytes).
Proof.
  unfold decode_event, abi_stamp_mismatch.
  destruct (Z.eqb_spec (len bytes) EVENT_WIRE_LEN) as [Hlen|Hlen]; [|split; [by left|done]].
  destruct (Z.eqb_spec (le_val (slice bytes 22 24)) DATAPATH_ABI); simpl.
  - split; [done|]. intros [|[x ?]]; done.
  - split; [right; by eexists | done].
Qed.

(** ** One exec, two views *)

Definition readable (name : list Z) : Prop :=
  nul_free name /\ bytes_ok name /\ utf8_ok name = true.

Lemma nul_trimmed_padded size name :
  readable name -> as_bytes (nul_trimmed_str (padded size name)) = name.
Proof.
  intros (Hn & Hb & Hu). unfold nul_trimmed_str. rewrite until_nul_padded by done.
  unfold from_utf8. rewrite Hu. by apply as_bytes_of_string.
Qed.

(** A tracepoint hit and a hook call for the same exec of the same task. *)
Record same_exec (arch : SyscallArch) (tp : Tracepoint) (nr : Z) (ctx : ExecContext) : Prop := {
  sx_nr : tp_syscall_nr tp = Some nr /\ 0 <= nr < U32;
  sx_exec : exists s, syscall_name arch nr = Some s /\ s ∈ EXEC_SYSCALLS;
  sx_comm : exists name, tp_comm tp = Some (padded COMM_LEN name) /\ xc_comm ctx = tp_comm tp /\
              len name < COMM_LEN /\ readable name;
  sx_path : tp_path tp = Some (xc_filename ctx);
  sx_read : match xc_filename ctx with Some name => len name < PATH_LEN /\ readable name | None => True end;
  sx_offset : xc_filename_offset ctx <> 0;
  sx_cgroups : xc_in_cgroups ctx = tp_in_cgroups tp;
  sx_self : xc_self_slot ctx = tp_self_slot tp;
  sx_tgid : xc_tgid ctx = Z.shiftr (tp_pid_tgid tp) 32 mod U32
}.

Lemma same_exec_ctx_ok arch tp nr ctx : same_exec arch tp nr ctx -> ctx_ok ctx.
Proof.
  intros [_ _ (name & Hn & Hc & Hl & _ & Hb & _) _ Hr _ _ _ _]. constructor.
  - rewrite Hc, Hn. split; [apply padded_len; lia | by apply padded_ok].
  - unfold read_ok. destruct (xc_filename ctx); [|done]. by destruct Hr as (? & _ & ? & _).
Qed.

Lemma emitted_flags tp nr :
  let e := emit_record tp nr in
  event_in_container e = tp_in_cgroups tp /\ event_agent_self e = tp_agent_self tp /\
  event_flag_truncated e = match tp_path tp with
                           | None => false
                           | Some (Some name) => negb (len name <? PATH_LEN - 1)
                           | Some None => true
                           end.
Proof.
  cbv zeta. unfold event_in_container, event_agent_self, event_flag_truncated, emit_record.
  cbn [ev_flags]. destruct (tp_in_cgroups tp), (tp_agent_self tp), (tp_path tp) as [[name|]|];
    try destruct (len name <? PATH_LEN - 1); done.
Qed.

Lemma one_exec_one_view arch tp nr ctx :
  same_exec arch tp nr ctx ->
  let e := syscall_event (emit_record tp nr) arch in
  exec_view e (ctx_comm ctx) (ctx_path ctx) /\
  se_in_container e = xc_in_cgroups ctx /\ se_agent_self e = ctx_agent_self ctx.
Proof.
  intros Hx. pose proof (same_exec_ctx_ok _ _ _ _ Hx) as [_ Hread].
  destruct Hx as [[Hnr Hrng] (s & Hs & Hse) (name & Hn & Hcm & Hl & Hrd) Hpath Hr Ho Hcg Hsl Htg].
  destruct (emitted_flags tp nr) as (Hf1 & Hf2 & Hf3). cbv zeta.
  split; [|split; [by rewrite Hcg | by unfold ctx_agent_self; rewrite Hsl, Htg]].
  set (full := match xc_filename ctx with Some p => p | None => [] end).
  assert (Hbuf : ev_path (emit_record tp nr) = padded PATH_LEN full)
    by (cbn [ev_path emit_record]; rewrite Hpath; unfold full; by destruct (xc_filename ctx)).
  assert (Hfull : len full < PATH_LEN /\ readable full).
  { unfold full. destruct (xc_filename ctx); [done|]. split; [done|].
    split_and!; [constructor | constructor | done]. }
  assert (Hcut : path_truncated (emit_record tp nr) =
                 match xc_filename ctx with Some p => PATH_LEN - 1 <=? len p | None => true end).
  { unfold path_truncated. rewrite Hf3, Hpath, Hbuf, until_nul_padded by apply Hfull.
    unfold full. destruct (xc_filename ctx); [|done].
    rewrite Z.ltb_antisym, negb_involutive. by rewrite orb_diag. }
  constructor; cbn [syscall_event se_syscall se_comm se_path se_path_truncated].
  - cbn [ev_syscall_nr emit_record]. rewrite Z.mod_small by done. by rewrite Hs.
  - unfold ctx_comm. rewrite Hcm, Hn. cbn [ev_comm emit_record]. rewrite Hn. simpl.
    by rewrite nul_trimmed_padded.
  - unfold slen. cbn [ev_comm emit_record]. rewrite Hn. simpl. rewrite nul_trimmed_padded by done.
    split; [done | apply Hrd].
  - unfold ctx_path. rewrite read_exec_path_view by done. rewrite Hbuf, nul_trimmed_padded by apply Hfull.
    rewrite Hcut. unfold full, exec_path_from_bytes. destruct (xc_filename ctx); [|done].
    f_equal. f_equal. simpl orb. by rewrite orb_diag.
  - unfold slen. rewrite Hbuf, nul_trimmed_padded; apply Hfull.
  - unfold slen. rewrite Hbuf, nul_trimmed_padded by apply Hfull. intros Hl255. rewrite Hcut.
    unfold full in Hl255. destruct (xc_filename ctx); [|done]. apply Z.leb_le. lia.
Qed.


(** ** Nothing is lost in silence *)

Definition run_hits (hits : list (Tracepoint * bool)) : Ring :=
  foldl (fun ring h => emit ring h.1 h.2) {| ring_records := []; ring_dropped := 0 |} hits.

Definition readable_hits (hits : list (Tracepoint * bool)) : list (Tracepoint * bool) :=
  List.filter (fun h => bool_decide (is_Some (tp_syscall_nr h.1))) hits.

(** Whatever the ring has room for, every tracepoint hit whose syscall number
    could be read is either a record or one count of [events_dropped_total], and
    the records keep the order of the hits that found room. *)
Lemma every_hit_recorded_or_counted hits :
  let ring := run_hits hits in
  let seen := readable_hits hits in
  ring_records ring = omap (fun h => if (h.2 : bool) then emit_record h.1 <$> tp_syscall_nr h.1 else None) hits /\
  ring_dropped ring = len (List.filter (fun h => negb h.2) seen) mod U64 /\
  (ring_dropped ring + len (ring_records ring)) mod U64 = len seen mod U64.
Proof.
  cbv zeta.
  assert (ring_records (run_hits hits) =
            omap (fun h => if (h.2 : bool) then emit_record h.1 <$> tp_syscall_nr h.1 else None) hits /\
          ring_dropped (run_hits hits) = len (List.filter (fun h => negb h.2) (readable_hits hits)) mod U64 /\
          len (ring_records (run_hits hits)) = len (List.filter (fun h => h.2) (readable_hits hits)))
    as (Hr & Hd & Hc).
  { unfold run_hits, readable_hits. induction hits as [|[tp room] hits IH] using rev_ind; [done|].
    destruct IH as (IHr & IHd & IHc).
    rewrite !foldl_app, !omap_app, !List.filter_app, !len_app. simpl.
    set (ring := foldl _ _ hits) in *. clearbody ring. unfold emit. simpl.
    destruct (tp_syscall_nr tp) as [nr|] eqn:E, room; csimpl; rewrite ?E; csimpl;
      rewrite ?app_nil_r, ?len_app, ?Z.add_0_r; try done.
    - by rewrite IHr, IHd, <- IHr, IHc.
    - rewrite IHd. split_and!; [done | | done]. by rewrite Zplus_mod_idemp_l. }
  split; [done|]. split; [done|]. rewrite Hd, Hc, Zplus_mod_idemp_l. f_equal.
  clear. unfold len. rewrite <- Nat2Z.inj_add. f_equal.
  induction (readable_hits hits) as [|[tp []] l IH]; simpl; lia.
Qed.

(** ** Concrete records *)

Definition example_event : Event :=
  {| ev_cgroup_id := 77; ev_pid := 11; ev_tgid := 10; ev_syscall_nr := 59; ev_action := ACTION_AUDIT;
     ev_flags := 1; ev_pad := DATAPATH_ABI; ev_comm := padded COMM_LEN (as_bytes "sh");
     ev_path := padded PATH_LEN (as_bytes "/bin/nc") |}.

Lemma decode_event_exact_witness :
  decode_event (encode_event example_event) = Ok example_event.
Proof.
  apply (decode_event_exact (encode_event example_event) example_event).
  - unfold bytes_ok. apply (bool_decide_unpack _). vm_compute. exact I.
  - split; [|split; reflexivity].
    constructor; unfold comm_buf_ok, bytes_ok; apply (bool_decide_unpack _); vm_compute; exact I.
Defined.

Definition example_tracepoint : Tracepoint :=
  {| tp_syscall_nr := Some 322; tp_pid_tgid := 42949672971; tp_cgroup_id := 77;
     tp_comm := Some (hook_comm "sh"); tp_in_cgroups := true; tp_self_slot := Some 9;
     tp_path := Some (Some (as_bytes "/bin/nc")) |}.

Definition example_hook : ExecContext :=
  {| xc_previous := 0; xc_comm := Some (hook_comm "sh"); xc_in_cgroups := true;
     xc_in_selected := true; xc_self_slot := Some 9; xc_tgid := 10; xc_filename_offset := 96;
     xc_filename := Some (as_bytes "/bin/nc") |}.

Definition example_spec : EbpfSpec :=
  exec_spec (exec_rule ["execve"; "execveat"] ["sh"] ["/nc"; "/ncat"]).


(** A byte that is not UTF-8 cuts the path the evaluator sees without marking it
    truncated: the rule the kernel refuses the exec by does not match the record. *)
Lemma non_utf8_path_evades_suffix :
  let path := as_bytes "/tmp/" ++ [255] ++ as_bytes "/nc" in
  let tp := {| tp_syscall_nr := Some 59; tp_pid_tgid := 42949672971; tp_cgroup_id := 77;
               tp_comm := Some (hook_comm "sh"); tp_in_cgroups := true; tp_self_slot := Some 9;
               tp_path := Some (Some path) |} in
  let ctx := {| xc_previous := 0; xc_comm := Some (hook_comm "sh"); xc_in_cgroups := true;
                xc_in_selected := true; xc_self_slot := Some 9; xc_tgid := 10;
                xc_filename_offset := 96; xc_filename := Some path |} in
  let e := syscall_event (emit_record tp 59) X86_64 in
  se_path e = "/tmp/" /\ se_path_truncated e = false /\
  d_action (decide example_spec e unknown_identity) = Audit /\
  ferrum_bprm_check_security (krs_rules (compile_kernel_rules_for example_spec Known)) ctx
    = Some (- EPERM).
Proof. vm_compute. split_and!; reflexivity. Qed.
