(* ===== verification/Prefilter.v ===== *)
(** * ferrum-ebpf, prefilter.rs: what the datapath could drop

    The image a program implies: a bit per hooked syscall and the two record flags
    every rule asks for. *)

From S2P Require Import Prelude RustStd Ids Api Febp RuntimeEval.

Definition PATH_BEARING_SYSCALLS : list string := ["execve"; "execveat"; "open"; "openat"].

Record PrefilterImage : Type := {
  pi_syscalls : Z;
  pi_container_only : bool;
  pi_drop_agent_self : bool
}.

Definition default_image : PrefilterImage :=
  {| pi_syscalls := 0; pi_container_only := false; pi_drop_agent_self := false |}.

(** [iter().position(|s| *s == name)]. *)
Fixpoint position (name : string) (l : list string) : option Z :=
  match l with
  | [] => None
  | s :: l' => if str_eqb s name then Some 0 else Z.succ <$> position name l'
  end.

Definition syscall_index (syscall : string) : option Z := position syscall DATAPATH_SYSCALLS.

Definition all_mask : Z :=
  foldl (fun m i => Z.lor m (Z.shiftl 1 i)) 0 (seqZ 0 (len DATAPATH_SYSCALLS)).

Definition observes (image : PrefilterImage) (syscall : string) : bool :=
  match syscall_index syscall with
  | Some i => negb (Z.land (pi_syscalls image) (Z.shiftl 1 i) =? 0)
  | None => false
  end.

Definition image_is_empty (image : PrefilterImage) : bool := pi_syscalls image =? 0.

Definition observed_syscalls (image : PrefilterImage) : list string :=
  map snd (List.filter (fun p => negb (Z.land (pi_syscalls image) (Z.shiftl 1 p.1) =? 0))
             (zip (seqZ 0 (len DATAPATH_SYSCALLS)) DATAPATH_SYSCALLS)).

Definition with_syscalls (image : PrefilterImage) (mask : Z) : PrefilterImage :=
  {| pi_syscalls := mask; pi_container_only := pi_container_only image;
     pi_drop_agent_self := pi_drop_agent_self image |}.

(** [set]. *)
Definition image_set (image : PrefilterImage) (syscall : string) : PrefilterImage :=
  match syscall_index syscall with
  | Some i => with_syscalls image (Z.lor (pi_syscalls image) (Z.shiftl 1 i))
  | None => image
  end.

(** [set_all]. *)
Definition image_set_all (image : PrefilterImage) : PrefilterImage := with_syscalls image all_mask.

Definition widen_for_rule (image : PrefilterImage) (rule : Rule) : PrefilterImage :=
  if negb (is_empty (r_syscalls rule)) then
    foldl (fun im syscall => image_set im (trim syscall)) image (r_syscalls rule)
  else
  if negb (is_empty (r_path_prefix rule)) || negb (is_empty (r_path_suffix rule)) then
    foldl image_set image PATH_BEARING_SYSCALLS
  else image_set_all image.

Definition is_allow (a : Action) : bool := match a with Allow => true | _ => false end.

Definition prefilter_image (spec : EbpfSpec) : PrefilterImage :=
  let image := default_image in
  let image := if negb (is_allow (default_action spec)) then image_set_all image else image in
  let image := foldl widen_for_rule image (rules spec) in
  {| pi_syscalls := pi_syscalls image;
     pi_container_only := negb (is_empty (rules spec)) && is_allow (default_action spec)
                          && forallb r_container_only (rules spec);
     pi_drop_agent_self := negb (is_empty (rules spec)) && is_allow (default_action spec)
                           && forallb r_not_agent_self (rules spec) |}.

(** ** Nothing the evaluator would act on is dropped *)

(** What a datapath installing the image would let through. *)
Definition passes (image : PrefilterImage) (event : SyscallEvent) : bool :=
  observes image (se_syscall event)
  && negb (pi_container_only image && negb (se_in_container event))
  && negb (pi_drop_agent_self image && se_agent_self event).

(** What [emit] guarantees of a record: a syscall without a path argument leaves the
    path empty and unflagged. *)
Definition path_contract (event : SyscallEvent) : Prop :=
  se_syscall event ∉ PATH_BEARING_SYSCALLS ->
  se_path event = "" /\ se_path_truncated event = false.

Lemma position_nonneg name l i : position name l = Some i -> 0 <= i.
Proof.
  revert i. induction l as [|s l IH]; intros i; simpl; [done|].
  case_match; [by intros [= <-]|]. intros (j & Hj%IH & ->)%fmap_Some. lia.
Qed.

Definition grows (a b : PrefilterImage) : Prop := forall s, observes a s = true -> observes b s = true.

#[global] Instance grows_preorder : PreOrder grows.
Proof. split; [by intros a s|]. intros a b c Hab Hbc s H. auto. Qed.

Lemma widened_observes m k b :
  negb (Z.land m b =? 0) = true -> negb (Z.land (Z.lor m k) b =? 0) = true.
Proof.
  rewrite !negb_true_iff, !Z.eqb_neq, Z.land_lor_distr_l, Z.lor_eq_0_iff. tauto.
Qed.

Lemma image_set_grows image s : grows image (image_set image s).
Proof.
  intros t. unfold image_set, observes. destruct (syscall_index s); [|done].
  destruct (syscall_index t); [|done]. apply widened_observes.
Qed.

Lemma image_set_hits image s : s ∈ DATAPATH_SYSCALLS -> observes (image_set image s) s = true.
Proof.
  intros Hs. unfold image_set, observes, syscall_index.
  destruct (position s DATAPATH_SYSCALLS) as [i|] eqn:E.
  - apply position_nonneg in E. cbn [pi_syscalls with_syscalls].
    rewrite Z.lor_comm. apply widened_observes. rewrite Z.land_diag, negb_true_iff.
    apply Z.eqb_neq. rewrite Z.shiftl_1_l. pose proof (Z.pow_pos_nonneg 2 i). lia.
  - exfalso. revert s Hs E.
    apply (proj1 (Forall_forall (fun s => position s DATAPATH_SYSCALLS = None -> False) _)).
    repeat (constructor; [discriminate|]). constructor.
Qed.

Lemma set_all_hits image s : s ∈ DATAPATH_SYSCALLS -> observes (image_set_all image) s = true.
Proof.
  revert s. apply (proj1 (Forall_forall (fun s => observes (image_set_all image) s = true) _)).
  repeat (constructor; [reflexivity|]). constructor.
Qed.

Lemma index_is_datapath s i : syscall_index s = Some i -> s ∈ DATAPATH_SYSCALLS.
Proof.
  unfold syscall_index. generalize DATAPATH_SYSCALLS as l. intros l. revert i.
  induction l as [|x l IH]; intros i; simpl; [done|].
  destruct (str_eqb x s) eqn:E; autorewrite with ferrum in E; [subst; set_solver|].
  intros (j & Hj & _)%fmap_Some. apply IH in Hj. set_solver.
Qed.

Lemma set_all_grows image : grows image (image_set_all image).
Proof.
  intros s H. apply set_all_hits. unfold observes in H.
  destruct (syscall_index s) eqn:E; [|done]. by apply index_is_datapath in E.
Qed.

(** A loop of steps that only widen keeps what it had, and what each step adds. *)
Lemma foldl_grows {A} (f : PrefilterImage -> A -> PrefilterImage) l image :
  (forall im x, grows im (f im x)) ->
  grows image (foldl f image l) /\
  forall x s, x ∈ l -> (forall im, observes (f im x) s = true) -> observes (foldl f image l) s = true.
Proof.
  intros Hf. revert image. induction l as [|y l IH]; intros image; simpl; [split; [done|set_solver]|].
  destruct (IH (f image y)) as [Hg Hin]. split; [intros s Hs; by apply Hg, Hf|].
  intros x s [->|Hx]%elem_of_cons Hs; [by apply Hg | by eapply Hin].
Qed.

Lemma widen_grows image rule : grows image (widen_for_rule image rule).
Proof.
  unfold widen_for_rule. repeat case_match; [| |apply set_all_grows].
  - apply foldl_grows. intros. apply image_set_grows.
  - apply foldl_grows. apply image_set_grows.
Qed.

(** A rule that matches a record has its syscall in the image. *)
Lemma matching_rule_observed image rule event :
  se_syscall event ∈ DATAPATH_SYSCALLS -> path_contract event -> trim (se_syscall event) = se_syscall event ->
  matchb event rule = true -> observes (widen_for_rule image rule) (se_syscall event) = true.
Proof.
  intros Hd Hp Htrim Hm. unfold matchb, rule_matches in Hm. unfold widen_for_rule.
  destruct (is_empty (r_syscalls rule)) eqn:Es; cbn [negb andb] in *.
  - destruct (negb (is_empty (r_path_prefix rule)) || _) eqn:Ep; [|by apply set_all_hits].
    destruct (base.decide (se_syscall event ∈ PATH_BEARING_SYSCALLS)) as [Hb|Hb].
    + eapply foldl_grows; [apply image_set_grows | exact Hb | intros; by apply image_set_hits].
    + exfalso. destruct (Hp Hb) as [Hpath Htr]. clear Hp.
      assert (forall p, negb (str_empty p) && starts_with "" p = false) as Hpre
        by (intros p; unfold starts_with, str_empty; by destruct (as_bytes p)).
      assert (forall p, negb (str_empty p) && ends_with "" p = false) as Hsuf.
      { intros p. unfold ends_with, suffixb, str_empty. destruct (as_bytes p) as [|x l]; [done|].
        simpl. destruct (rev l); done. }
      unfold prefix_hit, suffix_hit, path_unreadable in Hm. rewrite Hpath, Htr in Hm.
      rewrite (proj2 (existsb_false_Forall _ (r_path_prefix rule))) in Hm by (apply Forall_true; done).
      rewrite (proj2 (existsb_false_Forall _ (r_path_suffix rule))) in Hm by (apply Forall_true; done).
      destruct (negb (is_empty (r_comm_in rule)) && _); [done|]. simpl in Hm.
      rewrite !andb_true_r in Hm.
      destruct (negb (is_empty (r_path_prefix rule))); [done|]. simpl in Ep. by rewrite Ep in Hm.
  - destruct (existsb (fun s => str_eqb s (se_syscall event)) (r_syscalls rule)) eqn:Ee; [|done].
    apply existsb_exists in Ee as (s & Hs & ->%str_eqb_true). apply list_elem_of_In in Hs.
    eapply foldl_grows; [intros; apply image_set_grows | exact Hs |].
    intros im. rewrite Htrim. by apply image_set_hits.
Qed.

Lemma datapath_trimmed s : s ∈ DATAPATH_SYSCALLS -> trim s = s.
Proof.
  revert s. apply (proj1 (Forall_forall (fun s => trim s = s) _)).
  repeat (constructor; [reflexivity|]). constructor.
Qed.

(** dropping what the prefilter image does not ask for loses no decision: a
    hooked record the image would drop is one no rule matches and the default
    allows. *)
Lemma prefilter_drops_only_allowed spec event cu
    (Hsyscall : se_syscall event ∈ DATAPATH_SYSCALLS) (Hpath : path_contract event)
    (Hdropped : passes (prefilter_image spec) event = false) :
  let d := matched_action_with spec event cu in
  d_action d = Allow /\ d_rule_id d = None /\ d_path_unknown d = false.
Proof.
  cbv zeta. set (im0 := if negb (is_allow (default_action spec)) then image_set_all default_image
                        else default_image).
  assert (Hobs : observes (prefilter_image spec) (se_syscall event)
                 = observes (foldl widen_for_rule im0 (rules spec)) (se_syscall event)) by done.
  destruct (foldl_grows widen_for_rule (rules spec) im0 widen_grows) as [Hg Hin].
  assert (Hcase : default_action spec = Allow /\ Forall (fun r => matchb event r = false) (rules spec)).
  { unfold passes in Hdropped. rewrite !andb_false_iff, !negb_false_iff in Hdropped.
    destruct Hdropped as [[Hno | Hco] | Hself].
    - rewrite Hobs in Hno. split.
      + destruct (default_action spec) eqn:E; [done|..];
          (rewrite (Hg _ (set_all_hits default_image _ Hsyscall)) in Hno; done).
      + apply Forall_forall. intros r Hr. destruct (matchb event r) eqn:Em; [|done].
        rewrite (Hin r _ Hr) in Hno; [done|]. intros im.
        apply matching_rule_observed; auto using datapath_trimmed.
    - simpl in Hco. bool_hyps. split; [by destruct (default_action spec)|].
      match goal with H : forallb _ _ = true |- _ => apply forallb_true_Forall in H;
        eapply Forall_impl; [exact H|] end.
      intros r Hr. simpl in Hr. unfold matchb, rule_matches. rewrite Hr.
      match goal with H : se_in_container event = false |- _ => rewrite H end.
      repeat (case_match; try done).
    - simpl in Hself. bool_hyps. split; [by destruct (default_action spec)|].
      match goal with H : forallb _ _ = true |- _ => apply forallb_true_Forall in H;
        eapply Forall_impl; [exact H|] end.
      intros r Hr. simpl in Hr. unfold matchb, rule_matches. rewrite Hr.
      match goal with H : se_agent_self event = true |- _ => rewrite H end.
      repeat (case_match; try done). }
  destruct Hcase as [Hdef Hnone]. unfold matched_action_with.
  pose proof (match_step_best cu event (rules spec)) as Hbest.
  destruct (foldl (match_step cu event) _ _) as [[[[r pu] k]|] skipped]; simpl in *; [|done].
  destruct Hbest as [_ (Hr & Hm & _)%decides_max]. rewrite Forall_forall in Hnone.
  rewrite Hnone in Hm; done.
Qed.

Lemma prefilter_drops_only_allowed_witness :
  let spec := socket_spec MEnforce Deny Allow any_selector in
  let bpf := {| se_syscall := "bpf"; se_comm := "x"; se_path := ""; se_in_container := true;
                se_agent_self := false; se_path_truncated := false |} in
  passes (prefilter_image spec) bpf = false /\ d_action (matched_action_with spec bpf true) = Allow.
Proof.
  cbv zeta. split; [vm_compute; reflexivity|].
  apply (prefilter_drops_only_allowed (socket_spec MEnforce Deny Allow any_selector)).
  - apply (bool_decide_unpack _). vm_compute. exact I.
  - intros _. split; reflexivity.
  - vm_compute. reflexivity.
Defined.
