(* ===== verification/Loader.v ===== *)
(** * ferrum-ebpf, loader.rs and lib.rs: last-known-good and the hook table

    The loader as a state machine over whole bundles, and which tracepoints exist
    on which architecture. SHA-256 is a parameter. *)

From S2P Require Import Prelude RustStd Ids Api Encode Compiler Envelope Febp RuntimeEval Event.

Record LoadedBundle : Type := {
  lb_digest : string;
  lb_spec : EbpfSpec;
  lb_raw : list Z
}.

(** The [lkg_dir] is only remembered; [dropped] is an [AtomicU64]. *)
Record Loader : Type := {
  ld_last_good : option LoadedBundle;
  ld_lkg_dir : option string;
  ld_degraded : bool;
  ld_dropped : Z
}.

Definition loader_new : Loader :=
  {| ld_last_good := None; ld_lkg_dir := None; ld_degraded := true; ld_dropped := 0 |}.
Definition loader_with_lkg_dir (dir : string) : Loader :=
  {| ld_last_good := None; ld_lkg_dir := Some dir; ld_degraded := true; ld_dropped := 0 |}.

Definition loader_is_degraded (l : Loader) : bool :=
  ld_degraded l || match ld_last_good l with None => true | Some _ => false end.

Definition set_degraded (l : Loader) (b : bool) : Loader :=
  {| ld_last_good := ld_last_good l; ld_lkg_dir := ld_lkg_dir l; ld_degraded := b;
     ld_dropped := ld_dropped l |}.

Definition mark_degraded (l : Loader) : Loader := set_degraded l true.

Definition record_drop (l : Loader) (n : Z) : Loader :=
  {| ld_last_good := ld_last_good l; ld_lkg_dir := ld_lkg_dir l; ld_degraded := ld_degraded l;
     ld_dropped := (ld_dropped l + n) mod U64 |}.

Definition deny_all : Decision :=
  {| d_action := Deny; d_rule_id := None; d_labels_unknown := false; d_path_unknown := false;
     d_container_unknown := false |}.

Definition loader_matched_action (l : Loader) (event : SyscallEvent) : Decision :=
  match ld_last_good l with
  | Some loaded => matched_action (lb_spec loaded) event
  | None => deny_all
  end.

Definition loader_decide_with (l : Loader) (event : SyscallEvent) (identity : WorkloadIdentity)
    (container_unproven : bool) : Decision :=
  match ld_last_good l with
  | Some loaded => decide_with (lb_spec loaded) event identity container_unproven
  | None => deny_all
  end.

Section load.
Context (sha256 : list Z -> list Z).

Definition load_bundle_with (l : Loader) (digest : string) (bytes : list Z) (dead : DeadRules)
    : Result (list msg) * Loader :=
  match verify_bundle_digest sha256 bytes digest with
  | Err err => (Err err, set_degraded l true)
  | Ok _ =>
      match extract_febp bytes with
      | Err err => (Err err, set_degraded l true)
      | Ok febp =>
          match parse_febp_with febp dead with
          | Ok (parsed, dropped) =>
              (Ok dropped,
               {| ld_last_good := Some {| lb_digest := digest; lb_spec := parsed; lb_raw := bytes |};
                  ld_lkg_dir := ld_lkg_dir l; ld_degraded := false; ld_dropped := ld_dropped l |})
          | Err err => (Err err, set_degraded l true)
          end
      end
  end.

Definition load_bundle (l : Loader) (digest : string) (bytes : list Z) : Result unit * Loader :=
  let '(r, l') := load_bundle_with l digest bytes Reject in
  (match r with Ok _ => Ok tt | Err e => Err e end, l').

(** Everything that changes a loader. *)
Inductive lstep : Loader -> Loader -> Prop :=
| step_load l digest bytes dead r l' :
    load_bundle_with l digest bytes dead = (r, l') -> lstep l l'
| step_mark l : lstep l (mark_degraded l)
| step_drop l n : lstep l (record_drop l n).

Inductive reachable : Loader -> Prop :=
| reach_new : reachable loader_new
| reach_dir dir : reachable (loader_with_lkg_dir dir)
| reach_step l l' : reachable l -> lstep l l' -> reachable l'.

(** What the loader holds is a verified payload and the safe program in it. *)
Definition bundle_good (b : LoadedBundle) : Prop :=
  verify_bundle_digest sha256 (lb_raw b) (lb_digest b) = Ok tt /\
  exists febp dead dropped,
    extract_febp (lb_raw b) = Ok febp /\ parse_febp_with febp dead = Ok (lb_spec b, dropped).

Definition loader_ok (l : Loader) : Prop :=
  match ld_last_good l with
  | Some b => bundle_good b
  | None => loader_is_degraded l = true
  end.

Lemma load_cases l digest bytes dead r l' :
  load_bundle_with l digest bytes dead = (r, l') ->
  (exists e, r = Err e /\ l' = set_degraded l true) \/
  (exists dropped b, r = Ok dropped /\ ld_last_good l' = Some b /\ ld_degraded l' = false /\
     lb_digest b = digest /\ lb_raw b = bytes /\ bundle_good b).
Proof.
  unfold load_bundle_with.
  destruct (verify_bundle_digest sha256 bytes digest) as [[]|e] eqn:Hv; [|intros [= <- <-]; eauto].
  destruct (extract_febp bytes) as [febp|e] eqn:He; [|intros [= <- <-]; eauto].
  destruct (parse_febp_with febp dead) as [[spec dropped]|e] eqn:Hp; [|intros [= <- <-]; eauto].
  intros [= <- <-]. right. do 2 eexists. split_and!; try done. split; [done|].
  exists febp, dead, dropped. done.
Qed.

Lemma lstep_ok l l' : loader_ok l -> lstep l l' -> loader_ok l'.
Proof.
  intros Hok Hs. unfold loader_ok in *. destruct Hs as [l digest bytes dead r l' H | l | l n].
  - destruct (load_cases _ _ _ _ _ _ H) as [(e & _ & ->) | (dr & b & _ & -> & _ & _ & _ & Hb)];
      [|done]. revert Hok. simpl. by destruct (ld_last_good l).
  - revert Hok. simpl. by destruct (ld_last_good l).
  - revert Hok. unfold loader_is_degraded. simpl. by destruct (ld_last_good l).
Qed.

Lemma reachable_ok l : reachable l -> loader_ok l.
Proof. induction 1; [done | done | by eapply lstep_ok]. Qed.

(** whatever sequence of loads, refusals and drops a loader goes through, the
    program it decides by came out of a payload whose SHA-256 is the digest it is
    filed under and passed the loader's gates; while there is none it is degraded
    and denies. *)
Lemma loader_decides_by_verified_program l event identity cu (Hreach : reachable l) :
  match ld_last_good l with
  | Some b =>
      lb_digest b = bundle_digest sha256 (lb_raw b) /\
      (exists febp dead dropped, extract_febp (lb_raw b) = Ok febp /\
         parse_febp_with febp dead = Ok (lb_spec b, dropped)) /\
      no_kill_all (lb_spec b) /\
      loader_decide_with l event identity cu = decide_with (lb_spec b) event identity cu
  | None =>
      loader_is_degraded l = true /\ d_action (loader_decide_with l event identity cu) = Deny
  end.
Proof.
  apply reachable_ok in Hreach. unfold loader_ok, loader_decide_with in *.
  destruct (ld_last_good l) as [b|]; [|done]. destruct Hreach as [Hv (febp & dead & dropped & He & Hp)].
  split_and!; [| eauto 10 | | done].
  - unfold verify_bundle_digest in Hv. apply bind_ok_unit in Hv as [_ H%refuse_if_ok].
    apply negb_false_iff, str_eqb_true in H. done.
  - apply parse_febp_with_inv in Hp as (raw & _ & Hk & -> & _ & _). destruct Hk as [Hd Hk].
    split; [done|]. simpl. apply Forall_forall. intros r [Hr _]%list_elem_of_In%filter_In.
    rewrite Forall_forall in Hk. apply Hk. by apply list_elem_of_In.
Qed.

End load.

(** ** Which hooks exist (lib.rs) *)

Definition TRACEPOINTS : list (string * string * string) :=
  [ ("ferrum_sys_enter_execve", "syscalls", "sys_enter_execve");
    ("ferrum_sys_enter_execveat", "syscalls", "sys_enter_execveat");
    ("ferrum_sys_enter_open", "syscalls", "sys_enter_open");
    ("ferrum_sys_enter_openat", "syscalls", "sys_enter_openat");
    ("ferrum_sys_enter_bpf", "syscalls", "sys_enter_bpf");
    ("ferrum_sys_enter_init_module", "syscalls", "sys_enter_init_module");
    ("ferrum_sys_enter_finit_module", "syscalls", "sys_enter_finit_module") ].

(** [name.strip_prefix("sys_enter_")]. *)
Definition tracepoint_syscall (tp : string * string * string) : option string :=
  let name := as_bytes tp.2 in
  let prefix := as_bytes "sys_enter_" in
  if prefixb prefix name then Some (string_of_bytes (drop (length prefix) name)) else None.

Definition tracepoints_for_arch (arch : SyscallArch) : list (string * string * string) :=
  let observable := datapath_syscalls_for_arch (arch_as_str arch) in
  List.filter (fun tp => match tracepoint_syscall tp with
                         | Some syscall => list_contains observable syscall
                         | None => true
                         end) TRACEPOINTS.

Definition tracepoints_absent_on_arch (arch : SyscallArch) : list string :=
  let observable := datapath_syscalls_for_arch (arch_as_str arch) in
  List.filter (fun syscall => negb (list_contains observable syscall))
    (omap tracepoint_syscall TRACEPOINTS).

(** On each architecture the hooks attached are exactly the syscalls the decoder
    has a number for, and the skipped ones are the rest of the hooked set. *)
Lemma hooked_syscalls_are_decoded arch s :
  ((exists nr, syscall_name arch nr = Some s) <->
   s ∈ omap tracepoint_syscall (tracepoints_for_arch arch)) /\
  (s ∈ tracepoints_absent_on_arch arch <->
   s ∈ DATAPATH_SYSCALLS /\ ~ exists nr, syscall_name arch nr = Some s).
Proof.
  assert (Hnames : forall names,
    (forall nr x, syscall_name arch nr = Some x -> x ∈ names) ->
    Forall (fun x => exists nr, syscall_name arch nr = Some x) names ->
    ((exists nr, syscall_name arch nr = Some s) <-> s ∈ names)).
  { intros names H1 H2. rewrite Forall_forall in H2. naive_solver. }
  destruct arch.
  - assert ((exists nr, syscall_name X86_64 nr = Some s) <->
            s ∈ ["execve"; "execveat"; "open"; "openat"; "bpf"; "init_module"; "finit_module"]) as Hs.
    { apply Hnames.
      - intros nr x. unfold syscall_name. repeat case_match; intros [= <-]; set_solver.
      - repeat constructor; [exists 59 | exists 322 | exists 2 | exists 257 | exists 321 | exists 175
          | exists 313]; done. }
    rewrite Hs. split; [by vm_compute|].
    change (tracepoints_absent_on_arch X86_64) with (@nil string). unfold DATAPATH_SYSCALLS. set_solver.
  - assert ((exists nr, syscall_name Aarch64 nr = Some s) <->
            s ∈ ["execve"; "execveat"; "openat"; "bpf"; "init_module"; "finit_module"]) as Hs.
    { apply Hnames.
      - intros nr x. unfold syscall_name. repeat case_match; intros [= <-]; set_solver.
      - repeat constructor; [exists 221 | exists 281 | exists 56 | exists 280 | exists 105
          | exists 273]; done. }
    rewrite Hs. split; [by vm_compute|].
    change (tracepoints_absent_on_arch Aarch64) with ["open"]. unfold DATAPATH_SYSCALLS. split.
    + intros ->%list_elem_of_singleton. set_solver.
    + set_solver.
Qed.

(** ** A loader that survives a bad bundle *)

Definition example_material : list Z :=
  match encode_ebpf (effects_of_cluster example_policy) with Ok bs => bs | Err _ => [] end.

Definition example_loader : Loader :=
  (load_bundle_with toy_sha256 loader_new (bundle_digest toy_sha256 example_material)
     example_material Reject).2.

Lemma loader_decides_witness :
  match ld_last_good example_loader with
  | Some b => no_kill_all (lb_spec b)
  | None => False
  end.
Proof.
  assert (Hr : reachable toy_sha256 example_loader).
  { eapply reach_step; [apply reach_new|]. unfold example_loader.
    eapply (step_load _ _ (bundle_digest toy_sha256 example_material) example_material Reject).
    apply surjective_pairing. }
  pose proof (loader_decides_by_verified_program toy_sha256 example_loader
    (open_event "/run/docker.sock" false) unknown_identity false Hr) as H.
  destruct (ld_last_good example_loader) as [b|] eqn:E; [exact (proj1 (proj2 (proj2 H)))|].
  vm_compute in E. discriminate E.
Defined.
