(* ===== verification/Program.v ===== *)
(** * ferrum-admission, program.rs: the FADM program

    The webhook's parser of what the compiler encodes, into ferrum-api's types. *)

From S2P Require Import Prelude RustStd Ids Api Policy Wire Encode.

Module Admission.

Definition fadm_texts : ReaderTexts :=
  {| t_truncated := "truncated admission program"; t_magic := "unexpected admission program magic";
     t_non_utf8 := "non-utf8 string in admission program";
     t_trailing := "trailing bytes in admission program; extra supply data is not ignored" |}.

Record AdmissionProgram : Type := {
  ap_abi : Z;
  ap_mode : PolicyMode;
  ap_disabled : bool;
  ap_priority : Z;
  ap_supply : SupplySpec;
  ap_admit : AdmitSpec;
  ap_selector : PolicySelector
}.

Definition effective_failure_policy (program : AdmissionProgram) (namespaced : bool) : FailurePolicy :=
  if namespaced then Fail_ else as_failure_policy (ap_admit program).

Definition mode_from_u8 (v : Z) : Result PolicyMode :=
  if v =? 0 then Ok Observe else if v =? 1 then Ok Audit else if v =? 2 then Ok Enforce
  else Err (Compile [Lit "unknown policy mode "; Num v]).

Definition failure_policy_from_u8 (v : Z) : Result FailurePolicy :=
  if v =? 0 then Ok Fail_ else if v =? 1 then Ok Ignore_
  else Err (Compile [Lit "unknown failurePolicy "; Num v]).

Definition pss_from_u8 (v : Z) : Result PssProfile :=
  if v =? 0 then Ok Privileged else if v =? 1 then Ok Baseline else if v =? 2 then Ok Restricted
  else if v =? 3 then Ok Custom else Err (Compile [Lit "unknown pss "; Num v]).

Definition decode_trust_root : rd TrustRoot :=
  name ← rd_str fadm_texts;
  issuers ← rd_str_list fadm_texts;
  keys ← rd_str_list fadm_texts;
  mret {| tr_name := name; tr_keyless_issuer_allow := issuers; tr_public_keys := keys |}.

Definition decode_supply : rd SupplySpec :=
  require_signed ← rd_bool fadm_texts;
  deny_unsigned ← rd_bool fadm_texts;
  deny_latest_tag ← rd_bool fadm_texts;
  trust_roots ← rd_list fadm_texts decode_trust_root;
  mret {| ss_require_signed := require_signed; ss_deny_unsigned := deny_unsigned;
          ss_deny_latest_tag := deny_latest_tag; ss_trust_roots := trust_roots |}.

Definition decode_deny : rd AdmitDeny :=
  privileged ← rd_bool fadm_texts;
  host_pid ← rd_bool fadm_texts;
  host_ipc ← rd_bool fadm_texts;
  host_network ← rd_bool fadm_texts;
  host_path ← rd_bool fadm_texts;
  escalation ← rd_bool fadm_texts;
  run_as_root ← rd_bool fadm_texts;
  wildcards ← rd_bool fadm_texts;
  bind ← rd_bool fadm_texts;
  caps ← rd_str_list fadm_texts;
  mret {| ad_privileged := privileged; ad_host_pid := host_pid; ad_host_ipc := host_ipc;
          ad_host_network := host_network; ad_host_path := host_path;
          ad_allow_privilege_escalation := escalation; ad_run_as_root := run_as_root;
          ad_wildcards_rbac := wildcards; ad_cluster_admin_bind := bind;
          ad_added_capabilities := caps |}.

Definition decode_mutate : rd AdmitMutate :=
  seccomp ← rd_bool fadm_texts;
  drop_caps ← rd_bool fadm_texts;
  read_only ← rd_bool fadm_texts;
  mret {| am_inject_seccomp_runtime_default := seccomp; am_drop_all_capabilities := drop_caps;
          am_read_only_root_filesystem := read_only |}.

Definition decode_entry : rd (string * string) :=
  k ← rd_str fadm_texts; v ← rd_str fadm_texts; mret (k, v).

Definition decode_requirement : rd LabelSelectorRequirement :=
  key ← rd_str fadm_texts;
  operator ← rd_str fadm_texts;
  values ← rd_str_list fadm_texts;
  mret {| lsr_key := key; lsr_operator := operator; lsr_values := values |}.

Definition decode_label_selector : rd LabelSelector :=
  labels ← rd_list fadm_texts decode_entry;
  exprs ← rd_list fadm_texts decode_requirement;
  mret {| ls_match_labels := insert_all labels; ls_match_expressions := exprs |}.

Definition decode_selector : rd PolicySelector :=
  cluster ← decode_label_selector;
  namespace ← decode_label_selector;
  workload ← decode_label_selector;
  service_account ← decode_label_selector;
  registries ← rd_str_list fadm_texts;
  digest ← rd_bool fadm_texts;
  mret {| ps_cluster_selector := cluster; ps_namespace_selector := namespace;
          ps_workload_selector := workload; ps_service_account_selector := service_account;
          ps_image := {| is_registries_allow := registries; is_require_digest := digest |} |}.

Definition decode_program : rd AdmissionProgram :=
  _ ← rd_expect_magic fadm_texts ADMISSION_MAGIC;
  abi ← rd_u32 fadm_texts;
  _ ← rd_try (refuse_if (negb (abi =? ADMISSION_ABI))
        (Compile [Lit "unknown admission ABI "; Num abi; Lit ", want "; Num ADMISSION_ABI]));
  mode ← (v ← rd_u8 fadm_texts; rd_try (mode_from_u8 v));
  disabled ← rd_bool fadm_texts;
  priority ← rd_i32 fadm_texts;
  failure_policy ← (v ← rd_u8 fadm_texts; rd_try (failure_policy_from_u8 v));
  pss ← (v ← rd_u8 fadm_texts; rd_try (pss_from_u8 v));
  supply ← decode_supply;
  deny ← decode_deny;
  mutate ← decode_mutate;
  selector ← decode_selector;
  mret {| ap_abi := abi; ap_mode := mode; ap_disabled := disabled; ap_priority := priority;
          ap_supply := supply;
          ap_admit := {| as_failure_policy := failure_policy; as_pss := pss; as_deny := deny;
                         as_mutate := mutate |};
          ap_selector := selector |}.

Definition parse_program (bytes : list Z) : Result AdmissionProgram :=
  _ ← refuse_if (is_empty bytes)
        (Integrity [Lit "admission program is empty; missing bundle is not fail-open"]);
  run_reader (x ← decode_program; _ ← rd_finish fadm_texts; mret x) bytes.

(** ** Round trip *)

Definition compiled_program (fx : Effects) : AdmissionProgram :=
  {| ap_abi := ADMISSION_ABI; ap_mode := fx_mode fx; ap_disabled := fx_disabled fx;
     ap_priority := fx_priority fx; ap_supply := fx_supply fx; ap_admit := fx_admit fx;
     ap_selector := fx_selector fx |}.

#[global] Instance fadm_trust_root :
  Codec fadm_texts encode_trust_root decode_trust_root trust_root_ok id.
Proof.
  intros t (Hn & Hi & Hk). codec_field ltac:(by apply agrees_str).
  codec_field ltac:(by apply agrees_str_list).
  eapply agrees_map; [by apply agrees_str_list|]. destruct t. apply reads_ret.
Qed.

#[global] Instance fadm_supply :
  Codec fadm_texts encode_supply decode_supply (fun s => Forall trust_root_ok (ss_trust_roots s)) id.
Proof.
  intros s Hs. unfold encode_supply, decode_supply. do 3 codec_field ltac:(apply agrees_bool).
  eapply agrees_map;
    [by apply (codec_list fadm_texts encode_trust_root decode_trust_root trust_root_ok id)|].
  rewrite map_id. destruct s. apply reads_ret.
Qed.

#[global] Instance fadm_deny :
  Codec fadm_texts encode_deny decode_deny (fun d => strs_ok (ad_added_capabilities d)) id.
Proof.
  intros d Hd. unfold encode_deny, decode_deny. do 9 codec_field ltac:(apply agrees_bool).
  eapply agrees_map; [by apply agrees_str_list|]. destruct d. apply reads_ret.
Qed.

#[global] Instance fadm_mutate :
  Codec fadm_texts encode_mutate decode_mutate (fun _ => True) id.
Proof.
  intros m _. unfold encode_mutate, decode_mutate. do 2 codec_field ltac:(apply agrees_bool).
  eapply agrees_map; [apply agrees_bool|]. destruct m. apply reads_ret.
Qed.

#[global] Instance fadm_entry :
  Codec fadm_texts encode_entry decode_entry (fun kv => str_ok kv.1 /\ str_ok kv.2) id.
Proof.
  intros [k v] [Hk Hv]. codec_field ltac:(by apply agrees_str).
  eapply agrees_map; [by apply agrees_str | apply reads_ret].
Qed.

#[global] Instance fadm_requirement :
  Codec fadm_texts encode_requirement decode_requirement requirement_ok id.
Proof.
  intros e (Hk & Ho & Hv). do 2 codec_field ltac:(by apply agrees_str).
  eapply agrees_map; [by apply agrees_str_list|]. destruct e. apply reads_ret.
Qed.

#[global] Instance fadm_label_selector :
  Codec fadm_texts encode_label_selector decode_label_selector label_selector_ok id.
Proof.
  intros s [Hl He]. unfold encode_label_selector, decode_label_selector.
  codec_field ltac:(apply (codec_list fadm_texts encode_entry decode_entry
                             (fun kv => str_ok kv.1 /\ str_ok kv.2) id)).
  - by rewrite btree_iter_len.
  - apply Forall_forall. intros [k v] Hin%btree_iter_elem. by apply Hl in Hin.
  - eapply agrees_map;
      [by apply (codec_list fadm_texts encode_requirement decode_requirement requirement_ok id)|].
    rewrite !map_id, insert_all_iter. destruct s. apply reads_ret.
Qed.

#[global] Instance fadm_selector :
  Codec fadm_texts encode_selector decode_selector selector_ok id.
Proof.
  intros s (Hc & Hn & Hw & Hs & Hr). unfold encode_selector, decode_selector.
  do 4 codec_field ltac:(by apply (codec (A := LabelSelector))).
  codec_field ltac:(by apply agrees_str_list).
  eapply agrees_map; [apply agrees_bool|]. destruct s as [? ? ? ? []]. apply reads_ret.
Qed.

Lemma fadm_mode_tag m : mode_from_u8 (mode_to_u8 m) = Ok m.
Proof. by destruct m. Qed.
Lemma failure_policy_tag p : failure_policy_from_u8 (failure_policy_to_u8 p) = Ok p.
Proof. by destruct p. Qed.
Lemma pss_tag p : pss_from_u8 (pss_to_u8 p) = Ok p.
Proof. by destruct p. Qed.

(** The webhook reads back exactly the policy the compiler encoded: mode, priority,
    trust roots, deny list, mutations and selectors, nothing dropped and nothing
    defaulted. *)
Lemma fadm_roundtrip fx bytes
    (Htypes : effects_ok fx) (Hencode : encode_admission fx = Ok bytes)
    (Halloc : len bytes <= ISIZE_MAX) :
  parse_program bytes = Ok (compiled_program fx).
Proof.
  destruct Htypes as (Hp & Hsel & Htr & Hcap & _). unfold parse_program.
  assert (is_empty bytes = false) as ->.
  { apply is_empty_false. intros ->. unfold encode_admission, run_writer in Hencode.
    match type of Hencode with _ <$> ?m = _ => destruct m as [[[] w]|] eqn:E end; [|done].
    injection Hencode as ->.
    apply wr_starts in E as [rest E]; [done|].
    solve_appends. }
  cbn [refuse_if mbind result_mbind].
  eapply decode_run; [|exact Hencode|exact Halloc]. unfold decode_program.
  codec_field ltac:(by apply agrees_magic). codec_field ltac:(by apply agrees_u32).
  apply agrees_check; [done|]. codec_field ltac:(apply agrees_tag, fadm_mode_tag).
  codec_field ltac:(apply agrees_bool). codec_field ltac:(by apply agrees_i32).
  codec_field ltac:(apply agrees_tag, failure_policy_tag).
  codec_field ltac:(apply agrees_tag, pss_tag).
  codec_field ltac:(by apply codec). codec_field ltac:(by apply codec).
  codec_field ltac:(by apply codec).
  eapply agrees_map; [by apply codec|]. unfold compiled_program.
  destruct (fx_admit fx). apply reads_ret.
Qed.

End Admission.
