(* ===== verification/Admit.v ===== *)
(** * ferrum-admission, eval.rs: deciding one admission request

    A simplified workload or RBAC object against one parsed program. *)

From S2P Require Import Prelude RustStd Ids Api Policy Encode Program.
Export Admission.

Definition RULE_PRIVILEGED : string := "privileged".
Definition RULE_HOST_PID : string := "hostPID".
Definition RULE_HOST_IPC : string := "hostIPC".
Definition RULE_HOST_NETWORK : string := "hostNetwork".
Definition RULE_HOST_PATH : string := "hostPath".
Definition RULE_ALLOW_PRIVILEGE_ESCALATION : string := "allowPrivilegeEscalation".
Definition RULE_RUN_AS_ROOT : string := "runAsRoot".
Definition RULE_WILDCARDS_RBAC : string := "wildcardsRbac".
Definition RULE_CLUSTER_ADMIN_BIND : string := "clusterAdminBind".
Definition RULE_ADDED_CAPABILITIES : string := "addedCapabilities".
Definition RULE_UNSIGNED : string := "unsigned".
Definition RULE_LATEST_TAG : string := "latestTag".
Definition RULE_REQUIRE_DIGEST : string := "requireDigest".
Definition RULE_REGISTRY_ALLOW : string := "registryAllow".

Definition PSS_RESTRICTED_ALLOWED_CAP : string := "NET_BIND_SERVICE".
Definition CLUSTER_SCOPED_KINDS : list string := ["ClusterRole"; "ClusterRoleBinding"].
Definition PSS_BASELINE_ALLOWED_CAPS : list string :=
  [ "AUDIT_WRITE"; "CHOWN"; "DAC_OVERRIDE"; "FOWNER"; "FSETID"; "KILL"; "MKNOD"; "NET_BIND_SERVICE";
    "SETFCAP"; "SETGID"; "SETPCAP"; "SETUID"; "SYS_CHROOT" ].

Definition cluster_scoped_kind (kind : string) : bool := list_contains CLUSTER_SCOPED_KINDS kind.

Record AdmissionSubject : Type := {
  su_policy_name : string;
  su_policy_namespace : string;
  su_namespace : string;
  su_cluster_labels : option (gmap string string);
  su_namespace_labels : option (gmap string string);
  su_workload_labels : gmap string string;
  su_service_account : string;
  su_service_account_labels : option (gmap string string);
  su_image : string;
  su_image_signed : bool;
  su_privileged : bool;
  su_host_pid : bool;
  su_host_ipc : bool;
  su_host_network : bool;
  su_host_path : bool;
  su_allow_privilege_escalation : bool;
  su_run_as_root : bool;
  su_added_capabilities : list string;
  su_wildcard_rbac : bool;
  su_cluster_admin_bind : bool;
  su_kind : string
}.

Inductive Patch : Type :=
| InjectSeccompRuntimeDefault
| DropAllCapabilities
| ReadOnlyRootFilesystem.

Record AdmissionDecision : Type := {
  dec_allowed : bool;
  dec_fail_closed : bool;
  dec_mode : PolicyMode;
  dec_failure_policy : FailurePolicy;
  dec_reasons : list msg;
  dec_rule_ids : list string;
  dec_patches : list Patch
}.

(** [AdmissionDecision::fail_closed]. *)
Definition fail_closed (err : FerrumError) : AdmissionDecision :=
  {| dec_allowed := false; dec_fail_closed := true; dec_mode := Enforce; dec_failure_policy := Fail_;
     dec_reasons := [error_to_string err]; dec_rule_ids := []; dec_patches := [] |}.

Record PendingHit : Type := {
  ph_rule : string;
  ph_reason : msg
}.

(** ** Selectors *)

Definition selector_nonempty (selector : LabelSelector) : bool :=
  negb (map_empty (ls_match_labels selector)) || negb (is_empty (ls_match_expressions selector)).

Definition require_labels_if_selected (selector : LabelSelector)
    (labels : option (gmap string string)) (what : string) : Result unit :=
  refuse_if (selector_nonempty selector && match labels with None => true | Some _ => false end)
    (Integrity [Str what; Lit " selector is set but "; Str what;
                Lit " labels were never observed; fail closed"]).

Definition match_expression (key operator : string) (values : list string)
    (labels : gmap string string) : Result bool :=
  if str_eqb operator "In" then
    Ok (match labels !! key with
        | Some v => existsb (fun want => str_eqb want v) values
        | None => false
        end)
  else if str_eqb operator "NotIn" then
    Ok (match labels !! key with
        | Some v => forallb (fun want => negb (str_eqb want v)) values
        | None => true
        end)
  else if str_eqb operator "Exists" then Ok (bool_decide (is_Some (labels !! key)))
  else if str_eqb operator "DoesNotExist" then Ok (negb (bool_decide (is_Some (labels !! key))))
  else Err (Compile [Lit "unknown label selector operator "; Str operator]).

(** The loop over [match_expressions]: an earlier miss hides a later bad operator. *)
Fixpoint match_expressions_all (exprs : list LabelSelectorRequirement)
    (labels : gmap string string) : Result bool :=
  match exprs with
  | [] => Ok true
  | expr :: exprs' =>
      ok ← match_expression (lsr_key expr) (lsr_operator expr) (lsr_values expr) labels;
      if (ok : bool) then match_expressions_all exprs' labels else Ok false
  end.

Definition label_selector_matches (selector : LabelSelector) (labels : gmap string string)
    : Result bool :=
  if existsb (fun kv => negb (bool_decide (labels !! kv.1 = Some kv.2)))
       (btree_iter (ls_match_labels selector))
  then Ok false
  else match_expressions_all (ls_match_expressions selector) labels.

(** [a? && b?]: the second operand runs only when the first is true. *)
Definition and_then (a b : Result bool) : Result bool :=
  x ← a; if (x : bool) then b else Ok false.

Definition program_applies (program : AdmissionProgram) (subject : AdmissionSubject) : Result bool :=
  if negb (str_empty (su_policy_namespace subject))
     && negb (str_eqb (su_namespace subject) (su_policy_namespace subject))
  then Ok false else
  let cluster_scoped := cluster_scoped_kind (su_kind subject) in
  let selector := ap_selector program in
  _ ← require_labels_if_selected (ps_cluster_selector selector) (su_cluster_labels subject) "cluster";
  _ ← (if negb cluster_scoped then
         _ ← require_labels_if_selected (ps_namespace_selector selector)
               (su_namespace_labels subject) "namespace";
         require_labels_if_selected (ps_service_account_selector selector)
           (su_service_account_labels subject) "serviceAccount"
       else Ok tt);
  and_then (label_selector_matches (ps_cluster_selector selector)
              (default ∅ (su_cluster_labels subject)))
  (and_then (if cluster_scoped then Ok true else
             label_selector_matches (ps_namespace_selector selector)
               (default ∅ (su_namespace_labels subject)))
  (and_then (label_selector_matches (ps_workload_selector selector) (su_workload_labels subject))
   (if cluster_scoped then Ok true else
    label_selector_matches (ps_service_account_selector selector)
      (default ∅ (su_service_account_labels subject))))).

(** ** Images *)

Record ImageRef : Type := {
  ir_registry : list Z;
  ir_tag : option (list Z);
  ir_digest : option (list Z)
}.

Definition AT : Z := 64.
Definition SLASH : Z := 47.
Definition COLON : Z := 58.
Definition DOT : Z := 46.

Definition parse_image_bytes (image : list Z) : ImageRef :=
  let '(without_digest, digest) :=
    match split_once AT image with
    | Some (left_, right_) => if negb (is_empty right_) then (left_, Some right_) else (image, None)
    | None => (image, None)
    end in
  let '(registry, remainder) :=
    match split_once SLASH without_digest with
    | None => (as_bytes "docker.io", without_digest)
    | Some (first, rest) =>
        if bool_decide (first = as_bytes "localhost") || has_byte DOT first || has_byte COLON first
        then (first, rest)
        else (as_bytes "docker.io", without_digest)
    end in
  let tag :=
    match rsplit_once COLON remainder with
    | Some (repo, t) =>
        if negb (is_empty repo) && negb (is_empty t) && negb (has_byte SLASH t) then Some t else None
    | None => None
    end in
  {| ir_registry := registry; ir_tag := tag; ir_digest := digest |}.

Definition parse_image (image : string) : ImageRef := parse_image_bytes (as_bytes image).

Definition image_is_latest (image : string) : bool :=
  let parsed := parse_image image in
  match ir_tag parsed with
  | Some t => bool_decide (t = as_bytes "latest")
  | None => match ir_digest parsed with None => true | Some _ => false end
  end.

(** ** Hits *)

Definition has_verifying_public_keys (supply : SupplySpec) : bool :=
  existsb (fun root => existsb (fun key => negb (str_empty (trim key))) (tr_public_keys root))
    (ss_trust_roots supply).

Definition pss_forbids_added_capability (pss : PssProfile) (cap : string) : bool :=
  match pss with
  | Restricted => negb (str_eqb cap PSS_RESTRICTED_ALLOWED_CAP)
  | Baseline => negb (list_contains PSS_BASELINE_ALLOWED_CAPS cap)
  | Privileged | Custom => false
  end.

(** [if cond { add(rule, reason) }]. *)
Definition add_if (cond : bool) (rule : string) (reason : msg) : list PendingHit :=
  if cond then [{| ph_rule := rule; ph_reason := reason |}] else [].

Definition collect_hits (program : AdmissionProgram) (subject : AdmissionSubject) : list PendingHit :=
  let kind := su_kind subject in
  let check_workload := str_empty kind || str_eqb kind "Pod" in
  let check_role := str_empty kind || str_eqb kind "Role" || str_eqb kind "ClusterRole" in
  let check_bind := str_empty kind || str_eqb kind "RoleBinding" || str_eqb kind "ClusterRoleBinding" in
  let supply := ap_supply program in
  let deny := as_deny (ap_admit program) in
  let pss := as_pss (ap_admit program) in
  let baseline := match pss with Baseline | Restricted => true | _ => false end in
  let restricted := match pss with Restricted => true | _ => false end in
  let image_sel := ps_image (ap_selector program) in
  let registry := ir_registry (parse_image (su_image subject)) in
  let matched := List.filter (fun cap =>
      pss_forbids_added_capability pss cap
      || existsb (fun d => str_eqb d cap) (ad_added_capabilities deny)) (su_added_capabilities subject) in
  (if check_workload && (ss_deny_unsigned supply || ss_require_signed supply) then
     if is_empty (ss_trust_roots supply) then
       add_if true RULE_UNSIGNED [Lit "unsigned image: no trust roots in bundle"]
     else if negb (has_verifying_public_keys supply) then
       add_if true RULE_UNSIGNED [Lit "unsigned image: no public keys in bundle"]
     else add_if (negb (su_image_signed subject)) RULE_UNSIGNED [Lit "unsigned image"]
   else [])
  ++ (if check_workload then
        add_if (ss_deny_latest_tag supply && image_is_latest (su_image subject))
          RULE_LATEST_TAG [Lit "image tag latest"]
        ++ add_if (is_require_digest image_sel
                   && match ir_digest (parse_image (su_image subject)) with None => true | _ => false end)
             RULE_REQUIRE_DIGEST [Lit "image digest required"]
        ++ add_if (negb (is_empty (is_registries_allow image_sel))
                   && negb (existsb (fun allow => bool_decide (as_bytes allow = registry))
                              (is_registries_allow image_sel)))
             RULE_REGISTRY_ALLOW
             [Lit "image registry "; Str (string_of_bytes registry); Lit " is not in registriesAllow"]
        ++ add_if ((ad_privileged deny || baseline) && su_privileged subject)
             RULE_PRIVILEGED [Lit "privileged container"]
        ++ add_if ((ad_host_pid deny || baseline) && su_host_pid subject) RULE_HOST_PID [Lit "hostPID"]
        ++ add_if ((ad_host_ipc deny || baseline) && su_host_ipc subject) RULE_HOST_IPC [Lit "hostIPC"]
        ++ add_if ((ad_host_network deny || baseline) && su_host_network subject)
             RULE_HOST_NETWORK [Lit "hostNetwork"]
        ++ add_if ((ad_host_path deny || baseline) && su_host_path subject)
             RULE_HOST_PATH [Lit "hostPath"]
        ++ add_if ((ad_allow_privilege_escalation deny || restricted)
                   && su_allow_privilege_escalation subject)
             RULE_ALLOW_PRIVILEGE_ESCALATION [Lit "allowPrivilegeEscalation"]
        ++ add_if ((ad_run_as_root deny || restricted) && su_run_as_root subject)
             RULE_RUN_AS_ROOT [Lit "runAsRoot"]
        ++ add_if (negb (is_empty matched)) RULE_ADDED_CAPABILITIES
             [Lit "added capabilities denied: "; Str (String.concat "," matched)]
      else [])
  ++ add_if (check_role && ad_wildcards_rbac deny && su_wildcard_rbac subject)
       RULE_WILDCARDS_RBAC [Lit "wildcard RBAC"]
  ++ add_if (check_bind && ad_cluster_admin_bind deny && su_cluster_admin_bind subject)
       RULE_CLUSTER_ADMIN_BIND [Lit "cluster-admin bind"].

Definition mutations (program : AdmissionProgram) : list Patch :=
  let pss_mutate := bool_decide (ap_mode program = Enforce)
                    && bool_decide (as_pss (ap_admit program) = Restricted) in
  let mutate := as_mutate (ap_admit program) in
  (if am_inject_seccomp_runtime_default mutate || pss_mutate then [InjectSeccompRuntimeDefault] else [])
  ++ (if am_drop_all_capabilities mutate || pss_mutate then [DropAllCapabilities] else [])
  ++ (if am_read_only_root_filesystem mutate || pss_mutate then [ReadOnlyRootFilesystem] else []).

(** ** The decision *)

Definition hit_namespace (subject : AdmissionSubject) : string :=
  if str_empty (su_policy_namespace subject) then "" else su_policy_namespace subject.

Definition pass_through (program : AdmissionProgram) (failure_policy : FailurePolicy)
    : AdmissionDecision :=
  {| dec_allowed := true; dec_fail_closed := false; dec_mode := ap_mode program;
     dec_failure_policy := failure_policy; dec_reasons := []; dec_rule_ids := []; dec_patches := [] |}.

Definition admit_request (program : AdmissionProgram) (subject : AdmissionSubject)
    (exceptions : list PolicyExceptionSpec) (now : Z) : AdmissionDecision :=
  let namespaced := negb (str_empty (su_policy_namespace subject)) in
  let failure_policy := effective_failure_policy program namespaced in
  if ap_disabled program && bool_decide (ap_mode program = Enforce) then
    fail_closed (Validation [Lit "disabled=true with mode=enforce"]) else
  match program_applies program subject with
  | Err err => fail_closed err
  | Ok false => pass_through program failure_policy
  | Ok true =>
      if ap_disabled program then pass_through program failure_policy else
      let pending := collect_hits program subject in
      let hit_ns := hit_namespace subject in
      let hits := map (fun h => {| rh_namespace := hit_ns; rh_policy := su_policy_name subject;
                                   rh_rule := ph_rule h; rh_action := RDeny |}) pending in
      let blocked := match evaluate hits RAllow exceptions now with
                     | RDeny | RKill | RIsolate => true
                     | _ => false
                     end in
      let remaining := List.filter (fun h => negb (existsb (fun spec =>
          exception_applies spec hit_ns (su_policy_name subject) (ph_rule h) now) exceptions)) pending in
      {| dec_allowed := if blocked then negb (bool_decide (ap_mode program = Enforce)) else true;
         dec_fail_closed := false; dec_mode := ap_mode program; dec_failure_policy := failure_policy;
         dec_reasons := map ph_reason remaining; dec_rule_ids := map ph_rule remaining;
         dec_patches := mutations program |}
  end.

(** [admit_bytes] of lib.rs. *)
Definition admit_bytes (fadm : list Z) (subject : AdmissionSubject)
    (exceptions : list PolicyExceptionSpec) (now : Z) : AdmissionDecision :=
  match parse_program fadm with
  | Ok program => admit_request program subject exceptions now
  | Err err => fail_closed err
  end.

(** ** What a denial means *)

Definition waived (subject : AdmissionSubject) (exceptions : list PolicyExceptionSpec) (now : Z)
    (h : PendingHit) : bool :=
  existsb (fun spec => exception_applies spec (hit_namespace subject) (su_policy_name subject)
             (ph_rule h) now) exceptions.

(** Deny hits alone evaluate to deny exactly when one of them is left. *)
Lemma deny_hits_block ns policy pending exceptions now :
  let hits := map (fun h => {| rh_namespace := ns; rh_policy := policy; rh_rule := ph_rule h;
                               rh_action := RDeny |}) pending in
  let left_ := List.filter (fun h => negb (existsb (fun spec =>
                 exception_applies spec ns policy (ph_rule h) now) exceptions)) pending in
  evaluate hits RAllow exceptions now = if is_empty left_ then RAllow else RDeny.
Proof.
  cbv zeta. unfold evaluate.
  set (left_ := List.filter (fun h => negb _) pending).
  assert (List.filter (fun hit => negb (exception_applies_to exceptions hit now))
     (map (fun h => {| rh_namespace := ns; rh_policy := policy; rh_rule := ph_rule h;
                       rh_action := RDeny |}) pending) =
     map (fun h => {| rh_namespace := ns; rh_policy := policy; rh_rule := ph_rule h;
                      rh_action := RDeny |}) left_) as ->.
  { subst left_. induction pending as [|h pending IH]; [done|]. simpl.
    unfold exception_applies_to at 1. simpl. destruct (existsb _ exceptions); simpl; by rewrite IH. }
  rewrite map_map. simpl.
  pose proof (max_by_key_spec action_rank (map (fun _ : PendingHit => RDeny) left_)) as H.
  destruct (max_by_key _ _) as [a|], left_ as [|h left_]; try done.
  - destruct H as [H _]. by apply not_elem_of_nil in H.
  - destruct H as [(? & -> & _)%list_elem_of_fmap _]. done.
Qed.

Lemma filter_nonempty {A} (f : A -> bool) l :
  is_empty (List.filter f l) = false <-> exists x, x ∈ l /\ f x = true.
Proof.
  rewrite is_empty_false. split.
  - intros H. destruct (List.filter f l) as [|x k] eqn:E; [done|].
    assert (In x (List.filter f l)) as [Hx Hf]%filter_In by (rewrite E; by left).
    exists x. by rewrite list_elem_of_In.
  - intros (x & Hx%list_elem_of_In & Hf) E. assert (In x (List.filter f l)) as Hin by by apply filter_In.
    by rewrite E in Hin.
Qed.

Lemma denied_iff program subject exceptions now :
  dec_allowed (admit_request program subject exceptions now) = false <->
  (ap_disabled program = true /\ ap_mode program = Enforce) \/
  (exists e, program_applies program subject = Err e) \/
  (program_applies program subject = Ok true /\ ap_disabled program = false /\
   ap_mode program = Enforce /\
   exists h, h ∈ collect_hits program subject /\ waived subject exceptions now h = false).
Proof.
  unfold admit_request.
  destruct (ap_disabled program && bool_decide (ap_mode program = Enforce)) eqn:Hd.
  { bool_hyps. simpl. naive_solver. }
  destruct (program_applies program subject) as [[]|e]; [| |simpl; naive_solver].
  2: { simpl. split; [done|]. intros [[H1 H2]|[[? ?]|[? _]]]; [|done|done].
       by rewrite H1, bool_decide_eq_true_2 in Hd. }
  destruct (ap_disabled program); simpl in Hd.
  { bool_hyps. simpl. naive_solver. }
  rewrite deny_hits_block. simpl.
  pose proof (filter_nonempty (fun h => negb (waived subject exceptions now h))
                (collect_hits program subject)) as Hne. unfold waived in Hne.
  setoid_rewrite negb_true_iff in Hne.
  destruct (is_empty _) eqn:He.
  - split; [done|]. intros [[? _]|[[? ?]|(_ & _ & _ & Hh)]]; [done|done|].
    apply Hne in Hh. congruence.
  - destruct (bool_decide_reflect (ap_mode program = Enforce)); simpl; [|naive_solver].
    split; [|done]. intros _. right. right. split_and!; try done. by apply Hne.
Qed.

(** C4: an admission request is denied exactly when the program is contradictory,
    the selector cannot be answered, or an enforcing program applies and some
    violated rule is waived by no exception; what is reported is exactly the
    violated rules left, and a fail-closed answer is never an allow. *)
Theorem admit_denies_exactly program subject exceptions now :
  let d := admit_request program subject exceptions now in
  let left_ := List.filter (fun h => negb (waived subject exceptions now h))
                 (collect_hits program subject) in
  (dec_allowed d = false <->
   (ap_disabled program = true /\ ap_mode program = Enforce) \/
   (exists e, program_applies program subject = Err e) \/
   (program_applies program subject = Ok true /\ ap_disabled program = false /\
    ap_mode program = Enforce /\ left_ <> [])) /\
  (program_applies program subject = Ok true -> ap_disabled program = false ->
   dec_rule_ids d = map ph_rule left_) /\
  (dec_fail_closed d = true -> dec_allowed d = false).
Proof.
  cbv zeta. split; [|split].
  - rewrite denied_iff, <- is_empty_false, filter_nonempty. by setoid_rewrite negb_true_iff.
  - intros Ha Hd. unfold admit_request. by rewrite Hd, Ha.
  - unfold admit_request. repeat (case_match; try done).
Qed.

(** Labels nobody observed fail closed. If the program selects by cluster,
    namespace or ServiceAccount labels and that group was never observed, the
    request is denied, with no rule evaluated and no exception consulted; for a
    cluster-scoped object the namespace and ServiceAccount groups do not exist and
    change nothing. *)
Lemma unobserved_labels_deny program subject exceptions now
    (Hscope : su_policy_namespace subject = "" \/ su_namespace subject = su_policy_namespace subject)
    (Hunobserved :
       let selector := ap_selector program in
       let missing s l := selector_nonempty s = true /\ l = @None (gmap string string) in
       missing (ps_cluster_selector selector) (su_cluster_labels subject) \/
       (cluster_scoped_kind (su_kind subject) = false /\
        (missing (ps_namespace_selector selector) (su_namespace_labels subject) \/
         missing (ps_service_account_selector selector) (su_service_account_labels subject)))) :
  dec_allowed (admit_request program subject exceptions now) = false /\
  dec_fail_closed (admit_request program subject exceptions now) = true.
Proof.
  assert (exists e, program_applies program subject = Err e) as [e He].
  { unfold program_applies.
    assert (negb (str_empty (su_policy_namespace subject))
      && negb (str_eqb (su_namespace subject) (su_policy_namespace subject)) = false) as ->.
    { destruct Hscope as [-> | ->]; [done|]. by rewrite str_eqb_refl, andb_false_r. }
    unfold require_labels_if_selected. destruct Hunobserved as [[-> ->] | [-> [[-> ->] | [-> ->]]]].
    - by eexists.
    - destruct (refuse_if (selector_nonempty (ps_cluster_selector (ap_selector program)) && _) _) as [[]|];
        by eexists.
    - destruct (refuse_if (selector_nonempty (ps_cluster_selector (ap_selector program)) && _) _) as [[]|];
        simpl; [|by eexists].
      destruct (refuse_if (selector_nonempty (ps_namespace_selector (ap_selector program)) && _) _) as [[]|];
        by eexists. }
  split; [apply denied_iff; eauto|]. unfold admit_request. rewrite He. by case_match.
Qed.

(** ** Monotonicity *)

(** [p'] forbids everything [p] forbids. *)
Record stricter (p p' : AdmissionProgram) : Prop := {
  st_supply : ap_supply p' = ap_supply p;
  st_selector : ap_selector p' = ap_selector p;
  st_pss : as_pss (ap_admit p) = as_pss (ap_admit p') \/ as_pss (ap_admit p) = Privileged \/
           as_pss (ap_admit p) = Custom \/
           (as_pss (ap_admit p) = Baseline /\ as_pss (ap_admit p') = Restricted);
  st_flags : forall f, f ∈ [ad_privileged; ad_host_pid; ad_host_ipc; ad_host_network; ad_host_path;
      ad_allow_privilege_escalation; ad_run_as_root; ad_wildcards_rbac; ad_cluster_admin_bind] ->
      f (as_deny (ap_admit p)) = true -> f (as_deny (ap_admit p')) = true;
  st_caps : ad_added_capabilities (as_deny (ap_admit p)) ⊆ ad_added_capabilities (as_deny (ap_admit p'))
}.

Definition hit_rules (p : AdmissionProgram) (subject : AdmissionSubject) : list string :=
  map ph_rule (collect_hits p subject).

Lemma add_if_rules c rule reason : map ph_rule (add_if c rule reason) = if c then [rule] else [].
Proof. by destruct c. Qed.

Lemma gate_mono (a b a' b' s : bool) :
  (a = true -> a' = true) -> (b = true -> b' = true) ->
  (a || b) && s = true -> (a' || b') && s = true.
Proof. destruct a, b, a', b', s; naive_solver. Qed.

Lemma pss_caps_mono pss pss' cap :
  (pss = pss' \/ pss = Privileged \/ pss = Custom \/ (pss = Baseline /\ pss' = Restricted)) ->
  pss_forbids_added_capability pss cap = true -> pss_forbids_added_capability pss' cap = true.
Proof.
  intros [-> | [-> | [-> | [-> ->]]]]; try done. simpl.
  rewrite !negb_true_iff. intros H. apply str_eqb_false. intros ->. done.
Qed.

Lemma if_subset (c c' : bool) (rule : string) :
  (c = true -> c' = true) -> (if c then [rule] else []) ⊆ (if c' then [rule] else []).
Proof. destruct c, c'; intros H; set_solver. Qed.

Lemma app_subset {A} (a a' b b' : list A) : a ⊆ a' -> b ⊆ b' -> a ++ b ⊆ a' ++ b'.
Proof. set_solver. Qed.

Lemma stricter_hits p p' subject : stricter p p' -> hit_rules p subject ⊆ hit_rules p' subject.
Proof.
  intros [Hsup Hsel Hpss Hf Hcaps]. unfold hit_rules, collect_hits. rewrite Hsup, Hsel.
  assert (F : forall f, f ∈ [ad_privileged; ad_host_pid; ad_host_ipc; ad_host_network; ad_host_path;
      ad_allow_privilege_escalation; ad_run_as_root; ad_wildcards_rbac; ad_cluster_admin_bind] ->
      f (as_deny (ap_admit p)) = true -> f (as_deny (ap_admit p')) = true) by exact Hf.
  set (d := as_deny (ap_admit p)) in *. set (d' := as_deny (ap_admit p')) in *.
  set (q := as_pss (ap_admit p)) in *. set (q' := as_pss (ap_admit p')) in *. clearbody d d' q q'.
  assert (Hb : match q with Baseline | Restricted => true | _ => false end = true ->
               match q' with Baseline | Restricted => true | _ => false end = true)
    by (destruct Hpss as [-> | [-> | [-> | [-> ->]]]]; done).
  assert (Hr : match q with Restricted => true | _ => false end = true ->
               match q' with Restricted => true | _ => false end = true)
    by (destruct Hpss as [-> | [-> | [-> | [-> ->]]]]; done).
  rewrite !map_app. apply app_subset; [done|]. apply app_subset.
  - destruct (str_empty _ || _); [|done]. rewrite !map_app, !add_if_rules.
    do 3 (apply app_subset; [done|]).
    do 7 (apply app_subset; [apply if_subset, gate_mono; [apply F, list_elem_of_In; simpl; tauto | done]|]).
    apply if_subset. rewrite !negb_true_iff, !filter_nonempty.
    intros (cap & Hin & [H|H]%orb_true_iff); exists cap; (split; [done|]); apply orb_true_iff.
    + left. by eapply pss_caps_mono.
    + right. apply existsb_exists in H as (c & Hc & E). apply existsb_exists. exists c.
      split; [|done]. apply list_elem_of_In, Hcaps. by apply list_elem_of_In.
  - rewrite !add_if_rules. apply app_subset; apply if_subset; rewrite !andb_true_iff;
      intros [[? ?] ?]; split_and!; try done; apply F; try done; apply list_elem_of_In; simpl; tauto.
Qed.

(** Tightening a program (a stronger PSS profile, more deny flags, more denied
    capabilities, the same selectors and supply chain) never turns a denial into an
    admission, whatever exceptions are in force. *)
Lemma stricter_program_never_admits_more p p' subject exceptions now
    (Hstricter : stricter p p')
    (Hsame : ap_mode p' = ap_mode p /\ ap_disabled p' = ap_disabled p)
    (Hdenied : dec_allowed (admit_request p subject exceptions now) = false) :
  dec_allowed (admit_request p' subject exceptions now) = false.
Proof.
  destruct Hsame as [Hm Hdis].
  assert (Happ : program_applies p' subject = program_applies p subject)
    by (unfold program_applies; by rewrite (st_selector _ _ Hstricter)).
  apply denied_iff. apply denied_iff in Hdenied. rewrite Hm, Hdis, Happ.
  destruct Hdenied as [?|[?|(Ha & Hd & He & h & Hh & Hw)]]; [by left | by right; left |].
  right. right. split_and!; try done.
  assert (ph_rule h ∈ hit_rules p' subject) as (h' & Hr & Hin)%list_elem_of_fmap.
  { apply (stricter_hits p p' subject Hstricter). apply list_elem_of_fmap. by exists h. }
  exists h'. split; [done|]. unfold waived in *. by rewrite <- Hr.
Qed.

(** ** Image references *)

Record ImageParts : Type := {
  ip_registry : list Z;
  ip_repo : list Z;
  ip_tag : option (list Z);
  ip_digest : option (list Z)
}.

(** [registry/repo:tag@digest]. *)
Definition render_image (p : ImageParts) : list Z :=
  (ip_registry p ++ SLASH :: ip_repo p
   ++ match ip_tag p with Some t => COLON :: t | None => [] end)
  ++ match ip_digest p with Some d => AT :: d | None => [] end.

Record image_parts_ok (p : ImageParts) : Prop := {
  io_registry : (ip_registry p = as_bytes "localhost" \/ DOT ∈ ip_registry p \/ COLON ∈ ip_registry p) /\
                SLASH ∉ ip_registry p /\ AT ∉ ip_registry p;
  io_repo : ip_repo p <> [] /\ COLON ∉ ip_repo p /\ AT ∉ ip_repo p;
  io_tag : match ip_tag p with
           | Some t => t <> [] /\ COLON ∉ t /\ SLASH ∉ t /\ AT ∉ t
           | None => True
           end;
  io_digest : ip_digest p <> Some []
}.

Lemma has_byte_true c l : has_byte c l = true <-> c ∈ l.
Proof.
  unfold has_byte. rewrite existsb_exists. setoid_rewrite <- list_elem_of_In. setoid_rewrite Z.eqb_eq.
  naive_solver.
Qed.

Lemma registry_recognised reg :
  (reg = as_bytes "localhost" \/ DOT ∈ reg \/ COLON ∈ reg) ->
  bool_decide (reg = as_bytes "localhost") || has_byte DOT reg || has_byte COLON reg = true.
Proof.
  rewrite <- !has_byte_true. intros [-> | [-> | ->]]; rewrite ?orb_true_r; done.
Qed.

Lemma tag_recognised repo tag :
  repo <> [] -> COLON ∉ repo ->
  match tag with Some t => t <> [] /\ COLON ∉ t /\ SLASH ∉ t /\ AT ∉ t | None => True end ->
  match rsplit_once COLON (repo ++ match tag with Some t => COLON :: t | None => [] end) with
  | Some (r, t) =>
      if negb (is_empty r) && negb (is_empty t) && negb (has_byte SLASH t) then Some t else None
  | None => None
  end = tag.
Proof.
  intros Hr Hc Ht. destruct tag as [t|].
  - destruct Ht as (Hne & Htc & Hts & _). rewrite rsplit_once_some by done.
    by rewrite (proj2 (is_empty_false repo) Hr), (proj2 (is_empty_false t) Hne),
      (proj2 (has_byte_false SLASH t) Hts).
  - rewrite app_nil_r. by rewrite rsplit_once_none.
Qed.

(** A reference with an explicit registry is read back part by part: the
    registry [registriesAllow] is compared with, the tag [denyLatestTag] looks at
    and the digest [requireDigest] asks for are the ones written; and [latest] is
    reported exactly when it is written or nothing pins the image. *)
Lemma image_reference_roundtrip p (Hok : image_parts_ok p) :
  parse_image_bytes (render_image p) =
    {| ir_registry := ip_registry p; ir_tag := ip_tag p; ir_digest := ip_digest p |} /\
  forall s, as_bytes s = render_image p ->
    image_is_latest s = match ip_tag p with
                        | Some t => bool_decide (t = as_bytes "latest")
                        | None => match ip_digest p with None => true | Some _ => false end
                        end.
Proof.
  destruct Hok as [(Hreg & Hrs & Hra) (Hrepo & Hrc & Hrat) Htag Hdig].
  assert (Hparse : parse_image_bytes (render_image p) =
    {| ir_registry := ip_registry p; ir_tag := ip_tag p; ir_digest := ip_digest p |}).
  { set (body := ip_registry p ++ SLASH :: ip_repo p
         ++ match ip_tag p with Some t => COLON :: t | None => [] end).
    assert (Hbody : AT ∉ body).
    { unfold body. destruct (ip_tag p) as [t|]; [destruct Htag as (_ & _ & _ & Hta)|];
        rewrite !not_elem_of_app, not_elem_of_cons, not_elem_of_app; split_and!; try done;
        try (rewrite not_elem_of_cons; done); set_solver. }
    assert (Hsplit : (match split_once AT (render_image p) with
      | Some (left_, right_) =>
          if negb (is_empty right_) then (left_, Some right_) else (render_image p, None)
      | None => (render_image p, None) end) = (body, ip_digest p)).
    { unfold render_image. fold body. destruct (ip_digest p) as [d|] eqn:E.
      - rewrite split_once_some by done. by destruct d.
      - rewrite app_nil_r. by rewrite (proj2 (split_once_none AT body)). }
    unfold parse_image_bytes. rewrite Hsplit. unfold body at 1. rewrite split_once_some by done.
    rewrite registry_recognised by done. by rewrite tag_recognised. }
  split; [done|]. intros s Hs. unfold image_is_latest, parse_image. by rewrite Hs, Hparse.
Qed.

(** ** Concrete requests *)

Definition prod_pod : AdmissionSubject :=
  {| su_policy_name := "prod"; su_policy_namespace := ""; su_namespace := "shop";
     su_cluster_labels := None; su_namespace_labels := None; su_workload_labels := ∅;
     su_service_account := "default"; su_service_account_labels := None;
     su_image := "ghcr.io/acme/cart:1.2"; su_image_signed := false; su_privileged := false;
     su_host_pid := false; su_host_ipc := false; su_host_network := false; su_host_path := true;
     su_allow_privilege_escalation := false; su_run_as_root := false; su_added_capabilities := ["CHOWN"];
     su_wildcard_rbac := false; su_cluster_admin_bind := false; su_kind := "Pod" |}.

Definition admission_program (pss : PssProfile) (s : PolicySelector) : AdmissionProgram :=
  {| ap_abi := ADMISSION_ABI; ap_mode := Enforce; ap_disabled := false; ap_priority := 0;
     ap_supply := default_supply;
     ap_admit := {| as_failure_policy := Ignore_; as_pss := pss; as_deny := default_deny;
                    as_mutate := default_mutate |};
     ap_selector := s |}.

Definition by_namespace : PolicySelector :=
  {| ps_cluster_selector := default_label_selector;
     ps_namespace_selector := {| ls_match_labels := {["env" := "prod"]}; ls_match_expressions := [] |};
     ps_workload_selector := default_label_selector;
     ps_service_account_selector := default_label_selector; ps_image := default_image_selector |}.

Lemma unobserved_labels_deny_witness :
  dec_allowed (admit_request (admission_program Baseline by_namespace) prod_pod [] 0) = false.
Proof.
  apply (unobserved_labels_deny (admission_program Baseline by_namespace) prod_pod [] 0).
  - left. reflexivity.
  - right. split; [reflexivity|]. left. split; [vm_compute; reflexivity | reflexivity].
Defined.

Lemma stricter_program_witness :
  dec_allowed (admit_request (admission_program Restricted default_selector) prod_pod [] 0) = false.
Proof.
  apply (stricter_program_never_admits_more (admission_program Baseline default_selector)
           (admission_program Restricted default_selector) prod_pod [] 0).
  - constructor; try reflexivity; simpl; [tauto | intros f _ H; exact H].
  - split; reflexivity.
  - vm_compute. reflexivity.
Defined.

Lemma image_reference_roundtrip_witness :
  parse_image_bytes (as_bytes "ghcr.io/acme/cart:1.2@sha256:ab") =
  {| ir_registry := as_bytes "ghcr.io"; ir_tag := Some (as_bytes "1.2");
     ir_digest := Some (as_bytes "sha256:ab") |}.
Proof.
  apply (image_reference_roundtrip {| ip_registry := as_bytes "ghcr.io"; ip_repo := as_bytes "acme/cart";
    ip_tag := Some (as_bytes "1.2"); ip_digest := Some (as_bytes "sha256:ab") |}).
  constructor; apply (bool_decide_unpack _); vm_compute; exact I.
Defined.
