(* ===== verification/Planes.v ===== *)
(** * Admission and runtime answer one selector alike

    [ferrum-admission]'s [program_applies] and [ferrum-ebpf]'s [selector_match]
    are written apart; this file relates them on one compiled policy and one
    workload. *)

From S2P Require Import Prelude RustStd Ids Api Policy Encode Program Febp RuntimeEval Admit.

(** What each plane observed of one group of labels. *)
Definition observed (o : bool) (l : gmap string string) : option (gmap string string) :=
  if o then Some l else None.

(** An admitted Pod and the identity its cgroup resolves to. *)
Record same_workload (su : AdmissionSubject) (id : WorkloadIdentity) : Prop := {
  sw_policy : su_policy_namespace su = "";
  sw_kind : su_kind su = "Pod";
  sw_pod : wi_pod id <> "";
  sw_cluster : su_cluster_labels su = observed (wi_cluster_labels_observed id) (wi_cluster_labels id);
  sw_namespace : su_namespace_labels su =
    observed (wi_namespace_labels_observed id) (wi_namespace_labels id);
  sw_account : su_service_account_labels su =
    observed (wi_service_account_labels_observed id) (wi_service_account_labels id);
  sw_workload : su_workload_labels su = wi_workload_labels id
}.

Definition KNOWN_OPERATORS : list string := ["In"; "NotIn"; "Exists"; "DoesNotExist"].

Definition operators_known (s : Api.LabelSelector) : Prop :=
  Forall (fun e => lsr_operator e ∈ KNOWN_OPERATORS) (ls_match_expressions s).

Record selector_portable (s : Api.PolicySelector) : Prop := {
  po_cluster : operators_known (ps_cluster_selector s);
  po_namespace : operators_known (ps_namespace_selector s);
  po_workload : operators_known (ps_workload_selector s);
  po_account : operators_known (ps_service_account_selector s);
  po_image : ps_image s = default_image_selector
}.

Lemma expression_agrees e labels :
  lsr_operator e ∈ KNOWN_OPERATORS ->
  match_expression (lsr_key e) (lsr_operator e) (lsr_values e) labels =
  Ok (expression_matches (view_requirement e) labels).
Proof.
  intros H. unfold match_expression, expression_matches, view_requirement. simpl.
  repeat case_match; try done. exfalso.
  unfold KNOWN_OPERATORS in H. rewrite !elem_of_cons in H. autorewrite with ferrum in *.
  by destruct H as [?|[?|[?|[?|?%elem_of_nil]]]].
Qed.

Lemma expressions_agree exprs labels :
  Forall (fun e => lsr_operator e ∈ KNOWN_OPERATORS) exprs ->
  match_expressions_all exprs labels =
  Ok (forallb (fun e => expression_matches e labels) (map view_requirement exprs)).
Proof.
  induction 1 as [|e exprs He _ IH]; [done|]. simpl. rewrite expression_agrees by done. simpl.
  by destruct (expression_matches _ _).
Qed.

Lemma selector_agrees s labels :
  operators_known s ->
  Admit.label_selector_matches s labels =
  Ok (RuntimeEval.label_selector_matches (view_label_selector s) labels).
Proof.
  intros Hs. unfold Admit.label_selector_matches, RuntimeEval.label_selector_matches.
  assert (label_selector_is_empty (view_label_selector s) =
          map_empty (ls_match_labels s) && is_empty (ls_match_expressions s)) as ->
    by (unfold label_selector_is_empty; simpl; by destruct (ls_match_expressions s)).
  rewrite expressions_agree by done. cbn [match_labels match_expressions view_label_selector].
  assert (forall l : list (string * string),
    existsb (fun kv => negb (bool_decide (labels !! kv.1 = Some kv.2))) l =
    negb (forallb (fun kv => bool_decide (labels !! kv.1 = Some kv.2)) l)) as ->.
  { induction l as [|kv l IH]; [done|]. simpl. rewrite IH. by destruct (bool_decide _). }
  destruct (map_empty (ls_match_labels s)) eqn:Em, (ls_match_expressions s); simpl.
  1: { unfold map_empty in Em. apply bool_decide_eq_true in Em. rewrite Em. by vm_compute. }
  all: by destruct (forallb _ (btree_iter _)).
Qed.

Lemma view_empty s : label_selector_is_empty (view_label_selector s) = negb (selector_nonempty s).
Proof.
  unfold label_selector_is_empty, selector_nonempty. simpl.
  destruct (map_empty _), (ls_match_expressions s); done.
Qed.

Lemma require_agrees s (o : bool) l what :
  require_labels_if_selected s (observed o l) what =
  if labels_unobserved (view_label_selector s) o
  then Err (Integrity [Str what; Lit " selector is set but "; Str what;
                       Lit " labels were never observed; fail closed"])
  else Ok tt.
Proof.
  unfold require_labels_if_selected, labels_unobserved. rewrite view_empty, negb_involutive.
  by destruct o, (selector_nonempty s).
Qed.

Lemma unselected_empty_labels s o l :
  labels_unobserved (view_label_selector s) o = false ->
  RuntimeEval.label_selector_matches (view_label_selector s) (default ∅ (observed o l)) =
  RuntimeEval.label_selector_matches (view_label_selector s) l.
Proof.
  unfold labels_unobserved. destruct o; [done|]. rewrite andb_true_r, negb_false_iff. intros H.
  by rewrite !empty_selector_matches.
Qed.

(** the two planes answer one selector the same way. For a Pod under a cluster
    policy, the webhook applies the program exactly when the agent's selector
    matches, skips it exactly when it does not, and refuses to answer exactly when
    the agent marks the labels unknown. *)
Lemma planes_agree_on_selector program id su
    (Hsame : same_workload su id) (Hportable : selector_portable (ap_selector program)) :
  match selector_match (view_selector (ap_selector program)) id with
  | Match_ => program_applies program su = Ok true
  | NoMatch => program_applies program su = Ok false
  | LabelsUnknown => exists e, program_applies program su = Err (Integrity e)
  end.
Proof.
  destruct Hsame as [Hp Hk Hpod Hc Hn Ha Hw], Hportable as [Oc On Ow Oa Oi].
  unfold program_applies, selector_match. rewrite Hp, Hk, Hc, Hn, Ha, Hw, !require_agrees.
  rewrite !selector_agrees by done.
  cbn [str_empty negb andb cluster_scoped_kind]. change (cluster_scoped_kind "Pod") with false.
  change (str_empty "") with true. cbn [negb andb].
  set (s := ap_selector program) in *.
  cbn [view_selector cluster_selector namespace_selector workload_selector service_account_selector].
  assert (Him : image_matches (view_selector s) id = true)
    by (unfold image_matches; simpl; by rewrite Oi).
  assert (Hunk : is_unknown id = false) by (by apply str_empty_false).
  rewrite Him, Hunk, andb_false_r, andb_true_r.
  destruct (selector_is_empty (view_selector s)) eqn:Hempty.
  - unfold selector_is_empty in Hempty. simpl in Hempty. bool_hyps.
    repeat match goal with H : label_selector_is_empty _ = true |- _ =>
      rewrite !(empty_selector_matches _ _ H); unfold labels_unobserved in *; rewrite ?H; clear H end.
    done.
  - destruct (labels_unobserved (view_label_selector (ps_cluster_selector s)) _) eqn:E1;
      [simpl; by eexists|].
    destruct (labels_unobserved (view_label_selector (ps_namespace_selector s)) _) eqn:E2;
      [simpl; by eexists|].
    destruct (labels_unobserved (view_label_selector (ps_service_account_selector s)) _) eqn:E3;
      [simpl; by eexists|].
    rewrite !unselected_empty_labels by done. simpl. unfold and_then. simpl.
    destruct (RuntimeEval.label_selector_matches _ (wi_cluster_labels id)),
      (RuntimeEval.label_selector_matches _ (wi_namespace_labels id)),
      (RuntimeEval.label_selector_matches _ (wi_workload_labels id)),
      (RuntimeEval.label_selector_matches _ (wi_service_account_labels id)); done.
Qed.

(** ** Concrete *)

Definition shop_pod (labels : option (gmap string string)) : AdmissionSubject :=
  {| su_policy_name := "prod"; su_policy_namespace := ""; su_namespace := "shop";
     su_cluster_labels := None; su_namespace_labels := labels; su_workload_labels := ∅;
     su_service_account := "default"; su_service_account_labels := None;
     su_image := ""; su_image_signed := false; su_privileged := false;
     su_host_pid := false; su_host_ipc := false; su_host_network := false; su_host_path := false;
     su_allow_privilege_escalation := false; su_run_as_root := false; su_added_capabilities := [];
     su_wildcard_rbac := false; su_cluster_admin_bind := false; su_kind := "Pod" |}.

Lemma planes_agree_witness :
  program_applies (admission_program Baseline by_namespace) (shop_pod (Some {["env" := "prod"]}))
  = Ok true.
Proof.
  pose proof (planes_agree_on_selector (admission_program Baseline by_namespace)
           (cold_identity true {["env" := "prod"]}) (shop_pod (Some {["env" := "prod"]}))) as H.
  assert (E : selector_match (view_selector (ap_selector (admission_program Baseline by_namespace)))
                (cold_identity true {["env" := "prod"]}) = Match_) by (vm_compute; reflexivity).
  rewrite E in H. apply H.
  - constructor; try reflexivity. discriminate.
  - constructor; try reflexivity; constructor.
Defined.

(** An operator neither plane knows, which nothing before them refuses, is where
    they part: the webhook denies every request, the agent enforces nothing. *)
Definition typo_selector : Api.PolicySelector :=
  {| ps_cluster_selector := default_label_selector;
     ps_namespace_selector := {| ls_match_labels := ∅;
       ls_match_expressions := [{| lsr_key := "env"; lsr_operator := "in"; lsr_values := ["prod"] |}] |};
     ps_workload_selector := default_label_selector;
     ps_service_account_selector := default_label_selector; ps_image := default_image_selector |}.

Lemma unknown_operator_splits_planes :
  validate_selector typo_selector = Ok tt /\
  dec_allowed (admit_request (admission_program Baseline typo_selector)
                 (shop_pod (Some {["env" := "prod"]})) [] 0) = false /\
  d_action (decide (socket_spec MEnforce Kill Allow (view_selector typo_selector))
              (open_event "/run/docker.sock" false) (cold_identity true {["env" := "prod"]})) = Allow.
Proof. split_and!; vm_compute; reflexivity. Qed.
