(* ===== verification/Crypto.v ===== *)
(** * ferrum-crypto: signatures over policy bundles and break-glass grants

    [crates/ferrum-crypto/src/lib.rs]. Ed25519 is a third-party library: [Ed25519]
    is its interface, with the documented behaviour the code relies on as laws. *)

From S2P Require Import Prelude RustStd Ids Compiler.

Definition ED25519_PUBLIC_KEY_LEN : Z := 32.
Definition ED25519_SECRET_KEY_LEN : Z := 32.
Definition ED25519_SIGNATURE_LEN : Z := 64.
Definition BUNDLE_SIGNATURE_CONTEXT : list Z := as_bytes "FERRUM-POLICY-BUNDLE-v1".
Definition BREAK_GLASS_CONTEXT : list Z := as_bytes "FERRUM-BREAK-GLASS-GRANT-v1".

(** [ed25519_compact]: a key pair from a seed, signing, verifying, and whether a
    slice of the right length decodes. *)
Class Ed25519 : Type := {
  ed_public : list Z -> list Z;
  ed_sign : list Z -> list Z -> list Z;
  ed_verify : list Z -> list Z -> list Z -> bool;
  ed_public_decodes : list Z -> bool;
  ed_signature_decodes : list Z -> bool
}.

(** What a caller that signs may rely on. *)
Class Ed25519Laws (E : Ed25519) : Prop := {
  ed_public_ok seed :
    len seed = ED25519_SECRET_KEY_LEN ->
    len (ed_public seed) = ED25519_PUBLIC_KEY_LEN /\ ed_public_decodes (ed_public seed) = true /\
    Exists (fun b => b <> 0) (ed_public seed) /\ Forall (fun b => 0 <= b < 256) (ed_public seed);
  ed_sign_ok seed message :
    len seed = ED25519_SECRET_KEY_LEN ->
    len (ed_sign seed message) = ED25519_SIGNATURE_LEN /\
    ed_signature_decodes (ed_sign seed message) = true /\
    ed_verify (ed_public seed) message (ed_sign seed message) = true
}.

Definition domain_message (context raw : list Z) : list Z := context ++ raw.
Definition signed_message (raw : list Z) : list Z := domain_message BUNDLE_SIGNATURE_CONTEXT raw.

(** [bytes.iter().fold(0u8, |acc, b| acc | b) == 0]. *)
Definition is_all_zero (bytes : list Z) : bool := foldl Z.lor 0 bytes =? 0.

Lemma is_all_zero_false bytes :
  Forall (fun b => 0 <= b < 256) bytes -> Exists (fun b => b <> 0) bytes -> is_all_zero bytes = false.
Proof.
  unfold is_all_zero. intros Hb He. apply Z.eqb_neq.
  assert (forall acc, foldl Z.lor acc bytes = 0 -> acc = 0 /\ Forall (fun b => b = 0) bytes) as H.
  { clear. induction bytes as [|b bytes IH]; intros acc; simpl; [by split|].
    intros [H Hf]%IH. apply Z.lor_eq_0_iff in H as [-> ->]. auto. }
  intros [_ Hf]%H. apply Exists_exists in He as (b & Hin & Hne).
  rewrite Forall_forall in Hf. by apply Hf in Hin.
Qed.

Section crypto.
Context `{E : Ed25519} (sha256 : list Z -> list Z).

Definition parse_keypair (secret_key : list Z) : Result (list Z) :=
  _ ← refuse_if (negb (len secret_key =? ED25519_SECRET_KEY_LEN))
        (Integrity [Lit "Ed25519 secret key must be "; Num ED25519_SECRET_KEY_LEN;
           Lit " bytes, got "; Num (len secret_key)]);
  _ ← refuse_if (is_all_zero secret_key)
        (Integrity [Lit "Ed25519 secret seed must not be all zeros"]);
  Ok secret_key.

Definition parse_public_key (public_key : list Z) : Result (list Z) :=
  _ ← refuse_if (negb (len public_key =? ED25519_PUBLIC_KEY_LEN))
        (Integrity [Lit "Ed25519 public key must be "; Num ED25519_PUBLIC_KEY_LEN;
           Lit " bytes, got "; Num (len public_key)]);
  _ ← refuse_if (is_all_zero public_key)
        (Integrity [Lit "Ed25519 public key must not be all zeros"]);
  _ ← refuse_if (negb (ed_public_decodes public_key))
        (Integrity [Lit "invalid Ed25519 public key"]);
  Ok public_key.

Definition parse_signature (sig : list Z) : Result (list Z) :=
  _ ← refuse_if (is_empty sig)
        (Integrity [Lit "bundle signature is empty; unsigned bundles are rejected"]);
  _ ← refuse_if (negb (len sig =? ED25519_SIGNATURE_LEN))
        (Integrity [Lit "Ed25519 signature must be "; Num ED25519_SIGNATURE_LEN;
           Lit " bytes, got "; Num (len sig)]);
  _ ← refuse_if (negb (ed_signature_decodes sig))
        (Integrity [Lit "invalid Ed25519 signature encoding"]);
  Ok sig.

Definition public_key_from_secret (secret_key : list Z) : Result (list Z) :=
  seed ← parse_keypair secret_key; Ok (ed_public seed).

Definition sign_bundle (raw secret_key : list Z) : Result (list Z) :=
  seed ← parse_keypair secret_key; Ok (ed_sign seed (signed_message raw)).

Definition verify_bundle_signature (raw sig public_key : list Z) : Result string :=
  key ← parse_public_key public_key;
  signature ← parse_signature sig;
  _ ← refuse_if (negb (ed_verify key (signed_message raw) signature))
        (Integrity [Lit "Ed25519 signature verification failed"]);
  Ok (bundle_digest sha256 raw).

Definition sign_break_glass (raw secret_key : list Z) : Result (list Z) :=
  seed ← parse_keypair secret_key; Ok (ed_sign seed (domain_message BREAK_GLASS_CONTEXT raw)).

Definition verify_break_glass_signature (raw sig public_key : list Z) : Result unit :=
  key ← parse_public_key public_key;
  signature ← parse_signature sig;
  refuse_if (negb (ed_verify key (domain_message BREAK_GLASS_CONTEXT raw) signature))
    (Integrity [Lit "break-glass Ed25519 signature verification failed"]).

(** What acceptance means: the library verified this message under this key. *)
Lemma verify_bundle_inv raw sig key d :
  verify_bundle_signature raw sig key = Ok d ->
  len key = ED25519_PUBLIC_KEY_LEN /\ len sig = ED25519_SIGNATURE_LEN /\ is_all_zero key = false /\
  ed_verify key (BUNDLE_SIGNATURE_CONTEXT ++ raw) sig = true /\ d = bundle_digest sha256 raw.
Proof.
  unfold verify_bundle_signature, parse_public_key, parse_signature. intros H.
  inv_ok. bool_hyps. split_and!; try done; lia.
Qed.

Lemma verify_break_glass_inv raw sig key :
  verify_break_glass_signature raw sig key = Ok tt ->
  len key = ED25519_PUBLIC_KEY_LEN /\ len sig = ED25519_SIGNATURE_LEN /\ is_all_zero key = false /\
  ed_verify key (BREAK_GLASS_CONTEXT ++ raw) sig = true.
Proof.
  unfold verify_break_glass_signature, parse_public_key, parse_signature. intros H.
  inv_ok. bool_hyps. split_and!; try done; lia.
Qed.

(** A verifier accepts what its own signer produced. *)
Lemma signed_parts `{!Ed25519Laws E} seed message :
  len seed = ED25519_SECRET_KEY_LEN ->
  parse_public_key (ed_public seed) = Ok (ed_public seed) /\
  parse_signature (ed_sign seed message) = Ok (ed_sign seed message) /\
  ed_verify (ed_public seed) message (ed_sign seed message) = true.
Proof.
  intros Hlen. destruct (ed_public_ok seed Hlen) as (Hpl & Hpd & Hpe & Hpb).
  destruct (ed_sign_ok seed message Hlen) as (Hl & Hd & Hv). split_and!; [| |done].
  - unfold parse_public_key. rewrite Hpl, Hpd, is_all_zero_false by done. done.
  - unfold parse_signature. rewrite Hl, Hd.
    assert (is_empty (ed_sign seed message) = false) as -> by (by destruct (ed_sign seed message)).
    done.
Qed.

Lemma sign_verify `{!Ed25519Laws E} seed raw :
  len seed = ED25519_SECRET_KEY_LEN ->
  verify_bundle_signature raw (ed_sign seed (signed_message raw)) (ed_public seed) =
    Ok (bundle_digest sha256 raw).
Proof.
  intros Hlen. destruct (signed_parts seed (signed_message raw) Hlen) as (Hk & Hs & Hv).
  unfold verify_bundle_signature. rewrite Hk, Hs. cbn [mbind result_mbind]. by rewrite Hv.
Qed.

(** Signatures are separated by domain. A policy bundle's and a break-glass
    grant's signed messages are never the same bytes, whatever the payloads; what
    either verifier accepts is a signature over a message the other one never
    asks about; and what the signer produces its own verifier accepts, returning
    the payload's digest. *)
Lemma signature_domains_are_separate `{!Ed25519Laws E} seed raw raw'
    (Hseed : len seed = ED25519_SECRET_KEY_LEN /\ is_all_zero seed = false) :
  domain_message BUNDLE_SIGNATURE_CONTEXT raw <> domain_message BREAK_GLASS_CONTEXT raw' /\
  (exists sig, sign_bundle raw seed = Ok sig /\
     verify_bundle_signature raw sig (ed_public seed) = Ok (bundle_digest sha256 raw)) /\
  (exists sig, sign_break_glass raw' seed = Ok sig /\
     verify_break_glass_signature raw' sig (ed_public seed) = Ok tt).
Proof.
  destruct Hseed as [Hlen Hz].
  assert (Hpair : parse_keypair seed = Ok seed) by (unfold parse_keypair; by rewrite Hlen, Hz).
  split_and!.
  - unfold domain_message, BUNDLE_SIGNATURE_CONTEXT, BREAK_GLASS_CONTEXT. intros H.
    apply (f_equal (fun l => l !! 7%nat)) in H. vm_compute in H. congruence.
  - eexists. unfold sign_bundle. rewrite Hpair. split; [done|]. by apply sign_verify.
  - destruct (signed_parts seed (domain_message BREAK_GLASS_CONTEXT raw') Hlen) as (Hk & Hs & Hv).
    eexists. unfold sign_break_glass, verify_break_glass_signature. rewrite Hpair, Hk.
    cbn [mbind result_mbind]. split; [done|]. rewrite Hs. cbn [mbind result_mbind]. by rewrite Hv.
Qed.
End crypto.

(** A stand-in with the laws: the key is the seed made non-zero, and a signature is
    a 64-byte checksum of key and message. *)
Definition toy_checksum (key message : list Z) : list Z :=
  repeat ((foldr Z.add 0 key + foldr Z.add 0 message) mod 256) 64.

#[global] Instance toy_ed25519 : Ed25519 := {
  ed_public seed := 1 :: repeat (foldr Z.add 0 seed mod 256) 31;
  ed_sign seed message := toy_checksum (1 :: repeat (foldr Z.add 0 seed mod 256) 31) message;
  ed_verify key message sig := bool_decide (sig = toy_checksum key message);
  ed_public_decodes _ := true;
  ed_signature_decodes _ := true
}.

#[global] Instance toy_ed25519_laws : Ed25519Laws toy_ed25519.
Proof.
  split.
  - intros seed _. split_and!; [done | done | by constructor |]. simpl.
    repeat (constructor; [first [lia | apply Z.mod_pos_bound; done]|]). constructor.
  - intros seed message _. split_and!; [done | done |]. simpl. by apply bool_decide_eq_true.
Qed.

Lemma signature_domains_witness :
  exists sig, sign_break_glass [1; 2; 3] (repeat 7 32) = Ok sig /\
    verify_break_glass_signature [1; 2; 3] sig (ed_public (repeat 7 32)) = Ok tt.
Proof.
  apply (signature_domains_are_separate (fun l => l) (repeat 7 32) [] [1; 2; 3]).
  split; vm_compute; reflexivity.
Defined.
