(* ===== verification/Grant.v ===== *)
(** * Break-glass grants

    [crates/ferrum-breakglass/src/lib.rs]: the signed document that suspends
    admission enforcement, its invariants, its verification against a trust root and
    a clock, and the window it covers. [serde_json] is a parameter: what it reads a
    [Grant] from is [grant_of_json]. *)

From S2P Require Import Prelude RustStd Ids Compiler Crypto.

Definition GRANT_SCHEMA : string := "ferrum.io/break-glass-grant".
Definition GRANT_SCHEMA_VERSION : string := "1.0".
Definition SCOPE_ADMISSION : string := "admission".
Definition MAX_GRANT_SECONDS : Z := 4 * 60 * 60.
Definition MAX_FIELD_CHARS : Z := 256.

(** [Duration::seconds] and [TimeDelta::num_seconds], over nanoseconds. *)
Definition seconds (n : Z) : Z := n * 1000000000.
Definition num_seconds (d : Z) : Z := Z.quot d 1000000000.

Record Grant := {
  g_schema : string; g_schema_version : string;
  g_id : string; g_scope : string; g_subject : string; g_issuer : string;
  g_ticket : string; g_reason : string;
  g_issued_at : Z; g_expires_at : Z
}.

Record VerifiedGrant := { vg_grant : Grant; vg_digest : string }.

#[global] Instance Grant_eq_dec : EqDecision Grant.
Proof. solve_decision. Defined.
#[global] Instance VerifiedGrant_eq_dec : EqDecision VerifiedGrant.
Proof. solve_decision. Defined.

Definition covers (v : VerifiedGrant) (now : Z) : bool :=
  (g_issued_at (vg_grant v) <=? now) && (now <? g_expires_at (vg_grant v)).

Definition remaining_seconds (v : VerifiedGrant) (now : Z) : Z :=
  Z.max (num_seconds (g_expires_at (vg_grant v) - now)) 0.

(** The body of the loop over the free-text fields. *)
Definition check_field (nv : string * string) : Result unit :=
  let '(name, value) := nv in
  _ ← refuse_if (str_empty (trim value))
        (Integrity [Lit "break-glass grant field "; Dbg name;
           Lit " is empty; an unattributable suspension is the one this journal exists to make impossible"]);
  _ ← refuse_if (MAX_FIELD_CHARS <? len (chars (as_bytes value)))
        (Integrity [Lit "break-glass grant field "; Dbg name; Lit " is longer than ";
           Num MAX_FIELD_CHARS; Lit " characters"]);
  refuse_if (existsb is_control (chars (as_bytes value)))
    (Integrity [Lit "break-glass grant field "; Dbg name;
       Lit " carries a control character; it would forge a second line in the journal it is about to be written to"]).

Definition free_text_fields (grant : Grant) : list (string * string) :=
  [("id", g_id grant); ("subject", g_subject grant); ("issuer", g_issuer grant);
   ("ticket", g_ticket grant); ("reason", g_reason grant)].

Definition check_invariants (grant : Grant) : Result unit :=
  _ ← refuse_if (negb (str_eqb (g_schema grant) GRANT_SCHEMA))
        (Integrity [Lit "not a "; Str GRANT_SCHEMA; Lit " document: schema="; Dbg (g_schema grant)]);
  _ ← refuse_if (negb (str_eqb (g_schema_version grant) GRANT_SCHEMA_VERSION))
        (Integrity [Lit "break-glass grant schemaVersion "; Dbg (g_schema_version grant);
           Lit ": this build speaks "; Str GRANT_SCHEMA_VERSION]);
  _ ← refuse_if (negb (str_eqb (g_scope grant) SCOPE_ADMISSION))
        (Integrity [Lit "break-glass scope "; Dbg (g_scope grant);
           Lit " is not honoured by this build; the only scope that suspends anything is ";
           Dbg SCOPE_ADMISSION]);
  _ ← try_each check_field (free_text_fields grant);
  _ ← refuse_if (g_expires_at grant <=? g_issued_at grant)
        (Integrity [Lit "break-glass grant "; Str (g_id grant); Lit ": expiresAt ";
           Time (g_expires_at grant); Lit " is not after issuedAt "; Time (g_issued_at grant)]);
  let window := g_expires_at grant - g_issued_at grant in
  refuse_if (seconds MAX_GRANT_SECONDS <? window)
    (Integrity [Lit "break-glass grant "; Str (g_id grant); Lit " covers "; Num (num_seconds window);
       Lit " seconds; the ceiling is "; Num MAX_GRANT_SECONDS;
       Lit ". A longer suspension is a second grant and a second journal entry, not a longer window."]).

(** What [serde_json::from_slice] makes of the signed bytes. *)
Class GrantJson : Type := {
  grant_of_json : list Z -> result string Grant
}.

(** The strings of a decoded document are Rust strings. *)
Definition grant_ok (g : Grant) : Prop :=
  Forall str_ok [g_schema g; g_schema_version g; g_id g; g_scope g; g_subject g; g_issuer g;
                 g_ticket g; g_reason g].

#[global] Instance grant_ok_dec g : Decision (grant_ok g).
Proof. unfold grant_ok. apply _. Defined.

Class GrantJsonLaws (G : GrantJson) : Prop := {
  grant_of_json_ok raw g : grant_of_json raw = Ok g -> grant_ok g
}.

Section verify.
Context `{E : Ed25519} `{G : GrantJson} (sha256 : list Z -> list Z).

Definition verify_grant (raw signature trust_root : list Z) (now : Z) : Result VerifiedGrant :=
  _ ← verify_break_glass_signature raw signature trust_root;
  grant ← map_err (fun err => Integrity [Lit "break-glass grant is not valid: "; Str err])
            (grant_of_json raw);
  _ ← check_invariants grant;
  _ ← refuse_if (now <? g_issued_at grant)
        (Integrity [Lit "break-glass grant "; Str (g_id grant); Lit " is not valid yet: issuedAt ";
           Time (g_issued_at grant); Lit " is in the future"]);
  _ ← refuse_if (g_expires_at grant <=? now)
        (Integrity [Lit "break-glass grant "; Str (g_id grant); Lit " expired at ";
           Time (g_expires_at grant)]);
  Ok {| vg_grant := grant; vg_digest := bundle_digest sha256 raw |}.
End verify.

(** ** What a grant must be *)

(** A field an incident review can use: something is written in it, it fits a
    journal line, and it cannot start another one. *)
Record attributable (value : string) : Prop := {
  at_written : trim value <> "";
  at_bounded : len (chars (as_bytes value)) <= MAX_FIELD_CHARS;
  at_one_line : Forall (fun c => is_control c = false) (chars (as_bytes value))
}.

Record grant_valid (g : Grant) : Prop := {
  gv_schema : g_schema g = GRANT_SCHEMA;
  gv_version : g_schema_version g = GRANT_SCHEMA_VERSION;
  gv_scope : g_scope g = SCOPE_ADMISSION;
  gv_who : attributable (g_id g) /\ attributable (g_subject g) /\ attributable (g_issuer g) /\
           attributable (g_ticket g) /\ attributable (g_reason g);
  gv_window : g_issued_at g < g_expires_at g <= g_issued_at g + seconds MAX_GRANT_SECONDS
}.

Lemma check_field_ok name value : check_field (name, value) = Ok tt <-> attributable value.
Proof.
  unfold check_field. rewrite !bind_ok_unit, !refuse_if_ok, str_empty_false, Z.ltb_ge,
    existsb_false_Forall. split.
  - intros (? & ? & ?). by constructor.
  - by intros [? ? ?].
Qed.

Lemma check_invariants_ok g : check_invariants g = Ok tt <-> grant_valid g.
Proof.
  unfold check_invariants, free_text_fields.
  rewrite !bind_ok_unit, !refuse_if_ok, try_each_ok, !Forall_cons, Forall_nil, !check_field_ok,
    !negb_false_iff, !str_eqb_true, Z.leb_gt, Z.ltb_ge. split.
  - intros (? & ? & ? & (? & ? & ? & ? & ? & _) & ? & ?). constructor; try done; lia.
  - intros [? ? ? (? & ? & ? & ? & ?) ?]. split_and!; try done; lia.
Qed.

(** A window that is open has at most its ceiling left, whenever it is asked. *)
Lemma remaining_bounded v now :
  grant_valid (vg_grant v) -> covers v now = true ->
  0 <= remaining_seconds v now <= MAX_GRANT_SECONDS.
Proof.
  intros [_ _ _ _ Hw] Hc. unfold covers in Hc. bool_hyps.
  unfold remaining_seconds, num_seconds, seconds, MAX_GRANT_SECONDS in *.
  rewrite Z.quot_div_nonneg by lia.
  assert ((g_expires_at (vg_grant v) - now) / 1000000000 < 14401) by (apply Z.div_lt_upper_bound; lia).
  assert (0 <= (g_expires_at (vg_grant v) - now) / 1000000000) by (apply Z.div_pos; lia).
  lia.
Qed.

Section verify_facts.
Context `{E : Ed25519} `{G : GrantJson} (sha256 : list Z -> list Z).

(** Why a grant is honoured. *)
Definition honoured (raw signature trust_root : list Z) (now : Z) (v : VerifiedGrant) : Prop :=
  verify_break_glass_signature raw signature trust_root = Ok tt /\
  grant_of_json raw = Ok (vg_grant v) /\ grant_valid (vg_grant v) /\
  covers v now = true /\ vg_digest v = bundle_digest sha256 raw.

Lemma verify_grant_ok raw signature trust_root now v :
  verify_grant sha256 raw signature trust_root now = Ok v <-> honoured raw signature trust_root now v.
Proof.
  unfold verify_grant, honoured, covers. rewrite bind_ok_unit, andb_true_iff.
  destruct (grant_of_json raw) as [g|e]; simpl; [|naive_solver].
  rewrite !bind_ok_unit, !refuse_if_ok, check_invariants_ok, Z.ltb_ge, Z.leb_gt. split.
  - intros (? & ? & ? & ? & [= <-]). simpl. split_and!; try done; lia.
  - intros (? & [= ->] & ? & [? ?] & ?). split_and!; try done; [lia | lia |].
    destruct v; simpl in *. by subst.
Qed.

(** A grant is honoured exactly when the trust root's key signed these very
    bytes in the break-glass domain, they decode to a grant of this schema and scope
    with every field attributable, its window is at most four hours, and the clock is
    inside it; and whenever its window is asked about afterwards, it is open only
    inside those four hours, with at most four hours left. *)
Lemma verify_grant_exact raw signature trust_root now v :
  (verify_grant sha256 raw signature trust_root now = Ok v <->
   honoured raw signature trust_root now v) /\
  (verify_grant sha256 raw signature trust_root now = Ok v ->
   forall t, covers v t = true ->
     g_issued_at (vg_grant v) <= t < g_issued_at (vg_grant v) + seconds MAX_GRANT_SECONDS /\
     0 <= remaining_seconds v t <= MAX_GRANT_SECONDS).
Proof.
  split; [apply verify_grant_ok|]. intros (_ & _ & Hv & _)%verify_grant_ok t Ht.
  split; [|by apply remaining_bounded]. destruct Hv as [_ _ _ _ Hw].
  unfold covers in Ht. bool_hyps. lia.
Qed.
End verify_facts.
