(* ===== verification/Journal.v ===== *)
(** * The break-glass journal

    [crates/ferrum-breakglass/src/journal.rs]: entries linked by hash, appending one
    with the I/O faults the code handles, reading a file back and verifying its
    chain. The file is its bytes ([None] when it does not exist); [serde_json] and
    SHA-256 are parameters. *)

From S2P Require Import Prelude RustStd RustText Ids Compiler Crypto Grant.

Definition JOURNAL_SCHEMA : string := "ferrum.io/break-glass-journal".
Definition JOURNAL_SCHEMA_VERSION : string := "1.0".
Definition GENESIS_HASH : string :=
  "0000000000000000000000000000000000000000000000000000000000000000".

Inductive JournalEvent := Activated | Expired | Rejected | Revoked.

#[global] Instance JournalEvent_eq_dec : EqDecision JournalEvent.
Proof. solve_decision. Defined.

Definition event_name (e : JournalEvent) : string :=
  match e with
  | Activated => "activated"
  | Expired => "expired"
  | Rejected => "rejected"
  | Revoked => "revoked"
  end.

Record Entry := {
  e_schema : string; e_schema_version : string;
  e_seq : Z; e_prev : string; e_ts : Z; e_component : string; e_event : string;
  e_scope : string; e_grant_id : string; e_grant_digest : string; e_subject : string;
  e_issuer : string; e_ticket : string; e_reason : string;
  e_issued_at : option Z; e_expires_at : option Z;
  e_detail : string; e_hash : string
}.

#[global] Instance Entry_eq_dec : EqDecision Entry.
Proof. solve_decision. Defined.

(** [entry.hash = h]. *)
Definition set_hash (h : string) (e : Entry) : Entry :=
  {| e_schema := e_schema e; e_schema_version := e_schema_version e; e_seq := e_seq e;
     e_prev := e_prev e; e_ts := e_ts e; e_component := e_component e; e_event := e_event e;
     e_scope := e_scope e; e_grant_id := e_grant_id e; e_grant_digest := e_grant_digest e;
     e_subject := e_subject e; e_issuer := e_issuer e; e_ticket := e_ticket e;
     e_reason := e_reason e; e_issued_at := e_issued_at e; e_expires_at := e_expires_at e;
     e_detail := e_detail e; e_hash := h |}.

(** The type invariant of an [Entry]: Rust strings and a [u64]. *)
Definition entry_strings (e : Entry) : list string :=
  [e_schema e; e_schema_version e; e_prev e; e_component e; e_event e; e_scope e; e_grant_id e;
   e_grant_digest e; e_subject e; e_issuer e; e_ticket e; e_reason e; e_detail e; e_hash e].

Definition entry_ok (e : Entry) : Prop := Forall str_ok (entry_strings e) /\ 0 <= e_seq e < U64.

#[global] Instance entry_ok_dec e : Decision (entry_ok e).
Proof. unfold entry_ok. apply _. Defined.

(** [serde_json::to_vec] / [to_string] of an entry, and [from_str]. *)
Class EntryJson : Type := {
  entry_json : Entry -> result string (list Z);
  entry_of_json : list Z -> result string Entry
}.

(** One line of text that is not blank: compact JSON of a struct starts with a brace
    and escapes every control character. *)
Definition json_line (b : list Z) : Prop :=
  utf8_ok b = true /\ 10 ∉ b /\ 13 ∉ b /\ Forall (fun x => 0 <= x < 256) b /\ exists r, b = 123 :: r.

(** A struct of strings, integers and instants always serialises, and reads back. *)
Class EntryJsonLaws (J : EntryJson) : Prop := {
  entry_json_roundtrip e :
    entry_ok e -> exists b, entry_json e = Ok b /\ json_line b /\ entry_of_json b = Ok e;
  entry_of_json_ok b e : entry_of_json b = Ok e -> entry_ok e
}.

(** ** Lines of a file *)

(** [!line.trim().is_empty()]. *)
Definition not_blank (line : list Z) : bool := negb (is_empty (trim_bytes line)).

(** ** The chain *)

(** What the calls on the file return, in the order the code makes them. *)
Inductive IoFault :=
| NoFault
| OpenFails (err : string)
| WriteFails (written : nat) (err : string)
| SyncFails (err : string).

Record Journal := { j_path : string; j_component : string; j_next_seq : Z; j_head : string }.

(** The loop body's view of a [char]: a control character becomes a space. *)
Definition sanitize (text : string) : string :=
  let out := map (fun c => if is_control c then [32] else c) (chars (as_bytes text)) in
  if MAX_FIELD_CHARS <? len out
  then string_of_bytes (concat (take (Z.to_nat MAX_FIELD_CHARS) out) ++ as_bytes "...")
  else string_of_bytes (concat out).

Section journal.
Context `{J : EntryJson} (sha256 : list Z -> list Z).

Definition computed_hash (e : Entry) : Result string :=
  bytes ← map_err (fun err => Degraded [Lit "break-glass journal entry will not serialise: "; Str err])
            (entry_json (set_hash "" e));
  Ok (hex_encode (sha256 bytes)).

Definition one_line (e : Entry) : Result (list Z) :=
  map_err (fun err => Degraded [Lit "break-glass journal entry will not serialise: "; Str err])
    (entry_json e).

(** The entry [append] builds, before its hash is set. *)
Definition new_entry (j : Journal) (event : JournalEvent) (now : Z) (grant : option Grant)
    (grant_digest detail : string) : Entry :=
  let field f := match grant with Some g => f g | None => "" end in
  {| e_schema := JOURNAL_SCHEMA; e_schema_version := JOURNAL_SCHEMA_VERSION;
     e_seq := j_next_seq j; e_prev := j_head j; e_ts := now; e_component := j_component j;
     e_event := event_name event; e_scope := field g_scope; e_grant_id := field g_id;
     e_grant_digest := grant_digest; e_subject := field g_subject; e_issuer := field g_issuer;
     e_ticket := field g_ticket; e_reason := field g_reason;
     e_issued_at := g_issued_at <$> grant; e_expires_at := g_expires_at <$> grant;
     e_detail := sanitize detail; e_hash := "" |}.

(** Appending: the entry and its line, then open, write and sync; the head moves
    only after the sync. Opening creates the file; a failed write leaves what it
    wrote, a failed sync leaves the whole line. *)
Definition append (j : Journal) (disk : option (list Z)) (fault : IoFault) (event : JournalEvent)
    (now : Z) (grant : option Grant) (grant_digest detail : string)
    : Result (list Z) * Journal * option (list Z) :=
  let bare := new_entry j event now grant grant_digest detail in
  match computed_hash bare with
  | Err e => (Err e, j, disk)
  | Ok h =>
      let entry := set_hash h bare in
      match one_line entry with
      | Err e => (Err e, j, disk)
      | Ok line =>
          let held := default [] disk in
          match fault with
          | OpenFails err =>
              (Err (Degraded [Lit "break-glass journal "; Str (j_path j);
                 Lit " cannot be appended to: "; Str err]), j, disk)
          | WriteFails n err =>
              (Err (Degraded [Lit "break-glass journal "; Str (j_path j);
                 Lit ": write failed: "; Str err]), j, Some (held ++ take n (line ++ [10])))
          | SyncFails err =>
              (Err (Degraded [Lit "break-glass journal "; Str (j_path j);
                 Lit ": fsync failed: "; Str err]), j, Some (held ++ line ++ [10]))
          | NoFault =>
              (Ok line,
               {| j_path := j_path j; j_component := j_component j;
                  j_next_seq := (j_next_seq j + 1) mod U64; j_head := e_hash entry |},
               Some (held ++ line ++ [10]))
          end
      end
  end.

(** One iteration of [verify_lines]: line [index] must decode, be of this schema,
    carry its own number, link to [prev] and match its own digest. *)
Definition verify_line (index : Z) (prev : string) (line : list Z) : Result Entry :=
  entry ← map_err (fun err => Integrity [Lit "break-glass journal line "; Num (index + 1);
              Lit ": not a journal entry: "; Str err]) (entry_of_json line);
  _ ← refuse_if (negb (str_eqb (e_schema entry) JOURNAL_SCHEMA))
        (Integrity [Lit "break-glass journal line "; Num (index + 1); Lit ": schema ";
           Dbg (e_schema entry); Lit " is not "; Str JOURNAL_SCHEMA]);
  _ ← refuse_if (negb (e_seq entry =? index))
        (Integrity [Lit "break-glass journal line "; Num (index + 1); Lit ": seq "; Num (e_seq entry);
           Lit " where "; Num index; Lit " was expected; "; Num (Z.abs (e_seq entry - index));
           Lit " entr"; Lit (if Z.abs (e_seq entry - index) =? 1 then "y is" else "ies are");
           Lit " missing or reordered"]);
  _ ← refuse_if (negb (str_eqb (e_prev entry) prev))
        (Integrity [Lit "break-glass journal line "; Num (index + 1); Lit ": prev "; Str (e_prev entry);
           Lit " does not link to the entry before it ("; Str prev; Lit "); the chain has been edited"]);
  computed ← computed_hash entry;
  _ ← refuse_if (negb (str_eqb computed (e_hash entry)))
        (Integrity [Lit "break-glass journal line "; Num (index + 1); Lit ": hash "; Str (e_hash entry);
           Lit " does not match its own contents ("; Str computed;
           Lit "); this entry was altered after it was written"]);
  Ok entry.

Fixpoint verify_from (index : Z) (prev : string) (lines : list (list Z)) : Result (list Entry) :=
  match lines with
  | [] => Ok []
  | line :: rest =>
      entry ← verify_line index prev line;
      out ← verify_from (index + 1) (e_hash entry) rest;
      Ok (entry :: out)
  end.

Definition verify_lines (lines : list (list Z)) : Result (list Entry) :=
  verify_from 0 GENESIS_HASH lines.

(** [Journal::verify_path] on a file that could be read. *)
Definition verify_bytes (path : string) (bytes : list Z) : Result (list Entry) :=
  _ ← refuse_if (negb (utf8_ok bytes))
        (Degraded [Lit "break-glass journal "; Str path;
           Lit " is unreadable: stream did not contain valid UTF-8"]);
  verify_lines (List.filter not_blank (lines_of bytes)).

(** The position after the last entry: where [open] continues. *)
Definition chain_end (entries : list Entry) : Z * string :=
  match last entries with
  | Some e => ((e_seq e + 1) mod U64, e_hash e)
  | None => (0, GENESIS_HASH)
  end.

Definition probe_writable (path : string) (disk : option (list Z)) (fault : IoFault)
    : Result unit * option (list Z) :=
  match fault with
  | OpenFails err =>
      (Err (Degraded [Lit "break-glass journal "; Str path; Lit " is not writable: "; Str err;
         Lit ". Break-glass stays off: a suspension this process cannot record is one nobody can account for later."]), disk)
  | SyncFails err =>
      (Err (Degraded [Lit "break-glass journal "; Str path;
         Lit ": the filesystem refused fsync: "; Str err]), Some (default [] disk))
  | _ => (Ok tt, Some (default [] disk))
  end.

(** [Journal::open]: [cannot_open] is an error of [File::open] other than a missing
    file. Lines are read one by one, so an unreadable one is found before the chain
    is looked at. *)
Definition journal_open (path component : string) (disk : option (list Z))
    (cannot_open : option string) (probe : IoFault) : Result Journal * option (list Z) :=
  let start :=
    match cannot_open with
    | Some err => Err (Degraded [Lit "break-glass journal "; Str path; Lit " cannot be opened: "; Str err])
    | None =>
        match disk with
        | None => Ok (0, GENESIS_HASH)
        | Some bytes =>
            _ ← try_each (fun line => refuse_if (negb (utf8_ok line))
                  (Degraded [Lit "break-glass journal "; Str path;
                     Lit " is unreadable: stream did not contain valid UTF-8"])) (lines_of bytes);
            chain_end <$> verify_lines (List.filter not_blank (lines_of bytes))
        end
    end in
  match start with
  | Err e => (Err e, disk)
  | Ok (next_seq, head) =>
      let '(probed, disk') := probe_writable path disk probe in
      (_ ← probed; Ok {| j_path := path; j_component := component; j_next_seq := next_seq;
                         j_head := head |}, disk')
  end.
End journal.

(** ** Lines *)

Lemma lines_from_piece acc b rest :
  10 ∉ b -> lines_from acc (b ++ 10 :: rest) = strip_cr (acc ++ b) :: lines_of rest.
Proof.
  revert acc. induction b as [|x b IH]; intros acc Hb; simpl; [by rewrite app_nil_r|].
  apply not_elem_of_cons in Hb as [Hx Hb]. rewrite (proj2 (Z.eqb_neq x 10)) by congruence.
  rewrite IH by done. by rewrite <- app_assoc.
Qed.

(** The file ends where a line does. *)
Definition ends_clean (bytes : list Z) : Prop := bytes = [] \/ last bytes = Some 10.

Lemma strip_cr_id b : 13 ∉ b -> strip_cr b = b.
Proof.
  intros H. unfold strip_cr. destruct (rev b) as [|x r] eqn:E; [done|].
  assert (x ∈ b) as Hx by (apply list_elem_of_In, in_rev; rewrite E; by left).
  assert (x <> 13) by (by intros ->).
  destruct x as [|p|p]; try done. do 4 (destruct p as [p|p|]; try done).
Qed.

Lemma lines_from_clean acc bytes line :
  last bytes = Some 10 -> 10 ∉ line -> 13 ∉ line ->
  lines_from acc (bytes ++ line ++ [10]) = lines_from acc bytes ++ [line].
Proof.
  intros Hl H10 H13. revert acc Hl. induction bytes as [|b bytes IH]; intros acc Hl; [done|].
  destruct (decide (bytes = [])) as [->|Hne].
  - injection Hl as ->. simpl. rewrite lines_from_piece by done. simpl. by rewrite (strip_cr_id line).
  - rewrite last_cons in Hl. destruct (last bytes) as [x|] eqn:E; [|by apply last_None in E; subst].
    simpl. case_match; rewrite IH by done; done.
Qed.

Lemma lines_of_clean bytes line :
  ends_clean bytes -> 10 ∉ line -> 13 ∉ line -> lines_of (bytes ++ line ++ [10]) = lines_of bytes ++ [line].
Proof.
  intros [-> | Hl] H10 H13; [|by apply lines_from_clean].
  unfold lines_of. simpl. rewrite lines_from_piece by done. simpl. by rewrite strip_cr_id.
Qed.

(** ** Hex *)

Lemma hex_digit_inj a b : 0 <= a < 16 -> 0 <= b < 16 -> hex_digit a = hex_digit b -> a = b.
Proof. unfold hex_digit. intros. repeat case_match; bool_hyps; lia. Qed.

Lemma hex_digit_ascii a : 0 <= a < 16 -> 48 <= hex_digit a < 128.
Proof. unfold hex_digit. intros. case_match; bool_hyps; lia. Qed.

Lemma nibbles b : 0 <= b < 256 ->
  (0 <= Z.shiftr b 4 < 16 /\ 0 <= Z.land b 15 < 16) /\ b = 16 * Z.shiftr b 4 + Z.land b 15.
Proof.
  intros Hb. rewrite Z.shiftr_div_pow2 by done. change 15 with (Z.ones 4).
  rewrite Z.land_ones by done. change (2 ^ 4) with 16. split; [|apply Z.div_mod; done].
  split; [|apply Z.mod_pos_bound; done].
  split; [apply Z.div_pos; lia | apply Z.div_lt_upper_bound; lia].
Qed.

Definition hex_bytes (l : list Z) : list Z :=
  concat (map (fun b => [hex_digit (Z.shiftr b 4); hex_digit (Z.land b 15)]) l).

Lemma hex_bytes_range l :
  Forall (fun b => 0 <= b < 256) l -> Forall (fun b => 48 <= b < 128) (hex_bytes l).
Proof.
  induction 1 as [|b l Hb _ IH]; simpl; [constructor|].
  destruct (nibbles b Hb) as [[? ?] _]. repeat constructor; try apply hex_digit_ascii; try done.
Qed.

Lemma as_bytes_hex l :
  Forall (fun b => 0 <= b < 256) l -> as_bytes (hex_encode l) = hex_bytes l.
Proof.
  intros Hl. unfold hex_encode. fold (hex_bytes l). apply as_bytes_of_string.
  eapply Forall_impl; [by apply hex_bytes_range|]. simpl. lia.
Qed.

Lemma hex_encode_ok l : Forall (fun b => 0 <= b < 256) l -> str_ok (hex_encode l).
Proof.
  intros Hl. unfold str_ok, utf8_ok. rewrite as_bytes_hex by done. apply Nat.eqb_eq, utf8_valid_ascii.
  eapply Forall_impl; [by apply hex_bytes_range|]. simpl. lia.
Qed.

Lemma hex_encode_inj l k :
  Forall (fun b => 0 <= b < 256) l -> Forall (fun b => 0 <= b < 256) k ->
  hex_encode l = hex_encode k -> l = k.
Proof.
  intros Hl Hk H. apply (f_equal as_bytes) in H. rewrite !as_bytes_hex in H by done.
  revert k Hk H. induction Hl as [|b l Hb _ IH]; intros k Hk H; destruct Hk as [|c k Hc Hk]; try done.
  injection H as H1 H2 H3.
  destruct (nibbles b Hb) as [[? ?] Eb], (nibbles c Hc) as [[? ?] Ec].
  f_equal; [|by apply IH]. rewrite Eb, Ec. f_equal; [f_equal|]; by apply hex_digit_inj.
Qed.

(** ** The chain *)

Section chain.
Context `{J : EntryJson} (sha256 : list Z -> list Z).
Context `{!EntryJsonLaws J} (Hsha : forall m, Forall (fun b => 0 <= b < 256) (sha256 m)).

(** Entry [e] at position [index] after a chain with head [prev]. *)
Definition links (index : Z) (prev : string) (e : Entry) : Prop :=
  e_schema e = JOURNAL_SCHEMA /\ e_seq e = index /\ e_prev e = prev /\
  computed_hash sha256 e = Ok (e_hash e).

Lemma verify_line_ok index prev line e :
  verify_line sha256 index prev line = Ok e <-> entry_of_json line = Ok e /\ links index prev e.
Proof.
  unfold verify_line, links. destruct (entry_of_json line) as [e'|]; simpl; [|naive_solver].
  destruct (computed_hash sha256 e') as [h|] eqn:Eh; simpl.
  - rewrite !bind_ok_unit, !refuse_if_ok, !negb_false_iff, !str_eqb_true, Z.eqb_eq. split.
    + intros (? & ? & ? & -> & [= <-]). by rewrite Eh.
    + intros ([= <-] & ? & ? & ? & H). rewrite Eh in H. by injection H as ->.
  - rewrite !bind_ok_unit. split; [by intros (_ & _ & _ & ?)|].
    intros ([= <-] & _ & _ & _ & H). congruence.
Qed.

Fixpoint linked (index : Z) (prev : string) (es : list Entry) : Prop :=
  match es with
  | [] => True
  | e :: es' => links index prev e /\ linked (index + 1) (e_hash e) es'
  end.

Lemma verify_from_ok index prev lines es :
  verify_from sha256 index prev lines = Ok es <->
  Forall2 (fun l e => entry_of_json l = Ok e) lines es /\ linked index prev es.
Proof.
  revert index prev es. induction lines as [|l lines IH]; intros index prev es; simpl.
  - split; [by intros [= <-] | by intros [?%Forall2_nil_inv_l _]; subst].
  - rewrite bind_ok. split.
    + intros (e & [He Hl]%verify_line_ok & H). apply bind_ok in H as (es' & [H1 H2]%IH & [= <-]).
      split; [by constructor | by split].
    + intros [(e & es' & He & Hes & ->)%Forall2_cons_inv_l [Hl Hk]]. exists e.
      split; [by apply verify_line_ok|]. apply bind_ok. exists es'. split; [by apply IH | done].
Qed.

(** Where a chain that starts at [index] after [prev] ends. *)
Definition head_after (prev : string) (es : list Entry) : string :=
  match last es with Some e => e_hash e | None => prev end.

Lemma head_after_cons prev e es : head_after prev (e :: es) = head_after (e_hash e) es.
Proof. unfold head_after. rewrite last_cons. by destruct (last es). Qed.

Lemma linked_snoc index prev es e :
  linked index prev (es ++ [e]) <->
  linked index prev es /\ links (index + len es) (head_after prev es) e.
Proof.
  revert index prev. induction es as [|x es IH]; intros index prev.
  - unfold head_after. cbn. rewrite Z.add_0_r. naive_solver.
  - rewrite head_after_cons, len_cons. simpl. rewrite IH.
    replace (index + 1 + len es) with (index + (1 + len es)) by lia. naive_solver.
Qed.

Lemma linked_lookup index prev es i e :
  linked index prev es -> es !! i = Some e -> e_seq e = index + Z.of_nat i.
Proof.
  revert index prev i. induction es as [|x es IH]; intros index prev i; [done|].
  intros [(_ & Hs & _) Hl]. destruct i as [|i]; simpl.
  - intros [= <-]. lia.
  - intros H. rewrite (IH _ _ _ Hl H). lia.
Qed.
End chain.

(** ** Text that stays on its line *)

Lemma utf8_app a b : utf8_ok a = true -> utf8_ok b = true -> utf8_ok (a ++ b) = true.
Proof.
  intros [Ha Ea]%utf8_chars [Hb Eb]%utf8_chars. rewrite <- Ea, <- Eb, <- concat_app.
  apply utf8_concat. by apply Forall_app.
Qed.

Lemma trim_rev_keeps l : trim_rev_bytes l = [] -> Forall (fun b => b <> 123) l.
Proof.
  remember (length l) as n eqn:Hn. revert l Hn. induction (lt_wf n) as [n _ IH]. intros l ->.
  assert (Hk : forall k, (length k < length l)%nat -> trim_rev_bytes k = [] ->
    Forall (fun b => b <> 123) k) by (intros k Hk; by apply (IH (length k))).
  clear IH. destruct l as [|b0 [|b1 [|b2 l]]]; [intros _; apply Forall_nil_2| | |]; cbn [trim_rev_bytes];
    repeat case_match; try done; unfold ws1, ws2, ws3, in_range in *; bool_hyps; intros Hz;
    repeat (apply Forall_cons; split; [lia|]); first [apply Forall_nil_2 | apply Hk; simpl; done || lia].
Qed.

Lemma json_not_blank b : json_line b -> not_blank b = true.
Proof.
  intros (_ & _ & _ & _ & r & ->). unfold not_blank, trim_bytes. apply negb_true_iff, is_empty_false.
  intros H%(f_equal (@rev Z)). rewrite rev_involutive in H. apply trim_rev_keeps in H.
  rewrite Forall_forall in H. apply (H 123); [|done].
  apply list_elem_of_In, (in_rev (trim_start_bytes (123 :: r))). destruct r as [|b1 [|b2 r]]; by left.
Qed.

Lemma sanitize_ok text : str_ok text -> str_ok (sanitize text).
Proof.
  intros Hok. destruct (utf8_chars (as_bytes text) Hok) as [Hs Hc].
  set (good c := is_scalar c = true /\ Forall (fun b => 0 <= b < 256) c).
  assert (Hgood : Forall good (chars (as_bytes text))).
  { apply Forall_and. split; [done|]. apply Forall_concat. rewrite Hc. apply as_bytes_range. }
  assert (Hout : forall cs, Forall good cs -> str_ok (string_of_bytes (concat cs))).
  { intros cs [H1 H2]%Forall_and. unfold str_ok. rewrite as_bytes_of_string by by apply Forall_concat.
    by apply utf8_concat. }
  assert (Hmap : Forall good (map (fun c => if is_control c then [32] else c) (chars (as_bytes text)))).
  { apply Forall_map. eapply Forall_impl; [exact Hgood|]. intros c Hg. simpl.
    case_match; [|done]. split; [done|]. by repeat constructor. }
  unfold sanitize. case_match; [|by apply Hout].
  change (as_bytes "...") with (concat [[46]; [46]; [46]]). rewrite <- concat_app. apply Hout.
  apply Forall_app. split; [by apply Forall_take|]. by repeat constructor.
Qed.

(** ** The journal and its file *)

Lemma head_after_ok es : Forall entry_ok es -> str_ok (head_after GENESIS_HASH es).
Proof.
  intros H. unfold head_after. destruct (last es) as [e|] eqn:E; [|vm_compute; reflexivity].
  apply last_Some_elem_of in E. rewrite Forall_forall in H. apply H in E as [Hs _].
  rewrite Forall_forall in Hs. apply Hs. unfold entry_strings. set_solver.
Qed.

Lemma new_entry_ok j event now grant digest detail :
  str_ok (j_head j) -> str_ok (j_component j) -> str_ok digest -> str_ok detail ->
  (forall g, grant = Some g -> grant_ok g) -> 0 <= j_next_seq j < U64 ->
  entry_ok (new_entry j event now grant digest detail).
Proof.
  intros Hh Hc Hd Ht Hg Hs. split; [|done].
  assert (Hempty : str_ok "") by (vm_compute; reflexivity).
  assert (Hf : forall f, (forall g, grant_ok g -> str_ok (f g)) ->
    str_ok (match grant with Some g => f g | None => "" end)).
  { intros f Hf. destruct grant as [g|]; [|done]. by apply Hf, Hg. }
  assert (Hfields : forall g, grant_ok g -> Forall str_ok [g_scope g; g_id g; g_subject g; g_issuer g;
    g_ticket g; g_reason g]).
  { intros g. unfold grant_ok. rewrite !Forall_cons. tauto. }
  assert (event_ok : str_ok (event_name event)) by (destruct event; vm_compute; reflexivity).
  unfold entry_strings, new_entry; cbn -[sanitize]. rewrite !Forall_cons.
  split_and!; try done; try (by apply sanitize_ok); try (vm_compute; reflexivity);
    apply Hf; intros g Hgk; apply Hfields in Hgk; rewrite !Forall_cons in Hgk; tauto.
Qed.
Section journal_facts.
Context `{J : EntryJson} (sha256 : list Z -> list Z).
Context `{!EntryJsonLaws J} (Hsha : forall m, Forall (fun b => 0 <= b < 256) (sha256 m)).

(** The file holds the chain [es], whole lines of text, and the journal continues it. *)
Record synced (j : Journal) (disk : option (list Z)) (es : list Entry) : Prop := {
  sy_clean : ends_clean (default [] disk);
  sy_text : utf8_ok (default [] disk) = true;
  sy_lines : Forall (fun l => utf8_ok l = true) (lines_of (default [] disk));
  sy_chain : verify_lines sha256 (List.filter not_blank (lines_of (default [] disk))) = Ok es;
  sy_seq : j_next_seq j = len es;
  sy_head : j_head j = head_after GENESIS_HASH es
}.

(** What entry [e] says of an event. *)
Record records (e : Entry) (j : Journal) (event : JournalEvent) (now : Z) (grant : option Grant)
    (digest : string) : Prop := {
  rc_event : e_event e = event_name event;
  rc_ts : e_ts e = now;
  rc_component : e_component e = j_component j;
  rc_digest : e_grant_digest e = digest;
  rc_grant : forall g, grant = Some g ->
    e_grant_id e = g_id g /\ e_scope e = g_scope g /\ e_subject e = g_subject g /\
    e_issuer e = g_issuer g /\ e_ticket e = g_ticket g /\ e_reason e = g_reason g /\
    e_issued_at e = Some (g_issued_at g) /\ e_expires_at e = Some (g_expires_at g)
}.

Lemma verified_entries_ok lines es : verify_lines sha256 lines = Ok es -> Forall entry_ok es.
Proof using EntryJsonLaws0.
  intros [H _]%verify_from_ok. induction H; constructor; [by eapply entry_of_json_ok | done].
Qed.

(** The entry and the line an append prepares, and what each fault makes of them. *)
Lemma append_run j disk fault event now grant digest detail :
  entry_ok (new_entry j event now grant digest detail) ->
  exists e line,
    records e j event now grant digest /\ links sha256 (j_next_seq j) (j_head j) e /\
    entry_json e = Ok line /\ json_line line /\ entry_of_json line = Ok e /\
    let held := default [] disk in
    match append sha256 j disk fault event now grant digest detail with
    | (r, j', disk') =>
        match fault with
        | NoFault => r = Ok line /\ disk' = Some (held ++ line ++ [10]) /\
            j' = {| j_path := j_path j; j_component := j_component j;
                    j_next_seq := (j_next_seq j + 1) mod U64; j_head := e_hash e |}
        | OpenFails _ => is_ok r = false /\ j' = j /\ disk' = disk
        | WriteFails n _ => is_ok r = false /\ j' = j /\ disk' = Some (held ++ take n (line ++ [10]))
        | SyncFails _ => is_ok r = false /\ j' = j /\ disk' = Some (held ++ line ++ [10])
        end
    end.
Proof using EntryJsonLaws0 Hsha.
  set (bare := new_entry j event now grant digest detail). intros Hok.
  destruct (entry_json_roundtrip bare Hok) as (b & Hb & _ & _).
  assert (Hhash : forall h, computed_hash sha256 (set_hash h bare) = Ok (hex_encode (sha256 b))).
  { intros h. unfold computed_hash. change (set_hash "" (set_hash h bare)) with bare. by rewrite Hb. }
  set (e := set_hash (hex_encode (sha256 b)) bare).
  assert (Hek : entry_ok e).
  { destruct Hok as [Hs Hq]. split; [|done]. unfold entry_strings in *.
    rewrite !Forall_cons in *. split_and!; try apply Hs. by apply hex_encode_ok. }
  destruct (entry_json_roundtrip e Hek) as (line & Hline & Hj & Hback).
  exists e, line. split_and!; try done.
  - constructor; try done. by intros g ->.
  - split_and!; try done. apply Hhash.
  - unfold append. fold bare. rewrite (Hhash "" : computed_hash sha256 bare = _). fold e.
    unfold one_line. rewrite Hline. by destruct fault.
Qed.

Lemma synced_extend j disk es e line :
  synced j disk es -> links sha256 (j_next_seq j) (j_head j) e ->
  json_line line -> entry_of_json line = Ok e -> len es + 1 < U64 ->
  synced {| j_path := j_path j; j_component := j_component j;
            j_next_seq := (j_next_seq j + 1) mod U64; j_head := e_hash e |}
    (Some (default [] disk ++ line ++ [10])) (es ++ [e]).
Proof using Type.
  intros [Hc Ht Hl Hv Hs Hh] Hlink Hj Hdec Hroom. pose proof (json_not_blank _ Hj) as Hnb.
  destruct Hj as (Hu & H10 & H13 & _ & _). pose proof (len_nonneg es).
  rewrite Hs in *. rewrite Hh in Hlink.
  set (bytes := default [] disk ++ line ++ [10]).
  constructor; simpl; unfold bytes, id.
  - right. rewrite app_assoc. apply last_snoc.
  - apply utf8_app; [done|]. by apply utf8_app.
  - rewrite lines_of_clean by done. apply Forall_app. by repeat constructor.
  - rewrite lines_of_clean, List.filter_app by done. simpl. rewrite Hnb.
    apply verify_from_ok in Hv as [Hf Hk]. apply verify_from_ok. split.
    + apply Forall2_app; [done|]. by repeat constructor.
    + apply linked_snoc. by rewrite Z.add_0_l.
  - rewrite Z.mod_small, len_app by lia. done.
  - unfold head_after. by rewrite last_snoc.
Qed.

Lemma chain_end_linked es :
  linked sha256 0 GENESIS_HASH es -> len es < U64 ->
  chain_end es = (len es, head_after GENESIS_HASH es).
Proof using Type.
  intros Hl Hn. unfold chain_end, head_after. destruct (last es) as [e|] eqn:E.
  - rewrite last_lookup in E. pose proof (linked_lookup _ _ _ _ _ _ Hl E) as Hs.
    assert (0 < len es) by (apply lookup_lt_Some in E; unfold len; lia).
    f_equal. rewrite Hs. unfold len in *. rewrite Z.mod_small by lia. lia.
  - by apply last_None in E as ->.
Qed.

(** Starting again on the file gives the journal that wrote it. *)
Lemma synced_reopen j bytes es :
  synced j (Some bytes) es -> len es < U64 ->
  journal_open sha256 (j_path j) (j_component j) (Some bytes) None NoFault = (Ok j, Some bytes).
Proof using Type.
  intros [Hc Ht Hl Hv Hs Hh] Hn. simpl in *. unfold journal_open.
  assert (try_each (fun line => refuse_if (negb (utf8_ok line))
    (Degraded [Lit "break-glass journal "; Str (j_path j);
       Lit " is unreadable: stream did not contain valid UTF-8"])) (lines_of bytes) = Ok tt) as ->.
  { apply try_each_ok. eapply Forall_impl; [exact Hl|]. by intros l ->. }
  simpl. rewrite Hv. simpl. apply verify_from_ok in Hv as [_ Hk].
  rewrite chain_end_linked by done. simpl. by destruct j; simpl in *; subst.
Qed.

(** the file a journal keeps always verifies. On a journal that continues the
    chain in its file, an append that succeeds leaves a file that verifies to the
    same chain with one entry more, recording this event and this grant, and a
    process that restarts on it continues exactly where this one is; one that cannot
    open the file changes nothing. *)
Lemma append_extends_chain j disk es fault event now grant digest detail
    (Hsynced : synced j disk es) (Hroom : len es + 1 < U64)
    (Htypes : Forall str_ok [j_component j; digest; detail])
    (Hgrant : forall g, grant = Some g -> grant_ok g) :
  match append sha256 j disk fault event now grant digest detail with
  | (r, j', disk') =>
      match fault with
      | NoFault => is_ok r = true /\
          exists e bytes, records e j event now grant digest /\ disk' = Some bytes /\
            verify_bytes sha256 (j_path j) bytes = Ok (es ++ [e]) /\ synced j' disk' (es ++ [e]) /\
            journal_open sha256 (j_path j) (j_component j) disk' None NoFault = (Ok j', disk')
      | OpenFails _ => is_ok r = false /\ j' = j /\ synced j' disk' es
      | _ => is_ok r = false /\ j' = j
      end
  end.
Proof using EntryJsonLaws0 Hsha.
  rewrite !Forall_cons in Htypes. destruct Htypes as (Hc & Hd & Ht & _).
  assert (Hok : entry_ok (new_entry j event now grant digest detail)).
  { pose proof (len_nonneg es). apply new_entry_ok; try done.
    - rewrite (sy_head _ _ _ Hsynced). eapply head_after_ok, verified_entries_ok, sy_chain, Hsynced.
    - rewrite (sy_seq _ _ _ Hsynced). lia. }
  destruct (append_run j disk fault event now grant digest detail Hok)
    as (e & line & Hrec & Hlink & _ & Hj & Hdec & Hrun).
  destruct (append _ _ _ _ _ _ _ _ _) as [[r j'] disk']. destruct fault.
  - destruct Hrun as (-> & -> & ->). split; [done|].
    pose proof (synced_extend _ _ _ _ _ Hsynced Hlink Hj Hdec Hroom) as Hs.
    exists e. eexists. split_and!; [done | done | | done |].
    + destruct Hs as [_ Htext _ Hchain _ _]. simpl in Htext, Hchain. unfold verify_bytes, id in *.
      rewrite Htext. exact Hchain.
    + apply (synced_reopen _ _ _ Hs). rewrite len_app. done.
  - by destruct Hrun as (? & -> & ->).
  - by destruct Hrun as (? & ? & _).
  - by destruct Hrun as (? & ? & _).
Qed.
(** One hash, one entry, or two messages with the same SHA-256. *)
Lemma same_hash_same_entry e1 e2 :
  entry_ok e1 -> entry_ok e2 ->
  computed_hash sha256 e1 = Ok (e_hash e1) -> computed_hash sha256 e2 = Ok (e_hash e2) ->
  e_hash e1 = e_hash e2 ->
  e1 = e2 \/ exists m1 m2, m1 <> m2 /\ sha256 m1 = sha256 m2.
Proof using EntryJsonLaws0 Hsha.
  assert (Hbare : forall e, entry_ok e -> entry_ok (set_hash "" e)).
  { intros e [Hs Hq]. split; [|done]. unfold entry_strings in *. rewrite !Forall_cons in *.
    split_and!; try apply Hs. vm_compute. reflexivity. }
  intros Hk1 Hk2 H1 H2 He. unfold computed_hash in *.
  destruct (entry_json_roundtrip _ (Hbare _ Hk1)) as (b1 & J1 & _ & D1).
  destruct (entry_json_roundtrip _ (Hbare _ Hk2)) as (b2 & J2 & _ & D2).
  rewrite J1 in H1. rewrite J2 in H2. injection H1 as H1. injection H2 as H2.
  destruct (decide (b1 = b2)) as [->|Hne].
  - left. rewrite D1 in D2. assert (set_hash "" e1 = set_hash "" e2) as Hs by congruence.
    assert (Hset : forall e, set_hash (e_hash e) (set_hash "" e) = e) by (by intros []).
    by rewrite <- (Hset e1), <- (Hset e2), He, Hs.
  - right. exists b1, b2. split; [done|]. apply hex_encode_inj; [done | done | congruence].
Qed.

Lemma linked_prev index prev es i e :
  linked sha256 index prev es -> es !! S i = Some e -> exists p, es !! i = Some p /\ e_prev e = e_hash p.
Proof using Type.
  revert index prev i. induction es as [|x es IH]; intros index prev i; [done|]. intros [_ Hl].
  destruct i as [|i]; simpl; [|by eapply IH].
  destruct es as [|y es]; [done|]. intros [= <-]. destruct Hl as [(_ & _ & Hp & _) _]. eauto.
Qed.

Lemma linked_hash index prev es i e :
  linked sha256 index prev es -> es !! i = Some e -> computed_hash sha256 e = Ok (e_hash e).
Proof using Type.
  revert index prev i. induction es as [|x es IH]; intros index prev i; [done|].
  intros [(_ & _ & _ & Hh) Hl]. destruct i as [|i]; simpl; [by intros [= <-] | by eapply IH].
Qed.

End journal_facts.

(** ** A stand-in for the codec and the hash

    A line is a brace and the fields, each ended by a semicolon: two letters per byte
    of a string, binary digits for the rest. *)

Definition spell (s : string) : list Z :=
  concat (map (fun b => [65 + Z.shiftr b 4; 65 + Z.land b 15]) (as_bytes s)).

Fixpoint spelt (l : list Z) : list Z :=
  match l with
  | hi :: lo :: rest => 16 * (hi - 65) + (lo - 65) :: spelt rest
  | _ => []
  end.

Fixpoint bits (p : positive) : list Z :=
  match p with
  | xH => []
  | xO q => 48 :: bits q
  | xI q => 49 :: bits q
  end.

Fixpoint of_bits (l : list Z) : positive :=
  match l with
  | [] => xH
  | b :: l' => if b =? 49 then xI (of_bits l') else xO (of_bits l')
  end.

Fixpoint pieces (acc l : list Z) : list (list Z) :=
  match l with
  | [] => []
  | b :: l' => if b =? 59 then rev acc :: pieces [] l' else pieces (b :: acc) l'
  end.

Definition joined (ps : list (list Z)) : list Z := concat (map (fun p => p ++ [59]) ps).

(** The bytes a field is written with. *)
Definition field_byte (b : Z) : Prop := b = 48 \/ b = 49 \/ 65 <= b < 81.

Lemma spell_bytes s : Forall field_byte (spell s).
Proof.
  unfold spell. induction (as_bytes_range s) as [|b l Hb _ IH]; simpl; [constructor|].
  destruct (nibbles b Hb) as [[? ?] _]. apply Forall_cons. split; [right; right; lia|].
  apply Forall_cons. split; [right; right; lia | exact IH].
Qed.

Lemma bits_bytes p : Forall field_byte (bits p).
Proof. induction p; simpl; try apply Forall_cons; unfold field_byte; auto. Qed.

Lemma spelt_spell s : string_of_bytes (spelt (spell s)) = s.
Proof.
  rewrite <- (string_of_as_bytes s) at 2. f_equal. unfold spell.
  induction (as_bytes_range s) as [|b l Hb _ IH]; simpl; [done|].
  destruct (nibbles b Hb) as [_ Eb]. f_equal; [lia | exact IH].
Qed.

Lemma of_bits_bits p : of_bits (bits p) = p.
Proof. induction p; simpl; congruence. Qed.

Lemma pieces_joined ps :
  Forall (Forall field_byte) ps -> pieces [] (joined ps) = ps.
Proof.
  assert (Hp : forall p acc rest, Forall field_byte p ->
    pieces acc (p ++ 59 :: rest) = (rev acc ++ p) :: pieces [] rest).
  { induction p as [|b p IH]; intros acc rest; simpl; [by rewrite app_nil_r|].
    intros [Hb Hp]%Forall_cons. rewrite (proj2 (Z.eqb_neq b 59)) by (unfold field_byte in Hb; lia).
    rewrite IH by done. simpl. by rewrite <- app_assoc. }
  unfold joined. induction 1 as [|p ps Hps _ IH]; simpl; [done|].
  rewrite <- app_assoc. simpl. rewrite Hp by done. simpl. by rewrite IH.
Qed.

Definition pack (e : Entry) : list (list Z) :=
  [spell (e_schema e); spell (e_schema_version e); bits (encode (e_seq e)); spell (e_prev e);
   bits (encode (e_ts e)); spell (e_component e); spell (e_event e); spell (e_scope e);
   spell (e_grant_id e); spell (e_grant_digest e); spell (e_subject e); spell (e_issuer e);
   spell (e_ticket e); spell (e_reason e); bits (encode (e_issued_at e));
   bits (encode (e_expires_at e)); spell (e_detail e); spell (e_hash e)].

Definition unpack (l : list (list Z)) : option Entry :=
  let str p := string_of_bytes (spelt p) in
  match l with
  | [a1; a2; a3; a4; a5; a6; a7; a8; a9; a10; a11; a12; a13; a14; a15; a16; a17; a18] =>
      seq ← decode (of_bits a3); ts ← decode (of_bits a5);
      issued ← decode (of_bits a15); expires ← decode (of_bits a16);
      Some {| e_schema := str a1; e_schema_version := str a2; e_seq := seq; e_prev := str a4;
              e_ts := ts; e_component := str a6; e_event := str a7; e_scope := str a8;
              e_grant_id := str a9; e_grant_digest := str a10; e_subject := str a11;
              e_issuer := str a12; e_ticket := str a13; e_reason := str a14; e_issued_at := issued;
              e_expires_at := expires; e_detail := str a17; e_hash := str a18 |}
  | _ => None
  end.

Lemma pack_bytes e : Forall (Forall field_byte) (pack e).
Proof. unfold pack. rewrite !Forall_cons, Forall_nil. split_and!; auto using spell_bytes, bits_bytes. Qed.

Lemma unpack_pack e : unpack (pack e) = Some e.
Proof.
  unfold unpack, pack. rewrite !of_bits_bits, !decode_encode. cbn [mbind option_bind].
  rewrite !spelt_spell. by destruct e.
Qed.

#[global] Instance toy_entry_json : EntryJson := {
  entry_json e := Ok (123 :: joined (pack e));
  entry_of_json b :=
    match b with
    | 123 :: r =>
        match unpack (pieces [] r) with
        | Some e => if decide (entry_ok e) then Ok e else Err "not an entry"
        | None => Err "not an entry"
        end
    | _ => Err "expected an object"
    end
}.

#[global] Instance toy_entry_json_laws : EntryJsonLaws toy_entry_json.
Proof.
  split.
  - intros e He. eexists. split; [done|]. pose proof (pack_bytes e) as Hp. split.
    + assert (Hr : Forall (fun b => b = 123 \/ b = 59 \/ field_byte b) (123 :: joined (pack e))).
      { constructor; [by left|]. unfold joined. apply Forall_concat, Forall_map.
        eapply Forall_impl; [exact Hp|]. intros p H. simpl. apply Forall_app.
        split; [|constructor; [by right; left | constructor]]. eapply Forall_impl; [exact H|]. auto. }
      rewrite Forall_forall in Hr. unfold field_byte in Hr. split_and!.
      * unfold utf8_ok. apply Nat.eqb_eq, utf8_valid_ascii, Forall_forall. intros b ?%Hr. lia.
      * intros ?%Hr. lia.
      * intros ?%Hr. lia.
      * apply Forall_forall. intros b ?%Hr. lia.
      * by eexists.
    + simpl. by rewrite pieces_joined, unpack_pack, decide_True by done.
  - intros b e. simpl. repeat case_match; naive_solver.
Qed.

(** Two bytes that depend on the length of the message only. *)
Definition toy_sha (m : list Z) : list Z := le_bytes 2 (len m).

Lemma toy_sha_ok m : Forall (fun b => 0 <= b < 256) (toy_sha m).
Proof. apply le_bytes_ok. Qed.

Definition fresh_journal : Journal :=
  {| j_path := "journal"; j_component := "ferrum-admission"; j_next_seq := 0; j_head := GENESIS_HASH |}.

Definition toy_grant : Grant :=
  {| g_schema := GRANT_SCHEMA; g_schema_version := GRANT_SCHEMA_VERSION; g_id := "bg-1";
     g_scope := SCOPE_ADMISSION; g_subject := "on-call"; g_issuer := "security";
     g_ticket := "INC-7"; g_reason := "webhook down"; g_issued_at := 0;
     g_expires_at := seconds 3600 |}.

Definition after (r : Result (list Z) * Journal * option (list Z)) : Journal * option (list Z) :=
  (r.1.2, r.2).

(** Open a window on an empty journal, with this fault. *)
Definition first_append (fault : IoFault) : Journal * option (list Z) :=
  after (append toy_sha fresh_journal None fault Activated 1 (Some toy_grant) "d" "open").

(** Then record its end, and ask whether the file verifies. *)
Definition then_verifies (s : Journal * option (list Z)) : bool :=
  is_ok (verify_bytes toy_sha "journal"
    (default [] (after (append toy_sha s.1 s.2 NoFault Expired 2 (Some toy_grant) "d" "closed")).2)).

Lemma append_extends_chain_witness :
  exists e bytes, (first_append NoFault).2 = Some bytes /\ e_event e = "activated" /\
    verify_bytes toy_sha "journal" bytes = Ok [e].
Proof.
  pose proof (append_extends_chain toy_sha toy_sha_ok fresh_journal None [] NoFault Activated 1
    (Some toy_grant) "d" "open") as H.
  destruct H as (_ & e & bytes & [He _ _ _ _] & Hd & Hv & _).
  - constructor; try done; by left.
  - done.
  - repeat constructor.
  - intros g [= <-]. repeat constructor.
  - exists e, bytes. split; [|done]. exact Hd.
Defined.

(** A failed [fsync] leaves the line in the file while [next_seq] and [head] stay, so
    the next entry repeats its number and the file no longer verifies. *)
Lemma failed_sync_breaks_chain : then_verifies (first_append (SyncFails "EIO")) = false.
Proof. vm_compute. reflexivity. Qed.

Definition first_line : list Z :=
  match append toy_sha fresh_journal None NoFault Activated 1 (Some toy_grant) "d" "open" with
  | (Ok line, _, _) => line
  | _ => []
  end.

(** A line whose line feed was never written verifies when the process starts again,
    which then appends to the same line: the journal it accepted it makes unreadable. *)
Lemma torn_line_feed_breaks_chain :
  let torn := (first_append (WriteFails (length first_line) "ENOSPC")).2 in
  match journal_open toy_sha "journal" "ferrum-admission" torn None NoFault with
  | (Ok j, disk) => then_verifies (j, disk) = false
  | _ => False
  end.
Proof. vm_compute. reflexivity. Qed.

Definition only_entry : Entry :=
  match verify_lines toy_sha [first_line] with
  | Ok [e] => e
  | _ => new_entry fresh_journal Rejected 0 None "" ""
  end.

