(* ===== verification/BreakGlass.v ===== *)
(** * Break-glass in the webhook

    [crates/ferrum-admission/src/break_glass.rs]: the grant in force, the poll that
    reconciles it with the mounted Secret, and the journal it writes to. One thread
    polls; request threads only read the grant and count. What the file system
    answers to the appends to come is part of the state ([bg_io]), and so are the
    lines printed to stderr. *)

From S2P Require Import Prelude RustStd Ids Compiler Crypto Grant Journal.

Definition MAX_GRANT_BYTES : Z := 16 * 1024.

(** A mounted key: what [metadata] and [read] answer for its file. *)
Record FileNode := { fn_is_file : bool; fn_len : Z; fn_bytes : option (list Z) }.
Record Mount := { mt_grant : option FileNode; mt_signature : option FileNode }.

Definition read_bounded (node : option FileNode) : option (list Z) :=
  meta ← node;
  if negb (fn_is_file meta) || (MAX_GRANT_BYTES <? fn_len meta) then None else fn_bytes meta.

(** [(byte as char).to_digit(16)]. *)
Definition to_digit16 (b : Z) : option Z :=
  if in_range 48 57 b then Some (b - 48)
  else if in_range 97 102 b then Some (b - 87)
  else if in_range 65 70 b then Some (b - 55)
  else None.

Fixpoint decode_pairs (bytes : list Z) : option (list Z) :=
  match bytes with
  | hi :: lo :: rest =>
      h ← to_digit16 hi; l ← to_digit16 lo; out ← decode_pairs rest; Some ((h * 16 + l) mod U8 :: out)
  | _ => Some []
  end.

Definition decode_hex (text : list Z) : option (list Z) :=
  if negb (len text mod 2 =? 0) || is_empty text then None else decode_pairs text.

Definition read_material (mount : Mount) : option (list Z * list Z) :=
  raw ← read_bounded (mt_grant mount);
  sig_text ← read_bounded (mt_signature mount);
  hex ← from_utf8 sig_text;
  signature ← decode_hex (trim_bytes (as_bytes hex));
  Some (raw, signature).

Record BreakGlass := {
  bg_trust_root : list Z;
  bg_journal : Journal;
  bg_disk : option (list Z);
  bg_io : list IoFault;
  bg_stderr : list msg;
  bg_active : option VerifiedGrant;
  bg_last_rejection : option string;
  bg_activations : Z;
  bg_rejections : Z;
  bg_admits : Z;
  bg_journal_entries : Z;
  bg_journal_head : string;
  bg_journal_broken : option string
}.

(** ** Field updates *)

Definition set_active (v : option VerifiedGrant) (s : BreakGlass) : BreakGlass :=
  {| bg_trust_root := bg_trust_root s; bg_journal := bg_journal s; bg_disk := bg_disk s;
     bg_io := bg_io s; bg_stderr := bg_stderr s; bg_active := v;
     bg_last_rejection := bg_last_rejection s; bg_activations := bg_activations s;
     bg_rejections := bg_rejections s; bg_admits := bg_admits s;
     bg_journal_entries := bg_journal_entries s; bg_journal_head := bg_journal_head s;
     bg_journal_broken := bg_journal_broken s |}.

Definition set_last_rejection (k : option string) (s : BreakGlass) : BreakGlass :=
  {| bg_trust_root := bg_trust_root s; bg_journal := bg_journal s; bg_disk := bg_disk s;
     bg_io := bg_io s; bg_stderr := bg_stderr s; bg_active := bg_active s;
     bg_last_rejection := k; bg_activations := bg_activations s;
     bg_rejections := bg_rejections s; bg_admits := bg_admits s;
     bg_journal_entries := bg_journal_entries s; bg_journal_head := bg_journal_head s;
     bg_journal_broken := bg_journal_broken s |}.

(** [fetch_add] on the [AtomicU64] counters. *)
Definition bump (activations rejections admits : Z) (s : BreakGlass) : BreakGlass :=
  {| bg_trust_root := bg_trust_root s; bg_journal := bg_journal s; bg_disk := bg_disk s;
     bg_io := bg_io s; bg_stderr := bg_stderr s; bg_active := bg_active s;
     bg_last_rejection := bg_last_rejection s;
     bg_activations := (bg_activations s + activations) mod U64;
     bg_rejections := (bg_rejections s + rejections) mod U64;
     bg_admits := (bg_admits s + admits) mod U64;
     bg_journal_entries := bg_journal_entries s; bg_journal_head := bg_journal_head s;
     bg_journal_broken := bg_journal_broken s |}.

Definition note_admit (s : BreakGlass) : BreakGlass := bump 0 0 1 s.

(** The file system's answers change: not a step of the program. *)
Definition set_io (io : list IoFault) (s : BreakGlass) : BreakGlass :=
  {| bg_trust_root := bg_trust_root s; bg_journal := bg_journal s; bg_disk := bg_disk s;
     bg_io := io; bg_stderr := bg_stderr s; bg_active := bg_active s;
     bg_last_rejection := bg_last_rejection s; bg_activations := bg_activations s;
     bg_rejections := bg_rejections s; bg_admits := bg_admits s;
     bg_journal_entries := bg_journal_entries s; bg_journal_head := bg_journal_head s;
     bg_journal_broken := bg_journal_broken s |}.

(** The grant in force at [now]. *)
Definition active (s : BreakGlass) (now : Z) : option VerifiedGrant :=
  match bg_active s with
  | Some g => if covers g now then Some g else None
  | None => None
  end.

Definition clear (s : BreakGlass) : BreakGlass := set_active None s.

Section breakglass.
Context `{E : Ed25519} `{G : GrantJson} `{J : EntryJson} (sha256 : list Z -> list Z).
(** The text [format!] makes of its pieces. *)
Context (fmt : msg -> string).

(** [BreakGlass::arm], with what the calls of [Journal::open] return. *)
Definition arm (path component : string) (trust_root : list Z) (disk : option (list Z))
    (cannot_open : option string) (probe : IoFault) : Result BreakGlass :=
  _ ← refuse_if (negb (len trust_root =? ED25519_PUBLIC_KEY_LEN))
        (Integrity [Lit "break-glass trust root must be "; Num ED25519_PUBLIC_KEY_LEN;
           Lit " bytes, got "; Num (len trust_root)]);
  let '(opened, disk') := journal_open sha256 path component disk cannot_open probe in
  journal ← opened;
  Ok {| bg_trust_root := trust_root; bg_journal := journal; bg_disk := disk'; bg_io := [];
        bg_stderr := []; bg_active := None; bg_last_rejection := None; bg_activations := 0;
        bg_rejections := 0; bg_admits := 0; bg_journal_entries := j_next_seq journal;
        bg_journal_head := j_head journal; bg_journal_broken := None |}.

(** The line an entry is copied to stderr as. *)
Definition copied (line : list Z) : msg :=
  [Lit "ferrum-admission: break-glass "; Str (string_of_bytes line)].

Definition write_entry (s : BreakGlass) (event : JournalEvent) (now : Z) (grant : option Grant)
    (digest detail : string) : bool * BreakGlass :=
  let fault := default NoFault (head (bg_io s)) in
  let '(r, journal, disk) := append sha256 (bg_journal s) (bg_disk s) fault event now grant digest detail in
  match r with
  | Ok line =>
      (true,
       {| bg_trust_root := bg_trust_root s; bg_journal := journal; bg_disk := disk;
          bg_io := tail (bg_io s); bg_stderr := bg_stderr s ++ [copied line];
          bg_active := bg_active s; bg_last_rejection := bg_last_rejection s;
          bg_activations := bg_activations s; bg_rejections := bg_rejections s;
          bg_admits := bg_admits s; bg_journal_entries := j_next_seq journal;
          bg_journal_head := j_head journal; bg_journal_broken := None |})
  | Err err =>
      (false,
       {| bg_trust_root := bg_trust_root s; bg_journal := journal; bg_disk := disk;
          bg_io := tail (bg_io s);
          bg_stderr := bg_stderr s ++
            [Lit "ferrum-admission: break-glass journal write failed, enforcement stays on: " ::
             error_to_string err];
          bg_active := bg_active s; bg_last_rejection := bg_last_rejection s;
          bg_activations := bg_activations s; bg_rejections := bg_rejections s;
          bg_admits := bg_admits s; bg_journal_entries := bg_journal_entries s;
          bg_journal_head := bg_journal_head s;
          bg_journal_broken := Some (fmt (error_to_string err)) |})
  end.

Definition record (s : BreakGlass) (event : JournalEvent) (now : Z) (g : VerifiedGrant)
    (detail : string) : bool * BreakGlass :=
  write_entry s event now (Some (vg_grant g)) (vg_digest g) detail.

(** Take the grant in force away, then journal why. *)
Definition end_grant (s : BreakGlass) (event : JournalEvent) (now : Z) (detail : string) : BreakGlass :=
  match bg_active s with
  | Some g => snd (record (clear s) event now g detail)
  | None => s
  end.

(** The first block of [poll]: the window closed while the mount holds the grant. *)
Definition expire (s : BreakGlass) (now : Z) : BreakGlass :=
  match bg_active s with
  | Some stale => if negb (covers stale now) then end_grant s Expired now "window closed" else s
  | None => s
  end.

(** The [Ok] arm: a verified grant, the one in force or another. *)
Definition honour (s : BreakGlass) (now : Z) (verified : VerifiedGrant) : BreakGlass :=
  let s := set_last_rejection None s in
  if bool_decide (vg_digest <$> bg_active s = Some (vg_digest verified)) then s else
  let s := end_grant s Revoked now "superseded by another grant" in
  let detail := fmt [Lit "admission enforcement suspended for ";
                     Num (remaining_seconds verified now); Lit " more seconds"] in
  let '(written, s) := record s Activated now verified detail in
  if negb written then s else set_active (Some verified) (bump 1 0 0 s).

(** The [Err] arm: one journal entry per refusal, one count per poll. *)
Definition reject (s : BreakGlass) (now : Z) (raw : list Z) (err : FerrumError) : BreakGlass :=
  let s := bump 0 1 0 s in
  let key := fmt (Str (bundle_digest sha256 raw) :: Lit ":" :: error_to_string err) in
  if bool_decide (bg_last_rejection s = Some key) then s
  else snd (write_entry (set_last_rejection (Some key) s) Rejected now None "" (fmt (error_to_string err))).

Definition poll (s : BreakGlass) (mount : Mount) (now : Z) : BreakGlass :=
  let s := expire s now in
  match read_material mount with
  | None => set_last_rejection None (end_grant s Revoked now "grant removed from the mount")
  | Some (raw, signature) =>
      match verify_grant sha256 raw signature (bg_trust_root s) now with
      | Ok verified => honour s now verified
      | Err err => reject s now raw err
      end
  end.
End breakglass.

(** ** Invariants *)

Section breakglass_facts.
Context `{E : Ed25519} `{G : GrantJson} `{J : EntryJson} (sha256 : list Z -> list Z).
Context (fmt : msg -> string).
Notation append' := (append sha256).
Notation write_entry' := (write_entry sha256 fmt).
Notation poll' := (poll sha256 fmt).

(** The journal file holds the line of an entry that says this grant was activated,
    and stderr a copy of it. *)
Definition activation_recorded (disk : option (list Z)) (stderr : list msg) (v : VerifiedGrant) : Prop :=
  exists e j t line pre post,
    records e j Activated t (Some (vg_grant v)) (vg_digest v) /\ entry_json e = Ok line /\
    default [] disk = pre ++ line ++ [10] ++ post /\ copied line ∈ stderr.

(** Appending never takes anything back, and what it reports as written is there. *)
Lemma append_spec j disk fault event now grant digest detail :
  let '(r, _, disk') := append' j disk fault event now grant digest detail in
  (exists more, default [] disk' = default [] disk ++ more) /\
  match r with
  | Ok line => exists e, records e j event now grant digest /\ entry_json e = Ok line /\
                 default [] disk' = default [] disk ++ line ++ [10]
  | Err _ => True
  end.
Proof.
  unfold append. destruct (computed_hash _ _) as [h|]; [|split; [exists []; by rewrite app_nil_r | done]].
  destruct (one_line _) as [line|] eqn:El; [|split; [exists []; by rewrite app_nil_r | done]].
  destruct fault; simpl; (split; [|try done]); try (by eexists); try (exists []; by rewrite app_nil_r).
  exists (set_hash h (new_entry j event now grant digest detail)). split_and!; try done.
  - constructor; try done. by intros g ->.
  - unfold one_line in El. by destruct (entry_json _); [injection El as -> | discriminate El].
Qed.

Lemma write_entry_spec s event now grant digest detail :
  let '(written, s') := write_entry' s event now grant digest detail in
  bg_active s' = bg_active s /\ bg_trust_root s' = bg_trust_root s /\
  (written = true <-> bg_journal_broken s' = None) /\
  (exists more, default [] (bg_disk s') = default [] (bg_disk s) ++ more) /\
  (exists more, bg_stderr s' = bg_stderr s ++ more) /\
  (written = true -> exists e line, records e (bg_journal s) event now grant digest /\
     entry_json e = Ok line /\ default [] (bg_disk s') = default [] (bg_disk s) ++ line ++ [10] /\
     bg_stderr s' = bg_stderr s ++ [copied line]).
Proof.
  unfold write_entry.
  pose proof (append_spec (bg_journal s) (bg_disk s) (default NoFault (head (bg_io s))) event now grant
    digest detail) as Ha.
  destruct (append' _ _ _ _ _ _ _ _) as [[[line|err] j'] disk']; destruct Ha as [Hgrow Hok]; simpl.
  - destruct Hok as (e & Hr & He & Hd). split_and!; try done; eauto 10.
  - split_and!; try done; eauto.
Qed.

Lemma recorded_mono disk disk' stderr stderr' v :
  (exists more, default [] disk' = default [] disk ++ more) -> (exists more, stderr' = stderr ++ more) ->
  activation_recorded disk stderr v -> activation_recorded disk' stderr' v.
Proof.
  intros [m1 E1] [m2 ->] (e & j & t & line & pre & post & Hr & He & Hd & Hs).
  exists e, j, t, line, pre, (post ++ m1). split_and!; try done.
  - by rewrite E1, Hd, <- !app_assoc.
  - apply elem_of_app. by left.
Qed.

(** What is in force was verified under this trust root, and is on record. *)
Definition accounted (root : list Z) (s : BreakGlass) : Prop :=
  bg_trust_root s = root /\
  forall v, bg_active s = Some v ->
    (exists raw signature t, verify_grant sha256 raw signature root t = Ok v) /\
    activation_recorded (bg_disk s) (bg_stderr s) v.

(** Writing an entry never touches the grant in force. *)
Lemma accounted_write root s event now grant digest detail :
  accounted root s -> accounted root (snd (write_entry' s event now grant digest detail)).
Proof.
  intros [Hroot Hacc]. pose proof (write_entry_spec s event now grant digest detail) as H.
  destruct (write_entry' _ _ _ _ _ _) as [w s']. destruct H as (Ha & Hr & _ & Hd & He & _). simpl.
  split; [congruence|]. intros v. rewrite Ha. intros [Hv Hrec]%Hacc. split; [done|].
  by eapply recorded_mono.
Qed.

Lemma accounted_clear root s : accounted root s -> accounted root (clear s).
Proof. intros [? _]. by split. Qed.

Lemma accounted_end root s event now detail :
  accounted root s -> accounted root (end_grant sha256 fmt s event now detail).
Proof.
  intros H. unfold end_grant, record. destruct (bg_active s); [|done].
  by apply accounted_write, accounted_clear.
Qed.

Lemma accounted_expire root s now : accounted root s -> accounted root (expire sha256 fmt s now).
Proof.
  intros H. unfold expire. destruct (bg_active s) as [v|]; [|done].
  case_match; [by apply accounted_end | done].
Qed.

Lemma accounted_honour root s now raw signature v :
  accounted root s -> verify_grant sha256 raw signature root now = Ok v ->
  accounted root (honour sha256 fmt s now v).
Proof.
  intros H Hv. assert (Hl : accounted root (set_last_rejection None s)) by exact H.
  unfold honour, record. destruct (bool_decide _); [done|]. apply (accounted_end _ _ Revoked now
    "superseded by another grant") in Hl. revert Hl.
  generalize (end_grant sha256 fmt (set_last_rejection None s) Revoked now "superseded by another grant").
  clear s H. intros s Hs. set (detail := fmt _).
  pose proof (write_entry_spec s Activated now (Some (vg_grant v)) (vg_digest v) detail) as H.
  pose proof (accounted_write root s Activated now (Some (vg_grant v)) (vg_digest v) detail Hs) as Ha.
  destruct (write_entry' _ _ _ _ _ _) as [[] s']; [|done]. simpl in *.
  destruct Ha as [Hroot _]. split; [done|]. intros w [= <-]. split; [eauto|].
  destruct H as (_ & _ & _ & _ & _ & Hrec).
  destruct Hrec as (e & line & Hr & He & Hd & Hx); [done|].
  exists e, (bg_journal s), now, line, (default [] (bg_disk s)), []. split_and!; try done. simpl.
  rewrite Hx. apply elem_of_app. right. by apply list_elem_of_singleton.
Qed.

Lemma accounted_poll root s mount now : accounted root s -> accounted root (poll' s mount now).
Proof.
  intros H%(accounted_expire root s now). unfold poll.
  destruct (read_material mount) as [[raw signature]|]; [|by apply (accounted_end _ _ Revoked)].
  destruct (verify_grant _ _ _ _ _) as [v|err] eqn:Hv.
  - rewrite (proj1 H) in Hv. by eapply accounted_honour.
  - unfold reject. case_match; [exact H|]. by apply accounted_write.
Qed.
(** A webhook process: armed once, then polls at any instants over any mounts, with
    requests counted and the disk failing in between as it likes. *)
Inductive reachable (root : list Z) : BreakGlass -> Prop :=
| reach_arm path component disk cannot_open probe s :
    arm sha256 path component root disk cannot_open probe = Ok s -> reachable root s
| reach_poll s mount now : reachable root s -> reachable root (poll' s mount now)
| reach_admit s : reachable root s -> reachable root (note_admit s)
| reach_io s io : reachable root s -> reachable root (set_io io s).

Lemma reachable_accounted root s : reachable root s -> accounted root s.
Proof.
  induction 1 as [path component disk c probe s H | s mount now _ IH | s _ IH | s io _ IH].
  - unfold arm in H. apply bind_ok_unit in H as [_ H].
    destruct (journal_open _ _ _ _ _ _) as [[j|] d]; [|done]. injection H as <-. by split.
  - by apply accounted_poll.
  - exact IH.
  - exact IH.
Qed.

(** Why the grant in force at [now] may be. *)
Definition lawful_suspension (root : list Z) (s : BreakGlass) (now : Z) (v : VerifiedGrant) : Prop :=
  (exists raw signature t, honoured sha256 raw signature root t v) /\
  g_issued_at (vg_grant v) <= now < g_issued_at (vg_grant v) + seconds MAX_GRANT_SECONDS /\
  now < g_expires_at (vg_grant v) /\
  activation_recorded (bg_disk s) (bg_stderr s) v.

Lemma accounted_suspension root s now v :
  accounted root s -> active s now = Some v -> lawful_suspension root s now v.
Proof.
  unfold active. intros [_ Hacc] Hactive. destruct (bg_active s) as [g|] eqn:Hg; [|done].
  destruct (covers g now) eqn:Hc; [|done]. injection Hactive as ->.
  destruct (Hacc v eq_refl) as [(raw & signature & t & Hv%verify_grant_ok) Hrec].
  split; [by exists raw, signature, t|]. destruct Hv as (_ & _ & [_ _ _ _ Hw] & _).
  unfold covers in Hc. bool_hyps. split_and!; try done; lia.
Qed.

(** C14: enforcement is never suspended without a signature, a bound and a record.
    Whatever the mount offers, whenever the poll runs and however the disk fails: a
    grant in force at [now] was verified under the configured trust root, covers
    [now], started less than four hours ago, and the line that records its activation
    is already in the journal file and on stderr. *)
Theorem suspension_is_signed_bounded_recorded root s now v
    (Hreach : reachable root s) (Hactive : active s now = Some v) :
  (exists raw signature t, honoured sha256 raw signature root t v) /\
  g_issued_at (vg_grant v) <= now < g_issued_at (vg_grant v) + seconds MAX_GRANT_SECONDS /\
  now < g_expires_at (vg_grant v) /\
  activation_recorded (bg_disk s) (bg_stderr s) v.
Proof. apply accounted_suspension; [by apply reachable_accounted | done]. Qed.

Lemma end_grant_active s event now detail : bg_active (end_grant sha256 fmt s event now detail) = None.
Proof.
  unfold end_grant, record. destruct (bg_active s) as [g|] eqn:Hg; [|done].
  pose proof (write_entry_spec (clear s) event now (Some (vg_grant g)) (vg_digest g) detail) as H.
  destruct (write_entry' _ _ _ _ _ _). simpl. by destruct H as [-> _].
Qed.

Lemma expire_active s now : bg_active (expire sha256 fmt s now) = active s now.
Proof.
  unfold expire, active. destruct (bg_active s) as [g|] eqn:Hg; [|done].
  destruct (covers g now); simpl; [done|]. apply end_grant_active.
Qed.

Lemma expire_root s now : bg_trust_root (expire sha256 fmt s now) = bg_trust_root s.
Proof.
  unfold expire, end_grant, record. destruct (bg_active s) as [g|]; [|done].
  destruct (negb _); [|done].
  pose proof (write_entry_spec (clear s) Expired now (Some (vg_grant g)) (vg_digest g) "window closed") as H.
  destruct (write_entry' _ _ _ _ _ _). simpl. by destruct H as (_ & -> & _).
Qed.

(** What a poll leaves in force, on every branch. An empty or unreadable mount
    ends the suspension; a document that does not verify leaves a window that is still
    open alone and never opens one; a verified grant that is already in force changes
    nothing; another one comes into force exactly when its activation was journalled,
    and otherwise enforcement is on. *)
Lemma poll_outcome s mount now :
  bg_active (poll' s mount now) =
  match read_material mount with
  | None => None
  | Some (raw, signature) =>
      match verify_grant sha256 raw signature (bg_trust_root s) now with
      | Err _ => active s now
      | Ok v =>
          if bool_decide (vg_digest <$> active s now = Some (vg_digest v)) then active s now
          else match bg_journal_broken (poll' s mount now) with None => Some v | Some _ => None end
      end
  end.
Proof.
  unfold poll. destruct (read_material mount) as [[raw signature]|]; [|apply end_grant_active].
  rewrite expire_root, <- expire_active. generalize (expire sha256 fmt s now). intros x.
  destruct (verify_grant _ _ _ _ _) as [v|err].
  - unfold honour, record. simpl. destruct (bool_decide _); [done|].
    match goal with |- context [write_entry' ?a ?b ?c ?d ?e ?f] =>
      pose proof (write_entry_spec a b c d e f) as H; destruct (write_entry' a b c d e f) as [w x'] end.
    destruct H as (Ha & _ & Hw & _). destruct w; simpl.
    + by rewrite (proj1 Hw eq_refl).
    + rewrite end_grant_active in Ha. destruct (bg_journal_broken x'); [done|].
      discriminate (proj2 Hw eq_refl).
  - unfold reject. case_match; [done|].
    match goal with |- context [write_entry' ?a ?b ?c ?d ?e ?f] =>
      pose proof (write_entry_spec a b c d e f) as H'; destruct (write_entry' a b c d e f) as [w x'] end.
    by destruct H' as (Ha & _).
Qed.
End breakglass_facts.

(** ** The published head *)

Section anchors.
Context `{E : Ed25519} `{G : GrantJson} `{J : EntryJson} (sha256 : list Z -> list Z).
Context (fmt : msg -> string).
Context `{!GrantJsonLaws G} `{!EntryJsonLaws J}.
Context (Hsha : forall m, Forall (fun b => 0 <= b < 256) (sha256 m)) (Hfmt : forall m, str_ok (fmt m)).

(** Faults that leave the file as it was. *)
Definition open_faults (io : list IoFault) : Prop :=
  Forall (fun f => match f with NoFault | OpenFails _ => True | _ => False end) io.

(** The file verifies to [es]; the journal continues it; the metrics show its end. *)
Record published (s : BreakGlass) (es : list Entry) : Prop := {
  pb_synced : synced sha256 (bg_journal s) (bg_disk s) es;
  pb_head : bg_journal_head s = head_after GENESIS_HASH es;
  pb_entries : bg_journal_entries s = len es;
  pb_component : str_ok (j_component (bg_journal s));
  pb_active : forall v, bg_active s = Some v -> grant_ok (vg_grant v) /\ str_ok (vg_digest v);
  pb_io : open_faults (bg_io s)
}.

(** [s'] is [s] after at most [n] appends. *)
Definition advances (n : Z) (s s' : BreakGlass) (es : list Entry) : Prop :=
  exists more, published s' (es ++ more) /\ len more <= n.

Lemma advances_refl n s es : 0 <= n -> published s es -> advances n s s es.
Proof using Type. intros Hn H. exists []. by rewrite app_nil_r. Qed.

Lemma write_entry_advances s es event now grant digest detail :
  published s es -> len es + 1 < U64 -> str_ok digest -> str_ok detail ->
  (forall g, grant = Some g -> grant_ok g) ->
  advances 1 s (snd (write_entry sha256 fmt s event now grant digest detail)) es.
Proof using EntryJsonLaws0 Hsha.
  intros [Hs Hh Hn Hc Ha Hio] Hroom Hd Ht Hg. pose proof (len_nonneg es).
  assert (Hok : entry_ok (new_entry (bg_journal s) event now grant digest detail)).
  { apply new_entry_ok; try done.
    - rewrite (sy_head _ _ _ _ Hs). apply head_after_ok, (verified_entries_ok sha256 _ _ (sy_chain _ _ _ _ Hs)).
    - rewrite (sy_seq _ _ _ _ Hs). lia. }
  assert (Htail : open_faults (tail (bg_io s))) by (destruct Hio; simpl; [constructor | done]).
  assert (Hhead : match default NoFault (head (bg_io s)) with NoFault | OpenFails _ => True | _ => False end)
    by (destruct Hio; done).
  destruct (append_run sha256 Hsha (bg_journal s) (bg_disk s) (default NoFault (head (bg_io s))) event now
    grant digest detail Hok) as (e & line & _ & Hlink & _ & Hj & Hdec & Hrun).
  unfold write_entry. destruct (append _ _ _ _ _ _ _ _ _) as [[r j'] disk'].
  destruct (default NoFault (head (bg_io s))); try done.
  - destruct Hrun as (-> & -> & ->). exists [e]. split; [|done].
    pose proof (synced_extend sha256 _ _ _ _ _ Hs Hlink Hj Hdec Hroom) as Hs'.
    constructor; try done; [apply (sy_head _ _ _ _ Hs') | apply (sy_seq _ _ _ _ Hs')].
  - destruct Hrun as (Hr & -> & ->). destruct r; [done|]. exists []. rewrite app_nil_r.
    split; [|done]. by constructor.
Qed.

Lemma end_grant_advances s es event now detail :
  published s es -> len es + 1 < U64 -> str_ok detail ->
  advances 1 s (end_grant sha256 fmt s event now detail) es.
Proof using EntryJsonLaws0 Hsha.
  intros H Hroom Hd. unfold end_grant, record. destruct (bg_active s) as [v|] eqn:Hv.
  - destruct (pb_active _ _ H v Hv) as [Hg Hdig].
    assert (published (clear s) es) as Hcl by (destruct H; constructor; done).
    destruct (write_entry_advances (clear s) es event now (Some (vg_grant v)) (vg_digest v) detail)
      as (more & Hp & Hm); try done.
    + by intros g [= <-].
    + by exists more.
  - by apply advances_refl.
Qed.

Lemma advances_trans n m s s' s'' es :
  0 <= n -> 0 <= m -> len es + n + m < U64 -> advances n s s' es ->
  (forall es', len es' + m < U64 -> published s' es' -> advances m s' s'' es') -> advances (n + m) s s'' es.
Proof using Type.
  intros Hn Hm Hroom (more & Hp & Hl) Hnext.
  destruct (Hnext (es ++ more)) as (more' & Hp' & Hl'); [rewrite len_app; lia | done |].
  exists (more ++ more'). rewrite app_assoc. split; [done|]. rewrite len_app. lia.
Qed.

Lemma honour_advances s es now raw signature root v :
  published s es -> len es + 2 < U64 -> verify_grant sha256 raw signature root now = Ok v ->
  advances 2 s (honour sha256 fmt s now v) es.
Proof using EntryJsonLaws0 Hsha Hfmt GrantJsonLaws0.
  intros H Hroom (_ & Hjson & _ & _ & Hdig)%verify_grant_ok.
  assert (Hgk : grant_ok (vg_grant v)) by by eapply grant_of_json_ok.
  assert (Hdk : str_ok (vg_digest v)) by (rewrite Hdig; by apply hex_encode_ok).
  assert (H0 : published (set_last_rejection None s) es) by (destruct H; by constructor).
  unfold honour, record. destruct (bool_decide _); [by apply advances_refl|].
  apply (advances_trans 1 1 s (end_grant sha256 fmt (set_last_rejection None s) Revoked now
    "superseded by another grant")); try lia.
  { apply end_grant_advances; [done | lia | vm_compute; reflexivity]. }
  generalize (end_grant sha256 fmt (set_last_rejection None s) Revoked now "superseded by another grant").
  intros x es' Hroom' Hx. set (detail := fmt _).
  destruct (write_entry_advances x es' Activated now (Some (vg_grant v)) (vg_digest v) detail)
    as (more & [Ps Ph Pn Pc Pa Pio] & Hl); try done.
  { apply Hfmt. }
  { by intros g [= <-]. }
  destruct (write_entry _ _ _ _ _ _ _ _) as [[] x']; simpl in *; exists more; (split; [|done]);
    constructor; try done. by intros w [= <-].
Qed.
(** the anchor a poll publishes is the end of a file that verifies. Over any
    mount and at any instant, as long as the disk fails only by refusing to open the
    file: the journal file verifies to the chain it had, with at most three entries
    more, and the head hash and the entry count on the metrics are those of that
    chain. *)
Lemma published_head_verifies s es mount now
    (Hpublished : published s es) (Hroom : len es + 3 < U64) :
  exists more, published (poll sha256 fmt s mount now) (es ++ more) /\ len more <= 3 /\
    verify_bytes sha256 (j_path (bg_journal s)) (default [] (bg_disk (poll sha256 fmt s mount now)))
      = Ok (es ++ more).
Proof using EntryJsonLaws0 Hsha Hfmt GrantJsonLaws0.
  assert (Hadv : advances 3 s (poll sha256 fmt s mount now) es).
  { unfold poll. apply (advances_trans 1 2 s (expire sha256 fmt s now)); try lia.
    { unfold expire. destruct (bg_active s) as [v|]; [|by apply advances_refl].
      destruct (negb _); [|by apply advances_refl].
      apply end_grant_advances; [done | lia | vm_compute; reflexivity]. }
    generalize (expire sha256 fmt s now). intros x es' Hr Hx.
    destruct (read_material mount) as [[raw signature]|].
    - destruct (verify_grant _ _ _ _ _) as [v|err] eqn:Hv; [by eapply honour_advances|].
      unfold reject. destruct (bool_decide _).
      { apply advances_refl; [done|]. by destruct Hx; constructor. }
      match goal with |- context [write_entry _ _ ?a ?b ?c ?d ?e ?f] =>
        destruct (write_entry_advances a es' b c d e f) as (more & Hp & Hl) end;
        [by destruct Hx; constructor | lia | vm_compute; reflexivity | apply Hfmt | done |].
      exists more. split; [done|lia].
    - destruct (end_grant_advances x es' Revoked now "grant removed from the mount") as (more & Hp & Hl);
        [done | lia | vm_compute; reflexivity |].
      exists more. split; [by destruct Hp; constructor | lia]. }
  destruct Hadv as (more & Hp & Hl). exists more. split_and!; [done | done |].
  destruct (pb_synced _ _ Hp) as [_ Ht _ Hv _ _]. unfold verify_bytes. by rewrite Ht.
Qed.
End anchors.

(** ** A grant, its signature and a failing disk *)

#[global] Instance toy_grant_json : GrantJson := {
  grant_of_json raw := if decide (raw = as_bytes "grant") then Ok toy_grant else Err "not a grant"
}.

#[global] Instance toy_grant_json_laws : GrantJsonLaws toy_grant_json.
Proof. split. intros raw g. simpl. case_decide; [|done]. intros [= <-]. repeat constructor. Qed.

(** The literal text of a message, numbers left out. *)
Definition toy_fmt (m : msg) : string :=
  match m with Lit s :: _ => if decide (str_ok s) then s else "" | _ => "" end.

Lemma toy_fmt_ok m : str_ok (toy_fmt m).
Proof. unfold toy_fmt. destruct m as [|[] m]; try (vm_compute; reflexivity). case_decide; done. Qed.

Definition toy_root : list Z := ed_public (repeat 7 32).

Definition mounted (bytes : list Z) : option FileNode :=
  Some {| fn_is_file := true; fn_len := len bytes; fn_bytes := Some bytes |}.

Definition toy_mount : Mount :=
  {| mt_grant := mounted (as_bytes "grant");
     mt_signature := mounted (match sign_break_glass (as_bytes "grant") (repeat 7 32) with
                              | Ok sig => hex_bytes sig | Err _ => [] end) |}.

Definition forged_mount : Mount :=
  {| mt_grant := mounted (as_bytes "forged"); mt_signature := mt_signature toy_mount |}.

Definition armed : BreakGlass :=
  match arm toy_sha "journal" "ferrum-admission" toy_root None None NoFault with
  | Ok s => s
  | Err _ =>
      {| bg_trust_root := []; bg_journal := fresh_journal; bg_disk := None; bg_io := []; bg_stderr := [];
         bg_active := None; bg_last_rejection := None; bg_activations := 0; bg_rejections := 0;
         bg_admits := 0; bg_journal_entries := 0; bg_journal_head := ""; bg_journal_broken := None |}
  end.

Lemma armed_reachable : reachable toy_sha toy_fmt toy_root armed.
Proof.
  apply (reach_arm _ _ _ "journal" "ferrum-admission" None None NoFault). vm_compute. reflexivity.
Qed.

Definition suspended : BreakGlass := poll toy_sha toy_fmt armed toy_mount 1.

Definition the_grant : VerifiedGrant :=
  {| vg_grant := toy_grant; vg_digest := bundle_digest toy_sha (as_bytes "grant") |}.

Lemma suspension_witness : activation_recorded (bg_disk suspended) (bg_stderr suspended) the_grant.
Proof.
  apply (suspension_is_signed_bounded_recorded toy_sha toy_fmt toy_root suspended 2 the_grant).
  - apply reach_poll, armed_reachable.
  - vm_compute. reflexivity.
Defined.

Lemma published_head_witness :
  exists more, published toy_sha suspended ([] ++ more) /\ len more <= 3 /\
    verify_bytes toy_sha (j_path (bg_journal armed)) (default [] (bg_disk suspended)) = Ok ([] ++ more).
Proof.
  apply (published_head_verifies toy_sha toy_fmt toy_sha_ok toy_fmt_ok armed [] toy_mount 1).
  - constructor; try done; [|constructor]. constructor; try done; by left.
  - done.
Defined.

(** A journal that stops accepting entries does not end a window that is open: a
    forged grant is offered, its rejection cannot be written, and enforcement stays
    suspended. *)
Lemma broken_journal_keeps_window :
  let s := poll toy_sha toy_fmt (set_io [OpenFails "EROFS"] suspended) forged_mount 2 in
  bg_journal_broken s <> None /\ active s 3 = Some the_grant.
Proof. split; [vm_compute; discriminate | vm_compute; reflexivity]. Qed.
