(* ===== verification/Encoding.v ===== *)
(** * Hex and Base64 on the admission path

    [crates/ferrum-admission/src/encoding.rs]: the decoders of the pinned trust root,
    of image signatures and of Secret data, and the Base64 encoder of patches. *)

From S2P Require Import Prelude RustStd Ids Compiler Journal.

Definition B64 : list Z :=
  as_bytes "ABCDEFGHIJKLMNOPQRSTUVWXYZabcdefghijklmnopqrstuvwxyz0123456789+/".

(** [B64[n as usize]], with [n <= 63]. *)
Definition b64_char (n : Z) : Z := default 0 (B64 !! Z.to_nat n).

Definition hex_nibble (b : Z) : Result Z :=
  if in_range 48 57 b then Ok (b - 48)
  else if in_range 97 102 b then Ok (b - 97 + 10)
  else if in_range 65 70 b then Ok (b - 65 + 10)
  else Err (Integrity [Lit "invalid hex digit"]).

(** The loop over pairs; the length is even. *)
Fixpoint hex_pairs (bytes : list Z) : Result (list Z) :=
  match bytes with
  | b0 :: b1 :: rest =>
      hi ← hex_nibble b0; lo ← hex_nibble b1; out ← hex_pairs rest;
      Ok (Z.lor (Z.shiftl hi 4) lo :: out)
  | _ => Ok []
  end.

Definition hex_decode (s : string) : Result (list Z) :=
  let bytes := trim_bytes (as_bytes s) in
  _ ← refuse_if (negb (len bytes mod 2 =? 0)) (Integrity [Lit "hex string must have even length"]);
  hex_pairs bytes.

(** Three bytes become four characters; a short last group is padded. *)
Definition b64_word (b0 b1 b2 : Z) : Z := Z.lor (Z.lor (Z.shiftl b0 16) (Z.shiftl b1 8)) b2.
Definition b64_digit (n k : Z) : Z := b64_char (Z.land (Z.shiftr n k) 63).

Fixpoint b64_encode (data : list Z) : list Z :=
  match data with
  | [] => []
  | [b0] =>
      let n := b64_word b0 0 0 in [b64_digit n 18; b64_digit n 12; 61; 61]
  | [b0; b1] =>
      let n := b64_word b0 b1 0 in [b64_digit n 18; b64_digit n 12; b64_digit n 6; 61]
  | b0 :: b1 :: b2 :: rest =>
      let n := b64_word b0 b1 b2 in
      [b64_digit n 18; b64_digit n 12; b64_digit n 6; b64_digit n 0] ++ b64_encode rest
  end.

Definition b64_val (b : Z) : Result Z :=
  if in_range 65 90 b then Ok (b - 65)
  else if in_range 97 122 b then Ok (b - 97 + 26)
  else if in_range 48 57 b then Ok (b - 48 + 52)
  else if b =? 43 then Ok 62
  else if b =? 47 then Ok 63
  else Err (Integrity [Lit "invalid base64 digit"]).

(** The loop over groups of four; the length is a multiple of four. *)
Fixpoint b64_groups (bytes : list Z) : Result (list Z) :=
  match bytes with
  | d0 :: d1 :: c2 :: c3 :: rest =>
      c0 ← b64_val d0; c1 ← b64_val d1;
      let n := Z.lor (Z.shiftl c0 18) (Z.shiftl c1 12) in
      if c2 =? 61 then
        _ ← refuse_if (negb (c3 =? 61) || negb (is_empty rest)) (Integrity [Lit "invalid base64 padding"]);
        Ok [Z.shiftr n 16 mod U8]
      else
        v2 ← b64_val c2;
        let n := Z.lor n (Z.shiftl v2 6) in
        if c3 =? 61 then
          _ ← refuse_if (negb (is_empty rest)) (Integrity [Lit "invalid base64 padding"]);
          Ok [Z.shiftr n 16 mod U8; Z.shiftr n 8 mod U8]
        else
          v3 ← b64_val c3;
          let n := Z.lor n v3 in
          out ← b64_groups rest;
          Ok (Z.shiftr n 16 mod U8 :: Z.shiftr n 8 mod U8 :: n mod U8 :: out)
  | _ => Ok []
  end.

Definition b64_decode (s : string) : Result (list Z) :=
  let bytes := trim_bytes (as_bytes s) in
  if is_empty bytes then Ok [] else
  _ ← refuse_if (negb (len bytes mod 4 =? 0))
        (Integrity [Lit "base64 length must be a multiple of 4"]);
  b64_groups bytes.

(** ** Round trips *)

Lemma lor_shift a b k : 0 <= k -> 0 <= b < 2 ^ k -> Z.lor (Z.shiftl a k) b = a * 2 ^ k + b.
Proof.
  intros Hk Hb. rewrite <- Z.shiftl_mul_pow2 by done.
  assert (Z.land (Z.shiftl a k) b = 0) as H0.
  { apply Z.bits_inj'. intros i Hi. rewrite Z.land_spec, Z.bits_0, Z.shiftl_spec by done.
    destruct (Z.ltb_spec i k); [by rewrite (Z.testbit_neg_r a) by lia|].
    assert (Z.testbit b i = false) as ->; [|apply andb_false_r].
    rewrite <- (Z.mod_small b (2 ^ k)) by done. by apply Z.mod_pow2_bits_high. }
  pose proof (Z.add_lor_land (Z.shiftl a k) b). lia.
Qed.

Lemma b64_word_val b0 b1 b2 :
  0 <= b0 < 256 -> 0 <= b1 < 256 -> 0 <= b2 < 256 ->
  b64_word b0 b1 b2 = b0 * 65536 + b1 * 256 + b2.
Proof.
  intros H0 H1 H2. unfold b64_word.
  rewrite (lor_shift b0 (Z.shiftl b1 8) 16); rewrite ?Z.shiftl_mul_pow2 by done; [|done|lia].
  replace (b0 * 2 ^ 16 + b1 * 2 ^ 8) with (Z.shiftl (b0 * 256 + b1) 8)
    by (rewrite Z.shiftl_mul_pow2 by done; lia).
  rewrite lor_shift by (done || lia). lia.
Qed.

Lemma b64_char_val n : 0 <= n < 64 -> b64_val (b64_char n) = Ok n /\ 43 <= b64_char n < 123 /\ b64_char n <> 61.
Proof.
  intros Hn. assert (Hall : forallb (fun k => match b64_val (b64_char (Z.of_nat k)) with Ok v => v =? Z.of_nat k | Err _ => false end &&
    (43 <=? b64_char (Z.of_nat k)) && (b64_char (Z.of_nat k) <? 123) && negb (b64_char (Z.of_nat k) =? 61))
    (seq 0 64) = true) by (vm_compute; reflexivity).
  rewrite forallb_forall in Hall. specialize (Hall (Z.to_nat n)).
  rewrite in_seq, Z2Nat.id in Hall by lia. specialize (Hall ltac:(lia)).
  destruct (b64_val (b64_char n)) as [v|]; simpl in Hall; [|done]. bool_hyps.
  split_and!; [f_equal; lia | lia | lia | lia].
Qed.

(** The six bits at offset [k]. *)
Lemma b64_sextet n k : 0 <= n -> 0 <= k -> Z.land (Z.shiftr n k) 63 = n / 2 ^ k mod 64.
Proof.
  intros Hn Hk. change 63 with (Z.ones 6). rewrite Z.land_ones by done.
  by rewrite Z.shiftr_div_pow2 by done.
Qed.

Lemma b64_digit_val n k :
  0 <= n -> 0 <= k ->
  b64_val (b64_digit n k) = Ok (n / 2 ^ k mod 64) /\ 43 <= b64_digit n k < 123 /\ b64_digit n k <> 61.
Proof.
  intros Hn Hk. unfold b64_digit. rewrite b64_sextet by done. apply b64_char_val, Z.mod_pos_bound. done.
Qed.

(** The word a group of sextets stands for. *)
Lemma sextets_val c0 c1 c2 c3 :
  0 <= c0 < 64 -> 0 <= c1 < 64 -> 0 <= c2 < 64 -> 0 <= c3 < 64 ->
  Z.lor (Z.shiftl c0 18) (Z.shiftl c1 12) = c0 * 262144 + c1 * 4096 /\
  Z.lor (Z.lor (Z.shiftl c0 18) (Z.shiftl c1 12)) (Z.shiftl c2 6) = c0 * 262144 + c1 * 4096 + c2 * 64 /\
  Z.lor (Z.lor (Z.lor (Z.shiftl c0 18) (Z.shiftl c1 12)) (Z.shiftl c2 6)) c3 =
    c0 * 262144 + c1 * 4096 + c2 * 64 + c3.
Proof.
  intros H0 H1 H2 H3.
  assert (E1 : Z.lor (Z.shiftl c0 18) (Z.shiftl c1 12) = c0 * 262144 + c1 * 4096).
  { rewrite lor_shift; rewrite ?Z.shiftl_mul_pow2 by done; lia. }
  assert (E2 : Z.lor (c0 * 262144 + c1 * 4096) (Z.shiftl c2 6) = c0 * 262144 + c1 * 4096 + c2 * 64).
  { replace (c0 * 262144 + c1 * 4096) with (Z.shiftl (c0 * 64 + c1) 12)
      by (rewrite Z.shiftl_mul_pow2 by done; lia).
    rewrite lor_shift; rewrite ?Z.shiftl_mul_pow2 by done; lia. }
  assert (E3 : Z.lor (c0 * 262144 + c1 * 4096 + c2 * 64) c3 = c0 * 262144 + c1 * 4096 + c2 * 64 + c3).
  { replace (c0 * 262144 + c1 * 4096 + c2 * 64) with (Z.shiftl (c0 * 4096 + c1 * 64 + c2) 6)
      by (rewrite Z.shiftl_mul_pow2 by done; lia).
    rewrite lor_shift; rewrite ?Z.shiftl_mul_pow2 by done; lia. }
  rewrite E1, E2, E3. done.
Qed.

(** Printable ASCII has nothing to trim. *)
Lemma trim_printable l : Forall (fun b => 33 <= b < 128) l -> trim_bytes l = l.
Proof.
  intros Hl. assert (Hkeep : forall k, Forall (fun b => 33 <= b < 128) k ->
    trim_start_bytes k = k /\ trim_rev_bytes k = k).
  { intros k Hk. destruct Hk as [|b0 k0 H0 Hk]; [done|].
    assert (E1 : ws1 b0 = false) by (unfold ws1, in_range; lia).
    destruct Hk as [|b1 k1 H1 Hk]; [simpl; by rewrite E1|].
    assert (E2 : forall x, ws2 b0 x = false) by (intros; unfold ws2; lia).
    assert (E2' : forall x, ws2 b1 x = false) by (intros; unfold ws2; lia).
    destruct Hk as [|b2 k2 H2 Hk]; simpl; rewrite E1, E2, E2'; [done|].
    assert (E3 : forall x y, ws3 b0 x y = false) by (intros; unfold ws3; lia).
    assert (E3' : forall x y, ws3 b2 x y = false) by (intros; unfold ws3; lia).
    by rewrite E3, E3'. }
  unfold trim_bytes. rewrite (proj1 (Hkeep l Hl)), (proj2 (Hkeep (rev l) ltac:(by apply Forall_rev))).
  apply rev_involutive.
Qed.

(** What the decoder reads of the four characters of a word. *)
Lemma b64_word_digits n :
  0 <= n < 16777216 ->
  (b64_val (b64_digit n 18) = Ok (n / 262144) /\ b64_val (b64_digit n 12) = Ok (n / 4096 mod 64) /\
   b64_val (b64_digit n 6) = Ok (n / 64 mod 64) /\ b64_val (b64_digit n 0) = Ok (n mod 64)) /\
  (b64_digit n 6 =? 61) = false /\ (b64_digit n 0 =? 61) = false /\
  Forall (fun b => 33 <= b < 128) [b64_digit n 18; b64_digit n 12; b64_digit n 6; b64_digit n 0].
Proof.
  intros Hn. destruct (b64_digit_val n 18) as (-> & ? & ?); try lia.
  destruct (b64_digit_val n 12) as (-> & ? & ?); try lia.
  destruct (b64_digit_val n 6) as (-> & ? & ?); try lia.
  destruct (b64_digit_val n 0) as (-> & ? & ?); try lia.
  rewrite (Z.div_1_r n : n / 2 ^ 0 = n), (Z.mod_small (n / 2 ^ 18))
    by (split; [apply Z.div_pos | apply Z.div_lt_upper_bound]; lia).
  split_and!; try done; try (by apply Z.eqb_neq). repeat (constructor; [lia|]). constructor.
Qed.

(** The word put together again, from two, three or four of them. *)
Lemma b64_word_joined n :
  0 <= n < 16777216 ->
  let n2 := Z.lor (Z.shiftl (n / 262144) 18) (Z.shiftl (n / 4096 mod 64) 12) in
  let n3 := Z.lor n2 (Z.shiftl (n / 64 mod 64) 6) in
  n2 = n / 4096 * 4096 /\ n3 = n / 64 * 64 /\ Z.lor n3 (n mod 64) = n.
Proof.
  intros Hn. assert (0 <= n / 262144 < 64) as Hq
    by (split; [apply Z.div_pos | apply Z.div_lt_upper_bound]; lia).
  destruct (sextets_val (n / 262144) (n / 4096 mod 64) (n / 64 mod 64) (n mod 64) Hq
    ltac:(by apply Z.mod_pos_bound) ltac:(by apply Z.mod_pos_bound) ltac:(by apply Z.mod_pos_bound))
    as (E1 & E2 & E3).
  cbv zeta. rewrite E3, E2, E1. clear E1 E2 E3.
  replace (n / 262144) with (n / 4096 / 64) by (by rewrite Z.div_div by lia).
  replace (n / 4096) with (n / 64 / 64) by (by rewrite Z.div_div by lia).
  pose proof (Z.div_mod (n / 64 / 64) 64). pose proof (Z.div_mod (n / 64) 64). pose proof (Z.div_mod n 64).
  lia.
Qed.

(** One group, whole or padded. *)
Lemma b64_group_roundtrip b0 b1 b2 rest :
  0 <= b0 < 256 -> 0 <= b1 < 256 -> 0 <= b2 < 256 ->
  b64_groups (b64_encode [b0]) = Ok [b0] /\ b64_groups (b64_encode [b0; b1]) = Ok [b0; b1] /\
  b64_groups (b64_encode (b0 :: b1 :: b2 :: rest)) =
    (out ← b64_groups (b64_encode rest); Ok (b0 :: b1 :: b2 :: out)).
Proof.
  intros H0 H1 H2. cbn [b64_encode].
  rewrite !b64_word_val by lia. set (x1 := b0 * 65536 + 0 * 256 + 0).
  set (x2 := b0 * 65536 + b1 * 256 + 0). set (x3 := b0 * 65536 + b1 * 256 + b2).
  destruct (b64_word_digits x1 ltac:(lia)) as ((A1 & A2 & _) & _).
  destruct (b64_word_digits x2 ltac:(lia)) as ((B1 & B2 & B3 & _) & BN & _).
  destruct (b64_word_digits x3 ltac:(lia)) as ((C1 & C2 & C3 & C4) & CN & CM & _).
  destruct (b64_word_joined x1 ltac:(lia)) as (J1 & _).
  destruct (b64_word_joined x2 ltac:(lia)) as (_ & J2 & _).
  destruct (b64_word_joined x3 ltac:(lia)) as (_ & _ & J3).
  cbn [b64_groups app]. rewrite A1, A2, B1, B2, BN, B3, C1, C2, CN, C3, CM, C4.
  cbn -[Z.lor Z.shiftl Z.shiftr Z.modulo Z.div]. rewrite J1, J2, J3, !Z.shiftr_div_pow2 by done.
  assert (E1 : x1 / 4096 * 4096 = x1) by (unfold x1; Z.to_euclidean_division_equations; lia).
  assert (E2 : x2 / 64 * 64 = x2) by (unfold x2; Z.to_euclidean_division_equations; lia).
  assert (Htop : forall y, 0 <= y < 65536 -> (b0 * 65536 + y) / 2 ^ 16 mod U8 = b0).
  { intros y Hy. unfold U8. Z.to_euclidean_division_equations; lia. }
  assert (Hmid : forall y, 0 <= y < 256 -> (b0 * 65536 + b1 * 256 + y) / 2 ^ 8 mod U8 = b1).
  { intros y Hy. unfold U8. Z.to_euclidean_division_equations; lia. }
  assert (Hlow : x3 mod U8 = b2) by (unfold x3, U8; Z.to_euclidean_division_equations; lia).
  rewrite E1, E2, Hlow. unfold x1, x2, x3. rewrite !Hmid, <- !Z.add_assoc, !Htop by lia. done.
Qed.

Lemma b64_encode_shape data :
  Forall (fun b => 0 <= b < 256) data ->
  Forall (fun b => 33 <= b < 128) (b64_encode data) /\ len (b64_encode data) mod 4 = 0 /\
  b64_groups (b64_encode data) = Ok data.
Proof.
  remember (length data) as m eqn:Hm. revert data Hm.
  induction (lt_wf m) as [m _ IH]. intros data -> Hd.
  assert (Hp : Forall (fun b => 33 <= b < 128) [61; 61]) by (repeat constructor; lia).
  destruct Hd as [|b0 data0 H0 [|b1 data1 H1 [|b2 data2 H2 Hd]]]; [by repeat constructor| | |];
    cbn [b64_encode]; rewrite b64_word_val by lia;
    match goal with |- context [b64_digit ?n 18] =>
      destruct (b64_word_digits n ltac:(lia)) as (_ & _ & _ & Hf) end.
  - split_and!; [by apply (Forall_app_2 _ _ [61; 61] (Forall_take _ 2 _ Hf)) | done |].
    rewrite <- b64_word_val by lia. by apply (b64_group_roundtrip b0 0 0 []).
  - split_and!; [by apply (Forall_app_2 _ _ [61] (Forall_take _ 3 _ Hf)); constructor | done |].
    rewrite <- b64_word_val by lia. by apply (b64_group_roundtrip b0 b1 0 []).
  - destruct (IH (length data2) ltac:(simpl; lia) data2 eq_refl Hd) as (Hr & Hl & Hg). split_and!.
    + by apply Forall_app.
    + rewrite len_app. change (len [_; _; _; _]) with 4. by rewrite <- Z.add_mod_idemp_l.
    + rewrite <- b64_word_val by lia.
      destruct (b64_group_roundtrip b0 b1 b2 data2 H0 H1 H2) as (_ & _ & Hfull).
      cbn [b64_encode] in Hfull. by rewrite Hfull, Hg.
Qed.

Lemma hex_nibble_digit n : 0 <= n < 16 -> hex_nibble (hex_digit n) = Ok n.
Proof.
  intros Hn. unfold hex_nibble, hex_digit, in_range.
  repeat case_match; bool_hyps; try lia; f_equal; lia.
Qed.

Lemma hex_pairs_bytes l : Forall (fun b => 0 <= b < 256) l -> hex_pairs (hex_bytes l) = Ok l.
Proof.
  induction 1 as [|b l Hb _ IH]; [done|]. destruct (nibbles b Hb) as [[H1 H2] E].
  change (hex_bytes (b :: l)) with (hex_digit (Z.shiftr b 4) :: hex_digit (Z.land b 15) :: hex_bytes l).
  cbn [hex_pairs]. rewrite !hex_nibble_digit, IH by done. cbn [mbind result_mbind].
  rewrite lor_shift by done. do 2 f_equal. lia.
Qed.

Lemma hex_bytes_len l : len (hex_bytes l) = 2 * len l.
Proof. induction l as [|b l IH]; [done|]. unfold hex_bytes in *. simpl. rewrite !len_cons, IH. lia. Qed.

(** What is written in Base64 or hex is read back: the decoders of the trust
    root, of image signatures and of Secret data undo the encoders on all bytes. *)
Lemma text_encodings_roundtrip data (Hbytes : Forall (fun b => 0 <= b < 256) data) :
  b64_decode (string_of_bytes (b64_encode data)) = Ok data /\
  hex_decode (hex_encode data) = Ok data.
Proof.
  split.
  - destruct (b64_encode_shape data Hbytes) as (Hp & Hl & Hg). unfold b64_decode.
    rewrite as_bytes_of_string by (eapply Forall_impl; [exact Hp | simpl; lia]).
    rewrite trim_printable by done. rewrite Hl.
    destruct data as [|b data]; [done|].
    destruct (is_empty (b64_encode (b :: data))) eqn:E; [|done].
    apply is_empty_true in E. by rewrite E in Hg.
  - unfold hex_decode. rewrite as_bytes_hex by done.
    rewrite trim_printable by (eapply Forall_impl; [by apply hex_bytes_range | simpl; lia]).
    rewrite hex_bytes_len, Z.mul_comm, Z.mod_mul by done. by apply hex_pairs_bytes.
Qed.

Lemma text_encodings_witness :
  b64_decode (string_of_bytes (b64_encode [102; 111])) = Ok [102; 111] /\
  hex_decode (hex_encode [102; 111]) = Ok [102; 111].
Proof. apply (text_encodings_roundtrip [102; 111]). repeat constructor; done. Defined.

(** RFC 4648 test vectors. *)
Lemma b64_vectors :
  string_of_bytes (b64_encode (as_bytes "f")) = "Zg==" /\
  string_of_bytes (b64_encode (as_bytes "fo")) = "Zm8=" /\
  string_of_bytes (b64_encode (as_bytes "foo")) = "Zm9v" /\
  b64_decode "Zg=" = Err (Integrity [Lit "base64 length must be a multiple of 4"]).
Proof. vm_compute. done. Qed.
