(* ===== verification/Json.v ===== *)
(** * JSON values

    [serde_json::Value] as the sources use it: typed getters that answer [None] on a
    value of another type, object lookup, and pointers. A [Map] is a [BTreeMap] (the
    [preserve_order] feature is off), kept as its entries in key order; [get] looks
    one up. The text codec is a parameter. *)

From S2P Require Import Prelude RustStd.

(** [JNum n] is a number; [n] is its value when it fits an [i64]. *)
Inductive Json : Type :=
| JNull
| JBool (b : bool)
| JNum (n : option Z)
| JStr (s : string)
| JArr (items : list Json)
| JObj (entries : list (string * Json)).

Definition as_str (v : Json) : option string := match v with JStr s => Some s | _ => None end.
Definition as_bool (v : Json) : option bool := match v with JBool b => Some b | _ => None end.
Definition as_i64 (v : Json) : option Z := match v with JNum n => n | _ => None end.
Definition as_array (v : Json) : option (list Json) := match v with JArr l => Some l | _ => None end.
Definition as_object (v : Json) : option (list (string * Json)) :=
  match v with JObj m => Some m | _ => None end.

(** [Map::get]. *)
Fixpoint get (m : list (string * Json)) (key : string) : option Json :=
  match m with
  | [] => None
  | (k, v) :: m' => if str_eqb k key then Some v else get m' key
  end.

(** [Value::get] with a string index: only objects have entries. *)
Definition value_get (v : Json) (key : string) : option Json :=
  match v with JObj m => get m key | _ => None end.

(** [Value::pointer]. A pointer is its tokens; none here needs the escapes of RFC 6901. *)
Definition digit_val (b : Z) : option nat := if in_range 48 57 b then Some (Z.to_nat (b - 48)) else None.

(** [serde_json]'s array index: decimal, no sign, no leading zero. *)
Definition parse_index (t : string) : option nat :=
  let bytes := as_bytes t in
  if is_empty bytes || (bool_decide (head bytes = Some 48) && negb (len bytes =? 1)) then None
  else foldl (fun acc b => a ← acc; d ← digit_val b; Some (10 * a + d)%nat) (Some O) bytes.

Fixpoint pointer (v : Json) (path : list string) : option Json :=
  match path with
  | [] => Some v
  | t :: path' =>
      match v with
      | JObj m => x ← get m t; pointer x path'
      | JArr l => i ← parse_index t; x ← l !! i; pointer x path'
      | _ => None
      end
  end.

(** The entries whose value is a string. *)
Definition string_entries (m : list (string * Json)) : list (string * string) :=
  omap (fun '(k, v) => s ← as_str v; Some (k, s)) m.

Definition string_map (v : option Json) : gmap string string :=
  match v with Some (JObj m) => insert_all (string_entries m) | _ => ∅ end.

(** [serde_json::from_slice] and [to_vec] on values. *)
Class JsonText : Type := {
  json_of_bytes : list Z -> result string Json;
  json_bytes : Json -> result string (list Z)
}.

(** A codec that reads nothing, for inputs with no JSON text in them. *)
#[global] Instance no_json : JsonText := {
  json_of_bytes _ := Err "not JSON"; json_bytes _ := Err "not JSON"
}.
