(* ===== verification/Bundle.v ===== *)
(** * The signed bundle of the webhook

    [crates/ferrum-admission/src/bundle.rs]: the FSIG envelope, its verification
    against the pinned trust root, the Secret JSON around it, and the admission
    program inside the verified bytes. Path resolution (directory, symbolic link,
    file name) is not modelled; a snapshot directory is what reading its two files
    returned. *)

From S2P Require Import Prelude RustStd RustText Ids Api Policy Wire Encode Wasm Compiler Envelope Program.
From S2P Require Import Crypto Journal Encoding Json.
Import Admission.

Definition SIGNED_MAGIC : list Z := as_bytes "FSIG".
Definition SIGNED_FORMAT : Z := 1.
Definition BUNDLE_FSIG_KEY : string := "bundle.fsig".
Definition BUNDLE_DIGEST_KEY : string := "digest".

Record ExtractedFsig := { xf_fsig : list Z; xf_digest : option string }.

(** [RawReader], with its own texts. *)
Definition raw_texts : ReaderTexts :=
  {| t_truncated := "truncated policy bundle"; t_magic := "unexpected policy bundle magic";
     t_non_utf8 := ""; t_trailing := "trailing bytes in policy bundle" |}.

(** [.map_err(f)] on a read. *)
Definition rd_map_err {A} (f : FerrumError -> FerrumError) (m : rd A) : rd A :=
  fun r => map_err f (m r).

Definition len_prefixed (name : string) : rd (list Z) :=
  n ← rd_u32 raw_texts;
  rd_map_err (fun _ => Compile [Lit "truncated bundle "; Str name]) (rd_take raw_texts n).

Definition integrity {A} (text : string) (m : rd A) : rd A :=
  rd_map_err (fun _ => Integrity [Lit text]) m.

(** The fields of an FSIG, up to [r.finish()]. *)
Definition fsig_fields : rd (list Z * list Z * list Z) :=
  _ ← integrity "signed bundle magic is not FSIG" (rd_expect_magic raw_texts SIGNED_MAGIC);
  format ← integrity "truncated signed bundle" (rd_u32 raw_texts);
  _ ← rd_try (refuse_if (negb (format =? SIGNED_FORMAT))
        (Integrity [Lit "unsupported signed bundle format "; Num format]));
  public_key ← integrity "truncated signed bundle public_key" (len_prefixed "public_key");
  signature ← integrity "truncated signed bundle signature" (len_prefixed "signature");
  raw ← integrity "truncated signed bundle raw" (len_prefixed "raw");
  mret (public_key, signature, raw).

Definition decode_fsig (bytes : list Z) : Result (list Z * list Z * list Z) :=
  '(public_key, signature, raw) ← run_reader
     (x ← fsig_fields; _ ← integrity "trailing bytes in signed bundle" (rd_finish raw_texts); mret x) bytes;
  _ ← refuse_if (is_empty signature)
        (Integrity [Lit "bundle signature is empty; unsigned bundles are rejected"]);
  _ ← refuse_if (negb (len public_key =? ED25519_PUBLIC_KEY_LEN))
        (Integrity [Lit "Ed25519 public key must be "; Num ED25519_PUBLIC_KEY_LEN; Lit " bytes, got ";
           Num (len public_key)]);
  _ ← refuse_if (negb (len signature =? ED25519_SIGNATURE_LEN))
        (Integrity [Lit "Ed25519 signature must be "; Num ED25519_SIGNATURE_LEN; Lit " bytes, got ";
           Num (len signature)]);
  mret (public_key, signature, raw).

(** [append_len_prefixed], with its own error. *)
Definition append_blob (out blob : list Z) (name : string) : Result (list Z) :=
  if len blob <? U32 then Ok (out ++ le_bytes 4 (len blob) ++ blob)
  else Err (Integrity [Str name; Lit " exceeds u32 length"]).

Definition encode_fsig (raw signature public_key : list Z) : Result (list Z) :=
  _ ← refuse_if (is_empty signature) (Integrity [Lit "refusing to encode unsigned bundle"]);
  _ ← refuse_if (negb (len public_key =? ED25519_PUBLIC_KEY_LEN))
        (Integrity [Lit "Ed25519 public key must be "; Num ED25519_PUBLIC_KEY_LEN; Lit " bytes, got ";
           Num (len public_key)]);
  _ ← refuse_if (negb (len signature =? ED25519_SIGNATURE_LEN))
        (Integrity [Lit "Ed25519 signature must be "; Num ED25519_SIGNATURE_LEN; Lit " bytes, got ";
           Num (len signature)]);
  out ← append_blob (SIGNED_MAGIC ++ le_bytes 4 SIGNED_FORMAT) public_key "public_key";
  out ← append_blob out signature "signature";
  append_blob out raw "raw".

(** The reads of [extract_admission_program], up to [r.finish()?]. *)
Definition admission_fields : rd (list Z * list Z) :=
  _ ← rd_expect_magic raw_texts BUNDLE_MAGIC;
  format ← rd_u32 raw_texts;
  _ ← rd_try (refuse_if (negb (format =? BUNDLE_FORMAT))
        (Compile [Lit "unknown policy bundle format "; Num format]));
  _ ← rd_u32 raw_texts;
  min_admission_abi ← rd_u32 raw_texts;
  _ ← rd_try (refuse_if (ADMISSION_ABI <? min_admission_abi)
        (Degraded [Lit "bundle minAdmissionAbi "; Num min_admission_abi;
           Lit " incompatible with host "; Num ADMISSION_ABI]));
  admission ← len_prefixed "admission_program";
  _ ← len_prefixed "ebpf_spec";
  wasm ← len_prefixed "wasm";
  mret (admission, wasm).

Definition extract_admission_program (raw : list Z) : Result (list Z) :=
  '(admission, wasm) ← run_reader (x ← admission_fields; _ ← rd_finish raw_texts; mret x) raw;
  _ ← accept_bundle_slot wasm;
  _ ← refuse_if (is_empty admission) (Integrity [Lit "bundle admission_program is empty"]);
  mret admission.

Definition parse_verified (raw : list Z) : Result AdmissionProgram :=
  if prefixb ADMISSION_MAGIC raw then parse_program raw
  else if prefixb BUNDLE_MAGIC raw then
    fadm ← extract_admission_program raw; parse_program fadm
  else Err (Compile [Lit "verified bytes are neither FADM nor FRMB"]).

Definition looks_like_json (bytes : list Z) : bool :=
  match List.find (fun b => negb (is_ascii_whitespace b)) bytes with Some b => b =? 123 | None => false end.

Definition parse_trust_root (hex : string) : Result (list Z) :=
  bytes ← hex_decode hex;
  _ ← refuse_if (negb (len bytes =? ED25519_PUBLIC_KEY_LEN))
        (Integrity [Lit "trust-root pin must be "; Num ED25519_PUBLIC_KEY_LEN; Lit " bytes, got ";
           Num (len bytes)]);
  mret bytes.

Definition parse_dir_digest (bytes : list Z) : Result string :=
  hex ← ok_or (from_utf8 bytes) (Integrity [Lit "digest is not utf-8 hex"]);
  _ ← refuse_if (str_empty (trim hex)) (Integrity [Lit "empty/missing digest"]);
  mret (trim hex).

(** What [std::fs::read] returned. *)
Inductive FileRead := ReadOk (bytes : list Z) | ReadNotFound | ReadFailed (err : string).

Definition read_required (path : string) (outcome : FileRead) (missing : string) : Result (list Z) :=
  match outcome with
  | ReadOk bytes => if is_empty bytes then Err (Integrity [Str missing]) else Ok bytes
  | ReadNotFound => Err (Integrity [Str missing])
  | ReadFailed err => Err (Integrity [Str missing; Lit ": "; Str path; Lit ": "; Str err])
  end.

(** [read_dir_snapshot]: both files of one snapshot, and the digest is required. *)
Definition read_dir_snapshot (snap : string) (fsig digest : FileRead)
    : Result (list Z * option string) :=
  bytes ← read_required (snap +:+ "/" +:+ BUNDLE_FSIG_KEY) fsig "empty/missing bundle.fsig";
  digest_bytes ← read_required (snap +:+ "/" +:+ BUNDLE_DIGEST_KEY) digest "empty/missing digest";
  d ← parse_dir_digest digest_bytes;
  mret (bytes, Some d).

Section load.
Context `{E : Ed25519} `{T : JsonText} (sha256 : list Z -> list Z).

Definition extract_secret_json (bytes : list Z) : Result ExtractedFsig :=
  let missing := Integrity [Lit "empty/missing bundle.fsig"] in
  value ← map_err (fun _ => Integrity [Lit "Secret JSON is invalid"]) (json_of_bytes bytes);
  data ← ok_or (value_get value "data" ≫= as_object) missing;
  fsig_b64 ← ok_or (get data BUNDLE_FSIG_KEY ≫= as_str) missing;
  _ ← refuse_if (str_empty (trim fsig_b64)) missing;
  fsig ← b64_decode fsig_b64;
  _ ← refuse_if (is_empty fsig) missing;
  digest ← match get data BUNDLE_DIGEST_KEY with
           | None => mret None
           | Some v =>
               b64 ← ok_or (as_str v) (Integrity [Lit "Secret digest is not base64"]);
               raw ← b64_decode b64;
               hex ← ok_or (from_utf8 raw) (Integrity [Lit "Secret digest is not utf-8 hex"]);
               mret (Some (trim hex))
           end;
  mret {| xf_fsig := fsig; xf_digest := digest |}.

Definition extract_fsig (bytes : list Z) : Result ExtractedFsig :=
  if prefixb SIGNED_MAGIC bytes || prefixb BUNDLE_MAGIC bytes || prefixb ADMISSION_MAGIC bytes then
    Ok {| xf_fsig := bytes; xf_digest := None |}
  else if looks_like_json bytes then extract_secret_json bytes
  else Err (Integrity [Lit "bytes are not a signed FSIG policy bundle"]).

Definition load_signed (raw signature public_key : list Z) : Result AdmissionProgram :=
  _ ← verify_bundle_signature sha256 raw signature public_key; parse_verified raw.

Definition load_digest (raw : list Z) (expected : string) : Result AdmissionProgram :=
  _ ← verify_bundle_digest sha256 raw expected; parse_verified raw.

Definition pin_mismatch : FerrumError :=
  Integrity [Lit "embedded FSIG public key does not match caller trust-root pin"].

Definition load_fsig (bytes trust_root : list Z) : Result AdmissionProgram :=
  '(public_key, signature, raw) ← decode_fsig bytes;
  _ ← refuse_if (negb (bool_decide (public_key = trust_root))) pin_mismatch;
  _ ← verify_bundle_signature sha256 raw signature trust_root;
  parse_verified raw.

Definition pin_length (trust_root : list Z) : Result unit :=
  refuse_if (negb (len trust_root =? ED25519_PUBLIC_KEY_LEN))
    (Integrity [Lit "trust-root pin must be "; Num ED25519_PUBLIC_KEY_LEN; Lit " bytes, got ";
       Num (len trust_root)]).

Definition load_bundle (bytes trust_root : list Z) : Result AdmissionProgram :=
  _ ← pin_length trust_root;
  if prefixb SIGNED_MAGIC bytes then load_fsig bytes trust_root
  else if prefixb BUNDLE_MAGIC bytes || prefixb ADMISSION_MAGIC bytes then
    Err (Integrity [Lit "unsigned FRMB/FADM rejected; admission requires a verified FSIG"])
  else Err (Integrity [Lit "bytes are not a signed FSIG policy bundle"]).

(** [if let Some(expected) = d { verify_bundle_digest(&raw, expected)? }]. *)
Definition check_expected (raw : list Z) (d : option string) : Result unit :=
  match d with Some expected => verify_bundle_digest sha256 raw expected | None => Ok tt end.

Definition load_source_with_digest (bytes trust_root : list Z) (expected_digest : option string)
    : Result (AdmissionProgram * string) :=
  extracted ← extract_fsig bytes;
  program ← load_bundle (xf_fsig extracted) trust_root;
  '(_, _, raw) ← decode_fsig (xf_fsig extracted);
  _ ← check_expected raw (xf_digest extracted);
  _ ← check_expected raw expected_digest;
  mret (program, bundle_digest sha256 raw).

Definition verify_exceptions_fsig (bytes trust_root : list Z) : Result (list Z) :=
  _ ← pin_length trust_root;
  _ ← refuse_if (negb (prefixb SIGNED_MAGIC bytes))
        (Integrity [Lit "exceptions are not a signed FSIG envelope; unsigned lists are rejected"]);
  '(public_key, signature, payload) ← decode_fsig bytes;
  _ ← refuse_if (negb (bool_decide (public_key = trust_root))) pin_mismatch;
  _ ← verify_bundle_signature sha256 payload signature trust_root;
  mret payload.
End load.

(** ** Reading back what was written *)

Lemma reads_map_err {A} f (m : rd A) bs a : reads m bs a -> reads (rd_map_err f m) bs a.
Proof.
  intros H r rest Hr. destruct (H r rest Hr) as (r' & Hm & Hr').
  exists r'. unfold rd_map_err. by rewrite Hm.
Qed.

Lemma agrees_map_err {A} f (w : wr unit) (m : rd A) a : agrees w m a -> agrees w (rd_map_err f m) a.
Proof.
  intros H v v' Hv. destruct (H v v' Hv) as (bs & Hbs & Hr). exists bs. split; [done|].
  by apply reads_map_err.
Qed.

(** A length-prefixed blob, whoever wrote it. *)
Lemma reads_blob blob name :
  len blob < U32 -> reads (len_prefixed name) (le_bytes 4 (len blob) ++ blob) blob.
Proof.
  intros Hlt. eapply reads_bind; [|apply reads_map_err, reads_take].
  assert (agrees (put_u32 (len blob)) (rd_u32 raw_texts) (len blob)) as Hu.
  { apply agrees_u32. pose proof (len_nonneg blob). lia. }
  by destruct (Hu [] _ eq_refl) as (bs & [= <-] & Hr).
Qed.

Lemma agrees_frmb_blob blob name name' : agrees (put_blob blob name) (len_prefixed name') blob.
Proof.
  intros w w' H. unfold put_blob, append_len_prefixed in H.
  destruct (Z.ltb_spec (len blob) U32) as [Hlt|]; [|done].
  exists (le_bytes 4 (len blob) ++ blob). split; [by injection H | by apply reads_blob].
Qed.

Definition put_fsig_blob (blob : list Z) (name : string) : wr unit :=
  fun w => (fun out => (tt, out)) <$> append_blob w blob name.

Lemma agrees_fsig_blob blob name name' : agrees (put_fsig_blob blob name) (len_prefixed name') blob.
Proof.
  intros w w' H. unfold put_fsig_blob, append_blob in H.
  destruct (Z.ltb_spec (len blob) U32) as [Hlt|]; [|done].
  exists (le_bytes 4 (len blob) ++ blob). split; [by injection H | by apply reads_blob].
Qed.

Lemma appends_fsig_blob blob name : appends (put_fsig_blob blob name).
Proof.
  intros w a w' H. unfold put_fsig_blob, append_blob in H.
  case_match; [|done]. injection H as <- <-. by eexists.
Qed.

Definition fsig_writer (raw signature public_key : list Z) : wr unit :=
  _ ← put_bytes SIGNED_MAGIC; _ ← put_u32 SIGNED_FORMAT;
  _ ← put_fsig_blob public_key "public_key"; _ ← put_fsig_blob signature "signature";
  put_fsig_blob raw "raw".

Lemma encode_fsig_inv raw signature public_key bytes :
  encode_fsig raw signature public_key = Ok bytes ->
  (is_empty signature = false /\ len public_key = ED25519_PUBLIC_KEY_LEN /\
   len signature = ED25519_SIGNATURE_LEN) /\
  run_writer (fsig_writer raw signature public_key) = Ok bytes.
Proof.
  unfold encode_fsig. rewrite !bind_ok_unit, !refuse_if_ok, !negb_false_iff, !Z.eqb_eq.
  intros (? & ? & ? & H). split; [done|]. revert H.
  unfold run_writer, fsig_writer, put_fsig_blob, put_bytes, put_u32.
  unfold mbind, wr_mbind, put_bytes. simpl.
  destruct (append_blob _ public_key _) as [o1|]; [|done]. simpl.
  destruct (append_blob _ signature _) as [o2|]; [|done]. simpl.
  by destruct (append_blob _ raw _).
Qed.

Lemma fsig_roundtrip raw signature public_key bytes :
  encode_fsig raw signature public_key = Ok bytes -> len bytes <= ISIZE_MAX ->
  decode_fsig bytes = Ok (public_key, signature, raw) /\ prefixb SIGNED_MAGIC bytes = true.
Proof.
  intros [(Hne & Hpk & Hsig) Hrun]%encode_fsig_inv Hlen. split.
  - assert (Hread : run_reader (x ← fsig_fields; _ ← rd_finish raw_texts; mret x) bytes =
                    Ok (public_key, signature, raw)).
    { eapply decode_run; [|exact Hrun|done]. unfold fsig_writer, fsig_fields, integrity.
      codec_field ltac:(by apply agrees_map_err, agrees_magic).
      codec_field ltac:(by apply agrees_map_err, agrees_u32). apply agrees_check; [done|].
      do 2 codec_field ltac:(apply agrees_map_err, agrees_fsig_blob).
      eapply agrees_map; [apply agrees_map_err, agrees_fsig_blob | apply reads_ret]. }
    unfold decode_fsig.
    assert (run_reader (x ← fsig_fields; _ ← integrity "trailing bytes in signed bundle"
              (rd_finish raw_texts); mret x) bytes = Ok (public_key, signature, raw)) as ->.
    { unfold run_reader, mbind, rd_mbind, integrity, rd_map_err in *.
      destruct (fsig_fields _) as [[x r]|]; [|done]. simpl in *.
      by destruct (rd_finish raw_texts r) as [[u r']|]. }
    simpl. by rewrite Hne, Hpk, Hsig.
  - unfold run_writer in Hrun. destruct (fsig_writer _ _ _ []) as [[u w]|] eqn:E; [|done].
    injection Hrun as <-. apply wr_starts in E as [rest ->].
    + apply prefixb_spec. by eexists.
    + unfold fsig_writer in *. solve_appends; apply appends_fsig_blob.
Qed.

Lemma material_starts a b adm ebpf wasm material :
  bundle_digest_material a b adm ebpf wasm = Ok material -> exists rest, material = BUNDLE_MAGIC ++ rest.
Proof.
  rewrite <- material_as_writer. unfold run_writer. intros Hm.
  destruct (material_writer _ _ _ _ _ []) as [[u w]|] eqn:E; [|done].
  injection Hm as <-. apply wr_starts in E; [done|]. solve_appends; apply appends_blob.
Qed.

(** The webhook finds its program in the envelope the compiler wrote. *)
Lemma extract_admission_compiled adm ebpf material :
  bundle_digest_material AGENT_ABI ADMISSION_ABI adm ebpf placeholder_module = Ok material ->
  adm <> [] -> len material <= ISIZE_MAX ->
  extract_admission_program material = Ok adm /\ parse_verified material = parse_program adm.
Proof.
  intros Hmat Hne Hlen.
  assert (Hx : extract_admission_program material = Ok adm).
  { unfold extract_admission_program.
    assert (run_reader (x ← admission_fields; _ ← rd_finish raw_texts; mret x) material =
            Ok (adm, placeholder_module)) as ->.
    { eapply decode_run; [|rewrite <- Hmat; apply material_as_writer|done].
      unfold material_writer, admission_fields.
      codec_field ltac:(by apply agrees_magic). codec_field ltac:(by apply agrees_u32).
      apply agrees_check; [done|]. do 2 codec_field ltac:(by apply agrees_u32).
      apply agrees_check; [done|]. do 2 codec_field ltac:(apply agrees_frmb_blob).
      eapply agrees_map; [apply agrees_frmb_blob | apply reads_ret]. }
    cbn [mbind result_mbind]. rewrite accept_placeholder. cbn [mbind result_mbind].
    by rewrite (proj2 (is_empty_false adm) Hne). }
  split; [done|]. unfold parse_verified. destruct (material_starts _ _ _ _ _ _ Hmat) as [rest Er].
  assert (prefixb ADMISSION_MAGIC material = false) as -> by by rewrite Er.
  assert (prefixb BUNDLE_MAGIC material = true) as -> by (apply prefixb_spec; eauto).
  by rewrite Hx.
Qed.

(** ** What the webhook will run *)

Section load_facts.
Context `{E : Ed25519} `{T : JsonText} (sha256 : list Z -> list Z).

(** Bytes the holder of the trust root's key signed as a policy bundle. *)
Definition signed_by (root raw : list Z) : Prop :=
  exists signature, verify_bundle_signature sha256 raw signature root = Ok (bundle_digest sha256 raw).

Lemma verify_bundle_digest_of raw signature root d :
  verify_bundle_signature sha256 raw signature root = Ok d -> signed_by root raw.
Proof. intros H. exists signature. pose proof (verify_bundle_inv _ _ _ _ _ H) as (_ & _ & _ & _ & ->). done. Qed.

Lemma load_fsig_inv bytes root program :
  load_fsig sha256 bytes root = Ok program ->
  exists pk signature raw, decode_fsig bytes = Ok (pk, signature, raw) /\ pk = root /\
    signed_by root raw /\ parse_verified raw = Ok program.
Proof.
  unfold load_fsig. intros H. apply bind_ok in H as ([[pk signature] raw] & Hd & H).
  apply bind_ok_unit in H as [Hp H]. apply bind_ok in H as (d & Hv & H).
  apply refuse_if_ok, negb_false_iff, bool_decide_eq_true in Hp.
  exists pk, signature, raw. split_and!; try done. by eapply verify_bundle_digest_of.
Qed.

Lemma load_bundle_inv bytes root program :
  load_bundle sha256 bytes root = Ok program ->
  len root = ED25519_PUBLIC_KEY_LEN /\ load_fsig sha256 bytes root = Ok program.
Proof.
  unfold load_bundle, pin_length. intros [Hl H]%bind_ok_unit.
  apply refuse_if_ok, negb_false_iff, Z.eqb_eq in Hl. split; [done|].
  destruct (prefixb SIGNED_MAGIC bytes); [done|]. by case_match.
Qed.

Lemma check_expected_ok raw d :
  check_expected sha256 raw d = Ok tt -> forall e, d = Some e -> e = bundle_digest sha256 raw.
Proof.
  intros H e ->. simpl in H. unfold verify_bundle_digest in H.
  apply bind_ok_unit in H as [_ H]. by apply refuse_if_ok, negb_false_iff, str_eqb_true in H.
Qed.

Lemma load_source_inv bytes root expected program digest :
  load_source_with_digest sha256 bytes root expected = Ok (program, digest) ->
  len root = ED25519_PUBLIC_KEY_LEN /\
  exists raw, signed_by root raw /\ parse_verified raw = Ok program /\
    digest = bundle_digest sha256 raw /\
    (forall d, expected = Some d -> d = digest) /\
    (forall x d, extract_fsig bytes = Ok x -> xf_digest x = Some d -> d = digest).
Proof.
  unfold load_source_with_digest. intros H. apply bind_ok in H as (x & Hx & H).
  apply bind_ok in H as (p & [Hl (pk & sg & raw & Hd & _ & Hs & Hp)%load_fsig_inv]%load_bundle_inv & H).
  rewrite Hd in H. cbn [mbind result_mbind] in H. apply bind_ok_unit in H as [H1 H].
  apply bind_ok_unit in H as [H2 H]. injection H as <- <-. split; [done|]. exists raw. split_and!; try done.
  - by apply check_expected_ok.
  - intros y d Hy. rewrite Hx in Hy. injection Hy as <-. by apply check_expected_ok.
Qed.

Lemma verify_exceptions_inv bytes root payload :
  verify_exceptions_fsig sha256 bytes root = Ok payload -> signed_by root payload.
Proof.
  intros H. unfold verify_exceptions_fsig in H. apply bind_ok_unit in H as [_ H].
  apply bind_ok_unit in H as [_ H]. apply bind_ok in H as ([[pk sg] raw] & _ & H).
  apply bind_ok_unit in H as [_ H]. apply bind_ok in H as (d & Hv & [= <-]).
  by eapply verify_bundle_digest_of.
Qed.

(** Nothing unsigned is ever run. Whatever bytes the mount holds, raw envelope or
    Secret JSON: a program is loaded only if the pinned key signed the very bytes it is
    parsed from, in the bundle domain, and every digest stated beside them is theirs.
    The key embedded in the envelope is never trusted, and the list of exceptions is
    held to the same rule. *)
Lemma only_pinned_bundles_load bytes root expected :
  (forall program digest,
     load_source_with_digest sha256 bytes root expected = Ok (program, digest) ->
     exists raw, signed_by root raw /\ parse_verified raw = Ok program /\
       digest = bundle_digest sha256 raw /\ (forall d, expected = Some d -> d = digest) /\
       (forall x d, extract_fsig bytes = Ok x -> xf_digest x = Some d -> d = digest)) /\
  (forall payload, verify_exceptions_fsig sha256 bytes root = Ok payload -> signed_by root payload).
Proof.
  split.
  - intros program digest H. by apply load_source_inv in H as [_ ?].
  - apply verify_exceptions_inv.
Qed.

Lemma encode_admission_nonempty fx bytes : encode_admission fx = Ok bytes -> bytes <> [].
Proof.
  intros H ->. unfold encode_admission, run_writer in H.
  match type of H with _ <$> ?m = _ => destruct m as [[[] w]|] eqn:Ew end; [|done].
  injection H as ->. apply wr_starts in Ew as [rest Ew]; [done|]. solve_appends.
Qed.

(** from policy to webhook, end to end. A cluster policy that compiles, signed and
    wrapped, is loaded by a webhook pinned to the signer's public key as exactly the
    admission program of that policy, under the digest the compiler published. *)
Lemma signed_bundle_loads `{!Ed25519Laws E} spec b material seed sig fsig
    (Htypes : effects_ok (effects_of_cluster spec))
    (Hcompile : compile_cluster_policy sha256 spec = Ok b)
    (Hmaterial : bundle_digest_material AGENT_ABI ADMISSION_ABI (cb_admission_program b)
       (cb_ebpf_spec b) (cb_wasm b) = Ok material)
    (Hsign : sign_bundle material seed = Ok sig)
    (Hwrap : encode_fsig material sig (ed_public seed) = Ok fsig)
    (Halloc : len fsig <= ISIZE_MAX /\ len material <= ISIZE_MAX /\
              len (cb_admission_program b) <= ISIZE_MAX)
    (Hdigest : cb_digest b <> "") :
  load_source_with_digest sha256 fsig (ed_public seed) (Some (cb_digest b)) =
    Ok (compiled_program (effects_of_cluster spec), cb_digest b).
Proof.
  unfold compile_cluster_policy in Hcompile.
  apply bind_ok_unit in Hcompile as [_ (_ & Hadm & _ & Hw & m & Hm & Hd)%emit_bundle_inv].
  rewrite Hm in Hmaterial. injection Hmaterial as ->. rewrite Hw in Hm.
  destruct Halloc as (Hl1 & Hl2 & Hl3).
  destruct (fsig_roundtrip _ _ _ _ Hwrap Hl1) as [Hdec Hmagic].
  destruct (extract_admission_compiled _ _ _ Hm (encode_admission_nonempty _ _ Hadm) Hl2) as [_ Hparse].
  rewrite (fadm_roundtrip _ _ Htypes Hadm Hl3) in Hparse.
  assert (Hseed : len seed = ED25519_SECRET_KEY_LEN /\ is_all_zero seed = false /\
                  sig = ed_sign seed (signed_message material)).
  { unfold sign_bundle, parse_keypair in Hsign. inv_ok. bool_hyps. split_and!; try done; lia. }
  destruct Hseed as (Hlen & Hz & Esig).
  assert (Hver : verify_bundle_signature sha256 material sig (ed_public seed) =
                 Ok (bundle_digest sha256 material)) by (rewrite Esig; by apply sign_verify).
  destruct (ed_public_ok seed Hlen) as (Hpl & _).
  unfold load_source_with_digest, extract_fsig. rewrite Hmagic. cbn [orb mbind result_mbind xf_fsig xf_digest].
  unfold load_bundle, pin_length. rewrite Hpl, Hmagic. cbn [refuse_if negb mbind result_mbind Z.eqb].
  change (ED25519_PUBLIC_KEY_LEN =? ED25519_PUBLIC_KEY_LEN) with true. cbn [negb refuse_if mbind result_mbind].
  unfold load_fsig. rewrite Hdec. cbn [mbind result_mbind]. rewrite bool_decide_eq_true_2 by done.
  cbn [negb refuse_if mbind result_mbind]. rewrite Hver. cbn [mbind result_mbind]. rewrite Hparse.
  cbn [mbind result_mbind check_expected]. unfold verify_bundle_digest.
  rewrite (proj2 (str_empty_false _) Hdigest), Hd, str_eqb_refl. done.
Qed.
End load_facts.

(** ** The example policy, signed *)

Definition ok_or_else {A} (d : A) (r : Result A) : A := match r with Ok a => a | Err _ => d end.

Definition toy_bundle : CompiledBundle :=
  ok_or_else {| cb_digest := ""; cb_admission_program := []; cb_ebpf_spec := []; cb_wasm := [] |}
    (compile_cluster_policy toy_sha256 example_policy).

Definition toy_material : list Z :=
  ok_or_else [] (bundle_digest_material AGENT_ABI ADMISSION_ABI (cb_admission_program toy_bundle)
    (cb_ebpf_spec toy_bundle) (cb_wasm toy_bundle)).

Definition toy_seed : list Z := repeat 7 32.
Definition toy_signature : list Z := ok_or_else [] (sign_bundle toy_material toy_seed).
Definition toy_fsig : list Z := ok_or_else [] (encode_fsig toy_material toy_signature (ed_public toy_seed)).

Lemma signed_bundle_loads_witness :
  load_source_with_digest toy_sha256 toy_fsig (ed_public toy_seed) (Some (cb_digest toy_bundle)) =
    Ok (compiled_program (effects_of_cluster example_policy), cb_digest toy_bundle).
Proof.
  apply (signed_bundle_loads toy_sha256 example_policy toy_bundle toy_material toy_seed toy_signature toy_fsig).
  - exact example_policy_types.
  - vm_compute. reflexivity.
  - vm_compute. reflexivity.
  - vm_compute. reflexivity.
  - vm_compute. reflexivity.
  - split_and!; vm_compute; discriminate.
  - vm_compute. discriminate.
Defined.

(** A trailing byte, another pin, or an envelope without its signature: nothing loads. *)
Lemma tampered_bundle_refused :
  is_ok (load_source_with_digest toy_sha256 (toy_fsig ++ [0]) (ed_public toy_seed) None) = false /\
  is_ok (load_source_with_digest toy_sha256 toy_fsig (ed_public (repeat 8 32)) None) = false /\
  is_ok (load_source_with_digest toy_sha256 toy_material (ed_public toy_seed) None) = false.
Proof. vm_compute. done. Qed.
