(* ===== verification/Subject.v ===== *)
(** * From an admission object to the subject of the evaluator

    [crates/ferrum-admission/src/subject.rs]: what the webhook reads of a Pod, of a
    role and of a role binding. *)

From S2P Require Import Prelude RustStd Ids Api Policy Compiler Crypto Program Admit Journal.
From S2P Require Import Encoding Json.
Import Admission.

Definition IMAGE_SIGNATURE_ANNOTATION : string := "ferrum.io/image-signature".
Definition IMAGE_SIGNATURES_ANNOTATION : string := "ferrum.io/image-signatures".

Abbreviation JMap := (list (string * Json)).

Definition not_an_object (key : string) : FerrumError := Integrity [Str key; Lit " is not an object"].

(** Absent and [null] are the same; anything but an object is refused. *)
Definition optional_object_from (map : JMap) (key : string) : Result (option JMap) :=
  match get map key with
  | None | Some JNull => Ok None
  | Some (JObj m) => Ok (Some m)
  | Some _ => Err (not_an_object key)
  end.

Definition optional_object (v : Json) (key : string) : Result (option JMap) :=
  map ← ok_or (as_object v) (Integrity [Lit "admission object is not a JSON object"]);
  optional_object_from map key.

Definition str_field (m : option JMap) (key : string) : string :=
  default "" ((m ≫= fun m => get m key) ≫= as_str).
Definition bool_field (sc : option JMap) (key : string) : option bool :=
  (sc ≫= fun m => get m key) ≫= as_bool.
Definition i64_field (sc : option JMap) (key : string) : option Z :=
  (sc ≫= fun m => get m key) ≫= as_i64.

(** A list field: absent and [null] are empty, anything but an array is refused. *)
Definition array_field (v : option Json) (text : string) : Result (list Json) :=
  match v with
  | None | Some JNull => Ok []
  | Some (JArr items) => Ok items
  | Some _ => Err (Integrity [Lit text])
  end.

(** The objects of an array; an item of another type is refused. *)
Definition objects (items : list Json) (text : string) : Result (list JMap) :=
  try_map (fun v => ok_or (as_object v) (Integrity [Lit text])) items.

(** [for vol in items { ...?; if ... { return Ok(true) } }]. *)
Fixpoint any_volume (items : list Json) : Result bool :=
  match items with
  | [] => Ok false
  | vol :: rest =>
      obj ← ok_or (as_object vol) (Integrity [Lit "volume is not an object"]);
      if match get obj "hostPath" with Some _ => true | None => false end then Ok true else any_volume rest
  end.

Definition volumes_host_path (volumes : option Json) : Result bool :=
  items ← array_field volumes "volumes is not an array"; any_volume items.

Definition collect_containers (v : option Json) : Result (list JMap) :=
  items ← array_field v "containers is not an array"; objects items "container is not an object".

Definition runs_as_root (pod_sc container_sc : option JMap) : bool :=
  let run_as_non_root := match bool_field container_sc "runAsNonRoot" with
                         | Some b => Some b
                         | None => bool_field pod_sc "runAsNonRoot"
                         end in
  if bool_decide (run_as_non_root = Some true) then false else
  match (match i64_field container_sc "runAsUser" with
         | Some u => Some u
         | None => i64_field pod_sc "runAsUser"
         end) with
  | Some uid => uid =? 0
  | None => true
  end.

Definition list_has_star (v : option Json) : Result bool :=
  items ← array_field v "RBAC list is not an array";
  Ok (existsb (fun i => bool_decide (as_str i = Some "*")) items).

(** [a()? || b()? || c()?]: what is to the right is not looked at once one holds. *)
Definition rule_is_wild (obj : JMap) : Result bool :=
  verbs ← list_has_star (get obj "verbs");
  if (verbs : bool) then Ok true else
  resources ← list_has_star (get obj "resources");
  if (resources : bool) then Ok true else list_has_star (get obj "apiGroups").

Fixpoint any_wild_rule (items : list Json) : Result bool :=
  match items with
  | [] => Ok false
  | rule :: rest =>
      obj ← ok_or (as_object rule) (Integrity [Lit "RBAC rule is not an object"]);
      wild ← rule_is_wild obj;
      if (wild : bool) then Ok true else any_wild_rule rest
  end.

Definition rules_have_wildcard (rules : option Json) : Result bool :=
  items ← array_field rules "rules is not an array"; any_wild_rule items.

Definition is_cluster_admin_ref (role_ref : option Json) : Result bool :=
  match role_ref with
  | None | Some JNull => Ok false
  | Some (JObj m) =>
      Ok (str_eqb (str_field (Some m) "kind") "ClusterRole"
          && str_eqb (str_field (Some m) "name") "cluster-admin")
  | Some _ => Err (Integrity [Lit "roleRef is not an object"])
  end.

(** ** Images *)

Definition verifying_keys (roots : list TrustRoot) : list (list Z) :=
  flat_map (fun root => omap (fun hex =>
    match hex_decode hex with
    | Ok k => if len k =? ED25519_PUBLIC_KEY_LEN then Some k else None
    | Err _ => None
    end) (tr_public_keys root)) roots.

(** [if !u.contains(x) { u.push(x) }] over a list. *)
Definition push_new (u : list string) (x : string) : list string :=
  if list_contains u x then u else u ++ [x].
Definition unique_strings (l : list string) : list string := foldl push_new [] l.

Definition image_lacks_digest (image : string) : bool := negb (has_byte 64 (as_bytes image)).

Definition image_looks_latest (image : string) : bool :=
  if has_byte 64 (as_bytes image) then false else
  match rsplit_once 58 (as_bytes image) with
  | Some (repo, tag) =>
      if negb (is_empty repo) && negb (is_empty tag) && negb (has_byte 47 tag)
      then bool_decide (tag = as_bytes "latest") else true
  | None => true
  end.

(** The first unsigned image; then one without a digest, one tagged latest, the
    first. *)
Definition pick_image (images : list string) (signed : list bool) : string :=
  match List.find (fun p => negb p.2) (zip images signed) with
  | Some (img, _) => img
  | None =>
      match List.find image_lacks_digest images with
      | Some i => i
      | None =>
          match List.find image_looks_latest images with
          | Some i => i
          | None => default "" (head images)
          end
      end
  end.

Section subject.
Context `{E : Ed25519} `{T : JsonText} (sha256 : list Z -> list Z).

Definition signatures_map (annotations : gmap string string) : gmap string string :=
  match annotations !! IMAGE_SIGNATURES_ANNOTATION with
  | Some raw =>
      match json_of_bytes (as_bytes raw) with
      | Ok (JObj m) => insert_all (string_entries m)
      | _ => ∅
      end
  | None => ∅
  end.

Definition image_signature_ok (image : string) (all_images : list string)
    (annotations : gmap string string) (keys : list (list Z)) : bool :=
  if is_empty keys then false else
  let sig_hex := match signatures_map annotations !! image with
                 | Some h => Some h
                 | None => if len (unique_strings all_images) =? 1
                           then annotations !! IMAGE_SIGNATURE_ANNOTATION else None
                 end in
  match sig_hex with
  | None => false
  | Some hex =>
      match hex_decode hex with
      | Err _ => false
      | Ok sig =>
          if negb (len sig =? ED25519_SIGNATURE_LEN) then false else
          existsb (fun pk => is_ok (verify_bundle_signature sha256 (as_bytes image) sig pk)) keys
      end
  end.

(** What the loop over the containers accumulates. *)
Record PodFacts := {
  pf_images : list string; pf_caps : list string;
  pf_privileged : bool; pf_allow_esc : bool; pf_root : bool
}.

Definition no_facts : PodFacts :=
  {| pf_images := []; pf_caps := []; pf_privileged := false; pf_allow_esc := false; pf_root := false |}.

(** [capabilities.add], the strings of it. *)
Definition added_caps (csc : option JMap) : list string :=
  match csc ≫= (fun m => get m "capabilities") with
  | Some (JObj cap) => match get cap "add" with Some (JArr add) => omap as_str add | _ => [] end
  | _ => []
  end.

Definition container_step (pod_sc : option JMap) (f : PodFacts) (c : JMap) : Result PodFacts :=
  csc ← optional_object_from c "securityContext";
  let img := str_field (Some c) "image" in
  Ok {| pf_images := if str_empty img then pf_images f else pf_images f ++ [img];
        pf_caps := foldl push_new (pf_caps f) (added_caps csc);
        pf_privileged := pf_privileged f || default false (bool_field csc "privileged");
        pf_allow_esc := pf_allow_esc f || default true (bool_field csc "allowPrivilegeEscalation");
        pf_root := pf_root f || runs_as_root pod_sc csc |}.

Fixpoint container_loop (pod_sc : option JMap) (f : PodFacts) (cs : list JMap) : Result PodFacts :=
  match cs with
  | [] => Ok f
  | c :: cs' => f' ← container_step pod_sc f c; container_loop pod_sc f' cs'
  end.

Definition pod_containers (spec : JMap) : Result (list JMap) :=
  a ← collect_containers (get spec "containers");
  b ← collect_containers (get spec "initContainers");
  c ← collect_containers (get spec "ephemeralContainers");
  Ok (a ++ b ++ c).

Definition fill_pod (subject : AdmissionSubject) (object : Json) (meta : option JMap)
    (trust_roots : list TrustRoot) : Result AdmissionSubject :=
  found ← optional_object object "spec";
  spec ← ok_or found (Integrity [Lit "Pod spec is missing"]);
  host_path ← volumes_host_path (get spec "volumes");
  pod_sc ← optional_object_from spec "securityContext";
  containers ← pod_containers spec;
  let with_pod image signed privileged allow_esc root caps :=
    {| su_policy_name := su_policy_name subject; su_policy_namespace := su_policy_namespace subject;
       su_namespace := su_namespace subject; su_cluster_labels := su_cluster_labels subject;
       su_namespace_labels := su_namespace_labels subject;
       su_workload_labels := su_workload_labels subject;
       su_service_account := str_field (Some spec) "serviceAccountName";
       su_service_account_labels := su_service_account_labels subject;
       su_image := image; su_image_signed := signed; su_privileged := privileged;
       su_host_pid := default false (bool_field (Some spec) "hostPID");
       su_host_ipc := default false (bool_field (Some spec) "hostIPC");
       su_host_network := default false (bool_field (Some spec) "hostNetwork");
       su_host_path := host_path; su_allow_privilege_escalation := allow_esc;
       su_run_as_root := root; su_added_capabilities := caps;
       su_wildcard_rbac := su_wildcard_rbac subject;
       su_cluster_admin_bind := su_cluster_admin_bind subject; su_kind := su_kind subject |} in
  if is_empty containers then
    Ok (with_pod (su_image subject) false (su_privileged subject) true (runs_as_root pod_sc None)
          (su_added_capabilities subject))
  else
    f ← container_loop pod_sc no_facts containers;
    let images := pf_images f in
    let annotations := string_map (meta ≫= (fun m => get m "annotations")) in
    let keys := verifying_keys trust_roots in
    let signed_flags := map (fun img => image_signature_ok img images annotations keys) images in
    Ok (with_pod (pick_image images signed_flags) (negb (is_empty images) && forallb id signed_flags)
          (pf_privileged f) (pf_allow_esc f) (pf_root f) (pf_caps f)).

Definition set_wildcard (b : bool) (s : AdmissionSubject) : AdmissionSubject :=
  {| su_policy_name := su_policy_name s; su_policy_namespace := su_policy_namespace s;
     su_namespace := su_namespace s; su_cluster_labels := su_cluster_labels s;
     su_namespace_labels := su_namespace_labels s; su_workload_labels := su_workload_labels s;
     su_service_account := su_service_account s;
     su_service_account_labels := su_service_account_labels s; su_image := su_image s;
     su_image_signed := su_image_signed s; su_privileged := su_privileged s;
     su_host_pid := su_host_pid s; su_host_ipc := su_host_ipc s; su_host_network := su_host_network s;
     su_host_path := su_host_path s; su_allow_privilege_escalation := su_allow_privilege_escalation s;
     su_run_as_root := su_run_as_root s; su_added_capabilities := su_added_capabilities s;
     su_wildcard_rbac := b; su_cluster_admin_bind := su_cluster_admin_bind s; su_kind := su_kind s |}.

Definition set_bind (b : bool) (s : AdmissionSubject) : AdmissionSubject :=
  {| su_policy_name := su_policy_name s; su_policy_namespace := su_policy_namespace s;
     su_namespace := su_namespace s; su_cluster_labels := su_cluster_labels s;
     su_namespace_labels := su_namespace_labels s; su_workload_labels := su_workload_labels s;
     su_service_account := su_service_account s;
     su_service_account_labels := su_service_account_labels s; su_image := su_image s;
     su_image_signed := su_image_signed s; su_privileged := su_privileged s;
     su_host_pid := su_host_pid s; su_host_ipc := su_host_ipc s; su_host_network := su_host_network s;
     su_host_path := su_host_path s; su_allow_privilege_escalation := su_allow_privilege_escalation s;
     su_run_as_root := su_run_as_root s; su_added_capabilities := su_added_capabilities s;
     su_wildcard_rbac := su_wildcard_rbac s; su_cluster_admin_bind := b; su_kind := su_kind s |}.

(** [a.or_else(|| b)]. *)
Definition or_else {A} (a b : option A) : option A := match a with Some x => Some x | None => b end.

Definition fill_role (subject : AdmissionSubject) (object : Json) : Result AdmissionSubject :=
  found ← optional_object object "spec";
  spec ← match found with
         | Some s => Ok s
         | None => ok_or (as_object object) (Integrity [Lit "Role is not an object"])
         end;
  wild ← rules_have_wildcard (or_else (get spec "rules") (value_get object "rules"));
  Ok (set_wildcard wild subject).

Definition fill_binding (subject : AdmissionSubject) (object : Json) : Result AdmissionSubject :=
  spec ← optional_object object "spec";
  bind ← is_cluster_admin_ref (or_else (spec ≫= fun s => get s "roleRef") (value_get object "roleRef"));
  Ok (set_bind bind subject).

Definition subject_from_object (object : Json) (trust_roots : list TrustRoot) : Result AdmissionSubject :=
  obj ← ok_or (as_object object) (Integrity [Lit "admission object is missing or not a JSON object"]);
  let kind := str_field (Some obj) "kind" in
  meta ← optional_object object "metadata";
  let subject :=
    {| su_policy_name := ""; su_policy_namespace := ""; su_namespace := str_field meta "namespace";
       su_cluster_labels := None; su_namespace_labels := None;
       su_workload_labels := string_map (meta ≫= (fun m => get m "labels"));
       su_service_account := ""; su_service_account_labels := None; su_image := "";
       su_image_signed := false; su_privileged := false; su_host_pid := false; su_host_ipc := false;
       su_host_network := false; su_host_path := false; su_allow_privilege_escalation := false;
       su_run_as_root := false; su_added_capabilities := []; su_wildcard_rbac := false;
       su_cluster_admin_bind := false; su_kind := kind |} in
  if str_eqb kind "Pod" then fill_pod subject object meta trust_roots
  else if str_eqb kind "Role" || str_eqb kind "ClusterRole" then fill_role subject object
  else if str_eqb kind "RoleBinding" || str_eqb kind "ClusterRoleBinding" then fill_binding subject object
  else Ok subject.
End subject.

(** ** What a Pod's subject says *)

Lemma push_new_elem u l x : x ∈ foldl push_new u l <-> x ∈ u \/ x ∈ l.
Proof.
  revert u. induction l as [|y l IH]; intros u; simpl.
  - rewrite elem_of_nil. tauto.
  - rewrite IH, elem_of_cons. unfold push_new. destruct (list_contains u y) eqn:Hc.
    + apply list_contains_elem in Hc. naive_solver.
    + rewrite elem_of_app, list_elem_of_singleton. naive_solver.
Qed.

(** A container's [securityContext], where it has one. *)
Definition sc_of (c : JMap) : option JMap :=
  match get c "securityContext" with Some (JObj m) => Some m | _ => None end.

Definition container_privileged (c : JMap) : bool := default false (bool_field (sc_of c) "privileged").
Definition container_may_escalate (c : JMap) : bool :=
  default true (bool_field (sc_of c) "allowPrivilegeEscalation").

(** The image references of the containers, in order. *)
Definition images_of (cs : list JMap) : list string :=
  List.filter (fun i => negb (str_empty i)) (map (fun c => str_field (Some c) "image") cs).

Lemma security_context_ok c csc : optional_object_from c "securityContext" = Ok csc -> csc = sc_of c.
Proof. unfold optional_object_from, sc_of. intros H. repeat case_match; congruence. Qed.

Lemma container_loop_facts pod_sc f cs f' :
  container_loop pod_sc f cs = Ok f' ->
  pf_privileged f' = pf_privileged f || existsb container_privileged cs /\
  pf_allow_esc f' = pf_allow_esc f || existsb container_may_escalate cs /\
  pf_root f' = pf_root f || existsb (fun c => runs_as_root pod_sc (sc_of c)) cs /\
  pf_images f' = pf_images f ++ images_of cs /\
  (forall cap, cap ∈ pf_caps f' <-> cap ∈ pf_caps f \/ exists c, c ∈ cs /\ cap ∈ added_caps (sc_of c)).
Proof.
  revert f. induction cs as [|c cs IH]; intros f; simpl.
  - intros [= <-]. rewrite !orb_false_r, app_nil_r. split_and!; try done. intros cap.
    split; [by left|]. intros [?|(c & ?%elem_of_nil & _)]; done.
  - intros H. apply bind_ok in H as (f1 & H1 & H). unfold container_step in H1.
    apply bind_ok in H1 as (csc & ->%security_context_ok & [= <-]).
    destruct (IH _ H) as (-> & -> & -> & -> & Hcaps). simpl. rewrite !orb_assoc.
    unfold container_privileged, container_may_escalate, images_of. split_and!; try done.
    + simpl. destruct (str_empty _); simpl; [done|]. by rewrite <- app_assoc.
    + intros cap. rewrite Hcaps. simpl. rewrite push_new_elem. setoid_rewrite elem_of_cons. naive_solver.
Qed.

Section subject_facts.
Context `{E : Ed25519} `{T : JsonText} (sha256 : list Z -> list Z).

End subject_facts.

(** ** Two containers *)

Definition container (image : string) (sc : list (string * Json)) : Json :=
  JObj [("image", JStr image); ("securityContext", JObj sc)].

Definition pod_of (containers : list Json) : Json :=
  JObj [("kind", JStr "Pod"); ("metadata", JObj [("namespace", JStr "shop")]);
        ("spec", JObj [("containers", JArr containers)])].

Definition hardened : list (string * Json) :=
  [("allowPrivilegeEscalation", JBool false); ("runAsNonRoot", JBool true)].

Definition sidecar_pod : Json :=
  pod_of [container "ghcr.io/acme/cart:1.2" hardened;
          container "ghcr.io/acme/side:1.0" (("privileged", JBool true) :: hardened)].


(** One image of a Pod stands for all of them in the registry, digest and tag rules.
    With no signatures required, a second container's image from a registry that is
    not allowed, by tag latest, is admitted beside an image that passes. *)
Definition image_policy : AdmissionProgram :=
  {| ap_abi := ADMISSION_ABI; ap_mode := Enforce; ap_disabled := false; ap_priority := 0;
     ap_supply := {| ss_require_signed := false; ss_deny_unsigned := false; ss_deny_latest_tag := true;
                     ss_trust_roots := [] |};
     ap_admit := {| as_failure_policy := Fail_; as_pss := Baseline; as_deny := default_deny;
                    as_mutate := default_mutate |};
     ap_selector :=
       {| ps_cluster_selector := default_label_selector; ps_namespace_selector := default_label_selector;
          ps_workload_selector := default_label_selector;
          ps_service_account_selector := default_label_selector;
          ps_image := {| is_registries_allow := ["ghcr.io"]; is_require_digest := true |} |} |}.

Definition admits (images : list string) : bool :=
  match subject_from_object (fun l => l) (pod_of (map (fun i => container i hardened) images)) [] with
  | Ok su => dec_allowed (admit_request image_policy su [] 0)
  | Err _ => false
  end.

Lemma second_image_unchecked :
  admits ["evil.io/miner:latest"] = false /\
  admits ["ghcr.io/acme/cart@sha256:aa"; "evil.io/miner:latest"] = true.
Proof. vm_compute. done. Qed.
