(* ===== verification/Review.v ===== *)
(** * AdmissionReview in, AdmissionReview out

    [crates/ferrum-admission/src/review.rs] with the label sources of [labels.rs]: the
    path of one request from its body to the reply, the fail-closed answers on the
    way, and the JSON Patch of an admitted Pod. *)

From stdpp Require Import pretty.
From S2P Require Import Prelude RustStd Ids Api Policy Compiler Crypto Program Admit Journal.
From S2P Require Import Encoding Json Subject.
Import Admission.

Definition DEFAULT_SERVICE_ACCOUNT : string := "default".

(** ** Label sources *)

(** [Stale] carries its age in nanoseconds. *)
Inductive LabelWarmth := Cold | Stale (age : Z) | RelistPending | Warm.

#[global] Instance LabelWarmth_eq_dec : EqDecision LabelWarmth.
Proof. solve_decision. Defined.

Definition is_warm (w : LabelWarmth) : bool := match w with Warm => true | _ => false end.

Definition warmth_reason (w : LabelWarmth) : msg :=
  match w with
  | Cold => [Lit "label cache has not listed yet"]
  | Stale age => [Lit "label cache last refreshed "; Num (age / 1000000000); Lit "s ago, past its freshness budget"]
  | RelistPending => [Lit "label cache missed events (410 Gone, or a frame this build could not read) and has not relisted"]
  | Warm => [Lit "label cache is warm"]
  end.

Definition warmth_rank (w : LabelWarmth) : Z :=
  match w with Cold => 0 | RelistPending => 1 | Stale _ => 2 | Warm => 3 end.

Definition worse_of (a b : LabelWarmth) : LabelWarmth :=
  if warmth_rank a <? warmth_rank b then a
  else if warmth_rank b <? warmth_rank a then b
  else match a, b with
       | Stale x, Stale y => if x <? y then b else a
       | _, _ => a
       end.

Lemma worse_of_warm a b : is_warm (worse_of a b) = is_warm a && is_warm b.
Proof. destruct a, b; try done. unfold worse_of. simpl. by case_match. Qed.

(** The trait [LabelSource]: [None] is "never observed". *)
Record LabelSource := {
  src_namespace_labels : string -> option (gmap string string);
  src_service_account_labels : string -> string -> option (gmap string string);
  src_cluster_labels : option (gmap string string);
  src_warmth : LabelWarmth
}.

Record StaticLabels := {
  sl_cluster : option (gmap string string);
  sl_namespaces : gmap string (gmap string string);
  sl_service_accounts : gmap (string * string) (gmap string string);
  sl_warmth : LabelWarmth
}.

Definition static_source (s : StaticLabels) : LabelSource :=
  {| src_namespace_labels ns := sl_namespaces s !! ns;
     src_service_account_labels ns sa := sl_service_accounts s !! (ns, sa);
     src_cluster_labels := sl_cluster s; src_warmth := sl_warmth s |}.

(** [ColdLabels::default()]. *)
Definition cold_labels : LabelSource :=
  static_source {| sl_cluster := None; sl_namespaces := ∅; sl_service_accounts := ∅; sl_warmth := Cold |}.

(** ** JSON pointers and patches

    A pointer is its tokens; none here needs the escapes of RFC 6901. *)

(** The text of a pointer. *)
Definition render_path (path : list string) : string :=
  foldr (fun t s => "/" +:+ t +:+ s) "" path.

Definition add_op (path : list string) (value : Json) : Json :=
  JObj [("op", JStr "add"); ("path", JStr (render_path path)); ("value", value)].

(** Where and what one [add_nested] pushes: the path is taken from its end, and the
    value wrapped, until the parent exists in the object. *)
Fixpoint add_nested (object : Json) (rpath : list string) (value : Json) : list string * Json :=
  match pointer object (rev rpath) with
  | Some _ => (rev rpath, value)
  | None =>
      match rpath with
      | key :: ((_ :: _) as rparent) =>
          match pointer object (rev rparent) with
          | Some _ => (rev rpath, value)
          | None => add_nested object rparent (JObj [(key, value)])
          end
      | _ => (rev rpath, value)
      end
  end.

Definition nested (object : Json) (path : list string) (value : Json) : list string * Json :=
  add_nested object (rev path) value.

Definition container_paths (object : Json) : list (list string) :=
  flat_map (fun key =>
    match pointer object ["spec"; key] ≫= as_array with
    | Some arr => map (fun i => ["spec"; key; pretty i]) (seq 0 (length arr))
    | None => []
    end) ["containers"; "initContainers"; "ephemeralContainers"].

Definition has_patch (p : Patch) (patches : list Patch) : bool :=
  existsb (fun q => match p, q with
                    | InjectSeccompRuntimeDefault, InjectSeccompRuntimeDefault
                    | DropAllCapabilities, DropAllCapabilities
                    | ReadOnlyRootFilesystem, ReadOnlyRootFilesystem => true
                    | _, _ => false
                    end) patches.

(** The operations, as paths and values. *)
Definition patch_ops (patches : list Patch) (object : Json) : list (list string * Json) :=
  let paths := container_paths object in
  let profile := JObj [("type", JStr "RuntimeDefault")] in
  (if has_patch InjectSeccompRuntimeDefault patches then
     nested object ["spec"; "securityContext"; "seccompProfile"] profile ::
     map (fun p => nested object (p ++ ["securityContext"; "seccompProfile"]) profile) paths
   else []) ++
  (if has_patch DropAllCapabilities patches then
     map (fun p => nested object (p ++ ["securityContext"; "capabilities"; "drop"]) (JArr [JStr "ALL"])) paths
   else []) ++
  (if has_patch ReadOnlyRootFilesystem patches then
     map (fun p => nested object (p ++ ["securityContext"; "readOnlyRootFilesystem"]) (JBool true)) paths
   else []).

Definition rfc6902_patches (patches : list Patch) (object : Json) : list Json :=
  map (fun '(path, value) => add_op path value) (patch_ops patches object).

(** ** Replies *)

Record ReviewReply := { rr_status : Z; rr_body : list Z; rr_allowed : bool }.

Record BreakGlassGrant := { bgg_id : string; bgg_ticket : string; bgg_expires_at : Z }.

Record ReviewConfig := {
  rc_policy_name : string; rc_policy_namespace : string; rc_labels : LabelSource
}.

Definition watched_labels_selected (program : AdmissionProgram) : bool :=
  selector_nonempty (ps_namespace_selector (ap_selector program))
  || selector_nonempty (ps_service_account_selector (ap_selector program)).

Definition break_glass_message (grant : BreakGlassGrant) : msg :=
  [Lit "FERRUM break-glass in force (grant "; Str (bgg_id grant); Lit ", ticket "; Str (bgg_ticket grant);
   Lit ", until "; Time (bgg_expires_at grant); Lit "): admitted without policy evaluation"].

(** [reasons.join("; ")]. *)
Fixpoint join_msgs (l : list msg) : msg :=
  match l with
  | [] => []
  | [m] => m
  | m :: l' => m ++ Lit "; " :: join_msgs l'
  end.

(** The fields the review fills in around what the object says. *)
Definition with_context (su : AdmissionSubject) (name policy_ns ns : string)
    (ns_labels sa_labels cluster_labels : option (gmap string string)) : AdmissionSubject :=
  {| su_policy_name := name; su_policy_namespace := policy_ns; su_namespace := ns;
     su_cluster_labels := cluster_labels; su_namespace_labels := ns_labels;
     su_workload_labels := su_workload_labels su; su_service_account := su_service_account su;
     su_service_account_labels := sa_labels; su_image := su_image su;
     su_image_signed := su_image_signed su; su_privileged := su_privileged su;
     su_host_pid := su_host_pid su; su_host_ipc := su_host_ipc su; su_host_network := su_host_network su;
     su_host_path := su_host_path su; su_allow_privilege_escalation := su_allow_privilege_escalation su;
     su_run_as_root := su_run_as_root su; su_added_capabilities := su_added_capabilities su;
     su_wildcard_rbac := su_wildcard_rbac su; su_cluster_admin_bind := su_cluster_admin_bind su;
     su_kind := su_kind su |}.

(** A literal, written with an apostrophe for the double quote. *)
Definition quoted (s : string) : list Z := map (fun b => if b =? 39 then 34 else b) (as_bytes s).

Section review.
Context `{E : Ed25519} `{T : JsonText} (sha256 : list Z -> list Z) (fmt : msg -> string).

(** [serde_json::to_vec(&body).unwrap_or_else(..)] of a whole reply. *)
Definition to_vec_or_denied (v : Json) : list Z :=
  match json_bytes v with
  | Ok b => b
  | Err _ => quoted "{'apiVersion':'admission.k8s.io/v1','kind':'AdmissionReview','response':{'uid':'','allowed':false}}"
  end.

Definition review_body (response : list (string * Json)) : list Z :=
  to_vec_or_denied (JObj [("apiVersion", JStr "admission.k8s.io/v1"); ("kind", JStr "AdmissionReview");
                          ("response", JObj response)]).

(** Entries in key order, as the map keeps them. *)
Definition encode_response (uid : string) (allowed : bool) (patch : option Json) (message : string)
    : list Z :=
  review_body
    ([("allowed", JBool allowed)]
     ++ (match patch with
         | Some p =>
             let bytes := match json_bytes p with Ok b => b | Err _ => as_bytes "[]" end in
             [("patch", JStr (string_of_bytes (b64_encode bytes))); ("patchType", JStr "JSONPatch")]
         | None => []
         end)
     ++ (if allowed then [] else
         [("status", JObj [("code", JNum (Some 403)); ("message", JStr message)])])
     ++ [("uid", JStr uid)]).

Definition encode_break_glass_allow (uid : string) (message : string) : list Z :=
  review_body [("allowed", JBool true); ("uid", JStr uid); ("warnings", JArr [JStr message])].

Definition http_400 (message : string) : ReviewReply :=
  {| rr_status := 400;
     rr_body := match json_bytes (JObj [("error", JStr message)]) with
                | Ok b => b | Err _ => quoted "{'error':'bad request'}" end;
     rr_allowed := false |}.

Definition ok_deny (uid message : string) : ReviewReply :=
  {| rr_status := 200; rr_body := encode_response uid false None message; rr_allowed := false |}.

Definition decision_response (uid : string) (object : Json) (decision : AdmissionDecision) : ReviewReply :=
  if dec_fail_closed decision then
    ok_deny uid (fmt (default [Lit "policy bundle failed closed"] (head (dec_reasons decision))))
  else if negb (dec_allowed decision) then
    ok_deny uid (fmt (if is_empty (dec_reasons decision) then [Lit "denied by policy"]
                      else join_msgs (dec_reasons decision)))
  else
    let patch :=
      if bool_decide (dec_mode decision = Enforce) && negb (is_empty (dec_patches decision))
         && bool_decide (value_get object "kind" ≫= as_str = Some "Pod") then
        let ops := rfc6902_patches (dec_patches decision) object in
        if is_empty ops then None else Some (JArr ops)
      else None in
    {| rr_status := 200; rr_body := encode_response uid true patch ""; rr_allowed := true |}.

(** The subject the evaluator is asked about. *)
Definition complete_subject (cfg : ReviewConfig) (request : list (string * Json)) (su : AdmissionSubject)
    : AdmissionSubject :=
  let ns := if str_empty (su_namespace su)
            then default "" (get request "namespace" ≫= as_str) else su_namespace su in
  let sa := if str_empty (su_service_account su) then DEFAULT_SERVICE_ACCOUNT else su_service_account su in
  with_context su (rc_policy_name cfg) (rc_policy_namespace cfg) ns
    (src_namespace_labels (rc_labels cfg) ns) (src_service_account_labels (rc_labels cfg) ns sa)
    (src_cluster_labels (rc_labels cfg)).

(** The rest of [handle_with], for a request that could be read: break-glass first,
    then every fail-closed arm, then the evaluator. *)
Definition answer_request (cfg : ReviewConfig) (uid : string) (request : list (string * Json))
    (program : option AdmissionProgram) (exceptions : list PolicyExceptionSpec)
    (break_glass : option BreakGlassGrant) (now : Z) : ReviewReply :=
  match (g ← break_glass; if now <? bgg_expires_at g then Some g else None) with
  | Some grant =>
      {| rr_status := 200; rr_body := encode_break_glass_allow uid (fmt (break_glass_message grant));
         rr_allowed := true |}
  | None =>
  match program with
  | None => ok_deny uid "policy bundle missing, invalid, or unverifiable"
  | Some program =>
  match get request "object" with
  | None | Some JNull => ok_deny uid "admission object is missing"
  | Some object =>
  match subject_from_object sha256 object (ss_trust_roots (ap_supply program)) with
  | Err err => ok_deny uid (fmt (error_to_string err))
  | Ok su =>
      let cluster_scoped := cluster_scoped_kind (su_kind su) in
      let warmth := src_warmth (rc_labels cfg) in
      if negb (is_warm warmth) && negb cluster_scoped && watched_labels_selected program then
        ok_deny uid (fmt (Lit "namespace labels unavailable: " :: warmth_reason warmth))
      else
        decision_response uid object
          (admit_request program (complete_subject cfg request su) exceptions now)
  end
  end
  end
  end.

Definition handle_with (cfg : ReviewConfig) (body : list Z) (program : option AdmissionProgram)
    (exceptions : list PolicyExceptionSpec) (break_glass : option BreakGlassGrant) (now : Z)
    : ReviewReply :=
  if is_empty body then http_400 "empty admission review body" else
  match json_of_bytes body with
  | Err _ => http_400 "admission review is not JSON"
  | Ok parsed =>
      let uid := default "" (pointer parsed ["request"; "uid"] ≫= as_str) in
      if str_empty uid then
        {| rr_status := 400; rr_body := encode_response "" false None "admission request uid is required";
           rr_allowed := false |}
      else
      match value_get parsed "request" ≫= as_object with
      | None => ok_deny uid "admission request is missing"
      | Some request => answer_request cfg uid request program exceptions break_glass now
      end
  end.
End review.

(** ** When a request is admitted *)

Lemma fail_closed_denies program su exceptions now :
  dec_fail_closed (admit_request program su exceptions now) = true ->
  dec_allowed (admit_request program su exceptions now) = false.
Proof. unfold admit_request. repeat case_match; done. Qed.

Lemma decision_response_allowed `{T : JsonText} fmt uid object program su exceptions now :
  rr_allowed (decision_response fmt uid object (admit_request program su exceptions now)) =
  dec_allowed (admit_request program su exceptions now).
Proof.
  pose proof (fail_closed_denies program su exceptions now) as Hf. unfold decision_response.
  destruct (dec_fail_closed _); simpl; [by rewrite Hf|]. by destruct (dec_allowed _).
Qed.

Section review_facts.
Context `{E : Ed25519} `{T : JsonText} (sha256 : list Z -> list Z) (fmt : msg -> string).

(** The request could be read: JSON, a uid to echo, a request object. *)
Definition readable (body : list Z) (request : list (string * Json)) : Prop :=
  body <> [] /\ exists parsed uid, json_of_bytes body = Ok parsed /\ uid <> "" /\
    pointer parsed ["request"; "uid"] = Some (JStr uid) /\ value_get parsed "request" = Some (JObj request).

(** The evaluator was asked about the object of the request, with labels it may
    decide on, and allowed it. *)
Definition evaluated_allow (cfg : ReviewConfig) (request : list (string * Json))
    (program : AdmissionProgram) (exceptions : list PolicyExceptionSpec) (now : Z) : Prop :=
  exists object su, get request "object" = Some object /\
    subject_from_object sha256 object (ss_trust_roots (ap_supply program)) = Ok su /\
    (is_warm (src_warmth (rc_labels cfg)) = true \/ cluster_scoped_kind (su_kind su) = true \/
     watched_labels_selected program = false) /\
    dec_allowed (admit_request program (complete_subject cfg request su) exceptions now) = true.

(** The grant the request sees, if its window is still open. *)
Definition open_grant (grant : option BreakGlassGrant) (now : Z) : option BreakGlassGrant :=
  g ← grant; if now <? bgg_expires_at g then Some g else None.

(** What a readable request is answered with. *)
Definition answer (cfg : ReviewConfig) (uid : string) (request : list (string * Json))
    (program : option AdmissionProgram) (exceptions : list PolicyExceptionSpec)
    (grant : option BreakGlassGrant) (now : Z) : bool :=
  match open_grant grant now, program with
  | Some _, _ => true
  | None, None => false
  | None, Some p =>
      match get request "object" with
      | None | Some JNull => false
      | Some object =>
          match subject_from_object sha256 object (ss_trust_roots (ap_supply p)) with
          | Err _ => false
          | Ok su =>
              negb (negb (is_warm (src_warmth (rc_labels cfg))) && negb (cluster_scoped_kind (su_kind su))
                    && watched_labels_selected p)
              && dec_allowed (admit_request p (complete_subject cfg request su) exceptions now)
          end
      end
  end.

Lemma review_reads cfg body program exceptions grant now :
  rr_allowed (handle_with sha256 fmt cfg body program exceptions grant now) = true <->
  exists uid request, readable body request /\ answer cfg uid request program exceptions grant now = true.
Proof.
  assert (Hans : forall uid request,
    rr_allowed (answer_request sha256 fmt cfg uid request program exceptions grant now) =
    answer cfg uid request program exceptions grant now).
  { intros uid request. unfold answer, answer_request. fold (open_grant grant now).
    destruct (open_grant grant now); [done|].
    destruct program as [p|]; [|done]. destruct (get request "object") as [[]|]; try done;
    (destruct (subject_from_object _ _ _) as [su|]; [|done]; cbv zeta; destruct (_ && _);
      [done | apply decision_response_allowed]). }
  unfold handle_with, readable. cbv zeta.
  destruct (is_empty body) eqn:Hb; [apply is_empty_true in Hb; split; [done | naive_solver]|].
  apply is_empty_false in Hb. destruct (json_of_bytes body) as [parsed|]; [|split; [done | naive_solver]].
  destruct (pointer parsed ["request"; "uid"]) as [u|] eqn:Hu; cbn -[pointer value_get answer answer_request].
  2: { split; [done|]. intros (uid & request & (_ & parsed' & uid' & [= <-] & _ & H & _) & _). congruence. }
  destruct u as [| | |uid| |]; cbn -[pointer value_get answer answer_request];
    try (split; [done|]; intros (x & request & (_ & parsed' & uid' & [= <-] & _ & H & _) & _); congruence).
  destruct (str_empty uid) eqn:Hue; cbn -[pointer value_get answer answer_request].
  { apply str_empty_true in Hue. split; [done|].
    intros (x & request & (_ & parsed' & uid' & [= <-] & Hne & H & _) & _). congruence. }
  apply str_empty_false in Hue. destruct (value_get parsed "request") as [v|] eqn:Hv; cbn -[pointer value_get answer answer_request].
  2: { split; [done|]. intros (x & request & (_ & parsed' & uid' & [= <-] & _ & _ & H) & _). congruence. }
  destruct v as [| | | | |request]; cbn -[pointer value_get answer answer_request];
    try (split; [done|]; intros (x & request & (_ & parsed' & uid' & [= <-] & _ & _ & H) & _); congruence).
  rewrite (Hans uid request). split.
  - intros H. exists uid, request. split; [|done]. split; [done|]. by exists parsed, uid.
  - intros (x & request' & (_ & parsed' & uid' & [= <-] & _ & _ & H) & Ha). rewrite Hv in H.
    by injection H as <-.
Qed.

Lemma answer_allows cfg uid request program exceptions grant now :
  answer cfg uid request program exceptions grant now = true <->
  is_Some (open_grant grant now) \/
  (open_grant grant now = None /\ exists p, program = Some p /\ evaluated_allow cfg request p exceptions now).
Proof.
  unfold answer, evaluated_allow. destruct (open_grant grant now) as [g|].
  { split; [by left; eexists | done]. }
  destruct program as [p|]; [|split; [done | intros [[]|(_ & p & H & _)]; done]]. split.
  - intros H. right. split; [done|]. exists p. split; [done|].
    destruct (get request "object") as [object|] eqn:Ho; [|done].
    assert (Hnn : object <> JNull) by (by intros ->). exists object.
    destruct (subject_from_object sha256 object _) as [su|] eqn:Hs; [|by destruct object].
    exists su. assert (H' : negb (negb (is_warm (src_warmth (rc_labels cfg))) &&
      negb (cluster_scoped_kind (su_kind su)) && watched_labels_selected p) = true /\
      dec_allowed (admit_request p (complete_subject cfg request su) exceptions now) = true).
    { apply andb_true_iff. by destruct object. }
    destruct H' as [Hw Hd]. split_and!; try done.
    destruct (is_warm _), (cluster_scoped_kind _), (watched_labels_selected _); auto.
  - intros [[]|(_ & p' & [= <-] & object & su & Ho & Hs & Hw & Hd)]; [done|]. rewrite Ho.
    destruct object; try done; rewrite Hs, Hd, andb_true_r;
      by destruct (is_warm _), (cluster_scoped_kind _), (watched_labels_selected _); naive_solver.
Qed.
End review_facts.

(** ** What the patches leave

    RFC 6902 [add] on objects: the member is set, replacing one of that name; the API
    server applies the operations in order. *)

Fixpoint set_member (m : list (string * Json)) (key : string) (value : Json) : list (string * Json) :=
  match m with
  | [] => [(key, value)]
  | (k, v) :: m' => if str_eqb k key then (k, value) :: m' else (k, v) :: set_member m' key value
  end.

Fixpoint apply_add (v : Json) (path : list string) (value : Json) : option Json :=
  match path with
  | [] => Some value
  | t :: path' =>
      match v with
      | JObj m =>
          match path' with
          | [] => Some (JObj (set_member m t value))
          | _ => x ← get m t; y ← apply_add x path' value; Some (JObj (set_member m t y))
          end
      | JArr l => i ← parse_index t; x ← l !! i; y ← apply_add x path' value; Some (JArr (<[i := y]> l))
      | _ => None
      end
  end.

Definition apply_ops (v : Json) (ops : list (list string * Json)) : option Json :=
  foldl (fun acc '(path, value) => x ← acc; apply_add x path value) (Some v) ops.

Definition all_patches : list Patch :=
  [InjectSeccompRuntimeDefault; DropAllCapabilities; ReadOnlyRootFilesystem].

Definition first_context (v : option Json) : option Json :=
  x ← v; pointer x ["spec"; "containers"; "0"; "securityContext"].

(** A container that has a [securityContext] gets all three mutations. *)
Lemma patches_extend_context :
  first_context (apply_ops (pod_of [container "a" []]) (patch_ops all_patches (pod_of [container "a" []]))) =
  Some (JObj [("seccompProfile", JObj [("type", JStr "RuntimeDefault")]);
              ("capabilities", JObj [("drop", JArr [JStr "ALL"])]);
              ("readOnlyRootFilesystem", JBool true)]).
Proof. vm_compute. reflexivity. Qed.

(** A container that has none keeps only the last one: every operation is computed
    against the object as it came, so each adds the whole [securityContext] anew. *)
Lemma patches_overwrite_each_other :
  let bare := pod_of [JObj [("image", JStr "a")]] in
  first_context (apply_ops bare (patch_ops all_patches bare)) =
  Some (JObj [("readOnlyRootFilesystem", JBool true)]).
Proof. vm_compute. reflexivity. Qed.
