(* ===== verification/Webhook.v ===== *)
(** * The webhook process

    [WebhookState] of [crates/ferrum-admission/src/server.rs]: the verified program,
    the signed list of exceptions, the counters, break-glass, and the request path
    through them. Sockets, TLS and the file watch are not modelled; what they hand to
    the state is the input of its operations. *)

From S2P Require Import Prelude RustStd Ids Api Policy Compiler Crypto Program Admit Grant Journal.
From S2P Require Import BreakGlass Encoding Encode Envelope Json Bundle Subject Review.
Import Admission.

Record WebhookState := {
  wh_program : AdmissionProgram;
  wh_trust_root : list Z;
  wh_exceptions : list PolicyExceptionSpec;
  wh_exceptions_resets : Z;
  wh_exceptions_cleared : Z;
  wh_bundle_unreadable : Z;
  wh_bundle_absent : Z;
  wh_bundle_digest : option string;
  wh_reviews_allowed : Z;
  wh_reviews_denied : Z;
  wh_config : ReviewConfig;
  wh_break_glass : option BreakGlass
}.

Definition webhook_new (program : AdmissionProgram) (trust_root : list Z)
    (exceptions : list PolicyExceptionSpec) (config : ReviewConfig) : WebhookState :=
  {| wh_program := program; wh_trust_root := trust_root; wh_exceptions := exceptions;
     wh_exceptions_resets := 0; wh_exceptions_cleared := 0; wh_bundle_unreadable := 0;
     wh_bundle_absent := 0; wh_bundle_digest := None; wh_reviews_allowed := 0; wh_reviews_denied := 0;
     wh_config := config; wh_break_glass := None |}.

(** ** Field updates *)

Definition set_break_glass (bg : option BreakGlass) (w : WebhookState) : WebhookState :=
  {| wh_program := wh_program w; wh_trust_root := wh_trust_root w; wh_exceptions := wh_exceptions w;
     wh_exceptions_resets := wh_exceptions_resets w; wh_exceptions_cleared := wh_exceptions_cleared w;
     wh_bundle_unreadable := wh_bundle_unreadable w; wh_bundle_absent := wh_bundle_absent w;
     wh_bundle_digest := wh_bundle_digest w; wh_reviews_allowed := wh_reviews_allowed w;
     wh_reviews_denied := wh_reviews_denied w; wh_config := wh_config w; wh_break_glass := bg |}.

Definition set_exceptions (l : list PolicyExceptionSpec) (w : WebhookState) : WebhookState :=
  {| wh_program := wh_program w; wh_trust_root := wh_trust_root w; wh_exceptions := l;
     wh_exceptions_resets := wh_exceptions_resets w; wh_exceptions_cleared := wh_exceptions_cleared w;
     wh_bundle_unreadable := wh_bundle_unreadable w; wh_bundle_absent := wh_bundle_absent w;
     wh_bundle_digest := wh_bundle_digest w; wh_reviews_allowed := wh_reviews_allowed w;
     wh_reviews_denied := wh_reviews_denied w; wh_config := wh_config w;
     wh_break_glass := wh_break_glass w |}.

Definition set_program (p : AdmissionProgram) (digest : string) (w : WebhookState) : WebhookState :=
  {| wh_program := p; wh_trust_root := wh_trust_root w; wh_exceptions := wh_exceptions w;
     wh_exceptions_resets := wh_exceptions_resets w; wh_exceptions_cleared := wh_exceptions_cleared w;
     wh_bundle_unreadable := wh_bundle_unreadable w; wh_bundle_absent := wh_bundle_absent w;
     wh_bundle_digest := Some digest; wh_reviews_allowed := wh_reviews_allowed w;
     wh_reviews_denied := wh_reviews_denied w; wh_config := wh_config w;
     wh_break_glass := wh_break_glass w |}.

(** [fetch_add] on the [AtomicU64] counters. *)
Definition count (resets cleared unreadable absent allowed denied : Z) (w : WebhookState) : WebhookState :=
  {| wh_program := wh_program w; wh_trust_root := wh_trust_root w; wh_exceptions := wh_exceptions w;
     wh_exceptions_resets := (wh_exceptions_resets w + resets) mod U64;
     wh_exceptions_cleared := (wh_exceptions_cleared w + cleared) mod U64;
     wh_bundle_unreadable := (wh_bundle_unreadable w + unreadable) mod U64;
     wh_bundle_absent := (wh_bundle_absent w + absent) mod U64;
     wh_bundle_digest := wh_bundle_digest w;
     wh_reviews_allowed := (wh_reviews_allowed w + allowed) mod U64;
     wh_reviews_denied := (wh_reviews_denied w + denied) mod U64;
     wh_config := wh_config w; wh_break_glass := wh_break_glass w |}.

Definition with_break_glass (w : WebhookState) (bg : BreakGlass) : WebhookState :=
  set_break_glass (Some bg) w.

Definition note_bundle_unreadable (w : WebhookState) : WebhookState := count 0 0 1 0 0 0 w.
Definition note_bundle_absent (w : WebhookState) : WebhookState := count 0 0 0 1 0 0 w.
Definition clear_exceptions_absent (w : WebhookState) : WebhookState :=
  count 0 1 0 0 0 0 (set_exceptions [] w).
Definition reset_exceptions (w : WebhookState) : WebhookState :=
  set_exceptions [] (count 1 0 0 0 0 0 w).

(** What [serde_json::from_slice::<Vec<PolicyExceptionSpec>>] makes of the payload. *)
Class ExceptionsJson : Type := {
  exceptions_of_json : list Z -> result string (list PolicyExceptionSpec)
}.

Section webhook.
Context `{E : Ed25519} `{T : JsonText} `{X : ExceptionsJson} `{G : GrantJson} `{J : EntryJson}.
Context (sha256 : list Z -> list Z) (fmt : msg -> string).

(** The grant a request sees, as the review path may quote it. *)
Definition grant_in_force (w : WebhookState) (now : Z) : option BreakGlassGrant :=
  bg ← wh_break_glass w; held ← active bg now;
  Some {| bgg_id := g_id (vg_grant held); bgg_ticket := g_ticket (vg_grant held);
          bgg_expires_at := g_expires_at (vg_grant held) |}.

Definition handle (w : WebhookState) (body : list Z) (now : Z) : ReviewReply * WebhookState :=
  let grant := grant_in_force w now in
  let reply := handle_with sha256 fmt (wh_config w) body (Some (wh_program w)) (wh_exceptions w) grant now in
  let w := if bool_decide (is_Some grant) && rr_allowed reply
           then set_break_glass (note_admit <$> wh_break_glass w) w else w in
  (reply, if rr_allowed reply then count 0 0 0 0 1 0 w else count 0 0 0 0 0 1 w).

Definition try_reload_with_digest (w : WebhookState) (bytes : list Z) (expected_digest : option string)
    : Result string * WebhookState :=
  match load_source_with_digest sha256 bytes (wh_trust_root w) expected_digest with
  | Err e => (Err e, w)
  | Ok (program, digest) => (Ok digest, set_program program digest w)
  end.

Definition try_reload_exceptions (w : WebhookState) (bytes : list Z) : Result Z * WebhookState :=
  match verify_exceptions_fsig sha256 bytes (wh_trust_root w) with
  | Err e => (Err e, reset_exceptions w)
  | Ok payload =>
      match exceptions_of_json payload with
      | Err e => (Err (Validation [Lit "exceptions.fsig payload: "; Str e]), reset_exceptions w)
      | Ok list => (Ok (len list), set_exceptions list w)
      end
  end.

(** [try_reload_exceptions_path], with what reading the file returned. *)
Definition try_reload_exceptions_path (w : WebhookState) (path : string) (outcome : FileRead)
    : Result Z * WebhookState :=
  match outcome with
  | ReadOk bytes => try_reload_exceptions w bytes
  | ReadNotFound => (Ok 0, set_exceptions [] w)
  | ReadFailed err => (Err (Degraded [Lit "read "; Str path; Lit ": "; Str err]), reset_exceptions w)
  end.

(** ** The watches

    One turn of [poll_loop] and of [poll_exceptions_loop] after its sleep: what the
    last turn saw, what the mount answers now, and what a read of it would return. *)

Record FileStamp := { fs_mtime : Z; fs_len : Z }.
Record SourceStamp := { st_fsig : FileStamp; st_digest : option FileStamp }.

Inductive MountStat (A : Type) := Absent | Present (stamp : A) | Unreadable.
#[global] Arguments Absent {A}.
#[global] Arguments Present {A} stamp.
#[global] Arguments Unreadable {A}.

#[global] Instance FileStamp_eq_dec : EqDecision FileStamp.
Proof. solve_decision. Defined.
#[global] Instance SourceStamp_eq_dec : EqDecision SourceStamp.
Proof. solve_decision. Defined.
#[global] Instance MountStat_eq_dec `{EqDecision A} : EqDecision (MountStat A).
Proof. solve_decision. Defined.

(** What [std::fs::metadata] answered; [modified] fails on some platforms. *)
Inductive Metadata := MetaFile (modified : option Z) (length : Z) | MetaNotFile | MetaNotFound | MetaFailed.

Definition stat_one (meta : Metadata) : MountStat FileStamp :=
  match meta with
  | MetaFile modified length => Present {| fs_mtime := default 0 modified; fs_len := length |}
  | MetaNotFile => Unreadable
  | MetaNotFound => Absent
  | MetaFailed => Unreadable
  end.

(** A plain file, or the two files of a snapshot directory. *)
Inductive SourceMeta := PlainFile (meta : Metadata) | SnapshotDir (fsig digest : Metadata).

Definition source_stat (meta : SourceMeta) : MountStat SourceStamp :=
  match meta with
  | PlainFile meta =>
      match stat_one meta with
      | Present fsig => Present {| st_fsig := fsig; st_digest := None |}
      | Absent => Absent
      | Unreadable => Unreadable
      end
  | SnapshotDir fsig digest =>
      match stat_one fsig, stat_one digest with
      | Unreadable, _ | _, Unreadable => Unreadable
      | Present fsig, Present digest => Present {| st_fsig := fsig; st_digest := Some digest |}
      | _, _ => Absent
      end
  end.

(** [try_reload_path], with what [read_source_path] returned. *)
Definition try_reload_path (w : WebhookState) (source : Result (list Z * option string))
    : Result string * WebhookState :=
  match source with
  | Err e => (Err e, w)
  | Ok (bytes, expected) => try_reload_with_digest w bytes expected
  end.

Definition poll_tick (stat : option (MountStat SourceStamp)) (w : WebhookState) (meta : SourceMeta)
    (source : Result (list Z * option string)) : option (MountStat SourceStamp) * WebhookState :=
  let next := source_stat meta in
  if decide (Some next = stat) then (stat, w) else
  (Some next,
   match next with
   | Present _ => snd (try_reload_path w source)
   | Absent => note_bundle_absent w
   | Unreadable => note_bundle_unreadable w
   end).

Definition poll_exceptions_tick (stat : option (MountStat FileStamp)) (w : WebhookState) (meta : Metadata)
    (path : string) (outcome : FileRead) : option (MountStat FileStamp) * WebhookState :=
  let next := stat_one meta in
  if decide (Some next = stat) then (stat, w) else
  (Some next,
   match next with
   | Absent => clear_exceptions_absent w
   | Present _ | Unreadable => snd (try_reload_exceptions_path w path outcome)
   end).

(** A serving process: started on a bundle that loaded, then any requests, reloads
    and polls in any order. *)
Inductive webhook_reach (root bg_root : list Z) : WebhookState -> Prop :=
| wr_start bytes expected program digest config :
    load_source_with_digest sha256 bytes root expected = Ok (program, digest) ->
    webhook_reach root bg_root (webhook_new program root [] config)
| wr_arm w bg :
    webhook_reach root bg_root w -> wh_break_glass w = None -> reachable sha256 fmt bg_root bg ->
    webhook_reach root bg_root (with_break_glass w bg)
| wr_handle w body now : webhook_reach root bg_root w -> webhook_reach root bg_root (snd (handle w body now))
| wr_bundle w stat meta source :
    webhook_reach root bg_root w -> webhook_reach root bg_root (snd (poll_tick stat w meta source))
| wr_load_exceptions w path outcome :
    webhook_reach root bg_root w ->
    webhook_reach root bg_root (snd (try_reload_exceptions_path w path outcome))
| wr_exceptions w stat meta path outcome :
    webhook_reach root bg_root w ->
    webhook_reach root bg_root (snd (poll_exceptions_tick stat w meta path outcome))
| wr_poll w bg mount now :
    webhook_reach root bg_root w -> wh_break_glass w = Some bg ->
    webhook_reach root bg_root (set_break_glass (Some (poll sha256 fmt bg mount now)) w)
| wr_disk w bg io :
    webhook_reach root bg_root w -> wh_break_glass w = Some bg ->
    webhook_reach root bg_root (set_break_glass (Some (set_io io bg)) w).
End webhook.

(** ** Nothing fails open *)

Section webhook_facts.
Context `{E : Ed25519} `{T : JsonText} `{X : ExceptionsJson} `{G : GrantJson} `{J : EntryJson}.
Context (sha256 : list Z -> list Z) (fmt : msg -> string).

(** The waivers are none, or a list the pinned key signed. *)
Definition signed_exceptions (root : list Z) (l : list PolicyExceptionSpec) : Prop :=
  l = [] \/ exists payload, signed_by sha256 root payload /\ exceptions_of_json payload = Ok l.

Record trustworthy (root bg_root : list Z) (w : WebhookState) : Prop := {
  tw_root : wh_trust_root w = root;
  tw_program : exists raw, signed_by sha256 root raw /\ parse_verified raw = Ok (wh_program w);
  tw_exceptions : signed_exceptions root (wh_exceptions w);
  tw_break_glass : forall bg, wh_break_glass w = Some bg -> reachable sha256 fmt bg_root bg
}.

Lemma trustworthy_reset root bg_root w : trustworthy root bg_root w -> trustworthy root bg_root (reset_exceptions w).
Proof. intros [? ? _ ?]. constructor; try done. by left. Qed.

Lemma trustworthy_exceptions root bg_root w path outcome :
  trustworthy root bg_root w ->
  trustworthy root bg_root (snd (try_reload_exceptions_path sha256 w path outcome)).
Proof.
  intros H. destruct outcome as [bytes| |err]; simpl; [| |by apply trustworthy_reset].
  - unfold try_reload_exceptions. destruct (verify_exceptions_fsig _ _ _) as [payload|] eqn:Hv;
      [|by apply trustworthy_reset].
    destruct (exceptions_of_json payload) as [l|] eqn:Hj; [|by apply trustworthy_reset].
    destruct H as [Hr Hp _ Hb]. constructor; try done. right. exists payload. split; [|done].
    rewrite Hr in Hv. by apply verify_exceptions_inv in Hv.
  - destruct H as [? ? _ ?]. constructor; try done. by left.
Qed.

Lemma trustworthy_handle root bg_root w body now :
  trustworthy root bg_root w -> trustworthy root bg_root (snd (handle sha256 fmt w body now)).
Proof.
  intros [Hr Hp Hx Hb]. unfold handle.
  destruct (rr_allowed _); simpl; (destruct (bool_decide _); [|by constructor]); simpl; try by constructor.
  constructor; try done. simpl. intros bg Hbg. destruct (wh_break_glass w) as [bg0|]; [|done].
  injection Hbg as <-. by apply reach_admit, Hb.
Qed.

Lemma trustworthy_reload root bg_root w source :
  trustworthy root bg_root w -> trustworthy root bg_root (snd (try_reload_path sha256 w source)).
Proof.
  intros H. destruct source as [[bytes expected]|]; [|done]. simpl. unfold try_reload_with_digest.
  destruct (load_source_with_digest _ _ _ _) as [[p d]|] eqn:Hl; [|done].
  destruct H as [Hr _ ? ?]. rewrite Hr in Hl. apply load_source_inv in Hl as (_ & raw & Hs & Hp & _).
  constructor; try done. by exists raw.
Qed.

Lemma trustworthy_cleared root bg_root w :
  trustworthy root bg_root w -> trustworthy root bg_root (clear_exceptions_absent w).
Proof. intros [? ? _ ?]. constructor; try done. by left. Qed.

Lemma reach_trustworthy root bg_root w :
  webhook_reach sha256 fmt root bg_root w -> trustworthy root bg_root w.
Proof.
  induction 1 as [bytes expected program digest config H | w bg _ IH _ Hbg | w body now _ IH
    | w stat meta source _ IH | w path outcome _ IH | w stat meta path outcome _ IH
    | w bg mount now _ IH Hbg | w bg io _ IH Hbg].
  - apply load_source_inv in H as (_ & raw & Hs & Hp & _). constructor; try done; [by exists raw | by left].
  - destruct IH as [? ? ? _]. constructor; try done. simpl. by intros bg' [= <-].
  - by apply trustworthy_handle.
  - unfold poll_tick. case_decide; [done|]. simpl.
    destruct (source_stat meta); [by destruct IH; constructor | by apply trustworthy_reload
      | by destruct IH; constructor].
  - by apply trustworthy_exceptions.
  - unfold poll_exceptions_tick. case_decide; [done|]. simpl.
    destruct (stat_one meta); [by apply trustworthy_cleared | |]; by apply trustworthy_exceptions.
  - destruct IH as [? ? ? Hb]. constructor; try done. simpl. intros bg' [= <-]. by apply reach_poll, Hb.
  - destruct IH as [? ? ? Hb]. constructor; try done. simpl. intros bg' [= <-]. by apply reach_io, Hb.
Qed.

(** C5: the webhook never fails open. Whatever was reloaded, polled or asked before,
    a request is allowed only if it could be read and either a signed, bounded and
    recorded break-glass grant is in force, or the program that decides it was parsed
    from bytes the pinned key signed, its waivers are none or a list that key signed,
    and the evaluator allowed the object of the request on labels it may decide on. *)
Theorem webhook_never_fails_open root bg_root w body now
    (Hreach : webhook_reach sha256 fmt root bg_root w)
    (Hallowed : rr_allowed (fst (handle sha256 fmt w body now)) = true) :
  exists request, readable body request /\
    ((exists bg v, wh_break_glass w = Some bg /\ active bg now = Some v /\
        lawful_suspension sha256 bg_root bg now v) \/
     ((exists raw, signed_by sha256 root raw /\ parse_verified raw = Ok (wh_program w)) /\
      signed_exceptions root (wh_exceptions w) /\
      evaluated_allow sha256 (wh_config w) request (wh_program w) (wh_exceptions w) now)).
Proof.
  apply reach_trustworthy in Hreach as [_ Hp Hx Hb].
  assert (Hr : rr_allowed (handle_with sha256 fmt (wh_config w) body (Some (wh_program w))
    (wh_exceptions w) (grant_in_force w now) now) = true).
  { unfold handle in Hallowed. by destruct (rr_allowed _). }
  apply review_reads in Hr as (uid & request & Hread & Ha). exists request. split; [done|].
  apply answer_allows in Ha as [[g Hg]|(_ & p & [= <-] & Ha)]; [left | by right].
  unfold open_grant, grant_in_force in Hg. destruct (wh_break_glass w) as [bg|]; [|done].
  simpl in Hg. destruct (active bg now) as [v|] eqn:Hv; [|done].
  exists bg, v. split_and!; try done. eapply accounted_suspension; [|done].
  by apply (reachable_accounted sha256 fmt), Hb.
Qed.

(** A reload that fails changes nothing. *)
Lemma failed_reload_keeps_state w source e w' :
  try_reload_path sha256 w source = (Err e, w') -> w' = w.
Proof.
  destruct source as [[bytes expected]|]; simpl; [|congruence]. unfold try_reload_with_digest.
  destruct (load_source_with_digest _ _ _ _) as [[]|]; congruence.
Qed.

(** What a load of the list leaves: nothing, or what the file holds and the pinned
    key signed. *)
Definition list_in_file (w : WebhookState) (outcome : FileRead) (l : list PolicyExceptionSpec) : Prop :=
  exists bytes payload, outcome = ReadOk bytes /\
    verify_exceptions_fsig sha256 bytes (wh_trust_root w) = Ok payload /\ exceptions_of_json payload = Ok l.

Lemma load_exceptions_spec w path outcome :
  let w' := snd (try_reload_exceptions_path sha256 w path outcome) in
  wh_program w' = wh_program w /\ (wh_exceptions w' = [] \/ list_in_file w outcome (wh_exceptions w')).
Proof.
  destruct outcome as [bytes| |err]; simpl; [|by split; [|left]..]. unfold try_reload_exceptions.
  destruct (verify_exceptions_fsig _ _ _) as [payload|] eqn:Hv; [|by split; [|left]].
  destruct (exceptions_of_json payload) eqn:Hj; [|by split; [|left]].
  split; [done|]. right. by exists bytes, payload.
Qed.

(** A waiver does not outlive its mount. A turn of the watch that sees the mount
    changed leaves no exception, or exactly the list in the file it read, signed by
    the pinned key: a list that vanished, cannot be read, is not signed or does not
    parse is dropped, never kept, and a mount that carries none leaves none. The
    program is left alone, and a turn that sees no change does nothing. *)
Lemma waivers_follow_mount stat w meta path outcome :
  let w' := snd (poll_exceptions_tick sha256 stat w meta path outcome) in
  if decide (Some (stat_one meta) = stat) then w' = w
  else wh_program w' = wh_program w /\
    match stat_one meta with
    | Absent => wh_exceptions w' = []
    | _ => wh_exceptions w' = [] \/ list_in_file w outcome (wh_exceptions w')
    end.
Proof.
  unfold poll_exceptions_tick. case_decide; [done|]. simpl.
  destruct (stat_one meta); [done | |]; apply load_exceptions_spec.
Qed.
End webhook_facts.

(** ** A process that serves *)

Definition ready_labels : LabelSource :=
  static_source {| sl_cluster := Some ∅; sl_namespaces := <["shop" := <["env" := "prod"]> (<["app" := "web"]> ∅)]> ∅;
                   sl_service_accounts := <[("shop", "default") := ∅]> ∅; sl_warmth := Warm |}.

Definition review_of (object : Json) : Json :=
  JObj [("request", JObj [("namespace", JStr "prod"); ("object", object); ("uid", JStr "u-1")])].

(** A codec that knows two reviews. *)
Definition two_reviews : JsonText := {|
  json_of_bytes b := match b with
    | [1] => Ok (review_of (pod_of [container "ghcr.io/acme/cart@sha256:aa" hardened]))
    | [2] => Ok (review_of sidecar_pod)
    | _ => Err "not JSON" end;
  json_bytes _ := Ok [0] |}.

Definition no_exceptions : ExceptionsJson := {| exceptions_of_json _ := Err "not a list" |}.

Definition serving : WebhookState :=
  webhook_new (compiled_program (effects_of_cluster example_policy)) (ed_public toy_seed) []
    {| rc_policy_name := "p"; rc_policy_namespace := ""; rc_labels := ready_labels |}.

Definition answers (body : list Z) : bool :=
  rr_allowed (fst (handle (T := two_reviews) toy_sha256 toy_fmt serving body 0)).

(** The hardened Pod is admitted, the one with a privileged sidecar and an empty body
    are not. *)
Lemma serving_answers : answers [1] = true /\ answers [2] = false /\ answers [] = false.
Proof. vm_compute. done. Qed.

Lemma webhook_witness :
  exists request, readable (T := two_reviews) [1] request /\
    evaluated_allow toy_sha256 (wh_config serving) request (wh_program serving) [] 0.
Proof.
  destruct (webhook_never_fails_open (T := two_reviews) (X := no_exceptions) toy_sha256 toy_fmt
    (ed_public toy_seed) [] serving [1] 0) as (request & Hread & [(bg & v & Hbg & _)|(_ & _ & Ha)]).
  - apply (wr_start (T := two_reviews) (X := no_exceptions) toy_sha256 toy_fmt _ _ toy_fsig None _
      (cb_digest toy_bundle)).
    vm_compute. reflexivity.
  - vm_compute. reflexivity.
  - discriminate Hbg.
  - exists request. split; [exact Hread | exact Ha].
Defined.
