(* ===== verification/Clock.v ===== *)
(** * The agent's clock: a wall clock with a floor

    [crates/ferrum-agent/src/clock.rs]. Times are nanoseconds since the epoch. The
    file [observed-time] is what a read of it yields, [None] when it is missing or
    malformed; whether a write of it succeeds is an input. *)

From S2P Require Import Prelude RustStd Ids Api Policy Grant.

(** [DateTime::<Utc>::MIN_UTC] and [MAX_UTC]: 1 January of year -262143 and the last
    nanosecond of year 262142. *)
Definition MIN_UTC : Z := seconds (-8334601228800).
Definition MAX_UTC : Z := seconds 8210266876800 - 1.

Definition MAX_ANCHOR_SKEW_SECS : Z := 300.
Definition PERSIST_STEP_SECS : Z := 60.

(** [FloorState] behind its mutex, the counters, and the file in [dir]. *)
Record MonotonicFloor := {
  mf_dir : option string;
  mf_floor : Z;
  mf_persisted : Z;
  mf_rollbacks : Z;
  mf_persist_failed : Z;
  mf_persist_failing : bool;
  mf_disk : option Z
}.

Definition set_floor (t : Z) (m : MonotonicFloor) : MonotonicFloor :=
  {| mf_dir := mf_dir m; mf_floor := t; mf_persisted := mf_persisted m; mf_rollbacks := mf_rollbacks m;
     mf_persist_failed := mf_persist_failed m; mf_persist_failing := mf_persist_failing m;
     mf_disk := mf_disk m |}.

Definition set_persisted (t : Z) (m : MonotonicFloor) : MonotonicFloor :=
  {| mf_dir := mf_dir m; mf_floor := mf_floor m; mf_persisted := t; mf_rollbacks := mf_rollbacks m;
     mf_persist_failed := mf_persist_failed m; mf_persist_failing := mf_persist_failing m;
     mf_disk := mf_disk m |}.

Definition count_rollback (m : MonotonicFloor) : MonotonicFloor :=
  {| mf_dir := mf_dir m; mf_floor := mf_floor m; mf_persisted := mf_persisted m;
     mf_rollbacks := (mf_rollbacks m + 1) mod U64; mf_persist_failed := mf_persist_failed m;
     mf_persist_failing := mf_persist_failing m; mf_disk := mf_disk m |}.

(** [MonotonicFloor::new]. *)
Definition floor_new : MonotonicFloor :=
  {| mf_dir := None; mf_floor := MIN_UTC; mf_persisted := MIN_UTC; mf_rollbacks := 0;
     mf_persist_failed := 0; mf_persist_failing := false; mf_disk := None |}.

(** [checked_add_signed] fails past the last representable instant. *)
Definition ceiling (wall : Z) : Z :=
  let capped := wall + seconds MAX_ANCHOR_SKEW_SECS in
  if capped <=? MAX_UTC then capped else wall.

(** [with_dir_at]: an observed time ahead of the wall clock is discarded. *)
Definition with_dir_at (dir : string) (disk : option Z) (wall : Z) : MonotonicFloor :=
  let stored := match disk with
                | Some t => if t <=? ceiling wall then t else MIN_UTC
                | None => MIN_UTC
                end in
  {| mf_dir := Some dir; mf_floor := stored; mf_persisted := stored; mf_rollbacks := 0;
     mf_persist_failed := 0; mf_persist_failing := false; mf_disk := disk |}.

(** [DateTime::checked_sub_days]. *)
Definition checked_sub_days (t n : Z) : option Z :=
  if MIN_UTC <=? t - days n then Some (t - days n) else None.

(** [Iterator::max] of times. *)
Definition iter_max (l : list Z) : option Z :=
  foldr (fun t acc => match acc with Some u => Some (Z.max t u) | None => Some t end) None l.

(** [now] is the reading [validate_exception] takes for itself. *)
Definition anchor_from_exceptions_at (m : MonotonicFloor) (specs : list PolicyExceptionSpec)
    (wall now : Z) : MonotonicFloor :=
  let live := List.filter (fun spec => is_ok (validate_exception spec now)) specs in
  match iter_max (omap (fun spec => checked_sub_days (pe_expires_at spec) MAX_EXCEPTION_DAYS) live) with
  | Some anchor =>
      let anchor := Z.min anchor (ceiling wall) in
      if mf_floor m <? anchor then set_floor anchor m else m
  | None => m
  end.

Definition write_floor (m : MonotonicFloor) (when : Z) (written : bool) : MonotonicFloor :=
  match mf_dir m with
  | None => m
  | Some _ =>
      if written then
        {| mf_dir := mf_dir m; mf_floor := mf_floor m; mf_persisted := mf_persisted m;
           mf_rollbacks := mf_rollbacks m; mf_persist_failed := mf_persist_failed m;
           mf_persist_failing := false; mf_disk := Some when |}
      else
        {| mf_dir := mf_dir m; mf_floor := mf_floor m; mf_persisted := mf_persisted m;
           mf_rollbacks := mf_rollbacks m; mf_persist_failed := (mf_persist_failed m + 1) mod U64;
           mf_persist_failing := true; mf_disk := mf_disk m |}
  end.

Definition now_from (m : MonotonicFloor) (wall : Z) (written : bool) : Z * MonotonicFloor :=
  if wall <? mf_floor m then (mf_floor m, count_rollback m)
  else
    let m' := set_floor wall m in
    (wall, if PERSIST_STEP_SECS <=? num_seconds (wall - mf_persisted m')
           then write_floor (set_persisted wall m') wall written else m').

Definition persist (m : MonotonicFloor) (written : bool) : MonotonicFloor :=
  let floor := mf_floor m in
  if floor =? MIN_UTC then m else write_floor (set_persisted floor m) floor written.

Lemma iter_max_elem l t : iter_max l = Some t -> t ∈ l.
Proof.
  revert t. induction l as [|u l IH]; simpl; [done|]. intros t. destruct (iter_max l) as [v|].
  - intros [= <-]. destruct (Z.max_spec u v) as [[_ ->]|[_ ->]]; [right; by apply IH | left].
  - intros [= <-]. left.
Qed.

Lemma expired_never_applies spec namespace policy rule now :
  pe_expires_at spec <= now -> exception_applies spec namespace policy rule now = false.
Proof.
  intros H. unfold exception_applies. rewrite (proj2 (Z.leb_le _ _) H). by repeat case_match.
Qed.

(** ** Time never runs backwards *)

(** Everything that touches the floor while the process lives; [trace] is what it
    answered, newest first, and [walls] every wall reading taken. *)
Inductive ticks : MonotonicFloor -> list Z -> list Z -> MonotonicFloor -> Prop :=
| ticks_none m : ticks m [] [] m
| ticks_now m trace walls m' wall written t m'' :
    ticks m trace walls m' -> now_from m' wall written = (t, m'') ->
    ticks m (t :: trace) (wall :: walls) m''
| ticks_anchor m trace walls m' specs wall now :
    ticks m trace walls m' ->
    ticks m trace (wall :: walls) (anchor_from_exceptions_at m' specs wall now)
| ticks_persist m trace walls m' written :
    ticks m trace walls m' -> ticks m trace walls (persist m' written).

Lemma write_floor_floor m t w : mf_floor (write_floor m t w) = mf_floor m.
Proof. unfold write_floor. by destruct (mf_dir m), w. Qed.

Lemma now_from_spec m wall written t m' :
  now_from m wall written = (t, m') ->
  t = Z.max wall (mf_floor m) /\ mf_floor m' = t.
Proof.
  unfold now_from. destruct (wall <? mf_floor m) eqn:E.
  - intros [= <- <-]. simpl. split; lia.
  - cbv zeta. destruct (_ <=? _); intros [= <- <-]; rewrite ?write_floor_floor; simpl; split; lia.
Qed.

Lemma anchor_floor m specs wall now :
  let m' := anchor_from_exceptions_at m specs wall now in
  mf_floor m <= mf_floor m' <= Z.max (mf_floor m) (ceiling wall).
Proof.
  unfold anchor_from_exceptions_at. cbv zeta. destruct (iter_max _); [|lia].
  destruct (_ <? _) eqn:E; simpl; lia.
Qed.

Lemma persist_floor m written : mf_floor (persist m written) = mf_floor m.
Proof. unfold persist. destruct (_ =? _); [done|]. by rewrite write_floor_floor. Qed.

Lemma ceiling_ge wall : wall <= ceiling wall.
Proof. unfold ceiling, seconds, MAX_ANCHOR_SKEW_SECS. cbv zeta. destruct (_ <=? _); lia. Qed.

Lemma ticks_sorted m trace walls m' :
  ticks m trace walls m' ->
  StronglySorted Z.ge trace /\ Forall (fun t => t <= mf_floor m') trace /\ mf_floor m <= mf_floor m'.
Proof.
  induction 1 as [m | m trace walls m' wall written t m'' _ (IHs & IHf & IHm) Hn
    | m trace walls m' specs wall now _ (IHs & IHf & IHm) | m trace walls m' written _ IH].
  - split_and!; [constructor | constructor | lia].
  - apply now_from_spec in Hn as [-> Hf]. split_and!.
    + constructor; [done|]. eapply Forall_impl; [exact IHf|]. simpl. lia.
    + rewrite Hf. constructor; [lia|]. eapply Forall_impl; [exact IHf|]. simpl. lia.
    + lia.
  - pose proof (anchor_floor m' specs wall now) as Ha. cbv zeta in Ha. split_and!; [done| |lia].
    eapply Forall_impl; [exact IHf|]. simpl. lia.
  - by rewrite persist_floor.
Qed.

Lemma ticks_bounded m trace walls m' bound :
  ticks m trace walls m' -> mf_floor m <= bound -> Forall (fun wall => ceiling wall <= bound) walls ->
  mf_floor m' <= bound.
Proof.
  induction 1 as [m | m trace walls m' wall written t m'' _ IH Hn
    | m trace walls m' specs wall now _ IH | m trace walls m' written _ IH]; intros Hm Hw.
  - done.
  - apply Forall_cons in Hw as [Hw Hws]. apply now_from_spec in Hn as [-> ->].
    pose proof (ceiling_ge wall). specialize (IH Hm Hws). lia.
  - apply Forall_cons in Hw as [Hw Hws]. specialize (IH Hm Hws).
    pose proof (anchor_floor m' specs wall now) as Ha. cbv zeta in Ha. lia.
  - rewrite persist_floor. by apply IH.
Qed.

(** the agent's time never runs backwards. Over any run of readings, anchors and
    persists, with the wall clock set forth and back at will: the times answered never
    decrease, so a waiver that had expired at one of them applies at none after it;
    and the floor never gets further than five minutes past a wall reading, so no
    anchor can expire every waiver for good. *)
Lemma clock_never_runs_back m trace walls m' (Hrun : ticks m trace walls m') :
  StronglySorted Z.ge trace /\
  (forall pre t2 mid t1 post spec namespace policy rule,
     trace = pre ++ t2 :: mid ++ t1 :: post -> pe_expires_at spec <= t1 ->
     exception_applies spec namespace policy rule t2 = false) /\
  (forall bound, mf_floor m <= bound -> Forall (fun wall => ceiling wall <= bound) walls ->
     mf_floor m' <= bound).
Proof.
  destruct (ticks_sorted _ _ _ _ Hrun) as (Hs & _ & _). split_and!; [done| |intros bound; by apply (ticks_bounded _ _ _ _ _ Hrun)].
  intros pre t2 mid t1 post spec ns policy rule -> Hexp.
  apply StronglySorted_app in Hs as (_ & _ & Hs). apply StronglySorted_inv in Hs as [_ Hle].
  apply Forall_app in Hle as [_ Hle%Forall_cons]. apply expired_never_applies. lia.
Qed.

(** What was persisted survives a restart, if the wall clock is not behind it. *)
Lemma restart_keeps_floor dir m wall t :
  mf_disk m = Some t -> t <= ceiling wall -> mf_floor (with_dir_at dir (mf_disk m) wall) = t.
Proof. intros -> H. unfold with_dir_at. simpl. by rewrite (proj2 (Z.leb_le _ _)). Qed.

(** The anchor of the signed list is never ahead of the reading that validated it:
    an exception that would prove the wall clock wrong fails its own validation. *)
Lemma anchor_below_wall m specs wall :
  mf_floor (anchor_from_exceptions_at m specs wall wall) <= Z.max (mf_floor m) wall.
Proof.
  unfold anchor_from_exceptions_at. cbv zeta.
  destruct (iter_max _) as [anchor|] eqn:E; [|lia]. assert (Ha : anchor <= wall).
  { apply iter_max_elem in E. apply list_elem_of_omap in E as (spec & Hin & Hsub).
    apply list_elem_of_In, filter_In in Hin as [_ Hv].
    destruct (validate_exception spec wall) as [[]|] eqn:Hok; [|done].
    apply exception_paperwork in Hok as (_ & _ & _ & _ & Hb).
    unfold checked_sub_days in Hsub. destruct (_ <=? _); [|done]. injection Hsub as <-. lia. }
  destruct (_ <? _); simpl; lia.
Qed.

(** ** A node whose clock is set back *)

Definition day_40 : MonotonicFloor := (now_from (with_dir_at "/lkg" None (days 40)) (days 40) true).2.

(** While the process lives an expired waiver stays expired, whatever the wall says. *)
Lemma clock_never_runs_back_witness :
  exception_applies example_exception "prod" "p" "hostPath" (now_from day_40 (days 20) true).1 = false.
Proof.
  assert (H : ticks (with_dir_at "/lkg" None (days 40)) [days 40; days 40] [days 20; days 40]
                (now_from day_40 (days 20) true).2).
  { apply (ticks_now _ [days 40] [days 40] day_40 (days 20) true).
    - apply (ticks_now _ [] [] (with_dir_at "/lkg" None (days 40)) (days 40) true);
        [apply ticks_none | vm_compute; reflexivity].
    - vm_compute. reflexivity. }
  apply (proj1 (proj2 (clock_never_runs_back _ _ _ _ H)) [] (days 40) [] (days 40) [] example_exception).
  - reflexivity.
  - vm_compute. discriminate.
Defined.

(** A restart under the same wall clock revives it: the observed time is more than
    five minutes ahead, so it is discarded, and the signed anchor is sixty days back. *)
Lemma restart_revives_waiver :
  let restarted := anchor_from_exceptions_at (with_dir_at "/lkg" (mf_disk day_40) (days 20))
                     [example_exception] (days 20) (days 20) in
  mf_disk day_40 = Some (days 40) /\
  exception_applies example_exception "prod" "p" "hostPath" (now_from restarted (days 20) true).1 = true.
Proof. vm_compute. done. Qed.
