(* ===== verification/Cgroup.v ===== *)
(** * The cgroup tree of a node

    [crates/ferrum-k8smeta/src/cgroupfs.rs]: which hierarchy the node keys on (from
    the mount table), the walk that finds container cgroups, and how pod and container
    identifiers are read off directory names. The file system is a parameter; a path is
    the list of its names. *)

From S2P Require Import Prelude RustStd RustText Ids Policy.

(** ** The mount table *)

Definition SELF_MOUNTINFO : string := "/proc/self/mountinfo".

(** The components of a path as [PathBuf] compares them: the root, then the names,
    without empty and [.] ones. *)
Definition component (c : list Z) : Z * list Z :=
  if bool_decide (c = [46; 46]) then (2, []) else (3, c).

Definition named (c : list Z) : bool := negb (is_empty c) && negb (bool_decide (c = [46])).

Definition path_components (p : list Z) : list (Z * list Z) :=
  let pieces := split_on 47 p in
  match p, pieces with
  | 47 :: _, _ => (0, []) :: map component (List.filter named pieces)
  | _, [46] :: rest => (1, []) :: map component (List.filter named rest)
  | _, _ => map component (List.filter named pieces)
  end.

Fixpoint components_leb (a b : list (Z * list Z)) : bool :=
  match a, b with
  | [], _ => true
  | _ :: _, [] => false
  | (r, x) :: a', (s, y) :: b' =>
      (r <? s) || ((r =? s) && (if bool_decide (x = y) then components_leb a' b' else bytes_leb x y))
  end.

(** [Vec::dedup]: runs of equal elements shrink to their first. *)
Fixpoint dedup {A} (eqb : A -> A -> bool) (l : list A) : list A :=
  match l with
  | x :: ((y :: _) as l') =>
      match dedup eqb l' with
      | z :: rest => if eqb x z then x :: rest else x :: z :: rest
      | [] => [x]
      end
  | _ => l
  end.

(** [u8::from_str_radix(digits, 8)] of three characters. *)
Definition octal_digit (c : list Z) : option Z :=
  match c with [b] => if in_range 48 55 b then Some (b - 48) else None | _ => None end.

Definition octal3 (c1 c2 c3 : list Z) : option Z :=
  b ← octal_digit c2; c ← octal_digit c3;
  a ← if bool_decide (c1 = [43]) then Some 0 else octal_digit c1;
  let code := 64 * a + 8 * b + c in
  if code <? 256 then Some code else None.

(** [code as char], encoded. *)
Definition latin1 (code : Z) : list Z :=
  if code <? 128 then [code] else [0xC0 + code / 64; 0x80 + code mod 64].

Fixpoint unescape_chars (cs : list (list Z)) : list Z :=
  match cs with
  | [] => []
  | c0 :: tl =>
      match tl with
      | c1 :: c2 :: c3 :: rest =>
          if bool_decide (c0 = [92]) then
            match octal3 c1 c2 c3 with
            | Some code => latin1 code ++ unescape_chars rest
            | None => c0 ++ unescape_chars tl
            end
          else c0 ++ unescape_chars tl
      | _ => c0 ++ unescape_chars tl
      end
  end.

Definition unescape_mount_point (raw : list Z) : list Z :=
  if negb (has_byte 92 raw) then raw else unescape_chars (chars raw).

(** What one line of the table says: not a cgroup2 mount, a bind of a subtree, or a
    whole hierarchy with its device and mount point. *)
Inductive MountLine := NotCgroup2 | Subtree | Whole (dev point : list Z).

Definition mount_line (line : list Z) : MountLine :=
  match split_once_str (as_bytes " - ") line with
  | None => NotCgroup2
  | Some (before, after) =>
      if negb (bool_decide (head (split_whitespace after) = Some (as_bytes "cgroup2"))) then NotCgroup2
      else match drop 2 (split_whitespace before) with
           | dev :: root :: point :: _ =>
               if bool_decide (root = as_bytes "/") then Whole dev (unescape_mount_point point)
               else Subtree
           | _ => NotCgroup2
           end
  end.

Definition whole_mounts (raw : list Z) : list (list Z * list Z) :=
  omap (fun line => match mount_line line with Whole dev point => Some (dev, point) | _ => None end)
    (lines_of raw).

Definition subtree_mounts (raw : list Z) : Z :=
  len (List.filter (fun line => match mount_line line with Subtree => true | _ => false end) (lines_of raw)).

Definition mount_leb (a b : list Z * list Z) : bool :=
  if bool_decide (a.1 = b.1) then components_leb (path_components a.2) (path_components b.2)
  else bytes_leb a.1 b.1.

Definition mount_eqb (a b : list Z * list Z) : bool :=
  bool_decide (a.1 = b.1) && bool_decide (path_components a.2 = path_components b.2).

(** [min_by_key] on (length, bytes): the first of the least. *)
Definition shorter (p q : list Z) : bool :=
  (len p <? len q) || ((len p =? len q) && bytes_leb p q).

Definition shortest (p : list Z) (ps : list (list Z)) : list Z :=
  foldl (fun best q => if shorter best q then best else q) p ps.

(** [", "]-joined [dev at point]. *)
Fixpoint join_mounts (l : list (list Z * list Z)) : msg :=
  match l with
  | [] => []
  | [(dev, p)] => [Str (string_of_bytes dev); Lit " at "; Str (string_of_bytes p)]
  | (dev, p) :: l' =>
      [Str (string_of_bytes dev); Lit " at "; Str (string_of_bytes p); Lit ", "] ++ join_mounts l'
  end.

Definition cgroup2_root_from_mountinfo (raw : string) : Result (list Z) :=
  let subtrees := subtree_mounts (as_bytes raw) in
  let whole := dedup mount_eqb (stable_sort mount_leb (whole_mounts (as_bytes raw))) in
  let devices := dedup (fun a b => bool_decide (a = b)) (map fst whole) in
  match devices with
  | [] =>
      if 0 <? subtrees then
        Err (Degraded [Lit "no whole cgroup2 hierarchy in "; Lit SELF_MOUNTINFO; Lit ": "; Num subtrees;
          Lit " cgroup2 mount(s) are binds of a subtree, and a path from /proc/<pid>/cgroup does not resolve under one"])
      else
        Err (Degraded [Lit "no cgroup2 mount in "; Lit SELF_MOUNTINFO;
          Lit ": this node has no unified hierarchy, so no cgroup inode can be computed for it"])
  | [_] =>
      match map snd whole with
      | p :: ps => Ok (shortest p ps)
      | [] => Err (Degraded [Lit "one device means at least one mount point"])
      end
  | _ =>
      Err (Degraded ([Num (len devices); Lit " distinct cgroup2 hierarchies in "; Lit SELF_MOUNTINFO; Lit " ("]
        ++ join_mounts whole ++
        [Lit "): which one the datapath keys on cannot be told from here, and picking wrong is indistinguishable from a target that moved"]))
  end.

(** ** Identifiers in directory names *)

Definition V2_MARKER : string := "cgroup.controllers".
Definition MAX_DEPTH : nat := 8.
Definition MIN_ID_LEN : Z := 8.
Definition MIN_ID_PREFIX_MATCH : Z := 12.

Definition is_uid_char (b : Z) : bool := is_ascii_hexdigit b || (b =? 45) || (b =? 95).

Definition normalize_uid (raw : list Z) : option (list Z) :=
  if (len raw <? MIN_ID_LEN) || negb (forallb is_uid_char raw) then None
  else Some (to_ascii_lowercase (map (fun b => if b =? 95 then 45 else b) raw)).

Definition parse_pod_uid (component : list Z) : option (list Z) :=
  let name := default component (strip_suffix (as_bytes ".slice") component) in
  if prefixb (as_bytes "kubepods") name then
    '(_, uid) ← rsplit_once_str (as_bytes "-pod") name; normalize_uid uid
  else
    match strip_prefix (as_bytes "pod") name with
    | Some uid => normalize_uid uid
    | None => None
    end.

Definition normalize_container_id (raw : list Z) : option (list Z) :=
  if (len raw <? 32) || negb (forallb is_ascii_hexdigit raw) then None
  else Some (to_ascii_lowercase raw).

Definition SCOPE_PREFIXES : list string :=
  ["cri-containerd-"; "containerd-"; "cri-o-"; "crio-"; "docker-"].

Definition parse_container_id (component : list Z) : option (list Z) :=
  match strip_suffix (as_bytes ".scope") component with
  | Some name =>
      id ← first_some (map (fun p => strip_prefix (as_bytes p) name) SCOPE_PREFIXES);
      normalize_container_id id
  | None =>
      if has_byte 46 component || prefixb (as_bytes "pod") component then None
      else normalize_container_id component
  end.

Definition strip_container_scheme (raw : list Z) : list Z :=
  to_ascii_lowercase (match rsplit_once_str (as_bytes "://") raw with Some (_, id) => id | None => raw end).

Definition container_id_matches (cgroup_id runtime_id : list Z) : bool :=
  if is_empty cgroup_id || is_empty runtime_id then false
  else if bool_decide (cgroup_id = runtime_id) then true
  else
    let '(short, long) := if len cgroup_id <? len runtime_id then (cgroup_id, runtime_id)
                          else (runtime_id, cgroup_id) in
    (MIN_ID_PREFIX_MATCH <=? len short) && prefixb short long.

(** ** The walk *)

(** [trait CgroupFs], with the text of an I/O error. A path is its names, outermost
    first, each the lossy text of its bytes. *)
Notation path := (list (list Z)).

Class CgroupFs : Type := {
  read_dir : path -> result string (list path);
  inode_of : path -> option Z
}.

Record CgroupEntry := {
  ce_inode : Z;
  ce_path : path;
  ce_pod_uid : list Z;
  ce_container_id : list Z
}.

Definition file_name (p : path) : list Z :=
  match last p with
  | Some n => if bool_decide (n = [46; 46]) then [] else n
  | None => []
  end.

(** [path.display()]. *)
Definition display (p : path) : string :=
  string_of_bytes (match p with [] => [47] | _ => concat (map (fun n => 47 :: n) p) end).

(** From the directory up to the root. *)
Fixpoint pod_uid_up (rdir : list (list Z)) : option (list Z) :=
  match rdir with
  | [] => None
  | _ :: up =>
      match parse_pod_uid (file_name (rev rdir)) with
      | Some uid => Some uid
      | None => pod_uid_up up
      end
  end.

Definition current_pod_uid (dir : path) : option (list Z) := pod_uid_up (rev dir).

Definition path_leb (a b : path) : bool :=
  components_leb (map component a) (map component b).

Section scan.
Context `{Fs : CgroupFs}.

(** What one child of a directory contributes: an entry, a directory to visit, or
    nothing. *)
Definition visit_child (dir : path) (depth : nat) (seen_pod : bool) (child : path)
    : option (CgroupEntry + path * nat * bool) :=
  let name := file_name child in
  if is_empty name then None
  else
    match (if seen_pod then parse_container_id name else None) with
    | Some container_id =>
        match inode_of child with
        | Some inode => Some (inl {| ce_inode := inode; ce_path := child;
                                     ce_pod_uid := default [] (current_pod_uid dir);
                                     ce_container_id := container_id |})
        | None => None
        end
    | None => Some (inr (child, S depth, seen_pod || bool_decide (is_Some (parse_pod_uid name))))
    end.

Definition children (dir : path) (depth : nat) (seen_pod : bool) : list (CgroupEntry + path * nat * bool) :=
  if (MAX_DEPTH <=? depth)%nat then []
  else match read_dir dir with
       | Ok cs => omap (visit_child dir depth seen_pod) cs
       | Err _ => []
       end.

Definition found (l : list (CgroupEntry + path * nat * bool)) : list CgroupEntry :=
  omap (fun x => match x with inl e => Some e | inr _ => None end) l.
Definition pushed (l : list (CgroupEntry + path * nat * bool)) : list (path * nat * bool) :=
  omap (fun x => match x with inr d => Some d | inl _ => None end) l.

(** The loop over the stack, its top first; [None] when the fuel runs out. *)
Fixpoint scan_loop (fuel : nat) (stack : list (path * nat * bool)) (out : list CgroupEntry)
    : option (list CgroupEntry) :=
  match stack with
  | [] => Some out
  | (dir, depth, seen_pod) :: stack' =>
      match fuel with
      | O => None
      | S fuel' =>
          let cs := children dir depth seen_pod in
          scan_loop fuel' (rev (pushed cs) ++ stack') (out ++ found cs)
      end
  end.

(** How many directories the walk below [dir] pops; [left] is the depth left. *)
Fixpoint visits (left : nat) (item : path * nat * bool) : nat :=
  let '(dir, depth, seen_pod) := item in
  match left with
  | O => 1
  | S left' => S (sum_list (map (visits left') (pushed (children dir depth seen_pod))))
  end.

Definition scan (root : path) : Result (list CgroupEntry) :=
  match read_dir root with
  | Err e => Err (Degraded [Lit "cgroup root "; Str (display root); Lit " unreadable: "; Str e])
  | Ok top =>
      if negb (existsb (fun p => bool_decide (file_name p = as_bytes V2_MARKER)) top) then
        Err (Degraded [Lit "cgroup v2 unified hierarchy not found at "; Str (display root); Lit ": no "; Lit V2_MARKER;
          Lit "; cgroup v1 is not supported, pod identity would have to be guessed"])
      else
        let out := default [] (scan_loop (visits MAX_DEPTH (root, O, false)) [(root, O, false)] []) in
        Ok (stable_sort (fun a b => path_leb (ce_path a) (ce_path b))
              (List.filter (fun e => negb (is_empty (ce_pod_uid e))) out))
  end.
End scan.

(** ** The walk ends, and finds every container cgroup *)

Section scan_facts.
Context `{Fs : CgroupFs}.

(** What the walk below one directory finds, in the order of the loop. *)
Fixpoint walk (left : nat) (item : path * nat * bool) : list CgroupEntry :=
  let '(dir, depth, seen_pod) := item in
  match left with
  | O => []
  | S left' =>
      let cs := children dir depth seen_pod in
      found cs ++ concat (map (walk left') (rev (pushed cs)))
  end.

Definition item_depth (item : path * nat * bool) : nat := item.1.2.

Lemma pushed_depth dir depth seen item :
  item ∈ pushed (children dir depth seen) -> item_depth item = S depth.
Proof.
  unfold pushed, children. intros H. apply list_elem_of_omap in H as ([e|d] & Hin & [= ->]).
  destruct (MAX_DEPTH <=? depth)%nat; [by apply not_elem_of_nil in Hin|].
  destruct (read_dir dir) as [cs|]; [|by apply not_elem_of_nil in Hin].
  apply list_elem_of_omap in Hin as (child & _ & Hv). unfold visit_child in Hv.
  destruct (is_empty _); [done|]. destruct (if seen then _ else _); [by destruct (inode_of child)|].
  by injection Hv as <-.
Qed.

Lemma loop_items left :
  (forall item stack out fuel, (item_depth item + left = MAX_DEPTH)%nat ->
     scan_loop (visits left item + fuel) (item :: stack) out = scan_loop fuel stack (out ++ walk left item)) ->
  forall items stack out fuel, Forall (fun item => item_depth item + left = MAX_DEPTH)%nat items ->
    scan_loop (sum_list (map (visits left) items) + fuel) (items ++ stack) out =
    scan_loop fuel stack (out ++ concat (map (walk left) items)).
Proof.
  intros Hitem items. induction items as [|item items IH]; intros stack out fuel Hd.
  - simpl. by rewrite app_nil_r.
  - apply Forall_cons in Hd as [Hd Hds]. simpl map. simpl sum_list. rewrite <- Nat.add_assoc.
    simpl app. rewrite Hitem, IH by done. simpl concat. by rewrite app_assoc.
Qed.

Lemma sum_list_app (l k : list nat) : sum_list (l ++ k) = (sum_list l + sum_list k)%nat.
Proof. induction l as [|x l IH]; simpl; [done|]. rewrite IH. lia. Qed.

Lemma sum_list_rev (l : list nat) : sum_list (rev l) = sum_list l.
Proof. induction l as [|x l IH]; simpl; [done|]. rewrite sum_list_app, IH. simpl. lia. Qed.

Lemma loop_item left : forall item stack out fuel,
  (item_depth item + left = MAX_DEPTH)%nat ->
  scan_loop (visits left item + fuel) (item :: stack) out = scan_loop fuel stack (out ++ walk left item).
Proof.
  induction left as [|left IH]; intros [[dir depth] seen] stack out fuel Hd; cbn [item_depth fst snd] in Hd.
  - cbn [visits walk Nat.add scan_loop]. unfold children.
    rewrite (proj2 (Nat.leb_le MAX_DEPTH depth)) by lia. done.
  - cbn [visits walk Nat.add scan_loop]. set (cs := children dir depth seen).
    rewrite <- (sum_list_rev (map _ _)), <- map_rev.
    rewrite (loop_items left IH), app_assoc; [done|].
    apply Forall_forall. intros item Hin. apply list_elem_of_In, in_rev, list_elem_of_In in Hin.
    apply pushed_depth in Hin. lia.
Qed.

(** The directories the walk stands in, with their depth and whether a pod was named
    on the way. *)
Inductive stands_in (root : path) : path * nat * bool -> Prop :=
| stands_root : stands_in root (root, O, false)
| stands_below dir depth seen item :
    stands_in root (dir, depth, seen) -> item ∈ pushed (children dir depth seen) -> stands_in root item.

Lemma concat_map_elem {A B} (f : A -> list B) (l : list A) y :
  y ∈ concat (map f (rev l)) <-> exists x, x ∈ l /\ y ∈ f x.
Proof.
  rewrite list_elem_of_In, in_concat. setoid_rewrite list_elem_of_In. split.
  - intros (k & (x & <- & Hx)%in_map_iff & Hy). apply in_rev in Hx. eauto.
  - intros (x & Hx & Hy). exists (f x). split; [|done]. apply in_map. by apply in_rev in Hx.
Qed.

Lemma children_depth dir depth seen x : x ∈ children dir depth seen -> (depth < MAX_DEPTH)%nat.
Proof.
  unfold children. destruct (MAX_DEPTH <=? depth)%nat eqn:E; [by intros ?%not_elem_of_nil|].
  intros _. by apply Nat.leb_gt in E.
Qed.

Lemma pushed_below dir depth seen item : item ∈ pushed (children dir depth seen) -> (depth < MAX_DEPTH)%nat.
Proof. intros H. apply list_elem_of_omap in H as (x & Hx & _). by eapply children_depth. Qed.

Lemma found_below dir depth seen e : e ∈ found (children dir depth seen) -> (depth < MAX_DEPTH)%nat.
Proof. intros H. apply list_elem_of_omap in H as (x & Hx & _). by eapply children_depth. Qed.

Lemma walk_sound root e left : forall dir depth seen,
  stands_in root (dir, depth, seen) -> (depth + left = MAX_DEPTH)%nat -> e ∈ walk left (dir, depth, seen) ->
  exists dir' depth' seen', stands_in root (dir', depth', seen') /\ e ∈ found (children dir' depth' seen').
Proof.
  induction left as [|left IH]; intros dir depth seen Hs Hd He; [by apply not_elem_of_nil in He|].
  cbn [walk] in He. apply elem_of_app in He as [He|He]; [by exists dir, depth, seen|].
  apply concat_map_elem in He as ([[dir' depth'] seen'] & Hin & He).
  pose proof (pushed_depth _ _ _ _ Hin) as Hd'. cbn in Hd'.
  apply (IH dir' depth' seen'); [by eapply stands_below | lia | done].
Qed.

Lemma walk_complete root e item :
  stands_in root item -> e ∈ walk (MAX_DEPTH - item_depth item) item -> e ∈ walk MAX_DEPTH (root, O, false).
Proof.
  induction 1 as [|dir depth seen item _ IH Hin]; [done|]. intros He. apply IH. cbn [item_depth fst snd].
  pose proof (pushed_below _ _ _ _ Hin). pose proof (pushed_depth _ _ _ _ Hin) as Hd.
  replace (MAX_DEPTH - depth)%nat with (S (MAX_DEPTH - item_depth item)) by lia. cbn [walk].
  apply elem_of_app. right. apply concat_map_elem. eauto.
Qed.

Lemma found_in_walk root e dir depth seen :
  stands_in root (dir, depth, seen) -> e ∈ found (children dir depth seen) ->
  e ∈ walk MAX_DEPTH (root, O, false).
Proof.
  intros Hs He. eapply walk_complete; [exact Hs|]. cbn [item_depth fst snd].
  pose proof (found_below _ _ _ _ He). destruct (MAX_DEPTH - depth)%nat as [|left] eqn:E; [lia|].
  cbn [walk]. apply elem_of_app. by left.
Qed.

Lemma found_elem dir depth seen e :
  e ∈ found (children dir depth seen) <->
  (depth < MAX_DEPTH)%nat /\ seen = true /\
  exists cs, read_dir dir = Ok cs /\ ce_path e ∈ cs /\ file_name (ce_path e) <> [] /\
    parse_container_id (file_name (ce_path e)) = Some (ce_container_id e) /\
    inode_of (ce_path e) = Some (ce_inode e) /\ ce_pod_uid e = default [] (current_pod_uid dir).
Proof.
  unfold found, children. rewrite list_elem_of_omap. destruct (Nat.leb_spec MAX_DEPTH depth) as [Hd|Hd].
  { split; [intros (x & ?%not_elem_of_nil & _); done | lia]. }
  destruct (read_dir dir) as [cs|].
  2: { split; [intros (x & ?%not_elem_of_nil & _); done | naive_solver]. }
  setoid_rewrite list_elem_of_omap. split.
  - intros (x & (child & Hin & Hv) & Hx). unfold visit_child in Hv.
    destruct (is_empty _) eqn:Hn; [done|]. apply is_empty_false in Hn. destruct seen.
    2: { injection Hv as <-. done. }
    destruct (parse_container_id _) as [cid|] eqn:Hc; [|by injection Hv as <-].
    destruct (inode_of child) as [i|] eqn:Hi; [|done]. injection Hv as <-. injection Hx as <-.
    split_and!; try done. by exists cs.
  - intros (_ & -> & cs' & [= <-] & Hin & Hn & Hc & Hi & Hu). exists (inl e). split; [|done].
    exists (ce_path e). split; [done|]. unfold visit_child. rewrite (proj2 (is_empty_false _) Hn), Hc, Hi.
    destruct e. simpl in *. by subst.
Qed.

(** A container cgroup below [root]: a directory whose name carries a container id,
    in a directory the walk stands in below one that names a pod. *)
Definition container_cgroup (root : path) (e : CgroupEntry) : Prop :=
  exists dir depth cs, stands_in root (dir, depth, true) /\ (depth < MAX_DEPTH)%nat /\
    read_dir dir = Ok cs /\ ce_path e ∈ cs /\ file_name (ce_path e) <> [] /\
    parse_container_id (file_name (ce_path e)) = Some (ce_container_id e) /\
    inode_of (ce_path e) = Some (ce_inode e) /\ current_pod_uid dir = Some (ce_pod_uid e).

Lemma pod_uid_nonempty c uid : parse_pod_uid c = Some uid -> uid <> [].
Proof.
  assert (Hn : forall raw, normalize_uid raw = Some uid -> uid <> []).
  { intros raw. unfold normalize_uid. destruct ((_ <? _) || _) eqn:E; [done|]. intros [= <-].
    apply orb_false_iff in E as [E _]. intros H%(f_equal length).
    unfold to_ascii_lowercase in H. rewrite !length_map in H. unfold len, MIN_ID_LEN in E. simpl in H. lia. }
  unfold parse_pod_uid. cbv zeta. destruct (prefixb _ _).
  - destruct (rsplit_once_str _ _) as [[a b]|]; [|done]. apply Hn.
  - destruct (strip_prefix _ _); [|done]. apply Hn.
Qed.

Lemma current_uid_nonempty dir uid : current_pod_uid dir = Some uid -> uid <> [].
Proof.
  unfold current_pod_uid. induction (rev dir) as [|n up IH]; [done|]. cbn [pod_uid_up].
  destruct (parse_pod_uid _) as [u|] eqn:E; [|done]. intros [= <-]. by eapply pod_uid_nonempty.
Qed.

Lemma scan_out root :
  scan_loop (visits MAX_DEPTH (root, O, false)) [(root, O, false)] [] = Some (walk MAX_DEPTH (root, O, false)).
Proof.
  pose proof (loop_item MAX_DEPTH (root, O, false) [] [] 0 eq_refl) as H.
  by rewrite Nat.add_0_r in H.
Qed.

Lemma scan_entries root entries e :
  scan root = Ok entries -> e ∈ entries <-> container_cgroup root e.
Proof.
  unfold scan. destruct (read_dir root) as [top|]; [|done].
  destruct (existsb _ top) eqn:E; cbn [negb]; [|done]. rewrite scan_out. cbn [default].
  intros [= <-]. rewrite stable_sort_elem, list_elem_of_In, filter_In, <- list_elem_of_In. split.
  - intros [He Hu]. apply negb_true_iff, is_empty_false in Hu.
    apply (walk_sound root e MAX_DEPTH root O false) in He as (dir & depth & seen & Hs & He);
      [|constructor | done].
    apply found_elem in He as (Hd & -> & cs & ? & ? & ? & ? & ? & Huid).
    exists dir, depth, cs. split_and!; try done. rewrite Huid in Hu |- *.
    by destruct (current_pod_uid dir).
  - intros (dir & depth & cs & Hs & Hd & ? & ? & ? & ? & ? & Hu). split.
    + eapply found_in_walk; [exact Hs|]. apply found_elem. split_and!; try done. exists cs.
      rewrite Hu. split_and!; done.
    + apply negb_true_iff, is_empty_false. by eapply current_uid_nonempty.
Qed.

End scan_facts.

(** ** Names are read back *)

(** Lower-case hexadecimal digits, and the dash of a pod uid. *)
Definition is_lower_hex (b : Z) : bool := in_range 48 57 b || in_range 97 102 b.
Definition is_pod_uid (uid : list Z) : Prop :=
  Forall (fun b => is_lower_hex b || (b =? 45) = true) uid /\ MIN_ID_LEN <= len uid.
Definition is_container_id (id : list Z) : Prop :=
  Forall (fun b => is_lower_hex b = true) id /\ 32 <= len id.

(** systemd writes a dash of the uid as an underscore. *)
Definition systemd_escape (uid : list Z) : list Z := map (fun b => if b =? 45 then 95 else b) uid.

Lemma lower_hex_facts b :
  is_lower_hex b = true -> is_ascii_hexdigit b = true /\ ascii_lower b = b /\ b <> 95 /\ b <> 46 /\ b <> 111.
Proof.
  unfold is_lower_hex, is_ascii_hexdigit, ascii_lower, in_range. intros H.
  split_and!; [| |intros ->; done..].
  - destruct (48 <=? b), (b <=? 57), (97 <=? b), (b <=? 102); done.
  - case_match; [|done]. exfalso. bool_hyps. apply orb_true_iff in H as [H|H]; bool_hyps; lia.
Qed.

Lemma lower_map_id l : Forall (fun b => ascii_lower b = b) l -> to_ascii_lowercase l = l.
Proof. induction 1 as [|b l Hb _ IH]; [done|]. simpl. by rewrite Hb, IH. Qed.

Lemma normalize_uid_plain uid : is_pod_uid uid -> normalize_uid uid = Some uid.
Proof.
  intros [H Hl]. unfold normalize_uid. rewrite (proj2 (Z.ltb_ge _ _) Hl).
  rewrite (proj2 (forallb_true_Forall _ _)).
  2: { eapply Forall_impl; [exact H|]. intros b Hb. unfold is_uid_char.
       apply orb_true_iff in Hb as [Hb|Hb]; [|by rewrite Hb, orb_true_r].
       by rewrite (proj1 (lower_hex_facts b Hb)). }
  simpl. f_equal. clear Hl. induction H as [|b l Hb _ IH]; [done|]. simpl. rewrite IH. f_equal.
  apply orb_true_iff in Hb as [Hb|Hb].
  - destruct (lower_hex_facts b Hb) as (_ & E & H95 & _). by rewrite (proj2 (Z.eqb_neq b 95)).
  - apply Z.eqb_eq in Hb as ->. done.
Qed.

Lemma normalize_uid_escaped uid : is_pod_uid uid -> normalize_uid (systemd_escape uid) = Some uid.
Proof.
  intros [H Hl]. rewrite <- (normalize_uid_plain uid) by done. unfold normalize_uid, systemd_escape.
  unfold len in *. rewrite length_map. rewrite (proj2 (Z.ltb_ge _ _) Hl). simpl.
  rewrite !(proj2 (forallb_true_Forall _ _)).
  - simpl. f_equal. clear Hl. induction H as [|b l Hb _ IH]; [done|]. simpl. rewrite IH. f_equal.
    destruct (b =? 45) eqn:E; [|done]. apply Z.eqb_eq in E as ->. done.
  - eapply Forall_impl; [exact H|]. intros b Hb. unfold is_uid_char.
    apply orb_true_iff in Hb as [Hb|Hb]; [|by rewrite Hb, orb_true_r].
    by rewrite (proj1 (lower_hex_facts b Hb)).
  - apply Forall_map. eapply Forall_impl; [exact H|]. intros b Hb. unfold is_uid_char. simpl.
    destruct (b =? 45) eqn:E; [done|]. cbv beta in Hb. rewrite E, orb_false_r in Hb.
    by rewrite (proj1 (lower_hex_facts b Hb)).
Qed.

(** A pattern is found where its second byte occurs for the first time. *)
Lemma split_once_str_second c d pat a b :
  d ∉ a -> c <> d -> split_once_str (c :: d :: pat) (a ++ c :: d :: pat ++ b) = Some (a, b).
Proof.
  induction a as [|x a IH]; intros Ha Hcd.
  - cbn [app split_once_str]. rewrite (proj2 (prefixb_spec (c :: d :: pat) _)); [|by exists b].
    cbn [length drop]. by rewrite drop_app_length.
  - apply not_elem_of_cons in Ha as [Hx Ha]. cbn [app split_once_str].
    assert (E : prefixb (c :: d :: pat) (x :: a ++ c :: d :: pat ++ b) = false).
    { destruct a as [|y a]; cbn [app prefixb].
      - rewrite (proj2 (Z.eqb_neq d c)) by done. by rewrite andb_false_r.
      - apply not_elem_of_cons in Ha as [Hy _]. rewrite (proj2 (Z.eqb_neq d y)) by done.
        by rewrite andb_false_r. }
    rewrite E, IH by done. done.
Qed.

Lemma no_suffix p l b : b ∈ p -> b ∉ l -> strip_suffix p l = None.
Proof.
  intros Hp Hb. unfold strip_suffix. destruct (suffixb p l) eqn:E; [|done].
  apply suffixb_spec in E as [k ->]. exfalso. apply Hb, elem_of_app. by right.
Qed.

Lemma absent (b : Z) l (P : Z -> Prop) : Forall P l -> ~ P b -> b ∉ l.
Proof. rewrite Forall_forall. naive_solver. Qed.

Lemma escaped_no_o uid : is_pod_uid uid -> 111 ∉ systemd_escape uid.
Proof.
  intros [H _]. eapply (absent 111 _ (fun b => b <> 111)); [|naive_solver].
  apply Forall_map. eapply Forall_impl; [exact H|]. intros b Hb. simpl.
  destruct (b =? 45) eqn:E; [lia|]. cbv beta in Hb. rewrite E, orb_false_r in Hb.
  by destruct (lower_hex_facts b Hb) as (_ & _ & _ & _ & ?).
Qed.

Lemma container_no_dot id : is_container_id id -> 46 ∉ id.
Proof.
  intros [H _]. eapply (absent 46 _ (fun b => b <> 46)); [|naive_solver].
  eapply Forall_impl; [exact H|]. intros b Hb. by destruct (lower_hex_facts b Hb) as (_ & _ & _ & ? & _).
Qed.

Lemma normalize_container_plain id : is_container_id id -> normalize_container_id id = Some id.
Proof.
  intros [H Hl]. unfold normalize_container_id. rewrite (proj2 (Z.ltb_ge _ _) Hl).
  rewrite (proj2 (forallb_true_Forall _ _)).
  - simpl. f_equal. apply lower_map_id. eapply Forall_impl; [exact H|]. intros b Hb.
    by destruct (lower_hex_facts b Hb) as (_ & ? & _).
  - eapply Forall_impl; [exact H|]. intros b Hb. by destruct (lower_hex_facts b Hb).
Qed.

(** The prefixes of a scope: none is a prefix of another's name. *)
Lemma scope_prefix_found runtime id :
  runtime ∈ SCOPE_PREFIXES -> is_container_id id ->
  first_some (map (fun p => strip_prefix (as_bytes p) (as_bytes runtime ++ id)) SCOPE_PREFIXES) = Some id.
Proof.
  intros Hin _. unfold SCOPE_PREFIXES in Hin.
  repeat (apply elem_of_cons in Hin as [->|Hin]; [cbn; by rewrite ?drop_0|]). by apply not_elem_of_nil in Hin.
Qed.

Lemma rsplit_pod pre uid :
  is_pod_uid uid ->
  rsplit_once_str (as_bytes "-pod") (pre ++ as_bytes "-pod" ++ systemd_escape uid) =
  Some (pre, systemd_escape uid).
Proof.
  intros Huid. unfold rsplit_once_str. rewrite !rev_app_distr, <- app_assoc.
  change (rev (as_bytes "-pod")) with [100; 111; 112; 45].
  assert (Ho : 111 ∉ rev (systemd_escape uid)).
  { rewrite list_elem_of_In, <- in_rev, <- list_elem_of_In. by apply escaped_no_o. }
  pose proof (split_once_str_second 100 111 [112; 45] _ (rev pre) Ho) as H. cbn [app] in H |- *.
  rewrite H by done. by rewrite !rev_involutive.
Qed.

(** the names of cgroup directories are read back exactly: the pod uid from the
    systemd slice of any QoS class and from the cgroupfs directory, the container id
    from the scope of every supported runtime and from the bare directory. *)
Lemma cgroup_names_roundtrip uid id qos runtime
    (Huid : is_pod_uid uid) (Hid : is_container_id id) (Hruntime : runtime ∈ SCOPE_PREFIXES) :
  parse_pod_uid (as_bytes "kubepods" ++ qos ++ as_bytes "-pod" ++ systemd_escape uid ++ as_bytes ".slice")
    = Some uid /\
  parse_pod_uid (as_bytes "pod" ++ uid) = Some uid /\
  parse_container_id (as_bytes runtime ++ id ++ as_bytes ".scope") = Some id /\
  parse_container_id id = Some id.
Proof.
  pose proof (container_no_dot id Hid) as Hdot. split_and!.
  - unfold parse_pod_uid. cbv zeta.
    replace (as_bytes "kubepods" ++ qos ++ as_bytes "-pod" ++ systemd_escape uid ++ as_bytes ".slice")
      with (((as_bytes "kubepods" ++ qos) ++ as_bytes "-pod" ++ systemd_escape uid) ++ as_bytes ".slice")
      by (by rewrite <- !app_assoc).
    rewrite strip_suffix_app. cbn [default Datatypes.id].
    rewrite (proj2 (prefixb_spec _ _)); [|eexists; by rewrite <- app_assoc].
    rewrite rsplit_pod by done. cbn. by apply normalize_uid_escaped.
  - unfold parse_pod_uid. cbv zeta. rewrite (no_suffix _ _ 46); [|by apply (bool_decide_unpack _)|].
    + cbn [default Datatypes.id]. change (prefixb (as_bytes "kubepods") (as_bytes "pod" ++ uid)) with false. cbv iota.
      rewrite strip_prefix_app. by apply normalize_uid_plain.
    + apply not_elem_of_app. split; [by apply (bool_decide_unpack _)|]. destruct Huid as [H _].
      eapply (absent 46 _ (fun b => b <> 46)); [|naive_solver]. eapply Forall_impl; [exact H|].
      intros b Hb. apply orb_true_iff in Hb as [Hb|Hb]; [|lia].
      by destruct (lower_hex_facts b Hb) as (_ & _ & _ & ? & _).
  - unfold parse_container_id. rewrite app_assoc, strip_suffix_app.
    rewrite scope_prefix_found by done. cbn. by apply normalize_container_plain.
  - unfold parse_container_id. rewrite (no_suffix _ _ 46) by (done || by apply (bool_decide_unpack _)).
    rewrite (proj2 (has_byte_false 46 id)) by done. cbn [orb].
    assert (E : prefixb (as_bytes "pod") id = false).
    { destruct (prefixb _ _) eqn:E; [|done]. apply prefixb_spec in E as [k ->]. destruct Hid as [H _].
      apply Forall_cons in H as [H _]. discriminate H. }
    rewrite E. by apply normalize_container_plain.
Qed.

(** ** The root is one hierarchy's, or none is given *)

Lemma dedup_cons {A} (eqb : A -> A -> bool) a b l :
  dedup eqb (a :: b :: l) =
  match dedup eqb (b :: l) with z :: rest => if eqb a z then a :: rest else a :: z :: rest | [] => [a] end.
Proof. done. Qed.

Lemma dedup_elem {A} (eqb : A -> A -> bool) x l : x ∈ dedup eqb l -> x ∈ l.
Proof.
  induction l as [|a l IH]; [done|]. destruct l as [|b l]; [done|].
  rewrite dedup_cons.
  destruct (dedup eqb (b :: l)) as [|z rest].
  - intros ->%list_elem_of_singleton. left.
  - destruct (eqb a z); rewrite !elem_of_cons in *; naive_solver.
Qed.

Lemma dedup_nil {A} (eqb : A -> A -> bool) l : dedup eqb l = [] -> l = [].
Proof.
  destruct l as [|a [|b l]]; [done..|]. rewrite dedup_cons. destruct (dedup eqb (b :: l)); [done|].
  by destruct (eqb _ _).
Qed.

(** Every element has a kept one it is equal to, for an equality that is one. *)
Lemma dedup_kept {A B} (f : A -> B) (eqb : A -> A -> bool) l :
  (forall a b, eqb a b = true -> f a = f b) -> forall x, x ∈ l -> exists y, y ∈ dedup eqb l /\ f y = f x.
Proof.
  intros Hf. induction l as [|a l IH]; intros x Hx; [by apply not_elem_of_nil in Hx|].
  destruct l as [|b l]; [by exists x|]. rewrite dedup_cons.
  destruct (dedup eqb (b :: l)) as [|z rest] eqn:E; [by apply dedup_nil in E|].
  apply elem_of_cons in Hx as [->|Hx].
  - exists a. split; [|done]. destruct (eqb a z); apply elem_of_cons; by left.
  - destruct (IH x Hx) as (y & Hy & Hfy). apply elem_of_cons in Hy as [->|Hy].
    + destruct (eqb a z) eqn:Ez; [exists a | exists z]; rewrite !elem_of_cons; [|naive_solver].
      split; [by left|]. rewrite <- Hfy. by apply Hf.
    + exists y. split; [|done]. destruct (eqb a z); rewrite !elem_of_cons; naive_solver.
Qed.

Lemma shortest_elem p ps : shortest p ps ∈ p :: ps.
Proof.
  unfold shortest. revert p. induction ps as [|q ps IH]; intros p; simpl; [set_solver|].
  destruct (shorter p q); [specialize (IH p) | specialize (IH q)]; set_solver.
Qed.

(** The root that both the index and the check of a target key on is a mount point of
    the one whole cgroup2 hierarchy of the node; with none, or with two, there is no
    answer rather than a choice. *)
Lemma cgroup2_root_exact raw :
  let whole := whole_mounts (as_bytes raw) in
  match cgroup2_root_from_mountinfo raw with
  | Ok root => exists dev, (dev, root) ∈ whole /\ forall d p, (d, p) ∈ whole -> d = dev
  | Err _ => whole = [] \/ exists d1 p1 d2 p2, (d1, p1) ∈ whole /\ (d2, p2) ∈ whole /\ d1 <> d2
  end.
Proof.
  cbv zeta. unfold cgroup2_root_from_mountinfo. cbv zeta.
  set (whole := whole_mounts (as_bytes raw)). set (kept := dedup mount_eqb _).
  assert (Hkept : forall x, x ∈ kept -> x ∈ whole).
  { intros x Hx%dedup_elem. by rewrite stable_sort_elem in Hx. }
  assert (Hdev : forall x, x ∈ whole -> exists y, y ∈ kept /\ y.1 = x.1).
  { intros x Hx. apply (dedup_kept fst mount_eqb).
    - intros a b H. unfold mount_eqb in H. by bool_hyps.
    - by rewrite stable_sort_elem. }
  set (same := fun a b : list Z => bool_decide (a = b)).
  assert (Hdevices : forall x, x ∈ whole -> x.1 ∈ dedup same (map fst kept)).
  { intros x (y & Hy & <-)%Hdev. destruct (dedup_kept id same (map fst kept)) with (x := y.1) as (d & Hd & E).
    - intros a b H. unfold same in H. by bool_hyps.
    - apply list_elem_of_fmap. by exists y.
    - simpl in E. by subst. }
  destruct (dedup same (map fst kept)) as [|d0 [|d1 ds]] eqn:E.
  - assert (Hw : whole = []).
    { destruct whole as [|w ws]; [done|]. specialize (Hdevices w (list_elem_of_here _ _)).
      by apply not_elem_of_nil in Hdevices. }
    destruct (_ <? _); by left.
  - destruct kept as [|[d p] ks] eqn:Ek; [done|]. cbn [map snd].
    assert (Hone : forall x, x ∈ whole -> x.1 = d0).
    { intros x Hx%Hdevices. by apply list_elem_of_singleton in Hx. }
    pose proof (shortest_elem p (map snd ks)) as Hs.
    assert (Hin : shortest p (map snd ks) ∈ map snd ((d, p) :: ks)) by exact Hs.
    apply list_elem_of_fmap in Hin as ([d' p'] & Hp & Hin). cbn in Hp. exists d'. rewrite Hp.
    apply Hkept in Hin. split; [done|]. intros d2 p2 Hin2. apply Hone in Hin, Hin2. cbn in *. congruence.
  - right. assert (Hne : d0 <> d1).
    { intros <-. clear -E. revert d0 ds E. induction (map fst kept) as [|a l IH]; intros d0 ds E; [done|].
      destruct l as [|b l]; [done|]. rewrite dedup_cons in E. destruct (dedup same (b :: l)) as [|z rest]; [done|].
      destruct (same a z) eqn:Ez.
      - injection E as -> ->. apply (IH z ds). f_equal. unfold same in Ez. bool_hyps. by subst.
      - injection E as -> -> ->. unfold same in Ez. bool_hyps. done. }
    assert (Hfrom : forall x, x ∈ d0 :: d1 :: ds -> exists p, (x, p) ∈ whole).
    { intros x Hx. rewrite <- E in Hx. apply dedup_elem, list_elem_of_fmap in Hx as ([d p] & -> & Hin).
      exists p. by apply Hkept. }
    destruct (Hfrom d0) as [p0 H0]; [set_solver|]. destruct (Hfrom d1) as [p1 H1]; [set_solver|].
    by exists d0, p0, d1, p1.
Qed.

(** ** A small tree *)

(** [/cgroup.controllers], a pod slice with one container scope, and a scope outside
    any pod. *)
Definition small_tree : CgroupFs := {|
  read_dir p :=
    match p with
    | [] => Ok [ [as_bytes "cgroup.controllers"]; [as_bytes "kubepods-podaabbccdd_0.slice"];
                 [as_bytes "docker-0123456789abcdef0123456789abcdef.scope"] ]
    | [n] => if bool_decide (n = as_bytes "kubepods-podaabbccdd_0.slice")
             then Ok [ [n; as_bytes "docker-fedcba9876543210fedcba9876543210.scope"] ] else Err "ENOTDIR"
    | _ => Err "ENOTDIR"
    end;
  inode_of p := Some (len p)
|}.

Lemma small_tree_scanned :
  scan (Fs := small_tree) [] =
  Ok [ {| ce_inode := 2;
          ce_path := [as_bytes "kubepods-podaabbccdd_0.slice";
                      as_bytes "docker-fedcba9876543210fedcba9876543210.scope"];
          ce_pod_uid := as_bytes "aabbccdd-0";
          ce_container_id := as_bytes "fedcba9876543210fedcba9876543210" |} ].
Proof. vm_compute. reflexivity. Qed.

Lemma cgroup_names_witness :
  parse_pod_uid (as_bytes "podaabbccdd-0") = Some (as_bytes "aabbccdd-0") /\
  parse_container_id (as_bytes "docker-0123456789abcdef0123456789abcdef.scope") =
    Some (as_bytes "0123456789abcdef0123456789abcdef").
Proof.
  destruct (cgroup_names_roundtrip (as_bytes "aabbccdd-0") (as_bytes "0123456789abcdef0123456789abcdef")
    [] "docker-") as (_ & H1 & H2 & _).
  - split; [repeat constructor | vm_compute; discriminate].
  - split; [repeat constructor | vm_compute; discriminate].
  - set_solver.
  - split; [exact H1 | exact H2].
Defined.
