(* ===== verification/Labels.v ===== *)
(** * Label caches of the watch

    [crates/ferrum-k8smeta/src/labels.rs]: the labels of namespaces and service
    accounts, under ceilings, with the evidence that they are current. An [Instant] is
    a number of nanoseconds; [Instant::now()] is the argument [now]. *)

From S2P Require Import Prelude RustStd Ids Grant.

Definition MAX_LABEL_ENTRIES : Z := 20000.
Definition MAX_OBJECT_LABEL_BYTES : Z := 8 * 1024.
Definition MAX_TOTAL_LABEL_BYTES : Z := 16 * 1024 * 1024.
Definition DEFAULT_MAX_AGE : Z := seconds (2 * 60 * 60).
Definition RELIST_DEBT_HOLDDOWN : Z := seconds 5.

(** [now.saturating_duration_since(at)]. *)
Definition since (now at_ : Z) : Z := Z.max 0 (now - at_).

(** [labels.iter().map(|(k, v)| k.len() + v.len()).sum()]. *)
Definition label_bytes (labels : gmap string string) : Z :=
  foldr (fun kv n => slen kv.1 + slen kv.2 + n) 0 (map_to_list labels).

Record LabelObject := {
  lo_namespace : string;
  lo_name : string;
  lo_labels : gmap string string;
  lo_resource_version : string
}.

(** [PodWatchEvent] and [LabelWatchEvent]: the same six cases over their object. *)
Inductive WatchEvent (O : Type) :=
| Added (o : O)
| Modified (o : O)
| Deleted (o : O)
| Bookmark (rv : string)
| Gone (message : string)
| Error (message : string).
Arguments Added {O} o.
Arguments Modified {O} o.
Arguments Deleted {O} o.
Arguments Bookmark {O} rv.
Arguments Gone {O} message.
Arguments Error {O} message.

Definition LabelWatchEvent : Type := WatchEvent LabelObject.

Inductive WatchOutcome := Applied | Removed | Ignored | MustRelist.

#[global] Instance WatchOutcome_eq_dec : EqDecision WatchOutcome.
Proof. solve_decision. Defined.

Definition label_key (namespace name : string) : string :=
  if str_empty namespace then name else namespace +:+ "/" +:+ name.

Record LabelCache := {
  lc_by_name : gmap string (gmap string string);
  lc_resource_version : string;
  lc_listed : bool;
  lc_fresh_at : option Z;
  lc_max_age : Z;
  lc_label_bytes : Z;
  lc_overflow : option msg;
  lc_relist_pending : bool;
  lc_debt_raised_at : option Z
}.

Definition label_cache_new : LabelCache :=
  {| lc_by_name := ∅; lc_resource_version := ""; lc_listed := false; lc_fresh_at := None;
     lc_max_age := DEFAULT_MAX_AGE; lc_label_bytes := 0; lc_overflow := None;
     lc_relist_pending := false; lc_debt_raised_at := None |}.

(** ** Questions *)

Definition age_at (c : LabelCache) (now : Z) : option Z := since now <$> lc_fresh_at c.

Definition is_warm_at (c : LabelCache) (now : Z) : bool :=
  lc_listed c && negb (lc_relist_pending c)
  && match age_at c now with Some age => age <=? lc_max_age c | None => false end.

Definition is_stale_at (c : LabelCache) (now : Z) : bool := lc_listed c && negb (is_warm_at c now).

Definition labels_relist_due_at (c : LabelCache) (now : Z) : bool :=
  match lc_debt_raised_at c with Some at_ => RELIST_DEBT_HOLDDOWN <=? since now at_ | None => false end.

Definition labels_of (c : LabelCache) (namespace name : string) : option (gmap string string) :=
  lc_by_name c !! label_key namespace name.

(** ** Changes *)

Definition labels_raise_relist_pending_at (c : LabelCache) (at_ : Z) : LabelCache :=
  if negb (lc_relist_pending c) then
    {| lc_by_name := lc_by_name c; lc_resource_version := lc_resource_version c; lc_listed := lc_listed c;
       lc_fresh_at := lc_fresh_at c; lc_max_age := lc_max_age c; lc_label_bytes := lc_label_bytes c;
       lc_overflow := lc_overflow c; lc_relist_pending := true; lc_debt_raised_at := Some at_ |}
  else c.

Definition set_max_age (c : LabelCache) (max_age : Z) : LabelCache :=
  {| lc_by_name := lc_by_name c; lc_resource_version := lc_resource_version c; lc_listed := lc_listed c;
     lc_fresh_at := lc_fresh_at c; lc_max_age := max_age; lc_label_bytes := lc_label_bytes c;
     lc_overflow := lc_overflow c; lc_relist_pending := lc_relist_pending c;
     lc_debt_raised_at := lc_debt_raised_at c |}.

Definition mark_fresh_at (c : LabelCache) (at_ : Z) : LabelCache :=
  {| lc_by_name := lc_by_name c; lc_resource_version := lc_resource_version c; lc_listed := lc_listed c;
     lc_fresh_at := Some at_; lc_max_age := lc_max_age c; lc_label_bytes := lc_label_bytes c;
     lc_overflow := lc_overflow c; lc_relist_pending := lc_relist_pending c;
     lc_debt_raised_at := lc_debt_raised_at c |}.

Definition labels_set_resource_version (c : LabelCache) (rv : string) (now : Z) : LabelCache :=
  if str_empty rv then c else
  {| lc_by_name := lc_by_name c; lc_resource_version := rv; lc_listed := lc_listed c;
     lc_fresh_at := Some now; lc_max_age := lc_max_age c; lc_label_bytes := lc_label_bytes c;
     lc_overflow := lc_overflow c; lc_relist_pending := lc_relist_pending c;
     lc_debt_raised_at := lc_debt_raised_at c |}.

Definition set_overflow (c : LabelCache) (reason : option msg) : LabelCache :=
  {| lc_by_name := lc_by_name c; lc_resource_version := lc_resource_version c; lc_listed := lc_listed c;
     lc_fresh_at := lc_fresh_at c; lc_max_age := lc_max_age c; lc_label_bytes := lc_label_bytes c;
     lc_overflow := reason; lc_relist_pending := lc_relist_pending c;
     lc_debt_raised_at := lc_debt_raised_at c |}.

Definition set_entries (c : LabelCache) (m : gmap string (gmap string string)) (bytes : Z) : LabelCache :=
  {| lc_by_name := m; lc_resource_version := lc_resource_version c; lc_listed := lc_listed c;
     lc_fresh_at := lc_fresh_at c; lc_max_age := lc_max_age c; lc_label_bytes := bytes;
     lc_overflow := lc_overflow c; lc_relist_pending := lc_relist_pending c;
     lc_debt_raised_at := lc_debt_raised_at c |}.

Definition take_overflow (c : LabelCache) : option msg * LabelCache := (lc_overflow c, set_overflow c None).

Definition refuse_labels (c : LabelCache) (reason : msg) : FerrumError * LabelCache :=
  (Degraded (Lit "label cache: " :: reason), set_overflow c (Some reason)).

Definition try_upsert (c : LabelCache) (object : LabelObject) : Result bool * LabelCache :=
  if str_empty (lo_name object) then (Ok false, c) else
  let key := label_key (lo_namespace object) (lo_name object) in
  let incoming := label_bytes (lo_labels object) in
  let refuse reason := let '(e, c') := refuse_labels c reason in (Err e, c') in
  if MAX_OBJECT_LABEL_BYTES <? incoming then
    refuse [Lit "labels of "; Str key; Lit " are "; Num incoming; Lit " bytes, past the ";
            Num MAX_OBJECT_LABEL_BYTES; Lit "-byte per-object ceiling"]
  else
    match lc_by_name c !! key with
    | None =>
        if MAX_LABEL_ENTRIES <=? Z.of_nat (size (lc_by_name c)) then
          refuse [Lit "cache already holds "; Num MAX_LABEL_ENTRIES;
                  Lit " objects; refusing to grow for "; Str key]
        else
          let total := lc_label_bytes c - 0 + incoming in
          if MAX_TOTAL_LABEL_BYTES <? total then
            refuse [Lit "label bytes would reach "; Num total; Lit " at "; Str key; Lit ", past the ";
                    Num MAX_TOTAL_LABEL_BYTES; Lit "-byte ceiling"]
          else (Ok true, set_entries c (<[key := lo_labels object]> (lc_by_name c)) total)
    | Some existing =>
        let total := lc_label_bytes c - label_bytes existing + incoming in
        if MAX_TOTAL_LABEL_BYTES <? total then
          refuse [Lit "label bytes would reach "; Num total; Lit " at "; Str key; Lit ", past the ";
                  Num MAX_TOTAL_LABEL_BYTES; Lit "-byte ceiling"]
        else (Ok true, set_entries c (<[key := lo_labels object]> (lc_by_name c)) total)
    end.

(** [upsert]: a refusal is a quiet [false]. *)
Definition upsert (c : LabelCache) (object : LabelObject) : bool * LabelCache :=
  let '(r, c') := try_upsert c object in (match r with Ok b => b | Err _ => false end, c').

Definition labels_remove (c : LabelCache) (namespace name : string) : bool * LabelCache :=
  let key := label_key namespace name in
  match lc_by_name c !! key with
  | Some labels =>
      (true, set_entries c (delete key (lc_by_name c)) (Z.max 0 (lc_label_bytes c - label_bytes labels)))
  | None => (false, c)
  end.

Definition clear_labels (c : LabelCache) : LabelCache :=
  {| lc_by_name := ∅; lc_resource_version := lc_resource_version c; lc_listed := false;
     lc_fresh_at := None; lc_max_age := lc_max_age c; lc_label_bytes := 0;
     lc_overflow := lc_overflow c; lc_relist_pending := lc_relist_pending c;
     lc_debt_raised_at := lc_debt_raised_at c |}.

(** The loop of [try_replace_all]; the cache it stops with is cleared by the caller. *)
Fixpoint upsert_all (c : LabelCache) (objects : list LabelObject) : Result unit * LabelCache :=
  match objects with
  | [] => (Ok tt, c)
  | object :: objects' =>
      let '(r, c') := try_upsert c object in
      match r with Err e => (Err e, c') | Ok _ => upsert_all c' objects' end
  end.

Definition try_replace_all (c : LabelCache) (objects : list LabelObject) (now : Z)
    : Result unit * LabelCache :=
  let '(r, c') := upsert_all (clear_labels c) objects in
  match r with
  | Err e => (Err e, clear_labels c')
  | Ok _ =>
      (Ok tt,
       {| lc_by_name := lc_by_name c'; lc_resource_version := lc_resource_version c'; lc_listed := true;
          lc_fresh_at := Some now; lc_max_age := lc_max_age c'; lc_label_bytes := lc_label_bytes c';
          lc_overflow := lc_overflow c'; lc_relist_pending := false; lc_debt_raised_at := None |})
  end.

Definition try_apply_labels_event (c : LabelCache) (event : LabelWatchEvent) (now : Z)
    : Result WatchOutcome * LabelCache :=
  match event with
  | Added o | Modified o =>
      let '(r, c') := try_upsert c o in
      (match r with Ok true => Ok Applied | Ok false => Ok Ignored | Err e => Err e end, c')
  | Deleted o => (Ok Removed, snd (labels_remove c (lo_namespace o) (lo_name o)))
  | Bookmark rv => (Ok Ignored, labels_set_resource_version c rv now)
  | Gone _ => (Ok MustRelist, labels_raise_relist_pending_at c now)
  | Error _ => (Ok Ignored, c)
  end.

Definition label_event_resource_version (event : LabelWatchEvent) : option string :=
  match event with
  | Bookmark rv => Some rv
  | Added o | Modified o | Deleted o =>
      if str_empty (lo_resource_version o) then None else Some (lo_resource_version o)
  | Gone _ | Error _ => None
  end.

(** ** The ceilings hold *)

Definition total_bytes (m : gmap string (gmap string string)) : Z :=
  map_fold (fun _ labels n => label_bytes labels + n) 0 m.

Lemma label_bytes_nonneg labels : 0 <= label_bytes labels.
Proof.
  unfold label_bytes. induction (map_to_list labels) as [|[k v] l IH]; [done|].
  pose proof (len_nonneg (as_bytes k)). pose proof (len_nonneg (as_bytes v)).
  cbn [foldr fst snd]. unfold slen in *. lia.
Qed.

Lemma total_insert_new m key labels :
  m !! key = None -> total_bytes (<[key := labels]> m) = label_bytes labels + total_bytes m.
Proof.
  intros H. unfold total_bytes. rewrite map_fold_insert_L; [done| |done]. intros. lia.
Qed.

Lemma total_delete m key labels :
  m !! key = Some labels -> total_bytes m = label_bytes labels + total_bytes (delete key m).
Proof.
  intros H. rewrite <- (total_insert_new (delete key m) key) by apply lookup_delete_eq.
  by rewrite insert_delete_id.
Qed.

Lemma total_insert_old m key old labels :
  m !! key = Some old ->
  total_bytes (<[key := labels]> m) = total_bytes m - label_bytes old + label_bytes labels.
Proof.
  intros H. rewrite (total_delete m key old H), <- insert_delete_eq.
  rewrite total_insert_new by apply lookup_delete_eq. lia.
Qed.

Lemma total_nonneg m : 0 <= total_bytes m.
Proof.
  unfold total_bytes. apply (map_fold_weak_ind (fun n _ => 0 <= n)); [done|].
  intros k labels m' r _ Hr. pose proof (label_bytes_nonneg labels). lia.
Qed.

(** The counter is the bytes held, and every ceiling holds. *)
Record labels_ok (c : LabelCache) : Prop := {
  lok_bytes : lc_label_bytes c = total_bytes (lc_by_name c);
  lok_total : total_bytes (lc_by_name c) <= MAX_TOTAL_LABEL_BYTES;
  lok_entries : Z.of_nat (size (lc_by_name c)) <= MAX_LABEL_ENTRIES;
  lok_object key labels : lc_by_name c !! key = Some labels -> label_bytes labels <= MAX_OBJECT_LABEL_BYTES;
  lok_debt : is_Some (lc_debt_raised_at c) <-> lc_relist_pending c = true
}.

Lemma labels_ok_new : labels_ok label_cache_new.
Proof.
  constructor; simpl; try done.
Qed.

(** What matters of a cache to [labels_ok]. *)
Lemma labels_ok_ext c c' :
  labels_ok c -> lc_label_bytes c' = lc_label_bytes c -> lc_by_name c' = lc_by_name c ->
  (is_Some (lc_debt_raised_at c') <-> lc_relist_pending c' = true) -> labels_ok c'.
Proof. intros [H1 H2 H3 H4 H5] E1 E2 E3. constructor; rewrite ?E1, ?E2; done. Qed.

Lemma labels_ok_clear c : labels_ok c -> labels_ok (clear_labels c).
Proof. intros [_ _ _ _ H]. constructor; simpl; try done. Qed.

Lemma labels_ok_raise c now : labels_ok c -> labels_ok (labels_raise_relist_pending_at c now).
Proof.
  intros H. unfold labels_raise_relist_pending_at. destruct (lc_relist_pending c) eqn:E; [done|].
  apply (labels_ok_ext c); simpl; try done.
Qed.

Lemma labels_ok_rv c rv now : labels_ok c -> labels_ok (labels_set_resource_version c rv now).
Proof.
  intros H. unfold labels_set_resource_version. destruct (str_empty rv); [done|].
  by apply (labels_ok_ext c); try done; apply (lok_debt c).
Qed.

(** Every branch of an insertion. *)
Lemma try_upsert_cases c object r c' :
  labels_ok c -> try_upsert c object = (r, c') ->
  let key := label_key (lo_namespace object) (lo_name object) in
  match r with
  | Ok true => lo_name object <> "" /\ lc_by_name c' = <[key := lo_labels object]> (lc_by_name c)
  | Ok false => lo_name object = "" /\ c' = c
  | Err _ => lc_by_name c' = lc_by_name c
  end /\
  labels_ok c' /\ lc_listed c' = lc_listed c /\ lc_fresh_at c' = lc_fresh_at c /\
  lc_relist_pending c' = lc_relist_pending c /\ lc_max_age c' = lc_max_age c /\
  lc_debt_raised_at c' = lc_debt_raised_at c /\ lc_resource_version c' = lc_resource_version c.
Proof.
  intros Hok. unfold try_upsert, refuse_labels. cbv zeta. destruct (str_empty (lo_name object)) eqn:Hn.
  { intros [= <- <-]. apply str_empty_true in Hn. split_and!; done. }
  apply str_empty_false in Hn. set (key := label_key _ _).
  assert (Hrefuse : forall reason, labels_ok (set_overflow c reason)).
  { intros reason. by apply (labels_ok_ext c); try done; apply (lok_debt c). }
  destruct (MAX_OBJECT_LABEL_BYTES <? label_bytes (lo_labels object)) eqn:Hobj.
  { intros [= <- <-]. split_and!; done. }
  destruct Hok as [H1 H2 H3 H4 H5].
  assert (Hobjects : forall k labels, <[key := lo_labels object]> (lc_by_name c) !! k = Some labels ->
    label_bytes labels <= MAX_OBJECT_LABEL_BYTES).
  { intros k labels [[_ <-]|[_ H]]%lookup_insert_Some; [lia | by eapply H4]. }
  destruct (lc_by_name c !! key) as [old|] eqn:Hk.
  - destruct (MAX_TOTAL_LABEL_BYTES <? _) eqn:Ht; intros [= <- <-]; split_and!; try done.
    constructor; simpl; try done.
    + by rewrite (total_insert_old _ _ old), H1.
    + rewrite (total_insert_old _ _ old), <- H1 by done. lia.
    + rewrite map_size_insert_Some; [done | by eexists].
  - destruct (MAX_LABEL_ENTRIES <=? _) eqn:Hs; [intros [= <- <-]; split_and!; done|].
    destruct (MAX_TOTAL_LABEL_BYTES <? _) eqn:Ht; intros [= <- <-]; split_and!; try done.
    constructor; simpl; try done.
    + rewrite total_insert_new by done. lia.
    + rewrite total_insert_new by done. lia.
    + rewrite map_size_insert_None by done. lia.
Qed.

Lemma labels_ok_remove c namespace name : labels_ok c -> labels_ok (snd (labels_remove c namespace name)).
Proof.
  intros [H1 H2 H3 H4 H5]. unfold labels_remove. destruct (_ !! _) as [labels|] eqn:Hk; [|by constructor].
  set (key := label_key _ _) in *. pose proof (total_delete _ _ _ Hk) as Ht.
  pose proof (total_nonneg (delete key (lc_by_name c))). pose proof (label_bytes_nonneg labels).
  constructor; simpl; try done; [lia | lia | |].
  - rewrite map_size_delete, Hk. simpl. lia.
  - intros k labels' [_ Hl]%lookup_delete_Some. by eapply H4.
Qed.

Lemma labels_ok_upsert_all c objects r c' :
  labels_ok c -> upsert_all c objects = (r, c') -> labels_ok c'.
Proof.
  revert c. induction objects as [|o objects IH]; intros c Hok; simpl; [by intros [= <- <-]|].
  destruct (try_upsert c o) as [r1 c1] eqn:E. destruct (try_upsert_cases _ _ _ _ Hok E) as (_ & Hok1 & _).
  destruct r1; [by apply IH | by intros [= <- <-]].
Qed.

(** ** What a full list leaves *)

(** The entry a listed object makes; a nameless object makes none. *)
Definition listed_entries (objects : list LabelObject) : list (string * gmap string string) :=
  omap (fun o => if str_empty (lo_name o) then None
                 else Some (label_key (lo_namespace o) (lo_name o), lo_labels o)) objects.

Lemma upsert_all_entries c objects c' :
  labels_ok c -> upsert_all c objects = (Ok tt, c') ->
  lc_by_name c' = foldl (fun m kv => <[kv.1 := kv.2]> m) (lc_by_name c) (listed_entries objects) /\
  lc_max_age c' = lc_max_age c /\ lc_resource_version c' = lc_resource_version c.
Proof.
  revert c. induction objects as [|o objects IH]; intros c Hok; simpl; [by intros [= <-]|].
  destruct (try_upsert c o) as [r1 c1] eqn:E.
  destruct (try_upsert_cases _ _ _ _ Hok E) as (Hr & Hok1 & _ & _ & _ & Hage & _ & Hrv).
  destruct r1 as [[]|]; [| |done].
  - destruct Hr as [Hn Hm]. apply str_empty_false in Hn. rewrite Hn. intros H.
    destruct (IH _ Hok1 H) as (Hm' & Ha' & Hr'). simpl. by rewrite Hm', Hm, Ha', Hr'.
  - destruct Hr as [Hn ->]. apply str_empty_true in Hn. rewrite Hn. by apply IH.
Qed.

Lemma try_replace_all_cases c objects now r c' :
  labels_ok c -> try_replace_all c objects now = (r, c') ->
  labels_ok c' /\
  match r with
  | Ok _ => lc_by_name c' = insert_all (listed_entries objects) /\ lc_listed c' = true /\
            lc_fresh_at c' = Some now /\ lc_relist_pending c' = false /\ lc_debt_raised_at c' = None
  | Err _ => lc_by_name c' = ∅ /\ lc_listed c' = false
  end.
Proof.
  intros Hok. unfold try_replace_all. destruct (upsert_all _ _) as [r1 c1] eqn:E.
  pose proof (labels_ok_upsert_all _ _ _ _ (labels_ok_clear _ Hok) E) as Hok1.
  destruct r1 as [[]|e]; intros [= <- <-].
  - destruct (upsert_all_entries _ _ _ (labels_ok_clear _ Hok) E) as [Hm _]. split_and!; try done.
    apply (labels_ok_ext c1); try done. simpl. split; [by intros [] | done].
  - split_and!; try done. by apply labels_ok_clear.
Qed.

(** ** Every state a cache can be in *)

(** The public mutations of a cache, in any order. *)
Inductive labels_step : LabelCache -> LabelCache -> Prop :=
| step_upsert c o r c' : try_upsert c o = (r, c') -> labels_step c c'
| step_remove c namespace name : labels_step c (snd (labels_remove c namespace name))
| step_replace c objects now r c' : try_replace_all c objects now = (r, c') -> labels_step c c'
| step_event c ev now r c' : try_apply_labels_event c ev now = (r, c') -> labels_step c c'
| step_raise c now : labels_step c (labels_raise_relist_pending_at c now)
| step_rv c rv now : labels_step c (labels_set_resource_version c rv now)
| step_max_age c max_age : labels_step c (set_max_age c max_age)
| step_mark c at_ : labels_step c (mark_fresh_at c at_)
| step_take c : labels_step c (snd (take_overflow c)).

Lemma labels_ok_event c ev now r c' :
  labels_ok c -> try_apply_labels_event c ev now = (r, c') -> labels_ok c'.
Proof.
  intros Hok. destruct ev as [o|o|o|rv|m|m]; simpl.
  1,2: destruct (try_upsert c o) as [r1 c1] eqn:E; intros [= _ <-]; by apply (try_upsert_cases _ _ _ _ Hok E).
  - intros [= _ <-]. by apply labels_ok_remove.
  - intros [= _ <-]. by apply labels_ok_rv.
  - intros [= _ <-]. by apply labels_ok_raise.
  - by intros [= _ <-].
Qed.

Lemma labels_ok_step c c' : labels_step c c' -> labels_ok c -> labels_ok c'.
Proof.
  destruct 1; intros Hok.
  - by apply (try_upsert_cases _ _ _ _ Hok H).
  - by apply labels_ok_remove.
  - by apply (try_replace_all_cases _ _ _ _ _ Hok H).
  - by eapply labels_ok_event.
  - by apply labels_ok_raise.
  - by apply labels_ok_rv.
  - by apply (labels_ok_ext c); try done; apply (lok_debt c).
  - by apply (labels_ok_ext c); try done; apply (lok_debt c).
  - by apply (labels_ok_ext c); try done; apply (lok_debt c).
Qed.

(** whatever sequence of lists, watch events and deletions reaches a label cache,
    its counters are the truth and every ceiling holds: the byte counter is the sum of
    the labels held and at most 16 MiB, at most 20000 objects are held, none of them
    over 8 KiB, and a hold-down clock runs exactly while a relist is owed. An update
    past a ceiling is refused and changes no label; a list past a ceiling leaves the
    cache empty and cold rather than half-filled, and an accepted list replaces the
    labels by exactly the listed ones. *)
Lemma label_cache_bounded c :
  rtc labels_step label_cache_new c ->
  labels_ok c /\
  (forall object e c', try_upsert c object = (Err e, c') ->
     lc_by_name c' = lc_by_name c /\ is_Some (lc_overflow c')) /\
  (forall objects now r c', try_replace_all c objects now = (r, c') ->
     match r with
     | Ok _ => lc_by_name c' = insert_all (listed_entries objects) /\ is_warm_at c' now = (0 <=? lc_max_age c')
     | Err _ => lc_by_name c' = ∅ /\ forall at_, is_warm_at c' at_ = false
     end).
Proof.
  intros Hreach. assert (Hok : labels_ok c).
  { revert Hreach. generalize labels_ok_new. generalize label_cache_new. intros c0 H0 Hr.
    induction Hr as [|c1 c2 c3 Hs _ IH]; [done|]. by apply IH, (labels_ok_step c1). }
  split_and!; [done| |].
  - intros object e c' E. split; [apply (try_upsert_cases _ _ _ _ Hok E)|].
    revert E. unfold try_upsert, refuse_labels. repeat case_match; intros [= <- <-]; by eexists.
  - intros objects now r c' E. destruct (try_replace_all_cases _ _ _ _ _ Hok E) as (_ & Hr).
    destruct r.
    + destruct Hr as (Hm & Hl & Hf & Hp & _). split; [done|].
      unfold is_warm_at, age_at. rewrite Hl, Hp, Hf. simpl. f_equal. unfold since. lia.
    + destruct Hr as [Hm Hl]. split; [done|]. intros at_. unfold is_warm_at. by rewrite Hl.
Qed.

Definition prod_labels : LabelObject :=
  {| lo_namespace := ""; lo_name := "prod"; lo_labels := {["tier" := "gold"]}; lo_resource_version := "7" |}.

Lemma label_cache_witness :
  let c := snd (try_replace_all label_cache_new [prod_labels] 3) in
  rtc labels_step label_cache_new c /\ labels_ok c /\ labels_of c "" "prod" = Some {["tier" := "gold"]}.
Proof.
  assert (H : rtc labels_step label_cache_new (snd (try_replace_all label_cache_new [prod_labels] 3))).
  { apply rtc_once. eapply (step_replace _ [prod_labels] 3). apply surjective_pairing. }
  split_and!; [exact H | apply (label_cache_bounded _ H) | vm_compute; reflexivity].
Defined.
