(* ===== verification/Pods.v ===== *)
(** * Pods of the node, and the cgroup index

    [crates/ferrum-k8smeta/src/source.rs], [index.rs], [resolver.rs] and [lib.rs]: the
    cached pods of one node with the evidence that they are current, their snapshot
    joined with the label caches, and the map from a cgroup inode to the workload that
    runs in it. The pods of a [HashMap] come out in the order of [map_to_list]; nothing
    below depends on it. *)

From S2P Require Import Prelude RustStd RustText Ids Febp RuntimeEval Grant Cgroup Labels.

Definition POD_WATCH_BUDGET : Z := seconds (5 * 60).

Record ContainerRecord := {
  cr_name : string;
  cr_id : string;
  cr_image : string;
  cr_image_digest : string
}.

Record PodRecord := {
  pod_uid : string;
  pod_namespace : string;
  pod_name : string;
  pod_node_name : string;
  pod_service_account : string;
  pod_resource_version : string;
  pod_labels : gmap string string;
  pod_namespace_labels : gmap string string;
  pod_service_account_labels : gmap string string;
  pod_namespace_labels_observed : bool;
  pod_service_account_labels_observed : bool;
  pod_containers : list ContainerRecord
}.

Definition container_by_id (pod : PodRecord) (cgroup_container_id : list Z) : option ContainerRecord :=
  List.find (fun c => container_id_matches cgroup_container_id (as_bytes (cr_id c))) (pod_containers pod).

Definition identity (pod : PodRecord) (container : ContainerRecord) : WorkloadIdentity :=
  {| wi_namespace := pod_namespace pod; wi_pod := pod_name pod; wi_container := cr_name container;
     wi_service_account := pod_service_account pod; wi_cluster_labels := ∅;
     wi_namespace_labels := pod_namespace_labels pod; wi_workload_labels := pod_labels pod;
     wi_service_account_labels := pod_service_account_labels pod; wi_cluster_labels_observed := false;
     wi_namespace_labels_observed := pod_namespace_labels_observed pod;
     wi_service_account_labels_observed := pod_service_account_labels_observed pod;
     wi_image := cr_image container; wi_image_digest := cr_image_digest container |}.

(** ** The pod cache *)

Record PodCache := {
  pc_node_name : string;
  pc_pods : gmap string PodRecord;
  pc_resource_version : string;
  pc_namespaces : LabelCache;
  pc_service_accounts : LabelCache;
  pc_labels_unknown : Z;
  pc_last_applied : option Z;
  pc_relist_pending : bool;
  pc_debt_raised_at : option Z
}.

Definition pod_cache_new (node_name : string) : PodCache :=
  {| pc_node_name := node_name; pc_pods := ∅; pc_resource_version := ""; pc_namespaces := label_cache_new;
     pc_service_accounts := label_cache_new; pc_labels_unknown := 0; pc_last_applied := None;
     pc_relist_pending := false; pc_debt_raised_at := None |}.

(** The cache with its pods, and with its evidence, replaced. *)
Definition set_pods (c : PodCache) (pods : gmap string PodRecord) : PodCache :=
  {| pc_node_name := pc_node_name c; pc_pods := pods; pc_resource_version := pc_resource_version c;
     pc_namespaces := pc_namespaces c; pc_service_accounts := pc_service_accounts c;
     pc_labels_unknown := pc_labels_unknown c; pc_last_applied := pc_last_applied c;
     pc_relist_pending := pc_relist_pending c; pc_debt_raised_at := pc_debt_raised_at c |}.

Definition set_debt (c : PodCache) (pending : bool) (raised : option Z) : PodCache :=
  {| pc_node_name := pc_node_name c; pc_pods := pc_pods c; pc_resource_version := pc_resource_version c;
     pc_namespaces := pc_namespaces c; pc_service_accounts := pc_service_accounts c;
     pc_labels_unknown := pc_labels_unknown c; pc_last_applied := pc_last_applied c;
     pc_relist_pending := pending; pc_debt_raised_at := raised |}.

Definition mark_applied_at (c : PodCache) (at_ : Z) : PodCache :=
  {| pc_node_name := pc_node_name c; pc_pods := pc_pods c; pc_resource_version := pc_resource_version c;
     pc_namespaces := pc_namespaces c; pc_service_accounts := pc_service_accounts c;
     pc_labels_unknown := pc_labels_unknown c; pc_last_applied := Some at_;
     pc_relist_pending := pc_relist_pending c; pc_debt_raised_at := pc_debt_raised_at c |}.

Definition pods_raise_relist_pending_at (c : PodCache) (at_ : Z) : PodCache :=
  if negb (pc_relist_pending c) then set_debt c true (Some at_) else c.

Definition pods_relist_due_at (c : PodCache) (now : Z) : bool :=
  match pc_debt_raised_at c with Some at_ => RELIST_DEBT_HOLDDOWN <=? since now at_ | None => false end.

Definition applied_age_at (c : PodCache) (now : Z) : option Z := since now <$> pc_last_applied c.

Definition is_fresh_at (c : PodCache) (now : Z) : bool :=
  match applied_age_at c now with Some age => age <? POD_WATCH_BUDGET | None => false end.

Definition freshness (c : PodCache) (now : Z) : Result unit :=
  match applied_age_at c now with
  | None =>
      Err (Degraded [Lit "pod watch has not delivered a list yet: no cgroup can be matched to a pod"])
  | Some age =>
      if pc_relist_pending c then
        Err (Degraded [Lit "pod watch owes a relist that has not completed (410 Gone, or a frame this build could not read): the cached pods are known to be behind, and cgroups are not matched to pods off a cache with a hole in it"])
      else if POD_WATCH_BUDGET <=? age then
        Err (Degraded [Lit "pod watch frozen: last frame "; Span age; Lit " ago, past the "; Span POD_WATCH_BUDGET;
          Lit " budget; cgroups are not matched to pods off a cache of that age"])
      else Ok tt
  end.

Definition pods_set_resource_version (c : PodCache) (rv : string) : PodCache :=
  if str_empty rv then c else
  {| pc_node_name := pc_node_name c; pc_pods := pc_pods c; pc_resource_version := rv;
     pc_namespaces := pc_namespaces c; pc_service_accounts := pc_service_accounts c;
     pc_labels_unknown := pc_labels_unknown c; pc_last_applied := pc_last_applied c;
     pc_relist_pending := pc_relist_pending c; pc_debt_raised_at := pc_debt_raised_at c |}.

Definition owns (c : PodCache) (pod : PodRecord) : bool :=
  negb (str_empty (pod_uid pod))
  && (str_empty (pc_node_name c) || String.eqb (pod_node_name pod) (pc_node_name c)).

Definition pods_upsert (c : PodCache) (pod : PodRecord) : bool * PodCache :=
  if negb (owns c pod) then (false, set_pods c (delete (pod_uid pod) (pc_pods c)))
  else (true, set_pods c (<[pod_uid pod := pod]> (pc_pods c))).

Definition pods_remove (c : PodCache) (uid : string) : option PodRecord * PodCache :=
  (pc_pods c !! uid, set_pods c (delete uid (pc_pods c))).

Definition pods_replace_all (c : PodCache) (pods : list PodRecord) : PodCache :=
  set_debt (foldl (fun c' pod => snd (pods_upsert c' pod)) (set_pods c ∅) pods) false None.

(** ** The snapshot *)

(** The label maps of a pod record replaced by what a warm cache holds, or by nothing
    observed; [unknown] of the two were not observed. *)
Definition join_labels (namespaces service_accounts : option LabelCache) (pod : PodRecord) : PodRecord * Z :=
  let ns : option (gmap string string) := cache ← namespaces; labels_of cache "" (pod_namespace pod) in
  let sa : option (gmap string string) :=
    cache ← service_accounts; labels_of cache (pod_namespace pod) (pod_service_account pod) in
  ({| pod_uid := pod_uid pod; pod_namespace := pod_namespace pod; pod_name := pod_name pod;
      pod_node_name := pod_node_name pod; pod_service_account := pod_service_account pod;
      pod_resource_version := pod_resource_version pod; pod_labels := pod_labels pod;
      pod_namespace_labels := default ∅ ns; pod_service_account_labels := default ∅ sa;
      pod_namespace_labels_observed := bool_decide (is_Some ns);
      pod_service_account_labels_observed := bool_decide (is_Some sa);
      pod_containers := pod_containers pod |},
   (if ns is Some _ then 0 else 1) + (if sa is Some _ then 0 else 1)).

Definition when_warm (c : LabelCache) (now : Z) : option LabelCache :=
  if is_warm_at c now then Some c else None.

Definition add_unknown (c : PodCache) (n : Z) : PodCache :=
  {| pc_node_name := pc_node_name c; pc_pods := pc_pods c; pc_resource_version := pc_resource_version c;
     pc_namespaces := pc_namespaces c; pc_service_accounts := pc_service_accounts c;
     pc_labels_unknown := (pc_labels_unknown c + n) mod U64; pc_last_applied := pc_last_applied c;
     pc_relist_pending := pc_relist_pending c; pc_debt_raised_at := pc_debt_raised_at c |}.

(** What the cache says of its pods at [now]. *)
Definition joined (c : PodCache) (now : Z) (pod : PodRecord) : PodRecord * Z :=
  join_labels (when_warm (pc_namespaces c) now) (when_warm (pc_service_accounts c) now) pod.

Definition pods_snapshot (c : PodCache) (now : Z) : Result (list PodRecord) * PodCache :=
  match freshness c now with
  | Err e => (Err e, c)
  | Ok _ =>
      let rows := map (joined c now) (map snd (map_to_list (pc_pods c))) in
      (Ok (map fst rows), foldl add_unknown c (map snd rows))
  end.

(** [trait PodMetadataSource]: a source may count what it could not join. *)
Class PodMetadataSource (S : Type) : Type :=
  snapshot : S -> Z -> Result (list PodRecord) * S.

#[global] Instance records_source : PodMetadataSource (list PodRecord) := fun pods _ => (Ok pods, pods).
#[global] Instance cache_source : PodMetadataSource PodCache := pods_snapshot.

(** ** The index *)

(** [SharedCgroupIndex] and [CgroupIndex]: the map behind the lock; every reader sees
    the map before or after a whole write. *)
Notation CgroupIndex := (gmap Z WorkloadIdentity).

Definition index_insert (index : CgroupIndex) (inode : Z) (id : WorkloadIdentity) : CgroupIndex :=
  <[inode := id]> index.
Definition index_remove (index : CgroupIndex) (inode : Z) : option WorkloadIdentity * CgroupIndex :=
  (index !! inode, delete inode index).
Definition index_select (index : CgroupIndex) (keep : WorkloadIdentity -> bool) : gset Z :=
  dom (filter (fun kv : Z * WorkloadIdentity => keep kv.2 = true) index).
Definition lookup_cgroup (index : CgroupIndex) (inode : Z) : Result WorkloadIdentity :=
  match index !! inode with
  | Some id => Ok id
  | None => Err (Degraded [Lit "cgroup "; Num inode; Lit " not in cache"])
  end.

Record RefreshStats := {
  rs_scanned : Z;
  rs_resolved : Z;
  rs_unknown_pod : Z;
  rs_unknown_container : Z;
  rs_evicted : Z
}.

Inductive Resolution := UnknownPod | UnknownContainer | Resolved (id : WorkloadIdentity).

(** The three ways out of the loop body of [apply]. *)
Definition resolve_entry (by_uid : gmap string PodRecord) (entry : CgroupEntry) : Resolution :=
  match by_uid !! string_of_bytes (ce_pod_uid entry) with
  | None => UnknownPod
  | Some pod =>
      match container_by_id pod (ce_container_id entry) with
      | None => UnknownContainer
      | Some container => Resolved (identity pod container)
      end
  end.

Definition apply_entry (by_uid : gmap string PodRecord) (acc : CgroupIndex * RefreshStats) (entry : CgroupEntry)
    : CgroupIndex * RefreshStats :=
  let '(next, st) := acc in
  match resolve_entry by_uid entry with
  | UnknownPod =>
      (next, {| rs_scanned := rs_scanned st; rs_resolved := rs_resolved st;
                rs_unknown_pod := rs_unknown_pod st + 1; rs_unknown_container := rs_unknown_container st;
                rs_evicted := rs_evicted st |})
  | UnknownContainer =>
      (next, {| rs_scanned := rs_scanned st; rs_resolved := rs_resolved st;
                rs_unknown_pod := rs_unknown_pod st; rs_unknown_container := rs_unknown_container st + 1;
                rs_evicted := rs_evicted st |})
  | Resolved id =>
      (<[ce_inode entry := id]> next,
       {| rs_scanned := rs_scanned st; rs_resolved := rs_resolved st + 1;
          rs_unknown_pod := rs_unknown_pod st; rs_unknown_container := rs_unknown_container st;
          rs_evicted := rs_evicted st |})
  end.

Definition resolver_apply (index : CgroupIndex) (entries : list CgroupEntry) (pods : list PodRecord)
    : RefreshStats * CgroupIndex :=
  let by_uid := insert_all (map (fun p => (pod_uid p, p)) pods) in
  let stats := {| rs_scanned := len entries; rs_resolved := 0; rs_unknown_pod := 0;
                  rs_unknown_container := 0; rs_evicted := 0 |} in
  let '(next, st) := foldl (apply_entry by_uid) (∅, stats) entries in
  let before := Z.of_nat (size index) in
  ({| rs_scanned := rs_scanned st; rs_resolved := rs_resolved st; rs_unknown_pod := rs_unknown_pod st;
      rs_unknown_container := rs_unknown_container st;
      rs_evicted := Z.max 0 (before - rs_resolved st) |}, next).

Definition refresh `{CgroupFs} {S} `{PodMetadataSource S} (index : CgroupIndex) (root : path) (source : S) (now : Z)
    : Result RefreshStats * CgroupIndex * S :=
  match scan root with
  | Err e => (Err e, index, source)
  | Ok entries =>
      match snapshot source now with
      | (Err e, source') => (Err e, index, source')
      | (Ok pods, source') =>
          let '(stats, index') := resolver_apply index entries pods in (Ok stats, index', source')
      end
  end.

(** ** What the cache holds *)

(** Every pod is filed under its own uid and belongs to this node; a hold-down clock
    runs exactly while a relist is owed. *)
Record pods_ok (c : PodCache) : Prop := {
  pok_filed uid pod : pc_pods c !! uid = Some pod -> pod_uid pod = uid /\ owns c pod = true;
  pok_debt : is_Some (pc_debt_raised_at c) <-> pc_relist_pending c = true
}.

(** Only the node name, the pods and the debt matter. *)
Lemma pods_ok_ext c c' :
  pods_ok c -> pc_node_name c' = pc_node_name c -> pc_pods c' = pc_pods c ->
  pc_debt_raised_at c' = pc_debt_raised_at c -> pc_relist_pending c' = pc_relist_pending c -> pods_ok c'.
Proof.
  intros [H1 H2] E1 E2 E3 E4. constructor; rewrite ?E2, ?E3, ?E4; [|done].
  unfold owns in *. by rewrite E1.
Qed.

Lemma pods_ok_new node : pods_ok (pod_cache_new node).
Proof. constructor; simpl; [by intros uid pod ?%lookup_empty_Some | done]. Qed.

Lemma pods_ok_upsert c pod : pods_ok c -> pods_ok (snd (pods_upsert c pod)).
Proof.
  intros [H1 H2]. unfold pods_upsert. destruct (owns c pod) eqn:Ho; constructor; try done; simpl.
  - intros uid p [[<- <-]|[_ Hp]]%lookup_insert_Some; [done|]. by apply H1.
  - intros uid p [_ Hp]%lookup_delete_Some. by apply H1.
Qed.

Lemma pods_ok_remove c uid : pods_ok c -> pods_ok (snd (pods_remove c uid)).
Proof.
  intros [H1 H2]. constructor; [|done]. simpl. intros uid' p [_ Hp]%lookup_delete_Some. by apply H1.
Qed.

Lemma pods_ok_raise c at_ : pods_ok c -> pods_ok (pods_raise_relist_pending_at c at_).
Proof.
  intros H. unfold pods_raise_relist_pending_at. destruct (pc_relist_pending c); [done|].
  destruct H as [H1 H2]. by constructor.
Qed.

Lemma pods_ok_rv c rv : pods_ok c -> pods_ok (pods_set_resource_version c rv).
Proof.
  intros H. unfold pods_set_resource_version. destruct (str_empty rv); [done|]. by apply (pods_ok_ext c).
Qed.

Lemma pods_ok_replace c pods : pods_ok c -> pods_ok (pods_replace_all c pods).
Proof.
  intros H. unfold pods_replace_all. assert (H0 : pods_ok (set_pods c ∅)).
  { destruct H as [_ H]. constructor; simpl; [by intros uid pod ?%lookup_empty_Some | done]. }
  revert H0. generalize (set_pods c ∅). induction pods as [|pod pods IH]; intros c0 H0; simpl.
  - destruct H0 as [H1 _]. constructor; [exact H1|]. simpl. by split; [intros [] |].
  - by apply IH, pods_ok_upsert.
Qed.

Lemma upsert_frame c pod :
  pc_node_name (snd (pods_upsert c pod)) = pc_node_name c /\
  pc_namespaces (snd (pods_upsert c pod)) = pc_namespaces c /\
  pc_service_accounts (snd (pods_upsert c pod)) = pc_service_accounts c /\
  pc_last_applied (snd (pods_upsert c pod)) = pc_last_applied c /\
  pc_resource_version (snd (pods_upsert c pod)) = pc_resource_version c.
Proof. unfold pods_upsert. by destruct (owns c pod). Qed.

(** ** What a snapshot says *)

Lemma joined_uid c now pod : pod_uid (joined c now pod).1 = pod_uid pod.
Proof. done. Qed.

Lemma snapshot_ok c now pods c' :
  pods_snapshot c now = (Ok pods, c') ->
  freshness c now = Ok tt /\
  pods = map (fun pod => (joined c now pod).1) (map snd (map_to_list (pc_pods c))).
Proof.
  unfold pods_snapshot. destruct (freshness c now) as [[]|e]; [|done]. intros [= <- _].
  split; [done|]. by rewrite map_map.
Qed.

Lemma snapshot_frame c now r c' :
  pods_snapshot c now = (r, c') -> pc_pods c' = pc_pods c /\ pc_namespaces c' = pc_namespaces c.
Proof.
  unfold pods_snapshot. destruct (freshness c now); [|by intros [= _ <-]].
  cbv zeta. intros [= _ <-]. generalize (map snd (map (joined c now) (map snd (map_to_list (pc_pods c))))).
  intros l. revert c. induction l as [|n l IH]; intros c; [done|]. simpl.
  by destruct (IH (add_unknown c n)) as [-> ->].
Qed.

(** A map filled from pairs holds, under a key, the value of a pair with that key. *)
Lemma insert_all_lookup {V} (l : list (string * V)) k v :
  insert_all l !! k = Some v -> (k, v) ∈ l.
Proof.
  unfold insert_all. induction l as [|[k' v'] l IH] using rev_ind; [done|].
  rewrite foldl_app. simpl. rewrite elem_of_app, list_elem_of_singleton.
  intros [[-> ->]|[_ H]]%lookup_insert_Some; [by right | left; by apply IH].
Qed.

Lemma insert_all_unique {V} (l : list (string * V)) k v :
  (forall v', (k, v') ∈ l -> v' = v) -> (k, v) ∈ l -> insert_all l !! k = Some v.
Proof.
  unfold insert_all. induction l as [|[k' v'] l IH] using rev_ind; intros Hu Hin; [by apply not_elem_of_nil in Hin|].
  rewrite foldl_app. simpl. destruct (base.decide (k' = k)) as [->|Hne].
  - rewrite lookup_insert_eq. f_equal. apply Hu. rewrite elem_of_app, list_elem_of_singleton. by right.
  - rewrite lookup_insert_ne by done. apply IH.
    + intros v0 H0. apply Hu. rewrite elem_of_app. by left.
    + rewrite elem_of_app, list_elem_of_singleton in Hin. destruct Hin as [|[= -> ->]]; done.
Qed.

(** The table [apply] builds from a snapshot is the cache's pods, joined. *)
Lemma by_uid_of_cache c now pods c' :
  pods_ok c -> pods_snapshot c now = (Ok pods, c') ->
  forall uid, insert_all (map (fun p => (pod_uid p, p)) pods) !! uid
              = (fun pod => (joined c now pod).1) <$> pc_pods c !! uid.
Proof.
  intros [Hf _] Hs uid. apply snapshot_ok in Hs as [_ ->]. rewrite !map_map.
  assert (Hin : forall p, (uid, p) ∈ map (fun x => (pod_uid (joined c now (snd x)).1, (joined c now (snd x)).1))
                                        (map_to_list (pc_pods c))
                <-> exists pod, pc_pods c !! uid = Some pod /\ p = (joined c now pod).1).
  { intros p. rewrite list_elem_of_In, in_map_iff. split.
    - intros ([k pod] & [= Hk <-] & Hin%list_elem_of_In%elem_of_map_to_list). simpl in *.
      destruct (Hf _ _ Hin) as [<- _]. subst uid. by exists pod.
    - intros (pod & Hl & ->). exists (uid, pod). split.
      + simpl. f_equal. by apply (Hf uid pod).
      + by apply list_elem_of_In, elem_of_map_to_list. }
  destruct (pc_pods c !! uid) as [pod|] eqn:Hl; simpl.
  - apply insert_all_unique.
    + intros v' (pod' & Hpod & ->)%Hin. by injection Hpod as <-.
    + apply Hin. by exists pod.
  - destruct (insert_all _ !! uid) as [p|] eqn:He; [|done]. exfalso.
    apply insert_all_lookup, Hin in He as (pod & Hpod & _). congruence.
Qed.

(** ** What the index names *)

Lemma apply_entries_spec by_uid entries next st next' st' :
  foldl (apply_entry by_uid) (next, st) entries = (next', st') ->
  (forall inode id, next' !! inode = Some id ->
     next !! inode = Some id \/
     exists e, e ∈ entries /\ ce_inode e = inode /\ resolve_entry by_uid e = Resolved id) /\
  (forall inode, is_Some (next !! inode) -> is_Some (next' !! inode)) /\
  (forall e id, e ∈ entries -> resolve_entry by_uid e = Resolved id -> is_Some (next' !! ce_inode e)) /\
  rs_resolved st' + rs_unknown_pod st' + rs_unknown_container st'
    = rs_resolved st + rs_unknown_pod st + rs_unknown_container st + len entries /\
  rs_scanned st' = rs_scanned st /\ rs_evicted st' = rs_evicted st.
Proof.
  revert next st. induction entries as [|e entries IH]; intros next st; simpl.
  { intros [= <- <-]. split_and!; try done; [auto| by intros ? ? ?%not_elem_of_nil | unfold len; simpl; lia]. }
  rewrite len_cons. destruct (resolve_entry by_uid e) eqn:Hr; intros H;
    apply IH in H as (H1 & H2 & H3 & H4 & H5 & H6); split_and!; try done; simpl in *; try lia.
  all: try (intros inode id' Hl; destruct (H1 _ _ Hl) as [Hn|(e' & Hin & He)];
            [| right; exists e'; split; [by right | done]]).
  all: try (intros e' id' [->|Hin]%elem_of_cons Hres; [|by eapply H3]); try congruence.
  - by left.
  - by left.
  - apply lookup_insert_Some in Hn as [[<- <-]|[_ Hn]]; [right | by left].
    exists e. split; [by left | done].
  - intros inode Hn. apply H2. destruct (base.decide (ce_inode e = inode)) as [->|Hne].
    + rewrite lookup_insert_eq. by eexists.
    + by rewrite lookup_insert_ne.
  - apply H2. rewrite lookup_insert_eq. by eexists.
Qed.

(** A workload's labels as a cache saw them: observed only in a warm cache, and then
    exactly the cached ones. *)
Definition labels_from (cache : LabelCache) (now : Z) (namespace name : string)
    (observed : bool) (labels : gmap string string) : Prop :=
  if observed then is_warm_at cache now = true /\ labels_of cache namespace name = Some labels
  else labels = ∅.

(** [id] is the workload of the cgroup [e]: a container of a pod of this node, the pod
    named by the directory above the cgroup and the container by the cgroup itself. *)
Definition runs_in (c : PodCache) (now : Z) (e : CgroupEntry) (id : WorkloadIdentity) : Prop :=
  exists pod container,
    pc_pods c !! string_of_bytes (ce_pod_uid e) = Some pod /\ owns c pod = true /\
    container ∈ pod_containers pod /\
    container_id_matches (ce_container_id e) (as_bytes (cr_id container)) = true /\
    wi_namespace id = pod_namespace pod /\ wi_pod id = pod_name pod /\
    wi_container id = cr_name container /\ wi_service_account id = pod_service_account pod /\
    wi_image id = cr_image container /\ wi_image_digest id = cr_image_digest container /\
    wi_workload_labels id = pod_labels pod /\ wi_cluster_labels_observed id = false /\
    labels_from (pc_namespaces c) now "" (pod_namespace pod)
      (wi_namespace_labels_observed id) (wi_namespace_labels id) /\
    labels_from (pc_service_accounts c) now (pod_namespace pod) (pod_service_account pod)
      (wi_service_account_labels_observed id) (wi_service_account_labels id).

Lemma joined_from cache now namespace name :
  let ls : option (gmap string string) := c ← when_warm cache now; labels_of c namespace name in
  labels_from cache now namespace name (bool_decide (is_Some ls)) (default ∅ ls).
Proof.
  unfold when_warm. destruct (is_warm_at cache now) eqn:Hw; [|done]. simpl.
  by destruct (labels_of cache namespace name) eqn:E.
Qed.

Lemma resolved_runs_in c now pods c' e id :
  pods_ok c -> pods_snapshot c now = (Ok pods, c') ->
  resolve_entry (insert_all (map (fun p => (pod_uid p, p)) pods)) e = Resolved id -> runs_in c now e id.
Proof.
  intros Hok Hs. unfold resolve_entry. rewrite (by_uid_of_cache c now pods c' Hok Hs).
  destruct (pc_pods c !! _) as [pod|] eqn:Hl; [|done]. simpl.
  destruct (container_by_id _ _) as [container|] eqn:Hc; [|done]. intros [= <-].
  apply find_some in Hc as [Hin%list_elem_of_In Hm].
  exists pod, container. split_and!; try done; try apply joined_from. by eapply (pok_filed c).
Qed.

(** C21: a refresh answers only from a pod cache that holds a list, owes no relist and
    heard from the API server within five minutes; otherwise it is an error and the
    index keeps what it had. After an answer the index names exactly the container
    cgroups the scan found whose pod and container the cache knows: under each inode
    the workload of a cgroup with that inode, taken from a pod of this node whose uid
    is the one in the cgroup's path and from the container whose id is the cgroup's
    own, with namespace and service-account labels marked observed only when they come
    from a warm cache; nothing of the previous index survives, and every scanned cgroup
    is counted once. *)
Theorem index_names_only_live_containers `{CgroupFs} index root c now r index' c' :
  pods_ok c ->
  refresh index root c now = (r, index', c') ->
  match r with
  | Err _ => index' = index
  | Ok stats =>
      is_fresh_at c now = true /\ pc_relist_pending c = false /\
      (forall inode id, lookup_cgroup index' inode = Ok id ->
         exists e, container_cgroup root e /\ ce_inode e = inode /\ runs_in c now e id) /\
      (forall e, container_cgroup root e ->
         (exists pod, pc_pods c !! string_of_bytes (ce_pod_uid e) = Some pod /\
                      is_Some (container_by_id pod (ce_container_id e))) ->
         exists id, lookup_cgroup index' (ce_inode e) = Ok id) /\
      rs_resolved stats + rs_unknown_pod stats + rs_unknown_container stats = rs_scanned stats
  end.
Proof.
  intros Hok. unfold refresh, snapshot, cache_source. destruct (scan root) as [entries|] eqn:Hscan;
    [|by intros [= <- <- _]].
  destruct (pods_snapshot c now) as [[pods|e] c1] eqn:Hs; [|by intros [= <- <- _]].
  unfold resolver_apply. cbv zeta. destruct (foldl _ _ _) as [next st] eqn:Hf. intros [= <- <- <-].
  apply apply_entries_spec in Hf as (H1 & _ & H3 & H4 & H5 & _). simpl in *.
  destruct (snapshot_ok _ _ _ _ Hs) as [Hfresh _].
  assert (is_fresh_at c now = true /\ pc_relist_pending c = false) as [??].
  { revert Hfresh. unfold freshness, is_fresh_at. destruct (applied_age_at c now); [|done].
    destruct (pc_relist_pending c); [done|]. destruct (_ <=? _) eqn:E; [done|]. split; [lia|done]. }
  split_and!; try done.
  - intros inode id. unfold lookup_cgroup. destruct (next !! inode) as [id'|] eqn:Hl; [|done]. intros [= ->].
    destruct (H1 _ _ Hl) as [Hn|(e & Hin & Hi & Hr)]; [by apply lookup_empty_Some in Hn|].
    exists e. split_and!; [by apply (scan_entries root entries) | done | by eapply resolved_runs_in].
  - intros e He (pod & Hpod & container & Hc). apply (scan_entries root entries e Hscan) in He.
    unfold lookup_cgroup. edestruct (H3 e) as [id ->]; [done| |by exists id].
    unfold resolve_entry. rewrite (by_uid_of_cache c now pods c1 Hok Hs), Hpod. cbn [fmap option_fmap option_map].
    change (container_by_id (joined c now pod).1) with (container_by_id pod). by rewrite Hc.
  - lia.
Qed.

(** ** One pod, one cgroup *)

Definition web_pod : PodRecord :=
  {| pod_uid := "aabbccdd-0"; pod_namespace := "prod"; pod_name := "web"; pod_node_name := "node-a";
     pod_service_account := "web-sa"; pod_resource_version := "5"; pod_labels := {["app" := "web"]};
     pod_namespace_labels := ∅; pod_service_account_labels := ∅; pod_namespace_labels_observed := false;
     pod_service_account_labels_observed := false;
     pod_containers := [ {| cr_name := "app"; cr_id := "fedcba9876543210fedcba9876543210";
                            cr_image := "registry/app:1"; cr_image_digest := "sha256:aa" |} ] |}.

Definition web_cache : PodCache := mark_applied_at (pods_replace_all (pod_cache_new "node-a") [web_pod]) 0.

Lemma index_names_witness :
  let '(r, index', c') := refresh (H := small_tree) ∅ [] web_cache (seconds 1) in
  (match r with Ok stats => rs_resolved stats = 1 | Err _ => False end) /\
  (exists e, container_cgroup (Fs := small_tree) [] e /\ ce_inode e = 2 /\
     runs_in web_cache (seconds 1) e (identity web_pod {| cr_name := "app"; cr_id := "fedcba9876543210fedcba9876543210";
                            cr_image := "registry/app:1"; cr_image_digest := "sha256:aa" |})).
Proof.
  assert (Hok : pods_ok web_cache).
  { apply (pods_ok_ext (pods_replace_all (pod_cache_new "node-a") [web_pod])); try done.
    apply pods_ok_replace, pods_ok_new. }
  destruct (refresh (H := small_tree) ∅ [] web_cache (seconds 1)) as [[r index'] c'] eqn:E.
  pose proof (index_names_only_live_containers (H := small_tree) _ _ _ _ _ _ _ Hok E) as Hall.
  vm_compute in E. injection E as <- <- _. split; [done|].
  destruct Hall as (_ & _ & Hnames & _). by apply Hnames.
Defined.
