(* ===== verification/Watch.v ===== *)
(** * Watch frames and relist debt

    [crates/ferrum-k8smeta/src/watch.rs] and the stream functions of [labels.rs]:
    reading the lists and watch frames of the API server, and folding them into the
    caches. A function that is given an instant and also reads the clock has both:
    [now] is its argument, [clock] the reading. *)

From S2P Require Import Prelude RustStd RustText Ids Febp RuntimeEval Grant Json Cgroup Labels Pods.

Definition PodWatchEvent : Type := WatchEvent PodRecord.

(** ** Reading objects *)

(** [v.get(key).and_then(Value::as_str).unwrap_or_default()]. *)
Definition str_field (v : Json) (key : string) : string := default "" (value_get v key ≫= as_str).

(** [root.pointer("/metadata/resourceVersion")] as text. *)
Definition list_version (root : Json) : string :=
  default "" (pointer root ["metadata"; "resourceVersion"] ≫= as_str).

Definition image_digest (image_id : list Z) : list Z :=
  match rsplit_once_str (as_bytes "@") image_id with
  | Some (_, d) => d
  | None => if prefixb (as_bytes "sha256:") image_id then image_id else []
  end.

Definition normalize_runtime_id (raw : string) : string := string_of_bytes (strip_container_scheme (as_bytes raw)).

(** One element of [status.containerStatuses]: its name and the rest of its record. *)
Definition container_status (status : Json) : option (string * (string * string * string)) :=
  let cname := str_field status "name" in
  let id := match value_get status "containerID" ≫= as_str with
            | Some raw => normalize_runtime_id raw | None => "" end in
  let image := str_field status "image" in
  let digest := str_field status "imageID" in
  if negb (str_empty cname) && negb (str_empty id)
  then Some (cname, (id, image, string_of_bytes (image_digest (as_bytes digest)))) else None.

Definition parse_pod (object : Json) : option PodRecord :=
  meta ← value_get object "metadata";
  uid ← value_get meta "uid" ≫= as_str;
  name ← value_get meta "name" ≫= as_str;
  let namespace := str_field meta "namespace" in
  if str_empty uid || str_empty name || str_empty namespace then None else
  let spec := value_get object "spec" in
  let node_name := default "" (s ← spec; value_get s "nodeName" ≫= as_str) in
  let service_account :=
    default "default"
      ((s ← spec; match value_get s "serviceAccountName" with
                  | Some v => Some v
                  | None => value_get s "serviceAccount"
                  end) ≫= as_str) in
  let images :=
    match pointer object ["status"; "containerStatuses"] ≫= as_array with
    | Some l => insert_all (omap container_status l)
    | None => ∅
    end in
  Some {| pod_uid := uid; pod_namespace := namespace; pod_name := name; pod_node_name := node_name;
          pod_service_account := service_account; pod_resource_version := str_field meta "resourceVersion";
          pod_labels := string_map (value_get meta "labels"); pod_namespace_labels := ∅;
          pod_service_account_labels := ∅; pod_namespace_labels_observed := false;
          pod_service_account_labels_observed := false;
          pod_containers := map (fun '(n, (id, image, digest)) =>
            {| cr_name := n; cr_id := id; cr_image := image; cr_image_digest := digest |}) (btree_iter images) |}.

Definition parse_label_object (object : Json) : option LabelObject :=
  meta ← value_get object "metadata";
  name ← value_get meta "name" ≫= as_str;
  if str_empty name then None else
  Some {| lo_namespace := str_field meta "namespace"; lo_name := name;
          lo_labels := string_map (value_get meta "labels");
          lo_resource_version := str_field meta "resourceVersion" |}.

Definition watch_error (object : Json) : bool * string :=
  let code := default 0 (value_get object "code" ≫= as_i64) in
  let message := default "watch error" (value_get object "message" ≫= as_str) in
  ((code =? 410) || bool_decide (value_get object "reason" ≫= as_str = Some "Expired"), message).

(** ** Reading lists and frames *)

Section text.
Context `{JsonText}.

(** A list of the named kind: its version and the items the reader accepts. *)
Definition parse_list {O} (what kind : string) (read : Json -> option O) (bytes : list Z)
    : Result (string * list O) :=
  match json_of_bytes bytes with
  | Err e => Err (Degraded [Lit what; Lit " json: "; Str e])
  | Ok root =>
      let got := str_field root "kind" in
      if negb (str_eqb got kind) then Err (Degraded [Lit "expected "; Str kind; Lit " from apiserver, got "; Dbg got])
      else
        Ok (list_version root,
            match value_get root "items" ≫= as_array with Some items => omap read items | None => [] end)
  end.

Definition parse_pod_list (bytes : list Z) : Result (string * list PodRecord) :=
  parse_list "pod list" "PodList" parse_pod bytes.

Definition parse_labels_list (kind : string) (bytes : list Z) : Result (string * list LabelObject) :=
  parse_list kind kind parse_label_object bytes.

(** One frame: its type, and the object read by [read] or refused as [unusable]. *)
Definition parse_frame {O} (read : Json -> option O) (unusable : string) (line : list Z) : Result (WatchEvent O) :=
  match json_of_bytes line with
  | Err e => Err (Degraded [Lit "watch json: "; Str e])
  | Ok root =>
      let kind := str_field root "type" in
      let object := default JNull (value_get root "object") in
      if str_eqb kind "ADDED" || str_eqb kind "MODIFIED" || str_eqb kind "DELETED" then
        match read object with
        | None => Err (Degraded [Lit "watch "; Str kind; Lit unusable])
        | Some o => Ok (if str_eqb kind "ADDED" then Added o
                        else if str_eqb kind "MODIFIED" then Modified o else Deleted o)
        end
      else if str_eqb kind "BOOKMARK" then Ok (Bookmark (list_version object))
      else if str_eqb kind "ERROR" then
        let '(gone, message) := watch_error object in
        Ok (if gone then Gone message else Error message)
      else Err (Degraded [Lit "unknown watch type "; Str kind])
  end.

Definition parse_watch_event (line : list Z) : Result PodWatchEvent :=
  parse_frame parse_pod " object is not a usable Pod" line.

Definition parse_labels_watch_event (line : list Z) : Result LabelWatchEvent :=
  parse_frame parse_label_object " object has no metadata.name" line.

End text.

(** ** Folding a frame into a cache *)

Definition apply_watch_event (c : PodCache) (event : PodWatchEvent) (clock : Z) : WatchOutcome * PodCache :=
  let c := match event with Error _ => c | _ => mark_applied_at c clock end in
  match event with
  | Added pod | Modified pod =>
      let '(stored, c') := pods_upsert c pod in (if stored then Applied else Ignored, c')
  | Deleted pod => (Removed, snd (pods_remove c (pod_uid pod)))
  | Bookmark rv => (Ignored, pods_set_resource_version c rv)
  | Gone _ => (MustRelist, pods_raise_relist_pending_at c clock)
  | Error _ => (Ignored, c)
  end.

Definition event_resource_version (event : PodWatchEvent) : option string :=
  match event with
  | Bookmark rv => Some rv
  | Added p | Modified p | Deleted p =>
      if str_empty (pod_resource_version p) then None else Some (pod_resource_version p)
  | Gone _ | Error _ => None
  end.

(** [trait RelistDebt]. *)
Class RelistDebt (C : Type) : Type := {
  relist_pending : C -> bool;
  raise_relist_pending_at : C -> Z -> C;
  relist_due_at : C -> Z -> bool
}.

#[global] Instance pod_debt : RelistDebt PodCache := {
  relist_pending := pc_relist_pending;
  raise_relist_pending_at := pods_raise_relist_pending_at;
  relist_due_at := pods_relist_due_at
}.

#[global] Instance label_debt : RelistDebt LabelCache := {
  relist_pending := lc_relist_pending;
  raise_relist_pending_at := labels_raise_relist_pending_at;
  relist_due_at := labels_relist_due_at
}.

Section fold.
Context `{JsonText}.

(** The log line of the first unreadable frame of a debt is left out. *)
Definition note_unreadable_frame {C} `{RelistDebt C} (cache : C) (now : Z) : WatchOutcome * C :=
  (Ignored, raise_relist_pending_at cache now).

Definition relist_if_due {C} `{RelistDebt C} (cache : C) (now : Z) : option WatchOutcome :=
  if negb (relist_due_at cache now) then None else Some MustRelist.

Definition apply_watch_line_at (cache : PodCache) (line : list Z) (now clock : Z) : WatchOutcome * PodCache :=
  match relist_if_due cache now with
  | Some outcome => (outcome, cache)
  | None =>
      match parse_watch_event line with
      | Err _ => note_unreadable_frame cache now
      | Ok event =>
          let cache := match event_resource_version event with
                       | Some rv => pods_set_resource_version cache rv | None => cache end in
          apply_watch_event cache event clock
      end
  end.

Definition apply_labels_line_at (cache : LabelCache) (line : list Z) (now clock : Z)
    : Result WatchOutcome * LabelCache :=
  match relist_if_due cache now with
  | Some outcome => (Ok outcome, cache)
  | None =>
      match parse_labels_watch_event line with
      | Err _ => let '(outcome, cache') := note_unreadable_frame cache now in (Ok outcome, cache')
      | Ok event =>
          let cache := match label_event_resource_version event with
                       | Some rv => labels_set_resource_version cache rv clock | None => cache end in
          try_apply_labels_event cache event clock
      end
  end.

Definition blank (line : list Z) : bool := forallb is_ascii_whitespace line.

(** The loop of [apply_watch_stream_at]; [clock] is read anew for every line. *)
Fixpoint pod_lines (cache : PodCache) (outcome : WatchOutcome) (lines : list (list Z * Z)) (now : Z)
    : WatchOutcome * PodCache :=
  match lines with
  | [] => (outcome, cache)
  | (line, clock) :: lines' =>
      if blank line then pod_lines cache outcome lines' now
      else
        let '(outcome', cache') := apply_watch_line_at cache line now clock in
        if bool_decide (outcome' = MustRelist) then (outcome', cache') else pod_lines cache' outcome' lines' now
  end.

Definition apply_watch_stream_at (cache : PodCache) (body : list Z) (now : Z) (clocks : nat -> Z)
    : WatchOutcome * PodCache :=
  let lines := split_on 10 body in
  pod_lines cache Ignored (zip lines (map clocks (seq 0 (length lines)))) now.

Fixpoint label_lines (cache : LabelCache) (outcome : WatchOutcome) (lines : list (list Z * Z)) (now : Z)
    : Result WatchOutcome * LabelCache :=
  match lines with
  | [] => (Ok outcome, cache)
  | (line, clock) :: lines' =>
      if blank line then label_lines cache outcome lines' now
      else
        match apply_labels_line_at cache line now clock with
        | (Err e, cache') => (Err e, cache')
        | (Ok outcome', cache') =>
            if bool_decide (outcome' = MustRelist) then (Ok outcome', cache')
            else label_lines cache' outcome' lines' now
        end
  end.

Definition apply_labels_stream_at (cache : LabelCache) (body : list Z) (now : Z) (clocks : nat -> Z)
    : Result WatchOutcome * LabelCache :=
  let lines := split_on 10 body in
  label_lines cache Ignored (zip lines (map clocks (seq 0 (length lines)))) now.

(** ** One connection *)

(** A frame of a live stream: its bytes and the two clock readings it is folded at;
    [apply_watch_line] reads the clock, then the fold reads it again. *)
Record Frame := { fr_line : list Z; fr_now : Z; fr_clock : Z }.

(** What [ApiserverWatcher::relist] does with the body of a 200 answer. *)
Definition store_pod_list (cache : PodCache) (body : list Z) (clock : Z) : Result string * PodCache :=
  match parse_pod_list body with
  | Err e => (Err e, cache)
  | Ok (rv, pods) =>
      (Ok rv, mark_applied_at (pods_set_resource_version (pods_replace_all cache pods) rv) clock)
  end.

(** What [LabelStream::relist] does with it. *)
Definition store_label_list (kind : string) (cache : LabelCache) (body : list Z) (clock : Z)
    : Result string * LabelCache :=
  match parse_labels_list kind body with
  | Err e => (Err e, cache)
  | Ok (rv, objects) =>
      match try_replace_all cache objects clock with
      | (Err e, cache') => (Err e, cache')
      | (Ok _, cache') => (Ok rv, labels_set_resource_version cache' rv clock)
      end
  end.

(** The loop of [ApiserverWatcher::watch_once] over the frames of a 200 answer, until
    the server closes it. *)
Fixpoint watch_frames (cache : PodCache) (frames : list Frame) : WatchOutcome * PodCache :=
  match frames with
  | [] => (Applied, cache)
  | f :: frames' =>
      if blank (fr_line f) then watch_frames cache frames'
      else
        let '(outcome, cache') := apply_watch_line_at cache (fr_line f) (fr_now f) (fr_clock f) in
        if bool_decide (outcome = MustRelist) then (outcome, cache') else watch_frames cache' frames'
  end.

(** That of [LabelStream::watch_once]. *)
Fixpoint watch_label_frames (cache : LabelCache) (frames : list Frame) : Result WatchOutcome * LabelCache :=
  match frames with
  | [] => (Ok Applied, cache)
  | f :: frames' =>
      if blank (fr_line f) then watch_label_frames cache frames'
      else
        match apply_labels_line_at cache (fr_line f) (fr_now f) (fr_clock f) with
        | (Err e, cache') => (Err e, cache')
        | (Ok outcome, cache') =>
            if bool_decide (outcome = MustRelist) then (Ok outcome, cache') else watch_label_frames cache' frames'
        end
  end.
End fold.

(** ** The world the API server delivered *)

Definition is_gone {O} (ev : WatchEvent O) : bool := match ev with Gone _ => true | _ => false end.

(** A pod of the watched node ([""] watches all). *)
Definition on_node (node : string) (pod : PodRecord) : bool :=
  str_empty node || String.eqb (pod_node_name pod) node.

(** One event of the pod watch, on the pods of the node by uid. *)
Definition deliver_pod (node : string) (pods : gmap string PodRecord) (ev : PodWatchEvent) : gmap string PodRecord :=
  match ev with
  | Added p | Modified p =>
      if on_node node p then <[pod_uid p := p]> pods else delete (pod_uid p) pods
  | Deleted p => delete (pod_uid p) pods
  | Bookmark _ | Gone _ | Error _ => pods
  end.

(** One event of a label watch. *)
Definition deliver_labels (m : gmap string (gmap string string)) (ev : LabelWatchEvent)
    : gmap string (gmap string string) :=
  match ev with
  | Added o | Modified o => <[label_key (lo_namespace o) (lo_name o) := lo_labels o]> m
  | Deleted o => delete (label_key (lo_namespace o) (lo_name o)) m
  | Bookmark _ | Gone _ | Error _ => m
  end.

(** The events the non-blank frames carry, when every one of them can be read and
    none says that events were lost. *)
Inductive carries `{JsonText} {O} (parse : list Z -> Result (WatchEvent O)) : list Frame -> list (WatchEvent O) -> Prop :=
| carries_nil : carries parse [] []
| carries_blank f frames events :
    blank (fr_line f) = true -> carries parse frames events -> carries parse (f :: frames) events
| carries_event f ev frames events :
    blank (fr_line f) = false -> parse (fr_line f) = Ok ev -> is_gone ev = false ->
    carries parse frames events -> carries parse (f :: frames) (ev :: events).

Section facts.
Context `{JsonText}.

Lemma parsed_pod_named object p :
  parse_pod object = Some p -> pod_uid p <> "".
Proof.
  unfold parse_pod. destruct (value_get object "metadata") as [meta|]; [|done]. simpl.
  destruct (value_get meta "uid" ≫= as_str) as [uid|]; [|done]. simpl.
  destruct (value_get meta "name" ≫= as_str) as [name|]; [|done]. simpl.
  destruct (str_empty uid) eqn:E; [done|]. destruct (_ || _); [done|]. intros [= <-].
  by apply str_empty_false in E.
Qed.

Lemma parsed_object_named object o : parse_label_object object = Some o -> lo_name o <> "".
Proof.
  unfold parse_label_object. destruct (value_get object "metadata") as [meta|]; [|done]. simpl.
  destruct (value_get meta "name" ≫= as_str) as [name|]; [|done]. simpl.
  destruct (str_empty name) eqn:E; [done|]. intros [= <-]. by apply str_empty_false in E.
Qed.

(** A frame's object is one the reader accepted. *)
Lemma parse_frame_object {O} (read : Json -> option O) unusable line ev :
  parse_frame read unusable line = Ok ev ->
  match ev with Added o | Modified o | Deleted o => exists object, read object = Some o | _ => True end.
Proof.
  unfold parse_frame. destruct (json_of_bytes line) as [root|]; [|done]. cbv zeta.
  destruct (_ || _).
  - destruct (read _) as [o|] eqn:E; [|done]. intros [= <-].
    destruct (str_eqb _ "ADDED"); [by eexists|]. destruct (str_eqb _ "MODIFIED"); by eexists.
  - destruct (str_eqb _ "BOOKMARK"); [by intros [= <-]|]. destruct (str_eqb _ "ERROR"); [|done].
    destruct (watch_error _) as [gone message]. intros [= <-]. by destruct gone.
Qed.

(** ** One frame *)

Lemma rv_frame c rv :
  let c' := pods_set_resource_version c rv in
  pc_node_name c' = pc_node_name c /\ pc_pods c' = pc_pods c /\ pc_last_applied c' = pc_last_applied c /\
  pc_relist_pending c' = pc_relist_pending c /\ pc_debt_raised_at c' = pc_debt_raised_at c.
Proof. unfold pods_set_resource_version. by destruct (str_empty rv). Qed.

Lemma pods_ok_mark c at_ : pods_ok c -> pods_ok (mark_applied_at c at_).
Proof. intros H1. by apply (pods_ok_ext c). Qed.

(** What folding a readable event does: the pods follow the event, the debt stands, and
    only a gap in the stream raises one. *)
Lemma apply_event_cases c ev clock o c' :
  pods_ok c -> match ev with Added p | Modified p => pod_uid p <> "" | _ => True end ->
  apply_watch_event c ev clock = (o, c') ->
  pods_ok c' /\ pc_node_name c' = pc_node_name c /\
  pc_pods c' = deliver_pod (pc_node_name c) (pc_pods c) ev /\
  pc_debt_raised_at c' = (if is_gone ev then Some (default clock (pc_debt_raised_at c)) else pc_debt_raised_at c) /\
  (o = MustRelist <-> is_gone ev = true).
Proof.
  intros Hok Hu. assert (Hm : pods_ok (mark_applied_at c clock)) by by apply pods_ok_mark.
  unfold apply_watch_event. destruct ev as [p|p|p|rv|m|m]; cbn [deliver_pod is_gone].
  1,2: pose proof (pods_ok_upsert _ p Hm) as Hup; unfold pods_upsert in *; unfold owns, on_node in *;
    cbn [pc_node_name mark_applied_at] in *; apply str_empty_false in Hu; rewrite Hu in *; cbn [negb andb] in *;
    destruct (_ || _); intros [= <- <-]; done.
  - intros [= <- <-]. split_and!; try done.
    apply (pods_ok_remove (mark_applied_at c clock) (pod_uid p) Hm).
  - intros [= <- <-]. destruct (rv_frame (mark_applied_at c clock) rv) as (? & ? & ? & ? & ?).
    split_and!; try done. by apply pods_ok_rv.
  - intros [= <- <-]. split; [by apply pods_ok_raise|]. unfold pods_raise_relist_pending_at. simpl.
    destruct (pok_debt c Hok) as [Hd1 Hd2]. destruct (pc_relist_pending c).
    + destruct Hd2 as [t Ht]; [done|]. simpl. by rewrite Ht.
    + simpl. destruct (pc_debt_raised_at c) as [t|]; [|done]. discriminate Hd1. by eexists.
  - by intros [= <- <-].
Qed.

(** A frame against a debt: a due debt ends the stream and changes nothing; otherwise a
    debt already standing keeps its deadline whatever the frame holds. *)
Lemma pod_line_cases c line now clock o c' :
  pods_ok c -> apply_watch_line_at c line now clock = (o, c') ->
  pods_ok c' /\ pc_node_name c' = pc_node_name c /\
  (forall t, pc_debt_raised_at c = Some t -> pc_debt_raised_at c' = Some t) /\
  (pods_relist_due_at c now = true -> o = MustRelist /\ c' = c) /\
  (pc_debt_raised_at c' = None ->
     exists ev, parse_watch_event line = Ok ev /\ is_gone ev = false /\ o <> MustRelist /\
       pc_pods c' = deliver_pod (pc_node_name c) (pc_pods c) ev).
Proof.
  intros Hok. unfold apply_watch_line_at, relist_if_due. cbn [relist_due_at pod_debt].
  destruct (pods_relist_due_at c now) eqn:Hdue; cbn [negb].
  { intros [= <- <-]. split_and!; try done. intros Hn. unfold pods_relist_due_at in Hdue. by rewrite Hn in Hdue. }
  destruct (parse_watch_event line) as [ev|e] eqn:Hp.
  - set (c0 := match event_resource_version ev with Some rv => pods_set_resource_version c rv | None => c end).
    assert (Hc0 : pods_ok c0 /\ pc_node_name c0 = pc_node_name c /\ pc_pods c0 = pc_pods c /\
                  pc_debt_raised_at c0 = pc_debt_raised_at c).
    { unfold c0. destruct (event_resource_version ev) as [rv|]; [|done].
      destruct (rv_frame c rv) as (? & ? & _ & _ & ?). split; [by apply pods_ok_rv | done]. }
    destruct Hc0 as (Hok0 & Hnode & Hpods & Hdebt). intros He. apply apply_event_cases in He; [|done|].
    + destruct He as (Hok' & Hn' & Hp' & Hd' & Ho). rewrite Hnode, Hpods, Hdebt in *.
      split_and!; try done.
      * intros t Ht. rewrite Hd', Ht. by destruct (is_gone ev).
      * intros Hnone. exists ev. rewrite Hd' in Hnone. destruct (is_gone ev); [done|].
        split_and!; try done. intros Hm. by apply Ho in Hm.
    + apply parse_frame_object in Hp. destruct ev; try done; destruct Hp as [object Hr]; by eapply parsed_pod_named.
  - intros [= <- <-]. cbn [raise_relist_pending_at pod_debt].
    assert (Hd : forall t, pc_debt_raised_at c = Some t ->
      pc_debt_raised_at (pods_raise_relist_pending_at c now) = Some t).
    { intros t Ht. unfold pods_raise_relist_pending_at.
      rewrite (proj1 (pok_debt c Hok)); [done | by eexists]. }
    split_and!; try done; [by apply pods_ok_raise | | ].
    + unfold pods_raise_relist_pending_at. by destruct (negb _).
    + unfold pods_raise_relist_pending_at in *. destruct (pc_relist_pending c) eqn:Hpend; [|done].
      destruct (proj2 (pok_debt c Hok) Hpend) as [t Ht]. simpl. congruence.
Qed.

Lemma lrv_frame c rv clock :
  let c' := labels_set_resource_version c rv clock in
  lc_by_name c' = lc_by_name c /\ lc_relist_pending c' = lc_relist_pending c /\
  lc_debt_raised_at c' = lc_debt_raised_at c.
Proof. unfold labels_set_resource_version. by destruct (str_empty rv). Qed.

Lemma labels_raise_debt c now :
  labels_ok c ->
  lc_debt_raised_at (labels_raise_relist_pending_at c now) = Some (default now (lc_debt_raised_at c)) /\
  lc_by_name (labels_raise_relist_pending_at c now) = lc_by_name c.
Proof.
  intros Hok. destruct (lok_debt c Hok) as [Hd1 Hd2]. unfold labels_raise_relist_pending_at.
  destruct (lc_relist_pending c); simpl.
  - destruct Hd2 as [t Ht]; [done|]. by rewrite Ht.
  - destruct (lc_debt_raised_at c) as [t|]; [|done]. discriminate Hd1. by eexists.
Qed.

Lemma label_event_cases c ev clock r c' :
  labels_ok c -> match ev with Added o | Modified o => lo_name o <> "" | _ => True end ->
  try_apply_labels_event c ev clock = (r, c') ->
  labels_ok c' /\
  lc_debt_raised_at c' = (if is_gone ev then Some (default clock (lc_debt_raised_at c)) else lc_debt_raised_at c) /\
  match r with
  | Ok o => lc_by_name c' = deliver_labels (lc_by_name c) ev /\ (o = MustRelist <-> is_gone ev = true)
  | Err _ => lc_by_name c' = lc_by_name c
  end.
Proof.
  intros Hok Hu He. split; [by eapply labels_ok_event|]. revert He.
  destruct ev as [o|o|o|rv|m|m]; cbn [try_apply_labels_event deliver_labels is_gone].
  1,2: destruct (try_upsert c o) as [r1 c1] eqn:E;
    destruct (try_upsert_cases _ _ _ _ Hok E) as (Hr & _ & _ & _ & _ & _ & Hd & _);
    destruct r1 as [[]|]; intros [= <- <-]; split; try done; by destruct Hr.
  - intros [= <- <-]. unfold labels_remove. destruct (lc_by_name c !! _) eqn:El; [done|]. split; [done|].
    by rewrite delete_id.
  - intros [= <- <-]. by destruct (lrv_frame c rv clock) as (-> & _ & ->).
  - intros [= <- <-]. by destruct (labels_raise_debt c clock Hok) as [-> ->].
  - by intros [= <- <-].
Qed.

Lemma label_line_cases c line now clock r c' :
  labels_ok c -> apply_labels_line_at c line now clock = (r, c') ->
  labels_ok c' /\
  (forall t, lc_debt_raised_at c = Some t -> lc_debt_raised_at c' = Some t) /\
  (labels_relist_due_at c now = true -> r = Ok MustRelist /\ c' = c) /\
  (forall o, r = Ok o -> lc_debt_raised_at c' = None ->
     exists ev, parse_labels_watch_event line = Ok ev /\ is_gone ev = false /\ o <> MustRelist /\
       lc_by_name c' = deliver_labels (lc_by_name c) ev).
Proof.
  intros Hok. unfold apply_labels_line_at, relist_if_due. cbn [relist_due_at label_debt].
  destruct (labels_relist_due_at c now) eqn:Hdue; cbn [negb].
  { intros [= <- <-]. split_and!; try done. intros o _ Hn. unfold labels_relist_due_at in Hdue.
    by rewrite Hn in Hdue. }
  destruct (parse_labels_watch_event line) as [ev|e] eqn:Hp.
  - set (c0 := match label_event_resource_version ev with
               | Some rv => labels_set_resource_version c rv clock | None => c end).
    assert (Hc0 : labels_ok c0 /\ lc_by_name c0 = lc_by_name c /\ lc_debt_raised_at c0 = lc_debt_raised_at c).
    { unfold c0. destruct (label_event_resource_version ev) as [rv|]; [|done].
      destruct (lrv_frame c rv clock) as (? & _ & ?). split; [by apply labels_ok_rv | done]. }
    destruct Hc0 as (Hok0 & Hnames & Hdebt). intros He. apply label_event_cases in He; [|done|].
    + destruct He as (Hok' & Hd' & Hr). rewrite Hnames, Hdebt in *. split_and!; try done.
      * intros t Ht. rewrite Hd', Ht. by destruct (is_gone ev).
      * intros o -> Hnone. destruct Hr as [Hn' Ho]. exists ev. rewrite Hd' in Hnone.
        destruct (is_gone ev); [done|]. split_and!; try done. intros Hm. by apply Ho in Hm.
    + apply parse_frame_object in Hp. destruct ev; try done; destruct Hp as [object Hr]; by eapply parsed_object_named.
  - intros [= <- <-]. cbn [raise_relist_pending_at label_debt].
    destruct (labels_raise_debt c now Hok) as [Hd Hn]. rewrite Hd. split_and!; try done; [by apply labels_ok_raise|].
    by intros t ->.
Qed.

(** ** Whole streams *)

Lemma frames_debt_standing c t frames o c' :
  pods_ok c -> pc_debt_raised_at c = Some t -> watch_frames c frames = (o, c') ->
  pods_ok c' /\ pc_debt_raised_at c' = Some t /\
  ((exists f, f ∈ frames /\ blank (fr_line f) = false /\ t + RELIST_DEBT_HOLDDOWN <= fr_now f) -> o = MustRelist).
Proof.
  revert c. induction frames as [|f frames IH]; intros c Hok Hd; simpl.
  { intros [= <- <-]. split_and!; try done. by intros (f & ?%not_elem_of_nil & _). }
  destruct (blank (fr_line f)) eqn:Hb.
  { intros Hw. destruct (IH _ Hok Hd Hw) as (? & ? & Ho). split_and!; try done.
    intros (f' & [->|Hin]%elem_of_cons & Hb' & Hle); [congruence|]. apply Ho. by exists f'. }
  destruct (apply_watch_line_at _ _ _ _) as [o1 c1] eqn:E.
  destruct (pod_line_cases _ _ _ _ _ _ Hok E) as (Hok1 & _ & Hd1 & Hdue & _). specialize (Hd1 t Hd).
  case_bool_decide as Ho1; [by intros [= <- <-]|]. intros Hw. destruct (IH _ Hok1 Hd1 Hw) as (? & ? & Ho).
  split_and!; try done. intros (f' & [->|Hin]%elem_of_cons & Hb' & Hle); [|apply Ho; by exists f'].
  destruct Hdue as [-> _]; [|done]. unfold pods_relist_due_at. rewrite Hd. unfold since, RELIST_DEBT_HOLDDOWN in *. lia.
Qed.

Lemma label_frames_debt_standing c t frames r c' :
  labels_ok c -> lc_debt_raised_at c = Some t -> watch_label_frames c frames = (r, c') ->
  labels_ok c' /\ lc_debt_raised_at c' = Some t /\
  ((exists f, f ∈ frames /\ blank (fr_line f) = false /\ t + RELIST_DEBT_HOLDDOWN <= fr_now f) -> r <> Ok Applied).
Proof.
  revert c. induction frames as [|f frames IH]; intros c Hok Hd; simpl.
  { intros [= <- <-]. split_and!; try done. by intros (f & ?%not_elem_of_nil & _). }
  destruct (blank (fr_line f)) eqn:Hb.
  { intros Hw. destruct (IH _ Hok Hd Hw) as (? & ? & Ho). split_and!; try done.
    intros (f' & [->|Hin]%elem_of_cons & Hb' & Hle); [congruence|]. apply Ho. by exists f'. }
  destruct (apply_labels_line_at _ _ _ _) as [r1 c1] eqn:E.
  destruct (label_line_cases _ _ _ _ _ _ Hok E) as (Hok1 & Hd1 & Hdue & _). specialize (Hd1 t Hd).
  destruct r1 as [o1|e]; [|by intros [= <- <-]].
  case_bool_decide as Ho1; [subst o1; by intros [= <- <-]|].
  intros Hw. destruct (IH _ Hok1 Hd1 Hw) as (? & ? & Ho).
  split_and!; try done. intros (f' & [->|Hin]%elem_of_cons & Hb' & Hle); [|apply Ho; by exists f'].
  destruct Hdue as [[= ->] _]; [|done]. unfold labels_relist_due_at. rewrite Hd.
  unfold since, RELIST_DEBT_HOLDDOWN in *. lia.
Qed.

Lemma frames_world c frames o c' :
  pods_ok c -> watch_frames c frames = (o, c') -> pc_debt_raised_at c' = None ->
  o = Applied /\ exists events, carries parse_watch_event frames events /\
    pc_pods c' = foldl (deliver_pod (pc_node_name c)) (pc_pods c) events.
Proof.
  revert c. induction frames as [|f frames IH]; intros c Hok; simpl.
  { intros [= <- <-] _. split; [done|]. exists []. split; [constructor | done]. }
  destruct (blank (fr_line f)) eqn:Hb.
  { intros Hw Hd. destruct (IH _ Hok Hw Hd) as (-> & events & Hc & Hp). split; [done|].
    exists events. split; [by constructor | done]. }
  destruct (apply_watch_line_at _ _ _ _) as [o1 c1] eqn:E.
  destruct (pod_line_cases _ _ _ _ _ _ Hok E) as (Hok1 & Hnode & _ & _ & Hev).
  case_bool_decide as Ho1.
  { intros [= <- <-] Hd. destruct (Hev Hd) as (ev & _ & _ & Hne & _). done. }
  intros Hw Hd. destruct (pc_debt_raised_at c1) as [t|] eqn:Hd1.
  { destruct (frames_debt_standing _ _ _ _ _ Hok1 Hd1 Hw) as (_ & Hd2 & _). congruence. }
  destruct (Hev eq_refl) as (ev & Hparse & Hg & _ & Hp1).
  destruct (IH _ Hok1 Hw Hd) as (-> & events & Hc & Hp). split; [done|].
  exists (ev :: events). split; [by econstructor|]. simpl. by rewrite Hp, Hnode, Hp1.
Qed.

Lemma label_frames_world c frames o c' :
  labels_ok c -> watch_label_frames c frames = (Ok o, c') -> lc_debt_raised_at c' = None ->
  o = Applied /\ exists events, carries parse_labels_watch_event frames events /\
    lc_by_name c' = foldl deliver_labels (lc_by_name c) events.
Proof.
  revert c. induction frames as [|f frames IH]; intros c Hok; simpl.
  { intros [= <- <-] _. split; [done|]. exists []. split; [constructor | done]. }
  destruct (blank (fr_line f)) eqn:Hb.
  { intros Hw Hd. destruct (IH _ Hok Hw Hd) as (-> & events & Hc & Hp). split; [done|].
    exists events. split; [by constructor | done]. }
  destruct (apply_labels_line_at _ _ _ _) as [r1 c1] eqn:E.
  destruct (label_line_cases _ _ _ _ _ _ Hok E) as (Hok1 & _ & _ & Hev).
  destruct r1 as [o1|e]; [|done]. case_bool_decide as Ho1.
  { intros [= <- <-] Hd. destruct (Hev o1 eq_refl Hd) as (ev & _ & _ & Hne & _). done. }
  intros Hw Hd. destruct (lc_debt_raised_at c1) as [t|] eqn:Hd1.
  { destruct (label_frames_debt_standing _ _ _ _ _ Hok1 Hd1 Hw) as (_ & Hd2 & _). congruence. }
  destruct (Hev o1 eq_refl eq_refl) as (ev & Hparse & Hg & _ & Hp1).
  destruct (IH _ Hok1 Hw Hd) as (-> & events & Hc & Hp). split; [done|].
  exists (ev :: events). split; [by econstructor|]. simpl. by rewrite Hp, Hp1.
Qed.
End facts.

(** ** Lists *)

Section lists.
Context `{JsonText}.

Lemma parse_list_items {O} what kind (read : Json -> option O) bytes rv items :
  parse_list what kind read bytes = Ok (rv, items) -> Forall (fun o => exists object, read object = Some o) items.
Proof.
  unfold parse_list. destruct (json_of_bytes bytes) as [root|]; [|done]. cbv zeta.
  destruct (negb _); [done|]. intros [= _ <-]. destruct (value_get root "items" ≫= as_array) as [l|]; [|constructor].
  apply Forall_forall. intros o Hin. apply list_elem_of_omap in Hin as (object & _ & Hr). by exists object.
Qed.

Lemma upserts_world c pods :
  Forall (fun p => pod_uid p <> "") pods ->
  let c' := foldl (fun c' pod => snd (pods_upsert c' pod)) c pods in
  pc_node_name c' = pc_node_name c /\
  pc_pods c' = foldl (deliver_pod (pc_node_name c)) (pc_pods c) (map Added pods).
Proof.
  intros Hall. revert c. induction Hall as [|p pods Hp _ IH]; intros c; [done|]. simpl.
  destruct (IH (snd (pods_upsert c p))) as [-> ->]. unfold pods_upsert, owns, on_node.
  apply str_empty_false in Hp. rewrite Hp. cbn [negb andb]. by destruct (_ || _).
Qed.

Lemma store_pod_list_ok c body clock rv c' :
  pods_ok c -> store_pod_list c body clock = (Ok rv, c') ->
  pods_ok c' /\ pc_node_name c' = pc_node_name c /\ pc_debt_raised_at c' = None /\
  freshness c' clock = Ok tt /\
  exists pods, parse_pod_list body = Ok (rv, pods) /\
    pc_pods c' = foldl (deliver_pod (pc_node_name c)) ∅ (map Added pods).
Proof.
  intros Hok. unfold store_pod_list. destruct (parse_pod_list body) as [[rv' pods]|] eqn:Hp; [|done].
  intros [= <- <-]. destruct (rv_frame (pods_replace_all c pods) rv') as (Hn & Hpods & _ & Hpend & Hdebt).
  destruct (upserts_world (set_pods c ∅) pods) as [Hn2 Hp2].
  { apply parse_list_items in Hp. eapply Forall_impl; [exact Hp|]. intros p [object Hr]. by eapply parsed_pod_named. }
  split_and!.
  - apply pods_ok_mark, pods_ok_rv, pods_ok_replace, Hok.
  - etransitivity; [exact Hn | exact Hn2].
  - exact Hdebt.
  - assert (Hp' : pc_relist_pending (mark_applied_at (pods_set_resource_version (pods_replace_all c pods) rv') clock)
                  = false) by exact Hpend.
    unfold freshness. rewrite Hp'. unfold applied_age_at, since. cbn [pc_last_applied mark_applied_at fmap option_fmap option_map].
    by rewrite Z.sub_diag.
  - exists pods. split; [done|]. etransitivity; [exact Hpods | exact Hp2].
Qed.

Lemma listed_world m objects :
  Forall (fun o => lo_name o <> "") objects ->
  foldl (fun m kv => <[kv.1 := kv.2]> m) m (listed_entries objects) = foldl deliver_labels m (map Added objects).
Proof.
  intros Hall. revert m. induction Hall as [|o objects Ho _ IH]; intros m; [done|]. simpl.
  apply str_empty_false in Ho. rewrite Ho. simpl. by rewrite IH.
Qed.

Lemma store_label_list_ok kind c body clock rv c' :
  labels_ok c -> store_label_list kind c body clock = (Ok rv, c') ->
  labels_ok c' /\ lc_debt_raised_at c' = None /\ is_warm_at c' clock = (0 <=? lc_max_age c') /\
  exists objects, parse_labels_list kind body = Ok (rv, objects) /\
    lc_by_name c' = foldl deliver_labels ∅ (map Added objects).
Proof.
  intros Hok. unfold store_label_list. destruct (parse_labels_list kind body) as [[rv' objects]|] eqn:Hp; [|done].
  destruct (try_replace_all c objects clock) as [r1 c1] eqn:E.
  destruct (try_replace_all_cases _ _ _ _ _ Hok E) as (Hok1 & Hr). destruct r1; [|done].
  destruct Hr as (Hm & Hl & Hf & Hpend & Hd). intros [= <- <-].
  destruct (lrv_frame c1 rv' clock) as (Hm' & Hpend' & Hd'). split_and!.
  - by apply labels_ok_rv.
  - congruence.
  - unfold is_warm_at, age_at, labels_set_resource_version in *. destruct (str_empty rv'); simpl;
      rewrite Hl, Hpend, ?Hf; simpl; unfold since; f_equal; lia.
  - exists objects. split; [done|]. rewrite Hm', Hm. apply listed_world. apply parse_list_items in Hp.
    eapply Forall_impl; [exact Hp|]. intros o [object Ho]. by eapply parsed_object_named.
Qed.

Lemma frames_ok c frames o c' : pods_ok c -> watch_frames c frames = (o, c') -> pods_ok c'.
Proof.
  revert c. induction frames as [|f fs IH]; intros c Hok; simpl; [by intros [= _ <-]|].
  destruct (blank (fr_line f)); [by apply IH|]. destruct (apply_watch_line_at _ _ _ _) as [o1 c1] eqn:E.
  apply pod_line_cases in E as (Hok1 & _); [|done]. case_bool_decide; [by intros [= _ <-] | by apply IH].
Qed.

Lemma label_frames_ok c frames r c' : labels_ok c -> watch_label_frames c frames = (r, c') -> labels_ok c'.
Proof.
  revert c. induction frames as [|f fs IH]; intros c Hok; simpl; [by intros [= _ <-]|].
  destruct (blank (fr_line f)); [by apply IH|]. destruct (apply_labels_line_at _ _ _ _) as [r1 c1] eqn:E.
  apply label_line_cases in E as (Hok1 & _); [|done]. destruct r1; [|by intros [= _ <-]].
  case_bool_decide; [by intros [= _ <-] | by apply IH].
Qed.

Lemma fresh_no_debt c now : pods_ok c -> freshness c now = Ok tt -> pc_debt_raised_at c = None.
Proof.
  intros Hok. unfold freshness. destruct (applied_age_at c now); [|done].
  destruct (pc_relist_pending c) eqn:Hp; [done|]. intros _. destruct (pc_debt_raised_at c) eqn:Hd; [|done].
  enough (pc_relist_pending c = true) by congruence. apply (pok_debt c Hok). by eexists.
Qed.

Lemma warm_no_debt c now : labels_ok c -> is_warm_at c now = true -> lc_debt_raised_at c = None.
Proof.
  intros Hok. unfold is_warm_at. destruct (lc_relist_pending c) eqn:Hp; [by destruct (lc_listed c)|].
  intros _. destruct (lc_debt_raised_at c) eqn:Hd; [|done].
  enough (lc_relist_pending c = true) by congruence. apply (lok_debt c Hok). by eexists.
Qed.

(** a cache that answers is the world as delivered. When, after a list and any
    frames that follow it over any number of resumed connections, the pod cache
    answers a snapshot, every frame was readable and none said that events were lost,
    and the pods it names are exactly the listed pods of this node with every later
    event applied in order: a pod moved to another node or deleted is gone. The same
    holds for the labels of a label cache that is warm, unless it refused an update. *)
Lemma answering_cache_is_delivered_world c body t rv c1 frames o c2 now rows c3 :
  pods_ok c -> store_pod_list c body t = (Ok rv, c1) -> watch_frames c1 frames = (o, c2) ->
  pods_snapshot c2 now = (Ok rows, c3) ->
  (o = Applied /\ exists pods events, parse_pod_list body = Ok (rv, pods) /\
     carries parse_watch_event frames events /\
     pc_pods c2 = foldl (deliver_pod (pc_node_name c)) ∅ (map Added pods ++ events) /\
     rows = map (fun pod => (joined c2 now pod).1) (map snd (map_to_list (pc_pods c2)))) /\
  (forall kind l lbody lt lrv l1 lframes lo l2 lnow,
     labels_ok l -> store_label_list kind l lbody lt = (Ok lrv, l1) ->
     watch_label_frames l1 lframes = (Ok lo, l2) -> is_warm_at l2 lnow = true ->
     lo = Applied /\ exists objects events, parse_labels_list kind lbody = Ok (lrv, objects) /\
       carries parse_labels_watch_event lframes events /\
       lc_by_name l2 = foldl deliver_labels ∅ (map Added objects ++ events)).
Proof.
  intros Hok Hs Hw Hsnap. apply snapshot_ok in Hsnap as [Hf Hrows]. split.
  - destruct (store_pod_list_ok _ _ _ _ _ Hok Hs) as (Hok1 & Hn & Hd1 & _ & pods & Hp & Hpods).
    destruct (frames_world c1 frames o c2 Hok1 Hw) as (-> & events & Hc & Hw2).
    + eapply fresh_no_debt; [by eapply frames_ok | done].
    + split; [done|]. exists pods, events. split_and!; try done. by rewrite foldl_app, <- Hpods, Hw2, Hn.
  - intros kind l lbody lt lrv l1 lframes lo l2 lnow Hlok Hls Hlw Hwarm.
    destruct (store_label_list_ok _ _ _ _ _ _ Hlok Hls) as (Hlok1 & Hld & _ & objects & Hlp & Hlm).
    destruct (label_frames_world l1 lframes lo l2 Hlok1 Hlw) as (-> & events & Hc & Hw2).
    + eapply warm_no_debt; [by eapply label_frames_ok | done].
    + split; [done|]. exists objects, events. split_and!; try done. by rewrite foldl_app, <- Hlm.
Qed.

Lemma label_frames_outcome c frames o c' :
  watch_label_frames c frames = (Ok o, c') -> o = Applied \/ o = MustRelist.
Proof.
  revert c. induction frames as [|f fs IH]; intros c; simpl; [intros [= <- _]; by left|].
  destruct (blank (fr_line f)); [by apply IH|]. destruct (apply_labels_line_at _ _ _ _) as [[o1|e] c1]; [|done].
  case_bool_decide; [intros [= <- _]; by right | by apply IH].
Qed.

(** C24: a relist debt is paid. From the instant [t] the pod cache or a label cache owes
    a relist, whatever frames follow: the deadline never moves, the cache answers
    nothing (a snapshot is an error, labels are not warm), and the first frame that
    arrives five seconds or more after [t] ends the stream, readable or not, so the
    next list runs. A list that is stored clears the debt and the cache answers again. *)
Theorem relist_debt_is_paid c l t frames o c' r l' :
  pods_ok c -> labels_ok l -> pc_debt_raised_at c = Some t -> lc_debt_raised_at l = Some t ->
  watch_frames c frames = (o, c') -> watch_label_frames l frames = (r, l') ->
  (pc_debt_raised_at c' = Some t /\ lc_debt_raised_at l' = Some t /\
   forall now, (exists e, fst (pods_snapshot c' now) = Err e) /\ is_warm_at l' now = false) /\
  ((exists f, f ∈ frames /\ blank (fr_line f) = false /\ t + RELIST_DEBT_HOLDDOWN <= fr_now f) ->
     o = MustRelist /\ (r = Ok MustRelist \/ exists e, r = Err e)) /\
  (forall body clock rv c2, store_pod_list c' body clock = (Ok rv, c2) ->
     pc_debt_raised_at c2 = None /\ exists rows, fst (pods_snapshot c2 clock) = Ok rows) /\
  (forall kind body clock rv l2, store_label_list kind l' body clock = (Ok rv, l2) ->
     lc_debt_raised_at l2 = None /\ is_warm_at l2 clock = (0 <=? lc_max_age l2)).
Proof.
  intros Hok Hlok Hd Hld Hw Hlw.
  destruct (frames_debt_standing _ _ _ _ _ Hok Hd Hw) as (Hok' & Hd' & Hend).
  destruct (label_frames_debt_standing _ _ _ _ _ Hlok Hld Hlw) as (Hlok' & Hld' & Hlend).
  split_and!; try done.
  - intros now. split.
    + unfold pods_snapshot. destruct (freshness c' now) as [[]|e] eqn:Hf; [|by exists e].
      apply fresh_no_debt in Hf; [congruence | done].
    + destruct (is_warm_at l' now) eqn:Hw2; [|done]. apply warm_no_debt in Hw2; [congruence | done].
  - intros Hex. split; [by apply Hend|]. specialize (Hlend Hex). destruct r as [ro|e]; [left | right; by exists e].
    destruct ro; try done; by destruct (label_frames_outcome _ _ _ _ Hlw).
  - intros body clock rv c2 Hs. destruct (store_pod_list_ok _ _ _ _ _ Hok' Hs) as (_ & _ & ? & Hf & _).
    split; [done|]. unfold pods_snapshot. rewrite Hf. by eexists.
  - intros kind body clock rv l2 Hs. by destruct (store_label_list_ok _ _ _ _ _ _ Hlok' Hs) as (_ & ? & ? & _).
Qed.
End lists.

(** ** Worked inputs *)

(** A codec that knows five texts: a pod list, a namespace list, a frame of an unknown
    type, a bookmark and an oversized update. *)
Definition web_json : Json :=
  JObj [("metadata", JObj [("name", JStr "web"); ("namespace", JStr "prod"); ("uid", JStr "aabbccdd-0")]);
        ("spec", JObj [("nodeName", JStr "node-a")])].
Definition ns_json (labels : list (string * Json)) : Json :=
  JObj [("metadata", JObj [("labels", JObj labels); ("name", JStr "prod"); ("resourceVersion", JStr "9")])].
Definition long_value : string := string_of_bytes (repeat 97 8190).

#[local] Instance tiny_codec : JsonText := {
  json_of_bytes l :=
    match l with
    | [1] => Ok (JObj [("items", JArr [web_json]); ("kind", JStr "PodList")])
    | [2] => Ok (JObj [("items", JArr [ns_json [("tier", JStr "gold")]]); ("kind", JStr "NamespaceList")])
    | [3] => Ok (JObj [("object", JNull); ("type", JStr "PATCHED")])
    | [4] => Ok (JObj [("object", JNull); ("type", JStr "BOOKMARK")])
    | [5] => Ok (JObj [("object", ns_json [("tier", JStr long_value)]); ("type", JStr "MODIFIED")])
    | _ => Err "expected value"
    end;
  json_bytes _ := Err "not used"
}.

Definition at_second (line : list Z) (n : Z) : Frame :=
  {| fr_line := line; fr_now := seconds n; fr_clock := seconds n |}.

Definition listed_pods : PodCache := snd (store_pod_list (pod_cache_new "node-a") [1] 0).
Definition listed_labels : LabelCache := snd (store_label_list "NamespaceList" label_cache_new [2] 0).

Lemma listed_ok : pods_ok listed_pods /\ labels_ok listed_labels.
Proof.
  split.
  - eapply (store_pod_list_ok (pod_cache_new "node-a") [1] 0 ""); [apply pods_ok_new | vm_compute; reflexivity].
  - eapply (store_label_list_ok "NamespaceList" label_cache_new [2] 0 ""); [apply labels_ok_new | vm_compute; reflexivity].
Qed.

Lemma delivered_world_witness :
  exists rows c3, pods_snapshot (snd (watch_frames listed_pods [at_second [4] 1])) (seconds 2) = (Ok rows, c3) /\
  exists pods events, parse_pod_list [1] = Ok ("", pods) /\
    carries parse_watch_event [at_second [4] 1] events /\
    pc_pods (snd (watch_frames listed_pods [at_second [4] 1]))
      = foldl (deliver_pod "node-a") ∅ (map Added pods ++ events).
Proof.
  destruct (pods_snapshot (snd (watch_frames listed_pods [at_second [4] 1])) (seconds 2)) as [r c3] eqn:E.
  destruct r as [rows|e]; [|vm_compute in E; discriminate E]. exists rows, c3. split; [reflexivity|].
  edestruct (answering_cache_is_delivered_world (pod_cache_new "node-a") [1] 0 "" listed_pods
    [at_second [4] 1] Applied) as [(_ & pods & events & Hp & Hc & Hw & _) _];
    [apply pods_ok_new | vm_compute; reflexivity | apply surjective_pairing | exact E |].
  exists pods, events. split_and!; [exact Hp | exact Hc | exact Hw].
Defined.

Lemma relist_debt_witness :
  let c := pods_raise_relist_pending_at listed_pods 0 in
  let l := labels_raise_relist_pending_at listed_labels 0 in
  fst (watch_frames c [at_second [4] 3; at_second [3] 6]) = MustRelist /\
  fst (watch_label_frames l [at_second [4] 3; at_second [3] 6]) = Ok MustRelist.
Proof.
  destruct (relist_debt_is_paid (pods_raise_relist_pending_at listed_pods 0)
    (labels_raise_relist_pending_at listed_labels 0) 0 [at_second [4] 3; at_second [3] 6] _ _ _ _
    (pods_ok_raise _ 0 (proj1 listed_ok)) (labels_ok_raise _ 0 (proj2 listed_ok)) eq_refl eq_refl
    (surjective_pairing _) (surjective_pairing _)) as (_ & Hend & _).
  destruct Hend as [Ho Hr].
  - exists (at_second [3] 6). split_and!; [right; left | reflexivity | vm_compute; discriminate].
  - split; [exact Ho|]. vm_compute. reflexivity.
Defined.

(** The namespace's labels grow past the per-object ceiling a second after the list. *)
Definition refused_update : Result WatchOutcome * LabelCache :=
  apply_labels_line_at listed_labels [5] (seconds 1) (seconds 1).

(** An update past a ceiling is refused, yet the cache stays warm at the labels the
    object no longer has: the version and the freshness advance before the refusal,
    and no debt is raised until the reconnect lists again. *)
Lemma refused_update_stays_warm :
  is_ok (fst refused_update) = false /\ is_warm_at (snd refused_update) (seconds 1) = true /\
  lc_resource_version (snd refused_update) = "9" /\
  labels_of (snd refused_update) "" "prod" = Some {["tier" := "gold"]}.
Proof. split_and!; vm_compute; reflexivity. Qed.
