(* ===== verification/WatchedLabels.v ===== *)
(** * The label source of the watch

    [WatchedLabels] of [crates/ferrum-admission/src/labels.rs]: the webhook reads the
    label caches the watch fills; the node agent joins the same kind of cache into its
    pods. *)

From S2P Require Import Prelude RustStd Ids Api Policy Compiler Crypto Program Admit Journal Encoding Json.
From S2P Require Import Subject Review Grant Febp RuntimeEval Labels Pods.

Record WatchedLabels := {
  wl_namespaces : LabelCache;
  wl_service_accounts : LabelCache;
  wl_cluster : option (gmap string string)
}.

Definition cache_warmth (cache : LabelCache) (now : Z) : LabelWarmth :=
  if is_warm_at cache now then Warm
  else if negb (is_stale_at cache now) then Cold
  else if lc_relist_pending cache then RelistPending
  else Stale (default 0 (age_at cache now)).

(** Every method takes the read lock it needs; [now] is the clock of [warmth]. *)
Definition watched_source (w : WatchedLabels) (now : Z) : LabelSource :=
  {| src_namespace_labels ns := labels_of (wl_namespaces w) "" ns;
     src_service_account_labels ns sa := labels_of (wl_service_accounts w) ns sa;
     src_cluster_labels := wl_cluster w;
     src_warmth := worse_of (cache_warmth (wl_namespaces w) now) (cache_warmth (wl_service_accounts w) now) |}.

Lemma cache_warmth_warm cache now : is_warm (cache_warmth cache now) = is_warm_at cache now.
Proof. unfold cache_warmth. destruct (is_warm_at cache now); [done|]. by repeat case_match. Qed.

(** the two planes read one label cache alike. The webhook's source is warm exactly
    when both caches are; a warmth names its cause (a cache that never listed is cold,
    one that owes a relist says so, one past its age says the age, which is then over
    the budget); and where the source is warm, the namespace and service-account labels
    the webhook evaluates are, label for label, the ones the node agent joins into a
    pod of that namespace and account, observed or not alike. *)
Lemma planes_read_labels_alike w c now :
  wl_namespaces w = pc_namespaces c -> wl_service_accounts w = pc_service_accounts c ->
  is_warm (src_warmth (watched_source w now))
    = is_warm_at (pc_namespaces c) now && is_warm_at (pc_service_accounts c) now /\
  (forall cache, match cache_warmth cache now with
                 | Warm => is_warm_at cache now = true
                 | Cold => lc_listed cache = false
                 | RelistPending => lc_listed cache = true /\ lc_relist_pending cache = true
                 | Stale age => lc_listed cache = true /\ lc_relist_pending cache = false /\
                     (is_Some (lc_fresh_at cache) -> age_at cache now = Some age /\ lc_max_age cache < age)
                 end) /\
  (is_warm (src_warmth (watched_source w now)) = true ->
   forall pod,
     let seen := (joined c now pod).1 in
     src_namespace_labels (watched_source w now) (pod_namespace pod)
       = (if pod_namespace_labels_observed seen then Some (pod_namespace_labels seen) else None) /\
     src_service_account_labels (watched_source w now) (pod_namespace pod) (pod_service_account pod)
       = (if pod_service_account_labels_observed seen then Some (pod_service_account_labels seen) else None)).
Proof.
  intros Hn Hs. assert (Hw : is_warm (src_warmth (watched_source w now))
    = is_warm_at (pc_namespaces c) now && is_warm_at (pc_service_accounts c) now).
  { simpl. by rewrite worse_of_warm, !cache_warmth_warm, Hn, Hs. }
  split_and!; [done| |].
  - intros cache. unfold cache_warmth, is_stale_at. destruct (is_warm_at cache now) eqn:E; [done|].
    destruct (lc_listed cache) eqn:El; [|done]. simpl. destruct (lc_relist_pending cache) eqn:Ep; [done|].
    split_and!; try done. intros [t Ht]. revert E. unfold is_warm_at, age_at. rewrite El, Ep, Ht. simpl.
    intros E. split; [done | lia].
  - rewrite Hw. intros [Hwn Hws]%andb_true_iff pod. cbv zeta. unfold joined, join_labels, when_warm.
    rewrite Hwn, Hws. simpl. rewrite Hn, Hs. split; by destruct (labels_of _ _ _).
Qed.

Lemma planes_read_labels_witness :
  let l := snd (try_replace_all label_cache_new [prod_labels] 0) in
  let w := {| wl_namespaces := l; wl_service_accounts := l; wl_cluster := None |} in
  let c := {| pc_node_name := ""; pc_pods := ∅; pc_resource_version := ""; pc_namespaces := l;
              pc_service_accounts := l; pc_labels_unknown := 0; pc_last_applied := Some 0;
              pc_relist_pending := false; pc_debt_raised_at := None |} in
  is_warm (src_warmth (watched_source w (seconds 1))) = true /\
  src_namespace_labels (watched_source w (seconds 1)) (pod_namespace web_pod)
    = Some (pod_namespace_labels (joined c (seconds 1) web_pod).1).
Proof.
  intros l w c.
  destruct (planes_read_labels_alike w c (seconds 1) eq_refl eq_refl) as (_ & _ & Hall).
  assert (Hw : is_warm (src_warmth (watched_source w (seconds 1))) = true) by (vm_compute; reflexivity).
  split; [exact Hw|]. destruct (Hall Hw web_pod) as [Hn _]. rewrite Hn. vm_compute. reflexivity.
Defined.
