(* ===== verification/Respond.v ===== *)
(** * Reactions: whom the agent may signal

    [crates/ferrum-agent/src/respond.rs]: the reasons that refuse a reaction, the pid
    that goes into [kill(2)], and the check that a target still is in the cgroup that
    raised its record. [kill(2)], [/proc] and the inode of a path are parameters. *)

From S2P Require Import Prelude RustStd RustText Ids Cgroup.

Definition MAX_TGID : Z := Z.shiftl 1 22.
Definition HOST_PID_NS_INO : Z := 0xEFFFFFFC.

Definition REFUSE_ROLE : string := "respond role disabled".
Definition REFUSE_AGENT_SELF : string := "agent-self event: the agent does not kill itself".
Definition REFUSE_NOT_CONTAINER : string := "not a container process".
Definition REFUSE_UNKNOWN_IDENTITY : string := "unknown workload identity (cgroup not in cache)".
Definition REFUSE_LABELS_UNKNOWN : string :=
  "selector unresolved (label caches cold, relisting or held down): the policy's scope for this workload is unproven, so no signal is sent".
Definition REFUSE_TGID_ZERO : string := "tgid 0: no process to signal".
Definition REFUSE_TGID_INIT : string := "tgid 1: init is never a target".
Definition REFUSE_TGID_SELF : string := "tgid is this agent process".
Definition REFUSE_TGID_RANGE : string := "tgid outside the pid range: not a signalable process".
Definition REFUSE_ISOLATE : string := "isolate not implemented".
Definition REFUSE_DENY_NOT_ENFORCEABLE : string :=
  "tracepoint does not block a syscall: it has already run and been recorded; the enforceable reaction is kill, the blocking one is admission".
Definition REFUSE_NO_RESPONDER : string := "no responder wired: reaction backend not installed".
Definition REFUSE_STALE_TARGET : string := "tgid left the cgroup that raised the event: pid reuse, not the workload".
Definition REFUSE_TARGET_GONE : string := "target process is gone before the signal".
Definition REFUSE_TARGET_UNPROVABLE : string :=
  "stale-target guard cannot be computed on this node: nothing is proven about the target, and that is not evidence the target moved".

(** [i32::try_from] and [libc::pid_t::try_from] of a [u32]. *)
Definition fits_i32 (n : Z) : bool := n <? 2147483648.

(** [self_pid] is [std::process::id()]. *)
Definition refuse_reason (self_pid : Z) (respond_role : bool) (tgid : Z)
    (agent_self in_container identity_unknown scope_unproven : bool) : option string :=
  if negb respond_role then Some REFUSE_ROLE
  else if agent_self then Some REFUSE_AGENT_SELF
  else if negb in_container then Some REFUSE_NOT_CONTAINER
  else if identity_unknown then Some REFUSE_UNKNOWN_IDENTITY
  else if scope_unproven then Some REFUSE_LABELS_UNKNOWN
  else if tgid =? 0 then Some REFUSE_TGID_ZERO
  else if tgid =? 1 then Some REFUSE_TGID_INIT
  else if (MAX_TGID <=? tgid) || negb (fits_i32 tgid) then Some REFUSE_TGID_RANGE
  else if tgid =? self_pid then Some REFUSE_TGID_SELF
  else None.

(** ** The signal *)

Definition pid_of (tgid : Z) : Result Z :=
  if fits_i32 tgid && (1 <? tgid) && (tgid <? MAX_TGID) then Ok tgid
  else Err (Degraded [Lit "refusing kill: tgid "; Num tgid; Lit " is not a signalable pid"]).

(** [trait Responder], and whether the call reaches [kill(2)]. *)
Class Responder : Type := { respond_kill_with : Z -> Result unit }.

(** [SignalResponder]: [sys_kill pid] is the answer of [kill(pid, SIGKILL)], with the
    text of its error. *)
Definition signal_responder (sys_kill : Z -> result string unit) : Responder := {|
  respond_kill_with tgid :=
    pid ← pid_of tgid;
    match sys_kill pid with
    | Ok _ => Ok tt
    | Err e => Err (Degraded [Lit "kill("; Num tgid; Lit ", SIGKILL): "; Str e])
    end
|}.

Definition noop_responder : Responder := {|
  respond_kill_with _ := Err (Degraded [Lit "no responder configured"])
|}.

(** ** The target *)

(** [trait TargetCheck]. *)
Class TargetCheck : Type := {
  tc_cgroup_id : Z -> option Z;
  tc_unprovable : option msg
}.

Definition unified_cgroup_path (raw : list Z) : option (list Z) :=
  match omap (strip_prefix (as_bytes "0::")) (lines_of raw) with
  | [] => None
  | p :: _ => let p := trim_bytes p in if prefixb (as_bytes "/") p then Some p else None
  end.

(** [trim_start_matches('/')]. *)
Fixpoint trim_slashes (l : list Z) : list Z :=
  match l with 47 :: l' => trim_slashes l' | _ => l end.

(** [ProcCgroupCheck::with_proc_root]: [mountinfo] is the text of
    [<proc>/self/mountinfo], or the message of a failed read. *)
Definition proc_cgroup_root (mountinfo : result msg string) : result msg (list Z) :=
  match mountinfo with
  | Ok raw => match cgroup2_root_from_mountinfo raw with Ok root => Ok root | Err e => Err (error_to_string e) end
  | Err e => Err e
  end.

(** Its [TargetCheck]: [proc_cgroup tgid] is the text of [<proc>/<tgid>/cgroup], and
    [inode root rel] the inode of [root.join(rel)]. *)
Definition proc_cgroup_check (cgroup_root : result msg (list Z)) (proc_cgroup : Z -> option (list Z))
    (inode : list Z -> list Z -> option Z) : TargetCheck := {|
  tc_cgroup_id tgid :=
    match cgroup_root with
    | Err _ => None
    | Ok root => raw ← proc_cgroup tgid; rel ← unified_cgroup_path raw; inode root (trim_slashes rel)
    end;
  tc_unprovable := match cgroup_root with Err why => Some why | Ok _ => None end
|}.

(** [host_pid_namespace_at]: [target] is what [read_link] returned, as text. *)
Definition host_pid_namespace_at (target : option (list Z)) : bool :=
  match (text ← target; rest ← strip_prefix (as_bytes "pid:[") text;
         n ← strip_suffix (as_bytes "]") rest; parse_u64 n) with
  | Some ino => ino =? HOST_PID_NS_INO
  | None => false
  end.

(** ** What passes *)

(** A process that may be signalled: neither nothing, nor init, nor the agent, nor a
    number that [kill(2)] would take for a group. *)
Definition signalable (self_pid tgid : Z) : Prop := 1 < tgid < MAX_TGID /\ tgid <> self_pid.

Lemma refuse_none self_pid respond_role tgid agent_self in_container identity_unknown scope_unproven :
  0 <= tgid ->
  refuse_reason self_pid respond_role tgid agent_self in_container identity_unknown scope_unproven = None <->
  respond_role = true /\ agent_self = false /\ in_container = true /\ identity_unknown = false /\
  scope_unproven = false /\ signalable self_pid tgid.
Proof.
  intros Ht. unfold refuse_reason, signalable, fits_i32.
  assert (HM : MAX_TGID = 4194304) by done. rewrite HM.
  destruct respond_role, agent_self, in_container, identity_unknown, scope_unproven; cbn [negb];
    try (split; [done | naive_solver]).
  destruct (Z.eqb_spec tgid 0); [split; [done | intros; lia]|].
  destruct (Z.eqb_spec tgid 1); [split; [done | intros; lia]|].
  destruct ((4194304 <=? tgid) || negb (tgid <? 2147483648)) eqn:E.
  { split; [done|]. intros. exfalso. apply orb_true_iff in E as [E|E]; lia. }
  destruct (Z.eqb_spec tgid self_pid).
  - split; [done | intros; lia].
  - split; [|done]. intros _. apply orb_false_iff in E as [E1 E2]. split_and!; try done; lia.
Qed.

(** The responder signals the pid it was given, and only one that names one process. *)
Lemma signal_exact sys_kill tgid :
  0 <= tgid ->
  (1 < tgid < MAX_TGID ->
     is_ok (respond_kill_with (Responder := signal_responder sys_kill) tgid) = is_ok (sys_kill tgid)) /\
  (~ 1 < tgid < MAX_TGID ->
     forall sys_kill', respond_kill_with (Responder := signal_responder sys_kill') tgid
       = Err (Degraded [Lit "refusing kill: tgid "; Num tgid; Lit " is not a signalable pid"])).
Proof.
  intros Ht. assert (HM : MAX_TGID = 4194304) by done. rewrite HM. unfold signal_responder, pid_of, fits_i32.
  cbn [respond_kill_with]. rewrite HM. split.
  - intros [H1 H2]. destruct ((tgid <? 2147483648) && (1 <? tgid) && (tgid <? 4194304)) eqn:E; [|bool_hyps; lia].
    simpl. by destruct (sys_kill tgid).
  - intros Hn sys_kill'. destruct ((tgid <? 2147483648) && (1 <? tgid) && (tgid <? 4194304)) eqn:E; [|done].
    exfalso. apply andb_true_iff in E as [E E3]. apply andb_true_iff in E as [E1 E2]. lia.
Qed.
