(* ===== verification/Lkg.v ===== *)
(** * The last-known-good directory of the agent

    [persist_fsig] of [crates/ferrum-agent/src/lib.rs] with its helpers, and the reads
    of [source.rs] that find a snapshot again. The directory is its entries: files,
    symbolic links and snapshot directories of files. Every system call may fail; what
    a crash in the middle of one leaves is part of the model. *)

From S2P Require Import Prelude RustStd RustText Ids Api Policy Wire Encode Compiler Envelope Crypto.
From S2P Require Import Journal Encoding Json Bundle.

Definition KUBELET_DATA_DIR : string := "..data".

Inductive Node := NFile (bytes : list Z) | NLink (target : string) | NDir (entries : gmap string (list Z)).
Notation Dir := (gmap string Node).

(** ** Looking a path up *)

Inductive Lookup := LFile (bytes : list Z) | LDir | LMissing | LFailed.

(** The names of a path; empty ones and [.] are dropped. *)
Definition components (t : string) : list string :=
  map string_of_bytes
    (List.filter (fun c => negb (is_empty c) && negb (bool_decide (c = [46]))) (split_on 47 (as_bytes t))).

Definition absolute (t : string) : bool := prefixb [47] (as_bytes t).

(** Linux follows forty links and then fails. *)
Definition MAXSYMLINKS : nat := 40.

Section lookup.
(** What a path outside the directory holds. *)
Context (outside : string -> list string -> Lookup).

Fixpoint resolve (fuel : nat) (d : Dir) (p : list string) : Lookup :=
  match p with
  | [] => LDir
  | n :: rest =>
      match d !! n with
      | None => LMissing
      | Some (NFile b) => match rest with [] => LFile b | _ => LFailed end
      | Some (NDir es) =>
          match rest with
          | [] => LDir
          | [k] => match es !! k with Some b => LFile b | None => LMissing end
          | k :: _ => match es !! k with Some _ => LFailed | None => LMissing end
          end
      | Some (NLink t) =>
          match fuel with
          | O => LFailed
          | S fuel' => if absolute t then outside t rest else resolve fuel' d (components t ++ rest)
          end
      end
  end.

Definition exists_ (l : Lookup) : bool := match l with LFile _ | LDir => true | _ => false end.

(** [std::fs::read]. *)
Definition read_of (l : Lookup) : FileRead :=
  match l with LFile b => ReadOk b | LMissing => ReadNotFound | LDir => ReadFailed "EISDIR" | LFailed => ReadFailed "EIO" end.

(** [snapshot_dir(dir).join(key)], read. *)
Definition read_snapshot (d : Dir) (key : string) : FileRead :=
  match d !! KUBELET_DATA_DIR with
  | Some (NLink t) =>
      read_of (if absolute t then outside t [key] else resolve MAXSYMLINKS d (components t ++ [key]))
  | _ => read_of (resolve MAXSYMLINKS d [key])
  end.

(** The text of [snapshot_dir(dir)]; only messages use it. *)
Definition snapshot_dir (dir : string) (d : Dir) : string :=
  match d !! KUBELET_DATA_DIR with
  | Some (NLink t) => if absolute t then t else dir +:+ "/" +:+ t
  | _ => dir
  end.

(** [read_source_path] of a directory. *)
Definition read_lkg (dir : string) (d : Dir) : Result (list Z * option string) :=
  read_dir_snapshot (snapshot_dir dir d) (read_snapshot d BUNDLE_FSIG_KEY) (read_snapshot d BUNDLE_DIGEST_KEY).

Definition lkg_present (d : Dir) : bool :=
  exists_ (resolve MAXSYMLINKS d [BUNDLE_FSIG_KEY]) || exists_ (resolve MAXSYMLINKS d [BUNDLE_DIGEST_KEY])
  || exists_ (resolve MAXSYMLINKS d [KUBELET_DATA_DIR]).

Definition lkg_digest_on_disk (d : Dir) : option string :=
  match read_snapshot d BUNDLE_DIGEST_KEY with
  | ReadOk bytes =>
      hex ← from_utf8 bytes;
      if str_empty (trim hex) then None else Some (trim hex)
  | _ => None
  end.

(** ** System calls *)

Inductive Op :=
| Mkdir (name : string)
| Write (name key : string) (bytes : list Z)
| Unlink (name : string)
| Symlink (target name : string)
| Rename (from to : string)
| RemoveAll (name : string).

(** What the call does when it succeeds. *)
Definition effect (op : Op) (d : Dir) : result string Dir :=
  match op with
  | Mkdir n =>
      match d !! n with
      | None => Ok (<[n := NDir ∅]> d)
      | Some (NDir _) => Ok d
      | Some _ => Err "EEXIST"
      end
  | Write n k b =>
      match d !! n with Some (NDir es) => Ok (<[n := NDir (<[k := b]> es)]> d) | _ => Err "ENOENT" end
  | Unlink n =>
      match d !! n with
      | None => Err "ENOENT" | Some (NDir _) => Err "EISDIR" | Some _ => Ok (delete n d)
      end
  | Symlink t n => match d !! n with None => Ok (<[n := NLink t]> d) | Some _ => Err "EEXIST" end
  | Rename a b =>
      match d !! a, d !! b with
      | None, _ => Err "ENOENT"
      | Some (NDir _), Some (NDir _) => Err "ENOTEMPTY"
      | Some (NDir _), Some _ => Err "ENOTDIR"
      | Some _, Some (NDir _) => Err "EISDIR"
      | Some x, _ => Ok (<[b := x]> (delete a d))
      end
  | RemoveAll n => match d !! n with None => Err "ENOENT" | Some (NFile _) => Err "ENOTDIR" | Some _ => Ok (delete n d) end
  end.

(** The directory a write leaves after its first [n] bytes. *)
Definition torn_write (name key : string) (bytes : list Z) (d : Dir) (n : nat) : Dir :=
  match d !! name with
  | Some (NDir es) => <[name := NDir (<[key := take n bytes]> es)]> d
  | _ => d
  end.

(** The directories a removal passes through, its files going one by one. *)
Fixpoint emptying (d : Dir) (name : string) (keys : list string) (es : gmap string (list Z)) : list Dir :=
  match keys with
  | [] => []
  | k :: keys' => let es' := delete k es in <[name := NDir es']> d :: emptying d name keys' es'
  end.

(** The directories a call passes through before it returns. *)
Definition passes (op : Op) (d : Dir) : list Dir :=
  match op with
  | Write n k b => map (torn_write n k b d) (seq 0 (S (length b)))
  | RemoveAll n =>
      match d !! n with Some (NDir es) => emptying d n (map fst (map_to_list es)) es | _ => [] end
  | _ => []
  end.

(** A call that is made to fail leaves the directory as it was, or as one it passed
    through. *)
Definition failed (op : Op) (d : Dir) (n : nat) : Dir := default d (passes op d !! n).

(** ** A small monad: the directories passed through, the answer, the directory left *)

Definition io (A : Type) : Type := Dir -> list Dir * Result A * Dir.

Definition io_ret {A} (r : Result A) : io A := fun d => ([], r, d).
Definition io_bind {A B} (m : io A) (k : A -> io B) : io B := fun d =>
  let '(tr, r, d') := m d in
  match r with
  | Err e => (tr, Err e, d')
  | Ok a => let '(tr', r', d'') := k a d' in (tr ++ tr', r', d'')
  end.

(** [if let Err(err) = m { cleanup; return Err(err) }]. *)
Definition io_or_else {A} (m : io A) (cleanup : io unit) : io A := fun d =>
  let '(tr, r, d') := m d in
  match r with
  | Ok a => (tr, Ok a, d')
  | Err e => let '(tr', _, d'') := cleanup d' in (tr ++ tr', Err e, d'')
  end.

(** [let _ = m]. *)
Definition io_ignore (m : io unit) : io unit := fun d => let '(tr, _, d') := m d in (tr, Ok tt, d').

(** Which calls fail, with what error, and how far they get. *)
Context (fault : Op -> option (string * nat)).

Definition call (op : Op) (what : msg) : io unit := fun d =>
  let fail e d' := (passes op d ++ [d'], Err (Degraded (what ++ [Str e])), d') in
  match fault op with
  | Some (e, n) => fail e (failed op d n)
  | None =>
      match effect op d with
      | Ok d' => (passes op d ++ [d'], Ok tt, d')
      | Err e => fail e d
      end
  end.

(** ** Writing a snapshot *)

Definition write_snap (snap : string) (fsig : list Z) (digest : string) : io unit :=
  io_bind (call (Mkdir snap) [Lit "create LKG snap: "]) (fun _ =>
  io_bind (call (Write snap BUNDLE_FSIG_KEY fsig) [Lit "write LKG fsig: "]) (fun _ =>
  call (Write snap BUNDLE_DIGEST_KEY (as_bytes digest)) [Lit "write LKG digest: "])).

Definition tmp_name (link_name : string) : string := link_name +:+ ".tmp".

Definition atomic_symlink (link_name target : string) : io unit :=
  io_bind (io_ignore (call (Unlink (tmp_name link_name)) [])) (fun _ =>
  io_bind (call (Symlink target (tmp_name link_name)) [Lit "symlink LKG "; Str link_name; Lit ": "]) (fun _ =>
  call (Rename (tmp_name link_name) link_name) [Lit "rename LKG "; Str link_name; Lit ": "])).

Definition is_snap (n : string) : bool := starts_with n "..snap-".

(** The loop over the directory; [names] is its listing. *)
Fixpoint remove_names (names : list string) (keep_name : string) : io unit :=
  match names with
  | [] => io_ret (Ok tt)
  | n :: names' =>
      io_bind (if is_snap n && negb (str_eqb n keep_name) then io_ignore (call (RemoveAll n) []) else io_ret (Ok tt))
        (fun _ => remove_names names' keep_name)
  end.

(** [listed] is false when [read_dir] fails. *)
Definition remove_stale_snaps (listed : bool) (keep_name : string) : io unit := fun d =>
  if listed then remove_names (map fst (map_to_list d)) keep_name d else ([], Ok tt, d).

(** The calls of [persist_fsig], in order. *)
Definition replace_snapshot (listed : bool) (snap : string) (fsig : list Z) (digest : string) : io unit :=
  io_bind (io_or_else (write_snap snap fsig digest) (io_ignore (call (RemoveAll snap) []))) (fun _ =>
  io_bind (io_or_else (atomic_symlink KUBELET_DATA_DIR snap) (io_ignore (call (RemoveAll snap) []))) (fun _ =>
  io_bind (atomic_symlink BUNDLE_FSIG_KEY (KUBELET_DATA_DIR +:+ "/" +:+ BUNDLE_FSIG_KEY)) (fun _ =>
  io_bind (atomic_symlink BUNDLE_DIGEST_KEY (KUBELET_DATA_DIR +:+ "/" +:+ BUNDLE_DIGEST_KEY)) (fun _ =>
  remove_stale_snaps listed snap)))).

(** [persist_fsig] with a directory configured; [created] is the answer of
    [create_dir_all], [snap] the new name. *)
Definition persist_fsig (created : result string unit) (listed : bool) (snap : string)
    (fsig : list Z) (digest : string) : io unit := fun d =>
  match created with
  | Err e => ([], Err (Degraded [Lit "create LKG dir: "; Str e]), d)
  | Ok _ =>
      if bool_decide (lkg_digest_on_disk d = Some digest) then ([], Ok tt, d)
      else
        replace_snapshot listed snap fsig digest d
  end.
End lookup.

(** ** What a directory restores *)

(** A link target that is the name of an entry: a snapshot. *)
Definition snap_name (s : string) : Prop := is_snap s = true /\ components s = [s] /\ absolute s = false.

(** A bundle that can be read back: some bytes, and a digest in printable text. *)
Definition storable (fsig : list Z) (digest : string) : Prop :=
  fsig <> [] /\ str_ok digest /\ trim digest = digest /\ digest <> "".

Definition holds (d : Dir) (s : string) (fsig : list Z) (digest : string) : Prop :=
  d !! KUBELET_DATA_DIR = Some (NLink s) /\
  exists es, d !! s = Some (NDir es) /\ es !! BUNDLE_FSIG_KEY = Some fsig /\
    es !! BUNDLE_DIGEST_KEY = Some (as_bytes digest).

(** No snapshot was ever written. *)
Definition vacant (d : Dir) : Prop :=
  d !! KUBELET_DATA_DIR = None /\ d !! BUNDLE_FSIG_KEY = None /\ d !! BUNDLE_DIGEST_KEY = None.

Lemma read_holds outside d s fsig digest :
  snap_name s -> holds d s fsig digest ->
  read_snapshot outside d BUNDLE_FSIG_KEY = ReadOk fsig /\
  read_snapshot outside d BUNDLE_DIGEST_KEY = ReadOk (as_bytes digest).
Proof.
  intros (_ & Hc & Ha) (Hl & es & Hs & Hf & Hd). unfold read_snapshot. rewrite Hl, Ha, Hc.
  cbn [app resolve MAXSYMLINKS]. by rewrite Hs, Hf, Hd.
Qed.

Lemma read_lkg_holds outside dir d s fsig digest :
  snap_name s -> storable fsig digest -> holds d s fsig digest ->
  read_lkg outside dir d = Ok (fsig, Some digest).
Proof.
  intros Hs (Hne & Hu & Ht & Hd) Hh. unfold read_lkg.
  destruct (read_holds outside _ _ _ _ Hs Hh) as [-> ->]. unfold read_dir_snapshot, read_required.
  apply is_empty_false in Hne. rewrite Hne. cbn [mbind result_mbind].
  destruct (is_empty (as_bytes digest)) eqn:E.
  { apply is_empty_true in E. exfalso. apply Hd. rewrite <- (string_of_as_bytes digest), E. done. }
  cbn [mbind result_mbind]. unfold parse_dir_digest. rewrite from_utf8_as_bytes by done.
  cbn [ok_or mbind result_mbind].
  rewrite Ht. apply str_empty_false in Hd. by rewrite Hd.
Qed.

Lemma vacant_absent outside d : vacant d -> lkg_present outside d = false.
Proof.
  intros (H1 & H2 & H3). unfold lkg_present, MAXSYMLINKS. cbn [resolve]. by rewrite H1, H2, H3.
Qed.

(** ** Directories that agree outside some names *)

Definition agree (names : list string) (d d' : Dir) : Prop := forall n, n ∉ names -> d' !! n = d !! n.

Lemma agree_refl names d : agree names d d.
Proof. done. Qed.

Lemma agree_trans names d1 d2 d3 : agree names d1 d2 -> agree names d2 d3 -> agree names d1 d3.
Proof. intros H1 H2 n Hn. by rewrite H2, H1. Qed.

Lemma agree_weaken names names' d d' : names ⊆ names' -> agree names d d' -> agree names' d d'.
Proof. intros Hs H n Hn. apply H. set_solver. Qed.

Lemma agree_holds names d d' s fsig digest :
  agree names d d' -> KUBELET_DATA_DIR ∉ names -> s ∉ names -> holds d s fsig digest -> holds d' s fsig digest.
Proof. intros H H1 H2 (Hl & es & Hs & Hr). split; [by rewrite H|]. exists es. by rewrite H. Qed.

Lemma agree_vacant names d d' :
  agree names d d' -> KUBELET_DATA_DIR ∉ names -> BUNDLE_FSIG_KEY ∉ names -> BUNDLE_DIGEST_KEY ∉ names ->
  vacant d -> vacant d'.
Proof. intros H H1 H2 H3 (V1 & V2 & V3). split_and!; by rewrite H. Qed.

Definition touched (op : Op) : list string :=
  match op with
  | Mkdir n | Write n _ _ | Unlink n | Symlink _ n | RemoveAll n => [n]
  | Rename a b => [a; b]
  end.

Lemma agree_insert names d n x : n ∈ names -> agree names d (<[n := x]> d).
Proof. intros Hn m Hm. rewrite lookup_insert_ne; [done|]. intros ->. done. Qed.

Lemma agree_delete names d n : n ∈ names -> agree names d (delete n d).
Proof. intros Hn m Hm. rewrite lookup_delete_ne; [done|]. intros ->. done. Qed.

Lemma effect_agree op d d' : effect op d = Ok d' -> agree (touched op) d d'.
Proof.
  destruct op as [n|n k b|n|t n|a b|n]; cbn [effect touched].
  - destruct (d !! n) as [[]|]; intros [= <-]; try done. apply agree_insert. left.
  - destruct (d !! n) as [[]|]; intros [= <-]. apply agree_insert. left.
  - destruct (d !! n) as [[]|]; intros [= <-]; apply agree_delete; left.
  - destruct (d !! n); intros [= <-]. apply agree_insert. left.
  - destruct (d !! a) as [x|]; [|done]. intros H.
    assert (Hd : d' = <[b := x]> (delete a d)) by (destruct x, (d !! b) as [[]|]; congruence).
    rewrite Hd. eapply agree_trans; [apply (agree_delete _ _ a); left | apply agree_insert; right; left].
  - destruct (d !! n) as [[]|]; intros [= <-]; apply agree_delete; left.
Qed.

Lemma emptying_agree d n keys es : Forall (agree [n] d) (emptying d n keys es).
Proof.
  revert es. induction keys as [|k keys IH]; intros es; [constructor|]. simpl. constructor; [|apply IH].
  apply agree_insert. left.
Qed.

Lemma passes_agree op d : Forall (agree (touched op) d) (passes op d).
Proof.
  destruct op as [n|n k b|n|t n|a b|n]; cbn [passes touched]; try constructor.
  - unfold torn_write. destruct (d !! n) as [[]|]; try apply agree_refl. apply agree_insert. left.
  - apply Forall_map, Forall_forall. intros i _. unfold torn_write. destruct (d !! n) as [[]|]; try apply agree_refl.
    apply agree_insert. left.
  - destruct (d !! n) as [[]|]; try constructor. apply emptying_agree.
Qed.

Lemma failed_agree op d n : agree (touched op) d (failed op d n).
Proof.
  unfold failed. destruct (passes op d !! n) as [d'|] eqn:E; [|apply agree_refl]. simpl.
  apply list_elem_of_lookup_2 in E. pose proof (passes_agree op d) as H. rewrite Forall_forall in H. by apply H.
Qed.

(** ** Triples: every directory passed through satisfies [P] *)

Definition spec {A} (P : Dir -> Prop) (m : io A) (Q : Result A -> Dir -> Prop) (d : Dir) : Prop :=
  let '(tr, r, d') := m d in Forall P tr /\ Q r d'.

Lemma spec_weaken {A} (P P' : Dir -> Prop) (m : io A) (Q Q' : Result A -> Dir -> Prop) d :
  spec P m Q d -> (forall x, P x -> P' x) -> (forall r x, Q r x -> Q' r x) -> spec P' m Q' d.
Proof.
  unfold spec. destruct (m d) as [[tr r] d']. intros [H1 H2] HP HQ. split; [|by apply HQ].
  eapply Forall_impl; [exact H1 | done].
Qed.

Lemma spec_bind {A B} P (m : io A) (k : A -> io B) R Q d :
  spec P m R d -> (forall a x, R (Ok a) x -> spec P (k a) Q x) -> (forall e x, R (Err e) x -> Q (Err e) x) ->
  spec P (io_bind m k) Q d.
Proof.
  unfold spec, io_bind. destruct (m d) as [[tr r] d']. intros [H1 H2] Hk He. destruct r as [a|e].
  - specialize (Hk a d' H2). destruct (k a d') as [[tr' r'] d'']. destruct Hk. split; [by apply Forall_app | done].
  - split; [done | by apply He].
Qed.

Lemma spec_or_else {A} P (m : io A) cleanup R Q d :
  spec P m R d -> (forall a x, R (Ok a) x -> Q (Ok a) x) ->
  (forall e x, R (Err e) x -> spec P cleanup (fun _ y => Q (Err e) y) x) ->
  spec P (io_or_else m cleanup) Q d.
Proof.
  unfold spec, io_or_else. destruct (m d) as [[tr r] d']. intros [H1 H2] Ha He. destruct r as [a|e].
  - split; [done | by apply Ha].
  - specialize (He e d' H2). destruct (cleanup d') as [[tr' r'] d'']. destruct He. split; [by apply Forall_app | done].
Qed.

Lemma spec_ignore P (m : io unit) R Q d :
  spec P m R d -> (forall r x, R r x -> Q (Ok tt) x) -> spec P (io_ignore m) Q d.
Proof.
  unfold spec, io_ignore. destruct (m d) as [[tr r] d']. intros [H1 H2] HQ. split; [done | by eapply HQ].
Qed.

(** A call changes only the names it touches; its answer says what it did. *)
Lemma spec_call fault op what d :
  spec (agree (touched op) d) (call fault op what)
    (fun r x => agree (touched op) d x /\ match r with Ok _ => effect op d = Ok x | Err _ => True end) d.
Proof.
  unfold spec, call. destruct (fault op) as [[e n]|].
  - split; [|split; [apply failed_agree | done]].
    apply Forall_app. split; [apply passes_agree | repeat constructor; apply failed_agree].
  - destruct (effect op d) as [d'|e] eqn:E.
    + pose proof (effect_agree _ _ _ E) as Ha. split; [|done]. apply Forall_app. split; [apply passes_agree|].
      by repeat constructor.
    + split; [|done]. apply Forall_app. split; [apply passes_agree | repeat constructor; apply agree_refl].
Qed.

(** A call that passes through nothing does all of its work or none. *)
Lemma spec_call_atomic fault op what d :
  (forall x, passes op x = []) ->
  spec (fun x => x = d \/ effect op d = Ok x) (call fault op what)
    (fun r x => match r with Ok _ => effect op d = Ok x | Err _ => x = d end) d.
Proof.
  intros Hp. unfold spec, call, failed. rewrite Hp. destruct (fault op) as [[e n]|].
  - split; [apply Forall_singleton; auto | done].
  - destruct (effect op d) as [d'|e] eqn:E; (split; [apply Forall_singleton; auto | done]).
Qed.

Lemma spec_call_in fault op what N d x :
  touched op ⊆ N -> agree N d x ->
  spec (agree N d) (call fault op what)
    (fun r y => agree N d y /\ match r with Ok _ => effect op x = Ok y | Err _ => True end) x.
Proof.
  intros Ht Hx. eapply spec_weaken; [apply spec_call | | ].
  - intros y Hy. eapply agree_trans; [exact Hx | by eapply agree_weaken].
  - intros r y [Hy Hr]. split; [|done]. eapply agree_trans; [exact Hx | by eapply agree_weaken].
Qed.

Lemma write_snap_spec fault snap fsig digest N d :
  snap ∈ N ->
  spec (agree N d) (write_snap fault snap fsig digest)
    (fun r x => agree N d x /\
       match r with
       | Ok _ => exists es, x !! snap = Some (NDir es) /\ es !! BUNDLE_FSIG_KEY = Some fsig /\
                   es !! BUNDLE_DIGEST_KEY = Some (as_bytes digest)
       | Err _ => True
       end) d.
Proof.
  intros Hn. assert (Hin : [snap] ⊆ N) by set_solver. unfold write_snap.
  eapply spec_bind; [apply (spec_call_in fault (Mkdir snap) _ N d d Hin (agree_refl _ _)) | |]; simpl; [|by intros e x []].
  intros _ x1 [H1 E1]. eapply spec_bind; [apply (spec_call_in fault (Write snap _ _) _ N d x1 Hin H1) | |]; simpl;
    [|by intros e x []].
  intros _ x2 [H2 E2]. eapply spec_weaken; [apply (spec_call_in fault (Write snap _ _) _ N d x2 Hin H2) | done |].
  intros r x3 [H3 E3]. split; [done|]. destruct r; [|done]. simpl in E3.
  destruct (x1 !! snap) as [[| |es]|]; try discriminate E2. injection E2 as <-.
  rewrite lookup_insert_eq in E3. injection E3 as <-. rewrite lookup_insert_eq. eexists. split; [done|].
  rewrite lookup_insert_eq, lookup_insert_ne by done. by rewrite lookup_insert_eq.
Qed.

(** A link is replaced in one step: until then only its temporary name changed. *)
Definition swapped (link target : string) (d x : Dir) : Prop :=
  agree [tmp_name link; link] d x /\ x !! link = Some (NLink target).

Lemma atomic_symlink_spec fault link target d :
  spec (fun x => agree [tmp_name link] d x \/ swapped link target d x) (atomic_symlink fault link target)
    (fun r x => match r with Ok _ => swapped link target d x | Err _ => agree [tmp_name link] d x end) d.
Proof.
  set (T := tmp_name link). unfold atomic_symlink. fold T.
  assert (Hone : forall op x, touched op = [T] -> agree [T] d x -> (forall y, passes op y = []) ->
    forall what, spec (fun y => agree [T] d y \/ swapped link target d y) (call fault op what)
      (fun r y => agree [T] d y /\ match r with Ok _ => effect op x = Ok y | Err _ => y = x end) x).
  { intros op x Ht Hx Hp what.
    assert (He : forall y, effect op x = Ok y -> agree [T] d y).
    { intros y Hy. apply effect_agree in Hy. rewrite Ht in Hy. by eapply agree_trans. }
    eapply spec_weaken; [by apply (spec_call_atomic fault op what x) | |].
    - intros y [->|Hy]; left; [done | by apply He].
    - intros r y. destruct r; [intros Hy; split; [by apply He | done] | by intros ->]. }
  eapply spec_bind; [eapply spec_ignore; [apply (Hone (Unlink T)); done|] | |].
  { intros r x [Hx _]. exact (conj Hx I : (fun (_ : Result unit) y => agree [T] d y /\ True) (Ok tt) x). }
  2: { by intros e x []. }
  intros _ x1 [H1 _]. eapply spec_bind; [by apply (Hone (Symlink target T)) | | by intros e x []].
  intros _ x2 [H2 E2]. assert (HT : x2 !! T = Some (NLink target)).
  { simpl in E2. destruct (x1 !! T); [done|]. injection E2 as <-. by rewrite lookup_insert_eq. }
  assert (Hren : forall y, effect (Rename T link) x2 = Ok y -> swapped link target d y).
  { intros y Hy. split.
    - eapply agree_trans; [eapply agree_weaken; [|exact H2]; set_solver | by apply effect_agree in Hy].
    - simpl in Hy. rewrite HT in Hy. assert (y = <[link := NLink target]> (delete T x2)) as ->.
      { destruct (x2 !! link) as [[]|]; congruence. }
      by rewrite lookup_insert_eq. }
  eapply spec_weaken; [by apply (spec_call_atomic fault (Rename T link)) | |].
  - intros y [->|Hy]; [by left | right; by apply Hren].
  - intros r y. destruct r; [by apply Hren | by intros ->].
Qed.

(** ** The swap *)

(** A snapshot's name is none of the names the swap links. *)
Lemma snap_name_ne s n : is_snap s = true -> is_snap n = false -> s <> n.
Proof. congruence. Qed.

Lemma snap_not_linked s :
  is_snap s = true ->
  s ∉ [tmp_name KUBELET_DATA_DIR; KUBELET_DATA_DIR] /\ s ∉ [tmp_name BUNDLE_FSIG_KEY; BUNDLE_FSIG_KEY] /\
  s ∉ [tmp_name BUNDLE_DIGEST_KEY; BUNDLE_DIGEST_KEY].
Proof.
  intros Hs. rewrite !not_elem_of_cons. split_and!; try (by apply snap_name_ne); apply not_elem_of_nil.
Qed.

Section swap.
Context (outside : string -> list string -> Lookup) (fault : Op -> option (string * nat)).
Context (snap : string) (fsig : list Z) (digest : string) (Hsnap : snap_name snap).

(** What was there before: a snapshot under another name, or none. *)
Definition before (d : Dir) (old : option (string * list Z * string)) : Prop :=
  match old with
  | Some (s, b, g) => snap_name s /\ s <> snap /\ holds d s b g
  | None => vacant d
  end.

Lemma before_agree d x old :
  before d old -> agree [snap; tmp_name KUBELET_DATA_DIR] d x -> before x old.
Proof.
  destruct Hsnap as [Hs _].
  destruct old as [[[s b] g]|]; simpl.
  - intros ([Hn Hn'] & Hne & Hh) Ha. split_and!; try done. eapply agree_holds; [exact Ha | | | exact Hh].
    + rewrite !not_elem_of_cons. split_and!; [by intros <- | done | apply not_elem_of_nil].
    + rewrite !not_elem_of_cons. split_and!; [done | by apply snap_name_ne | apply not_elem_of_nil].
  - intros Hv Ha. eapply agree_vacant; [exact Ha | | | | exact Hv];
      rewrite !not_elem_of_cons; (split_and!; [by intros <- | done | apply not_elem_of_nil]).
Qed.

Definition after (x : Dir) : Prop := holds x snap fsig digest.

(** Calls that touch neither [..data] nor the new snapshot keep it. *)
Lemma after_link link target x :
  is_snap link = false -> link <> KUBELET_DATA_DIR -> tmp_name link <> KUBELET_DATA_DIR ->
  is_snap (tmp_name link) = false -> after x ->
  spec after (atomic_symlink fault link target) (fun _ y => after y) x.
Proof.
  intros H1 H2 H3 H4 Hx. destruct Hsnap as [Hs _].
  assert (Hk : forall names y, names ⊆ [tmp_name link; link] -> agree names x y -> after y).
  { intros names y Hsub Ha. eapply agree_holds; [exact Ha | | | exact Hx].
    - intros Hin. apply Hsub in Hin. rewrite !elem_of_cons in Hin. destruct Hin as [|[|?%not_elem_of_nil]]; congruence.
    - intros Hin. apply Hsub in Hin. rewrite !elem_of_cons in Hin. destruct Hin as [|[|?%not_elem_of_nil]]; congruence. }
  eapply spec_weaken; [apply atomic_symlink_spec | |].
  - intros y [Ha|[Ha _]]; (eapply Hk; [|exact Ha]); set_solver.
  - intros r y. destruct r; [intros [Ha _] | intros Ha]; (eapply Hk; [|exact Ha]); set_solver.
Qed.

Lemma after_removal names x :
  after x -> spec after (remove_names fault names snap) (fun r y => after y /\ r = Ok tt) x.
Proof.
  destruct Hsnap as [Hs _].
  revert x. induction names as [|n names IH]; intros x Hx; simpl; [by split; [constructor|]|].
  apply (spec_bind _ _ _ (fun r y => after y /\ r = Ok tt)); [| by intros [] y [Hy _]; apply IH | by intros e y []].
  destruct (is_snap n && negb (str_eqb n snap)) eqn:E; [|by split; [constructor|]].
  apply andb_true_iff in E as [E1 E2]. apply negb_true_iff in E2.
  assert (Hk : forall y, agree [n] x y -> after y).
  { intros y Ha. eapply agree_holds; [exact Ha | | | exact Hx]; rewrite list_elem_of_singleton.
    - by intros <-.
    - intros ->. by rewrite str_eqb_refl in E2. }
  eapply spec_ignore; [eapply spec_weaken; [apply spec_call | exact Hk | intros r y H; exact H] |].
  intros r y [Ha _]. split; [by apply Hk | done].
Qed.

(** Everything before the swap leaves what was there; everything after it keeps the
    new snapshot. *)
Lemma replace_spec listed d old :
  before d old ->
  spec (fun x => before x old \/ after x) (replace_snapshot fault listed snap fsig digest)
    (fun r x => (before x old \/ after x) /\ (r = Ok tt -> after x)) d.
Proof.
  intros Hb. set (N := [snap; tmp_name KUBELET_DATA_DIR]). set (P := fun x => before x old \/ after x).
  set (Q := fun (r : Result unit) x => P x /\ (r = Ok tt -> after x)).
  assert (Hpre : forall x, agree N d x -> P x) by (intros x Ha; left; by eapply before_agree).
  assert (Hclean : forall x (e : FerrumError), agree N d x ->
    spec P (io_ignore (call fault (RemoveAll snap) [])) (fun _ y => Q (Err e) y) x).
  { intros x e Ha. eapply spec_ignore.
    - eapply spec_weaken; [apply (spec_call_in fault (RemoveAll snap) [] N d x); [set_solver | done] | exact Hpre
        | intros r y H; exact H].
    - intros r y [Hy _]. split; [by apply Hpre | done]. }
  unfold replace_snapshot. apply (spec_bind _ _ _ (fun r x => match r with
        | Ok _ => agree N d x /\ exists es, x !! snap = Some (NDir es) /\ es !! BUNDLE_FSIG_KEY = Some fsig /\
                    es !! BUNDLE_DIGEST_KEY = Some (as_bytes digest)
        | Err e => Q (Err e) x end)); [| |done].
  { eapply spec_or_else.
    - eapply spec_weaken; [apply (write_snap_spec fault snap fsig digest N d); left | exact Hpre | intros r y H; exact H].
    - by intros a x [].
    - intros e x [Hx _]. by apply Hclean. }
  intros a x1 [H1 Hcontent]. pose proof (proj1 (snap_not_linked snap (proj1 Hsnap))) as Hnot.
  assert (Hstep : forall x, agree [tmp_name KUBELET_DATA_DIR] x1 x -> agree N d x).
  { intros x Ha. eapply agree_trans; [exact H1 | eapply agree_weaken; [|exact Ha]; set_solver]. }
  assert (Hswap : forall x, swapped KUBELET_DATA_DIR snap x1 x -> after x).
  { intros x [Ha Hl]. split; [done|]. destruct Hcontent as (es & Hs & Hr). exists es. by rewrite Ha. }
  apply (spec_bind _ _ _ (fun r x => match r with Ok _ => after x | Err e => Q (Err e) x end)); [| |done].
  { eapply spec_or_else.
    - eapply spec_weaken; [apply atomic_symlink_spec | | intros r y H; exact H].
      intros x [Ha|Hx]; [by apply Hpre, Hstep | right; by apply Hswap].
    - intros b x Hx. by apply Hswap.
    - intros e x Hx. by apply Hclean, Hstep. }
  intros _ x2 H2. apply (spec_weaken after P _ (fun _ y => after y) Q); [| by right | intros r y Hy; split; [by right | done]].
  eapply spec_bind; [by apply after_link | | done]. intros a3 x3 H3. simpl in H3.
  eapply spec_bind; [by apply after_link | | done]. intros a4 x4 H4. simpl in H4.
  unfold remove_stale_snaps. destruct listed; [|by split; [constructor|]].
  eapply spec_weaken; [by apply after_removal | done | by intros r y []].
Qed.

Lemma persist_spec created listed d old :
  before d old ->
  spec (fun x => before x old \/ after x) (persist_fsig outside fault created listed snap fsig digest)
    (fun r x => (before x old \/ after x) /\
       (r = Ok tt -> after x \/ (x = d /\ lkg_digest_on_disk outside d = Some digest))) d.
Proof.
  intros Hb. pose proof (replace_spec listed d old Hb) as Hs. unfold persist_fsig, spec in *.
  destruct created as [[]|e]; [|split; [constructor | split; [by left | done]]].
  case_bool_decide as Hd; [split; [constructor | split; [by left | by right]]|].
  destruct (replace_snapshot _ _ _ _ _ d) as [[tr r] x]. destruct Hs as (H1 & H2 & H3).
  split_and!; try done. intros Hr. left. by apply H3.
Qed.
End swap.

(** ** Restoring *)

(** What an agent that starts on this directory finds. *)
Definition restores outside (dir : string) (x : Dir) (c : option (list Z * string)) : Prop :=
  match c with
  | Some (b, g) => read_lkg outside dir x = Ok (b, Some g)
  | None => lkg_present outside x = false
  end.

(** C18: the last-known-good bundle is replaced atomically. Whatever system calls of a
    save fail, and wherever a crash stops it (between two calls, in the middle of a
    write, in the middle of removing a directory), an agent that starts on the
    directory finds the complete bundle that was there before with its own digest (or
    none, if there was none), or the complete new bundle with the new digest, never a
    mixture and never a fragment; and when the save answers [Ok] it finds the new one,
    or the directory was left untouched because its digest already was the new one. *)
Theorem lkg_swap_is_atomic outside fault created listed dir snap fsig digest d old tr r d' :
  snap_name snap -> storable fsig digest ->
  match old with
  | Some (s, b, g) => snap_name s /\ s <> snap /\ storable b g /\ holds d s b g
  | None => vacant d
  end ->
  persist_fsig outside fault created listed snap fsig digest d = (tr, r, d') ->
  let previous := match old with Some (_, b, g) => Some (b, g) | None => None end in
  Forall (fun x => restores outside dir x previous \/ restores outside dir x (Some (fsig, digest))) (tr ++ [d']) /\
  (r = Ok tt -> restores outside dir d' (Some (fsig, digest)) \/
     (d' = d /\ lkg_digest_on_disk outside d = Some digest)).
Proof.
  intros Hsnap Hnew Hold E previous.
  assert (Hb : before snap d old).
  { destruct old as [[[s b] g]|]; [|done]. destruct Hold as (? & ? & _ & ?). by split_and!. }
  pose proof (persist_spec outside fault snap fsig digest Hsnap created listed d old Hb) as Hs.
  unfold spec in Hs. rewrite E in Hs. destruct Hs as (Htr & Hd' & Hr).
  assert (Hread : forall x, before snap x old \/ after snap fsig digest x ->
    restores outside dir x previous \/ restores outside dir x (Some (fsig, digest))).
  { intros x [Hx|Hx]; [left | right; by eapply read_lkg_holds]. unfold previous.
    destruct old as [[[s b] g]|]; [|by apply vacant_absent].
    destruct Hx as (? & ? & Hx). destruct Hold as (_ & _ & Hg & _). by eapply read_lkg_holds. }
  split.
  - apply Forall_app. split; [eapply Forall_impl; [exact Htr | exact Hread] | by apply Forall_singleton, Hread].
  - intros Hok. destruct (Hr Hok) as [Hx|[-> Hx]]; [left; by eapply read_lkg_holds | by right].
Qed.

(** ** Worked directories *)

Definition no_outside : string -> list string -> Lookup := fun _ _ => LMissing.
Definition no_fault : Op -> option (string * nat) := fun _ => None.

(** One snapshot, as a save leaves it. *)
Definition saved : Dir :=
  (persist_fsig no_outside no_fault (Ok tt) true "..snap-7-1-0" [1; 2] "aa" ∅).2.

(** The second link fails: the save is an error, the new bundle is the one restored. *)
Definition link_fault : Op -> option (string * nat) :=
  fun op => match op with Rename _ "bundle.fsig" => Some ("EIO", O) | _ => None end.

Lemma storable_pair b g : is_empty b = false -> utf8_ok (as_bytes g) = true -> trim g = g -> g <> "" -> storable b g.
Proof. intros H1 H2 H3 H4. split_and!; try done. by apply is_empty_false. Qed.

Definition second_save : list Dir * Result unit * Dir :=
  persist_fsig no_outside link_fault (Ok tt) true "..snap-7-9-1" [3; 4; 5] "bb" saved.

Lemma lkg_swap_witness :
  Forall (fun x => restores no_outside "/lkg" x (Some ([1; 2], "aa")) \/
                   restores no_outside "/lkg" x (Some ([3; 4; 5], "bb"))) (second_save.1.1 ++ [second_save.2]) /\
  is_ok second_save.1.2 = false /\ read_lkg no_outside "/lkg" second_save.2 = Ok ([3; 4; 5], Some "bb").
Proof.
  assert (E : second_save = (second_save.1.1, second_save.1.2, second_save.2))
    by (destruct second_save as [[? ?] ?]; reflexivity).
  assert (H1 : snap_name "..snap-7-9-1") by (split_and!; vm_compute; reflexivity).
  assert (H2 : storable [3; 4; 5] "bb") by (apply storable_pair; done).
  assert (H3 : snap_name "..snap-7-1-0") by (split_and!; vm_compute; reflexivity).
  assert (H4 : storable [1; 2] "aa") by (apply storable_pair; done).
  assert (H5 : holds saved "..snap-7-1-0" [1; 2] "aa").
  { split; [vm_compute; reflexivity|]. eexists. split_and!; vm_compute; reflexivity. }
  assert (H6 : "..snap-7-1-0" <> "..snap-7-9-1") by discriminate.
  split; [exact (proj1 (lkg_swap_is_atomic no_outside link_fault (Ok tt) true "/lkg" "..snap-7-9-1" [3; 4; 5] "bb" saved
    (Some ("..snap-7-1-0", [1; 2], "aa")) _ _ _ H1 H2 (conj H3 (conj H6 (conj H4 H5))) E))|].
  split; vm_compute; reflexivity.
Defined.

(** A save is skipped when the digest on disk is the new one, although the digest is
    that of the payload and not of the envelope: a bundle signed again by a new key
    answers [Ok] and is not stored, and a restart finds the old signature. *)
Lemma resigned_bundle_not_persisted outside fault listed dir snap s b b' g d :
  snap_name s -> storable b g -> holds d s b g ->
  persist_fsig outside fault (Ok tt) listed snap b' g d = ([], Ok tt, d) /\
  read_lkg outside dir d = Ok (b, Some g).
Proof.
  intros Hs Hg Hh. split; [|by eapply read_lkg_holds]. unfold persist_fsig.
  assert (lkg_digest_on_disk outside d = Some g) as ->; [|by rewrite bool_decide_true].
  unfold lkg_digest_on_disk. destruct (read_holds outside _ _ _ _ Hs Hh) as [_ ->].
  destruct Hg as (_ & Hu & Ht & Hne). rewrite from_utf8_as_bytes by done. simpl. rewrite Ht.
  apply str_empty_false in Hne. by rewrite Hne.
Qed.
