(* ===== verification/AgentSource.v ===== *)
(** * The signed bundle of the agent

    [crates/ferrum-agent/src/source.rs]: the same FSIG envelope as the webhook's,
    verified against the agent's own pin, the exception list beside it, and the stamps
    that tell a changed mount. A path is what reading or stating it answered. *)

From S2P Require Import Prelude RustStd RustText Ids Api Policy Wire Encode Wasm Compiler Envelope Program.
From S2P Require Import Crypto Journal Encoding Json Bundle Webhook.

Definition MAX_EXCEPTIONS_BYTES : Z := 2 * 1024 * 1024.
Definition EXCEPTIONS_FSIG_KEY : string := "exceptions.fsig".

(** [RawReader] of this crate: its texts never reach a caller, every read maps them. *)
Definition agent_texts : ReaderTexts :=
  {| t_truncated := "truncated signed bundle"; t_magic := "signed bundle magic is not FSIG";
     t_non_utf8 := ""; t_trailing := "trailing bytes in signed bundle" |}.

Definition agent_len_prefixed (name : string) : rd (list Z) :=
  n ← rd_u32 agent_texts;
  rd_map_err (fun _ => Integrity [Lit "truncated bundle "; Str name]) (rd_take agent_texts n).

Definition agent_fsig_fields : rd (list Z * list Z * list Z) :=
  _ ← integrity "signed bundle magic is not FSIG" (rd_expect_magic agent_texts SIGNED_MAGIC);
  format ← integrity "truncated signed bundle" (rd_u32 agent_texts);
  _ ← rd_try (refuse_if (negb (format =? SIGNED_FORMAT))
        (Integrity [Lit "unsupported signed bundle format "; Num format]));
  public_key ← integrity "truncated signed bundle public_key" (agent_len_prefixed "public_key");
  signature ← integrity "truncated signed bundle signature" (agent_len_prefixed "signature");
  raw ← integrity "truncated signed bundle raw" (agent_len_prefixed "raw");
  mret (public_key, signature, raw).

Definition agent_decode_fsig (bytes : list Z) : Result (list Z * list Z * list Z) :=
  '(public_key, signature, raw) ← run_reader
     (x ← agent_fsig_fields; _ ← integrity "trailing bytes in signed bundle" (rd_finish agent_texts); mret x) bytes;
  _ ← refuse_if (is_empty signature)
        (Integrity [Lit "bundle signature is empty; unsigned bundles are rejected"]);
  _ ← refuse_if (negb (len public_key =? ED25519_PUBLIC_KEY_LEN))
        (Integrity [Lit "Ed25519 public key must be "; Num ED25519_PUBLIC_KEY_LEN; Lit " bytes, got ";
           Num (len public_key)]);
  _ ← refuse_if (negb (len signature =? ED25519_SIGNATURE_LEN))
        (Integrity [Lit "Ed25519 signature must be "; Num ED25519_SIGNATURE_LEN; Lit " bytes, got ";
           Num (len signature)]);
  mret (public_key, signature, raw).

Definition agent_extract_fsig (bytes : list Z) : Result ExtractedFsig :=
  if prefixb SIGNED_MAGIC bytes || prefixb BUNDLE_MAGIC bytes || prefixb EBPF_MAGIC bytes then
    Ok {| xf_fsig := bytes; xf_digest := None |}
  else Err (Integrity [Lit "bytes are not a signed FSIG policy bundle"]).

Definition pin_bytes (trust_root : list Z) : Result unit :=
  _ ← refuse_if (negb (len trust_root =? ED25519_PUBLIC_KEY_LEN))
        (Integrity [Lit "trust-root pin must be "; Num ED25519_PUBLIC_KEY_LEN; Lit " bytes, got ";
           Num (len trust_root)]);
  refuse_if (is_all_zero trust_root) (Integrity [Lit "Ed25519 public key must not be all zeros"]).

Definition agent_parse_trust_root (hex : string) : Result (list Z) :=
  bytes ← hex_decode hex; _ ← pin_bytes bytes; mret bytes.

Section source.
Context `{E : Ed25519} (sha256 : list Z -> list Z).

Definition agent_load_source (bytes trust_root : list Z) (expected_digest : option string)
    : Result (list Z * string) :=
  _ ← pin_bytes trust_root;
  extracted ← agent_extract_fsig bytes;
  _ ← refuse_if (negb (prefixb SIGNED_MAGIC (xf_fsig extracted)))
        (Integrity [Lit "unsigned FRMB/FEBP rejected; agent requires a verified FSIG"]);
  '(public_key, signature, raw) ← agent_decode_fsig (xf_fsig extracted);
  _ ← refuse_if (negb (bool_decide (public_key = trust_root))) pin_mismatch;
  _ ← verify_bundle_signature sha256 raw signature trust_root;
  _ ← check_expected sha256 raw (xf_digest extracted);
  _ ← check_expected sha256 raw expected_digest;
  _ ← extract_febp raw;
  mret (raw, bundle_digest sha256 raw).

Definition load_exceptions_source (bytes trust_root : list Z) : Result (list Z) :=
  _ ← pin_bytes trust_root;
  _ ← refuse_if (negb (prefixb SIGNED_MAGIC bytes))
        (Integrity [Lit "exceptions are not a signed FSIG envelope; plain JSON is rejected"]);
  '(public_key, signature, raw) ← agent_decode_fsig bytes;
  _ ← refuse_if (negb (bool_decide (public_key = trust_root)))
        (Integrity [Lit "embedded exceptions FSIG public key does not match caller trust-root pin"]);
  _ ← verify_bundle_signature sha256 raw signature trust_root;
  mret raw.
End source.

(** [read_exceptions_path]: [meta_len] is the size [metadata] answered, if it did. *)
Definition read_exceptions_path (file : string) (meta_len : option Z) (outcome : FileRead)
    : Result (option (list Z)) :=
  let over n := Err (Integrity [Str file; Lit ": "; Num n; Lit " bytes exceeds the "; Num MAX_EXCEPTIONS_BYTES;
                                Lit "-byte exceptions cap"]) in
  let read := match outcome with
              | ReadOk bytes => if MAX_EXCEPTIONS_BYTES <? len bytes then over (len bytes) else Ok (Some bytes)
              | ReadNotFound => Ok None
              | ReadFailed err => Err (Degraded [Lit "read "; Str file; Lit ": "; Str err])
              end in
  match meta_len with
  | Some n => if MAX_EXCEPTIONS_BYTES <? n then over n else read
  | None => read
  end.

(** ** Stamps *)

(** What [std::fs::metadata] answered. *)
Inductive Stat := StatFile (modified : option Z) (length : Z) | StatDir
| StatOther (modified : option Z) (length : Z) | StatNotFound | StatFailed.

Definition stamp_of (modified : option Z) (length : Z) : FileStamp :=
  {| fs_mtime := default 0 modified; fs_len := length |}.

Definition exceptions_stamp (st : Stat) : MountStat FileStamp :=
  match st with
  | StatFile m n => Present (stamp_of m n)
  | StatDir | StatOther _ _ => Unreadable
  | StatNotFound => Absent
  | StatFailed => Unreadable
  end.

Definition stamp_kind (st : Stat) : MountStat FileStamp :=
  match st with
  | StatDir => Unreadable
  | StatFile m n | StatOther m n => Present (stamp_of m n)
  | StatNotFound => Absent
  | StatFailed => Unreadable
  end.

(** [bundle_stamp]: the bundle file, and the digest file of a snapshot directory. *)
Definition bundle_stamp (fsig : Stat) (digest : option Stat) : MountStat SourceStamp :=
  match stamp_kind fsig with
  | Absent => Absent
  | Unreadable => Unreadable
  | Present fsig =>
      match digest with
      | None => Present {| st_fsig := fsig; st_digest := None |}
      | Some st =>
          match stamp_kind st with
          | Present d => Present {| st_fsig := fsig; st_digest := Some d |}
          | Absent => Absent
          | Unreadable => Unreadable
          end
      end
  end.

(** ** One envelope, two readers *)

(** Two reads that agree once their errors are mapped away. *)
Definition same_but_errors {A} (m k : rd A) : Prop :=
  forall r, match m r, k r with Ok x, Ok y => x = y | Err _, Err _ => True | _, _ => False end.

Lemma take_same n : same_but_errors (rd_take agent_texts n) (rd_take raw_texts n).
Proof. intros r. unfold rd_take. destruct (U64 <=? _); [done|]. by destruct (get_range _ _ _). Qed.

Lemma bind_same {A B} (m m' : rd A) (k k' : A -> rd B) :
  same_but_errors m m' -> (forall a, same_but_errors (k a) (k' a)) -> same_but_errors (m ≫= k) (m' ≫= k').
Proof.
  intros Hm Hk r. unfold mbind, rd_mbind. specialize (Hm r). destruct (m r) as [[a r1]|], (m' r) as [[a' r1']|];
    try done. injection Hm as -> ->. apply Hk.
Qed.

Lemma map_err_same {A} f g (m k : rd A) : same_but_errors m k -> same_but_errors (rd_map_err f m) (rd_map_err g k).
Proof. intros H r. unfold rd_map_err. specialize (H r). by destruct (m r), (k r). Qed.

Lemma integrity_same {A} text (m k : rd A) r : same_but_errors m k -> integrity text m r = integrity text k r.
Proof.
  intros H. unfold integrity, rd_map_err. specialize (H r). destruct (m r), (k r); try done. by subst.
Qed.

Lemma same_refl {A} (m : rd A) : same_but_errors m m.
Proof. intros r. by destruct (m r). Qed.

Lemma u32_same : same_but_errors (rd_u32 agent_texts) (rd_u32 raw_texts).
Proof. apply bind_same; [apply take_same | intros a; apply same_refl]. Qed.

Lemma len_prefixed_same name : same_but_errors (agent_len_prefixed name) (len_prefixed name).
Proof. apply bind_same; [apply u32_same | intros n; apply map_err_same, take_same]. Qed.

(** The two planes read one envelope format, errors included. *)
Lemma agent_decode_agrees bytes : agent_decode_fsig bytes = decode_fsig bytes.
Proof.
  assert (Hmagic : forall r, integrity "signed bundle magic is not FSIG" (rd_expect_magic agent_texts SIGNED_MAGIC) r
    = integrity "signed bundle magic is not FSIG" (rd_expect_magic raw_texts SIGNED_MAGIC) r).
  { intros r. apply integrity_same. apply bind_same; [apply take_same|]. intros got r'.
    unfold rd_try, refuse_if. by destruct (bool_decide _). }
  assert (Hfin : forall r, integrity "trailing bytes in signed bundle" (rd_finish agent_texts) r
    = integrity "trailing bytes in signed bundle" (rd_finish raw_texts) r).
  { intros r. apply integrity_same. intros r'. unfold rd_finish. by destruct (bool_decide _). }
  assert (Hu : forall text r, integrity text (rd_u32 agent_texts) r = integrity text (rd_u32 raw_texts) r).
  { intros text r. apply integrity_same, u32_same. }
  assert (Hl : forall text name r, integrity text (agent_len_prefixed name) r = integrity text (len_prefixed name) r).
  { intros text name r. apply integrity_same, len_prefixed_same. }
  unfold agent_decode_fsig, decode_fsig, run_reader.
  assert (Hrun : forall r,
    (x ← agent_fsig_fields; _ ← integrity "trailing bytes in signed bundle" (rd_finish agent_texts); mret x) r
    = (x ← fsig_fields; _ ← integrity "trailing bytes in signed bundle" (rd_finish raw_texts); mret x) r).
  { intros r. unfold agent_fsig_fields, fsig_fields, mbind, rd_mbind. rewrite Hmagic.
    destruct (integrity _ (rd_expect_magic raw_texts _) r) as [[[] r1]|]; [|done]. rewrite Hu.
    destruct (integrity _ (rd_u32 raw_texts) r1) as [[format r2]|]; [|done].
    destruct (rd_try _ r2) as [[[] r3]|]; [|done]. rewrite Hl.
    destruct (integrity _ (len_prefixed _) r3) as [[pk r4]|]; [|done]. rewrite Hl.
    destruct (integrity _ (len_prefixed _) r4) as [[sig r5]|]; [|done]. rewrite Hl.
    destruct (integrity _ (len_prefixed _) r5) as [[raw r6]|]; [|done]. unfold mret, rd_mret. by rewrite Hfin. }
  by rewrite Hrun.
Qed.

(** ** What is accepted *)

Section accepted.
Context `{E : Ed25519} (sha256 : list Z -> list Z).

(** [bytes] is an envelope whose key is the pin and whose signature over [raw]
    verifies under it, and [raw] has the expected digest, when one is expected. *)
Definition signed_envelope (root bytes : list Z) (expected : option string) (raw : list Z) : Prop :=
  prefixb SIGNED_MAGIC bytes = true /\
  exists signature, decode_fsig bytes = Ok (root, signature, raw) /\
    is_ok (verify_bundle_signature sha256 raw signature root) = true /\
    is_ok (check_expected sha256 raw expected) = true.

Lemma decoded_key_length bytes pk sig raw :
  decode_fsig bytes = Ok (pk, sig, raw) -> len pk = ED25519_PUBLIC_KEY_LEN.
Proof.
  unfold decode_fsig. destruct (run_reader _ bytes) as [[[pk' sig'] raw']|]; [|done]. simpl.
  destruct (is_empty sig'); [done|]. simpl. destruct (len pk' =? ED25519_PUBLIC_KEY_LEN) eqn:E1; [|done]. simpl.
  destruct (negb _); [done|]. simpl. intros [= <- _ _]. lia.
Qed.

Lemma is_ok_true {A} (m : Result A) : is_ok m = true <-> exists a, m = Ok a.
Proof. destruct m; simpl; split; [by eexists | done | done | by intros []]. Qed.

(** The agent accepts exactly the signed envelopes that carry an eBPF program. *)
Lemma agent_accepts root bytes expected raw digest :
  is_all_zero root = false ->
  agent_load_source sha256 bytes root expected = Ok (raw, digest) <->
  signed_envelope root bytes expected raw /\ is_ok (extract_febp raw) = true /\ digest = bundle_digest sha256 raw.
Proof.
  intros Hz. split.
  - unfold agent_load_source, agent_extract_fsig. intros [Hpin H]%bind_ok_unit.
    destruct (_ || _); [|done]. cbn [mbind result_mbind xf_fsig xf_digest check_expected] in H.
    apply bind_ok_unit in H as [Hs%refuse_if_ok%negb_false_iff H]. rewrite agent_decode_agrees in H.
    apply bind_ok in H as ([[pk sig] raw'] & Hd & H).
    apply bind_ok_unit in H as [Hk%refuse_if_ok%negb_false_iff%bool_decide_eq_true H]. subst pk.
    apply bind_ok in H as (x & Hv & H). apply bind_ok in H as (y & Hc & H).
    apply bind_ok in H as (f & Hf & [= <- <-]). split_and!; [|by rewrite Hf | done].
    split; [done|]. exists sig. by rewrite Hv, Hc.
  - intros ((Hp & sig & Hd & Hv & Hc) & Hf & ->). pose proof (decoded_key_length _ _ _ _ Hd) as Hlen.
    unfold agent_load_source, pin_bytes, agent_extract_fsig. rewrite Hlen, Hz, Hp.
    cbn [orb mbind result_mbind xf_fsig xf_digest check_expected]. rewrite Hp, agent_decode_agrees, Hd, Z.eqb_refl.
    cbn [refuse_if negb mbind result_mbind]. rewrite bool_decide_true by done. cbn [refuse_if negb mbind result_mbind].
    apply is_ok_true in Hv as [x ->]. apply is_ok_true in Hc as [y Hc]. cbn [mbind result_mbind]. rewrite Hc.
    by apply is_ok_true in Hf as [f ->].
Qed.

(** The webhook accepts exactly the signed envelopes that carry an admission program. *)
Lemma webhook_accepts `{T : JsonText} root bytes expected program digest :
  prefixb SIGNED_MAGIC bytes = true ->
  load_source_with_digest sha256 bytes root expected = Ok (program, digest) <->
  exists raw, signed_envelope root bytes expected raw /\ parse_verified raw = Ok program /\
    digest = bundle_digest sha256 raw.
Proof.
  intros Hp. assert (Hx : extract_fsig bytes = Ok {| xf_fsig := bytes; xf_digest := None |}).
  { unfold extract_fsig. by rewrite Hp. }
  split.
  - unfold load_source_with_digest. rewrite Hx. cbn [mbind result_mbind xf_fsig xf_digest check_expected].
    intros H. apply bind_ok in H as (q & [_ Hq]%load_bundle_inv & H). revert H. unfold load_fsig in Hq.
    apply bind_ok in Hq as ([[pk sig] raw] & Hd & Hq). rewrite Hd. cbn [mbind result_mbind].
    apply bind_ok_unit in Hq as [Hk%refuse_if_ok%negb_false_iff%bool_decide_eq_true Hq]. subst pk.
    apply bind_ok in Hq as (x & Hv & Hq). intros H. apply bind_ok in H as (y & Hc & [= <- <-]).
    exists raw. split_and!; try done. split; [done|]. exists sig. by rewrite Hv, Hc.
  - intros (raw & (_ & sig & Hd & Hv & Hc) & Hq & ->). pose proof (decoded_key_length _ _ _ _ Hd) as Hlen.
    unfold load_source_with_digest. rewrite Hx. cbn [mbind result_mbind xf_fsig xf_digest check_expected].
    unfold load_bundle, pin_length, load_fsig. rewrite Hlen, Hp, Z.eqb_refl, Hd.
    cbn [refuse_if negb mbind result_mbind]. rewrite bool_decide_true by done. cbn [refuse_if negb mbind result_mbind].
    apply is_ok_true in Hv as [x ->]. cbn [mbind result_mbind]. rewrite Hq. cbn [mbind result_mbind].
    by apply is_ok_true in Hc as [y ->].
Qed.

(** The exception list: the same envelope, no digest beside it. *)
Lemma exceptions_accepted root bytes raw :
  load_exceptions_source sha256 bytes root = Ok raw -> signed_envelope root bytes None raw.
Proof.
  unfold load_exceptions_source. intros [_ H]%bind_ok_unit.
  apply bind_ok_unit in H as [Hp%refuse_if_ok%negb_false_iff H]. rewrite agent_decode_agrees in H.
  apply bind_ok in H as ([[pk sig] raw'] & Hd & H).
  apply bind_ok_unit in H as [Hk%refuse_if_ok%negb_false_iff%bool_decide_eq_true H]. subst pk.
  apply bind_ok in H as (x & Hv & [= <-]). split; [done|]. exists sig. by rewrite Hv.
Qed.

End accepted.

