(* ===== verification/AgentState.v ===== *)
(** * The state of the node agent

    [struct Agent] of [crates/ferrum-agent/src/lib.rs]: every field, the operations
    that record what the agent observes, the container-map windows, and the reasons it
    reports for being degraded. An [Instant] is a number of nanoseconds on the
    monotonic clock, a [DateTime] one on the wall clock; an atomic counter wraps at
    its width. *)

From coqutil Require Import Datatypes.RecordSetters.
From S2P Require Import Prelude RustStd RustText Ids Api Policy Encode Compiler Envelope Febp RuntimeEval.
From S2P Require Import KRules Event Loader Grant Clock Cgroup Labels Pods Respond.
Export DoubleBraceUpdate.

(** ** Constants *)

Definition CONTAINER_MAP_SYNC_BUDGET : Z := seconds 30.
Definition CONTAINER_FLAG_GRACE : Z := seconds 6.
Definition UNPROVEN_PROOF_TTL : Z := seconds 300.
Definition DEGRADED_RECOVERY : Z := seconds 30.
Definition DECODE_FAILURE_RUN_MAX : Z := 64.
Definition RESPOND_TARGET_UNPROVEN_MIN : Z := 8.
Definition RESPOND_SIGNAL_FAILING_MIN : Z := 4.
Definition CONTAINER_FLAG_TRACKED_MAX : Z := 4096.
Definition WAIVED_ACTION : string := "waived".
Definition MAX_EXCEPTION_SPECS : Z := 4096.

Definition CGROUP_PUBLISHER_GONE : string :=
  "cgroup publisher gone: the container map can no longer follow the index".
Definition CGROUP_ROOT_UNDERIVABLE : string :=
  "cgroup2 root not derivable: the index is not scanned rather than keyed on a hierarchy nobody chose, so no cgroup resolves to a pod and every namespaced selector misses".
Definition RECORD_CHANNEL_GONE : string :=
  "record channel gone: ring records are drained and discarded before any rule sees them".
Definition DATAPATH_ABI_MISMATCH : string :=
  "datapath abi mismatch: the attached eBPF ELF stamps ring records with an ABI this agent does not decode, so no record can ever reach a rule".
Definition DATAPATH_UNDECODABLE : string :=
  "datapath undecodable: consecutive ring records failed to decode with none succeeding between them, so no record reaches a rule".
Definition SELF_TGID_UNPUBLISHED : string :=
  "agent self tgid not published: not in the host pid namespace, so notAgentSelf rules cannot be honoured on this node".
Definition TARGET_CHECK_UNPROVABLE : string :=
  "stale-target guard cannot be computed: the cgroup2 hierarchy the datapath keys on was not identified on this node, so every reaction refuses without having proven anything about its target and nothing is ever killed".
Definition TARGET_NEVER_PROVEN : string :=
  "respond is on and no reaction has ever confirmed its target: every kill this node decided was refused because the target was not in the cgroup that raised its record, and not one was ever found there — the guard is answering about the wrong cgroup hierarchy rather than catching pid reuse".
Definition RESPOND_SIGNAL_FAILING : string :=
  "respond is on and no signal has ever been delivered: every reaction that passed every guard failed in the kill syscall itself, and not one has ever succeeded — the agent is deciding kills it cannot execute, most often a respond DaemonSet without CAP_KILL over its targets".
Definition DEG_CONTROL_PLANE_DOWN : string := "control plane down: enforcing last-known-good, no bundle updates".
Definition DEG_LOADER : string := "bundle loader degraded: see the reload error on stderr".
Definition DEG_NOT_ATTACHED : string := "no kernel attach: nothing feeds the decision path on this node".
Definition DEG_DATAPATH : string := "datapath degraded: a record carried a syscall nr this build cannot name".
Definition DEG_CGROUP_INDEX_EMPTY : string :=
  "cgroup index empty: every namespaced selector misses, whatever the policy says".
Definition DEG_KERNEL_RULES_UNSYNCED : string :=
  "kernel rule set unpublished: ferrum_rules was cleared, so this node prevents nothing in kernel and keeps detecting".
Definition DEG_LSM_FALLBACK : string :=
  "BPF LSM unavailable: tracepoint detection remains active without synchronous prevention".
Definition DEG_CONTAINER_MAP : string :=
  "container map not ready: EVENT_FLAG_CONTAINER cannot be trusted, so containerOnly rules miss".
Definition DEG_EXPORT_DEAD : string := "export writer dead: enforcement runs and nothing records it".
Definition DEG_EXPORT_LOSSY : string := "export lost events recently: a kill may have left no record".
Definition DEG_DECODE_FAILURES : string := "records failed to decode recently: no rule saw them".
Definition DEG_LABELS_UNKNOWN : string :=
  "labels unknown recently: selectors were resolved fail-closed against caches with nothing in them".
Definition DEG_RING_DROPS : string := "in-kernel ring drops recently: records no rule ever saw".
Definition DEG_PATH_TRUNCATED : string :=
  "paths truncated recently: a suffix rule was decided without the bytes it names".
Definition DEG_IDENTITY_UNKNOWN : string := "identity unknown recently: a cgroup the index cannot name".
Definition DEG_LKG_PARTIAL : string := "last-known-good partial: enforcing a subset of the snapshot that was signed".
Definition DEG_CONTAINER_FLAG : string :=
  "container flag disagreement outlived its publish window: the datapath is not flagging containers the index knows".
Definition DEG_BUNDLE_UNREADABLE : string :=
  "bundle mount unreadable: the bundle path is present and will not stat, so no policy update can reach this node and none has been refused either".
Definition DEG_CLOCK_ROLLBACK : string :=
  "node clock moved backwards under the monotonic floor: waiver expiry is decided on a time source this node cannot trust".
Definition DEG_CLOCK_FLOOR_UNPERSISTED : string :=
  "monotonic clock floor not persisted: the anti-rollback floor is in memory only and a restart will take whatever the wall clock says".
Definition DEG_STATUS_UNWRITABLE : string :=
  "status file unwritable: this node's state cannot be published, so status.json is absent rather than stale".
Definition DEG_WAIVERS_DROPPED : string :=
  "waivers dropped: the exception table failed to load and every approved exception on this node was discarded, so enforcement is stricter than the policy that was signed and the denials it causes name no reason".
Definition WAIVERS_UNJOINED : string :=
  "waivers do not join this agent's policy: they are signed, verified, in scope and apply to nothing here".

(** ** State *)

Inductive AgentRole := RoleObserve | RoleRespond.

#[global] Instance AgentRole_eq_dec : EqDecision AgentRole.
Proof. solve_decision. Defined.

Definition respond_enabled (r : AgentRole) : bool := match r with RoleRespond => true | RoleObserve => false end.

Definition role_parse_name (s : string) : Result AgentRole :=
  if str_eqb s "observe" then Ok RoleObserve
  else if str_eqb s "respond" then Ok RoleRespond
  else Err (Validation [Lit "unknown role "; Str s; Lit "; expected observe or respond"]).

Record UnprovenWindow := { uw_opened : Z; uw_seen : Z }.

Record Agent := {
  ag_role : AgentRole;
  ag_loader : Loader;
  ag_cgroups : gmap Z WorkloadIdentity;
  ag_cp_down : bool;
  ag_lkg_dir : option string;
  ag_trust_root : list Z;
  ag_bundle_path : option string;
  ag_exceptions : list PolicyExceptionSpec;
  ag_policy_name : string;
  ag_exceptions_reload_failed : Z;
  ag_exceptions_dropped : bool;
  ag_decode_failed : Z;
  ag_decode_failed_run : Z;
  ag_datapath_abi_mismatch : Z;
  ag_unknown_syscalls : Z;
  ag_datapath_degraded : bool;
  ag_clock_rollback : bool;
  ag_attached : bool;
  ag_responder : option Responder;
  ag_target_check : TargetCheck;
  ag_respond_disabled : option string;
  ag_self_tgid_unpublished : bool;
  ag_clock : MonotonicFloor;
  ag_respond_kill : Z;
  ag_respond_refused : Z;
  ag_respond_role_skipped : Z;
  ag_respond_failed : Z;
  ag_respond_stale_target : Z;
  ag_respond_target_confirmed : Z;
  ag_respond_target_unprovable : Z;
  ag_export_dead : bool;
  ag_container_map_synced : bool;
  ag_container_map_entries : Z;
  ag_container_map_error : option string;
  ag_container_flag_disagreement : Z;
  ag_lsm_attached : bool;
  ag_lsm_fallback : bool;
  ag_kernel_rules_installed : Z;
  ag_kernel_rules_excluded : Z;
  ag_selected_cgroups : Z;
  ag_kernel_rules_refused : option msg;
  ag_kernel_rules_unsynced : option msg;
  ag_identity_unknown : Z;
  ag_identity_unknown_at : option Z;
  ag_container_map_synced_at : option Z;
  ag_container_flag_window : gmap Z Z;
  ag_container_flag_fault_at : option Z;
  ag_container_unproven_window : gmap Z UnprovenWindow;
  ag_container_unproven : Z;
  ag_bundle_unreadable : bool;
  ag_bundle_stat_failed : Z;
  ag_status_write_failed : bool;
  ag_status_write_failed_count : Z;
  ag_labels_unknown : Z;
  ag_labels_unknown_at : option Z;
  ag_ring_drop_at : option Z;
  ag_path_truncated : Z;
  ag_path_truncated_at : option Z;
  ag_lkg_rules_dropped : Z;
  ag_lkg_partial : bool;
  ag_decode_failed_at : option Z;
  ag_export_lost_seen : Z;
  ag_export_lost_at : option Z;
  ag_terminal_fault : option msg;
  ag_degraded_reported : option (list msg)
}.

(** One setter per field, so that an update is a short term. *)
#[global] Instance ag_role_set : Setter ag_role := _.
#[global] Instance ag_loader_set : Setter ag_loader := _.
#[global] Instance ag_cgroups_set : Setter ag_cgroups := _.
#[global] Instance ag_cp_down_set : Setter ag_cp_down := _.
#[global] Instance ag_lkg_dir_set : Setter ag_lkg_dir := _.
#[global] Instance ag_trust_root_set : Setter ag_trust_root := _.
#[global] Instance ag_bundle_path_set : Setter ag_bundle_path := _.
#[global] Instance ag_exceptions_set : Setter ag_exceptions := _.
#[global] Instance ag_policy_name_set : Setter ag_policy_name := _.
#[global] Instance ag_exceptions_reload_failed_set : Setter ag_exceptions_reload_failed := _.
#[global] Instance ag_exceptions_dropped_set : Setter ag_exceptions_dropped := _.
#[global] Instance ag_decode_failed_set : Setter ag_decode_failed := _.
#[global] Instance ag_decode_failed_run_set : Setter ag_decode_failed_run := _.
#[global] Instance ag_datapath_abi_mismatch_set : Setter ag_datapath_abi_mismatch := _.
#[global] Instance ag_unknown_syscalls_set : Setter ag_unknown_syscalls := _.
#[global] Instance ag_datapath_degraded_set : Setter ag_datapath_degraded := _.
#[global] Instance ag_clock_rollback_set : Setter ag_clock_rollback := _.
#[global] Instance ag_attached_set : Setter ag_attached := _.
#[global] Instance ag_responder_set : Setter ag_responder := _.
#[global] Instance ag_target_check_set : Setter ag_target_check := _.
#[global] Instance ag_respond_disabled_set : Setter ag_respond_disabled := _.
#[global] Instance ag_self_tgid_unpublished_set : Setter ag_self_tgid_unpublished := _.
#[global] Instance ag_clock_set : Setter ag_clock := _.
#[global] Instance ag_respond_kill_set : Setter ag_respond_kill := _.
#[global] Instance ag_respond_refused_set : Setter ag_respond_refused := _.
#[global] Instance ag_respond_role_skipped_set : Setter ag_respond_role_skipped := _.
#[global] Instance ag_respond_failed_set : Setter ag_respond_failed := _.
#[global] Instance ag_respond_stale_target_set : Setter ag_respond_stale_target := _.
#[global] Instance ag_respond_target_confirmed_set : Setter ag_respond_target_confirmed := _.
#[global] Instance ag_respond_target_unprovable_set : Setter ag_respond_target_unprovable := _.
#[global] Instance ag_export_dead_set : Setter ag_export_dead := _.
#[global] Instance ag_container_map_synced_set : Setter ag_container_map_synced := _.
#[global] Instance ag_container_map_entries_set : Setter ag_container_map_entries := _.
#[global] Instance ag_container_map_error_set : Setter ag_container_map_error := _.
#[global] Instance ag_container_flag_disagreement_set : Setter ag_container_flag_disagreement := _.
#[global] Instance ag_lsm_attached_set : Setter ag_lsm_attached := _.
#[global] Instance ag_lsm_fallback_set : Setter ag_lsm_fallback := _.
#[global] Instance ag_kernel_rules_installed_set : Setter ag_kernel_rules_installed := _.
#[global] Instance ag_kernel_rules_excluded_set : Setter ag_kernel_rules_excluded := _.
#[global] Instance ag_selected_cgroups_set : Setter ag_selected_cgroups := _.
#[global] Instance ag_kernel_rules_refused_set : Setter ag_kernel_rules_refused := _.
#[global] Instance ag_kernel_rules_unsynced_set : Setter ag_kernel_rules_unsynced := _.
#[global] Instance ag_identity_unknown_set : Setter ag_identity_unknown := _.
#[global] Instance ag_identity_unknown_at_set : Setter ag_identity_unknown_at := _.
#[global] Instance ag_container_map_synced_at_set : Setter ag_container_map_synced_at := _.
#[global] Instance ag_container_flag_window_set : Setter ag_container_flag_window := _.
#[global] Instance ag_container_flag_fault_at_set : Setter ag_container_flag_fault_at := _.
#[global] Instance ag_container_unproven_window_set : Setter ag_container_unproven_window := _.
#[global] Instance ag_container_unproven_set : Setter ag_container_unproven := _.
#[global] Instance ag_bundle_unreadable_set : Setter ag_bundle_unreadable := _.
#[global] Instance ag_bundle_stat_failed_set : Setter ag_bundle_stat_failed := _.
#[global] Instance ag_status_write_failed_set : Setter ag_status_write_failed := _.
#[global] Instance ag_status_write_failed_count_set : Setter ag_status_write_failed_count := _.
#[global] Instance ag_labels_unknown_set : Setter ag_labels_unknown := _.
#[global] Instance ag_labels_unknown_at_set : Setter ag_labels_unknown_at := _.
#[global] Instance ag_ring_drop_at_set : Setter ag_ring_drop_at := _.
#[global] Instance ag_path_truncated_set : Setter ag_path_truncated := _.
#[global] Instance ag_path_truncated_at_set : Setter ag_path_truncated_at := _.
#[global] Instance ag_lkg_rules_dropped_set : Setter ag_lkg_rules_dropped := _.
#[global] Instance ag_lkg_partial_set : Setter ag_lkg_partial := _.
#[global] Instance ag_decode_failed_at_set : Setter ag_decode_failed_at := _.
#[global] Instance ag_export_lost_seen_set : Setter ag_export_lost_seen := _.
#[global] Instance ag_export_lost_at_set : Setter ag_export_lost_at := _.
#[global] Instance ag_terminal_fault_set : Setter ag_terminal_fault := _.
#[global] Instance ag_degraded_reported_set : Setter ag_degraded_reported := _.

(** [fetch_add] on an [AtomicU64]. *)
Definition add64 (n : Z) : Z -> Z := fun c => (c + n) mod U64.

(** [within(slot, now, window)]. *)
Definition within (slot : option Z) (now window : Z) : bool :=
  match slot with Some at_ => since now at_ <? window | None => false end.

(** ** What the agent observes *)

Definition set_role (a : Agent) (role : AgentRole) : Agent := a {{ ag_role := role }}.
Definition mark_control_plane_down (a : Agent) : Agent := a {{ ag_cp_down := true }}.
Definition mark_control_plane_up (a : Agent) : Agent := a {{ ag_cp_down := false }}.
Definition set_attached (a : Agent) (attached : bool) : Agent := a {{ ag_attached := attached }}.
Definition set_lsm_attached (a : Agent) (attached : bool) : Agent :=
  a {{ ag_lsm_attached := attached; ag_lsm_fallback := negb attached }}.
Definition set_responder (a : Agent) (r : Responder) : Agent := a {{ ag_responder := Some r }}.
Definition set_target_check (a : Agent) (check : TargetCheck) : Agent := a {{ ag_target_check := check }}.
Definition disable_respond (a : Agent) (reason : string) : Agent :=
  a {{ ag_role := RoleObserve; ag_responder := None; ag_respond_disabled := Some reason }}.
Definition insert_cgroup (a : Agent) (inode : Z) (id : WorkloadIdentity) : Agent :=
  a {{ ag_cgroups ::= <[inode := id]> }}.

Definition record_labels_unknown (a : Agent) (now : Z) : Agent :=
  a {{ ag_labels_unknown ::= add64 1; ag_labels_unknown_at := Some now }}.
Definition record_identity_unknown (a : Agent) (now : Z) : Agent :=
  a {{ ag_identity_unknown ::= add64 1; ag_identity_unknown_at := Some now }}.
Definition record_path_truncated (a : Agent) (now : Z) : Agent :=
  a {{ ag_path_truncated ::= add64 1; ag_path_truncated_at := Some now }}.
Definition record_container_unproven (a : Agent) : Agent := a {{ ag_container_unproven ::= add64 1 }}.
Definition record_unknown_syscall (a : Agent) : Agent :=
  a {{ ag_unknown_syscalls ::= add64 1; ag_datapath_degraded := true }}.
Definition mark_self_tgid_unpublished (a : Agent) : Agent := a {{ ag_self_tgid_unpublished := true }}.

(** The first fault stays. *)
Definition mark_terminal_fault (a : Agent) (reason : msg) : Agent :=
  match ag_terminal_fault a with Some _ => a | None => a {{ ag_terminal_fault := Some reason }} end.

Definition agent_record_drop_at (a : Agent) (n now : Z) : Agent :=
  if n =? 0 then a else a {{ ag_loader ::= fun l => record_drop l n; ag_ring_drop_at := Some now }}.

Definition record_decode_failure_at (a : Agent) (n now : Z) : Agent :=
  if n =? 0 then a else
  let a := a {{ ag_decode_failed ::= add64 n; ag_decode_failed_at := Some now }} in
  let old := ag_decode_failed_run a in
  let a := a {{ ag_decode_failed_run := (old + n) mod U64 }} in
  if DECODE_FAILURE_RUN_MAX <=? old + n then mark_terminal_fault a [Lit DATAPATH_UNDECODABLE] else a.

Definition record_decode_success (a : Agent) (n : Z) : Agent :=
  if n =? 0 then a else a {{ ag_decode_failed_run := 0 }}.

(** [{stamp:#06x}] of a [u16] is left as its number. *)
Definition record_datapath_abi_mismatch_at (a : Agent) (stamp now : Z) : Agent :=
  let a := a {{ ag_datapath_abi_mismatch ::= add64 1 }} in
  let a := record_decode_failure_at a 1 now in
  mark_terminal_fault a [Lit DATAPATH_ABI_MISMATCH; Lit " (record stamp "; Num stamp; Lit ", this agent decodes ";
                         Num DATAPATH_ABI; Lit ")"].

Definition note_status_write (a : Agent) (ok : bool) : Agent :=
  let a := if negb ok then a {{ ag_status_write_failed_count ::= add64 1 }} else a in
  a {{ ag_status_write_failed := negb ok }}.

Definition note_bundle_stat (a : Agent) (readable : bool) : Agent :=
  if readable then a {{ ag_bundle_unreadable := false }}
  else a {{ ag_bundle_unreadable := true; ag_bundle_stat_failed ::= add64 1 }}.

(** What [EventSink] reports of itself. *)
Record SinkState := { sk_dead : bool; sk_queue_dropped : Z; sk_write_failed : Z; sk_writer_lost : Z }.

Definition sat_add (x y : Z) : Z := Z.min (x + y) (U64 - 1).

Definition note_export_state_at (a : Agent) (sink : SinkState) (now : Z) : Agent :=
  let a := if sk_dead sink then a {{ ag_export_dead := true }} else a in
  let lost := sat_add (sat_add (sk_queue_dropped sink) (sk_write_failed sink)) (sk_writer_lost sink) in
  let seen := ag_export_lost_seen a in
  let a := a {{ ag_export_lost_seen := Z.max seen lost }} in
  if seen <? lost then a {{ ag_export_lost_at := Some now }} else a.

(** [Agent::now_from]; [written] is whether the clock's file can be written. *)
Definition agent_now_from (a : Agent) (wall : Z) (written : bool) : Z * Agent :=
  let before := mf_rollbacks (ag_clock a) in
  let '(now, clock) := now_from (ag_clock a) wall written in
  let a := a {{ ag_clock := clock }} in
  (now, if negb (mf_rollbacks clock =? before) then a {{ ag_clock_rollback := true }} else a).

(** ** Kernel rules *)

Definition mark_selected_cgroups (a : Agent) (entries : Z) : Agent := a {{ ag_selected_cgroups := entries }}.

Definition selected_cgroups_for_last_good (a : Agent) : gset Z :=
  match ld_last_good (ag_loader a) with
  | None => ∅
  | Some bundle =>
      if selector_is_empty (selector (lb_spec bundle)) then ∅
      else index_select (ag_cgroups a) (selector_matches (selector (lb_spec bundle)))
  end.

Definition kernel_rules_for_last_good_on (a : Agent) (layout : ExecPathLayout) : option KernelRuleSet :=
  (fun bundle => compile_kernel_rules_for (lb_spec bundle) layout) <$> ld_last_good (ag_loader a).

Definition mark_kernel_rules_synced (a : Agent) (set : KernelRuleSet) (installed : Z) : Agent :=
  a {{ ag_kernel_rules_installed := installed; ag_kernel_rules_excluded := len (krs_excluded set);
       ag_kernel_rules_refused := krs_refused set; ag_kernel_rules_unsynced := None }}.

Definition mark_kernel_rules_unsynced (a : Agent) (err : msg) : Agent :=
  a {{ ag_kernel_rules_installed := 0; ag_kernel_rules_unsynced := Some err }}.

Inductive KernelPublishStep := RetireRules | PublishSelected | PublishRules.

Definition plan_kernel_publish (digest published : option string) (selected_changed : bool)
    : list KernelPublishStep :=
  let policy_changed := negb (bool_decide (digest = published)) in
  if negb policy_changed then (if selected_changed then [PublishSelected] else [])
  else [RetireRules] ++ (if selected_changed then [PublishSelected] else []) ++ [PublishRules].

(** ** The container map *)

Definition container_map_stale_at (a : Agent) (now : Z) : bool :=
  ag_container_map_synced a && negb (within (ag_container_map_synced_at a) now CONTAINER_MAP_SYNC_BUDGET).

Definition container_map_ready_at (a : Agent) (now : Z) : bool :=
  ag_container_map_synced a && (0 <? ag_container_map_entries a)
  && match ag_container_map_error a with None => true | Some _ => false end
  && negb (container_map_stale_at a now).

Definition set_container_map_synced_at (a : Agent) (entries at_ : Z) : Agent :=
  a {{ ag_container_map_synced_at := Some at_; ag_container_map_entries := entries;
       ag_container_map_synced := true; ag_container_map_error := None }}.

Definition mark_container_map_error (a : Agent) (reason : string) : Agent :=
  a {{ ag_container_map_synced := false; ag_container_map_error := Some reason }}.

(** [synced_at.is_some_and(|at| at > opened)]. *)
Definition synced_since (synced_at : option Z) (opened : Z) : bool :=
  match synced_at with Some at_ => opened <? at_ | None => false end.

Definition evict_unproven (windows : gmap Z UnprovenWindow) (synced_at : option Z) (now : Z)
    : gmap Z UnprovenWindow :=
  let before := size windows in
  let proven (w : UnprovenWindow) :=
    synced_since synced_at (uw_opened w) && (since now (uw_opened w) <? UNPROVEN_PROOF_TTL) in
  let kept := filter (fun kw : Z * UnprovenWindow => proven kw.2 = true) windows in
  if (size kept <? before)%nat then kept
  else
    let seen := merge_sort Z.le (map (fun kw => uw_seen kw.2) (map_to_list kept)) in
    let cut := default 0 (seen !! (before / 8)%nat) in
    filter (fun kw : Z * UnprovenWindow => cut < uw_seen kw.2) kept.

Definition container_unproven (a : Agent) (cgroup_id now : Z) : bool * Agent :=
  if negb (container_map_ready_at a now) then (false, a) else
  let synced_at := ag_container_map_synced_at a in
  let windows := ag_container_unproven_window a in
  let windows :=
    if (CONTAINER_FLAG_TRACKED_MAX <=? Z.of_nat (size windows)) && bool_decide (windows !! cgroup_id = None)
    then evict_unproven windows synced_at now else windows in
  let entry := default {| uw_opened := now; uw_seen := now |} (windows !! cgroup_id) in
  let opened := if UNPROVEN_PROOF_TTL <=? since now (uw_opened entry) then now else uw_opened entry in
  (negb (synced_since synced_at opened),
   a {{ ag_container_unproven_window := <[cgroup_id := {| uw_opened := opened; uw_seen := now |}]> windows }}).

Definition note_container_flag_disagreement (a : Agent) (cgroup_id now : Z) : bool * Agent :=
  let a := a {{ ag_container_flag_disagreement ::= add64 1 }} in
  let synced_at := ag_container_map_synced_at a in
  let windows := ag_container_flag_window a in
  let windows :=
    if (CONTAINER_FLAG_TRACKED_MAX <=? Z.of_nat (size windows)) && bool_decide (windows !! cgroup_id = None)
    then filter (fun kv : Z * Z => since now kv.2 < CONTAINER_FLAG_GRACE) windows else windows in
  let opened := default now (windows !! cgroup_id) in
  let windows := <[cgroup_id := opened]> windows in
  if (since now opened <? CONTAINER_FLAG_GRACE) || negb (synced_since synced_at opened) then
    (false, a {{ ag_container_flag_window := windows }})
  else
    (true, a {{ ag_container_flag_window := delete cgroup_id windows; ag_container_flag_fault_at := Some now }}).

(** ** A fresh agent *)

Record AgentConfig := {
  ac_role : AgentRole;
  ac_lkg_dir : option string;
  ac_trust_root : list Z;
  ac_bundle_path : option string;
  ac_exceptions : list PolicyExceptionSpec;
  ac_policy_name : string
}.

Definition AgentConfig_default : AgentConfig :=
  {| ac_role := RoleObserve; ac_lkg_dir := None; ac_trust_root := []; ac_bundle_path := None;
     ac_exceptions := []; ac_policy_name := "" |}.

(** [Agent::new] up to the restore; [check] is the [ProcCgroupCheck] it builds, [disk] the
    time its directory remembers and [wall] the clock. *)
Definition agent_fresh (config : AgentConfig) (check : TargetCheck) (disk : option Z) (wall now : Z) : Agent := {|
  ag_role := ac_role config;
  ag_loader := match ac_lkg_dir config with Some dir => loader_with_lkg_dir dir | None => loader_new end;
  ag_cgroups := ∅;
  ag_cp_down := false;
  ag_lkg_dir := ac_lkg_dir config;
  ag_trust_root := ac_trust_root config;
  ag_bundle_path := ac_bundle_path config;
  ag_exceptions := ac_exceptions config;
  ag_policy_name := ac_policy_name config;
  ag_exceptions_reload_failed := 0;
  ag_exceptions_dropped := false;
  ag_decode_failed := 0;
  ag_decode_failed_run := 0;
  ag_datapath_abi_mismatch := 0;
  ag_unknown_syscalls := 0;
  ag_datapath_degraded := false;
  ag_clock_rollback := false;
  ag_attached := false;
  ag_responder := None;
  ag_target_check := check;
  ag_respond_disabled := None;
  ag_self_tgid_unpublished := false;
  ag_clock := anchor_from_exceptions_at
    (match ac_lkg_dir config with Some dir => with_dir_at dir disk wall | None => floor_new end)
    (ac_exceptions config) wall now;
  ag_respond_kill := 0;
  ag_respond_refused := 0;
  ag_respond_role_skipped := 0;
  ag_respond_failed := 0;
  ag_respond_stale_target := 0;
  ag_respond_target_confirmed := 0;
  ag_respond_target_unprovable := 0;
  ag_export_dead := false;
  ag_container_map_synced := false;
  ag_container_map_entries := 0;
  ag_container_map_error := None;
  ag_container_flag_disagreement := 0;
  ag_lsm_attached := false;
  ag_lsm_fallback := false;
  ag_kernel_rules_installed := 0;
  ag_kernel_rules_excluded := 0;
  ag_selected_cgroups := 0;
  ag_kernel_rules_refused := None;
  ag_kernel_rules_unsynced := None;
  ag_identity_unknown := 0;
  ag_identity_unknown_at := None;
  ag_container_map_synced_at := None;
  ag_container_flag_window := ∅;
  ag_container_flag_fault_at := None;
  ag_container_unproven_window := ∅;
  ag_container_unproven := 0;
  ag_bundle_unreadable := false;
  ag_bundle_stat_failed := 0;
  ag_status_write_failed := false;
  ag_status_write_failed_count := 0;
  ag_labels_unknown := 0;
  ag_labels_unknown_at := None;
  ag_ring_drop_at := None;
  ag_path_truncated := 0;
  ag_path_truncated_at := None;
  ag_lkg_rules_dropped := 0;
  ag_lkg_partial := false;
  ag_decode_failed_at := None;
  ag_export_lost_seen := 0;
  ag_export_lost_at := None;
  ag_terminal_fault := None;
  ag_degraded_reported := None
|}.
