(* ===== verification/Degraded.v ===== *)
(** * Why the agent is degraded

    [degraded_reasons_at] and its callers in [crates/ferrum-agent/src/lib.rs], and the
    table of [metrics.rs] that gives every reason a stable id. *)

From coqutil Require Import Datatypes.RecordSetters.
From S2P Require Import Prelude RustStd RustText Ids Api Policy Encode Compiler Envelope Febp RuntimeEval.
From S2P Require Import KRules Event Loader Grant Clock Cgroup Labels Pods Respond AgentState.

Definition RESPOND_NO_HOST_PIDNS : string :=
  "respond disabled: agent is not in the host pid namespace, datapath tgids would not resolve".

(** ** Waivers that apply to nothing *)

Definition waiver_can_apply (a : Agent) (spec : PolicyExceptionSpec) (now : Z) : bool :=
  if str_empty (ag_policy_name a) then false
  else match et_rules (pe_target spec) with
       | [] => false
       | rule :: _ => exception_applies spec (et_namespace (pe_target spec)) (ag_policy_name a) rule now
       end.

(** [BTreeSet] of the policies the specs name, joined with commas, or [none]. *)
Fixpoint join_comma (l : list string) : msg :=
  match l with [] => [] | [n] => [Str n] | n :: l' => Str n :: Lit ", " :: join_comma l' end.

Definition waiver_names (specs : list PolicyExceptionSpec) : msg :=
  let named := map fst (btree_iter (insert_all
    (map (fun p => (p, tt)) (flat_map (fun spec => et_policies (pe_target spec)) specs)))) in
  match named with [] => [Lit "none"] | _ => join_comma named end.

Definition names_policy (a : Agent) (spec : PolicyExceptionSpec) : bool :=
  existsb (fun p => str_eqb p (ag_policy_name a)) (et_policies (pe_target spec)).

Fixpoint join_semicolon (l : list msg) : msg :=
  match l with [] => [] | [m] => m | m :: l' => m ++ Lit "; " :: join_semicolon l' end.

Definition waivers_unjoined (a : Agent) (wall : Z) (written : bool) : option msg * Agent :=
  let held := len (ag_exceptions a) in
  if held =? 0 then (None, a) else
  let '(now, a) := agent_now_from a wall written in
  let inert := List.filter (fun spec => negb (waiver_can_apply a spec now)) (ag_exceptions a) in
  if is_empty inert then (None, a)
  else if str_empty (ag_policy_name a) then
    (Some ([Lit WAIVERS_UNJOINED; Lit ": "; Num held;
            Lit " loaded, and this agent was started without --policy-name, so no waiver can ever apply (they name: "]
           ++ waiver_names inert ++ [Lit ")"]), a)
  else
    let unjoined := List.filter (fun spec => negb (names_policy a spec)) inert in
    let joined := List.filter (fun spec => names_policy a spec) inert in
    let expired := len (List.filter (fun spec => pe_expires_at spec <=? now) joined) in
    let rest := len (List.filter (fun spec => negb (pe_expires_at spec <=? now)) joined) in
    let parts :=
      (if is_empty unjoined then []
       else [[Num (len unjoined); Lit " name another policy (they name: "] ++ waiver_names unjoined ++ [Lit ")"]]) ++
      (if 0 <? expired then [[Num expired; Lit " expired"]] else []) ++
      (if 0 <? rest then [[Num rest;
         Lit " cannot match any record (no rule named, or the four-eyes and TTL checks refuse them)"]] else []) in
    (Some ([Lit WAIVERS_UNJOINED; Lit ": "; Num (len inert); Lit " of "; Num held;
            Lit " loaded waivers can demote nothing on policy '"; Str (ag_policy_name a); Lit "': "]
           ++ join_semicolon parts), a).

(** ** The reasons *)

Definition push (c : bool) (text : string) : list msg := if c then [[Lit text]] else [].

(** [text], or [text: detail] when there is a detail. *)
Definition detailed (text : string) (detail : msg) : list msg := [Lit text :: Lit ": " :: detail].

Definition degraded_reasons_at (a : Agent) (now wall : Z) (written : bool) : list msg * Agent :=
  let '(unjoined, a') := waivers_unjoined a wall written in
  (push (ag_cp_down a) DEG_CONTROL_PLANE_DOWN ++
   push (loader_is_degraded (ag_loader a)) DEG_LOADER ++
   push (negb (ag_attached a)) DEG_NOT_ATTACHED ++
   push (ag_attached a && ag_lsm_fallback a) DEG_LSM_FALLBACK ++
   push (ag_datapath_degraded a) DEG_DATAPATH ++
   push (ag_clock_rollback a) DEG_CLOCK_ROLLBACK ++
   push (mf_persist_failing (ag_clock a)) DEG_CLOCK_FLOOR_UNPERSISTED ++
   push (ag_bundle_unreadable a) DEG_BUNDLE_UNREADABLE ++
   push (bool_decide (ag_cgroups a = ∅)) DEG_CGROUP_INDEX_EMPTY ++
   (if container_map_ready_at a now then []
    else match ag_container_map_error a with
         | Some err => detailed DEG_CONTAINER_MAP [Str err]
         | None => [[Lit DEG_CONTAINER_MAP]]
         end) ++
   match ag_kernel_rules_unsynced a with Some err => detailed DEG_KERNEL_RULES_UNSYNCED err | None => [] end ++
   push (ag_export_dead a) DEG_EXPORT_DEAD ++
   push (within (ag_export_lost_at a) now DEGRADED_RECOVERY) DEG_EXPORT_LOSSY ++
   push (within (ag_decode_failed_at a) now DEGRADED_RECOVERY) DEG_DECODE_FAILURES ++
   match ag_terminal_fault a with Some fault => [fault] | None => [] end ++
   push (within (ag_labels_unknown_at a) now DEGRADED_RECOVERY) DEG_LABELS_UNKNOWN ++
   push (within (ag_ring_drop_at a) now DEGRADED_RECOVERY) DEG_RING_DROPS ++
   push (within (ag_path_truncated_at a) now DEGRADED_RECOVERY) DEG_PATH_TRUNCATED ++
   push (within (ag_identity_unknown_at a) now DEGRADED_RECOVERY) DEG_IDENTITY_UNKNOWN ++
   push (ag_lkg_partial a) DEG_LKG_PARTIAL ++
   push (within (ag_container_flag_fault_at a) now DEGRADED_RECOVERY) DEG_CONTAINER_FLAG ++
   push (ag_status_write_failed a) DEG_STATUS_UNWRITABLE ++
   match ag_respond_disabled a with Some reason => [[Lit reason]] | None => [] end ++
   match unjoined with Some reason => [reason] | None => [] end ++
   push (ag_exceptions_dropped a) DEG_WAIVERS_DROPPED ++
   push (respond_enabled (ag_role a) && ag_self_tgid_unpublished a) SELF_TGID_UNPUBLISHED ++
   (if respond_enabled (ag_role a) then
      match tc_unprovable (TargetCheck := ag_target_check a) with
      | Some why => detailed TARGET_CHECK_UNPROVABLE why
      | None => push ((ag_respond_target_confirmed a =? 0) && (RESPOND_TARGET_UNPROVEN_MIN <=? ag_respond_stale_target a))
                  TARGET_NEVER_PROVEN
      end ++
      push ((ag_respond_kill a =? 0) && (RESPOND_SIGNAL_FAILING_MIN <=? ag_respond_failed a)) RESPOND_SIGNAL_FAILING
    else []),
   a').

Definition is_degraded_at (a : Agent) (now wall : Z) (written : bool) : bool :=
  negb (is_empty (fst (degraded_reasons_at a now wall written))).

Record DegradedState := { ds_degraded : bool; ds_reasons : list msg; ds_transition : bool }.

(** [degraded_state_at]; the JSON of the transition line is left as whether there is
    one. *)
Definition degraded_state_at (a : Agent) (now wall : Z) (written : bool) : DegradedState * Agent :=
  let '(reasons, a) := degraded_reasons_at a now wall written in
  let changed := negb (bool_decide (ag_degraded_reported a = Some reasons)) in
  ({| ds_degraded := negb (is_empty reasons); ds_reasons := reasons; ds_transition := changed |},
   a {{ ag_degraded_reported := Some reasons }}).

Definition degraded_snapshot_at (a : Agent) (now wall : Z) (written : bool) : DegradedState * Agent :=
  let '(reasons, a) := degraded_reasons_at a now wall written in
  ({| ds_degraded := negb (is_empty reasons); ds_reasons := reasons; ds_transition := false |}, a).

(** ** Ids of reasons *)

Definition UNMAPPED_REASON_ID : string := "unmapped".

Definition DEGRADED_REASON_IDS : list (string * string) :=
  [ (CGROUP_ROOT_UNDERIVABLE, "cgroup_root_underivable"); (DATAPATH_ABI_MISMATCH, "datapath_abi_mismatch");
    (DATAPATH_UNDECODABLE, "datapath_undecodable"); (DEG_BUNDLE_UNREADABLE, "bundle_unreadable");
    (DEG_CGROUP_INDEX_EMPTY, "cgroup_index_empty"); (DEG_CLOCK_FLOOR_UNPERSISTED, "clock_floor_unpersisted");
    (DEG_CLOCK_ROLLBACK, "clock_rollback"); (DEG_CONTAINER_FLAG, "container_flag_disagreement");
    (DEG_CONTAINER_MAP, "container_map_not_ready"); (DEG_CONTROL_PLANE_DOWN, "control_plane_down");
    (DEG_DATAPATH, "datapath_unknown_syscall"); (DEG_DECODE_FAILURES, "decode_failures");
    (DEG_EXPORT_DEAD, "export_dead"); (DEG_EXPORT_LOSSY, "export_lossy");
    (DEG_IDENTITY_UNKNOWN, "identity_unknown"); (DEG_KERNEL_RULES_UNSYNCED, "kernel_rules_unsynced");
    (DEG_LABELS_UNKNOWN, "labels_unknown"); (DEG_LKG_PARTIAL, "lkg_partial"); (DEG_LOADER, "loader_degraded");
    (DEG_LSM_FALLBACK, "lsm_fallback"); (DEG_NOT_ATTACHED, "not_attached");
    (DEG_PATH_TRUNCATED, "path_truncated"); (DEG_RING_DROPS, "ring_drops");
    (DEG_STATUS_UNWRITABLE, "status_unwritable"); (DEG_WAIVERS_DROPPED, "waivers_dropped");
    (RECORD_CHANNEL_GONE, "record_channel_gone"); (RESPOND_NO_HOST_PIDNS, "respond_no_host_pidns");
    (RESPOND_SIGNAL_FAILING, "respond_signal_failing"); (SELF_TGID_UNPUBLISHED, "self_tgid_unpublished");
    (TARGET_CHECK_UNPROVABLE, "target_check_unprovable"); (TARGET_NEVER_PROVEN, "target_never_proven");
    (WAIVERS_UNJOINED, "waivers_unjoined") ].

(** The loop keeps the longest text the reason starts with. *)
Fixpoint best_id (reason : string) (table : list (string * string)) (best : option (Z * string)) : option (Z * string) :=
  match table with
  | [] => best
  | (text, id) :: table' =>
      best_id reason table'
        (if starts_with reason text && match best with None => true | Some (n, _) => n <? slen text end
         then Some (slen text, id) else best)
  end.

Definition degraded_reason_id (reason : string) : string :=
  match best_id reason DEGRADED_REASON_IDS None with Some (_, id) => id | None => UNMAPPED_REASON_ID end.

(** ** Every reason has its own id *)

Lemma table_prefix_free x y :
  x ∈ DEGRADED_REASON_IDS -> y ∈ DEGRADED_REASON_IDS -> starts_with y.1 x.1 = true -> x = y.
Proof.
  assert (H : forallb (fun x => forallb (fun y => bool_decide (x = y) || negb (starts_with y.1 x.1))
                                  DEGRADED_REASON_IDS) DEGRADED_REASON_IDS = true) by (vm_compute; reflexivity).
  intros Hx Hy Hs. rewrite forallb_forall in H. specialize (H x (proj1 (list_elem_of_In _ _) Hx)).
  rewrite forallb_forall in H. specialize (H y (proj1 (list_elem_of_In _ _) Hy)).
  rewrite Hs in H. apply orb_true_iff in H as [H|H]; [by bool_hyps | done].
Qed.

(** Two texts a string starts with: one starts with the other. *)
Lemma starts_with_both s x y :
  starts_with s x = true -> starts_with s y = true -> starts_with x y = true \/ starts_with y x = true.
Proof.
  unfold starts_with. rewrite !prefixb_spec. intros [k1 H1] [k2 H2]. rewrite H1 in H2.
  destruct (app_eq_inv _ _ _ _ H2) as [(k & -> & _)|(k & -> & _)]; [left | right]; by exists k.
Qed.

Lemma best_id_only reason text id table best :
  (forall t i, (t, i) ∈ table -> starts_with reason t = true -> t = text /\ i = id) ->
  (best = None /\ starts_with reason text = true /\ (text, id) ∈ table \/ best = Some (slen text, id)) ->
  best_id reason table best = Some (slen text, id).
Proof.
  revert best. induction table as [|[t i] table IH]; intros best Hall Hbest; simpl.
  - destruct Hbest as [(_ & _ & ?%not_elem_of_nil)|]; done.
  - apply IH; [intros t' i' Hin; apply Hall; by right|].
    destruct (starts_with reason t) eqn:Hs; simpl.
    + destruct (Hall t i (list_elem_of_here _ _) Hs) as [-> ->]. right.
      destruct Hbest as [(-> & _)| ->]; [done|]. by destruct (slen text <? slen text).
    + destruct Hbest as [(-> & Hst & Hin)| ->]; [left | by right]. split_and!; try done.
      apply elem_of_cons in Hin as [[= <- <-]|Hin]; [congruence | done].
Qed.

Lemma starts_with_self text tail : starts_with (text +:+ tail) text = true.
Proof. unfold starts_with. apply prefixb_spec. exists (as_bytes tail). apply as_bytes_app. Qed.

(** Whatever follows the sentence, the id is the sentence's own. *)
Lemma reason_id_exact text id tail :
  (text, id) ∈ DEGRADED_REASON_IDS -> degraded_reason_id (text +:+ tail) = id /\ id <> UNMAPPED_REASON_ID.
Proof.
  intros Hin. pose proof (starts_with_self text tail) as Hst. split.
  - unfold degraded_reason_id. rewrite (best_id_only (text +:+ tail) text id); [done| |by left].
    intros t i Ht Hs. enough ((t, i) = (text, id)) as [= -> ->] by done.
    destruct (starts_with_both _ _ _ Hst Hs) as [H|H].
    + by apply (table_prefix_free (t, i) (text, id)).
    + symmetry. by apply (table_prefix_free (text, id) (t, i)).
  - assert (H : forallb (fun x => negb (str_eqb x.2 UNMAPPED_REASON_ID)) DEGRADED_REASON_IDS = true)
      by (vm_compute; reflexivity).
    rewrite forallb_forall in H. specialize (H _ (proj1 (list_elem_of_In _ _) Hin)).
    intros ->. by rewrite str_eqb_refl in H.
Qed.

(** A sentence of the table, with whatever detail after it. *)
Definition named_reason (m : msg) : Prop :=
  exists text id rest, m = Lit text :: rest /\ (text, id) ∈ DEGRADED_REASON_IDS.

Definition fault_texts : list string :=
  [CGROUP_ROOT_UNDERIVABLE; DATAPATH_ABI_MISMATCH; DATAPATH_UNDECODABLE; RECORD_CHANNEL_GONE].

(** The free-text slots hold only sentences of the table. *)
Record slots_named (a : Agent) : Prop := {
  sn_fault m : ag_terminal_fault a = Some m -> exists text rest, m = Lit text :: rest /\ text ∈ fault_texts;
  sn_disabled r : ag_respond_disabled a = Some r -> r = RESPOND_NO_HOST_PIDNS
}.

Definition has_id (text : string) : bool := existsb (fun x => str_eqb x.1 text) DEGRADED_REASON_IDS.

Lemma has_id_named text rest : has_id text = true -> named_reason (Lit text :: rest).
Proof.
  intros H. apply existsb_exists in H as ([t id] & Hin%list_elem_of_In & Ht%str_eqb_true). simpl in Ht. subst t.
  by exists text, id, rest.
Qed.

Lemma push_named c text : has_id text = true -> Forall named_reason (push c text).
Proof. intros H. unfold push. destruct c; [|constructor]. apply Forall_singleton. by apply has_id_named. Qed.

Lemma waivers_unjoined_named a wall written m a' :
  waivers_unjoined a wall written = (Some m, a') -> named_reason m.
Proof.
  unfold waivers_unjoined. destruct (_ =? 0); [done|]. destruct (agent_now_from a wall written) as [now a1].
  destruct (is_empty _); [done|]. destruct (str_empty _); intros [= <- _]; by apply has_id_named.
Qed.

Lemma reasons_named a now wall written :
  slots_named a -> Forall named_reason (degraded_reasons_at a now wall written).1.
Proof.
  intros [Hf Hd]. unfold degraded_reasons_at. destruct (waivers_unjoined a wall written) as [unjoined a'] eqn:Hu.
  cbn [fst]. repeat (apply Forall_app; split); try (apply push_named; vm_compute; reflexivity).
  - destruct (container_map_ready_at a now); [constructor|].
    destruct (ag_container_map_error a); apply Forall_singleton, has_id_named; vm_compute; reflexivity.
  - destruct (ag_kernel_rules_unsynced a); [|constructor]. apply Forall_singleton, has_id_named. vm_compute. reflexivity.
  - destruct (ag_terminal_fault a) as [m|]; [|constructor]. destruct (Hf m eq_refl) as (text & rest & -> & Hin).
    apply Forall_singleton, has_id_named.
    assert (H : forallb has_id fault_texts = true) by (vm_compute; reflexivity).
    rewrite forallb_forall in H. by apply H, list_elem_of_In.
  - destruct (ag_respond_disabled a) as [r|]; [|constructor]. rewrite (Hd r eq_refl).
    apply Forall_singleton, has_id_named. vm_compute. reflexivity.
  - destruct unjoined as [m|]; [|constructor]. apply Forall_singleton. by eapply waivers_unjoined_named.
  - destruct (respond_enabled (ag_role a)); [|constructor]. apply Forall_app. split; [|apply push_named; vm_compute; reflexivity].
    destruct (tc_unprovable); [|apply push_named; vm_compute; reflexivity].
    apply Forall_singleton, has_id_named. vm_compute. reflexivity.
Qed.
