(* ===== verification/React.v ===== *)
(** * The decision path of the node agent

    [handle_event_at], [react] and [waiver_applies] of [crates/ferrum-agent/src/lib.rs],
    the record pump of [pump.rs] and the ring schedule of [ring.rs]: what the agent does
    with one record, which process it signals, and what it writes down. The sink's own
    state after the record is an argument. *)

From coqutil Require Import Datatypes.RecordSetters.
From S2P Require Import Prelude RustStd RustText Ids Api Policy Encode Compiler Envelope Febp RuntimeEval.
From S2P Require Import Datapath Event Loader Grant Clock Cgroup Labels Pods Respond AgentState.

(** ** The record of a decision *)

Record WaiverRef := {
  wr_ticket : string;
  wr_requested_by : string;
  wr_approved_by : string;
  wr_expires_at : Z
}.

Record EnforcementEvent := {
  ee_policy : string;
  ee_rule : string;
  ee_action : string;
  ee_image_digest : option string;
  ee_pod : string;
  ee_namespace : string;
  ee_comm : string;
  ee_syscall : string;
  ee_pid : Z;
  ee_tgid : Z;
  ee_executed : bool;
  ee_respond_error : option msg;
  ee_labels_unknown : bool;
  ee_path_unknown : bool;
  ee_container_unknown : bool;
  ee_waiver : option WaiverRef
}.

(** What [react] answers: whether the signal was sent, why not, and the tgids it handed
    to [Responder::kill]. *)
Record Reaction := {
  re_executed : bool;
  re_error : option msg;
  re_kills : list Z
}.

Definition refusal (why : msg) : Reaction := {| re_executed := false; re_error := Some why; re_kills := [] |}.
Definition no_reaction : Reaction := {| re_executed := false; re_error := None; re_kills := [] |}.

Definition count_refused (a : Agent) : Agent := a {{ ag_respond_refused ::= add64 1 }}.

(** [Action::Kill | Action::Isolate | Action::Deny]. *)
Definition enforces (action : Action) : bool :=
  match action with Kill | Isolate | Deny => true | Allow | Audit => false end.

(** ** [react]: [self_pid] is [std::process::id()] *)

Definition react_kill (a : Agent) (tgid : Z) : Reaction * Agent :=
  match ag_responder a with
  | None => (refusal [Lit REFUSE_NO_RESPONDER], count_refused a)
  | Some responder =>
      match respond_kill_with (Responder := responder) tgid with
      | Ok _ => ({| re_executed := true; re_error := None; re_kills := [tgid] |}, a {{ ag_respond_kill ::= add64 1 }})
      | Err err => ({| re_executed := false; re_error := Some (error_to_string err); re_kills := [tgid] |},
                    a {{ ag_respond_failed ::= add64 1 }})
      end
  end.

Definition react (self_pid : Z) (a : Agent) (decision : Decision) (meta : EventMeta)
    (identity : WorkloadIdentity) (event : SyscallEvent) : Reaction * Agent :=
  match d_action decision with
  | Deny => (refusal [Lit REFUSE_DENY_NOT_ENFORCEABLE], count_refused a)
  | Allow | Audit => (no_reaction, a)
  | Kill | Isolate =>
      match refuse_reason self_pid (respond_enabled (ag_role a)) (em_tgid meta)
              (em_agent_self meta || se_agent_self event) (em_in_container meta && se_in_container event)
              (is_unknown identity) (d_labels_unknown decision) with
      | Some reason =>
          (refusal [Lit reason],
           if str_eqb reason REFUSE_ROLE then a {{ ag_respond_role_skipped ::= add64 1 }} else count_refused a)
      | None =>
          if bool_decide (d_action decision = Isolate) then (refusal [Lit REFUSE_ISOLATE], count_refused a) else
          match tc_unprovable (TargetCheck := ag_target_check a) with
          | Some why =>
              (refusal ([Lit REFUSE_TARGET_UNPROVABLE; Lit ": "] ++ why),
               count_refused (a {{ ag_respond_target_unprovable ::= add64 1 }}))
          | None =>
              match tc_cgroup_id (TargetCheck := ag_target_check a) (em_tgid meta) with
              | Some current =>
                  if current =? em_cgroup_id meta
                  then react_kill (a {{ ag_respond_target_confirmed ::= add64 1 }}) (em_tgid meta)
                  else (refusal [Lit REFUSE_STALE_TARGET],
                        count_refused (a {{ ag_respond_stale_target ::= add64 1 }}))
              | None => (refusal [Lit REFUSE_TARGET_GONE],
                         count_refused (a {{ ag_respond_stale_target ::= add64 1 }}))
              end
          end
      end
  end.

Definition waiver_applies (a : Agent) (decision : Decision) (identity : WorkloadIdentity) (now : Z)
    : option PolicyExceptionSpec :=
  if str_empty (ag_policy_name a) then None
  else if negb (enforces (d_action decision)) then None
  else rule ← d_rule_id decision;
       List.find (fun spec => exception_applies spec (wi_namespace identity) (ag_policy_name a) rule now)
         (ag_exceptions a).

Definition waiver_ref (spec : PolicyExceptionSpec) : WaiverRef :=
  {| wr_ticket := pe_ticket spec; wr_requested_by := pe_requested_by spec;
     wr_approved_by := pe_approved_by spec; wr_expires_at := pe_expires_at spec |}.

Definition apply_role (role : AgentRole) (action : Action) : Action :=
  match role, action with
  | RoleObserve, (Kill | Isolate) => Audit
  | _, action => action
  end.

(** ** One event *)

(** The [Instant::now()] readings of one call, in the order they are taken. *)
Record Readings := { rd_at : Z; rd_identity : Z; rd_labels : Z; rd_path : Z; rd_export : Z }.

Definition with_action (d : Decision) (action : Action) : Decision :=
  {| d_action := action; d_rule_id := d_rule_id d; d_labels_unknown := d_labels_unknown d;
     d_path_unknown := d_path_unknown d; d_container_unknown := d_container_unknown d |}.

(** The workload a record names, and whether its container flag is unproven. *)
Definition resolve_identity (a : Agent) (meta : EventMeta) (rd : Readings) : WorkloadIdentity * bool * Agent :=
  match lookup_cgroup (ag_cgroups a) (em_cgroup_id meta) with
  | Ok id =>
      if em_in_container meta then (id, false, a)
      else (id, true, snd (note_container_flag_disagreement a (em_cgroup_id meta) (rd_identity rd)))
  | Err _ =>
      if em_in_container meta then (unknown_identity, false, record_identity_unknown a (rd_identity rd))
      else let '(unproven, a) := container_unproven a (em_cgroup_id meta) (rd_at rd) in
           (unknown_identity, unproven, a)
  end.

Definition handle_event_at (self_pid : Z) (a : Agent) (meta : EventMeta) (event : SyscallEvent)
    (sink : SinkState) (now : Z) (rd : Readings) : Decision * EnforcementEvent * list Z * Agent :=
  let '(identity, unproven, a) := resolve_identity a meta rd in
  let decision := loader_decide_with (ag_loader a) event identity unproven in
  let a := if d_labels_unknown decision then record_labels_unknown a (rd_labels rd) else a in
  let a := if d_path_unknown decision then record_path_truncated a (rd_path rd) else a in
  let waiver : option WaiverRef := waiver_ref <$> waiver_applies a decision identity now in
  let decision := if waiver is Some _ then with_action decision Audit else decision in
  let '(reaction, a) := react self_pid a decision meta identity event in
  let a := if d_container_unknown decision then record_container_unproven a else a in
  let respond_error :=
    if d_container_unknown decision
    then match re_error reaction with None => Some [Lit REFUSE_NOT_CONTAINER] | some => some end
    else re_error reaction in
  let decision := with_action decision (apply_role (ag_role a) (d_action decision)) in
  let record := {|
    ee_policy := match ld_last_good (ag_loader a) with Some loaded => lb_digest loaded | None => "none" end;
    ee_rule := match d_rule_id decision with Some id => id | None => "default" end;
    ee_action := if waiver is Some _ then WAIVED_ACTION else action_as_str (d_action decision);
    ee_image_digest := if str_empty (wi_image_digest identity) then None else Some (wi_image_digest identity);
    ee_pod := wi_pod identity; ee_namespace := wi_namespace identity;
    ee_comm := se_comm event; ee_syscall := se_syscall event;
    ee_pid := em_pid meta; ee_tgid := em_tgid meta;
    ee_executed := re_executed reaction; ee_respond_error := respond_error;
    ee_labels_unknown := d_labels_unknown decision; ee_path_unknown := d_path_unknown decision;
    ee_container_unknown := d_container_unknown decision; ee_waiver := waiver |} in
  (decision, record, re_kills reaction, note_export_state_at a sink (rd_export rd)).

(** [handle_event]: [wall] and [written] are the clock's reading and whether its file can
    be written. *)
Definition handle_event (self_pid : Z) (a : Agent) (meta : EventMeta) (event : SyscallEvent)
    (sink : SinkState) (wall : Z) (written : bool) (rd : Readings)
    : Decision * EnforcementEvent * list Z * Agent :=
  let '(now, a) := agent_now_from a wall written in
  handle_event_at self_pid a meta event sink now rd.

(** ** The pump *)

Record PumpStats := { ps_handled : Z; ps_decode_failed : Z; ps_unknown_syscall : Z }.

(** What the world is while one record is handled. *)
Record Moment := {
  mo_sink : SinkState;
  mo_wall : Z;
  mo_written : bool;
  mo_at : Z;
  mo_readings : Readings
}.

(** The pump so far: its counts, the records it wrote and the tgids it signalled. *)
Record PumpState := {
  pu_stats : PumpStats;
  pu_agent : Agent;
  pu_written : list EnforcementEvent;
  pu_kills : list Z
}.

Definition pump_record (self_pid : Z) (arch : SyscallArch) (p : PumpState) (item : list Z * Moment) : PumpState :=
  let '(record, mo) := item in
  let stats := pu_stats p in
  let a := pu_agent p in
  match decode_event record with
  | Ok event =>
      let a := record_decode_success a 1 in
      let view := syscall_event event arch in
      let '(stats, a) :=
        match syscall_name arch (ev_syscall_nr event) with
        | None => ({| ps_handled := ps_handled stats; ps_decode_failed := ps_decode_failed stats;
                      ps_unknown_syscall := ps_unknown_syscall stats + 1 |}, record_unknown_syscall a)
        | Some _ => ({| ps_handled := ps_handled stats + 1; ps_decode_failed := ps_decode_failed stats;
                        ps_unknown_syscall := ps_unknown_syscall stats |}, a)
        end in
      let '(_, written, kills, a) :=
        handle_event self_pid a (event_meta event) view (mo_sink mo) (mo_wall mo) (mo_written mo) (mo_readings mo) in
      {| pu_stats := stats; pu_agent := a; pu_written := pu_written p ++ [written];
         pu_kills := pu_kills p ++ kills |}
  | Err _ =>
      {| pu_stats := {| ps_handled := ps_handled stats; ps_decode_failed := ps_decode_failed stats + 1;
                        ps_unknown_syscall := ps_unknown_syscall stats |};
         pu_agent := match abi_stamp_mismatch record with
                     | Some stamp => record_datapath_abi_mismatch_at a stamp (mo_at mo)
                     | None => record_decode_failure_at a 1 (mo_at mo)
                     end;
         pu_written := pu_written p; pu_kills := pu_kills p |}
  end.

Definition pump_start (a : Agent) : PumpState :=
  {| pu_stats := {| ps_handled := 0; ps_decode_failed := 0; ps_unknown_syscall := 0 |};
     pu_agent := a; pu_written := []; pu_kills := [] |}.

Definition pump_records (self_pid : Z) (a : Agent) (arch : SyscallArch) (records : list (list Z * Moment))
    : PumpState := foldl (pump_record self_pid arch) (pump_start a) records.

(** ** The ring schedule *)

Definition IDLE_MIN : Z := 1000000.
Definition IDLE_MAX : Z := 10000000.

Record RingTick := {
  rt_records : Z;
  rt_sleep : option Z;
  rt_drop_delta : Z;
  rt_drop_check_failed : bool
}.

Record RingLoop := {
  rl_drop_interval : Z;
  rl_next_drop_check : Z;
  rl_idle : Z;
  rl_seen_drops : Z
}.

Definition ring_new (drop_interval now : Z) : RingLoop :=
  {| rl_drop_interval := drop_interval; rl_next_drop_check := now + drop_interval;
     rl_idle := IDLE_MIN; rl_seen_drops := 0 |}.

(** [records] is what [drain] returned and [dropped_total] what its closure would. *)
Definition tick (l : RingLoop) (now records : Z) (dropped_total : Result Z) : RingTick * RingLoop :=
  let '(sleep, idle) :=
    if records =? 0 then (Some (rl_idle l), Z.min (rl_idle l * 2) IDLE_MAX) else (None, IDLE_MIN) in
  if rl_next_drop_check l <=? now then
    let next := now + rl_drop_interval l in
    match dropped_total with
    | Ok total =>
        ({| rt_records := records; rt_sleep := sleep; rt_drop_delta := Z.max 0 (total - rl_seen_drops l);
            rt_drop_check_failed := false |},
         {| rl_drop_interval := rl_drop_interval l; rl_next_drop_check := next; rl_idle := idle;
            rl_seen_drops := total |})
    | Err _ =>
        ({| rt_records := records; rt_sleep := sleep; rt_drop_delta := 0; rt_drop_check_failed := true |},
         {| rl_drop_interval := rl_drop_interval l; rl_next_drop_check := next; rl_idle := idle;
            rl_seen_drops := rl_seen_drops l |})
    end
  else
    ({| rt_records := records; rt_sleep := sleep; rt_drop_delta := 0; rt_drop_check_failed := false |},
     {| rl_drop_interval := rl_drop_interval l; rl_next_drop_check := rl_next_drop_check l; rl_idle := idle;
        rl_seen_drops := rl_seen_drops l |}).

(** ** What one event leaves alone *)

(** The part of the agent a decision is made from and leaves alone, with the run of
    undecodable records. *)
Definition basis (a : Agent) :=
  (ag_role a, ag_loader a, ag_exceptions a, ag_policy_name a, ag_responder a, ag_target_check a,
   ag_decode_failed_run a).

(** The four ways a reaction ends, as the agent counts them. *)
Record Counts := { c_kill : Z; c_failed : Z; c_refused : Z; c_skipped : Z }.

Definition counts (a : Agent) : Counts :=
  {| c_kill := ag_respond_kill a; c_failed := ag_respond_failed a;
     c_refused := ag_respond_refused a; c_skipped := ag_respond_role_skipped a |}.

Lemma unproven_frame a cgroup now :
  basis (container_unproven a cgroup now).2 = basis a /\ counts (container_unproven a cgroup now).2 = counts a.
Proof. unfold container_unproven. by destruct (container_map_ready_at a now). Qed.

Lemma disagreement_frame a cgroup now :
  basis (note_container_flag_disagreement a cgroup now).2 = basis a /\
  counts (note_container_flag_disagreement a cgroup now).2 = counts a.
Proof. unfold note_container_flag_disagreement. cbn zeta. by destruct (_ || _). Qed.

Lemma resolve_frame a meta rd :
  basis (resolve_identity a meta rd).2 = basis a /\ counts (resolve_identity a meta rd).2 = counts a.
Proof.
  unfold resolve_identity. destruct (lookup_cgroup _ _) as [id|], (em_in_container meta); try done.
  - apply disagreement_frame.
  - destruct (container_unproven a _ _) as [u a'] eqn:E. cbn [snd].
    change a' with (u, a').2. rewrite <- E. apply unproven_frame.
Qed.

Lemma export_frame a sink now :
  basis (note_export_state_at a sink now) = basis a /\ counts (note_export_state_at a sink now) = counts a.
Proof. unfold note_export_state_at. cbn zeta. by destruct (sk_dead sink), (_ <? _). Qed.

(** ** When [react] signals *)

Record may_kill (self_pid : Z) (a : Agent) (decision : Decision) (meta : EventMeta)
    (identity : WorkloadIdentity) (event : SyscallEvent) : Prop := {
  mk_action : d_action decision = Kill;
  mk_role : ag_role a = RoleRespond;
  mk_not_self : em_agent_self meta = false /\ se_agent_self event = false;
  mk_container : em_in_container meta = true /\ se_in_container event = true;
  mk_named : is_unknown identity = false;
  mk_scope : d_labels_unknown decision = false;
  mk_signalable : signalable self_pid (em_tgid meta);
  mk_provable : tc_unprovable (TargetCheck := ag_target_check a) = None;
  mk_target : tc_cgroup_id (TargetCheck := ag_target_check a) (em_tgid meta) = Some (em_cgroup_id meta);
  mk_responder : exists r, ag_responder a = Some r
}.

Inductive Outcome := Killed | KillFailed | Refused | RoleSkipped | Idle.

Definition bump (o : Outcome) (c : Counts) : Counts :=
  match o with
  | Killed => {| c_kill := add64 1 (c_kill c); c_failed := c_failed c; c_refused := c_refused c; c_skipped := c_skipped c |}
  | KillFailed => {| c_kill := c_kill c; c_failed := add64 1 (c_failed c); c_refused := c_refused c; c_skipped := c_skipped c |}
  | Refused => {| c_kill := c_kill c; c_failed := c_failed c; c_refused := add64 1 (c_refused c); c_skipped := c_skipped c |}
  | RoleSkipped => {| c_kill := c_kill c; c_failed := c_failed c; c_refused := c_refused c; c_skipped := add64 1 (c_skipped c) |}
  | Idle => c
  end.

(** The answer of the reaction and the counter it moves. *)
Definition outcome_of (role : AgentRole) (action : Action) (r : Reaction) : Outcome :=
  if re_executed r then Killed
  else match re_kills r, action with
  | _ :: _, _ => KillFailed
  | [], (Allow | Audit) => Idle
  | [], Deny => Refused
  | [], (Kill | Isolate) => if respond_enabled role then Refused else RoleSkipped
  end.

Definition killed_with (a : Agent) (tgid : Z) (r : Reaction) : Prop :=
  re_kills r = [tgid] /\
  exists res, ag_responder a = Some res /\
    re_executed r = is_ok (respond_kill_with (Responder := res) tgid).

Lemma react_kill_exact a tgid :
  let '(r, a') := react_kill a tgid in
  basis a' = basis a /\ counts a' = bump (outcome_of RoleRespond Kill r) (counts a) /\
  (re_executed r = false -> re_error r <> None) /\
  match ag_responder a with
  | Some _ => killed_with a tgid r
  | None => re_kills r = [] /\ re_executed r = false
  end.
Proof.
  unfold react_kill, killed_with. destruct (ag_responder a) as [res|] eqn:Hr; [|by rewrite ?Hr].
  destruct (respond_kill_with tgid) as [u|e] eqn:Hk; split_and!; try done; exists res; by rewrite Hk.
Qed.

Lemma refuse_role_first self_pid role tgid s c i u :
  match refuse_reason self_pid role tgid s c i u with
  | Some reason => str_eqb reason REFUSE_ROLE = negb role
  | None => role = true
  end.
Proof.
  unfold refuse_reason. destruct role; [|done]. cbn [negb].
  by repeat case_match; simplify_eq.
Qed.

(** What one reaction answers, with the agent before and after. *)
Record reacts (self_pid : Z) (a : Agent) (decision : Decision) (meta : EventMeta)
    (identity : WorkloadIdentity) (event : SyscallEvent) (r : Reaction) (a' : Agent) : Prop := {
  rs_basis : basis a' = basis a;
  rs_counts : counts a' = bump (outcome_of (ag_role a) (d_action decision) r) (counts a);
  rs_error : re_executed r = false -> (re_error r <> None <-> enforces (d_action decision) = true);
  rs_kill : killed_with a (em_tgid meta) r /\ may_kill self_pid a decision meta identity event
            \/ re_kills r = [] /\ re_executed r = false /\ ~ may_kill self_pid a decision meta identity event
}.

(** A refusal that moves [respond_refused]. *)
Lemma reacts_refused self_pid a decision meta identity event why a' :
  basis a' = basis a -> counts a' = bump Refused (counts a) ->
  (d_action decision = Deny \/ enforces (d_action decision) = true /\ ag_role a = RoleRespond) ->
  ~ may_kill self_pid a decision meta identity event ->
  reacts self_pid a decision meta identity event (refusal why) a'.
Proof.
  intros Hb Hc Hd Hn. split; [done| |by destruct Hd as [-> | [-> _]] |by right].
  rewrite Hc. unfold outcome_of. simpl. destruct Hd as [-> | [Hd ->]]; [done|].
  by destruct (d_action decision).
Qed.

(** The guard of a reaction, on the fields [react] reads it from. *)
Definition refused_by (self_pid : Z) (a : Agent) (decision : Decision) (meta : EventMeta)
    (identity : WorkloadIdentity) (event : SyscallEvent) : option string :=
  refuse_reason self_pid (respond_enabled (ag_role a)) (em_tgid meta)
    (em_agent_self meta || se_agent_self event) (em_in_container meta && se_in_container event)
    (is_unknown identity) (d_labels_unknown decision).

Lemma refused_by_none self_pid a decision meta identity event :
  0 <= em_tgid meta ->
  refused_by self_pid a decision meta identity event = None <->
  ag_role a = RoleRespond /\ (em_agent_self meta = false /\ se_agent_self event = false) /\
  (em_in_container meta = true /\ se_in_container event = true) /\
  is_unknown identity = false /\ d_labels_unknown decision = false /\ signalable self_pid (em_tgid meta).
Proof.
  intros Ht. unfold refused_by. rewrite refuse_none by done. rewrite orb_false_iff, andb_true_iff.
  enough (respond_enabled (ag_role a) = true <-> ag_role a = RoleRespond) by tauto.
  by destruct (ag_role a).
Qed.

Lemma may_kill_iff self_pid a decision meta identity event :
  0 <= em_tgid meta ->
  may_kill self_pid a decision meta identity event <->
  d_action decision = Kill /\ refused_by self_pid a decision meta identity event = None /\
  tc_unprovable (TargetCheck := ag_target_check a) = None /\
  tc_cgroup_id (TargetCheck := ag_target_check a) (em_tgid meta) = Some (em_cgroup_id meta) /\
  exists r, ag_responder a = Some r.
Proof.
  intros Ht. rewrite refused_by_none by done. split; [by intros []|].
  intros (? & (? & ? & ? & ? & ? & ?) & ? & ? & ?). by split.
Qed.

Lemma reacts_barred self_pid a decision meta identity event reason :
  0 <= em_tgid meta -> d_action decision = Kill \/ d_action decision = Isolate ->
  refused_by self_pid a decision meta identity event = Some reason ->
  reacts self_pid a decision meta identity event (refusal [Lit reason])
    (if str_eqb reason REFUSE_ROLE then a {{ ag_respond_role_skipped ::= add64 1 }} else count_refused a).
Proof.
  intros Ht Hd Hr.
  assert (Hn : ~ may_kill self_pid a decision meta identity event)
    by (rewrite may_kill_iff by done; intros (_ & ? & _); congruence).
  pose proof (refuse_role_first self_pid (respond_enabled (ag_role a)) (em_tgid meta)
    (em_agent_self meta || se_agent_self event) (em_in_container meta && se_in_container event)
    (is_unknown identity) (d_labels_unknown decision)) as Hrf.
  unfold refused_by in Hr. rewrite Hr in Hrf. rewrite Hrf.
  destruct (ag_role a) eqn:Hrole; cbn [respond_enabled negb].
  - split; [done | | by destruct Hd as [-> | ->] | by right].
    unfold outcome_of. rewrite Hrole. by destruct Hd as [-> | ->].
  - apply reacts_refused; try done. right. split; [by destruct Hd as [-> | ->] | done].
Qed.

Lemma react_exact self_pid a decision meta identity event :
  0 <= em_tgid meta ->
  let '(r, a') := react self_pid a decision meta identity event in
  reacts self_pid a decision meta identity event r a'.
Proof.
  intros Ht. unfold react. fold (refused_by self_pid a decision meta identity event).
  assert (Hother : d_action decision <> Kill -> ~ may_kill self_pid a decision meta identity event)
    by (intros ? []; congruence).
  destruct (refused_by self_pid a decision meta identity event) as [reason|] eqn:Hr.
  { destruct (d_action decision) eqn:Hd; cbn beta iota.
    1,2: split; [done | by rewrite Hd | by rewrite Hd | right; split_and!; auto].
    1: apply reacts_refused; auto.
    all: apply reacts_barred; auto. }
  pose proof Hr as Hr'. apply refused_by_none in Hr' as (Hrole & _); [|done].
  destruct (d_action decision) eqn:Hd.
  1,2: split; [done | by rewrite Hd | by rewrite Hd | right; split_and!; auto].
  1: apply reacts_refused; auto.
  2: rewrite bool_decide_true by done; apply reacts_refused; auto; right; by rewrite Hd.
  rewrite bool_decide_false by done.
  assert (He : d_action decision = Deny \/ enforces (d_action decision) = true /\ ag_role a = RoleRespond)
    by (right; by rewrite Hd).
  pose proof (may_kill_iff self_pid a decision meta identity event Ht) as Hmay.
  destruct tc_unprovable as [why|] eqn:Hu; [apply reacts_refused; naive_solver|].
  destruct (tc_cgroup_id (em_tgid meta)) as [current|] eqn:Hc; [|apply reacts_refused; naive_solver].
  destruct (Z.eqb_spec current (em_cgroup_id meta)) as [-> | Hne]; [|apply reacts_refused; naive_solver].
  pose proof (react_kill_exact (a {{ ag_respond_target_confirmed ::= add64 1 }}) (em_tgid meta)) as Hk.
  destruct (react_kill _ _) as [r a']. destruct Hk as (Hkb & Hkc & Hke & Hkk).
  change (match ag_responder a with
          | Some _ => killed_with a (em_tgid meta) r
          | None => re_kills r = [] /\ re_executed r = false
          end) in Hkk.
  split; [done | by rewrite Hd, Hrole | intros Hx; rewrite Hd; by specialize (Hke Hx) |].
  destruct (ag_responder a) as [res|] eqn:Hres; [left | right].
  - split; [done|]. apply Hmay. eauto 6.
  - destruct Hkk. split_and!; [done..|]. rewrite Hmay. intros (_ & _ & _ & _ & [? ?]). congruence.
Qed.

(** ** One event, from the outside *)

(** The decision before a waiver: by the loaded bundle, for the workload the record names. *)
Definition decided (a : Agent) (meta : EventMeta) (event : SyscallEvent) (rd : Readings) : Decision :=
  let '(identity, unproven, a') := resolve_identity a meta rd in
  loader_decide_with (ag_loader a) event identity unproven.

Definition named (a : Agent) (meta : EventMeta) : WorkloadIdentity :=
  default unknown_identity (ag_cgroups a !! em_cgroup_id meta).

(** A waiver in force for the decision. *)
Definition waived (a : Agent) (d : Decision) (identity : WorkloadIdentity) (now : Z) (spec : PolicyExceptionSpec) : Prop :=
  ag_policy_name a <> "" /\ enforces (d_action d) = true /\
  exists rule, d_rule_id d = Some rule /\ spec ∈ ag_exceptions a /\
    exception_applies spec (wi_namespace identity) (ag_policy_name a) rule now = true.

Lemma waiver_applies_some a d identity now spec :
  waiver_applies a d identity now = Some spec -> waived a d identity now spec.
Proof.
  unfold waiver_applies, waived. destruct (str_empty (ag_policy_name a)) eqn:Hp; [done|].
  destruct (enforces (d_action d)) eqn:He; [|done]. simpl.
  destruct (d_rule_id d) as [rule|]; [|done]. simpl. intros Hf.
  apply List.find_some in Hf as [Hin Ha]. split; [by intros E; rewrite E in Hp|]. split; [done|].
  exists rule. by rewrite list_elem_of_In.
Qed.

Lemma waiver_applies_none a d identity now :
  waiver_applies a d identity now = None -> forall spec, ~ waived a d identity now spec.
Proof.
  unfold waiver_applies, waived. intros H spec (Hp & He & rule & Hr & Hin & Ha).
  destruct (str_empty (ag_policy_name a)) eqn:E; [by apply str_empty_true in E|].
  rewrite He, Hr in H. simpl in H. apply list_elem_of_In in Hin.
  pose proof (List.find_none _ _ H _ Hin). congruence.
Qed.

Lemma resolved_named a meta rd : (resolve_identity a meta rd).1.1 = named a meta.
Proof.
  unfold resolve_identity, named, lookup_cgroup. destruct (ag_cgroups a !! em_cgroup_id meta); simpl;
    [by destruct (em_in_container meta)|].
  destruct (em_in_container meta); [done|]. by destruct (container_unproven _ _ _).
Qed.

Lemma resolved_proven a meta rd : em_in_container meta = true -> (resolve_identity a meta rd).1.2 = false.
Proof. unfold resolve_identity. intros ->. by destruct (lookup_cgroup _ _). Qed.

Lemma waived_basis a a' d identity now spec :
  basis a' = basis a -> waived a' d identity now spec <-> waived a d identity now spec.
Proof. unfold basis, waived. by intros [= _ _ -> -> _ _ _]. Qed.

Lemma may_kill_basis self_pid a a' d meta identity event :
  basis a' = basis a -> may_kill self_pid a' d meta identity event <-> may_kill self_pid a d meta identity event.
Proof.
  unfold basis. intros [= H1 H2 H3 H4 H5 H6 _].
  split; intros [? ? ? ? ? ? ? ? ? [res ?]]; split; try done; try congruence; exists res; congruence.
Qed.

(** The decision after a waiver. *)
Definition settled (w : option PolicyExceptionSpec) (d : Decision) : Decision :=
  match w with Some _ => with_action d Audit | None => d end.

(** One call of [handle_event_at], read off its result. *)
Record handled (self_pid : Z) (a : Agent) (meta : EventMeta) (event : SyscallEvent) (now : Z) (rd : Readings)
    (decision : Decision) (record : EnforcementEvent) (kills : list Z) (a' : Agent)
    (w : option PolicyExceptionSpec) (r : Reaction) : Prop := {
  hd_waiver : match w with
              | Some spec => waived a (decided a meta event rd) (named a meta) now spec
              | None => forall spec, ~ waived a (decided a meta event rd) (named a meta) now spec
              end;
  hd_basis : basis a' = basis a;
  hd_counts : counts a'
    = bump (outcome_of (ag_role a) (d_action (settled w (decided a meta event rd))) r) (counts a);
  hd_error : re_executed r = false ->
    (re_error r <> None <-> enforces (d_action (settled w (decided a meta event rd))) = true);
  hd_kill :
    let may := may_kill self_pid a (settled w (decided a meta event rd)) meta (named a meta) event in
    killed_with a (em_tgid meta) r /\ may \/ re_kills r = [] /\ re_executed r = false /\ ~ may;
  hd_kills : kills = re_kills r;
  hd_decision : decision = with_action (decided a meta event rd)
    (apply_role (ag_role a) (d_action (settled w (decided a meta event rd))));
  hd_executed : ee_executed record = re_executed r;
  hd_record_waiver : ee_waiver record = waiver_ref <$> w;
  hd_action : ee_action record = match w with Some _ => WAIVED_ACTION | None => action_as_str (d_action decision) end;
  hd_respond_error : ee_respond_error record =
    match re_error r with
    | Some e => Some e
    | None => if d_container_unknown (decided a meta event rd) then Some [Lit REFUSE_NOT_CONTAINER] else None
    end;
  hd_policy : ee_policy record = match ld_last_good (ag_loader a) with Some l => lb_digest l | None => "none" end;
  hd_workload : ee_pod record = wi_pod (named a meta) /\ ee_namespace record = wi_namespace (named a meta);
  hd_target : ee_tgid record = em_tgid meta
}.

Lemma recorded_frame a (b c : bool) t u :
  let a1 := if b then record_labels_unknown a t else a in
  let a2 := if c then record_path_truncated a1 u else a1 in
  basis a2 = basis a /\ counts a2 = counts a.
Proof. by destruct b, c. Qed.

Lemma unproven_mark_frame (b : bool) a :
  basis (if b then record_container_unproven a else a) = basis a /\
  counts (if b then record_container_unproven a else a) = counts a.
Proof. by destruct b. Qed.

Lemma handle_event_exact self_pid a meta event sink now rd decision record kills a' :
  0 <= em_tgid meta ->
  handle_event_at self_pid a meta event sink now rd = (decision, record, kills, a') ->
  exists w r, handled self_pid a meta event now rd decision record kills a' w r.
Proof.
  intros Ht. unfold handle_event_at.
  pose proof (resolved_named a meta rd) as Hid. pose proof (resolve_frame a meta rd) as [Hb0 Hc0].
  assert (Hd : decided a meta event rd = let '(i, u, _) := resolve_identity a meta rd in
            loader_decide_with (ag_loader a) event i u) by done.
  destruct (resolve_identity a meta rd) as [[id unproven] a0]. cbn [fst snd] in *. subst id.
  assert (Hl : ag_loader a0 = ag_loader a) by (unfold basis in Hb0; congruence). rewrite Hl, <- Hd.
  set (d := decided a meta event rd) in *.
  pose proof (recorded_frame a0 (d_labels_unknown d) (d_path_unknown d) (rd_labels rd) (rd_path rd)) as [Hb1 Hc1].
  set (a1 := if d_path_unknown d then _ else _) in *. clearbody a1. rewrite Hb0 in Hb1. rewrite Hc0 in Hc1.
  assert (Hrole : ag_role a1 = ag_role a) by (unfold basis in Hb1; congruence).
  assert (Hw : match waiver_applies a1 d (named a meta) now with
    | Some spec => waived a d (named a meta) now spec
    | None => forall spec, ~ waived a d (named a meta) now spec
    end).
  { destruct (waiver_applies a1 d (named a meta) now) as [spec|] eqn:Hw.
    - apply (waived_basis a a1); [done|]. by apply waiver_applies_some.
    - intros spec. rewrite <- (waived_basis a a1) by done. by apply waiver_applies_none. }
  set (w := waiver_applies a1 d (named a meta) now) in *. clearbody w.
  replace (match waiver_ref <$> w with Some _ => with_action d Audit | None => d end) with (settled w d)
    by (by destruct w).
  assert (Hcu : d_container_unknown (settled w d) = d_container_unknown d) by (by destruct w).
  pose proof (react_exact self_pid a1 (settled w d) meta (named a meta) event Ht) as Hr.
  destruct (react _ _ _ _ _ _) as [r a2]. destruct Hr as [Hrb Hrc Hrerr Hrk].
  rewrite Hrole in Hrc. rewrite Hb1 in Hrb. rewrite Hc1 in Hrc.
  destruct (unproven_mark_frame (d_container_unknown (settled w d)) a2) as [Hb3 Hc3].
  set (a3 := if d_container_unknown (settled w d) then _ else a2) in *. clearbody a3.
  rewrite Hrb in Hb3. rewrite Hrc in Hc3. pose proof (export_frame a3 sink (rd_export rd)) as [Hb4 Hc4].
  assert (Hrole3 : ag_role a3 = ag_role a) by (unfold basis in Hb3; congruence).
  assert (Hl3 : ag_loader a3 = ag_loader a) by (unfold basis in Hb3; congruence).
  assert (Hres : ag_responder a1 = ag_responder a) by (unfold basis in Hb1; congruence).
  intros [= <- <- <- <-]. exists w, r. split; fold d; simpl; try done; try congruence.
  - unfold killed_with in *. rewrite Hres in Hrk. by rewrite (may_kill_basis self_pid a a1) in Hrk.
  - rewrite Hrole3. by destruct w.
  - by destruct w.
  - rewrite Hcu. by destruct (d_container_unknown d), (re_error r).
  - by rewrite Hl3.
Qed.

(** A record of a container is decided by the loaded bundle, for the workload the index
    names. *)
Lemma decided_in_container a meta event rd :
  em_in_container meta = true ->
  decided a meta event rd
  = match ld_last_good (ag_loader a) with
    | Some l => RuntimeEval.decide (lb_spec l) event (named a meta)
    | None => deny_all
    end.
Proof.
  intros Hc. unfold decided. pose proof (resolved_named a meta rd) as Hn. pose proof (resolved_proven a meta rd Hc) as Hp.
  destruct (resolve_identity a meta rd) as [[i u] a']. simpl in Hn, Hp. subst. done.
Qed.

Lemma known_named a meta : is_unknown (named a meta) = false -> ag_cgroups a !! em_cgroup_id meta = Some (named a meta).
Proof. unfold named. by destruct (ag_cgroups a !! em_cgroup_id meta). Qed.

(** C3: a record makes the agent signal one process or none. The process is the record's
    own, and it is signalled exactly when all of this holds: a bundle is loaded and its
    program decides [kill] for this workload with the scope proven, no waiver in force
    covers the rule, the role is respond, both views of the record say "in a container" and
    neither says "the agent itself", the index names the cgroup, the number names one
    process other than init and the agent, and that process is still seen in the cgroup
    that raised the record. The written record says [executed] exactly when the signal went
    out. *)
Theorem kill_exactly_when_proven self_pid a meta event sink now rd decision record kills a'
    (Htgid : 0 <= em_tgid meta)
    (Hrun : handle_event_at self_pid a meta event sink now rd = (decision, record, kills, a')) :
  (kills = [em_tgid meta] <->
   exists loaded id res,
     ld_last_good (ag_loader a) = Some loaded /\ ag_cgroups a !! em_cgroup_id meta = Some id /\
     wi_pod id <> "" /\
     d_action (RuntimeEval.decide (lb_spec loaded) event id) = Kill /\
     d_labels_unknown (RuntimeEval.decide (lb_spec loaded) event id) = false /\
     (forall spec, ~ waived a (RuntimeEval.decide (lb_spec loaded) event id) id now spec) /\
     ag_role a = RoleRespond /\
     (em_in_container meta = true /\ se_in_container event = true) /\
     (em_agent_self meta = false /\ se_agent_self event = false) /\
     signalable self_pid (em_tgid meta) /\
     tc_unprovable (TargetCheck := ag_target_check a) = None /\
     tc_cgroup_id (TargetCheck := ag_target_check a) (em_tgid meta) = Some (em_cgroup_id meta) /\
     ag_responder a = Some res) /\
  (kills = [] \/ kills = [em_tgid meta]) /\
  (ee_executed record = true <->
   exists res, kills = [em_tgid meta] /\ ag_responder a = Some res /\
     is_ok (respond_kill_with (Responder := res) (em_tgid meta)) = true).
Proof.
  destruct (handle_event_exact _ _ _ _ _ _ _ _ _ _ _ Htgid Hrun) as (w & r & H).
  rewrite (hd_executed _ _ _ _ _ _ _ _ _ _ _ _ H), (hd_kills _ _ _ _ _ _ _ _ _ _ _ _ H).
  pose proof (hd_waiver _ _ _ _ _ _ _ _ _ _ _ _ H) as Hw.
  destruct (hd_kill _ _ _ _ _ _ _ _ _ _ _ _ H) as [[[Hk (res & Hres & Hx)] Hmay]|(Hk & Hx & Hmay)].
  - rewrite Hk, Hx. split_and!; [|by right|naive_solver].
    destruct Hmay as [Ha Hrole Hs [Hc Hc'] Hn Hl Hsig Hu Ht _]. split; [intros _|done].
    destruct w as [spec|]; [done|]. simpl in Ha, Hl. rewrite decided_in_container in * by done.
    destruct (ld_last_good (ag_loader a)) as [loaded|]; [|done].
    exists loaded, (named a meta), res. split_and!; try done; try apply Hs; [by apply known_named | by apply str_empty_false].
  - rewrite Hk, Hx. split_and!; [|by left|naive_solver].
    split; [done|]. intros (loaded & id & res & Hld & Hid & Hpod & Ha & Hl & Hnw & Hrole & [Hc Hc'] & Hs & Hsig & Hu & Ht & Hres).
    assert (Hn : named a meta = id) by (unfold named; by rewrite Hid).
    rewrite decided_in_container, Hld, Hn in * by done. destruct w as [spec|]; [by apply Hnw in Hw|].
    destruct Hmay. split; simpl; eauto. by apply str_empty_false.
Qed.

(** C19: every decision that calls for a reaction ends in exactly one of the four counters
    (killed, signal failed, refused, skipped by the role), and a decision that calls for
    none moves none of them. The written record agrees: it says [executed], or it says why
    not. *)
Theorem every_reaction_is_accounted self_pid a meta event sink now rd decision record kills a'
    (Htgid : 0 <= em_tgid meta)
    (Hrun : handle_event_at self_pid a meta event sink now rd = (decision, record, kills, a')) :
  let d := decided a meta event rd in
  let acts := enforces (d_action d) && bool_decide (ee_waiver record = None) in
  counts a' = bump (if ee_executed record then Killed
                    else if negb (is_empty kills) then KillFailed
                    else if negb acts then Idle
                    else if respond_enabled (ag_role a) || bool_decide (d_action d = Deny) then Refused
                    else RoleSkipped) (counts a) /\
  (acts = true -> ee_executed record = false -> ee_respond_error record <> None) /\
  (acts = false -> kills = [] /\ ee_executed record = false /\
     (ee_respond_error record = None <-> d_container_unknown d = false)).
Proof.
  destruct (handle_event_exact _ _ _ _ _ _ _ _ _ _ _ Htgid Hrun) as (w & r & H).
  destruct H as [Hw Hb Hc He Hk -> Hd Hx Hrw Ha Hre Hp _ _]. rewrite Hc, Hx, Hrw, Hre. clear Hc Hx Hrw Hre.
  cbn zeta. assert (Hacts : enforces (d_action (settled w (decided a meta event rd)))
    = enforces (d_action (decided a meta event rd)) && bool_decide (waiver_ref <$> w = None)).
  { destruct w; simpl; [by rewrite andb_false_r | by rewrite andb_true_r]. }
  rewrite <- Hacts in *. split_and!.
  - unfold outcome_of. destruct (re_executed r) eqn:Hex; [done|]. destruct (re_kills r); [|done]. simpl.
    destruct w as [spec|]; [done|]. simpl. by destruct (d_action (decided a meta event rd)), (ag_role a).
  - intros Hac Hex. apply He in Hac; [|done]. by destruct (re_error r).
  - intros Hac. destruct Hk as [[_ [Hmk _ _ _ _ _ _ _ _ _]]|(Hk & Hex & _)]; [by rewrite Hmk in Hac|].
    split_and!; [done..|]. destruct (re_error r) as [e|] eqn:Herr.
    + exfalso. assert (H1 : Some e <> None) by done. apply He in H1; [|done]. congruence.
    + by destruct (d_container_unknown _).
Qed.

(** What an applying exception has, whoever accepted it. *)
Lemma exception_applies_inv spec namespace policy rule now :
  exception_applies spec namespace policy rule now = true ->
  trim (pe_ticket spec) <> "" /\ trim (pe_approved_by spec) <> "" /\
  trim (pe_approved_by spec) <> trim (pe_requested_by spec) /\
  now < pe_expires_at spec <= now + days MAX_EXCEPTION_DAYS /\
  namespace_matches (et_namespace (pe_target spec)) namespace = true /\
  policy ∈ et_policies (pe_target spec) /\ rule ∈ et_rules (pe_target spec).
Proof.
  unfold exception_applies. intros H. repeat (case_match; [done|]).
  repeat match goal with
  | H : _ || _ = false |- _ => apply orb_false_iff in H as [? ?]
  | H : negb _ = false |- _ => apply negb_false_iff in H
  | H : str_empty _ = false |- _ => apply str_empty_false in H
  | H : str_eqb _ _ = false |- _ => apply str_eqb_false in H
  | H : existsb _ _ = true |- _ => apply existsb_exists in H as (? & ?%list_elem_of_In & ?%str_eqb_true)
  end.
  subst. split_and!; try done; lia.
Qed.

(** C25: a record is written as waived exactly when an exception the agent holds covers the
    rule that decided it. Such an exception has a ticket, was approved by someone other
    than who asked, is unexpired and at most ninety days from expiry, and names the
    agent's policy, the rule and the workload's namespace. The record carries it, nothing
    is signalled, and the decision returned is [audit]. *)
Theorem waived_only_by_a_live_exception self_pid a meta event sink now rd decision record kills a'
    (Htgid : 0 <= em_tgid meta)
    (Hrun : handle_event_at self_pid a meta event sink now rd = (decision, record, kills, a')) :
  (ee_action record = WAIVED_ACTION <->
   exists spec, waived a (decided a meta event rd) (named a meta) now spec) /\
  (ee_action record = WAIVED_ACTION ->
   kills = [] /\ ee_executed record = false /\ d_action decision = Audit /\
   exists spec rule, spec ∈ ag_exceptions a /\ ee_waiver record = Some (waiver_ref spec) /\
     d_rule_id (decided a meta event rd) = Some rule /\
     trim (pe_ticket spec) <> "" /\ trim (pe_approved_by spec) <> "" /\
     trim (pe_approved_by spec) <> trim (pe_requested_by spec) /\
     now < pe_expires_at spec <= now + days MAX_EXCEPTION_DAYS /\
     namespace_matches (et_namespace (pe_target spec)) (ee_namespace record) = true /\
     ag_policy_name a ∈ et_policies (pe_target spec) /\ rule ∈ et_rules (pe_target spec)).
Proof.
  destruct (handle_event_exact _ _ _ _ _ _ _ _ _ _ _ Htgid Hrun) as (w & r & H).
  destruct H as [Hw Hb Hc He Hk -> Hd Hx Hrw Ha Hre Hp [_ Hns] _]. rewrite Hx, Hns, Ha, Hrw.
  destruct w as [spec|].
  - split; [split; [by exists spec | done]|]. intros _.
    destruct Hk as [[_ [Hmk _ _ _ _ _ _ _ _ _]]|(-> & -> & _)]; [done|].
    split_and!; [done | done | by rewrite Hd; destruct (ag_role a) |].
    destruct Hw as (_ & _ & rule & Hrule & Hin & Happ). exists spec, rule.
    destruct (exception_applies_inv _ _ _ _ _ Happ) as (?&?&?&?&?&?&?). split_and!; try done; lia.
  - assert (Hn : action_as_str (d_action decision) <> WAIVED_ACTION) by (by destruct (d_action decision)).
    split; [|done]. split; [done|]. intros [spec Hs]. by apply Hw in Hs.
Qed.

(** ** Every record is accounted for *)

Definition decoded (records : list (list Z * Moment)) : list Event :=
  omap (fun rm => match decode_event rm.1 with Ok e => Some e | Err _ => None end) records.

Lemma handle_event_shape self_pid a meta event sink wall written rd decision record kills a' :
  0 <= em_tgid meta ->
  handle_event self_pid a meta event sink wall written rd = (decision, record, kills, a') ->
  ee_tgid record = em_tgid meta /\ (kills = [] \/ kills = [em_tgid meta]) /\
  ag_decode_failed_run a' = ag_decode_failed_run a.
Proof.
  unfold handle_event. destruct (agent_now_from a wall written) as [now a0] eqn:Hnow. intros Ht Hrun.
  assert (Hr0 : ag_decode_failed_run a0 = ag_decode_failed_run a).
  { unfold agent_now_from in Hnow. destruct (now_from _ _ _) as [n c]. injection Hnow as <- <-. by destruct (negb _). }
  destruct (handle_event_exact _ _ _ _ _ _ _ _ _ _ _ Ht Hrun) as (w & r & H).
  split; [by eapply hd_target|]. rewrite (hd_kills _ _ _ _ _ _ _ _ _ _ _ _ H).
  split; [|pose proof (hd_basis _ _ _ _ _ _ _ _ _ _ _ _ H) as Hb; unfold basis in Hb; congruence].
  destruct (hd_kill _ _ _ _ _ _ _ _ _ _ _ _ H) as [[[Hk _] _]|(Hk & _ & _)]; auto.
Qed.

Record pumped (records : list (list Z * Moment)) (p : PumpState) : Prop := {
  pd_total : ps_handled (pu_stats p) + ps_unknown_syscall (pu_stats p) = len (decoded records);
  pd_failed : ps_decode_failed (pu_stats p) = len records - len (decoded records);
  pd_written : map ee_tgid (pu_written p) = map ev_tgid (decoded records);
  pd_kills : pu_kills p `sublist_of` map ev_tgid (decoded records);
  pd_run : 0 <= ag_decode_failed_run (pu_agent p)
}.

Lemma decoded_tgid bytes e : bytes_ok bytes -> decode_event bytes = Ok e -> 0 <= ev_tgid e.
Proof. intros Hb Hd. apply decode_inv in Hd as [Hok _]; [|done]. destruct Hok. lia. Qed.

Lemma undecodable_run_range a record now :
  0 <= ag_decode_failed_run a ->
  0 <= ag_decode_failed_run (match abi_stamp_mismatch record with
                             | Some stamp => record_datapath_abi_mismatch_at a stamp now
                             | None => record_decode_failure_at a 1 now
                             end).
Proof.
  assert (Hm : forall b m, ag_decode_failed_run (mark_terminal_fault b m) = ag_decode_failed_run b)
    by (intros b m; unfold mark_terminal_fault; by destruct (ag_terminal_fault b)).
  assert (Hf : forall b, 0 <= ag_decode_failed_run (record_decode_failure_at b 1 now)).
  { intros b. unfold record_decode_failure_at. cbn zeta. change (1 =? 0) with false. cbn iota.
    destruct (_ <=? _); rewrite ?Hm; apply Z.mod_pos_bound; done. }
  destruct (abi_stamp_mismatch record); [|by intros]. unfold record_datapath_abi_mismatch_at. cbn zeta. by rewrite Hm.
Qed.

Lemma pump_record_step self_pid arch records p item :
  bytes_ok item.1 -> pumped records p -> pumped (records ++ [item]) (pump_record self_pid arch p item).
Proof.
  intros Hb [Ht Hf Hw Hk Hr]. destruct item as [record mo]. unfold pump_record. simpl in Hb.
  destruct (decode_event record) as [e|err] eqn:Hd.
  - assert (Hde : decoded (records ++ [(record, mo)]) = decoded records ++ [e])
      by (unfold decoded; rewrite omap_app; simpl; by rewrite Hd).
    pose proof (decoded_tgid _ _ Hb Hd) as Htg.
    destruct (syscall_name arch (ev_syscall_nr e)).
    all: destruct (handle_event _ _ _ _ _ _ _ _) as [[[d w] ks] a'] eqn:Hrun.
    all: apply handle_event_shape in Hrun as (Hwt & Hks & Hrun); [|done]; simpl in Hwt, Hks.
    all: split; rewrite ?Hde; simpl; rewrite ?map_app, ?len_app; simpl.
    all: try (unfold len in *; simpl; lia); try (by rewrite Hw, Hwt); try (by rewrite Hrun).
    all: apply sublist_app; [done|]; destruct Hks as [-> | ->]; [apply sublist_nil_l | done].
  - assert (Hde : decoded (records ++ [(record, mo)]) = decoded records)
      by (unfold decoded; rewrite omap_app; simpl; by rewrite Hd, app_nil_r).
    split; rewrite ?Hde; simpl; rewrite ?len_app; try done; [unfold len in *; simpl; lia|].
    by apply undecodable_run_range.
Qed.

Lemma pump_records_pumped self_pid a arch records :
  0 <= ag_decode_failed_run a -> Forall (fun rm => bytes_ok rm.1) records ->
  pumped records (pump_records self_pid a arch records).
Proof.
  intros Ha. unfold pump_records. induction records as [|item records IH] using rev_ind; [by split|].
  intros [Hr Hi]%Forall_app. rewrite foldl_app. apply pump_record_step; [|by apply IH].
  by inversion Hi.
Qed.

(** A run of records that do not decode, long enough, is a fault that stays. *)
Lemma fault_marked a m : ag_terminal_fault (mark_terminal_fault a m) <> None.
Proof. unfold mark_terminal_fault. by destruct (ag_terminal_fault a) eqn:E; [rewrite E|]. Qed.

Lemma failure_runs a now :
  0 <= ag_decode_failed_run a ->
  let a' := record_decode_failure_at a 1 now in
  ag_terminal_fault a' <> None \/
  ag_terminal_fault a' = ag_terminal_fault a /\ ag_decode_failed_run a' = ag_decode_failed_run a + 1 /\
  ag_decode_failed_run a + 1 < DECODE_FAILURE_RUN_MAX.
Proof.
  intros H0. unfold record_decode_failure_at. cbn zeta. change (1 =? 0) with false. cbn iota.
  set (run := ag_decode_failed_run (a {{ ag_decode_failed ::= add64 1; ag_decode_failed_at := Some now }})).
  assert (Hrun : run = ag_decode_failed_run a) by done. rewrite Hrun. clear run Hrun.
  destruct (Z.leb_spec DECODE_FAILURE_RUN_MAX (ag_decode_failed_run a + 1)) as [Hle|Hlt].
  - left. apply fault_marked.
  - right. split; [done|]. assert (HM : DECODE_FAILURE_RUN_MAX = 64) by done. rewrite HM in *. split; [|done].
    simpl. rewrite Z.mod_small; [done|]. unfold U64. lia.
Qed.

Lemma failure_faulted a m now :
  ag_terminal_fault a = Some m -> ag_terminal_fault (record_decode_failure_at a 1 now) <> None.
Proof.
  intros Hm. unfold record_decode_failure_at. cbn zeta. change (1 =? 0) with false. cbn iota.
  destruct (_ <=? _); [apply fault_marked|]. change (ag_terminal_fault a <> None). by rewrite Hm.
Qed.

Lemma faulted_step self_pid arch p item :
  is_ok (decode_event item.1) = false -> ag_terminal_fault (pu_agent p) <> None ->
  ag_terminal_fault (pu_agent (pump_record self_pid arch p item)) <> None.
Proof.
  destruct item as [record mo]. unfold pump_record. simpl. intros Hd Hf.
  destruct (decode_event record) as [e|err]; [done|]. simpl.
  destruct (abi_stamp_mismatch record) as [stamp|]; [apply fault_marked|].
  destruct (ag_terminal_fault (pu_agent p)) as [m|] eqn:Hm; [by eapply failure_faulted | done].
Qed.

Lemma undecodable_step self_pid arch p item :
  is_ok (decode_event item.1) = false -> 0 <= ag_decode_failed_run (pu_agent p) ->
  let a' := pu_agent (pump_record self_pid arch p item) in
  ag_terminal_fault a' <> None \/
  ag_terminal_fault (pu_agent p) = None /\
  ag_decode_failed_run a' = ag_decode_failed_run (pu_agent p) + 1 /\
  ag_decode_failed_run (pu_agent p) + 1 < DECODE_FAILURE_RUN_MAX.
Proof.
  destruct item as [record mo]. unfold pump_record. simpl. intros Hd H0.
  destruct (decode_event record) as [e|err]; [done|]. simpl.
  destruct (abi_stamp_mismatch record) as [stamp|]; [left; apply fault_marked|].
  destruct (ag_terminal_fault (pu_agent p)) as [m|] eqn:Hm; [left; by eapply failure_faulted|].
  destruct (failure_runs (pu_agent p) (mo_at mo) H0) as [?|[_ ?]]; auto.
Qed.

Lemma undecodable_run self_pid arch p bad :
  Forall (fun rm => is_ok (decode_event rm.1) = false) bad -> 0 <= ag_decode_failed_run (pu_agent p) ->
  let a' := pu_agent (foldl (pump_record self_pid arch) p bad) in
  bad <> [] -> ag_terminal_fault a' <> None \/
  ag_decode_failed_run a' = ag_decode_failed_run (pu_agent p) + len bad /\
  ag_decode_failed_run (pu_agent p) + len bad < DECODE_FAILURE_RUN_MAX.
Proof.
  induction bad as [|item bad IH] using rev_ind; [done|]. intros [Hb Hi]%Forall_app H0 a' _. subst a'.
  assert (Hx : is_ok (decode_event item.1) = false) by (by inversion Hi). clear Hi. rename Hx into Hi.
  rewrite foldl_app, len_app. change (len [item]) with 1. cbn [foldl].
  destruct (base.decide (bad = [])) as [-> |Hne].
  - cbn [foldl]. change (len []) with 0. destruct (undecodable_step self_pid arch p item Hi H0) as [?|[_ ?]]; [by left|right; lia].
  - destruct (IH Hb H0 Hne) as [Hf|[Hr Hlt]].
    + left. by apply faulted_step.
    + assert (Hp : 0 <= ag_decode_failed_run (pu_agent (foldl (pump_record self_pid arch) p bad)))
        by (rewrite Hr; unfold len; lia).
      destruct (undecodable_step self_pid arch _ item Hi Hp) as [?|(_ & Hs & Hs')]; [by left|right].
      rewrite Hr in Hs, Hs'. lia.
Qed.

Lemma decoded_len records : len (decoded records) <= len records.
Proof.
  unfold len, decoded, omap. induction records as [|[r m] records IH]; [done|]. simpl.
  destruct (decode_event r); simpl; lia.
Qed.

(** the pump loses no record. Every record is either decoded, and then leaves exactly
    one written record for its process, in order, or it is counted as undecodable; every
    signalled process is one a decoded record named, at most once per record. And after
    [DECODE_FAILURE_RUN_MAX] undecodable records in a row the agent reports a fault that
    needs no further traffic to stay visible. *)
Lemma pump_accounts_every_record self_pid a arch records bad
    (Hbytes : Forall (fun rm => bytes_ok rm.1) (records ++ bad))
    (Hbad : Forall (fun rm => is_ok (decode_event rm.1) = false) bad)
    (Hlong : DECODE_FAILURE_RUN_MAX <= len bad)
    (Hrun : 0 <= ag_decode_failed_run a) :
  let p := pump_records self_pid a arch (records ++ bad) in
  let stats := pu_stats p in
  ps_handled stats + ps_unknown_syscall stats + ps_decode_failed stats = len (records ++ bad) /\
  len bad <= ps_decode_failed stats /\
  map ee_tgid (pu_written p) = map ev_tgid (decoded records) /\
  pu_kills p `sublist_of` map ev_tgid (decoded records) /\
  ag_terminal_fault (pu_agent p) <> None.
Proof.
  destruct (pump_records_pumped self_pid a arch _ Hrun Hbytes) as [Ht Hf Hw Hk _]. cbn zeta.
  assert (Hp : 0 <= ag_decode_failed_run (pu_agent (pump_records self_pid a arch records)))
    by (apply pump_records_pumped; [done|]; by apply Forall_app in Hbytes as [? _]).
  assert (Hde : decoded (records ++ bad) = decoded records).
  { unfold decoded. rewrite omap_app. rewrite <- app_nil_r. f_equal. clear -Hbad.
    induction Hbad as [|[r m] bad Hx _ IH]; [done|]. simpl in *. by destruct (decode_event r). }
  rewrite Hde in *. split_and!; try done.
  - lia.
  - rewrite Hf, len_app. pose proof (decoded_len records). lia.
  - unfold pump_records. rewrite foldl_app. assert (HM : DECODE_FAILURE_RUN_MAX = 64) by done.
    destruct (undecodable_run self_pid arch _ bad Hbad Hp) as [?|[_ ?]]; [intros ->; done | done | exfalso; lia].
Qed.

(** ** The ring schedule *)

(** The ticks of a loop, one after the other. *)
Fixpoint ticks (l : RingLoop) (inputs : list (Z * Z * Result Z)) : list RingTick * RingLoop :=
  match inputs with
  | [] => ([], l)
  | (now, records, total) :: inputs' =>
      let '(t, l') := tick l now records total in
      let '(ts, l'') := ticks l' inputs' in (t :: ts, l'')
  end.

(** What the kernel's counter reads at each tick never goes back. *)
Fixpoint growing (seen : Z) (inputs : list (Z * Z * Result Z)) : Prop :=
  match inputs with
  | [] => True
  | (_, _, Ok total) :: inputs' => seen <= total /\ growing total inputs'
  | (_, _, Err _) :: inputs' => growing seen inputs'
  end.

Definition drops (ts : list RingTick) : Z := foldr (fun t acc => rt_drop_delta t + acc) 0 ts.

Lemma growing_le seen seen' inputs : seen <= seen' -> growing seen' inputs -> growing seen inputs.
Proof.
  revert seen seen'. induction inputs as [|[[now records] [t|e]] inputs IH]; intros seen seen' Hle; simpl; [done| |by apply IH].
  intros [? ?]. split; [lia | done].
Qed.

Definition sleep_ok (t : RingTick) : Prop :=
  match rt_sleep t with
  | Some s => rt_records t = 0 /\ IDLE_MIN <= s <= IDLE_MAX
  | None => rt_records t <> 0
  end.

Lemma tick_step l now records total inputs :
  IDLE_MIN <= rl_idle l <= IDLE_MAX -> growing (rl_seen_drops l) ((now, records, total) :: inputs) ->
  let '(t, l') := tick l now records total in
  IDLE_MIN <= rl_idle l' <= IDLE_MAX /\ growing (rl_seen_drops l') inputs /\
  rt_drop_delta t = rl_seen_drops l' - rl_seen_drops l /\ 0 <= rt_drop_delta t /\ sleep_ok t.
Proof.
  intros Hidle Hgrow. assert (Hg : growing (rl_seen_drops l) inputs).
  { destruct total as [t|]; [|done]. destruct Hgrow. by eapply growing_le. }
  unfold tick, sleep_ok, IDLE_MIN, IDLE_MAX in *.
  destruct (Z.eqb_spec records 0), (_ <=? now); [destruct total as [t|]|..|destruct total as [t|]|]; simpl in *;
    split_and!; try done; try lia; by destruct Hgrow.
Qed.

(** The loop reports every in-kernel drop exactly once, however often it looks: over
    any run of ticks the reported deltas add up to the counter last read. It looks at the
    first tick at or past each deadline, whatever traffic there was, and an idle loop sleeps
    between [IDLE_MIN] and [IDLE_MAX]. *)
Lemma ring_drops_counted_once l inputs
    (Hidle : IDLE_MIN <= rl_idle l <= IDLE_MAX) (Hgrow : growing (rl_seen_drops l) inputs) :
  let '(ts, l') := ticks l inputs in
  drops ts = rl_seen_drops l' - rl_seen_drops l /\
  Forall (fun t => 0 <= rt_drop_delta t /\ sleep_ok t) ts /\
  (forall now records total,
     rl_next_drop_check l' <= now -> rl_seen_drops (tick l' now records (Ok total)).2 = total).
Proof.
  revert l Hidle Hgrow. induction inputs as [|[[now records] total] inputs IH]; intros l Hidle Hgrow; simpl.
  - split_and!; [unfold drops; simpl; lia | constructor |]. intros now records total Hn. unfold tick.
    destruct (records =? 0); apply Z.leb_le in Hn; by rewrite Hn.
  - pose proof (tick_step l now records total inputs Hidle Hgrow) as Hstep.
    destruct (tick l now records total) as [t l1].
    destruct Hstep as (H1 & H2 & H3 & H4 & H5). specialize (IH l1 H1 H2).
    destruct (ticks l1 inputs) as [ts l2]. destruct IH as (Hd & Hf & Hl).
    split_and!; [unfold drops in *; simpl; lia | by constructor | done].
Qed.

(** ** A pod that opens the container socket *)

(** Process 900 is in cgroup 77, and every signal is delivered. *)
Definition shop_check : TargetCheck := {| tc_cgroup_id tgid := if tgid =? 900 then Some 77 else None; tc_unprovable := None |}.

Definition socket_waiver : PolicyExceptionSpec :=
  {| pe_ticket := "SEC-1"; pe_requested_by := "ann"; pe_approved_by := "bob"; pe_reason := "migration";
     pe_expires_at := days 30; pe_mode := Api.Audit; pe_four_eyes := true;
     pe_target := {| et_namespace := "shop"; et_policies := ["p"]; et_rules := ["socket"] |} |}.

Definition shop_agent (waivers : list PolicyExceptionSpec) : Agent :=
  (set_responder
    (agent_fresh {| ac_role := RoleRespond; ac_lkg_dir := None; ac_trust_root := []; ac_bundle_path := None;
                    ac_exceptions := waivers; ac_policy_name := "p" |} shop_check None 0 0)
    (signal_responder (fun _ => Ok tt)))
  {{ ag_cgroups := {[77 := cold_identity true ∅]};
     ag_loader := {| ld_last_good := Some {| lb_digest := "sha256:00"; lb_spec := socket_spec MEnforce Kill Audit any_selector;
                                             lb_raw := [] |};
                     ld_lkg_dir := None; ld_degraded := false; ld_dropped := 0 |} }}.

Definition shop_meta : EventMeta :=
  {| em_cgroup_id := 77; em_pid := 901; em_tgid := 900; em_in_container := true; em_agent_self := false;
     em_path_truncated := false |}.

Definition live_sink : SinkState := {| sk_dead := false; sk_queue_dropped := 0; sk_write_failed := 0; sk_writer_lost := 0 |}.
Definition noon : Readings := {| rd_at := 1; rd_identity := 2; rd_labels := 3; rd_path := 4; rd_export := 5 |}.

Definition socket_opened (waivers : list PolicyExceptionSpec) : Decision * EnforcementEvent * list Z * Agent :=
  handle_event_at 4242 (shop_agent waivers) shop_meta (open_event "/run/docker.sock" false) live_sink (days 1) noon.

Lemma quad_eta {A B C D} (x : A * B * C * D) : x = (x.1.1.1, x.1.1.2, x.1.2, x.2).
Proof. by destruct x as [[[]]]. Defined.

Lemma kill_exactly_witness :
  (socket_opened []).1.2 = [900] /\ ee_executed (socket_opened []).1.1.2 = true.
Proof.
  assert (Ht : 0 <= em_tgid shop_meta) by (vm_compute; discriminate).
  destruct (kill_exactly_when_proven 4242 (shop_agent []) shop_meta (open_event "/run/docker.sock" false)
    live_sink (days 1) noon _ _ _ _ Ht (quad_eta (socket_opened []))) as (Hk & _ & Hx).
  assert (H : (socket_opened []).1.2 = [900]).
  { apply Hk.
    exists {| lb_digest := "sha256:00"; lb_spec := socket_spec MEnforce Kill Audit any_selector; lb_raw := [] |},
      (cold_identity true ∅), (signal_responder (fun _ => Ok tt)).
    do 5 (split; [vm_compute; first [reflexivity | discriminate]|]).
    split; [intros spec (_ & _ & rule & _ & Hin & _); apply not_elem_of_nil in Hin; exact Hin|].
    do 3 (split; [vm_compute; repeat split; reflexivity|]).
    split; [vm_compute; repeat split; discriminate|].
    do 2 (split; [vm_compute; reflexivity|]). reflexivity. }
  split; [exact H|]. apply Hx. exists (signal_responder (fun _ => Ok tt)).
  split_and!; [exact H | reflexivity | vm_compute; reflexivity].
Defined.

Lemma every_reaction_witness :
  counts (socket_opened []).2 = {| c_kill := 1; c_failed := 0; c_refused := 0; c_skipped := 0 |} /\
  counts (socket_opened [socket_waiver]).2 = {| c_kill := 0; c_failed := 0; c_refused := 0; c_skipped := 0 |}.
Proof.
  assert (Ht : 0 <= em_tgid shop_meta) by (vm_compute; discriminate).
  destruct (every_reaction_is_accounted 4242 (shop_agent []) shop_meta (open_event "/run/docker.sock" false)
    live_sink (days 1) noon _ _ _ _ Ht (quad_eta (socket_opened []))) as (H & _).
  destruct (every_reaction_is_accounted 4242 (shop_agent [socket_waiver]) shop_meta (open_event "/run/docker.sock" false)
    live_sink (days 1) noon _ _ _ _ Ht (quad_eta (socket_opened [socket_waiver]))) as (H' & _).
  split; [rewrite H | rewrite H']; vm_compute; reflexivity.
Defined.

Lemma waived_witness :
  ee_action (socket_opened [socket_waiver]).1.1.2 = WAIVED_ACTION /\ (socket_opened [socket_waiver]).1.2 = [].
Proof.
  assert (Ht : 0 <= em_tgid shop_meta) by (vm_compute; discriminate).
  destruct (waived_only_by_a_live_exception 4242 (shop_agent [socket_waiver]) shop_meta
    (open_event "/run/docker.sock" false) live_sink (days 1) noon _ _ _ _ Ht (quad_eta (socket_opened [socket_waiver])))
    as ([_ Hw] & Hn).
  assert (H : ee_action (socket_opened [socket_waiver]).1.1.2 = WAIVED_ACTION).
  { apply Hw. exists socket_waiver. split; [discriminate|]. split; [vm_compute; reflexivity|]. exists "socket".
    split; [vm_compute; reflexivity|]. split; [apply list_elem_of_singleton; reflexivity | vm_compute; reflexivity]. }
  split; [exact H | exact (proj1 (Hn H))].
Defined.

Definition quiet : Moment :=
  {| mo_sink := live_sink; mo_wall := days 1; mo_written := true; mo_at := 6; mo_readings := noon |}.

Lemma pump_witness :
  let p := pump_records 4242 (shop_agent []) X86_64 ([(encode_event example_event, quiet)] ++ repeat ([0], quiet) 64) in
  ps_handled (pu_stats p) + ps_unknown_syscall (pu_stats p) + ps_decode_failed (pu_stats p) = 65 /\
  map ee_tgid (pu_written p) = [10] /\ ag_terminal_fault (pu_agent p) <> None.
Proof.
  destruct (pump_accounts_every_record 4242 (shop_agent []) X86_64 [(encode_event example_event, quiet)]
    (repeat ([0], quiet) 64)) as (Ht & _ & Hw & _ & Hf).
  - apply Forall_app. split; [constructor; [|constructor]|].
    + unfold bytes_ok. apply (bool_decide_unpack _). vm_compute. exact I.
    + apply Forall_forall. intros x Hx. apply list_elem_of_In, repeat_spec in Hx. subst x.
      constructor; [split; [discriminate | reflexivity] | constructor].
  - apply Forall_forall. intros x Hx. apply list_elem_of_In, repeat_spec in Hx. subst x. reflexivity.
  - vm_compute. discriminate.
  - vm_compute. discriminate.
  - split; [rewrite Ht; vm_compute; reflexivity|]. split; [rewrite Hw; vm_compute; reflexivity | exact Hf].
Defined.

Lemma ring_drops_witness :
  let '(ts, l') := ticks (ring_new 1000 0) [(500, 3, Ok 4); (1000, 3, Ok 4); (1500, 0, Ok 9); (2100, 0, Ok 9)] in
  drops ts = 9 /\ rl_seen_drops l' = 9.
Proof.
  assert (H1 : IDLE_MIN <= rl_idle (ring_new 1000 0) <= IDLE_MAX) by (vm_compute; split; discriminate).
  assert (H2 : growing (rl_seen_drops (ring_new 1000 0)) [(500, 3, Ok 4); (1000, 3, Ok 4); (1500, 0, Ok 9); (2100, 0, Ok 9)])
    by (vm_compute; repeat split; discriminate).
  pose proof (ring_drops_counted_once _ _ H1 H2) as H.
  destruct (ticks _ _) as [ts l'] eqn:E. vm_compute in E. injection E as <- <-. destruct H as (H & _).
  split; [exact H | reflexivity].
Defined.
