(* ===== verification/Update.v ===== *)
(** * Policy updates and restarts of the node agent

    [install_verified_with], [apply_fsig], [apply_path], [restore_last_known_good], the
    exception reloads, [poll_once] and [Agent::new] of [crates/ferrum-agent/src/lib.rs],
    over the last-known-good directory. A node is the agent with that directory; its
    operations are those the threads of [main.rs] perform, in any order. *)

From coqutil Require Import Datatypes.RecordSetters.
From S2P Require Import Prelude RustStd RustText Ids Api Policy Wire Encode Wasm Compiler Envelope Febp RuntimeEval.
From S2P Require Import Datapath KRules Event Loader Program Crypto Grant Journal Encoding Json Bundle Webhook.
From S2P Require Import Clock Cgroup Labels Pods Respond Lkg AgentSource AgentState Degraded React.

(** ** Small operations *)

Definition cgroup_scan_root (a : Agent) (derived : Result (list Z)) : option (list Z) * Agent :=
  match derived with
  | Ok root => (Some root, a)
  | Err err => (None, mark_terminal_fault a ([Lit CGROUP_ROOT_UNDERIVABLE; Lit " ("] ++ error_to_string err ++ [Lit ")"]))
  end.

(** What the channel of cgroup sets still holds, and whether its sender is gone. *)
Fixpoint drain_cgroup_updates {T} (queued : list T) (disconnected : bool) (apply : Agent -> T -> Agent) (a : Agent)
    : bool * Agent :=
  match queued with
  | update :: queued' => drain_cgroup_updates queued' disconnected apply (apply a update)
  | [] => if disconnected then (false, mark_container_map_error a CGROUP_PUBLISHER_GONE) else (true, a)
  end.

(** [sent] is whether [tx.send(record)] is [Ok]. *)
Definition publish_record (a : Agent) (sent : bool) : bool * Agent :=
  if sent then (true, a) else (false, mark_terminal_fault a [Lit RECORD_CHANNEL_GONE]).

(** [host] is the answer of [host_pid_namespace()]. *)
Definition self_tgid_to_publish (a : Agent) (host : bool) (tgid : Z) : option Z * Agent :=
  if host then (Some tgid, a) else (None, mark_self_tgid_unpublished a).

Definition agent_set_exceptions (a : Agent) (list : list PolicyExceptionSpec) (wall now : Z) : Agent :=
  a {{ ag_clock ::= fun c => anchor_from_exceptions_at c list wall now; ag_exceptions := list }}.

Definition drop_exceptions (a : Agent) : Agent :=
  a {{ ag_exceptions := []; ag_exceptions_reload_failed ::= add64 1; ag_exceptions_dropped := true }}.

Definition note_unreadable_bundle_mount (a : Agent) : bool * Agent :=
  (negb (ag_bundle_unreadable a), note_bundle_stat a false).

(** ** Bundles *)

Section update.
Context `{E : Ed25519} `{X : ExceptionsJson} (sha256 : list Z -> list Z).
Context (outside : string -> list string -> Lookup).

Definition loader_set (a : Agent) (l : Loader) : Agent := a {{ ag_loader := l }}.
Definition agent_mark_degraded (a : Agent) : Agent := loader_set a (mark_degraded (ag_loader a)).

Definition install_verified_with (a : Agent) (bytes : list Z) (expected_digest : option string) (dead : DeadRules)
    : Result string * Agent :=
  match agent_load_source sha256 bytes (ag_trust_root a) expected_digest with
  | Err err => (Err err, agent_mark_degraded a)
  | Ok (raw, digest) =>
      match extract_febp raw with
      | Err err => (Err err, agent_mark_degraded a)
      | Ok _ =>
          let '(r, l) := load_bundle_with sha256 (ag_loader a) digest raw dead in
          let a := loader_set a l in
          match r with
          | Err err => (Err err, a)
          | Ok dropped =>
              (Ok digest,
               if is_empty dropped then a {{ ag_lkg_partial := false }}
               else a {{ ag_lkg_rules_dropped ::= add64 (len dropped); ag_lkg_partial := true }})
          end
      end
  end.

(** What the file system does to one save. *)
Record SaveEnv := {
  sv_fault : Op -> option (string * nat);
  sv_created : result string unit;
  sv_listed : bool;
  sv_snap : string
}.

(** [persist_fsig]: without a directory there is nothing to do. *)
Definition agent_persist_fsig (a : Agent) (env : SaveEnv) (fsig : list Z) (digest : string) : io unit :=
  match ag_lkg_dir a with
  | None => io_ret (Ok tt)
  | Some _ => Lkg.persist_fsig outside (sv_fault env) (sv_created env) (sv_listed env) (sv_snap env) fsig digest
  end.

(** The directories passed through are the third result. *)
Definition apply_fsig (a : Agent) (env : SaveEnv) (bytes : list Z) (expected_digest : option string) (d : Dir)
    : Result string * Agent * list Dir * Dir :=
  match install_verified_with a bytes expected_digest Reject with
  | (Err err, a) => (Err err, a, [], d)
  | (Ok digest, a) =>
      let '(tr, r, d') := agent_persist_fsig a env bytes digest d in
      match r with
      | Err err => (Err err, agent_mark_degraded a, tr, d')
      | Ok _ => (Ok digest, a, tr, d')
      end
  end.

(** [source] is what [read_source_path(path)] answered. *)
Definition apply_path (a : Agent) (env : SaveEnv) (source : Result (list Z * option string)) (d : Dir)
    : Result string * Agent * list Dir * Dir :=
  match source with
  | Err err => (Err err, agent_mark_degraded a, [], d)
  | Ok (bytes, expected) => apply_fsig a env bytes expected d
  end.

Definition restore_last_known_good (a : Agent) (d : Dir) : Result unit * Agent :=
  match ag_lkg_dir a with
  | None => (Ok tt, a)
  | Some dir =>
      if negb (lkg_present outside d) then (Ok tt, a)
      else if is_empty (ag_trust_root a) then
        (Err (Degraded [Lit "LKG present but no pinned trust-root; unsigned FEBP is not applied"]), agent_mark_degraded a)
      else
        match read_lkg outside dir d with
        | Err err => (Err err, agent_mark_degraded a)
        | Ok (bytes, expected) =>
            let '(r, a) := install_verified_with a bytes expected Drop in
            (match r with Ok _ => Ok tt | Err e => Err e end, a)
        end
  end.

Definition agent_new (config : AgentConfig) (check : TargetCheck) (disk : option Z) (wall now : Z) (d : Dir) : Agent :=
  snd (restore_last_known_good (agent_fresh config check disk wall now) d).

(** ** Exceptions *)

Definition verify_and_parse_exceptions (a : Agent) (bytes : list Z) : Result (list PolicyExceptionSpec) :=
  raw ← load_exceptions_source sha256 bytes (ag_trust_root a);
  list ← match exceptions_of_json raw with
         | Ok list => Ok list
         | Err e => Err (Validation [Lit "exceptions.fsig payload: "; Str e])
         end;
  _ ← refuse_if (MAX_EXCEPTION_SPECS <? len list)
        (Validation [Lit "exceptions.fsig payload has "; Num (len list); Lit " specs, cap is ";
                     Num MAX_EXCEPTION_SPECS]);
  mret list.

Definition agent_try_reload_exceptions (a : Agent) (bytes : list Z) (wall now : Z) : Result Z * Agent :=
  match verify_and_parse_exceptions a bytes with
  | Ok list => (Ok (len list), (agent_set_exceptions a list wall now) {{ ag_exceptions_dropped := false }})
  | Err err => (Err err, drop_exceptions a)
  end.

(** [outcome] is what [read_exceptions_path(path)] answered. *)
Definition reload_exceptions_path (a : Agent) (outcome : Result (option (list Z))) (wall now : Z) : Result Z * Agent :=
  match outcome with
  | Ok (Some bytes) => agent_try_reload_exceptions a bytes wall now
  | Ok None => (Ok 0, a {{ ag_exceptions := []; ag_exceptions_dropped := false }})
  | Err err => (Err err, drop_exceptions a)
  end.

(** ** One poll *)

Record PollStamps := { po_bundle : option SourceStamp; po_exceptions : MountStat FileStamp }.

Definition PollStamps_default : PollStamps := {| po_bundle := None; po_exceptions := Absent |}.

(** What the mount, the disk and the clocks answer during one turn. *)
Record PollInput := {
  pi_stamp : MountStat SourceStamp;
  pi_source : Result (list Z * option string);
  pi_save : SaveEnv;
  pi_ex_stamp : MountStat FileStamp;
  pi_exceptions : Result (option (list Z));
  pi_wall : Z;
  pi_now : Z;
  pi_floor_written : bool;
  pi_sink : option SinkState;
  pi_at : Z;
  pi_tick_wall : Z;
  pi_tick_written : bool
}.

(** The bundle part of [poll_once]: the directories passed through are the last result. *)
Definition poll_bundle_stamp (a : Agent) (stamps : PollStamps) (i : PollInput) (d : Dir)
    : Agent * PollStamps * Dir * list Dir :=
  match pi_stamp i with
  | Present next =>
      let a := note_bundle_stat a true in
      if bool_decide (po_bundle stamps = Some next) then (a, stamps, d, [])
      else let '(_, a, tr, d') := apply_path a (pi_save i) (pi_source i) d in
           (a, {| po_bundle := Some next; po_exceptions := po_exceptions stamps |}, d', tr)
  | Absent => (note_bundle_stat a true, stamps, d, [])
  | Unreadable => (snd (note_unreadable_bundle_mount a), stamps, d, [])
  end.

Definition poll_exceptions_stamp (a : Agent) (stamps : PollStamps) (i : PollInput) : Agent * PollStamps :=
  if bool_decide (pi_ex_stamp i = po_exceptions stamps) then (a, stamps)
  else (snd (reload_exceptions_path a (pi_exceptions i) (pi_wall i) (pi_now i)),
        {| po_bundle := po_bundle stamps; po_exceptions := pi_ex_stamp i |}).

(** [StatusPublisher::tick], as far as it changes the agent. *)
Definition status_tick (a : Agent) (sink : option SinkState) (at_ wall : Z) (written : bool) : DegradedState * Agent :=
  let a := match sink with Some s => note_export_state_at a s at_ | None => a end in
  degraded_state_at a at_ wall written.

Definition poll_once (a : Agent) (stamps : PollStamps) (i : PollInput) (d : Dir)
    : DegradedState * Agent * PollStamps * Dir * list Dir :=
  let '(a, stamps, d, tr) := poll_bundle_stamp a stamps i d in
  let '(a, stamps) := poll_exceptions_stamp a stamps i in
  let a := a {{ ag_clock ::= fun c => persist c (pi_floor_written i) }} in
  let '(state, a) := status_tick a (pi_sink i) (pi_at i) (pi_tick_wall i) (pi_tick_written i) in
  (state, a, stamps, d, tr).
End update.

(** ** The process *)

Record Node := { nd_agent : Agent; nd_dir : Dir; nd_stamps : PollStamps }.

(** What the threads of [main.rs] do to the agent: the bundle poll, the record pump, the
    cgroup refresh, the ring thread that writes the kernel maps, and the status poll. *)
Inductive NodeOp :=
| OpPoll (i : PollInput)
| OpPump (arch : SyscallArch) (record : list Z) (mo : Moment)
| OpIndex (index : gmap Z WorkloadIdentity)
| OpScanRoot (derived : Result (list Z))
| OpMapSynced (entries at_ : Z)
| OpMapError (reason : string)
| OpPublisherGone
| OpKernelSynced (set : KernelRuleSet) (installed : Z)
| OpKernelUnsynced (err : msg)
| OpSelected (entries : Z)
| OpSelfTgid (host : bool) (tgid : Z)
| OpAttachment (lsm_attached : bool) (at_ wall : Z) (written : bool)
| OpRecordSent (sent : bool)
| OpRingDrops (n now : Z)
| OpStatusTick (sink : option SinkState) (at_ wall : Z) (written : bool)
| OpStatusWritten (ok : bool)
| OpControlPlane (up : bool).

Section process.
Context `{E : Ed25519} `{X : ExceptionsJson} (sha256 : list Z -> list Z).
Context (outside : string -> list string -> Lookup) (self_pid : Z).

(** [publish_attachment_state]. *)
Definition publish_attachment_state (a : Agent) (lsm_attached : bool) (at_ wall : Z) (written : bool) : Agent :=
  snd (degraded_snapshot_at (set_lsm_attached (set_attached a true) lsm_attached) at_ wall written).

Definition run_agent (op : NodeOp) (a : Agent) : Agent :=
  match op with
  | OpPoll _ => a
  | OpPump arch record mo => pu_agent (pump_records self_pid a arch [(record, mo)])
  | OpIndex index => a {{ ag_cgroups := index }}
  | OpScanRoot derived => snd (cgroup_scan_root a derived)
  | OpMapSynced entries at_ => set_container_map_synced_at a entries at_
  | OpMapError reason => mark_container_map_error a reason
  | OpPublisherGone => snd (drain_cgroup_updates [] true (fun a (_ : unit) => a) a)
  | OpKernelSynced set installed => mark_kernel_rules_synced a set installed
  | OpKernelUnsynced err => mark_kernel_rules_unsynced a err
  | OpSelected entries => mark_selected_cgroups a entries
  | OpSelfTgid host tgid => snd (self_tgid_to_publish a host tgid)
  | OpAttachment lsm at_ wall written => publish_attachment_state a lsm at_ wall written
  | OpRecordSent sent => snd (publish_record a sent)
  | OpRingDrops n now => agent_record_drop_at a n now
  | OpStatusTick sink at_ wall written => snd (status_tick a sink at_ wall written)
  | OpStatusWritten ok => note_status_write a ok
  | OpControlPlane up => if up then mark_control_plane_up a else mark_control_plane_down a
  end.

Definition run_op (op : NodeOp) (n : Node) : Node :=
  match op with
  | OpPoll i =>
      let '(_, a, stamps, d, _) := poll_once sha256 outside (nd_agent n) (nd_stamps n) i (nd_dir n) in
      {| nd_agent := a; nd_dir := d; nd_stamps := stamps |}
  | _ => {| nd_agent := run_agent op (nd_agent n); nd_dir := nd_dir n; nd_stamps := nd_stamps n |}
  end.

(** The start of [main]: [host] is [host_pid_namespace()], and [None] is [exit(2)]. *)
Definition start_node (config : AgentConfig) (check : TargetCheck) (responder : Responder) (host : bool)
    (disk : option Z) (wall now : Z) (d : Dir)
    (bundle : option (SaveEnv * Result (list Z * option string) * Result (option (list Z)))) : option Node :=
  let a := agent_new sha256 outside config check disk wall now d in
  let a := if respond_enabled (ac_role config)
           then if host then set_responder a responder else disable_respond a RESPOND_NO_HOST_PIDNS
           else a in
  let a := snd (restore_last_known_good sha256 outside a d) in
  match bundle with
  | None => Some {| nd_agent := a; nd_dir := d; nd_stamps := PollStamps_default |}
  | Some (env, source, exceptions) =>
      let '(r, a, _, d') := apply_path sha256 outside a env source d in
      let failed := match r with Err _ => true | Ok _ => false end in
      if failed && match ld_last_good (ag_loader a) with Some _ => false | None => true end then None
      else Some {| nd_agent := snd (reload_exceptions_path sha256 a exceptions wall now); nd_dir := d';
                   nd_stamps := PollStamps_default |}
  end.

(** Every state of a process whose pin is [root], whatever was in its directory. *)
Inductive node_reach (root : list Z) : Node -> Prop :=
| nr_start config check responder host disk wall now d bundle n :
    ac_trust_root config = root -> ac_exceptions config = [] ->
    start_node config check responder host disk wall now d bundle = Some n -> node_reach root n
| nr_op op n : node_reach root n -> node_reach root (run_op op n).
End process.

(** ** What every state of the process satisfies *)

(** The fields an invariant of the node speaks of, the window apart. *)
Definition steady (a : Agent) :=
  (ag_trust_root a, ld_last_good (ag_loader a), ag_lkg_partial a, ag_exceptions a, ag_terminal_fault a,
   ag_respond_disabled a, ag_decode_failed_run a).

Definition window_size (a : Agent) : Z := Z.of_nat (size (ag_container_unproven_window a)).
Definition window_ok (a : Agent) : Prop := window_size a <= CONTAINER_FLAG_TRACKED_MAX.

Lemma filter_size_lt {V} (P : Z * V -> Prop) `{!forall x, base.Decision (P x)} (m : gmap Z V) k v :
  m !! k = Some v -> ~ P (k, v) -> (size (filter P m) < size m)%nat.
Proof.
  intros Hk Hn. assert (Hsub : filter P m ⊆ delete k m).
  { apply map_subseteq_spec. intros i x [Hi HP]%map_lookup_filter_Some.
    rewrite lookup_delete_ne; [done|]. intros ->. congruence. }
  apply map_subseteq_size in Hsub. rewrite map_size_delete_Some in Hsub by (by exists v).
  assert (size m <> 0)%nat by (intros E%map_size_empty_inv; by rewrite E, lookup_empty in Hk). lia.
Qed.

(** Eviction makes room. *)
Lemma evict_makes_room windows synced_at now :
  windows <> ∅ -> (size (evict_unproven windows synced_at now) < size windows)%nat.
Proof.
  intros Hne. unfold evict_unproven. cbn zeta.
  set (kept := filter _ windows). destruct (size kept <? size windows)%nat eqn:Hlt; [by apply Nat.ltb_lt|].
  apply Nat.ltb_ge in Hlt. assert (Hs : (size kept <= size windows)%nat) by apply map_size_filter.
  set (seen := merge_sort Z.le (map (fun kw => uw_seen kw.2) (map_to_list kept))).
  assert (Hlen : length seen = size windows).
  { unfold seen. rewrite merge_sort_Permutation, length_map, length_map_to_list. lia. }
  assert (Hpos : (0 < size windows)%nat).
  { destruct (size windows) eqn:E; [by apply map_size_empty_inv in E | lia]. }
  destruct (lookup_lt_is_Some_2 seen (size windows / 8)) as [cut Hcut].
  { rewrite Hlen. apply Nat.div_lt; lia. }
  rewrite Hcut. cbn [default]. apply list_elem_of_lookup_2 in Hcut.
  unfold seen in Hcut. rewrite merge_sort_Permutation in Hcut.
  apply list_elem_of_fmap in Hcut as ([k w] & -> & Hin%elem_of_map_to_list).
  eapply Nat.lt_le_trans; [apply (filter_size_lt _ kept k w); [done | simpl; lia] | done].
Qed.

(** The table of unproven cgroups never outgrows its bound. *)
Lemma window_bounded a cgroup now : window_ok a -> window_ok (container_unproven a cgroup now).2.
Proof.
  unfold window_ok, window_size, container_unproven. intros Hw.
  destruct (container_map_ready_at a now); [|done]. cbn [negb snd].
  set (m := ag_container_unproven_window a) in *. set (w := {| uw_opened := _; uw_seen := now |}).
  change (Z.of_nat (size (<[cgroup := w]> (if (CONTAINER_FLAG_TRACKED_MAX <=? Z.of_nat (size m)) && bool_decide (m !! cgroup = None)
    then evict_unproven m (ag_container_map_synced_at a) now else m))) <= CONTAINER_FLAG_TRACKED_MAX).
  clearbody w. assert (HM : CONTAINER_FLAG_TRACKED_MAX = 4096) by done. rewrite HM in *.
  assert (Hins : forall (x : gmap Z UnprovenWindow), (size (<[cgroup := w]> x) <= S (size x))%nat).
  { intros x. destruct (x !! cgroup) eqn:Ex;
      [rewrite map_size_insert_Some by (by eexists) | rewrite map_size_insert_None by done]; lia. }
  destruct (Z.leb_spec 4096 (Z.of_nat (size m))) as [Hfull|Hroom]; cbn [andb].
  - case_bool_decide as Hk.
    + pose proof (evict_makes_room m (ag_container_map_synced_at a) now) as He.
      pose proof (Hins (evict_unproven m (ag_container_map_synced_at a) now)).
      assert (m <> ∅) by (intros ->; rewrite map_size_empty in Hfull; lia). specialize (He H0). lia.
    + destruct (m !! cgroup) eqn:Ek; [|done]. rewrite map_size_insert_Some by (by eexists). lia.
  - pose proof (Hins m). lia.
Qed.

(** *** One event leaves the policy and the slots alone *)

Lemma unproven_steady a cgroup now : steady (container_unproven a cgroup now).2 = steady a.
Proof. unfold container_unproven. by destruct (container_map_ready_at a now). Qed.

Lemma resolve_steady a meta rd :
  steady (resolve_identity a meta rd).2 = steady a /\ (window_ok a -> window_ok (resolve_identity a meta rd).2).
Proof.
  unfold resolve_identity. destruct (lookup_cgroup _ _), (em_in_container meta); try done.
  - unfold note_container_flag_disagreement. cbn zeta. by destruct (_ || _).
  - pose proof (unproven_steady a (em_cgroup_id meta) (rd_at rd)) as Hs.
    pose proof (window_bounded a (em_cgroup_id meta) (rd_at rd)) as Hw.
    by destruct (container_unproven a _ _).
Qed.

Lemma react_steady self_pid a d meta id event :
  steady (react self_pid a d meta id event).2 = steady a /\
  ag_container_unproven_window (react self_pid a d meta id event).2 = ag_container_unproven_window a.
Proof.
  unfold react, react_kill. destruct (d_action d); try done; destruct (refuse_reason _ _ _ _ _ _ _) as [reason|];
    try (by destruct (str_eqb reason REFUSE_ROLE)); destruct (bool_decide _); try done;
    destruct tc_unprovable; try done; destruct (tc_cgroup_id _); try done; destruct (_ =? _); try done.
  all: destruct (ag_responder _); [|done]; by destruct (respond_kill_with _).
Qed.

Lemma export_steady a sink now :
  steady (note_export_state_at a sink now) = steady a /\
  ag_container_unproven_window (note_export_state_at a sink now) = ag_container_unproven_window a.
Proof. unfold note_export_state_at. cbn zeta. by destruct (sk_dead sink), (_ <? _). Qed.

Lemma now_steady a wall written :
  steady (agent_now_from a wall written).2 = steady a /\
  ag_container_unproven_window (agent_now_from a wall written).2 = ag_container_unproven_window a.
Proof. unfold agent_now_from. destruct (now_from _ _ _). by destruct (negb _). Qed.

Lemma handle_at_steady self_pid a meta event sink now rd :
  steady (handle_event_at self_pid a meta event sink now rd).2 = steady a /\
  (window_ok a -> window_ok (handle_event_at self_pid a meta event sink now rd).2).
Proof.
  unfold handle_event_at. pose proof (resolve_steady a meta rd) as [Hs Hw].
  destruct (resolve_identity a meta rd) as [[id u] a0]. cbn [snd] in Hs, Hw.
  set (d := loader_decide_with _ _ _ _).
  set (a1 := if d_path_unknown d then _ else _).
  assert (H1 : steady a1 = steady a0 /\ ag_container_unproven_window a1 = ag_container_unproven_window a0)
    by (unfold a1; by destruct (d_labels_unknown d), (d_path_unknown d)).
  clearbody a1. destruct H1 as [Hs1 Hw1]. 
  match goal with |- context [react self_pid a1 ?x meta id event] => set (d' := x) end.
  pose proof (react_steady self_pid a1 d' meta id event) as [Hs2 Hw2].
  destruct (react _ _ _ _ _ _) as [r a2]. cbn [snd] in *.
  set (a3 := if d_container_unknown d' then _ else _).
  assert (H3 : steady a3 = steady a2 /\ ag_container_unproven_window a3 = ag_container_unproven_window a2)
    by (unfold a3; by destruct (d_container_unknown d')).
  clearbody a3. destruct H3 as [Hs3 Hw3].
  pose proof (export_steady a3 sink (rd_export rd)) as [Hs4 Hw4]. cbn [snd]. split; [congruence|].
  intros Hok. apply Hw in Hok. unfold window_ok, window_size in *. by rewrite Hw4, Hw3, Hw2, Hw1.
Qed.

Lemma handle_steady self_pid a meta event sink wall written rd :
  steady (handle_event self_pid a meta event sink wall written rd).2 = steady a /\
  (window_ok a -> window_ok (handle_event self_pid a meta event sink wall written rd).2).
Proof.
  unfold handle_event. pose proof (now_steady a wall written) as [Hs Hw].
  destruct (agent_now_from a wall written) as [now a0]. cbn [snd] in *.
  pose proof (handle_at_steady self_pid a0 meta event sink now rd) as [Hs' Hw'].
  split; [congruence|]. intros Hok. apply Hw'. unfold window_ok, window_size in *. by rewrite Hw.
Qed.

Section invariant.
Context `{E : Ed25519} `{X : ExceptionsJson} (sha256 : list Z -> list Z).
Context (outside : string -> list string -> Lookup) (self_pid : Z).

(** The bundle is the payload of an envelope signed under the pin; [partial] is raised
    when rules of it were left out. *)
Definition signed_bundle (root : list Z) (partial : bool) (b : LoadedBundle) : Prop :=
  exists bytes expected febp dead dropped,
    signed_envelope sha256 root bytes expected (lb_raw b) /\ lb_digest b = bundle_digest sha256 (lb_raw b) /\
    extract_febp (lb_raw b) = Ok febp /\ parse_febp_with febp dead = Ok (lb_spec b, dropped) /\
    (dropped <> [] -> partial = true).

(** The waivers are none, or all those of one signed list. *)
Definition signed_waivers (root : list Z) (l : list PolicyExceptionSpec) : Prop :=
  l = [] \/ exists bytes raw, signed_envelope sha256 root bytes None raw /\ exceptions_of_json raw = Ok l /\
    len l <= MAX_EXCEPTION_SPECS.

Definition named_fault (m : msg) : Prop := exists text rest, m = Lit text :: rest /\ text ∈ fault_texts.

(** The part of the invariant that reads [steady]. *)
Definition steady_ok (root : list Z)
    (v : list Z * option LoadedBundle * bool * list PolicyExceptionSpec * option msg * option string * Z) : Prop :=
  let '(pin, bundle, partial, waivers, fault, disabled, run) := v in
  pin = root /\ (forall b, bundle = Some b -> signed_bundle root partial b) /\ signed_waivers root waivers /\
  (forall m, fault = Some m -> named_fault m) /\ (forall r, disabled = Some r -> r = RESPOND_NO_HOST_PIDNS) /\ 0 <= run.

Definition agent_ok (root : list Z) (a : Agent) : Prop := steady_ok root (steady a) /\ window_ok a.

Lemma agent_ok_frame root a a' :
  steady a' = steady a -> ag_container_unproven_window a' = ag_container_unproven_window a ->
  agent_ok root a -> agent_ok root a'.
Proof. unfold agent_ok, window_ok, window_size. by intros -> ->. Qed.

Lemma fault_ok root a m : named_fault m -> agent_ok root a -> agent_ok root (mark_terminal_fault a m).
Proof.
  intros Hm [(H1 & H2 & H3 & H4 & H5 & H6) Hw]. unfold mark_terminal_fault.
  destruct (ag_terminal_fault a) eqn:Hf; [split; [|done]; unfold steady_ok, steady; rewrite Hf; split_and!; done|].
  split; [|done]. split_and!; try done. by intros m' [= <-].
Qed.

Lemma decode_failure_ok root a n now : 0 <= n -> agent_ok root a -> agent_ok root (record_decode_failure_at a n now).
Proof.
  intros Hn Hok. unfold record_decode_failure_at. destruct (n =? 0); [done|]. cbn zeta.
  set (a1 := a {{ ag_decode_failed ::= add64 n; ag_decode_failed_at := Some now }}
               {{ ag_decode_failed_run := _ }}).
  assert (H1 : agent_ok root a1).
  { destruct Hok as [(H1 & H2 & H3 & H4 & H5 & H6) Hw]. split; [|done]. split_and!; try done.
    apply Z.mod_pos_bound. done. }
  destruct (_ <=? _); [|done]. apply fault_ok; [|done]. exists DATAPATH_UNDECODABLE, []. split; [done|].
  unfold fault_texts. set_solver.
Qed.

Lemma abi_mismatch_ok root a stamp now :
  agent_ok root a -> agent_ok root (record_datapath_abi_mismatch_at a stamp now).
Proof.
  intros Hok. unfold record_datapath_abi_mismatch_at. cbn zeta. apply fault_ok.
  - eexists DATAPATH_ABI_MISMATCH, _. split; [done|]. unfold fault_texts. set_solver.
  - apply decode_failure_ok; [done|]. by eapply agent_ok_frame; [| |exact Hok].
Qed.

Lemma decode_success_ok root a n : agent_ok root a -> agent_ok root (record_decode_success a n).
Proof.
  intros [(H1 & H2 & H3 & H4 & H5 & H6) Hw]. unfold record_decode_success. destruct (n =? 0); [done|].
  split; [|done]. by split_and!.
Qed.

Lemma pump_ok root arch p item :
  agent_ok root (pu_agent p) -> agent_ok root (pu_agent (pump_record self_pid arch p item)).
Proof.
  intros Hok. destruct item as [record mo]. unfold pump_record.
  destruct (decode_event record) as [e|err]; cbn [pu_agent].
  - pose proof (decode_success_ok root _ 1 Hok) as H1. set (a1 := record_decode_success _ 1) in *. clearbody a1.
    assert (H2 : agent_ok root (record_unknown_syscall a1)) by (by eapply agent_ok_frame; [| |exact H1]).
    destruct (syscall_name arch (ev_syscall_nr e)).
    all: match goal with |- context [handle_event ?s ?a ?m ?v ?k ?w ?t ?r] =>
           pose proof (handle_steady s a m v k w t r) as [Hs Hw];
           destruct (handle_event s a m v k w t r) as [[[d x] ks] a'] end.
    all: cbn [pu_agent snd] in *; split; [rewrite Hs | apply Hw]; first [apply H1 | apply H2].
  - destruct (abi_stamp_mismatch record); [by apply abi_mismatch_ok | by apply decode_failure_ok].
Qed.

Lemma pin_not_zero root bytes expected r :
  agent_load_source sha256 bytes root expected = Ok r -> is_all_zero root = false.
Proof.
  unfold agent_load_source, pin_bytes. intros [Hp _]%bind_ok_unit.
  apply bind_ok_unit in Hp as [_ Hz%refuse_if_ok]. exact Hz.
Qed.

(** A bundle that installs: what was checked, and what the agent then holds. *)
Lemma install_inv a bytes expected dead digest a' :
  install_verified_with sha256 a bytes expected dead = (Ok digest, a') ->
  exists raw febp spec dropped,
    signed_envelope sha256 (ag_trust_root a) bytes expected raw /\ digest = bundle_digest sha256 raw /\
    extract_febp raw = Ok febp /\ parse_febp_with febp dead = Ok (spec, dropped) /\
    ld_last_good (ag_loader a') = Some {| lb_digest := digest; lb_spec := spec; lb_raw := raw |} /\
    ld_degraded (ag_loader a') = false /\ ag_lkg_partial a' = negb (is_empty dropped) /\
    ag_lkg_dir a' = ag_lkg_dir a /\ ag_trust_root a' = ag_trust_root a.
Proof.
  unfold install_verified_with. destruct (agent_load_source _ _ _ _) as [[raw dg]|] eqn:Hl; [|done].
  pose proof (pin_not_zero _ _ _ _ Hl) as Hz. apply agent_accepts in Hl as (Hs & Hf & ->); [|done].
  destruct (extract_febp raw) as [febp|] eqn:Hfe; [|done].
  unfold load_bundle_with. destruct (verify_bundle_digest sha256 raw _); [|done]. rewrite Hfe.
  destruct (parse_febp_with febp dead) as [[spec dropped]|] eqn:Hp; [|done].
  intros H. exists raw, febp, spec, dropped. destruct (is_empty dropped); injection H as <- <-; by split_and!.
Qed.

(** What a bundle that does not install leaves. *)
Lemma install_err a bytes expected dead e a' :
  install_verified_with sha256 a bytes expected dead = (Err e, a') ->
  a' = agent_mark_degraded a.
Proof.
  unfold install_verified_with, agent_mark_degraded, loader_set, mark_degraded.
  destruct (agent_load_source _ _ _ _) as [[raw dg]|]; [|by intros [= _ <-]].
  destruct (extract_febp raw) as [febp|] eqn:Hfe; [|by intros [= _ <-]].
  unfold load_bundle_with. destruct (verify_bundle_digest sha256 raw _); [|by intros [= _ <-]]. rewrite Hfe.
  destruct (parse_febp_with febp dead) as [[spec dropped]|]; [|by intros [= _ <-]]. done.
Qed.

(** What an install leaves alone. *)
Lemma install_frame a bytes expected dead :
  let a' := (install_verified_with sha256 a bytes expected dead).2 in
  (ag_trust_root a', ag_exceptions a', ag_terminal_fault a', ag_respond_disabled a', ag_decode_failed_run a',
   ag_container_unproven_window a', ag_lkg_dir a', ag_role a', ag_policy_name a')
  = (ag_trust_root a, ag_exceptions a, ag_terminal_fault a, ag_respond_disabled a, ag_decode_failed_run a,
     ag_container_unproven_window a, ag_lkg_dir a, ag_role a, ag_policy_name a).
Proof.
  cbn zeta. unfold install_verified_with. destruct (agent_load_source _ _ _ _) as [[raw dg]|]; [|done].
  destruct (extract_febp raw); [|done]. destruct (load_bundle_with _ _ _ _ _) as [[dropped|] l]; [|done].
  by destruct (is_empty dropped).
Qed.

Lemma degraded_ok root a : agent_ok root a -> agent_ok root (agent_mark_degraded a).
Proof. by apply agent_ok_frame. Qed.

Lemma install_ok root a bytes expected dead :
  agent_ok root a -> agent_ok root (install_verified_with sha256 a bytes expected dead).2.
Proof.
  intros Hok. pose proof (install_frame a bytes expected dead) as Hf. cbn zeta in Hf.
  destruct (install_verified_with _ _ _ _ _) as [[digest|e] a'] eqn:Hi; cbn [snd] in *.
  - apply install_inv in Hi as (raw & febp & spec & dropped & Hs & Hd & Hfe & Hp & Hl & _ & Hpart & _).
    destruct Hok as [(H1 & H2 & H3 & H4 & H5 & H6) Hw].
    injection Hf as F1 F2 F3 F4 F5 F6 _ _ _. split; [|unfold window_ok, window_size in *; by rewrite F6].
    unfold steady_ok, steady. rewrite F1, F2, F3, F4, F5, Hl. split_and!; try done.
    intros b [= <-]. exists bytes, expected, febp, dead, dropped. cbn. rewrite <- H1. split_and!; try done.
    intros Hne. rewrite Hpart. by destruct dropped.
  - apply install_err in Hi as ->. by apply degraded_ok.
Qed.

Lemma apply_path_ok root a env source d :
  agent_ok root a -> agent_ok root (apply_path sha256 outside a env source d).1.1.2.
Proof.
  intros Hok. unfold apply_path. destruct source as [[bytes expected]|e]; [|by apply degraded_ok].
  unfold apply_fsig. pose proof (install_ok root a bytes expected Reject Hok) as Hi.
  destruct (install_verified_with _ _ _ _ _) as [[digest|e] a']; [|done]. cbn [snd] in Hi.
  destruct (agent_persist_fsig _ _ _ _ _ _) as [[tr [u|e]] d']; [done | by apply degraded_ok].
Qed.

Lemma restore_ok root a d : agent_ok root a -> agent_ok root (restore_last_known_good sha256 outside a d).2.
Proof.
  intros Hok. unfold restore_last_known_good. destruct (ag_lkg_dir a); [|done]. destruct (negb _); [done|].
  destruct (is_empty _); [by apply degraded_ok|].
  destruct (read_lkg _ _ _) as [[bytes expected]|]; [|by apply degraded_ok].
  pose proof (install_ok root a bytes expected Drop Hok) as Hi. by destruct (install_verified_with _ _ _ _ _).
Qed.

Lemma waivers_ok root a a' :
  agent_ok root a -> signed_waivers root (ag_exceptions a') ->
  (ag_trust_root a', ld_last_good (ag_loader a'), ag_lkg_partial a', ag_terminal_fault a',
   ag_respond_disabled a', ag_decode_failed_run a', ag_container_unproven_window a')
  = (ag_trust_root a, ld_last_good (ag_loader a), ag_lkg_partial a, ag_terminal_fault a,
     ag_respond_disabled a, ag_decode_failed_run a, ag_container_unproven_window a) ->
  agent_ok root a'.
Proof.
  intros [(H1 & H2 & H3 & H4 & H5 & H6) Hw] Hs [= F1 F2 F3 F4 F5 F6 F7].
  split; [|unfold window_ok, window_size in *; by rewrite F7]. unfold steady_ok, steady.
  rewrite F1, F2, F3, F4, F5, F6. by split_and!.
Qed.

Lemma parsed_waivers_signed a bytes l :
  verify_and_parse_exceptions sha256 a bytes = Ok l -> signed_waivers (ag_trust_root a) l.
Proof.
  unfold verify_and_parse_exceptions. intros H. apply bind_ok in H as (raw & Hr%exceptions_accepted & H).
  apply bind_ok in H as (l' & Hj & H). apply bind_ok_unit in H as [Hn%refuse_if_ok [= <-]].
  right. exists bytes, raw. split_and!; [done | by destruct (exceptions_of_json raw); simplify_eq | lia].
Qed.

Lemma reload_exceptions_ok root a outcome wall now :
  agent_ok root a -> agent_ok root (reload_exceptions_path sha256 a outcome wall now).2.
Proof.
  intros Hok. unfold reload_exceptions_path. destruct outcome as [[bytes|]|e].
  - unfold agent_try_reload_exceptions. destruct (verify_and_parse_exceptions _ _ _) as [l|] eqn:Hv.
    + apply (waivers_ok root a); [done | | done]. destruct Hok as [(H1 & _) _]. rewrite <- H1.
      by eapply parsed_waivers_signed.
    + apply (waivers_ok root a); [done | by left | done].
  - apply (waivers_ok root a); [done | by left | done].
  - apply (waivers_ok root a); [done | by left | done].
Qed.

Lemma unjoined_steady a wall written :
  steady (waivers_unjoined a wall written).2 = steady a /\
  ag_container_unproven_window (waivers_unjoined a wall written).2 = ag_container_unproven_window a.
Proof.
  unfold waivers_unjoined. destruct (_ =? 0); [done|]. pose proof (now_steady a wall written) as H.
  destruct (agent_now_from a wall written) as [now a0]. cbn [snd] in H.
  destruct (is_empty _); [done|]. by destruct (str_empty _).
Qed.

Lemma reasons_steady a now wall written :
  steady (degraded_reasons_at a now wall written).2 = steady a /\
  ag_container_unproven_window (degraded_reasons_at a now wall written).2 = ag_container_unproven_window a.
Proof.
  unfold degraded_reasons_at. pose proof (unjoined_steady a wall written) as H.
  by destruct (waivers_unjoined a wall written).
Qed.

Lemma attachment_snapshot_ok root a now wall written : agent_ok root a -> agent_ok root (degraded_snapshot_at a now wall written).2.
Proof.
  unfold degraded_snapshot_at. pose proof (reasons_steady a now wall written) as [H1 H2].
  destruct (degraded_reasons_at a now wall written). cbn [snd] in *. by apply agent_ok_frame.
Qed.

Lemma status_tick_ok root a sink at_ wall written : agent_ok root a -> agent_ok root (status_tick a sink at_ wall written).2.
Proof.
  intros Hok. unfold status_tick, degraded_state_at.
  assert (H0 : agent_ok root (match sink with Some s => note_export_state_at a s at_ | None => a end)).
  { destruct sink as [s|]; [|done]. pose proof (export_steady a s at_) as [H1 H2]. by eapply agent_ok_frame. }
  set (a0 := match sink with Some _ => _ | None => _ end) in *. clearbody a0.
  pose proof (reasons_steady a0 at_ wall written) as [H1 H2].
  destruct (degraded_reasons_at a0 at_ wall written) as [reasons a1]. cbn [snd] in *.
  apply (agent_ok_frame root a1); [done..|]. by apply (agent_ok_frame root a0).
Qed.

Lemma poll_ok root a stamps i d : agent_ok root a -> agent_ok root (poll_once sha256 outside a stamps i d).1.1.1.2.
Proof.
  intros Hok. unfold poll_once. assert (H1 : agent_ok root (poll_bundle_stamp sha256 outside a stamps i d).1.1.1).
  { unfold poll_bundle_stamp. destruct (pi_stamp i) as [|next|].
    - by apply (agent_ok_frame root a).
    - assert (H1 : agent_ok root (note_bundle_stat a true)) by (by apply (agent_ok_frame root a)).
      case_bool_decide; [done|]. pose proof (apply_path_ok root _ (pi_save i) (pi_source i) d H1) as H2.
      by destruct (apply_path _ _ _ _ _ _) as [[[r a'] tr] d'].
    - by apply (agent_ok_frame root a). }
  destruct (poll_bundle_stamp _ _ _ _ _ _) as [[[a1 s1] d1] tr]. cbn [fst] in H1.
  assert (H2 : agent_ok root (poll_exceptions_stamp sha256 a1 s1 i).1).
  { unfold poll_exceptions_stamp. case_bool_decide; [done|]. by apply reload_exceptions_ok. }
  destruct (poll_exceptions_stamp _ _ _ _) as [a2 s2]. cbn [fst] in H2.
  assert (H3 : agent_ok root (a2 {{ ag_clock ::= fun c => persist c (pi_floor_written i) }}))
    by (by apply (agent_ok_frame root a2)).
  apply (status_tick_ok root _ (pi_sink i) (pi_at i) (pi_tick_wall i) (pi_tick_written i)) in H3.
  by destruct (status_tick _ _ _ _ _).
Qed.

Lemma run_agent_ok root op a : agent_ok root a -> agent_ok root (run_agent self_pid op a).
Proof.
  intros Hok. destruct op; cbn [run_agent]; try (by apply (agent_ok_frame root a)).
  - by apply pump_ok.
  - unfold cgroup_scan_root. destruct derived as [r|e]; [done|]. apply fault_ok; [|done].
    eexists CGROUP_ROOT_UNDERIVABLE, _. split; [done|]. unfold fault_texts. set_solver.
  - unfold self_tgid_to_publish. by destruct host; [|apply (agent_ok_frame root a)].
  - unfold publish_attachment_state. apply attachment_snapshot_ok. by apply (agent_ok_frame root a).
  - unfold publish_record. destruct sent; [done|]. apply fault_ok; [|done].
    eexists RECORD_CHANNEL_GONE, _. split; [done|]. unfold fault_texts. set_solver.
  - unfold agent_record_drop_at. by destruct (n =? 0); [|apply (agent_ok_frame root a)].
  - by apply status_tick_ok.
  - unfold note_status_write. by destruct ok; apply (agent_ok_frame root a).
  - destruct up; by apply (agent_ok_frame root a).
Qed.

Lemma run_op_ok root op n : agent_ok root (nd_agent n) -> agent_ok root (nd_agent (run_op sha256 outside self_pid op n)).
Proof.
  intros Hok. destruct op; try by apply run_agent_ok. unfold run_op.
  pose proof (poll_ok root (nd_agent n) (nd_stamps n) i (nd_dir n) Hok) as H.
  by destruct (poll_once _ _ _ _ _ _) as [[[[st a] s] d] tr].
Qed.

Lemma fresh_ok config check disk wall now :
  ac_exceptions config = [] -> agent_ok (ac_trust_root config) (agent_fresh config check disk wall now).
Proof.
  intros He. split; [|done]. unfold steady_ok, steady. cbn. rewrite He.
  split_and!; [done | by destruct (ac_lkg_dir config) | by left | done | done | done].
Qed.

Lemma start_ok config check responder host disk wall now d bundle n :
  ac_exceptions config = [] ->
  start_node sha256 outside config check responder host disk wall now d bundle = Some n ->
  agent_ok (ac_trust_root config) (nd_agent n).
Proof.
  intros He. unfold start_node, agent_new.
  pose proof (restore_ok _ _ d (fresh_ok config check disk wall now He)) as H1.
  set (a1 := (restore_last_known_good _ _ _ _).2) in *. clearbody a1.
  set (a2 := if respond_enabled _ then _ else a1).
  assert (H2 : agent_ok (ac_trust_root config) a2).
  { unfold a2. destruct (respond_enabled _); [|done]. destruct host; [by apply (agent_ok_frame _ a1)|].
    destruct H1 as [(? & ? & ? & ? & ? & ?) ?]. split; [|done]. split_and!; try done. by intros r [= <-]. }
  clearbody a2. apply (restore_ok _ _ d) in H2.
  set (a3 := (restore_last_known_good _ _ a2 _).2) in *. clearbody a3.
  destruct bundle as [[[env source] exceptions]|]; [|by intros [= <-]].
  pose proof (apply_path_ok _ a3 env source d H2) as H3.
  destruct (apply_path _ _ _ _ _ _) as [[[r a4] tr] d']. cbn [fst snd] in H3.
  destruct (_ && _); [done|]. intros [= <-]. by apply reload_exceptions_ok.
Qed.

Lemma node_reach_ok root n : node_reach sha256 outside self_pid root n -> agent_ok root (nd_agent n).
Proof. induction 1; [subst; by eapply start_ok | by apply run_op_ok]. Qed.
End invariant.

(** ** Restarts *)

Section restart.
Context `{E : Ed25519} `{X : ExceptionsJson} (sha256 : list Z -> list Z).
Context (outside : string -> list string -> Lookup).
Context (Hsha : forall l, Forall (fun b => 0 <= b < 256) (sha256 l)).

Definition policy (a : Agent) : option LoadedBundle := ld_last_good (ag_loader a).

Lemma digest_printable raw : trim (bundle_digest sha256 raw) = bundle_digest sha256 raw /\ str_ok (bundle_digest sha256 raw).
Proof.
  unfold bundle_digest. split; [|by apply hex_encode_ok]. apply as_bytes_inj. rewrite as_bytes_trim.
  apply trim_printable. rewrite as_bytes_hex by done.
  eapply Forall_impl; [by apply hex_bytes_range|]. simpl. lia.
Qed.

(** An install was checked against a digest that is not empty. *)
Lemma installed_digest a bytes expected dead digest a' :
  install_verified_with sha256 a bytes expected dead = (Ok digest, a') -> digest <> "".
Proof.
  unfold install_verified_with. destruct (agent_load_source _ _ _ _) as [[raw dg]|]; [|done].
  destruct (extract_febp raw); [|done]. unfold load_bundle_with.
  destruct (verify_bundle_digest sha256 raw dg) as [[]|] eqn:Hv; [|done].
  apply bind_ok_unit in Hv as [Hne%refuse_if_ok%str_empty_false _].
  destruct (extract_febp raw); [|done]. destruct (parse_febp_with _ _) as [[? ?]|]; [|done].
  by intros [= <- _].
Qed.

Lemma signed_nonempty root bytes expected raw : signed_envelope sha256 root bytes expected raw -> bytes <> [].
Proof. by intros [Hp _] ->. Qed.

(** The same bytes install again, with the digest the directory recorded, on any agent
    with the same pin; the program is the same, nothing of it is left out. *)
Lemma reinstalls a bytes expected digest a' b :
  install_verified_with sha256 a bytes expected Reject = (Ok digest, a') -> ag_trust_root b = ag_trust_root a ->
  exists b', install_verified_with sha256 b bytes (Some digest) Drop = (Ok digest, b') /\
    policy b' = policy a' /\ loader_is_degraded (ag_loader b') = false /\ ag_lkg_partial b' = false.
Proof.
  intros Hi Hroot. pose proof (installed_digest _ _ _ _ _ _ Hi) as Hne. unfold install_verified_with in Hi.
  destruct (agent_load_source sha256 bytes (ag_trust_root a) expected) as [[raw dg]|] eqn:Hl; [|done].
  pose proof (pin_not_zero _ _ _ _ _ Hl) as Hz. apply agent_accepts in Hl as ((Hp & sig & Hd & Hv & Hc) & Hf & ->); [|done].
  apply str_empty_false in Hne.
  destruct (extract_febp raw) as [febp|] eqn:Hfe; [|done]. unfold load_bundle_with in Hi. rewrite Hfe in Hi.
  destruct (verify_bundle_digest sha256 raw (bundle_digest sha256 raw)) as [[]|] eqn:Hvd; [|done].
  destruct (parse_febp_with febp Reject) as [[spec dropped]|] eqn:Hpf; [|done].
  assert (Hdr : dropped = []).
  { unfold parse_febp_with in Hpf. apply bind_ok in Hpf as (raw' & _ & Hpf).
    apply bind_ok_unit in Hpf as [_ Hpf]. by destruct (first_some _); simplify_eq. }
  subst dropped. injection Hi as Hdg <-. subst digest. set (digest := bundle_digest sha256 raw) in *. apply restore_agrees_with_install in Hpf.
  assert (Hl' : agent_load_source sha256 bytes (ag_trust_root b) (Some digest) = Ok (raw, digest)).
  { rewrite Hroot. apply agent_accepts; [done|]. split_and!; [|by rewrite Hfe | done].
    split; [done|]. exists sig. split_and!; try done. simpl. by rewrite Hvd. }
  exists (install_verified_with sha256 b bytes (Some digest) Drop).2.
  unfold install_verified_with. rewrite Hl', Hfe. unfold load_bundle_with. by rewrite Hvd, Hfe, Hpf.
Qed.

Lemma present_holds d s b g : snap_name s -> holds d s b g -> lkg_present outside d = true.
Proof.
  intros (_ & Hc & Ha) (Hl & es & Hs & _). unfold lkg_present.
  assert (exists_ (resolve outside MAXSYMLINKS d [KUBELET_DATA_DIR]) = true) as ->; [|by rewrite orb_true_r].
  unfold MAXSYMLINKS. cbn [resolve]. rewrite Hl, Ha, Hc. cbn [app resolve]. by rewrite Hs.
Qed.

Lemma restore_holds a dir d s b g :
  ag_lkg_dir a = Some dir -> is_empty (ag_trust_root a) = false -> snap_name s -> storable b g -> holds d s b g ->
  (restore_last_known_good sha256 outside a d).2 = (install_verified_with sha256 a b (Some g) Drop).2.
Proof.
  intros Hd Hr Hs Hg Hh. unfold restore_last_known_good.
  rewrite Hd, (present_holds _ _ _ _ Hs Hh), Hr, (read_lkg_holds _ _ _ _ _ _ Hs Hg Hh). cbn [negb].
  by destruct (install_verified_with _ _ _ _ _).
Qed.

Lemma restore_vacant a d : vacant d -> (restore_last_known_good sha256 outside a d).2 = a.
Proof.
  intros Hv. unfold restore_last_known_good. rewrite (vacant_absent _ _ Hv). by destruct (ag_lkg_dir a).
Qed.

(** What a directory gives an agent that starts on it, when it is known what it holds. *)
Lemma restarts_alike config check disk wall now snap old x y :
  is_empty (ac_trust_root config) = false ->
  match old with Some (_, b, g) => storable b g | None => True end ->
  before snap x old -> before snap y old ->
  agent_new sha256 outside config check disk wall now x = agent_new sha256 outside config check disk wall now y.
Proof.
  intros Hr Hst Hx Hy. unfold agent_new. destruct old as [[[s b] g]|]; [|by rewrite !restore_vacant].
  destruct Hx as (Hs & _ & Hx), Hy as (_ & _ & Hy).
  destruct (ac_lkg_dir config) as [dir|] eqn:Hd.
  - by rewrite (restore_holds _ dir x s b g), (restore_holds _ dir y s b g).
  - assert (Hn : forall z, (restore_last_known_good sha256 outside (agent_fresh config check disk wall now) z).2
      = agent_fresh config check disk wall now) by (intros z; unfold restore_last_known_good; cbn; by rewrite Hd).
    by rewrite !Hn.
Qed.

(** C10: a restart resumes the policy. When a bundle is applied and saved, an agent that
    starts on the directory with the same pin enforces exactly the program the running
    agent enforces, under the same digest, with no rule left out and the loader not
    degraded. And when the process dies in the middle of the save, wherever that is, the
    agent that starts next enforces that program, or what it would have enforced had it
    started before the save. *)
Theorem restart_resumes_policy config check disk wall now a env bytes expected dir d old digest a' tr d'
    (Hdir : ag_lkg_dir a = Some dir) (Hcdir : ac_lkg_dir config = Some dir)
    (Hroot : ac_trust_root config = ag_trust_root a) (Hsnap : snap_name (sv_snap env))
    (Hold : match old with
            | Some (s, b, g) => snap_name s /\ s <> sv_snap env /\ storable b g /\ holds d s b g
            | None => vacant d
            end)
    (Hnew : lkg_digest_on_disk outside d <> Some digest)
    (Happly : apply_fsig sha256 outside a env bytes expected d = (Ok digest, a', tr, d')) :
  let restart := agent_new sha256 outside config check disk wall now in
  (exists b, policy a' = Some b /\ lb_digest b = digest) /\
  policy (restart d') = policy a' /\ loader_is_degraded (ag_loader (restart d')) = false /\
  ag_lkg_partial (restart d') = false /\
  Forall (fun x => policy (restart x) = policy a' \/ restart x = restart d) tr.
Proof.
  unfold apply_fsig in Happly.
  destruct (install_verified_with sha256 a bytes expected Reject) as [[dg|e] a1] eqn:Hi; [|done].
  destruct (agent_persist_fsig _ _ _ _ _ _) as [[tr1 [u|e]] d1] eqn:Hp; [|done].
  injection Happly as -> -> -> ->. cbn zeta.
  pose proof Hi as Hinv. apply install_inv in Hinv as (raw & febp & spec & dropped & Hs & Hdg & _ & _ & Hl & _ & _ & Hdir' & _).
  destruct (digest_printable raw) as [Htrim Hok].
  assert (Hst : storable bytes digest).
  { split_and!; [by eapply signed_nonempty | by rewrite Hdg | by rewrite Hdg | by eapply installed_digest]. }
  assert (Hne : is_empty (ac_trust_root config) = false).
  { rewrite Hroot. destruct (ag_trust_root a) eqn:Er; [|done]. exfalso.
    destruct Hs as (_ & sig & Hd & _). by apply decoded_key_length in Hd. }
  unfold agent_persist_fsig in Hp. rewrite Hdir', Hdir in Hp.
  assert (Hb : before (sv_snap env) d old).
  { destruct old as [[[s b] g]|]; [|done]. destruct Hold as (? & ? & _ & ?). by split_and!. }
  pose proof (persist_spec outside (sv_fault env) (sv_snap env) bytes digest Hsnap (sv_created env) (sv_listed env) d old Hb) as Hps.
  unfold Lkg.spec in Hps. rewrite Hp in Hps. destruct Hps as (Htr & _ & Hok').
  destruct (reinstalls a bytes expected digest a' (agent_fresh config check disk wall now) Hi Hroot) as (b' & Hb' & Hpol & Hdeg & Hpart).
  assert (Hafter : forall x, after (sv_snap env) bytes digest x ->
    agent_new sha256 outside config check disk wall now x = b').
  { intros x Hx. unfold agent_new. rewrite (restore_holds _ dir x (sv_snap env) bytes digest); [by rewrite Hb' | done..]. }
  destruct u. destruct (Hok' eq_refl) as [Haft|[-> Hdisk]]; [|done].
  split_and!; [by eexists | | | |]; rewrite ?(Hafter d') by done; try done.
  eapply Forall_impl; [exact Htr|]. intros x [Hx|Hx]; [right | left; by rewrite Hafter].
  eapply restarts_alike; [done | | exact Hx | exact Hb].
  destruct old as [[[s b] g]|]; [|done]. by destruct Hold as (_ & _ & ? & _).
Qed.
End restart.

(** ** The process, from the outside *)

Section outside_view.
Context `{E : Ed25519} `{X : ExceptionsJson} (sha256 : list Z -> list Z).
Context (outside : string -> list string -> Lookup) (self_pid : Z).

(** C2: only a signed policy kills, and only a signed waiver spares. In every state a
    process can reach, started on any directory with any history of polls, records, kernel
    syncs and faults: a record signals a process only when the program of a bundle signed
    under the pinned key decides [kill] for the workload that owns the record; and a record
    is waived only by an exception of a list signed under the same key. *)
Theorem only_signed_policy_kills root n meta event sink now rd decision record kills a'
    (Hreach : node_reach sha256 outside self_pid root n) (Htgid : 0 <= em_tgid meta)
    (Hrun : handle_event_at self_pid (nd_agent n) meta event sink now rd = (decision, record, kills, a')) :
  (kills <> [] ->
   kills = [em_tgid meta] /\
   exists bytes expected raw febp dead spec dropped id,
     signed_envelope sha256 root bytes expected raw /\ extract_febp raw = Ok febp /\
     parse_febp_with febp dead = Ok (spec, dropped) /\
     ag_cgroups (nd_agent n) !! em_cgroup_id meta = Some id /\
     d_action (RuntimeEval.decide spec event id) = Kill /\ ee_policy record = bundle_digest sha256 raw) /\
  (ee_action record = WAIVED_ACTION ->
   exists bytes raw waivers w,
     signed_envelope sha256 root bytes None raw /\ exceptions_of_json raw = Ok waivers /\ w ∈ waivers /\
     ee_waiver record = Some (waiver_ref w)).
Proof.
  destruct (node_reach_ok sha256 outside self_pid _ _ Hreach) as [(_ & Hb & Hx & _) _].
  destruct (handle_event_exact _ _ _ _ _ _ _ _ _ _ _ Htgid Hrun) as (w & r & H).
  destruct H as [Hw _ _ _ Hk -> _ _ Hrw Ha _ Hp _ _]. split.
  - intros Hne. destruct Hk as [[[Hk _] Hmay]|(Hk & _)]; [|done]. split; [done|].
    destruct Hmay as [Hact Hrole Hs [Hc Hc'] Hn Hl _ _ _ _]. destruct w as [spec|]; [done|].
    cbn [settled] in Hact. rewrite decided_in_container in Hact by done.
    destruct (ld_last_good (ag_loader (nd_agent n))) as [loaded|]; [|done].
    destruct (Hb loaded eq_refl) as (bytes & expected & febp & dead & dropped & Hsig & Hdg & Hfe & Hpf & _).
    exists bytes, expected, (lb_raw loaded), febp, dead, (lb_spec loaded), dropped, (named (nd_agent n) meta).
    split_and!; try done; [by apply known_named | by rewrite Hp].
  - rewrite Ha. destruct w as [spec|]; [intros _ | by destruct (d_action decision)].
    destruct Hw as (_ & _ & rule & _ & Hin & _). destruct Hx as [Hx|(bytes & raw & Hsig & Hj & _)].
    + rewrite Hx in Hin. by apply not_elem_of_nil in Hin.
    + by exists bytes, raw, (ag_exceptions (nd_agent n)), spec.
Qed.

(** C37: every degradation a process can report has its own id: whatever detail follows,
    the metric of a reason is the one its sentence stands beside in the table, never the
    catch-all, and the node reports itself degraded exactly when it has a reason. *)
Theorem every_degradation_has_an_id root n now wall written (fmt : msg -> string)
    (Hreach : node_reach sha256 outside self_pid root n)
    (Hfmt : forall text rest, exists tail, fmt (Lit text :: rest) = text +:+ tail) :
  Forall (fun m => exists text rest, m = Lit text :: rest /\ (text, degraded_reason_id (fmt m)) ∈ DEGRADED_REASON_IDS /\
                   degraded_reason_id (fmt m) <> UNMAPPED_REASON_ID)
    (degraded_reasons_at (nd_agent n) now wall written).1 /\
  (is_degraded_at (nd_agent n) now wall written = true <->
   (degraded_reasons_at (nd_agent n) now wall written).1 <> []).
Proof.
  destruct (node_reach_ok sha256 outside self_pid _ _ Hreach) as [(_ & _ & _ & Hf & Hd & _) _]. split.
  - eapply Forall_impl; [apply (reasons_named (nd_agent n)); by split|].
    intros m (text & id & rest & -> & Hin). exists text, rest.
    destruct (Hfmt text rest) as [tail ->]. destruct (reason_id_exact text id tail Hin) as [-> Hu]. by split_and!.
  - unfold is_degraded_at. rewrite negb_true_iff, <- is_empty_false. done.
Qed.

(** the agent's table of cgroups whose container flag is unproven holds at most
    [CONTAINER_FLAG_TRACKED_MAX] of them, whatever records arrive in whatever order: the
    table is made room in before it grows past the bound. *)
Lemma unproven_window_is_bounded root n cgroup now
    (Hreach : node_reach sha256 outside self_pid root n) :
  window_size (nd_agent n) <= CONTAINER_FLAG_TRACKED_MAX /\
  window_size (container_unproven (nd_agent n) cgroup now).2 <= CONTAINER_FLAG_TRACKED_MAX.
Proof.
  destruct (node_reach_ok sha256 outside self_pid _ _ Hreach) as [_ Hw]. split; [done|]. by apply window_bounded.
Qed.
End outside_view.

(** ** Behaviour worth knowing *)

(** A mount that was seen but could not be read is not read again until it changes: the
    stamp is stored before the bundle is applied. *)
Lemma failed_reload_not_retried `{E : Ed25519} sha256 outside a stamps i j d next e :
  pi_stamp i = Present next -> po_bundle stamps <> Some next -> pi_source i = Err e -> pi_stamp j = Present next ->
  let '(a1, stamps1, d1, _) := poll_bundle_stamp sha256 outside a stamps i d in
  poll_bundle_stamp sha256 outside a1 stamps1 j d1 = (note_bundle_stat a1 true, stamps1, d1, []).
Proof.
  intros Hi Hne He Hj. unfold poll_bundle_stamp. rewrite Hi, He, Hj, bool_decide_false by done.
  cbn [apply_path]. by rewrite bool_decide_true.
Qed.

(** The table of disagreeing cgroups is not bounded by [CONTAINER_FLAG_TRACKED_MAX]: one
    more cgroup in the grace period makes it one larger, however large it is. *)
Lemma flag_window_grows a cgroup now :
  (forall k opened, ag_container_flag_window a !! k = Some opened -> since now opened < CONTAINER_FLAG_GRACE) ->
  ag_container_flag_window a !! cgroup = None ->
  size (ag_container_flag_window (note_container_flag_disagreement a cgroup now).2)
  = S (size (ag_container_flag_window a)).
Proof.
  intros Hall Hnew. unfold note_container_flag_disagreement. cbn zeta.
  match goal with |- context [ag_container_flag_window (?x {{ ag_container_flag_disagreement ::= ?f }})] =>
    change (ag_container_flag_window (x {{ ag_container_flag_disagreement ::= f }})) with (ag_container_flag_window x) end.
  set (m := ag_container_flag_window a) in *.
  assert (Hf : filter (fun kv : Z * Z => since now kv.2 < CONTAINER_FLAG_GRACE) m = m).
  { apply map_filter_id. intros k v Hk. by apply (Hall k). }
  rewrite Hf. assert (Hif : forall b : bool, (if b then m else m) = m) by (by intros []). rewrite Hif, Hnew.
  cbn [default]. assert (Hg : since now now <? CONTAINER_FLAG_GRACE = true).
  { unfold since. rewrite Z.sub_diag. done. }
  rewrite Hg. cbn [orb snd]. by rewrite <- (map_size_insert_None (cgroup) now m Hnew).
Qed.

(** ** A node that starts on the example bundle *)

Definition demo_config : AgentConfig :=
  {| ac_role := RoleRespond; ac_lkg_dir := Some "/lkg"; ac_trust_root := ed_public toy_seed; ac_bundle_path := Some "/bundle";
     ac_exceptions := []; ac_policy_name := "p" |}.

Definition demo_save : SaveEnv :=
  {| sv_fault := no_fault; sv_created := Ok tt; sv_listed := true; sv_snap := "..snap-7-1-0" |}.

#[local] Existing Instance no_exceptions.

Definition demo_start : option Node :=
  start_node toy_sha256 no_outside demo_config shop_check (signal_responder (fun _ => Ok tt)) true None 0 0 ∅
    (Some (demo_save, Ok (toy_fsig, Some (cb_digest toy_bundle)), Ok None)).

Definition started : Node :=
  match demo_start with
  | Some n => n
  | None => {| nd_agent := shop_agent []; nd_dir := ∅; nd_stamps := PollStamps_default |}
  end.

Lemma started_exists : demo_start = Some started.
Proof.
  assert (H : match demo_start with Some _ => true | None => false end = true) by (vm_compute; reflexivity).
  unfold started. destruct demo_start; [done | done].
Qed.

Definition web_identity : WorkloadIdentity := cold_identity true {["env" := "prod"; "app" := "web"]}.

Definition demo_node : Node := run_op toy_sha256 no_outside 4242 (OpIndex {[77 := web_identity]}) started.

Lemma demo_reach : node_reach toy_sha256 no_outside 4242 (ed_public toy_seed) demo_node.
Proof. apply nr_op. eapply nr_start; [| |exact started_exists]; reflexivity. Qed.

Definition shell_event : SyscallEvent :=
  {| se_syscall := "execve"; se_comm := "sh"; se_path := "/run/docker.sock"; se_in_container := true;
     se_agent_self := false; se_path_truncated := false |}.

Definition shell_handled : RuntimeEval.Decision * EnforcementEvent * list Z * Agent :=
  handle_event_at 4242 (nd_agent demo_node) shop_meta shell_event live_sink (days 1) noon.

Lemma only_signed_policy_witness :
  shell_handled.1.2 = [900] /\
  exists bytes expected raw, signed_envelope toy_sha256 (ed_public toy_seed) bytes expected raw /\
    ee_policy shell_handled.1.1.2 = bundle_digest toy_sha256 raw.
Proof.
  assert (Hk : shell_handled.1.2 = [900]) by (vm_compute; reflexivity).
  assert (Ht : 0 <= em_tgid shop_meta) by (vm_compute; discriminate).
  destruct (only_signed_policy_kills toy_sha256 no_outside 4242 (ed_public toy_seed) demo_node shop_meta shell_event
    live_sink (days 1) noon _ _ _ _ demo_reach Ht (quad_eta shell_handled)) as [H _].
  destruct H as (_ & bytes & expected & raw & febp & dead & spec & dropped & id & Hs & _ & _ & _ & _ & Hp).
  { rewrite Hk. discriminate. }
  split; [exact Hk|]. exists bytes, expected, raw. split; [exact Hs | exact Hp].
Defined.

(** The text of a message, numbers and times left out. *)
Definition plain_text (m : msg) : string :=
  foldr (fun f acc => match f with Lit s | Str s | Dbg s => s +:+ acc | _ => acc end) "" m.

Lemma every_degradation_witness :
  Forall (fun m => degraded_reason_id (plain_text m) <> UNMAPPED_REASON_ID)
    (degraded_reasons_at (nd_agent demo_node) 9 9 true).1 /\
  map (fun m => degraded_reason_id (plain_text m)) (degraded_reasons_at (nd_agent demo_node) 9 9 true).1
  = ["not_attached"; "container_map_not_ready"].
Proof.
  split; [|vm_compute; reflexivity].
  destruct (every_degradation_has_an_id toy_sha256 no_outside 4242 (ed_public toy_seed) demo_node 9 9 true plain_text
    demo_reach) as [H _].
  - intros text rest. exists (plain_text rest). reflexivity.
  - eapply Forall_impl; [exact H|]. intros m (text & rest & _ & _ & Hu). exact Hu.
Defined.

Lemma unproven_window_witness :
  window_size (container_unproven (nd_agent demo_node) 78 9).2 <= CONTAINER_FLAG_TRACKED_MAX.
Proof.
  exact (proj2 (unproven_window_is_bounded toy_sha256 no_outside 4242 (ed_public toy_seed) demo_node 78 9 demo_reach)).
Defined.

Definition first_agent : Agent := agent_new toy_sha256 no_outside demo_config shop_check None 0 0 ∅.

Definition first_apply : Result string * Agent * list Dir * Dir :=
  apply_fsig toy_sha256 no_outside first_agent demo_save toy_fsig (Some (cb_digest toy_bundle)) ∅.

Lemma restart_resumes_witness :
  let restart := agent_new toy_sha256 no_outside demo_config shop_check None 0 0 in
  first_apply.1.1.1 = Ok (cb_digest toy_bundle) /\
  policy (restart first_apply.2) = policy first_apply.1.1.2 /\
  loader_is_degraded (ag_loader (restart first_apply.2)) = false.
Proof.
  cbn zeta. assert (Hok : first_apply.1.1.1 = Ok (cb_digest toy_bundle)) by (vm_compute; reflexivity).
  assert (Hsha : forall l, Forall (fun b => 0 <= b < 256) (toy_sha256 l)).
  { intros l. apply Forall_forall. intros x Hx. apply list_elem_of_In, repeat_spec in Hx. subst x.
    apply Z.mod_pos_bound. reflexivity. }
  assert (Hrun : apply_fsig toy_sha256 no_outside first_agent demo_save toy_fsig (Some (cb_digest toy_bundle)) ∅
    = (Ok (cb_digest toy_bundle), first_apply.1.1.2, first_apply.1.2, first_apply.2)).
  { rewrite <- Hok. exact (quad_eta first_apply). }
  destruct (restart_resumes_policy toy_sha256 no_outside Hsha demo_config shop_check None 0 0 first_agent demo_save toy_fsig
    (Some (cb_digest toy_bundle)) "/lkg" ∅ None (cb_digest toy_bundle) first_apply.1.1.2 first_apply.1.2 first_apply.2)
    as (_ & Hp & Hd & _).
  - vm_compute. reflexivity.
  - reflexivity.
  - vm_compute. reflexivity.
  - split_and!; vm_compute; reflexivity.
  - split_and!; reflexivity.
  - vm_compute. discriminate.
  - exact Hrun.
  - split_and!; [exact Hok | exact Hp | exact Hd].
Defined.
