(* ===== verification/Proto.v ===== *)
(** * The exported record: its version and its envelope

    [SchemaVersion], [SchemaId] and [EventEnvelope] of [crates/ferrum-proto/src/lib.rs],
    and the node context [crates/ferrum-export/src/file.rs] stamps onto every record
    ([SinkContext]). The event inside is [EnforcementEvent] of [React]. *)

From coqutil Require Import Datatypes.RecordSetters.
From S2P Require Import Prelude RustStd RustText AgentState React.

(** ** Decimal text of an unsigned integer *)

(** The digits of [n], least significant first; [fuel] bounds their number. *)
Fixpoint digits_rev (fuel : nat) (n : Z) : list Z :=
  match fuel with
  | O => []
  | S fuel' => (48 + n mod 10) :: (if n <? 10 then [] else digits_rev fuel' (n / 10))
  end.

(** [u16::to_string]: five digits are enough. *)
Definition u16_text (n : Z) : list Z := rev (digits_rev 5 n).

(** [str::parse::<u16>]: an optional plus sign, at least one digit, no overflow. *)
Definition parse_u16 (l : list Z) : option Z :=
  let digits := match l with 43 :: l' => l' | _ => l end in
  if is_empty digits then None
  else match decimal digits with
       | Some n => if n <? U16 then Some n else None
       | None => None
       end.

(** ** The schema *)

Definition EVENT_SCHEMA : string := "ferrum.io/enforcement-event".

Record SchemaVersion := { sv_major : Z; sv_minor : Z }.

Definition EVENT_SCHEMA_VERSION : SchemaVersion := {| sv_major := 1; sv_minor := 1 |}.

#[global] Instance schema_version_eq_dec : EqDecision SchemaVersion.
Proof. solve_decision. Defined.

Definition version_wf (v : SchemaVersion) : Prop := 0 <= sv_major v < U16 /\ 0 <= sv_minor v < U16.

(** [self.major == reader.major && self.minor <= reader.minor]. *)
Definition readable_by (self reader : SchemaVersion) : bool :=
  (sv_major self =? sv_major reader) && (sv_minor self <=? sv_minor reader).

(** [impl Display for SchemaVersion]. *)
Definition version_text (v : SchemaVersion) : list Z := u16_text (sv_major v) ++ 46 :: u16_text (sv_minor v).

Inductive VersionError := NotMajorMinor | MajorNotNumber | MinorNotNumber.

(** [impl FromStr for SchemaVersion]. *)
Definition version_from_str (text : list Z) : result VersionError SchemaVersion :=
  '(major, minor) ← ok_or (split_once 46 text) NotMajorMinor;
  major ← ok_or (parse_u16 major) MajorNotNumber;
  minor ← ok_or (parse_u16 minor) MinorNotNumber;
  Ok {| sv_major := major; sv_minor := minor |}.

(** [SchemaId]: serialises to the name and decodes from nothing else. *)
Inductive SchemaId := Schema.
Definition schema_id_text (_ : SchemaId) : string := EVENT_SCHEMA.
Definition schema_id_decode (text : string) : option SchemaId :=
  if str_eqb text EVENT_SCHEMA then Some Schema else None.

(** ** The envelope and the context that stamps it *)

Record EventEnvelope := {
  en_schema : SchemaId;
  en_schema_version : SchemaVersion;
  en_ts : Z;
  en_node : string;
  en_bundle_digest : option string;
  en_agent_role : string;
  en_degraded : bool;
  en_degraded_reasons : list string;
  en_event : EnforcementEvent
}.

(** What the shared [ContextInner] holds. *)
Record SinkContext := {
  cx_node : string;
  cx_agent_role : string;
  cx_degraded : bool;
  cx_degraded_reasons : list string;
  cx_bundle_digest : option string
}.

Definition context_new (node agent_role : string) : SinkContext :=
  {| cx_node := node; cx_agent_role := agent_role; cx_degraded := false; cx_degraded_reasons := [];
     cx_bundle_digest := None |}.

Definition set_degraded (degraded : bool) (c : SinkContext) : SinkContext := c {{ cx_degraded := degraded }}.
Definition set_degraded_reasons (reasons : list string) (c : SinkContext) : SinkContext :=
  c {{ cx_degraded_reasons := reasons }}.
Definition set_bundle_digest (digest : option string) (c : SinkContext) : SinkContext :=
  c {{ cx_bundle_digest := digest }}.

(** What [SinkContext::envelope] reads besides the event: the clock, and the context that
    every sink of the process shares. *)
Record Stamp := { st_now : Z; st_ctx : SinkContext }.

Definition envelope (s : Stamp) (event : EnforcementEvent) : EventEnvelope :=
  {| en_schema := Schema;
     en_schema_version := EVENT_SCHEMA_VERSION;
     en_ts := st_now s;
     en_node := cx_node (st_ctx s);
     en_bundle_digest := cx_bundle_digest (st_ctx s);
     en_agent_role := cx_agent_role (st_ctx s);
     en_degraded := cx_degraded (st_ctx s);
     en_degraded_reasons := cx_degraded_reasons (st_ctx s);
     en_event := event |}.

(** ** Text and version agree *)

Lemma decimal_app a b : decimal (a ++ [b]) =
  (n ← decimal a; if in_range 48 57 b then Some (10 * n + (b - 48)) else None).
Proof. unfold decimal. by rewrite foldl_app. Qed.

Lemma digits_rev_value fuel n : 0 <= n < 10 ^ Z.of_nat fuel -> (0 < fuel)%nat ->
  decimal (rev (digits_rev fuel n)) = Some n.
Proof.
  revert n. induction fuel as [|fuel IH]; intros n Hn Hf; [lia|]. cbn [digits_rev rev].
  rewrite decimal_app. pose proof (Z.div_mod n 10 ltac:(lia)) as Hdm.
  pose proof (Z.mod_pos_bound n 10 ltac:(lia)) as Hm.
  assert (Hr : in_range 48 57 (48 + n mod 10) = true) by (unfold in_range; lia).
  rewrite Hr. destruct (n <? 10) eqn:E.
  - simpl. f_equal. rewrite Z.mod_small by lia. lia.
  - rewrite IH; [simpl; f_equal; lia | | destruct fuel; [simpl in Hn|]; lia].
    rewrite Nat2Z.inj_succ, Z.pow_succ_r in Hn by lia. split; [apply Z.div_pos; lia|].
    apply Z.div_lt_upper_bound; lia.
Qed.

Lemma digits_rev_range fuel n : Forall (fun b => 48 <= b <= 57) (digits_rev fuel n).
Proof.
  revert n. induction fuel as [|fuel IH]; intros n; cbn [digits_rev]; [constructor|].
  constructor; [pose proof (Z.mod_pos_bound n 10 ltac:(lia)); lia|]. destruct (n <? 10); [constructor | apply IH].
Qed.

Lemma u16_text_range n b : b ∈ u16_text n -> 48 <= b <= 57.
Proof.
  unfold u16_text. rewrite list_elem_of_In, <- in_rev, <- list_elem_of_In.
  exact (proj1 (Forall_forall _ _) (digits_rev_range 5 n) b).
Qed.

Lemma u16_text_nonempty n : exists b l, u16_text n = b :: l.
Proof.
  unfold u16_text. destruct (rev (digits_rev 5 n)) eqn:E; [|eauto].
  apply (f_equal (@length Z)) in E. rewrite length_rev in E. done.
Qed.

Lemma parse_u16_text n : 0 <= n < U16 -> parse_u16 (u16_text n) = Some n.
Proof.
  intros Hn. destruct (u16_text_nonempty n) as (b & l & E).
  assert (Hb : b <> 43).
  { intros ->. pose proof (u16_text_range n 43 ltac:(rewrite E; set_solver)). lia. }
  assert (Hd : decimal (u16_text n) = Some n)
    by (apply digits_rev_value; [unfold U16 in Hn; simpl; lia | lia]).
  unfold parse_u16. rewrite E in *. replace (match b with 43 => l | _ => b :: l end) with (b :: l)
    by (repeat case_match; congruence).
  simpl is_empty. cbn iota. rewrite Hd. by rewrite (proj2 (Z.ltb_lt n U16)) by lia.
Qed.

(** Whatever version a record is stamped with, a consumer reads it back, and an older
    reader refuses exactly another major or a newer minor. *)
Lemma version_roundtrip v : version_wf v -> version_from_str (version_text v) = Ok v.
Proof.
  intros [Hmaj Hmin]. unfold version_from_str, version_text.
  rewrite split_once_some by (intros H; apply u16_text_range in H; lia).
  cbn [ok_or mbind result_mbind]. rewrite !parse_u16_text by done. by destruct v.
Qed.

Lemma readable_by_trans u v w : readable_by u v = true -> readable_by v w = true -> readable_by u w = true.
Proof. unfold readable_by. intros ??. bool_hyps. apply andb_true_iff. split; lia. Qed.

Lemma schema_id_exact text i : schema_id_decode text = Some i <-> text = schema_id_text i.
Proof.
  unfold schema_id_decode, schema_id_text, str_eqb. destruct i.
  destruct (bool_decide (text = EVENT_SCHEMA)) eqn:E; bool_hyps; naive_solver.
Qed.
