(* ===== verification/Export.v ===== *)
(** * Event sinks

    The trait [EventSink] of [crates/ferrum-export/src/lib.rs], what it promises its
    callers about lost records, the in-memory and stream sinks of that file, the envelope
    stream sink of [file.rs] and the fan-out of [fanout.rs]. [Utc::now] and the shared
    [SinkContext] reach a sink as the [Stamp] of the call. *)

From coqutil Require Import Datatypes.RecordSetters.
From S2P Require Import Prelude RustStd RustText AgentState React Proto.

(** ** The trait *)

Class EventSink (S : Type) := {
  emit : Stamp -> EnforcementEvent -> S -> S;
  emit_envelope : Stamp -> EventEnvelope -> S -> S;
  export_write_failed_total : S -> Z;
  export_queue_dropped_total : S -> Z;
  export_writer_lost_total : S -> Z;
  export_writer_dead : S -> bool
}.

(** A sink that says nothing but [emit] and the count of failed writes: the defaults of
    the trait for the rest. *)
Definition default_sink {S} (f : Stamp -> EnforcementEvent -> S -> S) (failed : S -> Z) : EventSink S := {|
  emit := f;
  emit_envelope := fun s env => f s (en_event env);
  export_write_failed_total := failed;
  export_queue_dropped_total := fun _ => 0;
  export_writer_lost_total := fun _ => 0;
  export_writer_dead := fun _ => false
|}.

(** A sink whose [emit] stamps an envelope and hands it to [emit_envelope]. *)
Definition envelope_sink {S} (f : EventEnvelope -> S -> S) (failed : S -> Z) : EventSink S := {|
  emit := fun s event => f (envelope s event);
  emit_envelope := fun _ env => f env;
  export_write_failed_total := failed;
  export_queue_dropped_total := fun _ => 0;
  export_writer_lost_total := fun _ => 0;
  export_writer_dead := fun _ => false
|}.

(** [impl EventSink for Box<dyn EventSink>]: the call goes to whichever sink is inside. *)
#[global] Instance dyn_sink {A B} `{!EventSink A, !EventSink B} : EventSink (A + B) := {|
  emit := fun s e => sum_map (emit s e) (emit s e);
  emit_envelope := fun s env => sum_map (emit_envelope s env) (emit_envelope s env);
  export_write_failed_total := sum_rect (fun _ => Z) export_write_failed_total export_write_failed_total;
  export_queue_dropped_total := sum_rect (fun _ => Z) export_queue_dropped_total export_queue_dropped_total;
  export_writer_lost_total := sum_rect (fun _ => Z) export_writer_lost_total export_writer_lost_total;
  export_writer_dead := sum_rect (fun _ => bool) export_writer_dead export_writer_dead
|}.

(** What [note_export_state_at] of the agent reads off its sink. *)
Definition sink_state {S} `{!EventSink S} (s : S) : SinkState :=
  {| sk_dead := export_writer_dead s; sk_queue_dropped := export_queue_dropped_total s;
     sk_write_failed := export_write_failed_total s; sk_writer_lost := export_writer_lost_total s |}.

(** ** What a sink promises: a record is written, or the loss is counted *)

Section accounts.
Context {S : Type} (good : S -> Prop) (written failed width : S -> Z).

(** One delivery [f]: the counters only grow, by at most one per destination, and grow
    by at least one together. *)
Definition accounts (f : S -> S) : Prop := forall s, good s -> failed s < U64 - width s ->
  good (f s) /\ width (f s) = width s /\
  written s <= written (f s) /\ failed s <= failed (f s) <= failed s + width s /\
  written s + failed s + 1 <= written (f s) + failed (f s).
End accounts.

Class AccountingSink (S : Type) `{!EventSink S} := {
  sink_good : S -> Prop;
  sink_written : S -> Z;
  sink_width : S -> Z;
  sink_width_pos s : sink_good s -> 1 <= sink_width s;
  sink_failed_nonneg s : sink_good s -> 0 <= export_write_failed_total s;
  emit_accounts stamp e : accounts sink_good sink_written export_write_failed_total sink_width (emit stamp e);
  emit_envelope_accounts stamp env :
    accounts sink_good sink_written export_write_failed_total sink_width (emit_envelope stamp env)
}.

(** ** [MemorySink] *)

Record MemorySink := { ms_events : list EnforcementEvent; ms_dropped : Z }.

Definition memory_new : MemorySink := {| ms_events := []; ms_dropped := 0 |}.
Definition memory_record_drop (n : Z) (s : MemorySink) : MemorySink := s {{ ms_dropped ::= add64 n }}.
Definition memory_emit (_ : Stamp) (event : EnforcementEvent) (s : MemorySink) : MemorySink :=
  s {{ ms_events := ms_events s ++ [event] }}.
#[global] Instance memory_sink : EventSink MemorySink := default_sink memory_emit ms_dropped.

(** ** A byte stream

    [io::Write]: what was written so far, and for the next calls of [write_all] whether
    each fails and after how many bytes. *)
Record Stream := { io_out : list Z; io_faults : list (option nat) }.

Definition write_all (bytes : list Z) (w : Stream) : bool * Stream :=
  match io_faults w with
  | [] => (true, {| io_out := io_out w ++ bytes; io_faults := [] |})
  | None :: fs => (true, {| io_out := io_out w ++ bytes; io_faults := fs |})
  | Some n :: fs => (false, {| io_out := io_out w ++ take n bytes; io_faults := fs |})
  end.

Section stream_sinks.
(** [serde_json::to_vec] of an event and of an envelope. *)
Context (event_to_vec : EnforcementEvent -> option (list Z)) (to_vec : EventEnvelope -> option (list Z)).

(** [WriterSink]: the record, then its line end. *)
Record WriterSink := { ws_writer : Stream; ws_dropped : Z }.
Definition writer_new (w : Stream) : WriterSink := {| ws_writer := w; ws_dropped := 0 |}.

Definition writer_emit (_ : Stamp) (event : EnforcementEvent) (s : WriterSink) : WriterSink :=
  match event_to_vec event with
  | None => s {{ ws_dropped ::= add64 1 }}
  | Some payload =>
      let '(ok, w) := write_all payload (ws_writer s) in
      let '(wrote, w) := if ok then write_all [10] w else (false, w) in
      let s := s {{ ws_writer := w }} in
      if wrote then s else s {{ ws_dropped ::= add64 1 }}
  end.
#[global] Instance writer_sink : EventSink WriterSink := default_sink writer_emit ws_dropped.

(** [EnvelopeWriterSink]: a line end first when the last write was torn. [ew_acked] is
    not in the code, and nothing reads it: the records whose write returned [Ok]. *)
Record EnvelopeWriterSink := { ew_writer : Stream; ew_torn : bool; ew_dropped : Z; ew_acked : list (list Z) }.
Definition envelope_writer_new (w : Stream) : EnvelopeWriterSink :=
  {| ew_writer := w; ew_torn := false; ew_dropped := 0; ew_acked := [] |}.

Definition envelope_writer_emit (env : EventEnvelope) (s : EnvelopeWriterSink) : EnvelopeWriterSink :=
  match to_vec env with
  | None => s {{ ew_dropped ::= add64 1 }}
  | Some bytes =>
      let line := bytes ++ [10] in
      let line := if ew_torn s then 10 :: line else line in
      let '(ok, w) := write_all line (ew_writer s) in
      let s := s {{ ew_writer := w }} in
      if ok then s {{ ew_torn := false; ew_acked := ew_acked s ++ [bytes] }} else s {{ ew_torn := true; ew_dropped ::= add64 1 }}
  end.
#[global] Instance envelope_writer_sink : EventSink EnvelopeWriterSink :=
  envelope_sink envelope_writer_emit ew_dropped.
End stream_sinks.

(** ** [FanoutSink]: the destinations in order; the context that stamps is the shared one *)

Section fanout.
Context {S : Type} `{!EventSink S}.

Record FanoutSink := { fo_sinks : list S }.

Definition destinations (f : FanoutSink) : nat := length (fo_sinks f).

(** [self.sinks.iter().map(read).fold(0, u64::saturating_add)]. *)
Definition fanout_sum (read : S -> Z) (f : FanoutSink) : Z := foldl sat_add 0 (map read (fo_sinks f)).

Definition fanout_emit_envelope (stamp : Stamp) (env : EventEnvelope) (f : FanoutSink) : FanoutSink :=
  {| fo_sinks := map (emit_envelope stamp env) (fo_sinks f) |}.

#[global] Instance fanout_sink : EventSink FanoutSink := {|
  emit := fun stamp event => fanout_emit_envelope stamp (envelope stamp event);
  emit_envelope := fanout_emit_envelope;
  export_write_failed_total := fanout_sum export_write_failed_total;
  export_queue_dropped_total := fanout_sum export_queue_dropped_total;
  export_writer_lost_total := fanout_sum export_writer_lost_total;
  export_writer_dead := fun f => existsb export_writer_dead (fo_sinks f)
|}.
End fanout.
Arguments FanoutSink : clear implicits.

(** ** Lines

    [J] says which texts are records. A piece is a record cut anywhere; a stream is
    framed when it is complete lines that are pieces, and an open end that is empty
    unless a write was torn. *)

Section framing.
Context (J : list Z -> Prop).

Definition piece (l : list Z) : Prop := l = [] \/ exists r, J r /\ l `prefix_of` r.
Definition frames (ls : list (list Z)) : list Z := concat (map (fun l => l ++ [10]) ls).

Record framed (b : list Z) (torn : bool) (ls : list (list Z)) (tail : list Z) : Prop := {
  fr_bytes : b = frames ls ++ tail;
  fr_lines : Forall piece ls;
  fr_tail : piece tail;
  fr_closed : torn = false -> tail = []
}.

Lemma frames_app a b : frames (a ++ b) = frames a ++ frames b.
Proof. unfold frames. by rewrite map_app, concat_app. Qed.

Lemma framed_nil torn : framed [] torn [] [].
Proof. split; [done | constructor | by left | done]. Qed.

Lemma framed_weaken b torn ls tail : framed b false ls tail -> framed b torn ls tail.
Proof. intros [H1 H2 H3 H4]. split; [done | done | done | auto]. Qed.

Lemma framed_close b torn ls tail : framed b torn ls tail -> framed (b ++ [10]) false (ls ++ [tail]) [].
Proof.
  intros [-> Hls Ht _]. split; [| apply Forall_app; split; [done | by apply Forall_singleton] | by left | done].
  rewrite frames_app, app_nil_r. unfold frames at 3. simpl. by rewrite app_nil_r, app_assoc.
Qed.

Lemma framed_whole b ls r : framed b false ls [] -> J r -> framed (b ++ r ++ [10]) false (ls ++ [r]) [].
Proof.
  intros [-> Hls _ _] Hr.
  split; [| apply Forall_app; split; [done | apply Forall_singleton; right; eauto] | by left | done].
  rewrite frames_app, !app_nil_r. unfold frames at 3. simpl. by rewrite app_nil_r.
Qed.

(** A line of which only [n] bytes were written. *)
Lemma framed_cut b ls r n : framed b false ls [] -> J r ->
  exists ls' tail, ls `sublist_of` ls' /\ framed (b ++ take n (r ++ [10])) true ls' tail.
Proof.
  intros Hb Hr. destruct (base.decide (n <= length r)%nat) as [Hn|Hn].
  - exists ls, (take n r). split; [done|]. rewrite take_app_le by done. destruct Hb as [-> Hls _ _].
    split; [by rewrite app_nil_r | done | | done]. right. exists r. split; [done | apply prefix_take].
  - exists (ls ++ [r]), []. split; [apply sublist_inserts_r; done|].
    rewrite take_ge by (rewrite length_app; simpl; lia). by apply framed_weaken, framed_whole.
Qed.
End framing.

Section reading.
Context (J : list Z -> Prop) (J_plain : forall r b, J r -> b ∈ r -> 32 <= b).

Lemma piece_plain l b : piece J l -> b ∈ l -> 32 <= b.
Proof.
  intros [-> | (r & Hr & k & ->)] Hb; [set_solver | apply (J_plain _ b Hr); set_solver].
Qed.

Lemma framed_from_piece acc l rest : (forall b, b ∈ l -> 32 <= b) ->
  lines_from acc (l ++ rest) = lines_from (acc ++ l) rest.
Proof.
  revert acc. induction l as [|x l IH]; intros acc Hl; [by rewrite app_nil_r|].
  assert (Hx : 32 <= x) by set_solver. cbn [app lines_from].
  assert (E : (x =? 10) = false) by lia. rewrite E, IH by set_solver. by rewrite <- app_assoc.
Qed.

Lemma strip_cr_plain l : (forall b, b ∈ l -> 32 <= b) -> strip_cr l = l.
Proof.
  intros Hl. unfold strip_cr. destruct (rev l) as [|x r] eqn:E; [done|].
  assert (Hx : 32 <= x).
  { apply Hl. rewrite list_elem_of_In, in_rev, E. by left. }
  repeat case_match; first [done | lia].
Qed.

(** A line reader sees exactly the pieces. *)
Lemma lines_of_framed b torn ls tail : framed J b torn ls tail ->
  lines_of b = ls ++ (if is_empty tail then [] else [tail]).
Proof.
  intros [-> Hls Ht _]. unfold lines_of. induction Hls as [|l ls Hl _ IH].
  - simpl. rewrite <- (app_nil_r tail) at 1.
    rewrite framed_from_piece by (intros x; by apply piece_plain). by destruct tail.
  - unfold frames. cbn [map concat]. rewrite <- !app_assoc.
    rewrite framed_from_piece by (intros x; by apply piece_plain). cbn [app lines_from].
    change (10 =? 10) with true. cbv iota.
    rewrite strip_cr_plain by (intros x; by apply piece_plain). by f_equal.
Qed.
End reading.

(** ** The stream sink keeps records apart *)

Section stream_facts.
Context (to_vec : EventEnvelope -> option (list Z)).

(** The texts a record can have. *)
Definition record_text (r : list Z) : Prop := exists env, to_vec env = Some r.

Record writer_inv (s : EnvelopeWriterSink) (ls : list (list Z)) (tail : list Z) : Prop := {
  wi_framed : framed record_text (io_out (ew_writer s)) (ew_torn s) ls tail;
  wi_acked : ew_acked s `sublist_of` ls
}.

Lemma framed_terminate b torn ls tail : framed record_text b torn ls tail ->
  exists ls', ls `sublist_of` ls' /\ framed record_text (b ++ (if torn then [10] else [])) false ls' [].
Proof.
  intros H. destruct torn.
  - exists (ls ++ [tail]). split; [by apply sublist_inserts_r | by eapply framed_close].
  - exists ls. split; [done|]. rewrite app_nil_r. pose proof (fr_closed _ _ _ _ _ H eq_refl). by subst.
Qed.

Lemma envelope_writer_step env s ls tail : writer_inv s ls tail ->
  exists ls' tail', writer_inv (envelope_writer_emit to_vec env s) ls' tail'.
Proof.
  intros [Hf Ha]. unfold envelope_writer_emit. destruct (to_vec env) as [r|] eqn:Er; [|by exists ls, tail].
  assert (Hr : record_text r) by (by exists env).
  destruct (framed_terminate _ _ _ _ Hf) as (ls' & Hsub & Hf').
  assert (Hok : writer_inv {| ew_writer := {| io_out := io_out (ew_writer s) ++
      (if ew_torn s then 10 :: r ++ [10] else r ++ [10]); io_faults := [] |}; ew_torn := false;
      ew_dropped := ew_dropped s; ew_acked := ew_acked s ++ [r] |} (ls' ++ [r]) []).
  { split; simpl; [|by apply sublist_app; [etrans|]].
    replace (if ew_torn s then 10 :: r ++ [10] else r ++ [10]) with ((if ew_torn s then [10] else []) ++ r ++ [10])
      by (by destruct (ew_torn s)).
    rewrite app_assoc. by apply framed_whole. }
  destruct Hok as [Hok Hacked]. simpl in Hok, Hacked. unfold write_all.
  destruct (io_faults (ew_writer s)) as [|[n|] fs]; [by exists (ls' ++ [r]), [] | | by exists (ls' ++ [r]), []].
  destruct (ew_torn s) eqn:Et; [destruct n as [|n]|].
  - exists ls, tail. split; [simpl; by rewrite app_nil_r | done].
  - destruct (framed_cut _ _ _ _ n Hf' Hr) as (l2 & t2 & Hs2 & Hf2). exists l2, t2.
    split; [simpl; by rewrite <- app_assoc in Hf2 | simpl; do 2 (etrans; [done|]); done].
  - rewrite app_nil_r in Hf'. destruct (framed_cut _ _ _ _ n Hf' Hr) as (l2 & t2 & Hs2 & Hf2). exists l2, t2.
    split; [done | simpl; do 2 (etrans; [done|]); done].
Qed.

(** A sink with one destination accounts when each delivery writes one record or counts
    one failure. *)
Lemma single_accounts {S} (good : S -> Prop) (written failed : S -> Z) (f : S -> S) :
  (forall s, good s -> 0 <= failed s < U64) ->
  (forall s, good s -> good (f s)) ->
  (forall s, good s -> (written (f s) = written s + 1 /\ failed (f s) = failed s) \/
    (written (f s) = written s /\ failed (f s) = add64 1 (failed s))) ->
  accounts good written failed (fun _ => 1) f.
Proof.
  intros Hr Hg Hf s Hs Hlt. specialize (Hr s Hs). split; [auto|]. split; [done|].
  assert (E : add64 1 (failed s) = failed s + 1) by (unfold add64; apply Z.mod_small; lia).
  destruct (Hf s Hs) as [[-> ->] | [-> ->]]; lia.
Qed.

Lemma add64_range n c : 0 <= add64 n c < U64.
Proof. unfold add64. apply Z.mod_pos_bound. unfold U64. lia. Qed.

Definition counter_good {S} (failed : S -> Z) (s : S) : Prop := 0 <= failed s < U64.

Lemma envelope_writer_one env s :
  let s' := envelope_writer_emit to_vec env s in
  (len (ew_acked s') = len (ew_acked s) + 1 /\ ew_dropped s' = ew_dropped s) \/
  (len (ew_acked s') = len (ew_acked s) /\ ew_dropped s' = add64 1 (ew_dropped s)).
Proof.
  unfold envelope_writer_emit, write_all. destruct (to_vec env); [|by right].
  destruct (io_faults (ew_writer s)) as [|[n|] fs]; cbn -[len]; [left | by right | left]; by rewrite len_app.
Qed.

Lemma counter_kept {S} (failed written : S -> Z) (f : S -> S) :
  (forall s, (written (f s) = written s + 1 /\ failed (f s) = failed s) \/
    (written (f s) = written s /\ failed (f s) = add64 1 (failed s))) ->
  accounts (counter_good failed) written failed (fun _ => 1) f.
Proof.
  intros H. apply single_accounts; [done | | auto].
  intros s Hs. unfold counter_good in *. destruct (H s) as [[_ ->] | [_ ->]]; [done | apply add64_range].
Qed.

#[global] Instance envelope_writer_accounts : @AccountingSink EnvelopeWriterSink (envelope_writer_sink to_vec).
Proof.
  refine (@Build_AccountingSink _ _ (counter_good ew_dropped) (fun s => len (ew_acked s)) (fun _ => 1) _ _ _ _).
  - done.
  - by intros s [].
  - intros stamp e. apply counter_kept. intros s. apply envelope_writer_one.
  - intros stamp env. apply counter_kept. intros s. apply envelope_writer_one.
Defined.
End stream_facts.

#[global] Instance memory_accounts : AccountingSink MemorySink.
Proof.
  refine (@Build_AccountingSink _ _ (counter_good ms_dropped) (fun s => len (ms_events s)) (fun _ => 1) _ _ _ _).
  - done.
  - by intros s [].
  - intros stamp e. apply counter_kept. intros s. left. split; [exact (len_app _ [e]) | done].
  - intros stamp env. apply counter_kept. intros s. left. split; [exact (len_app _ [en_event env]) | done].
Defined.

(** ** Dynamic dispatch and fan-out keep the promise *)

#[global] Instance dyn_accounts {A B} `{AccountingSink A, AccountingSink B} : AccountingSink (A + B).
Proof.
  refine (@Build_AccountingSink _ _ (sum_rect (fun _ => Prop) sink_good sink_good)
    (sum_rect (fun _ => Z) sink_written sink_written) (sum_rect (fun _ => Z) sink_width sink_width) _ _ _ _).
  - intros [s|s]; exact (sink_width_pos s).
  - intros [s|s]; exact (sink_failed_nonneg s).
  - intros stamp e [s|s]; exact (emit_accounts stamp e s).
  - intros stamp env [s|s]; exact (emit_envelope_accounts stamp env s).
Defined.

Section fanout_facts.
Context {S : Type} `{AccountingSink S}.
Implicit Types f : FanoutSink S.

(** The exact sum of the destinations, which the code's saturating sum is cut from. *)
Definition total (read : S -> Z) f : Z := foldr Z.add 0 (map read (fo_sinks f)).

Lemma foldr_add_nonneg l : Forall (Z.le 0) l -> 0 <= foldr Z.add 0 l.
Proof. induction 1; simpl; lia. Qed.

Lemma foldl_sat_add l acc : 0 <= acc < U64 -> Forall (Z.le 0) l ->
  foldl sat_add acc l = Z.min (acc + foldr Z.add 0 l) (U64 - 1).
Proof.
  intros Ha Hl. revert acc Ha. induction Hl as [|x l Hx Hl IH]; intros acc Ha; simpl; [lia|].
  rewrite IH by (unfold sat_add; lia). pose proof (foldr_add_nonneg l Hl). unfold sat_add. lia.
Qed.

Definition fanout_good f : Prop := fo_sinks f <> [] /\ Forall sink_good (fo_sinks f).

Lemma failed_nonneg f : fanout_good f -> Forall (Z.le 0) (map export_write_failed_total (fo_sinks f)).
Proof. intros [_ Hg]. rewrite Forall_map. eapply Forall_impl; [done|]. apply sink_failed_nonneg. Qed.

Lemma fanout_sum_total f : fanout_good f ->
  fanout_sum export_write_failed_total f = Z.min (total export_write_failed_total f) (U64 - 1).
Proof. intros Hf. unfold fanout_sum. rewrite foldl_sat_add; [done | unfold U64; lia | by apply failed_nonneg]. Qed.

(** The records every destination holds: as many as the shortest of them. *)
Definition fewest f : Z :=
  match map sink_written (fo_sinks f) with [] => 0 | w :: ws => foldr Z.min w ws end.

Lemma fewest_le f w : fo_sinks f <> [] ->
  w <= fewest f <-> Forall (fun s => w <= sink_written s) (fo_sinks f).
Proof.
  unfold fewest. destruct f as [[|s0 ss]]; [done|]. intros _. simpl. rewrite Forall_cons.
  induction ss as [|s ss IH]; simpl; [by rewrite Forall_nil; intuition|].
  rewrite Forall_cons. rewrite Z.min_glb_iff. naive_solver.
Qed.

(** One envelope through a list of destinations: all of them write it, or the failures
    go up. *)
Lemma deliver_all stamp env (l : list S) :
  let g := emit_envelope stamp env in
  let failed := fun l => foldr Z.add 0 (map export_write_failed_total l) in
  let width := fun l => foldr Z.add 0 (map sink_width l) in
  Forall sink_good l -> failed l < U64 - width l ->
  Forall sink_good (map g l) /\ width (map g l) = width l /\
  Forall (fun s => sink_written s <= sink_written (g s)) l /\
  failed l <= failed (map g l) <= failed l + width l /\
  (Forall (fun s => sink_written s + 1 <= sink_written (g s)) l \/ failed l + 1 <= failed (map g l)).
Proof.
  intros g failed width Hl. induction Hl as [|s l Hs Hl IH]; simpl; intros Hlt.
  { split; [constructor|]. split; [done|]. split; [constructor|]. split; [unfold failed, width; simpl; lia | by left]. }
  assert (Hw : 0 <= width l).
  { apply foldr_add_nonneg, Forall_map. eapply Forall_impl; [done|]. intros x Hx. simpl.
    pose proof (sink_width_pos x Hx). lia. }
  assert (Hf : 0 <= failed l).
  { apply foldr_add_nonneg, Forall_map. eapply Forall_impl; [done|]. apply sink_failed_nonneg. }
  pose proof (sink_width_pos s Hs) as Hw1. pose proof (sink_failed_nonneg s Hs) as Hf1.
  unfold failed, width in *. cbn [map foldr] in *.
  destruct (emit_envelope_accounts stamp env s Hs) as (Hg & Hws & H1 & H2 & H3); [lia|].
  destruct IH as (Hgl & Hwl & H4 & H5 & H6); [lia|]. fold g in Hg, Hws, H1, H2, H3.
  split; [by constructor|]. split; [lia|]. split; [by constructor|]. split; [lia|].
  destruct H6 as [H6 | H6]; [|right; lia].
  destruct (base.decide (sink_written s + 1 <= sink_written (g s))); [left; by constructor | right; lia].
Qed.

Definition fanout_width f : Z := total sink_width f.

Lemma fanout_width_pos f : fanout_good f -> 1 <= fanout_width f.
Proof.
  intros [Hne Hg]. unfold fanout_width, total. destruct Hg as [|s l Hs Hl]; [done|]. simpl.
  assert (0 <= foldr Z.add 0 (map sink_width l)); [|pose proof (sink_width_pos s Hs); lia].
  apply foldr_add_nonneg, Forall_map. eapply Forall_impl; [done|]. intros x Hx. simpl.
  pose proof (sink_width_pos x Hx). lia.
Qed.

Lemma fanout_step stamp env :
  accounts fanout_good fewest (fanout_sum export_write_failed_total) fanout_width (fanout_emit_envelope stamp env).
Proof.
  intros f Hf Hlt. pose proof (fanout_width_pos f Hf) as Hw0. rewrite (fanout_sum_total f Hf) in *.
  destruct (deliver_all stamp env (fo_sinks f)) as (Hg & Hw & H1 & H2 & H3);
    [apply Hf | unfold fanout_width, total in *; lia |].
  assert (Hf' : fanout_good (fanout_emit_envelope stamp env f)).
  { split; [|done]. simpl. intros E%map_eq_nil. by apply Hf in E. }
  assert (Hmono : forall k, Forall (fun s => sink_written s + k <= sink_written (emit_envelope stamp env s)) (fo_sinks f) ->
      fewest f + k <= fewest (fanout_emit_envelope stamp env f)).
  { intros k Hk. apply fewest_le; [apply Hf'|]. simpl. rewrite Forall_map.
    pose proof (proj1 (fewest_le f (fewest f) (proj1 Hf)) ltac:(lia)) as Hle.
    eapply Forall_impl; [exact (proj2 (Forall_and _ _) (conj Hle Hk))|]. simpl. intros s [Ha Hb]. lia. }
  assert (Hm0 : fewest f <= fewest (fanout_emit_envelope stamp env f)).
  { specialize (Hmono 0). rewrite Z.add_0_r in Hmono. apply Hmono.
    eapply Forall_impl; [exact H1|]. simpl. intros s Hs. lia. }
  split; [done|]. split; [done|]. rewrite (fanout_sum_total _ Hf'). unfold fanout_width, total in *. simpl.
  split; [done|]. split; [lia|]. destruct H3 as [H3%Hmono | H3]; lia.
Qed.

#[global] Instance fanout_accounts : AccountingSink (FanoutSink S).
Proof.
  refine (@Build_AccountingSink _ _ fanout_good fewest fanout_width _ _ _ _).
  - apply fanout_width_pos.
  - intros f Hf. simpl. rewrite (fanout_sum_total f Hf).
    pose proof (foldr_add_nonneg _ (failed_nonneg f Hf)). unfold total, U64. lia.
  - intros stamp e. apply fanout_step.
  - intros stamp env. apply fanout_step.
Defined.
End fanout_facts.
