(* ===== verification/ExportFile.v ===== *)
(** * The rotating file sink

    [RotatingFileSink] of [crates/ferrum-export/src/file.rs]. The directory is the files
    the sink names; every call that can fail takes its fate from a list, a torn write
    with the number of bytes that reached the file. [Path::exists] answers truly, and
    nothing else renames files in the directory. *)

From coqutil Require Import Datatypes.RecordSetters.
From stdpp Require Import pretty.
From S2P Require Import Prelude RustStd RustText AgentState React Proto Export.

(** ** The directory *)

Notation Files := (gmap string (list Z)).

(** What the next fallible calls do: [None] succeeds, [Some n] fails, a write after [n]
    bytes. An empty list: no more faults. [dk_removed] is not in the code: the contents
    of the files that were removed, oldest first. *)
Record Disk := { dk_files : Files; dk_faults : list (option nat); dk_removed : list (list Z) }.

Definition io (A : Type) : Type := Disk -> result string A * Disk.

#[global] Instance io_ret : MRet io := fun A a d => (Ok a, d).
#[global] Instance io_bind : MBind io := fun A B k m d =>
  match m d with (Ok a, d') => k a d' | (Err e, d') => (Err e, d') end.

(** The fate of the next call. *)
Definition next_fault : io (option nat) := fun d =>
  match dk_faults d with
  | [] => (Ok None, d)
  | f :: fs => (Ok f, d {{ dk_faults := fs }})
  end.

Definition io_fail {A} (e : string) : io A := fun d => (Err e, d).

(** A call that does [f] or fails and does nothing. *)
Definition call {A} (f : io A) : io A :=
  (fault ← next_fault; match fault with Some _ => io_fail "EIO" | None => f end) : io A.

Definition remove_file (p : string) : io unit := call (fun d =>
  match dk_files d !! p with
  | None => (Err "ENOENT", d)
  | Some b => (Ok tt, d {{ dk_files ::= delete p; dk_removed := dk_removed d ++ [b] }})
  end).

Definition rename (from to : string) : io unit := call (fun d =>
  match dk_files d !! from with
  | None => (Err "ENOENT", d)
  | Some b => (Ok tt, d {{ dk_files := <[to := b]> (delete from (dk_files d)) }})
  end).

Definition exists_file (p : string) : io bool := fun d => (Ok (bool_decide (is_Some (dk_files d !! p))), d).

(** [OpenOptions::create(true).append(true).open]. *)
Definition open_append (p : string) : io unit := call (fun d =>
  (Ok tt, d {{ dk_files := <[p := default [] (dk_files d !! p)]> (dk_files d) }})).

(** [file.metadata()?.len()]. *)
Definition file_len (p : string) : io Z := call (fun d => (Ok (len (default [] (dk_files d !! p))), d)).

Definition append_bytes (p : string) (bytes : list Z) : io unit := fun d =>
  (Ok tt, d {{ dk_files := <[p := default [] (dk_files d !! p) ++ bytes]> (dk_files d) }}).

(** [file.write_all(bytes).and_then(|_| file.flush())] of an append handle. An error comes
    before all of [bytes] is in the file; flushing a [File] does nothing. *)
Definition write_all_file (p : string) (bytes : list Z) : io unit :=
  (fault ← next_fault;
   match fault with
   | None => append_bytes p bytes
   | Some n => _ ← append_bytes p (take (Nat.min n (pred (length bytes))) bytes); io_fail "EIO"
   end) : io unit.

(** ** The sink *)

Definition ACTIVE_NAME : string := "events.jsonl".
Definition active_path : string := ACTIVE_NAME.
Definition rotated_path (n : nat) : string := ACTIVE_NAME +:+ "." +:+ pretty n.

(** [rf_state] is the open handle with its length. [rf_acked] is not in the code: the
    records whose write returned [Ok]. *)
Record RotatingFileSink := {
  rf_max_bytes : Z;
  rf_keep_files : nat;
  rf_state : option Z;
  rf_torn : bool;
  rf_dropped : Z;
  rf_disk : Disk;
  rf_acked : list (list Z)
}.

Definition rotating_new (max_bytes : Z) (keep_files : nat) (disk : Disk) : RotatingFileSink :=
  {| rf_max_bytes := Z.max max_bytes 1; rf_keep_files := keep_files; rf_state := None; rf_torn := false;
     rf_dropped := 0; rf_disk := disk; rf_acked := [] |}.

Definition open_active : io Z := _ ← open_append active_path; file_len active_path.

(** [for n in (1..keep).rev()]: [n] counts down from [keep - 1] to one. *)
Fixpoint shift_files (n : nat) : io unit :=
  match n with
  | O => mret tt
  | S n' =>
      present ← exists_file (rotated_path n);
      _ ← (if present : bool then rename (rotated_path n) (rotated_path (S n)) else mret tt);
      shift_files n'
  end.

Definition rotate (keep_files : nat) : io unit :=
  match keep_files with
  | O => remove_file active_path
  | S below =>
      present ← exists_file (rotated_path keep_files);
      _ ← (if present : bool then remove_file (rotated_path keep_files) else mret tt);
      _ ← shift_files below;
      rename active_path (rotated_path 1)
  end.

(** What [try_emit] works on: the handle and the flag; every early return leaves them as
    they are then. *)
Record Handle := { hd_open : option Z; hd_torn : bool }.

Definition needs_rotation (max_bytes : Z) (open_len : Z) (line : list Z) : bool :=
  (0 <? open_len) && (max_bytes <? open_len + len line).

(** The four stages of [try_emit]: open, end a torn line, rotate, write. *)
Definition ensure_open (h : Handle) (d : Disk) : result string Z * Handle * Disk :=
  match hd_open h with
  | Some n => (Ok n, h, d)
  | None =>
      match open_active d with
      | (Ok n, d') => (Ok n, h {{ hd_open := Some n }}, d')
      | (Err e, d') => (Err e, h, d')
      end
  end.

Definition end_torn_line (n : Z) (h : Handle) (d : Disk) : result string Z * Handle * Disk :=
  if hd_torn h then
    if 0 <? n then
      match write_all_file active_path [10] d with
      | (Ok _, d') => (Ok (n + 1), {| hd_open := Some (n + 1); hd_torn := false |}, d')
      | (Err e, d') => (Err e, h {{ hd_open := None }}, d')
      end
    else (Ok n, h {{ hd_torn := false }}, d)
  else (Ok n, h, d).

Definition rotate_if_needed (max_bytes : Z) (keep_files : nat) (line : list Z) (n : Z) (h : Handle) (d : Disk)
    : result string Z * Handle * Disk :=
  if needs_rotation max_bytes n line then
    match (_ ← rotate keep_files; open_active) d with
    | (Ok n', d') => (Ok n', h {{ hd_open := Some n' }}, d')
    | (Err e, d') => (Err e, h {{ hd_open := None }}, d')
    end
  else (Ok n, h, d).

Definition write_line (line : list Z) (n : Z) (h : Handle) (d : Disk) : result string unit * Handle * Disk :=
  match write_all_file active_path line d with
  | (Ok _, d') => (Ok tt, h {{ hd_open := Some (n + len line) }}, d')
  | (Err e, d') => (Err e, {| hd_open := None; hd_torn := true |}, d')
  end.

Definition try_emit (max_bytes : Z) (keep_files : nat) (line : list Z) (h : Handle) (d : Disk)
    : result string unit * Handle * Disk :=
  let '(r, h, d) := ensure_open h d in
  match r with
  | Err e => (Err e, h, d)
  | Ok n =>
      let '(r, h, d) := end_torn_line n h d in
      match r with
      | Err e => (Err e, h, d)
      | Ok n =>
          let '(r, h, d) := rotate_if_needed max_bytes keep_files line n h d in
          match r with
          | Err e => (Err e, h, d)
          | Ok n => write_line line n h d
          end
      end
  end.

Section sink.
(** [serde_json::to_vec] of an envelope. *)
Context (to_vec : EventEnvelope -> option (list Z)).

Definition rotating_emit_envelope (env : EventEnvelope) (s : RotatingFileSink) : RotatingFileSink :=
  match to_vec env with
  | None => s {{ rf_dropped ::= add64 1 }}
  | Some bytes =>
      let '(r, h, d) := try_emit (rf_max_bytes s) (rf_keep_files s) (bytes ++ [10])
        {| hd_open := rf_state s; hd_torn := rf_torn s |} (rf_disk s) in
      let s := s {{ rf_state := hd_open h; rf_torn := hd_torn h; rf_disk := d }} in
      match r with
      | Ok _ => s {{ rf_acked := rf_acked s ++ [bytes] }}
      | Err _ => s {{ rf_dropped ::= add64 1 }}
      end
  end.

#[global] Instance rotating_sink : EventSink RotatingFileSink :=
  envelope_sink rotating_emit_envelope rf_dropped.
End sink.

(** ** The directory as a sequence of files, oldest first *)

(** The active file is slot zero. *)
Definition slot_path (n : nat) : string := match n with O => active_path | S _ => rotated_path n end.
Definition at_slot (d : Disk) (n : nat) : list Z := default [] (dk_files d !! slot_path n).

Definition nonempty (b : list Z) : list (list Z) := if is_empty b then [] else [b].

(** The rotated files from slot [n] down to one, less the empty ones. *)
Fixpoint older_from (d : Disk) (n : nat) : list (list Z) :=
  match n with O => [] | S m => nonempty (at_slot d n) ++ older_from d m end.

(** Everything that went before the active file. *)
Definition history (d : Disk) (keep : nat) : list (list Z) :=
  concat (map nonempty (dk_removed d)) ++ older_from d keep.

(** Two disks that hold the same. *)
Definition same_dir (d d' : Disk) : Prop := (forall m, at_slot d' m = at_slot d m) /\ dk_removed d' = dk_removed d.

Lemma rotated_path_inj m n : rotated_path m = rotated_path n -> m = n.
Proof. intros E. apply (inj pretty). by injection E. Qed.

Lemma slot_path_inj m n : slot_path m = slot_path n -> m = n.
Proof.
  destruct m, n; simpl; intros E; [done | discriminate E | discriminate E | by apply rotated_path_inj in E].
Qed.

Lemma older_from_ext d d' n : (forall m, (0 < m <= n)%nat -> at_slot d' m = at_slot d m) ->
  older_from d' n = older_from d n.
Proof.
  induction n as [|n IH]; intros H; [done|]. cbn [older_from]. rewrite H, IH by (intros; first [apply H; lia | lia]).
  done.
Qed.

Lemma same_dir_refl d : same_dir d d.
Proof. done. Qed.

Lemma same_dir_trans d1 d2 d3 : same_dir d1 d2 -> same_dir d2 d3 -> same_dir d1 d3.
Proof. intros [H1 E1] [H2 E2]. split; [intros m; by rewrite H2 | by rewrite E2]. Qed.

Lemma history_same d d' keep : same_dir d d' -> history d' keep = history d keep.
Proof. intros [H E]. unfold history. rewrite E. f_equal. apply older_from_ext. auto. Qed.

Lemma next_fault_same d : exists f d', next_fault d = (Ok f, d') /\ same_dir d d' /\ dk_files d' = dk_files d.
Proof. unfold next_fault. destruct (dk_faults d) as [|f fs]; eexists _, _; done. Qed.

(** A fallible call fails and changes nothing, or does its work. *)
Lemma call_cases {A} (f : io A) d : exists d0, same_dir d d0 /\ dk_files d0 = dk_files d /\
  (call f d = (Err "EIO", d0) \/ call f d = f d0).
Proof.
  unfold call, mbind, io_bind. destruct (next_fault_same d) as (x & d0 & -> & Hs & Hf).
  exists d0. split; [done|]. split; [done|]. destruct x; auto.
Qed.

Lemma open_active_spec d r d' : open_active d = (r, d') ->
  same_dir d d' /\ (forall n, r = Ok n -> n = len (at_slot d 0)).
Proof.
  unfold open_active, mbind, io_bind, open_append, file_len.
  destruct (call_cases (fun d => (Ok tt, d {{ dk_files := <[active_path := default [] (dk_files d !! active_path)]> (dk_files d) }})) d)
    as (d0 & Hs & Hf & [-> | ->]); [by intros [= <- <-]|].
  set (d1 := d0 {{ dk_files := _ }}).
  assert (H1 : same_dir d d1).
  { eapply same_dir_trans; [done|]. split; [|done]. intros m. unfold at_slot, d1. simpl. unfold constant.
    destruct (base.decide (active_path = slot_path m)) as [<-|Hne];
      [by rewrite lookup_insert_eq | by rewrite lookup_insert_ne]. }
  destruct (call_cases (fun d => (Ok (len (default [] (dk_files d !! active_path))), d)) d1)
    as (d2 & Hs2 & Hf2 & [-> | ->]); intros [= <- <-].
  - split; [by eapply same_dir_trans | done].
  - split; [by eapply same_dir_trans|]. intros n [= <-]. rewrite Hf2. by rewrite <- (proj1 H1 0%nat).
Qed.

(** A rename of one slot to another. *)
Lemma rename_spec i j d r d' : i <> j -> rename (slot_path i) (slot_path j) d = (r, d') ->
  dk_removed d' = dk_removed d /\
  ((same_dir d d' /\ exists e, r = Err e) \/
   (r = Ok tt /\ at_slot d' j = at_slot d i /\ at_slot d' i = [] /\
    forall m, m <> i -> m <> j -> at_slot d' m = at_slot d m)).
Proof.
  intros Hij. unfold rename.
  match goal with |- call ?f d = _ -> _ => destruct (call_cases f d) as (d0 & Hs & Hf & [-> | ->]) end.
  { intros [= <- <-]. split; [apply Hs | left; eauto]. }
  destruct (dk_files d0 !! slot_path i) as [b|] eqn:E; intros [= <- <-]; [|split; [apply Hs | left; eauto]].
  split; [apply Hs|]. right. split; [done|]. unfold at_slot. simpl. unfold constant. rewrite Hf in E.
  assert (Hne : slot_path j <> slot_path i) by (intros H%slot_path_inj; done).
  split; [by rewrite lookup_insert_eq, E|]. split; [by rewrite lookup_insert_ne, lookup_delete_eq|].
  intros m Hi Hj. rewrite lookup_insert_ne, lookup_delete_ne; [by rewrite Hf | |]; intros H%slot_path_inj; done.
Qed.

Lemma remove_spec i d r d' : remove_file (slot_path i) d = (r, d') ->
  (same_dir d d' /\ exists e, r = Err e) \/
  (r = Ok tt /\ dk_removed d' = dk_removed d ++ [at_slot d i] /\ at_slot d' i = [] /\
   forall m, m <> i -> at_slot d' m = at_slot d m).
Proof.
  unfold remove_file.
  match goal with |- call ?f d = _ -> _ => destruct (call_cases f d) as (d0 & Hs & Hf & [-> | ->]) end.
  { intros [= <- <-]. left; eauto. }
  destruct (dk_files d0 !! slot_path i) as [b|] eqn:E; intros [= <- <-]; [|left; eauto].
  right. destruct d0 as [fs flt rm]; simpl in *. subst fs. split; [done|]. unfold at_slot, constant. simpl.
  split; [rewrite E; simpl; f_equal; apply Hs|]. split; [by rewrite lookup_delete_eq|].
  intros m Hi. rewrite lookup_delete_ne; [done|]. intros H%slot_path_inj; done.
Qed.

(** ** Rotation keeps every byte, in order *)

Lemma older_from_step d n b : at_slot d (S n) = b -> older_from d (S n) = nonempty b ++ older_from d n.
Proof. by intros <-. Qed.

Lemma shift_spec n d r d' : at_slot d (S n) = [] -> shift_files n d = (r, d') ->
  older_from d' (S n) = older_from d (S n) /\ dk_removed d' = dk_removed d /\
  (forall m, m = O \/ (S n < m)%nat -> at_slot d' m = at_slot d m) /\
  (r = Ok tt -> at_slot d' 1 = []).
Proof.
  revert d. induction n as [|n IH]; intros d Hd; cbn [shift_files].
  { intros [= <- <-]. done. }
  unfold mbind, io_bind, exists_file. case_bool_decide as Hp.
  - destruct (rename (rotated_path (S n)) (rotated_path (S (S n))) d) as [r1 d1] eqn:E1.
    change (rotated_path (S n)) with (slot_path (S n)) in E1.
    change (rotated_path (S (S n))) with (slot_path (S (S n))) in E1.
    apply rename_spec in E1 as (Hrm & [[Hs [e ->]] | (-> & Hto & Hfrom & Hrest)]); [|..|lia].
    + intros [= <- <-]. repeat split; [apply older_from_ext; intros; apply Hs | done | intros; apply Hs | done].
    + intros E2. destruct (IH d1 Hfrom E2) as (Hold & Hrm2 & Hothers & Hok).
      split; [|split; [by rewrite Hrm2 | split; [|done]]].
      * rewrite (older_from_step d' (S n) (at_slot d (S n))) by (rewrite Hothers, Hto by (right; lia); done).
        rewrite Hold, (older_from_step d1 n []) by done. rewrite (older_from_step d (S n) []) by done.
        rewrite (older_from_step d n _ eq_refl). simpl. f_equal. apply older_from_ext.
        intros m Hm. apply Hrest; lia.
      * intros m Hm. rewrite Hothers by lia. apply Hrest; lia.
  - intros E2. assert (Hn : at_slot d (S n) = []).
    { unfold at_slot. simpl slot_path. destruct (dk_files d !! rotated_path (S n)) eqn:E; [|done].
      exfalso. apply Hp. by eexists. }
    destruct (IH d Hn E2) as (Hold & Hrm2 & Hothers & Hok).
    split; [|split; [done | split; [intros; apply Hothers; lia | done]]].
    rewrite (older_from_step d' (S n) []) by (rewrite Hothers by (right; lia); done).
    by rewrite Hold, (older_from_step d (S n) []).
Qed.

Lemma absent_slot d n : ~ is_Some (dk_files d !! rotated_path (S n)) -> at_slot d (S n) = [].
Proof.
  intros Hp. unfold at_slot. simpl slot_path. destruct (dk_files d !! rotated_path (S n)) eqn:E; [|done].
  exfalso. apply Hp. by eexists.
Qed.

(** [if last.exists() { remove_file(&last)? }]: the last file joins the removed ones. *)
Lemma clear_last_spec below d r d' : let k := S below in
  (if bool_decide (is_Some (dk_files d !! rotated_path k)) then remove_file (rotated_path k) else mret tt) d = (r, d') ->
  at_slot d' 0 = at_slot d 0 /\ (forall m, (k < m)%nat -> at_slot d' m = at_slot d m) /\
  history d' k = history d k /\ ((exists e, r = Err e) \/ r = Ok tt /\ at_slot d' k = []).
Proof.
  intros k. case_bool_decide as Hp; intros E.
  2: { injection E as <- <-. repeat split. right. split; [done | by apply absent_slot]. }
  apply (remove_spec k) in E as [[Hs [e ->]] | (-> & Hrm & H0 & Hrest)].
  - split; [apply Hs|]. split; [intros; apply Hs|]. split; [by apply history_same | eauto].
  - split; [apply Hrest; done|]. split; [intros; apply Hrest; lia|]. split; [|auto].
    unfold history, k. rewrite (older_from_step d' below []) by done. rewrite Hrm.
    rewrite (older_from_step d below _ eq_refl), map_app, concat_app, <- app_assoc. simpl.
    rewrite app_nil_r. f_equal. f_equal. apply older_from_ext. intros m Hm. apply Hrest. unfold k; lia.
Qed.

(** The active file, renamed to slot one, is the newest of the rotated ones. *)
Lemma older_from_promoted d d' b j : at_slot d' 1 = b -> at_slot d 1 = [] ->
  (forall m, (1 < m)%nat -> at_slot d' m = at_slot d m) ->
  older_from d' (S j) = older_from d (S j) ++ nonempty b.
Proof.
  intros Hto Hone Hrest. induction j as [|j IH].
  - rewrite (older_from_step d' 0 b), (older_from_step d 0 []) by done. simpl. by rewrite app_nil_r.
  - rewrite (older_from_step d' _ (at_slot d (S (S j)))) by (apply Hrest; lia).
    by rewrite (older_from_step d _ _ eq_refl), IH, app_assoc.
Qed.

(** A rotation that stops early has only moved files of the history up; one that ends
    has put the active file at its end. *)
Lemma rotate_spec keep d r d' : rotate keep d = (r, d') ->
  (forall m, (keep < m)%nat -> at_slot d' m = at_slot d m) /\
  ((exists e, r = Err e) /\ history d' keep = history d keep /\ at_slot d' 0 = at_slot d 0 \/
   r = Ok tt /\ history d' keep = history d keep ++ nonempty (at_slot d 0) /\ at_slot d' 0 = []).
Proof.
  destruct keep as [|below]; cbn [rotate].
  { intros E. apply (remove_spec 0) in E as [[Hs [e ->]] | (-> & Hrm & H0 & Hrest)].
    - split; [intros; apply Hs|]. left. split; [eauto|]. split; [by apply history_same | apply Hs].
    - split; [intros; apply Hrest; lia|]. right. split; [done|]. split; [|done].
      unfold history. rewrite Hrm. simpl. rewrite map_app, concat_app, !app_nil_r. simpl. by rewrite app_nil_r. }
  unfold mbind, io_bind, exists_file.
  match goal with |- context [(if ?c then remove_file ?p else ?m) d] =>
    destruct ((if c then remove_file p else m) d) as [r1 d1] eqn:E1 end.
  apply clear_last_spec in E1 as (H0 & Hout & Hh & [[e ->] | [-> Hk]]).
  { intros [= <- <-]. split; [done|]. left. eauto. }
  destruct (shift_files below d1) as [r2 d2] eqn:E2.
  apply shift_spec in E2 as (Hold & Hrm & Hothers & Hone); [|done].
  assert (Hh2 : history d2 (S below) = history d (S below)) by (rewrite <- Hh; unfold history; by rewrite Hrm; f_equal).
  destruct r2 as [[]|e]; intros E3.
  2: { injection E3 as <- <-. split; [intros m Hm; rewrite Hothers by (right; lia); auto|].
       left. split; [eauto|]. split; [done | rewrite Hothers by auto; done]. }
  apply (rename_spec 0 1) in E3 as (Hrm3 & [[Hs [e ->]] | (-> & Hto & Hfrom & Hrest)]); [|..|lia].
  - split; [intros m Hm; rewrite (proj1 Hs), Hothers by (right; lia); auto|].
    left. split; [eauto|]. split; [rewrite (history_same _ _ _ Hs); done | rewrite (proj1 Hs), Hothers by auto; done].
  - split; [intros m Hm; rewrite Hrest, Hothers by (first [right; lia | lia]); auto|].
    right. split; [done|]. split; [|done]. rewrite <- Hh2. unfold history. rewrite Hrm3, <- app_assoc. f_equal.
    apply older_from_promoted; [by rewrite Hto, Hothers, H0 by auto | auto | intros; apply Hrest; lia].
Qed.

(** ** What a directory holds after any run *)

Section invariant.
Context (to_vec : EventEnvelope -> option (list Z)).
Notation J := (record_text to_vec).

(** [M] bounds the length of a line and is at least [max_bytes]. *)
Context (M : Z).

Record dir_inv (keep : nat) (d : Disk) (torn : bool) (acked : list (list Z))
    (LS : list (list (list Z))) (ls : list (list Z)) (tail : list Z) : Prop := {
  di_older : Forall2 (fun f l => framed J f false l []) (history d keep) LS;
  di_active : framed J (at_slot d 0) torn ls tail;
  di_acked : acked `sublist_of` concat LS ++ ls;
  di_older_size : Forall (fun f => len f <= M + 1) (history d keep);
  di_active_size : len (at_slot d 0) + Z.b2z torn <= M + 1
}.

Definition dir_ok (keep : nat) (d : Disk) (torn : bool) (acked : list (list Z)) : Prop :=
  exists LS ls tail, dir_inv keep d torn acked LS ls tail.

(** The handle measures the active file. *)
Definition handle_ok (h : Handle) (d : Disk) : Prop := forall n, hd_open h = Some n -> n = len (at_slot d 0).

Lemma dir_ok_same keep d d' torn acked : same_dir d d' -> dir_ok keep d torn acked -> dir_ok keep d' torn acked.
Proof.
  intros Hs (LS & ls & tail & [H1 H2 H3 H4 H5]). exists LS, ls, tail.
  split; rewrite ?(history_same _ _ _ Hs), ?(proj1 Hs 0%nat); done.
Qed.

(** What a stage of [try_emit] leaves: a good directory whatever it answers, and a handle
    that measures it; nothing outside the slots it may use. *)
Definition stage_ok (keep : nat) (d : Disk) (acked : list (list Z)) (h' : Handle) (d' : Disk) : Prop :=
  dir_ok keep d' (hd_torn h') acked /\ handle_ok h' d' /\ (forall m, (keep < m)%nat -> at_slot d' m = at_slot d m).

Lemma ensure_open_ok keep d acked h r h' d' : dir_ok keep d (hd_torn h) acked -> handle_ok h d ->
  ensure_open h d = (r, h', d') ->
  stage_ok keep d acked h' d' /\ forall n, r = Ok n -> hd_open h' = Some n /\ hd_torn h' = hd_torn h.
Proof.
  intros Hd Hh. unfold ensure_open. destruct (hd_open h) as [n|] eqn:E.
  { intros [= <- <- <-]. split; [done|]. by intros ? [= <-]. }
  destruct (open_active d) as [[n|e] d1] eqn:Eo; apply open_active_spec in Eo as [Hs Hn]; intros [= <- <- <-].
  - split; [split; [by eapply dir_ok_same | split; [|intros; apply Hs]] | by intros ? [= <-]].
    intros m [= <-]. rewrite (proj1 Hs). by apply Hn.
  - split; [split; [by eapply dir_ok_same | split; [|intros; apply Hs]] | done].
    intros m Hm. rewrite (proj1 Hs). by apply Hh.
Qed.
Lemma write_file_spec bytes d r d' : write_all_file active_path bytes d = (r, d') ->
  dk_removed d' = dk_removed d /\ (forall m, m <> O -> at_slot d' m = at_slot d m) /\
  (r = Ok tt /\ at_slot d' 0 = at_slot d 0 ++ bytes \/
   exists e n, r = Err e /\ (n <= pred (length bytes))%nat /\ at_slot d' 0 = at_slot d 0 ++ take n bytes).
Proof.
  assert (Happ : forall b d0, dk_files d0 = dk_files d -> same_dir d d0 ->
    forall d1, append_bytes active_path b d0 = (Ok tt, d1) ->
    dk_removed d1 = dk_removed d /\ (forall m, m <> O -> at_slot d1 m = at_slot d m) /\
    at_slot d1 0 = at_slot d 0 ++ b).
  { intros b d0 Hf Hs d1 [= <-]. destruct d0 as [fs flt rm]; simpl in *. subst fs. split; [apply Hs|].
    unfold at_slot, constant. simpl. split; [|by rewrite lookup_insert_eq].
    intros m Hm. rewrite lookup_insert_ne; [done|]. intros E. by apply (slot_path_inj 0) in E. }
  unfold write_all_file, mbind, io_bind. destruct (next_fault_same d) as (x & d0 & -> & Hs & Hf).
  destruct x as [n|].
  - destruct (Happ (take (Nat.min n (pred (length bytes))) bytes) d0 Hf Hs _ eq_refl) as (H1 & H2 & H3).
    intros [= <- <-]. split; [done|]. split; [done|].
    right. eexists _, _. split; [done|]. split; [|exact H3]. lia.
  - intros E. assert (r = Ok tt) as -> by (by injection E). destruct (Happ _ d0 Hf Hs _ E) as (H1 & H2 & H3). auto.
Qed.

Lemma history_grown keep d d' : dk_removed d' = dk_removed d -> (forall m, m <> O -> at_slot d' m = at_slot d m) ->
  history d' keep = history d keep.
Proof. intros E H. unfold history. rewrite E. f_equal. apply older_from_ext. intros m Hm. apply H. lia. Qed.

Lemma framed_empty torn ls tail : framed J [] torn ls tail -> ls = [] /\ tail = [].
Proof.
  intros [E _ _ _]. symmetry in E. apply app_eq_nil in E as [E ->]. split; [|done]. destruct ls as [|l ls]; [done|].
  unfold frames in E. simpl in E. apply app_eq_nil in E as [E _]. by destruct l.
Qed.

Lemma end_torn_line_ok keep d acked n h r h' d' :
  dir_ok keep d (hd_torn h) acked -> handle_ok h d -> hd_open h = Some n ->
  end_torn_line n h d = (r, h', d') ->
  stage_ok keep d acked h' d' /\ forall n', r = Ok n' -> hd_open h' = Some n' /\ hd_torn h' = false.
Proof.
  intros Hd Hh Ho. unfold end_torn_line. destruct (hd_torn h) eqn:Et.
  2: { intros [= <- <- <-]. split; [split; [by rewrite Et | done]|]. by intros n' [= <-]. }
  destruct Hd as (LS & ls & tail & [D1 D2 D3 D4 D5]). pose proof (Hh n Ho) as En. destruct (0 <? n) eqn:E0.
  2: { intros [= <- <- <-]. assert (Hnil : at_slot d 0 = []).
       { destruct (at_slot d 0); [done|]. rewrite len_cons in En. pose proof (len_nonneg l). lia. }
       rewrite Hnil in D2. destruct (framed_empty _ _ _ D2) as [-> ->].
       split; [|by intros n' [= <-]]. split; [|split; [exact Hh | done]].
       exists LS, [], []. split; simpl; [done | rewrite Hnil; apply framed_nil | done | done | unfold constant; simpl in *; lia]. }
  destruct (write_all_file active_path [10] d) as [r1 d1] eqn:Ew.
  apply write_file_spec in Ew as (Hrm & Hrest & [[-> Ha] | (e & k & -> & Hk & Ha)]); intros [= <- <- <-].
  - split; [|by intros n' [= <-]]. split; [|split; [|intros m Hm; apply Hrest; lia]].
    + exists LS, (ls ++ [tail]), []. split; simpl; rewrite ?(history_grown _ _ _ Hrm Hrest), ?Ha;
        [done | by eapply framed_close | | done | rewrite len_app; simpl in *; unfold len at 2; simpl; lia].
      rewrite app_assoc. by apply sublist_inserts_r.
    + intros m [= <-]. rewrite Ha, len_app, En. done.
  - assert (k = O) as -> by (simpl in Hk; lia). simpl in Ha. rewrite app_nil_r in Ha.
    split; [|done]. split; [|split; [done | intros m Hm; apply Hrest; lia]].
    destruct h as [ho ht]; simpl in Et |- *; subst ht.
    exists LS, ls, tail. split; rewrite ?(history_grown _ _ _ Hrm Hrest), ?Ha; done.
Qed.

(** What rotation achieves: the line fits, or the file is empty. *)
Definition fits (max_bytes n : Z) (line : list Z) : Prop := n <= 0 \/ n + len line <= max_bytes.

Lemma dir_ok_rotated keep d d' acked : dir_ok keep d false acked ->
  history d' keep = history d keep ++ nonempty (at_slot d 0) -> at_slot d' 0 = [] -> 0 <= M ->
  dir_ok keep d' false acked.
Proof.
  intros (LS & ls & tail & [D1 D2 D3 D4 D5]) Hh H0 HM. pose proof (fr_closed _ _ _ _ _ D2 eq_refl) as ->.
  simpl in D5. unfold nonempty in Hh. destruct (is_empty (at_slot d 0)) eqn:E.
  - assert (Ea : at_slot d 0 = []) by (by destruct (at_slot d 0)). rewrite Ea in D2.
    destruct (framed_empty _ _ _ D2) as [-> _]. rewrite app_nil_r in Hh.
    exists LS, [], []. split; rewrite ?Hh, ?H0; [done | apply framed_nil | done | done | simpl; unfold len; simpl; lia].
  - exists (LS ++ [ls]), [], []. split; rewrite ?Hh, ?H0;
      [apply Forall2_app; [done | by constructor; [|constructor]] | apply framed_nil | | | simpl; unfold len; simpl; lia].
    + rewrite concat_app. simpl. by rewrite !app_nil_r.
    + apply Forall_app. split; [done|]. apply Forall_singleton. lia.
Qed.

Lemma rotate_if_needed_ok max keep line d acked n h r h' d' : 0 <= M ->
  dir_ok keep d (hd_torn h) acked -> handle_ok h d -> hd_open h = Some n -> hd_torn h = false ->
  rotate_if_needed max keep line n h d = (r, h', d') ->
  stage_ok keep d acked h' d' /\
  forall n', r = Ok n' -> hd_open h' = Some n' /\ hd_torn h' = false /\ fits max n' line.
Proof.
  intros HM Hd Hh Ho Ht. rewrite Ht in Hd. unfold rotate_if_needed. destruct (needs_rotation max n line) eqn:En.
  2: { intros [= <- <- <-]. split; [split; [by rewrite Ht | done]|]. intros n' [= <-]. split; [done|]. split; [done|].
       unfold needs_rotation in En. unfold fits. lia. }
  unfold mbind, io_bind. destruct (rotate keep d) as [[[]|e] d1] eqn:Er; apply rotate_spec in Er as (Hout & Hcase).
  - destruct Hcase as [([e E] & _) | (_ & Hhist & H0)]; [done|].
    pose proof (dir_ok_rotated _ _ _ _ Hd Hhist H0 HM) as Hd1.
    destruct (open_active d1) as [[n'|e] d2] eqn:Eo; apply open_active_spec in Eo as [Hs Hn]; intros [= <- <- <-].
    + split; [split; [destruct h; simpl in Ht |- *; subst; by eapply dir_ok_same | split]|].
      * intros m [= <-]. rewrite (proj1 Hs). by apply Hn.
      * intros m Hm. rewrite (proj1 Hs). auto.
      * intros m [= <-]. split; [done|]. split; [done|]. left. rewrite (Hn n' eq_refl), H0. done.
    + split; [split; [destruct h; simpl in Ht |- *; subst; by eapply dir_ok_same | split; [done|]] | done].
      intros m Hm. rewrite (proj1 Hs). auto.
  - destruct Hcase as [(_ & Hhist & H0) | ([=] & _)]. intros [= <- <- <-].
    split; [split; [destruct h; simpl in Ht |- *; subst | split; [done | auto]] | done].
    destruct Hd as (LS & ls & tail & [D1 D2 D3 D4 D5]). exists LS, ls, tail. by split; rewrite ?Hhist, ?H0.
Qed.

Lemma write_line_ok max keep rec d acked n h r h' d' :
  max <= M -> len (rec ++ [10]) <= M -> J rec -> fits max n (rec ++ [10]) ->
  dir_ok keep d (hd_torn h) acked -> handle_ok h d -> hd_open h = Some n -> hd_torn h = false ->
  write_line (rec ++ [10]) n h d = (r, h', d') ->
  stage_ok keep d (if is_ok r then acked ++ [rec] else acked) h' d'.
Proof.
  intros Hmax Hline HJ Hfit Hd Hh Ho Ht. rewrite Ht in Hd. destruct Hd as (LS & ls & tail & [D1 D2 D3 D4 D5]).
  pose proof (fr_closed _ _ _ _ _ D2 eq_refl) as ->. pose proof (Hh n Ho) as En.
  assert (Hsz : len (at_slot d 0) + len (rec ++ [10]) <= M).
  { rewrite <- En. pose proof (len_nonneg (at_slot d 0)). destruct Hfit; lia. }
  unfold write_line. destruct (write_all_file active_path (rec ++ [10]) d) as [r1 d1] eqn:Ew.
  apply write_file_spec in Ew as (Hrm & Hrest & [[-> Ha] | (e & k & -> & Hk & Ha)]); intros [= <- <- <-];
    (split; [|split; [|intros m Hm; apply Hrest; lia]]).
  - destruct h as [ho ht]; simpl in Ht |- *; subst ht. exists LS, (ls ++ [rec]), [].
    split; rewrite ?(history_grown _ _ _ Hrm Hrest), ?Ha; [done | by apply framed_whole | | done | ].
    + rewrite app_assoc. by apply sublist_app.
    + rewrite len_app. simpl. lia.
  - intros m Hm. destruct h; simpl in Hm; injection Hm as <-. rewrite Ha, (len_app (at_slot d 0)). lia.
  - destruct (framed_cut _ _ _ _ k D2 HJ) as (ls' & tail' & Hsub & Hf). exists LS, ls', tail'.
    split; rewrite ?(history_grown _ _ _ Hrm Hrest), ?Ha; [done | done | | done | ].
    + etrans; [done|]. by apply sublist_app.
    + rewrite len_app. assert (len (take k (rec ++ [10])) <= len (rec ++ [10])); [|simpl; lia].
      unfold len. rewrite length_take. lia.
  - done.
Qed.
Lemma try_emit_ok max keep rec d acked h r h' d' :
  0 <= M -> max <= M -> len (rec ++ [10]) <= M -> J rec -> dir_ok keep d (hd_torn h) acked -> handle_ok h d ->
  try_emit max keep (rec ++ [10]) h d = (r, h', d') ->
  stage_ok keep d (if is_ok r then acked ++ [rec] else acked) h' d'.
Proof.
  intros HM Hmax Hline HJ Hd Hh. unfold try_emit.
  destruct (ensure_open h d) as [[r1 h1] d1] eqn:E1.
  destruct (ensure_open_ok _ _ _ _ _ _ _ Hd Hh E1) as [(Hd1 & Hh1 & Ho1) Hn1].
  destruct r1 as [n1|e]; [|intros [= <- <- <-]; done]. destruct (Hn1 n1 eq_refl) as [Hopen1 _].
  destruct (end_torn_line n1 h1 d1) as [[r2 h2] d2] eqn:E2.
  destruct (end_torn_line_ok _ _ _ _ _ _ _ _ Hd1 Hh1 Hopen1 E2) as [(Hd2 & Hh2 & Ho2) Hn2].
  destruct r2 as [n2|e].
  2: { intros [= <- <- <-]. split; [done|]. split; [done|]. intros m Hm. rewrite Ho2, Ho1 by done. done. }
  destruct (Hn2 n2 eq_refl) as [Hopen2 Ht2].
  destruct (rotate_if_needed max keep (rec ++ [10]) n2 h2 d2) as [[r3 h3] d3] eqn:E3.
  destruct (rotate_if_needed_ok _ _ _ _ _ _ _ _ _ _ HM Hd2 Hh2 Hopen2 Ht2 E3) as [(Hd3 & Hh3 & Ho3) Hn3].
  destruct r3 as [n3|e].
  2: { intros [= <- <- <-]. split; [done|]. split; [done|]. intros m Hm. rewrite Ho3, Ho2, Ho1 by done. done. }
  destruct (Hn3 n3 eq_refl) as (Hopen3 & Ht3 & Hfit). intros E4.
  destruct (write_line_ok _ _ _ _ _ _ _ _ _ _ Hmax Hline HJ Hfit Hd3 Hh3 Hopen3 Ht3 E4) as (Hd4 & Hh4 & Ho4).
  split; [done|]. split; [done|]. intros m Hm. rewrite Ho4, Ho3, Ho2, Ho1 by done. done.
Qed.

(** ** The invariant of the sink *)

Record sink_inv (d0 : Disk) (s : RotatingFileSink) : Prop := {
  si_dir : dir_ok (rf_keep_files s) (rf_disk s) (rf_torn s) (rf_acked s);
  si_handle : handle_ok {| hd_open := rf_state s; hd_torn := rf_torn s |} (rf_disk s);
  si_max : 1 <= rf_max_bytes s <= M;
  si_outside : forall m, (rf_keep_files s < m)%nat -> at_slot (rf_disk s) m = at_slot d0 m
}.

Context (lines_short : forall env bytes, to_vec env = Some bytes -> len bytes < M).

Lemma rotating_emit_inv d0 env s : sink_inv d0 s -> sink_inv d0 (rotating_emit_envelope to_vec env s).
Proof.
  intros [Hd Hh Hm Ho]. unfold rotating_emit_envelope. destruct (to_vec env) as [bytes|] eqn:Ev; [|by split].
  destruct (try_emit _ _ _ _ _) as [[r h] d] eqn:E.
  assert (Hline : len (bytes ++ [10]) <= M) by (pose proof (lines_short env bytes Ev); rewrite len_app; unfold len at 2; simpl; lia).
  eapply try_emit_ok in E as (Hd' & Hh' & Ho'); [|lia | lia | done | by exists env | done | done].
  assert (Hout : forall m, (rf_keep_files s < m)%nat -> at_slot d m = at_slot d0 m)
    by (intros m Hm'; rewrite Ho' by done; auto).
  destruct h as [ho ht]. destruct r; (split; [exact Hd' | exact Hh' | exact Hm | exact Hout]).
Qed.

Lemma rotating_emit_one env s :
  let s' := rotating_emit_envelope to_vec env s in
  (len (rf_acked s') = len (rf_acked s) + 1 /\ rf_dropped s' = rf_dropped s) \/
  (len (rf_acked s') = len (rf_acked s) /\ rf_dropped s' = add64 1 (rf_dropped s)).
Proof.
  unfold rotating_emit_envelope. destruct (to_vec env) as [bytes|]; [|by right].
  destruct (try_emit _ _ _ _ _) as [[[]  h] d]; cbn -[len]; [left; by rewrite len_app | by right].
Qed.
End invariant.

#[global] Instance rotating_accounts to_vec : @AccountingSink RotatingFileSink (rotating_sink to_vec).
Proof.
  refine (@Build_AccountingSink _ _ (counter_good rf_dropped) (fun s => len (rf_acked s)) (fun _ => 1) _ _ _ _).
  - done.
  - by intros s [].
  - intros stamp e. apply counter_kept. intros s. apply rotating_emit_one.
  - intros stamp env. apply counter_kept. intros s. apply rotating_emit_one.
Defined.

(** ** Runs *)

(** [emit] for each event in turn. *)
Definition emit_all {S} `{!EventSink S} (evs : list (Stamp * EnforcementEvent)) (s : S) : S :=
  foldl (fun s ev => emit ev.1 ev.2 s) s evs.

(** A directory no writer left torn: each file the sink may use is whole lines, none
    longer than the bound. *)
Definition clean_start (J : list Z -> Prop) (M : Z) (keep : nat) (d : Disk) : Prop :=
  dk_removed d = [] /\
  forall n, (n <= keep)%nat -> len (at_slot d n) <= M + 1 /\ exists ls, framed J (at_slot d n) false ls [].

Section run.
Context (to_vec : EventEnvelope -> option (list Z)) (M : Z).
Notation emit_files := (@emit_all RotatingFileSink (rotating_sink to_vec)).

Lemma clean_older keep d : clean_start (record_text to_vec) M keep d ->
  forall n, (n <= keep)%nat -> Forall (fun f => len f <= M + 1) (older_from d n) /\
    exists LS, Forall2 (fun f l => framed (record_text to_vec) f false l []) (older_from d n) LS.
Proof.
  intros [_ Hc] n. induction n as [|n IH]; intros Hn; [by split; [|exists []]|].
  destruct IH as (Hs & LS & HL); [lia|]. destruct (Hc (S n) Hn) as (Hlen & ls & Hls).
  cbn [older_from]. unfold nonempty. destruct (is_empty (at_slot d (S n))); [eauto|].
  split; [by apply Forall_app; split; [apply Forall_singleton|] | by exists (ls :: LS); constructor].
Qed.

Lemma clean_inv max keep d : 1 <= M -> max <= M -> clean_start (record_text to_vec) M keep d ->
  sink_inv to_vec M d (rotating_new max keep d).
Proof.
  intros HM Hmax Hc. destruct (clean_older keep d Hc keep) as (Hs & LS & HL); [lia|].
  destruct Hc as [Hrm Hc]. destruct (Hc O) as (H0 & ls & Hls); [lia|].
  assert (Eh : history d keep = older_from d keep) by (unfold history; by rewrite Hrm).
  split; [| done | simpl; lia | done]. exists LS, ls, []. simpl.
  split; rewrite ?Eh; [done | done | apply sublist_nil_l | done | simpl; lia].
Qed.

Lemma emit_all_count evs s : 0 <= rf_dropped s -> rf_dropped s + len evs < U64 ->
  let s' := emit_files evs s in len (rf_acked s') + rf_dropped s' = len (rf_acked s) + rf_dropped s + len evs.
Proof.
  unfold emit_all. revert s. induction evs as [|ev evs IH]; intros s Hs Hlt; simpl; [unfold len; simpl; lia|].
  rewrite len_cons in *. pose proof (len_nonneg evs).
  assert (E : add64 1 (rf_dropped s) = rf_dropped s + 1) by (unfold add64; apply Z.mod_small; lia).
  destruct (rotating_emit_one to_vec (envelope ev.1 ev.2) s) as [[Ha Hd] | [Ha Hd]];
    (rewrite IH; [|rewrite ?Hd, ?E; simpl in *; lia..]); simpl in *; lia.
Qed.

Lemma emit_all_fixed evs s : rf_keep_files (emit_files evs s) = rf_keep_files s.
Proof.
  unfold emit_all. revert s. induction evs as [|ev evs IH]; intros s; [done|]. simpl. rewrite IH.
  unfold rotating_emit_envelope. destruct (to_vec _); [|done]. by destruct (try_emit _ _ _ _ _) as [[[] ?] ?].
Qed.

Lemma acked_in_lines keep d torn acked : (forall env bytes b, to_vec env = Some bytes -> b ∈ bytes -> 32 <= b) ->
  dir_ok to_vec M keep d torn acked -> acked `sublist_of` concat (map lines_of (history d keep ++ [at_slot d 0])).
Proof.
  intros Hp (LS & ls & tail & [D1 D2 D3 D4 D5]).
  assert (Hplain : forall r b, record_text to_vec r -> b ∈ r -> 32 <= b) by (intros r b [env He]; by apply (Hp env)).
  etrans; [done|]. rewrite map_app, concat_app. apply sublist_app.
  - clear D2 D3 D4 D5. induction D1 as [|f l fs LS Hf _ IH]; [done|]. simpl. apply sublist_app; [|done].
    rewrite (lines_of_framed _ Hplain _ _ _ _ Hf). simpl. by rewrite app_nil_r.
  - simpl. rewrite app_nil_r, (lines_of_framed _ Hplain _ _ _ _ D2). by apply sublist_inserts_r.
Qed.

Lemma older_from_elem d n m : (0 < m <= n)%nat -> at_slot d m <> [] -> at_slot d m ∈ older_from d n.
Proof.
  induction n as [|n IH]; intros Hm Hne; [lia|]. cbn [older_from]. apply elem_of_app.
  destruct (base.decide (m = S n)) as [->|]; [left | right; apply IH; [lia | done]].
  unfold nonempty. destruct (at_slot d (S n)); [done | set_solver].
Qed.

Lemma slot_facts keep d torn acked n : dir_ok to_vec M keep d torn acked -> (n <= keep)%nat -> 0 <= M ->
  len (at_slot d n) <= M + 1 /\
  exists ls tail, framed (record_text to_vec) (at_slot d n) (torn && bool_decide (n = 0%nat)) ls tail.
Proof.
  intros (LS & ls & tail & [D1 D2 D3 D4 D5]) Hn HM. destruct n as [|n].
  { split; [destruct torn; simpl in *; lia | exists ls, tail; by rewrite andb_true_r]. }
  rewrite andb_false_r. destruct (base.decide (at_slot d (S n) = [])) as [->|Hne].
  { split; [unfold len; simpl; lia | exists [], []; apply framed_nil]. }
  assert (Hin : at_slot d (S n) ∈ history d keep) by (apply elem_of_app; right; apply older_from_elem; [lia | done]).
  split; [exact (proj1 (Forall_forall _ _) D4 _ Hin)|].
  apply list_elem_of_lookup in Hin as [i Hi]. destruct (Forall2_lookup_l _ _ _ _ _ D1 Hi) as (l & _ & Hl). eauto.
Qed.
Context (lines_short : forall env bytes, to_vec env = Some bytes -> len bytes < M).

Lemma emit_all_inv d evs s : sink_inv to_vec M d s -> sink_inv to_vec M d (emit_files evs s).
Proof.
  unfold emit_all. revert s. induction evs as [|ev evs IH]; intros s Hs; [done|]. simpl. apply IH.
  by apply rotating_emit_inv.
Qed.
End run.

(** ** A healthy disk loses nothing *)

Definition has_active (d : Disk) : Prop := is_Some (dk_files d !! active_path).
Definition healthy (h : Handle) (d : Disk) : Prop := dk_faults d = [] /\ (hd_open h <> None -> has_active d).

Lemma call_healthy {A} (f : io A) d : dk_faults d = [] -> call f d = f d.
Proof. intros E. unfold call, mbind, io_bind, next_fault. by rewrite E. Qed.

Lemma rename_healthy i j d : dk_faults d = [] -> is_Some (dk_files d !! i) ->
  exists d', rename i j d = (Ok tt, d') /\ dk_faults d' = [] /\
    (i <> active_path -> j <> active_path -> dk_files d' !! active_path = dk_files d !! active_path).
Proof.
  intros Hf [b Hb]. unfold rename. rewrite call_healthy by done. rewrite Hb. eexists. split; [done|]. split; [done|].
  intros Hi Hj. simpl. unfold constant. by rewrite lookup_insert_ne, lookup_delete_ne.
Qed.

Lemma rotated_not_active n : rotated_path n <> active_path.
Proof. intros E. discriminate E. Qed.

Lemma shift_healthy n d : dk_faults d = [] ->
  exists d', shift_files n d = (Ok tt, d') /\ dk_faults d' = [] /\ dk_files d' !! active_path = dk_files d !! active_path.
Proof.
  revert d. induction n as [|n IH]; intros d Hf; cbn [shift_files]; [by exists d|].
  unfold mbind, io_bind, exists_file. case_bool_decide as Hp; [|by apply IH].
  destruct (rename_healthy _ (rotated_path (S (S n))) d Hf Hp) as (d1 & -> & Hf1 & Ha1).
  destruct (IH d1 Hf1) as (d2 & -> & Hf2 & Ha2). exists d2. split; [done|]. split; [done|].
  rewrite Ha2. apply Ha1; apply rotated_not_active.
Qed.

Lemma remove_healthy i d : dk_faults d = [] -> is_Some (dk_files d !! i) ->
  exists d', remove_file i d = (Ok tt, d') /\ dk_faults d' = [] /\
    (i <> active_path -> dk_files d' !! active_path = dk_files d !! active_path).
Proof.
  intros Hf [b Hb]. destruct d as [fs flt rm]; simpl in *. subst flt. unfold remove_file.
  rewrite call_healthy by done. simpl. rewrite Hb. eexists. split; [done|]. split; [done|].
  intros Hi. simpl. by rewrite lookup_delete_ne.
Qed.

Lemma rotate_healthy keep d : dk_faults d = [] -> has_active d ->
  exists d', rotate keep d = (Ok tt, d') /\ dk_faults d' = [].
Proof.
  intros Hf Ha. destruct keep as [|below]; cbn [rotate].
  { destruct (remove_healthy active_path d Hf Ha) as (d' & -> & H & _). eauto. }
  unfold mbind, io_bind, exists_file.
  assert (H1 : exists d1, (if bool_decide (is_Some (dk_files d !! rotated_path (S below)))
    then remove_file (rotated_path (S below)) else mret tt) d = (Ok tt, d1) /\ dk_faults d1 = [] /\ has_active d1).
  { case_bool_decide as Hp; [|by exists d].
    destruct (remove_healthy _ d Hf Hp) as (d1 & -> & H & E). exists d1. split; [done|]. split; [done|].
    unfold has_active. by rewrite E by apply rotated_not_active. }
  destruct H1 as (d1 & -> & Hf1 & Ha1). destruct (shift_healthy below d1 Hf1) as (d2 & -> & Hf2 & E2).
  destruct (rename_healthy active_path (rotated_path 1) d2 Hf2) as (d3 & -> & Hf3 & _); [by rewrite E2|]. eauto.
Qed.

Lemma open_healthy d : dk_faults d = [] ->
  exists n d', open_active d = (Ok n, d') /\ dk_faults d' = [] /\ has_active d'.
Proof.
  intros Hf. unfold open_active, mbind, io_bind, open_append, file_len.
  rewrite call_healthy by done. rewrite call_healthy by done. eexists _, _. split; [done|]. split; [done|].
  unfold has_active. simpl. unfold constant. rewrite lookup_insert_eq. by eexists.
Qed.

Lemma write_healthy bytes d : dk_faults d = [] ->
  exists d', write_all_file active_path bytes d = (Ok tt, d') /\ dk_faults d' = [] /\ has_active d'.
Proof.
  intros Hf. unfold write_all_file, mbind, io_bind, next_fault. rewrite Hf. eexists. split; [done|].
  split; [done|]. unfold has_active. simpl. unfold constant. rewrite lookup_insert_eq. by eexists.
Qed.

(** The stages before the write: they answer, and leave a handle on an existing file. *)
Lemma stages_healthy max keep line h d : healthy h d ->
  exists n1 h1 d1 n2 h2 d2 n3 h3 d3, ensure_open h d = (Ok n1, h1, d1) /\ end_torn_line n1 h1 d1 = (Ok n2, h2, d2) /\
    rotate_if_needed max keep line n2 h2 d2 = (Ok n3, h3, d3) /\ dk_faults d3 = [] /\ has_active d3.
Proof.
  intros [Hf Ha].
  assert (H1 : exists n1 h1 d1, ensure_open h d = (Ok n1, h1, d1) /\ dk_faults d1 = [] /\ has_active d1).
  { unfold ensure_open. destruct (hd_open h) as [n|]; [eexists _, _, _; split; [done|]; auto|].
    destruct (open_healthy d Hf) as (n & d' & -> & H & H'). by eexists _, _, _. }
  destruct H1 as (n1 & h1 & d1 & E1 & Hf1 & Ha1).
  assert (H2 : exists n2 h2 d2, end_torn_line n1 h1 d1 = (Ok n2, h2, d2) /\ dk_faults d2 = [] /\ has_active d2).
  { unfold end_torn_line. destruct (hd_torn h1); [destruct (0 <? n1)|]; [|by eexists _, _, _..].
    destruct (write_healthy [10] d1 Hf1) as (d' & -> & H & H'). by eexists _, _, _. }
  destruct H2 as (n2 & h2 & d2 & E2 & Hf2 & Ha2).
  assert (H3 : exists n3 h3 d3, rotate_if_needed max keep line n2 h2 d2 = (Ok n3, h3, d3) /\ dk_faults d3 = [] /\ has_active d3).
  { unfold rotate_if_needed. destruct (needs_rotation max n2 line); [|by eexists _, _, _].
    unfold mbind, io_bind. destruct (rotate_healthy keep d2 Hf2 Ha2) as (d' & -> & Hf').
    destruct (open_healthy d' Hf') as (n & d'' & -> & H & H'). by eexists _, _, _. }
  destruct H3 as (n3 & h3 & d3 & E3 & Hf3 & Ha3). by eexists _, _, _, _, _, _, _, _, _.
Qed.

Lemma try_emit_healthy max keep line h d : healthy h d ->
  exists h' d', try_emit max keep line h d = (Ok tt, h', d') /\ healthy h' d'.
Proof.
  intros Hh. destruct (stages_healthy max keep line h d Hh)
    as (n1 & h1 & d1 & n2 & h2 & d2 & n3 & h3 & d3 & E1 & E2 & E3 & Hf3 & Ha3).
  unfold try_emit. rewrite E1, E2, E3. unfold write_line.
  destruct (write_healthy line d3 Hf3) as (d4 & -> & Hf4 & Ha4). by eexists _, _.
Qed.

Lemma emit_all_healthy to_vec evs s : (forall env, is_Some (to_vec env)) ->
  healthy {| hd_open := rf_state s; hd_torn := rf_torn s |} (rf_disk s) ->
  rf_dropped (@emit_all _ (rotating_sink to_vec) evs s) = rf_dropped s.
Proof.
  intros Hv. unfold emit_all. revert s. induction evs as [|ev evs IH]; intros s Hs; [done|]. simpl.
  assert (H : exists h d, rotating_emit_envelope to_vec (envelope ev.1 ev.2) s = s
    {{ rf_state := hd_open h; rf_torn := hd_torn h; rf_disk := d;
       rf_acked := rf_acked s ++ [default [] (to_vec (envelope ev.1 ev.2))] }} /\ healthy h d).
  { unfold rotating_emit_envelope. destruct (Hv (envelope ev.1 ev.2)) as [bytes ->].
    destruct (try_emit_healthy (rf_max_bytes s) (rf_keep_files s) (bytes ++ [10]) _ _ Hs) as (h & d & -> & Hh).
    exists h, d. split; [done | done]. }
  destruct H as ([ho ht] & d & -> & Hh). rewrite IH by exact Hh. by destruct s.
Qed.

(** ** The theorems *)

Section theorems.
Context (to_vec : EventEnvelope -> option (list Z)) (M max : Z) (keep : nat) (d : Disk).
Notation emit_files := (@emit_all RotatingFileSink (rotating_sink to_vec)).

(** For any calls that fail and however far a failed write got, every line of every
    file the sink writes is a record or the beginning of one, never two records glued;
    the records whose write was reported as done are whole lines, in order, of the files
    removed by rotation followed by those still there; every event is one of these or is
    counted as a failed write; and none is when no call fails. *)
Lemma records_are_whole_lines (evs : list (Stamp * EnforcementEvent)) :
  (forall env bytes b, to_vec env = Some bytes -> b ∈ bytes -> 32 <= b) ->
  (forall env bytes, to_vec env = Some bytes -> len bytes < M) ->
  1 <= M -> max <= M -> clean_start (record_text to_vec) M keep d -> len evs < U64 ->
  let s := emit_files evs (rotating_new max keep d) in
  (forall n l, (n <= keep)%nat -> l ∈ lines_of (at_slot (rf_disk s) n) -> piece (record_text to_vec) l) /\
  rf_acked s `sublist_of` concat (map lines_of (history (rf_disk s) keep ++ [at_slot (rf_disk s) 0])) /\
  len (rf_acked s) + rf_dropped s = len evs /\
  (dk_faults d = [] -> (forall env, is_Some (to_vec env)) -> rf_dropped s = 0).
Proof.
  intros Hp Hl HM Hmax Hc Hn s.
  assert (Hplain : forall r b, record_text to_vec r -> b ∈ r -> 32 <= b) by (intros r b [env He]; by apply (Hp env)).
  pose proof (emit_all_inv to_vec M Hl d evs _ (clean_inv to_vec M max keep d HM Hmax Hc)) as [Hd _ _ _].
  fold s in Hd. assert (Ek : rf_keep_files s = keep) by (unfold s; by rewrite emit_all_fixed). rewrite Ek in Hd.
  split; [|split; [|split]].
  - intros n l Hk Hin. destruct (slot_facts to_vec M keep _ _ _ n Hd Hk) as (_ & ls & tail & Hf); [lia|].
    rewrite (lines_of_framed _ Hplain _ _ _ _ Hf) in Hin.
    destruct Hf as [_ Hls Ht _]. apply elem_of_app in Hin as [Hin | Hin].
    + exact (proj1 (Forall_forall _ _) Hls l Hin).
    + destruct tail; simpl in Hin; set_solver.
  - by apply (acked_in_lines to_vec M keep _ (rf_torn s)).
  - unfold s. by rewrite emit_all_count by (simpl; lia).
  - intros Hf Hv. unfold s. by rewrite emit_all_healthy.
Qed.

(** Whatever fails, each file of the sink stays within one byte of the larger of the
    configured size and the longest line, files beyond the configured number are never
    touched, and so the directory stays within that many times the bound. *)
Lemma export_disk_is_bounded (evs : list (Stamp * EnforcementEvent)) :
  (forall env bytes, to_vec env = Some bytes -> len bytes < M) ->
  1 <= M -> max <= M -> clean_start (record_text to_vec) M keep d ->
  let s := emit_files evs (rotating_new max keep d) in
  (forall n, (n <= keep)%nat -> len (at_slot (rf_disk s) n) <= M + 1) /\
  (forall n, (keep < n)%nat -> at_slot (rf_disk s) n = at_slot d n) /\
  foldr Z.add 0 (map (fun n => len (at_slot (rf_disk s) n)) (seq 0 (S keep))) <= Z.of_nat (S keep) * (M + 1).
Proof.
  intros Hl HM Hmax Hc s.
  pose proof (emit_all_inv to_vec M Hl d evs _ (clean_inv to_vec M max keep d HM Hmax Hc)) as [Hd _ _ Ho].
  fold s in Hd, Ho. assert (Ek : rf_keep_files s = keep) by (unfold s; by rewrite emit_all_fixed).
  rewrite Ek in Hd, Ho.
  assert (Hslot : forall n, (n <= keep)%nat -> len (at_slot (rf_disk s) n) <= M + 1)
    by (intros n Hn; eapply slot_facts; [done | done | lia]).
  split; [done|]. split; [done|].
  assert (Hsum : forall l, Forall (fun n => (n <= keep)%nat) l ->
    foldr Z.add 0 (map (fun n => len (at_slot (rf_disk s) n)) l) <= Z.of_nat (length l) * (M + 1)).
  { induction 1 as [|n l Hn _ IH]; cbn [map foldr length]; [lia|]. specialize (Hslot n Hn). lia. }
  rewrite <- (length_seq (S keep) 0) at 2. apply Hsum, Forall_forall. intros n Hn%elem_of_seq. lia.
Qed.
End theorems.

(** ** Concrete runs *)

Definition no_event : EnforcementEvent :=
  {| ee_policy := "p"; ee_rule := "no-shell"; ee_action := "kill"; ee_image_digest := None; ee_pod := "web";
     ee_namespace := "prod"; ee_comm := "sh"; ee_syscall := "execve"; ee_pid := 7; ee_tgid := 7; ee_executed := false;
     ee_respond_error := None; ee_labels_unknown := false; ee_path_unknown := false; ee_container_unknown := false;
     ee_waiver := None |}.

(** A serialiser that keeps one field. *)
Definition tiny_json (env : EventEnvelope) : option (list Z) :=
  Some (as_bytes (if en_degraded env then "{true}" else "{false}")).

Definition stamp_of (degraded : bool) : Stamp :=
  {| st_now := 0; st_ctx := set_degraded degraded (context_new "node-a" "observe") |}.

Definition empty_disk (faults : list (option nat)) : Disk :=
  {| dk_files := ∅; dk_faults := faults; dk_removed := [] |}.

Lemma empty_disk_clean J M keep faults : 0 <= M -> clean_start J M keep (empty_disk faults).
Proof.
  intros HM. split; [done|]. intros n _. unfold at_slot. simpl. rewrite lookup_empty. simpl.
  split; [unfold len; simpl; lia | exists []; apply framed_nil].
Qed.

Lemma tiny_json_plain env bytes b : tiny_json env = Some bytes -> b ∈ bytes -> 32 <= b.
Proof.
  intros [= <-] Hb. destruct (en_degraded env); revert b Hb; apply Forall_forall; vm_compute;
    repeat (apply Forall_cons; split; [discriminate|]); by apply Forall_nil.
Qed.

Lemma tiny_json_short env bytes : tiny_json env = Some bytes -> len bytes < 16.
Proof. intros [= <-]. by destruct (en_degraded env). Qed.

(** Three events; the second write fails after four bytes. *)
Definition torn_run : RotatingFileSink :=
  @emit_all _ (rotating_sink tiny_json)
    [(stamp_of false, no_event); (stamp_of true, no_event); (stamp_of false, no_event)]
    (rotating_new 16 1 (empty_disk [None; None; None; Some 4%nat])).

Example torn_run_files :
  (lines_of (at_slot (rf_disk torn_run) 1), lines_of (at_slot (rf_disk torn_run) 0), rf_dropped torn_run) =
  ([as_bytes "{false}"; as_bytes "{tru"], [as_bytes "{false}"], 1).
Proof. vm_compute. reflexivity. Qed.

Lemma records_are_whole_witness :
  rf_dropped torn_run = 1 /\
  (forall n l, (n <= 1)%nat -> l ∈ lines_of (at_slot (rf_disk torn_run) n) -> piece (record_text tiny_json) l) /\
  rf_acked torn_run `sublist_of`
    concat (map lines_of (history (rf_disk torn_run) 1 ++ [at_slot (rf_disk torn_run) 0])) /\
  len (rf_acked torn_run) + rf_dropped torn_run = 3.
Proof.
  split; [vm_compute; reflexivity|].
  destruct (records_are_whole_lines tiny_json 16 16 1 (empty_disk [None; None; None; Some 4%nat])
    [(stamp_of false, no_event); (stamp_of true, no_event); (stamp_of false, no_event)]
    tiny_json_plain tiny_json_short ltac:(lia) ltac:(lia) (empty_disk_clean _ 16 1 _ ltac:(lia)) ltac:(vm_compute; reflexivity))
    as (H1 & H2 & H3 & _).
  split; [exact H1|]. split; [exact H2 | exact H3].
Defined.

Lemma export_disk_is_bounded_witness :
  (forall n, (n <= 1)%nat -> len (at_slot (rf_disk torn_run) n) <= 17) /\
  len (at_slot (rf_disk torn_run) 1) = 13.
Proof.
  split; [|vm_compute; reflexivity].
  exact (proj1 (export_disk_is_bounded tiny_json 16 16 1 (empty_disk [None; None; None; Some 4%nat])
    [(stamp_of false, no_event); (stamp_of true, no_event); (stamp_of false, no_event)]
    tiny_json_short ltac:(lia) ltac:(lia) (empty_disk_clean _ 16 1 _ ltac:(lia)))).
Defined.

(** The flag that says a line is torn lives in the process: a sink started on a directory
    whose last write was torn glues its first record to the stub, and reports no loss. *)
Definition restarted_run : RotatingFileSink :=
  @emit_all _ (rotating_sink tiny_json) [(stamp_of false, no_event)]
    (rotating_new 64 1 (rf_disk (@emit_all _ (rotating_sink tiny_json) [(stamp_of true, no_event)]
      (rotating_new 64 1 (empty_disk [None; None; Some 4%nat]))))).

Lemma restart_glues_records :
  lines_of (at_slot (rf_disk restarted_run) 0) = [as_bytes "{tru{false}"] /\ rf_dropped restarted_run = 0.
Proof. vm_compute. done. Qed.
