(* ===== verification/ExportQueue.v ===== *)
(** * The export queue

    [QueueSink] of [crates/ferrum-export/src/queue.rs]: the bounded channel between the
    decision path and the writer thread, as a state machine whose steps interleave as the
    scheduler likes. The wrapped sink is any [EventSink]. *)

From coqutil Require Import Datatypes.RecordSetters.
From S2P Require Import Prelude RustStd RustText AgentState React Proto Export ExportFile.

Section queue.
Context {S : Type} `{!EventSink S}.

(** Where the writer thread is: in [recv_timeout], with an event in hand (taken by the
    drain loop or not), after a timeout, in the drain loop, past the last [try_recv], or
    gone with its end of the channel dropped. *)
Inductive Pc := Receiving | Holding (e : EnforcementEvent) (draining : bool) | TimedOut | Draining | Returning | Gone.

(** [qs_tx]: the sending end is alive, which it is until the [QueueSink] is dropped. *)
Record QueueSink := {
  qs_queue : list EnforcementEvent;
  qs_cap : nat;
  qs_pc : Pc;
  qs_tx : bool;
  qs_worker : bool;
  qs_stopping : bool;
  qs_inner : S;
  qs_queue_dropped : Z;
  qs_writer_lost : Z;
  qs_writer_dead : bool
}.

Definition queue_new (sink : S) (cap : nat) : QueueSink :=
  {| qs_queue := []; qs_cap := Nat.max cap 1; qs_pc := Receiving; qs_tx := true; qs_worker := true;
     qs_stopping := false; qs_inner := sink; qs_queue_dropped := 0; qs_writer_lost := 0; qs_writer_dead := false |}.

Inductive TrySend := Sent | Full | Disconnected.

(** [SyncSender::try_send]. *)
Definition try_send (q : QueueSink) : TrySend :=
  match qs_pc q with
  | Gone => Disconnected
  | _ => if (length (qs_queue q) <? qs_cap q)%nat then Sent else Full
  end.

Definition queue_emit (event : EnforcementEvent) (q : QueueSink) : QueueSink :=
  match try_send q with
  | Sent => q {{ qs_queue := qs_queue q ++ [event] }}
  | Full => q {{ qs_queue_dropped ::= add64 1 }}
  | Disconnected => q {{ qs_writer_lost ::= add64 1; qs_writer_dead := true }}
  end.

#[global] Instance queue_sink : EventSink QueueSink := {|
  emit := fun _ => queue_emit;
  emit_envelope := fun _ env => queue_emit (en_event env);
  export_write_failed_total := fun q => export_write_failed_total (qs_inner q);
  export_queue_dropped_total := qs_queue_dropped;
  export_writer_lost_total := qs_writer_lost;
  export_writer_dead := qs_writer_dead
|}.

(** [close]: the flag, and the handle to join is taken; it returns at once when there was
    none to take, else when the thread is gone. *)
Definition close (q : QueueSink) : QueueSink := q {{ qs_stopping := true; qs_worker := false }}.
Definition close_returned (had_worker : bool) (q : QueueSink) : bool :=
  negb had_worker || match qs_pc q with Gone => true | _ => false end.

(** ** The writer thread *)

Inductive WorkerAct :=
| WRecv                   (* recv_timeout: an event *)
| WTimeout                (* recv_timeout: none in time *)
| WDisconnected           (* recv_timeout: no sender left *)
| WCheck                  (* the stop flag, after a timeout *)
| WTryRecv                (* the drain loop *)
| WEmit (stamp : Stamp)   (* the event in hand goes to the sink *)
| WPanic                  (* the sink panics on it *)
| WReturn.                (* the closure returns and the receiver is dropped *)

Definition worker_step (a : WorkerAct) (q : QueueSink) : option QueueSink :=
  match a, qs_pc q with
  | WRecv, Receiving =>
      match qs_queue q with e :: rest => Some (q {{ qs_queue := rest; qs_pc := Holding e false }}) | [] => None end
  | WTimeout, Receiving =>
      match qs_queue q with [] => if qs_tx q then Some (q {{ qs_pc := TimedOut }}) else None | _ => None end
  | WDisconnected, Receiving =>
      match qs_queue q with [] => if qs_tx q then None else Some (q {{ qs_pc := Gone }}) | _ => None end
  | WCheck, TimedOut => Some (q {{ qs_pc := if qs_stopping q then Draining else Receiving }})
  | WTryRecv, Draining =>
      match qs_queue q with
      | e :: rest => Some (q {{ qs_queue := rest; qs_pc := Holding e true }})
      | [] => Some (q {{ qs_pc := Returning }})
      end
  | WEmit stamp, Holding e draining =>
      Some (q {{ qs_inner := emit stamp e (qs_inner q); qs_pc := if draining then Draining else Receiving }})
  | WPanic, Holding _ _ => Some (q {{ qs_queue := []; qs_pc := Gone }})
  | WReturn, Returning => Some (q {{ qs_queue := []; qs_pc := Gone }})
  | _, _ => None
  end.

(** ** Interleavings *)

Inductive Act := AEmit (e : EnforcementEvent) | AClose | ADrop | AWorker (a : WorkerAct).

Definition act (a : Act) (q : QueueSink) : option QueueSink :=
  match a with
  | AEmit e => if qs_tx q then Some (queue_emit e q) else None
  | AClose => if qs_tx q then Some (close q) else None
  | ADrop => if qs_tx q then Some (q {{ qs_tx := false }}) else None
  | AWorker w => worker_step w q
  end.

(** What a run did: the events given to [emit], those the channel took, those handed to
    the wrapped sink, and those that were in the thread or its channel when it ended. *)
Record Seen := {
  se_emitted : list EnforcementEvent;
  se_accepted : list EnforcementEvent;
  se_handed : list EnforcementEvent;
  se_vanished : list EnforcementEvent
}.

Definition nothing_seen : Seen := {| se_emitted := []; se_accepted := []; se_handed := []; se_vanished := [] |}.

Definition held (q : QueueSink) : list EnforcementEvent := match qs_pc q with Holding e _ => [e] | _ => [] end.
Definition in_flight (q : QueueSink) : list EnforcementEvent := held q ++ qs_queue q.

Definition see (a : Act) (q : QueueSink) (g : Seen) : Seen :=
  match a with
  | AEmit e =>
      let g := g {{ se_emitted := se_emitted g ++ [e] }} in
      match try_send q with Sent => g {{ se_accepted := se_accepted g ++ [e] }} | _ => g end
  | AWorker (WEmit _) => g {{ se_handed := se_handed g ++ held q }}
  | AWorker WPanic | AWorker WReturn => g {{ se_vanished := se_vanished g ++ in_flight q }}
  | _ => g
  end.

Inductive qrun (q0 : QueueSink) (g0 : Seen) : list Act -> Seen -> QueueSink -> Prop :=
| qrun_start : qrun q0 g0 [] g0 q0
| qrun_step acts g q a q' : qrun q0 g0 acts g q -> act a q = Some q' ->
    qrun q0 g0 (acts ++ [a]) (see a q g) q'.

(** ** Nothing leaves without a trace *)

Record queue_inv (cap : nat) (q : QueueSink) (g : Seen) : Prop := {
  qi_fifo : se_accepted g = se_handed g ++ in_flight q ++ se_vanished g;
  qi_vanished : se_vanished g <> [] -> qs_pc q = Gone;
  qi_gone : qs_pc q = Gone -> in_flight q = [];
  qi_room : (length (qs_queue q) <= qs_cap q)%nat;
  qi_cap : qs_cap q = Nat.max cap 1;
  qi_few : (length (se_vanished g) <= 1 + qs_cap q)%nat;
  qi_counted : len (se_emitted g) < U64 ->
    len (se_emitted g) = len (se_accepted g) + qs_queue_dropped q + qs_writer_lost q;
  qi_dropped : 0 <= qs_queue_dropped q;
  qi_lost : 0 <= qs_writer_lost q;
  qi_dead : 0 < qs_writer_lost q -> qs_writer_dead q = true
}.

Lemma queue_new_inv sink cap : queue_inv cap (queue_new sink cap) nothing_seen.
Proof. split; simpl; first [done | lia]. Qed.

Lemma not_gone_nothing_vanished cap q g : queue_inv cap q g -> qs_pc q <> Gone -> se_vanished g = [].
Proof. intros H Hp. destruct (se_vanished g) eqn:E; [done|]. exfalso. apply Hp, (qi_vanished _ _ _ H). by rewrite E. Qed.

Lemma emit_inv cap e q g : queue_inv cap q g -> queue_inv cap (queue_emit e q) (see (AEmit e) q g).
Proof.
  intros H. pose proof H as [H1 H2 H3 H4 H5 H10 H6 H7 H8 H9]. simpl. unfold queue_emit, see.
  assert (Hbound : len (se_accepted g) >= 0 /\ len (se_emitted g) >= 0) by (split; apply Z.le_ge, len_nonneg).
  destruct q as [queue qcap pc tx wk st inner dr lo dead]; destruct g as [em ac ha va]; simpl in *.
  unfold try_send, in_flight, held in *. simpl in *.
  assert (Hadd : forall c, 0 <= c -> c < U64 - 1 -> add64 1 c = c + 1)
    by (intros c ??; unfold add64; apply Z.mod_small; lia).
  assert (Hem : forall P : Prop, (len em < U64 - 1 -> P) -> len (em ++ [e]) < U64 -> P)
    by (intros P HP; rewrite len_app; unfold len at 2; simpl; intros; apply HP; lia).
  assert (Hlen : len (em ++ [e]) = len em + 1) by (by rewrite len_app).
  assert (Hgone : pc = Gone \/ pc <> Gone) by (destruct pc; auto). destruct Hgone as [->|Hpc].
  { split; simpl; unfold constant; try done.
    - apply Hem. intros Hlt. rewrite Hlen, Hadd by lia. specialize (H6 ltac:(lia)). lia.
    - apply add64_range. }
  assert (va = []) as ->.
  { destruct va; [done|]. exfalso. by apply Hpc, H2. }
  assert (Hsend : (match pc with Gone => Disconnected
    | _ => if (length queue <? qcap)%nat then Sent else Full end) =
    (if (length queue <? qcap)%nat then Sent else Full)) by (by destruct pc).
  rewrite Hsend. destruct (length queue <? qcap)%nat eqn:Ec.
  - split; simpl; unfold constant; try done.
    + rewrite H1, app_nil_r, !app_nil_r, <- !app_assoc. done.
    + rewrite length_app. simpl. apply Nat.ltb_lt in Ec. lia.
    + apply Hem. intros Hlt. rewrite Hlen, len_app. unfold len at 3. simpl. specialize (H6 ltac:(lia)). lia.
  - split; simpl; unfold constant; try done.
    + apply Hem. intros Hlt. rewrite Hlen, Hadd by lia. specialize (H6 ltac:(lia)). lia.
    + apply add64_range.
Qed.

Lemma worker_inv cap w q q' g : queue_inv cap q g -> worker_step w q = Some q' ->
  queue_inv cap q' (see (AWorker w) q g).
Proof.
  intros H E. pose proof H as [H1 H2 H3 H4 H5 H10 H6 H7 H8 H9].
  destruct q as [queue qcap pc tx wk st inner dr lo dead]; destruct g as [em ac ha va]; simpl in *.
  unfold in_flight, held in *. simpl in *.
  assert (Hva : pc <> Gone -> va = []) by (intros Hpc; destruct va; [done|]; exfalso; by apply Hpc, H2).
  destruct w, pc; simplify_eq/=; try (rewrite Hva in * by done); repeat case_match; simplify_eq/=;
    (split; simpl; unfold constant, in_flight, held; simpl; rewrite ?app_nil_r, <- ?app_assoc in *;
     try done; try lia; auto).
Qed.

Lemma qrun_inv sink cap acts g q : qrun (queue_new sink cap) nothing_seen acts g q -> queue_inv cap q g.
Proof.
  induction 1 as [|acts g q a q' _ IH E]; [apply queue_new_inv|]. destruct a as [e| | |w]; simpl in E.
  - destruct (qs_tx q); [|done]. injection E as <-. by apply emit_inv.
  - destruct (qs_tx q); [|done]. injection E as <-. destruct IH. by split.
  - destruct (qs_tx q); [|done]. injection E as <-. destruct IH. by split.
  - by apply worker_inv.
Qed.
(** ** The writer stops, and what it accepted is written *)

(** Steps the writer needs to end, once asked and left alone. *)
Definition steps_left (q : QueueSink) : nat :=
  let n := (2 * length (qs_queue q))%nat in
  match qs_pc q with
  | Receiving => n + 4
  | Holding _ false => n + 5
  | TimedOut => n + 3
  | Draining => n + 2
  | Holding _ true => n + 3
  | Returning => 1
  | Gone => 0
  end.

(** Steps of the writer other than a panic. *)
Definition worker_act (a : Act) : Prop := match a with AWorker WPanic => False | AWorker _ => True | _ => False end.

Lemma worker_progress (stamp : Stamp) q : qs_pc q <> Gone -> exists a q', worker_act a /\ act a q = Some q'.
Proof.
  intros Hp. destruct (qs_pc q) as [|e dr| | | |] eqn:E; [| | | | |done].
  - destruct (qs_queue q) as [|e rest] eqn:Eq; [destruct (qs_tx q) eqn:Et|].
    + exists (AWorker WTimeout). eexists. split; [done|]. simpl. by rewrite E, Eq, Et.
    + exists (AWorker WDisconnected). eexists. split; [done|]. simpl. by rewrite E, Eq, Et.
    + exists (AWorker WRecv). eexists. split; [done|]. simpl. by rewrite E, Eq.
  - exists (AWorker (WEmit stamp)). eexists. split; [done|]. simpl. by rewrite E.
  - exists (AWorker WCheck). eexists. split; [done|]. simpl. by rewrite E.
  - destruct (qs_queue q) as [|e rest] eqn:Eq; exists (AWorker WTryRecv); eexists; (split; [done|]); simpl; by rewrite E, Eq.
  - exists (AWorker WReturn). eexists. split; [done|]. simpl. by rewrite E.
Qed.

(** Nothing can be lost at the end: the thread is not past its last look at the channel
    with events still in it. *)
Definition settled (q : QueueSink) : Prop := qs_pc q = Returning \/ qs_pc q = Gone -> qs_queue q = [].

Lemma worker_descends a q q' g : worker_act a -> qs_stopping q = true -> settled q -> act a q = Some q' ->
  (1 + steps_left q' <= steps_left q)%nat /\ qs_stopping q' = true /\ settled q' /\
  se_handed (see a q g) ++ in_flight q' = se_handed g ++ in_flight q /\ se_vanished (see a q g) = se_vanished g.
Proof.
  intros Ha Hst Hset E. destruct a as [e| | |w]; [done..|].
  destruct q as [queue qcap pc tx wk st inner dr lo dead]; destruct g as [em ac ha va]; simpl in *. subst st.
  unfold settled, steps_left, in_flight, held in *. simpl in *.
  destruct w, pc; simpl in *; repeat case_match; simplify_eq/=; unfold constant in *; simplify_eq/=;
    (split; [lia|]); (split; [done|]); rewrite ?app_nil_r, <- ?app_assoc;
    try (split; [naive_solver|]); try (rewrite Hset by auto); rewrite ?app_nil_r; done.
Qed.

Lemma worker_run q0 g0 acts g q : qrun q0 g0 acts g q -> Forall worker_act acts ->
  qs_stopping q0 = true -> settled q0 ->
  (length acts + steps_left q <= steps_left q0)%nat /\ qs_stopping q = true /\ settled q /\
  se_handed g ++ in_flight q = se_handed g0 ++ in_flight q0 /\ se_vanished g = se_vanished g0.
Proof.
  induction 1 as [|acts g q a q' _ IH E]; intros Hf Hst Hset; [by repeat split; auto|].
  apply Forall_app in Hf as [Hf Ha]. rewrite Forall_singleton in Ha. destruct (IH Hf Hst Hset) as (H1 & H2 & H3 & H4 & H5).
  destruct (worker_descends a q q' g Ha H2 H3 E) as (G1 & G2 & G3 & G4 & G5).
  split; [rewrite length_app; simpl; lia|]. split; [done|]. split; [done|].
  split; [by rewrite G4 | by rewrite G5].
Qed.
(** Once the writer is asked to stop and no more events come, it is never stuck,
    every schedule of it ends after at most two steps per queued event and five more,
    and when it is gone every event it had accepted was handed to the sink, in order. *)
Lemma close_flushes_accepted (q0 : QueueSink) (g0 : Seen) (acts : list Act) (g : Seen) (q : QueueSink) :
  qs_stopping q0 = true -> settled q0 -> qrun q0 g0 acts g q -> Forall worker_act acts ->
  (length acts <= 2 * length (qs_queue q0) + 5)%nat /\
  (qs_pc q <> Gone -> exists a q', worker_act a /\ act a q = Some q') /\
  (qs_pc q = Gone -> se_handed g = se_handed g0 ++ in_flight q0 /\ se_vanished g = se_vanished g0).
Proof.
  intros Hst Hset Hrun Hacts. destruct (worker_run _ _ _ _ _ Hrun Hacts Hst Hset) as (H1 & H2 & H3 & H4 & H5).
  split; [unfold steps_left in H1; destruct (qs_pc q0) as [|? []| | | |]; lia|].
  split; [apply (worker_progress (stamp_of false))|].
  intros Hg. split; [|done]. rewrite <- H4. unfold in_flight, held. rewrite Hg, (H3 (or_intror Hg)). simpl.
  by rewrite app_nil_r.
Qed.
End queue.

Arguments QueueSink : clear implicits.

(** ** Every event is written or counted *)

Section accounting.
Context {S : Type} `{AccountingSink S}.
Implicit Types (q : QueueSink S) (g : Seen).

Lemma handed_at_most_emitted cap q g : queue_inv cap q g -> len (se_handed g) <= len (se_accepted g).
Proof.
  intros Hi. rewrite (qi_fifo _ _ _ Hi), len_app. pose proof (len_nonneg (in_flight q ++ se_vanished g)). lia.
Qed.

(** What the wrapped sink wrote or failed to write covers what it was handed. *)
Definition covers_at (s0 inner : S) (handed : list EnforcementEvent) : Prop :=
  sink_good inner /\ sink_width inner = sink_width s0 /\
  export_write_failed_total inner <= len handed * sink_width s0 /\
  len handed <= sink_written inner - sink_written s0 + export_write_failed_total inner.

Lemma covers_write s0 stamp e inner handed : covers_at s0 inner handed ->
  len (handed ++ [e]) * sink_width s0 < U64 -> covers_at s0 (emit stamp e inner) (handed ++ [e]).
Proof.
  intros (I1 & I2 & I3 & I4) Hlt. rewrite len_app in Hlt. unfold len at 2 in Hlt. simpl in Hlt.
  assert (Hlt' : export_write_failed_total inner < U64 - sink_width inner) by (rewrite I2; lia).
  destruct (emit_accounts stamp e inner I1 Hlt') as (A1 & A2 & A3 & A4 & A5).
  unfold covers_at. rewrite len_app. unfold len at 2 4. simpl. split; [done|]. split; [lia|]. lia.
Qed.

Lemma qrun_covers s0 cap acts g q : sink_good s0 -> export_write_failed_total s0 = 0 ->
  qrun (queue_new s0 cap) nothing_seen acts g q -> len (se_accepted g) * sink_width s0 < U64 - sink_width s0 ->
  covers_at s0 (qs_inner q) (se_handed g).
Proof.
  intros Hg0 H0 Hrun. induction Hrun as [|acts g q a q' Hrun IH E]; intros Hlt.
  { unfold covers_at. simpl. rewrite H0. split; [done|]. split; [done|]. unfold len. simpl. lia. }
  pose proof (qrun_inv _ _ _ _ _ Hrun) as Hi. pose proof (sink_width_pos s0 Hg0) as Hw.
  assert (Hmono : len (se_accepted g) <= len (se_accepted (see a q g))).
  { destruct g as [em ac ha va]. destruct a as [e| | |w]; simpl; [|lia..|destruct w; simpl; lia].
    destruct (try_send q); simpl; [unfold constant; rewrite len_app; unfold len; simpl; lia | lia..]. }
  specialize (IH ltac:(nia)). destruct a as [e| | |w]; simpl in E.
  - destruct (qs_tx q); [|done]. injection E as <-. unfold queue_emit. simpl. by destruct (try_send q), q, g.
  - destruct (qs_tx q); [|done]. injection E as <-. by destruct q.
  - destruct (qs_tx q); [|done]. injection E as <-. by destruct q.
  - pose proof (worker_inv cap w q q' g Hi E) as Hi'. pose proof (handed_at_most_emitted _ _ _ Hi') as Hle.
    destruct q as [queue qcap pc tx wk st inner dr lo dead]; destruct g as [em ac ha va].
    destruct w as [| | | | |stamp| |], pc as [|e dg| | | |]; simpl in E; repeat case_match; simplify_eq/=; try exact IH.
    all: apply covers_write; [exact IH|]; apply (Z.le_lt_trans _ (len ac * sink_width s0)); [|lia];
      apply Z.mul_le_mono_nonneg_r; [lia | exact Hle].
Qed.
(** C27: Whatever the interleaving of the decision path, the writer and a shutdown, and
    whatever the wrapped sink fails to write: every event given to [emit] is written by
    the sink, or in one of the three counters the agent exports, or still in the channel
    or the writer's hand, or was there when the writer ended. The last group is empty
    while the writer lives and never larger than the channel and one; events reach the
    sink in the order they were accepted. *)
Theorem no_event_silently_lost (s0 : S) (cap : nat) (acts : list Act) (g : Seen) (q : QueueSink S) :
  sink_good s0 -> export_write_failed_total s0 = 0 -> qrun (queue_new s0 cap) nothing_seen acts g q ->
  (len (se_emitted g) + 1) * sink_width s0 < U64 ->
  len (se_emitted g) <= (sink_written (qs_inner q) - sink_written s0)
    + export_write_failed_total q + export_queue_dropped_total q + export_writer_lost_total q
    + len (in_flight q) + len (se_vanished g) /\
  (se_vanished g <> [] -> qs_pc q = Gone) /\
  (length (in_flight q) <= 1 + Nat.max cap 1)%nat /\ (length (se_vanished g) <= 1 + Nat.max cap 1)%nat /\
  se_handed g `prefix_of` se_accepted g.
Proof.
  intros Hg H0 Hrun Hlt. pose proof (qrun_inv _ _ _ _ _ Hrun) as Hi. pose proof (sink_width_pos s0 Hg) as Hw.
  pose proof (len_nonneg (se_emitted g)). assert (Hem : len (se_emitted g) < U64) by nia.
  pose proof (qi_counted _ _ _ Hi Hem) as Hc. pose proof (qi_dropped _ _ _ Hi). pose proof (qi_lost _ _ _ Hi).
  assert (Hacc : len (se_accepted g) * sink_width s0 <= len (se_emitted g) * sink_width s0)
    by (apply Z.mul_le_mono_nonneg_r; lia).
  destruct (qrun_covers s0 cap acts g q Hg H0 Hrun ltac:(lia)) as (_ & _ & _ & Hcov).
  pose proof (qi_fifo _ _ _ Hi) as Hf. pose proof (f_equal len Hf) as Hfl. rewrite !len_app in Hfl.
  pose proof (qi_room _ _ _ Hi) as Hroom. pose proof (qi_few _ _ _ Hi) as Hfew. rewrite (qi_cap _ _ _ Hi) in *.
  split; [simpl; lia|]. split; [apply (qi_vanished _ _ _ Hi)|].
  split; [unfold in_flight, held; rewrite length_app; destruct (qs_pc q); simpl; lia|]. split; [done|].
  eexists. exact Hf.
Qed.

(** ** The agent notices *)

Definition lost_total (st : SinkState) : Z :=
  sat_add (sat_add (sk_queue_dropped st) (sk_write_failed st)) (sk_writer_lost st).

(** An event the channel did not take moves what the agent compares, so its next look at
    the sink marks the export as losing events, or as dead. *)
Lemma refused_event_is_noticed stamp e q a now :
  try_send q <> Sent -> 0 <= qs_queue_dropped q -> 0 <= qs_writer_lost q ->
  0 <= export_write_failed_total (qs_inner q) ->
  qs_queue_dropped q + export_write_failed_total (qs_inner q) + qs_writer_lost q < U64 - 1 ->
  ag_export_lost_seen a <= lost_total (sink_state q) ->
  ag_export_lost_at (note_export_state_at a (sink_state (emit stamp e q)) now) = Some now /\
  (try_send q = Disconnected -> ag_export_dead (note_export_state_at a (sink_state (emit stamp e q)) now) = true).
Proof.
  intros Hs H1 H2 H3 Hlt Hseen. unfold lost_total, sat_add in Hseen. simpl in Hseen.
  assert (Hadd : forall c, 0 <= c -> c < U64 - 1 -> add64 1 c = c + 1)
    by (intros c ??; unfold add64; apply Z.mod_small; lia).
  change (emit stamp e q) with (queue_emit e q). unfold queue_emit, note_export_state_at.
  destruct q as [queue qcap pc tx wk st inner dr lo dead]; simpl in *.
  destruct (try_send _); [done | | ]; unfold sat_add, constant; simpl; rewrite Hadd by lia.
  - split; [|done]. destruct dead, a; simpl in *; (rewrite (proj2 (Z.ltb_lt _ _)) by lia); done.
  - destruct a; simpl in *; (rewrite (proj2 (Z.ltb_lt _ _)) by lia); done.
Qed.
End accounting.

(** ** Concrete runs *)

Section replay.
Context {S : Type} `{!EventSink S}.

Fixpoint replay (acts : list Act) (q : QueueSink S) (g : Seen) : option (QueueSink S * Seen) :=
  match acts with
  | [] => Some (q, g)
  | a :: acts' => q' ← act a q; replay acts' q' (see a q g)
  end.

Lemma qrun_cons q0 g0 a q1 acts g q : act a q0 = Some q1 -> qrun q1 (see a q0 g0) acts g q ->
  qrun q0 g0 (a :: acts) g q.
Proof.
  intros E Hr. induction Hr as [|acts g q b q' _ IH Eb].
  - apply (qrun_step _ _ [] g0 q0 a q1 (qrun_start q0 g0) E).
  - exact (qrun_step _ _ (a :: acts) g q b q' IH Eb).
Qed.

Lemma replay_run acts q0 g0 q g : replay acts q0 g0 = Some (q, g) -> qrun q0 g0 acts g q.
Proof.
  revert q0 g0. induction acts as [|a acts IH]; intros q0 g0; simpl; [intros [= <- <-]; constructor|].
  destruct (act a q0) as [q1|] eqn:E; [|done]. intros H. eapply qrun_cons; [exact E | by apply IH].
Qed.
End replay.

(** The chain the agent builds: the queue over a fan-out over the rotating file. *)
#[local] Instance tiny_file : EventSink RotatingFileSink := rotating_sink tiny_json.
#[local] Instance tiny_file_accounts : AccountingSink RotatingFileSink := rotating_accounts tiny_json.

Definition chain (faults : list (option nat)) : FanoutSink RotatingFileSink :=
  {| fo_sinks := [rotating_new 64 1 (empty_disk faults)] |}.

Lemma chain_good faults : sink_good (chain faults).
Proof. split; [done|]. apply Forall_singleton. change (0 <= 0 < U64). unfold U64. lia. Qed.

Definition handle_one : list Act := [AEmit no_event; AWorker WRecv; AWorker (WEmit (stamp_of false))].
Definition shut_down : list Act := [AClose; AWorker WTimeout; AWorker WCheck; AWorker WTryRecv; AWorker WReturn].

(** A channel of one: the second event finds it full, the file refuses the first write,
    and the last event comes after the shutdown. *)
Definition busy_day : list Act :=
  AEmit no_event :: AEmit no_event :: [AWorker WRecv; AWorker (WEmit (stamp_of false))] ++ handle_one ++ shut_down ++
  [AEmit no_event].

Definition after_busy_day : QueueSink (FanoutSink RotatingFileSink) * Seen :=
  default (queue_new (chain []) 1, nothing_seen) (replay busy_day (queue_new (chain [Some 0%nat]) 1) nothing_seen).

Lemma no_event_silently_lost_witness :
  let '(q, g) := after_busy_day in
  (len (se_emitted g), export_write_failed_total q, export_queue_dropped_total q, export_writer_lost_total q) = (4, 1, 1, 1) /\
  sink_written (qs_inner q) = 1 /\
  len (se_emitted g) <= (sink_written (qs_inner q) - sink_written (chain [Some 0%nat]))
    + export_write_failed_total q + export_queue_dropped_total q + export_writer_lost_total q
    + len (in_flight q) + len (se_vanished g).
Proof.
  assert (Hr : replay busy_day (queue_new (chain [Some 0%nat]) 1) nothing_seen = Some after_busy_day)
    by (vm_compute; reflexivity).
  destruct after_busy_day as [q g] eqn:E.
  assert (Hq : q = fst after_busy_day /\ g = snd after_busy_day) by (by rewrite E).
  split; [|split]; [destruct Hq as [-> ->]; vm_compute; reflexivity.. |].
  refine (proj1 (no_event_silently_lost (chain [Some 0%nat]) 1 busy_day g q (chain_good _) _ (replay_run _ _ _ _ _ Hr) _)).
  - vm_compute. reflexivity.
  - destruct Hq as [-> ->]. vm_compute. reflexivity.
Defined.

Lemma close_flushes_witness :
  match replay [AEmit no_event; AEmit no_event; AClose] (queue_new memory_new 4) nothing_seen with
  | None => False
  | Some (q0, g0) =>
      let acts := AWorker WRecv :: AWorker (WEmit (stamp_of true)) :: AWorker WRecv :: AWorker (WEmit (stamp_of true)) ::
        [AWorker WTimeout; AWorker WCheck; AWorker WTryRecv; AWorker WReturn] in
      match replay acts q0 g0 with
      | None => False
      | Some (q, g) => length acts = 8%nat /\ qs_pc q = Gone /\ se_handed g = [no_event; no_event]
      end
  end.
Proof.
  destruct (replay [AEmit no_event; AEmit no_event; AClose] (queue_new memory_new 4) nothing_seen)
    as [[q0 g0]|] eqn:E0; [|by vm_compute in E0].
  intros acts. destruct (replay acts q0 g0) as [[q g]|] eqn:E1.
  2: { vm_compute in E0. injection E0 as <- <-. vm_compute in E1. done. }
  assert (Hq : qs_stopping q0 = true /\ settled q0 /\ in_flight q0 = [no_event; no_event] /\ se_handed g0 = [])
    by (vm_compute in E0; injection E0 as <- <-; repeat split; intros []; done).
  destruct Hq as (Hst & Hset & Hfl & Hh).
  assert (Hgone : qs_pc q = Gone)
    by (vm_compute in E0; injection E0 as <- <-; vm_compute in E1; by injection E1 as <- <-).
  split; [done|]. split; [done|].
  destruct (close_flushes_accepted q0 g0 acts g q Hst Hset (replay_run _ _ _ _ _ E1)) as (_ & _ & Hend);
    [by repeat constructor|].
  rewrite (proj1 (Hend Hgone)), Hfl, Hh. done.
Defined.

(** ** Two gaps of the shutdown *)

(** [close] waits for a pause: the stop flag is read only after a timeout, so as long as
    events keep coming the writer, asked to stop, goes on. *)
Lemma close_waits_for_a_pause (n : nat) :
  exists q g, qrun (queue_new memory_new 4) nothing_seen (AClose :: concat (replicate n handle_one)) g q /\
    qs_stopping q = true /\ close_returned true q = false /\ length (se_handed g) = n.
Proof.
  assert (Hloop : forall n (q : QueueSink MemorySink) g, qs_queue q = [] -> qs_cap q = 4%nat -> qs_pc q = Receiving ->
    qs_tx q = true -> qs_stopping q = true ->
    exists q' g', replay (concat (replicate n handle_one)) q g = Some (q', g') /\
      qs_stopping q' = true /\ qs_pc q' = Receiving /\ length (se_handed g') = (length (se_handed g) + n)%nat).
  { clear n. induction n as [|n IH]; intros q g H1 H2 H3 H4 H5; [exists q, g; repeat split; try done; lia|].
    destruct q as [queue qcap pc tx wk st inner dr lo dead], g as [em ac ha va]; simpl in *. subst.
    cbn. unfold constant. cbn.
    destruct (IH {| qs_queue := []; qs_cap := 4; qs_pc := Receiving; qs_tx := true; qs_worker := wk; qs_stopping := true;
      qs_inner := memory_emit (stamp_of false) no_event inner; qs_queue_dropped := dr; qs_writer_lost := lo;
      qs_writer_dead := dead |} {| se_emitted := em ++ [no_event]; se_accepted := ac ++ [no_event];
      se_handed := ha ++ [no_event]; se_vanished := va |}) as (q' & g' & E & Hs & Hp & Hn); [done..|].
    exists q', g'. split; [exact E|]. split; [done|]. split; [done|]. simpl in Hn. rewrite Hn, length_app. simpl. lia. }
  destruct (Hloop n (close (queue_new memory_new 4)) nothing_seen) as (q & g & E & Hs & Hp & Hn); [done..|].
  exists q, g. split; [eapply qrun_cons; [done | by apply replay_run]|].
  split; [done|]. split; [unfold close_returned; by rewrite Hp | done].
Qed.

(** An event accepted between the writer's last look at the channel and its return is
    neither written nor counted. *)
Lemma shutdown_race_loses_an_event :
  let acts := [AClose; AWorker WTimeout; AWorker WCheck; AWorker WTryRecv; AEmit no_event; AWorker WReturn] in
  match replay acts (queue_new memory_new 4) nothing_seen with
  | Some (q, g) => se_accepted g = [no_event] /\ ms_events (qs_inner q) = [] /\ in_flight q = [] /\
      lost_total (sink_state q) = 0 /\ export_writer_dead q = false
  | None => False
  end.
Proof. vm_compute. done. Qed.
