(* ===== verification/KernelMaps.v ===== *)
(** * Writing the policy into the kernel maps

    The map diffs and writes of [crates/ferrum-ebpf/src/kernel.rs], the republish of
    [crates/ferrum-agent/src/lib.rs] and its turn in the ring thread of [main.rs]. The
    handle holds what the kernel maps hold beside the mirror the code keeps; every map
    call takes its fate from a list, and the maps after each call are the instants at
    which the LSM hook may look. *)

From coqutil Require Import Datatypes.RecordSetters.
From S2P Require Import Prelude RustStd Ids Api Febp RuntimeEval Datapath KRules Loader Pods AgentState React.

Definition CGROUPS_MAX_ENTRIES : Z := 65536.
Definition MAP_CGROUPS : string := "ferrum_cgroups".
Definition MAP_SELECTED : string := "ferrum_selected".
Definition MAP_RULES : string := "ferrum_rules".

(** ** Plans *)

Record CgroupSyncPlan := { cp_insert : list Z; cp_remove : list Z }.
Record SyncStats := { ss_inserted : Z; ss_removed : Z; ss_entries : Z }.

Definition plan_is_empty (p : CgroupSyncPlan) : bool := is_empty (cp_insert p) && is_empty (cp_remove p).
Definition plan_len (p : CgroupSyncPlan) : Z := len (cp_insert p) + len (cp_remove p).

(** [BTreeSet] iteration: ascending. *)
Definition ascending (s : gset Z) : list Z := merge_sort Z.le (elements s).

Definition set_len (s : gset Z) : Z := Z.of_nat (size s).

Definition plan_map_sync (current next : gset Z) (map_name : string) : Result CgroupSyncPlan :=
  if CGROUPS_MAX_ENTRIES <? set_len next then
    Err (Degraded [Lit "cgroup sync: "; Num (set_len next); Lit " cgroups do not fit the "; Num CGROUPS_MAX_ENTRIES;
      Lit "-entry "; Str map_name;
      Lit " map; refusing a truncated sync that would leave arbitrary pods out of it"])
  else Ok {| cp_insert := ascending (next ∖ current); cp_remove := ascending (current ∖ next) |}.

Definition plan_cgroup_sync (current next : gset Z) : Result CgroupSyncPlan := plan_map_sync current next MAP_CGROUPS.

(** ** The handle and its maps *)

Record KernelHandle := {
  kh_rules : list KernelRule;       (* ferrum_rules *)
  kh_selected_map : gset Z;         (* the keys of ferrum_selected *)
  kh_cgroups_map : gset Z;          (* the keys of ferrum_cgroups *)
  kh_selected : gset Z;             (* the mirrors *)
  kh_containers : gset Z;
  kh_layout : ExecPathLayout;
  kh_faults : list (option string)
}.

(** A freshly attached handle: array slots are zeroes, hash maps are empty. *)
Definition handle_new (layout : ExecPathLayout) (faults : list (option string)) : KernelHandle :=
  {| kh_rules := repeat kernel_rule_empty (Z.to_nat MAX_KERNEL_RULES); kh_selected_map := ∅; kh_cgroups_map := ∅;
     kh_selected := ∅; kh_containers := ∅; kh_layout := layout; kh_faults := faults |}.

(** The instants passed, the answer, the handle left. *)
Definition kio (A : Type) : Type := KernelHandle -> list KernelHandle * Result A * KernelHandle.

#[global] Instance kio_ret : MRet kio := fun A a h => ([], Ok a, h).
#[global] Instance kio_bind : MBind kio := fun A B k m h =>
  let '(tr, r, h') := m h in
  match r with
  | Err e => (tr, Err e, h')
  | Ok a => let '(tr', r', h'') := k a h' in (tr ++ tr', r', h'')
  end.

Definition kio_fail {A} (e : FerrumError) : kio A := fun h => ([], Err e, h).

(** A map call that has effect [f] or fails with [e] and has none. *)
Definition map_call (name : string) (f : KernelHandle -> result string KernelHandle) : kio unit := fun h =>
  let '(fault, h) := match kh_faults h with [] => (None, h) | x :: xs => (x, h {{ kh_faults := xs }}) end in
  let fail e := ([h], Err (Degraded [Str name; Lit ": "; Str e]), h) in
  match fault with
  | Some e => fail e
  | None => match f h with Err e => fail e | Ok h' => ([h'], Ok tt, h') end
  end.

(** [Array::set]: past the last slot it is an error. *)
Definition write_rule_slot (index : nat) (rule : KernelRule) : kio unit := map_call MAP_RULES (fun h =>
  if (index <? length (kh_rules h))%nat then Ok (h {{ kh_rules := <[index := rule]> (kh_rules h) }}) else Err "E2BIG").

(** A hash map keyed by cgroup id with its mirror. *)
Record SetMap := {
  sm_name : string;
  sm_map : KernelHandle -> gset Z;
  sm_write : gset Z -> KernelHandle -> KernelHandle;
  sm_mirror : KernelHandle -> gset Z;
  sm_note : gset Z -> KernelHandle -> KernelHandle
}.

Definition containers_map : SetMap :=
  {| sm_name := MAP_CGROUPS; sm_map := kh_cgroups_map; sm_write := fun s h => h {{ kh_cgroups_map := s }};
     sm_mirror := kh_containers; sm_note := fun s h => h {{ kh_containers := s }} |}.
Definition selected_map : SetMap :=
  {| sm_name := MAP_SELECTED; sm_map := kh_selected_map; sm_write := fun s h => h {{ kh_selected_map := s }};
     sm_mirror := kh_selected; sm_note := fun s h => h {{ kh_selected := s }} |}.

(** [HashMap::insert]: a full map refuses a new key. [HashMap::remove]: an absent key is
    an error. *)
Definition insert_cgroup_id (m : SetMap) (id : Z) : kio unit := map_call (sm_name m) (fun h =>
  if bool_decide (id ∈ sm_map m h) || (set_len (sm_map m h) <? CGROUPS_MAX_ENTRIES)
  then Ok (sm_write m ({[id]} ∪ sm_map m h) h) else Err "E2BIG").
Definition remove_cgroup_id (m : SetMap) (id : Z) : kio unit := map_call (sm_name m) (fun h =>
  if bool_decide (id ∈ sm_map m h) then Ok (sm_write m (sm_map m h ∖ {[id]}) h) else Err "ENOENT").

(** [partial_sync]: the text names one map whichever was written. *)
Definition partial_sync (stats : SyncStats) (err : FerrumError) : FerrumError :=
  Degraded ([Str MAP_CGROUPS; Lit " sync applied "; Num (ss_removed stats); Lit " removes and "; Num (ss_inserted stats);
    Lit " inserts before failing ("; Num (ss_entries stats); Lit " entries live): "] ++ error_to_string err).

(** A map call, then a step of the mirror; on an error [partial_sync] with the mirror's
    length. *)
Definition sync_one (m : SetMap) (call : kio unit) (note : gset Z -> gset Z) (stats : SyncStats) : kio unit := fun h =>
  let '(tr, r, h') := call h in
  match r with
  | Err e => (tr, Err (partial_sync (stats {{ ss_entries := set_len (sm_mirror m h') }}) e), h')
  | Ok _ => (tr, Ok tt, sm_note m (note (sm_mirror m h')) h')
  end.

Fixpoint sync_removes (m : SetMap) (ids : list Z) (stats : SyncStats) : kio SyncStats :=
  match ids with
  | [] => mret stats
  | id :: ids' =>
      _ ← sync_one m (remove_cgroup_id m id) (fun s => s ∖ {[id]}) stats;
      sync_removes m ids' (stats {{ ss_removed ::= Z.add 1 }})
  end.

Fixpoint sync_inserts (m : SetMap) (ids : list Z) (stats : SyncStats) : kio SyncStats :=
  match ids with
  | [] => mret stats
  | id :: ids' =>
      _ ← sync_one m (insert_cgroup_id m id) (fun s => {[id]} ∪ s) stats;
      sync_inserts m ids' (stats {{ ss_inserted ::= Z.add 1 }})
  end.

(** Removals first, then insertions. *)
Definition sync_cgroups (m : SetMap) (plan : CgroupSyncPlan) : kio SyncStats :=
  stats ← sync_removes m (cp_remove plan) {| ss_inserted := 0; ss_removed := 0; ss_entries := 0 |};
  stats ← sync_inserts m (cp_insert plan) stats;
  (fun h => ([], Ok (stats {{ ss_entries := set_len (sm_mirror m h) }}), h)) : kio SyncStats.

Definition sync_container_cgroups : CgroupSyncPlan -> kio SyncStats := sync_cgroups containers_map.
Definition sync_selected_cgroups : CgroupSyncPlan -> kio SyncStats := sync_cgroups selected_map.

(** [for index in 0..n { write_rule_slot(index, slot(index))? }], from [i] on. *)
Fixpoint write_slots (slot : nat -> KernelRule) (i n : nat) : kio unit :=
  match n with
  | O => mret tt
  | S n' => _ ← write_rule_slot i (slot i); write_slots slot (S i) n'
  end.

Definition clear_kernel_rules : kio unit := write_slots (fun _ => kernel_rule_empty) 0 (Z.to_nat MAX_KERNEL_RULES).

(** What slot [i] gets: the rule, or the empty slot that retires its predecessor. *)
Definition slot_of (rules : list KernelRule) (i : nat) : KernelRule := default kernel_rule_empty (rules !! i).

(** The loop of [sync_kernel_rules]: an error part-way clears the map. *)
Fixpoint write_or_clear (rules : list KernelRule) (i n : nat) : kio unit :=
  match n with
  | O => mret tt
  | S n' => fun h =>
      let '(tr, r, h) := write_rule_slot i (slot_of rules i) h in
      match r with
      | Ok _ => let '(tr', r', h') := write_or_clear rules (S i) n' h in (tr ++ tr', r', h')
      | Err err =>
          let '(tr', cleared, h') := clear_kernel_rules h in
          (tr ++ tr', Err (Degraded (error_to_string err ++
             match cleared with
             | Ok _ => [Lit "; slots up to "; Num (Z.of_nat i);
                 Lit " held a mix of two policies and the map was cleared, so this node prevents nothing in kernel and keeps detecting"]
             | Err second => [Lit "; and clearing "; Str MAP_RULES; Lit " failed too ("] ++ error_to_string second ++
                 [Lit "), so the map holds a mix of two policies"]
             end)), h')
      end
  end.

Definition sync_kernel_rules (set : KernelRuleSet) : kio Z :=
  let filled := len (krs_rules set) in
  if MAX_KERNEL_RULES <? filled then
    kio_fail (Degraded [Num filled; Lit " kernel rules for "; Num MAX_KERNEL_RULES; Lit " slots in "; Str MAP_RULES;
      Lit "; compile_kernel_rules refuses this set and this handle will not truncate it"])
  else (_ ← write_or_clear (krs_rules set) 0 (Z.to_nat MAX_KERNEL_RULES); mret filled) : kio Z.

(** ** Republishing *)

Inductive KernelPolicy := Unchanged | Published (digest : option string).

Definition last_good_digest (a : Agent) : option string := lb_digest <$> ld_last_good (ag_loader a).

Definition kernel_rule_set_default : KernelRuleSet :=
  {| krs_rules := []; krs_excluded := []; krs_selected_only := false; krs_refused := None |}.

(** One step of the sequence, and what it records in the agent. *)
Definition publish_step (plan : CgroupSyncPlan) (step : KernelPublishStep) (a : Agent) : kio Agent :=
  match step with
  | RetireRules => _ ← clear_kernel_rules; mret a
  | PublishSelected => _ ← sync_selected_cgroups plan; mret a
  | PublishRules => fun h =>
      match kernel_rules_for_last_good_on a (kh_layout h) with
      | Some set => (installed ← sync_kernel_rules set; (mret (mark_kernel_rules_synced a set installed) : kio Agent)) h
      | None => ([], Ok (mark_kernel_rules_synced a kernel_rule_set_default 0), h)
      end
  end.

Fixpoint publish_steps (plan : CgroupSyncPlan) (steps : list KernelPublishStep) (a : Agent) : kio Agent :=
  match steps with
  | [] => mret a
  | step :: steps' => a ← publish_step plan step a; publish_steps plan steps' a
  end.

(** The agent records only in its last step, so an error leaves it as it was. *)
Definition republish_kernel_policy (a : Agent) (published : option string) : kio (KernelPolicy * Agent) := fun h =>
  let digest := last_good_digest a in
  let want := selected_cgroups_for_last_good a in
  match plan_map_sync (kh_selected h) want MAP_SELECTED with
  | Err e => ([], Err e, h)
  | Ok plan =>
      let steps := plan_kernel_publish digest published (negb (plan_is_empty plan)) in
      if is_empty steps then ([], Ok (Unchanged, a), h)
      else
        (a ← publish_steps plan steps a;
         (fun h => ([], Ok (Published digest, mark_selected_cgroups a (set_len (kh_selected h))), h)) : kio (KernelPolicy * Agent)) h
  end.

(** The part of a turn of the ring thread that brings the maps to the policy in force. *)
Definition kernel_turn (a : Agent) (published : option string) (h : KernelHandle)
    : list KernelHandle * Agent * option string * KernelHandle :=
  let '(tr, r, h') := republish_kernel_policy a published h in
  match r with
  | Ok (Unchanged, a') => (tr, a', published, h')
  | Ok (Published digest, a') => (tr, a', digest, h')
  | Err err => (tr, mark_kernel_rules_unsynced a (error_to_string err), None, h')
  end.

(** The closure of the ring thread that brings [ferrum_cgroups] to a published set;
    [render] is the text of a message. *)
Definition container_turn (render : msg -> string) (next : gset Z) (resolved_at : Z) (a : Agent) (h : KernelHandle)
    : list KernelHandle * Agent * KernelHandle :=
  match plan_cgroup_sync (kh_containers h) next with
  | Err err => ([], mark_container_map_error a (render (error_to_string err)), h)
  | Ok plan =>
      if plan_is_empty plan then ([], set_container_map_synced_at a (set_len (kh_containers h)) resolved_at, h)
      else
        let '(tr, r, h') := sync_container_cgroups plan h in
        match r with
        | Ok stats => (tr, set_container_map_synced_at a (ss_entries stats) resolved_at, h')
        | Err err => (tr, mark_container_map_error a (render (error_to_string err)), h')
        end
  end.

(** ** Reasoning about instants *)

(** Every instant of a run, and the handle it leaves, satisfies [P]. *)
Definition passes {A} (P : KernelHandle -> Prop) (x : list KernelHandle * Result A * KernelHandle) : Prop :=
  Forall P x.1.1 /\ P x.2.

(** What a run leaves when it succeeds. *)
Definition leaves {A} (Q : A -> KernelHandle -> Prop) (x : list KernelHandle * Result A * KernelHandle) : Prop :=
  forall a, x.1.2 = Ok a -> Q a x.2.

Section kio_lemmas.
Context {A B : Type}.
Implicit Types (m : kio A) (k : A -> kio B) (P : KernelHandle -> Prop).

Lemma passes_bind P m k h : passes P (m h) -> (forall a, (m h).1.2 = Ok a -> passes P (k a (m h).2)) ->
  passes P ((m ≫= k) h).
Proof.
  unfold passes, mbind, kio_bind. destruct (m h) as [[tr [a|e]] h1]; simpl; intros [H1 H2] Hk; [|done].
  destruct (Hk a eq_refl) as [K1 K2]. destruct (k a h1) as [[tr' r'] h2]. simpl in *.
  split; [by apply Forall_app | done].
Qed.

Lemma leaves_bind (Q : B -> KernelHandle -> Prop) m k h :
  (forall a, (m h).1.2 = Ok a -> leaves Q (k a (m h).2)) -> leaves Q ((m ≫= k) h).
Proof.
  unfold leaves, mbind, kio_bind. destruct (m h) as [[tr [a|e]] h1]; simpl; intros Hk b; [|done].
  specialize (Hk a eq_refl b). destruct (k a h1) as [[tr' r'] h2]. done.
Qed.
End kio_lemmas.

Lemma passes_impl {A} (P P' : KernelHandle -> Prop) (x : list KernelHandle * Result A * KernelHandle) :
  (forall h, P h -> P' h) -> passes P x -> passes P' x.
Proof. intros H [H1 H2]. split; [by eapply Forall_impl | auto]. Qed.

(** The maps of two handles agree; the faults may not. *)
Definition same_maps (h h' : KernelHandle) : Prop :=
  kh_rules h' = kh_rules h /\ kh_selected_map h' = kh_selected_map h /\ kh_selected h' = kh_selected h /\
  kh_layout h' = kh_layout h.

Lemma same_maps_refl h : same_maps h h.
Proof. done. Qed.

(** A map call fails and changes no map, or has its effect on the same maps. *)
Lemma map_call_cases name f h : exists h0, same_maps h h0 /\
  ((exists e, map_call name f h = ([h0], Err e, h0)) \/
   (exists h', f h0 = Ok h' /\ map_call name f h = ([h'], Ok tt, h'))).
Proof.
  unfold map_call. destruct h as [ru sm cm se co la fl]; simpl. destruct fl as [|[e|] fl].
  - eexists. split; [apply same_maps_refl|].
    destruct (f _) as [h'|e] eqn:E; [right; eauto | left; eauto].
  - exists {| kh_rules := ru; kh_selected_map := sm; kh_cgroups_map := cm; kh_selected := se; kh_containers := co;
      kh_layout := la; kh_faults := fl |}. split; [done|]. left. eauto.
  - exists {| kh_rules := ru; kh_selected_map := sm; kh_cgroups_map := cm; kh_selected := se; kh_containers := co;
      kh_layout := la; kh_faults := fl |}. split; [done|].
    change (constant fl (None :: fl)) with fl.
    destruct (f _) as [h'|e] eqn:E; [right; eauto | left; eauto].
Qed.

(** ** Writing the rule slots *)

(** Nothing but the rule slots moved, and each slot is an old one or one of [new]. *)
Definition slots_from (h0 : KernelHandle) (new : KernelRule -> Prop) (h : KernelHandle) : Prop :=
  kh_selected_map h = kh_selected_map h0 /\ kh_selected h = kh_selected h0 /\ kh_layout h = kh_layout h0 /\
  length (kh_rules h) = length (kh_rules h0) /\
  forall r, r ∈ kh_rules h -> r ∈ kh_rules h0 \/ new r.

Lemma slots_from_refl h new : slots_from h new h.
Proof. repeat split; auto. Qed.

Lemma slots_from_trans h0 h1 h2 new : slots_from h0 new h1 -> slots_from h1 new h2 -> slots_from h0 new h2.
Proof.
  intros (A1 & A2 & A3 & A4 & A5) (B1 & B2 & B3 & B4 & B5). repeat split; try congruence.
  intros r Hr. destruct (B5 r Hr) as [H|H]; auto.
Qed.

Lemma slots_from_same h h0 new : same_maps h h0 -> slots_from h new h0.
Proof. intros (E1 & E2 & E3 & E4). unfold slots_from. rewrite E1, E2, E3, E4. repeat split; auto. Qed.

Lemma slots_from_impl h0 (new new' : KernelRule -> Prop) h : (forall r, new r -> new' r) ->
  slots_from h0 new h -> slots_from h0 new' h.
Proof. intros Hi (A1 & A2 & A3 & A4 & A5). repeat split; try done. intros r Hr. destruct (A5 r Hr); auto. Qed.

Lemma write_slot_spec i rule h : let x := write_rule_slot i rule h in
  passes (slots_from h (eq rule)) x /\
  leaves (fun _ h' => (i < length (kh_rules h))%nat /\ kh_rules h' = <[i := rule]> (kh_rules h)) x.
Proof.
  unfold write_rule_slot.
  destruct (map_call_cases MAP_RULES (fun h => if (i <? length (kh_rules h))%nat
    then Ok (h {{ kh_rules := <[i := rule]> (kh_rules h) }}) else Err "E2BIG") h) as (h0 & Hs & [[e E] | (h' & Ef & E)]);
    rewrite E; clear E.
  - split; [|done]. split; [apply Forall_singleton|]; by apply slots_from_same.
  - destruct (Nat.ltb_spec i (length (kh_rules h0))) as [Hi|]; [|done]. injection Ef as <-.
    destruct Hs as (E1 & E2 & E3 & E4).
    assert (Hw : slots_from h (eq rule) (h0 {{ kh_rules := <[i := rule]> (kh_rules h0) }})).
    { destruct h0; simpl in *. subst. unfold slots_from, constant; simpl. repeat split; [by rewrite length_insert|].
      intros r Hr. apply list_elem_of_lookup in Hr as [j Hj].
      apply list_lookup_insert_Some in Hj as [(-> & -> & _) | [_ Hj]]; [by right|].
      left. apply list_elem_of_lookup. eauto. }
    split; [split; [by apply Forall_singleton | done]|]. intros [] _. rewrite <- E1. split; [done|]. by destruct h0.
Qed.

Lemma write_slots_spec slot n : forall i h, let x := write_slots slot i n h in
  passes (slots_from h (fun r => exists j, r = slot j)) x /\
  leaves (fun _ h' => length (kh_rules h') = length (kh_rules h) /\ ((i + n <= length (kh_rules h))%nat \/ n = O) /\
    forall j, kh_rules h' !! j = if bool_decide (i <= j < i + n)%nat then Some (slot j) else kh_rules h !! j) x.
Proof.
  induction n as [|n IH]; intros i h; cbn [write_slots].
  { split; [split; [constructor | apply slots_from_refl]|]. intros [] _. split; [done|]. split; [by right|].
    intros j. case_bool_decide; [lia | done]. }
  destruct (write_slot_spec i (slot i) h) as [Hp Hl]. split.
  - apply passes_bind.
    + eapply passes_impl; [|exact Hp]. intros x. apply slots_from_impl. intros r <-. eauto.
    + intros a Ha. destruct (IH (S i) (write_rule_slot i (slot i) h).2) as [Hp' _]. eapply passes_impl; [|exact Hp'].
      intros x. apply slots_from_trans. eapply slots_from_impl; [|exact (proj2 Hp)]. intros r <-. eauto.
  - apply leaves_bind. intros a Ha. destruct (Hl a Ha) as [Hi Hr].
    set (h1 := (write_rule_slot i (slot i) h).2) in *.
    intros [] Hok. destruct (proj2 (IH (S i) h1) tt Hok) as (L1 & L2 & L3).
    rewrite Hr, length_insert in *. split; [done|]. split; [left; destruct L2; lia|].
    intros j. rewrite L3. destruct (base.decide (j = i)) as [->|Hne].
    + rewrite bool_decide_eq_false_2 by lia. rewrite bool_decide_eq_true_2 by lia. by rewrite list_lookup_insert_eq.
    + rewrite list_lookup_insert_ne by done. case_bool_decide; case_bool_decide; first [done | lia].
Qed.

Definition FULL : nat := Z.to_nat MAX_KERNEL_RULES.

(** What the array map holds once [rules] are published. *)
Definition published_slots (rules : list KernelRule) : list KernelRule := map (slot_of rules) (seq 0 FULL).

Lemma published_lookup rules j : published_slots rules !! j = if bool_decide (j < FULL)%nat then Some (slot_of rules j) else None.
Proof.
  unfold published_slots. rewrite list_lookup_fmap. case_bool_decide as H.
  - rewrite (proj2 (lookup_seq 0 FULL j j)) by lia. done.
  - rewrite lookup_seq_ge by lia. done.
Qed.

Lemma rules_are_published rules (l : list KernelRule) : length l = FULL ->
  (forall j, (j < FULL)%nat -> l !! j = Some (slot_of rules j)) -> l = published_slots rules.
Proof.
  intros Hl H. apply list_eq. intros j. rewrite published_lookup. case_bool_decide as Hj; [auto|].
  apply lookup_ge_None. lia.
Qed.

Lemma published_nil : published_slots [] = repeat kernel_rule_empty FULL.
Proof. done. Qed.

Lemma published_elem rules r : r ∈ published_slots rules -> r = kernel_rule_empty \/ r ∈ rules.
Proof.
  intros Hr. apply list_elem_of_lookup in Hr as [j Hj]. rewrite published_lookup in Hj.
  case_bool_decide; [|done]. injection Hj as <-. unfold slot_of.
  destruct (rules !! j) eqn:E; [right; apply list_elem_of_lookup; eauto | by left].
Qed.

Lemma clear_spec h : let x := clear_kernel_rules h in
  passes (slots_from h (eq kernel_rule_empty)) x /\
  leaves (fun _ h' => length (kh_rules h) = FULL -> kh_rules h' = published_slots []) x.
Proof.
  unfold clear_kernel_rules. fold FULL.
  destruct (write_slots_spec (fun _ => kernel_rule_empty) FULL 0 h) as [Hp Hl]. split.
  - eapply passes_impl; [|exact Hp]. intros x. apply slots_from_impl. by intros r [_ ->].
  - intros [] Hok Hlen. destruct (Hl tt Hok) as (L1 & _ & L3). apply rules_are_published; [congruence|].
    intros j Hj. rewrite L3. by rewrite bool_decide_eq_true_2 by lia.
Qed.

Lemma write_or_clear_spec rules n : forall i h, let x := write_or_clear rules i n h in
  passes (slots_from h (fun r => r = kernel_rule_empty \/ r ∈ rules)) x /\
  leaves (fun _ h' => length (kh_rules h') = length (kh_rules h) /\
    forall j, kh_rules h' !! j = if bool_decide (i <= j < i + n)%nat then Some (slot_of rules j) else kh_rules h !! j) x.
Proof.
  assert (Hslot : forall i r, slot_of rules i = r -> r = kernel_rule_empty \/ r ∈ rules).
  { intros i r <-. unfold slot_of. destruct (rules !! i) eqn:E; [right; apply list_elem_of_lookup; eauto | by left]. }
  induction n as [|n IH]; intros i h; cbn [write_or_clear].
  { split; [split; [constructor | apply slots_from_refl]|]. intros [] _. split; [done|].
    intros j. case_bool_decide; [lia | done]. }
  destruct (write_slot_spec i (slot_of rules i) h) as [[Ht Hp] Hl]. unfold passes, leaves in *.
  destruct (write_rule_slot i (slot_of rules i) h) as [[tr r] h1]. simpl in Ht, Hp, Hl.
  assert (Hp1 : slots_from h (fun r => r = kernel_rule_empty \/ r ∈ rules) h1) by (eapply slots_from_impl; [|exact Hp]; eauto).
  assert (Ht1 : Forall (slots_from h (fun r => r = kernel_rule_empty \/ r ∈ rules)) tr)
    by (eapply Forall_impl; [exact Ht|]; intros x; apply slots_from_impl; eauto).
  destruct r as [[]|e].
  - destruct (IH (S i) h1) as [[It Ip] Il]. destruct (write_or_clear rules (S i) n h1) as [[tr' r'] h2].
    simpl in *. split.
    + split; [apply Forall_app; split; [done|]; eapply Forall_impl; [exact It|]; intros x|];
        eauto using slots_from_trans.
    + intros [] E. destruct (Il tt E) as (L1 & L3). destruct (Hl tt eq_refl) as [Hi Hr].
      rewrite Hr, length_insert in *. split; [done|]. intros j. rewrite L3.
      destruct (base.decide (j = i)) as [->|Hne].
      * rewrite bool_decide_eq_false_2 by lia. rewrite bool_decide_eq_true_2 by lia. by rewrite list_lookup_insert_eq.
      * rewrite list_lookup_insert_ne by done. case_bool_decide; case_bool_decide; first [done | lia].
  - destruct (clear_spec h1) as [[Ct Cp] _]. destruct (clear_kernel_rules h1) as [[tr' r'] h2]. simpl in *.
    split; [|done]. split; [apply Forall_app; split; [done|]; eapply Forall_impl; [exact Ct|]; intros x|];
      intros; (eapply slots_from_trans; [done|]); (eapply slots_from_impl; [|done]); intros q <-; by left.
Qed.

(** ** Writing a set of cgroups

    What a [SetMap] promises: its two writes move its own fields and keep a frame. *)
Class SetMapOk (m : SetMap) (frame : KernelHandle -> KernelHandle -> Prop) := {
  frame_refl h : frame h h;
  frame_trans h1 h2 h3 : frame h1 h2 -> frame h2 h3 -> frame h1 h3;
  frame_write h s : frame h (sm_write m s h);
  frame_note h s : frame h (sm_note m s h);
  frame_call h xs : frame h (h {{ kh_faults := xs }});
  map_write h s : sm_map m (sm_write m s h) = s;
  mirror_write h s : sm_mirror m (sm_write m s h) = sm_mirror m h;
  map_note h s : sm_map m (sm_note m s h) = sm_map m h;
  mirror_note h s : sm_mirror m (sm_note m s h) = s;
  map_call_field h xs : sm_map m (h {{ kh_faults := xs }}) = sm_map m h;
  mirror_call_field h xs : sm_mirror m (h {{ kh_faults := xs }}) = sm_mirror m h;
  faults_write h s : kh_faults (sm_write m s h) = kh_faults h;
  faults_note h s : kh_faults (sm_note m s h) = kh_faults h
}.

Definition selected_frame (h h' : KernelHandle) : Prop :=
  kh_rules h' = kh_rules h /\ kh_layout h' = kh_layout h /\
  kh_cgroups_map h' = kh_cgroups_map h /\ kh_containers h' = kh_containers h.
Definition containers_frame (h h' : KernelHandle) : Prop :=
  kh_rules h' = kh_rules h /\ kh_layout h' = kh_layout h /\
  kh_selected_map h' = kh_selected_map h /\ kh_selected h' = kh_selected h.

#[global] Instance selected_map_ok : SetMapOk selected_map selected_frame.
Proof.
  split; unfold selected_frame; try done; try (by intros []).
  intros h1 h2 h3 (? & ? & ? & ?) (? & ? & ? & ?). repeat split; congruence.
Qed.
#[global] Instance containers_map_ok : SetMapOk containers_map containers_frame.
Proof.
  split; unfold containers_frame; try done; try (by intros []).
  intros h1 h2 h3 (? & ? & ? & ?) (? & ? & ? & ?). repeat split; congruence.
Qed.

Section set_map.
Context (m : SetMap) (frame : KernelHandle -> KernelHandle -> Prop) `{!SetMapOk m frame}.

(** The map moved inside [bound], the rest of the handle kept. *)
Definition moved (bound : gset Z) (h x : KernelHandle) : Prop := frame h x /\ sm_map m x ⊆ bound.

(** One change of the map with its mirror: [g] is what the call does to the set. *)
Lemma sync_one_spec name (guard : KernelHandle -> bool) err (g : gset Z -> gset Z) stats bound h :
  sm_mirror m h = sm_map m h -> sm_map m h ⊆ bound -> g (sm_map m h) ⊆ bound ->
  let x := sync_one m (map_call name (fun h => if guard h then Ok (sm_write m (g (sm_map m h)) h) else Err err)) g stats h in
  passes (moved bound h) x /\ sm_mirror m x.2 = sm_map m x.2 /\ leaves (fun _ h' => sm_map m h' = g (sm_map m h)) x.
Proof.
  intros Hm Hb Hg. unfold sync_one, map_call.
  set (p := match kh_faults h with [] => (None, h) | x :: xs => (x, h {{ kh_faults := xs }}) end).
  assert (Hp : frame h p.2 /\ sm_map m p.2 = sm_map m h /\ sm_mirror m p.2 = sm_mirror m h).
  { unfold p. destruct (kh_faults h) as [|x xs]; simpl; [split; [apply frame_refl | done]|].
    split; [apply frame_call|]. split; [apply map_call_field | apply mirror_call_field]. }
  destruct p as [fault h0]; simpl in Hp; destruct Hp as (Hf & Em & Er).
  assert (Hfail : forall e : FerrumError, passes (moved bound h) ([h0], Err (A := unit) e, h0) /\
    sm_mirror m h0 = sm_map m h0 /\ leaves (fun _ h' => sm_map m h' = g (sm_map m h)) ([h0], Err (A := unit) e, h0)).
  { intros e. assert (Hm0 : moved bound h h0) by (split; [done | by rewrite Em]).
    split; [split; [by apply Forall_singleton | done]|]. split; [by rewrite Em, Er | done]. }
  destruct fault as [e|].
  { apply Hfail. }
  destruct (guard h0).
  2: { apply Hfail. }
  assert (Hfw : frame h (sm_write m (g (sm_map m h0)) h0)) by (eapply frame_trans; [done | apply frame_write]).
  unfold passes, leaves. cbn [fst snd]. rewrite mirror_write, Er, Hm, Em.
  split; [split|split].
  - apply Forall_singleton. split; [by rewrite Em in Hfw | by rewrite map_write].
  - split; [eapply frame_trans; [rewrite Em in Hfw; done | apply frame_note] | by rewrite map_note, map_write].
  - by rewrite mirror_note, map_note, map_write.
  - intros [] _. by rewrite map_note, map_write.
Qed.

Lemma moved_trans bound bound' h1 h2 h3 : bound' ⊆ bound -> moved bound h1 h2 -> moved bound' h2 h3 -> moved bound h1 h3.
Proof. intros Hb [F1 M1] [F2 M2]. split; [by eapply frame_trans | set_solver]. Qed.

Lemma sync_removes_spec ids : forall stats bound h, sm_mirror m h = sm_map m h -> sm_map m h ⊆ bound ->
  let x := sync_removes m ids stats h in
  passes (moved bound h) x /\ sm_mirror m x.2 = sm_map m x.2 /\
  leaves (fun _ h' => sm_map m h' = sm_map m h ∖ list_to_set ids) x.
Proof.
  induction ids as [|id ids IH]; intros stats bound h Hm Hb; cbn [sync_removes].
  { split; [split; [constructor | split; [apply frame_refl | done]]|]. split; [done|].
    intros a [= <-]. simpl. set_solver. }
  destruct (sync_one_spec (sm_name m) (fun h => bool_decide (id ∈ sm_map m h)) "ENOENT" (fun s => s ∖ {[id]})
    stats bound h Hm Hb) as (P1 & M1 & L1); [set_solver|].
  change (map_call (sm_name m) _) with (remove_cgroup_id m id) in P1, M1, L1.
  unfold mbind, kio_bind. unfold passes, leaves in *.
  destruct (sync_one m (remove_cgroup_id m id) (fun s => s ∖ {[id]}) stats h) as [[tr [[]|e]] h1]; simpl in *; [|done].
  destruct P1 as [P1 P1']. specialize (L1 tt eq_refl).
  destruct (IH (stats {{ ss_removed ::= Z.add 1 }}) bound h1 M1) as (P2 & M2 & L2); [apply P1'|].
  destruct (sync_removes m ids _ h1) as [[tr2 r2] h2]. simpl in *. destruct P2 as [P2 P2'].
  split; [split; [apply Forall_app; split; [done|]; eapply Forall_impl; [exact P2|]; intros x|];
    intros; (eapply moved_trans; [reflexivity | done..])|].
  split; [done|]. intros a E. rewrite (L2 a E), L1. set_solver.
Qed.

Lemma sync_inserts_spec ids : forall stats bound h, sm_mirror m h = sm_map m h -> sm_map m h ∪ list_to_set ids ⊆ bound ->
  let x := sync_inserts m ids stats h in
  passes (moved bound h) x /\ sm_mirror m x.2 = sm_map m x.2 /\
  leaves (fun _ h' => sm_map m h' = list_to_set ids ∪ sm_map m h) x.
Proof.
  induction ids as [|id ids IH]; intros stats bound h Hm Hb; cbn [sync_inserts].
  { split; [split; [constructor | split; [apply frame_refl | set_solver]]|]. split; [done|].
    intros a [= <-]. simpl. set_solver. }
  destruct (sync_one_spec (sm_name m)
    (fun h => bool_decide (id ∈ sm_map m h) || (set_len (sm_map m h) <? CGROUPS_MAX_ENTRIES)) "E2BIG"
    (fun s => {[id]} ∪ s) stats bound h Hm) as (P1 & M1 & L1); [set_solver..|].
  change (map_call (sm_name m) _) with (insert_cgroup_id m id) in P1, M1, L1.
  unfold mbind, kio_bind. unfold passes, leaves in *.
  destruct (sync_one m (insert_cgroup_id m id) (fun s => {[id]} ∪ s) stats h) as [[tr [[]|e]] h1]; simpl in *; [|done].
  destruct P1 as [P1 P1']. specialize (L1 tt eq_refl).
  destruct (IH (stats {{ ss_inserted ::= Z.add 1 }}) bound h1 M1) as (P2 & M2 & L2); [rewrite L1; set_solver|].
  destruct (sync_inserts m ids _ h1) as [[tr2 r2] h2]. simpl in *. destruct P2 as [P2 P2'].
  split; [split; [apply Forall_app; split; [done|]; eapply Forall_impl; [exact P2|]; intros x|];
    intros; (eapply moved_trans; [reflexivity | done..])|].
  split; [done|]. intros a E. rewrite (L2 a E), L1. set_solver.
Qed.

Lemma ascending_elements s : list_to_set (C := gset Z) (ascending s) = s.
Proof.
  unfold ascending. apply set_eq. intros x. rewrite elem_of_list_to_set, merge_sort_Permutation. apply elem_of_elements.
Qed.

(** A plan applied in full brings the map to the set it was made for; applied in part it
    stays between the two. *)
Lemma sync_cgroups_spec next name plan h : plan_map_sync (sm_mirror m h) next name = Ok plan ->
  sm_mirror m h = sm_map m h ->
  let x := sync_cgroups m plan h in
  passes (moved (sm_map m h ∪ next) h) x /\ sm_mirror m x.2 = sm_map m x.2 /\ leaves (fun _ h' => sm_map m h' = next) x.
Proof.
  unfold plan_map_sync. destruct (CGROUPS_MAX_ENTRIES <? set_len next); [done|]. intros [= <-] Hm.
  rewrite Hm. unfold sync_cgroups. cbn [cp_remove cp_insert].
  set (s0 := {| ss_inserted := 0; ss_removed := 0; ss_entries := 0 |}).
  destruct (sync_removes_spec (ascending (sm_map m h ∖ next)) s0 (sm_map m h ∪ next) h Hm) as (P1 & M1 & L1); [set_solver|].
  unfold mbind, kio_bind, passes, leaves in *.
  destruct (sync_removes m (ascending (sm_map m h ∖ next)) s0 h) as [[tr [st|e]] h1]; simpl in *; [|done].
  specialize (L1 st eq_refl). rewrite ascending_elements in L1. destruct P1 as [P1 P1'].
  destruct (sync_inserts_spec (ascending (next ∖ sm_map m h)) st (sm_map m h ∪ next) h1 M1) as (P2 & M2 & L2);
    [rewrite ascending_elements, L1; set_solver|].
  destruct (sync_inserts m (ascending (next ∖ sm_map m h)) st h1) as [[tr2 [st2|e]] h2]; simpl in *;
    destruct P2 as [P2 P2'].
  - specialize (L2 st2 eq_refl). rewrite ascending_elements, L1 in L2. rewrite app_nil_r.
    split; [split; [apply Forall_app; split; [done|]; eapply Forall_impl; [exact P2|]; intros x|];
      intros; (eapply moved_trans; [reflexivity | done..])|].
    split; [done|]. intros _ _. etrans; [exact L2|]. apply set_eq. intros c. rewrite !elem_of_union, !elem_of_difference.
    destruct (base.decide (c ∈ next)), (base.decide (c ∈ sm_map m h)); tauto.
  - split; [split; [apply Forall_app; split; [done|]; eapply Forall_impl; [exact P2|]; intros x|];
      intros; (eapply moved_trans; [reflexivity | done..])|]. done.
Qed.
End set_map.

(** ** What may be enforced

    The policies the turns so far saw in force: digest, program and the cgroups its
    selector chose. *)
Notation Policies := (list (string * EbpfSpec * gset Z)).

Definition policy_in_force (a : Agent) : Policies :=
  match ld_last_good (ag_loader a) with
  | None => []
  | Some b => [(lb_digest b, lb_spec b, selected_cgroups_for_last_good a)]
  end.

(** Slots of one program, or none. *)
Definition slots_within (spec : EbpfSpec) (h : KernelHandle) : Prop :=
  forall r, r ∈ kh_rules h -> r = kernel_rule_empty \/ r ∈ krs_rules (compile_kernel_rules_for spec (kh_layout h)).

(** Every selected cgroup was chosen by that program's selector. *)
Definition chosen_within (H : Policies) (spec : EbpfSpec) (h : KernelHandle) : Prop :=
  forall c, c ∈ kh_selected_map h -> exists d want, (d, spec, want) ∈ H /\ c ∈ want.

Definition no_slots (h : KernelHandle) : Prop := forall r, r ∈ kh_rules h -> r = kernel_rule_empty.

Definition known (H : Policies) (spec : EbpfSpec) : Prop := exists d want, (d, spec, want) ∈ H.

Definition coherent (H : Policies) (h : KernelHandle) : Prop :=
  no_slots h \/ exists spec, known H spec /\ slots_within spec h /\ chosen_within H spec h.

(** Between turns: the mirror is the map, and [published] names what the slots hold. *)
Record maps_inv (H : Policies) (published : option string) (h : KernelHandle) : Prop := {
  mi_len : length (kh_rules h) = FULL;
  mi_mirror : kh_selected h = kh_selected_map h;
  mi_coherent : coherent H h;
  mi_published : forall d, published = Some d -> exists spec want, (d, spec, want) ∈ H /\
    kh_rules h = published_slots (krs_rules (compile_kernel_rules_for spec (kh_layout h))) /\ chosen_within H spec h
}.

(** A digest names one program. *)
Definition digests_name_programs (H : Policies) : Prop :=
  forall d s1 w1 s2 w2, (d, s1, w1) ∈ H -> (d, s2, w2) ∈ H -> s1 = s2.

Lemma chosen_mono H H' spec h : H ⊆ H' -> chosen_within H spec h -> chosen_within H' spec h.
Proof. intros Hs Hc c Hin. destruct (Hc c Hin) as (d & w & Hd & Hw). eauto. Qed.

Lemma coherent_mono H H' h : H ⊆ H' -> coherent H h -> coherent H' h.
Proof.
  intros Hs [Hn | (spec & (d & w & H0) & H1 & H2)]; [by left | right].
  exists spec. split; [by exists d, w; apply Hs | eauto using chosen_mono].
Qed.

(** Retiring the rules keeps what was coherent so. *)
Lemma coherent_retiring H h x : coherent H h -> slots_from h (eq kernel_rule_empty) x -> coherent H x.
Proof.
  intros Hc (A1 & A2 & A3 & A4 & A5). destruct Hc as [Hn | (spec & H0 & H1 & H2)].
  - left. intros r Hr. destruct (A5 r Hr) as [Hr'|<-]; auto.
  - right. exists spec. split; [done|]. split.
    + intros r Hr. rewrite A3. destruct (A5 r Hr) as [Hr'|<-]; auto.
    + intros c. rewrite A1. apply H2.
Qed.

(** With no rules in the map the selected set may be anything. *)
Lemma coherent_unruled H h x : no_slots h -> selected_frame h x -> coherent H x.
Proof. intros Hn (E & _). left. intros r. rewrite E. apply Hn. Qed.

Lemma coherent_publishing H spec h x : no_slots h -> known H spec -> chosen_within H spec h ->
  slots_from h (fun r => r = kernel_rule_empty \/ r ∈ krs_rules (compile_kernel_rules_for spec (kh_layout h))) x ->
  coherent H x.
Proof.
  intros Hn Hk Hc (A1 & A2 & A3 & A4 & A5). right. exists spec. split; [done|]. split.
  - intros r Hr. rewrite A3. destruct (A5 r Hr) as [Hr'|Hr']; [left; auto | done].
  - intros c. rewrite A1. apply Hc.
Qed.

(** Pods moving under one policy. *)
Lemma coherent_moving H spec want d h x : slots_within spec h -> chosen_within H spec h -> (d, spec, want) ∈ H ->
  moved selected_map selected_frame (kh_selected_map h ∪ want) h x -> coherent H x.
Proof.
  intros Hs Hc Hd [(E1 & E2 & _) Hm]. right. exists spec. split; [by exists d, want|]. split.
  - intros r. rewrite E1, E2. apply Hs.
  - intros c Hin. apply Hm, elem_of_union in Hin as [Hin|Hin]; [by apply Hc | eauto].
Qed.

Lemma policy_in_force_spec a : 
  (policy_in_force a = [] /\ last_good_digest a = None /\ selected_cgroups_for_last_good a = ∅ /\
   forall layout, kernel_rules_for_last_good_on a layout = None) \/
  exists d spec, policy_in_force a = [(d, spec, selected_cgroups_for_last_good a)] /\ last_good_digest a = Some d /\
    forall layout, kernel_rules_for_last_good_on a layout = Some (compile_kernel_rules_for spec layout).
Proof.
  unfold policy_in_force, last_good_digest, kernel_rules_for_last_good_on, selected_cgroups_for_last_good.
  destruct (ld_last_good (ag_loader a)) as [b|]; [right; by eexists _, _ | by left].
Qed.

Lemma compiled_count spec layout : len (krs_rules (compile_kernel_rules_for spec layout)) <= MAX_KERNEL_RULES.
Proof.
  destruct (krs_refused (compile_kernel_rules_for spec layout)) eqn:E.
  - unfold compile_kernel_rules_for in *. repeat case_match; simpl in *; try done.
  - apply compile_accepted in E. apply E.
Qed.

(** ** One turn

    [triple Pre I m Q]: from [Pre], every instant of [m] satisfies [I], the handle it
    leaves is [sound], and where it succeeds [Q] holds. *)

Section logic.
Context (layout : ExecPathLayout).

Definition sound (h : KernelHandle) : Prop :=
  length (kh_rules h) = FULL /\ kh_selected h = kh_selected_map h /\ kh_layout h = layout.

Definition triple {A} (Pre I : KernelHandle -> Prop) (m : kio A) (Q : A -> KernelHandle -> Prop) : Prop :=
  forall h, Pre h -> passes I (m h) /\ sound (m h).2 /\ leaves Q (m h).

Lemma triple_bind {A B} Pre I (m : kio A) (k : A -> kio B) Q R :
  triple Pre I m Q -> (forall a, triple (Q a) I (k a) R) -> triple Pre I (m ≫= k) R.
Proof.
  intros Hm Hk h Hpre. destruct (Hm h Hpre) as (P1 & S1 & L1).
  assert (Hnext : forall a, (m h).1.2 = Ok a ->
    passes I (k a (m h).2) /\ sound (k a (m h).2).2 /\ leaves R (k a (m h).2)).
  { intros a Ha. apply Hk, L1, Ha. }
  split; [apply passes_bind; [done|]; intros a Ha; by apply Hnext|]. split.
  - unfold mbind, kio_bind. destruct (m h) as [[tr [a|e]] h1]; [|done]. simpl in Hnext.
    destruct (Hnext a eq_refl) as (_ & Hs & _). by destruct (k a h1) as [[tr' r'] h2].
  - apply leaves_bind. intros a Ha. by apply Hnext.
Qed.

Lemma triple_ret {A} (Pre I : KernelHandle -> Prop) (a : A) Q : (forall h, Pre h -> I h /\ sound h /\ Q a h) ->
  triple Pre I (mret a : kio A) Q.
Proof. intros H h Hp. destruct (H h Hp) as (H1 & H2 & H3). split; [by split; [constructor|]|]. split; [done|]. by intros b [= <-]. Qed.

Lemma triple_weaken {A} (Pre Pre' I : KernelHandle -> Prop) (m : kio A) (Q Q' : A -> KernelHandle -> Prop) :
  (forall h, Pre' h -> Pre h) -> (forall a h, Q a h -> Q' a h) -> triple Pre I m Q -> triple Pre' I m Q'.
Proof.
  intros Hp Hq Ht h Hh. destruct (Ht h (Hp h Hh)) as (H1 & H2 & H3). split; [done|]. split; [done|].
  intros a Ha. apply Hq, H3, Ha.
Qed.

Lemma sound_slots h new x : sound h -> slots_from h new x -> sound x.
Proof. intros (S1 & S2 & S3) (A1 & A2 & A3 & A4 & A5). repeat split; congruence. Qed.

Section turn.
Context (H : Policies).

(** The states a full sequence goes through. *)
Definition start_state (h : KernelHandle) : Prop := sound h /\ coherent H h.
Definition retired (sel : gset Z) (h : KernelHandle) : Prop :=
  sound h /\ no_slots h /\ kh_selected_map h = sel.
Definition done_state (spec : EbpfSpec) (sel : gset Z) (h : KernelHandle) : Prop :=
  sound h /\ kh_rules h = published_slots (krs_rules (compile_kernel_rules_for spec layout)) /\
  kh_selected_map h = sel.

Lemma retire_triple plan a sel :
  triple (fun h => start_state h /\ kh_selected_map h = sel) (coherent H) (publish_step plan RetireRules a)
    (fun a' h => a' = a /\ retired sel h).
Proof.
  unfold publish_step. eapply triple_bind with (Q := fun _ => retired sel).
  - intros h ((Hs & Hc) & Hsel). destruct (clear_spec h) as [Hp Hq].
    split; [eapply passes_impl; [|exact Hp]; eauto using coherent_retiring|].
    split; [eapply sound_slots; [done | apply Hp]|].
    intros [] Hok. pose proof (proj2 Hp) as Hfrom. split; [by eapply sound_slots|].
    destruct Hfrom as (A1 & A2 & A3 & A4 & A5).
    split; [|congruence]. intros r. rewrite (Hq tt Hok (proj1 Hs)). intros Hr.
    apply published_elem in Hr as [->|Hr]; [done | by apply elem_of_nil in Hr].
  - intros []. apply triple_ret. intros h Hr. split; [left; apply Hr|]. split; [apply Hr | done].
Qed.

(** The plan for the set wanted, made against the mirror. *)
Lemma select_triple plan a old want : plan_map_sync old want MAP_SELECTED = Ok plan ->
  triple (retired old) (coherent H) (publish_step plan PublishSelected a) (fun a' h => a' = a /\ retired want h).
Proof.
  intros Hplan. unfold publish_step, sync_selected_cgroups.
  eapply triple_bind with (Q := fun _ => retired want).
  - intros h (Hs & Hn & Hsel).
    destruct (sync_cgroups_spec selected_map selected_frame want MAP_SELECTED plan h) as (P & Hm & L);
      [simpl; by rewrite (proj1 (proj2 Hs)), Hsel | apply Hs|].
    pose proof (proj2 P) as [(E1 & E2 & E3 & E4) _].
    assert (Hs' : sound (sync_cgroups selected_map plan h).2) 
      by (split; [rewrite E1; apply Hs | split; [exact Hm | rewrite E2; apply Hs]]).
    split; [eapply passes_impl; [|exact P]; intros x [Hf _]; by eapply coherent_unruled|].
    split; [done|]. intros st Hok. split; [done|].
    split; [intros r Hr; apply Hn; rewrite <- E1; exact Hr|]. exact (L st Hok).
  - intros st. apply triple_ret. intros h Hr. split; [left; apply Hr|]. split; [apply Hr | done].
Qed.

Lemma done_coherent d spec want h : (d, spec, want) ∈ H -> done_state spec want h -> coherent H h.
Proof.
  intros Hin ((_ & _ & Hl) & Hr & Hw). right. exists spec. split; [by exists d, want|]. split.
  - intros r. rewrite Hr, Hl. apply published_elem.
  - intros c. rewrite Hw. eauto.
Qed.

Lemma rules_triple plan a d spec want : (d, spec, want) ∈ H ->
  (forall l, kernel_rules_for_last_good_on a l = Some (compile_kernel_rules_for spec l)) ->
  triple (retired want) (coherent H) (publish_step plan PublishRules a) (fun _ => done_state spec want).
Proof.
  intros Hin Hrules h (Hs & Hn & Hsel). pose proof (proj2 (proj2 Hs)) as Hl. unfold publish_step. rewrite Hrules, Hl.
  set (set := compile_kernel_rules_for spec layout).
  assert (Ht : triple (fun x => x = h) (coherent H)
    (installed ← sync_kernel_rules set; (mret (mark_kernel_rules_synced a set installed) : kio Agent))
    (fun _ => done_state spec want)); [|by apply Ht].
  clear Hrules. eapply triple_bind with (Q := fun _ => done_state spec want).
  - intros x ->. unfold sync_kernel_rules.
    pose proof (compiled_count spec layout) as Hfit. fold set in Hfit. apply Z.ltb_ge in Hfit. rewrite Hfit. fold FULL.
    destruct (write_or_clear_spec (krs_rules set) FULL 0 h) as [P L].
    assert (Hc : chosen_within H spec h) by (intros c Hc; exists d, want; rewrite Hsel in Hc; auto).
    assert (Hco : forall x, slots_from h (fun r => r = kernel_rule_empty \/ r ∈ krs_rules set) x -> coherent H x).
    { intros x Hx. eapply coherent_publishing; [done | by exists d, want | done|]. rewrite Hl. exact Hx. }
    assert (Hdone : leaves (fun _ => done_state spec want) (write_or_clear (krs_rules set) 0 FULL h)).
    { intros [] Hok. destruct (L tt Hok) as [L1 L2]. pose proof (proj2 P) as Hf.
      split; [by eapply sound_slots|]. destruct Hf as (A1 & A2 & A3 & A4 & A5).
      split; [|congruence]. apply rules_are_published; [rewrite L1; apply Hs|].
      intros j Hj. rewrite L2. by rewrite bool_decide_eq_true_2 by lia. }
    unfold mbind, kio_bind. destruct (write_or_clear (krs_rules set) 0 FULL h) as [[tr [[]|e]] h1].
    + unfold passes, leaves in *. simpl in *. rewrite app_nil_r. destruct P as [P1 P2].
      split; [split; [eapply Forall_impl; [exact P1|]; exact Hco | auto]|].
      split; [by eapply sound_slots|]. intros n _. exact (Hdone tt eq_refl).
    + unfold passes, leaves in *. simpl in *. destruct P as [P1 P2].
      split; [split; [eapply Forall_impl; [exact P1|]; exact Hco | auto]|].
      split; [by eapply sound_slots | done].
  - intros n. apply triple_ret. intros x Hd. split; [|split; [apply Hd | done]].
    by eapply done_coherent.
Qed.
End turn.

Lemma ascending_nil s : is_empty (ascending s) = true -> s = ∅.
Proof.
  intros E. assert (Hn : ascending s = []) by (by destruct (ascending s)).
  rewrite <- (ascending_elements s), Hn. done.
Qed.

Lemma plan_empty_same current next name plan : plan_map_sync current next name = Ok plan ->
  plan_is_empty plan = true -> current = next.
Proof.
  unfold plan_map_sync. destruct (_ <? _); [done|]. intros [= <-]. unfold plan_is_empty. simpl.
  intros [E1 E2]%andb_true_iff. apply ascending_nil in E1, E2. apply (anti_symm (⊆)); intros x Hx.
  - destruct (base.decide (x ∈ next)) as [|Hn]; [done|]. assert (Hd : x ∈ current ∖ next) by (by apply elem_of_difference).
    rewrite E2 in Hd. by apply elem_of_empty in Hd.
  - destruct (base.decide (x ∈ current)) as [|Hn]; [done|]. assert (Hd : x ∈ next ∖ current) by (by apply elem_of_difference).
    rewrite E1 in Hd. by apply elem_of_empty in Hd.
Qed.

(** The sequence of a changed policy, with a bundle in force. *)
Lemma full_sequence H plan a d spec sel want : (d, spec, want) ∈ H ->
  (forall l, kernel_rules_for_last_good_on a l = Some (compile_kernel_rules_for spec l)) ->
  plan_map_sync sel want MAP_SELECTED = Ok plan ->
  triple (fun h => start_state H h /\ kh_selected_map h = sel) (coherent H)
    (publish_steps plan ([RetireRules] ++ (if negb (plan_is_empty plan) then [PublishSelected] else []) ++ [PublishRules]) a)
    (fun _ => done_state spec want).
Proof.
  intros Hin Hrules Hplan.
  assert (Hlast : triple (fun h => retired want h) (coherent H) (publish_steps plan [PublishRules] a)
    (fun _ => done_state spec want)).
  { cbn [publish_steps]. eapply triple_bind; [by eapply rules_triple|]. intros a'. apply triple_ret.
    intros h Hd. split; [by eapply done_coherent|]. split; [apply Hd | done]. }
  cbn [app publish_steps]. eapply triple_bind; [apply retire_triple|]. intros a1.
  destruct (plan_is_empty plan) eqn:Ep; cbn [negb app].
  - rewrite (plan_empty_same _ _ _ _ Hplan Ep) in *. intros h [-> Hr]. by apply Hlast.
  - intros h [-> Hr]. cbn [publish_steps].
    eapply (triple_bind (retired sel)); [by apply select_triple | | done].
    intros a2 x [-> Hx]. by apply Hlast.
Qed.

(** The same with no bundle in force: the maps are emptied. *)
Lemma retire_sequence H plan a sel want : (forall l, kernel_rules_for_last_good_on a l = None) ->
  plan_map_sync sel want MAP_SELECTED = Ok plan ->
  triple (fun h => start_state H h /\ kh_selected_map h = sel) (coherent H)
    (publish_steps plan ([RetireRules] ++ (if negb (plan_is_empty plan) then [PublishSelected] else []) ++ [PublishRules]) a)
    (fun _ => retired want).
Proof.
  intros Hrules Hplan.
  assert (Hlast : triple (fun h => retired want h) (coherent H) (publish_steps plan [PublishRules] a)
    (fun _ => retired want)).
  { cbn [publish_steps]. eapply triple_bind with (Q := fun _ => retired want).
    - intros h Hr. unfold publish_step. rewrite Hrules. destruct Hr as (R1 & R2 & R3).
      split; [split; [constructor | by left]|]. split; [done|]. by intros a' [= <-].
    - intros a'. apply triple_ret. intros h Hr. split; [left; apply Hr|]. split; [apply Hr | done]. }
  cbn [app publish_steps]. eapply triple_bind; [apply retire_triple|]. intros a1.
  destruct (plan_is_empty plan) eqn:Ep; cbn [negb app].
  - rewrite (plan_empty_same _ _ _ _ Hplan Ep) in *. intros h [-> Hr]. by apply Hlast.
  - intros h [-> Hr]. cbn [publish_steps].
    eapply (triple_bind (retired sel)); [by apply select_triple | | done].
    intros a2 x [-> Hx]. by apply Hlast.
Qed.

(** Pods moving under an unchanged policy: only the set is written. *)
Lemma moving_sequence H plan a want h : (forall x, moved selected_map selected_frame (kh_selected_map h ∪ want) h x -> coherent H x) ->
  sound h -> plan_map_sync (kh_selected h) want MAP_SELECTED = Ok plan ->
  let x := publish_steps plan [PublishSelected] a h in
  passes (coherent H) x /\ sound x.2 /\
  leaves (fun _ h' => kh_rules h' = kh_rules h /\ kh_selected_map h' = want) x.
Proof.
  intros Hco Hs Hplan. cbn [publish_steps]. unfold publish_step, sync_selected_cgroups.
  destruct (sync_cgroups_spec selected_map selected_frame want MAP_SELECTED plan h) as (P & Hm & L); [done | apply Hs|].
  pose proof (proj2 P) as [(E1 & E2 & E3 & E4) _].
  assert (Hs' : sound (sync_cgroups selected_map plan h).2) 
      by (split; [rewrite E1; apply Hs | split; [exact Hm | rewrite E2; apply Hs]]).
  unfold mbind, kio_bind, passes, leaves in *. destruct P as [P1 P2].
  destruct (sync_cgroups selected_map plan h) as [[tr [st|e]] h1]; simpl in *; rewrite ?app_nil_r.
  - split; [split; [eapply Forall_impl; [exact P1 | exact Hco] | auto]|]. split; [done|].
    intros _ _. split; [done | exact (L st eq_refl)].
  - split; [split; [eapply Forall_impl; [exact P1 | exact Hco] | auto]|]. done.
Qed.

End logic.

(** What a turn does to the policies seen, the published digest and the handle. *)
Definition turn_ok (H' : Policies) (h : KernelHandle) (x : list KernelHandle * Agent * option string * KernelHandle) : Prop :=
  let '(tr, _, published', h') := x in
  Forall (coherent H') tr /\ maps_inv H' published' h' /\ kh_layout h' = kh_layout h.

Lemma sound_inv H published h : maps_inv H published h -> sound (kh_layout h) h.
Proof. intros []. by repeat split. Qed.

Lemma unpublished_inv H layout h : sound layout h -> coherent H h -> maps_inv H None h.
Proof. intros (H1 & H2 & _) H3. by split. Qed.

Lemma published_inv H layout d spec want h : (d, spec, want) ∈ H ->
  sound layout h -> kh_rules h = published_slots (krs_rules (compile_kernel_rules_for spec (kh_layout h))) ->
  kh_selected_map h = want -> maps_inv H (Some d) h.
Proof.
  intros Hin (S1 & S2 & _) Hr Hw. assert (Hc : chosen_within H spec h) by (intros c; rewrite Hw; eauto).
  split; [done | done | | ].
  - right. exists spec. split; [by exists d, want|]. split; [intros r; rewrite Hr; apply published_elem | done].
  - intros d' [= <-]. eauto.
Qed.

(** A turn that has steps to carry out. *)
Lemma turn_by_steps H' a published h plan :
  let digest := last_good_digest a in
  let steps := plan_kernel_publish digest published (negb (plan_is_empty plan)) in
  plan_map_sync (kh_selected h) (selected_cgroups_for_last_good a) MAP_SELECTED = Ok plan -> is_empty steps = false ->
  (let x := publish_steps plan steps a h in
   passes (coherent H') x /\ sound (kh_layout h) x.2 /\ leaves (fun _ h' => maps_inv H' digest h') x) ->
  turn_ok H' h (kernel_turn a published h).
Proof.
  cbv zeta. intros Hplan Hsteps. unfold kernel_turn, republish_kernel_policy. rewrite Hplan, Hsteps.
  unfold mbind, kio_bind, passes, leaves.
  destruct (publish_steps _ _ a h) as [[tr [a1|e]] h1]; simpl; intros ([P1 P2] & Hs & L).
  - rewrite app_nil_r. split; [done|]. split; [exact (L a1 eq_refl) | apply Hs].
  - split; [done|]. split; [by eapply unpublished_inv | apply Hs].
Qed.

Lemma maps_inv_mono H H' published h : H ⊆ H' -> maps_inv H published h -> maps_inv H' published h.
Proof.
  intros Hs [M1 M2 M3 M4]. split; [done | done | by eapply coherent_mono|].
  intros d Hd. destruct (M4 d Hd) as (spec & want & Hin & Hr & Hc). exists spec, want.
  split; [auto|]. split; [done | by eapply chosen_mono].
Qed.

(** The policy changed: the rules come off, the set moves, the new rules go on. *)
Lemma changed_turn H a published h plan : let H' := policy_in_force a ++ H in
  maps_inv H published h -> last_good_digest a <> published ->
  plan_map_sync (kh_selected h) (selected_cgroups_for_last_good a) MAP_SELECTED = Ok plan ->
  turn_ok H' h (kernel_turn a published h).
Proof.
  intros H' Hinv Hne Hplan. assert (Hsub : H ⊆ H') by (intros x Hx; apply elem_of_app; auto).
  pose proof (sound_inv _ _ _ Hinv) as Hs. pose proof (coherent_mono _ _ _ Hsub (mi_coherent _ _ _ Hinv)) as Hc.
  assert (Hst : start_state (kh_layout h) H' h /\ kh_selected_map h = kh_selected h)
    by (split; [done | symmetry; apply Hinv]).
  eapply turn_by_steps; [done| |]; unfold plan_kernel_publish; rewrite bool_decide_eq_false_2 by done; [done|].
  simpl negb. cbn iota. destruct (policy_in_force_spec a) as [(Hp & Hd & Hw & Hr) | (d & spec & Hp & Hd & Hr)].
  - destruct (retire_sequence (kh_layout h) H' plan a _ _ Hr Hplan h Hst) as (P & S & L).
    split; [done|]. split; [done|]. intros a' Ha. rewrite Hd. destruct (L a' Ha) as (R1 & R2 & R3).
    eapply unpublished_inv; [done | by left].
  - assert (Hin : (d, spec, selected_cgroups_for_last_good a) ∈ H') by (unfold H'; rewrite Hp; set_solver).
    destruct (full_sequence (kh_layout h) H' plan a d spec _ _ Hin Hr Hplan h Hst) as (P & S & L).
    split; [done|]. split; [done|]. intros a' Ha. rewrite Hd. destruct (L a' Ha) as (D1 & D2 & D3).
    eapply published_inv; [done | done | | done]. by rewrite (proj2 (proj2 D1)).
Qed.

(** Pods moved under the policy that is published. *)
Lemma moved_turn H a published h plan : let H' := policy_in_force a ++ H in
  maps_inv H published h -> digests_name_programs H' -> last_good_digest a = published -> plan_is_empty plan = false ->
  plan_map_sync (kh_selected h) (selected_cgroups_for_last_good a) MAP_SELECTED = Ok plan ->
  turn_ok H' h (kernel_turn a published h).
Proof.
  intros H' Hinv Hdig He Hp Hplan. assert (Hsub : H ⊆ H') by (intros x Hx; apply elem_of_app; auto).
  pose proof (sound_inv _ _ _ Hinv) as Hs. pose proof (maps_inv_mono _ _ _ _ Hsub Hinv) as Hinv'.
  eapply turn_by_steps; [done| |]; unfold plan_kernel_publish; rewrite bool_decide_eq_true_2, Hp by done; [done|].
  simpl negb. cbn iota. destruct (policy_in_force_spec a) as [(Hpi & Hd & Hw & Hr) | (d & spec & Hpi & Hd & Hr)].
  - destruct (moving_sequence (kh_layout h) H' plan a (selected_cgroups_for_last_good a) h) as (P & S & L); [|done|done|].
    { intros x [(E1 & E2 & _) Hm]. destruct (mi_coherent _ _ _ Hinv') as [Hn | (sp & C0 & C1 & C2)].
      - left. intros r. rewrite E1. apply Hn.
      - right. exists sp. split; [done|]. split; [intros r; rewrite E1, E2; apply C1|]. intros c Hc. apply C2.
        rewrite Hw, (right_id_L ∅ (∪)) in Hm. by apply Hm. }
    split; [done|]. split; [done|]. intros a' Ha. rewrite Hd. eapply unpublished_inv; [done | apply P].
  - destruct (mi_published _ _ _ Hinv' d) as (sp & w & Hin & Hrules & Hch); [by rewrite <- He|].
    assert (Hin' : (d, spec, selected_cgroups_for_last_good a) ∈ H') by (unfold H'; rewrite Hpi; set_solver).
    rewrite (Hdig _ _ _ _ _ Hin Hin') in *.
    destruct (moving_sequence (kh_layout h) H' plan a (selected_cgroups_for_last_good a) h) as (P & S & L); [|done|done|].
    { intros x Hx. eapply coherent_moving; [|exact Hch | exact Hin' | exact Hx].
      intros r. rewrite Hrules. apply published_elem. }
    split; [done|]. split; [done|]. intros a' Ha. destruct (L a' Ha) as [L1 L2]. rewrite Hd.
    eapply published_inv; [exact Hin' | done | | exact L2]. by rewrite L1, Hrules, (proj2 (proj2 S)).
Qed.

Lemma kernel_turn_ok H a published h : let H' := policy_in_force a ++ H in
  maps_inv H published h -> digests_name_programs H' -> turn_ok H' h (kernel_turn a published h).
Proof.
  intros H' Hinv Hdig. assert (Hsub : H ⊆ H') by (intros x Hx; apply elem_of_app; auto).
  pose proof (maps_inv_mono _ _ _ _ Hsub Hinv) as Hinv'.
  destruct (plan_map_sync (kh_selected h) (selected_cgroups_for_last_good a) MAP_SELECTED) as [plan|e] eqn:Hplan.
  - destruct (base.decide (last_good_digest a = published)) as [He|Hne]; [|by eapply changed_turn].
    destruct (plan_is_empty plan) eqn:Hp; [|by eapply moved_turn].
    unfold kernel_turn, republish_kernel_policy. rewrite Hplan. unfold plan_kernel_publish.
    rewrite bool_decide_eq_true_2, Hp by done. done.
  - unfold kernel_turn, republish_kernel_policy. rewrite Hplan. simpl. split; [constructor|]. split; [|done].
    eapply unpublished_inv; [by eapply sound_inv | apply Hinv'].
Qed.

(** ** Runs *)

(** The turns of the ring thread: the agent of each turn is as the other threads left it. *)
Fixpoint run_turns (agents : list Agent) (published : option string) (h : KernelHandle)
    : list KernelHandle * option string * KernelHandle :=
  match agents with
  | [] => ([], published, h)
  | a :: agents' =>
      let '(tr, _, published', h') := kernel_turn a published h in
      let '(tr', p, h'') := run_turns agents' published' h' in (tr ++ tr', p, h'')
  end.

Definition policies_of (agents : list Agent) : Policies := flat_map policy_in_force agents.

Lemma digests_sub H H' : H ⊆ H' -> digests_name_programs H' -> digests_name_programs H.
Proof. intros Hs Hd d s1 w1 s2 w2 H1 H2. exact (Hd _ _ _ _ _ (Hs _ H1) (Hs _ H2)). Qed.

Lemma run_turns_ok agents : forall P H published h, policies_of agents ⊆ P -> H ⊆ P -> digests_name_programs P ->
  maps_inv H published h ->
  let '(tr, published', h') := run_turns agents published h in
  Forall (fun x => coherent P x) tr /\ maps_inv P published' h' /\ kh_layout h' = kh_layout h.
Proof.
  induction agents as [|a agents IH]; intros P H published h Hsub HP Hdig Hinv; cbn [run_turns].
  { split; [constructor|]. split; [by eapply maps_inv_mono | done]. }
  assert (Ha : policy_in_force a ++ H ⊆ P) by (intros x [Hx|Hx]%elem_of_app; [apply Hsub, elem_of_app; by left | auto]).
  pose proof (kernel_turn_ok H a published h Hinv (digests_sub _ _ Ha Hdig)) as Hturn.
  destruct (kernel_turn a published h) as [[[tr a'] published'] h']. destruct Hturn as (T1 & T2 & T3).
  specialize (IH P (policy_in_force a ++ H) published' h').
  destruct (run_turns agents published' h') as [[tr' p] h''].
  destruct IH as (I1 & I2 & I3); [intros x Hx; apply Hsub, elem_of_app; by right | done | done | done|].
  split; [apply Forall_app; split; [|done]; eapply Forall_impl; [exact T1|]; intros x; by apply coherent_mono|].
  split; [done | congruence].
Qed.

Lemma fresh_inv layout faults : maps_inv [] None (handle_new layout faults).
Proof.
  split; [done | done | | done]. left. intros r Hr. cbn [kh_rules handle_new] in Hr.
  apply list_elem_of_In, repeat_spec in Hr. done.
Qed.

(** ** What the hook refuses at an instant *)

Lemma compiled_slots spec layout :
  Forall (fun r => krule_ok r /\ (kr_action r = ACTION_DENY \/ kr_action r = ACTION_KILL))
    (krs_rules (compile_kernel_rules_for spec layout)).
Proof.
  destruct (krs_refused (compile_kernel_rules_for spec layout)) eqn:E.
  - unfold compile_kernel_rules_for in *. repeat case_match; simpl in *; try done; constructor.
  - apply compile_accepted in E as (_ & _ & _ & -> & _). apply Forall_flat_map_all. intros r.
    apply Forall_and. split; [apply slots_of_ok | apply slots_of_action].
Qed.

#[global] Instance KernelRule_eq_dec : EqDecision KernelRule.
Proof. solve_decision. Defined.

Definition occupied (slots : list KernelRule) : list KernelRule := List.filter (fun r => negb (bool_decide (r = kernel_rule_empty))) slots.

(** Empty slots decide nothing, wherever they are. *)
Lemma strongest_occupied slots applies : strongest_slot slots applies = strongest_slot (occupied slots) applies.
Proof.
  unfold strongest_slot. generalize ACTION_ALLOW as best. induction slots as [|r slots IH]; intros best; [done|].
  simpl. case_bool_decide as E; simpl; [|apply IH]. subst r. rewrite empty_slot_inert. apply IH.
Qed.

Definition applies_to (ctx : ExecContext) (r : KernelRule) : bool :=
  slot_applies r (ctx_comm ctx) (xc_in_cgroups ctx) (ctx_agent_self ctx) (xc_in_selected ctx) (ctx_path ctx).

(** What the hook answers over slots that are empty or refuse. *)
Lemma hook_within slots ctx : ctx_ok ctx -> xc_previous ctx = 0 ->
  (forall r, r ∈ slots -> r = kernel_rule_empty \/ krule_ok r /\ (kr_action r = ACTION_DENY \/ kr_action r = ACTION_KILL)) ->
  ferrum_bprm_check_security slots ctx = Some (if existsb (applies_to ctx) (occupied slots) then - EPERM else 0).
Proof.
  intros Hctx Hprev Hs.
  assert (Hok : Forall krule_ok slots).
  { apply Forall_forall. intros r Hr. destruct (Hs r Hr) as [-> | [Hc _]]; [apply empty_slot_ok | done]. }
  rewrite <- (app_nil_r slots) at 1. change [] with (repeat kernel_rule_empty 0).
  rewrite hook_strongest by done. rewrite strongest_occupied. fold (applies_to ctx).
  assert (Hact : Forall (fun r => kr_action r = ACTION_DENY \/ kr_action r = ACTION_KILL) (occupied slots)).
  { apply Forall_forall. intros r Hr. unfold occupied in Hr. apply list_elem_of_In, filter_In in Hr as [Hr Hne].
    bool_hyps. apply list_elem_of_In in Hr. by destruct (Hs r Hr) as [-> | [_ Hc]]. }
  destruct (strongest_refuses (occupied slots) (applies_to ctx) Hact) as [-> _].
  unfold lsm_verdict. rewrite Hprev. by destruct (existsb _ _).
Qed.

Lemma compiled_or_empty spec layout (slots : list KernelRule) :
  (forall r, r ∈ slots -> r = kernel_rule_empty \/ r ∈ krs_rules (compile_kernel_rules_for spec layout)) ->
  forall r, r ∈ slots -> r = kernel_rule_empty \/ krule_ok r /\ (kr_action r = ACTION_DENY \/ kr_action r = ACTION_KILL).
Proof.
  intros Hs r Hr. destruct (Hs r Hr) as [-> | Hc]; [by left | right].
  exact (proj1 (Forall_forall _ _) (compiled_slots spec layout) r Hc).
Qed.

Lemma hook_unruled (slots : list KernelRule) ctx : ctx_ok ctx -> xc_previous ctx = 0 -> (forall r, r ∈ slots -> r = kernel_rule_empty) ->
  ferrum_bprm_check_security slots ctx = Some 0.
Proof.
  intros Hctx Hprev Hs. rewrite hook_within by (try done; auto).
  replace (occupied slots) with (@nil KernelRule); [done|]. symmetry. unfold occupied.
  induction slots as [|r slots IH]; [done|]. simpl. rewrite (Hs r) by set_solver.
  rewrite bool_decide_eq_true_2 by done. apply IH. intros q Hq. apply Hs. set_solver.
Qed.

Lemma hook_monotone spec layout slots ctx : ctx_ok ctx -> xc_previous ctx = 0 ->
  (forall r, r ∈ slots -> r = kernel_rule_empty \/ r ∈ krs_rules (compile_kernel_rules_for spec layout)) ->
  ferrum_bprm_check_security slots ctx = Some (- EPERM) ->
  ferrum_bprm_check_security (published_slots (krs_rules (compile_kernel_rules_for spec layout))) ctx = Some (- EPERM).
Proof.
  intros Hctx Hprev Hs Href. rewrite (hook_within _ ctx Hctx Hprev (compiled_or_empty _ _ _ Hs)) in Href.
  rewrite hook_within by (try done; eapply compiled_or_empty, published_elem).
  destruct (existsb (applies_to ctx) (occupied slots)) eqn:E; [|done].
  assert (E' : existsb (applies_to ctx) (occupied (published_slots (krs_rules (compile_kernel_rules_for spec layout)))) = true);
    [|by rewrite E'].
  apply existsb_exists in E as (r & Hr & Ha). apply filter_In in Hr as [Hr Hne].
  apply list_elem_of_In in Hr. destruct (Hs r Hr) as [-> | Hc]; [by rewrite bool_decide_eq_true_2 in Hne|].
  apply existsb_exists. exists r. split; [|done]. apply filter_In. split; [|done]. apply list_elem_of_In.
  apply list_elem_of_lookup in Hc as [j Hj]. apply list_elem_of_lookup. exists j. rewrite published_lookup.
  rewrite bool_decide_eq_true_2; [unfold slot_of; by rewrite Hj|].
  apply lookup_lt_Some in Hj. pose proof (compiled_count spec layout) as Hcount. unfold len, FULL, MAX_KERNEL_RULES in *. lia.
Qed.

(** C15: Whatever map calls fail, whatever bundles the other threads install and however
    pods move between the turns of the ring thread: at every instant of a republish an
    exec the kernel hook refuses is one the complete slots of a single policy that was
    in force refuse, and if its cgroup counts as selected then that policy's own
    selector chose it. Rules of one policy never meet the selected set of another. *)
Theorem kernel_enforces_one_policy layout faults (agents : list Agent) (x : KernelHandle) ctx (cgroup : Z) :
  digests_name_programs (policies_of agents) ->
  x ∈ (run_turns agents None (handle_new layout faults)).1.1 ->
  ctx_ok ctx -> xc_previous ctx = 0 -> xc_in_selected ctx = bool_decide (cgroup ∈ kh_selected_map x) ->
  ferrum_bprm_check_security (kh_rules x) ctx = Some 0 \/
  exists spec, known (policies_of agents) spec /\
    ferrum_bprm_check_security (published_slots (krs_rules (compile_kernel_rules_for spec (kh_layout x)))) ctx = Some (- EPERM) /\
    (xc_in_selected ctx = true -> exists d want, (d, spec, want) ∈ policies_of agents /\ cgroup ∈ want).
Proof.
  intros Hdig Hx Hctx Hprev Hsel.
  pose proof (run_turns_ok agents (policies_of agents) [] None (handle_new layout faults)) as Hrun.
  destruct (run_turns agents None (handle_new layout faults)) as [[tr p] h']. simpl in Hx.
  destruct Hrun as (Hco & _); [done | set_solver | done | apply fresh_inv |].
  apply (proj1 (Forall_forall _ _) Hco) in Hx as [Hn | (spec & Hk & Hs & Hc)].
  - left. by apply hook_unruled.
  - pose proof (hook_within (kh_rules x) ctx Hctx Hprev (compiled_or_empty _ _ _ Hs)) as Ha.
    destruct (existsb (applies_to ctx) (occupied (kh_rules x))); [|by left]. right. exists spec. split; [done|].
    split; [by eapply hook_monotone|]. rewrite Hsel. intros Hin%bool_decide_eq_true. by apply Hc.
Qed.

(** ** Without faults a turn arrives *)

Definition calm (h : KernelHandle) : Prop := kh_faults h = [].

(** A run that succeeds and leaves no fault behind. *)
Definition arrives {A} (x : list KernelHandle * Result A * KernelHandle) : Prop := is_ok x.1.2 = true /\ calm x.2.

Lemma arrives_bind {A B} (m : kio A) (k : A -> kio B) h : arrives (m h) ->
  (forall a, (m h).1.2 = Ok a -> calm (m h).2 -> arrives (k a (m h).2)) -> arrives ((m ≫= k) h).
Proof.
  unfold arrives, mbind, kio_bind. destruct (m h) as [[tr [a|e]] h1]; simpl; intros [Hok Hc] Hk; [|done].
  specialize (Hk a eq_refl Hc). destruct (k a h1) as [[tr' r'] h2]. exact Hk.
Qed.

Lemma map_call_calm name f h h' : calm h -> f h = Ok h' -> map_call name f h = ([h'], Ok tt, h').
Proof. intros Hc Hf. unfold map_call. rewrite Hc. by rewrite Hf. Qed.

Lemma write_slots_calm slot n : forall i h, calm h -> (i + n <= length (kh_rules h))%nat ->
  arrives (write_slots slot i n h) .
Proof.
  induction n as [|n IH]; intros i h Hc Hi; cbn [write_slots]; [done|].
  assert (Hw : write_rule_slot i (slot i) h = ([h {{ kh_rules := <[i := slot i]> (kh_rules h) }}], Ok tt,
    h {{ kh_rules := <[i := slot i]> (kh_rules h) }})).
  { unfold write_rule_slot. apply map_call_calm; [done|]. by rewrite (proj2 (Nat.ltb_lt i _)) by lia. }
  apply arrives_bind; rewrite Hw; [by destruct h|]. intros [] _ Hc'. apply IH; [done|].
  destruct h; simpl in *. unfold constant. rewrite length_insert. lia.
Qed.

Lemma write_or_clear_calm rules n : forall i h, calm h -> (i + n <= length (kh_rules h))%nat ->
  arrives (write_or_clear rules i n h).
Proof.
  induction n as [|n IH]; intros i h Hc Hi; cbn [write_or_clear]; [done|].
  assert (Hw : write_rule_slot i (slot_of rules i) h = ([h {{ kh_rules := <[i := slot_of rules i]> (kh_rules h) }}], Ok tt,
    h {{ kh_rules := <[i := slot_of rules i]> (kh_rules h) }})).
  { unfold write_rule_slot. apply map_call_calm; [done|]. by rewrite (proj2 (Nat.ltb_lt i _)) by lia. }
  rewrite Hw. set (h1 := h {{ kh_rules := _ }}).
  assert (Harr : arrives (write_or_clear rules (S i) n h1)).
  { apply IH; [by destruct h|]. unfold h1. destruct h; simpl in *. unfold constant. rewrite length_insert. lia. }
  destruct (write_or_clear rules (S i) n h1) as [[tr' r'] h2]. exact Harr.
Qed.

Section set_map_calm.
Context (m : SetMap) (frame : KernelHandle -> KernelHandle -> Prop) `{!SetMapOk m frame}.

Lemma sync_one_calm name f g stats h h' : calm h -> f h = Ok h' -> calm h' ->
  sync_one m (map_call name f) g stats h = ([h'], Ok tt, sm_note m (g (sm_mirror m h')) h').
Proof. intros Hc Hf Hc'. unfold sync_one. by rewrite (map_call_calm name f h h' Hc Hf). Qed.

Lemma removes_calm ids : forall stats h, calm h -> NoDup ids -> (forall id, id ∈ ids -> id ∈ sm_map m h) ->
  arrives (sync_removes m ids stats h).
Proof.
  induction ids as [|id ids IH]; intros stats h Hc Hnd Hin; cbn [sync_removes]; [done|].
  apply NoDup_cons in Hnd as [Hni Hnd]. set (h' := sm_write m (sm_map m h ∖ {[id]}) h).
  assert (Hw : sync_one m (remove_cgroup_id m id) (fun s => s ∖ {[id]}) stats h =
    ([h'], Ok tt, sm_note m (sm_mirror m h' ∖ {[id]}) h')).
  { unfold remove_cgroup_id. apply sync_one_calm; [done | | unfold h', calm; by rewrite faults_write].
    by rewrite bool_decide_eq_true_2 by (apply Hin; set_solver). }
  apply arrives_bind; rewrite Hw; simpl;
    [split; [done|]; unfold calm, h'; cbn [snd]; by rewrite faults_note, faults_write|].
  intros [] _ Hc'. apply IH; [done | done|]. intros j Hj. unfold h'. rewrite map_note, map_write.
  apply elem_of_difference. split; [apply Hin; set_solver | set_solver].
Qed.

Lemma inserts_calm ids : forall stats h, calm h -> NoDup ids -> (forall id, id ∈ ids -> id ∉ sm_map m h) ->
  set_len (sm_map m h) + len ids <= CGROUPS_MAX_ENTRIES -> arrives (sync_inserts m ids stats h).
Proof.
  induction ids as [|id ids IH]; intros stats h Hc Hnd Hin Hroom; cbn [sync_inserts]; [done|].
  apply NoDup_cons in Hnd as [Hni Hnd]. rewrite len_cons in Hroom. pose proof (len_nonneg ids).
  set (h' := sm_write m ({[id]} ∪ sm_map m h) h).
  assert (Hw : sync_one m (insert_cgroup_id m id) (fun s => {[id]} ∪ s) stats h =
    ([h'], Ok tt, sm_note m ({[id]} ∪ sm_mirror m h') h')).
  { unfold insert_cgroup_id. apply sync_one_calm; [done | | unfold h', calm; by rewrite faults_write].
    rewrite (proj2 (Z.ltb_lt (set_len (sm_map m h)) _)) by lia. by rewrite orb_true_r. }
  apply arrives_bind; rewrite Hw; simpl;
    [split; [done|]; unfold calm, h'; cbn [snd]; by rewrite faults_note, faults_write|].
  intros [] _ Hc'. apply IH; [done | done | |].
  - intros j Hj. unfold h'. rewrite map_note, map_write. rewrite elem_of_union. intros [->%elem_of_singleton|Hx];
      [done | by eapply Hin; [right|]].
  - unfold h'. rewrite map_note, map_write. unfold set_len in *. rewrite size_union, size_singleton; [lia|].
    assert (id ∉ sm_map m h) by (apply Hin; set_solver). set_solver.
Qed.

Lemma ascending_NoDup s : NoDup (ascending s).
Proof. unfold ascending. rewrite merge_sort_Permutation. apply NoDup_elements. Qed.

Lemma ascending_elem s x : x ∈ ascending s <-> x ∈ s.
Proof. unfold ascending. rewrite merge_sort_Permutation. apply elem_of_elements. Qed.

(** Removals first: a plan that was sized to fit is never refused for room. *)
Lemma sync_cgroups_calm next name plan h : calm h -> plan_map_sync (sm_mirror m h) next name = Ok plan ->
  sm_mirror m h = sm_map m h -> arrives (sync_cgroups m plan h).
Proof.
  intros Hc Hplan Hm. unfold plan_map_sync in Hplan.
  destruct (Z.ltb_spec CGROUPS_MAX_ENTRIES (set_len next)) as [|Hfit]; [done|]. injection Hplan as <-. rewrite Hm.
  unfold sync_cgroups. cbn [cp_remove cp_insert]. set (s0 := {| ss_inserted := 0 |}).
  destruct (sync_removes_spec m frame (ascending (sm_map m h ∖ next)) s0 (sm_map m h) h Hm) as (_ & M1 & L1); [done|].
  apply arrives_bind.
  - apply removes_calm; [done | apply ascending_NoDup|]. intros id Hid%ascending_elem. set_solver.
  - intros st Hst Hc1. specialize (L1 st Hst). rewrite ascending_elements in L1.
    apply arrives_bind; [|by intros st2 _ Hc2].
    apply inserts_calm; [done | apply ascending_NoDup | |].
    + intros id Hid%ascending_elem. rewrite L1. set_solver.
    + rewrite L1. unfold set_len, len in *. unfold ascending.
      rewrite (Permutation_length (merge_sort_Permutation Z.le (elements (next ∖ sm_map m h)))).
      change (length (elements (next ∖ sm_map m h))) with (size (next ∖ sm_map m h)).
      assert (Hsub : (size (sm_map m h ∖ (sm_map m h ∖ next)) + size (next ∖ sm_map m h) <= size next)%nat); [|lia].
      rewrite <- size_union by set_solver. apply subseteq_size. intros x. rewrite !elem_of_union, !elem_of_difference.
      destruct (base.decide (x ∈ next)); tauto.
Qed.
End set_map_calm.

Lemma sync_cgroups_entries m plan h : leaves (fun st h' => ss_entries st = set_len (sm_mirror m h')) (sync_cgroups m plan h).
Proof.
  unfold sync_cgroups, leaves, mbind, kio_bind.
  destruct (sync_removes m _ _ h) as [[tr [st|e]] h1]; [|done].
  destruct (sync_inserts m _ st h1) as [[tr2 [st2|e2]] h2]; [|done]. simpl. intros st' [= <-]. by destruct st2.
Qed.

(** A turn of the container map never touches the policy maps, keeps the mirror true, and
    calls the map synced only with the published set in it, counted right. *)
Lemma container_turn_reports_exactly render next at_ a h : kh_containers h = kh_cgroups_map h ->
  let '(_, a', h') := container_turn render next at_ a h in
  containers_frame h h' /\ kh_containers h' = kh_cgroups_map h' /\
  (ag_container_map_synced a' = true -> kh_cgroups_map h' = next /\ ag_container_map_entries a' = set_len next) /\
  (calm h -> set_len next <= CGROUPS_MAX_ENTRIES -> ag_container_map_synced a' = true).
Proof.
  intros Hm. unfold container_turn, plan_cgroup_sync.
  destruct (plan_map_sync (kh_containers h) next MAP_CGROUPS) as [plan|err] eqn:Hp.
  - destruct (plan_is_empty plan) eqn:He.
    + apply (plan_empty_same _ _ _ _ Hp) in He as <-. destruct a. by repeat split.
    + destruct (sync_cgroups_spec containers_map containers_frame next MAP_CGROUPS plan h Hp Hm) as ([_ [F _]] & M & L).
      pose proof (sync_cgroups_entries containers_map plan h) as N. unfold leaves in L, N.
      pose proof (fun Hc => sync_cgroups_calm containers_map containers_frame next MAP_CGROUPS plan h Hc Hp Hm) as C.
      unfold sync_container_cgroups. destruct (sync_cgroups containers_map plan h) as [[tr [st|e]] h'] eqn:E; simpl in *.
      * rewrite (N _ eq_refl). simpl in M. rewrite M, (L _ eq_refl). destruct a. split; [apply F|]. by repeat split.
      * destruct a. repeat split; try apply F; try done. intros Hc. destruct (C Hc) as [Hok _]. done.
  - destruct a. repeat split; try done. intros _ Hfit. unfold plan_map_sync in Hp.
    by rewrite (proj2 (Z.ltb_ge _ _) Hfit) in Hp.
Qed.

Lemma arrives_ret {A} (a : A) h : calm h -> arrives ((mret a : kio A) h).
Proof. done. Qed.

Lemma retire_arrives plan a h : calm h -> length (kh_rules h) = FULL -> arrives (publish_step plan RetireRules a h).
Proof.
  intros Hc Hl. unfold publish_step. apply arrives_bind; [|intros; by apply arrives_ret].
  apply write_slots_calm; [done|]. fold FULL. lia.
Qed.

Lemma select_arrives plan a h want : calm h -> kh_selected h = kh_selected_map h ->
  plan_map_sync (kh_selected h) want MAP_SELECTED = Ok plan -> arrives (publish_step plan PublishSelected a h).
Proof.
  intros Hc Hm Hplan. unfold publish_step. apply arrives_bind; [|intros; by apply arrives_ret].
  by eapply (sync_cgroups_calm selected_map selected_frame).
Qed.

Lemma rules_arrive plan a h spec : calm h -> length (kh_rules h) = FULL ->
  (forall l, kernel_rules_for_last_good_on a l = Some (compile_kernel_rules_for spec l)) ->
  arrives (publish_step plan PublishRules a h) /\
  leaves (fun a' _ => a' = mark_kernel_rules_synced a (compile_kernel_rules_for spec (kh_layout h))
    (len (krs_rules (compile_kernel_rules_for spec (kh_layout h))))) (publish_step plan PublishRules a h).
Proof.
  intros Hc Hl Hr. unfold publish_step. rewrite Hr. set (rules := compile_kernel_rules_for spec (kh_layout h)).
  assert (Hw : arrives (sync_kernel_rules rules h) /\ leaves (fun n _ => n = len (krs_rules rules)) (sync_kernel_rules rules h)).
  { unfold sync_kernel_rules. pose proof (compiled_count spec (kh_layout h)) as Hfit. fold rules in Hfit.
    apply Z.ltb_ge in Hfit. rewrite Hfit. fold FULL. split.
    - apply arrives_bind; [apply write_or_clear_calm; [done | lia] | intros; by apply arrives_ret].
    - apply leaves_bind. by intros [] _ n [= <-]. }
  destruct Hw as [Hw1 Hw2]. split.
  - apply arrives_bind; [done | intros; by apply arrives_ret].
  - apply leaves_bind. intros n Hn a' [= <-]. by rewrite (Hw2 n Hn).
Qed.

Lemma retire_keeps plan a h : let x := publish_step plan RetireRules a h in
  kh_selected x.2 = kh_selected h /\ kh_selected_map x.2 = kh_selected_map h /\ kh_layout x.2 = kh_layout h /\
  length (kh_rules x.2) = length (kh_rules h) /\ leaves (fun a' _ => a' = a) x.
Proof.
  unfold publish_step, mbind, kio_bind, leaves. destruct (clear_spec h) as [[_ (A1 & A2 & A3 & A4 & _)] _].
  destruct (clear_kernel_rules h) as [[tr [[]|e]] h1]; simpl in *; (split; [done|]); (split; [done|]); (split; [done|]);
    (split; [done|]); congruence.
Qed.

Lemma select_keeps plan a h want : kh_selected h = kh_selected_map h ->
  plan_map_sync (kh_selected h) want MAP_SELECTED = Ok plan ->
  let x := publish_step plan PublishSelected a h in
  kh_selected x.2 = kh_selected_map x.2 /\ kh_layout x.2 = kh_layout h /\ length (kh_rules x.2) = length (kh_rules h) /\
  leaves (fun a' _ => a' = a) x.
Proof.
  intros Hm Hplan. unfold publish_step, sync_selected_cgroups, mbind, kio_bind, leaves.
  destruct (sync_cgroups_spec selected_map selected_frame want MAP_SELECTED plan h Hplan Hm) as ([_ P] & M & _).
  destruct P as [(E1 & E2 & _) _].
  destruct (sync_cgroups selected_map plan h) as [[tr [st|e]] h1]; simpl in *; (split; [done|]); (split; [done|]);
    (split; [by rewrite E1|]); congruence.
Qed.

(** The sequence of a changed policy succeeds and records what it installed. *)
Lemma full_sequence_arrives plan a h spec want : calm h -> sound (kh_layout h) h ->
  (forall l, kernel_rules_for_last_good_on a l = Some (compile_kernel_rules_for spec l)) ->
  plan_map_sync (kh_selected h) want MAP_SELECTED = Ok plan ->
  let x := publish_steps plan ([RetireRules] ++ (if negb (plan_is_empty plan) then [PublishSelected] else []) ++ [PublishRules]) a h in
  arrives x /\ leaves (fun a' _ => a' = mark_kernel_rules_synced a (compile_kernel_rules_for spec (kh_layout h))
    (len (krs_rules (compile_kernel_rules_for spec (kh_layout h))))) x.
Proof.
  intros Hc (S1 & S2 & S3) Hr Hplan.
  assert (Hlast : forall h1, calm h1 -> sound (kh_layout h) h1 ->
    arrives (publish_steps plan [PublishRules] a h1) /\
    leaves (fun a' _ => a' = mark_kernel_rules_synced a (compile_kernel_rules_for spec (kh_layout h))
      (len (krs_rules (compile_kernel_rules_for spec (kh_layout h))))) (publish_steps plan [PublishRules] a h1)).
  { intros h1 Hc1 (T1 & T2 & T3). destruct (rules_arrive plan a h1 spec Hc1 T1 Hr) as [A L]. rewrite T3 in L.
    cbn [publish_steps]. split; [apply arrives_bind; [done | intros; by apply arrives_ret]|].
    apply leaves_bind. intros a' Ha b [= <-]. exact (L a' Ha). }
  set (done_with := fun (a' : Agent) (_ : KernelHandle) => a' = mark_kernel_rules_synced a
    (compile_kernel_rules_for spec (kh_layout h)) (len (krs_rules (compile_kernel_rules_for spec (kh_layout h))))) in *.
  cbn [app publish_steps]. destruct (retire_keeps plan a h) as (K1 & K2 & K3 & K4 & K5).
  pose proof (retire_arrives plan a h Hc S1) as Har.
  assert (Hs1 : sound (kh_layout h) (publish_step plan RetireRules a h).2) by (repeat split; congruence).
  assert (Hnext : forall a1, (publish_step plan RetireRules a h).1.2 = Ok a1 ->
    let x := publish_steps plan ((if negb (plan_is_empty plan) then [PublishSelected] else []) ++ [PublishRules]) a1
      (publish_step plan RetireRules a h).2 in arrives x /\ leaves done_with x).
  { intros a1 Ha1. rewrite (K5 a1 Ha1). destruct (plan_is_empty plan); cbn [negb app]; [apply Hlast; [apply Har | done]|].
    set (h1 := (publish_step plan RetireRules a h).2) in *. cbn [publish_steps].
    assert (Hp1 : plan_map_sync (kh_selected h1) want MAP_SELECTED = Ok plan) by (by rewrite K1).
    assert (Hm1 : kh_selected h1 = kh_selected_map h1) by apply Hs1.
    pose proof (select_arrives plan a h1 want (proj2 Har) Hm1 Hp1) as Har1.
    destruct (select_keeps plan a h1 want Hm1 Hp1) as (Q1 & Q2 & Q3 & Q4).
    assert (Hs2 : sound (kh_layout h) (publish_step plan PublishSelected a h1).2)
      by (destruct Hs1 as (T1 & T2 & T3); repeat split; congruence).
    split.
    - apply arrives_bind; [done|]. intros a2 Ha2 Hc2. rewrite (Q4 a2 Ha2). by apply Hlast.
    - apply leaves_bind. intros a2 Ha2. rewrite (Q4 a2 Ha2). apply Hlast; [apply Har1 | done]. }
  split.
  - apply arrives_bind; [done|]. intros a1 Ha1 _. by apply Hnext.
  - apply leaves_bind. intros a1 Ha1. by apply Hnext.
Qed.

(** What a turn leaves when it arrives. *)
Definition in_place (b : LoadedBundle) (want : gset Z) (published : option string) (h : KernelHandle) : Prop :=
  published = Some (lb_digest b) /\
  kh_rules h = published_slots (krs_rules (compile_kernel_rules_for (lb_spec b) (kh_layout h))) /\
  kh_selected_map h = want.

Section calm_turn.
Context (H : Policies) (a : Agent) (b : LoadedBundle) (published : option string) (h : KernelHandle).
Context (Hinv : maps_inv H published h) (Hcalm : calm h) (Hgood : ld_last_good (ag_loader a) = Some b).
Notation want := (selected_cgroups_for_last_good a).

Lemma calm_changed_turn plan : last_good_digest a <> published ->
  plan_map_sync (kh_selected h) want MAP_SELECTED = Ok plan ->
  let '(_, a', published', h') := kernel_turn a published h in
  in_place b want published' h' /\ ag_kernel_rules_unsynced a' = None /\
  ag_kernel_rules_installed a' = len (krs_rules (compile_kernel_rules_for (lb_spec b) (kh_layout h))).
Proof.
  intros Hne Hplan. pose proof (sound_inv _ _ _ Hinv) as Hs.
  assert (Hr : forall l, kernel_rules_for_last_good_on a l = Some (compile_kernel_rules_for (lb_spec b) l))
    by (intros l; unfold kernel_rules_for_last_good_on; by rewrite Hgood).
  assert (Hin : (lb_digest b, lb_spec b, want) ∈ policy_in_force a ++ H)
    by (unfold policy_in_force; rewrite Hgood; set_solver).
  assert (Hst : start_state (kh_layout h) (policy_in_force a ++ H) h /\ kh_selected_map h = kh_selected h).
  { split; [split; [done|] | symmetry; apply Hinv]. eapply coherent_mono; [|apply Hinv].
    intros x Hx. apply elem_of_app. auto. }
  destruct (full_sequence (kh_layout h) _ plan a _ _ _ _ Hin Hr Hplan h Hst) as (_ & _ & L).
  destruct (full_sequence_arrives plan a h _ _ Hcalm Hs Hr Hplan) as [A L2].
  unfold kernel_turn, republish_kernel_policy. rewrite Hplan. unfold plan_kernel_publish.
  rewrite bool_decide_eq_false_2 by done. simpl negb. cbn iota. simpl is_empty. cbn iota.
  unfold mbind at 1, kio_bind at 1. unfold arrives, leaves in *.
  destruct (publish_steps plan _ a h) as [[tr [a1|e]] h1]; simpl in *; [|by destruct A].
  destruct (L a1 eq_refl) as ((D0 & D0' & Dl) & D1 & D2). rewrite (L2 a1 eq_refl).
  split; [split; [unfold last_good_digest; by rewrite Hgood|]; split; [by rewrite Dl | done]|].
  by destruct a.
Qed.

Lemma calm_moved_turn plan : last_good_digest a = published -> digests_name_programs (policy_in_force a ++ H) ->
  plan_map_sync (kh_selected h) want MAP_SELECTED = Ok plan ->
  let '(_, _, published', h') := kernel_turn a published h in in_place b want published' h'.
Proof.
  intros He Hdig Hplan. pose proof (sound_inv _ _ _ Hinv) as Hs.
  assert (Hd : last_good_digest a = Some (lb_digest b)) by (unfold last_good_digest; by rewrite Hgood).
  assert (Hrules : kh_rules h = published_slots (krs_rules (compile_kernel_rules_for (lb_spec b) (kh_layout h)))).
  { destruct (mi_published _ _ _ Hinv (lb_digest b)) as (sp & w & Hin & Hru & _); [by rewrite <- He|].
    assert (sp = lb_spec b) as <-; [|done]. eapply Hdig; [apply elem_of_app; right; exact Hin|].
    apply elem_of_app. left. unfold policy_in_force. rewrite Hgood. by left. }
  unfold kernel_turn, republish_kernel_policy. rewrite Hplan. unfold plan_kernel_publish.
  rewrite bool_decide_eq_true_2 by done. destruct (plan_is_empty plan) eqn:Hp; simpl negb; cbn iota; simpl is_empty; cbn iota.
  - split; [congruence|]. split; [done|]. rewrite <- (mi_mirror _ _ _ Hinv). by eapply plan_empty_same.
  - destruct (select_keeps plan a h want (mi_mirror _ _ _ Hinv) Hplan) as (Q1 & Q2 & Q3 & Q4).
    pose proof (select_arrives plan a h want Hcalm (mi_mirror _ _ _ Hinv) Hplan) as [Aok _].
    destruct (sync_cgroups_spec selected_map selected_frame want MAP_SELECTED plan h Hplan (mi_mirror _ _ _ Hinv))
      as ([_ [(E1 & E2 & _) _]] & M & L).
    unfold publish_steps, publish_step, sync_selected_cgroups, mbind, kio_bind in *.
    destruct (sync_cgroups selected_map plan h) as [[tr [st|e]] h1]; simpl in *; [|done].
    split; [done|]. split; [by rewrite E1, E2 | exact (L st eq_refl)].
Qed.
End calm_turn.


(** ** Concrete turns *)

Definition label_is (k v : string) : LabelSelector := {| match_labels := {[k := v]}; match_expressions := [] |}.

Definition shell_policy (comm app : string) : EbpfSpec :=
  {| abi := AGENT_ABI; mode := MEnforce; disabled := false; priority := 0; default_action := Audit;
     selector := {| cluster_selector := no_labels; namespace_selector := label_is "app" app; workload_selector := no_labels;
       service_account_selector := no_labels; image := {| registries_allow := []; require_digest := false |} |};
     rules := [exec_rule ["execve"; "execveat"] [comm] []] |}.

Definition pod_of (app : string) : WorkloadIdentity := cold_identity true {["app" := app]}.

(** A node with two pods, and a bundle in force. *)
Definition node_with (digest : string) (spec : EbpfSpec) (pods : gmap Z WorkloadIdentity) : Agent :=
  (shop_agent []) {{ ag_cgroups := pods;
    ag_loader := {| ld_last_good := Some {| lb_digest := digest; lb_spec := spec; lb_raw := [] |};
                    ld_lkg_dir := None; ld_degraded := false; ld_dropped := 0 |} }}.

Definition two_pods : gmap Z WorkloadIdentity := {[1 := pod_of "web"; 2 := pod_of "db"]}.

(** The second policy arrives while the third write of its retirement fails; then the
    calls succeed. *)
Definition two_turns : list Agent :=
  [node_with "v1" (shell_policy "sh" "web") two_pods; node_with "v2" (shell_policy "nc" "db") two_pods].

Definition rough_handle : KernelHandle := handle_new Known (repeat None (64 + 1 + 64 + 2) ++ [Some "EBUSY"]).

Example rough_run :
  let '(_, p, h) := run_turns two_turns None rough_handle in
  p = None /\ kh_selected_map h = {[1]} /\ calm h.
Proof. vm_compute. done. Qed.

Definition shell_exec : ExecContext :=
  {| xc_previous := 0; xc_comm := Some (hook_comm "sh"); xc_in_cgroups := true; xc_in_selected := true; xc_self_slot := Some 9;
     xc_tgid := 10; xc_filename_offset := 96; xc_filename := Some (as_bytes "/bin/sh") |}.

Lemma shell_exec_ok : ctx_ok shell_exec.
Proof.
  constructor; simpl.
  - unfold comm_buf_ok, bytes_ok. apply (bool_decide_unpack _). vm_compute. exact I.
  - unfold bytes_ok. apply (bool_decide_unpack _). vm_compute. exact I.
Qed.

Lemma policies_of_bundle agents d s w : (d, s, w) ∈ policies_of agents ->
  exists a b, a ∈ agents /\ ld_last_good (ag_loader a) = Some b /\ d = lb_digest b /\ s = lb_spec b.
Proof.
  intros Hin. apply list_elem_of_In, in_flat_map in Hin as (a & Ha & Hin). apply list_elem_of_In in Hin, Ha.
  unfold policy_in_force in Hin. destruct (ld_last_good (ag_loader a)) as [b|] eqn:E; [|by apply elem_of_nil in Hin].
  apply list_elem_of_singleton in Hin. generalize dependent (selected_cgroups_for_last_good a). intros sel Hin.
  simplify_eq. exists a, b. done.
Qed.

(** The programs two digests of the runs below name. *)
Definition program_of (d : string) : EbpfSpec := if str_eqb d "v1" then shell_policy "sh" "web" else shell_policy "nc" "db".

Lemma digests_by_name agents :
  (forall a b, a ∈ agents -> ld_last_good (ag_loader a) = Some b -> lb_spec b = program_of (lb_digest b)) ->
  digests_name_programs (policies_of agents).
Proof.
  intros Hall d s1 w1 s2 w2 H1 H2.
  apply policies_of_bundle in H1 as (a1 & b1 & A1 & B1 & -> & ->). apply policies_of_bundle in H2 as (a2 & b2 & A2 & B2 & Hd & ->).
  rewrite (Hall _ _ A1 B1), (Hall _ _ A2 B2). by rewrite Hd.
Qed.

Lemma node_bundle digest pods b : ld_last_good (ag_loader (node_with digest (program_of digest) pods)) = Some b ->
  lb_spec b = program_of (lb_digest b).
Proof. unfold node_with. cbn. by intros [= <-]. Qed.

Lemma two_turns_digests agents : agents = two_turns \/ agents = node_with "v2" (shell_policy "nc" "db") two_pods :: two_turns ->
  digests_name_programs (policies_of agents).
Proof.
  intros Ha. apply digests_by_name. intros a b Hin.
  assert (Hn : a = node_with "v1" (program_of "v1") two_pods \/ a = node_with "v2" (program_of "v2") two_pods).
  { destruct Ha as [-> | ->]; unfold two_turns in Hin; set_unfold; tauto. }
  destruct Hn as [-> | ->]; apply node_bundle.
Qed.

(** The instant after the first policy is in place. *)
Definition first_in_place : KernelHandle := default rough_handle ((run_turns two_turns None rough_handle).1.1 !! 128%nat).

Lemma kernel_enforces_one_policy_witness :
  ferrum_bprm_check_security (kh_rules first_in_place) shell_exec = Some (- EPERM) /\
  exists spec, known (policies_of two_turns) spec /\
    ferrum_bprm_check_security (published_slots (krs_rules (compile_kernel_rules_for spec Known))) shell_exec = Some (- EPERM) /\
    exists d want, (d, spec, want) ∈ policies_of two_turns /\ 1 ∈ want.
Proof.
  assert (Hx : first_in_place ∈ (run_turns two_turns None rough_handle).1.1).
  { apply (list_elem_of_lookup_2 _ 128%nat). vm_compute. reflexivity. }
  assert (Href : ferrum_bprm_check_security (kh_rules first_in_place) shell_exec = Some (- EPERM)) by (vm_compute; reflexivity).
  split; [exact Href|].
  destruct (kernel_enforces_one_policy Known (repeat None (64 + 1 + 64 + 2) ++ [Some "EBUSY"]) two_turns first_in_place
    shell_exec 1 (two_turns_digests _ (or_introl eq_refl)) Hx shell_exec_ok eq_refl) as [H0 | (spec & Hk & Hh & Hs)].
  - vm_compute. reflexivity.
  - exfalso. assert (HE : Some 0 <> Some (- EPERM)) by (vm_compute; discriminate). exact (HE (eq_trans (eq_sym H0) Href)).
  - exists spec. split; [exact Hk|]. split; [exact Hh|]. apply Hs. vm_compute. reflexivity.
Defined.


(** ** Where a failure does not leave the rules off *)

(** Pods move under an unchanged policy and one insert fails: the node reports no rule
    installed while the slots still hold the policy. *)
Lemma failed_move_keeps_rules :
  let '(_, p, h) := run_turns [node_with "v1" (shell_policy "sh" "web") two_pods] None
    (handle_new Known (repeat None (64 + 1 + 64) ++ [Some "ENOMEM"])) in
  let '(_, a', p', h') := kernel_turn (node_with "v1" (shell_policy "sh" "web") {[1 := pod_of "web"; 3 := pod_of "web"]}) p h in
  p' = None /\ ag_kernel_rules_installed a' = 0 /\ length (occupied (kh_rules h')) = 1%nat.
Proof. vm_compute. done. Qed.

(** A set that does not fit stops the turn before the rules come off: whatever policy is
    in the slots stays in force. *)
Lemma oversized_set_keeps_rules a published h : CGROUPS_MAX_ENTRIES < set_len (selected_cgroups_for_last_good a) ->
  let '(_, a', p', h') := kernel_turn a published h in h' = h /\ p' = None /\ ag_kernel_rules_installed a' = 0.
Proof.
  intros Hbig. unfold kernel_turn, republish_kernel_policy, plan_map_sync.
  rewrite (proj2 (Z.ltb_lt _ _) Hbig). split; [done|]. split; [done|]. by destruct a.
Qed.

(** A failed write of the selected set is reported under the name of the other map. *)
Lemma selected_error_names_cgroups :
  (sync_selected_cgroups {| cp_insert := [7]; cp_remove := [] |} (handle_new Known [Some "ENOMEM"])).1.2 =
  Err (Degraded [Str MAP_CGROUPS; Lit " sync applied "; Num 0; Lit " removes and "; Num 0;
    Lit " inserts before failing ("; Num 0; Lit " entries live): "; Lit "degraded: "; Str MAP_SELECTED; Lit ": "; Str "ENOMEM"]).
Proof. vm_compute. done. Qed.
