(* ===== verification/Http.v ===== *)
(** * The HTTP framing of the API server client

    [read_head], [BodyReader], [read_body], [read_text_line] and [read_line] of the
    client in [crates/ferrum-k8smeta/src/watch.rs]. A connection is what it will deliver:
    pieces of bytes as they arrive and faults between them, and the end of the stream
    after the last; how the bytes are cut into pieces is up to the network. *)

From S2P Require Import Prelude RustStd RustText Ids Compiler Journal Proto Encoding.

Definition MAX_LINE_BYTES : Z := 4 * 1024 * 1024.
Definition MAX_HEADER_LINE_BYTES : Z := 8 * 1024.
Definition MAX_HEADER_LINES : nat := 100.
Definition MAX_BODY_BYTES : Z := 32 * 1024 * 1024.

(** ** Text *)

(** [String::from_utf8_lossy]: a maximal part that is no character becomes U+FFFD. *)
Definition REPLACEMENT : list Z := [0xEF; 0xBF; 0xBD].

Fixpoint from_utf8_lossy (l : list Z) : list Z :=
  match l with
  | [] => []
  | b0 :: l1 =>
      if b0 <? 0x80 then b0 :: from_utf8_lossy l1
      else if in_range 0xC2 0xDF b0 then
        match l1 with
        | b1 :: l2 => if is_cont b1 then b0 :: b1 :: from_utf8_lossy l2 else REPLACEMENT ++ from_utf8_lossy l1
        | [] => REPLACEMENT
        end
      else if in_range 0xE0 0xEF b0 then
        match l1 with
        | b1 :: l2 =>
            if utf8_second3 b0 b1 then
              match l2 with
              | b2 :: l3 => if is_cont b2 then b0 :: b1 :: b2 :: from_utf8_lossy l3 else REPLACEMENT ++ from_utf8_lossy l2
              | [] => REPLACEMENT
              end
            else REPLACEMENT ++ from_utf8_lossy l1
        | [] => REPLACEMENT
        end
      else if in_range 0xF0 0xF4 b0 then
        match l1 with
        | b1 :: l2 =>
            if utf8_second4 b0 b1 then
              match l2 with
              | b2 :: l3 =>
                  if is_cont b2 then
                    match l3 with
                    | b3 :: l4 =>
                        if is_cont b3 then b0 :: b1 :: b2 :: b3 :: from_utf8_lossy l4 else REPLACEMENT ++ from_utf8_lossy l3
                    | [] => REPLACEMENT
                    end
                  else REPLACEMENT ++ from_utf8_lossy l2
              | [] => REPLACEMENT
              end
            else REPLACEMENT ++ from_utf8_lossy l1
        | [] => REPLACEMENT
        end
      else REPLACEMENT ++ from_utf8_lossy l1
  end.

Definition is_eol (b : Z) : bool := (b =? 13) || (b =? 10).

Fixpoint drop_eol (l : list Z) : list Z :=
  match l with b :: l' => if is_eol b then drop_eol l' else l | [] => [] end.

(** [trim_end_matches(['\r', '\n'])]. *)
Definition trim_end_eol (l : list Z) : list Z := rev (drop_eol (rev l)).

(** [str::contains]. *)
Definition contains_str (pat l : list Z) : bool := match split_once_str pat l with Some _ => true | None => false end.

(** [usize::from_str_radix(text, 16)]: an optional plus sign, at least one digit, no
    overflow. The two errors are those of [ParseIntError]; [text] is not empty. *)
Fixpoint hex_value (acc : Z) (l : list Z) : result string Z :=
  match l with
  | [] => Ok acc
  | b :: l' =>
      match hex_nibble b with
      | Err _ => Err "invalid digit found in string"
      | Ok d => if 16 * acc + d <? U64 then hex_value (16 * acc + d) l' else Err "number too large to fit in target type"
      end
  end.

Definition parse_hex (l : list Z) : result string Z :=
  let digits := match l with sign :: (_ :: _) as l' => if sign =? 43 then tail l' else l | _ => l end in hex_value 0 digits.

(** ** The connection *)

Inductive Arrival := Data (bytes : list Z) | Fault (e : string).
Notation Conn := (list Arrival).

(** [inner.read(&mut buf[..cap])]: at most one piece, at most [cap] bytes of it; nothing
    is the end of the stream. *)
Fixpoint read (cap : nat) (c : Conn) : result msg (list Z) * Conn :=
  match c with
  | [] => (Ok [], [])
  | Data [] :: c' => read cap c'
  | Data bytes :: c' => (Ok (take cap bytes), Data (drop cap bytes) :: c')
  | Fault e :: c' => (Err [Str e], c')
  end.

(** The bytes up to the first line feed, it included. *)
Fixpoint upto_nl (l : list Z) : option (list Z * list Z) :=
  match l with
  | [] => None
  | b :: l' => if b =? 10 then Some ([b], l') else '(pre, post) ← upto_nl l'; Some (b :: pre, post)
  end.

(** [reader.take(limit).read_until(b'\n', &mut raw)], piece by piece. *)
Fixpoint read_until (limit : nat) (raw : list Z) (c : Conn) : result msg (list Z) * Conn :=
  match limit, c with
  | O, _ => (Ok raw, c)
  | _, [] => (Ok raw, [])
  | _, Fault e :: c' => (Err [Str e], c')
  | _, Data bytes :: c' =>
      match upto_nl (take limit bytes) with
      | Some (pre, post) => (Ok (raw ++ pre), Data (post ++ drop limit bytes) :: c')
      | None =>
          if (limit <? length bytes)%nat then (Ok (raw ++ take limit bytes), Data (drop limit bytes) :: c')
          else read_until (limit - length bytes) (raw ++ bytes) c'
      end
  end.

Definition ends_with_nl (l : list Z) : bool := match rev l with 10 :: _ => true | _ => false end.

(** The line as text; the empty one is the end of the stream. *)
Definition read_text_line (c : Conn) : result msg (list Z) * Conn :=
  match read_until (Z.to_nat (MAX_HEADER_LINE_BYTES + 1)) [] c with
  | (Err e, c') => (Err e, c')
  | (Ok raw, c') =>
      let n := len raw in
      if (MAX_HEADER_LINE_BYTES <? n) || ((0 <? n) && negb (ends_with_nl raw))
      then (Err [Lit "header line exceeds "; Num MAX_HEADER_LINE_BYTES; Lit " bytes"], c')
      else (Ok (from_utf8_lossy raw), c')
  end.

(** ** The head of a response *)

Record Head := { hd_status : Z; hd_chunked : bool; hd_content_length : option Z }.

Definition status_of (line : list Z) : option Z := split_whitespace line !! 1%nat ≫= parse_u16.

(** One header line. *)
Definition note_header (line : list Z) (h : Head) : Head :=
  match split_once 58 line with
  | None => h
  | Some (name, value) =>
      let value := trim_bytes value in
      if eq_ignore_ascii_case name (as_bytes "transfer-encoding") && contains_str (as_bytes "chunked") (to_ascii_lowercase value)
      then {| hd_status := hd_status h; hd_chunked := true; hd_content_length := hd_content_length h |}
      else if eq_ignore_ascii_case name (as_bytes "content-length")
      then {| hd_status := hd_status h; hd_chunked := hd_chunked h; hd_content_length := parse_u64 value |}
      else h
  end.

(** The loop, with [left] lines allowed still; [h] is there once the status line is. *)
Fixpoint read_head_lines (left : nat) (h : option Head) (c : Conn) : Result Head * Conn :=
  match left with
  | O => (Err (Degraded [Lit "apiserver sent more than "; Num (Z.of_nat MAX_HEADER_LINES); Lit " header lines"]), c)
  | S left' =>
      match read_text_line c with
      | (Err e, c') => (Err (Degraded (Lit "apiserver response: " :: e)), c')
      | (Ok [], c') => (Err (Degraded [Lit "apiserver closed before headers"]), c')
      | (Ok text, c') =>
          let line := trim_end_eol text in
          match h with
          | None =>
              match status_of line with
              | None => (Err (Degraded [Lit "bad status line "; Dbg (string_of_bytes line)]), c')
              | Some status =>
                  read_head_lines left' (Some {| hd_status := status; hd_chunked := false; hd_content_length := None |}) c'
              end
          | Some h' => if is_empty line then (Ok h', c') else read_head_lines left' (Some (note_header line h')) c'
          end
      end
  end.

Definition read_head (c : Conn) : Result Head * Conn := read_head_lines MAX_HEADER_LINES None c.

(** ** The body of a response *)

Inductive BodyReader := Chunked (remaining : Z) | Plain (remaining : Z).

Definition body_new (h : Head) : BodyReader :=
  if hd_chunked h then Chunked 0 else Plain (default (U64 - 1) (hd_content_length h)).

(** The text before [;] in a size line. *)
Definition size_text (text : list Z) : list Z :=
  trim_bytes (match split_once 59 (trim_end_eol text) with Some (size, _) => size | None => trim_end_eol text end).

(** The size line of a chunk; [None] ends the body. *)
Definition chunk_size (c : Conn) : result msg (option Z) * Conn :=
  match read_text_line c with
  | (Err e, c') => (Err e, c')
  | (Ok [], c') => (Ok None, c')
  | (Ok text, c') =>
      if is_empty (size_text text) then (Ok None, c')
      else match parse_hex (size_text text) with
           | Err e => (Err [Lit "chunk size: "; Str e], c')
           | Ok size => (Ok (if size =? 0 then None else Some size), c')
           end
  end.

(** [impl Read for BodyReader]. The end of a chunk is read with its last bytes, and what
    that read answers is ignored. *)
Definition body_read (cap : Z) (b : BodyReader) (c : Conn) : result msg (list Z) * BodyReader * Conn :=
  match b with
  | Plain remaining =>
      if remaining =? 0 then (Ok [], b, c)
      else match read (Z.to_nat (Z.min cap remaining)) c with
           | (Err e, c') => (Err e, b, c')
           | (Ok bytes, c') => (Ok bytes, Plain (remaining - len bytes), c')
           end
  | Chunked remaining =>
      match (if remaining =? 0 then chunk_size c else (Ok (Some remaining), c)) with
      | (Err e, c') => (Err e, b, c')
      | (Ok None, c') => (Ok [], b, c')
      | (Ok (Some size), c') =>
          match read (Z.to_nat (Z.min cap size)) c' with
          | (Err e, c'') => (Err e, Chunked size, c'')
          | (Ok bytes, c'') =>
              let remaining' := size - len bytes in
              (Ok bytes, Chunked remaining', if remaining' =? 0 then snd (read_text_line c'') else c'')
          end
      end
  end.

(** ** The two loops over a body

    [fuel] is one more than what the connection will still deliver ([weight]); a read
    that delivers something uses some of it up. *)

Definition body_too_large : FerrumError :=
  Degraded [Lit "apiserver body exceeds "; Num MAX_BODY_BYTES; Lit " bytes; refusing to buffer it"].

Fixpoint read_body_loop (fuel : nat) (out : list Z) (b : BodyReader) (c : Conn) : option (Result (list Z) * list Z) :=
  match fuel with
  | O => None
  | S fuel' =>
      match body_read 8192 b c with
      | (Err e, _, _) => Some (Err (Degraded (Lit "apiserver body: " :: e)), out)
      | (Ok [], _, _) => Some (Ok out, out)
      | (Ok bytes, b', c') =>
          if MAX_BODY_BYTES <? len out + len bytes then Some (Err body_too_large, out)
          else read_body_loop fuel' (out ++ bytes) b' c'
      end
  end.

Definition weight_of (a : Arrival) : nat := match a with Data bytes => length bytes | Fault _ => 1 end.
Definition weight (c : Conn) : nat := list_sum (map weight_of c).

(** The body, beside what the buffer holds when the call returns. *)
Definition read_body (c : Conn) (h : Head) : option (Result (list Z) * list Z) :=
  if match hd_content_length h with Some n => MAX_BODY_BYTES <? n | None => false end
  then Some (Err body_too_large, [])
  else read_body_loop (S (weight c)) [] (body_new h) c.

(** What [read_line] leaves in [out], with its answer. *)
Fixpoint read_line_loop (fuel : nat) (out : list Z) (b : BodyReader) (c : Conn)
    : option (result msg Z * list Z * BodyReader * Conn) :=
  match fuel with
  | O => None
  | S fuel' =>
      match body_read 1 b c with
      | (Err e, b', c') => Some (Err e, out, b', c')
      | (Ok [], b', c') => Some (Ok (len out), out, b', c')
      | (Ok (byte :: _), b', c') =>
          if byte =? 10 then Some (Ok (len out + 1), out, b', c')
          else if MAX_LINE_BYTES <? len out + 1 then Some (Err [Lit "watch frame too large"], out ++ [byte], b', c')
          else read_line_loop fuel' (out ++ [byte]) b' c'
      end
  end.

Definition read_line (b : BodyReader) (c : Conn) : option (result msg Z * list Z * BodyReader * Conn) :=
  read_line_loop (S (weight c)) [] b c.

(** ** Connections that deliver the same

    Two connections are the same when they deliver the same bytes and faults in the same
    order, however the bytes are cut into pieces. *)

Definition item : Type := Z + string.

Definition items_of (a : Arrival) : list item := match a with Data bytes => map inl bytes | Fault e => [inr e] end.
Definition items (c : Conn) : list item := flat_map items_of c.

Definition ceq (c d : Conn) : Prop := items c = items d.

#[global] Instance ceq_equiv : Equivalence ceq.
Proof. split; unfold ceq; [done | by intros ??-> | congruence]. Qed.

Lemma weight_items c : weight c = length (items c).
Proof.
  unfold weight, items. induction c as [|a c IH]; simpl; [done|]. rewrite length_app, <- IH.
  destruct a; simpl; by rewrite ?length_map.
Qed.

Lemma items_data bytes c : items (Data bytes :: c) = map inl bytes ++ items c.
Proof. done. Qed.

(** A read delivers the next bytes, at least one unless nothing is left. *)
Inductive read_answer (cap : nat) : list item -> result msg (list Z) -> list item -> Prop :=
| answer_end : read_answer cap [] (Ok []) []
| answer_fault e l : read_answer cap (inr e :: l) (Err [Str e]) l
| answer_bytes b bytes l : (length (b :: bytes) <= cap)%nat ->
    read_answer cap (inl b :: map inl bytes ++ l) (Ok (b :: bytes)) l.

Lemma read_spec cap c : (0 < cap)%nat ->
  read_answer cap (items c) (fst (read cap c)) (items (snd (read cap c))).
Proof.
  intros Hcap. induction c as [|[[|b bytes]|e] c IH]; simpl; [constructor | exact IH | | constructor].
  destruct cap as [|cap]; [lia|]. simpl. rewrite <- (take_drop cap bytes) at 1. rewrite map_app, <- app_assoc.
  constructor. simpl. rewrite length_take. lia.
Qed.

(** The line of a connection, byte by byte. *)
Fixpoint item_until (limit : nat) (raw : list Z) (l : list item) : result msg (list Z) * list item :=
  match limit, l with
  | O, _ => (Ok raw, l)
  | _, [] => (Ok raw, [])
  | _, inr e :: l' => (Err [Str e], l')
  | S limit', inl b :: l' => if b =? 10 then (Ok (raw ++ [b]), l') else item_until limit' (raw ++ [b]) l'
  end.

Lemma item_until_bytes bytes : forall limit raw l, upto_nl (take limit bytes) = None ->
  item_until limit raw (map inl bytes ++ l) =
  if (limit <? length bytes)%nat then (Ok (raw ++ take limit bytes), map inl (drop limit bytes) ++ l)
  else item_until (limit - length bytes) (raw ++ bytes) l.
Proof.
  induction bytes as [|b bytes IH]; intros [|limit] raw l; simpl; try (by rewrite app_nil_r).
  destruct (b =? 10) eqn:E; [done|]. destruct (upto_nl (take limit bytes)) as [[]|] eqn:Hn; [done|]. intros _.
  rewrite IH by done. rewrite <- !app_assoc. simpl. done.
Qed.

Lemma item_until_nl bytes : forall limit raw l pre post, upto_nl (take limit bytes) = Some (pre, post) ->
  item_until limit raw (map inl bytes ++ l) = (Ok (raw ++ pre), map inl (post ++ drop limit bytes) ++ l).
Proof.
  induction bytes as [|b bytes IH]; intros [|limit] raw l pre post; simpl; try done.
  destruct (b =? 10) eqn:E.
  - intros [= <- <-]. by rewrite take_drop.
  - destruct (upto_nl (take limit bytes)) as [[pre' post']|] eqn:Hn; [|done]. simpl. intros [= <- <-].
    rewrite (IH _ _ _ _ _ Hn). by rewrite <- app_assoc.
Qed.

Lemma read_until_items c : forall limit raw,
  item_until limit raw (items c) = (fst (read_until limit raw c), items (snd (read_until limit raw c))).
Proof.
  induction c as [|[bytes|e] c IH]; intros [|limit] raw; try done.
  rewrite items_data. cbn [read_until]. destruct (upto_nl (take (S limit) bytes)) as [[pre post]|] eqn:Hn.
  - by rewrite (item_until_nl _ _ _ _ _ _ Hn).
  - rewrite (item_until_bytes _ _ _ _ Hn). destruct (S limit <? length bytes)%nat eqn:El; [done | apply IH].
Qed.

(** The same answer, and connections that go on the same. *)
Definition same {A} (x y : A * Conn) : Prop := x.1 = y.1 /\ ceq x.2 y.2.

(** Reading a line does not depend on the pieces. *)
Lemma read_text_line_same c d : ceq c d -> same (read_text_line c) (read_text_line d).
Proof.
  intros H. unfold read_text_line. set (limit := Z.to_nat (MAX_HEADER_LINE_BYTES + 1)).
  pose proof (read_until_items c limit []) as Hc. pose proof (read_until_items d limit []) as Hd.
  rewrite H, Hd in Hc. injection Hc as Hr Hs.
  destruct (read_until limit [] c) as [r c'], (read_until limit [] d) as [r' d']. simpl in Hr, Hs. subst r'.
  destruct r; [case_match|]; done.
Qed.

Lemma chunk_size_same c d : ceq c d -> same (chunk_size c) (chunk_size d).
Proof.
  intros [Hr Hs]%read_text_line_same. unfold chunk_size.
  destruct (read_text_line c) as [r c'], (read_text_line d) as [r' d']. simpl in Hr, Hs. subst r'.
  destruct r as [[|]|]; [| |]; repeat case_match; done.
Qed.

Lemma read_head_same left : forall h c d, ceq c d -> same (read_head_lines left h c) (read_head_lines left h d).
Proof.
  induction left as [|left IH]; intros h c d H; [done|]. simpl.
  destruct (read_text_line_same c d H) as [Hr Hs].
  destruct (read_text_line c) as [r c'], (read_text_line d) as [r' d']. simpl in Hr, Hs. subst r'.
  destruct r as [[|b text]|]; try done. repeat case_match; try done; by apply IH.
Qed.

(** A byte at a time, neither does reading a body. *)
Lemma read1_same c d : ceq c d -> same (read 1 c) (read 1 d).
Proof.
  intros H. pose proof (read_spec 1 c ltac:(lia)) as Rc. pose proof (read_spec 1 d ltac:(lia)) as Rd.
  rewrite H in Rc. unfold same, ceq. destruct (read 1 c) as [r c'], (read 1 d) as [r' d']. simpl in *.
  inversion Rc as [Hi|e l Hi|b bytes l Hl Hi]; subst; rewrite <- Hi in Rd;
    inversion Rd as [Hi'|e' l' Hi'|b' bytes' l' Hl' Hi']; subst; try done.
  destruct bytes; [|simpl in *; lia]. destruct bytes'; [|simpl in *; lia]. by simplify_eq/=.
Qed.

(** ** A body, part by part *)

Definition remaining (b : BodyReader) : Z := match b with Chunked n | Plain n => n end.
Definition with_remaining (b : BodyReader) (n : Z) : BodyReader := match b with Chunked _ => Chunked n | Plain _ => Plain n end.

(** The length of the part that is read next; none ends the body. *)
Definition part_left (b : BodyReader) (c : Conn) : result msg Z * Conn :=
  match b with
  | Chunked 0 => let '(r, c') := chunk_size c in (default 0 <$> r, c')
  | _ => (Ok (remaining b), c)
  end.

Definition part_end (b : BodyReader) (c : Conn) : Conn := match b with Chunked 0 => snd (read_text_line c) | _ => c end.

Lemma hex_value_range l : forall acc n, 0 <= acc -> hex_value acc l = Ok n -> 0 <= n.
Proof.
  induction l as [|b l IH]; intros acc n Ha; simpl; [by intros [= <-]|].
  destruct (hex_nibble b) as [d|] eqn:Ed; [|done]. destruct (_ <? _); [|done]. apply IH.
  unfold hex_nibble, in_range in Ed. repeat case_match; simplify_eq; lia.
Qed.

Lemma chunk_size_pos c n c' : chunk_size c = (Ok (Some n), c') -> 0 < n.
Proof.
  unfold chunk_size. destruct (read_text_line c) as [[[|b text]|e] c1]; try done.
  destruct (is_empty _); [done|]. destruct (parse_hex _) as [size|] eqn:E; [|done].
  assert (0 <= size) by (eapply hex_value_range; [|exact E]; lia).
  destruct (Z.eqb_spec size 0); intros [= <- <-]; lia.
Qed.

Lemma body_read_parts cap b c : 0 <= remaining b ->
  body_read cap b c =
  match part_left b c with
  | (Err e, c') => (Err e, b, c')
  | (Ok n, c') =>
      if n =? 0 then (Ok [], b, c')
      else match read (Z.to_nat (Z.min cap n)) c' with
           | (Err e, c'') => (Err e, with_remaining b n, c'')
           | (Ok bytes, c'') => let b' := with_remaining b (n - len bytes) in (Ok bytes, b', part_end b' c'')
           end
  end.
Proof.
  intros Hb. unfold body_read. destruct b as [n|n]; simpl in Hb.
  - unfold part_left. destruct (Z.eqb_spec n 0) as [->|Hn].
    + destruct (chunk_size c) as [[[size|]|e] c'] eqn:Ec; simpl; try done.
      apply chunk_size_pos in Ec. destruct (Z.eqb_spec size 0); [lia|].
      destruct (read _ c') as [[bytes|e] c'']; [|done]. unfold part_end.
      destruct (size - len bytes) eqn:E; done.
    + destruct n as [|n|n]; try lia. simpl. destruct (read _ c) as [[bytes|e] c'']; [|done]. unfold part_end.
      destruct (Z.pos n - len bytes) eqn:E; done.
  - simpl. destruct (Z.eqb_spec n 0) as [->|Hn]; [done|]. destruct (read _ c) as [[bytes|e] c'']; done.
Qed.

Lemma part_left_same b c d : ceq c d -> same (part_left b c) (part_left b d).
Proof.
  intros H. destruct b as [[|n|n]|n]; try done. unfold part_left. destruct (chunk_size_same c d H) as [Hr Hs].
  destruct (chunk_size c), (chunk_size d). simpl in *. by subst.
Qed.

Lemma part_left_ok b c n c' : 0 <= remaining b -> part_left b c = (Ok n, c') -> 0 <= n.
Proof.
  intros Hb. destruct b as [[|m|m]|m]; simpl; try (by intros [= <- <-]).
  destruct (chunk_size c) as [[[size|]|e] c1] eqn:Ec; simpl; intros [= <- <-]; [apply chunk_size_pos in Ec|]; lia.
Qed.

Lemma part_left_again b n c : 0 < n -> part_left (with_remaining b n) c = (Ok n, c).
Proof. intros Hn. by destruct b, n. Qed.

Lemma part_end_same b c d : ceq c d -> ceq (part_end b c) (part_end b d).
Proof. intros H. destruct b as [[|n|n]|n]; try done. apply (read_text_line_same _ _ H). Qed.

(** A byte at a time, reading a body does not depend on the pieces. *)
Lemma body_read1_same b c d : 0 <= remaining b -> ceq c d -> same (body_read 1 b c) (body_read 1 b d).
Proof.
  intros Hb H. rewrite !body_read_parts by done. destruct (part_left_same b c d H) as [Hr Hs].
  destruct (part_left b c) as [r c'] eqn:Ec, (part_left b d) as [r' d']. simpl in Hr, Hs. subst r'.
  destruct r as [n|e]; [|done]. apply part_left_ok in Ec; [|done]. destruct (Z.eqb_spec n 0); [done|].
  replace (Z.to_nat (Z.min 1 n)) with 1%nat by lia. destruct (read1_same c' d' Hs) as [Hr' Hs'].
  destruct (read 1 c') as [r1 c1], (read 1 d') as [r2 d1]. simpl in Hr', Hs'. subst r2.
  destruct r1; [|done]. split; [done | by apply part_end_same].
Qed.

(** ** What a body delivers *)

(** The bytes that reads of one byte each deliver. *)
Inductive reads : BodyReader -> Conn -> list Z -> BodyReader -> Conn -> Prop :=
| reads_nil b c c' : ceq c c' -> reads b c [] b c'
| reads_cons b c x b1 c1 bytes b' c' : body_read 1 b c = (Ok [x], b1, c1) -> reads b1 c1 bytes b' c' ->
    reads b c (x :: bytes) b' c'.

Lemma body_read1_step b c b1 c1 bytes : 0 <= remaining b -> body_read 1 b c = (Ok bytes, b1, c1) ->
  0 <= remaining b1 /\ (length bytes <= 1)%nat.
Proof.
  intros Hb. rewrite body_read_parts by done. destruct (part_left b c) as [[n|e] c'] eqn:Ep; [|done].
  apply part_left_ok in Ep; [|done]. destruct (Z.eqb_spec n 0); [intros [= <- <- <-]; split; [done | simpl; lia]|].
  replace (Z.to_nat (Z.min 1 n)) with 1%nat by lia. pose proof (read_spec 1 c' ltac:(lia)) as R.
  destruct (read 1 c') as [r c2]. simpl in R. intros E. inversion R as [Hi|er l Hi|x xs l Hl Hi]; subst; cbv zeta in E; simplify_eq.
  - split; [destruct b; simpl; unfold len; simpl; lia | simpl; lia].
  - split; [|done]. destruct b; simpl; unfold len; simpl in *; lia.
Qed.

Lemma reads_ok b c bytes b' c' : reads b c bytes b' c' -> 0 <= remaining b -> 0 <= remaining b'.
Proof. induction 1 as [|?????????? IH]; intros Hb; [done|]. apply IH. by eapply body_read1_step. Qed.

Lemma reads_ceq b c bytes b' c' : reads b c bytes b' c' -> forall d d', 0 <= remaining b -> ceq c d -> ceq c' d' ->
  reads b d bytes b' d'.
Proof.
  induction 1 as [b c c' H|b c x b1 c1 bytes b' c' E _ IH]; intros d d' Hb Hc Hd.
  - constructor. by rewrite <- Hc, <- Hd.
  - pose proof (body_read1_same b c d Hb Hc) as [Hr Hs]. rewrite E in Hr, Hs.
    destruct (body_read 1 b d) as [[r b2] d1] eqn:Ed. simpl in Hr, Hs. simplify_eq.
    econstructor; [exact Ed|]. apply IH; [|done..]. by eapply body_read1_step.
Qed.

Lemma reads_app b c xs b1 c1 ys b2 c2 : 0 <= remaining b -> reads b c xs b1 c1 -> reads b1 c1 ys b2 c2 ->
  reads b c (xs ++ ys) b2 c2.
Proof.
  intros Hb H. induction H as [b c c' H|b c x b1 c1 bytes b' c' E _ IH]; intros Hy; simpl.
  - eapply reads_ceq; [exact Hy | done | by symmetry | done].
  - econstructor; [exact E|]. apply IH; [by eapply body_read1_step | done].
Qed.

Lemma reads_split b c xs ys b1 c1 b2 c2 : reads b c xs b1 c1 -> 0 <= remaining b -> reads b c (xs ++ ys) b2 c2 ->
  reads b1 c1 ys b2 c2.
Proof.
  induction 1 as [b c c' H|b c x b1 c1 xs b' c' E _ IH]; simpl; intros Hb Hy.
  - by eapply reads_ceq.
  - inversion Hy as [|? ? ? b3 c3 ? ? ? E3 Hr]; subst. rewrite E in E3. simplify_eq. apply IH; [|done]. by eapply body_read1_step.
Qed.

(** A part of which [bytes] are there to read. *)
Lemma part_reads b bytes : forall n c l, bytes <> [] -> len bytes <= n -> items c = map inl bytes ++ items l ->
  reads (with_remaining b n) c bytes (with_remaining b (n - len bytes)) (part_end (with_remaining b (n - len bytes)) l).
Proof.
  induction bytes as [|x bytes IH]; intros n c l Hne Hn Hi; [done|]. rewrite len_cons in *. pose proof (len_nonneg bytes) as Hl.
  pose proof (read_spec 1 c ltac:(lia)) as R. rewrite Hi in R.
  destruct (read 1 c) as [r c1] eqn:Er. simpl in R. inversion R as [|? ? Hx|y ys l' Hlen Hx]; subst; [].
  destruct ys; [|simpl in *; lia]. simpl in *. 
  assert (E : body_read 1 (with_remaining b n) c = (Ok [x], with_remaining b (n - 1), part_end (with_remaining b (n - 1)) c1)).
  { rewrite body_read_parts by (destruct b; simpl; lia). rewrite part_left_again by lia.
    destruct (Z.eqb_spec n 0); [lia|]. replace (Z.to_nat (Z.min 1 n)) with 1%nat by lia. rewrite Er. by destruct b. }
  econstructor; [exact E|]. destruct bytes as [|y bytes].
  - change (len (@nil Z)) with 0. replace (n - (1 + 0)) with (n - 1) by lia. constructor. apply part_end_same.
    unfold ceq. simpl in *. congruence.
  - rewrite len_cons in *. pose proof (len_nonneg bytes).
    assert (Hp : part_end (with_remaining b (n - 1)) c1 = c1) by (destruct b; simpl; [destruct (n - 1) eqn:?; [lia|..]|]; done).
    rewrite Hp. replace (n - (1 + (1 + len bytes))) with (n - 1 - (1 + len bytes)) by lia.
    apply IH; [done | lia | congruence].
Qed.

(** A read that opens a part goes on as one inside it. *)
Lemma reads_open b c n c1 bytes b' c' : 0 <= remaining b -> part_left b c = (Ok n, c1) -> n <> 0 -> bytes <> [] ->
  reads (with_remaining b n) c1 bytes b' c' -> reads b c bytes b' c'.
Proof.
  intros Hb Ep Hz Hne P. assert (Hn : 0 <= n) by (by eapply part_left_ok).
  inversion P as [|? ? x b1 c2 xs ? ? E1 P1]; subst; [done|]. econstructor; [|exact P1].
  rewrite body_read_parts in E1 by (by destruct b). rewrite part_left_again in E1 by lia.
  rewrite body_read_parts, Ep by done. destruct (Z.eqb_spec n 0); [done|].
  destruct (read _ c1) as [[bs|] c3]; [|done]. by destruct b.
Qed.

(** Any read delivers what single reads would, and stops where they do. *)
Lemma body_read_reads cap b c : 0 < cap -> 0 <= remaining b ->
  match body_read cap b c with
  | (Ok [], _, _) => (body_read 1 b c).1.1 = Ok []
  | (Ok bytes, b', c') => reads b c bytes b' c' /\ len bytes <= cap
  | (Err e, _, _) => (body_read 1 b c).1.1 = Err e
  end.
Proof.
  intros Hcap Hb. rewrite !(body_read_parts _ _ _ Hb). destruct (part_left b c) as [[n|e] c'] eqn:Ep; [|done].
  assert (Hn : 0 <= n) by (by eapply part_left_ok). destruct (Z.eqb_spec n 0) as [|Hz]; [done|].
  assert (Hm : (0 < Z.to_nat (Z.min cap n))%nat) by lia. pose proof (read_spec (Z.to_nat (Z.min cap n)) c' Hm) as R.
  replace (Z.to_nat (Z.min 1 n)) with 1%nat by lia. pose proof (read_spec 1 c' ltac:(lia)) as R1.
  destruct (read (Z.to_nat (Z.min cap n)) c') as [r c2]. simpl in R.
  inversion R as [Hi|er l Hi|x xs l Hl Hi]; subst; rewrite <- Hi in R1.
  - destruct (read 1 c') as [r1 c3]. simpl in R1. inversion R1; by subst.
  - destruct (read 1 c') as [r1 c3]. simpl in R1. inversion R1; by subst.
  - assert (Hlen : len (x :: xs) <= Z.min cap n) by (unfold len; lia). split; [|lia].
    pose proof (part_reads b (x :: xs) n c' c2 ltac:(done) ltac:(lia) (eq_sym Hi)) as P.
    by eapply reads_open.
Qed.

(** Bytes a connection delivers are gone from it. *)
Lemma item_until_le l : forall limit raw, (length (snd (item_until limit raw l)) <= length l)%nat.
Proof.
  induction l as [|[b|e] l IH]; intros [|limit] raw; simpl; try lia.
  destruct (b =? 10); simpl; [lia|]. specialize (IH limit (raw ++ [b])). lia.
Qed.

Lemma text_line_weight c : (weight (snd (read_text_line c)) <= weight c)%nat.
Proof.
  unfold read_text_line. set (limit := Z.to_nat _). pose proof (read_until_items c limit []) as H.
  pose proof (item_until_le (items c) limit []) as Hle. rewrite H in Hle. rewrite !weight_items.
  destruct (read_until limit [] c) as [[raw|e] c']; [case_match|]; done.
Qed.

Lemma part_left_weight b c : (weight (snd (part_left b c)) <= weight c)%nat.
Proof.
  destruct b as [[|n|n]|n]; simpl; try lia. unfold chunk_size. pose proof (text_line_weight c) as H.
  destruct (read_text_line c) as [[[|x text]|e] c']; simpl in *; repeat case_match; simplify_eq; simpl; lia.
Qed.

Lemma part_end_weight b c : (weight (part_end b c) <= weight c)%nat.
Proof. destruct b as [[|n|n]|n]; simpl; try lia. apply text_line_weight. Qed.

Lemma body_read_weight cap b c bytes b' c' : 0 < cap -> 0 <= remaining b -> body_read cap b c = (Ok bytes, b', c') ->
  bytes <> [] -> (weight c' < weight c)%nat /\ 0 <= remaining b'.
Proof.
  intros Hcap Hb. rewrite body_read_parts by done. pose proof (part_left_weight b c) as Hw.
  destruct (part_left b c) as [[n|e] c1] eqn:Ep; [|done]. apply part_left_ok in Ep; [|done]. simpl in Hw.
  destruct (Z.eqb_spec n 0) as [|Hz]; [by intros [= <- <- <-]|].
  pose proof (read_spec (Z.to_nat (Z.min cap n)) c1 ltac:(lia)) as R. rewrite !weight_items in *.
  destruct (read _ c1) as [r c2]. simpl in R. inversion R as [Hi|er l Hi|x xs l Hl Hi]; subst; try done;
    cbv zeta; intros [= <- <- <-] Hne; [done|].
  pose proof (part_end_weight (with_remaining b (n - len (x :: xs))) c2) as He. rewrite !weight_items in He.
  rewrite <- Hi in Hw. simpl in Hw. rewrite length_app, length_map in Hw. split; [rewrite ?weight_items; unfold item in *; lia|]. destruct b; simpl; unfold len; lia.
Qed.

(** Where reading stops: at the end of the body, or with an error. *)
Definition stops (b : BodyReader) (c : Conn) (e : result msg unit) : Prop :=
  (body_read 1 b c).1.1 = match e with Ok _ => Ok [] | Err m => Err m end.

(** All a body delivers, and how it ends. *)
Definition delivered (b : BodyReader) (c : Conn) (bytes : list Z) (e : result msg unit) : Prop :=
  exists b' c', reads b c bytes b' c' /\ stops b' c' e.

Lemma stops_ceq b c d e : 0 <= remaining b -> ceq c d -> stops b c e -> stops b d e.
Proof.
  unfold stops. intros Hb H. destruct (body_read1_same b c d Hb H) as [Hr _].
  destruct (body_read 1 b c) as [[r b1] c1], (body_read 1 b d) as [[r' b2] d1]. simpl in *. by simplify_eq.
Qed.

Lemma delivered_step b c x b1 c1 bytes e : 0 <= remaining b -> body_read 1 b c = (Ok [x], b1, c1) ->
  delivered b c bytes e <-> exists ys, bytes = x :: ys /\ delivered b1 c1 ys e.
Proof.
  intros Hb E. split.
  - intros (b' & c' & Hr & Hs). inversion Hr as [? ? ? H|? ? y b2 c2 ys ? ? E2 Hr2]; subst.
    + apply (stops_ceq _ _ c) in Hs; [|done|by symmetry]. unfold stops in Hs. rewrite E in Hs. by destruct e.
    + rewrite E in E2. simplify_eq. exists ys. split; [done|]. by exists b', c'.
  - intros (ys & -> & b' & c' & Hr & Hs). exists b', c'. split; [|done]. by econstructor.
Qed.

Lemma delivered_stop b c bytes e e' : 0 <= remaining b -> stops b c e' -> delivered b c bytes e -> bytes = [] /\ e = e'.
Proof.
  intros Hb Hs (b' & c' & Hr & He). unfold stops in *. inversion Hr as [? ? ? H|? ? y b2 c2 ys ? ? E2 Hr2]; subst.
  - apply (stops_ceq _ _ c) in He; [|done|by symmetry]. unfold stops in He. rewrite Hs in He.
    destruct e as [[]|], e' as [[]|]; by simplify_eq.
  - rewrite E2 in Hs. by destruct e'.
Qed.

Lemma delivered_ceq b c d bytes e : 0 <= remaining b -> ceq c d -> delivered b c bytes e -> delivered b d bytes e.
Proof. intros Hb H (b' & c' & Hr & Hs). exists b', c'. split; [|done]. by eapply reads_ceq. Qed.

Lemma delivered_after b c xs b1 c1 bytes e : reads b c xs b1 c1 -> 0 <= remaining b ->
  delivered b c bytes e <-> exists ys, bytes = xs ++ ys /\ delivered b1 c1 ys e.
Proof.
  induction 1 as [b c c' H|b c x b1 c1 xs b' c' E _ IH] in bytes |- *; intros Hb; simpl.
  - split; [intros Hd; exists bytes; split; [done | by eapply delivered_ceq]|].
    intros (ys & -> & Hd). eapply delivered_ceq; [done | by symmetry | done].
  - rewrite (delivered_step _ _ _ _ _ _ _ Hb E). assert (Hb1 : 0 <= remaining b1) by (by eapply body_read1_step).
    setoid_rewrite (fun ys => IH ys Hb1). naive_solver.
Qed.

Lemma delivered_total b c : 0 <= remaining b -> exists bytes e, delivered b c bytes e.
Proof.
  remember (weight c) as n eqn:Hn. revert b c Hn. induction (lt_wf n) as [n _ IH]. intros b c -> Hb.
  destruct (body_read 1 b c) as [[[bytes|e] b1] c1] eqn:E.
  - destruct bytes as [|x bytes].
    + exists [], (Ok tt), b, c. split; [by constructor|]. unfold stops. by rewrite E.
    + destruct (body_read_weight 1 b c _ _ _ ltac:(lia) Hb E ltac:(done)) as [Hw Hb1].
      destruct (body_read1_step _ _ _ _ _ Hb E) as [_ Hl]. destruct bytes; [|simpl in Hl; lia].
      destruct (IH _ Hw b1 c1 eq_refl Hb1) as (ys & e & Hd). exists (x :: ys), e. rewrite delivered_step by done. eauto.
  - exists [], (Err e), b, c. split; [by constructor|]. unfold stops. by rewrite E.
Qed.

Lemma delivered_det b c bytes e bytes' e' : 0 <= remaining b -> delivered b c bytes e -> delivered b c bytes' e' ->
  bytes = bytes' /\ e = e'.
Proof.
  intros Hb (b1 & c1 & Hr & Hs) Hd. rewrite (delivered_after _ _ _ _ _ _ _ Hr Hb) in Hd. destruct Hd as (ys & -> & Hd).
  apply reads_ok in Hr; [|done]. destruct (delivered_stop _ _ _ _ _ Hr Hs Hd) as [-> ->]. by rewrite app_nil_r.
Qed.

(** ** The loops read exactly what is delivered *)

Lemma read_body_loop_spec fuel : forall out b c bytes e, 0 <= remaining b -> (weight c < fuel)%nat ->
  len out <= MAX_BODY_BYTES -> delivered b c bytes e ->
  exists r buf, read_body_loop fuel out b c = Some (r, buf) /\ len buf <= MAX_BODY_BYTES /\
    if len out + len bytes <=? MAX_BODY_BYTES
    then buf = out ++ bytes /\ r = match e with Ok _ => Ok buf | Err m => Err (Degraded (Lit "apiserver body: " :: m)) end
    else r = Err body_too_large.
Proof.
  induction fuel as [|fuel IH]; intros out b c bytes e Hb Hf Ho Hd; [lia|]. cbn [read_body_loop].
  pose proof (body_read_reads 8192 b c ltac:(lia) Hb) as HR.
  assert (Hstop : forall e', stops b c e' -> bytes = [] /\ e = e') by (intros e' Hs; by eapply delivered_stop).
  destruct (body_read 8192 b c) as [[[[|x xs]|m] b1] c1] eqn:E.
  - destruct (Hstop (Ok tt) HR) as [-> ->]. exists (Ok out), out. rewrite app_nil_r.
    change (len (@nil Z)) with 0. destruct (Z.leb_spec (len out + 0) MAX_BODY_BYTES); [done | lia].
  - destruct HR as [HR Hx]. destruct (body_read_weight 8192 b c _ _ _ ltac:(lia) Hb E ltac:(done)) as [Hw Hb1].
    destruct (proj1 (delivered_after _ _ _ _ _ _ _ HR Hb) Hd) as (ys & -> & Hd'). rewrite len_app. pose proof (len_nonneg ys) as Hys.
    destruct (MAX_BODY_BYTES <? len out + len (x :: xs)) eqn:Hfit; [apply Z.ltb_lt in Hfit | apply Z.ltb_ge in Hfit].
    + exists (Err body_too_large), out. split; [done|]. split; [done|].
      destruct (Z.leb_spec (len out + (len (x :: xs) + len ys)) MAX_BODY_BYTES); [lia | done].
    + destruct (IH (out ++ x :: xs) b1 c1 ys e Hb1) as (r & buf & -> & Hl & Hr); [lia | rewrite len_app; lia | exact Hd' |].
      exists r, buf. split; [done|]. split; [done|]. rewrite len_app in Hr. rewrite <- app_assoc in Hr.
      by rewrite <- Z.add_assoc in Hr.
  - destruct (Hstop (Err m) HR) as [-> ->]. exists (Err (Degraded (Lit "apiserver body: " :: m))), out. rewrite app_nil_r.
    change (len (@nil Z)) with 0. destruct (Z.leb_spec (len out + 0) MAX_BODY_BYTES); [done | lia].
Qed.

Lemma delivered_cons b c x bytes e : 0 <= remaining b -> delivered b c (x :: bytes) e ->
  exists b1 c1, body_read 1 b c = (Ok [x], b1, c1) /\ delivered b1 c1 bytes e /\ 0 <= remaining b1 /\ (weight c1 < weight c)%nat.
Proof.
  intros Hb (b' & c' & Hr & Hs). inversion Hr as [|? ? ? b1 c1 ? ? ? E Hr1]; subst. exists b1, c1. split; [done|].
  split; [by exists b', c'|]. destruct (body_read_weight 1 b c _ _ _ ltac:(lia) Hb E ltac:(done)). done.
Qed.

(** A line that is ended. *)
Lemma read_line_ended line : forall fuel out b c rest e, 0 <= remaining b -> (weight c < fuel)%nat -> (10 ∉ line) ->
  len out + len line <= MAX_LINE_BYTES -> delivered b c (line ++ 10 :: rest) e ->
  exists b' c', read_line_loop fuel out b c = Some (Ok (len out + len line + 1), out ++ line, b', c') /\
    reads b c (line ++ [10]) b' c' /\ 0 <= remaining b' /\ (weight c' < weight c)%nat.
Proof.
  induction line as [|x line IH]; intros [|fuel] out b c rest e Hb Hf Hnl Hl Hd; try lia; cbn [read_line_loop app] in *;
    destruct (delivered_cons _ _ _ _ _ Hb Hd) as (b1 & c1 & E & Hd1 & Hb1 & Hw); rewrite E.
  - exists b1, c1. simpl. rewrite app_nil_r. change (len (@nil Z)) with 0. rewrite Z.add_0_r. split; [done|].
    split; [|done]. econstructor; [exact E|]. by constructor.
  - rewrite len_cons in Hl. pose proof (len_nonneg line). apply not_elem_of_cons in Hnl as [Hx Hnl].
    destruct (Z.eqb_spec x 10); [done|]. destruct (Z.ltb_spec MAX_LINE_BYTES (len out + 1)); [lia|].
    destruct (IH fuel (out ++ [x]) b1 c1 rest e Hb1 ltac:(lia) Hnl) as (b' & c' & -> & Hr & Hb' & Hw'); [|done|].
    { rewrite len_app. change (len [x]) with 1. lia. }
    exists b', c'. rewrite len_app. change (len [x]) with 1. rewrite len_cons, <- app_assoc.
    replace (len out + (1 + len line) + 1) with (len out + 1 + len line + 1) by lia.
    split; [done|]. split; [by econstructor|]. split; [done | lia].
Qed.

(** The last piece, that is not. *)
Lemma read_line_last bytes : forall fuel out b c e, 0 <= remaining b -> (weight c < fuel)%nat -> (10 ∉ bytes) ->
  len out + len bytes <= MAX_LINE_BYTES -> delivered b c bytes e ->
  exists b' c' b1 c1, reads b c bytes b1 c1 /\ stops b1 c1 e /\ body_read 1 b1 c1 = ((body_read 1 b1 c1).1.1, b', c') /\
    read_line_loop fuel out b c =
      Some (match e with Ok _ => Ok (len out + len bytes) | Err m => Err m end, out ++ bytes, b', c').
Proof.
  induction bytes as [|x bytes IH]; intros [|fuel] out b c e Hb Hf Hnl Hl Hd; try lia; cbn [read_line_loop].
  - destruct Hd as (b1 & c1 & Hr & Hs). inversion Hr as [? ? ? Hceq|]; subst.
    apply (stops_ceq _ _ c) in Hs; [|done|by symmetry]. unfold stops in Hs.
    destruct (body_read 1 b1 c) as [[r b'] c'] eqn:E. simpl in Hs. exists b', c', b1, c. rewrite E, Hs.
    split; [by constructor|]. split; [unfold stops; by rewrite E|]. split; [done|]. rewrite app_nil_r.
    change (len (@nil Z)) with 0. rewrite Z.add_0_r. by destruct e.
  - destruct (delivered_cons _ _ _ _ _ Hb Hd) as (b1 & c1 & E & Hd1 & Hb1 & Hw). rewrite E. rewrite len_cons in *.
    pose proof (len_nonneg bytes). apply not_elem_of_cons in Hnl as [Hx Hnl].
    destruct (Z.eqb_spec x 10); [done|]. destruct (Z.ltb_spec MAX_LINE_BYTES (len out + 1)); [lia|].
    destruct (IH fuel (out ++ [x]) b1 c1 e Hb1 ltac:(lia) Hnl) as (b' & c' & b2 & c2 & Hr & Hs & E2 & ->); [|done|].
    { rewrite len_app. change (len [x]) with 1. lia. }
    exists b', c', b2, c2. split; [by econstructor|]. split; [done|]. split; [done|].
    rewrite len_app, <- app_assoc. change (len [x]) with 1. by rewrite <- Z.add_assoc.
Qed.

(** A piece past the ceiling. *)
Lemma read_line_too_long piece : forall fuel out b c rest e, 0 <= remaining b -> (weight c < fuel)%nat -> (10 ∉ piece) ->
  len out <= MAX_LINE_BYTES -> MAX_LINE_BYTES < len out + len piece -> delivered b c (piece ++ rest) e ->
  exists buf b' c', read_line_loop fuel out b c = Some (Err [Lit "watch frame too large"], buf, b', c') /\
    len buf = MAX_LINE_BYTES + 1.
Proof.
  induction piece as [|x piece IH]; intros [|fuel] out b c rest e Hb Hf Hnl Ho Hl Hd; try lia;
    [change (len (@nil Z)) with 0 in Hl; lia|]. cbn [read_line_loop app] in *.
  destruct (delivered_cons _ _ _ _ _ Hb Hd) as (b1 & c1 & E & Hd1 & Hb1 & Hw). rewrite E.
  apply not_elem_of_cons in Hnl as [Hx Hnl]. destruct (Z.eqb_spec x 10); [done|]. rewrite len_cons in Hl.
  assert (Ho1 : len (out ++ [x]) = len out + 1) by (rewrite len_app; done).
  destruct (Z.ltb_spec MAX_LINE_BYTES (len out + 1)).
  - exists (out ++ [x]), b1, c1. split; [done | lia].
  - eapply IH; [done | lia | done | lia | lia | done].
Qed.

(** ** Responses as a server frames them *)

(** What is delivered, a byte a piece. *)
Definition conn_of (l : list item) : Conn := map (fun i => match i with inl b => Data [b] | inr e => Fault e end) l.

Lemma items_conn_of l : items (conn_of l) = l.
Proof. unfold items. induction l as [|[]]; simpl; by f_equal. Qed.

Definition ended_line (raw : list Z) : Prop :=
  exists l, raw = l ++ [10] /\ (10 ∉ l) /\ len raw <= MAX_HEADER_LINE_BYTES.

Lemma item_until_line l : forall limit raw rest, (10 ∉ l) -> (length l < limit)%nat ->
  item_until limit raw (map inl (l ++ [10]) ++ rest) = (Ok (raw ++ l ++ [10]), rest).
Proof.
  induction l as [|b l IH]; intros [|limit] raw rest Hnl Hl; simpl in *; try lia; [done|].
  apply not_elem_of_cons in Hnl as [Hb Hnl]. destruct (Z.eqb_spec b 10); [done|].
  rewrite IH by (done || lia). by rewrite <- app_assoc.
Qed.

Lemma text_line_read raw c rest : ended_line raw -> items c = map inl raw ++ rest ->
  exists c', read_text_line c = (Ok (from_utf8_lossy raw), c') /\ items c' = rest.
Proof.
  intros (l & -> & Hnl & Hl) Hi. unfold read_text_line. set (limit := Z.to_nat (MAX_HEADER_LINE_BYTES + 1)).
  pose proof (read_until_items c limit []) as H. rewrite Hi in H.
  assert (Hlim : (length l < limit)%nat) by (subst limit; rewrite len_app in Hl; unfold len in Hl; simpl in Hl; lia).
  rewrite (item_until_line l limit [] rest Hnl Hlim) in H.
  destruct (read_until limit [] c) as [r c']. simpl in H. injection H as <- Hr. exists c'. split; [|done].
  destruct (Z.ltb_spec MAX_HEADER_LINE_BYTES (len (l ++ [10]))); [lia|]. unfold ends_with_nl. rewrite rev_app_distr. simpl.
  by rewrite andb_false_r.
Qed.

(** A size line that announces [n] bytes; with [0] it is the last. *)
Definition announces (raw : list Z) (n : Z) : Prop :=
  ended_line raw /\ is_empty (size_text (from_utf8_lossy raw)) = false /\ parse_hex (size_text (from_utf8_lossy raw)) = Ok n.

Lemma lossy_nonempty raw : raw <> [] -> from_utf8_lossy raw <> [].
Proof. destruct raw as [|b raw]; [done|]. intros _. simpl. repeat case_match; done. Qed.

Lemma chunk_size_read raw n c rest : announces raw n -> items c = map inl raw ++ rest ->
  exists c', chunk_size c = (Ok (if n =? 0 then None else Some n), c') /\ items c' = rest.
Proof.
  intros (Hl & Hne & Hp) Hi. destruct (text_line_read _ _ _ Hl Hi) as (c' & E & Hr). exists c'. split; [|done].
  unfold chunk_size. rewrite E. pose proof (lossy_nonempty raw) as Hn. destruct (from_utf8_lossy raw) as [|x text] eqn:Er.
  - destruct Hl as (l & -> & _). destruct Hn; [by destruct l | done].
  - by rewrite Hne, Hp.
Qed.

Record Chunk := { ch_line : list Z; ch_data : list Z }.

Definition chunk_ok (ch : Chunk) : Prop := ch_data ch <> [] /\ announces (ch_line ch) (len (ch_data ch)).
Definition chunk_bytes (ch : Chunk) : list Z := ch_line ch ++ ch_data ch ++ [13; 10].

Lemma crlf_line : ended_line [13; 10].
Proof. exists [13]. split; [done|]. split; [set_solver | vm_compute; discriminate]. Qed.

Lemma chunk_reads ch c l : chunk_ok ch -> items c = map inl (chunk_bytes ch) ++ items l ->
  reads (Chunked 0) c (ch_data ch) (Chunked 0) l.
Proof.
  intros [Hne Han] Hi. unfold chunk_bytes in Hi. rewrite map_app, <- app_assoc in Hi.
  destruct (chunk_size_read _ _ _ _ Han Hi) as (c1 & Ec & Hc1). rewrite map_app, <- app_assoc in Hc1.
  set (mid := Data [13; 10] :: l). assert (Hmid : items c1 = map inl (ch_data ch) ++ items mid) by exact Hc1.
  pose proof (part_reads (Chunked 0) (ch_data ch) (len (ch_data ch)) c1 mid Hne ltac:(lia) Hmid) as P.
  rewrite Z.sub_diag in P. cbn [with_remaining part_end] in P.
  destruct (text_line_read [13; 10] mid (items l) crlf_line eq_refl) as (l' & El & Hl'). rewrite El in P. simpl in P.
  assert (Hn : len (ch_data ch) <> 0) by (intros E0; destruct (ch_data ch) as [|x xs]; [done | rewrite len_cons in E0; pose proof (len_nonneg xs); lia]).
  eapply reads_ceq; [|simpl; lia | done | exact Hl'].
  eapply reads_open; [simpl; lia | | exact Hn | done | exact P].
  unfold part_left. rewrite Ec. by destruct (Z.eqb_spec (len (ch_data ch)) 0).
Qed.

Lemma chunks_read chunks : forall c l, Forall chunk_ok chunks -> items c = map inl (concat (map chunk_bytes chunks)) ++ items l ->
  reads (Chunked 0) c (concat (map ch_data chunks)) (Chunked 0) l.
Proof.
  induction chunks as [|ch chunks IH]; intros c l Hok Hi; simpl in *; [by constructor|].
  apply Forall_cons in Hok as [Hch Hok]. rewrite map_app, <- app_assoc in Hi.
  set (mid := Data (concat (map chunk_bytes chunks)) :: l).
  eapply reads_app; [simpl; lia | apply (chunk_reads ch c mid Hch Hi) | by apply IH].
Qed.

(** A chunked body, however it is cut into chunks: its end is the last chunk, or a fault
    after whole chunks. *)
Lemma chunked_delivered chunks last c rest : Forall chunk_ok chunks -> announces last 0 ->
  items c = map inl (concat (map chunk_bytes chunks) ++ last) ++ rest ->
  delivered (Chunked 0) c (concat (map ch_data chunks)) (Ok tt).
Proof.
  intros Hok Hlast Hi. rewrite map_app, <- app_assoc in Hi.
  set (l := conn_of (map inl last ++ rest)). assert (Hl : items l = map inl last ++ rest) by apply items_conn_of.
  rewrite <- Hl in Hi. exists (Chunked 0), l. split; [by apply chunks_read|].
  destruct (chunk_size_read _ _ _ _ Hlast Hl) as (c' & E & _). unfold stops. rewrite body_read_parts by (simpl; lia).
  unfold part_left. by rewrite E.
Qed.

(** A body of [n] bytes, or one that is cut short by the end of the connection. *)
Lemma plain_delivered n body c rest : len body <= n -> n = len body \/ rest = [] -> items c = map inl body ++ rest ->
  delivered (Plain n) c body (Ok tt).
Proof.
  intros Hn Hend Hi. rewrite <- (items_conn_of rest) in Hi.
  assert (Hr : reads (Plain n) c body (Plain (n - len body)) (conn_of rest)).
  { destruct body as [|x body].
    - change (len (@nil Z)) with 0. rewrite Z.sub_0_r. by constructor.
    - exact (part_reads (Plain 0) (x :: body) n c (conn_of rest) ltac:(done) Hn Hi). }
  exists (Plain (n - len body)), (conn_of rest). split; [done|]. unfold stops. simpl.
  destruct (Z.eqb_spec (n - len body) 0); [done|]. destruct Hend as [->| ->]; [lia|]. done.
Qed.

(** The size line servers write: lower-case digits. *)
Fixpoint hex_rev (fuel : nat) (n : Z) : list Z :=
  match fuel with
  | O => []
  | S fuel' => hex_digit (n mod 16) :: (if n <? 16 then [] else hex_rev fuel' (n / 16))
  end.

Definition hex_line (n : Z) : list Z := rev (hex_rev 16 n) ++ [13; 10].

Lemma hex_value_snoc l d : forall acc, hex_value acc (l ++ [d]) = (a ← hex_value acc l; hex_value a [d]).
Proof.
  induction l as [|b l IH]; intros acc; cbn [app hex_value]; [done|]. destruct (hex_nibble b); [|done].
  destruct (_ <? U64); [apply IH | done].
Qed.

Lemma hex_rev_value fuel : forall n, 0 <= n < 16 ^ Z.of_nat fuel -> n < U64 -> hex_value 0 (rev (hex_rev fuel n)) = Ok n.
Proof.
  induction fuel as [|fuel IH]; intros n Hn Hu; [simpl in *; f_equal; lia|]. cbn [hex_rev rev]. rewrite hex_value_snoc.
  pose proof (Z.div_mod n 16 ltac:(lia)) as Hdm. pose proof (Z.mod_pos_bound n 16 ltac:(lia)) as Hm.
  assert (Hd : hex_value 0 (rev (if n <? 16 then [] else hex_rev fuel (n / 16))) = Ok (n / 16)).
  { destruct (Z.ltb_spec n 16); [simpl; by rewrite Z.div_small by lia|]. apply IH; [|lia].
    rewrite Nat2Z.inj_succ, Z.pow_succ_r in Hn by lia. split; [lia|]. apply Z.div_lt_upper_bound; lia. }
  rewrite Hd. cbn [mbind result_mbind hex_value]. rewrite hex_nibble_digit by lia.
  destruct (Z.ltb_spec (16 * (n / 16) + n mod 16) U64); [f_equal; lia | lia].
Qed.

Lemma hex_rev_digits fuel n : Forall (fun b => in_range 48 57 b || in_range 97 102 b = true) (hex_rev fuel n).
Proof.
  revert n. induction fuel as [|fuel IH]; intros n; simpl; constructor.
  - pose proof (Z.mod_pos_bound n 16 ltac:(lia)). unfold hex_digit, in_range. case_match; lia.
  - case_match; [constructor | apply IH].
Qed.

Lemma hex_rev_length fuel : forall n, (0 < fuel)%nat -> (0 < length (hex_rev fuel n) <= fuel)%nat.
Proof.
  induction fuel as [|fuel IH]; intros n Hf; [lia|]. simpl. destruct (n <? 16) eqn:E; [simpl; lia|].
  destruct fuel as [|fuel]; [simpl; lia|]. specialize (IH (n / 16) ltac:(lia)). lia.
Qed.

Lemma lossy_ascii l : Forall (fun b => b < 128) l -> from_utf8_lossy l = l.
Proof. induction 1 as [|b l Hb _ IH]; simpl; [done|]. destruct (Z.ltb_spec b 128); [by rewrite IH | lia]. Qed.

Lemma trim_end_crlf l : Forall (fun b => 33 <= b) l -> trim_end_eol (l ++ [13; 10]) = l.
Proof.
  intros Hl. unfold trim_end_eol. rewrite rev_app_distr. simpl.
  destruct (rev l) as [|b r] eqn:E; [simpl; by rewrite <- (rev_involutive l), E|]. simpl.
  assert (Hb : 33 <= b) by (apply (proj1 (Forall_forall _ l) Hl), list_elem_of_In, in_rev; rewrite E; by left).
  unfold is_eol. destruct (Z.eqb_spec b 13); [lia|]. destruct (Z.eqb_spec b 10); [lia|]. by rewrite <- (rev_involutive l), E.
Qed.

Lemma hex_line_announces n : 0 <= n < U64 -> announces (hex_line n) n.
Proof.
  intros Hn. set (digits := rev (hex_rev 16 n)).
  assert (Hd : Forall (fun b => in_range 48 57 b || in_range 97 102 b = true) digits) by apply Forall_rev, hex_rev_digits.
  pose proof (hex_rev_length 16 n ltac:(lia)) as Hlen. rewrite <- length_rev in Hlen. fold digits in Hlen.
  assert (Hvis : Forall (fun b => 33 <= b < 128) digits) by (eapply Forall_impl; [exact Hd|]; unfold in_range; simpl; lia).
  assert (Hlossy : from_utf8_lossy (hex_line n) = hex_line n).
  { apply lossy_ascii, Forall_app. split; [eapply Forall_impl; [exact Hvis | simpl; lia] | repeat constructor]. }
  assert (Hsize : size_text (hex_line n) = digits).
  { unfold size_text, hex_line. fold digits. rewrite trim_end_crlf by (eapply Forall_impl; [exact Hvis | simpl; lia]).
    replace (split_once 59 digits) with (@None (list Z * list Z)); [by apply trim_printable|]. symmetry. apply split_once_none.
    intros Hin. apply (proj1 (Forall_forall _ _) Hd) in Hin. done. }
  split; [|rewrite Hlossy, Hsize; split].
  - exists (digits ++ [13]). split; [unfold hex_line; fold digits; by rewrite <- app_assoc|]. split.
    + intros [Hin|Hin]%elem_of_app; [apply (proj1 (Forall_forall _ _) Hvis) in Hin; lia | by apply list_elem_of_singleton in Hin].
    + unfold hex_line. fold digits. rewrite len_app. unfold len. simpl. unfold MAX_HEADER_LINE_BYTES. lia.
  - destruct digits; [simpl in *; lia | done].
  - assert (Hv : hex_value 0 digits = Ok n) by (apply hex_rev_value; [unfold U64 in *; simpl; lia | lia]).
    unfold parse_hex. destruct digits as [|d ds]; [done|]. apply Forall_cons in Hd as [Hd0 _].
    destruct ds as [|d' ds]; [done|]. destruct (Z.eqb_spec d 43) as [->|Hne]; done.
Qed.

(** The head of a response: its lines, each ended. *)
Definition header_line (raw : list Z) : list Z := trim_end_eol (from_utf8_lossy raw).

Lemma headers_read headers : forall left h c rest, Forall (fun raw => ended_line raw /\ is_empty (header_line raw) = false) headers ->
  (length headers < left)%nat -> items c = map inl (concat headers ++ [13; 10]) ++ rest ->
  exists c', read_head_lines left (Some h) c = (Ok (foldl (fun h raw => note_header (header_line raw) h) h headers), c') /\
    items c' = rest.
Proof.
  induction headers as [|raw headers IH]; intros [|left] h c rest Hok Hl Hi; simpl in Hl; try lia.
  - destruct (text_line_read _ _ _ crlf_line Hi) as (c' & E & Hr). exists c'. cbn [read_head_lines]. by rewrite E.
  - apply Forall_cons in Hok as [[Hraw Hne] Hok]. simpl in Hi. rewrite <- app_assoc, map_app, <- app_assoc in Hi.
    destruct (text_line_read _ _ _ Hraw Hi) as (c1 & E & Hr). cbn [read_head_lines foldl]. rewrite E.
    unfold header_line in *. destruct (from_utf8_lossy raw) as [|b text]; [done|]. rewrite Hne. by apply IH; [| lia |].
Qed.

Lemma head_read status_raw status headers c rest : ended_line status_raw -> status_of (header_line status_raw) = Some status ->
  Forall (fun raw => ended_line raw /\ is_empty (header_line raw) = false) headers -> (length headers < 99)%nat ->
  items c = map inl (status_raw ++ concat headers ++ [13; 10]) ++ rest ->
  exists c', read_head c = (Ok (foldl (fun h raw => note_header (header_line raw) h)
      {| hd_status := status; hd_chunked := false; hd_content_length := None |} headers), c') /\ items c' = rest.
Proof.
  intros Hs Hst Hok Hl Hi. rewrite map_app, <- app_assoc in Hi. destruct (text_line_read _ _ _ Hs Hi) as (c1 & E & Hr).
  unfold read_head. change MAX_HEADER_LINES with (S 99). remember 99%nat as left eqn:Hleft. cbn [read_head_lines]. rewrite E.
  unfold header_line in *. destruct (from_utf8_lossy status_raw) as [|b text]; [done|]. rewrite Hst.
  by apply headers_read; [|lia|].
Qed.

(** ** What holds for every connection *)

Definition head_ok (h : Head) : Prop := match hd_content_length h with Some n => 0 <= n < U64 | None => True end.

Lemma parse_u64_range l n : parse_u64 l = Some n -> 0 <= n < U64.
Proof.
  unfold parse_u64. destruct (is_empty _); [done|].
  assert (Hd : forall k acc m, 0 <= acc -> foldl (fun acc b => a ← acc; if in_range 48 57 b then Some (10 * a + (b - 48)) else None) (Some acc) k = Some m -> 0 <= m).
  { induction k as [|b k IH]; intros acc m Ha; simpl; [by intros [= <-]|]. destruct (in_range 48 57 b) eqn:E; simpl.
    - unfold in_range in E. apply IH. lia.
    - intros Hn. exfalso. revert Hn. clear. induction k as [|b' k IH]; simpl; [done | exact IH]. }
  unfold decimal. destruct (foldl _ _ _) as [m|] eqn:E; [|done]. apply Hd in E; [|lia].
  destruct (Z.ltb_spec m U64); [|done]. intros [= <-]. lia.
Qed.

Lemma note_header_ok line h : head_ok h -> head_ok (note_header line h).
Proof.
  unfold note_header, head_ok. destruct (split_once 58 line) as [[name value]|]; [|done].
  destruct (eq_ignore_ascii_case name _ && _); [done|]. destruct (eq_ignore_ascii_case name _); [|done]. intros _. simpl. destruct (parse_u64 _) eqn:E; [|done]. by eapply parse_u64_range.
Qed.

Lemma read_head_ok left : forall h c r c', match h with Some h => head_ok h | None => True end ->
  read_head_lines left h c = (Ok r, c') -> head_ok r.
Proof.
  induction left as [|left IH]; intros h c r c' Hh; [done|]. cbn [read_head_lines].
  destruct (read_text_line c) as [[[|b text]|e] c1]; try done. destruct h as [h|].
  - destruct (is_empty _); [by intros [= <- <-]|]. by apply IH, note_header_ok.
  - destruct (status_of _); [|done]. by apply IH.
Qed.

Lemma body_new_ok h : head_ok h -> 0 <= remaining (body_new h).
Proof. unfold head_ok, body_new. destruct (hd_chunked h); simpl; [lia|]. destruct (hd_content_length h); simpl; unfold U64; lia. Qed.

Lemma read_body_spec c h bytes e : head_ok h -> delivered (body_new h) c bytes e ->
  exists r buf, read_body c h = Some (r, buf) /\ len buf <= MAX_BODY_BYTES /\
    (len bytes <= MAX_BODY_BYTES -> match hd_content_length h with Some n => n <= MAX_BODY_BYTES | None => True end ->
     buf = bytes /\ r = match e with Ok _ => Ok bytes | Err m => Err (Degraded (Lit "apiserver body: " :: m)) end) /\
    (MAX_BODY_BYTES < len bytes -> r = Err body_too_large).
Proof.
  intros Hh Hd. unfold read_body.
  destruct (match hd_content_length h with Some n => MAX_BODY_BYTES <? n | None => false end) eqn:Ebig.
  - exists (Err body_too_large), []. split; [done|]. split; [done|]. split; [|done]. intros _.
    destruct (hd_content_length h); [|done]. lia.
  - destruct (read_body_loop_spec (S (weight c)) [] _ c bytes e (body_new_ok h Hh) ltac:(lia) ltac:(done) Hd)
      as (r & buf & E & Hl & Hr). exists r, buf. split; [done|]. split; [done|].
    change (len (@nil Z)) with 0 in Hr. destruct (Z.leb_spec (0 + len bytes) MAX_BODY_BYTES) as [Hle|Hgt].
    + destruct Hr as [-> ->]. split; [done | lia].
    + subst r. split; [lia | done].
Qed.

(** A line ends at a line feed, at the end, or at the ceiling. *)
Lemma read_line_loop_total fuel : forall out b c, 0 <= remaining b -> (weight c < fuel)%nat -> len out <= MAX_LINE_BYTES ->
  exists r buf b' c', read_line_loop fuel out b c = Some (r, buf, b', c') /\ len buf <= MAX_LINE_BYTES + 1.
Proof.
  induction fuel as [|fuel IH]; intros out b c Hb Hf Ho; [lia|]. cbn [read_line_loop].
  destruct (body_read 1 b c) as [[[[|x xs]|e] b1] c1] eqn:E; [do 4 eexists; split; [done | lia] | |
    do 4 eexists; split; [done | lia]].
  destruct (body_read_weight 1 b c _ _ _ ltac:(lia) Hb E ltac:(done)) as [Hw Hb1].
  assert (Hx : len (out ++ [x]) = len out + 1) by (rewrite len_app; done).
  destruct (x =? 10); [do 4 eexists; split; [done | lia]|].
  destruct (Z.ltb_spec MAX_LINE_BYTES (len out + 1)); [do 4 eexists; split; [done | lia]|]. apply IH; [done | lia | lia].
Qed.

Lemma body_read_weight_le cap b c bytes b' c' : 0 < cap -> 0 <= remaining b -> body_read cap b c = (Ok bytes, b', c') ->
  (weight c' <= weight c)%nat /\ 0 <= remaining b'.
Proof.
  intros Hcap Hb E. destruct bytes as [|x bytes]; [|by destruct (body_read_weight cap b c _ _ _ Hcap Hb E ltac:(done)); split; [lia|]].
  rewrite body_read_parts in E by done. pose proof (part_left_weight b c) as Hw.
  destruct (part_left b c) as [[n|e] c1] eqn:Ep; [|done]. apply part_left_ok in Ep; [|done]. simpl in Hw.
  destruct (Z.eqb_spec n 0) as [|Hz]; [by simplify_eq|].
  pose proof (read_spec (Z.to_nat (Z.min cap n)) c1 ltac:(lia)) as R. destruct (read _ c1) as [r c2]. simpl in R.
  inversion R as [Hi|er l Hi|y ys l Hl Hi]; subst; try done. cbv zeta in E. simplify_eq.
  pose proof (part_end_weight (with_remaining b (n - len (@nil Z))) c2) as He. rewrite !weight_items in *.
  rewrite <- Hi in Hw. assert (H0 : length (items c2) = 0%nat) by (by rewrite <- H).
  split; [unfold item in *; lia|]. destruct b; simpl; unfold len; simpl; lia.
Qed.

Lemma read_line_progress fuel : forall out b c k buf b' c', 0 <= remaining b ->
  read_line_loop fuel out b c = Some (Ok k, buf, b', c') ->
  0 <= remaining b' /\ (weight c' <= weight c)%nat /\ (k <> len out -> (weight c' < weight c)%nat).
Proof.
  induction fuel as [|fuel IH]; intros out b c k buf b' c' Hb; [done|]. cbn [read_line_loop].
  destruct (body_read 1 b c) as [[[[|x xs]|e] b1] c1] eqn:E; [| |done].
  - intros [= <- <- <- <-]. destruct (body_read_weight_le 1 b c _ _ _ ltac:(lia) Hb E). done.
  - destruct (body_read_weight 1 b c _ _ _ ltac:(lia) Hb E ltac:(done)) as [Hw Hb1].
    destruct (x =? 10); [intros [= <- <- <- <-]; split_and!; [done | lia | lia]|]. destruct (_ <? _); [done|].
    intros Hr. destruct (IH _ _ _ _ _ _ _ Hb1 Hr) as (? & ? & _). split_and!; [done | lia | lia].
Qed.


