(* ===== verification/ApiClient.v ===== *)
(** * The API server client

    [ApiserverConfig], [ApiserverWatcher], [LabelStream], [Backoff] and [watch_loop] of
    [crates/ferrum-k8smeta/src/watch.rs]. The pod watcher and the label streams are the
    same code over different caches; here they are two instances of one record of
    operations. What DNS, TCP and TLS answer to a connection attempt is an input, as are
    the readings of the clock. *)

From S2P Require Import Prelude RustStd RustText Ids Compiler Proto Encoding Grant Journal Json Labels Pods Watch Http.

(** ** Configuration *)

Definition SERVICE_ACCOUNT_DIR : string := "/var/run/secrets/kubernetes.io/serviceaccount".
Definition DEFAULT_SERVER_NAME : string := "kubernetes.default.svc".

Record ApiserverConfig := {
  ac_host : string; ac_port : Z; ac_server_name : string; ac_node_name : string;
  ac_token_path : string; ac_ca_path : string
}.

(** [Path::join] of a plain name. *)
Definition join_name (dir name : string) : string := dir +:+ "/" +:+ name.

(** [exists] is [Path::exists]. *)
Definition from_sa_dir (exists_ : string -> bool) (node_name host : string) (port : Z) (dir : string) : Result ApiserverConfig :=
  let token_path := join_name dir "token" in
  _ ← refuse_if (negb (exists_ token_path)) (Degraded [Str token_path;
    Lit " does not exist: no ServiceAccount token is projected into this pod, so every apiserver request would authenticate as nobody. Check automountServiceAccountToken on the pod spec and on the ServiceAccount."]);
  Ok {| ac_host := host; ac_port := port; ac_server_name := DEFAULT_SERVER_NAME; ac_node_name := node_name;
        ac_token_path := token_path; ac_ca_path := join_name dir "ca.crt" |}.

(** The text of a [ParseIntError] of a [u16]. *)
Definition parse_int_error (text : list Z) : string :=
  if is_empty text then "cannot parse integer from empty string"
  else
    let digits := match text with sign :: (_ :: _) as l' => if sign =? 43 then tail l' else text | _ => text end in
    match decimal digits with Some _ => "number too large to fit in target type" | None => "invalid digit found in string" end.

(** [env] is [std::env::var]; a variable that is not Unicode counts as unset. *)
Definition in_cluster (exists_ : string -> bool) (env : string -> option string) (node_name : string) : Result ApiserverConfig :=
  host ← ok_or (env "KUBERNETES_SERVICE_HOST") (Degraded [Lit "KUBERNETES_SERVICE_HOST unset"]);
  let port_text := default "443" (match env "KUBERNETES_SERVICE_PORT_HTTPS" with
                                  | Some p => Some p | None => env "KUBERNETES_SERVICE_PORT" end) in
  port ← ok_or (parse_u16 (as_bytes port_text))
    (Degraded [Lit "KUBERNETES_SERVICE_PORT: "; Str (parse_int_error (as_bytes port_text))]);
  from_sa_dir exists_ node_name host port SERVICE_ACCOUNT_DIR.

Definition cluster_wide (exists_ : string -> bool) (env : string -> option string) : Result ApiserverConfig :=
  in_cluster exists_ env "".

Definition from_service_account (exists_ : string -> bool) (env : string -> option string) (node_name : string)
    : Result ApiserverConfig :=
  _ ← refuse_if (str_empty node_name)
        (Degraded [Lit "node name required: an unscoped pod watch is a cluster-wide read"]);
  in_cluster exists_ env node_name.

(** ** Requests *)

Definition unreserved (b : Z) : bool :=
  in_range 65 90 b || in_range 97 122 b || in_range 48 57 b || (b =? 45) || (b =? 46) || (b =? 95) || (b =? 126).

(** An upper-case hexadecimal digit. *)
Definition upper_digit (n : Z) : Z := if n <? 10 then 48 + n else 55 + n.

Definition percent_byte (b : Z) : list Z :=
  if unreserved b then [b] else [37; upper_digit (Z.shiftr b 4); upper_digit (Z.land b 15)].

Definition percent_encode (raw : list Z) : list Z := flat_map percent_byte raw.

Definition CRLF : list Z := [13; 10].

Definition request_text (server_name : string) (token path : list Z) : list Z :=
  as_bytes "GET " ++ path ++ as_bytes " HTTP/1.1" ++ CRLF ++
  as_bytes "Host: " ++ as_bytes server_name ++ CRLF ++
  as_bytes "Authorization: Bearer " ++ token ++ CRLF ++
  as_bytes "Accept: application/json" ++ CRLF ++
  as_bytes "User-Agent: ferrum-k8smeta" ++ CRLF ++
  as_bytes "Connection: close" ++ CRLF ++ CRLF.

(** One attempt: what connecting answers, what the token file holds, whether the request
    could be written, and what the connection then delivers. *)
Record Attempt := {
  at_connected : Result unit;
  at_token : result string string;
  at_written : result string unit;
  at_conn : Conn
}.

(** [connect] and [request]: the text written, and the connection. *)
Definition open_request (cfg : ApiserverConfig) (path : list Z) (a : Attempt) : Result (list Z * Conn) :=
  _ ← at_connected a;
  raw ← map_err (fun e => Degraded [Lit "service account token "; Str (ac_token_path cfg); Lit ": "; Str e]) (at_token a);
  let req := request_text (ac_server_name cfg) (trim_bytes (as_bytes raw)) path in
  _ ← map_err (fun e => Degraded [Lit "apiserver request: "; Str e]) (at_written a);
  Ok (req, at_conn a).

(** ** Streams *)

(** What differs between the pod watcher and a label stream. *)
Record ApiStream (C : Type) := {
  as_list_path : list Z;
  as_watch_path : string -> list Z;
  as_what : list frag;
  as_store : C -> list Z -> Z -> Result string * C;
  as_line : C -> Frame -> Result WatchOutcome * C;
  as_raise : C -> Z -> C;
  as_version : C -> string
}.
Arguments as_list_path {C}. Arguments as_watch_path {C}. Arguments as_what {C}. Arguments as_store {C}.
Arguments as_line {C}. Arguments as_raise {C}. Arguments as_version {C}.

Definition node_selector (node : string) : list Z := percent_encode (as_bytes "spec.nodeName=" ++ as_bytes node).

Definition list_path (node : string) : list Z :=
  as_bytes "/api/v1/pods?fieldSelector=" ++ node_selector node ++ as_bytes "&resourceVersion=0".

Definition watch_path (node rv : string) : list Z :=
  as_bytes "/api/v1/pods?fieldSelector=" ++ node_selector node ++
  as_bytes "&watch=1&allowWatchBookmarks=true&resourceVersion=" ++ percent_encode (as_bytes rv).

Record LabelKind := { lk_list_kind : string; lk_resource : string }.
Definition NAMESPACES : LabelKind := {| lk_list_kind := "NamespaceList"; lk_resource := "namespaces" |}.
Definition SERVICE_ACCOUNTS : LabelKind := {| lk_list_kind := "ServiceAccountList"; lk_resource := "serviceaccounts" |}.

Definition label_list_path (kind : LabelKind) : list Z :=
  as_bytes "/api/v1/" ++ as_bytes (lk_resource kind) ++ as_bytes "?resourceVersion=0".
Definition label_watch_path (kind : LabelKind) (rv : string) : list Z :=
  as_bytes "/api/v1/" ++ as_bytes (lk_resource kind) ++ as_bytes "?watch=1&allowWatchBookmarks=true&resourceVersion=" ++
  percent_encode (as_bytes rv).

Section client.
Context `{JsonText}.

Definition pod_stream (cfg : ApiserverConfig) : ApiStream PodCache := {|
  as_list_path := list_path (ac_node_name cfg);
  as_watch_path := watch_path (ac_node_name cfg);
  as_what := [];
  as_store := store_pod_list;
  as_line := fun cache f => let '(o, cache') := apply_watch_line_at cache (fr_line f) (fr_now f) (fr_clock f) in (Ok o, cache');
  as_raise := pods_raise_relist_pending_at;
  as_version := pc_resource_version
|}.

Definition label_stream (kind : LabelKind) : ApiStream LabelCache := {|
  as_list_path := label_list_path kind;
  as_watch_path := label_watch_path kind;
  as_what := [Str (lk_resource kind); Lit " "];
  as_store := store_label_list (lk_list_kind kind);
  as_line := fun cache f => apply_labels_line_at cache (fr_line f) (fr_now f) (fr_clock f);
  as_raise := labels_raise_relist_pending_at;
  as_version := lc_resource_version
|}.

Section stream.
Context {C : Type} (st : ApiStream C) (cfg : ApiserverConfig).

(** [relist]; [clock] is read when the list is stored. [None] stands for a body that is
    still being read when the fuel of [read_body] is used up. *)
Definition relist (cache : C) (a : Attempt) (clock : Z) : option (Result string * C) :=
  match open_request cfg (as_list_path st) a with
  | Err e => Some (Err e, cache)
  | Ok (_, c) =>
      match read_head c with
      | (Err e, _) => Some (Err e, cache)
      | (Ok head, c') =>
          if negb (hd_status head =? 200)
          then Some (Err (Degraded ([Lit "apiserver "] ++ as_what st ++ [Lit "list returned "; Num (hd_status head)])), cache)
          else
            '(r, _) ← read_body c' head;
            Some (match r with Err e => (Err e, cache) | Ok body => as_store st cache body clock end)
      end
  end.

(** The loop of [watch_once]; [n] lines were read before, and [times] is what the clock
    says at each of them. *)
Fixpoint watch_lines (fuel : nat) (times : nat -> Z * Z) (n : nat) (cache : C) (b : BodyReader) (c : Conn)
    : option (Result WatchOutcome * C) :=
  match fuel with
  | O => None
  | S fuel' =>
      '(r, line, b', c') ← read_line b c;
      match r with
      | Err e => Some (Err (Degraded (Lit "watch stream: " :: e)), cache)
      | Ok k =>
          if k =? 0 then Some (Ok Applied, cache)
          else if blank line then watch_lines fuel' times (S n) cache b' c'
          else
            match as_line st cache {| fr_line := line; fr_now := (times n).1; fr_clock := (times n).2 |} with
            | (Err e, cache') => Some (Err e, cache')
            | (Ok outcome, cache') =>
                if bool_decide (outcome = MustRelist) then Some (Ok outcome, cache')
                else watch_lines fuel' times (S n) cache' b' c'
            end
      end
  end.

(** [watch_once]; [now] is when a 410 status is seen. *)
Definition watch_once (cache : C) (rv : string) (a : Attempt) (now : Z) (times : nat -> Z * Z)
    : option (Result WatchOutcome * C) :=
  match open_request cfg (as_watch_path st rv) a with
  | Err e => Some (Err e, cache)
  | Ok (_, c) =>
      match read_head c with
      | (Err e, _) => Some (Err e, cache)
      | (Ok head, c') =>
          if hd_status head =? 200 then watch_lines (S (weight c')) times 0 cache (body_new head) c'
          else if hd_status head =? 410 then Some (Ok MustRelist, as_raise st cache now)
          else Some (Err (Degraded ([Lit "apiserver "] ++ as_what st ++ [Lit "watch returned "; Num (hd_status head)])), cache)
      end
  end.

(** The loop of [cycle] over the attempts to come, each with its clock: its answer, or
    [None] while it is still watching after the last of them. *)
Fixpoint watch_from (cache : C) (rv : string) (attempts : list (Attempt * Z * (nat -> Z * Z)))
    : option (option (Result unit) * C) :=
  match attempts with
  | [] => Some (None, cache)
  | (a, now, times) :: attempts' =>
      '(r, cache') ← watch_once cache rv a now times;
      match r with
      | Err e => Some (Some (Err e), cache')
      | Ok MustRelist => Some (Some (Ok tt), cache')
      | Ok _ =>
          if str_empty (as_version st cache') then Some (Some (Ok tt), cache')
          else watch_from cache' (as_version st cache') attempts'
      end
  end.

Definition cycle (cache : C) (a : Attempt) (clock : Z) (attempts : list (Attempt * Z * (nat -> Z * Z)))
    : option (option (Result unit) * C) :=
  '(r, cache') ← relist cache a clock;
  match r with
  | Err e => Some (Some (Err e), cache')
  | Ok rv => watch_from cache' rv attempts
  end.
End stream.
End client.

(** ** The reconnect loop *)

Definition RECONNECT_BACKOFF : Z := seconds 2.
Definition MAX_RECONNECT_BACKOFF : Z := seconds 30.
Definition HEALTHY_STREAM : Z := seconds 60.
Definition IO_TIMEOUT : Z := seconds (POD_WATCH_BUDGET / seconds 1 / 2).
Definition CONNECT_TIMEOUT : Z := seconds 10.

Record Backoff := { bo_next : Z }.
Definition backoff_new : Backoff := {| bo_next := RECONNECT_BACKOFF |}.
Definition backoff_take (b : Backoff) : Z * Backoff := (bo_next b, {| bo_next := Z.min (bo_next b * 2) MAX_RECONNECT_BACKOFF |}).
Definition backoff_reset (b : Backoff) : Backoff := {| bo_next := RECONNECT_BACKOFF |}.

(** [watch_loop]: how long each cycle ran gives the delays slept between them. *)
Fixpoint watch_loop_from (b : Backoff) (elapsed : list Z) : list Z :=
  match elapsed with
  | [] => []
  | ran :: elapsed' =>
      let b := if HEALTHY_STREAM <=? ran then backoff_reset b else b in
      let '(delay, b') := backoff_take b in delay :: watch_loop_from b' elapsed'
  end.

Definition watch_loop (elapsed : list Z) : list Z := watch_loop_from backoff_new elapsed.

(** ** What a watch applies *)

(** The lines a body is read as, and how the reading ends: every ended line, the last
    piece when the body ends with it, nothing past a line over the ceiling. *)
Fixpoint stream_lines (pieces : list (list Z)) (e : result msg unit) : list (list Z) * result msg unit :=
  match pieces with
  | [] => ([], e)
  | piece :: rest =>
      if MAX_LINE_BYTES <? len piece then ([], Err [Lit "watch frame too large"])
      else match rest with
           | [] => (match e with Ok _ => if is_empty piece then [] else [piece] | Err _ => [] end, e)
           | _ => let '(lines, e') := stream_lines rest e in (piece :: lines, e')
           end
  end.

(** The lines as frames, the [n]th at the [n]th reading of the clock. *)
Fixpoint frames_at (times : nat -> Z * Z) (n : nat) (lines : list (list Z)) : list Frame :=
  match lines with
  | [] => []
  | line :: lines' => {| fr_line := line; fr_now := (times n).1; fr_clock := (times n).2 |} :: frames_at times (S n) lines'
  end.

Section fold.
Context {C : Type} (st : ApiStream C).

Fixpoint run_frames (cache : C) (frames : list Frame) : Result WatchOutcome * C :=
  match frames with
  | [] => (Ok Applied, cache)
  | f :: frames' =>
      if blank (fr_line f) then run_frames cache frames'
      else match as_line st cache f with
           | (Err e, cache') => (Err e, cache')
           | (Ok outcome, cache') =>
               if bool_decide (outcome = MustRelist) then (Ok outcome, cache') else run_frames cache' frames'
           end
  end.

(** The answer after the frames, when the body ended with [e]. *)
Definition ended_with (e : result msg unit) (x : Result WatchOutcome * C) : Result WatchOutcome * C :=
  match x with
  | (Ok Applied, cache) =>
      (match e with Ok _ => Ok Applied | Err m => Err (Degraded (Lit "watch stream: " :: m)) end, cache)
  | _ => x
  end.

(** Past its end the body stays ended: true unless a trailer follows the last chunk. *)
Definition settled (b : BodyReader) (c : Conn) (bytes : list Z) : Prop :=
  exists b1 c1 b2 c2, reads b c bytes b1 c1 /\ body_read 1 b1 c1 = (Ok [], b2, c2) /\ stops b2 c2 (Ok tt).

Fixpoint join_nl (pieces : list (list Z)) : list Z :=
  match pieces with [] => [] | [p] => p | p :: ps => p ++ 10 :: join_nl ps end.

Lemma split_on_pieces l : split_on 10 l <> [] /\ join_nl (split_on 10 l) = l /\ Forall (fun p => 10 ∉ p) (split_on 10 l).
Proof.
  induction l as [|b l (Hne & Hj & Hf)]; simpl; [repeat constructor; set_solver|].
  destruct (split_on 10 l) as [|p ps]; [done|]. apply Forall_cons in Hf as [Hp Hf].
  destruct (Z.eqb_spec b 10) as [->|Hb].
  - split; [done|]. split; [simpl in *; by rewrite Hj|]. constructor; [set_solver | by constructor].
  - split; [done|]. split; [|constructor; [set_solver | done]]. rewrite <- Hj. by destruct ps.
Qed.

Lemma run_frames_outcome frames : forall cache o cache', run_frames cache frames = (Ok o, cache') -> o = Applied \/ o = MustRelist.
Proof.
  induction frames as [|f fs IH]; intros cache o cache'; simpl; [intros [= <- _]; by left|].
  destruct (blank (fr_line f)); [by apply IH|]. destruct (as_line st cache f) as [[o1|e] c1]; [|done].
  case_bool_decide; [intros [= <- _]; by right | by apply IH].
Qed.

(** One line of the loop. *)
Lemma watch_line_step fuel times n cache b c k line b' c' lines e :
  read_line b c = Some (Ok k, line, b', c') -> k <> 0 ->
  (forall cache1, watch_lines st fuel times (S n) cache1 b' c' = Some (ended_with e (run_frames cache1 (frames_at times (S n) lines)))) ->
  watch_lines st (S fuel) times n cache b c = Some (ended_with e (run_frames cache (frames_at times n (line :: lines)))).
Proof.
  intros Hr Hk IH. cbn [watch_lines frames_at run_frames fr_line]. rewrite Hr. cbn [mbind option_bind].
  destruct (Z.eqb_spec k 0); [done|]. destruct (blank line); [apply IH|].
  destruct (as_line st cache _) as [[o|er] c1]; [|done]. case_bool_decide as Ho; [by subst | apply IH].
Qed.

(** The loop folds exactly the lines of what is delivered. *)
Lemma watch_lines_exact times pieces : pieces <> [] -> Forall (fun p => 10 ∉ p) pieces ->
  forall fuel n cache b c e, 0 <= remaining b -> (weight c < fuel)%nat -> delivered b c (join_nl pieces) e ->
  settled b c (join_nl pieces) \/ e <> Ok tt \/ List.last pieces [] = [] ->
  watch_lines st fuel times n cache b c =
    Some (ended_with (stream_lines pieces e).2 (run_frames cache (frames_at times n (stream_lines pieces e).1))).
Proof.
  induction pieces as [|piece pieces IH]; intros Hne Hnl; [done|]. apply Forall_cons in Hnl as [Hp Hnl].
  intros [|fuel] n cache b c e Hb Hf Hd Hset; [lia|]. cbn [stream_lines].
  destruct (Z.ltb_spec MAX_LINE_BYTES (len piece)) as [Hlong|Hfit].
  - assert (Hd' : exists rest, delivered b c (piece ++ rest) e).
    { destruct pieces; [exists []; by rewrite app_nil_r | by eexists]. }
    destruct Hd' as [rest Hd']. destruct (read_line_too_long piece (S (weight c)) [] b c rest e Hb ltac:(lia) Hp)
      as (buf & b' & c' & E & _); [done | done | done |].
    cbn [watch_lines]. unfold read_line. by rewrite E.
  - destruct pieces as [|next pieces].
    + cbn [join_nl] in *. destruct (read_line_last piece (S (weight c)) [] b c e Hb ltac:(lia) Hp ltac:(done) Hd)
        as (b' & c' & b1 & c1 & Hr & Hs & E1 & E). change (read_line_loop (S (weight c)) [] b c) with (read_line b c) in E.
      destruct e as [[]|m]; [|cbn [watch_lines]; by rewrite E]. change (len (@nil Z)) with 0 in E.
      destruct piece as [|x piece]; [cbn [watch_lines]; by rewrite E|]. cbn [is_empty fst snd].
      assert (Hb1 : 0 <= remaining b1) by (by eapply reads_ok). unfold stops in Hs. rewrite Hs in E1.
      destruct (body_read1_step _ _ _ _ _ Hb1 E1) as [Hb' _].
      assert (Hs' : stops b' c' (Ok tt)).
      { destruct Hset as [(b3 & c3 & b4 & c4 & Hr3 & E3 & Hs3) | [?|Hl]]; [|done|done].
        rewrite <- (app_nil_r (x :: piece)) in Hr3. apply (reads_split _ _ _ _ _ _ _ _ Hr Hb) in Hr3.
        inversion Hr3 as [? ? ? Hceq|]; subst. destruct (body_read1_same b3 c1 c3 Hb1 Hceq) as [Hx Hy].
        rewrite E1, E3 in Hx. rewrite E1, E3 in Hy. simpl in Hx, Hy. simplify_eq. eapply stops_ceq; [done | by symmetry | done]. }
      eapply watch_line_step; [exact E | rewrite len_cons; pose proof (len_nonneg piece); lia|]. intros cache1.
      destruct fuel as [|fuel]; [|].
      * destruct (delivered_cons _ _ _ _ _ Hb Hd) as (? & ? & _ & _ & _ & Hw). lia.
      * cbn [watch_lines frames_at run_frames]. unfold stops in Hs'. unfold read_line. cbn [read_line_loop].
        destruct (body_read 1 b' c') as [[r5 b5] c5]. simpl in Hs'. by subst r5.
    + destruct (read_line_ended piece (S (weight c)) [] b c (join_nl (next :: pieces)) e Hb ltac:(lia) Hp ltac:(done) Hd)
        as (b' & c' & E & Hr & Hb' & Hw). change (read_line_loop (S (weight c)) [] b c) with (read_line b c) in E.
      change (len (@nil Z)) with 0 in E.
      assert (Hj : join_nl (piece :: next :: pieces) = (piece ++ [10]) ++ join_nl (next :: pieces)) by (by rewrite <- app_assoc).
      rewrite Hj in Hd, Hset.
      specialize (IH ltac:(done) Hnl fuel (S n)). pose proof (fun cache1 => IH cache1 b' c' e) as IH'. clear IH.
      destruct (stream_lines (next :: pieces) e) as [lines e']. cbn [fst snd] in *.
      eapply watch_line_step; [exact E | pose proof (len_nonneg piece); lia|]. intros cache1. apply IH'; [done | lia | |].
      * destruct (proj1 (delivered_after _ _ _ _ _ _ _ Hr Hb) Hd) as (ys & Heq & Hy). by apply app_inv_head in Heq as <-.
      * destruct Hset as [(b3 & c3 & b4 & c4 & Hr3 & E3 & Hs3) | [He|Hl]]; [left | by right; left | by right; right].
        exists b3, c3, b4, c4. split; [by eapply reads_split | done].
Qed.
End fold.

(** ** Attempts and what they contribute *)

(** The attempt gets an answer with this head, and its body delivers [bytes], then [e]. *)
Definition answers (a : Attempt) (h : Head) (bytes : list Z) (e : result msg unit) : Prop :=
  at_connected a = Ok tt /\ (exists t, at_token a = Ok t) /\ at_written a = Ok tt /\
  exists c', read_head (at_conn a) = (Ok h, c') /\ delivered (body_new h) c' bytes e.

(** Nothing but blank space follows the last chunk of an answer whose last line is not
    ended. *)
Definition tidy (a : Attempt) : Prop := forall h c' bytes e,
  read_head (at_conn a) = (Ok h, c') -> delivered (body_new h) c' bytes e ->
  settled (body_new h) c' bytes \/ e <> Ok tt \/ List.last (split_on 10 bytes) [] = [].

(** The frames a watch attempt contributes. *)
Inductive contributes (a : Attempt) (times : nat -> Z * Z) : list Frame -> Prop :=
| contributes_lines h bytes e : answers a h bytes e -> hd_status h = 200 ->
    contributes a times (frames_at times 0 (stream_lines (split_on 10 bytes) e).1)
| contributes_nothing : (forall h bytes e, answers a h bytes e -> hd_status h <> 200) -> contributes a times [].

Lemma open_request_ok cfg path a req c : open_request cfg path a = Ok (req, c) ->
  at_connected a = Ok tt /\ (exists t, at_token a = Ok t) /\ at_written a = Ok tt /\ c = at_conn a.
Proof.
  unfold open_request. destruct (at_connected a) as [[]|]; [|done]. destruct (at_token a) as [t|]; [|done].
  destruct (at_written a) as [[]|]; [|done]. cbn. intros [= _ <-]. split_and!; try done. by exists t.
Qed.

Lemma open_request_err cfg path a e h bytes f : open_request cfg path a = Err e -> answers a h bytes f -> False.
Proof. intros Ho (H1 & [t H2] & H3 & _). unfold open_request in Ho. by rewrite H1, H2, H3 in Ho. Qed.

Section client_facts.
Context `{JsonText} {C : Type} (st : ApiStream C) (cfg : ApiserverConfig).

(** A watch folds exactly the frames the attempt contributes. *)
Lemma watch_once_exact cache rv a now times : tidy a -> exists frames r cache',
  contributes a times frames /\ watch_once st cfg cache rv a now times = Some (r, cache') /\
  ((exists e, (r, cache') = ended_with e (run_frames st cache frames)) \/
   (frames = [] /\ (cache' = cache /\ is_ok r = false \/ r = Ok MustRelist /\ cache' = as_raise st cache now))).
Proof.
  intros Htidy. unfold watch_once. destruct (open_request cfg (as_watch_path st rv) a) as [[req c]|e] eqn:Eo.
  - apply open_request_ok in Eo as (H1 & H2 & H3 & ->).
    destruct (read_head (at_conn a)) as [[head|e] c'] eqn:Eh.
    + assert (Hh : head_ok head) by (by eapply (read_head_ok _ None)). pose proof (body_new_ok head Hh) as Hb.
      destruct (delivered_total (body_new head) c' Hb) as (bytes & e & Hd).
      assert (Hans : answers a head bytes e) by (split_and!; try done; by exists c').
      assert (Hother : hd_status head <> 200 -> contributes a times []).
      { intros Hs. apply contributes_nothing. intros h2 bytes2 e2 (_ & _ & _ & c2 & Eh2 & _). congruence. }
      destruct (Z.eqb_spec (hd_status head) 200) as [Hs|Hs].
      * eexists _, _, _. split; [by eapply contributes_lines|].
        destruct (split_on_pieces bytes) as (Hne & Hj & Hf).
        rewrite (watch_lines_exact st times (split_on 10 bytes) Hne Hf (S (weight c')) 0 cache (body_new head) c' e Hb ltac:(lia));
          rewrite ?Hj; [| done | by apply (Htidy head c' bytes e)].
        split; [by rewrite (surjective_pairing (ended_with _ _)) | left; by eexists (stream_lines _ _).2; rewrite <- surjective_pairing].
      * destruct (Z.eqb_spec (hd_status head) 410); eexists [], _, _; (split; [by apply Hother|]); (split; [done|]); right;
          (split; [done|]); [by right | by left].
    + eexists [], _, _. split; [apply contributes_nothing; intros h2 b2 e2 (_ & _ & _ & c2 & Eh2 & _); congruence|].
      split; [done|]. right. split; [done | by left].
  - eexists [], _, _. split; [apply contributes_nothing; intros h2 b2 e2 Ha; by destruct (open_request_err _ _ _ _ _ _ _ Eo Ha)|].
    split; [done|]. right. split; [done | by left].
Qed.

(** A list that is stored was delivered whole. *)
Lemma relist_exact cache a clock : exists r cache', relist st cfg cache a clock = Some (r, cache') /\
  ((exists e, r = Err e /\ cache' = cache) \/
   exists h body, answers a h body (Ok tt) /\ hd_status h = 200 /\ len body <= MAX_BODY_BYTES /\
     as_store st cache body clock = (r, cache')).
Proof.
  unfold relist. destruct (open_request cfg (as_list_path st) a) as [[req c]|e] eqn:Eo; [|eexists _, _; split; [done | left; by eexists]].
  apply open_request_ok in Eo as (H1 & H2 & H3 & ->).
  destruct (read_head (at_conn a)) as [[head|e] c'] eqn:Eh; [|eexists _, _; split; [done | left; by eexists]].
  destruct (Z.eqb_spec (hd_status head) 200) as [Hs|Hs]; cbn [negb]; [|eexists _, _; split; [done | left; by eexists]].
  assert (Hh : head_ok head) by (by eapply (read_head_ok _ None)).
  destruct (delivered_total (body_new head) c' (body_new_ok head Hh)) as (bytes & e & Hd).
  destruct (read_body_spec c' head bytes e Hh Hd) as (r & buf & Er & Hl & Hok & Hbig). rewrite Er. cbn [mbind option_bind].
  destruct r as [body|er]; [|eexists _, _; split; [done | left; by eexists]].
  rewrite (surjective_pairing (as_store st cache body clock)). eexists _, _. split; [done|]. right.
  destruct (base.decide (MAX_BODY_BYTES < len bytes)) as [Hlt|Hge]; [by specialize (Hbig Hlt)|].
  assert (Hcl : match hd_content_length head with Some n => n <= MAX_BODY_BYTES | None => True end).
  { unfold read_body in Er. destruct (hd_content_length head) as [n|]; [|done].
    destruct (Z.ltb_spec MAX_BODY_BYTES n); [done | done]. }
  destruct (Hok ltac:(lia) Hcl) as [-> Hr]. destruct e as [[]|m]; [|done]. injection Hr as ->.
  exists head, bytes. split; [split_and!; try done; by exists c' | by split_and!; rewrite <- ?surjective_pairing].
Qed.
End client_facts.

(** ** The pod cache of a running client *)

Section pods.
Context `{JsonText} (cfg : ApiserverConfig).
Notation pods := (pod_stream cfg).

Lemma pod_run_frames frames : forall cache,
  run_frames pods cache frames = let '(o, cache') := watch_frames cache frames in (Ok o, cache').
Proof.
  induction frames as [|f fs IH]; intros cache; simpl; [done|]. destruct (blank (fr_line f)); [apply IH|].
  destruct (apply_watch_line_at _ _ _ _) as [o c1]. case_bool_decide; [done | apply IH].
Qed.

Lemma watch_frames_app f1 : forall f2 c c1, watch_frames c f1 = (Applied, c1) -> watch_frames c (f1 ++ f2) = watch_frames c1 f2.
Proof.
  induction f1 as [|f f1 IH]; intros f2 c c1; simpl; [by intros [= ->]|]. destruct (blank (fr_line f)); [by apply IH|].
  destruct (apply_watch_line_at _ _ _ _) as [o c2]. case_bool_decide as Ho; [intros [= -> ->]; done | by apply IH].
Qed.

(** One attempt of the cycle, when the cache owes nothing afterwards. *)
Lemma watch_once_world cache rv a now times : tidy a -> pods_ok cache ->
  exists frames r cache' o, watch_once pods cfg cache rv a now times = Some (r, cache') /\ pods_ok cache' /\
    (pc_debt_raised_at cache' = None -> contributes a times frames /\ watch_frames cache frames = (o, cache') /\
     (o = Applied \/ r = Ok MustRelist)).
Proof.
  intros Ht Hok. destruct (watch_once_exact pods cfg cache rv a now times Ht) as (frames & r & cache' & Hc & Hw & Hr).
  exists frames, r, cache'. destruct Hr as [[e Hr] | [-> [[-> Hr] | [-> ->]]]].
  - rewrite pod_run_frames in Hr. destruct (watch_frames cache frames) as [o c1] eqn:Ef. exists o.
    pose proof (run_frames_outcome pods frames cache o c1) as Ho. rewrite pod_run_frames, Ef in Ho.
    assert (Hok1 : pods_ok c1) by (by eapply frames_ok).
    destruct (Ho eq_refl) as [->| ->]; simpl in Hr; simplify_eq; split_and!; try done; intros _; split_and!; try done; tauto.
  - exists Applied. split_and!; try done. intros _. split_and!; try done. by left.
  - exists Applied. split; [done|]. split; [by apply pods_ok_raise|]. intros Hd. exfalso.
    unfold as_raise, pod_stream, pods_raise_relist_pending_at in Hd. destruct (pc_relist_pending cache) eqn:Hp; simpl in Hd; [|done].
    apply (pok_debt _ Hok) in Hp as [t Hp]. congruence.
Qed.

Lemma watch_from_world attempts : forall cache rv res k2, Forall (fun x => tidy x.1.1) attempts -> pods_ok cache ->
  watch_from pods cfg cache rv attempts = Some (res, k2) -> pc_debt_raised_at k2 = None ->
  exists used unused framess o, attempts = used ++ unused /\ (res = None -> unused = []) /\
    Forall2 (fun x fs => contributes x.1.1 x.2 fs) used framess /\ watch_frames cache (concat framess) = (o, k2) /\ pods_ok k2.
Proof.
  induction attempts as [|[[a now] times] attempts IH]; intros cache rv res k2 Ht Hok Hw Hd.
  { simpl in Hw. injection Hw as <- <-. by exists [], [], [], Applied. }
  apply Forall_cons in Ht as [Ha Ht]. cbn [watch_from] in Hw.
  destruct (watch_once_world cache rv a now times Ha Hok) as (frames & r & c1 & o & Ew & Hok1 & Hworld). rewrite Ew in Hw.
  cbn [mbind option_bind] in Hw.
  assert (Hstop : k2 = c1 -> res <> None -> exists used unused framess o, (a, now, times) :: attempts = used ++ unused /\
    (res = None -> unused = []) /\ Forall2 (fun x fs => contributes x.1.1 x.2 fs) used framess /\
    watch_frames cache (concat framess) = (o, k2) /\ pods_ok k2).
  { intros -> Hres. destruct (Hworld Hd) as (Hc & Hf & _). exists [(a, now, times)], attempts, [frames], o.
    split_and!; try done; [by repeat constructor|]. simpl. by rewrite app_nil_r. }
  destruct r as [out|e]; [|injection Hw as <- <-; by apply Hstop].
  destruct (bool_decide (out = MustRelist)) eqn:Eo; [apply bool_decide_eq_true in Eo as ->; injection Hw as <- <-; by apply Hstop|].
  apply bool_decide_eq_false in Eo.
  assert (Hw' : (if str_empty (as_version pods c1) then Some (Some (Ok tt), c1) else watch_from pods cfg c1 (as_version pods c1) attempts)
    = Some (res, k2)) by (by destruct out). clear Hw.
  destruct (str_empty (as_version pods c1)); [injection Hw' as <- <-; by apply Hstop|].
  destruct (IH c1 _ res k2 Ht Hok1 Hw' Hd) as (used & unused & framess & o2 & -> & Hu & Hf2 & Hwf & Hok2).
  assert (Hd1 : pc_debt_raised_at c1 = None).
  { destruct (pc_debt_raised_at c1) as [t|] eqn:E1; [|done].
    destruct (frames_debt_standing _ _ _ _ _ Hok1 E1 Hwf) as (_ & Hd2 & _). congruence. }
  destruct (Hworld Hd1) as (Hc & Hf & [->|[= ?]]); [|done]. exists ((a, now, times) :: used), unused, (frames :: framess), o2.
  split_and!; try done; [by constructor|]. simpl. by rewrite (watch_frames_app _ _ _ _ Hf).
Qed.

Lemma watch_from_ok attempts : forall cache rv res k2, Forall (fun x => tidy x.1.1) attempts -> pods_ok cache ->
  watch_from pods cfg cache rv attempts = Some (res, k2) -> pods_ok k2.
Proof.
  induction attempts as [|[[a now] times] attempts IH]; intros cache rv res k2 Ht Hok Hw; [by injection Hw as <- <-|].
  apply Forall_cons in Ht as [Ha Ht]. cbn [watch_from] in Hw.
  destruct (watch_once_world cache rv a now times Ha Hok) as (frames & r & c1 & o & Ew & Hok1 & _). rewrite Ew in Hw.
  cbn [mbind option_bind] in Hw.
  destruct r as [[]|]; try (by injection Hw as <- <-); (destruct (str_empty _); [by injection Hw as <- <- | by eapply IH]).
Qed.

End pods.

(** ** Every call returns *)

Section total.
Context {C : Type} (st : ApiStream C) (cfg : ApiserverConfig).

Lemma watch_lines_total fuel : forall times n cache b c, 0 <= remaining b -> (weight c < fuel)%nat ->
  exists x, watch_lines st fuel times n cache b c = Some x.
Proof.
  induction fuel as [|fuel IH]; intros times n cache b c Hb Hf; [lia|]. cbn [watch_lines].
  destruct (read_line_loop_total (S (weight c)) [] b c Hb ltac:(lia) ltac:(done)) as (r & buf & b' & c' & E & _).
  unfold read_line. rewrite E. cbn [mbind option_bind]. destruct r as [k|e]; [|by eexists].
  destruct (read_line_progress _ _ _ _ _ _ _ _ Hb E) as (Hb' & _ & Hw). change (len (@nil Z)) with 0 in Hw.
  destruct (Z.eqb_spec k 0) as [|Hk]; [by eexists|]. specialize (Hw Hk). destruct (blank buf); [apply IH; [done | lia]|].
  destruct (as_line st cache _) as [[o|e] c1]; [|by eexists]. case_bool_decide; [by eexists | apply IH; [done | lia]].
Qed.

(** Whatever a connection delivers, a list and a watch come to an end. *)
Lemma requests_return cache rv a clock now times :
  (exists x, relist st cfg cache a clock = Some x) /\ (exists x, watch_once st cfg cache rv a now times = Some x).
Proof.
  split; [destruct (relist_exact st cfg cache a clock) as (r & c' & -> & _); by eexists|].
  unfold watch_once. destruct (open_request _ _ a) as [[req c]|]; [|by eexists].
  destruct (read_head c) as [[h|] c'] eqn:Eh; [|by eexists].
  destruct (hd_status h =? 200); [|destruct (hd_status h =? 410); by eexists].
  apply watch_lines_total; [apply body_new_ok; by eapply (read_head_ok _ None) | lia].
Qed.
End total.

(** ** Requests and delays *)

(** What a server makes of an encoded value. *)
Fixpoint percent_decode (l : list Z) : option (list Z) :=
  match l with
  | [] => Some []
  | b :: l' =>
      if b =? 37 then
        match l' with
        | d1 :: d0 :: l'' =>
            match hex_nibble d1, hex_nibble d0 with
            | Ok hi, Ok lo => out ← percent_decode l''; Some (16 * hi + lo :: out)
            | _, _ => None
            end
        | _ => None
        end
      else out ← percent_decode l'; Some (b :: out)
  end.

Lemma upper_digit_nibble n : 0 <= n < 16 -> hex_nibble (upper_digit n) = Ok n /\ 33 <= upper_digit n < 128.
Proof.
  intros Hn. unfold upper_digit, hex_nibble, in_range. destruct (Z.ltb_spec n 10).
  - destruct ((48 <=? 48 + n) && (48 + n <=? 57)) eqn:E; [split; [f_equal; lia | lia] | lia].
  - destruct ((48 <=? 55 + n) && (55 + n <=? 57)) eqn:E; [lia|].
    destruct ((97 <=? 55 + n) && (55 + n <=? 102)) eqn:E2; [lia|].
    destruct ((65 <=? 55 + n) && (55 + n <=? 70)) eqn:E3; [split; [f_equal; lia | lia] | lia].
Qed.

(** An encoded value stands in a request line as one word without a delimiter, and the
    server reads the value back. *)
Lemma percent_encode_exact raw : Forall (fun b => 0 <= b < 256) raw ->
  Forall (fun b => 33 <= b < 128 /\ b <> 38 /\ b <> 61 /\ b <> 63 /\ b <> 35) (percent_encode raw) /\
  percent_decode (percent_encode raw) = Some raw.
Proof.
  unfold percent_encode. induction 1 as [|b raw Hb _ [IHf IHd]]; simpl; [done|].
  destruct (unreserved b) eqn:Eu.
  - assert (percent_byte b = [b]) as -> by (unfold percent_byte; by rewrite Eu). split.
    + constructor; [unfold unreserved, in_range in Eu; lia | done].
    + simpl. destruct (Z.eqb_spec b 37) as [->|]; [done|]. by rewrite IHd.
  - destruct (nibbles b Hb) as [[H1 H2] Hv]. destruct (upper_digit_nibble _ H1) as [D1 R1], (upper_digit_nibble _ H2) as [D2 R2].
    assert (percent_byte b = [37; upper_digit (Z.shiftr b 4); upper_digit (Z.land b 15)]) as ->
      by (unfold percent_byte; by rewrite Eu). split.
    + assert (Hd : forall n, 0 <= n < 16 -> 48 <= upper_digit n /\ upper_digit n <> 61 /\ upper_digit n <> 63)
        by (intros n Hn; unfold upper_digit; case_match; lia).
      pose proof (Hd _ H1). pose proof (Hd _ H2). simpl. repeat constructor; (lia || done).
    + simpl. rewrite D1, D2, IHd. simpl. do 2 f_equal. lia.
Qed.

(** Every cycle is followed by a pause of two to thirty seconds, and while cycles stay
    short the pauses double. *)
Lemma delays_bounded elapsed : length (watch_loop elapsed) = length elapsed /\
  Forall (fun d => RECONNECT_BACKOFF <= d <= MAX_RECONNECT_BACKOFF) (watch_loop elapsed).
Proof.
  assert (Hgen : forall b, RECONNECT_BACKOFF <= bo_next b <= MAX_RECONNECT_BACKOFF ->
    length (watch_loop_from b elapsed) = length elapsed /\
    Forall (fun d => RECONNECT_BACKOFF <= d <= MAX_RECONNECT_BACKOFF) (watch_loop_from b elapsed)).
  { assert (Hc : RECONNECT_BACKOFF <= MAX_RECONNECT_BACKOFF /\ 0 <= RECONNECT_BACKOFF) by (vm_compute; split; discriminate).
    induction elapsed as [|ran elapsed IH]; intros b Hb; [done|]. cbn [watch_loop_from].
    set (b1 := if HEALTHY_STREAM <=? ran then backoff_reset b else b).
    assert (Hb1 : RECONNECT_BACKOFF <= bo_next b1 <= MAX_RECONNECT_BACKOFF)
      by (subst b1; destruct (HEALTHY_STREAM <=? ran); [unfold backoff_reset; simpl; lia | done]).
    clearbody b1. cbn [backoff_take]. destruct (IH {| bo_next := Z.min (bo_next b1 * 2) MAX_RECONNECT_BACKOFF |}) as [Hl Hf].
    { cbn [bo_next]. lia. }
    split; [simpl; by rewrite Hl | by constructor]. }
  apply Hgen. vm_compute. split; discriminate.
Qed.

Lemma delays_double n : watch_loop (repeat 0 n) = map (fun k => Z.min (RECONNECT_BACKOFF * 2 ^ Z.of_nat k) MAX_RECONNECT_BACKOFF) (seq 0 n).
Proof.
  assert (Hgen : forall n k, watch_loop_from {| bo_next := Z.min (RECONNECT_BACKOFF * 2 ^ Z.of_nat k) MAX_RECONNECT_BACKOFF |} (repeat 0 n) =
    map (fun k => Z.min (RECONNECT_BACKOFF * 2 ^ Z.of_nat k) MAX_RECONNECT_BACKOFF) (seq k n)).
  { intros m. induction m as [|m IH]; intros k; [done|]. cbn [repeat watch_loop_from seq map].
    change (HEALTHY_STREAM <=? 0) with false. cbn [backoff_take bo_next]. f_equal. rewrite <- IH. f_equal. f_equal.
    rewrite Nat2Z.inj_succ, Z.pow_succ_r by lia. assert (0 < 2 ^ Z.of_nat k) by (apply Z.pow_pos_nonneg; lia).
    unfold RECONNECT_BACKOFF, MAX_RECONNECT_BACKOFF, seconds. lia. }
  exact (Hgen n 0%nat).
Qed.

(** ** Answers that stay ended *)

Lemma reads_plain b c bytes b' c' : reads b c bytes b' c' -> (exists n, b = Plain n) -> exists m, b' = Plain m.
Proof.
  induction 1 as [|b c x b1 c1 bytes b' c' E _ IH]; [done|]. intros [n ->]. apply IH. unfold body_read in E.
  destruct (n =? 0); [by simplify_eq|]. destruct (read _ c) as [[bs|] c2]; simplify_eq. by eexists.
Qed.

Lemma plain_tidy a : (forall h c', read_head (at_conn a) = (Ok h, c') -> hd_chunked h = false) -> tidy a.
Proof.
  intros Hplain h c' bytes e Eh (b1 & c1 & Hr & Hs). destruct e as [[]|m]; [|by right; left]. left.
  assert (Hh : head_ok h) by (by eapply (read_head_ok _ None)). pose proof (body_new_ok h Hh) as Hb.
  assert (Hp : exists n, body_new h = Plain n) by (unfold body_new; rewrite (Hplain _ _ Eh); by eexists).
  destruct (reads_plain _ _ _ _ _ Hr Hp) as [m Heq]. subst b1. pose proof (reads_ok _ _ _ _ _ Hr Hb) as Hm. simpl in Hm.
  exists (Plain m), c1. unfold stops in Hs. simpl in Hs.
  destruct (base.decide (m = 0)) as [Hz|Hz].
  - subst m. exists (Plain 0), c1. split; [done|]. by split.
  - pose proof (read_spec (Z.to_nat (Z.min 1 m)) c1 ltac:(lia)) as R.
    destruct (Z.eqb_spec m 0) as [|_]; [done|]. destruct (read (Z.to_nat (Z.min 1 m)) c1) as [r c2] eqn:E. simpl in R, Hs.
    destruct r as [bs|]; simpl in Hs; [|done]. injection Hs as ->. inversion R as [Hi Hx| |]; subst.
    exists (Plain m), c2. split; [done|]. split.
    + simpl. destruct (Z.eqb_spec m 0); [done|]. rewrite E. change (len (@nil Z)) with 0. by rewrite Z.sub_0_r.
    + eapply stops_ceq; [simpl; lia | | unfold stops; simpl; destruct (Z.eqb_spec m 0); [done|]; by rewrite E].
      unfold ceq. congruence.
Qed.

(** So does a chunked body that ends the way servers end it. *)
Lemma chunked_settled chunks last c rest : Forall chunk_ok chunks -> announces last 0 ->
  items c = map inl (concat (map chunk_bytes chunks) ++ last) ++ rest -> rest = [] \/ (exists l, rest = map inl [13; 10] ++ l) ->
  settled (Chunked 0) c (concat (map ch_data chunks)).
Proof.
  intros Hok Hlast Hi Hrest. rewrite map_app, <- app_assoc in Hi. set (l := conn_of (map inl last ++ rest)).
  assert (Hl : items l = map inl last ++ rest) by apply items_conn_of. rewrite <- Hl in Hi.
  destruct (chunk_size_read _ _ _ _ Hlast Hl) as (c1 & E & Hc1). exists (Chunked 0), l, (Chunked 0), c1.
  split; [by apply chunks_read|]. split; [rewrite body_read_parts by (simpl; lia); unfold part_left; by rewrite E|].
  unfold stops. rewrite body_read_parts by (simpl; lia). unfold part_left.
  assert (E2 : exists c2, chunk_size c1 = (Ok None, c2)).
  { destruct Hrest as [->|[k ->]].
    - destruct (chunk_size_same c1 [] Hc1) as [Hr _]. exists (chunk_size c1).2. rewrite (surjective_pairing (chunk_size c1)) at 1.
      by rewrite Hr.
    - destruct (text_line_read _ _ _ crlf_line Hc1) as (c2 & Et & _). exists c2. unfold chunk_size. by rewrite Et. }
  destruct E2 as [c2 ->]. done.
Qed.

(** ** A concrete client *)

(** A codec that knows a pod list and a bookmark. *)
#[local] Instance wire_codec : JsonText := {
  json_of_bytes l :=
    if bool_decide (l = as_bytes "LIST") then
      Ok (JObj [("items", JArr [web_json]); ("kind", JStr "PodList"); ("metadata", JObj [("resourceVersion", JStr "7")])])
    else if bool_decide (l = as_bytes "MARK") then
      Ok (JObj [("object", JObj [("metadata", JObj [("resourceVersion", JStr "8")])]); ("type", JStr "BOOKMARK")])
    else Err "expected value";
  json_bytes _ := Err "not used"
}.

Definition node_config : ApiserverConfig :=
  {| ac_host := "10.0.0.1"; ac_port := 443; ac_server_name := DEFAULT_SERVER_NAME; ac_node_name := "node-a";
     ac_token_path := "token"; ac_ca_path := "ca.crt" |}.

Definition attempt_with (c : Conn) : Attempt :=
  {| at_connected := Ok tt; at_token := Ok "secret"; at_written := Ok tt; at_conn := c |}.

Definition crlf_text (lines : list string) : list Z := flat_map (fun l => as_bytes l ++ [13; 10]) lines.

(** The list in two chunks and three pieces; a watch whose frame arrives in two. *)
Definition list_attempt : Attempt := attempt_with
  [Data (crlf_text ["HTTP/1.1 200 OK"; "Transfer-Encoding: chunked"; ""; "3"] ++ as_bytes "L"); Data (as_bytes "IS");
   Data (crlf_text [""; "1"; "T"; "0"; ""])].
Definition watch_attempt : Attempt := attempt_with
  [Data (crlf_text ["HTTP/1.1 200 OK"; ""] ++ as_bytes "MA"); Data (as_bytes "RK" ++ [10])].

Definition seconds_at (n : nat) : Z * Z := (seconds (Z.of_nat n), seconds (Z.of_nat n)).

Definition client_listed : PodCache :=
  default (pod_cache_new "") (snd <$> relist (pod_stream node_config) node_config (pod_cache_new "node-a") list_attempt 0).
Definition client_watched : PodCache :=
  default (pod_cache_new "")
    (snd <$> watch_from (pod_stream node_config) node_config client_listed "7" [(watch_attempt, 0, seconds_at)]).


(** ** A server that ends every watch at once *)

Definition closing_attempt : Attempt := attempt_with [Data (crlf_text ["HTTP/1.1 200 OK"; ""])].

(** The cycle connects again and again without ever returning to the loop that sleeps
    between cycles. *)
Lemma immediate_end_spins cfg cache rv n : pc_resource_version cache <> "" ->
  watch_from (pod_stream cfg) cfg cache rv (repeat (closing_attempt, 0, seconds_at) n) = Some (None, cache).
Proof.
  intros Hv. revert rv. induction n as [|n IH]; intros rv; [done|]. cbn [repeat watch_from].
  assert (Hw : watch_once (pod_stream cfg) cfg cache rv closing_attempt 0 seconds_at = Some (Ok Applied, cache)) by reflexivity.
  rewrite Hw. cbn [mbind option_bind as_version pod_stream]. destruct (str_empty (pc_resource_version cache)) eqn:E; [|apply IH].
  by apply str_empty_true in E.
Qed.

(** A connection that closes in the middle of a short header line is reported as a line
    over the ceiling. *)
Lemma short_line_reported_as_flood :
  (read_head [Data (as_bytes "HTTP/1.1 200 OK")]).1 =
  Err (Degraded [Lit "apiserver response: "; Lit "header line exceeds "; Num MAX_HEADER_LINE_BYTES; Lit " bytes"]).
Proof. vm_compute. reflexivity. Qed.
