(* ===== verification/Publish.v ===== *)
(** * Publication of a signed policy

    The part of [crates/ferrum-controller] that asks nothing of a cluster: the signing
    seed ([key.rs]), the FSIG envelope as the controller reads and writes it
    ([bundle.rs]), compile, sign and rollout ([lib.rs]), and the Secret, the status and
    the list of exceptions it plans to write ([apply.rs]). [fmt] is the text of a
    message. The theorem of this file follows a policy from its spec through the planned
    Secret to the programs the webhook and the agent run. *)

From S2P Require Import Prelude RustStd RustText Ids Api Policy Wire Encode Febp Wasm Compiler Envelope Program.
From S2P Require Import Crypto Journal Encoding Json Bundle Webhook AgentSource.
Import Admission.

(** ** The signing seed: key.rs *)

Definition ctl_hex_nibble (b : Z) : Result Z :=
  if in_range 48 57 b then Ok (b - 48)
  else if in_range 97 102 b then Ok (b - 97 + 10)
  else if in_range 65 70 b then Ok (b - 65 + 10)
  else Err (Validation [Lit "hex contains a non-hex character"]).

(** The [while] over pairs; the length is even. *)
Fixpoint ctl_hex_pairs (bytes : list Z) : Result (list Z) :=
  match bytes with
  | b0 :: b1 :: rest =>
      hi ← ctl_hex_nibble b0; lo ← ctl_hex_nibble b1; out ← ctl_hex_pairs rest;
      Ok (Z.lor (Z.shiftl hi 4) lo :: out)
  | _ => Ok []
  end.

Definition ctl_hex_decode (s : string) : Result (list Z) :=
  let bytes := trim_bytes (as_bytes s) in
  _ ← refuse_if (negb (len bytes mod 2 =? 0)) (Validation [Lit "hex has odd length"]);
  ctl_hex_pairs bytes.

Definition parse_seed_hex (hex : string) : Result (list Z) :=
  bytes ← ctl_hex_decode hex;
  _ ← refuse_if (negb (len bytes =? ED25519_SECRET_KEY_LEN))
        (Validation [Lit "Ed25519 seed must be "; Num ED25519_SECRET_KEY_LEN; Lit " bytes (";
           Num (ED25519_SECRET_KEY_LEN * 2); Lit " hex chars), got "; Num (len bytes)]);
  mret bytes.

Definition parse_public_key_hex (hex : string) : Result (list Z) :=
  bytes ← ctl_hex_decode hex;
  _ ← refuse_if (negb (len bytes =? ED25519_PUBLIC_KEY_LEN))
        (Validation [Lit "Ed25519 public key must be "; Num ED25519_PUBLIC_KEY_LEN;
           Lit " bytes, got "; Num (len bytes)]);
  mret bytes.

(** A raw seed, or its hex. *)
Definition parse_seed_bytes (raw : list Z) : Result (list Z) :=
  if len raw =? ED25519_SECRET_KEY_LEN then Ok raw
  else
    text ← ok_or (from_utf8 raw) (Validation [Lit "signing seed is not UTF-8 hex"]);
    parse_seed_hex text.

(** What the process finds around it: files, and the two environment variables. *)
Record SeedEnv := {
  se_read : string -> result string (list Z);
  se_seed_file_env : option string;
  se_seed_env : option string
}.

Definition load_seed_file (env : SeedEnv) (path : string) : Result (list Z) :=
  raw ← map_err (fun e => Validation [Lit "read seed file "; Str path; Lit ": "; Str e]) (se_read env path);
  parse_seed_bytes raw.

Definition load_seed (env : SeedEnv) (seed_file : option string) : Result (list Z) :=
  let from_env :=
    match se_seed_env env with
    | Some hex => parse_seed_hex hex
    | None => Err (Validation [Lit "signing seed is missing: pass --seed-file or set FERRUM_SEED / FERRUM_SEED_FILE"])
    end in
  match seed_file with
  | Some path => load_seed_file env path
  | None =>
      match se_seed_file_env env with
      | Some path => if str_empty (trim path) then from_env else load_seed_file env (trim path)
      | None => from_env
      end
  end.

(** ** The envelope: bundle.rs *)

Record SignedBundle := {
  sb_raw : list Z;
  sb_signature : list Z;
  sb_public_key : list Z;
  sb_digest : string;
  sb_min_agent_abi : Z;
  sb_min_admission_abi : Z
}.

(** [take]: a cursor with one error text. *)
Definition ctl_take (n : Z) : rd (list Z) := integrity "truncated signed bundle" (rd_take raw_texts n).
Definition ctl_take_u32 : rd Z := b ← ctl_take 4; mret (le_val b).
Definition ctl_take_len_prefixed : rd (list Z) := n ← ctl_take_u32; ctl_take n.

Definition envelope_fields : rd (list Z * list Z * list Z) :=
  magic ← ctl_take 4;
  _ ← rd_try (refuse_if (negb (bool_decide (magic = SIGNED_MAGIC)))
        (Integrity [Lit "signed bundle magic is not FSIG"]));
  format ← ctl_take_u32;
  _ ← rd_try (refuse_if (negb (format =? SIGNED_FORMAT))
        (Integrity [Lit "unsupported signed bundle format "; Num format]));
  public_key ← ctl_take_len_prefixed;
  signature ← ctl_take_len_prefixed;
  payload ← ctl_take_len_prefixed;
  mret (public_key, signature, payload).

Definition decode_fsig_envelope (bytes : list Z) : Result (list Z * list Z * list Z) :=
  '(public_key, signature, payload) ← run_reader
     (x ← envelope_fields; _ ← integrity "trailing bytes in signed bundle" (rd_finish raw_texts); mret x) bytes;
  _ ← refuse_if (is_empty signature)
        (Integrity [Lit "bundle signature is empty; unsigned bundles are rejected"]);
  _ ← refuse_if (negb (len public_key =? ED25519_PUBLIC_KEY_LEN))
        (Integrity [Lit "Ed25519 public key must be "; Num ED25519_PUBLIC_KEY_LEN; Lit " bytes, got ";
           Num (len public_key)]);
  _ ← refuse_if (negb (len signature =? ED25519_SIGNATURE_LEN))
        (Integrity [Lit "Ed25519 signature must be "; Num ED25519_SIGNATURE_LEN; Lit " bytes, got ";
           Num (len signature)]);
  mret (public_key, signature, payload).

(** The same envelope, text and order of checks as the test encoder of the webhook. *)
Definition encode_fsig_envelope (public_key signature payload : list Z) : Result (list Z) :=
  encode_fsig payload signature public_key.

Definition parse_framb_abis (raw : list Z) : Result (Z * Z) :=
  _ ← refuse_if (len raw <? 16) (Integrity [Lit "truncated FRMB envelope"]);
  _ ← refuse_if (negb (bool_decide (take 4 raw = BUNDLE_MAGIC)))
        (Integrity [Lit "signed raw is not an FRMB envelope"]);
  let format := le_val (take 4 (drop 4 raw)) in
  _ ← refuse_if (negb (format =? BUNDLE_FORMAT)) (Integrity [Lit "unsupported FRMB format "; Num format]);
  mret (le_val (take 4 (drop 8 raw)), le_val (take 4 (drop 12 raw))).

(** [SignedBundle::encode]. *)
Definition sb_encode (b : SignedBundle) : Result (list Z) :=
  encode_fsig_envelope (sb_public_key b) (sb_signature b) (sb_raw b).

Section publish.
Context `{E : Ed25519} (sha256 : list Z -> list Z).

(** [SignedBundle::decode]. *)
Definition sb_decode (bytes : list Z) : Result SignedBundle :=
  '(public_key, signature, raw) ← decode_fsig_envelope bytes;
  '(min_agent_abi, min_admission_abi) ← parse_framb_abis raw;
  mret {| sb_raw := raw; sb_signature := signature; sb_public_key := public_key;
          sb_digest := bundle_digest sha256 raw; sb_min_agent_abi := min_agent_abi;
          sb_min_admission_abi := min_admission_abi |}.

Definition verify_signed_bundle (b : SignedBundle) (trusted_public_key : list Z) : Result string :=
  verify_bundle_signature sha256 (sb_raw b) (sb_signature b) trusted_public_key.

Definition verify_fsig_envelope (bytes trusted_public_key : list Z) : Result (list Z) :=
  '(public_key, signature, payload) ← decode_fsig_envelope bytes;
  _ ← refuse_if (negb (bool_decide (public_key = trusted_public_key))) pin_mismatch;
  _ ← verify_bundle_signature sha256 payload signature trusted_public_key;
  mret payload.

(** ** Compile, sign, roll out: lib.rs *)

Definition sign_compiled (compiled : CompiledBundle) (secret_key : list Z) : Result SignedBundle :=
  raw ← bundle_digest_material AGENT_ABI ADMISSION_ABI (cb_admission_program compiled)
          (cb_ebpf_spec compiled) (cb_wasm compiled);
  let digest := bundle_digest sha256 raw in
  _ ← refuse_if (negb (str_eqb digest (cb_digest compiled)))
        (Integrity [Lit "compiled digest does not match FRMB material"]);
  signature ← sign_bundle raw secret_key;
  public_key ← public_key_from_secret secret_key;
  '(min_agent_abi, min_admission_abi) ← parse_framb_abis raw;
  mret {| sb_raw := raw; sb_signature := signature; sb_public_key := public_key; sb_digest := digest;
          sb_min_agent_abi := min_agent_abi; sb_min_admission_abi := min_admission_abi |}.

Definition compile_and_sign (spec : ClusterSecurityPolicySpec) (secret_key : list Z) : Result SignedBundle :=
  compiled ← compile_cluster_policy sha256 spec; sign_compiled compiled secret_key.

Definition compile_and_sign_namespaced (spec : SecurityPolicySpec) (secret_key : list Z) : Result SignedBundle :=
  compiled ← compile_namespaced_policy sha256 spec; sign_compiled compiled secret_key.
End publish.

(** ** Status and rollout *)

Record CompileStatus := {
  cs_ready : bool; cs_bundle_digest : string; cs_compiler_version : string; cs_message : string
}.
Record RolloutStatus := { ro_clusters_ready : option Z; ro_clusters_degraded : option Z }.
Record PolicyStatus := {
  pst_observed_generation : Z; pst_compile : CompileStatus; pst_rollout : RolloutStatus
}.
Record PolicyExceptionStatus := { pes_active : bool; pes_message : string }.
Record PolicyLibrarySpec := {
  pls_source : string; pls_digest : string; pls_min_agent_abi : Z; pls_min_admission_abi : Z
}.

Definition default_rollout : RolloutStatus := {| ro_clusters_ready := None; ro_clusters_degraded := None |}.

(** [env!("CARGO_PKG_VERSION")], the workspace version. *)
Definition COMPILER_VERSION : string := "0.1.0".

Definition compile_status_ok (b : SignedBundle) : CompileStatus :=
  {| cs_ready := true; cs_bundle_digest := sb_digest b; cs_compiler_version := COMPILER_VERSION;
     cs_message := "compiled and signed" |}.

Definition compile_status_err (fmt : msg -> string) (err : FerrumError) : CompileStatus :=
  {| cs_ready := false; cs_bundle_digest := ""; cs_compiler_version := COMPILER_VERSION;
     cs_message := fmt (error_to_string err) |}.

(** One member of the fleet, as declared on the command line. *)
Record ClusterAbi := { ca_name : string; ca_agent_abi : Z; ca_admission_abi : Z }.
Record RolloutPlan := { rp_status : RolloutStatus; rp_deliver : list string; rp_keep_lkg : list string }.

Definition effective_min_abi (b : SignedBundle) (library : option PolicyLibrarySpec) : Z * Z :=
  (Z.max (sb_min_agent_abi b) (default 0 (pls_min_agent_abi <$> library)),
   Z.max (sb_min_admission_abi b) (default 0 (pls_min_admission_abi <$> library))).

Definition abi_compatible (peer_abi min_abi : Z) : bool := min_abi <=? peer_abi.

(** [i32::try_from(n).expect(..)]: members come from the command line, which holds
    fewer than 2^31 arguments. *)
Definition count_i32 (n : Z) : Z := n.

Definition plan_rollout (b : SignedBundle) (library : option PolicyLibrarySpec) (clusters : list ClusterAbi)
    : RolloutPlan :=
  let '(min_agent, min_admission) := effective_min_abi b library in
  let '(deliver, keep_lkg) :=
    foldl (fun '(deliver, keep_lkg) c =>
        if abi_compatible (ca_agent_abi c) min_agent && abi_compatible (ca_admission_abi c) min_admission
        then (deliver ++ [ca_name c], keep_lkg) else (deliver, keep_lkg ++ [ca_name c]))
      ([], []) clusters in
  {| rp_status := if is_empty clusters then default_rollout
                  else {| ro_clusters_ready := Some (count_i32 (len deliver));
                          ro_clusters_degraded := Some (count_i32 (len keep_lkg)) |};
     rp_deliver := deliver; rp_keep_lkg := keep_lkg |}.

Record ReconcileApplied := {
  ra_bundle : SignedBundle; ra_status : PolicyStatus; ra_mode : PolicyMode;
  ra_deliver : list string; ra_keep_lkg : list string
}.
Inductive ReconcileOutcome := Applied (a : ReconcileApplied) | Failed (s : PolicyStatus).

(** What [reconcile] and its twin do with the result of compiling and signing. *)
Definition reconciled (fmt : msg -> string) (compiled : Result SignedBundle) (mode : PolicyMode)
    (observed_generation : Z) (library : option PolicyLibrarySpec) (clusters : list ClusterAbi)
    : ReconcileOutcome :=
  match compiled with
  | Ok b =>
      let plan := plan_rollout b library clusters in
      Applied {| ra_bundle := b;
                 ra_status := {| pst_observed_generation := observed_generation;
                                 pst_compile := compile_status_ok b; pst_rollout := rp_status plan |};
                 ra_mode := mode; ra_deliver := rp_deliver plan; ra_keep_lkg := rp_keep_lkg plan |}
  | Err err =>
      Failed {| pst_observed_generation := observed_generation;
                pst_compile := compile_status_err fmt err; pst_rollout := default_rollout |}
  end.

Section reconcile.
Context `{E : Ed25519} (sha256 : list Z -> list Z) (fmt : msg -> string).

Definition reconcile (spec : ClusterSecurityPolicySpec) (observed_generation : Z) (secret_key : list Z)
    (library : option PolicyLibrarySpec) (clusters : list ClusterAbi) : ReconcileOutcome :=
  reconciled fmt (compile_and_sign sha256 spec secret_key) (csp_mode spec) observed_generation library clusters.

Definition reconcile_namespaced (spec : SecurityPolicySpec) (observed_generation : Z) (secret_key : list Z)
    (library : option PolicyLibrarySpec) (clusters : list ClusterAbi) : ReconcileOutcome :=
  reconciled fmt (compile_and_sign_namespaced sha256 spec secret_key) (sp_mode spec) observed_generation
    library clusters.

(** [reconcile_exception]: the status, and the spec when it is live. *)
Definition reconcile_exception (spec : PolicyExceptionSpec) (now : Z)
    : PolicyExceptionStatus * option PolicyExceptionSpec :=
  match validate_exception spec now with
  | Ok _ => ({| pes_active := true; pes_message := "exception is live" |}, Some spec)
  | Err err => ({| pes_active := false; pes_message := fmt (error_to_string err) |}, None)
  end.
End reconcile.

(** ** JSON of the statuses

    A [serde_json::Map] is ordered by key; an absent count is an explicit [null]. *)

Definition json_count (n : option Z) : Json := match n with Some n => JNum (Some n) | None => JNull end.

Definition compile_status_json (s : CompileStatus) : Json :=
  JObj [("bundleDigest", JStr (cs_bundle_digest s)); ("compilerVersion", JStr (cs_compiler_version s));
        ("message", JStr (cs_message s)); ("ready", JBool (cs_ready s))].

Definition rollout_status_json (s : RolloutStatus) : Json :=
  JObj [("clustersDegraded", json_count (ro_clusters_degraded s));
        ("clustersReady", json_count (ro_clusters_ready s))].

Definition status_patch (s : PolicyStatus) : Json :=
  JObj [("status", JObj [("compile", compile_status_json (pst_compile s));
                         ("observedGeneration", JNum (Some (pst_observed_generation s)));
                         ("rollout", rollout_status_json (pst_rollout s))])].

Definition exception_status_patch (s : PolicyExceptionStatus) : Json :=
  JObj [("status", JObj [("active", JBool (pes_active s)); ("message", JStr (pes_message s))])].

(** ** Secrets: apply.rs *)

Definition DEFAULT_NAMESPACE : string := "ferrum".
Definition BUNDLE_SECRET_PREFIX : string := "ferrum-bundle-".
Definition EXCEPTIONS_JSON_KEY : string := "exceptions.json".
Definition MANAGED_BY_KEY : string := "app.kubernetes.io/managed-by".
Definition MANAGED_BY_VALUE : string := "ferrum-controller".
Definition POLICY_LABEL_KEY : string := "ferrum.io/policy".
Definition POLICY_NAMESPACE_LABEL_KEY : string := "ferrum.io/policy-namespace".
Definition CLUSTER_SCOPE_VALUE : string := "cluster.scope".

(** The fields of a Secret the controller reads or writes. *)
Record Secret := {
  sec_name : option string;
  sec_namespace : option string;
  sec_labels : option (gmap string string);
  sec_type : option string;
  sec_data : option (gmap string (list Z))
}.

Definition secret_name (policy_name : string) : string := BUNDLE_SECRET_PREFIX +:+ "cluster-" +:+ policy_name.
Definition namespaced_secret_name (policy_name policy_namespace : string) : string :=
  BUNDLE_SECRET_PREFIX +:+ "ns-" +:+ policy_namespace +:+ "-" +:+ policy_name.

(** [namespaced_secret_labels]. *)
Definition namespaced_secret_labels (policy_name policy_namespace : string) : gmap string string :=
  <[POLICY_NAMESPACE_LABEL_KEY := policy_namespace]>
    (<[POLICY_LABEL_KEY := policy_name]> (<[MANAGED_BY_KEY := MANAGED_BY_VALUE]> ∅)).

Definition cluster_secret_labels (policy_name : string) : gmap string string :=
  <[POLICY_NAMESPACE_LABEL_KEY := CLUSTER_SCOPE_VALUE]>
    (<[POLICY_LABEL_KEY := policy_name]> (<[MANAGED_BY_KEY := MANAGED_BY_VALUE]> ∅)).

Definition OWNER_KEYS : list string := [MANAGED_BY_KEY; POLICY_LABEL_KEY; POLICY_NAMESPACE_LABEL_KEY].

Definition ensure_secret_ownership (live planned : Secret) : Result unit :=
  let planned_labels := default ∅ (sec_labels planned) in
  let live_labels := default ∅ (sec_labels live) in
  try_each (fun key =>
    refuse_if (negb (bool_decide (live_labels !! key = planned_labels !! key)))
      (Integrity [Lit "secret "; Str (default "<unnamed>" (sec_name live));
         Lit " is owned by another policy ("; Str key; Lit " mismatch); refusing to overwrite"])) OWNER_KEYS.

Definition exceptions_for_policy (specs : list PolicyExceptionSpec) (policy_name : string)
    : list PolicyExceptionSpec :=
  List.filter (fun s => is_empty (et_policies (pe_target s))
                        || existsb (fun p => str_eqb p policy_name) (et_policies (pe_target s))) specs.

(** What [serde_json::to_vec] makes of a list of exceptions. *)
Class ExceptionsWriter : Type := {
  exceptions_bytes : list PolicyExceptionSpec -> result string (list Z)
}.

Section apply.
Context `{E : Ed25519} `{W : ExceptionsWriter} (sha256 : list Z -> list Z) (fmt : msg -> string).

Definition exceptions_json (specs : list PolicyExceptionSpec) : Result (list Z) :=
  map_err (fun e => Validation [Lit "exceptions encode: "; Str e]) (exceptions_bytes specs).

Definition exceptions_fsig (specs : list PolicyExceptionSpec) (secret_key : list Z) : Result (list Z) :=
  payload ← exceptions_json specs;
  signature ← sign_bundle payload secret_key;
  public_key ← public_key_from_secret secret_key;
  encode_fsig_envelope public_key signature payload.

(** [ByteString] is standard padded base64 in JSON, and encoding it cannot fail. *)
Definition exceptions_secret_patch (specs : list PolicyExceptionSpec) (secret_key : list Z) : Result Json :=
  fsig ← exceptions_fsig specs secret_key;
  mret (JObj [("data", JObj [(EXCEPTIONS_FSIG_KEY, JStr (string_of_bytes (b64_encode fsig)));
                             (EXCEPTIONS_JSON_KEY, JNull)])]).

(** [exception_targets]: name and policy of each Secret to patch, and the Secrets no
    list can be scoped to. *)
Definition exception_targets (secrets : list Secret) : list (string * string) * list string :=
  foldl (fun '(targets, unscopable) secret =>
      match sec_name secret with
      | None => (targets, unscopable ++ ["<unnamed>"])
      | Some name =>
          match sec_labels secret ≫= (.!! POLICY_LABEL_KEY) with
          | None => (targets, unscopable ++ [name])
          | Some policy => (targets ++ [(name, policy)], unscopable)
          end
      end) ([], []) secrets.

Definition bundle_secret_named (secret_name namespace : string) (labels : gmap string string)
    (b : SignedBundle) (trust_root : list Z) : Result Secret :=
  _ ← verify_signed_bundle sha256 b trust_root;
  fsig ← sb_encode b;
  mret {| sec_name := Some secret_name; sec_namespace := Some namespace; sec_labels := Some labels;
          sec_type := Some "Opaque";
          sec_data := Some (<[BUNDLE_DIGEST_KEY := as_bytes (sb_digest b)]> (<[BUNDLE_FSIG_KEY := fsig]> ∅)) |}.

Definition bundle_secret (policy_name namespace : string) (b : SignedBundle) (trust_root : list Z)
    : Result Secret :=
  bundle_secret_named (secret_name policy_name) namespace (cluster_secret_labels policy_name) b trust_root.

Definition live_secret_matches (secret : Secret) (trust_root : list Z) (expected_digest : string) : bool :=
  if str_empty expected_digest then false else
  match sec_data secret with
  | None => false
  | Some data =>
      let digest_agrees := match data !! BUNDLE_DIGEST_KEY with
                           | Some stored => bool_decide (from_utf8 stored = Some expected_digest)
                           | None => true
                           end in
      if negb digest_agrees then false else
      match data !! BUNDLE_FSIG_KEY with
      | None => false
      | Some fsig =>
          match sb_decode sha256 fsig with
          | Err _ => false
          | Ok b => match verify_signed_bundle sha256 b trust_root with
                    | Ok digest => str_eqb digest expected_digest
                    | Err _ => false
                    end
          end
      end
  end.

Record ApplyPlan := { ap_status : Json; ap_secret : option Secret }.

Definition plan_apply_named (secret_name namespace : string) (labels : gmap string string)
    (outcome : ReconcileOutcome) (trust_root : list Z) : ApplyPlan :=
  match outcome with
  | Applied applied =>
      match bundle_secret_named secret_name namespace labels (ra_bundle applied) trust_root with
      | Ok secret => {| ap_status := status_patch (ra_status applied); ap_secret := Some secret |}
      | Err err =>
          {| ap_status := status_patch
               {| pst_observed_generation := pst_observed_generation (ra_status applied);
                  pst_compile := compile_status_err fmt err; pst_rollout := default_rollout |};
             ap_secret := None |}
      end
  | Failed status => {| ap_status := status_patch status; ap_secret := None |}
  end.

Definition plan_apply (policy_name namespace : string) (outcome : ReconcileOutcome) (trust_root : list Z)
    : ApplyPlan :=
  plan_apply_named (secret_name policy_name) namespace (cluster_secret_labels policy_name) outcome trust_root.

Definition plan_apply_namespaced (policy_name policy_namespace secret_namespace : string)
    (outcome : ReconcileOutcome) (trust_root : list Z) : ApplyPlan :=
  plan_apply_named (namespaced_secret_name policy_name policy_namespace) secret_namespace
    (namespaced_secret_labels policy_name policy_namespace) outcome trust_root.
End apply.

(** ** One envelope, three readers *)

Lemma integrity_same_l {A} text (m k : rd A) : same_but_errors m k -> same_but_errors (integrity text m) k.
Proof. intros H r. unfold integrity, rd_map_err. specialize (H r). by destruct (m r), (k r). Qed.

Lemma integrity_same_r {A} text (m k : rd A) : same_but_errors m k -> same_but_errors m (integrity text k).
Proof. intros H r. unfold integrity, rd_map_err. specialize (H r). by destruct (m r), (k r). Qed.

Lemma take_u32_same : same_but_errors ctl_take_u32 (rd_u32 raw_texts).
Proof. apply bind_same; [apply integrity_same_l, same_refl | intros a; apply same_refl]. Qed.

Lemma take_blob_same text name : same_but_errors ctl_take_len_prefixed (integrity text (len_prefixed name)).
Proof.
  apply integrity_same_r. apply bind_same; [apply take_u32_same | intros n].
  intros r. unfold ctl_take, integrity, rd_map_err. by destruct (rd_take _ _ _).
Qed.

(** The magic: one read and one comparison, wherever the errors are mapped. *)
Lemma magic_same {A} text (k k' : unit -> rd A) :
  same_but_errors (k tt) (k' tt) ->
  same_but_errors (magic ← ctl_take 4;
                   u ← rd_try (refuse_if (negb (bool_decide (magic = SIGNED_MAGIC)))
                         (Integrity [Lit "signed bundle magic is not FSIG"])); k u)
    (u ← integrity text (rd_expect_magic raw_texts SIGNED_MAGIC); k' u).
Proof.
  intros Hk r. unfold ctl_take, integrity, rd_expect_magic, mbind, rd_mbind, rd_map_err, rd_try.
  destruct (rd_take raw_texts 4 r) as [[got r1]|]; simpl; [|done].
  destruct (base.decide (got = SIGNED_MAGIC)) as [->|Hne]; [apply Hk|].
  rewrite bool_decide_false by done. rewrite bool_decide_true by done. done.
Qed.

Lemma run_same {A} (m k : rd A) bytes :
  same_but_errors m k -> forall a, run_reader m bytes = Ok a <-> run_reader k bytes = Ok a.
Proof.
  intros H a. unfold run_reader. specialize (H (new_reader bytes)).
  by destruct (m _) as [[x r]|], (k _) as [[y r']|]; simplify_eq.
Qed.

(** The controller's own reader accepts exactly the envelopes the webhook's does. *)
Lemma envelope_decode_agrees bytes x : decode_fsig_envelope bytes = Ok x <-> decode_fsig bytes = Ok x.
Proof.
  assert (Hf : same_but_errors
    (x ← envelope_fields; _ ← integrity "trailing bytes in signed bundle" (rd_finish raw_texts); mret x)
    (x ← fsig_fields; _ ← integrity "trailing bytes in signed bundle" (rd_finish raw_texts); mret x)).
  { apply bind_same; [|intros y; apply same_refl]. unfold envelope_fields, fsig_fields.
    apply magic_same. apply bind_same; [apply integrity_same_r, take_u32_same|]. intros format.
    apply bind_same; [apply same_refl|]. intros [].
    do 3 (apply bind_same; [apply take_blob_same | intros ?]). apply same_refl. }
  unfold decode_fsig_envelope, decode_fsig. rewrite !bind_ok. by setoid_rewrite (run_same _ _ bytes Hf).
Qed.

(** ** What is signed and published *)

Lemma append_len_prefixed_inv out blob name out' :
  append_len_prefixed out blob name = Ok out' -> len blob < U32 /\ out' = out ++ le_bytes 4 (len blob) ++ blob.
Proof. unfold append_len_prefixed. destruct (Z.ltb_spec (len blob) U32); [by intros [= <-] | done]. Qed.

(** Where the fields of an envelope stand, and that each of them is shorter than it. *)
Lemma material_inv a b adm ebpf wasm m :
  bundle_digest_material a b adm ebpf wasm = Ok m ->
  (exists rest, m = BUNDLE_MAGIC ++ le_bytes 4 BUNDLE_FORMAT ++ le_bytes 4 a ++ le_bytes 4 b ++ rest) /\
  len adm <= len m /\ len ebpf <= len m /\ len adm < U32 /\ len ebpf < U32.
Proof.
  unfold bundle_digest_material. intros H.
  apply bind_ok in H as (o1 & [H1 ->]%append_len_prefixed_inv & H).
  apply bind_ok in H as (o2 & [H2 ->]%append_len_prefixed_inv & [H3 ->]%append_len_prefixed_inv).
  split; [by rewrite <- !app_assoc; eexists|]. rewrite !len_app.
  repeat match goal with |- context [len (le_bytes ?n ?z)] => pose proof (len_nonneg (le_bytes n z)); generalize dependent (len (le_bytes n z)); intros end.
  pose proof (len_nonneg adm). pose proof (len_nonneg ebpf). pose proof (len_nonneg wasm).
  pose proof (len_nonneg BUNDLE_MAGIC). lia.
Qed.

Lemma abis_of_material adm ebpf wasm m :
  bundle_digest_material AGENT_ABI ADMISSION_ABI adm ebpf wasm = Ok m ->
  parse_framb_abis m = Ok (AGENT_ABI, ADMISSION_ABI).
Proof.
  intros [[rest ->] _]%material_inv. unfold parse_framb_abis.
  assert ((len (BUNDLE_MAGIC ++ le_bytes 4 BUNDLE_FORMAT ++ le_bytes 4 AGENT_ABI ++ le_bytes 4 ADMISSION_ABI ++ rest) <? 16)
          = false) as ->; [|done].
  apply Z.ltb_ge. rewrite !len_app, !len_le_bytes. pose proof (len_nonneg rest). change (len BUNDLE_MAGIC) with 4. lia.
Qed.

Lemma append_blob_inv out blob name out' :
  append_blob out blob name = Ok out' -> len blob < U32 /\ out' = out ++ le_bytes 4 (len blob) ++ blob.
Proof. unfold append_blob. destruct (Z.ltb_spec (len blob) U32); [by intros [= <-] | done]. Qed.

(** An envelope that could be written fits in memory, payload included. *)
Lemma fsig_fits payload signature public_key bytes :
  encode_fsig payload signature public_key = Ok bytes -> len bytes <= ISIZE_MAX /\ len payload < U32.
Proof.
  unfold encode_fsig. rewrite !bind_ok_unit, !refuse_if_ok. intros (_ & _ & _ & H).
  apply bind_ok in H as (o1 & [H1 ->]%append_blob_inv & H).
  apply bind_ok in H as (o2 & [H2 ->]%append_blob_inv & [H3 ->]%append_blob_inv).
  split; [|done]. rewrite !len_app, !len_le_bytes. change (len SIGNED_MAGIC) with 4. unfold U32, ISIZE_MAX in *. lia.
Qed.

Lemma fsig_written payload signature public_key :
  len public_key = ED25519_PUBLIC_KEY_LEN -> len signature = ED25519_SIGNATURE_LEN -> len payload < U32 ->
  exists bytes, encode_fsig payload signature public_key = Ok bytes.
Proof.
  intros Hk Hs Hp. unfold encode_fsig. rewrite Hk, Hs.
  assert (is_empty signature = false) as -> by (by destruct signature).
  cbn [refuse_if negb mbind result_mbind]. unfold append_blob. rewrite Hk, Hs, (proj2 (Z.ltb_lt _ _) Hp). by eexists.
Qed.

Section published.
Context `{E : Ed25519} `{!Ed25519Laws E} (sha256 : list Z -> list Z) (fmt : msg -> string).
(** SHA-256 is 32 bytes. *)
Context (Hsha : forall m, len (sha256 m) = 32 /\ Forall (fun b => 0 <= b < 256) (sha256 m)).

(** A digest is its own text: printable, not empty, nothing to trim. *)
Lemma digest_text m (d := bundle_digest sha256 m) :
  from_utf8 (as_bytes d) = Some d /\ trim d = d /\ d <> "" /\ str_empty d = false /\ is_empty (as_bytes d) = false.
Proof.
  destruct (Hsha m) as [Hlen Hb]. pose proof (hex_bytes_range _ Hb) as Hr.
  assert (Ed : as_bytes d = hex_bytes (sha256 m)).
  { unfold d, bundle_digest, hex_encode. apply as_bytes_of_string. eapply Forall_impl; [exact Hr | simpl; lia]. }
  assert (Hl : len (as_bytes d) = 64) by (rewrite Ed, hex_bytes_len, Hlen; done).
  assert (Hne : is_empty (as_bytes d) = false) by (destruct (as_bytes d); done).
  split_and!; [| | | |done].
  - apply from_utf8_as_bytes. unfold str_ok, utf8_ok. rewrite utf8_valid_ascii; [apply Nat.eqb_refl|].
    rewrite Ed. eapply Forall_impl; [exact Hr | simpl; lia].
  - apply as_bytes_inj. rewrite as_bytes_trim, Ed. apply trim_printable. eapply Forall_impl; [exact Hr | simpl; lia].
  - by apply str_empty_false.
  - done.
Qed.

Lemma key_of_seed seed root :
  public_key_from_secret seed = Ok root ->
  root = ed_public seed /\ len seed = ED25519_SECRET_KEY_LEN /\ len root = ED25519_PUBLIC_KEY_LEN /\
  is_all_zero root = false /\ parse_keypair seed = Ok seed.
Proof.
  unfold public_key_from_secret. intros (s & Hp & [= <-])%bind_ok.
  assert (s = seed /\ len seed = ED25519_SECRET_KEY_LEN) as [-> Hlen].
  { unfold parse_keypair in Hp. inv_ok. bool_hyps. split; [done | lia]. }
  destruct (ed_public_ok seed Hlen) as (Hl & _ & Hz & Hb). split_and!; try done. by apply is_all_zero_false.
Qed.

(** The bundle the controller signs over [raw]. *)
Definition signed_over (seed root raw : list Z) : SignedBundle :=
  {| sb_raw := raw; sb_signature := ed_sign seed (signed_message raw); sb_public_key := root;
     sb_digest := bundle_digest sha256 raw; sb_min_agent_abi := AGENT_ABI; sb_min_admission_abi := ADMISSION_ABI |}.

(** Signing what was compiled never fails with a good key. *)
Lemma sign_compiled_ok fx c seed root :
  emit_bundle sha256 fx = Ok c -> public_key_from_secret seed = Ok root ->
  exists raw, bundle_digest_material AGENT_ABI ADMISSION_ABI (cb_admission_program c) (cb_ebpf_spec c) (cb_wasm c) = Ok raw /\
    cb_digest c = bundle_digest sha256 raw /\ sign_compiled sha256 c seed = Ok (signed_over seed root raw).
Proof.
  intros (_ & _ & _ & _ & raw & Hm & Hd)%emit_bundle_inv Hk. exists raw. split_and!; [done..|].
  destruct (key_of_seed _ _ Hk) as (_ & _ & _ & _ & Hp).
  unfold sign_compiled. rewrite Hm. cbn [mbind result_mbind]. rewrite Hd, str_eqb_refl. cbn [refuse_if negb mbind result_mbind].
  unfold sign_bundle. rewrite Hp. cbn [mbind result_mbind]. rewrite Hk. cbn [mbind result_mbind].
  by rewrite (abis_of_material _ _ _ _ Hm).
Qed.

(** A bundle the controller signed verifies under the key of its seed. *)
Lemma signed_over_verifies seed root raw :
  public_key_from_secret seed = Ok root ->
  verify_signed_bundle sha256 (signed_over seed root raw) root = Ok (bundle_digest sha256 raw).
Proof. intros (-> & Hlen & _)%key_of_seed. by apply sign_verify. Qed.

(** What both planes make of a mounted envelope [fsig] with the announced [digest]. *)
Definition loads_as `{T : JsonText} (root fsig : list Z) (digest : string) (fx : Effects) : Prop :=
  (forall snap, read_dir_snapshot snap (ReadOk fsig) (ReadOk (as_bytes digest)) = Ok (fsig, Some digest)) /\
  load_source_with_digest sha256 fsig root (Some digest) = Ok (compiled_program fx, digest) /\
  exists raw febp, agent_load_source sha256 fsig root (Some digest) = Ok (raw, digest) /\
    extract_febp raw = Ok febp /\ Spec.parse_febp febp = Ok (Spec.compiled_spec fx).

Lemma signed_envelope_of seed root raw fsig :
  public_key_from_secret seed = Ok root -> sb_encode (signed_over seed root raw) = Ok fsig ->
  signed_envelope sha256 root fsig (Some (bundle_digest sha256 raw)) raw /\
  decode_fsig fsig = Ok (root, ed_sign seed (signed_message raw), raw).
Proof.
  intros Hk He. unfold sb_encode, encode_fsig_envelope in He. simpl in He. pose proof (fsig_fits _ _ _ _ He) as [Hl _].
  destruct (fsig_roundtrip _ _ _ _ He Hl) as [Hd Hm]. split; [|done]. split; [done|]. eexists.
  split; [exact Hd|]. pose proof (signed_over_verifies seed root raw Hk) as Hv.
  unfold verify_signed_bundle in Hv. simpl in Hv. rewrite Hv. split; [done|].
  simpl. unfold verify_bundle_digest. destruct (digest_text raw) as (_ & _ & _ & -> & _).
  by rewrite str_eqb_refl.
Qed.

Lemma published_loads `{T : JsonText} fx c seed root raw fsig :
  effects_ok fx -> emit_bundle sha256 fx = Ok c -> public_key_from_secret seed = Ok root ->
  bundle_digest_material AGENT_ABI ADMISSION_ABI (cb_admission_program c) (cb_ebpf_spec c) (cb_wasm c) = Ok raw ->
  sb_encode (signed_over seed root raw) = Ok fsig ->
  loads_as root fsig (bundle_digest sha256 raw) fx.
Proof.
  intros Hok (Hg & Hadm & Hebpf & Hw & _)%emit_bundle_inv Hk Hm He.
  destruct (signed_envelope_of _ _ _ _ Hk He) as [Henv _]. destruct (key_of_seed _ _ Hk) as (_ & _ & _ & Hz & _).
  unfold sb_encode, encode_fsig_envelope in He. pose proof (fsig_fits _ _ _ _ He) as [Hl Hraw]. simpl in Hraw.
  destruct (material_inv _ _ _ _ _ _ Hm) as (_ & Hla & Hle & _). rewrite Hw in Hm.
  assert (Hfit : forall l : list Z, len l <= len raw -> len l <= ISIZE_MAX) by (unfold U32, ISIZE_MAX in *; lia).
  destruct (extract_admission_compiled _ _ _ Hm (encode_admission_nonempty _ _ Hadm) (Hfit raw ltac:(lia))) as [_ Hp].
  rewrite (fadm_roundtrip _ _ Hok Hadm (Hfit _ Hla)) in Hp.
  pose proof (extract_frmb _ _ _ _ Hm Hebpf (Hfit raw ltac:(lia))) as Hx.
  destruct (digest_text raw) as (Hu & Ht & _ & Hse & Hde). destruct Henv as [Hmagic Hs]. split_and!.
  - intros snap. unfold read_dir_snapshot, read_required, parse_dir_digest.
    assert (is_empty fsig = false) as -> by (destruct fsig; [done | done]).
    rewrite Hde. cbn [mbind result_mbind]. rewrite Hu. cbn [ok_or mbind result_mbind]. by rewrite Ht, Hse.
  - apply webhook_accepts; [done|]. exists raw. by repeat split.
  - exists raw, (cb_ebpf_spec c). split_and!; [|done|].
    + apply agent_accepts; [done|]. by rewrite Hx.
    + apply parse_compiled; [done..|]. by apply Hfit.
Qed.
(** What a plan says of the policy in its status. *)
Definition plan_compile (plan : ApplyPlan) : option Json * option Json :=
  (pointer (ap_status plan) ["status"; "compile"; "ready"],
   pointer (ap_status plan) ["status"; "compile"; "bundleDigest"]).

(** A plan and the policy it is for: a Secret that both planes load as that policy, under
    the digest the status announces; or no Secret, and a status that says so. *)
Definition plan_publishes `{T : JsonText} (root : list Z) (compiled : Result CompiledBundle) (fx : Effects)
    (name ns : string) (labels : gmap string string) (plan : ApplyPlan) : Prop :=
  match ap_secret plan with
  | Some secret =>
      exists fsig digest c, compiled = Ok c /\ cb_digest c = digest /\
        secret = {| sec_name := Some name; sec_namespace := Some ns; sec_labels := Some labels;
                    sec_type := Some "Opaque";
                    sec_data := Some {[BUNDLE_FSIG_KEY := fsig; BUNDLE_DIGEST_KEY := as_bytes digest]} |} /\
        loads_as root fsig digest fx /\ live_secret_matches sha256 secret root digest = true /\
        plan_compile plan = (Some (JBool true), Some (JStr digest))
  | None =>
      plan_compile plan = (Some (JBool false), Some (JStr "")) /\
      (forall c, compiled = Ok c -> exists raw,
         bundle_digest_material AGENT_ABI ADMISSION_ABI (cb_admission_program c) (cb_ebpf_spec c) (cb_wasm c) = Ok raw /\
         U32 <= len raw)
  end.

Lemma live_secret_of secret seed root raw fsig :
  public_key_from_secret seed = Ok root -> sb_encode (signed_over seed root raw) = Ok fsig ->
  parse_framb_abis raw = Ok (AGENT_ABI, ADMISSION_ABI) ->
  sec_data secret = Some {[BUNDLE_FSIG_KEY := fsig; BUNDLE_DIGEST_KEY := as_bytes (bundle_digest sha256 raw)]} ->
  live_secret_matches sha256 secret root (bundle_digest sha256 raw) = true.
Proof.
  intros Hk He Ha Hs. destruct (signed_envelope_of _ _ _ _ Hk He) as [_ Hd%envelope_decode_agrees].
  destruct (digest_text raw) as (Hu & _ & _ & Hse & _). unfold live_secret_matches. rewrite Hse, Hs.
  rewrite lookup_insert_ne, lookup_singleton_eq by done.
  rewrite bool_decide_true by done. cbn [negb]. rewrite lookup_insert_eq.
  unfold sb_decode. rewrite Hd. cbn [mbind result_mbind]. rewrite Ha. cbn [mbind result_mbind].
  pose proof (signed_over_verifies seed root raw Hk) as Hv. unfold verify_signed_bundle in *. simpl in *.
  rewrite Hv. apply str_eqb_refl.
Qed.

Lemma plan_named_publishes `{T : JsonText} seed root fx validated mode gen library clusters name ns labels :
  public_key_from_secret seed = Ok root -> effects_ok fx ->
  plan_publishes root (_ ← validated; emit_bundle sha256 fx) fx name ns labels
    (plan_apply_named sha256 fmt name ns labels
       (reconciled fmt (c ← (_ ← (validated : Result unit); emit_bundle sha256 fx); sign_compiled sha256 c seed)
          mode gen library clusters) root).
Proof.
  intros Hk Hok. destruct (_ ← validated; emit_bundle sha256 fx) as [c|e] eqn:Hc; [|done].
  apply bind_ok_unit in Hc as [_ Hc]. destruct (sign_compiled_ok fx c seed root Hc Hk) as (raw & Hm & Hd & Hs).
  cbn [mbind result_mbind]. rewrite Hs. simpl. unfold bundle_secret_named. rewrite signed_over_verifies by done.
  cbn [mbind result_mbind]. destruct (sb_encode (signed_over seed root raw)) as [fsig|e] eqn:He.
  - simpl. exists fsig, (bundle_digest sha256 raw), c. split_and!; [done..| | | |done].
    + f_equal.
    + by eapply published_loads.
    + eapply live_secret_of; [done..| by eapply abis_of_material |]. done.
  - simpl. split; [done|]. intros c' [= <-]. exists raw. split; [done|].
    destruct (Z.le_gt_cases U32 (len raw)) as [|Hlt]; [done|]. exfalso.
    destruct (key_of_seed _ _ Hk) as (_ & Hlen & Hpk & _). destruct (ed_sign_ok seed (signed_message raw) Hlen) as (Hsl & _).
    destruct (fsig_written raw (ed_sign seed (signed_message raw)) root Hpk Hsl Hlt) as [b Hb].
    unfold sb_encode, encode_fsig_envelope in He. simpl in He. by rewrite Hb in He.
Qed.

(** C7: from a policy object to the programs that run. A controller whose pin is the key of
    its seed plans, for a cluster or a namespaced policy, either a Secret that the webhook
    and the agent, reading it from their mounts under that pin, load as exactly the
    admission program and the runtime program of that policy, with the digest in the
    Secret the digest in the status and the digest both of them report; or no Secret at all,
    with a status that says not ready and names no digest, and then the policy did not
    compile or its envelope exceeds the 4 GiB a length prefix can say. *)
Theorem published_secret_loads `{T : JsonText} seed root gen library clusters policy_name ns
    (Hkey : public_key_from_secret seed = Ok root) :
  (forall spec, effects_ok (effects_of_cluster spec) ->
     plan_publishes root (compile_cluster_policy sha256 spec) (effects_of_cluster spec)
       (secret_name policy_name) ns (cluster_secret_labels policy_name)
       (plan_apply sha256 fmt policy_name ns (reconcile sha256 fmt spec gen seed library clusters) root)) /\
  (forall spec policy_ns, effects_ok (effects_of_namespaced spec) ->
     plan_publishes root (compile_namespaced_policy sha256 spec) (effects_of_namespaced spec)
       (namespaced_secret_name policy_name policy_ns) ns (namespaced_secret_labels policy_name policy_ns)
       (plan_apply_namespaced sha256 fmt policy_name policy_ns ns
          (reconcile_namespaced sha256 fmt spec gen seed library clusters) root)).
Proof.
  split; intros; by apply plan_named_publishes.
Qed.
End published.

(** The example policy, planned, mounted and loaded. *)
Definition toy_text (m : msg) : string := "error".

Lemma toy_sha256_ok m : len (toy_sha256 m) = 32 /\ Forall (fun b => 0 <= b < 256) (toy_sha256 m).
Proof.
  split; [unfold len, toy_sha256; by rewrite repeat_length|]. apply Forall_forall. intros b Hb.
  apply list_elem_of_In, repeat_spec in Hb as ->. pose proof (Z.mod_pos_bound (foldr Z.add 0 m) 256). lia.
Qed.

Lemma published_secret_witness :
  exists secret fsig digest, ap_secret (plan_apply toy_sha256 toy_text "web" "ferrum"
      (reconcile toy_sha256 toy_text example_policy 3 toy_seed None []) (ed_public toy_seed)) = Some secret /\
    sec_data secret = Some {[BUNDLE_FSIG_KEY := fsig; BUNDLE_DIGEST_KEY := as_bytes digest]} /\
    loads_as toy_sha256 (ed_public toy_seed) fsig digest (effects_of_cluster example_policy).
Proof.
  destruct (published_secret_loads toy_sha256 toy_text toy_sha256_ok toy_seed (ed_public toy_seed) 3 None [] "web" "ferrum"
    ltac:(vm_compute; reflexivity)) as [H _].
  specialize (H example_policy example_policy_types). unfold plan_publishes in H.
  destruct (ap_secret _) as [secret|] eqn:Hs; [|exfalso; vm_compute in Hs; discriminate Hs].
  destruct H as (fsig & digest & c & _ & _ & Es & Hl & _). exists secret, fsig, digest.
  split; [reflexivity|]. split; [rewrite Es; reflexivity | exact Hl].
Defined.

(** ** The list of exceptions *)

(** [serde]: what was written is read back. *)
Class ExceptionsCodec (X : ExceptionsJson) (W : ExceptionsWriter) : Prop := {
  exceptions_roundtrip l bytes : exceptions_bytes l = Ok bytes -> exceptions_of_json bytes = Ok l
}.

Section exceptions.
Context `{E : Ed25519} `{!Ed25519Laws E} `{X : ExceptionsJson} `{W : ExceptionsWriter} `{!ExceptionsCodec X W}.
Context (sha256 : list Z -> list Z).
Context (Hsha : forall m, len (sha256 m) = 32 /\ Forall (fun b => 0 <= b < 256) (sha256 m)).

Lemma exceptions_fsig_inv specs seed fsig :
  exceptions_fsig specs seed = Ok fsig ->
  exists payload root, exceptions_bytes specs = Ok payload /\ public_key_from_secret seed = Ok root /\
    sb_encode (signed_over sha256 seed root payload) = Ok fsig.
Proof.
  unfold exceptions_fsig, exceptions_json. intros H. apply bind_ok in H as (payload & Hp & H).
  apply bind_ok in H as (sig & Hs & H). apply bind_ok in H as (root & Hk & H).
  exists payload, root. split_and!; [by destruct (exceptions_bytes specs); simplify_eq/= | done|].
  destruct (key_of_seed _ _ Hk) as (_ & _ & _ & _ & Hkp). unfold sign_bundle in Hs. rewrite Hkp in Hs. by injection Hs as <-.
Qed.

(** A list the controller signed is the list both planes hold once they read it. *)
Lemma published_list_loads specs seed root fsig :
  exceptions_fsig specs seed = Ok fsig -> public_key_from_secret seed = Ok root ->
  exists payload, exceptions_of_json payload = Ok specs /\
    verify_exceptions_fsig sha256 fsig root = Ok payload /\ load_exceptions_source sha256 fsig root = Ok payload.
Proof.
  intros (payload & root' & Hp & Hk' & He)%exceptions_fsig_inv Hk. rewrite Hk in Hk'. injection Hk' as <-.
  exists payload. split; [by apply exceptions_roundtrip|].
  destruct (signed_envelope_of sha256 Hsha _ _ _ _ Hk He) as ((Hm & sig & Hd & Hv & _) & Hd').
  destruct (key_of_seed _ _ Hk) as (_ & _ & Hl & Hz & _). apply is_ok_true in Hv as [d Hv].
  split.
  - unfold verify_exceptions_fsig, pin_length. rewrite Hl, Hm. cbn [refuse_if negb mbind result_mbind Z.eqb].
    change (ED25519_PUBLIC_KEY_LEN =? ED25519_PUBLIC_KEY_LEN) with true. cbn [refuse_if negb mbind result_mbind].
    rewrite Hd. cbn [mbind result_mbind]. rewrite bool_decide_true by done. cbn [refuse_if negb mbind result_mbind].
    by rewrite Hv.
  - unfold load_exceptions_source, pin_bytes. rewrite Hl, Hz, Hm. cbn [refuse_if negb mbind result_mbind Z.eqb].
    change (ED25519_PUBLIC_KEY_LEN =? ED25519_PUBLIC_KEY_LEN) with true. cbn [refuse_if negb mbind result_mbind].
    rewrite agent_decode_agrees, Hd. cbn [mbind result_mbind]. rewrite bool_decide_true by done.
    cbn [refuse_if negb mbind result_mbind]. by rewrite Hv.
Qed.

(** A signed list says neither whose it is nor when it was current: whatever list the
    controller ever signed for any policy, put back into a mount, replaces the list the
    webhook holds and is loaded by the agent. Whoever can write the Secret can thereby
    restore a revoked exception until it expires, without the signing key. *)
Lemma replayed_list_restores_waivers specs policy seed root fsig (w : WebhookState) :
  exceptions_fsig (exceptions_for_policy specs policy) seed = Ok fsig ->
  public_key_from_secret seed = Ok root -> wh_trust_root w = root ->
  try_reload_exceptions sha256 w fsig =
    (Ok (len (exceptions_for_policy specs policy)), set_exceptions (exceptions_for_policy specs policy) w) /\
  exists payload, load_exceptions_source sha256 fsig root = Ok payload /\
    exceptions_of_json payload = Ok (exceptions_for_policy specs policy).
Proof.
  intros Hf Hk Hw. destruct (published_list_loads _ _ _ _ Hf Hk) as (payload & Hj & Hv & Ha). split; [|by exists payload].
  unfold try_reload_exceptions. by rewrite Hw, Hv, Hj.
Qed.
End exceptions.

(** Every exception in a policy's list names that policy, given that validation let it in. *)
Lemma exceptions_for_policy_scoped specs policy s t :
  s ∈ exceptions_for_policy specs policy -> validate_exception s t = Ok tt -> policy ∈ et_policies (pe_target s).
Proof.
  intros [_ Hf]%list_elem_of_In%filter_In Hv. unfold validate_exception in Hv. revert Hv.
  rewrite !bind_ok_unit, !refuse_if_ok. intros (_ & _ & _ & _ & _ & _ & Hp & _).
  apply orb_false_iff in Hp as [Hne _]. rewrite Hne in Hf. simpl in Hf.
  apply existsb_exists in Hf as (p & Hin & ->%str_eqb_true). by apply list_elem_of_In.
Qed.

(** A declared fleet is split by the effective minimum ABIs, in its order, and only a
    declared fleet has numbers. *)
Lemma plan_rollout_exact b library clusters :
  let '(min_agent, min_admission) := effective_min_abi b library in
  let fits c := (min_agent <=? ca_agent_abi c) && (min_admission <=? ca_admission_abi c) in
  let plan := plan_rollout b library clusters in
  rp_deliver plan = map ca_name (List.filter fits clusters) /\
  rp_keep_lkg plan = map ca_name (List.filter (fun c => negb (fits c)) clusters) /\
  (ro_clusters_ready (rp_status plan) = None <-> clusters = []).
Proof.
  unfold plan_rollout. destruct (effective_min_abi b library) as [ma mm]. cbn zeta. unfold abi_compatible.
  set (fits := fun c => (ma <=? ca_agent_abi c) && (mm <=? ca_admission_abi c)).
  assert (H : forall cs d k, foldl (fun '(deliver, keep_lkg) c => if fits c then (deliver ++ [ca_name c], keep_lkg)
      else (deliver, keep_lkg ++ [ca_name c])) (d, k) cs =
    (d ++ map ca_name (List.filter fits cs), k ++ map ca_name (List.filter (fun c => negb (fits c)) cs))).
  { induction cs as [|c cs IH]; intros d k; simpl; [by rewrite !app_nil_r|].
    destruct (fits c); rewrite IH; simpl; by rewrite <- app_assoc. }
  change (foldl _ ([], []) clusters) with (foldl (fun '(deliver, keep_lkg) c => if fits c then (deliver ++ [ca_name c], keep_lkg)
      else (deliver, keep_lkg ++ [ca_name c])) ([], []) clusters). rewrite H. simpl. split_and!; [done..|].
  by destruct clusters.
Qed.
