(* ===== verification/Health.v ===== *)
(** * What the controller knows about itself

    [crates/ferrum-controller/src/health.rs]: the counters of the four classes of API
    calls, the runs of failures, the rule that ends the process, and the status file with
    its failing calls. A monotonic instant is a number of nanoseconds; [fmt] is the text
    of a message. Atomics and locks are taken as atomic steps. *)

From S2P Require Import Prelude RustStd Ids Json.

Definition STATUS_NAME : string := "status.json".
Definition STATUS_TMP_NAME : string := ".status.json.tmp".
Definition REASON_STATUS_UNWRITABLE : string :=
  "status file unwritable: this controller's counters have no reader on this pod".
Definition TERMINAL_RUN : Z := 10.
Definition TERMINAL_WINDOW : Z := 2 * 290 * 1000000000.

Inductive FailureClass := CReconcile | CStatusPatch | CWatch | CExceptionPublish.

#[global] Instance FailureClass_eq_dec : EqDecision FailureClass.
Proof. solve_decision. Defined.

(** [FailureClass::ALL]. *)
Definition class_all : list FailureClass := [CReconcile; CStatusPatch; CWatch; CExceptionPublish].

Definition class_name (c : FailureClass) : string :=
  match c with
  | CReconcile => "reconcile" | CStatusPatch => "status_patch" | CWatch => "watch"
  | CExceptionPublish => "exception_publish"
  end.

Definition class_counter (c : FailureClass) : string :=
  match c with
  | CReconcile => "reconcile_failures" | CStatusPatch => "status_patch_failures" | CWatch => "watch_errors"
  | CExceptionPublish => "exception_publish_failures"
  end.

Definition class_index (c : FailureClass) : Z :=
  match c with CReconcile => 0 | CStatusPatch => 1 | CWatch => 2 | CExceptionPublish => 3 end.

(** [Requested]: a set of classes in the bits of a [u8]. *)
Definition Requested : Type := Z.
Definition requested_none : Requested := 0.
Definition requested_of (c : FailureClass) : Requested := Z.shiftl 1 (class_index c).
Definition requested_contains (r : Requested) (c : FailureClass) : bool := negb (Z.land r (requested_of c) =? 0).
Definition requested_is_empty (r : Requested) : bool := r =? 0.

Record ClassState := {
  cst_total : Z;
  cst_run : Z;
  cst_ever_ok : bool;
  cst_last : option string;
  cst_last_failure_at : option Z;
  cst_unactionable : list string
}.

Record ControllerHealth := {
  ch_class : FailureClass -> ClassState;
  ch_status_write_failed : bool;
  ch_status_write_failures : Z;
  ch_status_error_logged : bool;
  ch_no_status_dir_logged : bool;
  ch_changed : bool
}.

Definition class_new : ClassState :=
  {| cst_total := 0; cst_run := 0; cst_ever_ok := false; cst_last := None; cst_last_failure_at := None;
     cst_unactionable := [] |}.

Definition health_new : ControllerHealth :=
  {| ch_class := fun _ => class_new; ch_status_write_failed := false; ch_status_write_failures := 0;
     ch_status_error_logged := false; ch_no_status_dir_logged := false; ch_changed := false |}.

Definition set_class (c : FailureClass) (st : ClassState) (changed : bool) (h : ControllerHealth) : ControllerHealth :=
  {| ch_class := fun d => if bool_decide (d = c) then st else ch_class h d;
     ch_status_write_failed := ch_status_write_failed h; ch_status_write_failures := ch_status_write_failures h;
     ch_status_error_logged := ch_status_error_logged h; ch_no_status_dir_logged := ch_no_status_dir_logged h;
     ch_changed := ch_changed h || changed |}.

Definition note_class_success (c : FailureClass) (h : ControllerHealth) : ControllerHealth :=
  let st := ch_class h c in
  let first := negb (cst_ever_ok st) in
  let recovered := negb (cst_run st =? 0) in
  set_class c {| cst_total := cst_total st; cst_run := 0; cst_ever_ok := true; cst_last := None;
                 cst_last_failure_at := None; cst_unactionable := cst_unactionable st |} (first || recovered) h.

Definition note_success (requested : Requested) (h : ControllerHealth) : ControllerHealth :=
  foldl (fun h c => if requested_contains requested c then note_class_success c h else h) h class_all.

Definition note_unactionable (c : FailureClass) (subjects : list string) (h : ControllerHealth)
    : bool * ControllerHealth :=
  let st := ch_class h c in
  if bool_decide (cst_unactionable st = subjects) then (false, h)
  else (true, set_class c {| cst_total := cst_total st; cst_run := cst_run st; cst_ever_ok := cst_ever_ok st;
                             cst_last := cst_last st; cst_last_failure_at := cst_last_failure_at st;
                             cst_unactionable := subjects |} true h).

Definition terminal_reason (c : FailureClass) (run : Z) (cause : string) : msg :=
  [Str (class_name c); Lit " failed "; Num run; Lit " times in a row within "; Num (TERMINAL_WINDOW / 1000000000);
   Lit "s and no "; Str (class_name c);
   Lit " request has ever succeeded since this process started: that is the deployment, not the object — check the RBAC and the CRDs. Last cause: ";
   Str cause].

(** [note_failure_at]; [Err] is the end of the process. [saturating_duration_since] is
    zero when the clock reading is not later. *)
Definition note_failure_at (c : FailureClass) (cause : string) (now : Z) (h : ControllerHealth)
    : Result unit * ControllerHealth :=
  let st := ch_class h c in
  let continues := match cst_last_failure_at st with
                   | None => true
                   | Some prev => Z.max 0 (now - prev) <=? TERMINAL_WINDOW
                   end in
  let run := if continues then (cst_run st + 1) mod U64 else 1 in
  let h := set_class c {| cst_total := (cst_total st + 1) mod U64; cst_run := run; cst_ever_ok := cst_ever_ok st;
                          cst_last := Some cause; cst_last_failure_at := Some now;
                          cst_unactionable := cst_unactionable st |} true h in
  (refuse_if ((TERMINAL_RUN <=? run) && negb (cst_ever_ok st)) (Degraded (terminal_reason c run cause)), h).

(** The getters of one class. *)
Definition failures (h : ControllerHealth) (c : FailureClass) : Z := cst_total (ch_class h c).
Definition failure_run (h : ControllerHealth) (c : FailureClass) : Z := cst_run (ch_class h c).
Definition ever_succeeded (h : ControllerHealth) (c : FailureClass) : bool := cst_ever_ok (ch_class h c).
Definition last_cause (h : ControllerHealth) (c : FailureClass) : option string := cst_last (ch_class h c).
Definition unactionable (h : ControllerHealth) (c : FailureClass) : list string := cst_unactionable (ch_class h c).

Definition comma_list (l : list string) : string := String.concat ", " l.

(** [degraded_reasons]: the runs, the objects no retry will mend, the status file. *)
Definition ctl_degraded_reasons (h : ControllerHealth) : list msg :=
  omap (fun c =>
    if failure_run h c =? 0 then None else
    Some [Str (class_name c); Lit ": "; Num (failure_run h c); Lit " in a row";
          Lit (if ever_succeeded h c then "" else ", and no request of this class has ever succeeded");
          Lit "; last: "; Str (default "<no cause recorded>" (last_cause h c))]) class_all
  ++ omap (fun c =>
    if is_empty (unactionable h c) then None else
    Some [Str (class_name c); Lit ": "; Num (len (unactionable h c));
          Lit " object(s) this controller cannot act on and no retry will mend: ";
          Str (comma_list (unactionable h c))]) class_all
  ++ (if ch_status_write_failed h then [[Str REASON_STATUS_UNWRITABLE]] else []).

Definition ctl_is_degraded (h : ControllerHealth) : bool := negb (is_empty (ctl_degraded_reasons h)).

(** ** The status file *)

(** A [u64] as a JSON number. *)
Definition json_u64 (n : Z) : Json := JNum (if n <? 9223372036854775808 then Some n else None).

(** [status_json] at the Unix time [ts]. *)
Definition ctl_status_json (fmt : msg -> string) (ts : Z) (h : ControllerHealth) : Json :=
  let strs l := JArr (map JStr l) in
  JObj (btree_iter (insert_all
    ([("ts", json_u64 ts);
      ("degraded", JBool (negb (is_empty (ctl_degraded_reasons h))));
      ("degradedReasons", strs (map fmt (ctl_degraded_reasons h)));
      ("terminalRun", json_u64 TERMINAL_RUN);
      ("statusWriteFailed", JBool (ch_status_write_failed h));
      ("statusWriteFailuresTotal", json_u64 ((ch_status_write_failures h)))]
     ++ concat (map (fun c =>
          [(class_counter c, json_u64 ((failures h c)));
           (class_counter c +:+ "_run", json_u64 ((failure_run h c)));
           (class_counter c +:+ "_ever_succeeded", JBool (ever_succeeded h c));
           (class_counter c +:+ "_last", match last_cause h c with Some s => JStr s | None => JNull end);
           (class_counter c +:+ "_unactionable", strs (unactionable h c))]) class_all)))).

(** The two names of the status directory, and what each system call of one publish
    answers: a failed write leaves a prefix of the file. *)
Record StatusDir := { sd_status : option (list Z); sd_tmp : option (list Z) }.

Inductive Removal := Removed | RemoveNotFound | RemoveFailed.

Record StatusIo := {
  io_open : result string unit;
  io_write : result (string * nat) unit;
  io_sync : result string unit;
  io_rename : result string unit;
  io_remove_tmp : bool;
  io_remove_status : Removal
}.

Section publish.
Context `{T : JsonText} (fmt : msg -> string).

(** The closure of [write_status]: open with [truncate], write all, sync. *)
Definition write_tmp (io : StatusIo) (bytes : list Z) (d : StatusDir) : result string unit * StatusDir :=
  match io_open io with
  | Err e => (Err e, d)
  | Ok _ =>
      match io_write io with
      | Err (e, n) => (Err e, {| sd_status := sd_status d; sd_tmp := Some (take n bytes) |})
      | Ok _ => (io_sync io, {| sd_status := sd_status d; sd_tmp := Some bytes |})
      end
  end.

Definition write_status (io : StatusIo) (value : Json) (d : StatusDir) : result string unit * StatusDir :=
  match json_bytes value with
  | Err e => (Err e, d)
  | Ok text =>
      let bytes := text ++ [10] in
      match write_tmp io bytes d with
      | (Err e, d) => (Err e, {| sd_status := sd_status d; sd_tmp := if io_remove_tmp io then None else sd_tmp d |})
      | (Ok _, d) =>
          match io_rename io with
          | Ok _ => (Ok tt, {| sd_status := sd_tmp d; sd_tmp := None |})
          | Err e => (Err e, d)
          end
      end
  end.

Definition set_publish (failed : bool) (failures : Z) (error_logged no_dir changed : bool) (h : ControllerHealth)
    : ControllerHealth :=
  {| ch_class := ch_class h; ch_status_write_failed := failed; ch_status_write_failures := failures;
     ch_status_error_logged := error_logged; ch_no_status_dir_logged := no_dir; ch_changed := changed |}.

(** [publish(None)]: said once, nothing else. *)
Definition publish_nowhere (h : ControllerHealth) : bool * ControllerHealth :=
  (true, set_publish (ch_status_write_failed h) (ch_status_write_failures h) (ch_status_error_logged h) true
           (ch_changed h) h).

(** [publish(Some(dir))]. *)
Definition publish_to (io : StatusIo) (ts : Z) (h : ControllerHealth) (d : StatusDir)
    : bool * ControllerHealth * StatusDir :=
  let value := ctl_status_json fmt ts h in
  match write_status io value d with
  | (Ok _, d) =>
      (true, set_publish false (ch_status_write_failures h) false (ch_no_status_dir_logged h)
               (ch_status_write_failed h) h, d)
  | (Err _, d) =>
      (false, set_publish true ((ch_status_write_failures h + 1) mod U64) true (ch_no_status_dir_logged h) false h,
       {| sd_status := match io_remove_status io with Removed => None | _ => sd_status d end; sd_tmp := sd_tmp d |})
  end.

Definition ctl_publish (dir : option (StatusIo * StatusDir)) (ts : Z) (h : ControllerHealth)
    : bool * ControllerHealth * option StatusDir :=
  match dir with
  | None => (publish_nowhere h, None)
  | Some (io, d) => let '(b, h, d) := publish_to io ts h d in (b, h, Some d)
  end.

Definition publish_if_changed (dir : option (StatusIo * StatusDir)) (ts : Z) (h : ControllerHealth)
    : ControllerHealth * option StatusDir :=
  if negb (ch_changed h) then (h, snd <$> dir)
  else
    let h := set_publish (ch_status_write_failed h) (ch_status_write_failures h) (ch_status_error_logged h)
               (ch_no_status_dir_logged h) false h in
    let '(_, h, d) := ctl_publish dir ts h in (h, d).
End publish.

(** ** The rule that ends the process *)

(** What the loops report, in the order it happened. *)
Inductive HealthOp :=
| OSuccess (requested : Requested)
| OFailure (c : FailureClass) (cause : string) (at_ : Z)
| OUnactionable (c : FailureClass) (subjects : list string).

Definition health_op (h : ControllerHealth) (op : HealthOp) : ControllerHealth :=
  match op with
  | OSuccess r => note_success r h
  | OFailure c cause t => snd (note_failure_at c cause t h)
  | OUnactionable c l => snd (note_unactionable c l h)
  end.

Definition health_after (ops : list HealthOp) : ControllerHealth := foldl health_op health_new ops.

(** The history of one class: whether it ever worked, and the instants of its failures
    since it last did, the newest first. *)
Definition worked (c : FailureClass) (op : HealthOp) : bool :=
  match op with OSuccess r => requested_contains r c | _ => false end.

Definition recent_op (c : FailureClass) (acc : list Z) (op : HealthOp) : list Z :=
  match op with
  | OSuccess r => if requested_contains r c then [] else acc
  | OFailure c' _ t => if bool_decide (c' = c) then t :: acc else acc
  | OUnactionable _ _ => acc
  end.
Definition recent (c : FailureClass) (ops : list HealthOp) : list Z := foldl (recent_op c) [] ops.

(** All instants at which the class failed, the newest first. *)
Definition failure_times (c : FailureClass) (ops : list HealthOp) : list Z :=
  rev (omap (fun op => match op with
                       | OFailure c' _ t => if bool_decide (c' = c) then Some t else None
                       | _ => None
                       end) ops).

(** [later] came no more than a window after [earlier]. *)
Definition near (later earlier : Z) : Prop := later - earlier <= TERMINAL_WINDOW.

#[global] Instance within_dec a b : Decision (near a b).
Proof. unfold near. apply _. Defined.

(** Length of the burst at the head of a list of instants. *)
Fixpoint burst (l : list Z) : nat :=
  match l with
  | [] => 0
  | t :: l' => S (match l' with
                  | t' :: _ => if base.decide (near t t') then burst l' else 0
                  | [] => 0
                  end)
  end%nat.

Lemma burst_le l : (burst l <= length l)%nat.
Proof.
  induction l as [|t l IH]; [done|]. destruct l as [|t' l]; [done|]. change (burst (t :: t' :: l)) with
    (S (if base.decide (near t t') then burst (t' :: l) else 0)%nat). simpl length in *. destruct (base.decide _); lia.
Qed.

Lemma burst_spec l n : (n <= burst l)%nat <-> (n <= length l)%nat /\ Sorted near (take n l).
Proof.
  revert n. induction l as [|t l IH]; intros n.
  - simpl. split; [intros; assert (n = 0)%nat as -> by lia; split; [lia | constructor] | by intros []].
  - destruct n as [|n]; [split; [intros _; split; [lia | constructor] | lia]|].
    simpl take. simpl length. simpl burst. destruct l as [|t' l].
    + simpl. destruct n as [|n]; [split; [intros _; split; [lia | repeat constructor] | intros _; lia] | split; [lia | intros [? _]; lia]].
    + destruct (base.decide (near t t')) as [Hw|Hw].
      * specialize (IH n). split.
        -- intros H. assert (H' : (n <= burst (t' :: l))%nat) by lia. apply IH in H' as [Hl Hs]. split; [lia|].
           constructor; [done|]. destruct n as [|n]; simpl; constructor. done.
        -- intros [Hl Hs]. apply Sorted_inv in Hs as [Hs _]. assert (n <= burst (t' :: l))%nat; [|lia].
           apply IH. split; [lia | done].
      * split; [|intros [Hl Hs]; destruct n as [|n]; [lia|]].
        -- intros H. assert (n = 0)%nat as -> by lia. split; [lia|]. repeat constructor.
        -- exfalso. apply Sorted_inv in Hs as [_ Hs]. simpl in Hs. by inversion Hs.
Qed.

Lemma set_class_at c st b h d : ch_class (set_class c st b h) d = if bool_decide (d = c) then st else ch_class h d.
Proof. done. Qed.

Definition succeeded_state (st : ClassState) : ClassState :=
  {| cst_total := cst_total st; cst_run := 0; cst_ever_ok := true; cst_last := None;
     cst_last_failure_at := None; cst_unactionable := cst_unactionable st |}.

(** [note_success] on one class. *)
Lemma note_success_class r h c :
  ch_class (note_success r h) c = if requested_contains r c then succeeded_state (ch_class h c) else ch_class h c.
Proof.
  unfold note_success, class_all. simpl. unfold note_class_success.
  destruct (requested_contains r CReconcile) eqn:E0, (requested_contains r CStatusPatch) eqn:E1,
    (requested_contains r CWatch) eqn:E2, (requested_contains r CExceptionPublish) eqn:E3;
    destruct c; simpl; rewrite ?E0, ?E1, ?E2, ?E3; done.
Qed.

(** The state of a class is what its history says. *)
Definition class_agrees (st : ClassState) (ever : bool) (l : list Z) : Prop :=
  cst_ever_ok st = ever /\ cst_last_failure_at st = head l /\ cst_run st = Z.of_nat (burst l).

Lemma health_after_snoc ops op : health_after (ops ++ [op]) = health_op (health_after ops) op.
Proof. unfold health_after. by rewrite foldl_app. Qed.

Lemma recent_snoc c ops op : recent c (ops ++ [op]) = recent_op c (recent c ops) op.
Proof. unfold recent. by rewrite foldl_app. Qed.

Lemma recent_len c ops : (length (recent c ops) <= length ops)%nat.
Proof.
  induction ops as [|op ops IH] using rev_ind; [done|]. rewrite recent_snoc, length_app. simpl.
  destruct op; simpl; repeat case_match; simpl; lia.
Qed.

(** One more failure lengthens the burst or starts a new one. *)
Lemma next_run st ever l t :
  class_agrees st ever l -> Z.of_nat (length l) + 1 < U64 ->
  (if match cst_last_failure_at st with None => true | Some prev => Z.max 0 (t - prev) <=? TERMINAL_WINDOW end
   then (cst_run st + 1) mod U64 else 1) = Z.of_nat (burst (t :: l)).
Proof.
  intros (_ & -> & ->) Hlen. pose proof (burst_le l) as Hb.
  assert (Hm : (Z.of_nat (burst l) + 1) mod U64 = Z.of_nat (burst l) + 1) by (apply Z.mod_small; lia).
  destruct l as [|t' l]; [done|]. cbn [head]. cbn iota. change (burst (t :: t' :: l)) with
    (S (if base.decide (near t t') then burst (t' :: l) else 0)%nat).
  destruct (base.decide (near t t')) as [Hw|Hw]; unfold near, TERMINAL_WINDOW in *.
  - rewrite (proj2 (Z.leb_le _ _)) by lia. rewrite Hm. lia.
  - rewrite (proj2 (Z.leb_gt _ _)) by lia. lia.
Qed.

Lemma class_follows_history c ops :
  len ops + 1 < U64 -> class_agrees (ch_class (health_after ops) c) (existsb (worked c) ops) (recent c ops).
Proof.
  induction ops as [|op ops IH] using rev_ind; intros Hlen; [done|].
  rewrite len_app in Hlen. change (len [op]) with 1 in Hlen. specialize (IH ltac:(lia)).
  rewrite health_after_snoc, recent_snoc, existsb_app. simpl. rewrite orb_false_r.
  destruct op as [r|c' cause t|c' l]; simpl.
  - rewrite note_success_class. destruct (requested_contains r c); [by rewrite orb_true_r | by rewrite orb_false_r].
  - rewrite orb_false_r. destruct (base.decide (c = c')) as [<-|Hne].
    + rewrite !bool_decide_true by done. destruct IH as (He & Hl & Hr). split_and!; [done..|]. simpl cst_run.
      apply (next_run _ (existsb (worked c) ops)); [done|]. pose proof (recent_len c ops). unfold len in *. lia.
    + by rewrite !bool_decide_false by congruence.
  - rewrite orb_false_r. unfold note_unactionable. destruct (bool_decide _); [done|]. simpl.
    destruct (base.decide (c = c')) as [<-|Hne]; [by rewrite bool_decide_true | by rewrite bool_decide_false].
Qed.

Lemma recent_all c ops : existsb (worked c) ops = false -> recent c ops = failure_times c ops.
Proof.
  induction ops as [|op ops IH] using rev_ind; [done|]. rewrite existsb_app. simpl. rewrite orb_false_r, orb_false_iff.
  intros [Hw Ho]. rewrite recent_snoc, IH by done. unfold failure_times. rewrite omap_app, rev_app_distr.
  destruct op as [r|c' cause t|c' l]; simpl in *; [by rewrite Ho | by case_bool_decide | done].
Qed.

(** the controller ends itself exactly when a class of requests has never worked and
    keeps failing. A reported failure is terminal if and only if no request of its class
    was ever answered since the start, and it is at least the tenth failure of the class
    with each of the last ten within 580 seconds of the one before; no success of another
    class, no other class's failures and no object that cannot be acted on change that. *)
Lemma terminal_exactly ops c cause t (Hlen : len ops + 1 < U64) :
  is_ok (fst (note_failure_at c cause t (health_after ops))) = false <->
  (forall r, OSuccess r ∈ ops -> requested_contains r c = false) /\
  (10 <= length (t :: failure_times c ops))%nat /\ Sorted near (take 10 (t :: failure_times c ops)).
Proof.
  pose proof (class_follows_history c ops Hlen) as Ha. destruct Ha as (He & Ha).
  assert (Hnever : existsb (worked c) ops = false <-> forall r, OSuccess r ∈ ops -> requested_contains r c = false).
  { rewrite existsb_false_Forall, Forall_forall. split; [intros H r Hr; apply (H (OSuccess r) Hr) |].
    intros H [r|? ? ?|? ?] Hr; [by apply H | done..]. }
  unfold note_failure_at. cbn zeta. simpl fst.
  rewrite (next_run _ (existsb (worked c) ops) (recent c ops)); [|by split|].
  2: { pose proof (recent_len c ops). unfold len in *. lia. }
  rewrite He, <- Hnever, <- burst_spec. destruct (existsb (worked c) ops) eqn:Hw.
  - rewrite andb_false_r. simpl. naive_solver.
  - rewrite (recent_all c ops) by done. simpl negb. rewrite andb_true_r.
    destruct (Z.leb_spec TERMINAL_RUN (Z.of_nat (burst (t :: failure_times c ops)))) as [Hr|Hr]; unfold TERMINAL_RUN in Hr;
      cbn [refuse_if is_ok]; split; try done; [intros _; split; [done | lia] | intros [_ H]; lia].
Qed.

(** Ten failures, each a whole window after the one before: the tenth ends the process
    87 minutes after the first, though the reason says "within 580s" and the comment of
    the constant that ten failures have to arrive inside about ten minutes. *)
Definition slow_failures : list HealthOp :=
  map (fun k => OFailure CStatusPatch "403" (k * TERMINAL_WINDOW)) [0; 1; 2; 3; 4; 5; 6; 7; 8].

Lemma slow_run_is_terminal :
  is_ok (fst (note_failure_at CStatusPatch "403" (9 * TERMINAL_WINDOW) (health_after slow_failures))) = false /\
  9 * TERMINAL_WINDOW = 87 * 60 * 1000000000.
Proof. vm_compute. done. Qed.

Lemma terminal_exactly_witness :
  is_ok (fst (note_failure_at CStatusPatch "403" (9 * TERMINAL_WINDOW) (health_after slow_failures))) = false.
Proof.
  apply (terminal_exactly slow_failures CStatusPatch "403" (9 * TERMINAL_WINDOW)); [vm_compute; reflexivity|].
  split_and!.
  - intros r Hr. exfalso. repeat (apply list_elem_of_In in Hr; destruct Hr as [Hr|Hr]; [discriminate|]; apply list_elem_of_In in Hr).
    by apply not_elem_of_nil in Hr.
  - vm_compute. lia.
  - apply (bool_decide_unpack (Sorted near (take 10 (9 * TERMINAL_WINDOW :: failure_times CStatusPatch slow_failures)))).
    vm_compute. exact I.
Defined.

(** An object no retry will mend never ends the process, and is a reason as long as it is seen. *)
Lemma unactionable_never_terminal ops c subjects :
  is_ok (fst (note_failure_at c "x" 0 (health_after ops))) = true ->
  is_ok (fst (note_failure_at c "x" 0 (health_after (ops ++ [OUnactionable c subjects])))) = true.
Proof.
  rewrite health_after_snoc. simpl. unfold note_unactionable. destruct (bool_decide _); [done|].
  unfold note_failure_at. simpl. by rewrite bool_decide_true by done.
Qed.

(** ** The status file *)

Lemma get_list_to_map (l : list (string * Json)) k : get l k = (list_to_map l : gmap string Json) !! k.
Proof.
  induction l as [|[k' v] l IH]; simpl; [by rewrite lookup_empty|].
  destruct (base.decide (k' = k)) as [->|Hne].
  - by rewrite str_eqb_refl, lookup_insert_eq.
  - rewrite (proj2 (str_eqb_false _ _) Hne), lookup_insert_ne by done. apply IH.
Qed.

(** An object written from a map is read back by key. *)
Lemma get_btree_iter (m : gmap string Json) k : get (btree_iter m) k = m !! k.
Proof.
  rewrite get_list_to_map. f_equal. rewrite <- (list_to_map_to_list m) at 2. apply list_to_map_proper; [|apply btree_iter_perm].
  rewrite (btree_iter_perm m). apply NoDup_fst_map_to_list.
Qed.

(** The last entry of a key is the one an object built in order keeps. *)
Lemma insert_all_at (pre post : list (string * Json)) k v :
  k ∉ map fst post -> (insert_all (pre ++ (k, v) :: post) : gmap string Json) !! k = Some v.
Proof.
  unfold insert_all. rewrite foldl_app. cbn [foldl fst snd]. intros Hk.
  match goal with |- foldl _ (<[k:=v]> ?m) _ !! _ = _ => pose proof (lookup_insert_eq m k v) as Hm; revert Hm; generalize (<[k:=v]> m) end.
  revert Hk. induction post as [|[k' v'] post IH]; intros Hk m Hm; [done|]. cbn [foldl fst snd]. simpl in Hk.
  apply not_elem_of_cons in Hk as [? Hk]. apply IH; [done|]. by rewrite lookup_insert_ne by congruence.
Qed.

Section status.
Context `{T : JsonText} (fmt : msg -> string).

(** The line a publish of [h] at [ts] leaves. *)
Definition published_line (ts : Z) (h : ControllerHealth) (bytes : list Z) : Prop :=
  exists text, json_bytes (ctl_status_json fmt ts h) = Ok text /\ bytes = text ++ [10].

Lemma write_status_whole io value d :
  match write_status io value d with
  | (Ok _, d') => exists text, json_bytes value = Ok text /\ sd_status d' = Some (text ++ [10])
  | (Err _, d') => sd_status d' = sd_status d
  end.
Proof.
  unfold write_status. destruct (json_bytes value) as [text|e]; [|done]. unfold write_tmp.
  destruct (io_open io); [|done]. destruct (io_write io) as [|[]]; [|done]. destruct (io_sync io); [|done].
  destruct (io_rename io); [by exists text | done].
Qed.

(** Whatever call fails and wherever a write stops, a publish leaves the whole line of
    the state it was called on, or, when it failed, nothing: the file that was there is
    removed, unless the removal failed too. A failure is remembered. *)
Lemma publish_whole_or_nothing io ts h d :
  let '(ok, h', d') := publish_to fmt io ts h d in
  (ok = true -> ch_status_write_failed h' = false /\ ch_changed h' = ch_status_write_failed h /\
     exists bytes, sd_status d' = Some bytes /\ published_line ts h bytes) /\
  (ok = false -> ch_status_write_failed h' = true /\
     (io_remove_status io = Removed -> sd_status d' = None) /\
     (io_remove_status io <> Removed -> sd_status d' = sd_status d)).
Proof.
  unfold publish_to. pose proof (write_status_whole io (ctl_status_json fmt ts h) d) as Hw.
  destruct (write_status _ _ _) as [[[]|e] d']; simpl; split; try done.
  - intros _. destruct Hw as (text & Ht & Hs). split_and!; [done..|]. eexists. split; [done|]. by exists text.
  - intros _. split_and!; [done| by intros -> | by destruct (io_remove_status io)].
Qed.

(** The first file that gets through after a failed publish says that one failed, and
    asks for another that no longer does. *)
Lemma failed_publish_is_reported io ts h d ts' io' h' d' d'' h'' :
  publish_to fmt io ts h d = (false, h', d') -> publish_to fmt io' ts' h' d' = (true, h'', d'') ->
  get (match ctl_status_json fmt ts' h' with JObj m => m | _ => [] end) "statusWriteFailed" = Some (JBool true) /\
  [Str REASON_STATUS_UNWRITABLE] ∈ ctl_degraded_reasons h' /\ ch_changed h'' = true /\ ch_status_write_failed h'' = false.
Proof.
  intros H1 H2. pose proof (publish_whole_or_nothing io ts h d) as P1. pose proof (publish_whole_or_nothing io' ts' h' d') as P2.
  rewrite H1 in P1. rewrite H2 in P2. destruct P1 as [_ P1]. destruct (P1 eq_refl) as [Hf _].
  destruct P2 as [P2 _]. destruct (P2 eq_refl) as (Hf' & Hc & _). split_and!; [| |congruence|done].
  - unfold ctl_status_json. rewrite get_btree_iter, Hf. cbn [app].
    apply (insert_all_at [_; _; _; _]). apply (bool_decide_unpack _). vm_compute. exact I.
  - unfold ctl_degraded_reasons. rewrite Hf, !elem_of_app. right. right. by apply list_elem_of_singleton.
Qed.
End status.
