(* ===== verification/Controller.v ===== *)
(** * The controller: watches, reconciles and publications

    [crates/ferrum-controller/src/watch.rs] and the requests of [apply.rs]. An [async]
    function is a program that returns, acts on the shared state, or asks the API server
    for something and goes on with whatever it answers. The three watch loops run these
    programs interleaved in every order ([csys_step]); the API server, the clocks and the
    status directory answer what they like. Decoding a spec is [serde]'s ([SpecJson]);
    log lines are not modelled. *)

From S2P Require Import Prelude RustStd RustText Ids Api Policy Wire Encode Febp Wasm Compiler Envelope Program.
From S2P Require Import Crypto Journal Encoding Json Bundle Webhook AgentSource Publish Health.

(** ** Objects, configuration, shared state *)

(** The fields of a [DynamicObject] the controller reads. *)
Record DynamicObject := {
  o_name : option string;
  o_namespace : option string;
  o_generation : option Z;
  o_resource_version : option string;
  o_data : Json
}.

Record ObservedPolicy := {
  op_name : string; op_generation : Z; op_resource_version : string; op_spec : ClusterSecurityPolicySpec
}.
Record ObservedNamespacedPolicy := {
  onp_name : string; onp_namespace : string; onp_generation : Z; onp_resource_version : string;
  onp_spec : SecurityPolicySpec
}.
Record ObservedException := { oe_name : string; oe_namespace : string; oe_spec : PolicyExceptionSpec }.

Record WatchConfig := {
  wc_namespace : string;
  wc_secret_key : list Z;
  wc_trust_root : list Z;
  wc_library : option PolicyLibrarySpec;
  wc_clusters : list ClusterAbi;
  wc_status_dir : option string;
  wc_metrics_listen : option string
}.

(** What [serde_json::from_value] makes of a [spec]. *)
Class SpecJson : Type := {
  cluster_spec_of : Json -> result string ClusterSecurityPolicySpec;
  namespaced_spec_of : Json -> result string SecurityPolicySpec;
  exception_spec_of : Json -> result string PolicyExceptionSpec
}.

Record ControllerMetrics := {
  cm_reconcile_total : Z; cm_compile_failures_total : Z; cm_bundle_digests : gmap string string
}.

Definition metrics_new : ControllerMetrics :=
  {| cm_reconcile_total := 0; cm_compile_failures_total := 0; cm_bundle_digests := ∅ |}.

Definition record_reconcile (m : ControllerMetrics) : ControllerMetrics :=
  {| cm_reconcile_total := (cm_reconcile_total m + 1) mod U64;
     cm_compile_failures_total := cm_compile_failures_total m; cm_bundle_digests := cm_bundle_digests m |}.
Definition record_compile_failure (m : ControllerMetrics) : ControllerMetrics :=
  {| cm_reconcile_total := cm_reconcile_total m;
     cm_compile_failures_total := (cm_compile_failures_total m + 1) mod U64;
     cm_bundle_digests := cm_bundle_digests m |}.
Definition ctl_set_bundle_digest (policy digest : string) (m : ControllerMetrics) : ControllerMetrics :=
  {| cm_reconcile_total := cm_reconcile_total m; cm_compile_failures_total := cm_compile_failures_total m;
     cm_bundle_digests := <[policy := digest]> (cm_bundle_digests m) |}.

(** [ExceptionSet]: live exceptions by [namespace/name]. *)
Abbreviation ExceptionSet := (gmap string PolicyExceptionSpec).

(** What the loops share: the published set, the set of a relist in progress, the
    counters, and the status directory. *)
Record Ctl := {
  k_exceptions : ExceptionSet;
  k_staging : ExceptionSet;
  k_health : ControllerHealth;
  k_metrics : ControllerMetrics;
  k_dir : StatusDir
}.

Definition ctl_new : Ctl :=
  {| k_exceptions := ∅; k_staging := ∅; k_health := health_new; k_metrics := metrics_new;
     k_dir := {| sd_status := None; sd_tmp := None |} |}.

Definition with_sets (e st : ExceptionSet) (s : Ctl) : Ctl :=
  {| k_exceptions := e; k_staging := st; k_health := k_health s; k_metrics := k_metrics s; k_dir := k_dir s |}.
Definition with_health (h : ControllerHealth) (s : Ctl) : Ctl :=
  {| k_exceptions := k_exceptions s; k_staging := k_staging s; k_health := h; k_metrics := k_metrics s;
     k_dir := k_dir s |}.
Definition with_metrics (f : ControllerMetrics -> ControllerMetrics) (s : Ctl) : Ctl :=
  {| k_exceptions := k_exceptions s; k_staging := k_staging s; k_health := k_health s;
     k_metrics := f (k_metrics s); k_dir := k_dir s |}.
Definition with_dir (h : ControllerHealth) (d : StatusDir) (s : Ctl) : Ctl :=
  {| k_exceptions := k_exceptions s; k_staging := k_staging s; k_health := h; k_metrics := k_metrics s; k_dir := d |}.

(** [snapshot_exceptions]: [values()], in key order. *)
Definition snapshot_exceptions (set : ExceptionSet) : list PolicyExceptionSpec := map snd (btree_iter set).

(** ** Programs *)

Inductive Kind := KClusterSecurityPolicy | KSecurityPolicy | KPolicyException.

#[global] Instance Kind_eq_dec : EqDecision Kind.
Proof. solve_decision. Defined.

(** The requests that change something in the cluster. *)
Inductive Write :=
| WCreateSecret (namespace : string) (secret : Secret)
| WPatchSecret (namespace name : string) (secret : Secret)
| WPatchData (namespace name : string) (patch : Json)
| WPatchStatus (kind : Kind) (namespace : option string) (name : string) (patch : Json).

(** What a local step reads beside the shared state: the monotonic clock, the Unix time,
    and how the calls on the status directory go. *)
Record Env := { env_mono : Z; env_ts : Z; env_io : StatusIo }.

(** [Act f k] is one step without an [await]: [f] on the shared state, then [k], which has
    seen the state before it. *)
Inductive prog (A : Type) : Type :=
| Ret (a : A)
| Act (f : Env -> Ctl -> Ctl) (k : Env -> Ctl -> prog A)
| AskGet (namespace name : string) (k : result string (option Secret) -> prog A)
| AskList (namespace selector : string) (k : result string (list Secret) -> prog A)
| AskWrite (w : Write) (k : result string unit -> prog A).

Arguments Ret {A} a.
Arguments Act {A} f k.
Arguments AskGet {A} namespace name k.
Arguments AskList {A} namespace selector k.
Arguments AskWrite {A} w k.

#[global] Instance prog_mret : MRet prog := fun A a => Ret a.

Fixpoint pbind {A B} (p : prog A) (q : A -> prog B) : prog B :=
  match p with
  | Ret a => q a
  | Act f k => Act f (fun e s => pbind (k e s) q)
  | AskGet ns n k => AskGet ns n (fun r => pbind (k r) q)
  | AskList ns sel k => AskList ns sel (fun r => pbind (k r) q)
  | AskWrite w k => AskWrite w (fun r => pbind (k r) q)
  end.

#[global] Instance prog_mbind : MBind prog := fun A B q p => pbind p q.

(** [p.await?] in a function that returns a [Result]. *)
Definition pbind_ok {E A B} (p : prog (result E A)) (q : A -> prog (result E B)) : prog (result E B) :=
  r ← p; match r with Ok a => q a | Err e => Ret (Err e) end.

Notation "x ←! p ; q" := (pbind_ok p (fun x => q))
  (at level 20, p at level 100, q at level 200, only parsing).

(** [.map_err(f)] on an awaited call. *)
Definition pmap_err {E F A} (f : E -> F) (p : prog (result E A)) : prog (result F A) :=
  r ← p; Ret (map_err f r).

(** A [Result] computed without asking anything: [m?]. *)
Definition plift {E A} (m : result E A) : prog (result E A) := Ret m.

Definition modify (f : Ctl -> Ctl) : prog unit := Act (fun _ s => f s) (fun _ _ => Ret tt).
Definition read_ctl : prog Ctl := Act (fun _ s => s) (fun _ s => Ret s).

(** ** Reading objects *)

Definition require_name (obj : DynamicObject) (kind : string) : Result string :=
  ok_or (n ← o_name obj; if str_empty n then None else Some n)
    (Validation [Str kind; Lit " metadata.name is missing"]).

Definition require_namespace (obj : DynamicObject) (kind : string) : Result string :=
  ok_or (n ← o_namespace obj; if str_empty n then None else Some n)
    (Validation [Str kind; Lit " metadata.namespace is missing"]).

Definition ctl_decode_spec {T} (of_json : Json -> result string T) (obj : DynamicObject) (kind : string) : Result T :=
  match match o_data obj with JObj m => get m "spec" | _ => None end with
  | None | Some JNull => Err (Validation [Str kind; Lit " spec is missing"])
  | Some value => map_err (fun e => Validation [Str kind; Lit " spec: "; Str e]) (of_json value)
  end.

Definition status_compile (obj : DynamicObject) : option Z * bool * string :=
  match value_get (o_data obj) "status" with
  | None => (None, false, "")
  | Some status =>
      let compile := value_get status "compile" in
      (value_get status "observedGeneration" ≫= as_i64,
       default false (c ← compile; v ← value_get c "ready"; as_bool v),
       default "" (c ← compile; v ← value_get c "bundleDigest"; as_str v))
  end.

Section controller.
Context `{E : Ed25519} `{W : ExceptionsWriter} `{S : SpecJson} `{T : JsonText}.
Context (sha256 : list Z -> list Z) (fmt : msg -> string).

Definition observe_policy (obj : DynamicObject) : Result ObservedPolicy :=
  name ← require_name obj "ClusterSecurityPolicy";
  spec ← ctl_decode_spec cluster_spec_of obj "ClusterSecurityPolicy";
  mret {| op_name := name; op_generation := default 0 (o_generation obj);
          op_resource_version := default "" (o_resource_version obj); op_spec := spec |}.

Definition observe_namespaced_policy (obj : DynamicObject) : Result ObservedNamespacedPolicy :=
  name ← require_name obj "SecurityPolicy";
  namespace ← require_namespace obj "SecurityPolicy";
  spec ← ctl_decode_spec namespaced_spec_of obj "SecurityPolicy";
  mret {| onp_name := name; onp_namespace := namespace; onp_generation := default 0 (o_generation obj);
          onp_resource_version := default "" (o_resource_version obj); onp_spec := spec |}.

Definition observe_exception (obj : DynamicObject) : Result ObservedException :=
  name ← require_name obj "PolicyException";
  namespace ← require_namespace obj "PolicyException";
  spec ← ctl_decode_spec exception_spec_of obj "PolicyException";
  mret {| oe_name := name; oe_namespace := namespace; oe_spec := spec |}.

Definition should_skip_applied (generation : Z) (observed_generation : option Z) (compile_ready : bool)
    (expected_digest : string) (secret : option Secret) (trust_root : list Z) : bool :=
  if negb (bool_decide (observed_generation = Some generation)) || negb compile_ready || str_empty expected_digest
  then false
  else match secret with
       | Some secret => live_secret_matches sha256 secret trust_root expected_digest
       | None => false
       end.

Definition failed_status_already_recorded (obj : DynamicObject) (generation : Z) (plan : ApplyPlan) : bool :=
  match ap_secret plan with
  | Some _ => false
  | None =>
      let plan_ready := default true (pointer (ap_status plan) ["status"; "compile"; "ready"] ≫= as_bool) in
      if plan_ready then false
      else let '(og, ready, digest) := status_compile obj in
           bool_decide (og = Some generation) && negb ready && str_empty digest
  end.

Definition failed_outcome (generation : Z) (err : FerrumError) : ReconcileOutcome :=
  Failed {| pst_observed_generation := generation; pst_compile := compile_status_err fmt err;
            pst_rollout := default_rollout |}.

(** [exception_disposition] at the time [now]. *)
Definition exception_disposition (obj : DynamicObject) (now : Z)
    : PolicyExceptionStatus * option PolicyExceptionSpec :=
  match observe_exception obj with
  | Ok observed => reconcile_exception fmt (oe_spec observed) now
  | Err err => ({| pes_active := false; pes_message := fmt (error_to_string err) |}, None)
  end.

(** ** Requests: apply.rs *)

Definition load_bundle_secret (namespace secret_name : string) : prog (Result (option Secret * Requested)) :=
  AskGet namespace secret_name (fun r =>
    Ret (match r with
         | Err e => Err (Degraded [Lit "secret get "; Str secret_name; Lit ": "; Str e])
         | Ok secret => Ok (secret, requested_of CReconcile)
         end)).

Definition patch_status_dynamic (kind : Kind) (namespace : option string) (name : string) (patch : Json)
    : prog (Result Requested) :=
  AskWrite (WPatchStatus kind namespace name patch) (fun r =>
    Ret (match r with
         | Err e => Err (Degraded [Lit "status patch "; Str name; Lit ": "; Str e])
         | Ok _ => Ok (requested_of CStatusPatch)
         end)).

Definition persist_class (plan : ApplyPlan) : FailureClass :=
  match ap_secret plan with Some _ => CReconcile | None => CStatusPatch end.

Definition upsert_secret (namespace : string) (secret : Secret) : prog (Result unit) :=
  match sec_name secret with
  | None => Ret (Err (Validation [Lit "bundle Secret metadata.name is missing"]))
  | Some name =>
      AskGet namespace name (fun r =>
        match r with
        | Err e => Ret (Err (Degraded [Lit "secret get "; Str name; Lit ": "; Str e]))
        | Ok (Some live) =>
            match ensure_secret_ownership live secret with
            | Err e => Ret (Err e)
            | Ok _ => AskWrite (WPatchSecret namespace name secret) (fun r =>
                Ret (map_err (fun e => Degraded [Lit "secret patch "; Str name; Lit ": "; Str e]) r))
            end
        | Ok None => AskWrite (WCreateSecret namespace secret) (fun r =>
            Ret (map_err (fun e => Degraded [Lit "secret create "; Str name; Lit ": "; Str e]) r))
        end)
  end.

Definition persist_dynamic (kind : Kind) (object_namespace : option string) (object_name secret_namespace : string)
    (plan : ApplyPlan) : prog (Result Requested) :=
  _ ←! (match ap_secret plan with Some secret => upsert_secret secret_namespace secret | None => Ret (Ok tt) end);
  _ ←! patch_status_dynamic kind object_namespace object_name (ap_status plan);
  Ret (Ok (requested_of (persist_class plan))).

Definition ctl_persist (policy_name namespace : string) (plan : ApplyPlan) : prog (Result Requested) :=
  persist_dynamic KClusterSecurityPolicy None policy_name namespace plan.

Record ExceptionsPublished := {
  ep_requested : Requested; ep_refused : list string; ep_unscopable : list string
}.

Definition publish_receipt (patched : Z) : Requested :=
  if patched =? 0 then requested_none else requested_of CExceptionPublish.

(** The loop over the targets, with [patched] and [refused] so far. *)
Fixpoint publish_each (namespace : string) (secret_key : list Z) (specs : list PolicyExceptionSpec)
    (targets : list (string * string)) (patched : Z) (refused : list string) : prog (Z * list string) :=
  match targets with
  | [] => Ret (patched, refused)
  | (name, policy) :: targets' =>
      match exceptions_secret_patch (exceptions_for_policy specs policy) secret_key with
      | Err err =>
          publish_each namespace secret_key specs targets' patched
            (refused ++ [fmt ([Lit "exception list for secret "; Str name; Lit ": "] ++ error_to_string err)])
      | Ok patch =>
          AskWrite (WPatchData namespace name patch) (fun r =>
            match r with
            | Ok _ => publish_each namespace secret_key specs targets' (patched + 1) refused
            | Err err =>
                publish_each namespace secret_key specs targets' patched
                  (refused ++ [fmt [Lit "secret patch "; Str name; Lit ": "; Str err]])
            end)
      end
  end.

Definition persist_exceptions (namespace : string) (secret_key : list Z) (specs : list PolicyExceptionSpec)
    : prog (Result ExceptionsPublished) :=
  AskList namespace (MANAGED_BY_KEY +:+ "=" +:+ MANAGED_BY_VALUE) (fun r =>
    match r with
    | Err e => Ret (Err (Degraded [Lit "secret list "; Str namespace; Lit ": "; Str e]))
    | Ok items =>
        let '(targets, unscopable) := exception_targets items in
        '(patched, refused) ← publish_each namespace secret_key specs targets 0 [];
        Ret (Ok {| ep_requested := publish_receipt patched; ep_refused := refused; ep_unscopable := unscopable |})
    end).

Definition patch_secret_exceptions (namespace secret_name : string) (secret_key : list Z)
    (specs : list PolicyExceptionSpec) : prog (Result Requested) :=
  patch ←! plift (exceptions_secret_patch specs secret_key);
  AskWrite (WPatchData namespace secret_name patch) (fun r =>
    Ret (match r with
         | Err e => Err (Degraded [Lit "secret patch "; Str secret_name; Lit ": "; Str e])
         | Ok _ => Ok (requested_of CExceptionPublish)
         end)).
(** ** Handlers: watch.rs *)

(** A failure with the class of the call it came from. *)
Record Classified := { cl_class : FailureClass; cl_err : FerrumError }.

Definition as_class (c : FailureClass) (err : FerrumError) : Classified := {| cl_class := c; cl_err := err |}.

(** [health.note_success(..)] and [health.note_failure(..)]; the second is the error that
    leaves the loop. *)
Definition p_note_success (r : Requested) : prog unit :=
  modify (fun s => with_health (note_success r (k_health s)) s).

Definition p_note_failure (c : FailureClass) (cause : string) : prog (Result unit) :=
  Act (fun e s => with_health (snd (note_failure_at c cause (env_mono e) (k_health s))) s)
    (fun e s => Ret (fst (note_failure_at c cause (env_mono e) (k_health s)))).

Definition p_note_unactionable (c : FailureClass) (subjects : list string) : prog unit :=
  modify (fun s => with_health (snd (note_unactionable c subjects (k_health s))) s).

Definition p_metrics (f : ControllerMetrics -> ControllerMetrics) : prog unit := modify (with_metrics f).

(** [health.publish_if_changed(cfg.status_dir.as_deref())]. *)
Definition p_publish_if_changed (cfg : WatchConfig) : prog unit :=
  Act (fun e s =>
         let dir := match wc_status_dir cfg with Some _ => Some (env_io e, k_dir s) | None => None end in
         let '(h, d) := publish_if_changed fmt dir (env_ts e) (k_health s) in
         with_dir h (default (k_dir s) d) s)
    (fun _ _ => Ret tt).

Definition attach_target (plan : ApplyPlan) : option string := ap_secret plan ≫= sec_name.

Definition attach_exceptions (cfg : WatchConfig) (plan : ApplyPlan) : prog (Result Requested) :=
  match attach_target plan with
  | None => Ret (Ok requested_none)
  | Some secret_name =>
      match (secret ← ap_secret plan; labels ← sec_labels secret; labels !! POLICY_LABEL_KEY) with
      | None =>
          Ret (Err (Integrity [Lit "secret "; Str secret_name; Lit " carries no "; Str POLICY_LABEL_KEY;
                 Lit " label: refusing to attach an exception list this controller cannot scope to a policy"]))
      | Some policy =>
          s ← read_ctl;
          patch_secret_exceptions (wc_namespace cfg) secret_name (wc_secret_key cfg)
            (exceptions_for_policy (snapshot_exceptions (k_exceptions s)) policy)
      end
  end.

(** The head of both reconciles: an object that says it is ready is checked against its
    live Secret. Answers whether there is nothing to do. *)
Definition already_applied (cfg : WatchConfig) (obj : DynamicObject) (generation : Z) (digest_key secret_name : string)
    : prog (result Classified bool) :=
  let '(og, ready, digest) := status_compile obj in
  if ready then
    _ ← (if str_empty digest then Ret tt else p_metrics (ctl_set_bundle_digest digest_key digest));
    loaded ←! pmap_err (as_class CReconcile) (load_bundle_secret (wc_namespace cfg) secret_name);
    _ ← p_note_success (snd loaded);
    Ret (Ok (should_skip_applied generation og ready digest (fst loaded) (wc_trust_root cfg)))
  else Ret (Ok false).

(** The tail of both reconciles: count, persist, attach. *)
Definition apply_plan (cfg : WatchConfig) (obj : DynamicObject) (generation : Z) (kind : Kind)
    (object_namespace : option string) (name : string) (plan : ApplyPlan) (compile_failed : bool)
    : prog (result Classified unit) :=
  _ ← (if compile_failed then p_metrics record_compile_failure else Ret tt);
  if failed_status_already_recorded obj generation plan then Ret (Ok tt)
  else
    persisted ←! pmap_err (as_class (persist_class plan))
                   (persist_dynamic kind object_namespace name (wc_namespace cfg) plan);
    _ ← p_note_success persisted;
    attached ←! pmap_err (as_class CExceptionPublish) (attach_exceptions cfg plan);
    _ ← p_note_success attached;
    Ret (Ok tt).

(** The digest of an applied outcome goes to the metrics. *)
Definition note_outcome (digest_key : string) (outcome : ReconcileOutcome) : prog unit :=
  match outcome with
  | Applied applied => p_metrics (ctl_set_bundle_digest digest_key (sb_digest (ra_bundle applied)))
  | Failed _ => Ret tt
  end.

Definition outcome_failed (outcome : ReconcileOutcome) : bool :=
  match outcome with Failed _ => true | Applied _ => false end.

Definition reconcile_object (cfg : WatchConfig) (obj : DynamicObject) : prog (result Classified unit) :=
  name ←! plift (map_err (as_class CReconcile) (require_name obj "ClusterSecurityPolicy"));
  let generation := default 0 (o_generation obj) in
  skip ←! already_applied cfg obj generation name (secret_name name);
  if skip then Ret (Ok tt) else
  match observe_policy obj with
  | Ok observed =>
      let outcome := reconcile sha256 fmt (op_spec observed) (op_generation observed) (wc_secret_key cfg)
                       (wc_library cfg) (wc_clusters cfg) in
      _ ← note_outcome (op_name observed) outcome;
      apply_plan cfg obj generation KClusterSecurityPolicy None name
        (plan_apply sha256 fmt (op_name observed) (wc_namespace cfg) outcome (wc_trust_root cfg))
        (outcome_failed outcome)
  | Err err =>
      apply_plan cfg obj generation KClusterSecurityPolicy None name
        (plan_apply sha256 fmt name (wc_namespace cfg) (failed_outcome generation err) (wc_trust_root cfg)) true
  end.

Definition reconcile_namespaced_object (cfg : WatchConfig) (obj : DynamicObject) : prog (result Classified unit) :=
  name ←! plift (map_err (as_class CReconcile) (require_name obj "SecurityPolicy"));
  policy_namespace ←! plift (map_err (as_class CReconcile) (require_namespace obj "SecurityPolicy"));
  let generation := default 0 (o_generation obj) in
  skip ←! already_applied cfg obj generation (policy_namespace +:+ "/" +:+ name)
            (namespaced_secret_name name policy_namespace);
  if skip then Ret (Ok tt) else
  match observe_namespaced_policy obj with
  | Ok observed =>
      let outcome := reconcile_namespaced sha256 fmt (onp_spec observed) (onp_generation observed)
                       (wc_secret_key cfg) (wc_library cfg) (wc_clusters cfg) in
      _ ← note_outcome (onp_namespace observed +:+ "/" +:+ onp_name observed) outcome;
      apply_plan cfg obj generation KSecurityPolicy (Some policy_namespace) name
        (plan_apply_namespaced sha256 fmt (onp_name observed) (onp_namespace observed) (wc_namespace cfg) outcome
           (wc_trust_root cfg)) (outcome_failed outcome)
  | Err err =>
      apply_plan cfg obj generation KSecurityPolicy (Some policy_namespace) name
        (plan_apply_namespaced sha256 fmt name policy_namespace (wc_namespace cfg) (failed_outcome generation err)
           (wc_trust_root cfg)) true
  end.

(** [watcher::Event]. *)
Inductive WatcherEvent :=
| EvApply (obj : DynamicObject)
| EvDelete (obj : DynamicObject)
| EvInit
| EvInitApply (obj : DynamicObject)
| EvInitDone.

(** Which set an object goes into. *)
Inductive Target := Published | Staging.

Definition exception_key (namespace name : string) : string := namespace +:+ "/" +:+ name.

Definition set_exception (target : Target) (key : string) (live : option PolicyExceptionSpec) (s : Ctl) : Ctl :=
  let upd set := match live with Some spec => <[key := spec]> set | None => delete key set end in
  match target with
  | Published => with_sets (upd (k_exceptions s)) (k_staging s) s
  | Staging => with_sets (k_exceptions s) (upd (k_staging s)) s
  end.

(** [apply_exception_object] at the time [now]. *)
Definition apply_exception_object (target : Target) (obj : DynamicObject) (now : Z) : prog (result Classified Requested) :=
  name ←! plift (map_err (as_class CReconcile) (require_name obj "PolicyException"));
  namespace ←! plift (map_err (as_class CReconcile) (require_namespace obj "PolicyException"));
  let key := exception_key namespace name in
  let '(status, live) := exception_disposition obj now in
  _ ← modify (set_exception target key live);
  pmap_err (as_class CStatusPatch)
    (patch_status_dynamic KPolicyException (Some namespace) name (exception_status_patch status)).

(** The effect of the event on the sets, and the object left to apply, if any. *)
Definition receive_event (ev : WatcherEvent) : prog (Result (option (DynamicObject * Target))) :=
  match ev with
  | EvApply obj => Ret (Ok (Some (obj, Published)))
  | EvDelete obj =>
      match o_namespace obj, o_name obj with
      | Some ns, Some name =>
          _ ← modify (set_exception Published (exception_key ns name) None); Ret (Ok None)
      | _, _ =>
          _ ←! p_note_failure CReconcile (fmt (error_to_string (Validation
                 [Lit "PolicyException deleted with no metadata.namespace/name: the revoked exception cannot be removed from the published set and stays live until the next relist"])));
          Ret (Ok None)
      end
  | EvInit => _ ← modify (fun s => with_sets (k_exceptions s) ∅ s); Ret (Ok None)
  | EvInitApply obj => Ret (Ok (Some (obj, Staging)))
  | EvInitDone => _ ← modify (fun s => with_sets (k_staging s) (k_staging s) s); Ret (Ok None)
  end.

(** [for cause in &published.refused { health.note_failure(..)?; }] *)
Fixpoint note_refused (causes : list string) : prog (Result unit) :=
  match causes with
  | [] => Ret (Ok tt)
  | cause :: causes' => _ ←! p_note_failure CExceptionPublish cause; note_refused causes'
  end.

(** Publish the current set into every Secret and account for it. *)
Definition publish_exceptions (cfg : WatchConfig) : prog (Result unit) :=
  s ← read_ctl;
  r ← persist_exceptions (wc_namespace cfg) (wc_secret_key cfg) (snapshot_exceptions (k_exceptions s));
  match r with
  | Ok published =>
      _ ← p_note_success (ep_requested published);
      _ ← p_note_unactionable CExceptionPublish (ep_unscopable published);
      note_refused (ep_refused published)
  | Err err => p_note_failure CExceptionPublish (fmt (error_to_string err))
  end.

Definition handle_exception_event (cfg : WatchConfig) (now : Z) (ev : WatcherEvent) : prog (Result unit) :=
  object ←! receive_event ev;
  _ ←! (match object with
        | None => Ret (Ok tt)
        | Some (obj, target) =>
            r ← apply_exception_object target obj now;
            match r with
            | Ok requested => _ ← p_note_success requested; Ret (Ok tt)
            | Err failure => p_note_failure (cl_class failure) (fmt (error_to_string (cl_err failure)))
            end
        end);
  publish_exceptions cfg.

(** ** One turn of each loop, given what its stream delivered *)

Definition policy_turn (cfg : WatchConfig) (reconcile_ : DynamicObject -> prog (result Classified unit))
    (ev : result string DynamicObject) : prog (Result unit) :=
  _ ←! (match ev with
        | Ok obj =>
            _ ← p_note_success (requested_of CWatch);
            _ ← p_metrics record_reconcile;
            r ← reconcile_ obj;
            match r with
            | Ok _ => Ret (Ok tt)
            | Err failure => p_note_failure (cl_class failure) (fmt (error_to_string (cl_err failure)))
            end
        | Err err => p_note_failure CWatch err
        end);
  _ ← p_publish_if_changed cfg;
  Ret (Ok tt).

Definition cluster_turn (cfg : WatchConfig) : result string DynamicObject -> prog (Result unit) :=
  policy_turn cfg (reconcile_object cfg).
Definition namespaced_turn (cfg : WatchConfig) : result string DynamicObject -> prog (Result unit) :=
  policy_turn cfg (reconcile_namespaced_object cfg).

Definition exception_turn (cfg : WatchConfig) (now : Z) (ev : result string WatcherEvent) : prog (Result unit) :=
  _ ←! (match ev with
        | Ok ev => _ ← p_note_success (requested_of CWatch); handle_exception_event cfg now ev
        | Err err => p_note_failure CWatch err
        end);
  _ ← p_publish_if_changed cfg;
  Ret (Ok tt).
End controller.

(** ** The command line: main.rs *)

Record RunOpts := {
  ro_seed_file : option string;
  ro_status_dir : option string;
  ro_namespace : string;
  ro_clusters : list ClusterAbi;
  ro_min_agent_abi : Z;
  ro_min_admission_abi : Z;
  ro_trust_root : option string;
  ro_metrics_listen : option string
}.

Definition run_opts_new : RunOpts :=
  {| ro_seed_file := None; ro_status_dir := None; ro_namespace := DEFAULT_NAMESPACE; ro_clusters := [];
     ro_min_agent_abi := 0; ro_min_admission_abi := 0; ro_trust_root := None; ro_metrics_listen := None |}.

(** [str::parse::<u32>]: an optional plus sign, at least one digit, no overflow. *)
Definition parse_u32_text (l : list Z) : option Z :=
  let digits := match l with 43 :: l' => l' | _ => l end in
  if is_empty digits then None
  else match decimal digits with Some n => if n <? U32 then Some n else None | None => None end.

Definition parse_u32 (flag raw : string) : result msg Z :=
  ok_or (parse_u32_text (as_bytes raw)) [Str flag; Lit ": expected u32, got "; Str raw].

Definition require_val (flag : string) (val : option string) : result msg string :=
  match val with
  | Some v =>
      if starts_with v "--"
      then Err [Str flag; Lit " requires a value, got the flag "; Str v; Lit ": no value in this grammar starts with --"]
      else if str_empty v then Err [Str flag; Lit " requires a value"] else Ok v
  | None => Err [Str flag; Lit " requires a value"]
  end.

Definition parse_cluster (spec : string) : result msg ClusterAbi :=
  let malformed := [Lit "--cluster "; Str spec; Lit ": expected name:agentAbi:admissionAbi"] in
  match map string_of_bytes (split_on 58 (as_bytes spec)) with
  | [] => Err [Lit "--cluster expected name:agentAbi:admissionAbi"]
  | name :: parts =>
      if str_empty (trim name) then Err [Lit "--cluster expected name:agentAbi:admissionAbi"] else
      match parts with
      | [] => Err [Lit "--cluster "; Str spec; Lit ": missing agentAbi"]
      | [_] => Err [Lit "--cluster "; Str spec; Lit ": missing admissionAbi"]
      | [agent; admission] =>
          a ← parse_u32 "--cluster agentAbi" agent;
          b ← parse_u32 "--cluster admissionAbi" admission;
          mret {| ca_name := trim name; ca_agent_abi := a; ca_admission_abi := b |}
      | _ => Err malformed
      end
  end.

Definition LINE_FEED : string := string_of_bytes [10].
Definition ctl_usage : msg :=
  [Lit "usage: ferrum-controller <policy.yaml> <ed25519-seed-hex> [signed-bundle.fsig]"; Str LINE_FEED;
   Lit "       ferrum-controller run --seed-file <path> [--namespace ferrum] [--status-dir /run/ferrum] [--metrics-listen 0.0.0.0:9104] [--cluster name:agentAbi:admissionAbi]..."].

(** The flags that take a value. *)
Definition set_flag (o : RunOpts) (flag v : string) : result msg (option RunOpts) :=
  let upd sf sd ns cl ma mm tr ml :=
    {| ro_seed_file := sf; ro_status_dir := sd; ro_namespace := ns; ro_clusters := cl; ro_min_agent_abi := ma;
       ro_min_admission_abi := mm; ro_trust_root := tr; ro_metrics_listen := ml |} in
  let '{| ro_seed_file := sf; ro_status_dir := sd; ro_namespace := ns; ro_clusters := cl; ro_min_agent_abi := ma;
          ro_min_admission_abi := mm; ro_trust_root := tr; ro_metrics_listen := ml |} := o in
  if str_eqb flag "--seed-file" then Ok (Some (upd (Some v) sd ns cl ma mm tr ml))
  else if str_eqb flag "--namespace" then Ok (Some (upd sf sd v cl ma mm tr ml))
  else if str_eqb flag "--status-dir" then Ok (Some (upd sf (Some v) ns cl ma mm tr ml))
  else if str_eqb flag "--metrics-listen" then Ok (Some (upd sf sd ns cl ma mm tr (Some v)))
  else if str_eqb flag "--cluster" then c ← parse_cluster v; Ok (Some (upd sf sd ns (cl ++ [c]) ma mm tr ml))
  else if str_eqb flag "--min-agent-abi" then n ← parse_u32 flag v; Ok (Some (upd sf sd ns cl n mm tr ml))
  else if str_eqb flag "--min-admission-abi" then n ← parse_u32 flag v; Ok (Some (upd sf sd ns cl ma n tr ml))
  else if str_eqb flag "--trust-root" then Ok (Some (upd sf sd ns cl ma mm (Some v) ml))
  else Ok None.

Definition VALUE_FLAGS : list string :=
  ["--seed-file"; "--namespace"; "--status-dir"; "--metrics-listen"; "--cluster"; "--min-agent-abi";
   "--min-admission-abi"; "--trust-root"].

(** The [while let] over the arguments. *)
Fixpoint parse_flags (args : list string) (o : RunOpts) : result msg RunOpts :=
  match args with
  | [] => Ok o
  | arg :: rest =>
      if str_eqb arg "-h" || str_eqb arg "--help" then Err ctl_usage
      else if negb (list_contains VALUE_FLAGS arg) then Err ([Lit "unknown flag "; Str arg; Str LINE_FEED] ++ ctl_usage)
      else match require_val arg (head rest), rest with
           | Ok v, _ :: rest' =>
               r ← set_flag o arg v;
               match r with Some o' => parse_flags rest' o' | None => Ok o end
           | Ok _, [] => Ok o
           | Err e, _ => Err e
           end
  end.

Section cli.
Context `{E : Ed25519}.

Definition parse_run (env : SeedEnv) (args : list string) : result msg WatchConfig :=
  opts ← parse_flags args run_opts_new;
  _ ← refuse_if (str_empty (trim (ro_namespace opts))) [Lit "--namespace must not be empty"];
  secret_key ← map_err error_to_string (load_seed env (ro_seed_file opts));
  trust_root ← match ro_trust_root opts with
               | Some hex => map_err error_to_string (parse_public_key_hex hex)
               | None => map_err error_to_string (public_key_from_secret secret_key)
               end;
  mret {| wc_namespace := ro_namespace opts; wc_secret_key := secret_key; wc_trust_root := trust_root;
          wc_library := if (ro_min_agent_abi opts =? 0) && (ro_min_admission_abi opts =? 0) then None
                        else Some {| pls_source := "cli"; pls_digest := ""; pls_min_agent_abi := ro_min_agent_abi opts;
                                     pls_min_admission_abi := ro_min_admission_abi opts |};
          wc_clusters := ro_clusters opts; wc_status_dir := ro_status_dir opts;
          wc_metrics_listen := ro_metrics_listen opts |}.

Lemma set_flag_trust_root o flag v o' :
  set_flag o flag v = Ok (Some o') -> flag <> "--trust-root" -> ro_trust_root o' = ro_trust_root o.
Proof.
  destruct o. unfold set_flag. intros H Hne. apply str_eqb_false in Hne. rewrite Hne in H.
  repeat case_match; try discriminate; try (inv_ok; simplify_eq; done); by simplify_eq.
Qed.

Lemma flags_keep_trust_root args o o' :
  parse_flags args o = Ok o' -> "--trust-root" ∉ args -> ro_trust_root o' = ro_trust_root o.
Proof.
  assert (forall n args o, (length args <= n)%nat -> parse_flags args o = Ok o' -> "--trust-root" ∉ args ->
    ro_trust_root o' = ro_trust_root o) as Hn; [|by apply (Hn (length args))].
  induction n as [|n IH]; intros args0 o0 Hlen Hp Hnot; (destruct args0 as [|arg rest]; [by injection Hp as <-|]); [simpl in Hlen; lia|].
  simpl in Hp, Hlen. destruct (_ || _); [done|]. destruct (negb _); [done|].
  destruct (require_val arg (head rest)) as [v|]; [|done]. destruct rest as [|v' rest]; [by injection Hp as <-|].
  apply bind_ok in Hp as (r & Hr & Hp). destruct r as [o1|]; [|by injection Hp as <-].
  rewrite (IH rest o1); [|simpl in Hlen; lia|done|set_solver]. eapply set_flag_trust_root; [exact Hr|]. set_solver.
Qed.

(** Unless another pin is given, the controller's pin is the key of its own seed. *)
Lemma default_pin_is_own_key env args cfg :
  parse_run env args = Ok cfg -> "--trust-root" ∉ args ->
  public_key_from_secret (wc_secret_key cfg) = Ok (wc_trust_root cfg).
Proof.
  unfold parse_run. intros H Hnot. apply bind_ok in H as (opts & Ho & H). apply bind_ok_unit in H as [_ H].
  apply bind_ok in H as (key & _ & H). rewrite (flags_keep_trust_root _ _ _ Ho Hnot) in H. simpl in H.
  destruct (public_key_from_secret key) as [root|] eqn:Hk; [|done]. simpl in H. injection H as <-. done.
Qed.
End cli.
