(* ===== verification/ControllerLoops.v ===== *)
(** * The three watch loops, interleaved

    [run_watch] of [crates/ferrum-controller/src/watch.rs]: the two policy loops, the
    exception loop and the status loop of one [select!], with every interleaving of their
    steps, every answer of the API server and every reading of the clocks. The theorem of
    this file is about every request the controller ever sends. *)

From S2P Require Import Prelude RustStd RustText Ids Api Policy Wire Encode Febp Wasm Compiler Envelope Program.
From S2P Require Import Crypto Journal Encoding Json Bundle Webhook AgentSource Publish Health Controller.

(** ** Steps *)

(** An answered request. *)
Inductive Tr :=
| TGet (namespace name : string) (r : result string (option Secret))
| TList (namespace selector : string) (r : result string (list Secret))
| TWrite (w : Write) (r : result string unit).

(** One step of a program: a local step, or a request with whatever answer. *)
Inductive pstep {A} : Ctl -> prog A -> list Tr -> Ctl -> prog A -> Prop :=
| pstep_act e s f k : pstep s (Act f k) [] (f e s) (k e s)
| pstep_get s ns n k r : pstep s (AskGet ns n k) [TGet ns n r] s (k r)
| pstep_list s ns sel k r : pstep s (AskList ns sel k) [TList ns sel r] s (k r)
| pstep_write s w k r : pstep s (AskWrite w k) [TWrite w r] s (k r).

Inductive Loop := LCluster | LNamespaced | LException.

#[global] Instance Loop_eq_dec : EqDecision Loop.
Proof. solve_decision. Defined.

(** What a turn is about: the object, or all events the exception loop has received. *)
Inductive Delivered :=
| DPolicy (obj : DynamicObject)
| DNamespaced (obj : DynamicObject)
| DExceptions (evs : list (Z * WatcherEvent))
| DError.

(** A turn in progress: its cause, the requests it has had answered, what is left. *)
Record Turn := { tn_cause : Delivered; tn_hist : list Tr; tn_prog : prog (Result unit) }.

(** The process: shared state, turns in progress, the events the exception loop received
    (oldest first, with the time of each), every write with the turn and the answers before
    it, and the error it ended with. *)
Record CSys := {
  y_ctl : Ctl;
  y_turn : Loop -> option Turn;
  y_events : list (Z * WatcherEvent);
  y_log : list (Delivered * list Tr * Write);
  y_over : option FerrumError
}.

Definition csys_new : CSys :=
  {| y_ctl := ctl_new; y_turn := fun _ => None; y_events := []; y_log := []; y_over := None |}.

Definition set_turn (l : Loop) (t : option Turn) (y : CSys) : CSys :=
  {| y_ctl := y_ctl y; y_turn := fun l' => if bool_decide (l' = l) then t else y_turn y l';
     y_events := y_events y; y_log := y_log y; y_over := y_over y |}.
Definition set_ctl (s : Ctl) (y : CSys) : CSys :=
  {| y_ctl := s; y_turn := y_turn y; y_events := y_events y; y_log := y_log y; y_over := y_over y |}.
Definition add_event (ev : Z * WatcherEvent) (y : CSys) : CSys :=
  {| y_ctl := y_ctl y; y_turn := y_turn y; y_events := y_events y ++ [ev]; y_log := y_log y; y_over := y_over y |}.
Definition add_log (l : list (Delivered * list Tr * Write)) (y : CSys) : CSys :=
  {| y_ctl := y_ctl y; y_turn := y_turn y; y_events := y_events y; y_log := y_log y ++ l; y_over := y_over y |}.
Definition set_over (e : FerrumError) (y : CSys) : CSys :=
  {| y_ctl := y_ctl y; y_turn := y_turn y; y_events := y_events y; y_log := y_log y; y_over := Some e |}.

(** The writes among the answered requests of one step. *)
Definition writes_of (cause : Delivered) (hist : list Tr) (tr : list Tr) : list (Delivered * list Tr * Write) :=
  omap (fun t => match t with TWrite w _ => Some (cause, hist, w) | _ => None end) tr.

Definition turn (cause : Delivered) (p : prog (Result unit)) : Turn :=
  {| tn_cause := cause; tn_hist := []; tn_prog := p |}.

Definition ended (l : Loop) : FerrumError :=
  Degraded [Lit (match l with
                 | LCluster => "ClusterSecurityPolicy watch ended"
                 | LNamespaced => "SecurityPolicy watch ended"
                 | LException => "PolicyException watch ended"
                 end)].

Section loops.
Context `{E : Ed25519} `{W : ExceptionsWriter} `{S : SpecJson} `{T : JsonText}.
Context (sha256 : list Z -> list Z) (fmt : msg -> string) (cfg : WatchConfig).

(** [publish_status]: the periodic publish. *)
Definition ctl_status_tick (e : Env) (s : Ctl) : Ctl :=
  let dir := match wc_status_dir cfg with Some _ => Some (env_io e, k_dir s) | None => None end in
  let '(_, h, d) := ctl_publish fmt dir (env_ts e) (k_health s) in with_dir h (default (k_dir s) d) s.

Inductive csys_step : CSys -> CSys -> Prop :=
| step_cluster y ev :
    y_over y = None -> y_turn y LCluster = None ->
    csys_step y (set_turn LCluster (Some (turn (match ev with Ok obj => DPolicy obj | Err _ => DError end)
                                            (cluster_turn sha256 fmt cfg ev))) y)
| step_namespaced y ev :
    y_over y = None -> y_turn y LNamespaced = None ->
    csys_step y (set_turn LNamespaced (Some (turn (match ev with Ok obj => DNamespaced obj | Err _ => DError end)
                                               (namespaced_turn sha256 fmt cfg ev))) y)
| step_exception y now ev :
    y_over y = None -> y_turn y LException = None ->
    csys_step y (set_turn LException (Some (turn (DExceptions (y_events y ++ [(now, ev)]))
                                              (exception_turn fmt cfg now (Ok ev)))) (add_event (now, ev) y))
| step_exception_error y now err :
    y_over y = None -> y_turn y LException = None ->
    csys_step y (set_turn LException (Some (turn DError (exception_turn fmt cfg now (Err err)))) y)
| step_run y l t tr s p :
    y_over y = None -> y_turn y l = Some t -> pstep (y_ctl y) (tn_prog t) tr s p ->
    csys_step y (add_log (writes_of (tn_cause t) (tn_hist t) tr)
                   (set_turn l (Some {| tn_cause := tn_cause t; tn_hist := tn_hist t ++ tr; tn_prog := p |})
                      (set_ctl s y)))
| step_done y l t :
    y_over y = None -> y_turn y l = Some t -> tn_prog t = Ret (Ok tt) -> csys_step y (set_turn l None y)
| step_die y l t err :
    y_over y = None -> y_turn y l = Some t -> tn_prog t = Ret (Err err) -> csys_step y (set_over err y)
| step_ended y l :
    y_over y = None -> y_turn y l = None -> csys_step y (set_over (ended l) y)
| step_tick y e :
    y_over y = None -> csys_step y (set_ctl (ctl_status_tick e (y_ctl y)) y).

Definition csys_reachable (y : CSys) : Prop := rtc csys_step csys_new y.

(** ** The sets after a sequence of events *)

(** [key] of an object that names itself. *)
Definition object_key (obj : DynamicObject) : option string :=
  match require_name obj "PolicyException", require_namespace obj "PolicyException" with
  | Ok name, Ok ns => Some (exception_key ns name)
  | _, _ => None
  end.

Definition put_live (key : option string) (live : option PolicyExceptionSpec) (set : ExceptionSet) : ExceptionSet :=
  match key with
  | None => set
  | Some key => match live with Some spec => <[key := spec]> set | None => delete key set end
  end.

(** What one event makes of the published set and of the one being staged. *)
Definition sets_step (o : ExceptionSet * ExceptionSet) (ev : Z * WatcherEvent) : ExceptionSet * ExceptionSet :=
  let '(live, staged) := o in
  let '(now, ev) := ev in
  match ev with
  | EvApply obj => (put_live (object_key obj) (snd (exception_disposition fmt obj now)) live, staged)
  | EvDelete obj => (put_live (ns ← o_namespace obj; n ← o_name obj; Some (exception_key ns n)) None live, staged)
  | EvInit => (live, ∅)
  | EvInitApply obj => (live, put_live (object_key obj) (snd (exception_disposition fmt obj now)) staged)
  | EvInitDone => (staged, staged)
  end.

Definition sets_after (evs : list (Z * WatcherEvent)) : ExceptionSet * ExceptionSet := foldl sets_step (∅, ∅) evs.

Definition sets (s : Ctl) : ExceptionSet * ExceptionSet := (k_exceptions s, k_staging s).

(** Sets some sequence of events leaves. *)
Definition delivered_sets (o : ExceptionSet * ExceptionSet) : Prop := exists evs, o = sets_after evs.

(** ** Programs and the requests they make

    [wp own G o hist p Q]: started with the sets at [o] and the answers [hist], [p] sends
    only writes that satisfy [G], leaves the sets alone unless [own], and ends with [Q],
    whatever is answered and whatever the other loops do between its steps. They do not
    touch the sets of their owner. *)
Fixpoint wp {A} (own : bool) (G : ExceptionSet * ExceptionSet -> list Tr -> Write -> Prop)
    (o : ExceptionSet * ExceptionSet) (hist : list Tr) (p : prog A)
    (Q : ExceptionSet * ExceptionSet -> list Tr -> A -> Prop) : Prop :=
  match p with
  | Ret a => Q o hist a
  | Act f k => forall e s, (if own then sets s = o else True) -> delivered_sets (sets s) ->
      delivered_sets (sets (f e s)) /\ (own = false -> sets (f e s) = sets s) /\
      wp own G (sets (f e s)) hist (k e s) Q
  | AskGet ns n k => forall r, wp own G o (hist ++ [TGet ns n r]) (k r) Q
  | AskList ns sel k => forall r, wp own G o (hist ++ [TList ns sel r]) (k r) Q
  | AskWrite w k => G o hist w /\ forall r, wp own G o (hist ++ [TWrite w r]) (k r) Q
  end.

Lemma wp_ret {A} own G o hist (a : A) (Q : _ -> _ -> _ -> Prop) : Q o hist a -> wp own G o hist (Ret a) Q.
Proof. done. Qed.

Lemma wp_mono {A} own G o hist (p : prog A) (Q Q' : _ -> _ -> _ -> Prop) :
  (forall o hist a, Q o hist a -> Q' o hist a) -> wp own G o hist p Q -> wp own G o hist p Q'.
Proof.
  intros HQ. revert o hist. induction p as [a|f k IH|ns n k IH|ns sel k IH|w k IH]; intros o hist; simpl; [auto| | | |].
  - intros H e s Hs Hd. destruct (H e s Hs Hd) as (? & ? & ?). auto.
  - intros H r. auto.
  - intros H r. auto.
  - intros [HG H]. split; [done|]. auto.
Qed.

Lemma wp_bind {A B} own G o hist (p : prog A) (q : A -> prog B) Q :
  wp own G o hist p (fun o hist a => wp own G o hist (q a) Q) -> wp own G o hist (p ≫= q) Q.
Proof.
  unfold mbind, prog_mbind. revert o hist.
  induction p as [a|f k IH|ns n k IH|ns sel k IH|w k IH]; intros o hist; simpl; [auto| | | |].
  - intros H e s Hs Hd. destruct (H e s Hs Hd) as (? & ? & ?). auto.
  - intros H r. auto.
  - intros H r. auto.
  - intros [HG H]. split; [done|]. auto.
Qed.

Lemma wp_bind_ok {Er A B} own G o hist (p : prog (result Er A)) (q : A -> prog (result Er B)) Q :
  wp own G o hist p (fun o hist r => match r with Ok a => wp own G o hist (q a) Q | Err e => Q o hist (Err e) end) ->
  wp own G o hist (pbind_ok p q) Q.
Proof. intros H. apply wp_bind. eapply wp_mono; [|exact H]. simpl. by intros ? ? []. Qed.

Lemma wp_map_err {Er F A} own G o hist (f : Er -> F) (p : prog (result Er A)) Q :
  wp own G o hist p (fun o hist r => Q o hist (map_err f r)) -> wp own G o hist (pmap_err f p) Q.
Proof. intros H. apply wp_bind. eapply wp_mono; [|exact H]. done. Qed.

(** A step that leaves the sets alone, whoever takes it. *)
Lemma wp_act {A} own G o hist f (k : Env -> Ctl -> prog A) Q :
  (forall e s, sets (f e s) = sets s) ->
  (forall e s, (own = true -> sets s = o) -> delivered_sets (sets s) -> wp own G (sets s) hist (k e s) Q) ->
  wp own G o hist (Act f k) Q.
Proof.
  intros Hf Hk e s Hs Hd. rewrite !Hf. split_and!; [done..|]. apply Hk; [|done]. by destruct own.
Qed.

Lemma wp_modify own G o hist g (Q : _ -> _ -> unit -> Prop) :
  (forall s, sets (g s) = sets s) -> (forall o', (own = true -> o' = o) -> Q o' hist tt) ->
  wp own G o hist (modify g) Q.
Proof. intros Hg HQ. apply wp_act; [done|]. intros e s Hs _. by apply HQ. Qed.

Lemma wp_note_failure own G o hist c cause (Q : _ -> _ -> Result unit -> Prop) :
  (forall o' r, (own = true -> o' = o) -> Q o' hist r) -> wp own G o hist (p_note_failure c cause) Q.
Proof. intros HQ. apply wp_act; [done|]. intros e s Hs _. by apply HQ. Qed.

Lemma wp_publish_if_changed own G o hist (Q : _ -> _ -> unit -> Prop) :
  (forall o', (own = true -> o' = o) -> Q o' hist tt) -> wp own G o hist (p_publish_if_changed fmt cfg) Q.
Proof.
  intros HQ. apply wp_act.
  - intros e s. cbn beta zeta. by match goal with |- context [publish_if_changed ?a ?b ?c ?h] => destruct (publish_if_changed a b c h) end.
  - intros e s Hs _. by apply HQ.
Qed.

(** ** Good requests *)

(** A Secret was stored: its create or its patch was answered with success. *)
Definition stored (hist : list Tr) (secret : Secret) : Prop :=
  exists w, TWrite w (Ok tt) ∈ hist /\
    ((exists ns, w = WCreateSecret ns secret) \/ (exists ns n, w = WPatchSecret ns n secret)).

(** [secret] carries the policy [fx] for both planes, under the digest. *)
Definition carries_policy (name : string) (labels : gmap string string) (fx : Effects) (secret : Secret) (digest : string) : Prop :=
  exists fsig,
    secret = {| sec_name := Some name; sec_namespace := Some (wc_namespace cfg); sec_labels := Some labels;
                sec_type := Some "Opaque";
                sec_data := Some {[BUNDLE_FSIG_KEY := fsig; BUNDLE_DIGEST_KEY := as_bytes digest]} |} /\
    loads_as sha256 (wc_trust_root cfg) fsig digest fx /\
    live_secret_matches sha256 secret (wc_trust_root cfg) digest = true.

(** The Secret of the object the turn is about, and of no other. *)
Definition secret_for (d : Delivered) (secret : Secret) (digest : string) : Prop :=
  match d with
  | DPolicy obj => exists p, observe_policy obj = Ok p /\
      carries_policy (secret_name (op_name p)) (cluster_secret_labels (op_name p)) (effects_of_cluster (op_spec p)) secret digest
  | DNamespaced obj => exists p, observe_namespaced_policy obj = Ok p /\
      carries_policy (namespaced_secret_name (onp_name p) (onp_namespace p))
        (namespaced_secret_labels (onp_name p) (onp_namespace p)) (effects_of_namespaced (onp_spec p)) secret digest
  | _ => False
  end.

Definition policy_label (secret : Secret) : option string := sec_labels secret ≫= (.!! POLICY_LABEL_KEY).

(** The list a turn may publish, and the policy a Secret is scoped to: the exception loop
    publishes the set its events leave into the Secrets it listed; a policy loop a set the
    exception loop had, into the Secret it has just stored. *)
Definition list_for (d : Delivered) (hist : list Tr) (name policy : string) (set : ExceptionSet) : Prop :=
  match d with
  | DExceptions evs => set = fst (sets_after evs) /\
      exists ns sel items secret, TList ns sel (Ok items) ∈ hist /\ secret ∈ items /\
        sec_name secret = Some name /\ policy_label secret = Some policy
  | DPolicy _ | DNamespaced _ => (exists evs, set = fst (sets_after evs)) /\
      exists secret digest, stored hist secret /\ secret_for d secret digest /\
        sec_name secret = Some name /\ policy_label secret = Some policy
  | DError => False
  end.

(** A status names the object of the turn; it says ready only of a bundle that is stored,
    and active only of an exception that is valid. *)
Definition status_for (d : Delivered) (hist : list Tr) (kind : Kind) (ns : option string) (name : string) (patch : Json) : Prop :=
  let compile key := pointer patch ["status"; "compile"; key] in
  let bundle_stored := compile "ready" = Some (JBool true) ->
    exists secret digest, compile "bundleDigest" = Some (JStr digest) /\ stored hist secret /\ secret_for d secret digest in
  match d with
  | DPolicy obj => kind = KClusterSecurityPolicy /\ ns = None /\ o_name obj = Some name /\ bundle_stored
  | DNamespaced obj => kind = KSecurityPolicy /\ ns = o_namespace obj /\ o_name obj = Some name /\ bundle_stored
  | DExceptions evs => kind = KPolicyException /\
      exists now obj, (last evs = Some (now, EvApply obj) \/ last evs = Some (now, EvInitApply obj)) /\
        ns = o_namespace obj /\ o_name obj = Some name /\
        (pointer patch ["status"; "active"] = Some (JBool true) ->
         exists spec, ctl_decode_spec exception_spec_of obj "PolicyException" = Ok spec /\ validate_exception spec now = Ok tt)
  | DError => False
  end.

Definition good (d : Delivered) (hist : list Tr) (w : Write) : Prop :=
  match w with
  | WCreateSecret ns secret =>
      ns = wc_namespace cfg /\ (exists digest, secret_for d secret digest) /\
      exists name, sec_name secret = Some name /\ last hist = Some (TGet ns name (Ok None))
  | WPatchSecret ns name secret =>
      ns = wc_namespace cfg /\ (exists digest, secret_for d secret digest) /\ sec_name secret = Some name /\
      exists live, last hist = Some (TGet ns name (Ok (Some live))) /\
        Forall (fun key => (l ← sec_labels live; l !! key) = (l ← sec_labels secret; l !! key)) OWNER_KEYS
  | WPatchData ns name patch =>
      ns = wc_namespace cfg /\ exists policy set, list_for d hist name policy set /\
        exceptions_secret_patch (exceptions_for_policy (snapshot_exceptions set) policy) (wc_secret_key cfg) = Ok patch
  | WPatchStatus kind ns name patch => status_for d hist kind ns name patch
  end.

Definition good_in (d : Delivered) : ExceptionSet * ExceptionSet -> list Tr -> Write -> Prop := fun _ => good d.

Lemma stored_app hist hist' secret : stored hist secret -> stored (hist ++ hist') secret.
Proof. intros (w & Hw & H). exists w. split; [set_solver | done]. Qed.

Lemma ownership_ok live secret :
  ensure_secret_ownership live secret = Ok tt ->
  Forall (fun key => (l ← sec_labels live; l !! key) = (l ← sec_labels secret; l !! key)) OWNER_KEYS.
Proof.
  unfold ensure_secret_ownership. rewrite try_each_ok. intros H. eapply Forall_impl; [exact H|]. intros key.
  rewrite refuse_if_ok, negb_false_iff, bool_decide_eq_true.
  by destruct (sec_labels live), (sec_labels secret); simpl; rewrite ?lookup_empty.
Qed.

Lemma wp_upsert d o hist secret digest Q :
  secret_for d secret digest -> is_Some (sec_name secret) ->
  (forall o' tr r, (r = Ok tt -> stored (hist ++ tr) secret) -> Q o' (hist ++ tr) r) ->
  wp false (good_in d) o hist (upsert_secret (wc_namespace cfg) secret) Q.
Proof.
  intros Hs [name Hn] HQ. unfold upsert_secret. rewrite Hn. intros [[live|]|e].
  - destruct (ensure_secret_ownership live secret) as [[]|e] eqn:Ho; [|by apply HQ].
    split.
    + split_and!; [done | by exists digest | done |]. exists live. rewrite last_snoc. split; [done|]. by apply ownership_ok.
    + intros r. rewrite <- app_assoc. apply HQ. intros Hr. destruct r as [[]|]; [|done].
      eexists. split; [apply elem_of_app; right; apply elem_of_app; right; by apply list_elem_of_singleton|]. eauto.
  - split.
    + split_and!; [done | by exists digest |]. exists name. by rewrite last_snoc.
    + intros r. rewrite <- app_assoc. apply HQ. intros Hr. destruct r as [[]|]; [|done].
      eexists. split; [apply elem_of_app; right; apply elem_of_app; right; by apply list_elem_of_singleton|]. eauto.
  - by apply HQ.
Qed.

(** ** The policy loops *)

(** What a turn about [d] may plan. *)
Definition plan_for (d : Delivered) (plan : ApplyPlan) : Prop :=
  match ap_secret plan with
  | Some secret => exists digest, secret_for d secret digest /\
      plan_compile plan = (Some (JBool true), Some (JStr digest))
  | None => fst (plan_compile plan) = Some (JBool false)
  end.

(** The object a policy turn reports on. *)
Definition reports_on (d : Delivered) (kind : Kind) (ns : option string) (name : string) : Prop :=
  match d with
  | DPolicy obj => kind = KClusterSecurityPolicy /\ ns = None /\ o_name obj = Some name
  | DNamespaced obj => kind = KSecurityPolicy /\ ns = o_namespace obj /\ o_name obj = Some name
  | _ => False
  end.

Lemma secret_for_shape d secret digest :
  secret_for d secret digest -> exists name policy, sec_name secret = Some name /\ policy_label secret = Some policy /\
    (secret ← Some secret; labels ← sec_labels secret; labels !! POLICY_LABEL_KEY) = Some policy /\
    (exists obj, d = DPolicy obj \/ d = DNamespaced obj).
Proof.
  destruct d as [obj|obj|evs|]; simpl; [| |done..]; intros (p & _ & fsig & -> & _); eexists _, _; simpl; split_and!; eauto; done.
Qed.

Lemma wp_patch_status d o hist kind ns name patch Q :
  good d hist (WPatchStatus kind ns name patch) ->
  (forall tr r, Q o (hist ++ tr) r) ->
  wp false (good_in d) o hist (patch_status_dynamic kind ns name patch) Q.
Proof. intros HG HQ. split; [done|]. intros r. simpl. apply HQ. Qed.

Lemma wp_persist d o hist kind ns name plan Q :
  plan_for d plan -> reports_on d kind ns name ->
  (forall o' tr r, (is_ok r = true -> forall secret, ap_secret plan = Some secret -> stored (hist ++ tr) secret) ->
     Q o' (hist ++ tr) r) ->
  wp false (good_in d) o hist (persist_dynamic kind ns name (wc_namespace cfg) plan) Q.
Proof.
  intros Hplan Hrep HQ. unfold persist_dynamic. apply wp_bind_ok. unfold plan_for in Hplan.
  assert (Hstatus : forall hist', (forall secret, ap_secret plan = Some secret -> stored hist' secret) ->
    good d hist' (WPatchStatus kind ns name (ap_status plan))).
  { intros hist' Hst. simpl. assert (Hready : pointer (ap_status plan) ["status"; "compile"; "ready"] = Some (JBool true) ->
      exists secret digest, pointer (ap_status plan) ["status"; "compile"; "bundleDigest"] = Some (JStr digest) /\
        stored hist' secret /\ secret_for d secret digest).
    { intros Hr. unfold plan_compile in Hplan. destruct (ap_secret plan) as [secret|]; [|by rewrite Hr in Hplan].
      destruct Hplan as (digest & Hs & [= _ Hd]). exists secret, digest. by split_and!; [|apply Hst|]. }
    destruct d as [obj|obj|evs|]; [| |done..]; destruct Hrep as (? & ? & ?); by split_and!. }
  destruct (ap_secret plan) as [secret|] eqn:Hap.
  - destruct Hplan as (digest & Hs & _). destruct (secret_for_shape _ _ _ Hs) as (n & pol & Hn & _).
    eapply wp_upsert; [exact Hs | by rewrite Hn |]. intros o' tr r Hr. destruct r as [[]|e]; [|by apply HQ].
    apply wp_bind_ok. apply wp_patch_status.
    + apply Hstatus. intros ? [= <-]. by apply Hr.
    + intros tr' r'. rewrite <- app_assoc. destruct r' as [x|e]; simpl; apply HQ; [|done].
      intros _ ? [= <-]. rewrite app_assoc. by apply stored_app, Hr.
  - apply wp_ret. cbn beta iota. apply wp_bind_ok. apply wp_patch_status; [by apply Hstatus|].
    intros tr r. destruct r as [x|e]; simpl; by apply HQ.
Qed.

Lemma wp_attach d o hist plan Q :
  plan_for d plan -> (forall secret, ap_secret plan = Some secret -> stored hist secret) ->
  (forall o' hist' r, Q o' hist' r) ->
  wp false (good_in d) o hist (attach_exceptions cfg plan) Q.
Proof.
  intros Hplan Hst HQ. unfold attach_exceptions, attach_target, plan_for in *.
  destruct (ap_secret plan) as [secret|]; [|apply HQ]. destruct Hplan as (digest & Hs & _).
  destruct (secret_for_shape _ _ _ Hs) as (name & policy & Hn & Hp & Hp' & obj & Hd).
  cbn [mbind option_bind] in *. rewrite Hn. cbn [mbind option_bind] in Hp'. rewrite Hp'.
  apply wp_bind, wp_act; [done|]. intros e s _ [evs Hevs]. simpl. unfold patch_secret_exceptions.
  apply wp_bind_ok. simpl. destruct (exceptions_secret_patch _ _) as [patch|err] eqn:Hpatch; [|apply HQ].
  split; [|intros r; simpl; apply HQ]. split; [done|]. exists policy, (k_exceptions s). split; [|done].
  assert (k_exceptions s = fst (sets_after evs)) as Hset by (rewrite <- Hevs; done).
  destruct Hd as [-> | ->]; (split; [by exists evs|]); exists secret, digest; by split_and!; [apply Hst | ..].
Qed.

Lemma wp_apply_plan d o hist obj generation kind ns name plan failed :
  plan_for d plan -> reports_on d kind ns name ->
  wp false (good_in d) o hist (apply_plan cfg obj generation kind ns name plan failed) (fun _ _ _ => True).
Proof.
  intros Hplan Hrep. unfold apply_plan. apply wp_bind.
  assert (Htail : forall o, wp false (good_in d) o hist
    (if failed_status_already_recorded obj generation plan then Ret (Ok tt)
     else persisted ←! pmap_err (as_class (persist_class plan))
                         (persist_dynamic kind ns name (wc_namespace cfg) plan);
          _ ← p_note_success persisted;
          attached ←! pmap_err (as_class CExceptionPublish) (attach_exceptions cfg plan);
          _ ← p_note_success attached; Ret (Ok tt)) (fun _ _ _ => True)).
  { intros o1. destruct (failed_status_already_recorded _ _ _); [done|]. apply wp_bind_ok, wp_map_err, wp_persist; [done..|].
    intros o2 tr r Hr. destruct r as [x|e]; cbn [map_err]; [|done]. apply wp_bind, wp_modify; [done|]. intros o3 _.
    apply wp_bind_ok, wp_map_err, wp_attach; [done | by apply Hr |]. intros o4 h4 r4. destruct r4 as [y|e]; cbn [map_err]; [|done].
    apply wp_bind, wp_modify; [done|]. done. }
  destruct failed; [|apply Htail]. apply wp_modify; [done|]. intros o' _. apply Htail.
Qed.

Lemma wp_already_applied d o hist obj generation key name (Q : _ -> _ -> result Classified bool -> Prop) :
  (forall o' tr r, Q o' (hist ++ tr) r) ->
  wp false (good_in d) o hist (already_applied sha256 cfg obj generation key name) Q.
Proof.
  intros HQ. unfold already_applied. destruct (status_compile obj) as [[og ready] digest]. destruct ready.
  2: { simpl. rewrite <- (app_nil_r hist). apply HQ. }
  apply wp_bind. assert (Htail : forall o, wp false (good_in d) o hist
    (loaded ←! pmap_err (as_class CReconcile) (load_bundle_secret (wc_namespace cfg) name);
     _ ← p_note_success (snd loaded);
     Ret (Ok (should_skip_applied sha256 generation og true digest (fst loaded) (wc_trust_root cfg)))) Q).
  { intros o1. apply wp_bind_ok, wp_map_err. intros r. destruct r as [x|e]; [|apply HQ].
    intros e s _ Hd. split_and!; [done..|]. apply HQ. }
  destruct (str_empty digest); [apply Htail|]. apply wp_modify; [done|]. intros o' _. apply Htail.
Qed.

(** A decoded spec is well-formed: texts are UTF-8, numbers have their width. *)
Class SpecJsonLaws : Prop := {
  cluster_spec_ok v spec : cluster_spec_of v = Ok spec -> effects_ok (effects_of_cluster spec);
  namespaced_spec_ok v spec : namespaced_spec_of v = Ok spec -> effects_ok (effects_of_namespaced spec)
}.

Context `{EL : !Ed25519Laws E} `{SL : !SpecJsonLaws}.
Context (Hsha : forall m, len (sha256 m) = 32 /\ Forall (fun b => 0 <= b < 256) (sha256 m)).
Context (Hkey : public_key_from_secret (wc_secret_key cfg) = Ok (wc_trust_root cfg)).

Lemma require_name_ok obj kind name : require_name obj kind = Ok name -> o_name obj = Some name.
Proof. unfold require_name. destruct (o_name obj) as [n|]; [|done]. simpl. destruct (str_empty n); [done|]. by intros [= ->]. Qed.

Lemma require_namespace_ok obj kind ns : require_namespace obj kind = Ok ns -> o_namespace obj = Some ns.
Proof. unfold require_namespace. destruct (o_namespace obj) as [n|]; [|done]. simpl. destruct (str_empty n); [done|]. by intros [= ->]. Qed.

Lemma ctl_decode_spec_ok {B} (of_json : Json -> result string B) obj kind spec :
  ctl_decode_spec of_json obj kind = Ok spec -> exists v, of_json v = Ok spec.
Proof.
  unfold ctl_decode_spec. intros H. destruct (match o_data obj with JObj m => get m "spec" | _ => None end) as [v|]; [|done].
  exists v. destruct v; try done; by destruct (of_json _); simplify_eq/=.
Qed.

Lemma publishes_for d name labels compiled fx plan :
  plan_publishes sha256 (wc_trust_root cfg) compiled fx name (wc_namespace cfg) labels plan ->
  (forall secret digest, carries_policy name labels fx secret digest -> secret_for d secret digest) -> plan_for d plan.
Proof.
  unfold plan_publishes, plan_for. destruct (ap_secret plan) as [secret|]; [|by intros [-> _] _].
  intros (fsig & digest & c & _ & _ & Es & Hl & Hm & Hp) Hc. exists digest. split; [|done]. apply Hc. by exists fsig.
Qed.

Lemma failed_plan_for d name labels gen err :
  plan_for d (plan_apply_named sha256 fmt name (wc_namespace cfg) labels (failed_outcome fmt gen err) (wc_trust_root cfg)).
Proof. done. Qed.

Lemma wp_reconcile_object o hist obj :
  wp false (good_in (DPolicy obj)) o hist (reconcile_object sha256 fmt cfg obj) (fun _ _ _ => True).
Proof.
  unfold reconcile_object. apply wp_bind_ok, wp_ret. destruct (require_name obj _) as [name|] eqn:Hn; [|done]. cbn [map_err].
  assert (Hrep : reports_on (DPolicy obj) KClusterSecurityPolicy None name) by (split_and!; [done..| by eapply require_name_ok]).
  apply wp_bind_ok, wp_already_applied. intros o1 tr [[]|e]; [done| |done].
  destruct (observe_policy obj) as [p|err] eqn:Hobs; [|by apply wp_apply_plan].
  assert (Hplan : plan_for (DPolicy obj) (plan_apply sha256 fmt (op_name p) (wc_namespace cfg)
    (reconcile sha256 fmt (op_spec p) (op_generation p) (wc_secret_key cfg) (wc_library cfg) (wc_clusters cfg)) (wc_trust_root cfg))).
  { eapply publishes_for; [apply plan_named_publishes; [exact Hsha | exact Hkey |]|].
    - unfold observe_policy in Hobs. inv_ok. simpl. match goal with H : ctl_decode_spec _ _ _ = _ |- _ => apply ctl_decode_spec_ok in H as [v Hv] end.
      by eapply cluster_spec_ok.
    - intros secret digest Hc. exists p. by split. }
  apply wp_bind. revert Hplan. destruct (reconcile _ _ _ _ _ _ _) as [a|st]; intros Hplan; [|by apply wp_apply_plan].
  apply wp_modify; [done|]. intros o2 _. by apply wp_apply_plan.
Qed.

Lemma wp_reconcile_namespaced o hist obj :
  wp false (good_in (DNamespaced obj)) o hist (reconcile_namespaced_object sha256 fmt cfg obj) (fun _ _ _ => True).
Proof.
  unfold reconcile_namespaced_object. apply wp_bind_ok, wp_ret. destruct (require_name obj _) as [name|] eqn:Hn; [|done]. cbn [map_err].
  apply wp_bind_ok, wp_ret. destruct (require_namespace obj _) as [ns|] eqn:Hns; [|done]. cbn [map_err].
  assert (Hrep : reports_on (DNamespaced obj) KSecurityPolicy (Some ns) name).
  { split_and!; [done | | by eapply require_name_ok]. symmetry. by eapply require_namespace_ok. }
  apply wp_bind_ok, wp_already_applied. intros o1 tr [[]|e]; [done| |done].
  destruct (observe_namespaced_policy obj) as [p|err] eqn:Hobs; [|by apply wp_apply_plan].
  assert (Hplan : plan_for (DNamespaced obj) (plan_apply_namespaced sha256 fmt (onp_name p) (onp_namespace p) (wc_namespace cfg)
    (reconcile_namespaced sha256 fmt (onp_spec p) (onp_generation p) (wc_secret_key cfg) (wc_library cfg) (wc_clusters cfg)) (wc_trust_root cfg))).
  { eapply publishes_for; [apply plan_named_publishes; [exact Hsha | exact Hkey |]|].
    - unfold observe_namespaced_policy in Hobs. inv_ok. simpl. match goal with H : ctl_decode_spec _ _ _ = _ |- _ => apply ctl_decode_spec_ok in H as [v Hv] end.
      by eapply namespaced_spec_ok.
    - intros secret digest Hc. exists p. by split. }
  apply wp_bind. revert Hplan. destruct (reconcile_namespaced _ _ _ _ _ _ _) as [a|st]; intros Hplan; [|by apply wp_apply_plan].
  apply wp_modify; [done|]. intros o2 _. by apply wp_apply_plan.
Qed.

(** A whole turn of a policy loop. *)
Lemma wp_policy_turn o reconcile_ ev (d : Delivered) :
  (forall o obj, ev = Ok obj -> wp false (good_in d) o [] (reconcile_ obj) (fun _ _ _ => True)) ->
  wp false (good_in d) o [] (policy_turn fmt cfg reconcile_ ev) (fun _ _ _ => True).
Proof.
  intros Hrec. unfold policy_turn. apply wp_bind_ok.
  assert (Hend : forall o hist (r : Result unit), match r with
     | Ok _ => wp false (good_in d) o hist (_ ← p_publish_if_changed fmt cfg; Ret (Ok tt)) (fun _ _ (_ : Result unit) => True)
     | Err _ => True end).
  { intros o1 hist [[]|]; [|done]. apply wp_bind, wp_publish_if_changed. done. }
  destruct ev as [obj|err].
  - apply wp_bind, wp_modify; [done|]. intros o1 _. apply wp_bind, wp_modify; [done|]. intros o2 _.
    apply wp_bind. eapply wp_mono; [|by apply Hrec]. intros o3 hist3 [[]|f] _; [exact (Hend o3 hist3 (Ok tt))|].
    apply wp_note_failure. intros o4 r _. exact (Hend o4 hist3 r).
  - apply wp_note_failure. intros o4 r _. exact (Hend o4 [] r).
Qed.

(** ** The exception loop *)

Lemma sets_after_snoc evs ev : sets_after (evs ++ [ev]) = sets_step (sets_after evs) ev.
Proof. unfold sets_after. by rewrite foldl_app. Qed.

Lemma delivered_sets_step o ev : delivered_sets o -> delivered_sets (sets_step o ev).
Proof. intros [evs ->]. exists (evs ++ [ev]). by rewrite sets_after_snoc. Qed.

(** A local step that brings the sets to where the event does. *)
Lemma wp_modify_sets G o hist g ev (Q : _ -> _ -> unit -> Prop) :
  (forall s, sets (g s) = sets_step (sets s) ev) -> Q (sets_step o ev) hist tt -> wp true G o hist (modify g) Q.
Proof.
  intros Hg HQ e s Hs Hd. cbn iota in Hs. subst o. rewrite Hg. split_and!; [by apply delivered_sets_step | done..].
Qed.

Lemma targets_listed items targets unscopable :
  exception_targets items = (targets, unscopable) ->
  Forall (fun '(name, policy) => exists secret, secret ∈ items /\ sec_name secret = Some name /\ policy_label secret = Some policy) targets.
Proof.
  unfold exception_targets. intros H.
  assert (Hgen : forall l t0 u0 t u, foldl (fun '(targets, unscopable) secret =>
      match sec_name secret with
      | None => (targets, unscopable ++ ["<unnamed>"])
      | Some name => match sec_labels secret ≫= (.!! POLICY_LABEL_KEY) with
                     | None => (targets, unscopable ++ [name])
                     | Some policy => (targets ++ [(name, policy)], unscopable)
                     end
      end) (t0, u0) l = (t, u) -> (forall x, x ∈ l -> x ∈ items) ->
    Forall (fun '(name, policy) => exists secret, secret ∈ items /\ sec_name secret = Some name /\ policy_label secret = Some policy) t0 ->
    Forall (fun '(name, policy) => exists secret, secret ∈ items /\ sec_name secret = Some name /\ policy_label secret = Some policy) t).
  { induction l as [|secret l IH]; intros t0 u0 t u Hf Hin Ht0; [by injection Hf as <- _|]. simpl in Hf.
    assert (Hl : forall x, x ∈ l -> x ∈ items) by (intros x Hx; apply Hin; set_solver).
    destruct (sec_name secret) as [name|] eqn:Hn; [|by eapply IH].
    destruct (sec_labels secret ≫= _) as [policy|] eqn:Hp; [|by eapply IH].
    eapply IH; [exact Hf | done |]. apply Forall_app. split; [done|]. constructor; [|done].
    exists secret. split_and!; [apply Hin; set_solver | done..]. }
  eapply Hgen; [exact H | done | done].
Qed.

(** Patching the listed Secrets with the current set. *)
Lemma wp_publish_each evs o hist ns sel items targets patched refused Q :
  TList ns sel (Ok items) ∈ hist ->
  Forall (fun '(name, policy) => exists secret, secret ∈ items /\ sec_name secret = Some name /\ policy_label secret = Some policy) targets ->
  (forall tr r, Q o (hist ++ tr) r) ->
  wp true (good_in (DExceptions evs)) o hist
    (publish_each fmt (wc_namespace cfg) (wc_secret_key cfg) (snapshot_exceptions (fst (sets_after evs))) targets patched refused) Q.
Proof.
  intros Hin Htargets. revert hist patched refused Hin.
  induction targets as [|[name policy] targets IH]; intros hist patched refused Hin HQ; simpl.
  - rewrite <- (app_nil_r hist). apply HQ.
  - apply Forall_cons in Htargets as [(secret & Hsec & Hn & Hp) Htargets]. specialize (IH Htargets).
    destruct (exceptions_secret_patch _ _) as [patch|err] eqn:Hpatch; [|by apply IH]. split.
    + split; [done|]. exists policy, (fst (sets_after evs)). split; [|done]. split; [done|]. by exists ns, sel, items, secret.
    + intros [[]|e]; (apply IH; [set_solver | intros tr r; rewrite <- app_assoc; apply HQ]).
Qed.

Lemma wp_note_refused G o hist causes (Q : _ -> _ -> Result unit -> Prop) :
  (forall r, Q o hist r) -> wp true G o hist (note_refused causes) Q.
Proof.
  intros HQ. induction causes as [|c causes IH]; [apply HQ|]. apply wp_bind_ok, wp_note_failure.
  intros o' [[]|e] Ho; rewrite (Ho eq_refl); [exact IH | apply HQ].
Qed.

Lemma wp_publish_exceptions evs hist (Q : _ -> _ -> Result unit -> Prop) :
  (forall hist r, Q (sets_after evs) hist r) ->
  wp true (good_in (DExceptions evs)) (sets_after evs) hist (publish_exceptions fmt cfg) Q.
Proof.
  intros HQ. unfold publish_exceptions. apply wp_bind, wp_act; [done|]. intros e s Hs _. apply wp_ret.
  assert (k_exceptions s = fst (sets_after evs)) as -> by (rewrite <- (Hs eq_refl); done). rewrite (Hs eq_refl).
  apply wp_bind. intros [items|err].
  - destruct (exception_targets items) as [targets unscopable] eqn:Ht. apply wp_bind. eapply wp_publish_each.
    + apply elem_of_app. right. by apply list_elem_of_singleton.
    + by eapply targets_listed.
    + intros tr [patched refused]. cbn beta iota. apply wp_bind, wp_modify; [done|]. intros o1 Ho1. rewrite (Ho1 eq_refl).
      apply wp_bind, wp_modify.
      * intros s'. done.
      * intros o2 Ho2. rewrite (Ho2 eq_refl). apply wp_note_refused. intros r. apply HQ.
  - apply wp_ret. cbn beta iota. apply wp_note_failure. intros o' r Ho. rewrite (Ho eq_refl). apply HQ.
Qed.

Lemma disposition_active obj now status live :
  exception_disposition fmt obj now = (status, live) -> pes_active status = true ->
  exists spec, ctl_decode_spec exception_spec_of obj "PolicyException" = Ok spec /\ validate_exception spec now = Ok tt.
Proof.
  unfold exception_disposition. destruct (observe_exception obj) as [ob|err] eqn:Ho; [|by intros [= <- _]].
  unfold reconcile_exception. destruct (validate_exception _ _) as [[]|err] eqn:Hv; [|by intros [= <- _]].
  intros _ _. exists (oe_spec ob). split; [|done]. unfold observe_exception in Ho. by inv_ok.
Qed.

(** Applying one object of the last event. *)
Lemma wp_apply_exception evs now ev target obj o hist Q :
  (ev = EvApply obj /\ target = Published \/ ev = EvInitApply obj /\ target = Staging) -> last evs = Some (now, ev) ->
  (forall tr r, Q (sets_step o (now, ev)) (hist ++ tr) r) ->
  wp true (good_in (DExceptions evs)) o hist (apply_exception_object fmt target obj now) Q.
Proof.
  intros Hev Hlast HQ. unfold apply_exception_object.
  assert (Hnone : object_key obj = None -> forall r, Q o hist r).
  { intros Hk r. specialize (HQ [] r). rewrite app_nil_r in HQ. destruct o as [a b].
    destruct Hev as [[-> _]|[-> _]]; simpl in HQ; by rewrite Hk in HQ. }
  unfold object_key in Hnone. apply wp_bind_ok, wp_ret. destruct (require_name obj _) as [name|] eqn:Hn; [|by apply Hnone].
  cbn [map_err]. apply wp_bind_ok, wp_ret. destruct (require_namespace obj _) as [ns|] eqn:Hns; [|by apply Hnone]. cbn [map_err].
  destruct (exception_disposition fmt obj now) as [status live] eqn:Hd.
  apply wp_bind, (wp_modify_sets _ _ _ _ (now, ev)).
  - intros s. unfold set_exception, sets. destruct Hev as [[-> ->]|[-> ->]]; simpl; unfold object_key; rewrite Hn, Hns, Hd; done.
  - apply wp_map_err. split; [|intros r; simpl; apply HQ]. split; [done|]. exists now, obj.
    split_and!; [destruct Hev as [[-> _]|[-> _]]; auto | symmetry; by eapply require_namespace_ok | by eapply require_name_ok |].
    simpl. intros [= Ha]. by eapply disposition_active.
Qed.

Lemma wp_handle_exception evs now ev hist (Q : _ -> _ -> Result unit -> Prop) :
  (forall hist r, Q (sets_after (evs ++ [(now, ev)])) hist r) ->
  wp true (good_in (DExceptions (evs ++ [(now, ev)]))) (sets_after evs) hist (handle_exception_event fmt cfg now ev) Q.
Proof.
  intros HQ. unfold handle_exception_event. apply wp_bind_ok.
  assert (Hlast : last (evs ++ [(now, ev)]) = Some (now, ev)) by apply last_snoc.
  assert (Hpub : forall hist, wp true (good_in (DExceptions (evs ++ [(now, ev)]))) (sets_after (evs ++ [(now, ev)])) hist
    (_ ←! Ret (Ok tt); publish_exceptions fmt cfg) Q).
  { intros h. apply wp_bind_ok, wp_ret. by apply wp_publish_exceptions. }
  assert (Hobj : forall obj target, (ev = EvApply obj /\ target = Published \/ ev = EvInitApply obj /\ target = Staging) ->
    wp true (good_in (DExceptions (evs ++ [(now, ev)]))) (sets_after evs) hist
      (_ ←! (r ← apply_exception_object fmt target obj now;
             match r with
             | Ok requested => _ ← p_note_success requested; Ret (Ok tt)
             | Err failure => p_note_failure (cl_class failure) (fmt (error_to_string (cl_err failure)))
             end); publish_exceptions fmt cfg) Q).
  { intros obj target Hev. apply wp_bind_ok, wp_bind. eapply wp_apply_exception; [exact Hev | exact Hlast |].
    rewrite <- sets_after_snoc. intros tr [r|f].
    - apply wp_bind, wp_modify; [done|]. intros o1 Ho1. rewrite (Ho1 eq_refl). by apply wp_publish_exceptions.
    - apply wp_note_failure. intros o1 [[]|e] Ho1; rewrite (Ho1 eq_refl); [by apply wp_publish_exceptions | apply HQ]. }
  destruct ev as [obj|obj| |obj|].
  - apply wp_ret. apply Hobj. by left.
  - unfold receive_event. destruct (o_namespace obj) as [ns|] eqn:Ens; [destruct (o_name obj) as [n|] eqn:En|].
    + apply wp_bind, (wp_modify_sets _ _ _ _ (now, EvDelete obj)); [intros s; simpl; by rewrite Ens, En|].
      apply wp_ret. rewrite <- sets_after_snoc. apply Hpub.
    + apply wp_bind_ok, wp_note_failure. intros o1 r Ho1. rewrite (Ho1 eq_refl).
      assert (Es : sets_after (evs ++ [(now, EvDelete obj)]) = sets_after evs).
      { rewrite sets_after_snoc. destruct (sets_after evs). simpl. by rewrite Ens, En. }
      destruct r as [[]|e]; [apply wp_ret; rewrite <- Es; apply Hpub | rewrite <- Es; apply HQ].
    + apply wp_bind_ok, wp_note_failure. intros o1 r Ho1. rewrite (Ho1 eq_refl).
      assert (Es : sets_after (evs ++ [(now, EvDelete obj)]) = sets_after evs).
      { rewrite sets_after_snoc. destruct (sets_after evs). simpl. by rewrite Ens. }
      destruct r as [[]|e]; [apply wp_ret; rewrite <- Es; apply Hpub | rewrite <- Es; apply HQ].
  - apply wp_bind, (wp_modify_sets _ _ _ _ (now, EvInit)); [done|]. apply wp_ret. rewrite <- sets_after_snoc. apply Hpub.
  - apply wp_ret. apply Hobj. by right.
  - apply wp_bind, (wp_modify_sets _ _ _ _ (now, EvInitDone)); [done|]. apply wp_ret. rewrite <- sets_after_snoc. apply Hpub.
Qed.

Lemma wp_exception_turn evs now ev :
  wp true (good_in (DExceptions (evs ++ [(now, ev)]))) (sets_after evs) [] (exception_turn fmt cfg now (Ok ev))
    (fun o _ _ => o = sets_after (evs ++ [(now, ev)])).
Proof.
  unfold exception_turn. apply wp_bind_ok, wp_bind, wp_modify; [done|]. intros o1 Ho1. rewrite (Ho1 eq_refl).
  apply wp_handle_exception. intros hist [[]|e]; [|done]. apply wp_bind, wp_publish_if_changed.
  intros o2 Ho2. by rewrite (Ho2 eq_refl).
Qed.

Lemma wp_exception_error d o now err :
  wp true (good_in d) o [] (exception_turn fmt cfg now (Err err)) (fun o' _ _ => o' = o).
Proof.
  unfold exception_turn. apply wp_bind_ok, wp_note_failure. intros o1 [[]|e] Ho1; rewrite (Ho1 eq_refl); [|done].
  apply wp_bind, wp_publish_if_changed. intros o2 Ho2. by rewrite (Ho2 eq_refl).
Qed.

(** ** Every reachable state *)

Definition turn_inv (y : CSys) (l : Loop) (t : Turn) : Prop :=
  match l with
  | LException =>
      (tn_cause t = DExceptions (y_events y) \/ tn_cause t = DError) /\
      wp true (good_in (tn_cause t)) (sets (y_ctl y)) (tn_hist t) (tn_prog t) (fun o _ _ => o = sets_after (y_events y))
  | _ => (forall evs, tn_cause t <> DExceptions evs) /\
      exists o, wp false (good_in (tn_cause t)) o (tn_hist t) (tn_prog t) (fun _ _ _ => True)
  end.

Definition log_inv (y : CSys) : Prop :=
  Forall (fun '(d, hist, w) => good d hist w /\ forall evs, d = DExceptions evs -> evs `prefix_of` y_events y) (y_log y).

Record csys_inv (y : CSys) : Prop := {
  ci_sets : delivered_sets (sets (y_ctl y));
  ci_turns l t : y_turn y l = Some t -> turn_inv y l t;
  ci_idle : y_turn y LException = None -> sets (y_ctl y) = sets_after (y_events y);
  ci_log : log_inv y
}.

(** One step of a program keeps its [wp] and logs only good writes. *)
Lemma wp_step {A} own G o hist (p : prog A) Q s tr s' p' :
  wp own G o hist p Q -> (own = true -> sets s = o) -> delivered_sets (sets s) -> pstep s p tr s' p' ->
  delivered_sets (sets s') /\ (own = false -> sets s' = sets s) /\
  (exists o', wp own G o' (hist ++ tr) p' Q /\ (own = true -> o' = sets s')) /\
  Forall (fun t => match t with TWrite w _ => exists o, G o hist w | _ => True end) tr.
Proof.
  intros Hwp Ho Hd Hstep. destruct Hstep as [e s f k|s ns n k r|s ns sel k r|s w k r]; simpl in Hwp.
  - assert (Ho' : if own then sets s = o else True) by (destruct own; auto). destruct (Hwp e s Ho' Hd) as (Hd' & Hs & Hk).
    split_and!; [done..| |done]. exists (sets (f e s)). by rewrite app_nil_r.
  - split_and!; [done..| |by constructor]. exists o. split; [apply Hwp|]. intros Ht. by rewrite Ho.
  - split_and!; [done..| |by constructor]. exists o. split; [apply Hwp|]. intros Ht. by rewrite Ho.
  - destruct Hwp as [HG Hk]. split_and!; [done..| |]; [|constructor; [by exists o | done]].
    exists o. split; [apply Hk|]. intros Ht. by rewrite Ho.
Qed.

Lemma log_inv_more y evs : log_inv y -> Forall (fun '(d, hist, w) => good d hist w /\
  forall evs', d = DExceptions evs' -> evs' `prefix_of` y_events y ++ evs) (y_log y).
Proof.
  intros H. eapply Forall_impl; [exact H|]. intros [[d hist] w] [Hg Hp]. split; [done|].
  intros evs' Hd. by apply prefix_app_r, Hp.
Qed.

(** The events a turn's cause may name are the ones received. *)
Lemma turn_cause y l t evs : turn_inv y l t -> tn_cause t = DExceptions evs -> evs = y_events y.
Proof.
  intros Ht Hc. destruct l; simpl in Ht; [by destruct Ht as [Hd _]; destruct (Hd evs)..|].
  destruct Ht as [[Hd|Hd] _]; by rewrite Hd in Hc; simplify_eq.
Qed.

Lemma writes_good y l t tr :
  turn_inv y l t ->
  Forall (fun x => match x with TWrite w _ => exists o, good_in (tn_cause t) o (tn_hist t) w | _ => True end) tr ->
  Forall (fun '(d, hist, w) => good d hist w /\ forall evs, d = DExceptions evs -> evs `prefix_of` y_events y)
    (writes_of (tn_cause t) (tn_hist t) tr).
Proof.
  intros Ht Htr. unfold writes_of. apply Forall_forall. intros [[d hist] w] Hin.
  apply list_elem_of_omap in Hin as (x & Hx & Hw). rewrite Forall_forall in Htr. specialize (Htr x Hx).
  destruct x as [| |w' r]; [done..|]. injection Hw as <- <- <-. destruct Htr as [o0 Hg]. split; [done|].
  intros evs Hc. by rewrite (turn_cause _ _ _ _ Ht Hc).
Qed.

(** A loop runs: the others' turns are not disturbed. *)
Lemma run_preserves y l t tr s p :
  csys_inv y -> y_turn y l = Some t -> pstep (y_ctl y) (tn_prog t) tr s p ->
  csys_inv (add_log (writes_of (tn_cause t) (tn_hist t) tr)
              (set_turn l (Some {| tn_cause := tn_cause t; tn_hist := tn_hist t ++ tr; tn_prog := p |}) (set_ctl s y))).
Proof.
  intros [Hsets Hturns Hidle Hlog] Ht Hstep. pose proof (Hturns l t Ht) as Hinv.
  assert (exists own, own = bool_decide (l = LException)) as [own Eown] by eauto.
  assert (Hs' : delivered_sets (sets s) /\ (l <> LException -> sets s = sets (y_ctl y)) /\
    turn_inv (set_ctl s y) l {| tn_cause := tn_cause t; tn_hist := tn_hist t ++ tr; tn_prog := p |} /\
    Forall (fun x => match x with TWrite w _ => exists o, good_in (tn_cause t) o (tn_hist t) w | _ => True end) tr).
  { destruct l; simpl in Hinv.
    1, 2: destruct Hinv as [Hc [o Hwp]]; destruct (wp_step _ _ _ _ _ _ _ _ _ _ Hwp ltac:(done) Hsets Hstep) as (H1 & H2 & (o' & H3 & _) & H4);
      split_and!; [done | by intros _; apply H2 | by simpl; eauto | done].
    destruct Hinv as [Hc Hwp]. destruct (wp_step _ _ _ _ _ _ _ _ _ _ Hwp ltac:(done) Hsets Hstep) as (H1 & _ & (o' & H3 & H3') & H4).
    split_and!; [done..| |done]. split; [done|]. simpl. rewrite <- (H3' eq_refl). exact H3. }
  destruct Hs' as (Hd & Hsame & Hthis & Htr). split.
  - done.
  - intros l' t' Hl'. simpl in Hl'. case_bool_decide as Hl; [subst l'; by injection Hl' as <-|].
    specialize (Hturns l' t' Hl'). destruct l'; try done. simpl in *. rewrite Hsame; [done | congruence].
  - intros Hn. simpl in Hn. case_bool_decide as Hl; [done|]. simpl. rewrite Hsame by congruence. by apply Hidle.
  - unfold log_inv. simpl. apply Forall_app. split; [done|]. by apply (writes_good y l).
Qed.

Lemma start_preserves y l t :
  csys_inv y -> y_turn y l = None -> turn_inv y l t -> csys_inv (set_turn l (Some t) y).
Proof.
  intros [Hsets Hturns Hidle Hlog] Hn Ht. split; [done| | |done].
  - intros l' t' Hl'. simpl in Hl'. case_bool_decide as Hl; [subst l'; injection Hl' as <-; by destruct l|].
    specialize (Hturns l' t' Hl'). by destruct l'.
  - simpl. case_bool_decide; done.
Qed.

Lemma csys_step_inv y y' : csys_inv y -> csys_step y y' -> csys_inv y'.
Proof.
  intros Hinv Hstep. destruct Hstep as [y ev _ Hn|y ev _ Hn|y now ev _ Hn|y now err _ Hn|y l t tr s p _ Ht Hp|y l t _ Ht Hp|y l t err _ Ht Hp|y l _ Hn|y e _].
  - apply start_preserves; [done..|]. split; [by destruct ev|]. exists (sets_after []). apply wp_policy_turn.
    intros o obj ->. apply wp_reconcile_object.
  - apply start_preserves; [done..|]. split; [by destruct ev|]. exists (sets_after []). apply wp_policy_turn.
    intros o obj ->. apply wp_reconcile_namespaced.
  - destruct Hinv as [Hsets Hturns Hidle Hlog]. split.
    + done.
    + intros l t Hl. simpl in Hl. case_bool_decide as E1; [|specialize (Hturns l t Hl); by destruct l].
      subst l. injection Hl as <-. split; [by left|]. simpl. rewrite (Hidle Hn). apply wp_exception_turn.
    + done.
    + exact (log_inv_more y [(now, ev)] Hlog).
  - apply start_preserves; [done..|]. split; [by right|]. cbn [turn tn_cause tn_hist tn_prog]. eapply wp_mono; [|apply wp_exception_error].
    intros o h r ->. by apply Hinv.
  - by apply run_preserves.
  - pose proof (ci_turns _ Hinv _ _ Ht) as Hti. destruct Hinv as [Hsets Hturns Hidle Hlog]. split; [done| | |done].
    + intros l' t' Hl'. simpl in Hl'. case_bool_decide; [done|]. specialize (Hturns l' t' Hl'). by destruct l'.
    + intros Hx. simpl in Hx. case_bool_decide as E1; [|by apply Hidle]. subst l. destruct Hti as [_ Hwp]. by rewrite Hp in Hwp.
  - destruct Hinv as [Hsets Hturns Hidle Hlog]. split; [done| |done|done].
    intros l' t' Hl'. specialize (Hturns l' t' Hl'). by destruct l'.
  - destruct Hinv as [Hsets Hturns Hidle Hlog]. split; [done| |done|done].
    intros l' t' Hl'. specialize (Hturns l' t' Hl'). by destruct l'.
  - assert (Hs : sets (ctl_status_tick e (y_ctl y)) = sets (y_ctl y)).
    { unfold ctl_status_tick. by match goal with |- context [ctl_publish ?a ?b ?c ?h] => destruct (ctl_publish a b c h) as [[? ?] ?] end. }
    destruct Hinv as [Hsets Hturns Hidle Hlog]. split; simpl; rewrite ?Hs; try done.
    intros l' t' Hl'. specialize (Hturns l' t' Hl'). destruct l'; simpl in *; by rewrite ?Hs.
Qed.

Lemma csys_reachable_inv y : csys_reachable y -> csys_inv y.
Proof.
  intros Hr. unfold csys_reachable in Hr. revert Hr. apply (rtc_ind_r (fun y => csys_inv y)).
  - split; [by exists [] | done | done | constructor].
  - intros y1 y2 _ Hs Hi. by eapply csys_step_inv.
Qed.

End loops.
