(* ===== verification/ControllerRun.v ===== *)
(** * The controller against an API server

    An API server that does what it is asked: Secrets and statuses as JSON merge patches
    (RFC 7386) leave them. The programs of [Controller] run against it, one turn at a
    time ([exec]) or interleaved step by step ([drive]), which shows that a policy object
    converges in one turn, and what two interleavings leave behind. The first part says
    what the published set of exceptions is, declaratively. *)

From S2P Require Import Prelude RustStd RustText Ids Api Policy Wire Encode Febp Wasm Compiler Envelope Program.
From S2P Require Import Crypto Journal Encoding Json Bundle Webhook AgentSource Publish Health Controller ControllerLoops.

(** ** The published set, from the events *)

(** Around the last element that satisfies [f]: what came before it and after it. *)
Fixpoint rsplit {A} (f : A -> bool) (l : list A) : option (list A * list A) :=
  match l with
  | [] => None
  | x :: l' =>
      match rsplit f l' with
      | Some (b, a) => Some (x :: b, a)
      | None => if f x then Some ([], l') else None
      end
  end.

Lemma rsplit_snoc {A} (f : A -> bool) l x :
  rsplit f (l ++ [x]) =
  if f x then Some (l, []) else match rsplit f l with Some (b, a) => Some (b, a ++ [x]) | None => None end.
Proof.
  induction l as [|y l IH]; simpl; [by destruct (f x)|]. rewrite IH. destruct (f x); [done|].
  destruct (rsplit f l) as [[b a]|]; [done|]. by destruct (f y).
Qed.

Section sets.
Context `{S : SpecJson} (fmt : msg -> string).

Definition is_done (ev : Z * WatcherEvent) : bool := match snd ev with EvInitDone => true | _ => false end.
Definition is_init (ev : Z * WatcherEvent) : bool := match snd ev with EvInit => true | _ => false end.

(** What an event says about the object [key]: live with this spec, or not live. *)
Definition said_live (key : string) (ev : Z * WatcherEvent) : option (option PolicyExceptionSpec) :=
  match ev with
  | (now, EvApply obj) =>
      if bool_decide (object_key obj = Some key) then Some (snd (exception_disposition fmt obj now)) else None
  | (_, EvDelete obj) =>
      if bool_decide ((ns ← o_namespace obj; n ← o_name obj; Some (exception_key ns n)) = Some key) then Some None else None
  | _ => None
  end.
Definition said_relisted (key : string) (ev : Z * WatcherEvent) : option (option PolicyExceptionSpec) :=
  match ev with
  | (now, EvInitApply obj) =>
      if bool_decide (object_key obj = Some key) then Some (snd (exception_disposition fmt obj now)) else None
  | _ => None
  end.

(** The last word of a relist on [key], nothing said being not live. *)
Definition relisted (evs : list (Z * WatcherEvent)) (key : string) : option PolicyExceptionSpec :=
  let since := match rsplit is_init evs with Some (_, since) => since | None => evs end in
  default None (last (omap (said_relisted key) since)).

(** The exception [key] as the events leave it: the last change since the last complete
    relist, or what that relist said. A relist in progress says nothing yet. *)
Definition live_at (evs : list (Z * WatcherEvent)) (key : string) : option PolicyExceptionSpec :=
  match rsplit is_done evs with
  | None => default None (last (omap (said_live key) evs))
  | Some (before, since) => default (relisted before key) (last (omap (said_live key) since))
  end.

Lemma put_live_lookup k live set key :
  put_live k live set !! key = if bool_decide (k = Some key) then live else set !! key.
Proof.
  destruct k as [k|]; simpl; [|done]. destruct (base.decide (k = key)) as [->|Hne].
  - rewrite bool_decide_true by done. destruct live; [apply lookup_insert_eq | apply lookup_delete_eq].
  - rewrite bool_decide_false by congruence. destruct live; [by apply lookup_insert_ne | by apply lookup_delete_ne].
Qed.

Lemma omap_snoc {A B} (f : A -> option B) l x : omap f (l ++ [x]) = omap f l ++ (match f x with Some y => [y] | None => [] end).
Proof. rewrite omap_app. simpl. by destruct (f x). Qed.

(** One more event, seen from the list of words on [key]. *)
Lemma last_word {A B} (f : A -> option B) l x d :
  default d (last (omap f (l ++ [x]))) = match f x with Some y => y | None => default d (last (omap f l)) end.
Proof. rewrite omap_snoc. destruct (f x); [by rewrite last_snoc | by rewrite app_nil_r]. Qed.

Lemma relisted_snoc evs ev key :
  relisted (evs ++ [ev]) key =
  if is_init ev then None else match said_relisted key ev with Some v => v | None => relisted evs key end.
Proof.
  unfold relisted. rewrite rsplit_snoc. destruct (is_init ev) eqn:Hi; [done|].
  destruct (rsplit is_init evs) as [[b a]|]; apply last_word.
Qed.

Lemma live_at_snoc evs ev key :
  live_at (evs ++ [ev]) key =
  if is_done ev then relisted evs key else match said_live key ev with Some v => v | None => live_at evs key end.
Proof.
  unfold live_at. rewrite rsplit_snoc. destruct (is_done ev) eqn:Hi; [done|].
  destruct (rsplit is_done evs) as [[b a]|]; apply last_word.
Qed.

Lemma sets_exact evs key :
  fst (sets_after fmt evs) !! key = live_at evs key /\ snd (sets_after fmt evs) !! key = relisted evs key.
Proof.
  induction evs as [|[now ev] evs [IHl IHr]] using rev_ind; [done|].
  rewrite sets_after_snoc, live_at_snoc, relisted_snoc. destruct (sets_after fmt evs) as [live staged]. simpl in IHl, IHr.
  destruct ev as [obj|obj| |obj|]; simpl; rewrite ?put_live_lookup, ?lookup_empty; (split; [|done || by case_bool_decide]);
    try done; by case_bool_decide.
Qed.

(** Only valid exceptions are ever live. *)
Lemma live_is_valid evs key spec : live_at evs key = Some spec -> exists t, validate_exception spec t = Ok tt.
Proof.
  assert (Hd : forall obj now, snd (exception_disposition fmt obj now) = Some spec -> exists t, validate_exception spec t = Ok tt).
  { intros obj now. unfold exception_disposition. destruct (observe_exception obj) as [ob|]; [|done].
    unfold reconcile_exception. destruct (validate_exception _ _) as [[]|] eqn:Hv; [|done]. intros [= <-]. by exists now. }
  assert (Hr : forall evs, relisted evs key = Some spec -> exists t, validate_exception spec t = Ok tt).
  { induction evs0 as [|[now ev] evs0 IH] using rev_ind; [done|]. rewrite relisted_snoc. destruct ev; simpl; try done.
    case_bool_decide; [apply Hd | done]. }
  revert spec Hd Hr. induction evs as [|[now ev] evs IH] using rev_ind; [done|]. intros spec Hd Hr. rewrite live_at_snoc.
  destruct ev; simpl; try (apply Hr); try (by apply IH); case_bool_decide; try done; [apply Hd | by apply IH | by apply IH].
Qed.
End sets.

Section world.
Context `{E : Ed25519} `{X : ExceptionsJson} `{W : ExceptionsWriter} `{S : SpecJson} `{T : JsonText}.
Context (sha256 : list Z -> list Z) (fmt : msg -> string) (cfg : WatchConfig).
Context `{EL : !Ed25519Laws E} `{SL : !SpecJsonLaws} `{XL : !ExceptionsCodec X W}.
Context (Hsha : forall m, len (sha256 m) = 32 /\ Forall (fun b => 0 <= b < 256) (sha256 m)).
Context (Hkey : public_key_from_secret (wc_secret_key cfg) = Ok (wc_trust_root cfg)).

(** A patch that puts this envelope into a Secret and drops the unsigned list. *)
Definition exceptions_patch_of (fsig : list Z) : Json :=
  JObj [("data", JObj [(EXCEPTIONS_FSIG_KEY, JStr (string_of_bytes (b64_encode fsig))); (EXCEPTIONS_JSON_KEY, JNull)])].

(** What both planes hold once they have read the patched list. *)
Definition list_loads (patch : Json) (l : list PolicyExceptionSpec) : Prop :=
  exists fsig payload, patch = exceptions_patch_of fsig /\ exceptions_of_json payload = Ok l /\
    verify_exceptions_fsig sha256 fsig (wc_trust_root cfg) = Ok payload /\
    load_exceptions_source sha256 fsig (wc_trust_root cfg) = Ok payload.

Lemma patch_loads l patch : exceptions_secret_patch l (wc_secret_key cfg) = Ok patch -> list_loads patch l.
Proof.
  unfold exceptions_secret_patch. intros (fsig & Hf & [= <-])%bind_ok.
  destruct (published_list_loads sha256 Hsha _ _ _ _ Hf Hkey) as (payload & Hj & Hv & Ha). by exists fsig, payload.
Qed.

(** Each exception of a policy's list is live in [set] and names that policy. *)
Lemma scoped_list_valid evs set policy spec :
  (forall key, set !! key = live_at fmt evs key) ->
  spec ∈ exceptions_for_policy (snapshot_exceptions set) policy ->
  policy ∈ et_policies (pe_target spec) /\ exists key t, live_at fmt evs key = Some spec /\ validate_exception spec t = Ok tt.
Proof.
  intros Hset Hin. assert (Hs : spec ∈ snapshot_exceptions set).
  { apply list_elem_of_In in Hin. apply filter_In in Hin as [Hin _]. by apply list_elem_of_In. }
  unfold snapshot_exceptions in Hs. apply list_elem_of_fmap in Hs as ([key spec'] & -> & Hk%btree_iter_elem).
  simpl in *. rewrite Hset in Hk. destruct (live_is_valid _ _ _ _ Hk) as [t Ht].
  split; [by eapply exceptions_for_policy_scoped | by exists key, t].
Qed.

End world.

(** ** An API server *)

(** [Map::insert] and [Map::remove]. *)
Fixpoint put_entry (m : list (string * Json)) (key : string) (v : Json) : list (string * Json) :=
  match m with
  | [] => [(key, v)]
  | (k, v') :: m' => if str_eqb k key then (key, v) :: m' else (k, v') :: put_entry m' key v
  end.
Definition remove_entry (m : list (string * Json)) (key : string) : list (string * Json) :=
  List.filter (fun kv => negb (str_eqb (fst kv) key)) m.

(** JSON merge patch (RFC 7386). *)
Fixpoint merge_patch (target patch : Json) : Json :=
  match patch with
  | JObj entries =>
      JObj ((fix go es acc :=
               match es with
               | [] => acc
               | (k, v) :: es' =>
                   go es' (match v with
                           | JNull => remove_entry acc k
                           | _ => put_entry acc k (merge_patch (default JNull (get acc k)) v)
                           end)
               end) entries (match target with JObj m => m | _ => [] end))
  | _ => patch
  end.

(** The Secrets of the controller's namespace by name, and the statuses written. *)
Record Api := { api_secrets : gmap string Secret; api_statuses : list (Kind * option string * string * Json) }.

(** A merge of a planned Secret: labels and data key by key. *)
Definition merge_secret (planned live : Secret) : Secret :=
  {| sec_name := sec_name live; sec_namespace := sec_namespace live;
     sec_labels := Some (default ∅ (sec_labels planned) ∪ default ∅ (sec_labels live));
     sec_type := match sec_type planned with Some t => Some t | None => sec_type live end;
     sec_data := Some (default ∅ (sec_data planned) ∪ default ∅ (sec_data live)) |}.

(** A merge of [data] entries given as base64 text or [null]. *)
Definition merge_entry (d : gmap string (list Z)) (kv : string * Json) : gmap string (list Z) :=
  match kv with
  | (k, JStr b64) => match b64_decode b64 with Ok bytes => <[k := bytes]> d | Err _ => d end
  | (k, _) => delete k d
  end.
Definition merge_data (patch : Json) (live : Secret) : Secret :=
  {| sec_name := sec_name live; sec_namespace := sec_namespace live; sec_labels := sec_labels live;
     sec_type := sec_type live;
     sec_data := Some (foldl merge_entry (default ∅ (sec_data live))
                         (default [] (value_get patch "data" ≫= as_object))) |}.

Definition serve_write (a : Api) (w : Write) : Api * result string unit :=
  let set name secret := {| api_secrets := <[name := secret]> (api_secrets a); api_statuses := api_statuses a |} in
  match w with
  | WCreateSecret _ secret =>
      match sec_name secret with
      | None => (a, Err "name is required")
      | Some name => match api_secrets a !! name with
                     | Some _ => (a, Err "already exists")
                     | None => (set name secret, Ok tt)
                     end
      end
  | WPatchSecret _ name secret =>
      match api_secrets a !! name with
      | None => (a, Err "not found")
      | Some live => (set name (merge_secret secret live), Ok tt)
      end
  | WPatchData _ name patch =>
      match api_secrets a !! name with
      | None => (a, Err "not found")
      | Some live => (set name (merge_data patch live), Ok tt)
      end
  | WPatchStatus kind ns name patch =>
      ({| api_secrets := api_secrets a; api_statuses := api_statuses a ++ [(kind, ns, name, patch)] |}, Ok tt)
  end.

Definition managed (secret : Secret) : bool :=
  bool_decide ((labels ← sec_labels secret; labels !! MANAGED_BY_KEY) = Some MANAGED_BY_VALUE).

Definition serve_list (a : Api) : list Secret := List.filter managed (map snd (btree_iter (api_secrets a))).

(** A program run to its end with nothing else going on. *)
Fixpoint exec {A} (env : Env) (s : Ctl) (a : Api) (p : prog A) : Ctl * Api * list Tr * A :=
  match p with
  | Ret x => (s, a, [], x)
  | Act f k => exec env (f env s) a (k env s)
  | AskGet ns n k =>
      let r := Ok (api_secrets a !! n) in
      let '(s, a, tr, x) := exec env s a (k r) in (s, a, TGet ns n r :: tr, x)
  | AskList ns sel k =>
      let r := Ok (serve_list a) in
      let '(s, a, tr, x) := exec env s a (k r) in (s, a, TList ns sel r :: tr, x)
  | AskWrite w k =>
      let '(a, r) := serve_write a w in
      let '(s, a, tr, x) := exec env s a (k r) in (s, a, TWrite w r :: tr, x)
  end.

(** ** Interleavings, driven *)

(** One step of a program against the server. *)
Definition advance {A} (env : Env) (s : Ctl) (a : Api) (p : prog A) : option (list Tr * Ctl * Api * prog A) :=
  match p with
  | Ret _ => None
  | Act f k => Some ([], f env s, a, k env s)
  | AskGet ns n k => let r := Ok (api_secrets a !! n) in Some ([TGet ns n r], s, a, k r)
  | AskList ns sel k => let r := Ok (serve_list a) in Some ([TList ns sel r], s, a, k r)
  | AskWrite w k => let '(a, r) := serve_write a w in Some ([TWrite w r], s, a, k r)
  end.

Inductive DriveAction :=
| AGivePolicy (obj : DynamicObject)
| AGiveEvent (now : Z) (ev : WatcherEvent)
| ARun (l : Loop)
| ADone (l : Loop).

Section drive.
Context `{E : Ed25519} `{W : ExceptionsWriter} `{S : SpecJson} `{T : JsonText}.
Context (sha256 : list Z -> list Z) (fmt : msg -> string) (cfg : WatchConfig) (env : Env).

Definition drive1 (ya : CSys * Api) (act : DriveAction) : option (CSys * Api) :=
  let '(y, a) := ya in
  match y_over y, act with
  | Some _, _ => None
  | None, AGivePolicy obj =>
      match y_turn y LCluster with
      | Some _ => None
      | None => Some (set_turn LCluster (Some (turn (DPolicy obj) (cluster_turn sha256 fmt cfg (Ok obj)))) y, a)
      end
  | None, AGiveEvent now ev =>
      match y_turn y LException with
      | Some _ => None
      | None => Some (set_turn LException (Some (turn (DExceptions (y_events y ++ [(now, ev)]))
                        (exception_turn fmt cfg now (Ok ev)))) (add_event (now, ev) y), a)
      end
  | None, ARun l =>
      t ← y_turn y l;
      '(tr, s, a, p) ← advance env (y_ctl y) a (tn_prog t);
      Some (add_log (writes_of (tn_cause t) (tn_hist t) tr)
              (set_turn l (Some {| tn_cause := tn_cause t; tn_hist := tn_hist t ++ tr; tn_prog := p |}) (set_ctl s y)), a)
  | None, ADone l =>
      t ← y_turn y l;
      match tn_prog t with Ret (Ok tt) => Some (set_turn l None y, a) | _ => None end
  end.

Definition drive (acts : list DriveAction) (ya : CSys * Api) : option (CSys * Api) :=
  foldl (fun o act => ya ← o; drive1 ya act) (Some ya) acts.

Lemma advance_sound {A} s a (p : prog A) tr s' a' p' : advance env s a p = Some (tr, s', a', p') -> pstep s p tr s' p'.
Proof.
  destruct p as [x|f k|ns n k|ns sel k|w k]; simpl; [done| | | |].
  - intros [= <- <- <- <-]. constructor.
  - intros [= <- <- <- <-]. constructor.
  - intros [= <- <- <- <-]. constructor.
  - destruct (serve_write a w) as [a1 r]. intros [= <- <- <- <-]. constructor.
Qed.

Lemma drive1_sound ya act ya' : drive1 ya act = Some ya' -> csys_step sha256 fmt cfg (fst ya) (fst ya').
Proof.
  destruct ya as [y a]. unfold drive1. destruct (y_over y) eqn:Ho; [done|]. destruct act as [obj|now ev|l|l].
  - destruct (y_turn y LCluster) eqn:Ht; [done|]. intros [= <-]. by apply (step_cluster _ _ _ y (Ok obj)).
  - destruct (y_turn y LException) eqn:Ht; [done|]. intros [= <-]. by apply step_exception.
  - destruct (y_turn y l) as [t|] eqn:Ht; [|done]. simpl.
    destruct (advance env (y_ctl y) a (tn_prog t)) as [[[[tr s] a1] p]|] eqn:Hadv; [|done]. simpl. intros [= <-].
    simpl. apply step_run; [done..|]. by eapply advance_sound.
  - destruct (y_turn y l) as [t|] eqn:Ht; [|done]. simpl. destruct (tn_prog t) as [[[]|]| | | |] eqn:Hp; try done.
    intros [= <-]. by eapply step_done.
Qed.

Lemma drive_reachable acts ya ya' :
  csys_reachable sha256 fmt cfg (fst ya) -> drive acts ya = Some ya' -> csys_reachable sha256 fmt cfg (fst ya').
Proof.
  unfold drive. revert ya. induction acts as [|act acts IH]; intros ya Hr; simpl; [by intros [= <-]|].
  destruct (drive1 ya act) as [ya1|] eqn:H1.
  - apply IH. unfold csys_reachable in *. eapply rtc_r; [exact Hr|]. by eapply drive1_sound.
  - clear. intros H. exfalso. induction acts as [|act' acts IH]; [done|]. by apply IH.
Qed.
End drive.

(** ** A toy cluster *)

#[global] Instance ExceptionTarget_eq_dec : EqDecision ExceptionTarget.
Proof. solve_decision. Defined.
#[global] Instance PolicyExceptionSpec_eq_dec : EqDecision PolicyExceptionSpec.
Proof. solve_decision. Defined.

Definition toy_waiver : PolicyExceptionSpec :=
  {| pe_ticket := "SEC-1"; pe_requested_by := "ann"; pe_approved_by := "bob"; pe_reason := "vendor migration";
     pe_expires_at := days 30; pe_mode := Enforce; pe_target := {| et_namespace := "shop"; et_policies := ["web"]; et_rules := ["no-shell"] |};
     pe_four_eyes := true |}.

(** A codec for the lists that occur here. *)
#[global] Instance toy_exceptions_json : ExceptionsJson := {
  exceptions_of_json bytes :=
    if bool_decide (bytes = as_bytes "[]") then Ok []
    else if bool_decide (bytes = as_bytes "[SEC-1]") then Ok [toy_waiver] else Err "unknown list"
}.
#[global] Instance toy_exceptions_writer : ExceptionsWriter := {
  exceptions_bytes l :=
    if bool_decide (l = []) then Ok (as_bytes "[]")
    else if bool_decide (l = [toy_waiver]) then Ok (as_bytes "[SEC-1]") else Err "unknown list"
}.
#[global] Instance toy_exceptions_codec : ExceptionsCodec toy_exceptions_json toy_exceptions_writer.
Proof.
  constructor. intros l bytes. simpl. case_bool_decide; [by intros [= <-]; subst l|].
  case_bool_decide; [by intros [= <-]; subst l | done].
Qed.

#[global] Instance toy_specs : SpecJson := {
  cluster_spec_of v := match v with JStr "policy" => Ok example_policy | _ => Err "unknown spec" end;
  namespaced_spec_of _ := Err "unknown spec";
  exception_spec_of v := match v with JStr "waiver" => Ok toy_waiver | _ => Err "unknown spec" end
}.
#[global] Instance toy_specs_laws : SpecJsonLaws.
Proof.
  constructor; [|done]. intros v spec. simpl. destruct v as [| | |t| |]; try done.
  intros H. assert (spec = example_policy) as -> by (repeat case_match; by simplify_eq). exact example_policy_types.
Qed.

Definition toy_cfg : WatchConfig :=
  {| wc_namespace := "ferrum"; wc_secret_key := toy_seed; wc_trust_root := ed_public toy_seed; wc_library := None;
     wc_clusters := []; wc_status_dir := None; wc_metrics_listen := None |}.

Definition toy_env : Env :=
  {| env_mono := 0; env_ts := 0;
     env_io := {| io_open := Ok tt; io_write := Ok tt; io_sync := Ok tt; io_rename := Ok tt; io_remove_tmp := true;
                  io_remove_status := Removed |} |}.

Definition toy_object (name : string) (ns : option string) (spec : string) : DynamicObject :=
  {| o_name := Some name; o_namespace := ns; o_generation := Some 1; o_resource_version := Some "7";
     o_data := JObj [("spec", JStr spec)] |}.

Definition policy_object : DynamicObject := toy_object "web" None "policy".
Definition waiver_object : DynamicObject := toy_object "w" (Some "shop") "waiver".

(** Run a turn to its end: at most [n] steps. *)
Definition whole_turn (l : Loop) (n : nat) : list DriveAction := repeat (ARun l) n ++ [ADone l].

(** The list a Secret of the server holds, as the webhook reads it. *)
Definition list_in (a : Api) (name : string) : option (result string (list PolicyExceptionSpec)) :=
  secret ← api_secrets a !! name; data ← sec_data secret; fsig ← data !! EXCEPTIONS_FSIG_KEY;
  match verify_exceptions_fsig toy_sha256 fsig (ed_public toy_seed) with
  | Ok payload => Some (exceptions_of_json payload)
  | Err _ => None
  end.

Definition empty_api : Api := {| api_secrets := ∅; api_statuses := [] |}.

Definition toy_drive (acts : list DriveAction) (ya : CSys * Api) : option (CSys * Api) :=
  drive toy_sha256 toy_text toy_cfg toy_env acts ya.

(** A waiver is delivered and published, then the policy's turn stops short of the write
    that attaches the list it has just read. *)
Definition policy_in_flight : list DriveAction :=
  AGiveEvent 0 (EvApply waiver_object) :: whole_turn LException 9
  ++ AGivePolicy policy_object :: repeat (ARun LCluster) 8.
Definition policy_landed : list DriveAction := policy_in_flight ++ repeat (ARun LCluster) 3 ++ [ADone LCluster].

Definition WEB_SECRET : string := "ferrum-bundle-cluster-web".

(** The waiver is revoked while a policy's turn is attaching the list it read before: the
    exception loop publishes the empty list, then the older one lands on top of it. Nothing
    is left to do for any loop, no exception is live, and the Secret carries the revoked
    waiver until the next exception event. *)
Definition idle (y : CSys) (l : Loop) : bool := match y_turn y l with None => true | Some _ => false end.

Lemma stale_list_overwrites_revocation :
  (fun '(y, a) => (k_exceptions (y_ctl y), forallb (idle y) [LCluster; LNamespaced; LException], list_in a WEB_SECRET))
    <$> toy_drive (policy_in_flight ++ AGiveEvent 1 (EvDelete waiver_object) :: whole_turn LException 8
                   ++ repeat (ARun LCluster) 3 ++ [ADone LCluster]) (csys_new, empty_api)
  = Some (∅, true, Some (Ok [toy_waiver])).
Proof. vm_compute. reflexivity. Qed.

(** The server as a controller that did its work left it. *)
Definition published_api : Api :=
  match toy_drive policy_landed (csys_new, empty_api) with Some (_, a) => a | None => empty_api end.

(** The controller restarts over Secrets that carry a live waiver. Its set starts empty, and
    the turn of the first event of the relist publishes it: the waiver is gone from the
    Secret until the relist is done. *)
Lemma restart_revokes_until_relisted :
  let init := AGiveEvent 1 EvInit :: whole_turn LException 8 in
  let listed := init ++ AGiveEvent 1 (EvInitApply waiver_object) :: whole_turn LException 10 in
  let done_ := listed ++ AGiveEvent 1 EvInitDone :: whole_turn LException 8 in
  let holds acts := match toy_drive acts (csys_new, published_api) with
                    | Some (_, a) => list_in a WEB_SECRET | None => None end in
  list_in published_api WEB_SECRET = Some (Ok [toy_waiver]) /\
  holds init = Some (Ok []) /\ holds listed = Some (Ok []) /\ holds done_ = Some (Ok [toy_waiver]).
Proof. split_and!; vm_compute; reflexivity. Qed.

Lemma toy_key : public_key_from_secret (wc_secret_key toy_cfg) = Ok (wc_trust_root toy_cfg).
Proof. vm_compute. reflexivity. Qed.

Definition state_after (acts : list DriveAction) (a : Api) : CSys :=
  match toy_drive acts (csys_new, a) with Some (y, _) => y | None => csys_new end.

Lemma state_after_reachable acts a : csys_reachable toy_sha256 toy_text toy_cfg (state_after acts a).
Proof.
  unfold state_after. destruct (toy_drive acts (csys_new, a)) as [[y a']|] eqn:Hd; [|apply rtc_refl].
  refine (drive_reachable toy_sha256 toy_text toy_cfg toy_env _ (csys_new, a) (y, a') _ Hd). apply rtc_refl.
Qed.

Definition landed_state : CSys := state_after policy_landed empty_api.



(** ** One turn converges *)

Lemma get_put_entry m k v k' : get (put_entry m k v) k' = if str_eqb k k' then Some v else get m k'.
Proof.
  induction m as [|[k1 v1] m IH]; simpl; [done|].
  destruct (str_eqb k1 k) eqn:E1; simpl.
  - apply str_eqb_true in E1 as ->. by destruct (str_eqb k k').
  - rewrite IH. destruct (str_eqb k1 k') eqn:E2; [|done]. apply str_eqb_true in E2 as ->. by rewrite str_eqb_sym, E1.
Qed.

(** The object as the API server holds it once [patch] is merged; a status write leaves the
    generation alone. *)
Definition patched_object (obj : DynamicObject) (patch : Json) : DynamicObject :=
  {| o_name := o_name obj; o_namespace := o_namespace obj; o_generation := o_generation obj;
     o_resource_version := o_resource_version obj; o_data := merge_patch (o_data obj) patch |}.

(** A status written is the status read, whatever was there. *)
Lemma status_read_back obj st :
  status_compile (patched_object obj (status_patch st)) =
    (Some (pst_observed_generation st), cs_ready (pst_compile st), cs_bundle_digest (pst_compile st)).
Proof.
  unfold status_compile, patched_object, status_patch, compile_status_json. cbn [o_data merge_patch value_get].
  rewrite get_put_entry. change (str_eqb "status" "status") with true. cbn iota. cbn [value_get].
  generalize (match default JNull (get (match o_data obj with JObj m => m | _ => [] end) "status") with JObj m => m | _ => [] end).
  intros m. unfold rollout_status_json. repeat rewrite get_put_entry. vm_compute (str_eqb _ _). cbn iota.
  cbn [value_get mbind option_bind as_i64 default]. repeat rewrite get_put_entry. vm_compute (str_eqb _ _). done.
Qed.

Lemma exec_bind {A B} env s a (p : prog A) (q : A -> prog B) :
  exec env s a (p ≫= q) =
  let '(s1, a1, tr1, x) := exec env s a p in
  let '(s2, a2, tr2, y) := exec env s1 a1 (q x) in (s2, a2, tr1 ++ tr2, y).
Proof.
  unfold mbind, prog_mbind. revert s a. induction p as [x|f k IH|ns n k IH|ns sel k IH|w k IH]; intros s a; simpl.
  - by destruct (exec env s a (q x)) as [[[? ?] ?] ?].
  - by rewrite IH.
  - rewrite IH. destruct (exec env s a (k _)) as [[[s1 a1] tr1] x]. by destruct (exec env s1 a1 (q x)) as [[[? ?] ?] ?].
  - rewrite IH. destruct (exec env s a (k _)) as [[[s1 a1] tr1] x]. by destruct (exec env s1 a1 (q x)) as [[[? ?] ?] ?].
  - destruct (serve_write a w) as [a0 r]. rewrite IH. destruct (exec env s a0 (k r)) as [[[s1 a1] tr1] x].
    by destruct (exec env s1 a1 (q x)) as [[[? ?] ?] ?].
Qed.

Section converge.
Context `{E : Ed25519} `{X : ExceptionsJson} `{W : ExceptionsWriter} `{S : SpecJson} `{T : JsonText}.
Context (sha256 : list Z -> list Z) (fmt : msg -> string) (cfg : WatchConfig).
Context `{EL : !Ed25519Laws E} `{SL : !SpecJsonLaws} `{XL : !ExceptionsCodec X W}.
Context (Hsha : forall m, len (sha256 m) = 32 /\ Forall (fun b => 0 <= b < 256) (sha256 m)).
Context (Hkey : public_key_from_secret (wc_secret_key cfg) = Ok (wc_trust_root cfg)).

(** The Secret's name is free, or taken by a Secret of the same owner. *)
Definition may_store (a : Api) (name : string) (labels : gmap string string) : Prop :=
  forall live, api_secrets a !! name = Some live ->
    Forall (fun key => (l ← sec_labels live; l !! key) = labels !! key) OWNER_KEYS.

Lemma may_overwrite live secret labels :
  sec_labels secret = Some labels ->
  Forall (fun key => (l ← sec_labels live; l !! key) = labels !! key) OWNER_KEYS ->
  ensure_secret_ownership live secret = Ok tt.
Proof.
  intros Hl H. unfold ensure_secret_ownership. apply try_each_ok. eapply Forall_impl; [exact H|]. intros key Hk.
  rewrite refuse_if_ok, negb_false_iff, bool_decide_eq_true, Hl. simpl. rewrite <- Hk.
  destruct (sec_labels live); [done|]. simpl. apply lookup_empty.
Qed.

(** What the server holds after the Secret was stored and the list attached. *)
Definition stored_secret (a : Api) (name : string) (secret : Secret) (patch : Json) : Secret :=
  merge_data patch (match api_secrets a !! name with None => secret | Some live => merge_secret secret live end).

(** From the stored Secret to the end of the turn: the status, then the list. *)
Ltac status_and_list Hap Hn Hl Hp Hpatch :=
  cbn [map_err mbind prog_mbind pbind exec patch_status_dynamic serve_write persist_class];
  unfold attach_exceptions, attach_target; rewrite Hap;
  cbn [mbind option_bind prog_mbind pbind exec p_note_success modify]; rewrite Hn, Hl; cbn [mbind option_bind]; rewrite Hp;
  cbn [read_ctl mbind prog_mbind pbind exec k_exceptions with_health]; unfold patch_secret_exceptions, pbind_ok, plift;
  cbn [mbind prog_mbind pbind exec]; rewrite Hpatch; cbn [mbind prog_mbind pbind exec serve_write api_secrets];
  rewrite lookup_insert_eq; cbn [mbind prog_mbind pbind exec map_err]; eexists _, _, _; split; [reflexivity|];
  cbn [api_secrets api_statuses]; split; [apply insert_insert_eq | done].

Lemma exec_apply_plan env s a obj gen kind ns name plan secret sname labels policy patch :
  ap_secret plan = Some secret -> sec_name secret = Some sname -> sec_labels secret = Some labels ->
  labels !! POLICY_LABEL_KEY = Some policy -> may_store a sname labels ->
  exceptions_secret_patch (exceptions_for_policy (snapshot_exceptions (k_exceptions s)) policy) (wc_secret_key cfg) = Ok patch ->
  exists s' a' tr, exec env s a (apply_plan cfg obj gen kind ns name plan false) = (s', a', tr, Ok tt) /\
    api_secrets a' = <[sname := stored_secret a sname secret patch]> (api_secrets a) /\
    api_statuses a' = api_statuses a ++ [(kind, ns, name, ap_status plan)].
Proof.
  intros Hap Hn Hl Hp Hst Hpatch. unfold apply_plan, failed_status_already_recorded, persist_class. rewrite Hap.
  cbn [mbind prog_mbind pbind]. unfold pbind_ok, pmap_err, persist_dynamic, pbind_ok. rewrite Hap.
  unfold upsert_secret. rewrite Hn. cbn [mbind prog_mbind pbind exec].
  unfold stored_secret. specialize (Hst). destruct (api_secrets a !! sname) as [live|] eqn:Hlive.
  - rewrite (may_overwrite live secret labels Hl (Hst live Hlive)). cbn [mbind prog_mbind pbind exec serve_write].
    rewrite Hlive. status_and_list Hap Hn Hl Hp Hpatch.
  - cbn [mbind prog_mbind pbind exec serve_write]. rewrite Hn, Hlive.
    status_and_list Hap Hn Hl Hp Hpatch.
Qed.

(** The keys of the bundle survive whatever list is attached. *)
Lemma stored_data a name secret patch l fsig digest :
  list_loads sha256 cfg patch l ->
  sec_data secret = Some {[BUNDLE_FSIG_KEY := fsig; BUNDLE_DIGEST_KEY := digest]} ->
  exists data, sec_data (stored_secret a name secret patch) = Some data /\
    data !! BUNDLE_FSIG_KEY = Some fsig /\ data !! BUNDLE_DIGEST_KEY = Some digest.
Proof.
  intros (e & payload & -> & _) Hd.
  assert (Hm : forall live data, sec_data live = Some data -> data !! BUNDLE_FSIG_KEY = Some fsig -> data !! BUNDLE_DIGEST_KEY = Some digest ->
    exists data', sec_data (merge_data (exceptions_patch_of e) live) = Some data' /\
      data' !! BUNDLE_FSIG_KEY = Some fsig /\ data' !! BUNDLE_DIGEST_KEY = Some digest).
  { intros live data Hl Hf Hg. eexists. split; [reflexivity|]. rewrite Hl. unfold exceptions_patch_of. cbn [value_get get].
    change (str_eqb "data" "data") with true. cbn [mbind option_bind as_object default from_option id foldl merge_entry].
    rewrite !lookup_delete_ne by done. destruct (b64_decode _); [rewrite !lookup_insert_ne by done|]; done. }
  unfold stored_secret. destruct (api_secrets a !! name) as [live|].
  - eapply Hm; [reflexivity | |]; rewrite Hd; unfold default; cbn [from_option id]; apply lookup_union_Some_l.
    + apply lookup_insert_eq.
    + rewrite lookup_insert_ne by done. apply lookup_singleton_eq.
  - eapply Hm; [exact Hd | apply lookup_insert_eq |]. rewrite lookup_insert_ne by done. apply lookup_singleton_eq.
Qed.

(** Whether a Secret matches depends on the two keys of the bundle only. *)
Lemma matches_by_bundle_keys s1 s2 d1 d2 root digest :
  sec_data s1 = Some d1 -> sec_data s2 = Some d2 -> d1 !! BUNDLE_FSIG_KEY = d2 !! BUNDLE_FSIG_KEY ->
  d1 !! BUNDLE_DIGEST_KEY = d2 !! BUNDLE_DIGEST_KEY ->
  live_secret_matches sha256 s1 root digest = live_secret_matches sha256 s2 root digest.
Proof. intros H1 H2 Hf Hd. unfold live_secret_matches. by rewrite H1, H2, Hf, Hd. Qed.

(** A redelivered object whose status names the live Secret: one question, no write. *)
Lemma exec_already_applied env s a obj gen key name digest secret :
  status_compile obj = (Some gen, true, digest) -> str_empty digest = false -> api_secrets a !! name = Some secret ->
  live_secret_matches sha256 secret (wc_trust_root cfg) digest = true ->
  exists s', exec env s a (already_applied sha256 cfg obj gen key name) =
    (s', a, [TGet (wc_namespace cfg) name (Ok (Some secret))], Ok true).
Proof.
  intros Hst Hne Hs Hm. unfold already_applied. rewrite Hst, Hne. unfold pbind_ok, pmap_err, load_bundle_secret.
  cbn [mbind prog_mbind pbind exec p_metrics modify]. rewrite Hs. cbn [map_err mbind prog_mbind pbind exec p_note_success modify fst snd].
  eexists. unfold should_skip_applied. rewrite bool_decide_true by done. rewrite Hne. cbn [negb orb]. rewrite Hm. reflexivity.
Qed.

(** A plan with a Secret comes from a policy that was signed, and its status says so. *)
Lemma applied_status compiled mode gen library clusters name ns labels root planned :
  let outcome := reconciled fmt compiled mode gen library clusters in
  let plan := plan_apply_named sha256 fmt name ns labels outcome root in
  ap_secret plan = Some planned ->
  exists applied, outcome = Applied applied /\ ap_status plan = status_patch (ra_status applied) /\
    pst_observed_generation (ra_status applied) = gen /\ cs_ready (pst_compile (ra_status applied)) = true /\
    snd (plan_compile plan) = Some (JStr (cs_bundle_digest (pst_compile (ra_status applied)))).
Proof.
  cbn zeta. unfold plan_apply_named, reconciled. destruct compiled as [b|err]; [|done].
  destruct (bundle_secret_named _ _ _ _ _ _) as [sec|err]; [|done]. intros _. by eexists.
Qed.

(** The whole turn of such an object. *)
Lemma exec_redelivered env s a obj name digest secret :
  require_name obj "ClusterSecurityPolicy" = Ok name ->
  status_compile obj = (Some (default 0 (o_generation obj)), true, digest) ->
  api_secrets a !! secret_name name = Some secret ->
  live_secret_matches sha256 secret (wc_trust_root cfg) digest = true ->
  exists s', exec env s a (reconcile_object sha256 fmt cfg obj) =
    (s', a, [TGet (wc_namespace cfg) (secret_name name) (Ok (Some secret))], Ok tt).
Proof.
  intros Hname Hst Hs Hm.
  assert (Hne : str_empty digest = false).
  { destruct (str_empty digest) eqn:Ee; [|done]. unfold live_secret_matches in Hm. by rewrite Ee in Hm. }
  destruct (exec_already_applied env s a obj _ name (secret_name name) digest secret Hst Hne Hs Hm) as [s2 Hx].
  exists s2. unfold reconcile_object, pbind_ok, plift. rewrite Hname. cbn [map_err mbind prog_mbind pbind].
  rewrite exec_bind. by rewrite Hx.
Qed.

End converge.

Definition web_policy : ObservedPolicy :=
  {| op_name := "web"; op_generation := 1; op_resource_version := "7"; op_spec := example_policy |}.

Lemma ok_inj {Er A} (x y : A) : @Ok Er A x = Ok y -> x = y.
Proof. by intros [= ->]. Qed.

Lemma toy_material_eq :
  bundle_digest_material AGENT_ABI ADMISSION_ABI (cb_admission_program toy_bundle) (cb_ebpf_spec toy_bundle)
    (cb_wasm toy_bundle) = Ok toy_material.
Proof. vm_compute. reflexivity. Qed.

