(* ===== verification/Btf.v ===== *)
(** * The type blob of the running kernel

    [crates/ferrum-ebpf/src/btf.rs]: where [linux_binprm::filename] lives, read out of the
    BTF the kernel serves. Offsets are [usize] (64 bits); a position is at most the length
    of the blob and one record of 65,535 members, so its sums do not wrap, and the two that
    could are [checked_add] in the code and here. The second half
    describes a blob as the records that were written into it and shows that the reader
    answers exactly what they say. *)

From S2P Require Import Prelude RustStd Ids.

Definition MAGIC : Z := 0xeb9f.
Definition HEADER_LEN : Z := 24.
Definition TYPE_LEN : Z := 12.

Definition KIND_INT : Z := 1.
Definition KIND_PTR : Z := 2.
Definition KIND_ARRAY : Z := 3.
Definition KIND_STRUCT : Z := 4.
Definition KIND_UNION : Z := 5.
Definition KIND_ENUM : Z := 6.
Definition KIND_FWD : Z := 7.
Definition KIND_TYPEDEF : Z := 8.
Definition KIND_VOLATILE : Z := 9.
Definition KIND_CONST : Z := 10.
Definition KIND_RESTRICT : Z := 11.
Definition KIND_FUNC : Z := 12.
Definition KIND_FUNC_PROTO : Z := 13.
Definition KIND_VAR : Z := 14.
Definition KIND_DATASEC : Z := 15.
Definition KIND_FLOAT : Z := 16.
Definition KIND_DECL_TAG : Z := 17.
Definition KIND_TYPE_TAG : Z := 18.
Definition KIND_ENUM64 : Z := 19.

(** [BtfError(String)]: the text of the refusal. *)
Notation BtfResult := (result msg).

Record BtfType : Type := {
  bt_name_off : Z;
  bt_kind : Z;
  bt_vlen : Z;
  bt_kind_flag : bool;
  bt_size_or_type : Z;
  bt_extra : Z;
}.

Record Btf : Type := {
  btf_types : list BtfType;
  btf_type_sec : list Z;
  btf_strings : list Z;
}.

Definition u16_at (b : list Z) (at_ : Z) : option Z := le_val <$> get_range b at_ (at_ + 2).
Definition u32_at (b : list Z) (at_ : Z) : option Z := le_val <$> get_range b at_ (at_ + 4).

(** [usize::checked_add] *)
Definition checked_add_usize (a b : Z) : option Z := if a + b <? U64 then Some (a + b) else None.

(** The closure [section] of [parse]. *)
Definition btf_section (blob : list Z) (hdr_len off length_ : Z) (what : string) : BtfResult (list Z) :=
  ok_or
    (start ← checked_add_usize hdr_len off;
     end_ ← checked_add_usize start length_;
     get_range blob start end_)
    [Lit "BTF "; Str what; Lit " section lies outside the blob"].

(** The bytes that follow a record of a kind; [None] for a kind the reader does not know. *)
Definition trailing (kind vlen : Z) : option Z :=
  if (kind =? KIND_INT) || (kind =? KIND_VAR) || (kind =? KIND_DECL_TAG) then Some 4
  else if kind =? KIND_ARRAY then Some 12
  else if (kind =? KIND_STRUCT) || (kind =? KIND_UNION) || (kind =? KIND_DATASEC) || (kind =? KIND_ENUM64)
       then Some (12 * vlen)
  else if (kind =? KIND_ENUM) || (kind =? KIND_FUNC_PROTO) then Some (8 * vlen)
  else if (kind =? KIND_PTR) || (kind =? KIND_FWD) || (kind =? KIND_TYPEDEF) || (kind =? KIND_VOLATILE)
          || (kind =? KIND_CONST) || (kind =? KIND_RESTRICT) || (kind =? KIND_FUNC) || (kind =? KIND_FLOAT)
          || (kind =? KIND_TYPE_TAG)
       then Some 0
  else None.

Definition info_vlen (info : Z) : Z := Z.land info 0xffff.
Definition info_kind (info : Z) : Z := Z.land (Z.shiftr info 24) 0x1f.
Definition info_flag (info : Z) : bool := Z.shiftr info 31 =? 1.

(** The loop [while at < type_sec.len()], with the position it ends at. Every turn moves at
    least twelve bytes on, so as many turns as there are bytes are enough. *)
Fixpoint parse_types (fuel : nat) (sec : list Z) (at_ : Z) (types : list BtfType)
    : BtfResult (list BtfType * Z) :=
  match fuel with
  | O => Ok (types, at_)
  | S fuel =>
      if negb (at_ <? len sec) then Ok (types, at_) else
      let truncated := [Lit "BTF type record at "; Num at_; Lit " is truncated"] in
      name_off ← ok_or (u32_at sec at_) truncated;
      info ← ok_or (u32_at sec (at_ + 4)) truncated;
      size_or_type ← ok_or (u32_at sec (at_ + 8)) truncated;
      let extra := at_ + TYPE_LEN in
      match trailing (info_kind info) (info_vlen info) with
      | None => Err [Lit "BTF type "; Num (len types + 1); Lit " has kind "; Num (info_kind info);
                     Lit ", which this reader does not know the length of"]
      | Some n =>
          parse_types fuel sec (extra + n)
            (types ++ [{| bt_name_off := name_off; bt_kind := info_kind info; bt_vlen := info_vlen info;
                          bt_kind_flag := info_flag info; bt_size_or_type := size_or_type; bt_extra := extra |}])
      end
  end.

(** [Btf::parse] *)
Definition btf_parse (blob : list Z) : BtfResult Btf :=
  magic ← ok_or (u16_at blob 0) [Lit "BTF shorter than its magic"];
  _ ← refuse_if (negb (magic =? MAGIC))
        [Lit "BTF magic "; Num magic; Lit ", want "; Num MAGIC;
         Lit " little-endian; a byte-swapped read would yield offsets that only look right"];
  _ ← refuse_if (negb (bool_decide (blob !! 2%nat = Some 1)))
        ([Lit "BTF version "] ++
         match blob !! 2%nat with None => [Lit "None"] | Some v => [Lit "Some("; Num v; Lit ")"] end ++
         [Lit ", want 1"]);
  let field at_ := ok_or (u32_at blob at_) [Lit "BTF header is truncated"] in
  hdr_len ← field 4;
  _ ← refuse_if (hdr_len <? HEADER_LEN) [Lit "BTF header length "; Num hdr_len; Lit " < "; Num HEADER_LEN];
  type_off ← field 8;
  type_len ← field 12;
  str_off ← field 16;
  str_len ← field 20;
  type_sec ← btf_section blob hdr_len type_off type_len "type";
  strings ← btf_section blob hdr_len str_off str_len "string";
  parsed ← parse_types (length type_sec) type_sec 0 [];
  _ ← refuse_if (negb (snd parsed =? len type_sec)) [Lit "BTF type section ends inside a record"];
  mret {| btf_types := fst parsed; btf_type_sec := type_sec; btf_strings := strings |}.

(** The bytes before the first NUL. *)
Fixpoint until_nul (l : list Z) : list Z :=
  match l with
  | [] => []
  | b :: l' => if b =? 0 then [] else b :: until_nul l'
  end.

(** [Btf::name] *)
Definition btf_name (b : Btf) (off : Z) : list Z := until_nul (drop (Z.to_nat off) (btf_strings b)).

(** [Btf::by_id]: ids start at 1. *)
Definition by_id (b : Btf) (id : Z) : option BtfType :=
  if id <? 1 then None else btf_types b !! Z.to_nat (id - 1).

Definition is_qualifier (kind : Z) : bool :=
  (kind =? KIND_TYPEDEF) || (kind =? KIND_CONST) || (kind =? KIND_VOLATILE) || (kind =? KIND_RESTRICT)
  || (kind =? KIND_TYPE_TAG).

(** [Btf::strip], [n] turns of its loop. *)
Fixpoint strip_turns (n : nat) (b : Btf) (id : Z) : option BtfType :=
  match n with
  | O => None
  | S n =>
      t ← by_id b id;
      if is_qualifier (bt_kind t) then strip_turns n b (bt_size_or_type t) else Some t
  end.
Definition btf_strip (b : Btf) (id : Z) : option BtfType := strip_turns 32 b id.

Definition U32_MAX : Z := 0xffffffff.

(** One member of [Btf::members]: name, type id, bit offset. *)
Definition btf_member (b : Btf) (t : BtfType) (i : nat) : option (list Z * Z * Z) :=
  let at_ := bt_extra t + 12 * Z.of_nat i in
  name_off ← u32_at (btf_type_sec b) at_;
  type_id ← u32_at (btf_type_sec b) (at_ + 4);
  offset ← u32_at (btf_type_sec b) (at_ + 8);
  let '(bits, bitfield) := if bt_kind_flag t then (Z.land offset 0x00ffffff, Z.shiftr offset 24) else (offset, 0) in
  Some (btf_name b name_off, type_id, if bitfield =? 0 then bits else U32_MAX).

Definition btf_members (b : Btf) (t : BtfType) : list (list Z * Z * Z) :=
  omap (btf_member b t) (seq 0 (Z.to_nat (bt_vlen t))).

Definition is_binprm (b : Btf) (t : BtfType) : bool :=
  (bt_kind t =? KIND_STRUCT) && bool_decide (btf_name b (bt_name_off t) = as_bytes "linux_binprm").

(** The body of the loop of [binprm_filename_offset] for a matching struct. *)
Definition filename_offset_of (b : Btf) (t : BtfType) : BtfResult Z :=
  match List.find (fun m => bool_decide (fst (fst m) = as_bytes "filename")) (btf_members b t) with
  | None => Err [Lit "struct linux_binprm has no member `filename`"]
  | Some (_, type_id, bits) =>
      _ ← refuse_if ((bits =? U32_MAX) || negb (bits mod 8 =? 0))
            [Lit "linux_binprm::filename is a bitfield or not byte-aligned"];
      pointee ← match btf_strip b type_id with
                | Some p => if bt_kind p =? KIND_PTR then Ok (btf_strip b (bt_size_or_type p))
                            else Err [Lit "linux_binprm::filename is not a pointer"]
                | None => Err [Lit "linux_binprm::filename is not a pointer"]
                end;
      _ ← match pointee with
          | Some c => refuse_if (negb ((bt_kind c =? KIND_INT) &&
                                       bool_decide (btf_name b (bt_name_off c) = as_bytes "char")))
                        [Lit "linux_binprm::filename does not point at char"]
          | None => Err [Lit "linux_binprm::filename does not point at char"]
          end;
      mret (bits / 8)
  end.

(** The loop itself. *)
Fixpoint find_filename (b : Btf) (ts : list BtfType) (found : option Z) : BtfResult (option Z) :=
  match ts with
  | [] => Ok found
  | t :: ts' =>
      if negb (is_binprm b t) then find_filename b ts' found else
      offset ← filename_offset_of b t;
      _ ← refuse_if (match found with Some prev => negb (prev =? offset) | None => false end)
            [Lit "two `struct linux_binprm` in one BTF disagree about where `filename` is"];
      find_filename b ts' (Some offset)
  end.

Definition binprm_filename_offset (blob : list Z) : BtfResult Z :=
  b ← btf_parse blob;
  found ← find_filename b (btf_types b) None;
  match found with
  | Some offset =>
      _ ← refuse_if (offset =? 0) [Lit "linux_binprm::filename at offset 0, which the hook reads as unknown"];
      mret offset
  | None => Err [Lit "no struct linux_binprm in this BTF"]
  end.

(** ** What a blob says *)

(** A record as it was written: three words and what follows them. *)
Record RawType : Type := { rt_name_off : Z; rt_info : Z; rt_size_or_type : Z; rt_trailing : list Z }.

Definition u32_ok (v : Z) : Prop := 0 <= v < U32.
Definition raw_ok (r : RawType) : Prop :=
  u32_ok (rt_name_off r) /\ u32_ok (rt_info r) /\ u32_ok (rt_size_or_type r) /\
  trailing (info_kind (rt_info r)) (info_vlen (rt_info r)) = Some (len (rt_trailing r)) /\
  Forall (fun b => 0 <= b < 256) (rt_trailing r).

Definition encode_raw (r : RawType) : list Z :=
  le_bytes 4 (rt_name_off r) ++ le_bytes 4 (rt_info r) ++ le_bytes 4 (rt_size_or_type r) ++ rt_trailing r.

(** The header of a blob: where the two sections are. *)
Record BtfHeader : Type := { bh_flags : Z; bh_len : Z; bh_type_off : Z; bh_type_len : Z; bh_str_off : Z; bh_str_len : Z }.
Definition encode_header (h : BtfHeader) : list Z :=
  le_bytes 2 MAGIC ++ [1; bh_flags h] ++ le_bytes 4 (bh_len h) ++ le_bytes 4 (bh_type_off h) ++
  le_bytes 4 (bh_type_len h) ++ le_bytes 4 (bh_str_off h) ++ le_bytes 4 (bh_str_len h).
Definition header_ok (h : BtfHeader) : Prop :=
  0 <= bh_flags h < 256 /\ u32_ok (bh_len h) /\ HEADER_LEN <= bh_len h /\ u32_ok (bh_type_off h) /\
  u32_ok (bh_type_len h) /\ u32_ok (bh_str_off h) /\ u32_ok (bh_str_len h).

(** [blob] is a little-endian BTF of version 1 whose type section is the records [raws] and
    whose string section is [strings]. *)
Definition blob_says (blob : list Z) (raws : list RawType) (strings : list Z) : Prop :=
  exists h rest, header_ok h /\ blob = encode_header h ++ rest /\ Forall raw_ok raws /\
    get_range blob (bh_len h + bh_type_off h) (bh_len h + bh_type_off h + bh_type_len h) =
      Some (concat (map encode_raw raws)) /\
    get_range blob (bh_len h + bh_str_off h) (bh_len h + bh_str_off h + bh_str_len h) = Some strings.

Section says.
Context (raws : list RawType) (strings : list Z).

Definition kind_of (r : RawType) : Z := info_kind (rt_info r).
Definition string_at (off : Z) : list Z := until_nul (drop (Z.to_nat off) strings).
Definition raw_name (r : RawType) : list Z := string_at (rt_name_off r).

(** Record [id], counted from 1. *)
Definition numbered (id : Z) (r : RawType) : Prop := 1 <= id /\ raws !! Z.to_nat (id - 1) = Some r.

(** [id] is [n] qualifiers away from a record that is none. *)
Inductive resolves : nat -> Z -> RawType -> Prop :=
| resolves_here id r : numbered id r -> is_qualifier (kind_of r) = false -> resolves 0 id r
| resolves_through n id q r : numbered id q -> is_qualifier (kind_of q) = true ->
    resolves n (rt_size_or_type q) r -> resolves (S n) id r.

(** Word [k] of member [i] of a struct record. *)
Definition member_word (r : RawType) (i k : nat) : Z :=
  le_val (take 4 (drop (12 * i + 4 * k) (rt_trailing r))).
Definition member_name (r : RawType) (i : nat) : list Z := string_at (member_word r i 0).

(** Member [i] starts at bit [bits] and is no bit field. *)
Definition starts_at (r : RawType) (i : nat) (bits : Z) : Prop :=
  if info_flag (rt_info r) then member_word r i 2 = bits /\ bits < 2 ^ 24 else member_word r i 2 = bits.

(** [r] is a [struct linux_binprm] whose [filename], its first member of that name, is a
    pointer to [char], through at most 31 qualifiers each way, at byte [off]. *)
Definition named_binprm (r : RawType) : Prop := kind_of r = KIND_STRUCT /\ raw_name r = as_bytes "linux_binprm".
Definition filename_at (r : RawType) (off : Z) : Prop :=
  exists i ptr chr n m,
    (i < Z.to_nat (info_vlen (rt_info r)))%nat /\ member_name r i = as_bytes "filename" /\
    (forall j, (j < i)%nat -> member_name r j <> as_bytes "filename") /\
    starts_at r i (8 * off) /\
    resolves n (member_word r i 1) ptr /\ (n < 32)%nat /\ kind_of ptr = KIND_PTR /\
    resolves m (rt_size_or_type ptr) chr /\ (m < 32)%nat /\ kind_of chr = KIND_INT /\
    raw_name chr = as_bytes "char".
End says.

(** ** The reader reads the records *)

#[local] Arguments le_bytes : simpl never.
#[local] Arguments le_val : simpl never.
#[local] Arguments trailing : simpl never.
#[local] Arguments info_vlen : simpl never.
#[local] Arguments info_kind : simpl never.
#[local] Arguments info_flag : simpl never.
#[local] Arguments is_qualifier : simpl never.

Notation bytes_ok := (Forall (fun b => 0 <= b < 256)).

Lemma get_range_mid (pre mid post : list Z) a b :
  0 <= a <= b -> b <= len mid ->
  get_range (pre ++ mid ++ post) (len pre + a) (len pre + b) = Some (take (Z.to_nat (b - a)) (drop (Z.to_nat a) mid)).
Proof.
  intros Ha Hb. unfold get_range. rewrite !len_app. pose proof (len_nonneg post).
  rewrite (proj2 (Z.leb_le _ _)), (proj2 (Z.leb_le _ _)) by lia. simpl. f_equal.
  replace (len pre + b - (len pre + a)) with (b - a) by lia. unfold len in *.
  rewrite drop_app_ge, drop_app_le by lia. rewrite take_app_le by (rewrite length_drop; lia).
  do 2 f_equal. lia.
Qed.

Lemma get_range_some {A} (l : list A) a b x :
  get_range l a b = Some x -> a <= b /\ b <= len l /\ x = take (Z.to_nat (b - a)) (drop (Z.to_nat a) l).
Proof. unfold get_range. intros H. case_match; [|done]. bool_hyps. naive_solver lia. Qed.

Lemma u32_at_word (pre post : list Z) v :
  u32_ok v -> u32_at (pre ++ le_bytes 4 v ++ post) (len pre) = Some v.
Proof.
  intros Hv. unfold u32_at. pose proof (get_range_mid pre (le_bytes 4 v) post 0 4) as H.
  rewrite Z.add_0_r in H. rewrite H by (unfold len; rewrite ?length_le_bytes; lia).
  change (Z.to_nat (4 - 0)) with 4%nat. rewrite drop_0. rewrite firstn_all2 by (rewrite length_le_bytes; lia).
  cbn [fmap option_fmap option_map]. rewrite le_val_bytes, Z.mod_small by (unfold u32_ok, U32 in Hv; lia). done.
Qed.

Lemma u32_at_some sec at_ v :
  bytes_ok sec -> 0 <= at_ -> u32_at sec at_ = Some v ->
  u32_ok v /\ at_ + 4 <= len sec /\ drop (Z.to_nat at_) sec = le_bytes 4 v ++ drop (Z.to_nat (at_ + 4)) sec.
Proof.
  intros Hok Hat H. unfold u32_at in H. destruct (get_range _ _ _) as [x|] eqn:Hr; [|done]. simpl in H.
  apply Some_inj in H. apply get_range_some in Hr as (_ & Hle & Hx).
  replace (Z.to_nat (at_ + 4 - at_)) with 4%nat in Hx by lia.
  assert (Hb : bytes_ok x) by (subst x; by apply Forall_take, Forall_drop).
  assert (Hl : length x = 4%nat) by (subst x; rewrite length_take, length_drop; unfold len in Hle; lia).
  split_and!; [|done|].
  - subst v. unfold u32_ok. pose proof (le_val_range x Hb). unfold len in *. rewrite Hl in *. unfold U32. simpl in *. lia.
  - rewrite <- (firstn_skipn 4 (drop (Z.to_nat at_) sec)) at 1. rewrite <- Hx, drop_drop. f_equal.
    + subst v. rewrite <- Hl. symmetry. by apply le_bytes_val.
    + f_equal. lia.
Qed.

Lemma trailing_nonneg kind vlen n : 0 <= vlen -> trailing kind vlen = Some n -> 0 <= n.
Proof. unfold trailing. intros Hv H. repeat case_match; simplify_eq; lia. Qed.

Lemma info_vlen_range info : 0 <= info_vlen info < 65536.
Proof. unfold info_vlen. change 0xffff with (Z.ones 16). rewrite Z.land_ones by lia. apply Z.mod_pos_bound. lia. Qed.

Definition type_at (at_ : Z) (r : RawType) : BtfType :=
  {| bt_name_off := rt_name_off r; bt_kind := kind_of r; bt_vlen := info_vlen (rt_info r);
     bt_kind_flag := info_flag (rt_info r); bt_size_or_type := rt_size_or_type r; bt_extra := at_ + TYPE_LEN |}.
Fixpoint types_at (at_ : Z) (raws : list RawType) : list BtfType :=
  match raws with
  | [] => []
  | r :: raws' => type_at at_ r :: types_at (at_ + len (encode_raw r)) raws'
  end.

Lemma encode_raw_len r : len (encode_raw r) = 12 + len (rt_trailing r).
Proof. unfold encode_raw, len. rewrite !length_app, !length_le_bytes. lia. Qed.

(** The three words of a record, wherever it lies. *)
Lemma raw_words pre r post :
  raw_ok r ->
  u32_at (pre ++ encode_raw r ++ post) (len pre) = Some (rt_name_off r) /\
  u32_at (pre ++ encode_raw r ++ post) (len pre + 4) = Some (rt_info r) /\
  u32_at (pre ++ encode_raw r ++ post) (len pre + 8) = Some (rt_size_or_type r).
Proof.
  intros (H1 & H2 & H3 & _). unfold encode_raw. rewrite <- !app_assoc. split_and!; [by apply u32_at_word| |].
  - rewrite app_assoc. replace (len pre + 4) with (len (pre ++ le_bytes 4 (rt_name_off r))); [by apply u32_at_word|].
    unfold len. rewrite length_app, length_le_bytes. lia.
  - rewrite (app_assoc pre), (app_assoc (pre ++ _)).
    replace (len pre + 8) with (len ((pre ++ le_bytes 4 (rt_name_off r)) ++ le_bytes 4 (rt_info r))); [by apply u32_at_word|].
    unfold len. rewrite !length_app, !length_le_bytes. lia.
Qed.

Lemma parse_types_reads raws fuel pre acc :
  Forall raw_ok raws -> (length (concat (map encode_raw raws)) <= fuel)%nat ->
  parse_types fuel (pre ++ concat (map encode_raw raws)) (len pre) acc =
    Ok (acc ++ types_at (len pre) raws, len (pre ++ concat (map encode_raw raws))).
Proof.
  intros Hok. revert fuel pre acc. induction Hok as [|r raws Hr _ IH]; intros fuel pre acc Hf; cbn [map concat types_at] in *.
  - rewrite !app_nil_r. destruct fuel; cbn [parse_types]; [done|]. by rewrite Z.ltb_irrefl.
  - pose proof (encode_raw_len r) as Hl. pose proof (len_nonneg (rt_trailing r)).
    rewrite length_app in Hf. destruct fuel as [|fuel]; [unfold len in Hl; lia|]. cbn [parse_types].
    destruct (raw_words pre r (concat (map encode_raw raws)) Hr) as (E1 & E2 & E3). rewrite E1, E2, E3. cbn [ok_or mbind result_mbind].
    pose proof Hr as (_ & _ & _ & Ht & _). rewrite Ht. clear E1 E2 E3 Ht.
    rewrite (proj2 (Z.ltb_lt _ _)) by (rewrite !len_app; pose proof (len_nonneg (concat (map encode_raw raws))); lia). cbn [negb].
    rewrite app_assoc. replace (len pre + TYPE_LEN + len (rt_trailing r)) with (len (pre ++ encode_raw r))
      by (rewrite len_app, Hl; unfold TYPE_LEN; lia).
    rewrite IH by (unfold len in Hl; lia). rewrite <- app_assoc. cbn [app]. by rewrite (len_app pre).
Qed.

Lemma parse_types_says fuel sec at_ acc types :
  bytes_ok sec -> 0 <= at_ -> len sec - at_ <= Z.of_nat fuel ->
  parse_types fuel sec at_ acc = Ok (types, len sec) ->
  at_ <= len sec /\ exists raws, Forall raw_ok raws /\ drop (Z.to_nat at_) sec = concat (map encode_raw raws) /\
    types = acc ++ types_at at_ raws.
Proof.
  intros Hb. revert at_ acc. induction fuel as [|fuel IH]; intros at_ acc Hat Hf H; cbn [parse_types ok_or mbind result_mbind negb] in H.
  - injection H as -> ->. split; [lia|]. exists []. rewrite drop_ge by (unfold len; lia). by rewrite app_nil_r.
  - destruct (Z.ltb_spec at_ (len sec)) as [Hlt|Hge]; cbn [parse_types ok_or mbind result_mbind negb] in H.
    2: { injection H as -> ->. split; [lia|]. exists []. rewrite drop_ge by (unfold len; lia). by rewrite app_nil_r. }
    destruct (u32_at sec at_) as [name|] eqn:E1; [|done]. cbn [parse_types ok_or mbind result_mbind negb] in H.
    destruct (u32_at sec (at_ + 4)) as [info|] eqn:E2; [|done]. cbn [parse_types ok_or mbind result_mbind negb] in H.
    destruct (u32_at sec (at_ + 8)) as [sz|] eqn:E3; [|done]. cbn [parse_types ok_or mbind result_mbind negb] in H.
    destruct (trailing _ _) as [n|] eqn:Ht; [|done].
    pose proof (trailing_nonneg _ _ _ (proj1 (info_vlen_range info)) Ht) as Hn.
    apply IH in H as (Hle & raws & Hraws & Hdrop & ->); [|unfold TYPE_LEN; lia..]. unfold TYPE_LEN in *.
    split; [lia|].
    apply u32_at_some in E1 as (O1 & _ & D1); [|done..]. apply u32_at_some in E2 as (O2 & _ & D2); [|done|lia].
    apply u32_at_some in E3 as (O3 & _ & D3); [|done|lia].
    set (tr := take (Z.to_nat n) (drop (Z.to_nat (at_ + 12)) sec)).
    assert (Htr : len tr = n) by (unfold tr, len in *; rewrite length_take, length_drop; lia).
    assert (D4 : drop (Z.to_nat (at_ + 12)) sec = tr ++ drop (Z.to_nat (at_ + 12 + n)) sec).
    { unfold tr. rewrite <- (firstn_skipn (Z.to_nat n) (drop (Z.to_nat (at_ + 12)) sec)) at 1. rewrite drop_drop.
      do 2 f_equal. lia. }
    exists ({| rt_name_off := name; rt_info := info; rt_size_or_type := sz; rt_trailing := tr |} :: raws).
    split_and!.
    + constructor; [|done]. unfold raw_ok. simpl. rewrite Htr.
      do 4 (split; [done|]). by apply Forall_take, Forall_drop.
    + replace (at_ + 4 + 4) with (at_ + 8) in D2 by lia. replace (at_ + 8 + 4) with (at_ + 12) in D3 by lia.
      cbn [map concat]. unfold encode_raw at 1. cbn [rt_name_off rt_info rt_size_or_type rt_trailing]. rewrite D1, D2, D3, D4, Hdrop. by rewrite <- !app_assoc.
    + rewrite <- app_assoc. simpl. do 3 f_equal. rewrite encode_raw_len. simpl. lia.
Qed.

Lemma ok_or_ok {E A} (o : option A) (e : E) a : ok_or o e = Ok a <-> o = Some a.
Proof. destruct o; simpl; split; intros H; congruence. Qed.

Lemma u16_at_some sec at_ v :
  bytes_ok sec -> 0 <= at_ -> u16_at sec at_ = Some v ->
  at_ + 2 <= len sec /\ drop (Z.to_nat at_) sec = le_bytes 2 v ++ drop (Z.to_nat (at_ + 2)) sec.
Proof.
  intros Hok Hat H. unfold u16_at in H. destruct (get_range _ _ _) as [x|] eqn:Hr; [|done].
  apply Some_inj in H. apply get_range_some in Hr as (_ & Hle & Hx).
  replace (Z.to_nat (at_ + 2 - at_)) with 2%nat in Hx by lia.
  assert (Hb : bytes_ok x) by (subst x; by apply Forall_take, Forall_drop).
  assert (Hl : length x = 2%nat) by (subst x; rewrite length_take, length_drop; unfold len in Hle; lia).
  split; [done|]. rewrite <- (firstn_skipn 2 (drop (Z.to_nat at_) sec)) at 1. rewrite <- Hx, drop_drop. f_equal.
  - subst v. rewrite <- Hl. symmetry. by apply le_bytes_val.
  - f_equal. lia.
Qed.

Lemma header_words h rest :
  header_ok h ->
  let blob := encode_header h ++ rest in
  u16_at blob 0 = Some MAGIC /\ blob !! 2%nat = Some 1 /\ u32_at blob 4 = Some (bh_len h) /\
  u32_at blob 8 = Some (bh_type_off h) /\ u32_at blob 12 = Some (bh_type_len h) /\
  u32_at blob 16 = Some (bh_str_off h) /\ u32_at blob 20 = Some (bh_str_len h).
Proof.
  intros (_ & H1 & _ & H2 & H3 & H4 & H5) blob. destruct h as [f l toff tlen soff slen]. simpl in *.
  set (p0 := le_bytes 2 MAGIC ++ [1; f]). set (p1 := p0 ++ le_bytes 4 l). set (p2 := p1 ++ le_bytes 4 toff).
  set (p3 := p2 ++ le_bytes 4 tlen). set (p4 := p3 ++ le_bytes 4 soff).
  assert (E : forall pre v post, u32_ok v -> blob = pre ++ le_bytes 4 v ++ post -> u32_at blob (len pre) = Some v)
    by (intros pre v post Hv ->; by apply u32_at_word).
  split_and!.
  - unfold u16_at. assert (G : get_range blob 0 (0 + 2) = Some (le_bytes 2 MAGIC)); [|by rewrite G].
    apply (get_range_mid [] (le_bytes 2 MAGIC) (drop 2 blob) 0 2); [lia | done].
  - reflexivity.
  - exact (E p0 l _ H1 eq_refl).
  - exact (E p1 toff _ H2 eq_refl).
  - exact (E p2 tlen _ H3 eq_refl).
  - exact (E p3 soff _ H4 eq_refl).
  - exact (E p4 slen rest H5 eq_refl).
Qed.

Lemma words_header blob f l toff tlen soff slen :
  bytes_ok blob -> u16_at blob 0 = Some MAGIC -> blob !! 2%nat = Some 1 -> blob !! 3%nat = Some f ->
  u32_at blob 4 = Some l -> u32_at blob 8 = Some toff -> u32_at blob 12 = Some tlen ->
  u32_at blob 16 = Some soff -> u32_at blob 20 = Some slen -> HEADER_LEN <= l ->
  let h := {| bh_flags := f; bh_len := l; bh_type_off := toff; bh_type_len := tlen; bh_str_off := soff; bh_str_len := slen |} in
  header_ok h /\ blob = encode_header h ++ drop 24 blob.
Proof.
  intros Hb H0 Hv Hf H4 H8 H12 H16 H20 Hl h.
  apply u16_at_some in H0 as (_ & D0); [|done|lia].
  apply u32_at_some in H4 as (O4 & _ & D4); [|done|lia]. apply u32_at_some in H8 as (O8 & _ & D8); [|done|lia].
  apply u32_at_some in H12 as (O12 & _ & D12); [|done|lia]. apply u32_at_some in H16 as (O16 & _ & D16); [|done|lia].
  apply u32_at_some in H20 as (O20 & _ & D20); [|done|lia].
  pose proof (Forall_lookup_1 _ _ _ _ Hb Hf) as Hf8. split; [by repeat (split; [done|])|].
  change (Z.to_nat 0) with 0%nat in D0. change (Z.to_nat (0 + 2)) with 2%nat in D0. rewrite drop_0 in D0.
  change (Z.to_nat 4) with 4%nat in D4. change (Z.to_nat (4 + 4)) with (Z.to_nat 8) in D4.
  change (Z.to_nat (8 + 4)) with (Z.to_nat 12) in D8. change (Z.to_nat (12 + 4)) with (Z.to_nat 16) in D12.
  change (Z.to_nat (16 + 4)) with (Z.to_nat 20) in D16. change (Z.to_nat (20 + 4)) with 24%nat in D20.
  assert (D2 : drop 2 blob = [1; f] ++ drop 4 blob).
  { rewrite (drop_S _ _ _ Hv), (drop_S _ _ _ Hf). done. }
  unfold encode_header, h. cbn [bh_flags bh_len bh_type_off bh_type_len bh_str_off bh_str_len].
  rewrite D0 at 1. rewrite D2, D4, D8, D12, D16, D20. by rewrite <- !app_assoc.
Qed.

Lemma section_in blob hdr off n what :
  u32_ok hdr -> u32_ok off -> u32_ok n ->
  btf_section blob hdr off n what =
    ok_or (get_range blob (hdr + off) (hdr + off + n)) [Lit "BTF "; Str what; Lit " section lies outside the blob"].
Proof.
  intros H1 H2 H3. unfold u32_ok, U32 in *. unfold btf_section, checked_add_usize, U64.
  rewrite (proj2 (Z.ltb_lt _ _)) by lia. simpl. by rewrite (proj2 (Z.ltb_lt _ _)) by lia.
Qed.

Lemma parsed_says blob b :
  bytes_ok blob -> btf_parse blob = Ok b ->
  exists raws, blob_says blob raws (btf_strings b) /\ btf_types b = types_at 0 raws /\
    btf_type_sec b = concat (map encode_raw raws).
Proof.
  intros Hb H. unfold btf_parse in H. inv_ok.
  repeat match goal with
  | E : ok_or _ _ = Ok _ |- _ => apply ok_or_ok in E
  | E : negb (bool_decide _) = false |- _ => apply negb_false_iff, bool_decide_eq_true in E
  | E : negb (_ =? _) = false |- _ => apply negb_false_iff, Z.eqb_eq in E; try subst
  | E : (_ <? _) = false |- _ => apply Z.ltb_ge in E
  end.
  match goal with E : u32_at blob 4 = Some ?l, E1 : u32_at blob 8 = Some ?a, E2 : u32_at blob 12 = Some ?b,
    E3 : u32_at blob 16 = Some ?c, E4 : u32_at blob 20 = Some ?d, P : parse_types _ _ _ _ = Ok ?x |- _ =>
      destruct (u32_at_some blob 4 l Hb ltac:(lia) E) as (_ & Hlen & _);
      destruct (lookup_lt_is_Some_2 blob 3%nat ltac:(unfold len in Hlen; lia)) as [f Hf];
      destruct (words_header blob f l a b c d) as [Hh Eblob]; try done; destruct x as [types at_]
  end.
  repeat match goal with E : btf_section _ _ _ _ _ = Ok _ |- _ => rewrite section_in in E by apply Hh; apply ok_or_ok in E end.
  simpl in *. subst.
  match goal with P : parse_types _ ?sec _ _ = Ok _, G : get_range _ _ _ = Some ?sec |- _ =>
    pose proof (get_range_some _ _ _ _ G) as (_ & _ & Es);
    apply parse_types_says in P as (_ & raws & Hraws & Ed & ->); [| |lia|unfold len; lia]
  end.
  2: { rewrite Es. by apply Forall_take, Forall_drop. }
  rewrite drop_0 in Ed. exists raws. split_and!; [|done|done].
  eexists _, _. split_and!; [exact Hh | exact Eblob | done | by rewrite <- Ed | done].
Qed.

Lemma said_parses blob raws strings :
  blob_says blob raws strings ->
  btf_parse blob = Ok {| btf_types := types_at 0 raws; btf_type_sec := concat (map encode_raw raws); btf_strings := strings |}.
Proof.
  intros (h & rest & Hh & -> & Hraws & Ht & Hs). unfold btf_parse.
  destruct (header_words h rest Hh) as (E0 & E2 & E4 & E8 & E12 & E16 & E20).
  pose proof Hh as (_ & H1 & H2 & H3 & H4 & H5 & H6).
  rewrite E0, E2, E4, E8, E12, E16, E20. cbn [ok_or mbind result_mbind].
  rewrite Z.eqb_refl, bool_decide_true by done. cbn [negb refuse_if].
  rewrite (proj2 (Z.ltb_ge _ _)) by done. rewrite !section_in, Ht, Hs by done. cbn [ok_or refuse_if mbind result_mbind].
  pose proof (parse_types_reads raws (length (concat (map encode_raw raws))) [] [] Hraws ltac:(done)) as P.
  cbn [app] in P. change (len (@nil Z)) with 0 in P. rewrite P. cbn [snd fst mbind result_mbind]. by rewrite Z.eqb_refl.
Qed.

Lemma types_at_lookup raws at_ i :
  types_at at_ raws !! i = (fun r => type_at (at_ + len (concat (map encode_raw (take i raws)))) r) <$> raws !! i.
Proof.
  revert at_ i. induction raws as [|r raws IH]; intros at_ [|i]; cbn [types_at take map concat]; [done|done| |].
  - cbn [lookup list_lookup fmap option_fmap option_map]. change (len (@nil Z)) with 0. by rewrite Z.add_0_r.
  - cbn [lookup list_lookup]. rewrite IH. destruct (raws !! i); [|done]. cbn [fmap option_fmap option_map].
    by rewrite len_app, Z.add_assoc.
Qed.

Section read.
Context (raws : list RawType) (strings : list Z) (Hraws : Forall raw_ok raws).
Let b : Btf := {| btf_types := types_at 0 raws; btf_type_sec := concat (map encode_raw raws); btf_strings := strings |}.

(** Record [i] as the reader holds it. *)
Definition read_type (i : nat) (r : RawType) : BtfType := type_at (len (concat (map encode_raw (take i raws)))) r.

Lemma by_id_numbered id t :
  by_id b id = Some t <-> exists r, numbered raws id r /\ t = read_type (Z.to_nat (id - 1)) r.
Proof.
  unfold by_id, numbered. simpl. rewrite types_at_lookup. destruct (Z.ltb_spec id 1).
  { split; [done|]. intros (r & [? _] & _). lia. }
  destruct (raws !! _) as [r|]; simpl; split; try done.
  - intros [= <-]. exists r. split; [split; [lia | done] | done].
  - intros (r' & [_ [= <-]] & ->). done.
  - intros (r' & [_ ?] & _). done.
Qed.

(** The fields of a record, its place aside. *)
Definition shows (t : BtfType) (r : RawType) : Prop :=
  bt_kind t = kind_of r /\ bt_name_off t = rt_name_off r /\ bt_size_or_type t = rt_size_or_type r.

Lemma strip_resolves n id :
  match strip_turns n b id with
  | Some t => exists k r, (k < n)%nat /\ resolves raws k id r /\ shows t r
  | None => forall k r, (k < n)%nat -> ~ resolves raws k id r
  end.
Proof.
  revert id. induction n as [|n IH]; intros id; cbn [strip_turns]; [lia|].
  destruct (by_id b id) as [q|] eqn:Hq; cbn [mbind option_bind].
  - apply by_id_numbered in Hq as (r & Hr & ->). change (bt_kind _) with (kind_of r).
    change (bt_size_or_type _) with (rt_size_or_type r). destruct (is_qualifier (kind_of r)) eqn:K.
    + specialize (IH (rt_size_or_type r)). destruct (strip_turns n b _) as [t|].
      * destruct IH as (k & r' & Hk & Hres & Ht). exists (S k), r'. split_and!; [lia | by econstructor | done].
      * intros k r' Hk Hres. inversion Hres as [? ? Hn' K'|k' ? q ? Hn' K' Hres']; subst;
          destruct Hr as [_ Hr], Hn' as [_ Hn']; simplify_eq; [congruence|]. apply (IH k' r'); [lia | done].
    + exists 0%nat, r. split_and!; [lia | by constructor | done].
  - intros k r _ Hres. assert (exists q, numbered raws id q) as [q Hn] by (inversion Hres; subst; eauto).
    assert (by_id b id = Some (read_type (Z.to_nat (id - 1)) q)) by (apply by_id_numbered; eauto). congruence.
Qed.

Lemma resolves_det k k' id r r' : resolves raws k id r -> resolves raws k' id r' -> k = k' /\ r = r'.
Proof.
  intros H. revert k'. induction H as [id r [_ Hn] K|k id q r [_ Hn] K _ IH]; intros k' H';
    inversion H' as [? ? [_ Hn'] K'|k2 ? q' ? [_ Hn'] K' Hres']; subst; simplify_eq; try congruence; [done|].
  destruct (IH _ Hres') as [-> ->]. done.
Qed.

(** What [members] finds at place [j] of record [i]. *)
Lemma member_reads i r j :
  raws !! i = Some r -> kind_of r = KIND_STRUCT -> (j < Z.to_nat (info_vlen (rt_info r)))%nat ->
  btf_member b (read_type i r) j =
    Some (member_name strings r j, member_word r j 1,
          let w := member_word r j 2 in
          if info_flag (rt_info r) then if Z.shiftr w 24 =? 0 then Z.land w 0x00ffffff else U32_MAX else w).
Proof.
  intros Hi Hk Hj.
  assert (Hr : raw_ok r) by (by eapply Forall_lookup_1).
  destruct Hr as (_ & _ & _ & Ht & _). fold (kind_of r) in Ht. rewrite Hk in Ht. cbv [trailing] in Ht. simpl in Ht.
  apply Some_inj in Ht.
  set (pre := concat (map encode_raw (take i raws))). set (post := concat (map encode_raw (drop (S i) raws))).
  assert (Esec : btf_type_sec b = (pre ++ le_bytes 4 (rt_name_off r) ++ le_bytes 4 (rt_info r) ++ le_bytes 4 (rt_size_or_type r))
      ++ rt_trailing r ++ post).
  { simpl. rewrite <- (take_drop_middle raws i r Hi) at 1. rewrite map_app, concat_app. simpl. fold pre post.
    unfold encode_raw. by rewrite <- !app_assoc. }
  assert (W : forall k, (k < 3)%nat ->
    u32_at (btf_type_sec b) (bt_extra (read_type i r) + 12 * Z.of_nat j + 4 * Z.of_nat k) = Some (member_word r j k)).
  { intros k Hlt. unfold u32_at. rewrite Esec.
    match goal with |- context [get_range (?p ++ _ ++ _) ?x _] =>
      replace x with (len p + (12 * Z.of_nat j + 4 * Z.of_nat k)) end.
    2: { change (bt_extra (read_type i r)) with (len pre + TYPE_LEN). unfold len, TYPE_LEN. rewrite !length_app, !length_le_bytes. lia. }
    rewrite <- Z.add_assoc. rewrite get_range_mid by (pose proof (info_vlen_range (rt_info r)); lia).
    simpl. unfold member_word. do 3 f_equal; [|f_equal]; lia. }
  unfold btf_member. pose proof (W 0%nat ltac:(lia)) as W0. rewrite Z.add_0_r in W0. rewrite W0.
  pose proof (W 1%nat ltac:(lia)) as W1. pose proof (W 2%nat ltac:(lia)) as W2.
  change (4 * Z.of_nat 1) with 4 in W1. change (4 * Z.of_nat 2) with 8 in W2. rewrite W1, W2. cbn [mbind option_bind].
  simpl bt_kind_flag. by destruct (info_flag _).
Qed.
Lemma find_first {A} (f : nat -> A) (p : A -> bool) a n x :
  List.find p (map f (seq a n)) = Some x <->
  exists i, (a <= i < a + n)%nat /\ x = f i /\ p (f i) = true /\ forall j, (a <= j < i)%nat -> p (f j) = false.
Proof.
  revert a. induction n as [|n IH]; intros a; cbn [seq map List.find].
  { split; [done | intros (i & ? & _); lia]. }
  destruct (p (f a)) eqn:Hp.
  - split; [intros [= <-]; exists a; split_and!; [lia | lia | done | done | lia]|].
    intros (i & Hi & -> & _ & Hmin). destruct (Nat.eq_dec i a) as [->|]; [done|].
    rewrite Hmin in Hp by lia. done.
  - rewrite IH. split; intros (i & Hi & Hx & Hpi & Hmin).
    + exists i. split_and!; [lia | lia | done | done|]. intros j Hj. destruct (Nat.eq_dec j a) as [->|]; [done|].
      apply Hmin. lia.
    + assert (i <> a) by congruence. exists i. split_and!; [lia | lia | done | done|]. intros j Hj. apply Hmin. lia.
Qed.

(** The bit offset of a member, as the code computes it, is the one [starts_at] gives. *)
Lemma bits_start r j off :
  0 <= member_word r j 2 ->
  let w := member_word r j 2 in
  let bits := if info_flag (rt_info r) then if Z.shiftr w 24 =? 0 then Z.land w 0x00ffffff else U32_MAX else w in
  (bits =? U32_MAX) || negb (bits mod 8 =? 0) = false /\ bits / 8 = off <-> starts_at r j (8 * off).
Proof.
  intros Hw w bits. assert (Hex : (bits =? U32_MAX) || negb (bits mod 8 =? 0) = false /\ bits / 8 = off <->
      bits = 8 * off /\ bits <> U32_MAX).
  { rewrite orb_false_iff, negb_false_iff, Z.eqb_eq, Z.eqb_neq. pose proof (Z.div_mod bits 8 ltac:(lia)).
    split; [intros ((? & ?) & ?); lia|]. intros [E ?]. split; [split; [done|]|]; rewrite E, Z.mul_comm;
      [apply Z.mod_mul | apply Z.div_mul]; lia. }
  rewrite Hex. unfold starts_at, bits. fold w. fold w in Hw. clear Hex.
  assert (Hsh : Z.shiftr w 24 = 0 <-> w < 2 ^ 24).
  { rewrite Z.shiftr_div_pow2 by lia. split; intros; [|apply Z.div_small; lia].
    destruct (Z_lt_ge_dec w (2 ^ 24)); [done|]. pose proof (Z.div_le_mono (2 ^ 24) w (2 ^ 24)). rewrite Z.div_same in * by lia. lia. }
  destruct (info_flag _).
  - destruct (Z.eqb_spec (Z.shiftr w 24) 0) as [E|E].
    + apply Hsh in E. change 0x00ffffff with (Z.ones 24). rewrite Z.land_ones, Z.mod_small by lia.
      unfold U32_MAX. split; intros [? ?]; split; lia.
    + split; [intros [? ?]; unfold U32_MAX in *; lia|]. intros [? ?]. exfalso. apply E, Hsh. lia.
  - unfold U32_MAX. split; [intros [? _]; done|]. intros ->. split; [done|]. intros E. lia.
Qed.

Lemma member_word_nonneg i r j k : raws !! i = Some r -> 0 <= member_word r j k.
Proof.
  intros Hi. assert (Hr : raw_ok r) by (by eapply Forall_lookup_1). destruct Hr as (_ & _ & _ & _ & Hb).
  unfold member_word. apply le_val_range. by apply Forall_take, Forall_drop.
Qed.

Lemma members_read i r :
  raws !! i = Some r -> kind_of r = KIND_STRUCT ->
  btf_members b (read_type i r) =
    map (fun j => (member_name strings r j, member_word r j 1,
          let w := member_word r j 2 in
          if info_flag (rt_info r) then if Z.shiftr w 24 =? 0 then Z.land w 0x00ffffff else U32_MAX else w))
        (seq 0 (Z.to_nat (info_vlen (rt_info r)))).
Proof.
  intros Hi Hk. unfold btf_members. change (bt_vlen _) with (info_vlen (rt_info r)).
  assert (G : forall a n, (a + n <= Z.to_nat (info_vlen (rt_info r)))%nat ->
    omap (btf_member b (read_type i r)) (seq a n) = map (fun j => (member_name strings r j, member_word r j 1,
          let w := member_word r j 2 in
          if info_flag (rt_info r) then if Z.shiftr w 24 =? 0 then Z.land w 0x00ffffff else U32_MAX else w)) (seq a n)).
  { intros a n. revert a. induction n as [|n IH]; intros a Hn; [done|]. cbn [seq map].
    cbn [omap list_omap]. rewrite (member_reads i r a) by (done || lia). f_equal. apply IH. lia. }
  by apply G.
Qed.
Lemma filename_offset_exact i r off :
  raws !! i = Some r -> kind_of r = KIND_STRUCT ->
  filename_offset_of b (read_type i r) = Ok off <-> filename_at raws strings r off.
Proof.
  intros Hi Hk. unfold filename_offset_of. rewrite (members_read i r Hi Hk).
  match goal with |- context [List.find ?p ?l] => destruct (List.find p l) as [[[nm ty] bits]|] eqn:Hf end.
  2: { split; [done|]. intros (j & _ & _ & _ & _ & Hj & Hn & Hmin & _). exfalso.
       eapply (List.find_none _ _) in Hf; [|apply in_map, in_seq; split; [apply Nat.le_0_l | exact Hj]].
       simpl in Hf. by rewrite Hn in Hf. }
  apply find_first in Hf as (j & Hj & E & Hn & Hmin). cbn [fst] in Hn, Hmin.
  apply pair_equal_spec in E as [E Eb]. apply pair_equal_spec in E as [_ ->]. rewrite Eb. clear Eb bits.
  apply bool_decide_eq_true in Hn.
  assert (Huniq : forall j', (j' < Z.to_nat (info_vlen (rt_info r)))%nat -> member_name strings r j' = as_bytes "filename" ->
    (forall k, (k < j')%nat -> member_name strings r k <> as_bytes "filename") -> j' = j).
  { intros j' Hlt Hn' Hmin'. destruct (Nat.lt_trichotomy j' j) as [Hc|[Hc|Hc]]; [|done|].
    - specialize (Hmin j' ltac:(lia)). apply bool_decide_eq_false in Hmin. done.
    - by destruct (Hmin' j Hc). }
  pose proof (bits_start r j off (member_word_nonneg i r j 2 Hi)) as Hbits. cbv zeta in Hbits |- *.
  set (bits := if info_flag (rt_info r) then _ else _) in *.
  assert (Hfirst : forall k, (k < j)%nat -> member_name strings r k <> as_bytes "filename").
  { intros k Hlt. specialize (Hmin k ltac:(lia)). by apply bool_decide_eq_false in Hmin. }
  pose proof (strip_resolves 32 (member_word r j 1)) as Hp.
  unfold btf_strip. split.
  - intros H. apply bind_ok_unit in H as [Hb1 H]. apply refuse_if_ok in Hb1.
    destruct (strip_turns 32 b (member_word r j 1)) as [ptr|]; [|done].
    destruct Hp as (n & rp & Hnlt & Hres & (Kp & Np & Sp)).
    destruct (Z.eqb_spec (bt_kind ptr) KIND_PTR) as [Ek|]; [|done].
    pose proof (strip_resolves 32 (bt_size_or_type ptr)) as Hc.
    destruct (strip_turns 32 b (bt_size_or_type ptr)) as [chr|]; [|done].
    destruct Hc as (m & rc & Hmlt & Hres' & (Kc & Nc & Sc)). inv_ok.
    match goal with E : negb (_ && _) = false |- _ => apply negb_false_iff, andb_true_iff in E as [E1 E2] end.
    apply Z.eqb_eq in E1. apply bool_decide_eq_true in E2.
    exists j, rp, rc, n, m. rewrite Kp in *. rewrite Sp in *. rewrite Kc, Nc in *.
    split; [lia|]. split; [exact Hn|]. split; [exact Hfirst|]. split; [apply Hbits; split; [exact Hb1 | reflexivity]|].
    split; [exact Hres|]. split; [exact Hnlt|]. split; [exact Ek|]. split; [exact Hres'|]. split; [exact Hmlt|].
    split; assumption.
  - intros (j' & rp & rc & n & m & Hlt & Hn' & Hmin' & Hst & Hres & Hn32 & Kp & Hres' & Hm32 & Kc & Nc).
    assert (j' = j) as -> by (by apply Huniq). apply Hbits in Hst as [Hb1 Hb2].
    rewrite Hb1. cbn [refuse_if mbind result_mbind].
    destruct (strip_turns 32 b (member_word r j 1)) as [ptr|]; [|by destruct (Hp n rp)].
    destruct Hp as (n' & rp' & _ & Hres2 & (K & N & S)). destruct (resolves_det _ _ _ _ _ Hres Hres2) as [<- <-].
    rewrite K, Kp. rewrite Z.eqb_refl. cbn [mbind result_mbind].
    pose proof (strip_resolves 32 (bt_size_or_type ptr)) as Hc. rewrite S in *.
    destruct (strip_turns 32 b (rt_size_or_type rp)) as [chr|]; [|by destruct (Hc m rc)].
    destruct Hc as (m' & rc' & _ & Hres3 & (K2 & N2 & S2)). destruct (resolves_det _ _ _ _ _ Hres' Hres3) as [<- <-].
    rewrite K2, N2, Kc. rewrite Z.eqb_refl. rewrite bool_decide_true by done. cbn [andb negb refuse_if mbind result_mbind]. by rewrite Hb2.
Qed.
Lemma is_binprm_named i r : is_binprm b (read_type i r) = true <-> named_binprm strings r.
Proof. unfold is_binprm, named_binprm. by rewrite andb_true_iff, Z.eqb_eq, bool_decide_eq_true. Qed.

(** The loop answers an offset exactly when every matching struct gives it and there is
    one, or it was found before. *)
Lemma find_filename_exact ts found off :
  find_filename b ts found = Ok (Some off) <->
  (forall t, t ∈ ts -> is_binprm b t = true -> filename_offset_of b t = Ok off) /\
  (found = Some off \/ (found = None /\ exists t, t ∈ ts /\ is_binprm b t = true)).
Proof.
  revert found. induction ts as [|t ts IH]; intros found; cbn [find_filename].
  { split; [intros [= ->]; split; [intros t Ht; set_solver | by left]|].
    intros [_ [->|(_ & t & Ht & _)]]; [done | set_solver]. }
  destruct (is_binprm b t) eqn:Ht; cbn [negb].
  2: { rewrite IH. setoid_rewrite elem_of_cons. split; intros [Hall Hf].
       - split; [|naive_solver]. intros t' [->|Ht'] Hb'; [congruence | by apply Hall].
       - split; [naive_solver|]. destruct Hf as [?|[? (t' & [->|Ht'] & Hb')]]; [by left | congruence | right; eauto]. }
  split.
  - intros H. apply bind_ok in H as (o & Ho & H). apply bind_ok_unit in H as [Hf H]. apply refuse_if_ok in Hf.
    apply IH in H as [Hall [[= ->]|[? _]]]; [|done]. split.
    + intros t' Ht' Hb'. apply elem_of_cons in Ht' as [->|Ht']; [done | by apply Hall].
    + destruct found as [prev|]; [left | right; split; [done | exists t; set_solver]].
      apply negb_false_iff, Z.eqb_eq in Hf. by subst.
  - intros [Hall Hf]. rewrite (Hall t) by set_solver. cbn [mbind result_mbind].
    assert (Hc : match found with Some prev => negb (prev =? off) | None => false end = false).
    { destruct Hf as [->|[-> _]]; [by rewrite Z.eqb_refl | done]. }
    rewrite Hc. cbn [refuse_if]. apply IH. split; [set_solver | by left].
Qed.
End read.


(** A kernel with one [struct linux_binprm], whose [filename] at byte 96 reaches [char]
    through a pointer and [qualifiers] times [const]. *)
Definition example_strings : list Z :=
  [0] ++ as_bytes "linux_binprm" ++ [0] ++ as_bytes "filename" ++ [0] ++ as_bytes "char" ++ [0].
Definition example_raws (qualifiers : nat) : list RawType :=
  [{| rt_name_off := 23; rt_info := KIND_INT * 2 ^ 24; rt_size_or_type := 1; rt_trailing := [8; 0; 0; 0] |};
   {| rt_name_off := 0; rt_info := KIND_PTR * 2 ^ 24; rt_size_or_type := 3 + Z.of_nat qualifiers; rt_trailing := [] |};
   {| rt_name_off := 1; rt_info := KIND_STRUCT * 2 ^ 24 + 1; rt_size_or_type := 400;
      rt_trailing := le_bytes 4 14 ++ le_bytes 4 2 ++ le_bytes 4 (8 * 96) |}] ++
  map (fun i => {| rt_name_off := 0; rt_info := KIND_CONST * 2 ^ 24; rt_size_or_type := if (i =? 0)%nat then 1 else 3 + Z.of_nat i;
                   rt_trailing := [] |}) (seq 0 qualifiers).
Definition example_blob (qualifiers : nat) : list Z :=
  let sec := concat (map encode_raw (example_raws qualifiers)) in
  encode_header {| bh_flags := 0; bh_len := 24; bh_type_off := 0; bh_type_len := len sec;
                   bh_str_off := len sec; bh_str_len := len example_strings |} ++ sec ++ example_strings.


(** The comment admits any number of qualifiers; the reader follows 31. *)
Lemma long_chain_is_refused :
  binprm_filename_offset (example_blob 31) = Ok 96 /\
  binprm_filename_offset (example_blob 32) = Err [Lit "linux_binprm::filename does not point at char"].
Proof. vm_compute. done. Qed.
