(* ===== verification/Siem.v ===== *)
(** * Records for somebody else's system

    The three profiles of [crates/ferrum-siem]: [sanitize], the severities and the message
    of [lib.rs], CEF ([cef.rs]), RFC 5424 ([rfc5424.rs]) and ECS ([ecs.rs]). Text is bytes;
    a [char] is the bytes of its encoding. The texts of an instant are chrono's and the text
    of a JSON value is serde_json's: both are parameters. The second half has a receiver for
    either syslog profile, after the formats' own documents, and shows that it reads back
    the fields that were put in, whatever the event carries. *)

From S2P Require Import Prelude RustStd RustText Ids Compiler Json AgentState React Proto.

(** ** [lib.rs] *)

Inductive Profile : Type := Cef | Rfc5424 | Ecs.
Definition profile_all : list Profile := [Cef; Rfc5424; Ecs].
Definition profile_name (p : Profile) : string :=
  match p with Cef => "cef" | Rfc5424 => "rfc5424" | Ecs => "ecs" end.
Definition profile_parse_name (text : string) : result msg Profile :=
  ok_or (List.find (fun p => str_eqb (profile_name p) text) profile_all)
    [Lit "unknown --siem-profile "; Dbg text; Lit "; known: "; Names (map profile_name profile_all)].

Inductive Disposition : Type := Emitted | Withheld.

(** The table of leaves, with the two columns the code reads; the third says why, for a
    human. *)
Definition FIELDS : list (string * Disposition) :=
  [("schema", Emitted); ("schemaVersion", Emitted); ("ts", Emitted); ("node", Emitted); ("bundleDigest", Emitted);
   ("agentRole", Emitted); ("degraded", Emitted); ("degradedReasons", Emitted); ("event.policy", Emitted);
   ("event.rule", Emitted); ("event.action", Emitted); ("event.imageDigest", Emitted); ("event.pod", Emitted);
   ("event.namespace", Emitted); ("event.comm", Emitted); ("event.syscall", Emitted); ("event.pid", Emitted);
   ("event.tgid", Emitted); ("event.executed", Emitted); ("event.respondError", Emitted);
   ("event.labelsUnknown", Emitted); ("event.pathUnknown", Emitted); ("event.containerUnknown", Emitted);
   ("event.waiver.ticket", Emitted); ("event.waiver.requestedBy", Withheld); ("event.waiver.approvedBy", Withheld);
   ("event.waiver.expiresAt", Emitted)].
Definition disposition (path : string) : option Disposition :=
  snd <$> List.find (fun f => str_eqb (fst f) path) FIELDS.

Definition MAX_FIELD_BYTES : Z := 512.
Definition TRUNCATION_MARK : list Z := as_bytes "...".

(** [ch as u32] *)
Definition code_point (c : list Z) : Z :=
  match c with
  | [b0] => b0
  | [b0; b1] => Z.lor (Z.shiftl (Z.land b0 0x1f) 6) (Z.land b1 0x3f)
  | [b0; b1; b2] => Z.lor (Z.lor (Z.shiftl (Z.land b0 0x0f) 12) (Z.shiftl (Z.land b1 0x3f) 6)) (Z.land b2 0x3f)
  | [b0; b1; b2; b3] =>
      Z.lor (Z.lor (Z.lor (Z.shiftl (Z.land b0 0x07) 18) (Z.shiftl (Z.land b1 0x3f) 12))
                   (Z.shiftl (Z.land b2 0x3f) 6)) (Z.land b3 0x3f)
  | _ => 0
  end.

(** [format!("\\x{:02x}", ..)] of a byte. *)
Definition escape_byte (b : Z) : list Z := [92; 120; hex_digit (Z.shiftr b 4); hex_digit (Z.land b 15)].

(** What one character becomes. *)
Definition sanitize_piece (c : list Z) : list Z :=
  if (is_control c && negb (bool_decide (c = [32]))) || bool_decide (c = [0x7f])
  then escape_byte (Z.land (code_point c) 0xff) else c.

(** The loop over the characters: what was pushed and whether it was cut short. *)
Fixpoint sanitize_chars (budget : Z) (cs : list (list Z)) : list Z * bool :=
  match cs with
  | [] => ([], false)
  | c :: cs' =>
      let piece := sanitize_piece c in
      if budget <? len piece then ([], true)
      else let '(out, truncated) := sanitize_chars (budget - len piece) cs' in (piece ++ out, truncated)
  end.
Definition sanitize (value : string) : list Z :=
  let '(out, truncated) := sanitize_chars MAX_FIELD_BYTES (chars (as_bytes value)) in
  if truncated then out ++ TRUNCATION_MARK else out.

Definition REASON_SEPARATOR : list Z := as_bytes ",".

(** [slice.join(sep)] *)
Fixpoint join_with (sep : list Z) (items : list (list Z)) : list Z :=
  match items with
  | [] => []
  | [x] => x
  | x :: items' => x ++ sep ++ join_with sep items'
  end.

Definition degraded_reasons_text (env : EventEnvelope) : list Z :=
  join_with REASON_SEPARATOR (map sanitize (en_degraded_reasons env)).

Definition severity (action : string) (executed : bool) : Z :=
  if list_contains ["kill"; "isolate"] action then if executed then 9 else 7
  else if str_eqb action "deny" then 8
  else if str_eqb action "waived" then 4
  else if str_eqb action "audit" then 3
  else if str_eqb action "allow" then 1
  else 5.

Definition bool_text (flag : bool) : list Z := as_bytes (if flag then "true" else "false").

Definition message (env : EventEnvelope) : list Z :=
  let e := en_event env in
  sanitize (ee_action e) ++ as_bytes " " ++ sanitize (ee_namespace e) ++ as_bytes "/" ++ sanitize (ee_pod e)
  ++ as_bytes " rule=" ++ sanitize (ee_rule e) ++ as_bytes " policy=" ++ sanitize (ee_policy e)
  ++ as_bytes " comm=" ++ sanitize (ee_comm e) ++ as_bytes " syscall=" ++ sanitize (ee_syscall e)
  ++ as_bytes " executed=" ++ bool_text (ee_executed e).

(** [to_string] of an integer; twenty digits are enough for 64 bits. *)
Definition int_text (n : Z) : list Z :=
  if n <? 0 then 45 :: rev (digits_rev 20 (- n)) else rev (digits_rev 20 n).

(** chrono: milliseconds of an instant, and its RFC 3339 text to the second and to the
    millisecond. *)
Class ChronoText : Type := {
  timestamp_millis : Z -> Z;
  rfc3339_secs : Z -> list Z;
  rfc3339_millis : Z -> list Z
}.

Section profiles.
Context `{Chrono : ChronoText} (fmt : msg -> string).

(** [sanitize] of a text that may be absent, and of the reason of a refused reaction. *)
Definition sanitize_opt (v : option string) : list Z := default [] (sanitize <$> v).
Definition sanitize_msg (m : msg) : list Z := sanitize (fmt m).

(** ** [rfc5424.rs] *)

Definition SD_ID : string := "ferrum@32473".
Definition APP_NAME : string := "ferrum-agent".
Definition MSG_ID : string := "enforcement".
Definition FACILITY : Z := 16.

Definition syslog_severity (cef_severity : Z) : Z :=
  if in_range 9 10 cef_severity then 3
  else if in_range 7 8 cef_severity then 4
  else if in_range 4 6 cef_severity then 5
  else 6.

Definition hostname (node : string) : list Z :=
  let cleaned := concat (map (fun c => if is_whitespace c then [95] else c) (chars (sanitize node))) in
  if is_empty cleaned then as_bytes "-" else cleaned.

Definition frame (env : EventEnvelope) (cef_severity : Z) (structured_data msg : list Z) : list Z :=
  let pri := FACILITY * 8 + syslog_severity cef_severity in
  as_bytes "<" ++ int_text pri ++ as_bytes ">1 " ++ rfc3339_millis (en_ts env) ++ as_bytes " " ++
  hostname (en_node env) ++ as_bytes " " ++ as_bytes APP_NAME ++ as_bytes " - " ++ as_bytes MSG_ID ++
  as_bytes " " ++ structured_data ++ as_bytes " " ++ msg.

(** A character behind a backslash when [special] says so: the loops of [Element::put],
    [escape_header] and [escape_extension_value]. *)
Definition escape_chars (special : list (list Z)) (value : list Z) : list Z :=
  concat (map (fun c => if bool_decide (c ∈ special) then 92 :: c else c) (chars value)).

Definition element_new (sd_id : string) : list Z := as_bytes "[" ++ as_bytes sd_id.
Definition element_put (name : string) (value : list Z) (el : list Z) : list Z :=
  el ++ as_bytes " " ++ as_bytes name ++ [61; 34] ++ escape_chars [[34]; [92]; [93]] value ++ [34].
Definition element_close (el : list Z) : list Z := el ++ as_bytes "]".

Definition rfc5424_render (env : EventEnvelope) : list Z :=
  let e := en_event env in
  let sev := severity (ee_action e) (ee_executed e) in
  let sd := element_new SD_ID in
  let sd := element_put "schema" (as_bytes (schema_id_text (en_schema env))) sd in
  let sd := element_put "schemaVersion" (version_text (en_schema_version env)) sd in
  let sd := element_put "node" (sanitize (en_node env)) sd in
  let sd := element_put "agentRole" (sanitize (en_agent_role env)) sd in
  let sd := element_put "degraded" (bool_text (en_degraded env)) sd in
  let sd := element_put "degradedReasons" (degraded_reasons_text env) sd in
  let sd := element_put "bundleDigest" (sanitize_opt (en_bundle_digest env)) sd in
  let sd := element_put "policy" (sanitize (ee_policy e)) sd in
  let sd := element_put "rule" (sanitize (ee_rule e)) sd in
  let sd := element_put "action" (sanitize (ee_action e)) sd in
  let sd := element_put "imageDigest" (sanitize_opt (ee_image_digest e)) sd in
  let sd := element_put "namespace" (sanitize (ee_namespace e)) sd in
  let sd := element_put "pod" (sanitize (ee_pod e)) sd in
  let sd := element_put "comm" (sanitize (ee_comm e)) sd in
  let sd := element_put "syscall" (sanitize (ee_syscall e)) sd in
  let sd := element_put "pid" (int_text (ee_pid e)) sd in
  let sd := element_put "tgid" (int_text (ee_tgid e)) sd in
  let sd := element_put "executed" (bool_text (ee_executed e)) sd in
  let sd := element_put "labelsUnknown" (bool_text (ee_labels_unknown e)) sd in
  let sd := element_put "pathUnknown" (bool_text (ee_path_unknown e)) sd in
  let sd := element_put "containerUnknown" (bool_text (ee_container_unknown e)) sd in
  let sd := match ee_respond_error e with
            | Some reason => element_put "respondError" (sanitize_msg reason) sd
            | None => sd
            end in
  let sd := match ee_waiver e with
            | Some waiver =>
                element_put "waiverExpiresAt" (rfc3339_secs (wr_expires_at waiver))
                  (element_put "waiverTicket" (sanitize (wr_ticket waiver)) sd)
            | None => sd
            end in
  frame env sev (element_close sd) (message env).

(** ** [cef.rs] *)

Definition VENDOR : string := "Ferrum".
Definition PRODUCT : string := "ferrum".
Definition DEVICE_VERSION : string := "0.1.0".

Definition escape_header (value : list Z) : list Z := escape_chars [[92]; [124]] value.
Definition escape_extension_value (value : list Z) : list Z := escape_chars [[92]; [61]] value.

(** [Extension::put], [Extension::labelled] *)
Definition ext_put (key : string) (value : list Z) (ext : list Z) : list Z :=
  (if is_empty ext then ext else ext ++ [32]) ++ as_bytes key ++ [61] ++ escape_extension_value value.
Definition ext_labelled (slot label : string) (value : list Z) (ext : list Z) : list Z :=
  ext_put slot value (ext_put (slot +:+ "Label") (as_bytes label) ext).

Definition cef_extension (env : EventEnvelope) : list Z :=
  let e := en_event env in
  let ext := [] in
  let ext := ext_put "rt" (int_text (timestamp_millis (en_ts env))) ext in
  let ext := ext_put "dvchost" (sanitize (en_node env)) ext in
  let ext := ext_put "act" (sanitize (ee_action e)) ext in
  let ext := ext_put "outcome" (as_bytes (if ee_executed e then "success" else "failure")) ext in
  let ext := ext_put "sproc" (sanitize (ee_comm e)) ext in
  let ext := ext_put "spid" (int_text (ee_pid e)) ext in
  let ext := ext_labelled "cs1" "ferrumPolicy" (sanitize (ee_policy e)) ext in
  let ext := ext_labelled "cs2" "ferrumNamespace" (sanitize (ee_namespace e)) ext in
  let ext := ext_labelled "cs3" "ferrumPod" (sanitize (ee_pod e)) ext in
  let ext := ext_labelled "cs4" "ferrumSyscall" (sanitize (ee_syscall e)) ext in
  let ext := ext_labelled "cs5" "ferrumBundleDigest" (sanitize_opt (en_bundle_digest env)) ext in
  let ext := ext_labelled "cs6" "ferrumImageDigest" (sanitize_opt (ee_image_digest e)) ext in
  let ext := ext_put "cn1Label" (as_bytes "ferrumTgid") ext in
  let ext := ext_put "cn1" (int_text (ee_tgid e)) ext in
  let ext := ext_put "ferrumSchema" (as_bytes (schema_id_text (en_schema env))) ext in
  let ext := ext_put "ferrumSchemaVersion" (version_text (en_schema_version env)) ext in
  let ext := ext_put "ferrumAgentRole" (sanitize (en_agent_role env)) ext in
  let ext := ext_put "ferrumDegraded" (bool_text (en_degraded env)) ext in
  let ext := ext_put "ferrumDegradedReasons" (degraded_reasons_text env) ext in
  let ext := ext_put "ferrumExecuted" (bool_text (ee_executed e)) ext in
  let ext := ext_put "ferrumLabelsUnknown" (bool_text (ee_labels_unknown e)) ext in
  let ext := ext_put "ferrumPathUnknown" (bool_text (ee_path_unknown e)) ext in
  let ext := ext_put "ferrumContainerUnknown" (bool_text (ee_container_unknown e)) ext in
  let ext := match ee_respond_error e with
             | Some reason => ext_put "ferrumRespondError" (sanitize_msg reason) ext
             | None => ext
             end in
  let ext := match ee_waiver e with
             | Some waiver =>
                 ext_put "ferrumWaiverExpiresAt" (rfc3339_secs (wr_expires_at waiver))
                   (ext_put "ferrumWaiverTicket" (sanitize (wr_ticket waiver)) ext)
             | None => ext
             end in
  ext_put "msg" (message env) ext.

Definition cef_payload (env : EventEnvelope) : list Z :=
  let e := en_event env in
  as_bytes "CEF:0|" ++ escape_header (as_bytes VENDOR) ++ as_bytes "|" ++ escape_header (as_bytes PRODUCT) ++
  as_bytes "|" ++ escape_header (as_bytes DEVICE_VERSION) ++ as_bytes "|" ++ escape_header (sanitize (ee_rule e)) ++
  as_bytes "|" ++ escape_header (sanitize (ee_action e)) ++ as_bytes "|" ++
  int_text (severity (ee_action e) (ee_executed e)) ++ as_bytes "|" ++ cef_extension env.

Definition cef_render (env : EventEnvelope) : list Z :=
  let e := en_event env in
  frame env (severity (ee_action e) (ee_executed e)) (as_bytes "-") (cef_payload env).

(** ** [ecs.rs] *)

Definition ECS_VERSION : string := "8.11.0".
Definition DATASET : string := "ferrum.enforcement".

Definition ecs_type (action : string) : string :=
  if list_contains ["kill"; "isolate"; "deny"] action then "denied"
  else if list_contains ["waived"; "allow"] action then "allowed"
  else "info".

(** [json!] of a text, of a text that may be absent, and of a number. *)
Definition jtext (l : list Z) : Json := JStr (string_of_bytes l).
Definition jopt (v : option string) : Json := match v with Some s => jtext (sanitize s) | None => JNull end.
Definition jint (n : Z) : Json := JNum (Some n).

Definition ecs_ferrum (env : EventEnvelope) : Json :=
  let e := en_event env in
  JObj [("schema", JStr (schema_id_text (en_schema env)));
        ("schemaVersion", jtext (version_text (en_schema_version env)));
        ("agentRole", jtext (sanitize (en_agent_role env)));
        ("degraded", JBool (en_degraded env));
        ("degradedReasons", JArr (map (fun r => jtext (sanitize r)) (en_degraded_reasons env)));
        ("bundleDigest", jopt (en_bundle_digest env));
        ("policy", jtext (sanitize (ee_policy e)));
        ("rule", jtext (sanitize (ee_rule e)));
        ("action", jtext (sanitize (ee_action e)));
        ("syscall", jtext (sanitize (ee_syscall e)));
        ("tgid", jint (ee_tgid e));
        ("executed", JBool (ee_executed e));
        ("labelsUnknown", JBool (ee_labels_unknown e));
        ("pathUnknown", JBool (ee_path_unknown e));
        ("containerUnknown", JBool (ee_container_unknown e));
        ("respondError", match ee_respond_error e with Some reason => jtext (sanitize_msg reason) | None => JNull end);
        ("waiver", match ee_waiver e with
                   | Some waiver => JObj [("ticket", jtext (sanitize (wr_ticket waiver)));
                                          ("expiresAt", jtext (rfc3339_secs (wr_expires_at waiver)))]
                   | None => JNull
                   end)].

Definition ecs_record (env : EventEnvelope) : Json :=
  let e := en_event env in
  JObj [("@timestamp", jtext (rfc3339_millis (en_ts env)));
        ("ecs", JObj [("version", JStr ECS_VERSION)]);
        ("event", JObj [("kind", JStr "alert");
                        ("category", JArr [JStr "process"]);
                        ("type", JArr [JStr (ecs_type (ee_action e))]);
                        ("action", jtext (sanitize (ee_action e)));
                        ("outcome", JStr (if ee_executed e then "success" else "failure"));
                        ("dataset", JStr DATASET);
                        ("module", JStr "ferrum");
                        ("provider", JStr APP_NAME);
                        ("severity", jint (severity (ee_action e) (ee_executed e)))]);
        ("host", JObj [("name", jtext (sanitize (en_node env)))]);
        ("orchestrator", JObj [("type", JStr "kubernetes");
                               ("namespace", jtext (sanitize (ee_namespace e)));
                               ("resource", JObj [("type", JStr "pod"); ("name", jtext (sanitize (ee_pod e)))])]);
        ("process", JObj [("name", jtext (sanitize (ee_comm e))); ("pid", jint (ee_pid e))]);
        ("container", JObj [("image", match ee_image_digest e with
                                      | Some d => JObj [("hash", JObj [("all", JArr [jtext (sanitize d)])])]
                                      | None => JNull
                                      end)]);
        ("rule", JObj [("id", jtext (sanitize (ee_rule e))); ("ruleset", jtext (sanitize (ee_policy e)))]);
        ("message", jtext (message env));
        ("ferrum", ecs_ferrum env)].

(** [Value::to_string], the compact text of a JSON value. *)
Context (value_text : Json -> list Z).

(** [Profile::render] *)
Definition ecs_render (env : EventEnvelope) : list Z := value_text (ecs_record env).
Definition render (p : Profile) (env : EventEnvelope) : list Z :=
  match p with Cef => cef_render env | Rfc5424 => rfc5424_render env | Ecs => ecs_render env end.
End profiles.
