(* ===== verification/SiemRead.v ===== *)
(** * What a receiver makes of a record

    Receivers for the two syslog profiles of [crates/ferrum-siem], written after RFC 5424
    (section 6) and the CEF document, not after the code: the header tokens, the
    structured-data element with its escapes, the seven header fields of CEF and its
    extension. The theorem of this file reads every rendered record back. *)

From S2P Require Import Prelude RustStd RustText Ids Compiler Json AgentState React Proto Siem.

(** ** The receivers *)

(** Text up to the first [stop] that is not behind a backslash, unescaped. *)
Fixpoint read_escaped (stop : Z) (l : list Z) : option (list Z * list Z) :=
  match l with
  | [] => None
  | b :: l' =>
      if b =? 92 then
        match l' with
        | [] => None
        | c :: l'' => '(v, rest) ← read_escaped stop l''; Some (c :: v, rest)
        end
      else if b =? stop then Some ([], l')
      else '(v, rest) ← read_escaped stop l'; Some (b :: v, rest)
  end.

(** All of a text, unescaped. *)
Fixpoint unescape (l : list Z) : list Z :=
  match l with
  | [] => []
  | b :: l' => if b =? 92 then match l' with [] => [] | c :: l'' => c :: unescape l'' end else b :: unescape l'
  end.

(** SD-PARAMs up to the bracket that closes the element: [ name="value"]. *)
Fixpoint read_params (fuel : nat) (l : list Z) : option (list (list Z * list Z) * list Z) :=
  match fuel with
  | O => None
  | S fuel =>
      match l with
      | b :: l' =>
          if b =? 93 then Some ([], l')
          else if b =? 32 then
            '(name, l1) ← split_once 61 l';
            match l1 with
            | q :: l2 =>
                if q =? 34 then
                  '(v, l3) ← read_escaped 34 l2;
                  '(ps, l4) ← read_params fuel l3;
                  Some ((name, v) :: ps, l4)
                else None
            | [] => None
            end
          else None
      | [] => None
      end
  end.

(** The SD-ID: up to a space or the closing bracket. *)
Fixpoint read_sd_id (l : list Z) : list Z * list Z :=
  match l with
  | [] => ([], [])
  | b :: l' => if (b =? 32) || (b =? 93) then ([], l) else let '(id, rest) := read_sd_id l' in (b :: id, rest)
  end.

Record SyslogRecord : Type := {
  sr_pri : Z;
  sr_timestamp : list Z;
  sr_hostname : list Z;
  sr_app_name : list Z;
  sr_procid : list Z;
  sr_msgid : list Z;
  sr_data : option (list Z * list (list Z * list Z));
  sr_msg : list Z;
}.

Definition read_pri (l : list Z) : option Z :=
  match l with
  | b :: l' =>
      if b =? 60 then
        '(digits, version) ← split_once 62 l';
        if bool_decide (version = [49]) then decimal digits else None
      else None
  | [] => None
  end.

(** STRUCTURED-DATA and MSG. *)
Definition read_data (l : list Z) : option (option (list Z * list (list Z * list Z)) * list Z) :=
  match l with
  | b :: l' =>
      if b =? 45 then Some (None, l')
      else if b =? 91 then
        let '(id, l1) := read_sd_id l' in
        '(ps, l2) ← read_params (length l1) l1;
        Some (Some (id, ps), l2)
      else None
  | [] => None
  end.

Definition read_syslog (l : list Z) : option SyslogRecord :=
  '(head_, l) ← split_once 32 l;
  pri ← read_pri head_;
  '(ts, l) ← split_once 32 l;
  '(host, l) ← split_once 32 l;
  '(app_, l) ← split_once 32 l;
  '(procid, l) ← split_once 32 l;
  '(msgid, l) ← split_once 32 l;
  '(data, l) ← read_data l;
  match l with
  | b :: msg =>
      if b =? 32 then
        Some {| sr_pri := pri; sr_timestamp := ts; sr_hostname := host; sr_app_name := app_; sr_procid := procid;
                sr_msgid := msgid; sr_data := data; sr_msg := msg |}
      else None
  | [] => None
  end.

(** CEF: an extension is read from equals sign to equals sign; what stands before one, after
    the last space, is a key. *)
Fixpoint read_extension (fuel : nat) (key l : list Z) : option (list (list Z * list Z)) :=
  match fuel with
  | O => None
  | S fuel =>
      match read_escaped 61 l with
      | None => Some [(key, unescape l)]
      | Some (seg, rest) =>
          '(v, key') ← rsplit_once 32 seg;
          fields ← read_extension fuel key' rest;
          Some ((key, v) :: fields)
      end
  end.

Record CefRecord : Type := {
  cr_version : list Z;
  cr_vendor : list Z;
  cr_product : list Z;
  cr_device_version : list Z;
  cr_signature : list Z;
  cr_name : list Z;
  cr_severity : list Z;
  cr_extension : list (list Z * list Z);
}.

Definition read_cef (l : list Z) : option CefRecord :=
  '(version, l) ← read_escaped 124 l;
  '(vendor, l) ← read_escaped 124 l;
  '(product, l) ← read_escaped 124 l;
  '(device, l) ← read_escaped 124 l;
  '(sig, l) ← read_escaped 124 l;
  '(name, l) ← read_escaped 124 l;
  '(sev, l) ← read_escaped 124 l;
  '(key, l) ← read_escaped 61 l;
  fields ← read_extension (S (length l)) key l;
  Some {| cr_version := version; cr_vendor := vendor; cr_product := product; cr_device_version := device;
          cr_signature := sig; cr_name := name; cr_severity := sev; cr_extension := fields |}.

(** ** Printable text *)

Definition printable (b : Z) : Prop := 32 <= b /\ b <> 127.
Definition ok_char (c : list Z) : Prop := is_scalar c = true /\ Forall printable c.

(** Whole characters, none of them a control character of one byte. *)
Definition clean (l : list Z) : Prop := exists cs, Forall ok_char cs /\ l = concat cs.

Lemma clean_nil : clean [].
Proof. exists []. by split. Qed.

Lemma clean_app l k : clean l -> clean k -> clean (l ++ k).
Proof. intros (cs & Hc & ->) (ds & Hd & ->). exists (cs ++ ds). by rewrite concat_app, Forall_app. Qed.

Lemma clean_ascii l : Forall (fun b => 32 <= b < 127) l -> clean l.
Proof.
  intros H. exists (map (fun b => [b]) l). split.
  - apply Forall_map. eapply Forall_impl; [exact H|]. intros b Hb. cbv beta in Hb. split.
    + simpl. apply Z.ltb_lt. lia.
    + constructor; [|done]. unfold printable. lia.
  - induction l as [|b l IH]; simpl; [done|]. inversion H; subst. by rewrite <- IH.
Qed.

Lemma clean_printable l : clean l -> Forall printable l.
Proof.
  intros (cs & Hc & ->). induction Hc as [|c cs [_ Hc] _ IH]; simpl; [constructor|]. by apply Forall_app.
Qed.

Lemma clean_utf8 l : clean l -> utf8_ok l = true.
Proof. intros (cs & Hc & ->). apply utf8_concat. eapply Forall_impl; [exact Hc|]. by intros c [H _]. Qed.

Definition asciib (l : list Z) : bool := forallb (fun b => (32 <=? b) && (b <? 127)) l.
Lemma clean_text s : asciib (as_bytes s) = true -> clean (as_bytes s).
Proof.
  intros H. apply clean_ascii. apply forallb_true_Forall in H. eapply Forall_impl; [exact H|].
  simpl. intros b Hb. bool_hyps. lia.
Qed.

Create HintDb siem.
#[export] Hint Resolve clean_nil clean_app : siem.

(** A scalar value is one ASCII byte or has none. *)
Lemma scalar_bytes c : is_scalar c = true -> (exists b, c = [b] /\ b < 128) \/ Forall (fun b => 128 <= b) c.
Proof.
  destruct c as [|b0 [|b1 [|b2 [|b3 [|b4 c]]]]]; simpl; try done.
  - intros H. left. exists b0. bool_hyps. split; [done | lia].
  - intros H. right. unfold is_cont, in_range in H. bool_hyps. repeat (apply Forall_cons_2; [lia|]). constructor.
  - intros H. right. unfold utf8_second3 in H. repeat case_match; unfold is_cont, in_range in H; bool_hyps;
      repeat (apply Forall_cons_2; [lia|]); constructor.
  - intros H. right. unfold utf8_second4 in H. repeat case_match; unfold is_cont, in_range in H; bool_hyps;
      repeat (apply Forall_cons_2; [lia|]); constructor.
Qed.

(** The same escape, byte by byte. *)
Definition escape_bytes (special : list Z) (l : list Z) : list Z :=
  concat (map (fun b => if bool_decide (b ∈ special) then [92; b] else [b]) l).

Lemma escape_bytes_app sp l k : escape_bytes sp (l ++ k) = escape_bytes sp l ++ escape_bytes sp k.
Proof. unfold escape_bytes. by rewrite map_app, concat_app. Qed.

Lemma escape_chars_bytes sp l :
  Forall (fun b => b < 128) sp -> utf8_ok l = true ->
  escape_chars (map (fun b => [b]) sp) l = escape_bytes sp l.
Proof.
  intros Hsp Hu. destruct (utf8_chars l Hu) as [Hs Hl]. rewrite <- Hl at 2. unfold escape_chars.
  clear Hl Hu. revert Hs. generalize (chars l). clear l. intros l Hs.
  induction Hs as [|c cs Hc _ IH]; simpl; [done|]. rewrite escape_bytes_app, IH. f_equal.
  destruct (scalar_bytes c Hc) as [(b & -> & _)|Hb].
  - unfold escape_bytes. simpl. rewrite app_nil_r.
    assert ([b] ∈ map (fun b => [b]) sp <-> b ∈ sp) as Hiff.
    { rewrite list_elem_of_fmap. split; [intros (y & [= ->] & ?); done | eauto]. }
    destruct (decide (b ∈ sp)); [rewrite !bool_decide_true by (by rewrite ?Hiff) | rewrite !bool_decide_false by (by rewrite ?Hiff)]; done.
  - rewrite bool_decide_false.
    + clear Hc. induction Hb as [|b c Hb _ IHc]; [done|]. unfold escape_bytes. simpl. rewrite bool_decide_false; [by rewrite IHc at 1|].
      intros Hin. rewrite Forall_forall in Hsp. specialize (Hsp b Hin). lia.
    + intros Hin. apply list_elem_of_fmap in Hin as (y & -> & Hy). rewrite Forall_forall in Hsp. specialize (Hsp y Hy).
      inversion Hb; subst. lia.
Qed.

(** ** Reading an escaped text *)

Section escapes.
Context (sp : list Z) (Hbackslash : 92 ∈ sp).

Lemma escape_cons b v :
  escape_bytes sp (b :: v) = (if bool_decide (b ∈ sp) then [92; b] else [b]) ++ escape_bytes sp v.
Proof. done. Qed.

Lemma read_escaped_to stop v rest :
  stop ∈ sp -> stop <> 92 -> read_escaped stop (escape_bytes sp v ++ stop :: rest) = Some (v, rest).
Proof.
  intros Hin Hne. induction v as [|b v IH].
  - simpl. rewrite (proj2 (Z.eqb_neq _ _)) by done. by rewrite Z.eqb_refl.
  - rewrite escape_cons. case_bool_decide as Hb; cbn [app read_escaped].
    + rewrite Z.eqb_refl, IH. done.
    + rewrite (proj2 (Z.eqb_neq b 92)) by congruence. rewrite (proj2 (Z.eqb_neq b stop)) by congruence. by rewrite IH.
Qed.

Lemma read_escaped_end stop v : stop ∈ sp -> read_escaped stop (escape_bytes sp v) = None.
Proof.
  intros Hin. induction v as [|b v IH]; [done|].
  rewrite escape_cons. case_bool_decide as Hb; cbn [app read_escaped].
  - by rewrite Z.eqb_refl, IH.
  - rewrite (proj2 (Z.eqb_neq b 92)) by congruence. rewrite (proj2 (Z.eqb_neq b stop)) by congruence. by rewrite IH.
Qed.

Lemma escape_id v : Forall (fun b => b ∉ sp) v -> escape_bytes sp v = v.
Proof. induction 1 as [|b v Hb _ IH]; [done|]. rewrite escape_cons, bool_decide_false, IH by done. done. Qed.

Lemma unescape_escape v : unescape (escape_bytes sp v) = v.
Proof.
  induction v as [|b v IH]; [done|]. rewrite escape_cons. case_bool_decide as Hb; cbn [app unescape].
  - by rewrite Z.eqb_refl, IH.
  - rewrite (proj2 (Z.eqb_neq b 92)) by congruence. by rewrite IH.
Qed.

Lemma escape_printable v : Forall printable v -> Forall printable (escape_bytes sp v).
Proof.
  induction 1 as [|b v Hb _ IH]; [constructor|]. rewrite escape_cons. apply Forall_app. split; [|done].
  case_bool_decide; repeat (constructor; try done).
Qed.
End escapes.

(** ** [sanitize] *)

Lemma escape_byte_ascii b : 0 <= b < 256 -> Forall (fun b => 32 <= b < 127) (escape_byte b).
Proof.
  intros Hb. unfold escape_byte.
  assert (0 <= Z.shiftr b 4 < 16) by (rewrite Z.shiftr_div_pow2 by lia; change (2 ^ 4) with 16;
    split; [apply Z.div_pos; lia | apply Z.div_lt_upper_bound; lia]).
  assert (0 <= Z.land b 15 < 16) by (change 15 with (Z.ones 4); rewrite Z.land_ones by lia; apply Z.mod_pos_bound; lia).
  unfold hex_digit. repeat (apply Forall_cons_2; [repeat case_match; bool_hyps; lia|]). constructor.
Qed.

Lemma sanitize_piece_clean c :
  is_scalar c = true -> Forall (fun b => 0 <= b < 256) c -> clean (sanitize_piece c).
Proof.
  intros Hs Hr. unfold sanitize_piece. destruct (_ || _) eqn:E.
  - apply clean_ascii, escape_byte_ascii. change 0xff with (Z.ones 8). rewrite Z.land_ones by lia.
    apply Z.mod_pos_bound. lia.
  - exists [c]. simpl. rewrite app_nil_r. split; [|done]. constructor; [|constructor]. split; [done|].
    destruct (scalar_bytes c Hs) as [(b & -> & Hb)|Hb].
    + constructor; [|constructor]. simpl in E. apply orb_false_iff in E as [E1 E2]. apply bool_decide_eq_false in E2.
      unfold printable. destruct (decide (b = 32)) as [->|Hne]; [lia|].
      rewrite bool_decide_false in E1 by congruence. simpl in E1. rewrite andb_true_r in E1.
      apply orb_false_iff in E1 as [E1 _]. apply Z.ltb_ge in E1. split; [lia | congruence].
    + eapply Forall_impl; [exact Hb|]. unfold printable. simpl. lia.
Qed.

Lemma sanitize_chars_clean budget cs :
  Forall (fun c => is_scalar c = true /\ Forall (fun b => 0 <= b < 256) c) cs -> clean (fst (sanitize_chars budget cs)).
Proof.
  intros H. revert budget. induction H as [|c cs [Hs Hr] _ IH]; intros budget; simpl; [apply clean_nil|].
  case_match; [apply clean_nil|]. specialize (IH (budget - len (sanitize_piece c))).
  destruct (sanitize_chars _ cs) as [out t]. simpl. apply clean_app; [by apply sanitize_piece_clean | done].
Qed.

Lemma sanitize_clean v : str_ok v -> clean (sanitize v).
Proof.
  intros Hv. unfold sanitize. destruct (utf8_chars _ Hv) as [Hs Hc].
  assert (H : Forall (fun c => is_scalar c = true /\ Forall (fun b => 0 <= b < 256) c) (chars (as_bytes v))).
  { apply Forall_and. split; [done|]. pose proof (as_bytes_range v) as Hr. rewrite <- Hc in Hr.
    clear - Hr. induction (chars (as_bytes v)) as [|c cs IH]; [constructor|]. simpl in Hr. apply Forall_app in Hr as [? ?].
    constructor; [done | by apply IH]. }
  pose proof (sanitize_chars_clean MAX_FIELD_BYTES _ H) as Hcl. destruct (sanitize_chars _ _) as [out t]. simpl in Hcl.
  destruct t; [apply clean_app; [done | by apply clean_text] | done].
Qed.

(** A value is cut at 512 bytes and the mark, and one that fits and has no control
    character goes out as it is. *)
Lemma sanitize_bound v : len (sanitize v) <= MAX_FIELD_BYTES + 3.
Proof.
  assert (H : forall cs budget, 0 <= budget -> len (fst (sanitize_chars budget cs)) <= budget).
  { induction cs as [|c cs IH]; intros budget Hb; simpl; [done|]. case_match; [done|]. bool_hyps.
    specialize (IH (budget - len (sanitize_piece c)) ltac:(lia)). destruct (sanitize_chars _ cs) as [out t]. simpl in *.
    rewrite len_app. lia. }
  unfold sanitize. specialize (H (chars (as_bytes v)) MAX_FIELD_BYTES ltac:(done)).
  destruct (sanitize_chars _ _) as [out t]. simpl in H. destruct t; [rewrite len_app; change (len TRUNCATION_MARK) with 3|]; lia.
Qed.

Lemma sanitize_id v :
  str_ok v -> Forall (fun c => is_control c = false /\ c <> [0x7f]) (chars (as_bytes v)) -> slen v <= MAX_FIELD_BYTES ->
  sanitize v = as_bytes v.
Proof.
  intros Hv Hc Hl. destruct (utf8_chars _ Hv) as [_ He]. unfold sanitize, slen in *.
  assert (H : forall cs budget, Forall (fun c => is_control c = false /\ c <> [0x7f]) cs -> len (concat cs) <= budget ->
    sanitize_chars budget cs = (concat cs, false)).
  { induction cs as [|c cs IH]; intros budget Hf Hb; [done|]. inversion Hf as [|? ? [H1 H2] Hf']; subst. simpl.
    assert (sanitize_piece c = c) as ->.
    { unfold sanitize_piece. rewrite H1. cbn [andb orb]. by rewrite bool_decide_false. }
    simpl in Hb. rewrite len_app in Hb. pose proof (len_nonneg (concat cs)).
    rewrite (proj2 (Z.ltb_ge _ _)) by lia. rewrite IH by (done || lia). done. }
  rewrite (H (chars (as_bytes v))) by (done || by rewrite He). by rewrite He.
Qed.

(** ** The structured-data element *)

Definition param_text (p : string * list Z) : list Z :=
  32 :: as_bytes (fst p) ++ [61; 34] ++ escape_chars [[34]; [92]; [93]] (snd p) ++ [34].
Definition as_read (p : string * list Z) : list Z * list Z := (as_bytes (fst p), snd p).

(** A field a receiver can tell from what is around it: a key of letters, a clean value. *)
Definition keyb (s : string) : bool := forallb (fun b => (48 <=? b) && (b <? 127) && negb (b =? 61) && negb (b =? 92)) (as_bytes s).
Definition field_ok (p : string * list Z) : Prop := keyb (fst p) = true /\ clean (snd p).

Lemma key_bytes k : keyb k = true -> Forall (fun b => 48 <= b < 127 /\ b <> 61 /\ b <> 92) (as_bytes k).
Proof.
  intros H. apply forallb_true_Forall in H. eapply Forall_impl; [exact H|]. cbv beta. intros b Hb.
  rewrite !andb_true_iff, !negb_true_iff, !Z.eqb_neq, Z.leb_le, Z.ltb_lt in Hb. lia.
Qed.

Lemma sd_escape v : clean v -> escape_chars [[34]; [92]; [93]] v = escape_bytes [34; 92; 93] v.
Proof.
  intros Hv. apply (escape_chars_bytes [34; 92; 93]); [repeat (constructor; [done|]); constructor | by apply clean_utf8].
Qed.

Lemma read_params_text fields fuel rest :
  Forall field_ok fields -> (length fields < fuel)%nat ->
  read_params fuel (concat (map param_text fields) ++ 93 :: rest) = Some (map as_read fields, rest).
Proof.
  intros H. revert fuel. induction H as [|[n v] fields [Hn Hv] _ IH]; intros fuel Hf; (destruct fuel as [|fuel]; [simpl in Hf; lia|]).
  - done.
  - cbn [map concat]. unfold param_text at 1. cbn [fst snd] in *. rewrite sd_escape by done.
    rewrite <- !app_assoc. cbn [app read_params]. change (32 =? 93) with false. change (32 =? 32) with true.
    rewrite <- app_assoc. cbn [app]. rewrite split_once_some.
    2: { intros Hin. apply key_bytes in Hn. rewrite Forall_forall in Hn. destruct (Hn _ Hin) as (_ & ? & _). done. }
    cbn [mbind option_bind]. change (34 =? 34) with true. cbv iota. rewrite <- app_assoc. cbn [app].
    rewrite read_escaped_to by (set_solver || lia). cbn [mbind option_bind].
    rewrite IH by (simpl in Hf; lia). done.
Qed.

Lemma read_sd_id_text id rest :
  32 ∉ id -> 93 ∉ id -> (exists b l, rest = b :: l /\ (b = 32 \/ b = 93)) -> read_sd_id (id ++ rest) = (id, rest).
Proof.
  intros H1 H2 (b & l & -> & Hb). induction id as [|c id IH]; cbn [app read_sd_id].
  - by destruct Hb as [-> | ->].
  - rewrite (proj2 (Z.eqb_neq c 32)), (proj2 (Z.eqb_neq c 93)) by set_solver. cbn [orb].
    rewrite IH by set_solver. done.
Qed.

Lemma read_data_text fields rest :
  Forall field_ok fields ->
  read_data (as_bytes "[" ++ as_bytes SD_ID ++ concat (map param_text fields) ++ as_bytes "]" ++ rest) =
    Some (Some (as_bytes SD_ID, map as_read fields), rest).
Proof.
  intros H. change (as_bytes "[") with [91]. cbn [app]. unfold read_data. change (91 =? 45) with false.
  change (91 =? 91) with true. cbv iota. change (as_bytes "]" ++ rest) with (93 :: rest).
  rewrite read_sd_id_text.
  - rewrite read_params_text; [done | done|]. rewrite length_app. simpl.
    assert (length fields <= length (concat (map param_text fields)))%nat; [|lia].
    clear. induction fields as [|p fields IH]; [done|]. simpl. rewrite length_app. lia.
  - by vm_compute; set_solver.
  - by vm_compute; set_solver.
  - destruct fields as [|p fields]; simpl; eauto.
Qed.

(** ** Texts of fixed shape *)

(** RFC 3339 in UTC: digits, the separators and the Z. *)
Definition rfc3339_char (b : Z) : Prop := b ∈ as_bytes "0123456789-:.TZ+".
Class ChronoLaws `{ChronoText} : Prop := {
  secs_plain t : Forall rfc3339_char (rfc3339_secs t);
  millis_plain t : Forall rfc3339_char (rfc3339_millis t)
}.

Definition visible (b : Z) : Prop := 33 <= b < 127.
Lemma rfc3339_visible l : Forall rfc3339_char l -> Forall visible l.
Proof.
  intros H. eapply Forall_impl; [exact H|]. intros b Hb. unfold rfc3339_char in Hb. unfold visible.
  apply list_elem_of_In in Hb. repeat (destruct Hb as [<-|Hb]; [vm_compute; split; [intros [=] | reflexivity]|]). destruct Hb.
Qed.

Lemma visible_clean l : Forall visible l -> clean l.
Proof. intros H. apply clean_ascii. eapply Forall_impl; [exact H|]. unfold visible. intros. lia. Qed.

Lemma visible_no_space l : Forall visible l -> 32 ∉ l.
Proof. intros H Hin. rewrite Forall_forall in H. specialize (H _ Hin). unfold visible in H. lia. Qed.

Lemma int_text_visible n : Forall visible (int_text n).
Proof.
  assert (H : forall k m, Forall visible (rev (digits_rev k m))).
  { intros k m. apply Forall_rev. eapply Forall_impl; [apply digits_rev_range|]. unfold visible. simpl. lia. }
  unfold int_text. case_match; [constructor; [by unfold visible|]|]; apply H.
Qed.

Lemma version_text_visible v : Forall visible (version_text v).
Proof.
  assert (H : forall n, Forall visible (u16_text n)).
  { intros n. apply Forall_forall. intros b Hb. apply u16_text_range in Hb. unfold visible. lia. }
  unfold version_text. apply Forall_app. split; [done|]. constructor; [by unfold visible | done].
Qed.

Lemma hostname_plain node : str_ok node -> 32 ∉ hostname node /\ Forall printable (hostname node).
Proof.
  intros Hn. pose proof (sanitize_clean node Hn) as Hc. unfold hostname.
  destruct (utf8_chars _ (clean_utf8 _ Hc)) as [Hs He]. apply clean_printable in Hc. rewrite <- He in Hc.
  revert Hs Hc. generalize (chars (sanitize node)). intros cs Hs Hc.
  set (out := concat (map _ cs)).
  assert (H : 32 ∉ out /\ Forall printable out).
  { unfold out. clear He out. induction Hs as [|c cs Hsc _ IH]; simpl; [split; [set_solver | constructor]|].
    simpl in Hc. apply Forall_app in Hc as [Hc1 Hc2]. destruct (IH Hc2) as [I1 I2].
    destruct (is_whitespace c) eqn:Hw.
    - split; [set_solver|]. apply Forall_app. split; [repeat constructor; done | done].
    - split; [|by apply Forall_app]. intros Hin. apply elem_of_app in Hin as [Hin|?]; [|done].
      destruct (scalar_bytes c Hsc) as [(b & -> & _)|Hb].
      + apply list_elem_of_singleton in Hin as <-. done.
      + rewrite Forall_forall in Hb. specialize (Hb _ Hin). lia. }
  destruct (is_empty out); [|done]. split; [vm_compute; set_solver | repeat constructor; done].
Qed.

Lemma clean_join items : Forall clean items -> clean (join_with REASON_SEPARATOR items).
Proof.
  induction 1 as [|x items Hx H IH]; [apply clean_nil|]. destruct items as [|y items]; [done|].
  change (join_with REASON_SEPARATOR (x :: y :: items)) with (x ++ REASON_SEPARATOR ++ join_with REASON_SEPARATOR (y :: items)).
  apply clean_app; [done|]. apply clean_app; [by apply clean_text | done].
Qed.

Lemma pri_reads sev rest :
  split_once 32 (as_bytes "<" ++ int_text (FACILITY * 8 + syslog_severity sev) ++ as_bytes ">1 " ++ rest) =
    Some (as_bytes "<" ++ int_text (FACILITY * 8 + syslog_severity sev) ++ as_bytes ">1", rest) /\
  read_pri (as_bytes "<" ++ int_text (FACILITY * 8 + syslog_severity sev) ++ as_bytes ">1") =
    Some (FACILITY * 8 + syslog_severity sev).
Proof. unfold syslog_severity. repeat case_match; split; reflexivity. Qed.

Section reading.
Context `{Chrono : ChronoText} `{Laws : !ChronoLaws} (fmt : msg -> string) (Hfmt : forall m, str_ok (fmt m)).

(** A [String] of Rust is UTF-8. *)
Record envelope_ok (env : EventEnvelope) : Prop := {
  eo_node : str_ok (en_node env);
  eo_bundle : forall d, en_bundle_digest env = Some d -> str_ok d;
  eo_role : str_ok (en_agent_role env);
  eo_reasons : Forall str_ok (en_degraded_reasons env);
  eo_policy : str_ok (ee_policy (en_event env));
  eo_rule : str_ok (ee_rule (en_event env));
  eo_action : str_ok (ee_action (en_event env));
  eo_image : forall d, ee_image_digest (en_event env) = Some d -> str_ok d;
  eo_pod : str_ok (ee_pod (en_event env));
  eo_namespace : str_ok (ee_namespace (en_event env));
  eo_comm : str_ok (ee_comm (en_event env));
  eo_syscall : str_ok (ee_syscall (en_event env));
  eo_ticket : forall w, ee_waiver (en_event env) = Some w -> str_ok (wr_ticket w)
}.

Lemma frame_reads env sev sd msg data :
  envelope_ok env -> read_data (sd ++ 32 :: msg) = Some (data, 32 :: msg) ->
  read_syslog (frame env sev sd msg) =
    Some {| sr_pri := FACILITY * 8 + syslog_severity sev; sr_timestamp := rfc3339_millis (en_ts env);
            sr_hostname := hostname (en_node env); sr_app_name := as_bytes APP_NAME; sr_procid := as_bytes "-";
            sr_msgid := as_bytes MSG_ID; sr_data := data; sr_msg := msg |}.
Proof.
  intros Hok Hd. unfold frame, read_syslog.
  match goal with |- context [as_bytes ">1 " ++ ?r] => destruct (pri_reads sev r) as [-> Hp] end.
  cbn [mbind option_bind]. rewrite Hp. cbn [mbind option_bind]. clear Hp.
  change (as_bytes " ") with [32]. cbn [app].
  rewrite split_once_some by (apply visible_no_space, rfc3339_visible, millis_plain). cbn [mbind option_bind].
  rewrite split_once_some by (apply hostname_plain, Hok). cbn [mbind option_bind].
  change (as_bytes " - ") with [32; 45; 32]. cbn [app].
  rewrite split_once_some by (vm_compute; set_solver). cbn [mbind option_bind].
  change (45 :: 32 :: ?l) with ([45] ++ 32 :: l).
  rewrite split_once_some by set_solver. cbn [mbind option_bind].
  rewrite split_once_some by (vm_compute; set_solver). cbn [mbind option_bind].
  rewrite Hd. done.
Qed.

(** ** RFC 5424 *)

(** What the record says, field by field. *)
Definition rfc5424_fields (env : EventEnvelope) : list (string * list Z) :=
  let e := en_event env in
  [("schema", as_bytes (schema_id_text (en_schema env)));
   ("schemaVersion", version_text (en_schema_version env));
   ("node", sanitize (en_node env));
   ("agentRole", sanitize (en_agent_role env));
   ("degraded", bool_text (en_degraded env));
   ("degradedReasons", degraded_reasons_text env);
   ("bundleDigest", sanitize_opt (en_bundle_digest env));
   ("policy", sanitize (ee_policy e));
   ("rule", sanitize (ee_rule e));
   ("action", sanitize (ee_action e));
   ("imageDigest", sanitize_opt (ee_image_digest e));
   ("namespace", sanitize (ee_namespace e));
   ("pod", sanitize (ee_pod e));
   ("comm", sanitize (ee_comm e));
   ("syscall", sanitize (ee_syscall e));
   ("pid", int_text (ee_pid e));
   ("tgid", int_text (ee_tgid e));
   ("executed", bool_text (ee_executed e));
   ("labelsUnknown", bool_text (ee_labels_unknown e));
   ("pathUnknown", bool_text (ee_path_unknown e));
   ("containerUnknown", bool_text (ee_container_unknown e))] ++
  match ee_respond_error e with Some reason => [("respondError", sanitize_msg fmt reason)] | None => [] end ++
  match ee_waiver e with
  | Some w => [("waiverTicket", sanitize (wr_ticket w)); ("waiverExpiresAt", rfc3339_secs (wr_expires_at w))]
  | None => []
  end.

Lemma bool_text_clean b : clean (bool_text b).
Proof. destruct b; by apply clean_text. Qed.

Lemma reasons_clean env : envelope_ok env -> clean (degraded_reasons_text env).
Proof.
  intros H. apply clean_join, Forall_map. eapply Forall_impl; [exact (eo_reasons _ H)|]. apply sanitize_clean.
Qed.

Lemma opt_clean v : (forall d, v = Some d -> str_ok d) -> clean (sanitize_opt v).
Proof. intros H. destruct v as [d|]; simpl; [apply sanitize_clean; auto | apply clean_nil]. Qed.

Lemma waiver_clean env w :
  envelope_ok env -> ee_waiver (en_event env) = Some w -> clean (sanitize (wr_ticket w)) /\ clean (rfc3339_secs (wr_expires_at w)).
Proof.
  intros H E. split; [apply sanitize_clean; by eapply eo_ticket | apply visible_clean, rfc3339_visible, secs_plain].
Qed.

Lemma int_clean n : clean (int_text n).
Proof. apply visible_clean, int_text_visible. Qed.
Lemma version_clean v : clean (version_text v).
Proof. apply visible_clean, version_text_visible. Qed.
Lemma schema_clean i : clean (as_bytes (schema_id_text i)).
Proof. by apply clean_text. Qed.
Lemma msg_clean m : clean (sanitize_msg fmt m).
Proof. apply sanitize_clean, Hfmt. Qed.

Hint Resolve bool_text_clean reasons_clean opt_clean int_clean version_clean schema_clean msg_clean sanitize_clean
  eo_node eo_bundle eo_role eo_policy eo_rule eo_action eo_image eo_pod eo_namespace eo_comm eo_syscall : siem.

Lemma message_clean env : envelope_ok env -> clean (message env).
Proof.
  intros H. unfold message. repeat (apply clean_app; [first [by eauto with siem | by apply clean_text]|]). eauto with siem.
Qed.
Hint Resolve message_clean : siem.

Lemma rfc5424_fields_ok env : envelope_ok env -> Forall field_ok (rfc5424_fields env).
Proof.
  intros H. unfold rfc5424_fields. apply Forall_app. split.
  - repeat (constructor; [split; [reflexivity | cbn [snd]; eauto with siem]|]). constructor.
  - apply Forall_app. split.
    + destruct (ee_respond_error _); [|constructor]. constructor; [split; [done | apply msg_clean] | constructor].
    + destruct (ee_waiver _) as [w|] eqn:E; [|constructor]. destruct (waiver_clean _ _ H E).
      constructor; [by split|]. constructor; [by split | constructor].
Qed.

Lemma rfc5424_element env :
  rfc5424_render fmt env =
    frame env (severity (ee_action (en_event env)) (ee_executed (en_event env)))
      (as_bytes "[" ++ as_bytes SD_ID ++ concat (map param_text (rfc5424_fields env)) ++ as_bytes "]") (message env).
Proof.
  unfold rfc5424_render. cbv zeta. f_equal. unfold element_close, rfc5424_fields.
  rewrite map_app, concat_app, map_app, concat_app.
  assert (P : forall n v el, element_put n v el = el ++ param_text (n, v)) by done.
  unfold element_new. destruct (ee_respond_error _), (ee_waiver _); rewrite !P; cbn [map concat];
    rewrite ?app_nil_r, <- ?app_assoc; reflexivity.
Qed.

Lemma rfc5424_reads env :
  envelope_ok env ->
  read_syslog (rfc5424_render fmt env) =
    Some {| sr_pri := FACILITY * 8 + syslog_severity (severity (ee_action (en_event env)) (ee_executed (en_event env)));
            sr_timestamp := rfc3339_millis (en_ts env);
            sr_hostname := hostname (en_node env); sr_app_name := as_bytes APP_NAME; sr_procid := as_bytes "-";
            sr_msgid := as_bytes MSG_ID; sr_data := Some (as_bytes SD_ID, map as_read (rfc5424_fields env));
            sr_msg := message env |}.
Proof.
  intros H. rewrite rfc5424_element. apply frame_reads; [done|]. rewrite <- !app_assoc.
  apply read_data_text. by apply rfc5424_fields_ok.
Qed.

(** ** CEF *)

Definition cef_fields (env : EventEnvelope) : list (string * list Z) :=
  let e := en_event env in
  [("rt", int_text (timestamp_millis (en_ts env)));
   ("dvchost", sanitize (en_node env));
   ("act", sanitize (ee_action e));
   ("outcome", as_bytes (if ee_executed e then "success" else "failure"));
   ("sproc", sanitize (ee_comm e));
   ("spid", int_text (ee_pid e));
   ("cs1Label", as_bytes "ferrumPolicy"); ("cs1", sanitize (ee_policy e));
   ("cs2Label", as_bytes "ferrumNamespace"); ("cs2", sanitize (ee_namespace e));
   ("cs3Label", as_bytes "ferrumPod"); ("cs3", sanitize (ee_pod e));
   ("cs4Label", as_bytes "ferrumSyscall"); ("cs4", sanitize (ee_syscall e));
   ("cs5Label", as_bytes "ferrumBundleDigest"); ("cs5", sanitize_opt (en_bundle_digest env));
   ("cs6Label", as_bytes "ferrumImageDigest"); ("cs6", sanitize_opt (ee_image_digest e));
   ("cn1Label", as_bytes "ferrumTgid"); ("cn1", int_text (ee_tgid e));
   ("ferrumSchema", as_bytes (schema_id_text (en_schema env)));
   ("ferrumSchemaVersion", version_text (en_schema_version env));
   ("ferrumAgentRole", sanitize (en_agent_role env));
   ("ferrumDegraded", bool_text (en_degraded env));
   ("ferrumDegradedReasons", degraded_reasons_text env);
   ("ferrumExecuted", bool_text (ee_executed e));
   ("ferrumLabelsUnknown", bool_text (ee_labels_unknown e));
   ("ferrumPathUnknown", bool_text (ee_path_unknown e));
   ("ferrumContainerUnknown", bool_text (ee_container_unknown e))] ++
  match ee_respond_error e with Some reason => [("ferrumRespondError", sanitize_msg fmt reason)] | None => [] end ++
  match ee_waiver e with
  | Some w => [("ferrumWaiverTicket", sanitize (wr_ticket w)); ("ferrumWaiverExpiresAt", rfc3339_secs (wr_expires_at w))]
  | None => []
  end ++ [("msg", message env)].

Lemma cef_fields_ok env : envelope_ok env -> Forall field_ok (cef_fields env).
Proof.
  intros H. unfold cef_fields. apply Forall_app. split.
  - repeat (constructor; [split; [reflexivity | cbn [snd]; first [by eauto with siem | by apply clean_text |
      by destruct (ee_executed _); apply clean_text]]|]). constructor.
  - apply Forall_app. split; [|apply Forall_app; split].
    + destruct (ee_respond_error _); [|constructor]. constructor; [split; [done | apply msg_clean] | constructor].
    + destruct (ee_waiver _) as [w|] eqn:E; [|constructor]. destruct (waiver_clean _ _ H E).
      constructor; [by split|]. constructor; [by split | constructor].
    + constructor; [split; [done | by apply message_clean] | constructor].
Qed.

Definition ext_puts (fields : list (string * list Z)) (ext : list Z) : list Z :=
  foldl (fun ext p => ext_put (fst p) (snd p) ext) ext fields.
Definition field_tail (p : string * list Z) : list Z := 32 :: as_bytes (fst p) ++ 61 :: escape_bytes [92; 61] (snd p).

Lemma cef_extension_puts env : cef_extension fmt env = ext_puts (cef_fields env) [].
Proof.
  unfold cef_extension, ext_puts, cef_fields, ext_labelled. cbv zeta. rewrite !foldl_app.
  destruct (ee_respond_error _), (ee_waiver _); reflexivity.
Qed.

Lemma ext_escape v : clean v -> escape_extension_value v = escape_bytes [92; 61] v.
Proof.
  intros Hv. apply (escape_chars_bytes [92; 61]); [repeat (constructor; [done|]); constructor | by apply clean_utf8].
Qed.

Lemma ext_puts_text fields ext :
  Forall field_ok fields -> ext <> [] -> ext_puts fields ext = ext ++ concat (map field_tail fields).
Proof.
  intros H. revert ext. induction H as [|[k v] fields [_ Hv] _ IH]; intros ext Hne; [simpl; by rewrite app_nil_r|].
  change (ext_puts ((k, v) :: fields) ext) with (ext_puts fields (ext_put k v ext)). cbn [snd] in Hv.
  assert (E : ext_put k v ext = ext ++ field_tail (k, v)).
  { unfold ext_put. rewrite (proj2 (is_empty_false ext)) by done. rewrite ext_escape by done. by rewrite <- app_assoc. }
  rewrite E, IH by (by destruct ext). cbn [map concat]. by rewrite <- app_assoc.
Qed.

Lemma read_extension_text fields fuel key v :
  Forall field_ok fields -> (length fields < fuel)%nat ->
  read_extension fuel key (escape_bytes [92; 61] v ++ concat (map field_tail fields)) = Some ((key, v) :: map as_read fields).
Proof.
  intros H. revert fuel key v. induction H as [|[k' v'] fields [Hk Hv] _ IH]; intros fuel key v Hf;
    (destruct fuel as [|fuel]; [simpl in Hf; lia|]); cbn [map concat read_extension].
  - rewrite app_nil_r, read_escaped_end by set_solver. by rewrite unescape_escape by set_solver.
  - pose proof (key_bytes _ Hk) as Hkb. cbn [fst snd] in *.
    assert (E : escape_bytes [92; 61] v ++ field_tail (k', v') ++ concat (map field_tail fields) =
      escape_bytes [92; 61] (v ++ 32 :: as_bytes k') ++ 61 :: escape_bytes [92; 61] v' ++ concat (map field_tail fields)).
    { rewrite escape_bytes_app. rewrite (escape_id [92; 61] (32 :: as_bytes k')).
      - unfold field_tail at 1. cbn [fst snd]. by rewrite <- !app_assoc; cbn [app]; rewrite <- !app_assoc.
      - constructor; [set_solver|]. eapply Forall_impl; [exact Hkb|]. set_solver. }
    rewrite E. rewrite read_escaped_to by (set_solver || lia). cbn [mbind option_bind].
    rewrite rsplit_once_some.
    2: { intros Hin. rewrite Forall_forall in Hkb. destruct (Hkb _ Hin). lia. }
    cbn [mbind option_bind]. rewrite IH by (simpl in Hf; lia). done.
Qed.

Lemma header_escape v : clean v -> escape_header v = escape_bytes [92; 124] v.
Proof.
  intros Hv. apply (escape_chars_bytes [92; 124]); [repeat (constructor; [done|]); constructor | by apply clean_utf8].
Qed.

Lemma cef_payload_reads env :
  envelope_ok env ->
  read_cef (cef_payload fmt env) =
    Some {| cr_version := as_bytes "CEF:0"; cr_vendor := as_bytes VENDOR; cr_product := as_bytes PRODUCT;
            cr_device_version := as_bytes DEVICE_VERSION; cr_signature := sanitize (ee_rule (en_event env));
            cr_name := sanitize (ee_action (en_event env));
            cr_severity := int_text (severity (ee_action (en_event env)) (ee_executed (en_event env)));
            cr_extension := map as_read (cef_fields env) |}.
Proof.
  intros H. unfold cef_payload, read_cef. cbv zeta.
  rewrite !header_escape by first [by eauto with siem | by apply clean_text].
  set (sev := int_text _).
  assert (Hsev : escape_bytes [92; 124] sev = sev).
  { apply escape_id. unfold sev, severity. repeat case_match; vm_compute; repeat (constructor; [set_solver|]); constructor. }
  rewrite <- Hsev at 1. change (as_bytes "CEF:0|") with (escape_bytes [92; 124] (as_bytes "CEF:0") ++ [124]).
  change (as_bytes "|") with [124]. rewrite <- !app_assoc. cbn [app].
  do 7 (rewrite read_escaped_to by (set_solver || lia); cbn [mbind option_bind]).
  rewrite cef_extension_puts. pose proof (cef_fields_ok env H) as Hok.
  assert (Hne : exists p fields, cef_fields env = p :: fields) by (unfold cef_fields; eauto).
  destruct Hne as ([k v] & fields & E). rewrite E in Hok |- *. inversion Hok as [|? ? [Hk Hv] Hok']; subst. cbn [fst snd] in *.
  change (ext_puts ((k, v) :: fields) []) with (ext_puts fields (as_bytes k ++ [61] ++ escape_extension_value v)).
  rewrite ext_puts_text by (done || by destruct (as_bytes k)). rewrite ext_escape by done.
  rewrite <- (escape_id [92; 61] (as_bytes k)) at 1.
  2: { eapply Forall_impl; [exact (key_bytes _ Hk)|]. set_solver. }
  rewrite <- !app_assoc. cbn [app]. rewrite read_escaped_to by (set_solver || lia). cbn [mbind option_bind].
  rewrite read_extension_text; [done | done |]. rewrite length_app.
  assert (length fields <= length (concat (map field_tail fields)))%nat; [|lia].
  clear. induction fields as [|p fields IH]; [done|]. simpl. rewrite length_app. lia.
Qed.

Definition syslog_view (env : EventEnvelope) (data : option (list Z * list (list Z * list Z))) (msg : list Z) : SyslogRecord :=
  {| sr_pri := FACILITY * 8 + syslog_severity (severity (ee_action (en_event env)) (ee_executed (en_event env)));
     sr_timestamp := rfc3339_millis (en_ts env); sr_hostname := hostname (en_node env);
     sr_app_name := as_bytes APP_NAME; sr_procid := as_bytes "-"; sr_msgid := as_bytes MSG_ID;
     sr_data := data; sr_msg := msg |}.

Definition cef_view (env : EventEnvelope) : CefRecord :=
  {| cr_version := as_bytes "CEF:0"; cr_vendor := as_bytes VENDOR; cr_product := as_bytes PRODUCT;
     cr_device_version := as_bytes DEVICE_VERSION; cr_signature := sanitize (ee_rule (en_event env));
     cr_name := sanitize (ee_action (en_event env));
     cr_severity := int_text (severity (ee_action (en_event env)) (ee_executed (en_event env)));
     cr_extension := map as_read (cef_fields env) |}.

(** ** One line *)

Lemma text_printable s : asciib (as_bytes s) = true -> Forall printable (as_bytes s).
Proof. intros H. by apply clean_printable, clean_text. Qed.

Ltac split_app := repeat match goal with |- Forall _ (_ ++ _) => apply Forall_app; split end.

Lemma frame_printable env sev sd msg :
  envelope_ok env -> Forall printable sd -> Forall printable msg -> Forall printable (frame env sev sd msg).
Proof.
  intros H Hsd Hmsg. unfold frame. cbv zeta.
  split_app; try done; try by apply text_printable.
  - apply clean_printable, int_clean.
  - apply clean_printable, visible_clean, rfc3339_visible, millis_plain.
  - by apply hostname_plain, eo_node.
Qed.

Lemma escaped_field_printable sp p tail :
  field_ok p -> Forall printable tail ->
  Forall printable (32 :: as_bytes (fst p) ++ tail ++ escape_bytes sp (snd p)).
Proof.
  intros [Hk Hv] Ht. constructor; [done|]. apply Forall_app. split.
  - eapply Forall_impl; [exact (key_bytes _ Hk)|]. unfold printable. intros. lia.
  - apply Forall_app. split; [done|]. by apply escape_printable, clean_printable.
Qed.

Lemma concat_printable {A} (f : A -> list Z) l : Forall (fun x => Forall printable (f x)) l -> Forall printable (concat (map f l)).
Proof. induction 1; simpl; [constructor | by apply Forall_app]. Qed.

Lemma rfc5424_printable env : envelope_ok env -> Forall printable (rfc5424_render fmt env).
Proof.
  intros H. rewrite rfc5424_element. apply frame_printable; [done| |by apply clean_printable, message_clean].
  split_app; try by apply text_printable.
  apply concat_printable. eapply Forall_impl; [by apply rfc5424_fields_ok|]. intros p Hp.
  unfold param_text. rewrite sd_escape by apply Hp.
  assert (32 :: as_bytes (fst p) ++ [61; 34] ++ escape_bytes [34; 92; 93] (snd p) ++ [34] =
    (32 :: as_bytes (fst p) ++ [61; 34] ++ escape_bytes [34; 92; 93] (snd p)) ++ [34]) as ->.
  { simpl. by rewrite <- !app_assoc. }
  apply Forall_app. split; [apply escaped_field_printable; [done | repeat (constructor; [done|]); constructor] | by repeat constructor].
Qed.

Lemma cef_printable env : envelope_ok env -> Forall printable (cef_render fmt env).
Proof.
  intros H. unfold cef_render. cbv zeta. apply frame_printable; [done | by apply text_printable |].
  unfold cef_payload. cbv zeta. rewrite !header_escape by first [by eauto with siem | by apply clean_text].
  split_app;
    try first [by apply text_printable | by apply escape_printable, clean_printable; first [by eauto with siem | by apply clean_text]
      | by apply clean_printable, int_clean].
  rewrite cef_extension_puts. pose proof (cef_fields_ok env H) as Hok.
  assert (Hne : exists p fields, cef_fields env = p :: fields) by (unfold cef_fields; eauto).
  destruct Hne as (p & fields & E). rewrite E in Hok |- *. inversion Hok as [|? ? Hp Hok']; subst.
  change (ext_puts (p :: fields) []) with (ext_puts fields (as_bytes (fst p) ++ [61] ++ escape_extension_value (snd p))).
  rewrite ext_puts_text, ext_escape by (done || apply Hp || by destruct (as_bytes (fst p))).
  assert (Ht : forall q, field_ok q -> Forall printable (field_tail q)).
  { intros q Hq. apply (escaped_field_printable [92; 61] q [61] Hq). by repeat constructor. }
  apply Forall_app. split; [specialize (Ht p Hp); by inversion Ht|].
  apply concat_printable. eapply Forall_impl; [exact Hok'|]. exact Ht.
Qed.

(** The people behind a waiver. *)
Definition rename_people (requested approved : string) (env : EventEnvelope) : EventEnvelope :=
  let e := en_event env in
  {| en_schema := en_schema env; en_schema_version := en_schema_version env; en_ts := en_ts env; en_node := en_node env;
     en_bundle_digest := en_bundle_digest env; en_agent_role := en_agent_role env; en_degraded := en_degraded env;
     en_degraded_reasons := en_degraded_reasons env;
     en_event := {| ee_policy := ee_policy e; ee_rule := ee_rule e; ee_action := ee_action e;
                    ee_image_digest := ee_image_digest e; ee_pod := ee_pod e; ee_namespace := ee_namespace e;
                    ee_comm := ee_comm e; ee_syscall := ee_syscall e; ee_pid := ee_pid e; ee_tgid := ee_tgid e;
                    ee_executed := ee_executed e; ee_respond_error := ee_respond_error e;
                    ee_labels_unknown := ee_labels_unknown e; ee_path_unknown := ee_path_unknown e;
                    ee_container_unknown := ee_container_unknown e;
                    ee_waiver := (fun w => {| wr_ticket := wr_ticket w; wr_requested_by := requested;
                                              wr_approved_by := approved; wr_expires_at := wr_expires_at w |}) <$> ee_waiver e |} |}.

Lemma render_forgets_people value_text p r a env : render fmt value_text p (rename_people r a env) = render fmt value_text p env.
Proof.
  destruct env as [? ? ? ? ? ? ? ? [? ? ? ? ? ? ? ? ? ? ? ? ? ? ? [w|]]]; destruct p; reflexivity.
Qed.

Lemma render_plain value_text p env :
  (forall v, Forall (fun b => 32 <= b) (value_text v)) -> envelope_ok env ->
  Forall (fun b => 32 <= b) (render fmt value_text p env).
Proof.
  intros Htext Henv. destruct p; [| |apply Htext]; (eapply Forall_impl; [first [by apply cef_printable | by apply rfc5424_printable]|];
    intros b [? _]; done).
Qed.

(** C28: nothing an event carries can alter the record around it. For every event, whatever
    process, pod and policy call themselves: a record of any profile is one line; a receiver
    of RFC 5424 reads from it exactly the header, the fields and the message that were put
    in, and a receiver of CEF exactly the header and the fields; and no profile depends on
    who requested or approved a waiver. *)
Theorem siem_record_reads_back value_text env
    (Htext : forall v, Forall (fun b => 32 <= b) (value_text v)) (Henv : envelope_ok env) :
  (forall p, Forall (fun b => 32 <= b) (render fmt value_text p env)) /\
  read_syslog (render fmt value_text Rfc5424 env) =
    Some (syslog_view env (Some (as_bytes SD_ID, map as_read (rfc5424_fields env))) (message env)) /\
  (exists payload, read_syslog (render fmt value_text Cef env) = Some (syslog_view env None payload) /\
     read_cef payload = Some (cef_view env)) /\
  (forall p requested approved, render fmt value_text p (rename_people requested approved env) = render fmt value_text p env).
Proof.
  split_and!.
  - intros p. by apply render_plain.
  - by apply rfc5424_reads.
  - exists (cef_payload fmt env). split; [by apply frame_reads | by apply cef_payload_reads].
  - intros. apply render_forgets_people.
Qed.
End reading.

(** An event whose process and pod try to end the record, and to start another. *)
Definition toy_chrono : ChronoText :=
  {| timestamp_millis := fun t => t / 1000000; rfc3339_secs := fun _ => as_bytes "2026-01-01T00:00:00Z";
     rfc3339_millis := fun _ => as_bytes "2026-01-01T00:00:00.000Z" |}.
#[local] Existing Instance toy_chrono.
#[local] Instance toy_chrono_laws : ChronoLaws.
Proof.
  split; intros t; apply Forall_forall; intros b Hb; unfold rfc3339_char; vm_compute in Hb |- *; set_solver.
Qed.

Definition newline : string := String (Ascii.ascii_of_nat 10) EmptyString.
Definition hostile_event : EnforcementEvent :=
  {| ee_policy := "p|q"; ee_rule := "r] x"; ee_action := "kill"; ee_image_digest := None; ee_pod := "a b=c"; ee_namespace := "ns";
     ee_comm := newline +:+ "<131>1 - forged"; ee_syscall := "execve"; ee_pid := 7; ee_tgid := 7; ee_executed := true;
     ee_respond_error := None; ee_labels_unknown := false; ee_path_unknown := false; ee_container_unknown := false;
     ee_waiver := Some {| wr_ticket := "T-1"; wr_requested_by := "anna"; wr_approved_by := "boris"; wr_expires_at := 0 |} |}.
Definition hostile_envelope : EventEnvelope :=
  {| en_schema := Schema; en_schema_version := EVENT_SCHEMA_VERSION; en_ts := 0; en_node := "node 1"; en_bundle_digest := Some "sha256:00";
     en_agent_role := "respond"; en_degraded := true; en_degraded_reasons := ["lkg_partial"; "clock_rollback"];
     en_event := hostile_event |}.

Lemma hostile_ok : envelope_ok hostile_envelope.
Proof.
  split; simpl; try (vm_compute; reflexivity); try (intros d [= <-]; vm_compute; reflexivity); try discriminate.
  repeat (constructor; [vm_compute; reflexivity|]). constructor.
Qed.

Lemma siem_record_witness :
  read_syslog (render (fun _ => "e") (fun _ => as_bytes "{}") Rfc5424 hostile_envelope) =
    Some (syslog_view hostile_envelope
      (Some (as_bytes SD_ID, map as_read (rfc5424_fields (fun _ => "e") hostile_envelope))) (message hostile_envelope)).
Proof.
  apply (siem_record_reads_back (fun _ => "e") ltac:(intros; vm_compute; reflexivity) (fun _ => as_bytes "{}") hostile_envelope
    ltac:(intros v; repeat (constructor; [done|]); constructor) hostile_ok).
Defined.

Lemma hostile_comm_is_one_field :
  sanitize (ee_comm hostile_event) = as_bytes "\x0a<131>1 - forged".
Proof. reflexivity. Qed.
