(* ===== verification/SiemSink.v ===== *)
(** * The syslog destination

    [SyslogSink] of [crates/ferrum-siem/src/sink.rs]. The network is a state: what the
    resolver answers, which of the next calls fail (a write after how many bytes), the
    readings of the monotonic clock, the calls made so far, and what the receivers got.
    Log lines are not modelled. *)

From coqutil Require Import Datatypes.RecordSetters.
From S2P Require Import Prelude RustStd RustText Ids Compiler Json AgentState React Proto Export Siem SiemRead.

(** Nanoseconds. *)
Definition IO_TIMEOUT : Z := 2000000000.
Definition BACKOFF : Z := 5000000000.

Inductive Transport : Type := TUdp | TTcp.
Definition transport_parse_name (text : string) : result msg Transport :=
  if str_eqb text "udp" then Ok TUdp
  else if str_eqb text "tcp" then Ok TTcp
  else Err [Lit "unknown --siem-transport "; Dbg text; Lit "; known: udp, tcp"].
Definition transport_name (t : Transport) : string := match t with TUdp => "udp" | TTcp => "tcp" end.

Record SinkConfig : Type := { sc_address : string; sc_transport : Transport; sc_profile : Profile }.

(** ** The network *)

Record SocketAddr : Type := { sa_ipv4 : bool; sa_id : Z }.

Inductive NetCall : Type :=
| CallResolve (address : string)
| CallBind (ipv4 : bool)
| CallConnect (peer : SocketAddr) (timeout : Z)
| CallWriteTimeout (timeout : Z)
| CallNodelay
| CallSendTo (peer : SocketAddr)
| CallWrite
| CallFlush.

(** [nt_resolver] holds the answers of the resolver to come, [None] an error; [nt_fates]
    the fates of the other calls, [None] a success and [Some n] a failure, of a write after
    [n] bytes. Streams are in the order they were opened; the last is the open one. *)
Record Net : Type := {
  nt_clock : list Z;
  nt_resolver : list (option (list SocketAddr));
  nt_fates : list (option nat);
  nt_calls : list NetCall;
  nt_datagrams : list (list Z);
  nt_streams : list (list Z);
}.

(** A computation over the network. *)
Definition net (A : Type) : Type := Net -> A * Net.
#[global] Instance net_mret : MRet net := fun A a n => (a, n).
#[global] Instance net_mbind : MBind net := fun A B k m n => let '(a, n) := m n in k a n.

(** [Instant::now()] *)
Definition net_now : net Z := fun n =>
  match nt_clock n with [] => (0, n) | t :: ts => (t, n {{ nt_clock := ts }}) end.

Definition net_call (c : NetCall) : net (option nat) := fun n =>
  let n := n {{ nt_calls := nt_calls n ++ [c] }} in
  match nt_fates n with [] => (None, n) | f :: fs => (f, n {{ nt_fates := fs }}) end.

Definition net_resolve (address : string) : net (option (list SocketAddr)) := fun n =>
  let n := n {{ nt_calls := nt_calls n ++ [CallResolve address] }} in
  match nt_resolver n with [] => (None, n) | a :: rest => (a, n {{ nt_resolver := rest }}) end.

(** A call that succeeds or fails. *)
Definition net_try (c : NetCall) : net bool := f ← net_call c; mret (match f with None => true | Some _ => false end).

Definition deliver_datagram (line : list Z) (n : Net) : Net := n {{ nt_datagrams := nt_datagrams n ++ [line] }}.
Definition open_stream (n : Net) : Net := n {{ nt_streams := nt_streams n ++ [[]] }}.

(** Bytes arrive at the end of the open stream. *)
Fixpoint append_last (ls : list (list Z)) (bytes : list Z) : list (list Z) :=
  match ls with
  | [] => []
  | [l] => [l ++ bytes]
  | l :: ls' => l :: append_last ls' bytes
  end.
Definition deliver_bytes (bytes : list Z) (n : Net) : Net := n {{ nt_streams := append_last (nt_streams n) bytes }}.

Definition net_do (f : Net -> Net) : net unit := fun n => (tt, f n).

(** ** The sink *)

Inductive SyslogConn : Type :=
| ConnIdle (retry_after : option Z)
| ConnUdp (peer : SocketAddr)
| ConnTcp.

(** [sy_net] is the world outside; [sy_acked] is not in the code and nothing reads it: the
    records whose send returned [Ok]. *)
Record SyslogSink : Type := {
  sy_config : SinkConfig;
  sy_conn : SyslogConn;
  sy_failed : Z;
  sy_up : bool;
  sy_net : Net;
  sy_acked : list (list Z);
}.

Definition syslog_new (config : SinkConfig) (world : Net) : SyslogSink :=
  {| sy_config := config; sy_conn := ConnIdle None; sy_failed := 0; sy_up := true; sy_net := world; sy_acked := [] |}.

(** [SyslogSink::resolve] *)
Definition syslog_resolve (cfg : SinkConfig) : net (option SocketAddr) :=
  addrs ← net_resolve (sc_address cfg);
  mret (match addrs with Some (peer :: _) => Some peer | _ => None end).

(** [SyslogSink::open]; [None] is an error. *)
Definition syslog_open (cfg : SinkConfig) : net (option SyslogConn) :=
  peer ← syslog_resolve cfg;
  match peer with
  | None => mret None
  | Some peer =>
      match sc_transport cfg with
      | TUdp =>
          bound ← net_try (CallBind (sa_ipv4 peer));
          if negb bound then mret None else
          ok ← net_try (CallWriteTimeout IO_TIMEOUT);
          mret (if (ok : bool) then Some (ConnUdp peer) else None)
      | TTcp =>
          connected ← net_try (CallConnect peer IO_TIMEOUT);
          if negb connected then mret None else
          _ ← net_do open_stream;
          ok ← net_try (CallWriteTimeout IO_TIMEOUT);
          if negb ok then mret None else
          ok ← net_try CallNodelay;
          mret (if (ok : bool) then Some ConnTcp else None)
      end
  end.

(** The write on an open connection. *)
Definition syslog_write (conn : SyslogConn) (line : list Z) : net bool :=
  match conn with
  | ConnUdp peer =>
      ok ← net_try (CallSendTo peer);
      if (ok : bool) then _ ← net_do (deliver_datagram line); mret true else mret false
  | ConnTcp =>
      f ← net_call CallWrite;
      match f with
      | Some k => _ ← net_do (deliver_bytes (take k line)); mret false
      | None => _ ← net_do (deliver_bytes line); net_try CallFlush
      end
  | ConnIdle _ => mret false
  end.

(** [SyslogSink::send]: the connection it leaves and whether the line went out. *)
Definition syslog_send (cfg : SinkConfig) (conn : SyslogConn) (line : list Z) : net (bool * SyslogConn) :=
  opened ← match conn with
           | ConnIdle retry_after =>
               waiting ← match retry_after with
                         | Some at_ => now ← net_now; mret (now <? at_)
                         | None => mret false
                         end;
               if (waiting : bool) then mret None else syslog_open cfg
           | _ => mret (Some conn)
           end;
  match opened with
  | None => mret (false, conn)
  | Some conn =>
      ok ← syslog_write conn line;
      if (ok : bool) then mret (true, conn)
      else now ← net_now; mret (false, ConnIdle (Some (now + BACKOFF)))
  end.

Section sink.
Context `{Chrono : ChronoText} (fmt : msg -> string) (value_text : Json -> list Z).

(** [SyslogSink::note] *)
Definition syslog_note (ok : bool) (s : SyslogSink) : SyslogSink :=
  if ok then s {{ sy_up := true }} else s {{ sy_failed ::= add64 1; sy_up := false }}.

Definition syslog_emit (_ : Stamp) (_ : EnforcementEvent) (s : SyslogSink) : SyslogSink :=
  s {{ sy_failed ::= add64 1 }}.

Definition syslog_emit_envelope (env : EventEnvelope) (s : SyslogSink) : SyslogSink :=
  let record := render fmt value_text (sc_profile (sy_config s)) env in
  let '((ok, conn), n) := syslog_send (sy_config s) (sy_conn s) (record ++ [10]) (sy_net s) in
  let s := s {{ sy_conn := conn; sy_net := n; sy_acked := if ok then sy_acked s ++ [record] else sy_acked s }} in
  syslog_note ok s.

#[global] Instance syslog_sink : EventSink SyslogSink := {|
  emit := syslog_emit;
  emit_envelope := fun _ env => syslog_emit_envelope env;
  export_write_failed_total := sy_failed;
  export_queue_dropped_total := fun _ => 0;
  export_writer_lost_total := fun _ => 0;
  export_writer_dead := fun _ => false
|}.
End sink.

(** ** What the receivers hold *)

Definition same_wire (n n' : Net) : Prop := nt_datagrams n' = nt_datagrams n /\ nt_streams n' = nt_streams n.

Lemma net_call_wire c n : same_wire n (snd (net_call c n)).
Proof. by destruct n as [ck rs [|f fs] cs ds ss]. Qed.
Lemma net_try_wire c n : same_wire n (snd (net_try c n)).
Proof. unfold net_try, mbind, net_mbind. pose proof (net_call_wire c n). by destruct (net_call c n). Qed.
Lemma net_now_wire n : same_wire n (snd (net_now n)).
Proof. by destruct n as [[|t ck] rs fs cs ds ss]. Qed.
Lemma resolve_wire cfg n : same_wire n (snd (syslog_resolve cfg n)).
Proof. by destruct n as [ck [|a rs] fs cs ds ss]. Qed.

Lemma open_stream_wire n : nt_datagrams (open_stream n) = nt_datagrams n /\ nt_streams (open_stream n) = nt_streams n ++ [[]].
Proof. by destruct n. Qed.
Lemma deliver_bytes_wire x n :
  nt_datagrams (deliver_bytes x n) = nt_datagrams n /\ nt_streams (deliver_bytes x n) = append_last (nt_streams n) x.
Proof. by destruct n. Qed.
Lemma deliver_datagram_wire x n :
  nt_datagrams (deliver_datagram x n) = nt_datagrams n ++ [x] /\ nt_streams (deliver_datagram x n) = nt_streams n.
Proof. by destruct n. Qed.

Lemma same_wire_trans a b c : same_wire a b -> same_wire b c -> same_wire a c.
Proof. unfold same_wire. intuition congruence. Qed.
#[local] Hint Resolve net_call_wire net_try_wire net_now_wire resolve_wire : siem.

(** What opening a connection leaves: at most a fresh stream, which is then the last. *)
Definition open_result (cfg : SinkConfig) (n : Net) (c : option SyslogConn) (n' : Net) : Prop :=
  nt_datagrams n' = nt_datagrams n /\
  match sc_transport cfg, c with
  | TUdp, Some (ConnUdp _) | TUdp, None => nt_streams n' = nt_streams n
  | TTcp, Some ConnTcp => nt_streams n' = nt_streams n ++ [[]]
  | TTcp, None => nt_streams n' = nt_streams n \/ nt_streams n' = nt_streams n ++ [[]]
  | _, _ => False
  end.

Lemma open_leaves cfg n : open_result cfg n (fst (syslog_open cfg n)) (snd (syslog_open cfg n)).
Proof.
  unfold syslog_open, mbind, net_mbind, open_result.
  pose proof (resolve_wire cfg n) as [R1 R2]. destruct (syslog_resolve cfg n) as [[peer|] n1]; cbn [fst snd] in *.
  2: { split; [done|]. destruct (sc_transport cfg); [done | by left]. }
  destruct (sc_transport cfg).
  - pose proof (net_try_wire (CallBind (sa_ipv4 peer)) n1) as [B1 B2].
    destruct (net_try (CallBind (sa_ipv4 peer)) n1) as [[] n2]; cbn [fst snd negb] in *; [|split; simpl; congruence].
    pose proof (net_try_wire (CallWriteTimeout IO_TIMEOUT) n2) as [W1 W2].
    destruct (net_try (CallWriteTimeout IO_TIMEOUT) n2) as [[] n3]; cbn [fst snd] in *; split; simpl; congruence.
  - pose proof (net_try_wire (CallConnect peer IO_TIMEOUT) n1) as [B1 B2].
    destruct (net_try (CallConnect peer IO_TIMEOUT) n1) as [[] n2]; cbn [fst snd negb] in *; [|split; simpl; [congruence | left; congruence]].
    unfold net_do. destruct (open_stream_wire n2) as [O1 O2].
    pose proof (net_try_wire (CallWriteTimeout IO_TIMEOUT) (open_stream n2)) as [W1 W2].
    destruct (net_try (CallWriteTimeout IO_TIMEOUT) (open_stream n2)) as [[] n3]; cbn [fst snd negb] in *.
    2: { cbn [mret net_mret fst snd]. split; [congruence | right; congruence]. }
    pose proof (net_try_wire CallNodelay n3) as [D1 D2].
    destruct (net_try CallNodelay n3) as [[] n4]; cbn [fst snd negb mret net_mret] in *; (split; [congruence|]); [congruence | right; congruence].
Qed.

Lemma append_last_app init b x : append_last (init ++ [b]) x = init ++ [b ++ x].
Proof. induction init as [|a init IH]; [done|]. simpl. rewrite IH. by destruct init. Qed.

Section receivers.
Context `{Chrono : ChronoText} `{Laws : !ChronoLaws} (fmt : msg -> string) (Hfmt : forall m, str_ok (fmt m)).
Context (value_text : Json -> list Z) (Htext : forall v, Forall (fun b => 32 <= b) (value_text v)).

(** The records of a profile. *)
Definition siem_record (p : Profile) (r : list Z) : Prop := exists env, envelope_ok env /\ r = render fmt value_text p env.

(** A stream is lines that are records or the beginning of one, [ls], and an open end. *)
Definition stream_says (p : Profile) (b : list Z) (ls : list (list Z)) : Prop :=
  exists torn tail, framed (siem_record p) b torn ls tail.

(** The stream the sink holds open ends at a line end. *)
Definition open_clean (p : Profile) (streams : list (list Z)) (lss : list (list (list Z))) : Prop :=
  exists init b linit ls, streams = init ++ [b] /\ lss = linit ++ [ls] /\ length init = length linit /\
    framed (siem_record p) b false ls [].

Definition wire_inv (s : SyslogSink) : Prop :=
  let p := sc_profile (sy_config s) in
  match sc_transport (sy_config s) with
  | TUdp => nt_streams (sy_net s) = [] /\ sy_conn s <> ConnTcp /\
      nt_datagrams (sy_net s) = map (fun r => r ++ [10]) (sy_acked s) /\ Forall (siem_record p) (sy_acked s)
  | TTcp => nt_datagrams (sy_net s) = [] /\ (forall peer, sy_conn s <> ConnUdp peer) /\
      exists lss, Forall2 (stream_says p) (nt_streams (sy_net s)) lss /\ sy_acked s `sublist_of` concat lss /\
        (sy_conn s = ConnTcp -> open_clean p (nt_streams (sy_net s)) lss)
  end.

(** The connection a send writes on: the held one or a fresh one. *)
Definition conn_for (cfg : SinkConfig) (conn : SyslogConn) : net (option SyslogConn) :=
  match conn with
  | ConnIdle retry_after =>
      waiting ← match retry_after with
                | Some at_ => now ← net_now; mret (now <? at_)
                | None => mret false
                end;
      if (waiting : bool) then mret None else syslog_open cfg
  | _ => mret (Some conn)
  end.

Lemma conn_for_wire cfg conn n :
  let '(c, n') := conn_for cfg conn n in
  match conn with
  | ConnIdle _ => same_wire n n' /\ c = None \/ exists n1, same_wire n n1 /\ open_result cfg n1 c n'
  | _ => c = Some conn /\ n' = n
  end.
Proof.
  unfold conn_for, mbind, net_mbind. destruct conn as [[at_|]| |]; [| |done..].
  - pose proof (net_now_wire n) as Hn. destruct (net_now n) as [now n1]. simpl in *.
    destruct (now <? at_); [by left|]. pose proof (open_leaves cfg n1). destruct (syslog_open cfg n1) as [c n'].
    right. by exists n1.
  - pose proof (open_leaves cfg n) as H. simpl. destruct (syslog_open cfg n) as [c n']. right. by exists n.
Qed.

Lemma says_nil p : stream_says p [] [].
Proof. exists false, []. apply framed_nil. Qed.

Lemma open_says p streams lss :
  Forall2 (stream_says p) streams lss -> Forall2 (stream_says p) (streams ++ [[]]) (lss ++ [[]]) /\
  concat (lss ++ [[]]) = concat lss /\ open_clean p (streams ++ [[]]) (lss ++ [[]]).
Proof.
  intros H. split_and!.
  - apply Forall2_app; [done | constructor; [apply says_nil | constructor]].
  - rewrite concat_app. simpl. by rewrite !app_nil_r.
  - exists streams, [], lss, []. split_and!; [done | done | by eapply Forall2_length | apply framed_nil].
Qed.

(** A line, or a part of one, arrives on the open stream. *)
Lemma write_says p streams lss r x :
  Forall2 (stream_says p) streams lss -> open_clean p streams lss -> siem_record p r ->
  (x = r ++ [10] \/ exists k, x = take k (r ++ [10])) ->
  exists lss', Forall2 (stream_says p) (append_last streams x) lss' /\ concat lss `sublist_of` concat lss' /\
    (x = r ++ [10] -> concat lss' = concat lss ++ [r] /\ open_clean p (append_last streams x) lss').
Proof.
  intros Hs (init & b & linit & ls & -> & -> & Hlen & Hb) Hr Hx.
  apply Forall2_app_inv in Hs as [Hi _]; [|done]. rewrite append_last_app.
  destruct (base.decide (x = r ++ [10])) as [->|Hne].
  - exists (linit ++ [ls ++ [r]]). pose proof (framed_whole _ b ls r Hb Hr) as Hw. split_and!.
    + apply Forall2_app; [done | constructor; [by exists false, [] | constructor]].
    + rewrite !concat_app. simpl. rewrite !app_nil_r. apply sublist_app; [done | by apply sublist_inserts_r].
    + intros _. split; [rewrite !concat_app; simpl; by rewrite !app_nil_r, app_assoc|].
      exists init, (b ++ r ++ [10]), linit, (ls ++ [r]). done.
  - destruct Hx as [?|[k ->]]; [done|]. destruct (framed_cut _ b ls r k Hb Hr) as (ls' & tail & Hsub & Hf).
    exists (linit ++ [ls']). split_and!; [|rewrite !concat_app; simpl; rewrite !app_nil_r; by apply sublist_app|done].
    apply Forall2_app; [done | constructor; [by exists true, tail | constructor]].
Qed.

(** Whatever fails, an emit keeps the receivers' bytes framed. *)
Lemma udp_step env s :
  sc_transport (sy_config s) = TUdp -> envelope_ok env -> wire_inv s -> wire_inv (syslog_emit_envelope fmt value_text env s).
Proof.
  destruct s as [cfg conn failed up world acked]. intros Ht Henv Hinv. unfold wire_inv in Hinv.
  cbn [sy_config sy_conn sy_net sy_acked] in *. rewrite Ht in Hinv. destruct Hinv as (Hst & Hc & Hd & Ha).
  unfold syslog_emit_envelope. cbn [sy_config sy_conn sy_net sy_acked]. set (r := render _ _ _ env). set (p := sc_profile cfg) in *.
  assert (Hr : siem_record p r) by (by exists env).
  change (syslog_send cfg conn (r ++ [10]) world) with
    (let '(c, n1) := conn_for cfg conn world in
     match c with
     | None => mret (false, conn)
     | Some conn' => ok ← syslog_write conn' (r ++ [10]);
         if (ok : bool) then mret (true, conn') else now ← net_now; mret (false, ConnIdle (Some (now + BACKOFF)))
     end n1).
  pose proof (conn_for_wire cfg conn world) as Hw.
  destruct (conn_for cfg conn world) as [c n1].
  assert (Hn1 : nt_streams n1 = [] /\ nt_datagrams n1 = map (fun r => r ++ [10]) acked /\
    (c = None \/ exists peer, c = Some (ConnUdp peer))).
  { destruct conn as [ra|peer|]; [|destruct Hw as [-> ->]; eauto|done].
    destruct Hw as [[[H1 H2] ->]|(n2 & [H1 H2] & H3 & H4)]; [split_and!; [congruence..|by left]|].
    rewrite Ht in H4. destruct c as [[]|]; try done; (split_and!; [congruence..|eauto]). }
  destruct Hn1 as (Hs1 & Hd1 & [->|[peer ->]]).
  { unfold wire_inv. simpl. unfold constant. rewrite Ht. done. }
  unfold syslog_write, mbind, net_mbind. pose proof (net_try_wire (CallSendTo peer) n1) as [W1 W2].
  destruct (net_try (CallSendTo peer) n1) as [[] n2]; cbn [fst snd] in *; unfold net_do, mret, net_mret; cbn [fst snd].
  - destruct (deliver_datagram_wire (r ++ [10]) n2) as [D1 D2]. unfold wire_inv. simpl. unfold constant. rewrite Ht.
    split; [change (nt_streams (deliver_datagram (r ++ [10]) n2) = []); congruence|]. split; [done|]. split.
    + change (nt_datagrams (deliver_datagram (r ++ [10]) n2) = map (fun r => r ++ [10]) (acked ++ [r])).
      rewrite D1, map_app, W1, Hd1. done.
    + change (Forall (siem_record p) (acked ++ [r])). apply Forall_app. split; [done | by constructor].
  - pose proof (net_now_wire n2) as [T1 T2]. destruct (net_now n2) as [now n3]. cbn [fst snd] in *.
    unfold wire_inv. simpl. unfold constant. rewrite Ht. split; [congruence|]. split; [done|]. split; [congruence | done].
Qed.

Lemma tcp_step env s :
  sc_transport (sy_config s) = TTcp -> envelope_ok env -> wire_inv s -> wire_inv (syslog_emit_envelope fmt value_text env s).
Proof.
  destruct s as [cfg conn failed up world acked]. intros Ht Henv Hinv. unfold wire_inv in Hinv.
  cbn [sy_config sy_conn sy_net sy_acked] in *. rewrite Ht in Hinv. destruct Hinv as (Hd & Hc & lss & Hlss & Ha & Hopen).
  unfold syslog_emit_envelope. cbn [sy_config sy_conn sy_net sy_acked]. set (r := render _ _ _ env). set (p := sc_profile cfg) in *.
  assert (Hr : siem_record p r) by (by exists env).
  change (syslog_send cfg conn (r ++ [10]) world) with
    (let '(c, n1) := conn_for cfg conn world in
     match c with
     | None => mret (false, conn)
     | Some conn' => ok ← syslog_write conn' (r ++ [10]);
         if (ok : bool) then mret (true, conn') else now ← net_now; mret (false, ConnIdle (Some (now + BACKOFF)))
     end n1).
  pose proof (conn_for_wire cfg conn world) as Hw. destruct (conn_for cfg conn world) as [c n1].
  assert (Hn1 : nt_datagrams n1 = [] /\ exists lss1, Forall2 (stream_says p) (nt_streams n1) lss1 /\ acked `sublist_of` concat lss1 /\
    (c = None /\ conn <> ConnTcp \/ c = Some ConnTcp /\ open_clean p (nt_streams n1) lss1)).
  { destruct conn as [ra|peer|]; [|by destruct (Hc peer)|].
    - destruct Hw as [[[H1 H2] ->]|(n2 & [H1 H2] & H3 & H4)].
      { split; [congruence|]. exists lss. rewrite H2. split_and!; [done | done | by left]. }
      split; [congruence|]. rewrite Ht, H2 in H4. destruct (open_says _ _ _ Hlss) as (O1 & O2 & O3).
      destruct c as [[]|]; try done.
      + exists (lss ++ [[]]). rewrite H4, O2. split_and!; [done | done | by right].
      + destruct H4 as [-> | ->]; [exists lss | exists (lss ++ [[]]); rewrite O2]; split_and!; try done; by left.
    - destruct Hw as [-> ->]. split; [done|]. exists lss. split_and!; [done | done | right; split; [done | by apply Hopen]]. }
  destruct Hn1 as (Hd1 & lss1 & Hlss1 & Ha1 & [[-> Hne]|[-> Hcl]]).
  { unfold wire_inv. simpl. unfold constant. rewrite Ht. split; [done|]. split; [done|]. exists lss1. split_and!; done. }
  unfold syslog_write, mbind, net_mbind. pose proof (net_call_wire CallWrite n1) as [W1 W2].
  destruct (net_call CallWrite n1) as [[k|] n2]; cbn [fst snd] in *; unfold net_do, mret, net_mret; cbn [fst snd].
  - destruct (deliver_bytes_wire (take k (r ++ [10])) n2) as [D1 D2].
    pose proof (net_now_wire (deliver_bytes (take k (r ++ [10])) n2)) as [T1 T2]. destruct (net_now _) as [now n3]. cbn [fst snd] in *.
    destruct (write_says p (nt_streams n1) lss1 r (take k (r ++ [10])) Hlss1 Hcl Hr) as (lss' & S1 & S2 & _); [eauto|].
    unfold wire_inv. simpl. unfold constant. rewrite Ht. split; [congruence|]. split; [done|]. exists lss'.
    rewrite T2, D2, W2. split_and!; [done | by etrans | done].
  - destruct (deliver_bytes_wire (r ++ [10]) n2) as [D1 D2].
    destruct (write_says p (nt_streams n1) lss1 r (r ++ [10]) Hlss1 Hcl Hr) as (lss' & S1 & S2 & S3); [by left|].
    destruct (S3 eq_refl) as [S4 S5]. rewrite <- W2, <- D2 in S1, S5.
    pose proof (net_try_wire CallFlush (deliver_bytes (r ++ [10]) n2)) as [F1 F2].
    destruct (net_try CallFlush _) as [[] n3]; cbn [fst snd] in *.
    + unfold wire_inv. simpl. unfold constant. rewrite Ht. split; [congruence|]. split; [done|]. exists lss'. rewrite F2.
      split_and!; [done | rewrite S4; by apply sublist_app | done].
    + pose proof (net_now_wire n3) as [T1 T2]. destruct (net_now n3) as [now n4]. cbn [fst snd] in *.
      unfold wire_inv. simpl. unfold constant. rewrite Ht. split; [congruence|]. split; [done|]. exists lss'. rewrite T2, F2.
      split_and!; [done | by etrans | done].
Qed.

(** ** Runs *)

Inductive SinkOp : Type := OpEmit (st : Stamp) (e : EnforcementEvent) | OpEnvelope (st : Stamp) (env : EventEnvelope).
Definition sink_op (s : SyslogSink) (o : SinkOp) : SyslogSink :=
  match o with
  | OpEmit st e => @emit _ (syslog_sink fmt value_text) st e s
  | OpEnvelope st env => @emit_envelope _ (syslog_sink fmt value_text) st env s
  end.
Definition op_ok (o : SinkOp) : Prop := match o with OpEmit _ _ => True | OpEnvelope _ env => envelope_ok env end.

(** One delivery is acknowledged or counted, and the configuration stays. *)
Lemma syslog_one o s :
  sy_config (sink_op s o) = sy_config s /\
  ((len (sy_acked (sink_op s o)) = len (sy_acked s) + 1 /\ sy_failed (sink_op s o) = sy_failed s) \/
   (len (sy_acked (sink_op s o)) = len (sy_acked s) /\ sy_failed (sink_op s o) = add64 1 (sy_failed s))).
Proof.
  destruct s as [cfg conn failed up world acked], o as [st e|st env]; [split; [done | by right]|].
  unfold sink_op, emit_envelope, syslog_sink, syslog_emit_envelope. cbn [sy_config sy_conn sy_net sy_acked].
  destruct (syslog_send _ _ _ world) as [[[] c] n]; (split; [done|]); [left | by right].
  split; [exact (len_app acked [_]) | done].
Qed.

Lemma sink_op_inv o s : op_ok o -> wire_inv s -> wire_inv (sink_op s o).
Proof.
  intros Ho Hs. destruct o as [st e|st env].
  - destruct s. exact Hs.
  - destruct (sc_transport (sy_config s)) eqn:Ht; [by apply udp_step | by apply tcp_step].
Qed.

#[global] Instance syslog_accounts : @AccountingSink SyslogSink (syslog_sink fmt value_text).
Proof.
  refine (@Build_AccountingSink _ (syslog_sink fmt value_text) (counter_good sy_failed) (fun s => len (sy_acked s)) (fun _ => 1) _ _ _ _).
  - done.
  - by intros s [].
  - intros stamp e. apply counter_kept. intros s. apply (syslog_one (OpEmit stamp e) s).
  - intros stamp env. apply counter_kept. intros s. apply (syslog_one (OpEnvelope stamp env) s).
Defined.

(** The lines of everything that arrived. *)
Definition received (n : Net) : list (list Z) := concat (map lines_of (nt_datagrams n ++ nt_streams n)).

Lemma siem_record_plain p r b : siem_record p r -> b ∈ r -> 32 <= b.
Proof.
  intros (env & Henv & ->) Hb. pose proof (render_plain fmt Hfmt value_text p env Htext Henv) as H.
  rewrite Forall_forall in H. by apply H.
Qed.

Lemma received_says s :
  wire_inv s -> sy_acked s `sublist_of` received (sy_net s) /\
  forall line, line ∈ received (sy_net s) -> piece (siem_record (sc_profile (sy_config s))) line.
Proof.
  unfold wire_inv, received. set (p := sc_profile (sy_config s)). rewrite map_app, concat_app. intros H.
  destruct (sc_transport (sy_config s)).
  - destruct H as (-> & _ & -> & Hr). simpl. rewrite app_nil_r.
    assert (E : concat (map lines_of (map (fun r => r ++ [10]) (sy_acked s))) = sy_acked s).
    { induction Hr as [|r rs Hr _ IH]; [done|]. cbn [map concat]. rewrite IH.
      pose proof (framed_whole _ [] [] r (framed_nil (siem_record p) false) Hr) as Hf. cbn [app] in Hf.
      by rewrite (lines_of_framed _ (siem_record_plain p) _ _ _ _ Hf). }
    rewrite E. split; [done|]. intros line Hl. rewrite Forall_forall in Hr. right. exists line. split; [by apply Hr | done].
  - destruct H as (-> & _ & lss & Hs & Ha & _). simpl.
    assert (G : concat lss `sublist_of` concat (map lines_of (nt_streams (sy_net s))) /\
      forall line, line ∈ concat (map lines_of (nt_streams (sy_net s))) -> piece (siem_record p) line).
    { clear Ha. induction Hs as [|b ls bs lss Hb _ [IH1 IH2]]; [split; [done | set_solver]|]. cbn [map concat].
      destruct Hb as (torn & tail & Hf). rewrite (lines_of_framed _ (siem_record_plain p) _ _ _ _ Hf). split.
      - rewrite <- app_assoc. apply sublist_app; [done|]. by apply sublist_inserts_l.
      - intros line Hl. apply elem_of_app in Hl as [Hl|Hl]; [|by apply IH2]. apply elem_of_app in Hl as [Hl|Hl].
        + pose proof (fr_lines _ _ _ _ _ Hf) as Hls. rewrite Forall_forall in Hls. by apply Hls.
        + pose proof (fr_tail _ _ _ _ _ Hf). destruct (is_empty tail); set_solver. }
    destruct G as [G1 G2]. split; [by etrans | done].
Qed.


(** Inside the window after a failed write nothing is called. *)
Lemma backoff_is_silent st env s at_ now clock :
  sy_conn s = ConnIdle (Some at_) -> nt_clock (sy_net s) = now :: clock -> now < at_ ->
  nt_calls (sy_net (sink_op s (OpEnvelope st env))) = nt_calls (sy_net s) /\
  sy_failed (sink_op s (OpEnvelope st env)) = add64 1 (sy_failed s).
Proof.
  destruct s as [cfg conn failed up [ck rs fs cs ds ss] acked]. simpl. intros -> -> Hlt.
  unfold syslog_emit_envelope, syslog_send, mbind, net_mbind. simpl. by rewrite (proj2 (Z.ltb_lt _ _)).
Qed.
End receivers.

(** ** Examples *)

Definition refusing_world : Net :=
  {| nt_clock := []; nt_resolver := repeat (Some [{| sa_ipv4 := true; sa_id := 1 |}]) 10; nt_fates := repeat (Some 0%nat) 10;
     nt_calls := []; nt_datagrams := []; nt_streams := [] |}.
Definition tcp_config : SinkConfig := {| sc_address := "10.0.0.1:6514"; sc_transport := TTcp; sc_profile := Rfc5424 |}.
#[local] Existing Instance toy_chrono.
#[local] Existing Instance toy_chrono_laws.
Definition toy_op : SinkOp := OpEnvelope {| st_now := 0; st_ctx := context_new "node" "respond" |} hostile_envelope.
Definition toy_run (world : Net) (n : nat) : SyslogSink :=
  foldl (sink_op (fun _ => "e") (fun _ => as_bytes "{}")) (syslog_new tcp_config world) (repeat toy_op n).

(** A connect that fails leaves no time before which none is tried again: three events in
    one instant, to a destination that refuses, are three resolutions and three connects,
    each of which may take [IO_TIMEOUT]. *)
Lemma refused_connect_is_not_delayed :
  nt_calls (sy_net (toy_run refusing_world 3)) =
    concat (repeat [CallResolve "10.0.0.1:6514"; CallConnect {| sa_ipv4 := true; sa_id := 1 |} IO_TIMEOUT] 3) /\
  sy_conn (toy_run refusing_world 3) = ConnIdle None.
Proof. vm_compute. done. Qed.

(** The second of four writes breaks off after ten bytes, a later one goes out on a fresh
    stream. *)
Definition flaky_world : Net :=
  {| nt_clock := [0; BACKOFF; BACKOFF]; nt_resolver := repeat (Some [{| sa_ipv4 := true; sa_id := 1 |}]) 10;
     nt_fates := [None; None; None; None; None; Some 10%nat]; nt_calls := []; nt_datagrams := []; nt_streams := [] |}.

