(* ===== verification/Metrics.v ===== *)
(** * The text exposition of metrics

    [crates/ferrum-metrics/src/lib.rs]: the latency histogram, the families one process
    publishes with the assertions that guard them, and their text. A builder that panics
    answers [None]. A double is [spec_float] of the Standard Library at 53 bits; its text to
    nine places is computed exactly. *)

From Stdlib Require Import SpecFloat.
From S2P Require Import Prelude RustStd RustText Ids Proto Siem.

(** ** Doubles *)

Definition f64 : Type := spec_float.
Definition f64_of_int (n : Z) : f64 := binary_normalize 53 1024 n 0 false.
Definition f64_add (a b : f64) : f64 := SFadd 53 1024 a b.
Definition f64_div (a b : f64) : f64 := SFdiv 53 1024 a b.
Definition f64_le (a b : f64) : bool := SFleb a b.

(** A literal [n / 10^k]: the nearest double, as division of two exact integers rounds. *)
Definition f64_lit (n k : Z) : f64 := f64_div (f64_of_int n) (f64_of_int (10 ^ k)).

(** [Duration::as_secs_f64] of a number of nanoseconds. *)
Definition as_secs_f64 (nanos : Z) : f64 :=
  f64_add (f64_of_int (nanos / 1000000000)) (f64_div (f64_of_int (nanos mod 1000000000)) (f64_of_int 1000000000)).

(** [num / den] to the nearest integer, ties to even. *)
Definition div_round (num den : Z) : Z :=
  let q := num / den in
  let r := num mod den in
  if 2 * r <? den then q else if den <? 2 * r then q + 1 else if Z.even q then q else q + 1.

(** [m * 2^e] in units of 10^-9. *)
Definition nano_units (m e : Z) : Z :=
  if 0 <=? e then m * 2 ^ e * 1000000000 else div_round (m * 1000000000) (2 ^ (- e)).

(** The decimal text of a natural number: enough digits for any double. *)
Definition nat_text (n : Z) : list Z := rev (digits_rev 400 n).

(** Exactly nine digits. *)
Fixpoint pad9 (k : nat) (n : Z) : list Z :=
  match k with O => [] | S k => pad9 k (n / 10) ++ [48 + n mod 10] end.

(** [format!("{value:.9}")] of a finite double. *)
Definition fixed9 (neg : bool) (units : Z) : list Z :=
  (if neg then [45] else []) ++ nat_text (units / 1000000000) ++ [46] ++ pad9 9 (units mod 1000000000).

(** ** Names and escapes *)

Definition is_ascii_alphabetic (b : Z) : bool := in_range 65 90 b || in_range 97 122 b.
Definition is_ascii_digit (b : Z) : bool := in_range 48 57 b.

(** [valid_name], over the bytes: a character of more than one byte fails every test. *)
Definition name_head (b : Z) : bool := is_ascii_alphabetic b || (b =? 95) || (b =? 58).
Definition name_tail (b : Z) : bool := is_ascii_alphabetic b || is_ascii_digit b || (b =? 95) || (b =? 58).
Definition valid_name (name : string) : bool :=
  match as_bytes name with
  | [] => false
  | c :: rest => name_head c && forallb name_tail rest
  end.

Fixpoint snake_from (first : bool) (l : list Z) : list Z :=
  match l with
  | [] => []
  | c :: l' => (if in_range 65 90 c then (if first then [] else [95]) ++ [ascii_lower c] else [c]) ++ snake_from false l'
  end.
Definition snake_case (key : string) : list Z := snake_from true (as_bytes key).

(** [str::replace] of one ASCII character. *)
Definition replace_byte (c : Z) (by_ : list Z) (l : list Z) : list Z := concat (map (fun b => if b =? c then by_ else [b]) l).

Definition escape_help (text : string) : list Z := replace_byte 10 [92; 110] (replace_byte 92 [92; 92] (as_bytes text)).
Definition escape_label (text : string) : list Z :=
  replace_byte 10 [92; 110] (replace_byte 34 [92; 34] (replace_byte 92 [92; 92] (as_bytes text))).

(** The loop that drops zeros, and the zero put back after a bare point. *)
Fixpoint drop_zeros (rev_text : list Z) : list Z :=
  match rev_text with
  | b :: l => if b =? 48 then drop_zeros l else rev_text
  | [] => []
  end.
Definition trim_zeros (text : list Z) : list Z :=
  if has_byte 46 text then
    let text := rev (drop_zeros (rev text)) in
    if suffixb [46] text then text ++ [48] else text
  else text.

Definition format_float (value : f64) : list Z :=
  match value with
  | S754_infinity neg => as_bytes (if neg then "-Inf" else "+Inf")
  | S754_nan => as_bytes "NaN"
  | S754_zero neg => trim_zeros (fixed9 neg 0)
  | S754_finite neg m e => trim_zeros (fixed9 neg (nano_units (Zpos m) e))
  end.

(** ** [Histogram] *)

Definition LATENCY_BUCKETS_SECONDS : list f64 :=
  [f64_lit 1 4; f64_lit 25 5; f64_lit 5 4; f64_lit 1 3; f64_lit 25 4; f64_lit 5 3; f64_lit 1 2; f64_lit 25 3; f64_lit 5 2;
   f64_lit 1 1; f64_lit 5 1; f64_lit 25 1].

Record Histogram : Type := { hi_buckets : list Z; hi_count : Z; hi_sum_nanos : Z }.
Definition histogram_new : Histogram :=
  {| hi_buckets := repeat 0 (length LATENCY_BUCKETS_SECONDS); hi_count := 0; hi_sum_nanos := 0 |}.

(** [Histogram::observe]; [elapsed] in nanoseconds. *)
Definition observe (elapsed : Z) (h : Histogram) : Histogram :=
  let nanos := Z.min elapsed (U64 - 1) in
  let seconds := as_secs_f64 elapsed in
  {| hi_buckets := zip_with (fun upper n => if f64_le seconds upper then (n + 1) mod U64 else n)
                     LATENCY_BUCKETS_SECONDS (hi_buckets h);
     hi_count := (hi_count h + 1) mod U64;
     hi_sum_nanos := (hi_sum_nanos h + nanos) mod U64 |}.
Definition sum_seconds (h : Histogram) : f64 := f64_div (f64_of_int (hi_sum_nanos h)) (f64_of_int 1000000000).

(** ** [Exposition] *)

Inductive MetricKind : Type := MCounter | MGauge | MHistogram.
Definition kind_text (k : MetricKind) : string :=
  match k with MCounter => "counter" | MGauge => "gauge" | MHistogram => "histogram" end.

Record Sample : Type := { sm_labels : list (string * string); sm_value : list Z }.
Record Family : Type := { fa_name : string; fa_help : string; fa_kind : MetricKind; fa_samples : list Sample }.

(** [seen] is the names of the families, in the order they were added. *)
Record Exposition : Type := { ex_families : list Family }.
Definition exposition_new : Exposition := {| ex_families := [] |}.
Definition family_names (e : Exposition) : list string := map fa_name (ex_families e).

(** A panic or the next exposition. *)
Definition require (cond : bool) : option unit := if cond then Some tt else None.

(** [Exposition::open] and the samples pushed into the family it returns. *)
Definition open_family (name help : string) (kind : MetricKind) (samples : list Sample) (e : Exposition) : option Exposition :=
  _ ← require (valid_name name);
  _ ← require (negb (list_contains (family_names e) name));
  _ ← require (negb (str_empty help));
  Some {| ex_families := ex_families e ++ [{| fa_name := name; fa_help := help; fa_kind := kind; fa_samples := samples |}] |}.

Definition counter (name help : string) (value : Z) (e : Exposition) : option Exposition :=
  _ ← require (ends_with name "_total");
  open_family name help MCounter [{| sm_labels := []; sm_value := int_text value |}] e.

Definition gauge (name help : string) (value : Z) (e : Exposition) : option Exposition :=
  _ ← require (negb (ends_with name "_total"));
  open_family name help MGauge [{| sm_labels := []; sm_value := int_text value |}] e.

Definition bool_gauge (name help : string) (value : bool) (e : Exposition) : option Exposition :=
  gauge name help (if value then 1 else 0) e.

Definition labelled_gauge (name help : string) (series : list (list (string * string) * Z)) (e : Exposition) : option Exposition :=
  e' ← open_family name help MGauge (map (fun s => {| sm_labels := fst s; sm_value := int_text (snd s) |}) series) e;
  _ ← require (forallb (fun s => forallb (fun kv => valid_name (fst kv)) (fst s)) series);
  Some e'.

Definition SUFFIX_LABEL : string := "__suffix".

Definition histogram_samples (h : Histogram) : list Sample :=
  zip_with (fun upper n => {| sm_labels := [("le", string_of_bytes (format_float upper))]; sm_value := int_text n |})
    LATENCY_BUCKETS_SECONDS (hi_buckets h) ++
  [{| sm_labels := [("le", "+Inf")]; sm_value := int_text (hi_count h) |};
   {| sm_labels := [(SUFFIX_LABEL, "_sum")]; sm_value := format_float (sum_seconds h) |};
   {| sm_labels := [(SUFFIX_LABEL, "_count")]; sm_value := int_text (hi_count h) |}].

Definition histogram (name help : string) (h : Histogram) (e : Exposition) : option Exposition :=
  _ ← require (negb (ends_with name "_total") && negb (ends_with name "_bucket"));
  open_family name help MHistogram (histogram_samples h) e.

(** ** [render] *)

Definition label_text (kv : string * string) : list Z :=
  as_bytes (fst kv) ++ [61; 34] ++ escape_label (snd kv) ++ [34].

(** One sample: the reserved label of a histogram is a suffix of the name. *)
Definition render_sample (f : Family) (s : Sample) : list Z :=
  let is_hist := match fa_kind f with MHistogram => true | _ => false end in
  match sm_labels s with
  | [(k, v)] =>
      if str_eqb k SUFFIX_LABEL && is_hist
      then as_bytes (fa_name f) ++ as_bytes v ++ [32] ++ sm_value s ++ [10]
      else as_bytes (fa_name f) ++ as_bytes (if is_hist then "_bucket" else "") ++ [123] ++ label_text (k, v) ++ [125; 32]
           ++ sm_value s ++ [10]
  | [] => as_bytes (fa_name f) ++ as_bytes (if is_hist then "_bucket" else "") ++ [32] ++ sm_value s ++ [10]
  | labels => as_bytes (fa_name f) ++ as_bytes (if is_hist then "_bucket" else "") ++ [123] ++
              join_with [44] (map label_text labels) ++ [125; 32] ++ sm_value s ++ [10]
  end.

Definition render_family (f : Family) : list Z :=
  as_bytes "# HELP " ++ as_bytes (fa_name f) ++ [32] ++ escape_help (fa_help f) ++ [10] ++
  as_bytes "# TYPE " ++ as_bytes (fa_name f) ++ [32] ++ as_bytes (kind_text (fa_kind f)) ++ [10] ++
  concat (map (render_sample f) (fa_samples f)).

Definition render_exposition (e : Exposition) : list Z := concat (map render_family (ex_families e)).
