(* ===== verification/MetricsRead.v ===== *)
(** * What a scraper makes of a page

    A reader for the Prometheus text format 0.0.4, written after that format's document,
    and the families of the webhook ([crates/ferrum-admission/src/metrics.rs]) and of the
    controller ([crates/ferrum-controller/src/metrics.rs]). The theorem of this file: in
    every state these pages are built without a panic and read back as the numbers of the
    process. *)

From S2P Require Import Prelude RustStd RustText Ids Api Grant BreakGlass Webhook Health Controller Proto Siem Metrics.

(** ** The reader *)

(** A text with the escapes of a label value or of a help line, up to [stop]. *)
Fixpoint read_label_value (l : list Z) : option (list Z * list Z) :=
  match l with
  | [] => None
  | b :: l' =>
      if b =? 92 then
        match l' with
        | [] => None
        | c :: l'' => '(v, rest) ← read_label_value l''; Some ((if c =? 110 then 10 else c) :: v, rest)
        end
      else if b =? 34 then Some ([], l')
      else '(v, rest) ← read_label_value l'; Some (b :: v, rest)
  end.

Fixpoint unescape_help (l : list Z) : list Z :=
  match l with
  | [] => []
  | b :: l' =>
      if b =? 92 then match l' with [] => [92] | c :: l'' => (if c =? 110 then 10 else c) :: unescape_help l'' end
      else b :: unescape_help l'
  end.

(** [name="value"] and a comma or the closing brace. *)
Fixpoint read_labels (fuel : nat) (l : list Z) : option (list (list Z * list Z) * list Z) :=
  match fuel with
  | O => None
  | S fuel =>
      '(name, l1) ← split_once 61 l;
      match l1 with
      | q :: l2 =>
          if q =? 34 then
            '(v, l3) ← read_label_value l2;
            match l3 with
            | b :: l4 =>
                if b =? 125 then Some ([(name, v)], l4)
                else if b =? 44 then '(more, l5) ← read_labels fuel l4; Some ((name, v) :: more, l5)
                else None
            | [] => None
            end
          else None
      | [] => None
      end
  end.

(** The bytes of a metric name. *)
Fixpoint read_name (l : list Z) : list Z * list Z :=
  match l with
  | b :: l' => if name_tail b then let '(n, rest) := read_name l' in (b :: n, rest) else ([], l)
  | [] => ([], [])
  end.

Inductive MetricLine : Type :=
| LHelp (name text : list Z)
| LType (name kind : list Z)
| LSample (name : list Z) (labels : list (list Z * list Z)) (value : list Z).

Definition read_metric_line (l : list Z) : option MetricLine :=
  match strip_prefix (as_bytes "# HELP ") l with
  | Some rest => '(name, text) ← split_once 32 rest; Some (LHelp name (unescape_help text))
  | None =>
      match strip_prefix (as_bytes "# TYPE ") l with
      | Some rest => '(name, kind) ← split_once 32 rest; Some (LType name kind)
      | None =>
          let '(name, rest) := read_name l in
          match rest with
          | b :: rest' =>
              if b =? 32 then Some (LSample name [] rest')
              else if b =? 123 then
                '(labels, after) ← read_labels (length rest') rest';
                match after with
                | b :: value => if b =? 32 then Some (LSample name labels value) else None
                | [] => None
                end
              else None
          | [] => None
          end
      end
  end.

(** Every line of a page; the last one ends the text. *)
Fixpoint read_all (ls : list (list Z)) : option (list MetricLine) :=
  match ls with
  | [] => None
  | [l] => if is_empty l then Some [] else None
  | l :: ls' => x ← read_metric_line l; xs ← read_all ls'; Some (x :: xs)
  end.
Definition read_page (text : list Z) : option (list MetricLine) := read_all (split_on 10 text).

(** ** The webhook's page *)

(** The calls on one [Exposition], in order; a panic ends the page. *)
Definition build (steps : list (Exposition -> option Exposition)) : option Exposition :=
  foldl (fun acc step => acc ≫= step) (Some exposition_new) steps.

Definition break_glass_families (w : WebhookState) (now : Z) : list (Exposition -> option Exposition) :=
  let armed := wh_break_glass w in
  let held := armed ≫= fun bg => active bg now in
  [bool_gauge "ferrum_admission_break_glass_configured"
    "1 when this replica was started with a break-glass mount and a writable journal; 0 means the emergency suspension is unavailable on this cluster"
    (match armed with Some _ => true | None => false end);
  bool_gauge "ferrum_admission_break_glass_active"
    "1 while a verified grant is suspending policy evaluation in this replica: every AdmissionReview is being answered allow without evaluating anything"
    (match held with Some _ => true | None => false end);
  gauge "ferrum_admission_break_glass_expires_in_seconds" "seconds left on the grant in force; 0 when none is"
    (match held with Some g => Z.max 0 (remaining_seconds g now) | None => 0 end);
  counter "ferrum_admission_break_glass_admits_total"
    "AdmissionReviews this replica allowed because a grant was in force rather than because a policy said so; not derivable from the allow total"
    (match armed with Some bg => bg_admits bg | None => 0 end);
  counter "ferrum_admission_break_glass_activations_total" "grants that came into force in this replica"
    (match armed with Some bg => bg_activations bg | None => 0 end);
  counter "ferrum_admission_break_glass_rejections_total"
    "grant documents this replica refused: a bad signature, an expired or over-long window, a scope it does not honour. Every poll counts, so a retried forgery is visible here even though the journal records it once"
    (match armed with Some bg => bg_rejections bg | None => 0 end);
  counter "ferrum_admission_break_glass_journal_entries_total" "entries in this replica's break-glass journal chain"
    (match armed with Some bg => bg_journal_entries bg | None => 0 end);
  bool_gauge "ferrum_admission_break_glass_journal_broken"
    "1 when the journal stopped accepting entries after start-up; while this is 1 no grant can come into force, because a suspension that cannot be recorded is not taken"
    (match armed ≫= bg_journal_broken with Some _ => true | None => false end);
  labelled_gauge "ferrum_admission_break_glass_journal_info"
    "1, labelled with the head hash of this replica's journal chain. Storing it is what makes the chain tamper-evident: an edit is visible to anybody holding an older head"
    [([("head", match armed with Some bg => bg_journal_head bg | None => "" end)], 1)]].

Definition webhook_exposition (w : WebhookState) (review_seconds : Histogram) (now : Z) : option Exposition :=
  build ([histogram "ferrum_admission_review_seconds"
    "wall time spent inside handle() per AdmissionReview: the span the API server is blocked on in this process, with the socket and the TLS handshake outside it"
    review_seconds;
  counter "ferrum_admission_reviews_allowed_total" "AdmissionReviews this replica answered allow" (wh_reviews_allowed w);
  counter "ferrum_admission_reviews_denied_total"
    "AdmissionReviews this replica refused: a policy deny, a fail-closed bundle, or a request it could not read"
    (wh_reviews_denied w);
  gauge "ferrum_admission_exceptions_active" "approved waivers this replica would apply right now" (len (wh_exceptions w));
  counter "ferrum_admission_exceptions_resets_total"
    "times an unverifiable exception source emptied the waiver table; every waiver it held now denies" (wh_exceptions_resets w);
  counter "ferrum_admission_exceptions_cleared_total"
    "times the waiver table was emptied because the source key is absent, which is a legal state and still drops every approved waiver"
    (wh_exceptions_cleared w);
  counter "ferrum_admission_bundle_unreadable_total"
    "times the bundle mount answered a stat with neither a readable file nor ENOENT: a poll loop that has stopped seeing the changes it exists to see"
    (wh_bundle_unreadable w);
  counter "ferrum_admission_bundle_absent_total"
    "times the bundle key went missing from the mount, leaving this replica enforcing a program whose source is gone"
    (wh_bundle_absent w);
  labelled_gauge "ferrum_admission_bundle_info"
    "1, labelled with the digest of the PolicyBundle whose program is in force; empty means none has been loaded"
    [([("digest", default "" (wh_bundle_digest w))], 1)]] ++ break_glass_families w now ++
  [labelled_gauge "ferrum_admission_info" "1, labelled with the version of this webhook" [([("version", "0.1.0")], 1)]]).

(** ** The controller's page *)

(** [ControllerMetrics::bundle_digests]: how many policies are on each digest. *)
Definition bundle_digests (m : ControllerMetrics) : gmap string Z :=
  foldl (fun out d => <[d := default 0 (out !! d) + 1]> out) ∅ (map snd (btree_iter (cm_bundle_digests m))).

Definition class_series (f : FailureClass -> Z) : list (list (string * string) * Z) :=
  map (fun c => ([("class", class_name c)], f c)) class_all.

Definition class_counters (h : ControllerHealth) : list (Exposition -> option Exposition) :=
  map (fun c => counter ("ferrum_controller_" +:+ class_counter c +:+ "_total")
                 ("requests of class `" +:+ class_name c +:+ "` that failed") (failures h c)) class_all.

Definition digest_series (m : ControllerMetrics) : list (list (string * string) * Z) :=
  let digests := btree_iter (bundle_digests m) in
  if is_empty digests then [([("digest", "")], 0)]
  else map (fun dp => ([("digest", fst dp)], snd dp)) digests.

Definition controller_exposition (m : ControllerMetrics) (h : ControllerHealth) : option Exposition :=
  build ([counter "ferrum_controller_reconcile_total"
    "policy and namespaced-policy watch events this controller took up for reconciliation" (cm_reconcile_total m);
  counter "ferrum_controller_compile_failures_total"
    "policies that reconciled and did not compile; the object carries the reason in its status, and this is not an API failure"
    (cm_compile_failures_total m)] ++
  class_counters h ++
  [bool_gauge "ferrum_controller_degraded"
    "1 when this controller has at least one reason in status.json; the reasons themselves are prose and stay in the file"
    (ctl_is_degraded h);
  labelled_gauge "ferrum_controller_failure_run" "consecutive failures of this class with nothing in between"
    (class_series (failure_run h));
  labelled_gauge "ferrum_controller_class_never_succeeded"
    "1 when no request of this class has ever succeeded; with a run at ferrum_controller_terminal_run this is the deployment being wrong rather than an object being bad"
    (class_series (fun c => if ever_succeeded h c then 0 else 1));
  gauge "ferrum_controller_terminal_run"
    "the run at which a class that never succeeded ends the process, from TERMINAL_RUN" TERMINAL_RUN;
  labelled_gauge "ferrum_controller_unactionable_objects"
    "objects of this class this controller cannot act on and no retry will mend"
    (class_series (fun c => len (unactionable h c)));
  bool_gauge "ferrum_controller_status_write_failed"
    "1 when status.json could not be written, so this port is the only surface left" (ch_status_write_failed h);
  counter "ferrum_controller_status_write_failures_total" "failed writes of status.json" (ch_status_write_failures h);
  labelled_gauge "ferrum_controller_bundle_info"
    "how many policies this controller has signed onto each bundle digest; empty digest with 0 means it has signed none since it started"
    (digest_series m)]).

(** ** The numbers of an exposition, as a scraper should see them *)

Definition is_histogram (f : Family) : bool := match fa_kind f with MHistogram => true | _ => false end.

(** The reserved label of a histogram sample, when it is one. *)
Definition suffix_of (f : Family) (s : Sample) : option string :=
  match sm_labels s with
  | [(k, v)] => if str_eqb k SUFFIX_LABEL && is_histogram f then Some v else None
  | _ => None
  end.

Definition labels_view (labels : list (string * string)) : list (list Z * list Z) :=
  map (fun kv => (as_bytes (fst kv), as_bytes (snd kv))) labels.

Definition sample_view (f : Family) (s : Sample) : MetricLine :=
  match suffix_of f s with
  | Some v => LSample (as_bytes (fa_name f) ++ as_bytes v) [] (sm_value s)
  | None => LSample (as_bytes (fa_name f) ++ as_bytes (if is_histogram f then "_bucket" else "")) (labels_view (sm_labels s)) (sm_value s)
  end.
Definition family_view (f : Family) : list MetricLine :=
  LHelp (as_bytes (fa_name f)) (as_bytes (fa_help f)) :: LType (as_bytes (fa_name f)) (as_bytes (kind_text (fa_kind f))) ::
  map (sample_view f) (fa_samples f).
Definition exposition_view (e : Exposition) : list MetricLine := concat (map family_view (ex_families e)).

(** What the builders guarantee of a family. *)
Definition sample_ok (f : Family) (s : Sample) : Prop :=
  10 ∉ sm_value s /\
  match suffix_of f s with
  | Some v => Forall (fun b => name_tail b = true) (as_bytes v)
  | None => Forall (fun kv => valid_name (fst kv) = true) (sm_labels s)
  end.
Definition family_ok (f : Family) : Prop :=
  valid_name (fa_name f) = true /\ Forall (sample_ok f) (fa_samples f).
Definition exposition_ok (e : Exposition) : Prop :=
  Forall family_ok (ex_families e) /\ NoDup (family_names e).

(** ** Escapes read back *)

Lemma replace_byte_cons c by_ b l : replace_byte c by_ (b :: l) = (if b =? c then by_ else [b]) ++ replace_byte c by_ l.
Proof. done. Qed.
Lemma replace_byte_app c by_ l1 l2 : replace_byte c by_ (l1 ++ l2) = replace_byte c by_ l1 ++ replace_byte c by_ l2.
Proof. unfold replace_byte. by rewrite map_app, concat_app. Qed.

(** The passes over a whole text are one pass over its bytes. *)
Definition help_byte (b : Z) : list Z := if b =? 92 then [92; 92] else if b =? 10 then [92; 110] else [b].
Definition label_byte (b : Z) : list Z := if b =? 34 then [92; 34] else help_byte b.

Lemma escape_help_bytes s : escape_help s = concat (map help_byte (as_bytes s)).
Proof.
  unfold escape_help. induction (as_bytes s) as [|b l IH]; [done|].
  rewrite replace_byte_cons, replace_byte_app, IH. cbn [map concat]. f_equal. unfold help_byte.
  destruct (b =? 92) eqn:E; [done|]. rewrite replace_byte_cons. by case_match.
Qed.

Lemma escape_label_bytes s : escape_label s = concat (map label_byte (as_bytes s)).
Proof.
  unfold escape_label. induction (as_bytes s) as [|b l IH]; [done|].
  rewrite replace_byte_cons, !replace_byte_app, IH. cbn [map concat]. f_equal. unfold label_byte, help_byte.
  destruct (Z.eqb_spec b 92) as [->|]; [done|]. rewrite replace_byte_cons.
  destruct (Z.eqb_spec b 34) as [->|]; [done|]. cbn [app]. rewrite replace_byte_cons. by case_match.
Qed.

Lemma unescape_help_escape s : unescape_help (escape_help s) = as_bytes s.
Proof.
  rewrite escape_help_bytes. induction (as_bytes s) as [|b l IH]; [done|]. cbn [map concat]. unfold help_byte at 1.
  destruct (Z.eqb_spec b 92) as [->|H1]; [cbn; by rewrite IH|].
  destruct (Z.eqb_spec b 10) as [->|H2]; [cbn; by rewrite IH|].
  cbn [app unescape_help]. rewrite (proj2 (Z.eqb_neq _ _) H1). by rewrite IH.
Qed.

Lemma read_label_value_escape s rest : read_label_value (escape_label s ++ 34 :: rest) = Some (as_bytes s, rest).
Proof.
  rewrite escape_label_bytes. induction (as_bytes s) as [|b l IH]; [done|]. cbn [map concat]. rewrite <- app_assoc.
  unfold label_byte at 1, help_byte at 1.
  destruct (Z.eqb_spec b 34) as [->|H1]; [cbn; by rewrite IH|].
  destruct (Z.eqb_spec b 92) as [->|H2]; [cbn; by rewrite IH|].
  destruct (Z.eqb_spec b 10) as [->|H3]; [cbn; by rewrite IH|].
  cbn [app read_label_value]. rewrite (proj2 (Z.eqb_neq _ _) H1), (proj2 (Z.eqb_neq _ _) H2). by rewrite IH.
Qed.

(** No escape leaves a line end. *)
Lemma concat_map_clean (g : Z -> list Z) l : (forall b, 10 ∉ g b) -> 10 ∉ concat (map g l).
Proof.
  intros Hg. induction l as [|b l IH]; cbn [map concat]; [apply not_elem_of_nil|]. apply not_elem_of_app. by split.
Qed.
Lemma escapes_one_line s : 10 ∉ escape_help s /\ 10 ∉ escape_label s.
Proof.
  rewrite escape_help_bytes, escape_label_bytes.
  split; apply concat_map_clean; intros b; apply has_byte_false; unfold label_byte, help_byte;
    destruct (Z.eqb_spec b 34) as [->|]; try done; destruct (Z.eqb_spec b 92) as [->|]; try done;
    destruct (Z.eqb_spec b 10) as [->|]; try done;
    unfold has_byte; cbn [existsb]; rewrite (proj2 (Z.eqb_neq _ _)) by lia; done.
Qed.

(** ** Names *)

Lemma valid_name_bytes name : valid_name name = true ->
  as_bytes name <> [] /\ Forall (fun b => name_tail b = true) (as_bytes name).
Proof.
  unfold valid_name. destruct (as_bytes name) as [|c l]; [done|]. intros [Hc Hl]%andb_true_iff. split; [done|].
  constructor; [|by apply forallb_true_Forall].
  revert Hc. unfold name_head, name_tail. destruct (is_ascii_alphabetic c), (is_ascii_digit c), (c =? 95); simpl; auto.
Qed.

Lemma name_tail_clean l b : Forall (fun b => name_tail b = true) l -> name_tail b = false -> b ∉ l.
Proof. intros H Hb Hin. rewrite Forall_forall in H. specialize (H b Hin). congruence. Qed.

Lemma read_name_app n b rest : Forall (fun b => name_tail b = true) n -> name_tail b = false ->
  read_name (n ++ b :: rest) = (n, b :: rest).
Proof. intros Hn Hb. induction Hn as [|x n Hx _ IH]; cbn [app read_name]; [by rewrite Hb|]. by rewrite Hx, IH. Qed.

(** ** Labels *)

Lemma read_labels_text labels rest fuel : labels <> [] -> Forall (fun kv => valid_name (fst kv) = true) labels ->
  (length labels <= fuel)%nat ->
  read_labels fuel (join_with [44] (map label_text labels) ++ 125 :: rest) = Some (labels_view labels, rest).
Proof.
  intros Hne Hv. revert fuel. induction Hv as [|[k v] labels Hk Hv IH]; [done|]. intros [|fuel] Hf; [simpl in Hf; lia|].
  destruct (valid_name_bytes _ Hk) as [_ Hkb]. pose proof (name_tail_clean _ 61 Hkb eq_refl) as H61.
  cbn [read_labels]. destruct labels as [|kv labels].
  - cbn [map join_with]. unfold label_text. cbn [fst snd]. rewrite <- !app_assoc. cbn [app].
    rewrite split_once_some by done. cbn. by rewrite read_label_value_escape.
  - cbn [map join_with]. unfold label_text at 1. cbn [fst snd]. rewrite <- !app_assoc. cbn [app].
    rewrite split_once_some by done. cbn [mbind option_bind]. cbn [Z.eqb Pos.eqb]. rewrite read_label_value_escape.
    cbn [mbind option_bind Z.eqb Pos.eqb]. cbn [map] in IH. rewrite IH by (done || simpl in *; lia). done.
Qed.

Lemma label_text_length kv : (1 <= length (label_text kv))%nat.
Proof. unfold label_text. rewrite !length_app. simpl. lia. Qed.
Lemma joined_length labels : (length labels <= length (join_with [44%Z] (map label_text labels)))%nat.
Proof.
  induction labels as [|kv labels IH]; [simpl; lia|]. pose proof (label_text_length kv).
  destruct labels as [|kv' labels]; cbn [map join_with] in *; [simpl; lia|]. rewrite !length_app. simpl in *. lia.
Qed.

(** ** One line *)

Definition sample_line (f : Family) (s : Sample) : list Z :=
  match suffix_of f s with
  | Some v => as_bytes (fa_name f) ++ as_bytes v ++ 32 :: sm_value s
  | None =>
      as_bytes (fa_name f) ++ as_bytes (if is_histogram f then "_bucket" else "") ++
      match sm_labels s with
      | [] => 32 :: sm_value s
      | labels => 123 :: join_with [44] (map label_text labels) ++ 125 :: 32 :: sm_value s
      end
  end.

Lemma render_sample_line f s : render_sample f s = sample_line f s ++ [10].
Proof.
  unfold render_sample, sample_line, suffix_of. fold (is_histogram f).
  destruct (sm_labels s) as [|[k v] [|kv labels]]; [by rewrite <- !app_assoc| |by rewrite <- !app_assoc; cbn [app]; rewrite <- !app_assoc].
  destruct (str_eqb k SUFFIX_LABEL && is_histogram f); [by rewrite <- !app_assoc|].
  cbn [map join_with]. rewrite <- !app_assoc. cbn [app]. by rewrite <- !app_assoc.
Qed.

Lemma strip_prefix_miss p b l c : head p = Some c -> b <> c -> strip_prefix p (b :: l) = None.
Proof.
  destruct p as [|x p]; [done|]. intros [= ->] Hne. unfold strip_prefix. cbn [prefixb].
  by rewrite (proj2 (Z.eqb_neq _ _)) by done.
Qed.

Lemma name_line_reads n rest : n <> [] -> Forall (fun b => name_tail b = true) n ->
  match rest with b :: _ => name_tail b = false | [] => False end ->
  read_metric_line (n ++ rest) =
    match rest with
    | b :: rest' =>
        if b =? 32 then Some (LSample n [] rest')
        else if b =? 123 then
          '(labels, after) ← read_labels (length rest') rest';
          match after with
          | b :: value => if b =? 32 then Some (LSample n labels value) else None
          | [] => None
          end
        else None
    | [] => None
    end.
Proof.
  intros Hne Hn Hr. destruct rest as [|b rest']; [done|]. unfold read_metric_line.
  assert (Hb : exists x l, n ++ b :: rest' = x :: l /\ x <> 35).
  { destruct n as [|x n]; [done|]. exists x, (n ++ b :: rest'). split; [done|]. intros ->. by inv Hn. }
  destruct Hb as (x & l & El & Hx). rewrite El.
  rewrite !(strip_prefix_miss _ x l 35) by done. rewrite <- El. by rewrite read_name_app.
Qed.

Lemma sample_line_reads f s : valid_name (fa_name f) = true -> sample_ok f s ->
  read_metric_line (sample_line f s) = Some (sample_view f s).
Proof.
  intros [Hne Hn]%valid_name_bytes [Hv Hs]. unfold sample_line, sample_view. destruct (suffix_of f s) as [v|].
  - rewrite app_assoc, name_line_reads; [done| |by apply Forall_app|done].
    intros [? ?]%app_eq_nil. done.
  - assert (Hsuf : Forall (fun b => name_tail b = true) (as_bytes (if is_histogram f then "_bucket" else ""))).
    { destruct (is_histogram f); repeat constructor. }
    rewrite app_assoc, name_line_reads;
      [|intros [? ?]%app_eq_nil; done|by apply Forall_app|by destruct (sm_labels s)].
    destruct (sm_labels s) as [|kv labels] eqn:El; [done|]. cbn [Z.eqb Pos.eqb].
    rewrite read_labels_text; [done|done|done|]. pose proof (joined_length (kv :: labels)). rewrite length_app. lia.
Qed.

Lemma sample_line_clean f s : valid_name (fa_name f) = true -> sample_ok f s -> 10 ∉ sample_line f s.
Proof.
  intros [_ Hn]%valid_name_bytes [Hv Hs]. pose proof (name_tail_clean _ 10 Hn eq_refl) as H0. unfold sample_line.
  destruct (suffix_of f s) as [v|].
  - pose proof (name_tail_clean _ 10 Hs eq_refl) as H1. rewrite !not_elem_of_app, not_elem_of_cons. repeat split; done || lia.
  - rewrite !not_elem_of_app. repeat split; [done|by apply has_byte_false; destruct (is_histogram f)|].
    assert (Hj : 10 ∉ join_with [44] (map label_text (sm_labels s))).
    { clear Hv. induction Hs as [|[k v] labels Hk _ IH]; [apply not_elem_of_nil|].
      assert (Hl : 10 ∉ label_text (k, v)).
      { unfold label_text. rewrite !not_elem_of_app. destruct (valid_name_bytes _ Hk) as [_ Hkb].
        repeat split; [by apply name_tail_clean|set_solver by lia|apply escapes_one_line|set_solver by lia]. }
      destruct labels as [|kv labels]; cbn [map join_with] in *; [done|]. rewrite !not_elem_of_app.
      repeat split; [done|set_solver by lia|done]. }
    destruct (sm_labels s) as [|kv labels]; rewrite !not_elem_of_cons, ?not_elem_of_app, ?not_elem_of_cons;
      repeat split; done || lia.
Qed.

(** ** One page *)

Definition family_lines (f : Family) : list (list Z) :=
  (as_bytes "# HELP " ++ as_bytes (fa_name f) ++ 32 :: escape_help (fa_help f)) ::
  (as_bytes "# TYPE " ++ as_bytes (fa_name f) ++ 32 :: as_bytes (kind_text (fa_kind f))) ::
  map (sample_line f) (fa_samples f).

Definition lines_text (lines : list (list Z)) : list Z := concat (map (fun l => l ++ [10]) lines).

Lemma lines_text_app l1 l2 : lines_text (l1 ++ l2) = lines_text l1 ++ lines_text l2.
Proof. unfold lines_text. by rewrite map_app, concat_app. Qed.

Lemma render_family_lines f : render_family f = lines_text (family_lines f).
Proof.
  assert (Hs : concat (map (render_sample f) (fa_samples f)) = lines_text (map (sample_line f) (fa_samples f))).
  { unfold lines_text. rewrite map_map. f_equal. apply map_ext. intros s. apply render_sample_line. }
  unfold render_family. rewrite Hs. unfold family_lines, lines_text. cbn [map concat].
  repeat (rewrite <- !app_assoc; cbn [app]). done.
Qed.

Lemma render_exposition_lines e : render_exposition e = lines_text (concat (map family_lines (ex_families e))).
Proof.
  unfold render_exposition. induction (ex_families e) as [|f fs IH]; [done|]. cbn [map concat].
  by rewrite lines_text_app, render_family_lines, IH.
Qed.

Lemma split_on_lines lines : Forall (fun l => 10 ∉ l) lines -> split_on 10 (lines_text lines) = lines ++ [[]].
Proof.
  intros H. induction H as [|l lines Hl _ IH]; [done|]. unfold lines_text in *. cbn [map concat].
  rewrite <- app_assoc. cbn [app]. induction l as [|b l IHl]; cbn [app split_on].
  - rewrite IH. by destruct lines.
  - apply not_elem_of_cons in Hl as [Hb Hl]. rewrite (IHl Hl). cbn [app]. by rewrite (proj2 (Z.eqb_neq _ _)) by done.
Qed.

Lemma read_all_lines lines views : Forall2 (fun l v => read_metric_line l = Some v) lines views ->
  read_all (lines ++ [[]]) = Some views.
Proof.
  induction 1 as [|l v lines views Hl _ IH]; [done|]. cbn [app read_all].
  destruct (lines ++ [[]]) as [|l' ls] eqn:E; [by destruct lines|]. rewrite Hl. cbn [mbind option_bind]. by rewrite IH.
Qed.

Lemma family_lines_read f : family_ok f ->
  Forall2 (fun l v => read_metric_line l = Some v) (family_lines f) (family_view f) /\ Forall (fun l => 10 ∉ l) (family_lines f).
Proof.
  intros [Hn Hs]. destruct (valid_name_bytes _ Hn) as [_ Hb].
  pose proof (name_tail_clean _ 10 Hb eq_refl) as H10. pose proof (name_tail_clean _ 32 Hb eq_refl) as H32.
  unfold family_lines, family_view. split.
  - repeat constructor.
    + unfold read_metric_line. rewrite strip_prefix_app, split_once_some by done. cbn [mbind option_bind].
      by rewrite unescape_help_escape.
    + unfold read_metric_line. change (strip_prefix (as_bytes "# HELP ") _) with (@None (list Z)).
      by rewrite strip_prefix_app, split_once_some by done.
    + induction Hs as [|s l Hs _ IH]; constructor; [by apply sample_line_reads|done].
  - repeat constructor.
    + rewrite !not_elem_of_app, not_elem_of_cons. repeat split; [by apply has_byte_false|done|lia|apply escapes_one_line].
    + rewrite !not_elem_of_app, not_elem_of_cons.
      repeat split; [by apply has_byte_false|done|lia|by apply has_byte_false; destruct (fa_kind f)].
    + induction Hs as [|s l Hs _ IH]; constructor; [by apply sample_line_clean|done].
Qed.

Lemma page_reads_back e : exposition_ok e -> read_page (render_exposition e) = Some (exposition_view e).
Proof.
  intros [H _]. unfold read_page. rewrite render_exposition_lines, split_on_lines.
  - apply read_all_lines. unfold exposition_view.
    induction H as [|f fs Hf _ IH]; cbn [map concat]; [constructor|]. apply Forall2_app; [by apply family_lines_read|done].
  - induction H as [|f fs Hf _ IH]; cbn [map concat]; [constructor|]. apply Forall_app. split; [by apply family_lines_read|done].
Qed.

(** ** The builders *)

Lemma rev_clean (l : list Z) : 10 ∉ l -> 10 ∉ rev l.
Proof. intros H Hin%list_elem_of_In%in_rev%list_elem_of_In. done. Qed.
Lemma digits_rev_clean k n : 10 ∉ digits_rev k n.
Proof. intros Hin. pose proof (proj1 (Forall_forall _ _) (digits_rev_range k n) 10 Hin) as H. cbn beta in H. lia. Qed.
Lemma int_text_clean n : 10 ∉ int_text n.
Proof.
  unfold int_text. case_match; [apply not_elem_of_cons; split; [lia|]|]; apply rev_clean, digits_rev_clean.
Qed.

Lemma drop_zeros_clean l : 10 ∉ l -> 10 ∉ drop_zeros l.
Proof.
  induction l as [|b l IH]; [done|]. intros H. cbn [drop_zeros]. case_match; [|done]. apply IH. set_solver.
Qed.
Lemma trim_zeros_clean l : 10 ∉ l -> 10 ∉ trim_zeros l.
Proof.
  intros H. assert (H' : 10 ∉ rev (drop_zeros (rev l))) by (by apply rev_clean, drop_zeros_clean, rev_clean).
  unfold trim_zeros. case_match; [|done]. case_match; [|done]. apply not_elem_of_app. split; [done|set_solver by lia].
Qed.
Lemma pad9_clean k n : 10 ∉ pad9 k n.
Proof.
  revert n. induction k as [|k IH]; intros n; cbn [pad9]; [apply not_elem_of_nil|]. apply not_elem_of_app.
  split; [apply IH|]. pose proof (Z.mod_pos_bound n 10). set_solver by lia.
Qed.
Lemma fixed9_clean neg units : 10 ∉ fixed9 neg units.
Proof.
  unfold fixed9. rewrite !not_elem_of_app. repeat split.
  - destruct neg; set_solver by lia.
  - unfold nat_text. apply rev_clean, digits_rev_clean.
  - set_solver by lia.
  - apply pad9_clean.
Qed.
Lemma format_float_clean v : 10 ∉ format_float v.
Proof.
  destruct v as [s|s| |s m e]; unfold format_float;
    [apply trim_zeros_clean, fixed9_clean|apply has_byte_false; by destruct s|by apply has_byte_false|apply trim_zeros_clean, fixed9_clean].
Qed.

(** What the three assertions of [Exposition::open] ask of the next family. *)
Definition name_free (names : list string) (name help : string) : bool :=
  valid_name name && negb (list_contains names name) && negb (str_empty help).

Definition with_family (e : Exposition) (f : Family) : Exposition := {| ex_families := ex_families e ++ [f] |}.

Lemma open_family_some name help kind samples e : name_free (family_names e) name help = true ->
  open_family name help kind samples e =
    Some (with_family e {| fa_name := name; fa_help := help; fa_kind := kind; fa_samples := samples |}).
Proof.
  unfold name_free, open_family, require. intros [[-> Hn]%andb_true_iff Hh]%andb_true_iff. rewrite Hn, Hh. done.
Qed.

Lemma open_family_ok name help kind samples e e' : exposition_ok e ->
  Forall (sample_ok {| fa_name := name; fa_help := help; fa_kind := kind; fa_samples := samples |}) samples ->
  open_family name help kind samples e = Some e' -> exposition_ok e'.
Proof.
  intros [Hf Hnd] Hs. unfold open_family, require. destruct (valid_name name) eqn:Hv; [|done].
  destruct (list_contains (family_names e) name) eqn:Hc; [done|]. destruct (str_empty help); [done|].
  cbn. intros [= <-]. split; cbn [ex_families].
  - apply Forall_app. split; [done|]. repeat constructor; done.
  - unfold family_names. cbn [ex_families]. rewrite map_app. apply NoDup_app. split; [done|]. split; [|apply NoDup_singleton].
    intros x Hx Hin%list_elem_of_singleton. cbn in Hin. subst x.
    apply (proj2 (list_contains_elem _ _)) in Hx. unfold family_names in Hc. congruence.
Qed.

(** A call of the page keeps it well formed, whatever it publishes. *)
Definition keeps_ok (step : Exposition -> option Exposition) : Prop :=
  forall e e', exposition_ok e -> step e = Some e' -> exposition_ok e'.

Lemma plain_sample_ok f n : sample_ok f {| sm_labels := []; sm_value := int_text n |}.
Proof. split; cbn; [apply int_text_clean|constructor]. Qed.
#[local] Hint Resolve plain_sample_ok : core.

Lemma counter_keeps_ok name help n : keeps_ok (counter name help n).
Proof.
  intros e e' He. unfold counter, require. destruct (ends_with _ _); [|done]. cbn [mbind option_bind].
  apply open_family_ok; [done|]. by apply Forall_singleton.
Qed.
Lemma gauge_keeps_ok name help n : keeps_ok (gauge name help n).
Proof.
  intros e e' He. unfold gauge, require. destruct (negb _); [|done]. cbn [mbind option_bind].
  apply open_family_ok; [done|]. by apply Forall_singleton.
Qed.
Lemma bool_gauge_keeps_ok name help b : keeps_ok (bool_gauge name help b).
Proof. apply gauge_keeps_ok. Qed.

Lemma series_samples_ok f series : is_histogram f = false ->
  forallb (fun s => forallb (fun kv => valid_name (fst kv)) (fst s)) series = true ->
  Forall (sample_ok f) (map (fun s => {| sm_labels := fst s; sm_value := int_text (snd s) |}) series).
Proof.
  intros Hf Hs%forallb_true_Forall. induction Hs as [|[labels n] series Hl _ IH]; cbn [map]; constructor; [|done].
  split; cbn [sm_value snd]; [apply int_text_clean|]. unfold suffix_of. cbn [sm_labels fst].
  assert (H : Forall (fun kv => valid_name (fst kv) = true) labels) by (by apply forallb_true_Forall).
  destruct labels as [|[k v] [|]]; [done| |done]. by rewrite Hf, andb_false_r.
Qed.

Lemma labelled_gauge_keeps_ok name help series : keeps_ok (labelled_gauge name help series).
Proof.
  intros e e' He. unfold labelled_gauge, require. destruct (open_family _ _ _ _ _) as [e1|] eqn:E; [|done].
  cbn [mbind option_bind]. destruct (forallb _ series) eqn:Hs; [|done]. cbn. intros [= <-].
  eapply open_family_ok; [exact He| |exact E]. by apply series_samples_ok.
Qed.

Lemma histogram_keeps_ok name help h : keeps_ok (histogram name help h).
Proof.
  intros e e' He. unfold histogram, require. destruct (_ && _); [|done]. cbn [mbind option_bind].
  apply open_family_ok; [done|]. unfold histogram_samples. apply Forall_app. split.
  - apply Forall_forall. intros s Hs. apply elem_of_lookup_zip_with in Hs as (i & u & n & -> & _).
    split; cbn; [apply int_text_clean|repeat constructor].
  - repeat constructor; cbn; try apply int_text_clean; try apply format_float_clean; repeat constructor.
Qed.

#[local] Hint Resolve counter_keeps_ok gauge_keeps_ok bool_gauge_keeps_ok labelled_gauge_keeps_ok histogram_keeps_ok : core.

Lemma build_ok steps e : Forall keeps_ok steps -> build steps = Some e -> exposition_ok e.
Proof.
  unfold build. assert (H0 : exposition_ok exposition_new) by (split; constructor). revert H0.
  generalize exposition_new as e0. intros e0 H0 Hs. revert e0 H0.
  induction Hs as [|step steps Hstep _ IH]; intros e0 H0; cbn [foldl]; [by intros [= <-]|].
  cbn [mbind option_bind]. destruct (step e0) as [e1|] eqn:E; [by apply IH, (Hstep e0)|].
  intros H. exfalso. clear -H. induction steps as [|s l IHl]; [done|]. by apply IHl.
Qed.

Lemma webhook_page_ok w h now e : webhook_exposition w h now = Some e -> exposition_ok e.
Proof. apply build_ok. unfold break_glass_families. cbn [app]. repeat (apply Forall_cons_2; [auto|]). by apply Forall_nil_2. Qed.
Lemma controller_page_ok m h e : controller_exposition m h = Some e -> exposition_ok e.
Proof. apply build_ok. unfold class_counters. cbn [map class_all app]. repeat (apply Forall_cons_2; [auto|]). by apply Forall_nil_2. Qed.

(** ** The pages are built in every state *)

(** What a call adds when the three assertions of [open] hold. *)
Definition step_adds (step : Exposition -> option Exposition) (f : Family) : Prop :=
  forall e, name_free (family_names e) (fa_name f) (fa_help f) = true -> step e = Some (with_family e f).

Lemma counter_adds name help n : ends_with name "_total" = true ->
  step_adds (counter name help n)
    {| fa_name := name; fa_help := help; fa_kind := MCounter; fa_samples := [{| sm_labels := []; sm_value := int_text n |}] |}.
Proof. intros H e He. unfold counter. rewrite H. by apply open_family_some. Qed.

Lemma gauge_adds name help n : ends_with name "_total" = false ->
  step_adds (gauge name help n)
    {| fa_name := name; fa_help := help; fa_kind := MGauge; fa_samples := [{| sm_labels := []; sm_value := int_text n |}] |}.
Proof. intros H e He. unfold gauge. rewrite H. by apply open_family_some. Qed.

Lemma bool_gauge_adds name help (b : bool) : ends_with name "_total" = false ->
  step_adds (bool_gauge name help b)
    {| fa_name := name; fa_help := help; fa_kind := MGauge;
       fa_samples := [{| sm_labels := []; sm_value := int_text (if b then 1 else 0) |}] |}.
Proof. apply gauge_adds. Qed.

Lemma labelled_gauge_adds name help series :
  forallb (fun s => forallb (fun kv => valid_name (fst kv)) (fst s)) series = true ->
  step_adds (labelled_gauge name help series)
    {| fa_name := name; fa_help := help; fa_kind := MGauge;
       fa_samples := map (fun s => {| sm_labels := fst s; sm_value := int_text (snd s) |}) series |}.
Proof. intros H e He. unfold labelled_gauge. rewrite open_family_some by done. cbn [mbind option_bind]. by rewrite H. Qed.

Lemma histogram_adds name help h : ends_with name "_total" || ends_with name "_bucket" = false ->
  step_adds (histogram name help h)
    {| fa_name := name; fa_help := help; fa_kind := MHistogram; fa_samples := histogram_samples h |}.
Proof. intros [H1 H2]%orb_false_iff e He. unfold histogram. rewrite H1, H2. by apply open_family_some. Qed.

(** The names of a page, checked one after another. *)
Fixpoint names_free (names : list string) (fs : list (string * string)) : bool :=
  match fs with
  | [] => true
  | (name, help) :: fs' => name_free names name help && names_free (names ++ [name]) fs'
  end.

Lemma build_families steps fs : Forall2 step_adds steps fs ->
  names_free [] (map (fun f => (fa_name f, fa_help f)) fs) = true -> build steps = Some {| ex_families := fs |}.
Proof.
  intros H. unfold build. change (@nil string) with (family_names exposition_new).
  change fs with (ex_families exposition_new ++ fs) at 2. generalize exposition_new as e.
  induction H as [|step f steps fs Hstep _ IH]; intros e Hn; cbn [foldl].
  - rewrite app_nil_r. by destruct e.
  - cbn [map names_free] in Hn. apply andb_true_iff in Hn as [Hf Hn]. cbn [mbind option_bind]. rewrite (Hstep e Hf).
    specialize (IH (with_family e f)). unfold family_names at 1 in IH. cbn [with_family ex_families] in IH.
    rewrite map_app, <- app_assoc in IH. by apply IH.
Qed.

Lemma digest_series_labels m : forallb (fun s => forallb (fun kv => valid_name (fst kv)) (fst s)) (digest_series m) = true.
Proof.
  unfold digest_series. case_match; [done|]. apply forallb_true_Forall, Forall_forall.
  intros s (dp & -> & _)%list_elem_of_fmap. done.
Qed.

Ltac step_family :=
  match goal with
  | |- step_adds (counter _ _ _) _ => apply counter_adds; vm_compute; reflexivity
  | |- step_adds (bool_gauge _ _ _) _ => apply bool_gauge_adds; vm_compute; reflexivity
  | |- step_adds (gauge _ _ _) _ => apply gauge_adds; vm_compute; reflexivity
  | |- step_adds (histogram _ _ _) _ => apply histogram_adds; vm_compute; reflexivity
  | |- step_adds (labelled_gauge _ _ (digest_series _)) _ => apply labelled_gauge_adds, digest_series_labels
  | |- step_adds (labelled_gauge _ _ _) _ => apply labelled_gauge_adds; reflexivity
  end.
Ltac page_families :=
  lazymatch goal with
  | |- Forall2 _ [] _ => apply Forall2_nil_2
  | |- Forall2 _ (_ :: _) _ => apply Forall2_cons_2; [step_family|page_families]
  end.

(** The series of one name, without labels, as a scrape of the families carries it. *)
Definition published (fs : list Family) (nv : string * Z) : Prop :=
  LSample (as_bytes (fst nv)) [] (int_text (snd nv)) ∈ concat (map family_view fs).

Lemma view_published fs f v : f ∈ fs -> v ∈ family_view f -> v ∈ concat (map family_view fs).
Proof. intros Hf Hv. apply list_elem_of_In, in_concat. exists (family_view f). rewrite <- !list_elem_of_In. split; [by apply list_elem_of_fmap_2|done]. Qed.

Lemma plain_published fs name help kind n :
  {| fa_name := name; fa_help := help; fa_kind := kind; fa_samples := [{| sm_labels := []; sm_value := int_text n |}] |} ∈ fs ->
  kind <> MHistogram -> published fs (name, n).
Proof.
  intros Hf Hk. eapply view_published; [exact Hf|]. unfold family_view, sample_view, is_histogram. cbn.
  destruct kind; [| |done]; rewrite app_nil_r; do 2 apply list_elem_of_further; apply list_elem_of_here.
Qed.

Lemma count_published fs name name' help h :
  {| fa_name := name; fa_help := help; fa_kind := MHistogram; fa_samples := histogram_samples h |} ∈ fs ->
  as_bytes name' = as_bytes name ++ as_bytes "_count" -> published fs (name', hi_count h).
Proof.
  intros Hf Hn. eapply view_published; [exact Hf|]. unfold family_view. cbn [fa_samples fa_name fst snd].
  do 2 apply list_elem_of_further. rewrite Hn. unfold histogram_samples. rewrite map_app. apply elem_of_app. right.
  cbn [map]. do 2 apply list_elem_of_further. apply list_elem_of_here.
Qed.

(** The family at a position of the page. *)
Ltac family_at i := apply (list_elem_of_lookup_2 _ i); reflexivity.
Ltac plain_at i := apply Forall_cons_2; [eapply plain_published; [family_at i|done]|].

Lemma webhook_page_families w h now : exists fs, webhook_exposition w h now = Some {| ex_families := fs |} /\
  Forall (published fs)
    [("ferrum_admission_review_seconds_count", hi_count h);
     ("ferrum_admission_reviews_allowed_total", wh_reviews_allowed w);
     ("ferrum_admission_reviews_denied_total", wh_reviews_denied w);
     ("ferrum_admission_exceptions_active", len (wh_exceptions w));
     ("ferrum_admission_break_glass_active",
      if match wh_break_glass w ≫= (fun bg => active bg now) with Some _ => true | None => false end then 1 else 0)].
Proof.
  eexists. split.
  - unfold webhook_exposition. apply build_families; [unfold break_glass_families; cbn [app]; page_families|].
    cbn [map fa_name fa_help]. vm_compute. reflexivity.
  - apply Forall_cons_2; [eapply count_published; [family_at 0%nat|reflexivity]|].
    plain_at 1%nat. plain_at 2%nat. plain_at 3%nat. plain_at 10%nat. by apply Forall_nil_2.
Qed.

Lemma controller_page_families m h : exists fs, controller_exposition m h = Some {| ex_families := fs |} /\
  Forall (published fs)
    ([("ferrum_controller_reconcile_total", cm_reconcile_total m);
      ("ferrum_controller_compile_failures_total", cm_compile_failures_total m);
      ("ferrum_controller_degraded", if ctl_is_degraded h then 1 else 0)] ++
     map (fun c => ("ferrum_controller_" +:+ class_counter c +:+ "_total", failures h c)) class_all).
Proof.
  eexists. split.
  - unfold controller_exposition, class_counters. apply build_families; [cbn [map class_all app]; page_families|].
    cbn [map fa_name fa_help]. vm_compute. reflexivity.
  - cbn [map class_all app]. plain_at 0%nat. plain_at 1%nat. plain_at 6%nat. plain_at 2%nat. plain_at 3%nat.
    plain_at 4%nat. plain_at 5%nat. by apply Forall_nil_2.
Qed.

(** In every state of the webhook, of its latency histogram and of the controller, the
    metrics page is built without one of its assertions firing (a name that is not a metric
    name, a family opened twice, a counter without its ending), its families have distinct
    names, and a reader of the text format gets back from the text exactly the families,
    labels and values that were put in, whatever bytes a digest, a journal head or a class
    carries; among them the counters and gauges named here with the process's own numbers. *)
Lemma scrape_reads_back w hist now m h :
  (exists e, webhook_exposition w hist now = Some e /\ NoDup (family_names e) /\
     read_page (render_exposition e) = Some (exposition_view e) /\
     Forall (published (ex_families e))
       [("ferrum_admission_review_seconds_count", hi_count hist);
        ("ferrum_admission_reviews_allowed_total", wh_reviews_allowed w);
        ("ferrum_admission_reviews_denied_total", wh_reviews_denied w);
        ("ferrum_admission_exceptions_active", len (wh_exceptions w));
        ("ferrum_admission_break_glass_active",
         if match wh_break_glass w ≫= (fun bg => active bg now) with Some _ => true | None => false end then 1 else 0)]) /\
  (exists e, controller_exposition m h = Some e /\ NoDup (family_names e) /\
     read_page (render_exposition e) = Some (exposition_view e) /\
     Forall (published (ex_families e))
       ([("ferrum_controller_reconcile_total", cm_reconcile_total m);
         ("ferrum_controller_compile_failures_total", cm_compile_failures_total m);
         ("ferrum_controller_degraded", if ctl_is_degraded h then 1 else 0)] ++
        map (fun c => ("ferrum_controller_" +:+ class_counter c +:+ "_total", failures h c)) class_all)).
Proof.
  split.
  - destruct (webhook_page_families w hist now) as (fs & He & Hp). pose proof (webhook_page_ok _ _ _ _ He) as Hok.
    exists {| ex_families := fs |}. repeat split; [done|apply Hok|by apply page_reads_back|done].
  - destruct (controller_page_families m h) as (fs & He & Hp). pose proof (controller_page_ok _ _ _ He) as Hok.
    exists {| ex_families := fs |}. repeat split; [done|apply Hok|by apply page_reads_back|done].
Qed.
