(* ===== verification/MetricsServe.v ===== *)
(** * The metrics port

    [crates/ferrum-metrics/src/serve.rs]: one connection read up to the end of its headers
    within a cap, the request line judged, the answer written, and the accept loop that
    bounds the connections in flight. The bytes of a peer and how its stream ends are the
    input; [render] is the page of the process. *)

From S2P Require Import Prelude RustStd RustText Ids Proto Http Siem Metrics.

Definition METRICS_PATH : string := "/metrics".
Definition CONTENT_TYPE : string := "text/plain; version=0.0.4; charset=utf-8".
Definition MAX_HEADER_BYTES : Z := 8 * 1024.

Record ServeConfig : Type := { sv_read_timeout : Z; sv_write_timeout : Z; sv_max_in_flight : Z }.
Definition serve_config_default : ServeConfig :=
  {| sv_read_timeout := 5000000000; sv_write_timeout := 5000000000; sv_max_in_flight := 16 |}.

(** ** One connection *)

(** What a peer sends, then either an orderly end or a failed read (a timeout, a reset). *)
Record Peer : Type := { pe_bytes : list Z; pe_eof : bool }.

(** [Take] over it: the bytes still allowed. *)
Record Capped : Type := { cp_limit : Z; cp_peer : Peer }.

(** The bytes [read_until] consumes: through the next line feed, within the limit; and
    whether it stopped for want of bytes. *)
Fixpoint take_line (limit : nat) (l : list Z) : list Z * list Z * bool :=
  match limit with
  | O => ([], l, false)
  | S limit =>
      match l with
      | [] => ([], [], true)
      | b :: l' => if b =? 10 then ([b], l', false) else let '(line, rest, dry) := take_line limit l' in (b :: line, rest, dry)
      end
  end.

(** [read_line] of a fresh [String]: [None] is an [io::Error] (the stream failed, or the
    line is not UTF-8). *)
Definition capped_read_line (c : Capped) : option (list Z) * Capped :=
  let '(line, rest, dry) := take_line (Z.to_nat (cp_limit c)) (pe_bytes (cp_peer c)) in
  let c' := {| cp_limit := cp_limit c - len line; cp_peer := {| pe_bytes := rest; pe_eof := pe_eof (cp_peer c) |} |} in
  (if (dry && negb (pe_eof (cp_peer c))) || negb (utf8_ok line) then None else Some line, c').

Inductive Request : Type := RMetrics | RNotFound | RNotAllowed | RBad.

Definition classify (request_line : list Z) : Request :=
  match split_whitespace request_line with
  | method :: target :: _ =>
      if negb (bool_decide (method = as_bytes "GET")) then RNotAllowed
      else if bool_decide (target = as_bytes METRICS_PATH) then RMetrics else RNotFound
  | _ => RBad
  end.

(** The loop over the headers. Every turn that goes on consumes a byte of the cap. *)
Fixpoint drain_headers (fuel : nat) (verdict : Request) (c : Capped) : option (option Request) :=
  match fuel with
  | O => None
  | S fuel =>
      match capped_read_line c with
      | (None, _) => Some None
      | (Some header, c') =>
          if is_empty header then Some (Some (if cp_limit c' =? 0 then RBad else verdict))
          else if is_empty (trim_end_eol header) then Some (Some verdict)
          else drain_headers fuel verdict c'
      end
  end.

(** [read_request_line_and_drain_headers]; the inner [None] is an [io::Error]. *)
Definition read_request_line_and_drain_headers (p : Peer) : option (option Request) :=
  match capped_read_line {| cp_limit := MAX_HEADER_BYTES; cp_peer := p |} with
  | (None, _) => Some None
  | (Some line, c) =>
      if is_empty line then Some (Some RBad)
      else drain_headers (S (Z.to_nat MAX_HEADER_BYTES)) (classify (trim_end_eol line)) c
  end.

Definition CRLF : list Z := [13; 10].

(** [respond]: the bytes written when no write fails. *)
Definition respond (status : Z) (reason content_type : string) (body : list Z) : list Z :=
  as_bytes "HTTP/1.1 " ++ int_text status ++ [32] ++ as_bytes reason ++ CRLF ++
  as_bytes "Content-Type: " ++ as_bytes content_type ++ CRLF ++
  as_bytes "Content-Length: " ++ int_text (len body) ++ CRLF ++
  as_bytes "Cache-Control: no-store" ++ CRLF ++
  as_bytes "X-Content-Type-Options: nosniff" ++ CRLF ++
  as_bytes "Connection: close" ++ CRLF ++ CRLF ++ body.

Definition request_answer (r : Request) (page : list Z) : list Z :=
  match r with
  | RMetrics => respond 200 "OK" CONTENT_TYPE page
  | RNotFound => respond 404 "Not Found" "text/plain" (as_bytes "only /metrics" ++ [10])
  | RNotAllowed => respond 405 "Method Not Allowed" "text/plain" (as_bytes "only GET" ++ [10])
  | RBad => respond 400 "Bad Request" "text/plain" (as_bytes "bad request" ++ [10])
  end.

(** [handle]: the whole answer, or nothing when the request could not be read. *)
Definition serve_connection (p : Peer) (page : list Z) : option (option (list Z)) :=
  r ← read_request_line_and_drain_headers p;
  Some (match r with Some r => Some (request_answer r page) | None => None end).

(** ** The accept loop *)

(** What happens at the listener, in order: a connection, an interrupted or a failed
    accept, and the end of a connection's thread. *)
Inductive ServeEvent : Type :=
| EvAccept (conn : nat)
| EvInterrupted
| EvAcceptError
| EvDone (conn : nat).

Record Serving : Type := {
  sg_in_flight : Z;              (** the counter *)
  sg_running : list nat;         (** the connections whose thread has not ended *)
  sg_refused : list nat;         (** answered 503 by the accept thread *)
  sg_ended : bool                (** [serve_listener] returned *)
}.
Definition serving_new : Serving := {| sg_in_flight := 0; sg_running := []; sg_refused := []; sg_ended := false |}.

Definition busy_answer : list Z := respond 503 "Service Unavailable" "text/plain" (as_bytes "busy" ++ [10]).

(** The thread of [conn] ends, if it was running. *)
Fixpoint end_thread (conn : nat) (l : list nat) : option (list nat) :=
  match l with
  | [] => None
  | c :: l' => if Nat.eqb c conn then Some l' else cons c <$> end_thread conn l'
  end.

(** One event. A thread whose handler returns subtracts itself, answered or not. *)
Definition serve_step (config : ServeConfig) (s : Serving) (e : ServeEvent) : Serving :=
  match e with
  | EvInterrupted => s
  | EvAcceptError => {| sg_in_flight := sg_in_flight s; sg_running := sg_running s; sg_refused := sg_refused s; sg_ended := true |}
  | EvAccept conn =>
      if sg_ended s then s
      else if sv_max_in_flight config <=? sg_in_flight s then
        {| sg_in_flight := sg_in_flight s; sg_running := sg_running s; sg_refused := sg_refused s ++ [conn]; sg_ended := false |}
      else
        {| sg_in_flight := sg_in_flight s + 1; sg_running := sg_running s ++ [conn]; sg_refused := sg_refused s; sg_ended := false |}
  | EvDone conn =>
      match end_thread conn (sg_running s) with
      | Some running =>
          {| sg_in_flight := sg_in_flight s - 1; sg_running := running; sg_refused := sg_refused s; sg_ended := sg_ended s |}
      | None => s
      end
  end.
Definition serve_run (config : ServeConfig) (s : Serving) (es : list ServeEvent) : Serving := foldl (serve_step config) s es.

(** ** What one read consumes *)

Lemma take_line_spec n : forall l line rest dry, take_line n l = (line, rest, dry) ->
  l = line ++ rest /\ (length line <= n)%nat /\ (dry = true -> rest = [] /\ (length line < n)%nat) /\
  (line = [] -> n = 0%nat \/ l = []).
Proof.
  induction n as [|n IH]; intros l line rest dry; cbn [take_line].
  { intros [= <- <- <-]. split_and!; [done|simpl; lia|done|by left]. }
  destruct l as [|b l].
  { intros [= <- <- <-]. split_and!; [done|simpl; lia|simpl; split; [done|lia]|by right]. }
  destruct (b =? 10).
  { intros [= <- <- <-]. split_and!; [done|simpl; lia|done|done]. }
  destruct (take_line n l) as [[line' rest'] dry'] eqn:E. intros [= <- <- <-].
  destruct (IH _ _ _ _ E) as (-> & Hl & Hd & _). split_and!; [done|simpl; lia| |done].
  intros [-> ?]%Hd. simpl. split; [done|lia].
Qed.

(** Bytes past the cap do not matter. *)
Lemma take_line_window n : forall l l', take n l = take n l' -> (n <= length l)%nat -> (n <= length l')%nat ->
  exists line rest rest', take_line n l = (line, rest, false) /\ take_line n l' = (line, rest', false) /\
    take (n - length line) rest = take (n - length line) rest' /\
    (n - length line <= length rest)%nat /\ (n - length line <= length rest')%nat.
Proof.
  induction n as [|n IH]; intros l l' Ht Hl Hl'; cbn [take_line].
  { exists [], l, l'. simpl. split_and!; done || lia. }
  destruct l as [|b l], l' as [|b' l']; simpl in Hl, Hl'; try lia. cbn [take] in Ht. injection Ht as -> Ht.
  destruct (b' =? 10).
  { exists [b'], l, l'. simpl. rewrite Nat.sub_0_r. split_and!; done || lia. }
  destruct (IH l l' Ht) as (line & rest & rest' & E & E' & H1 & H2 & H3); [lia|lia|].
  exists (b' :: line), rest, rest'. rewrite E, E'. split_and!; done.
Qed.

Definition same_window (c c' : Capped) : Prop :=
  cp_limit c = cp_limit c' /\ take (Z.to_nat (cp_limit c)) (pe_bytes (cp_peer c)) = take (Z.to_nat (cp_limit c)) (pe_bytes (cp_peer c')) /\
  (Z.to_nat (cp_limit c) <= length (pe_bytes (cp_peer c)))%nat /\ (Z.to_nat (cp_limit c) <= length (pe_bytes (cp_peer c')))%nat /\
  0 <= cp_limit c.

Lemma read_line_window c c' : same_window c c' ->
  exists o c1 c1', capped_read_line c = (o, c1) /\ capped_read_line c' = (o, c1') /\ same_window c1 c1'.
Proof.
  destruct c as [limit [l eof]], c' as [limit' [l' eof']]. unfold same_window. cbn [cp_limit cp_peer pe_bytes].
  intros (<- & Ht & Hl & Hl' & H0). unfold capped_read_line. cbn [cp_limit cp_peer pe_bytes pe_eof].
  destruct (take_line_window _ _ _ Ht Hl Hl') as (line & rest & rest' & E & E' & H1 & H2 & H3). rewrite E, E'.
  destruct (take_line_spec _ _ _ _ _ E) as (_ & Hle & _). cbn [andb orb].
  eexists _, _, _. split; [done|]. split; [done|]. cbn [cp_limit cp_peer pe_bytes].
  replace (Z.to_nat (limit - len line)) with (Z.to_nat limit - length line)%nat by (unfold len; lia).
  split_and!; done || (unfold len; lia).
Qed.

Lemma drain_window fuel verdict : forall c c', same_window c c' -> drain_headers fuel verdict c = drain_headers fuel verdict c'.
Proof.
  induction fuel as [|fuel IH]; intros c c' Hw; cbn [drain_headers]; [done|].
  destruct (read_line_window _ _ Hw) as ([header|] & c1 & c1' & -> & -> & Hw1); [|done].
  destruct (is_empty header); [by rewrite (proj1 Hw1)|]. destruct (is_empty _); [done|]. by apply IH.
Qed.

(** The window of a request: what the cap lets the port read. *)
Definition request_window_of (p : Peer) : list Z := take (Z.to_nat MAX_HEADER_BYTES) (pe_bytes p).

Lemma request_window p p' : len (request_window_of p) = MAX_HEADER_BYTES -> request_window_of p = request_window_of p' ->
  read_request_line_and_drain_headers p = read_request_line_and_drain_headers p'.
Proof.
  unfold read_request_line_and_drain_headers, request_window_of. assert (H0 : 0 <= MAX_HEADER_BYTES) by done.
  revert H0. generalize MAX_HEADER_BYTES as cap. intros cap H0 Hn Hw.
  pose proof (f_equal length Hw) as Hlen. unfold len in Hn. rewrite !length_take in *.
  assert (Hs : same_window {| cp_limit := cap; cp_peer := p |} {| cp_limit := cap; cp_peer := p' |}).
  { unfold same_window. cbn [cp_limit cp_peer]. split_and!; done || lia. }
  destruct (read_line_window _ _ Hs) as ([line|] & c1 & c1' & -> & -> & Hw1); [|done].
  destruct (is_empty line); [done|]. by apply drain_window.
Qed.

(** ** What the verdict says of the request *)

(** A line that is only a line end starts right after a line feed. *)
Definition head_ends (l : list Z) : Prop := exists a h b, l = a ++ [10] ++ h ++ b /\ h <> [] /\ trim_end_eol h = [].

(** The text before the first line feed. *)
Definition first_line (l : list Z) : list Z := match split_once 10 l with Some (a, _) => a | None => l end.

Lemma drain_total fuel verdict : forall c, 0 <= cp_limit c < Z.of_nat fuel -> exists o, drain_headers fuel verdict c = Some o.
Proof.
  induction fuel as [|fuel IH]; intros c Hf; [lia|]. cbn [drain_headers]. unfold capped_read_line.
  destruct (take_line _ _) as [[line rest] dry] eqn:E. destruct (take_line_spec _ _ _ _ _ E) as (_ & Hl & _).
  destruct (_ || _); [eauto|]. destruct line as [|b line]; [eauto|]. cbn [is_empty].
  destruct (is_empty _); [eauto|]. apply IH. cbn [cp_limit]. unfold len. simpl in *. lia.
Qed.

(** A full line within the limit ends in a line feed. *)
Lemma take_line_feed n : forall l line rest, take_line n l = (line, rest, false) -> (length line < n)%nat ->
  exists text, line = text ++ [10] /\ 10 ∉ text.
Proof.
  induction n as [|n IH]; intros l line rest; cbn [take_line]; [simpl; lia|].
  destruct l as [|b l]; [done|]. destruct (Z.eqb_spec b 10) as [->|Hb].
  { intros [= <- <-] _. exists []. split; [done|apply not_elem_of_nil]. }
  destruct (take_line n l) as [[line' rest'] dry'] eqn:E. intros [= <- <- ->] Hlt.
  destruct (IH _ _ _ E) as (text & -> & Hn); [simpl in *; lia|]. exists (b :: text). split; [done|]. set_solver.
Qed.
Lemma take_line_clean n : forall l line rest dry, take_line n l = (line, rest, dry) ->
  (10 ∉ line) \/ exists text, line = text ++ [10] /\ 10 ∉ text.
Proof.
  induction n as [|n IH]; intros l line rest dry; cbn [take_line].
  { intros [= <- <- <-]. left. apply not_elem_of_nil. }
  destruct l as [|b l]; [intros [= <- <- <-]; left; apply not_elem_of_nil|]. destruct (Z.eqb_spec b 10) as [->|Hb].
  { intros [= <- <- <-]. right. exists []. split; [done|apply not_elem_of_nil]. }
  destruct (take_line n l) as [[line' rest'] dry'] eqn:E. intros [= <- <- <-].
  destruct (IH _ _ _ _ E) as [Hc|(text & -> & Hn)]; [left; set_solver|]. right. exists (b :: text). split; [done|set_solver].
Qed.

(** The verdict of the first line stands only when the head ended within what was left of
    the cap, or the peer closed its side before using it up. *)
Lemma drain_verdict fuel verdict : verdict <> RBad -> forall c, 0 <= cp_limit c ->
  drain_headers fuel verdict c = Some (Some verdict) ->
  head_ends (10 :: take (Z.to_nat (cp_limit c)) (pe_bytes (cp_peer c))) \/
  (pe_eof (cp_peer c) = true /\ len (pe_bytes (cp_peer c)) < cp_limit c).
Proof.
  intros Hv. induction fuel as [|fuel IH]; intros [limit [l eof]] Hc; cbn [cp_limit cp_peer pe_bytes pe_eof] in *; [done|].
  cbn [drain_headers]. unfold capped_read_line. cbn [cp_limit cp_peer pe_bytes pe_eof].
  destruct (take_line _ _) as [[line rest] dry] eqn:E. destruct (take_line_spec _ _ _ _ _ E) as (Hl & Hle & Hdry & Hemp).
  destruct ((dry && negb eof) || negb (utf8_ok line)) eqn:Herr; [done|]. apply orb_false_iff in Herr as [Herr _].
  destruct (is_empty line) eqn:El.
  { apply is_empty_true in El as ->. cbn [cp_limit]. replace (limit - len []) with limit by (unfold len; simpl; lia).
    destruct (Z.eqb_spec limit 0) as [->|Hne]; [intros [= E']; congruence|]. intros _. right.
    destruct (Hemp eq_refl) as [H|H]; [lia|]; rewrite H in E |- *. assert (dry = true) as ->.
    { destruct (Z.to_nat limit) eqn:En; [lia|]. cbn [take_line] in E. congruence. }
    unfold len. simpl. destruct eof; [split; [done|lia]|done]. }
  destruct (is_empty (trim_end_eol line)) eqn:Et.
  { intros _. left. apply is_empty_true in Et. exists [], line, (take (Z.to_nat limit - length line) rest).
    split_and!; [|by intros ->|done]. rewrite Hl, take_app. rewrite take_ge by lia. done. }
  intros Hd. apply IH in Hd; cbn [cp_limit cp_peer pe_bytes pe_eof] in Hd |- *; [|unfold len; lia].
  assert (Hlen : Z.to_nat (limit - len line) = (Z.to_nat limit - length line)%nat) by (unfold len; lia).
  destruct Hd as [(a & h & b & Ha & Hh & Ht)|[He Hlt]].
  - left. rewrite Hlen in Ha. destruct dry.
    { destruct (Hdry eq_refl) as [-> _]. rewrite take_nil in Ha. destruct a as [|x a]; [|by destruct a].
      destruct h; [done|]. done. }
    rewrite Hl, take_app, take_ge by lia. destruct (decide (length line < Z.to_nat limit)%nat) as [Hlt|Hge].
    + destruct (take_line_feed _ _ _ _ E Hlt) as (text & -> & _). exists (10 :: text ++ a), h, b.
      split_and!; [|done|done]. rewrite <- app_assoc. cbn [app]. rewrite Ha. cbn [app]. by rewrite <- app_assoc.
    + replace (Z.to_nat limit - length line)%nat with 0%nat in Ha by lia. rewrite take_0 in Ha.
      destruct a as [|x a]; [destruct h; done|by destruct a].
  - right. split; [done|]. rewrite Hl. unfold len in *. rewrite length_app. lia.
Qed.

Lemma trim_end_eol_feed text : trim_end_eol (text ++ [10]) = trim_end_eol text.
Proof. unfold trim_end_eol. rewrite rev_app_distr. done. Qed.

Lemma classify_metrics line : classify line = RMetrics ->
  exists more, split_whitespace line = as_bytes "GET" :: as_bytes METRICS_PATH :: more.
Proof.
  unfold classify. destruct (split_whitespace line) as [|method [|target more]]; [done..|].
  destruct (bool_decide_reflect (method = as_bytes "GET")) as [->|]; [|done]. cbn [negb].
  destruct (bool_decide_reflect (target = as_bytes METRICS_PATH)) as [->|]; [eauto|done].
Qed.

Lemma drain_result fuel verdict : forall c r, drain_headers fuel verdict c = Some (Some r) -> r = verdict \/ r = RBad.
Proof.
  induction fuel as [|fuel IH]; intros c r; cbn [drain_headers]; [done|]. destruct (capped_read_line c) as [[header|] c'];
    [|done]. destruct (is_empty header); [case_match; intros [= <-]; auto|]. destruct (is_empty _); [intros [= <-]; auto|].
  apply IH.
Qed.

Lemma first_line_window n l line rest dry : take_line n l = (line, rest, dry) ->
  trim_end_eol line = trim_end_eol (first_line (take n l)).
Proof.
  intros E. destruct (take_line_spec _ _ _ _ _ E) as (Hl & Hle & Hdry & _). unfold first_line.
  destruct (take_line_clean _ _ _ _ _ E) as [Hc|(text & -> & Hc)].
  - assert (Hw : take n l = line).
    { destruct (decide (length line < n)%nat) as [Hlt|]; [|rewrite Hl, take_app_length'; [done|lia]].
      destruct dry; [destruct (Hdry eq_refl) as [-> _]; rewrite Hl, app_nil_r; apply take_ge; lia|].
      destruct (take_line_feed _ _ _ _ E Hlt) as (text & -> & _). set_solver. }
    rewrite Hw. by rewrite (proj2 (split_once_none _ _) Hc).
  - rewrite Hl, <- app_assoc, take_app. cbn [app]. rewrite length_app in Hle. simpl in Hle.
    rewrite take_ge by lia. replace (n - length text)%nat with (S (n - length text - 1)) by lia. cbn [take].
    rewrite split_once_some by done. apply trim_end_eol_feed.
Qed.

(** The page goes out only to a [GET /metrics] whose head ended within the cap, or whose
    peer closed its side first. *)
Lemma metrics_only_when_asked p : read_request_line_and_drain_headers p = Some (Some RMetrics) ->
  (exists more, split_whitespace (trim_end_eol (first_line (request_window_of p))) =
     as_bytes "GET" :: as_bytes METRICS_PATH :: more) /\
  (head_ends (request_window_of p) \/ (pe_eof p = true /\ len (pe_bytes p) < MAX_HEADER_BYTES)).
Proof.
  unfold read_request_line_and_drain_headers, capped_read_line, request_window_of. cbn [cp_limit cp_peer].
  set (n := Z.to_nat MAX_HEADER_BYTES). assert (Hn : Z.of_nat n = MAX_HEADER_BYTES) by (subst n; apply Z2Nat.id; done). clearbody n.
  destruct (take_line n (pe_bytes p)) as [[line rest] dry] eqn:E.
  destruct (_ || _); [done|]. destruct (is_empty line) eqn:El; [done|]. intros H.
  destruct (drain_result _ _ _ _ H) as [Hr|?]; [|done]. rewrite <- Hr in H. split.
  { rewrite <- (first_line_window _ _ _ _ _ E). by apply classify_metrics. }
  destruct (take_line_spec _ _ _ _ _ E) as (Hl & Hle & Hdry & _).
  apply drain_verdict in H; [|done|cbn [cp_limit]; unfold len; lia]. cbn [cp_limit cp_peer pe_bytes pe_eof] in H.
  replace (Z.to_nat (MAX_HEADER_BYTES - len line)) with (n - length line)%nat in H by (unfold len; lia).
  destruct H as [(a & h & b & Ha & Hh & Ht)|[He Hlt]].
  - left. destruct (take (n - length line) rest) as [|x w] eqn:Ew.
    { destruct a as [|y a]; [by destruct h|by destruct a]. }
    destruct (decide (length line < n)%nat) as [Hlt|]; [|by replace (n - length line)%nat with 0%nat in Ew by lia].
    destruct dry; [destruct (Hdry eq_refl) as [-> _]; by rewrite take_nil in Ew|].
    destruct (take_line_feed _ _ _ _ E Hlt) as (text & -> & _). exists (text ++ a), h, b.
    split_and!; [|done|done]. rewrite Hl, take_app, take_ge by lia. rewrite Ew, <- !app_assoc. cbn [app]. by rewrite Ha.
  - right. split; [done|]. rewrite Hl. unfold len in *. rewrite length_app. lia.
Qed.

(** ** The connections in flight *)

Definition serving_ok (config : ServeConfig) (s : Serving) : Prop :=
  sg_in_flight s = len (sg_running s) /\ sg_in_flight s <= Z.max 0 (sv_max_in_flight config).

Lemma end_thread_length conn : forall l l', end_thread conn l = Some l' -> length l = S (length l').
Proof.
  induction l as [|c l IH]; intros l'; cbn [end_thread]; [done|]. case_match; [by intros [= <-]|].
  destruct (end_thread conn l) as [l1|]; [|done]. intros [= <-]. cbn. by rewrite (IH l1).
Qed.

Lemma serve_step_ok config s e : serving_ok config s -> serving_ok config (serve_step config s e).
Proof.
  intros [Hf Hm]. destruct e as [conn| | |conn]; cbn [serve_step]; [|done|done|].
  - destruct (sg_ended s); [done|]. destruct (Z.leb_spec (sv_max_in_flight config) (sg_in_flight s)); [done|].
    split; cbn; [unfold len in *; rewrite length_app; simpl; lia|lia].
  - destruct (end_thread conn (sg_running s)) as [l|] eqn:E; [|done]. apply end_thread_length in E.
    split; cbn; unfold len in *; lia.
Qed.
Lemma serve_run_ok config es s : serving_ok config s -> serving_ok config (serve_run config s es).
Proof. revert s. induction es as [|e es IH]; intros s Hs; [done|]. by apply IH, serve_step_ok. Qed.

Lemma request_total p : exists o, read_request_line_and_drain_headers p = Some o.
Proof.
  unfold read_request_line_and_drain_headers, capped_read_line. cbn [cp_limit cp_peer].
  assert (H0 : 0 <= MAX_HEADER_BYTES) by done. revert H0. generalize MAX_HEADER_BYTES as cap. intros cap H0.
  destruct (take_line _ _) as [[line rest] dry] eqn:E. destruct (take_line_spec _ _ _ _ _ E) as (_ & Hl & _).
  destruct (_ || _); [eauto|]. destruct (is_empty line); [eauto|]. apply drain_total. cbn [cp_limit]. unfold len in *. lia.
Qed.

(** C34: the metrics port. Whatever bytes a peer sends and however its stream ends, reading
    its request terminates; two peers that fill the cap of 8192 bytes alike get the same
    verdict, so nothing beyond it is ever looked at; the page is given only to a request
    line that reads [GET /metrics], with a head that ended within the cap or a peer that
    closed its side first; and over any run of the accept loop the threads alive are
    exactly the counter and never more than the configured bound. *)
Theorem metrics_port_is_bounded p p' config es :
  (exists o, read_request_line_and_drain_headers p = Some o) /\
  (len (request_window_of p) = MAX_HEADER_BYTES -> request_window_of p = request_window_of p' ->
   read_request_line_and_drain_headers p = read_request_line_and_drain_headers p') /\
  (read_request_line_and_drain_headers p = Some (Some RMetrics) ->
   (exists more, split_whitespace (trim_end_eol (first_line (request_window_of p))) =
      as_bytes "GET" :: as_bytes METRICS_PATH :: more) /\
   (head_ends (request_window_of p) \/ (pe_eof p = true /\ len (pe_bytes p) < MAX_HEADER_BYTES))) /\
  serving_ok config (serve_run config serving_new es).
Proof.
  split_and!.
  - apply request_total.
  - apply request_window.
  - apply metrics_only_when_asked.
  - apply serve_run_ok. split; [done|apply Z.le_max_l].
Qed.

(** A scrape, and a header block that fills the cap without ending. *)
Definition scrape_peer : Peer :=
  {| pe_bytes := as_bytes "GET /metrics HTTP/1.1" ++ CRLF ++ as_bytes "Host: x" ++ CRLF ++ CRLF; pe_eof := false |}.
Definition endless_peer (tail : list Z) : Peer :=
  {| pe_bytes := as_bytes "GET /metrics HTTP/1.1" ++ CRLF ++ replicate (Z.to_nat MAX_HEADER_BYTES) 65 ++ tail; pe_eof := false |}.

Lemma endless_window tail :
  exists k, request_window_of (endless_peer tail) = (as_bytes "GET /metrics HTTP/1.1" ++ CRLF) ++ replicate k 65 /\
    k = (Z.to_nat MAX_HEADER_BYTES - 23)%nat.
Proof.
  eexists. split; [|reflexivity]. unfold request_window_of, endless_peer. cbn [pe_bytes].
  set (n := Z.to_nat MAX_HEADER_BYTES). assert (Hn : (23 <= n)%nat) by (subst n; unfold MAX_HEADER_BYTES; lia). clearbody n.
  rewrite app_assoc, take_app. f_equal; [by apply take_ge|].
  change (length (as_bytes "GET /metrics HTTP/1.1" ++ CRLF)) with 23%nat.
  rewrite take_app_le by (rewrite length_replicate; lia). rewrite take_replicate. f_equal. lia.
Qed.

Example metrics_port_witness :
  head_ends (request_window_of scrape_peer) /\
  read_request_line_and_drain_headers (endless_peer []) = read_request_line_and_drain_headers (endless_peer (CRLF ++ CRLF)) /\
  sg_refused (serve_run serve_config_default serving_new (map EvAccept (seq 0 17))) = [16%nat] /\
  serving_ok serve_config_default (serve_run serve_config_default serving_new (map EvAccept (seq 0 17))).
Proof.
  destruct (metrics_port_is_bounded (endless_peer []) (endless_peer (CRLF ++ CRLF)) serve_config_default (map EvAccept (seq 0 17)))
    as (_ & Hw & _ & Hs).
  destruct (metrics_port_is_bounded scrape_peer scrape_peer serve_config_default []) as (_ & _ & Hm & _).
  destruct (endless_window []) as (k & E & Hk), (endless_window (CRLF ++ CRLF)) as (k' & E' & Hk').
  split_and!; [|apply Hw|vm_compute; reflexivity|exact Hs].
  2: { rewrite E. unfold len. rewrite length_app, length_replicate, Hk. unfold MAX_HEADER_BYTES.
       change (length (as_bytes "GET /metrics HTTP/1.1" ++ CRLF)) with 23%nat. lia. }
  2: { by rewrite E, E', Hk, Hk'. }
  destruct (Hm ltac:(vm_compute; reflexivity)) as (_ & [H|[H _]]); [exact H|discriminate H].
Defined.

(** A request line with nothing after it, from a peer that closed its side, is answered
    with the page: the comment at that return calls such an answer a guess. *)
Lemma unfinished_request_is_answered :
  read_request_line_and_drain_headers {| pe_bytes := as_bytes "GET /metrics"; pe_eof := true |} = Some (Some RMetrics).
Proof. vm_compute. reflexivity. Qed.
