(* ===== verification/AgentStatus.v ===== *)
(** * What the agent says about itself

    [crates/ferrum-agent/src/status.rs] and [crates/ferrum-agent/src/metrics.rs]: the
    object of [status.json], its publication with every system call free to fail, the
    context of the exported events, and the metrics page derived from the object. A clock
    reading is a pair: the wall time and whether the clock's file can be written. The text
    of an instant (chrono) and of a message are parameters. *)

From coqutil Require Import Datatypes.RecordSetters.
From S2P Require Import Prelude RustStd RustText Ids Api Policy Encode Compiler Envelope Febp RuntimeEval Json.
From S2P Require Import KRules Event Loader Grant Clock Cgroup Labels Pods Respond AgentState Degraded Proto Siem Health Metrics.
From S2P Require Import MetricsRead.


(** ** The object *)

(** The values [json!] makes here: every number is a [u64]. *)
Inductive StatusValue : Type :=
| SvNull
| SvBool (b : bool)
| SvNum (n : Z)
| SvStr (s : string)
| SvArr (items : list string).

Definition sv_opt (o : option string) : StatusValue := match o with Some s => SvStr s | None => SvNull end.
Definition sv_json (v : StatusValue) : Json :=
  match v with
  | SvNull => JNull
  | SvBool b => JBool b
  | SvNum n => json_u64 n
  | SvStr s => JStr s
  | SvArr items => JArr (map JStr items)
  end.

(** [waivers_unjoined_total] and [waivers_inert_total]. *)
Definition waivers_unjoined_total (a : Agent) : Z :=
  len (List.filter (fun spec => negb (names_policy a spec)) (ag_exceptions a)).
Definition waivers_inert_total (a : Agent) (wall : Z) (written : bool) : Z * Agent :=
  let '(now, a) := agent_now_from a wall written in
  (len (List.filter (fun spec => negb (waiver_can_apply a spec now)) (ag_exceptions a)), a).

Definition agent_last_good_digest (a : Agent) : option string := lb_digest <$> ld_last_good (ag_loader a).
Definition using_last_known_good (a : Agent) : bool := match ld_last_good (ag_loader a) with Some _ => true | None => false end.

(** One reading of the clock. *)
Record Reading : Type := { rd_wall : Z; rd_written : bool }.
Definition read_clock (r : Reading) (a : Agent) : Z * Agent := agent_now_from a (rd_wall r) (rd_written r).

Section status.
Context (fmt : msg -> string) (rfc3339 : Z -> string).

Definition sv_msg (o : option msg) : StatusValue := sv_opt (fmt <$> o).

(** [status_json]: the entries in the order they are written, with the clock read three
    times ([ts], the waivers that apply to nothing, their count) and the monotonic clock
    at [instant]. *)
Definition status_entries (a : Agent) (ctx : option SinkContext) (sink : option SinkState) (state : DegradedState)
    (instant : Z) (r1 r2 r3 : Reading) : list (string * StatusValue) * Agent :=
  let '(ts, a1) := read_clock r1 a in
  let '(unjoined, a2) := waivers_unjoined a1 (rd_wall r2) (rd_written r2) in
  let '(inert, a3) := waivers_inert_total a2 (rd_wall r3) (rd_written r3) in
  let '(queue_dropped, write_failed, writer_lost) :=
    match sink with
    | Some sink => (sk_queue_dropped sink, sk_write_failed sink, sk_writer_lost sink)
    | None => (0, 0, 0)
    end in
  ([("ts", SvStr (rfc3339 ts));
    ("node", SvStr (match ctx with Some c => cx_node c | None => "" end));
    ("agentRole", SvStr (match ctx with Some c => cx_agent_role c | None => "" end));
    ("bundleDigest", sv_opt (agent_last_good_digest a1));
    ("policyName", SvStr (ag_policy_name a1));
    ("degraded", SvBool (ds_degraded state));
    ("degradedReasons", SvArr (map fmt (ds_reasons state)));
    ("attached", SvBool (ag_attached a1));
    ("controlPlaneDown", SvBool (ag_cp_down a1));
    ("usingLastKnownGood", SvBool (using_last_known_good a1));
    ("lkgPartial", SvBool (ag_lkg_partial a1));
    ("terminalFault", sv_msg (ag_terminal_fault a1));
    ("respondDisabledReason", sv_opt (ag_respond_disabled a1));
    ("selfTgidUnpublished", SvBool (ag_self_tgid_unpublished a1));
    ("containerMapSynced", SvBool (ag_container_map_synced a1));
    ("containerMapEntries", SvNum (ag_container_map_entries a1));
    ("containerMapStale", SvBool (container_map_stale_at a1 instant));
    ("containerMapError", sv_opt (ag_container_map_error a1));
    ("exportWriterDead", SvBool (ag_export_dead a1));
    ("exceptionsHeld", SvNum (len (ag_exceptions a1)));
    ("waiversUnjoinedTotal", SvNum (waivers_unjoined_total a1));
    ("waiversUnjoined", sv_msg unjoined);
    ("respondKillTotal", SvNum (ag_respond_kill a2));
    ("respondRefusedTotal", SvNum (ag_respond_refused a2));
    ("respondRoleSkippedTotal", SvNum (ag_respond_role_skipped a2));
    ("respondFailedTotal", SvNum (ag_respond_failed a2));
    ("respondStaleTargetTotal", SvNum (ag_respond_stale_target a2));
    ("exportLostTotal", SvNum (ag_export_lost_seen a2));
    ("containerFlagDisagreementTotal", SvNum (ag_container_flag_disagreement a2));
    ("containerUnprovenTotal", SvNum (ag_container_unproven a2));
    ("labelsUnknownTotal", SvNum (ag_labels_unknown a2));
    ("identityUnknownTotal", SvNum (ag_identity_unknown a2));
    ("eventsDroppedTotal", SvNum (ld_dropped (ag_loader a2)));
    ("recordsDecodeFailedTotal", SvNum (ag_decode_failed a2));
    ("decodeFailureRun", SvNum (ag_decode_failed_run a2));
    ("datapathAbiMismatchTotal", SvNum (ag_datapath_abi_mismatch a2));
    ("unknownSyscallTotal", SvNum (ag_unknown_syscalls a2));
    ("pathTruncatedTotal", SvNum (ag_path_truncated a2));
    ("exceptionsReloadFailedTotal", SvNum (ag_exceptions_reload_failed a2));
    ("lkgRulesDroppedTotal", SvNum (ag_lkg_rules_dropped a2));
    ("clockRollbackTotal", SvNum (mf_rollbacks (ag_clock a2)));
    ("exportQueueDroppedTotal", SvNum queue_dropped);
    ("exportWriteFailedTotal", SvNum write_failed);
    ("exportWriterLostTotal", SvNum writer_lost);
    ("waiversInertTotal", SvNum inert);
    ("statusWriteFailed", SvBool (ag_status_write_failed a3));
    ("statusWriteFailedTotal", SvNum (ag_status_write_failed_count a3));
    ("clockFloorUnpersisted", SvBool (mf_persist_failing (ag_clock a3)));
    ("clockFloorUnpersistedTotal", SvNum (mf_persist_failed (ag_clock a3)));
    ("bundleUnreadable", SvBool (ag_bundle_unreadable a3));
    ("lsmAttached", SvBool (ag_lsm_attached a3));
    ("kernelRulesInstalled", SvNum (ag_kernel_rules_installed a3));
    ("kernelRulesExcluded", SvNum (ag_kernel_rules_excluded a3));
    ("selectedCgroups", SvNum (ag_selected_cgroups a3));
    ("kernelRulesRefused", SvBool (match ag_kernel_rules_refused a3 with Some _ => true | None => false end));
    ("kernelRulesRefusedReason", sv_msg (ag_kernel_rules_refused a3));
    ("kernelRulesUnsynced", SvBool (match ag_kernel_rules_unsynced a3 with Some _ => true | None => false end));
    ("kernelRulesError", sv_msg (ag_kernel_rules_unsynced a3));
    ("bundleStatFailedTotal", SvNum (ag_bundle_stat_failed a3))], a3).

(** The object: a [BTreeMap] by key. *)
Definition status_object (entries : list (string * StatusValue)) : list (string * StatusValue) := btree_iter (insert_all entries).
Definition status_json_of (entries : list (string * StatusValue)) : Json :=
  JObj (map (fun kv => (fst kv, sv_json (snd kv))) (status_object entries)).

(** [update_event_context]. *)
Definition update_event_context (a : Agent) (state : DegradedState) (ctx : SinkContext) : SinkContext :=
  set_degraded_reasons (map (fun reason => degraded_reason_id (fmt reason)) (ds_reasons state))
    (Proto.set_degraded (ds_degraded state) (set_bundle_digest (agent_last_good_digest a) ctx)).

(** ** [StatusPublisher] *)

Record StatusPublisher : Type := { sp_status_error_logged : bool; sp_no_status_dir_logged : bool }.
Definition publisher_default : StatusPublisher := {| sp_status_error_logged := false; sp_no_status_dir_logged := false |}.

Record StatusTick : Type := { tk_state : DegradedState; tk_json : option Json }.

(** [tick] with [status_dir.is_some()] as [has_dir]. *)
Definition publisher_tick (a : Agent) (ctx : option SinkContext) (sink : option SinkState) (has_dir : bool) (instant : Z)
    (r0 r1 r2 r3 : Reading) : StatusTick * option SinkContext * Agent :=
  let a := match sink with Some sink => note_export_state_at a sink instant | None => a end in
  let '(state, a) := degraded_state_at a instant (rd_wall r0) (rd_written r0) in
  let ctx := update_event_context a state <$> ctx in
  if has_dir || ds_transition state then
    let '(entries, a) := status_entries a ctx sink state instant r1 r2 r3 in
    ({| tk_state := state; tk_json := Some (status_json_of entries) |}, ctx, a)
  else ({| tk_state := state; tk_json := None |}, ctx, a).

Context `{T : JsonText}.

(** [write_status] of the agent is the one of the controller's status directory. *)
Definition agent_write_status (io : StatusIo) (value : Json) (d : StatusDir) : result string unit * StatusDir :=
  write_status io value d.

(** [commit]; a failed write takes the file of the tick before away. *)
Definition status_commit (p : StatusPublisher) (tick : StatusTick) (dir : option (StatusIo * StatusDir))
    : bool * StatusPublisher * option StatusDir :=
  match dir with
  | None => (true, {| sp_status_error_logged := sp_status_error_logged p; sp_no_status_dir_logged := true |}, None)
  | Some (io, d) =>
      match tk_json tick with
      | None => (true, p, Some d)
      | Some json =>
          match agent_write_status io json d with
          | (Ok _, d) =>
              (true, {| sp_status_error_logged := false; sp_no_status_dir_logged := sp_no_status_dir_logged p |}, Some d)
          | (Err _, d) =>
              (false, {| sp_status_error_logged := true; sp_no_status_dir_logged := sp_no_status_dir_logged p |},
               Some {| sd_status := match io_remove_status io with Removed => None | _ => sd_status d end; sd_tmp := sd_tmp d |})
          end
      end
  end.

(** [publish]: both halves, and the outcome fed back. *)
Definition status_publish (p : StatusPublisher) (a : Agent) (ctx : option SinkContext) (sink : option SinkState)
    (dir : option (StatusIo * StatusDir)) (instant : Z) (r0 r1 r2 r3 : Reading)
    : DegradedState * StatusPublisher * option SinkContext * Agent * option StatusDir :=
  let '(tick, ctx, a) := publisher_tick a ctx sink (match dir with Some _ => true | None => false end) instant r0 r1 r2 r3 in
  let '(ok, p, d) := status_commit p tick dir in
  (tk_state tick, p, ctx, note_status_write a ok, d).

(** ** The metrics page *)

Definition PREFIX : string := "ferrum_agent".

Inductive KeyDisposition : Type := NotAMetric | Withheld | InfoLabel | BundleLabel | ReasonSeries.

Definition NON_NUMERIC_KEYS : list (string * KeyDisposition) :=
  [("ts", NotAMetric); ("node", NotAMetric); ("agentRole", InfoLabel); ("bundleDigest", BundleLabel); ("policyName", Withheld);
   ("degradedReasons", ReasonSeries); ("terminalFault", Withheld); ("respondDisabledReason", Withheld);
   ("containerMapError", Withheld); ("kernelRulesRefusedReason", Withheld); ("kernelRulesError", Withheld)].
Definition WAIVERS_UNJOINED_KEY : string * KeyDisposition := ("waiversUnjoined", Withheld).

Definition key_disposition (key : string) : option KeyDisposition :=
  if str_eqb key (fst WAIVERS_UNJOINED_KEY) then Some (snd WAIVERS_UNJOINED_KEY)
  else snd <$> List.find (fun kd => str_eqb (fst kd) key) NON_NUMERIC_KEYS.

Definition help_for (key : string) : string :=
  "`" +:+ key +:+ "` of the agent status surface; see crates/ferrum-agent/src/status.rs".

Definition metric_name (key : string) : string := PREFIX +:+ "_" +:+ string_of_bytes (snake_case key).

(** What the walk over the object carries. *)
Record PageWalk : Type := { pw_out : option Exposition; pw_unmapped : Z; pw_role : string; pw_digest : string }.
Definition walk_new : PageWalk := {| pw_out := Some exposition_new; pw_unmapped := 0; pw_role := ""; pw_digest := "" |}.

Definition sv_str (v : StatusValue) : string := match v with SvStr s => s | _ => "" end.

Definition walk_entry (w : PageWalk) (kv : string * StatusValue) : PageWalk :=
  let '(key, value) := kv in
  let name := metric_name key in
  let page step := {| pw_out := pw_out w ≫= step; pw_unmapped := pw_unmapped w; pw_role := pw_role w; pw_digest := pw_digest w |} in
  match value with
  | SvBool flag => page (bool_gauge name (help_for key) flag)
  | SvNum n => if ends_with key "Total" then page (counter name (help_for key) n) else page (gauge name (help_for key) n)
  | _ =>
      match key_disposition key with
      | Some InfoLabel =>
          {| pw_out := pw_out w; pw_unmapped := pw_unmapped w; pw_role := sv_str value; pw_digest := pw_digest w |}
      | Some BundleLabel =>
          {| pw_out := pw_out w; pw_unmapped := pw_unmapped w; pw_role := pw_role w; pw_digest := sv_str value |}
      | Some _ => w
      | None => {| pw_out := pw_out w; pw_unmapped := pw_unmapped w + 1; pw_role := pw_role w; pw_digest := pw_digest w |}
      end
  end.

Definition reason_series (raised : list string) : list (list (string * string) * Z) :=
  map (fun ti => ([("reason", snd ti)], if list_contains raised (snd ti) then 1 else 0)) DEGRADED_REASON_IDS ++
  [([("reason", UNMAPPED_REASON_ID)], if list_contains raised UNMAPPED_REASON_ID then 1 else 0)].

(** [exposition] of the rendered object and the ids of the reasons raised. *)
Definition agent_exposition (entries : list (string * StatusValue)) (raised : list string) : option Exposition :=
  let w := foldl walk_entry walk_new (status_object entries) in
  foldl (fun acc step => acc ≫= step) (pw_out w)
  [labelled_gauge "ferrum_agent_info" "1, labelled with the version of this agent and the role it is running in"
    [([("version", "0.1.0"); ("role", pw_role w)], 1)];
  labelled_gauge "ferrum_agent_bundle_info"
    "1, labelled with the digest of the PolicyBundle this node is enforcing; empty means none has been loaded"
    [([("digest", pw_digest w)], 1)];
  labelled_gauge "ferrum_agent_degraded_reason"
    "1 while this node is raising the named degradation reason, 0 otherwise; every reason this build can raise is present on every scrape"
    (reason_series raised);
  gauge "ferrum_agent_status_keys_unmapped"
    "keys of status.json this build could not place into a metric; anything but 0 means a counter exists on this node that nothing here publishes"
    (pw_unmapped w)].

(** A scrape: a snapshot of the state, which reports no transition, then the page. *)
Definition agent_scrape (a : Agent) (ctx : option SinkContext) (sink : option SinkState) (instant : Z) (r0 r1 r2 r3 : Reading)
    : option Exposition * Agent :=
  let '(state, a) := degraded_snapshot_at a instant (rd_wall r0) (rd_written r0) in
  let '(entries, a) := status_entries a ctx sink state instant r1 r2 r3 in
  (agent_exposition entries (map (fun reason => degraded_reason_id (fmt reason)) (ds_reasons state)), a).
End status.

(** ** The walk is a list of calls *)

Definition entry_step (kv : string * StatusValue) : option (Exposition -> option Exposition) :=
  match snd kv with
  | SvBool flag => Some (bool_gauge (metric_name (fst kv)) (help_for (fst kv)) flag)
  | SvNum n => Some (if ends_with (fst kv) "Total" then counter (metric_name (fst kv)) (help_for (fst kv)) n
                     else gauge (metric_name (fst kv)) (help_for (fst kv)) n)
  | _ => None
  end.

Definition walk_unmapped (kv : string * StatusValue) : Z :=
  match entry_step kv, key_disposition (fst kv) with None, None => 1 | _, _ => 0 end.

Lemma walk_entry_out w kv : pw_out (walk_entry w kv) = match entry_step kv with Some step => pw_out w ≫= step | None => pw_out w end.
Proof.
  destruct kv as [key value]. unfold walk_entry, entry_step. cbn [fst snd].
  destruct value; destruct (key_disposition key) as [[]|]; by try destruct (ends_with key "Total").
Qed.
Lemma walk_entry_unmapped w kv : pw_unmapped (walk_entry w kv) = pw_unmapped w + walk_unmapped kv.
Proof.
  destruct kv as [key value]. unfold walk_entry, walk_unmapped, entry_step. cbn [fst snd].
  destruct value; destruct (key_disposition key) as [[]|]; try destruct (ends_with key "Total"); cbn; lia.
Qed.

Lemma walk_out entries : forall w,
  pw_out (foldl walk_entry w entries) = foldl (fun acc step => acc ≫= step) (pw_out w) (omap entry_step entries).
Proof.
  induction entries as [|kv entries IH]; intros w; [done|]. cbn [foldl]. rewrite IH, walk_entry_out.
  cbn [omap list_omap]. destruct (entry_step kv); done.
Qed.
Lemma walk_unmapped_none entries : forall w, Forall (fun kv => walk_unmapped kv = 0) entries ->
  pw_unmapped (foldl walk_entry w entries) = pw_unmapped w.
Proof.
  induction entries as [|kv entries IH]; intros w; [done|]. intros [H0 H]%Forall_cons_1. cbn [foldl].
  rewrite IH by done. rewrite walk_entry_unmapped, H0. lia.
Qed.

Definition page_tail (role digest : string) (unmapped : Z) (raised : list string) : list (Exposition -> option Exposition) :=
  [labelled_gauge "ferrum_agent_info" "1, labelled with the version of this agent and the role it is running in"
     [([("version", "0.1.0"); ("role", role)], 1)];
   labelled_gauge "ferrum_agent_bundle_info"
     "1, labelled with the digest of the PolicyBundle this node is enforcing; empty means none has been loaded"
     [([("digest", digest)], 1)];
   labelled_gauge "ferrum_agent_degraded_reason"
     "1 while this node is raising the named degradation reason, 0 otherwise; every reason this build can raise is present on every scrape"
     (reason_series raised);
   gauge "ferrum_agent_status_keys_unmapped"
     "keys of status.json this build could not place into a metric; anything but 0 means a counter exists on this node that nothing here publishes"
     unmapped].

Lemma agent_exposition_build entries raised : let w := foldl walk_entry walk_new (status_object entries) in
  agent_exposition entries raised =
    build (omap entry_step (status_object entries) ++ page_tail (pw_role w) (pw_digest w) (pw_unmapped w) raised).
Proof. intros w. unfold agent_exposition, build, page_tail. fold w. rewrite foldl_app. f_equal. apply walk_out. Qed.

(** ** Every key has its place *)

Definition entry_family (kv : string * StatusValue) : option Family :=
  match snd kv with
  | SvBool flag => Some {| fa_name := metric_name (fst kv); fa_help := help_for (fst kv); fa_kind := MGauge;
                           fa_samples := [{| sm_labels := []; sm_value := int_text (if flag then 1 else 0) |}] |}
  | SvNum n => Some {| fa_name := metric_name (fst kv); fa_help := help_for (fst kv);
                       fa_kind := if ends_with (fst kv) "Total" then MCounter else MGauge;
                       fa_samples := [{| sm_labels := []; sm_value := int_text n |}] |}
  | _ => None
  end.

(** A value of the right kind for its key. *)
Definition entry_ok (kv : string * StatusValue) : Prop :=
  valid_name (metric_name (fst kv)) = true /\
  match snd kv with
  | SvBool _ => ends_with (metric_name (fst kv)) "_total" = false
  | SvNum _ => ends_with (metric_name (fst kv)) "_total" = ends_with (fst kv) "Total"
  | _ => key_disposition (fst kv) <> None
  end.

Lemma entry_adds kv : entry_ok kv ->
  match entry_step kv, entry_family kv with Some step, Some f => step_adds step f | None, None => True | _, _ => False end.
Proof.
  destruct kv as [key [| flag | n | s | items]]; intros [_ H]; cbn [entry_step entry_family fst snd] in *; try done.
  - by apply bool_gauge_adds.
  - destruct (ends_with key "Total"); [by apply counter_adds|by apply gauge_adds].
Qed.

Lemma entries_add entries : Forall entry_ok entries -> Forall2 step_adds (omap entry_step entries) (omap entry_family entries).
Proof.
  intros H. induction H as [|kv entries Hk _ IH]; [constructor|]. pose proof (entry_adds kv Hk) as Ha.
  cbn [omap list_omap]. destruct (entry_step kv), (entry_family kv); try done. by constructor.
Qed.

Lemma names_free_intro fs : forall names, NoDup (names ++ map fst fs) ->
  Forall (fun nh => valid_name (fst nh) = true /\ snd nh <> "") fs -> names_free names fs = true.
Proof.
  induction fs as [|[name help] fs IH]; intros names Hnd Hf; [done|]. apply Forall_cons_1 in Hf as [[Hv Hh] Hf].
  cbn [names_free map fst] in *. apply andb_true_iff. split.
  - unfold name_free. cbn [fst snd] in *. rewrite Hv. cbn [andb]. apply andb_true_iff. split; apply negb_true_iff.
    + apply not_true_iff_false. rewrite list_contains_elem. intros Hin.
      apply NoDup_app in Hnd as (_ & Hd & _). apply (Hd name Hin). left.
    + by apply str_empty_false.
  - apply IH; [|done]. by rewrite <- app_assoc.
Qed.

Definition tail_names : list string :=
  ["ferrum_agent_info"; "ferrum_agent_bundle_info"; "ferrum_agent_degraded_reason"; "ferrum_agent_status_keys_unmapped"].

Lemma family_name_entry entries : map fa_name (omap entry_family entries) `sublist_of` map (fun kv => metric_name (fst kv)) entries.
Proof.
  induction entries as [|[key v] entries IH]; [constructor|]. cbn [omap list_omap map].
  destruct v; cbn [entry_family snd fst map fa_name]; by constructor.
Qed.

Lemma sublist_map {A B} (f : A -> B) l k : l `sublist_of` k -> map f l `sublist_of` map f k.
Proof. induction 1; simpl; by constructor. Qed.

Definition object_ok (entries : list (string * StatusValue)) : Prop :=
  NoDup (map fst entries) /\ NoDup (map metric_name (map fst entries) ++ tail_names) /\ Forall entry_ok entries.

Lemma insert_all_perm {V} (l : list (string * V)) : NoDup (map fst l) -> btree_iter (insert_all l) ≡ₚ l.
Proof.
  intros H. rewrite btree_iter_perm. unfold insert_all. rewrite foldl_insert_nodup; [|done|].
  - rewrite (right_id_L ∅ (∪)). by apply map_to_list_to_map.
  - apply Forall_forall. intros kv _. apply lookup_empty.
Qed.

Lemma object_perm entries : object_ok entries -> status_object entries ≡ₚ entries.
Proof. intros (H & _ & _). by apply insert_all_perm. Qed.

Definition tail_families (role digest : string) (unmapped : Z) (raised : list string) : list Family :=
  let labelled name help series :=
    {| fa_name := name; fa_help := help; fa_kind := MGauge;
       fa_samples := map (fun s => {| sm_labels := fst s; sm_value := int_text (snd s) |}) series |} in
  [labelled "ferrum_agent_info" "1, labelled with the version of this agent and the role it is running in"
     [([("version", "0.1.0"); ("role", role)], 1)];
   labelled "ferrum_agent_bundle_info"
     "1, labelled with the digest of the PolicyBundle this node is enforcing; empty means none has been loaded"
     [([("digest", digest)], 1)];
   labelled "ferrum_agent_degraded_reason"
     "1 while this node is raising the named degradation reason, 0 otherwise; every reason this build can raise is present on every scrape"
     (reason_series raised);
   {| fa_name := "ferrum_agent_status_keys_unmapped";
      fa_help := "keys of status.json this build could not place into a metric; anything but 0 means a counter exists on this node that nothing here publishes";
      fa_kind := MGauge; fa_samples := [{| sm_labels := []; sm_value := int_text unmapped |}] |}].

Lemma tail_adds role digest unmapped raised :
  Forall2 step_adds (page_tail role digest unmapped raised) (tail_families role digest unmapped raised).
Proof.
  unfold page_tail, tail_families. repeat apply Forall2_cons_2; try (apply labelled_gauge_adds; reflexivity); [|by apply Forall2_nil_2].
  apply gauge_adds. reflexivity.
Qed.

(** The page of any object whose keys have their place. *)
Lemma object_page entries raised : object_ok entries ->
  let w := foldl walk_entry walk_new (status_object entries) in
  agent_exposition entries raised =
    Some {| ex_families := omap entry_family (status_object entries) ++ tail_families (pw_role w) (pw_digest w) 0 raised |}.
Proof.
  intros Hok w. pose proof (object_perm _ Hok) as Hp. destruct Hok as (Hk & Hn & He).
  assert (He' : Forall entry_ok (status_object entries)) by (by rewrite Hp).
  rewrite agent_exposition_build. fold w.
  assert (Hu : pw_unmapped w = 0).
  { subst w. rewrite walk_unmapped_none; [done|]. eapply Forall_impl; [exact He'|]. intros [key v] [_ Hv].
    unfold walk_unmapped. destruct v; cbn [entry_step fst snd] in *; try done; destruct (key_disposition key); done. }
  rewrite Hu. apply build_families; [apply Forall2_app; [by apply entries_add|apply tail_adds]|].
  apply names_free_intro; cbn [app].
  - rewrite map_map. cbn [fst]. rewrite map_app. eapply sublist_NoDup; [|apply sublist_app; [apply family_name_entry|reflexivity]].
    change (map fa_name (tail_families (pw_role w) (pw_digest w) 0 raised)) with tail_names.
    rewrite <- (map_map fst metric_name).
    assert (Hpm : map metric_name (map fst (status_object entries)) ≡ₚ map metric_name (map fst entries)) by (by rewrite Hp).
    by rewrite Hpm.
  - rewrite map_app. apply Forall_app. split.
    + apply Forall_forall. intros nh Hin. apply list_elem_of_fmap in Hin as (f & -> & Hf).
      apply list_elem_of_omap in Hf as ([key v] & Hkv & Hf). rewrite Forall_forall in He'. destruct (He' _ Hkv) as [Hv _].
      destruct v; cbn in Hf; simplify_eq; split; try done; by intros ?%(f_equal as_bytes).
    + repeat constructor; done.
Qed.

(** The number a flag or a counter stands for. *)
Definition entry_number (v : StatusValue) : option Z :=
  match v with SvBool b => Some (if b then 1 else 0) | SvNum n => Some n | _ => None end.

Lemma entry_published entries raised e : object_ok entries -> agent_exposition entries raised = Some e ->
  published (ex_families e) ("ferrum_agent_status_keys_unmapped", 0) /\
  forall key v n, (key, v) ∈ entries -> entry_number v = Some n -> published (ex_families e) (metric_name key, n).
Proof.
  intros Hok He. pose proof (object_page _ raised Hok) as Hp. cbv zeta in Hp. rewrite He in Hp. injection Hp as ->.
  cbn [ex_families]. split.
  - eapply plain_published; [|by instantiate (1 := MGauge)]. apply elem_of_app. right. do 3 right. left.
  - intros key v n Hin Hn. rewrite <- (object_perm _ Hok) in Hin.
    assert (Hf : forall f, entry_family (key, v) = Some f ->
      f ∈ omap entry_family (status_object entries) ++
          tail_families (pw_role (foldl walk_entry walk_new (status_object entries)))
            (pw_digest (foldl walk_entry walk_new (status_object entries))) 0 raised).
    { intros f Hf. apply elem_of_app. left. apply list_elem_of_omap. by exists (key, v). }
    destruct v as [|b|m| |]; cbn in Hn; try done; injection Hn as <-.
    + eapply plain_published; [by apply Hf|done].
    + eapply plain_published; [by apply Hf|]. cbn [fst]. by destruct (ends_with key "Total").
Qed.

Lemma agent_exposition_ok entries raised e : agent_exposition entries raised = Some e -> exposition_ok e.
Proof.
  rewrite agent_exposition_build. apply build_ok. apply Forall_app. split.
  - apply Forall_forall. intros step ([key v] & _ & Hs)%list_elem_of_omap.
    destruct v as [|b|n| |]; cbn [entry_step fst snd] in Hs; try done; injection Hs as <-; [apply bool_gauge_keeps_ok|].
    destruct (ends_with key "Total"); [apply counter_keeps_ok|apply gauge_keeps_ok].
  - unfold page_tail. repeat (apply Forall_cons_2; [first [apply labelled_gauge_keeps_ok|apply gauge_keeps_ok]|]). by apply Forall_nil_2.
Qed.

(** What the page may depend on: flags, numbers, the role and the digest. *)
Definition public_entry (kv : string * StatusValue) : string * StatusValue :=
  match snd kv, key_disposition (fst kv) with
  | SvBool _, _ | SvNum _, _ => kv
  | v, Some (InfoLabel | BundleLabel) => (fst kv, SvStr (sv_str v))
  | _, _ => (fst kv, SvNull)
  end.

Lemma walk_public w kv : walk_entry w (public_entry kv) = walk_entry w kv.
Proof.
  destruct kv as [key v]. unfold public_entry, walk_entry. cbn [fst snd].
  destruct v; try done; destruct (key_disposition key) as [[]|] eqn:E; try done; by rewrite ?E.
Qed.

Lemma walk_public_all entries : forall w, foldl walk_entry w (map public_entry entries) = foldl walk_entry w entries.
Proof. induction entries as [|kv entries IH]; intros w; [done|]. cbn [map foldl]. by rewrite walk_public, IH. Qed.

Lemma page_public entries entries' raised :
  map public_entry (status_object entries) = map public_entry (status_object entries') ->
  agent_exposition entries raised = agent_exposition entries' raised.
Proof. intros H. unfold agent_exposition. by rewrite <- !(walk_public_all (status_object _)), H. Qed.

(** ** A scrape does not take the report of a change *)

Lemma now_reported a wall written : ag_degraded_reported (agent_now_from a wall written).2 = ag_degraded_reported a.
Proof. destruct a. unfold agent_now_from. destruct (now_from _ wall written) as [now clock]. cbn. by destruct (negb _). Qed.

Lemma unjoined_reported a wall written : ag_degraded_reported (waivers_unjoined a wall written).2 = ag_degraded_reported a.
Proof.
  unfold waivers_unjoined. pose proof (now_reported a wall written) as H. destruct (len (ag_exceptions a) =? 0); [done|].
  destruct (agent_now_from a wall written) as [now a']. cbn in H.
  repeat (case_match; try done).
Qed.

Section page.
Context (fmt : msg -> string) (rfc3339 : Z -> string).

(** The keys of [status.json]. *)
Lemma status_object_ok a ctx sink state instant r1 r2 r3 :
  object_ok (fst (status_entries fmt rfc3339 a ctx sink state instant r1 r2 r3)).
Proof.
  unfold status_entries. destruct (read_clock r1 a) as [ts a1]. destruct (waivers_unjoined a1 _ _) as [unjoined a2].
  destruct (waivers_inert_total a2 _ _) as [inert a3].
  destruct (match sink with Some _ => _ | None => _ end) as [[queue_dropped write_failed] writer_lost]. cbn [fst].
  split_and!.
  - cbn [map fst]. apply (bool_decide_unpack _). vm_compute. exact I.
  - cbn [map fst]. apply (bool_decide_unpack _). vm_compute. exact I.
  - repeat (apply Forall_cons_2; [split; [vm_compute; reflexivity|]; cbn [fst snd]; first [vm_compute; reflexivity | unfold sv_msg, sv_opt; repeat case_match; vm_compute; done ]|]). by apply Forall_nil_2.
Qed.

Lemma scrape_reported a ctx sink instant r0 r1 r2 r3 :
  ag_degraded_reported (agent_scrape fmt rfc3339 a ctx sink instant r0 r1 r2 r3).2 = ag_degraded_reported a.
Proof.
  unfold agent_scrape, degraded_snapshot_at, degraded_reasons_at.
  pose proof (unjoined_reported a (rd_wall r0) (rd_written r0)) as H0. destruct (waivers_unjoined a _ _) as [u0 a0].
  unfold status_entries, read_clock. pose proof (now_reported a0 (rd_wall r1) (rd_written r1)) as H1.
  destruct (agent_now_from a0 _ _) as [ts a1]. pose proof (unjoined_reported a1 (rd_wall r2) (rd_written r2)) as H2.
  destruct (waivers_unjoined a1 _ _) as [u2 a2]. unfold waivers_inert_total.
  pose proof (now_reported a2 (rd_wall r3) (rd_written r3)) as H3. destruct (agent_now_from a2 _ _) as [now3 a3].
  destruct (match sink with Some _ => _ | None => _ end) as [[? ?] ?]. cbn in *. congruence.
Qed.

(** C33: in every state of the agent, whatever its clock, its sink and its fault texts hold,
    a scrape builds the metrics page without an assertion firing; the families have
    distinct names; a reader of the text format gets back exactly what was put in; every
    flag and every number of [status.json] is there under its key's name, and no key is
    left without a place; a scrape does not take the pending report of a changed state;
    and two agents whose objects agree on flags, numbers, role and digest, and which raise
    the same reason ids, give the same page: the policy's name, the fault texts, the
    cgroup errors and the names of waivers never reach the port. *)
Theorem agent_page_is_public a ctx sink instant r0 r1 r2 r3 a' ctx' sink' instant' r0' r1' r2' r3' :
  let '(state, a0) := degraded_snapshot_at a instant (rd_wall r0) (rd_written r0) in
  let '(state', a0') := degraded_snapshot_at a' instant' (rd_wall r0') (rd_written r0') in
  let entries := fst (status_entries fmt rfc3339 a0 ctx sink state instant r1 r2 r3) in
  let entries' := fst (status_entries fmt rfc3339 a0' ctx' sink' state' instant' r1' r2' r3') in
  let ids s := map (fun reason => degraded_reason_id (fmt reason)) (ds_reasons s) in
  let scrape := agent_scrape fmt rfc3339 a ctx sink instant r0 r1 r2 r3 in
  let scrape' := agent_scrape fmt rfc3339 a' ctx' sink' instant' r0' r1' r2' r3' in
  (exists e, fst scrape = Some e /\ NoDup (family_names e) /\ read_page (render_exposition e) = Some (exposition_view e) /\
     published (ex_families e) ("ferrum_agent_status_keys_unmapped", 0) /\
     forall key v n, (key, v) ∈ entries -> entry_number v = Some n -> published (ex_families e) (metric_name key, n)) /\
  ag_degraded_reported (snd scrape) = ag_degraded_reported a /\
  (map public_entry (status_object entries) = map public_entry (status_object entries') -> ids state = ids state' ->
   render_exposition <$> fst scrape = render_exposition <$> fst scrape').
Proof.
  destruct (degraded_snapshot_at a instant _ _) as [state a0] eqn:Es.
  destruct (degraded_snapshot_at a' instant' _ _) as [state' a0'] eqn:Es'. intros entries entries' ids scrape scrape'.
  assert (Hs : fst scrape = agent_exposition entries (ids state)).
  { unfold scrape, agent_scrape, entries. rewrite Es. by destruct (status_entries _ _ a0 _ _ _ _ _ _ _). }
  assert (Hs' : fst scrape' = agent_exposition entries' (ids state')).
  { unfold scrape', agent_scrape, entries'. rewrite Es'. by destruct (status_entries _ _ a0' _ _ _ _ _ _ _). }
  pose proof (status_object_ok a0 ctx sink state instant r1 r2 r3) as Hok. fold entries in Hok. rewrite Hs, Hs'. split_and!.
  - pose proof (object_page entries (ids state) Hok) as He. cbv zeta in He. eexists. split; [exact He|].
    destruct (entry_published _ _ _ Hok He) as [Hu Hp]. pose proof (agent_exposition_ok _ _ _ He) as Hx.
    split_and!; [apply Hx|by apply page_reads_back|exact Hu|exact Hp].
  - apply scrape_reported.
  - intros Hpub Hids. by rewrite Hids, (page_public _ _ _ Hpub).
Qed.
End page.

(** ** The file beside the events *)

(** After a commit into a directory the published file is the object of this tick, or
    there is none, or the one before could not be removed and the commit says so; without
    a directory nothing is claimed to have failed. *)
Lemma commit_publishes `{T : JsonText} p tick io d :
  let '(ok, p', d') := status_commit p tick (Some (io, d)) in
  match tk_json tick with
  | None => ok = true /\ d' = Some d
  | Some json =>
      exists d1, d' = Some d1 /\
      if ok then (exists text, json_bytes json = Ok text /\ sd_status d1 = Some (text ++ [10])) /\ sp_status_error_logged p' = false
      else sp_status_error_logged p' = true /\
           sd_status d1 = match io_remove_status io with Removed => None | _ => sd_status d end
  end.
Proof.
  unfold status_commit, agent_write_status. destruct (tk_json tick) as [json|]; [|done].
  pose proof (write_status_whole io json d) as H. destruct (write_status io json d) as [[[]|e] d1].
  - exists d1. split; [done|]. by split.
  - eexists. split; [done|]. split; [done|]. cbn. by rewrite H.
Qed.

(** ** Two agents one policy name apart *)

Definition page_agent (policy : string) : Agent :=
  agent_fresh {| ac_role := RoleObserve; ac_lkg_dir := None; ac_trust_root := []; ac_bundle_path := None; ac_exceptions := [];
                 ac_policy_name := policy |} {| tc_cgroup_id _ := None; tc_unprovable := None |} None 0 0.
Definition text_of (m : msg) : string :=
  foldr (fun f acc => match f with Lit s | Str s | Dbg s => s +:+ acc | _ => acc end) "" m.
Definition page_scrape (policy : string) : option Exposition * Agent :=
  agent_scrape text_of (fun _ => "now") (page_agent policy) (Some (context_new "node" "observe")) None 0
    {| rd_wall := 0; rd_written := true |} {| rd_wall := 0; rd_written := true |}
    {| rd_wall := 0; rd_written := true |} {| rd_wall := 0; rd_written := true |}.

Example agent_page_witness : exists e,
  fst (page_scrape "shop") = Some e /\ published (ex_families e) ("ferrum_agent_status_keys_unmapped", 0) /\
  published (ex_families e) (metric_name "degraded", 1) /\
  render_exposition <$> fst (page_scrape "shop") = render_exposition <$> fst (page_scrape "bank").
Proof.
  set (r := {| rd_wall := 0; rd_written := true |}). set (ctx := Some (context_new "node" "observe")).
  pose proof (agent_page_is_public text_of (fun _ => "now") (page_agent "shop") ctx None 0 r r r r (page_agent "bank") ctx None 0 r r r r) as H.
  destruct (degraded_snapshot_at (page_agent "shop") 0 (rd_wall r) (rd_written r)) as [state a0] eqn:E1.
  destruct (degraded_snapshot_at (page_agent "bank") 0 (rd_wall r) (rd_written r)) as [state' a0'] eqn:E2.
  destruct H as ((e & He & _ & _ & Hu & Hp) & _ & Hn). exists e. split; [exact He|]. split; [exact Hu|].
  vm_compute in E1. vm_compute in E2. injection E1 as <- <-. injection E2 as <- <-. split.
  - apply (Hp "degraded" (SvBool true)); [|reflexivity]. do 5 right. left.
  - apply Hn; vm_compute; reflexivity.
Defined.
