(* ===== verification/Der.v ===== *)
(** * What the webhook reads out of its serving certificate

    The DER walk of [crates/ferrum-admission/src/serving_cert.rs]: [take], [expect],
    [certificate_facts] with the extensions, the DNS names and the key identifier. The
    text of a certificate time is read by chrono: [parse_time_text] is a parameter. A tag
    in a message is its number; the code prints it in hex. The theorem of this file: the
    walk reads back the facts of every certificate an encoder of the format writes. *)

From S2P Require Import Prelude RustStd RustText Ids Compiler Encoding.

(** [NaiveDateTime::parse_from_str] with the format, as a Unix time. *)
Class TimeText : Type := { parse_time_text : string -> string -> result string Z }.

Definition SAN_OID : list Z := [0x55; 0x1d; 0x11].
Definition AKI_OID : list Z := [0x55; 0x1d; 0x23].

Record Issuer : Type := { is_name_der : list Z; is_key_id : option (list Z) }.
#[global] Instance Issuer_eq_dec : EqDecision Issuer.
Proof. solve_decision. Defined.

Record CertFacts : Type := { cf_not_after : Z; cf_dns_names : list string; cf_issuer : Issuer }.

(** FNV-1a and the label of an issuer. *)
Definition fnv1a (bytes : list Z) : Z :=
  foldl (fun h b => (Z.lxor h b * 0x100000001b3) mod U64) 0xcbf29ce484222325 bytes.
Definition be_bytes8 (n : Z) : list Z := map (fun i => Z.shiftr n (8 * i) mod 256) [7; 6; 5; 4; 3; 2; 1; 0].
Definition issuer_label (i : Issuer) : string :=
  match is_key_id i with
  | Some id => "keyid " +:+ hex_encode id
  | None => "issuer " +:+ hex_encode (be_bytes8 (fnv1a (is_name_der i)))
  end.

(** ** Elements *)

Record Tlv : Type := { tv_tag : Z; tv_value : list Z }.

Notation der A := (result msg A).

Definition expect (t : Tlv) (tag : Z) (what : string) : der unit :=
  if tv_tag t =? tag then Ok tt
  else Err [Str what; Lit ": expected DER tag "; Num tag; Lit ", found "; Num (tv_tag t)].

(** The length bytes as a number; four of them fit a [usize]. *)
Definition be_usize (bytes : list Z) : Z := foldl (fun acc b => Z.lor (Z.shiftl acc 8) b) 0 bytes.

(** [slice.get(a..b)] with [a <= b]. *)
Definition slice_get (a b : nat) (l : list Z) : option (list Z) :=
  if (b <=? length l)%nat then Some (take (b - a) (drop a l)) else None.

(** [take]: one definite-length element and what follows it. *)
Definition der_take (input : list Z) : der (Tlv * list Z) :=
  match input with
  | [] => Err [Lit "truncated DER element"]
  | tag :: rest =>
      if Z.land tag 0x1f =? 0x1f then Err [Lit "multi-byte DER tags are not used in a certificate"] else
      match rest with
      | [] => Err [Lit "truncated DER length"]
      | first :: _ =>
          '(n, header) ←
            (if first <? 0x80 then Ok (first, 2)
             else
               let count := Z.land first 0x7f in
               if (count =? 0) || (4 <? count) then Err [Lit "unsupported DER length"] else
               match slice_get 2 (2 + Z.to_nat count) input with
               | None => Err [Lit "truncated DER length"]
               | Some bytes => Ok (be_usize bytes, 2 + count)
               end : der (Z * Z));
          let end_ := header + n in
          if U64 <=? end_ then Err [Lit "DER length overflows"] else
          match slice_get (Z.to_nat header) (Z.to_nat end_) input with
          | None => Err [Lit "DER length past end of input"]
          | Some value => Ok ({| tv_tag := tag; tv_value := value |}, drop (Z.to_nat end_) input)
          end
      end
  end.

(** A loop over the elements of a sequence: [body] sees each element and either goes on
    with its state or ends the loop. Every turn consumes at least two bytes. *)
Fixpoint der_loop {S : Type} (fuel : nat) (body : S -> Tlv -> der (S * bool)) (s : S) (rest : list Z) : option (der S) :=
  match fuel with
  | O => None
  | S fuel =>
      if is_empty rest then Some (Ok s)
      else
        match der_take rest with
        | Err e => Some (Err e)
        | Ok (t, next) =>
            match body s t with
            | Err e => Some (Err e)
            | Ok (s, true) => Some (Ok s)
            | Ok (s, false) => der_loop fuel body s next
            end
        end
  end.

(** The loop with fuel for every element. *)
Definition der_each {S : Type} (body : S -> Tlv -> der (S * bool)) (s : S) (rest : list Z) : der S :=
  match der_loop (Datatypes.S (length rest)) body s rest with Some r => r | None => Err [] end.

(** ** Names and extensions *)

Definition san_name (out : list string) (name : Tlv) : der (list string * bool) :=
  if tv_tag name =? 0x82 then
    match from_utf8 (tv_value name) with
    | None => Err [Lit "dNSName is not UTF-8"]
    | Some s => Ok (out ++ [s], false)
    end
  else Ok (out, false).

Definition san_dns_names (bytes : list Z) : der (list string) :=
  '(names, _) ← der_take bytes;
  _ ← expect names 0x30 "GeneralNames";
  der_each san_name [] (tv_value names).

Definition key_id_field (found : option (list Z)) (field : Tlv) : der (option (list Z) * bool) :=
  if tv_tag field =? 0x80 then Ok (Some (tv_value field), true) else Ok (found, false).

Definition authority_key_id (bytes : list Z) : der (option (list Z)) :=
  '(seq, _) ← der_take bytes;
  _ ← expect seq 0x30 "AuthorityKeyIdentifier";
  der_each key_id_field None (tv_value seq).

Definition Extensions : Type := list string * option (list Z).

Definition extension (s : Extensions) (ext : Tlv) : der (Extensions * bool) :=
  _ ← expect ext 0x30 "extension";
  '(oid, after_oid) ← der_take (tv_value ext);
  _ ← expect oid 0x06 "extension OID";
  let is_san := bool_decide (tv_value oid = SAN_OID) in
  let is_aki := bool_decide (tv_value oid = AKI_OID) in
  if negb (is_san || is_aki) then Ok (s, false) else
  '(payload, after) ← der_take after_oid;
  payload ← (if tv_tag payload =? 0x01 then '(p, _) ← der_take after; Ok p else Ok payload : der Tlv);
  _ ← expect payload 0x04 "extension value";
  if is_san then names ← san_dns_names (tv_value payload); Ok ((names, snd s), false)
  else id ← authority_key_id (tv_value payload); Ok ((fst s, id), false).

Definition extensions (bytes : list Z) : der Extensions :=
  '(seq, _) ← der_take bytes;
  _ ← expect seq 0x30 "extensions";
  der_each extension ([], None) (tv_value seq).

(** The optional tags after the public key: the walk ends at [3]. *)
Definition tbs_tail (s : Extensions) (t : Tlv) : der (Extensions * bool) :=
  if tv_tag t =? 0xa3 then x ← extensions (tv_value t); Ok (x, true) else Ok (s, false).

Section facts.
Context `{T : TimeText}.

Definition parse_time (t : Tlv) : der Z :=
  match from_utf8 (tv_value t) with
  | None => Err [Lit "certificate time is not UTF-8"]
  | Some raw =>
      format ← (if tv_tag t =? 0x17 then Ok "%y%m%d%H%M%SZ"
                else if tv_tag t =? 0x18 then Ok "%Y%m%d%H%M%SZ"
                else Err [Lit "unexpected certificate time tag "; Num (tv_tag t)] : der string);
      match parse_time_text raw format with
      | Ok at_ => Ok at_
      | Err e => Err [Lit "unreadable certificate time "; Dbg raw; Lit ": "; Str e]
      end
  end.

Definition certificate_facts (bytes : list Z) : der CertFacts :=
  '(cert, _) ← der_take bytes;
  _ ← expect cert 0x30 "certificate";
  '(tbs, _) ← der_take (tv_value cert);
  _ ← expect tbs 0x30 "tbsCertificate";
  let rest := tv_value tbs in
  '(first, after_first) ← der_take rest;
  let rest := if tv_tag first =? 0xa0 then after_first else rest in
  '(_, rest) ← der_take rest;
  '(_, rest) ← der_take rest;
  let at_issuer := rest in
  '(_, after_issuer) ← der_take rest;
  let issuer_name_der := take (length at_issuer - length after_issuer) at_issuer in
  '(validity, after_validity) ← der_take after_issuer;
  _ ← expect validity 0x30 "validity";
  '(_, after_not_before) ← der_take (tv_value validity);
  '(not_after, _) ← der_take after_not_before;
  not_after ← parse_time not_after;
  '(_, rest) ← der_take after_validity;
  '(_, rest) ← der_take rest;
  '(dns_names, key_id) ← der_each tbs_tail ([], None) rest;
  Ok {| cf_not_after := not_after; cf_dns_names := dns_names;
        cf_issuer := {| is_name_der := issuer_name_der; is_key_id := key_id |} |}.
End facts.

(** ** Progress *)

Lemma slice_get_some a b l v : slice_get a b l = Some v -> (b <= length l)%nat /\ v = take (b - a) (drop a l).
Proof. unfold slice_get. destruct (Nat.leb_spec b (length l)); [|done]. by intros [= <-]. Qed.

Lemma be_usize_from bytes acc : 0 <= acc -> Forall (fun b => 0 <= b) bytes ->
  0 <= foldl (fun acc b => Z.lor (Z.shiftl acc 8) b) acc bytes.
Proof.
  intros Ha H. revert acc Ha. induction H as [|b l Hb _ IH]; intros acc Ha; [done|]. cbn [foldl]. apply IH, Z.lor_nonneg.
  split; [by apply Z.shiftl_nonneg|done].
Qed.

(** What is left after an element is shorter, and is the end of the input. *)
Lemma der_take_rest input t rest : Forall (fun b => 0 <= b) input -> der_take input = Ok (t, rest) ->
  (length rest < length input)%nat /\ exists n, rest = drop n input.
Proof.
  intros Hb. unfold der_take. destruct input as [|tag r]; [done|]. destruct (_ =? 0x1f); [done|].
  destruct r as [|first r]; [done|].
  match goal with |- mbind _ ?m = _ -> _ => destruct m as [[n header]|e] eqn:E; [|done] end. cbn [mbind result_mbind].
  assert (Hnh : 0 <= n /\ 2 <= header).
  { pose proof Hb as [_ [Hf _]%Forall_cons_1]%Forall_cons_1.
    destruct (Z.ltb_spec first 0x80); [injection E as <- <-; lia|].
    destruct (_ || _) eqn:Ec; [done|]. destruct (slice_get _ _ _) as [bytes|] eqn:Eg; [|done]. injection E as <- <-.
    apply slice_get_some in Eg as [_ ->]. split.
    - apply be_usize_from; [done|]. by apply Forall_take, Forall_drop.
    - apply orb_false_iff in Ec as [Ec _]. pose proof (Z.land_nonneg first 0x7f). lia. }
  clear E. destruct (U64 <=? header + n); [done|]. destruct (slice_get _ _ _) as [v|] eqn:Eg; [|done]. intros [= <- <-].
  split; [|eauto]. rewrite length_drop. apply slice_get_some in Eg as [Hl _]. cbn [length] in *. lia.
Qed.

Definition bytes_ok (l : list Z) : Prop := Forall (fun b => 0 <= b < 256) l.

Lemma bytes_nonneg l : bytes_ok l -> Forall (fun b => 0 <= b) l.
Proof. intros H. eapply Forall_impl; [exact H|]. by intros b [H0 _]. Qed.

(** The loop over a sequence always has fuel enough. *)
Lemma der_loop_total {S} (body : S -> Tlv -> der (S * bool)) fuel : forall s rest, Forall (fun b => 0 <= b) rest ->
  (length rest < fuel)%nat -> exists r, der_loop fuel body s rest = Some r.
Proof.
  induction fuel as [|fuel IH]; intros s rest Hb Hf; [lia|]. cbn [der_loop]. destruct (is_empty rest); [eauto|].
  destruct (der_take rest) as [[t next]|e] eqn:E; [|eauto]. destruct (body s t) as [[s' []]|e]; [eauto| |eauto].
  destruct (der_take_rest _ _ _ Hb E) as [Hl [n ->]]. apply IH; [by apply Forall_drop|lia].
Qed.

Lemma der_loop_more {S} (body : S -> Tlv -> der (S * bool)) fuel : forall s rest r, der_loop fuel body s rest = Some r ->
  forall fuel', (fuel <= fuel')%nat -> der_loop fuel' body s rest = Some r.
Proof.
  induction fuel as [|fuel IH]; intros s rest r; [done|]. intros H [|fuel'] Hle; [lia|]. cbn [der_loop] in *.
  destruct (is_empty rest); [done|]. destruct (der_take rest) as [[t next]|e]; [|done].
  destruct (body s t) as [[s' []]|e]; [done| |done]. apply (IH _ _ _ H). lia.
Qed.

Lemma der_each_step {S} (body : S -> Tlv -> der (S * bool)) s rest t next : Forall (fun b => 0 <= b) rest ->
  der_take rest = Ok (t, next) -> is_empty rest = false ->
  der_each body s rest = match body s t with Err e => Err e | Ok (s', true) => Ok s' | Ok (s', false) => der_each body s' next end.
Proof.
  intros Hb E He. unfold der_each at 1. cbn [der_loop]. rewrite He, E. destruct (body s t) as [[s' []]|e]; [done| |done].
  destruct (der_take_rest _ _ _ Hb E) as [Hl [n ->]].
  destruct (der_loop_total body (Datatypes.S (length (drop n rest))) s' (drop n rest)) as [r Hr]; [by apply Forall_drop|lia|].
  unfold der_each. by rewrite Hr, (der_loop_more _ _ _ _ _ Hr (length rest)) by lia.
Qed.

(** ** An encoder of the format *)

Definition enc_len (n : Z) : list Z :=
  if n <? 128 then [n]
  else if n <? 256 then [0x81; n]
  else if n <? 65536 then [0x82; n / 256; n mod 256]
  else if n <? 16777216 then [0x83; n / 65536; n / 256 mod 256; n mod 256]
  else [0x84; n / 16777216; n / 65536 mod 256; n / 256 mod 256; n mod 256].

Definition der_enc (tag : Z) (v : list Z) : list Z := tag :: enc_len (len v) ++ v.

(** A one-byte tag, and contents whose length four bytes can carry. *)
Definition tag_ok (tag : Z) : Prop := 0 <= tag < 256 /\ Z.land tag 0x1f <> 0x1f.
Definition content_ok (v : list Z) : Prop := bytes_ok v /\ len v < 4294967296.

Lemma be_usize_digits2 a b : 0 <= a < 256 -> 0 <= b < 256 -> be_usize [a; b] = a * 256 + b.
Proof. intros Ha Hb. unfold be_usize. cbn [foldl]. rewrite !lor_shift by lia. lia. Qed.

Lemma be_usize_digits3 a b c : 0 <= a < 256 -> 0 <= b < 256 -> 0 <= c < 256 -> be_usize [a; b; c] = (a * 256 + b) * 256 + c.
Proof. intros Ha Hb Hc. unfold be_usize. cbn [foldl]. rewrite !lor_shift by lia. lia. Qed.
Lemma be_usize_digits4 a b c d : 0 <= a < 256 -> 0 <= b < 256 -> 0 <= c < 256 -> 0 <= d < 256 ->
  be_usize [a; b; c; d] = ((a * 256 + b) * 256 + c) * 256 + d.
Proof. intros Ha Hb Hc Hd. unfold be_usize. cbn [foldl]. rewrite !lor_shift by lia. lia. Qed.

(** The header [take] reads off an encoded length. *)
Definition read_header (input : list Z) (first : Z) : der (Z * Z) :=
  if first <? 0x80 then Ok (first, 2)
  else
    let count := Z.land first 0x7f in
    if (count =? 0) || (4 <? count) then Err [Lit "unsupported DER length"] else
    match slice_get 2 (2 + Z.to_nat count) input with
    | None => Err [Lit "truncated DER length"]
    | Some bytes => Ok (be_usize bytes, 2 + count)
    end.

Lemma read_header_enc tag n rest : 0 <= n < 4294967296 ->
  exists first more, enc_len n = first :: more /\ 0 <= first < 256 /\
    read_header (tag :: first :: more ++ rest) first = Ok (n, 2 + len more).
Proof.
  intros Hn. unfold enc_len.
  destruct (Z.ltb_spec n 128).
  { exists n, []. split; [done|]. split; [lia|]. unfold read_header. by rewrite (proj2 (Z.ltb_lt n 0x80)) by lia. }
  assert (Hm : forall k, 0 <= k mod 256 < 256) by (intros; apply Z.mod_pos_bound; lia).
  destruct (Z.ltb_spec n 256).
  { exists 0x81, [n]. split_and!; [done|lia..|]. 
    change (Ok (be_usize [n], 3) = Ok (E:=msg) (n, 2 + len [n])). unfold be_usize. cbn [foldl]. by rewrite lor_shift by lia. }
  destruct (Z.ltb_spec n 65536).
  { exists 0x82, [n / 256; n mod 256]. split_and!; [done|lia..|].
    change (Ok (be_usize [n / 256; n mod 256], 4) = Ok (E:=msg) (n, 2 + len [n / 256; n mod 256])).
    rewrite be_usize_digits2; [|split; [apply Z.div_pos; lia|apply Z.div_lt_upper_bound; lia]|apply Hm].
    repeat f_equal. pose proof (Z.div_mod n 256). lia. }
  destruct (Z.ltb_spec n 16777216).
  { exists 0x83, [n / 65536; n / 256 mod 256; n mod 256]. split_and!; [done|lia..|].
    change (Ok (be_usize [n / 65536; n / 256 mod 256; n mod 256], 5) = Ok (E:=msg) (n, 2 + len [n / 65536; n / 256 mod 256; n mod 256])).
    rewrite be_usize_digits3; [|split; [apply Z.div_pos; lia|apply Z.div_lt_upper_bound; lia]|apply Hm|apply Hm].
    repeat f_equal. Z.to_euclidean_division_equations. lia. }
  exists 0x84, [n / 16777216; n / 65536 mod 256; n / 256 mod 256; n mod 256]. split_and!; [done|lia..|].
  change (Ok (be_usize [n / 16777216; n / 65536 mod 256; n / 256 mod 256; n mod 256], 6) =
    Ok (E:=msg) (n, 2 + len [n / 16777216; n / 65536 mod 256; n / 256 mod 256; n mod 256])).
  rewrite be_usize_digits4; [|split; [apply Z.div_pos; lia|apply Z.div_lt_upper_bound; lia]|apply Hm|apply Hm|apply Hm].
  repeat f_equal. Z.to_euclidean_division_equations. lia.
Qed.

Lemma der_take_enc tag v rest : tag_ok tag -> content_ok v ->
  der_take (der_enc tag v ++ rest) = Ok ({| tv_tag := tag; tv_value := v |}, rest).
Proof.
  intros [Ht Hm] [_ Hlen]. unfold der_enc.
  destruct (read_header_enc tag (len v) (v ++ rest)) as (first & more & El & Hf & Hh); [unfold len in *; lia|].
  rewrite El. cbn [app]. rewrite <- app_assoc. unfold der_take. rewrite (proj2 (Z.eqb_neq _ _) Hm).
  change (_ ≫= ?k) with (read_header (tag :: first :: more ++ v ++ rest) first ≫= k). rewrite Hh. cbn [mbind result_mbind].
  assert (Hu : (U64 <=? 2 + len more + len v) = false).
  { apply Z.leb_gt. assert (len more <= 4). { clear -El. unfold enc_len in El. repeat case_match; injection El as <- <-; unfold len; simpl; lia. }
    unfold U64. lia. }
  rewrite Hu. unfold slice_get. set (k := Z.to_nat (2 + len more)).
  assert (Hk : k = S (S (length more))) by (unfold k, len; lia).
  replace (Z.to_nat (2 + len more + len v)) with (k + length v)%nat by (unfold k, len; lia). rewrite Hk. cbn [length drop].
  rewrite !length_app. rewrite (proj2 (Nat.leb_le _ _)) by lia.
  rewrite (drop_app_length' more) by done. replace (S (S (length more)) + length v - S (S (length more)))%nat with (length v) by lia.
  rewrite take_app_length' by done. repeat f_equal. cbn [Nat.add drop].
  rewrite <- length_app, app_assoc. apply drop_app_length.
Qed.

(** ** Certificates *)

(** The parts of an extension: the two the walk reads, and the rest. *)
Inductive ExtBody : Type :=
| XSan (names : list (Z * list Z))
| XAki (fields : list (Z * list Z))
| XOther (oid value : list Z).
Record Ext : Type := { x_critical : option (list Z); x_body : ExtBody }.

Definition enc_items (items : list (Z * list Z)) : list Z := concat (map (fun tv => der_enc (fst tv) (snd tv)) items).
Definition ext_oid (b : ExtBody) : list Z := match b with XSan _ => SAN_OID | XAki _ => AKI_OID | XOther oid _ => oid end.
Definition ext_value (b : ExtBody) : list Z :=
  match b with XSan items | XAki items => der_enc 0x30 (enc_items items) | XOther _ value => value end.
Definition enc_ext_content (x : Ext) : list Z :=
  der_enc 0x06 (ext_oid (x_body x)) ++ (match x_critical x with Some c => der_enc 0x01 c | None => [] end) ++
  der_enc 0x04 (ext_value (x_body x)).
Definition enc_ext (x : Ext) : list Z := der_enc 0x30 (enc_ext_content x).

Record Certificate : Type := {
  ce_version : option (list Z);
  ce_serial : list Z;
  ce_signature : list Z;
  ce_issuer : list Z;
  ce_not_before : Tlv;
  ce_not_after : Tlv;
  ce_subject : list Z;
  ce_public_key : list Z;
  ce_unique_ids : list (Z * list Z);
  ce_extensions : option (list Ext);
  ce_signed : list Z
}.

Definition enc_tlv (t : Tlv) : list Z := der_enc (tv_tag t) (tv_value t).
Definition enc_validity (c : Certificate) : list Z := enc_tlv (ce_not_before c) ++ enc_tlv (ce_not_after c).
Definition enc_exts (xs : list Ext) : list Z := der_enc 0x30 (concat (map enc_ext xs)).
Definition enc_tail (c : Certificate) : list Z :=
  enc_items (ce_unique_ids c) ++ match ce_extensions c with Some xs => der_enc 0xa3 (enc_exts xs) | None => [] end.
Definition enc_tbs (c : Certificate) : list Z :=
  (match ce_version c with Some v => der_enc 0xa0 v | None => [] end) ++
  der_enc 0x02 (ce_serial c) ++ der_enc 0x30 (ce_signature c) ++ der_enc 0x30 (ce_issuer c) ++
  der_enc 0x30 (enc_validity c) ++ der_enc 0x30 (ce_subject c) ++ der_enc 0x30 (ce_public_key c) ++ enc_tail c.
Definition enc_certificate (c : Certificate) : list Z := der_enc 0x30 (der_enc 0x30 (enc_tbs c) ++ ce_signed c).

(** ** The facts of a certificate *)

(** The [dNSName]s among general names, in order. *)
Definition dns_of (items : list (Z * list Z)) : list string :=
  omap (fun tv => if fst tv =? 0x82 then from_utf8 (snd tv) else None) items.
(** The first [keyIdentifier]. *)
Definition key_id_of (items : list (Z * list Z)) : option (list Z) := snd <$> List.find (fun tv => fst tv =? 0x80) items.

(** The last extension of each kind counts. *)
Definition exts_facts (xs : list Ext) : Extensions :=
  foldl (fun s x => match x_body x with
                    | XSan items => (dns_of items, snd s)
                    | XAki items => (fst s, key_id_of items)
                    | XOther _ _ => s
                    end) ([], None) xs.

(** Well-formed parts: every element has a one-byte tag and fits its length. *)
Definition items_ok (items : list (Z * list Z)) : Prop :=
  Forall (fun tv => tag_ok (fst tv) /\ content_ok (snd tv)) items /\ content_ok (enc_items items).
Definition ext_ok (x : Ext) : Prop :=
  content_ok (ext_oid (x_body x)) /\ content_ok (ext_value (x_body x)) /\ content_ok (enc_ext_content x) /\
  match x_critical x with Some c => content_ok c | None => True end /\
  match x_body x with
  | XSan items => items_ok items /\ Forall (fun tv => fst tv = 0x82 -> from_utf8 (snd tv) <> None) items
  | XAki items => items_ok items
  | XOther oid _ => oid <> SAN_OID /\ oid <> AKI_OID
  end.
Definition certificate_ok (c : Certificate) : Prop :=
  content_ok (der_enc 0x30 (enc_tbs c) ++ ce_signed c) /\ content_ok (enc_tbs c) /\
  match ce_version c with Some v => content_ok v | None => True end /\
  content_ok (ce_serial c) /\ content_ok (ce_signature c) /\ content_ok (ce_issuer c) /\ content_ok (enc_validity c) /\
  (tag_ok (tv_tag (ce_not_before c)) /\ content_ok (tv_value (ce_not_before c))) /\
  (tag_ok (tv_tag (ce_not_after c)) /\ content_ok (tv_value (ce_not_after c))) /\
  content_ok (ce_subject c) /\ content_ok (ce_public_key c) /\
  (items_ok (ce_unique_ids c) /\ Forall (fun tv => fst tv <> 0xa3) (ce_unique_ids c)) /\
  match ce_extensions c with
  | Some xs => content_ok (enc_exts xs) /\ content_ok (concat (map enc_ext xs)) /\ Forall ext_ok xs
  | None => True
  end.

(** ** The loops over encoded elements *)

Fixpoint fold_items {S : Type} (body : S -> Tlv -> der (S * bool)) (s : S) (items : list (Z * list Z)) : der (S * bool) :=
  match items with
  | [] => Ok (s, false)
  | tv :: items' =>
      match body s {| tv_tag := fst tv; tv_value := snd tv |} with
      | Err e => Err e
      | Ok (s', true) => Ok (s', true)
      | Ok (s', false) => fold_items body s' items'
      end
  end.

Lemma der_each_items {S} (body : S -> Tlv -> der (S * bool)) items tail : forall s,
  Forall (fun tv => tag_ok (fst tv) /\ content_ok (snd tv)) items -> Forall (fun b => 0 <= b) (enc_items items ++ tail) ->
  der_each body s (enc_items items ++ tail) =
    match fold_items body s items with
    | Err e => Err e
    | Ok (s', true) => Ok s'
    | Ok (s', false) => der_each body s' tail
    end.
Proof.
  induction items as [|[tag v] items IH]; intros s Hi Hb; [done|]. apply Forall_cons_1 in Hi as [[Ht Hv] Hi].
  unfold enc_items in *. cbn [map concat fst snd] in *. rewrite <- app_assoc in *.
  rewrite (der_each_step body s _ _ _ Hb (der_take_enc tag v _ Ht Hv) eq_refl). cbn [fold_items fst snd].
  destruct (body s _) as [[s' []]|e]; [done| |done]. apply IH; [done|]. by apply Forall_app in Hb as [_ Hb].
Qed.

Lemma der_each_nil {S} (body : S -> Tlv -> der (S * bool)) s : der_each body s [] = Ok s.
Proof. done. Qed.

Lemma der_each_all {S} (body : S -> Tlv -> der (S * bool)) items s : items_ok items ->
  der_each body s (enc_items items) = (fun r => fst r) <$> fold_items body s items.
Proof.
  intros [Hi Hc]. rewrite <- (app_nil_r (enc_items items)). rewrite der_each_items; [|done|].
  - destruct (fold_items body s items) as [[s' []]|e]; done.
  - rewrite app_nil_r. apply bytes_nonneg, Hc.
Qed.

Lemma tag30 : tag_ok 0x30.
Proof. done. Qed.

Lemma fold_san items : forall out, Forall (fun tv => fst tv = 0x82 -> from_utf8 (snd tv) <> None) items ->
  fold_items san_name out items = Ok (out ++ dns_of items, false).
Proof.
  induction items as [|[tag v] items IH]; intros out H; cbn [fold_items]; [by rewrite app_nil_r|].
  apply Forall_cons_1 in H as [H1 H]. unfold san_name at 1. cbn [tv_tag tv_value fst snd] in *. unfold dns_of. cbn [omap list_omap fst snd].
  destruct (Z.eqb_spec tag 0x82) as [E|]; [|by apply IH].
  destruct (from_utf8 v) as [s|]; [|by destruct (H1 E)]. rewrite (IH (out ++ [s]) H). by rewrite <- app_assoc.
Qed.

Lemma san_dns_names_enc items : items_ok items -> Forall (fun tv => fst tv = 0x82 -> from_utf8 (snd tv) <> None) items ->
  san_dns_names (der_enc 0x30 (enc_items items)) = Ok (dns_of items).
Proof.
  intros Hi Hu. unfold san_dns_names. rewrite <- (app_nil_r (der_enc _ _)), der_take_enc; [|apply tag30|apply Hi].
  cbn [mbind result_mbind]. change (expect _ 0x30 _) with (Ok (E:=msg) tt). cbn [mbind result_mbind tv_value].
  by rewrite der_each_all, fold_san by done.
Qed.

Lemma fold_key_id items : forall found, exists b, fold_items key_id_field found items =
  Ok (match key_id_of items with Some id => Some id | None => found end, b).
Proof.
  induction items as [|[tag v] items IH]; intros found; cbn [fold_items]; [by exists false|].
  unfold key_id_field at 1, key_id_of. cbn [tv_tag tv_value fst snd List.find].
  destruct (tag =? 0x80); [by exists true|]. apply IH.
Qed.

Lemma authority_key_id_enc items : items_ok items -> authority_key_id (der_enc 0x30 (enc_items items)) = Ok (key_id_of items).
Proof.
  intros Hi. unfold authority_key_id. rewrite <- (app_nil_r (der_enc _ _)), der_take_enc; [|apply tag30|apply Hi].
  cbn [mbind result_mbind]. change (expect _ 0x30 _) with (Ok (E:=msg) tt). cbn [mbind result_mbind tv_value].
  rewrite der_each_all by done. destruct (fold_key_id items None) as [b ->]. cbn. by destruct (key_id_of items).
Qed.

Definition ext_facts (s : Extensions) (x : Ext) : Extensions :=
  match x_body x with
  | XSan items => (dns_of items, snd s)
  | XAki items => (fst s, key_id_of items)
  | XOther _ _ => s
  end.

(** The value of an extension, past its optional critical flag. *)
Lemma ext_payload x : ext_ok x -> (
  '(payload, after) ← der_take ((match x_critical x with Some c => der_enc 0x01 c | None => [] end) ++ der_enc 0x04 (ext_value (x_body x)));
  (if tv_tag payload =? 0x01 then '(p, _) ← der_take after; Ok p else Ok payload : der Tlv)) =
  Ok {| tv_tag := 0x04; tv_value := ext_value (x_body x) |}.
Proof.
  intros (_ & Hv & _ & Hc & _). rewrite <- (app_nil_r (der_enc 0x04 _)). destruct (x_critical x) as [c|].
  - rewrite der_take_enc by done. cbn [mbind result_mbind tv_tag]. change (0x01 =? 0x01) with true. cbn match.
    by rewrite der_take_enc.
  - cbn [app]. by rewrite der_take_enc.
Qed.

Lemma extension_enc s x : ext_ok x ->
  extension s {| tv_tag := 0x30; tv_value := enc_ext_content x |} = Ok (ext_facts s x, false).
Proof.
  intros Hx. pose proof (ext_payload x Hx) as Hp. destruct Hx as (Ho & Hv & _ & _ & Hb). unfold extension.
  change (expect _ 0x30 _) with (Ok (E:=msg) tt). cbn [mbind result_mbind tv_value]. unfold enc_ext_content.
  rewrite der_take_enc by done. cbn [mbind result_mbind]. change (expect _ 0x06 _) with (Ok (E:=msg) tt).
  cbn [mbind result_mbind tv_value]. unfold ext_facts. destruct (x_body x) as [items|items|oid value]; cbn [ext_oid ext_value] in *.
  - rewrite bool_decide_true by done. cbn [orb negb]. destruct (der_take _) as [[payload after]|e]; [|done].
    cbn [mbind result_mbind] in *. rewrite Hp. cbn [mbind result_mbind]. change (expect _ 0x04 _) with (Ok (E:=msg) tt).
    cbn [mbind result_mbind tv_value]. destruct Hb as [Hi Hu]. by rewrite san_dns_names_enc.
  - rewrite (bool_decide_false (AKI_OID = SAN_OID)) by done. rewrite bool_decide_true by done. cbn [orb negb].
    destruct (der_take _) as [[payload after]|e]; [|done]. cbn [mbind result_mbind] in *. rewrite Hp. cbn [mbind result_mbind].
    change (expect _ 0x04 _) with (Ok (E:=msg) tt). cbn [mbind result_mbind tv_value]. by rewrite authority_key_id_enc.
  - destruct Hb as [H1 H2]. by rewrite !bool_decide_false by done.
Qed.

Lemma fold_exts xs : forall s, Forall ext_ok xs ->
  fold_items extension s (map (fun x => (0x30, enc_ext_content x)) xs) = Ok (foldl ext_facts s xs, false).
Proof.
  induction xs as [|x xs IH]; intros s H; [done|]. apply Forall_cons_1 in H as [Hx H]. cbn [map fold_items fst snd foldl].
  rewrite extension_enc by done. by apply IH.
Qed.

Lemma extensions_enc xs : content_ok (concat (map enc_ext xs)) -> Forall ext_ok xs -> extensions (enc_exts xs) = Ok (exts_facts xs).
Proof.
  intros Hc Hx. unfold extensions, enc_exts. rewrite <- (app_nil_r (der_enc _ _)), der_take_enc; [|apply tag30|done].
  cbn [mbind result_mbind]. change (expect _ 0x30 _) with (Ok (E:=msg) tt). cbn [mbind result_mbind tv_value].
  assert (He : concat (map enc_ext xs) = enc_items (map (fun x => (0x30, enc_ext_content x)) xs)).
  { unfold enc_items. by rewrite map_map. }
  rewrite He in *. rewrite der_each_all.
  - by rewrite fold_exts.
  - split; [|done]. apply Forall_forall. intros tv (x & -> & Hin)%list_elem_of_fmap. rewrite Forall_forall in Hx.
    split; [apply tag30|]. apply (Hx x Hin).
Qed.

Lemma expect_ok tag v what : expect {| tv_tag := tag; tv_value := v |} tag what = Ok tt.
Proof. unfold expect. cbn [tv_tag]. by rewrite Z.eqb_refl. Qed.

Lemma fold_unique_ids ids : forall s, Forall (fun tv => fst tv <> 0xa3) ids -> fold_items tbs_tail s ids = Ok (s, false).
Proof.
  induction ids as [|[tag v] ids IH]; intros s H; [done|]. apply Forall_cons_1 in H as [H1 H]. cbn [fold_items fst snd] in *.
  unfold tbs_tail at 1. cbn [tv_tag]. rewrite (proj2 (Z.eqb_neq _ _) H1). by apply IH.
Qed.

Definition certificate_exts (c : Certificate) : Extensions :=
  match ce_extensions c with Some xs => exts_facts xs | None => ([], None) end.

Lemma tail_enc c : Forall (fun b => 0 <= b) (enc_tail c) ->
  items_ok (ce_unique_ids c) /\ Forall (fun tv => fst tv <> 0xa3) (ce_unique_ids c) ->
  match ce_extensions c with
  | Some xs => content_ok (enc_exts xs) /\ content_ok (concat (map enc_ext xs)) /\ Forall ext_ok xs
  | None => True
  end ->
  der_each tbs_tail ([], None) (enc_tail c) = Ok (certificate_exts c).
Proof.
  intros Hb [[Hi _] Hn] Hx. unfold enc_tail, certificate_exts in *. rewrite der_each_items by done.
  rewrite fold_unique_ids by done. destruct (ce_extensions c) as [xs|]; [|done]. destruct Hx as (Hc & Hc' & Hx).
  apply Forall_app in Hb as [_ Hb]. rewrite <- (app_nil_r (der_enc 0xa3 _)) in *.
  assert (Ht : tag_ok 0xa3) by done.
  rewrite (der_each_step tbs_tail _ _ _ _ Hb (der_take_enc 0xa3 _ _ Ht Hc) eq_refl). unfold tbs_tail at 1. cbn [tv_tag tv_value].
  change (0xa3 =? 0xa3) with true. cbn match. by rewrite extensions_enc.
Qed.

Section certificates.
Context `{T : TimeText}.

(** C32: the walk reads back every certificate an encoder of the format writes, with or
    without a version, unique identifiers and extensions, with elements of any length a
    four-byte length can carry: the time of [notAfter], the [dNSName]s of the last
    [subjectAltName] in order, the key identifier of the last [authorityKeyIdentifier],
    and the issuer's [Name] byte for byte as it stands; the only refusal left is that of
    the time. *)
Theorem certificate_facts_exact (c : Certificate) : certificate_ok c ->
  certificate_facts (enc_certificate c) =
    (not_after ← parse_time (ce_not_after c);
     Ok {| cf_not_after := not_after; cf_dns_names := fst (certificate_exts c);
           cf_issuer := {| is_name_der := der_enc 0x30 (ce_issuer c); is_key_id := snd (certificate_exts c) |} |}).
Proof.
  intros (H1 & H2 & Hv & Hs & Hg & Hi & Hval & [Hbt Hbc] & [Hat Hac] & Hsu & Hpk & Hu & Hx).
  assert (Htail : Forall (fun b => 0 <= b) (enc_tail c)).
  { apply bytes_nonneg. destruct H2 as [H2 _]. unfold enc_tbs in H2. unfold bytes_ok in *. rewrite !Forall_app in H2. tauto. }
  unfold certificate_facts, enc_certificate. rewrite <- (app_nil_r (der_enc 0x30 (_ ++ _))), der_take_enc by done.
  cbn [mbind result_mbind]. rewrite expect_ok. cbn [mbind result_mbind tv_value].
  rewrite der_take_enc by done. cbn [mbind result_mbind]. rewrite expect_ok.
  cbn [mbind result_mbind tv_value].
  assert (Hver : exists first after, der_take (enc_tbs c) = Ok (first, after) /\
    (if tv_tag first =? 0xa0 then after else enc_tbs c) =
      der_enc 0x02 (ce_serial c) ++ der_enc 0x30 (ce_signature c) ++ der_enc 0x30 (ce_issuer c) ++
      der_enc 0x30 (enc_validity c) ++ der_enc 0x30 (ce_subject c) ++ der_enc 0x30 (ce_public_key c) ++ enc_tail c).
  { unfold enc_tbs. destruct (ce_version c) as [v|]; [|cbn [app]]; rewrite der_take_enc by done; eexists _, _; (split; [done|]); done. }
  destruct Hver as (first & after & -> & Hrest). cbn [mbind result_mbind]. rewrite Hrest. clear Hrest first after.
  repeat (first [rewrite der_take_enc by done | rewrite expect_ok]; cbn [mbind result_mbind tv_value]).
  unfold enc_validity, enc_tlv. rewrite der_take_enc by done. cbn [mbind result_mbind].
  rewrite <- (app_nil_r (der_enc (tv_tag (ce_not_after c)) _)), der_take_enc by done. cbn [mbind result_mbind].
  replace {| tv_tag := tv_tag (ce_not_after c); tv_value := tv_value (ce_not_after c) |} with (ce_not_after c)
    by (by destruct (ce_not_after c)).
  destruct (parse_time (ce_not_after c)) as [t|e]; [|done]. cbn [mbind result_mbind].
  rewrite tail_enc by done. cbn [mbind result_mbind]. destruct (certificate_exts c) as [names id]. do 3 f_equal.
  rewrite length_app. replace (_ + _ - _)%nat with (length (der_enc 0x30 (ce_issuer c))) by lia. apply take_app_length.
Qed.
End certificates.

(** ** A certificate *)

#[local] Instance sample_time : TimeText := {
  parse_time_text raw format :=
    if str_eqb raw "300101000000Z" && str_eqb format "%y%m%d%H%M%SZ" then Ok 1893456000 else Err "input is out of range"
}.

Definition sample_certificate : Certificate := {|
  ce_version := Some [2; 1; 2]; ce_serial := [5]; ce_signature := []; ce_issuer := [1; 2; 3];
  ce_not_before := {| tv_tag := 0x17; tv_value := as_bytes "250101000000Z" |};
  ce_not_after := {| tv_tag := 0x17; tv_value := as_bytes "300101000000Z" |};
  ce_subject := []; ce_public_key := repeat 7 200; ce_unique_ids := [(0x81, [0])];
  ce_extensions := Some
    [{| x_critical := Some [255]; x_body := XOther [0x55; 0x1d; 0x0f] [3] |};
     {| x_critical := None; x_body := XAki [(0x81, [1]); (0x80, [9; 9])] |};
     {| x_critical := Some [0]; x_body := XSan [(0x82, as_bytes "webhook.svc"); (0x87, [10; 0; 0; 1]); (0x82, as_bytes "webhook")] |}];
  ce_signed := [0x30; 0]
|}.

Example certificate_facts_witness :
  certificate_facts (enc_certificate sample_certificate) =
    Ok {| cf_not_after := 1893456000; cf_dns_names := ["webhook.svc"; "webhook"];
          cf_issuer := {| is_name_der := [0x30; 3; 1; 2; 3]; is_key_id := Some [9; 9] |} |}.
Proof.
  rewrite (certificate_facts_exact sample_certificate); [vm_compute; reflexivity|].
  repeat match goal with
  | |- content_ok _ => split; [apply (bool_decide_unpack _); vm_compute; exact I | vm_compute; reflexivity]
  | |- tag_ok _ => split; [split; [discriminate|reflexivity]|vm_compute; discriminate]
  | |- Forall _ [] => constructor
  | |- Forall _ (_ :: _) => constructor
  | |- _ /\ _ => split
  | |- certificate_ok _ => hnf
  | |- ext_ok _ => hnf
  | |- items_ok _ => hnf
  | |- True => exact I
  | |- _ -> _ => intros ?
  | |- _ <> _ => vm_compute; discriminate
  | |- _ => progress cbn
  end.
Defined.
