(* ===== verification/ServingCert.v ===== *)
(** * The certificate the webhook serves with

    [TlsSource] and the poll loop of [crates/ferrum-admission/src/serving_cert.rs]: the
    material is read, checked and swapped in place while the mount changes under it. The
    PEM readers and the TLS configuration are rustls: a [TlsLib] with a type of
    configurations. Every call of the clock is a reading of its own. *)

From S2P Require Import Prelude RustStd RustText Ids Grant BreakGlass Webhook Der.

Definition SERVING_CERT_WARN_DAYS : Z := 30.
Definition DAY_SECS : Z := 86400.
Definition I64_MAX : Z := 9223372036854775807.
Definition I64_MIN : Z := -9223372036854775808.
Definition sat_i64 (n : Z) : Z := Z.max I64_MIN (Z.min I64_MAX n).

Definition expires_within_days (f : CertFacts) (now days : Z) : bool :=
  cf_not_after f <=? sat_i64 (now + sat_i64 (days * DAY_SECS)).
Definition covers_names (f : CertFacts) (names : list string) : bool := forallb (list_contains (cf_dns_names f)) names.

(** rustls and its PEM reader. *)
Class TlsLib (Config : Type) : Type := {
  pem_certs : list Z -> result string (list (list Z));
  pem_key : list Z -> result string (list Z);
  server_config : list (list Z) -> list Z -> result string Config
}.

Section source.
Context {Config : Type} `{L : TlsLib Config} `{T : TimeText}.

Record Loaded : Type := { lo_config : Config; lo_facts : CertFacts; lo_warned : bool }.

Record TlsSource : Type := {
  ts_loaded : Loaded;
  ts_pinned_issuer : Issuer;
  ts_previous : option Loaded;
  ts_reload_failures : Z;
  ts_expiry_warnings : Z;
  ts_rollbacks : Z;
  ts_mount_unreadable : Z;
  ts_mount_absent : Z
}.

Definition inc64 (n : Z) : Z := (n + 1) mod U64.

Definition with_loaded (s : TlsSource) (l : Loaded) (previous : option Loaded) : TlsSource :=
  {| ts_loaded := l; ts_pinned_issuer := ts_pinned_issuer s; ts_previous := previous; ts_reload_failures := ts_reload_failures s;
     ts_expiry_warnings := ts_expiry_warnings s; ts_rollbacks := ts_rollbacks s; ts_mount_unreadable := ts_mount_unreadable s;
     ts_mount_absent := ts_mount_absent s |}.
Definition with_counts (s : TlsSource) (failures warnings rollbacks unreadable absent : Z) : TlsSource :=
  {| ts_loaded := ts_loaded s; ts_pinned_issuer := ts_pinned_issuer s; ts_previous := ts_previous s; ts_reload_failures := failures;
     ts_expiry_warnings := warnings; ts_rollbacks := rollbacks; ts_mount_unreadable := unreadable; ts_mount_absent := absent |}.
Definition count_failure (s : TlsSource) : TlsSource :=
  with_counts s (inc64 (ts_reload_failures s)) (ts_expiry_warnings s) (ts_rollbacks s) (ts_mount_unreadable s) (ts_mount_absent s).

(** What the two files hold at the moment they are opened. *)
Record Files : Type := { fi_cert : result string (list Z); fi_key : result string (list Z) }.

(** [read_material] at the time [now]. *)
Definition read_serving_material (fs : Files) (now : Z) : result msg (Config * CertFacts) :=
  cert_bytes ← map_err (fun e => [Lit "tls cert: "; Str e]) (fi_cert fs);
  certs ← map_err (fun e => [Lit "tls cert parse: "; Str e]) (pem_certs cert_bytes);
  match certs with
  | [] => Err [Lit "tls cert file contains no certificates"]
  | leaf :: _ =>
      facts ← certificate_facts leaf;
      _ ← refuse_if (cf_not_after facts <=? now)
            [Lit "serving certificate expired at unix "; Num (cf_not_after facts); Lit " (now "; Num now;
             Lit "); it cannot serve an API server handshake and with failurePolicy: Fail that stops Pod creation cluster-wide"];
      _ ← refuse_if (is_empty (cf_dns_names facts))
            [Lit "serving certificate carries no DNS SAN; the API server dials the webhook by Service name and would reject it"];
      key_bytes ← map_err (fun e => [Lit "tls key: "; Str e]) (fi_key fs);
      key ← map_err (fun e => [Lit "tls key parse: "; Str e]) (pem_key key_bytes);
      config ← map_err (fun e => [Lit "tls config: "; Str e]) (server_config certs key);
      Ok (config, facts)
  end.

(** [check_expiry]: one warning per material. *)
Definition check_expiry (now : Z) (s : TlsSource) : TlsSource :=
  let l := ts_loaded s in
  if lo_warned l || negb (expires_within_days (lo_facts l) now SERVING_CERT_WARN_DAYS) then s
  else
    let s := with_loaded s {| lo_config := lo_config l; lo_facts := lo_facts l; lo_warned := true |} (ts_previous s) in
    with_counts s (ts_reload_failures s) (inc64 (ts_expiry_warnings s)) (ts_rollbacks s) (ts_mount_unreadable s) (ts_mount_absent s).

(** [TlsSource::load]. *)
Definition tls_load (fs : Files) (now now_expiry : Z) : result msg TlsSource :=
  '(config, facts) ← read_serving_material fs now;
  Ok (check_expiry now_expiry
        {| ts_loaded := {| lo_config := config; lo_facts := facts; lo_warned := false |}; ts_pinned_issuer := cf_issuer facts;
           ts_previous := None; ts_reload_failures := 0; ts_expiry_warnings := 0; ts_rollbacks := 0; ts_mount_unreadable := 0;
           ts_mount_absent := 0 |}).

(** [TlsSource::reload]: the swap, or a count and the old material. *)
Definition tls_reload (fs : Files) (now now_expiry : Z) (s : TlsSource) : result msg unit * TlsSource :=
  let previous := lo_facts (ts_loaded s) in
  match read_serving_material fs now with
  | Err e => (Err e, count_failure s)
  | Ok (config, facts) =>
      if negb (covers_names facts (cf_dns_names previous)) then
        (Err [Lit "new serving certificate covers "; Names (cf_dns_names facts);
              Lit ", which drops names the current one serves "; Names (cf_dns_names previous)], count_failure s)
      else if negb (bool_decide (cf_issuer facts = ts_pinned_issuer s)) then
        (Err [Lit "new serving certificate was issued by "; Str (issuer_label (cf_issuer facts)); Lit ", not by ";
              Str (issuer_label (ts_pinned_issuer s));
              Lit " which signed the certificate this process started with; the API server trusts one caBundle and would reject it"],
         count_failure s)
      else
        (Ok tt, check_expiry now_expiry
                  (with_loaded s {| lo_config := config; lo_facts := facts; lo_warned := false |} (Some (ts_loaded s))))
  end.

(** [TlsSource::roll_back]. *)
Definition roll_back (now : Z) (s : TlsSource) : result msg unit * TlsSource :=
  match ts_previous s with
  | None => (Err [Lit "no previous serving material to roll back to"], s)
  | Some candidate =>
      if cf_not_after (lo_facts candidate) <=? now then
        (Err [Lit "previous serving certificate expired at unix "; Num (cf_not_after (lo_facts candidate));
              Lit "; there is nothing to roll back to"], with_loaded s (ts_loaded s) None)
      else
        let s := with_loaded s candidate None in
        (Ok tt, with_counts s (ts_reload_failures s) (ts_expiry_warnings s) (inc64 (ts_rollbacks s)) (ts_mount_unreadable s)
                  (ts_mount_absent s))
  end.

Definition is_stale_rotation (before after : CertFacts) (now : Z) : bool :=
  expires_within_days after now SERVING_CERT_WARN_DAYS && negb (expires_within_days before now SERVING_CERT_WARN_DAYS).

(** ** The poll loop *)

Definition MaterialStat : Type := MountStat (FileStamp * FileStamp).
Definition material_stat (cert key : Metadata) : MaterialStat :=
  match stat_one cert, stat_one key with
  | Unreadable, _ | _, Unreadable => Unreadable
  | Present cert, Present key => Present (cert, key)
  | _, _ => Absent
  end.

(** What one turn sees: the two stats, the files as they are opened, and its clock
    readings in order (the expiry check, the read, the check after a swap, the judgement
    of the rotation, the rollback). *)
Record CertTurn : Type := {
  ct_cert_meta : Metadata; ct_key_meta : Metadata; ct_files : Files;
  ct_now_check : Z; ct_now_read : Z; ct_now_swap : Z; ct_now_judge : Z; ct_now_roll : Z
}.

Definition poll_turn (t : CertTurn) (st : option MaterialStat * TlsSource) : option MaterialStat * TlsSource :=
  let '(stat, s) := st in
  let s := check_expiry (ct_now_check t) s in
  let next := material_stat (ct_cert_meta t) (ct_key_meta t) in
  if bool_decide (Some next = stat) then (stat, s) else
  match next with
  | Absent =>
      (Some next, with_counts s (ts_reload_failures s) (ts_expiry_warnings s) (ts_rollbacks s) (ts_mount_unreadable s)
                    (inc64 (ts_mount_absent s)))
  | Unreadable =>
      (Some next, with_counts s (ts_reload_failures s) (ts_expiry_warnings s) (ts_rollbacks s) (inc64 (ts_mount_unreadable s))
                    (ts_mount_absent s))
  | Present _ =>
      let before := lo_facts (ts_loaded s) in
      match tls_reload (ct_files t) (ct_now_read t) (ct_now_swap t) s with
      | (Err _, s) => (Some next, s)
      | (Ok _, s) =>
          let after := lo_facts (ts_loaded s) in
          if is_stale_rotation before after (ct_now_judge t) then (Some next, snd (roll_back (ct_now_roll t) s))
          else (Some next, s)
      end
  end.

Definition poll_run (ts : list CertTurn) (st : option MaterialStat * TlsSource) : option MaterialStat * TlsSource :=
  foldl (fun st t => poll_turn t st) st ts.

(** ** What is served *)

(** Material that [read_material] accepted at some time. *)
Definition accepted (l : Loaded) : Prop :=
  exists fs now, read_serving_material fs now = Ok (lo_config l, lo_facts l) /\ now < cf_not_after (lo_facts l).

(** The material in place and the one it replaced come from the pinned issuer and cover
    the names the process started with. *)
Definition serves (names : list string) (s : TlsSource) (l : Loaded) : Prop :=
  accepted l /\ cf_issuer (lo_facts l) = ts_pinned_issuer s /\ names ⊆ cf_dns_names (lo_facts l).
Definition source_ok (names : list string) (issuer : Issuer) (s : TlsSource) : Prop :=
  ts_pinned_issuer s = issuer /\ serves names s (ts_loaded s) /\
  match ts_previous s with Some l => serves names s l | None => True end.

Lemma read_material_accepts fs now config facts : read_serving_material fs now = Ok (config, facts) ->
  now < cf_not_after facts /\ cf_dns_names facts <> [].
Proof.
  unfold read_serving_material. destruct (map_err _ (fi_cert fs)) as [cb|]; [|done]. cbn [mbind result_mbind].
  destruct (map_err _ (pem_certs cb)) as [[|leaf certs]|]; [done| |done]. cbn [mbind result_mbind].
  destruct (certificate_facts leaf) as [f|]; [|done]. cbn [mbind result_mbind].
  unfold refuse_if. destruct (Z.leb_spec (cf_not_after f) now); [done|]. cbn [mbind result_mbind].
  destruct (is_empty (cf_dns_names f)) eqn:He; [done|]. cbn [mbind result_mbind].
  destruct (map_err _ (fi_key fs)) as [kb|]; [|done]. cbn [mbind result_mbind].
  destruct (map_err _ (pem_key kb)) as [key|]; [|done]. cbn [mbind result_mbind].
  destruct (map_err _ (server_config _ _)) as [c|]; [|done]. cbn [mbind result_mbind]. intros [= <- <-].
  split; [done|]. intros E. by rewrite E in He.
Qed.

Lemma covers_names_subset f names : covers_names f names = true <-> names ⊆ cf_dns_names f.
Proof.
  unfold covers_names. rewrite forallb_true_Forall, Forall_forall. split; intros H n Hn; apply list_contains_elem; by apply H.
Qed.

(** The expiry check changes nothing but the flag of the loaded material. *)
Lemma check_expiry_loaded now s :
  lo_config (ts_loaded (check_expiry now s)) = lo_config (ts_loaded s) /\
  lo_facts (ts_loaded (check_expiry now s)) = lo_facts (ts_loaded s) /\
  ts_previous (check_expiry now s) = ts_previous s /\ ts_pinned_issuer (check_expiry now s) = ts_pinned_issuer s /\
  ts_reload_failures (check_expiry now s) = ts_reload_failures s /\ ts_rollbacks (check_expiry now s) = ts_rollbacks s /\
  ts_mount_unreadable (check_expiry now s) = ts_mount_unreadable s /\ ts_mount_absent (check_expiry now s) = ts_mount_absent s.
Proof. unfold check_expiry. by destruct (_ || _). Qed.

Lemma source_ok_same names issuer s s' :
  lo_config (ts_loaded s') = lo_config (ts_loaded s) -> lo_facts (ts_loaded s') = lo_facts (ts_loaded s) ->
  ts_previous s' = ts_previous s -> ts_pinned_issuer s' = ts_pinned_issuer s ->
  source_ok names issuer s -> source_ok names issuer s'.
Proof.
  intros Hc Hf Hp Hi (H1 & (Ha & Hs & Hn) & H3). unfold source_ok, serves, accepted in *. rewrite Hp, Hi, Hc, Hf. done.
Qed.

Lemma check_expiry_ok names issuer now s : source_ok names issuer s -> source_ok names issuer (check_expiry now s).
Proof. destruct (check_expiry_loaded now s) as (Hc & Hf & Hp & Hi & _). by apply source_ok_same. Qed.

Lemma reload_ok names issuer fs now now' s : source_ok names issuer s ->
  source_ok names issuer (snd (tls_reload fs now now' s)) /\ ts_rollbacks (snd (tls_reload fs now now' s)) = ts_rollbacks s.
Proof.
  intros Hok. unfold tls_reload. destruct (read_serving_material fs now) as [[config facts]|e] eqn:Er;
    [|split; [by apply (source_ok_same _ _ s)|done]].
  destruct (covers_names facts _) eqn:Ec; [|split; [by apply (source_ok_same _ _ s)|done]]. cbn [negb].
  destruct (bool_decide_reflect (cf_issuer facts = ts_pinned_issuer s)) as [Ei|];
    [|split; [by apply (source_ok_same _ _ s)|done]]. cbn [negb snd]. split.
  - apply check_expiry_ok. destruct Hok as (H1 & (Ha & Hs & Hn) & _). split; [done|]. split.
    + split; [|split]; cbn.
      * exists fs, now. split; [done|]. by apply read_material_accepts in Er as [? _].
      * done.
      * apply covers_names_subset in Ec. by etrans.
    + done.
  - match goal with |- ts_rollbacks (check_expiry ?n ?x) = _ => by destruct (check_expiry_loaded n x) as (_ & _ & _ & _ & _ & -> & _) end.
Qed.

Lemma roll_back_ok names issuer now s : source_ok names issuer s -> source_ok names issuer (snd (roll_back now s)).
Proof.
  intros (H1 & H2 & H3). unfold roll_back. destruct (ts_previous s) as [l|] eqn:Ep; cbn [snd].
  - destruct (_ <=? now); cbn [snd].
    + split; [done|]. by split.
    + split; [done|]. by split.
  - split; [done|]. rewrite Ep. by split.
Qed.

Lemma poll_turn_ok names issuer t st : source_ok names issuer (snd st) -> source_ok names issuer (snd (poll_turn t st)).
Proof.
  destruct st as [stat s]. cbn [snd]. intros Hs. unfold poll_turn. pose proof (check_expiry_ok _ _ (ct_now_check t) _ Hs) as Hs1.
  destruct (bool_decide _); [done|]. destruct (material_stat _ _) as [|p|]; cbn [snd].
  - by apply (source_ok_same _ _ (check_expiry (ct_now_check t) s)).
  - destruct (reload_ok _ _ (ct_files t) (ct_now_read t) (ct_now_swap t) _ Hs1) as [Hr _].
    destruct (tls_reload _ _ _ _) as [[u|e] s2]; cbn [snd] in *; [|done].
    destruct (is_stale_rotation _ _ _); [by apply roll_back_ok|done].
  - by apply (source_ok_same _ _ (check_expiry (ct_now_check t) s)).
Qed.

Lemma poll_run_ok names issuer ts st : source_ok names issuer (snd st) -> source_ok names issuer (snd (poll_run ts st)).
Proof. revert st. induction ts as [|t ts IH]; intros st Hs; [done|]. by apply IH, poll_turn_ok. Qed.

(** ** One turn *)

(** What a turn that sees new material should do with it. *)
Inductive Rotation : Type := Refused | Swapped (l : Loaded) | UndoneStale.

Definition judge (t : CertTurn) (s : TlsSource) : Rotation :=
  match read_serving_material (ct_files t) (ct_now_read t) with
  | Err _ => Refused
  | Ok (config, facts) =>
      if negb (covers_names facts (cf_dns_names (lo_facts (ts_loaded s)))) || negb (bool_decide (cf_issuer facts = ts_pinned_issuer s)) then Refused
      else if is_stale_rotation (lo_facts (ts_loaded s)) facts (ct_now_judge t) then UndoneStale
      else Swapped {| lo_config := config; lo_facts := facts; lo_warned := false |}
  end.

Definition same_material (l l' : Loaded) : Prop := lo_config l' = lo_config l /\ lo_facts l' = lo_facts l.

Lemma turn_unchanged t stat s : stat = Some (material_stat (ct_cert_meta t) (ct_key_meta t)) \/
    (forall p, material_stat (ct_cert_meta t) (ct_key_meta t) <> Present p) ->
  same_material (ts_loaded s) (ts_loaded (snd (poll_turn t (stat, s)))) /\
  ts_reload_failures (snd (poll_turn t (stat, s))) = ts_reload_failures s.
Proof.
  intros H. unfold poll_turn. destruct (check_expiry_loaded (ct_now_check t) s) as (Hc & Hf & _ & _ & Hr & _).
  destruct (bool_decide_reflect (Some (material_stat (ct_cert_meta t) (ct_key_meta t)) = stat)) as [|Hne]; [done|].
  destruct H as [->|H]; [done|]. destruct (material_stat _ _) as [|p|]; cbn; [done|by destruct (H p)|done].
Qed.

Lemma turn_rotates t stat s p : material_stat (ct_cert_meta t) (ct_key_meta t) = Present p -> stat <> Some (Present p) ->
  let s' := snd (poll_turn t (stat, s)) in
  match judge t s with
  | Refused => same_material (ts_loaded s) (ts_loaded s') /\ ts_reload_failures s' = inc64 (ts_reload_failures s)
  | Swapped l => same_material l (ts_loaded s') /\ ts_reload_failures s' = ts_reload_failures s /\
                 exists old, ts_previous s' = Some old /\ same_material (ts_loaded s) old
  | UndoneStale => ct_now_roll t < cf_not_after (lo_facts (ts_loaded s)) ->
                   same_material (ts_loaded s) (ts_loaded s') /\ ts_rollbacks s' = inc64 (ts_rollbacks s)
  end.
Proof.
  intros Hp Hne. unfold poll_turn, judge. destruct (check_expiry_loaded (ct_now_check t) s) as (Hc & Hf & Hpv & Hi & Hr & Hb & _).
  rewrite Hp. rewrite bool_decide_false by (intros E; by apply Hne). set (s1 := check_expiry _ s) in *.
  unfold tls_reload. rewrite Hf, Hi. destruct (read_serving_material _ _) as [[config facts]|e]; cbn [snd];
    [|by rewrite <- Hr; unfold same_material; rewrite <- Hc, <- Hf].
  destruct (covers_names facts _); cbn [negb orb snd]; [|by rewrite <- Hr; unfold same_material; rewrite <- Hc, <- Hf].
  destruct (bool_decide _); cbn [negb snd]; [|by rewrite <- Hr; unfold same_material; rewrite <- Hc, <- Hf].
  set (s2 := with_loaded s1 _ _). destruct (check_expiry_loaded (ct_now_swap t) s2) as (Hc2 & Hf2 & Hp2 & _ & Hr2 & Hb2 & _).
  rewrite Hf2. cbn [s2 with_loaded ts_loaded lo_facts]. destruct (is_stale_rotation _ _ _); cbn [snd].
  - intros Hlt. unfold roll_back. rewrite Hp2. cbn [with_loaded ts_previous s2].
    rewrite Hf. rewrite (proj2 (Z.leb_gt _ _) Hlt). cbn [snd with_counts with_loaded ts_loaded ts_rollbacks].
    split; [done|]. rewrite Hb2. cbn. by rewrite Hb.
  - split; [done|]. split; [rewrite Hr2; cbn; by rewrite Hr|]. exists (ts_loaded s1). by rewrite Hp2.
Qed.

(** C31: over every run of the poll loop, whatever appears in the mount, whatever the TLS
    library answers and whatever the clock reads: the certificate in place, and the one
    kept to fall back to, were each read, unexpired, by the library into the very
    configuration that is served, name the issuer the process started with, and cover every
    DNS name it started with. A turn changes the material only when the mount carries new
    stamps of both files: it counts a failure and keeps what it has when the new material
    does not read, drops a name or names another issuer; it takes the new material
    otherwise, keeping the old to fall back to; and when the new one is inside the warning
    window while the old is not, the old one serves again. *)
Theorem serving_cert_stays_good fs now now' s0 ts : tls_load fs now now' = Ok s0 ->
  let names := cf_dns_names (lo_facts (ts_loaded s0)) in
  let issuer := cf_issuer (lo_facts (ts_loaded s0)) in
  let st := poll_run ts (None, s0) in
  names <> [] /\ source_ok names issuer (snd st) /\
  forall t, let s' := snd (poll_turn t st) in
    match material_stat (ct_cert_meta t) (ct_key_meta t) with
    | Present p =>
        if bool_decide (fst st = Some (Present p)) then same_material (ts_loaded (snd st)) (ts_loaded s')
        else
          match judge t (snd st) with
          | Refused => same_material (ts_loaded (snd st)) (ts_loaded s') /\ ts_reload_failures s' = inc64 (ts_reload_failures (snd st))
          | Swapped l => same_material l (ts_loaded s') /\ ts_reload_failures s' = ts_reload_failures (snd st) /\
                         exists old, ts_previous s' = Some old /\ same_material (ts_loaded (snd st)) old
          | UndoneStale => ct_now_roll t < cf_not_after (lo_facts (ts_loaded (snd st))) ->
                           same_material (ts_loaded (snd st)) (ts_loaded s') /\ ts_rollbacks s' = inc64 (ts_rollbacks (snd st))
          end
    | _ => same_material (ts_loaded (snd st)) (ts_loaded s')
    end.
Proof.
  intros Hl names issuer st. unfold tls_load in Hl. destruct (read_serving_material fs now) as [[config facts]|e] eqn:Er; [|done].
  cbn [mbind result_mbind] in Hl. injection Hl as Hl.
  match type of Hl with check_expiry _ ?x = _ => set (s1 := x) in Hl; destruct (check_expiry_loaded now' s1) as (Hc & Hf & Hp & Hi & _) end.
  rewrite Hl in Hc, Hf, Hp, Hi. cbn [s1 ts_loaded lo_config lo_facts ts_previous ts_pinned_issuer] in Hc, Hf, Hp, Hi.
  destruct (read_material_accepts _ _ _ _ Er) as [Ha Hn]. split_and!.
  - unfold names. by rewrite Hf.
  - apply poll_run_ok. cbn [snd]. split; [by rewrite Hi; unfold issuer; rewrite Hf|]. cbn [snd]. rewrite Hp. split; [|done].
    split; [|split]; [|unfold issuer; by rewrite Hf, Hi|done]. exists fs, now. by rewrite Hc, Hf.
  - intros t. cbv zeta. replace st with (fst st, snd st) by (by destruct st). cbn [fst snd].
    destruct (material_stat _ _) as [|p|] eqn:Em.
    + apply (turn_unchanged t (fst st) (snd st)). right. intros p. by rewrite Em.
    + destruct (bool_decide_reflect (fst st = Some (Present p))) as [E|E].
      * apply (turn_unchanged t (fst st) (snd st)). left. by rewrite E, Em.
      * by apply (turn_rotates t (fst st) (snd st) p).
    + apply (turn_unchanged t (fst st) (snd st)). right. intros p. by rewrite Em.
Qed.
End source.

(** ** A rotation, a foreign issuer, and a read that fails once *)

#[local] Instance toy_tls : TlsLib nat := {
  pem_certs bytes := Ok [bytes];
  pem_key bytes := Ok bytes;
  server_config certs key := Ok (length (concat certs))
}.
#[local] Instance toy_time : TimeText := {
  parse_time_text raw format :=
    if str_eqb raw "300101000000Z" then Ok 1893456000 else if str_eqb raw "310101000000Z" then Ok 1924992000 else Err "unreadable"
}.

Definition toy_cert (not_after : string) (issuer : list Z) (names : list string) : list Z :=
  enc_certificate {|
    ce_version := Some [2; 1; 2]; ce_serial := [5]; ce_signature := []; ce_issuer := issuer;
    ce_not_before := {| tv_tag := 0x17; tv_value := as_bytes "250101000000Z" |};
    ce_not_after := {| tv_tag := 0x17; tv_value := as_bytes not_after |};
    ce_subject := []; ce_public_key := [7]; ce_unique_ids := [];
    ce_extensions := Some [{| x_critical := None; x_body := XSan (map (fun n => (0x82, as_bytes n)) names) |}];
    ce_signed := [] |}.
Definition toy_files (cert : list Z) : Files := {| fi_cert := Ok cert; fi_key := Ok [1] |}.
Definition toy_turn (stamp : Z) (fs : Files) (now : Z) : CertTurn :=
  {| ct_cert_meta := MetaFile (Some stamp) 10; ct_key_meta := MetaFile (Some stamp) 10; ct_files := fs;
     ct_now_check := now; ct_now_read := now; ct_now_swap := now; ct_now_judge := now; ct_now_roll := now |}.

Definition first_cert : list Z := toy_cert "300101000000Z" [1] ["webhook.svc"].
Definition next_cert : list Z := toy_cert "310101000000Z" [1] ["webhook.svc"; "webhook"].
Definition foreign_cert : list Z := toy_cert "310101000000Z" [2] ["webhook.svc"].

Definition toy_start : TlsSource :=
  match tls_load (toy_files first_cert) 1800000000 1800000000 with
  | Ok s => s
  | Err _ => {| ts_loaded := {| lo_config := 0%nat; lo_facts := {| cf_not_after := 0; cf_dns_names := [];
                  cf_issuer := {| is_name_der := []; is_key_id := None |} |}; lo_warned := false |};
                ts_pinned_issuer := {| is_name_der := []; is_key_id := None |}; ts_previous := None; ts_reload_failures := 0;
                ts_expiry_warnings := 0; ts_rollbacks := 0; ts_mount_unreadable := 0; ts_mount_absent := 0 |}
  end.

Example serving_cert_witness :
  let st := poll_run [toy_turn 1 (toy_files foreign_cert) 1800000100] (None, toy_start) in
  source_ok ["webhook.svc"] {| is_name_der := [0x30; 1; 1]; is_key_id := None |} (snd st) /\
  ts_reload_failures (snd st) = 1 /\
  cf_not_after (lo_facts (ts_loaded (snd (poll_turn (toy_turn 2 (toy_files next_cert) 1800000200) st)))) = 1924992000.
Proof.
  destruct (serving_cert_stays_good (toy_files first_cert) 1800000000 1800000000 toy_start
    [toy_turn 1 (toy_files foreign_cert) 1800000100]) as (_ & Hok & Ht); [vm_compute; reflexivity|].
  split; [exact Hok|]. split; [vm_compute; reflexivity|].
  specialize (Ht (toy_turn 2 (toy_files next_cert) 1800000200)). vm_compute in Ht. destruct Ht as [[_ H] _].
  exact (f_equal cf_not_after H).
Defined.

(** The stamps are remembered before the material is read: a read that fails once is not
    tried again, although the mount then holds a good certificate, until the mount changes. *)
Lemma failed_rotation_not_retried :
  let broken := {| fi_cert := Err "Input/output error"; fi_key := Ok [1] |} in
  let st := poll_run (toy_turn 1 broken 1800000100 :: repeat (toy_turn 1 (toy_files next_cert) 1800000200) 50) (None, toy_start) in
  cf_not_after (lo_facts (ts_loaded (snd st))) = 1893456000 /\ ts_reload_failures (snd st) = 1.
Proof. vm_compute. done. Qed.
