(* ===== verification/X509.v ===== *)
(** * The certificates of the webhook, issued and checked offline

    [crates/ferrum-crypto/src/x509.rs]: the base64 codec, the PEM reader, the checks of a
    serving certificate against its CA, the lifetimes. A certificate parsed by x509-parser
    is a record of what the code asks of it; building and signing one (rcgen) is a
    parameter: it is given the parameters the code fills in. A [SystemTime] is a number of
    nanoseconds since the epoch, and every reading of the clock an argument of its own. *)

From S2P Require Import Prelude RustStd RustText Ids Compiler Journal Encoding.

Definition MAX_SERVING_CERT_DAYS : Z := 398.
Definition X509_WARN_DAYS : Z := 30.
Definition X509_DAY_SECS : Z := 86400.
Definition NANOS : Z := 1000000000.
Definition NOT_BEFORE_BACKDATE : Z := 300 * NANOS.

Record CaMaterial : Type := { ca_cert_pem : string; ca_key_pem : string }.
Record ServingMaterial : Type := { sv_cert_pem : string; sv_key_pem : string; sv_dns_names : list string }.

Definition service_dns_names (service namespace : string) : list string :=
  [service; service +:+ "." +:+ namespace; service +:+ "." +:+ namespace +:+ ".svc";
   service +:+ "." +:+ namespace +:+ ".svc.cluster.local"].

(** ** Base64 *)

(** [base64_encode]: the table and the grouping of the admission encoder. *)
Definition x_base64_encode (data : list Z) : list Z := b64_encode data.

(** The state of the decoder's loop; [acc] is a [u32]. *)
Record B64State : Type := { bs_acc : Z; bs_bits : Z; bs_pad : Z; bs_chars : Z; bs_out : list Z }.
Definition b64_start : B64State := {| bs_acc := 0; bs_bits := 0; bs_pad := 0; bs_chars := 0; bs_out := [] |}.

(** One sextet. *)
Definition b64_push (v : Z) (s : B64State) : B64State :=
  let acc := Z.lor (Z.shiftl (bs_acc s) 6 mod U32) v in
  let bits := bs_bits s + 6 in
  if 8 <=? bits
  then {| bs_acc := acc; bs_bits := bits - 8; bs_pad := bs_pad s; bs_chars := bs_chars s + 1;
          bs_out := bs_out s ++ [Z.shiftr acc (bits - 8) mod U8] |}
  else {| bs_acc := acc; bs_bits := bits; bs_pad := bs_pad s; bs_chars := bs_chars s + 1; bs_out := bs_out s |}.

(** One character; a character of more than one byte is refused at its first byte. *)
Definition b64_stream_step (s : B64State) (c : Z) : Result B64State :=
  if is_ascii_whitespace c then Ok s
  else if c =? 61 then
    if 2 <? bs_pad s + 1 then Err (Integrity [Lit "too much base64 padding"])
    else Ok {| bs_acc := bs_acc s; bs_bits := bs_bits s; bs_pad := bs_pad s + 1; bs_chars := bs_chars s + 1; bs_out := bs_out s |}
  else if 0 <? bs_pad s then Err (Integrity [Lit "base64 padding is followed by more data"])
  else match b64_val c with
       | Ok v => Ok (b64_push v s)
       | Err _ => Err (Integrity [Lit "invalid base64 character "; Num c])
       end.

Fixpoint b64_stream (s : B64State) (l : list Z) : Result B64State :=
  match l with [] => Ok s | c :: l' => s ← b64_stream_step s c; b64_stream s l' end.

Definition x_base64_decode (data : list Z) : Result (list Z) :=
  s ← b64_stream b64_start data;
  _ ← refuse_if (negb (bs_chars s mod 4 =? 0)) (Integrity [Lit "base64 length is not a multiple of 4"]);
  _ ← refuse_if (negb (Z.land (bs_acc s) (Z.shiftl 1 (bs_bits s) - 1) =? 0)) (Integrity [Lit "base64 has non-zero trailing bits"]);
  Ok (bs_out s).

(** ** PEM *)

Definition PEM_BEGIN : list Z := as_bytes "-----BEGIN CERTIFICATE-----".
Definition PEM_END : list Z := as_bytes "-----END CERTIFICATE-----".

Definition pem_line (st : list (list Z) * option (list Z)) (line : list Z) : Result (list (list Z) * option (list Z)) :=
  let '(out, body) := st in
  let line := trim_bytes line in
  if is_empty line then Ok st
  else if bool_decide (line = PEM_BEGIN) then
    match body with
    | Some _ => Err (Integrity [Lit "nested BEGIN CERTIFICATE in PEM"])
    | None => Ok (out, Some [])
    end
  else if bool_decide (line = PEM_END) then
    match body with
    | None => Err (Integrity [Lit "END CERTIFICATE without BEGIN in PEM"])
    | Some b64 =>
        der ← x_base64_decode b64;
        _ ← refuse_if (is_empty der) (Integrity [Lit "empty CERTIFICATE block"]);
        Ok (out ++ [der], None)
    end
  else match body with
       | Some b => Ok (out, Some (b ++ line))
       | None => Err (Integrity [Lit "PEM holds a block that is not a CERTIFICATE"])
       end.

Fixpoint pem_lines (st : list (list Z) * option (list Z)) (lines : list (list Z)) : Result (list (list Z) * option (list Z)) :=
  match lines with [] => Ok st | l :: lines' => st ← pem_line st l; pem_lines st lines' end.

Definition pem_certificates (pem : string) : Result (list (list Z)) :=
  '(out, body) ← pem_lines ([], None) (lines_of (as_bytes pem));
  _ ← refuse_if (match body with Some _ => true | None => false end) (Integrity [Lit "unterminated CERTIFICATE block in PEM"]);
  _ ← refuse_if (is_empty out) (Integrity [Lit "PEM holds no CERTIFICATE block"]);
  Ok out.

Definition single (ders : list (list Z)) (what : string) : Result (list Z) :=
  match ders with
  | [der] => Ok der
  | _ => Err (Integrity [Str what; Lit " PEM holds "; Num (len ders); Lit " certificates, expected exactly one"])
  end.

(** ** Certificates *)

Inductive GeneralName : Type := DNSName (d : string) | OtherName.

(** A name: its bytes, its rendering and its attributes, each with an OID that may not be
    readable and a value that may not be text. *)
Record X509Attr : Type := { at_oid : option (list Z); at_str : result string string }.
Record X509Name : Type := { xn_raw : list Z; xn_text : string; xn_rdns : list (list X509Attr) }.

(** What x509-parser answers of one certificate. *)
Record X509Certificate : Type := {
  xc_is_ca : bool;
  xc_issuer : X509Name;
  xc_subject : X509Name;
  xc_not_before : Z;
  xc_not_after : Z;
  xc_extended_key_usage : result string (option bool);
  xc_subject_alternative_name : result string (option (list GeneralName));
  xc_public_key : list Z;
  xc_verify_signature : list Z -> result string unit
}.

Class X509Lib : Type := { from_der : list Z -> result string X509Certificate }.

Section x509.
Context `{X : X509Lib}.

Definition parse_certificate (what : string) (der : list Z) : Result X509Certificate :=
  map_err (fun e => Integrity [Str what; Lit " is not a valid certificate: "; Str e]) (from_der der).

Definition dns_san (cert : X509Certificate) : Result (list string) :=
  san ← (map_err (fun e => Integrity [Lit "unreadable subjectAltName: "; Str e]) (xc_subject_alternative_name cert) : Result (option (list GeneralName)));
  match san with
  | None => Ok []
  | Some names => Ok (omap (M:=list) (fun n => match n with DNSName d => Some d | OtherName => None end) names)
  end.

Definition verify_chain (serving : ServingMaterial) (ca : CaMaterial) : Result unit :=
  ca_pems ← pem_certificates (ca_cert_pem ca); ca_der ← single ca_pems "CA";
  leaf_pems ← pem_certificates (sv_cert_pem serving); leaf_der ← single leaf_pems "serving certificate";
  ca_cert ← parse_certificate "CA" ca_der;
  leaf ← parse_certificate "serving certificate" leaf_der;
  _ ← refuse_if (negb (xc_is_ca ca_cert)) (Integrity [Lit "issuer certificate has no basicConstraints CA:TRUE"]);
  _ ← refuse_if (xc_is_ca leaf) (Integrity [Lit "serving certificate carries basicConstraints CA:TRUE"]);
  _ ← refuse_if (negb (bool_decide (xn_raw (xc_issuer leaf) = xn_raw (xc_subject ca_cert))))
        (Integrity [Lit "serving certificate issuer '"; Str (xn_text (xc_issuer leaf)); Lit "' is not the CA subject '"; Str (xn_text (xc_subject ca_cert)); Lit "'"]);
  _ ← refuse_if ((xc_not_before leaf <? xc_not_before ca_cert) || (xc_not_after ca_cert <? xc_not_after leaf))
        (Integrity [Lit "serving certificate validity "; Time (xc_not_before leaf); Lit " .. "; Time (xc_not_after leaf);
                    Lit " is not contained in the CA's "; Time (xc_not_before ca_cert); Lit " .. "; Time (xc_not_after ca_cert)]);
  eku ← map_err (fun e => Integrity [Lit "unreadable extendedKeyUsage: "; Str e]) (xc_extended_key_usage leaf);
  _ ← match eku with
      | Some true => Ok tt
      | Some false => Err (Integrity [Lit "serving certificate extendedKeyUsage does not include serverAuth"])
      | None => Err (Integrity [Lit "serving certificate has no extendedKeyUsage extension"])
      end;
  san ← dns_san leaf;
  _ ← refuse_if (is_empty san) (Integrity [Lit "serving certificate has an empty DNS SAN"]);
  _ ← refuse_if (negb (bool_decide (san = sv_dns_names serving)))
        (Integrity [Lit "serving certificate SAN "; Names san; Lit " is not the material's "; Names (sv_dns_names serving)]);
  map_err (fun e => Integrity [Lit "serving certificate is not signed by this CA: "; Str e]) (xc_verify_signature leaf (xc_public_key ca_cert)).

Definition verify_issued_pair (ca_cert leaf_cert : string) : Result unit :=
  pems ← pem_certificates leaf_cert; der ← single pems "serving certificate";
  leaf ← parse_certificate "serving certificate" der;
  dns_names ← dns_san leaf;
  verify_chain {| sv_cert_pem := leaf_cert; sv_key_pem := ""; sv_dns_names := dns_names |}
    {| ca_cert_pem := ca_cert; ca_key_pem := "" |}.

(** [days_until_expiry] and [expires_within] at the time [now]. *)
Definition clock_secs (now : Z) : Result Z :=
  if now <? 0 then Err (Integrity [Lit "system clock is before the epoch"]) else Ok (now / NANOS).

Definition days_until_expiry (cert_pem : string) (now : Z) : Result Z :=
  pems ← pem_certificates cert_pem; der ← single pems "certificate";
  cert ← map_err (fun e => Integrity [Lit "not a valid certificate: "; Str e]) (from_der der);
  now ← clock_secs now;
  Ok ((xc_not_after cert - now) / X509_DAY_SECS).

(** [as i64] of a [u64], and the saturating addition. *)
Definition to_i64 (n : Z) : Z := if n <? 2 ^ 63 then n else n - 2 ^ 64.
Definition saturating_i64 (n : Z) : Z := Z.max (- 2 ^ 63) (Z.min (2 ^ 63 - 1) n).

Definition expires_within (cert_pem : string) (within : Z) (now : Z) : Result bool :=
  pems ← pem_certificates cert_pem; der ← single pems "certificate";
  cert ← map_err (fun e => Integrity [Lit "not a valid certificate: "; Str e]) (from_der der);
  now ← clock_secs now;
  Ok (xc_not_after cert <=? saturating_i64 (now + to_i64 within)).

(** [check_lifetime] at the time [now]. *)
Definition check_lifetime (not_after now : Z) : Result unit :=
  _ ← refuse_if (not_after <? now) (Validation [Lit "notAfter is in the past"]);
  let days := (not_after - now) / NANOS / X509_DAY_SECS in
  refuse_if (MAX_SERVING_CERT_DAYS <? days)
    (Validation [Lit "requested lifetime of "; Num days; Lit " days exceeds the "; Num MAX_SERVING_CERT_DAYS; Lit "-day maximum"]).

(** ** Issuance *)

Inductive DnType : Type :=
| CommonName | CountryName | LocalityName | StateOrProvinceName | OrganizationName | OrganizationalUnitName
| CustomDnType (oid : list Z).
Inductive IsCa : Type := ExplicitNoCa | Ca (path_len : Z).
Inductive KeyUsagePurpose : Type := KeyCertSign | CrlSign | DigitalSignature | KeyEncipherment.
Inductive ExtendedKeyUsagePurpose : Type := ServerAuth.

(** The pushes that make a [DistinguishedName], in order; every value is a UTF-8 string. *)
Definition DistinguishedName : Type := list (DnType * string).

(** The fields the code sets; [None] is the default of the library. *)
Record CertificateParams : Type := {
  cp_not_before : option Z;
  cp_not_after : option Z;
  cp_serial_number : option (list Z);
  cp_distinguished_name : DistinguishedName;
  cp_is_ca : IsCa;
  cp_subject_alt_names : list string;
  cp_key_usages : list KeyUsagePurpose;
  cp_extended_key_usages : list ExtendedKeyUsagePurpose
}.

(** rcgen and ring: keys, the ASCII check of a name, and a certificate built and signed,
    as PEM. The issuer of [signed_by] is the parameters and the key it was rebuilt from. *)
Class CertBuilder : Type := {
  Key : Type;
  generate_key : Z -> result string Key;
  key_pem : Key -> string;
  key_from_pem : string -> result string Key;
  ia5 : string -> result string unit;
  self_signed : CertificateParams -> Key -> result string string;
  signed_by : CertificateParams -> Key -> CertificateParams -> Key -> result string string
}.
Context `{B : CertBuilder} (sha256 : list Z -> list Z).

(** 16 bytes of [sha256(seed || nanos)], the top bit cleared; [nanos] is a [u128], 0 for a
    clock before the epoch. *)
Definition be_bytes16 (n : Z) : list Z := map (fun i => Z.shiftr n (8 * i) mod 256) [15; 14; 13; 12; 11; 10; 9; 8; 7; 6; 5; 4; 3; 2; 1; 0].
Definition serial_for (seed : list Z) (now : Z) : list Z :=
  match take 16 (sha256 (seed ++ be_bytes16 (Z.max 0 now))) with
  | b :: rest => Z.land b 0x7f :: rest
  | [] => []
  end.

(** Seconds of a [SystemTime] are an [i64]. *)
Definition not_before (now : Z) : Z :=
  if now - NOT_BEFORE_BACKDATE <? - 2 ^ 63 * NANOS then 0 else now - NOT_BEFORE_BACKDATE.
Definition ferrum_dn (common_name : string) : DistinguishedName := [(CommonName, common_name); (OrganizationName, "FERRUM")].
Definition dns_san_entry (name : string) : Result string :=
  _ ← map_err (fun e => Validation [Lit "SAN "; Str name; Lit " is not IA5: "; Str e]) (ia5 name); Ok name.

Definition issue_ca (common_name : string) (not_after : Z) (t_check t_before t_serial rng : Z) : Result CaMaterial :=
  _ ← refuse_if (str_empty (trim common_name)) (Validation [Lit "CA common name is empty"]);
  _ ← check_lifetime not_after t_check;
  let params := {| cp_not_before := Some (not_before t_before); cp_not_after := Some not_after;
                   cp_serial_number := Some (serial_for (as_bytes common_name) t_serial);
                   cp_distinguished_name := ferrum_dn common_name; cp_is_ca := Ca 0; cp_subject_alt_names := [];
                   cp_key_usages := [KeyCertSign; CrlSign; DigitalSignature]; cp_extended_key_usages := [] |} in
  key ← map_err (fun e => Integrity [Lit "CA key generation failed: "; Str e]) (generate_key rng);
  cert ← map_err (fun e => Integrity [Lit "CA generation failed: "; Str e]) (self_signed params key);
  let material := {| ca_cert_pem := cert; ca_key_pem := key_pem key |} in
  pems ← pem_certificates (ca_cert_pem material); der ← single pems "CA";
  parsed ← parse_certificate "CA" der;
  _ ← refuse_if (negb (xc_is_ca parsed)) (Integrity [Lit "generated CA lacks basicConstraints CA:TRUE"]);
  Ok material.

Definition dn_type (oid : list Z) : DnType :=
  match oid with
  | [2; 5; 4; 3] => CommonName
  | [2; 5; 4; 6] => CountryName
  | [2; 5; 4; 7] => LocalityName
  | [2; 5; 4; 8] => StateOrProvinceName
  | [2; 5; 4; 10] => OrganizationName
  | [2; 5; 4; 11] => OrganizationalUnitName
  | other => CustomDnType other
  end.
Definition rebuild_attr (attr : X509Attr) : Result (DnType * string) :=
  oid ← ok_or (at_oid attr) (Integrity [Lit "unreadable DN attribute OID"]);
  value ← map_err (fun e => Integrity [Lit "unreadable DN attribute: "; Str e]) (at_str attr);
  Ok (dn_type oid, value).
Definition rebuild_dn (name : X509Name) : Result DistinguishedName := try_map rebuild_attr (concat (xn_rdns name)).

Definition load_ca (ca : CaMaterial) : Result (CertificateParams * Key) :=
  key ← map_err (fun e => Integrity [Lit "CA key is unreadable: "; Str e]) (key_from_pem (ca_key_pem ca));
  pems ← pem_certificates (ca_cert_pem ca); der ← single pems "CA";
  parsed ← parse_certificate "CA" der;
  _ ← refuse_if (negb (xc_is_ca parsed)) (Integrity [Lit "issuer certificate has no basicConstraints CA:TRUE"]);
  dn ← rebuild_dn (xc_subject parsed);
  let params := {| cp_not_before := None; cp_not_after := None; cp_serial_number := None; cp_distinguished_name := dn;
                   cp_is_ca := Ca 0; cp_subject_alt_names := []; cp_key_usages := []; cp_extended_key_usages := [] |} in
  _ ← map_err (fun e => Integrity [Lit "CA is unusable as an issuer: "; Str e]) (self_signed params key);
  Ok (params, key).

Definition issue_serving_cert (ca : CaMaterial) (service namespace : string) (not_after : Z) (t_check t_before t_serial rng : Z) : Result ServingMaterial :=
  _ ← refuse_if (str_empty (trim service) || str_empty (trim namespace))
        (Validation [Lit "serving certificate needs a non-empty service and namespace"]);
  let dns_names := service_dns_names service namespace in
  _ ← refuse_if (existsb (fun n => str_empty (trim n)) dns_names)
        (Validation [Lit "serving certificate would carry an empty SAN entry"]);
  _ ← check_lifetime not_after t_check;
  '(issuer, issuer_key) ← load_ca ca;
  sans ← try_map dns_san_entry dns_names;
  let params := {| cp_not_before := Some (not_before t_before); cp_not_after := Some not_after;
                   cp_serial_number := Some (serial_for (as_bytes (String.concat "," dns_names)) t_serial);
                   cp_distinguished_name := ferrum_dn (service +:+ "." +:+ namespace +:+ ".svc"); cp_is_ca := ExplicitNoCa;
                   cp_subject_alt_names := sans; cp_key_usages := [DigitalSignature; KeyEncipherment];
                   cp_extended_key_usages := [ServerAuth] |} in
  key ← map_err (fun e => Integrity [Lit "serving key generation failed: "; Str e]) (generate_key rng);
  cert ← map_err (fun e => Integrity [Lit "serving cert signing failed: "; Str e]) (signed_by params key issuer issuer_key);
  let material := {| sv_cert_pem := cert; sv_key_pem := key_pem key; sv_dns_names := dns_names |} in
  _ ← verify_chain material ca;
  Ok material.
End x509.

(** ** The decoder, group by group *)

Definition byte (b : Z) : Prop := 0 <= b < 256.
Definition sextet (v : Z) : Prop := 0 <= v < 64.

Lemma b64_val_char c v : b64_val c = Ok v -> sextet v /\ c = b64_char v /\ c <> 61 /\ is_ascii_whitespace c = false.
Proof.
  assert (Hall : forallb (fun k => match b64_val (Z.of_nat k) with
     | Ok v => (0 <=? v) && (v <? 64) && (Z.of_nat k =? b64_char v) && negb (Z.of_nat k =? 61) && negb (is_ascii_whitespace (Z.of_nat k))
     | Err _ => true end) (seq 0 128) = true) by (vm_compute; reflexivity).
  intros Hv. assert (Hc : 0 <= c < 128).
  { unfold b64_val, in_range in Hv. repeat (case_match; [lia|]). done. }
  rewrite forallb_forall in Hall. specialize (Hall (Z.to_nat c)). rewrite in_seq, Z2Nat.id in Hall by lia.
  specialize (Hall ltac:(lia)). rewrite Hv in Hall. bool_hyps. unfold sextet. split_and!; done || lia.
Qed.

Lemma b64_val_of_char v : sextet v -> b64_val (b64_char v) = Ok v.
Proof. intros H. by apply b64_char_val. Qed.

Definition acc_ok (s : B64State) : Prop := 0 <= bs_acc s < U32.

Lemma push_acc acc v : 0 <= acc -> sextet v -> Z.lor (Z.shiftl acc 6 mod U32) v = acc * 64 mod U32 + v.
Proof.
  intros Ha Hv. unfold sextet in Hv. rewrite Z.shiftl_mul_pow2 by done. change (2 ^ 6) with 64.
  assert (E : acc * 64 mod U32 = Z.shiftl (acc mod 67108864) 6).
  { rewrite Z.shiftl_mul_pow2 by done. change U32 with (67108864 * 64). by rewrite Z.mul_mod_distr_r. }
  rewrite E, lor_shift by (done || lia). rewrite Z.shiftl_mul_pow2 by done. lia.
Qed.

Definition b64_pushed (s : B64State) (acc bits n : Z) (out : list Z) : B64State :=
  {| bs_acc := acc; bs_bits := bits; bs_pad := bs_pad s; bs_chars := bs_chars s + n; bs_out := bs_out s ++ out |}.

(** The bits still to be written, below [bs_bits]. *)
Definition low (s : B64State) (bits r : Z) : Prop := acc_ok s /\ bs_bits s = bits /\ bs_acc s mod 2 ^ bits = r.

Lemma push_first s v : low s 0 0 -> sextet v -> exists acc, low (b64_push v s) 6 v /\ b64_push v s = b64_pushed s acc 6 1 [].
Proof.
  intros (Ha & Hb & _) Hv. unfold acc_ok in Ha. unfold b64_push. rewrite Hb.
  change (8 <=? 0 + 6) with false. change (0 + 6) with 6. rewrite push_acc by (done || lia). eexists. split.
  - unfold low, acc_ok. cbn [bs_acc bs_bits]. unfold sextet, U32 in *. change (2 ^ 6) with 64. split_and!; try done; Z.to_euclidean_division_equations; lia.
  - unfold b64_pushed. by rewrite app_nil_r.
Qed.

Lemma push_more s v k r : k = 2 \/ k = 4 \/ k = 6 -> low s k r -> sextet v ->
  exists acc, low (b64_push v s) (k - 2) (v mod 2 ^ (k - 2)) /\ b64_push v s = b64_pushed s acc (k - 2) 1 [(r * 64 + v) / 2 ^ (k - 2)].
Proof.
  intros Hk (Ha & Hb & Hr) Hv. unfold acc_ok in Ha. unfold b64_push. rewrite Hb.
  replace (8 <=? k + 6) with true by lia. replace (k + 6 - 8) with (k - 2) by lia. rewrite push_acc by (done || lia).
  unfold sextet in Hv. eexists. split.
  - unfold low, acc_ok. cbn [bs_acc bs_bits]. unfold U32 in *.
    destruct Hk as [->|[->| ->]]; cbn in *; split_and!; try done; Z.to_euclidean_division_equations; lia.
  - unfold b64_pushed. f_equal. f_equal. f_equal. rewrite Z.shiftr_div_pow2 by lia. unfold U32, U8 in *.
    destruct Hk as [->|[->| ->]]; cbn in *; Z.to_euclidean_division_equations; lia.
Qed.

Lemma b64_pushed_twice s acc bits n out acc' bits' n' out' :
  b64_pushed (b64_pushed s acc bits n out) acc' bits' n' out' = b64_pushed s acc' bits' (n + n') (out ++ out').
Proof. unfold b64_pushed. cbn. f_equal; [lia|by rewrite app_assoc]. Qed.

Lemma push2 s v0 v1 : low s 0 0 -> sextet v0 -> sextet v1 -> exists acc,
  low (b64_push v1 (b64_push v0 s)) 4 (v1 mod 16) /\ b64_push v1 (b64_push v0 s) = b64_pushed s acc 4 2 [v0 * 4 + v1 / 16].
Proof.
  intros Hs H0 H1. destruct (push_first s v0 Hs H0) as (a0 & L0 & E0).
  destruct (push_more _ v1 6 v0 ltac:(lia) L0 H1) as (a1 & L1 & E1). exists a1. split; [exact L1|].
  rewrite E1, E0, b64_pushed_twice. change (2 ^ (6 - 2)) with 16. cbn [app]. f_equal. f_equal. Z.to_euclidean_division_equations. lia.
Qed.

Lemma push3 s v0 v1 v2 : low s 0 0 -> sextet v0 -> sextet v1 -> sextet v2 -> exists acc,
  low (b64_push v2 (b64_push v1 (b64_push v0 s))) 2 (v2 mod 4) /\
  b64_push v2 (b64_push v1 (b64_push v0 s)) = b64_pushed s acc 2 3 [v0 * 4 + v1 / 16; v1 mod 16 * 16 + v2 / 4].
Proof.
  intros Hs H0 H1 H2. destruct (push2 s v0 v1 Hs H0 H1) as (a1 & L1 & E1).
  destruct (push_more _ v2 4 (v1 mod 16) ltac:(lia) L1 H2) as (a2 & L2 & E2). exists a2. split; [exact L2|].
  rewrite E2, E1, b64_pushed_twice. change (2 ^ (4 - 2)) with 4. cbn [app]. do 3 f_equal. Z.to_euclidean_division_equations. lia.
Qed.

Lemma push4 s v0 v1 v2 v3 : low s 0 0 -> sextet v0 -> sextet v1 -> sextet v2 -> sextet v3 -> exists acc,
  low (b64_push v3 (b64_push v2 (b64_push v1 (b64_push v0 s)))) 0 0 /\
  b64_push v3 (b64_push v2 (b64_push v1 (b64_push v0 s))) =
    b64_pushed s acc 0 4 [v0 * 4 + v1 / 16; v1 mod 16 * 16 + v2 / 4; v2 mod 4 * 64 + v3].
Proof.
  intros Hs H0 H1 H2 H3. destruct (push3 s v0 v1 v2 Hs H0 H1 H2) as (a2 & L2 & E2).
  destruct (push_more _ v3 2 (v2 mod 4) ltac:(lia) L2 H3) as (a3 & L3 & E3). exists a3. split.
  - change (2 ^ (2 - 2)) with 1 in L3. by rewrite Z.mod_1_r in L3.
  - rewrite E3, E2, b64_pushed_twice. change (2 ^ (2 - 2)) with 1. rewrite Z.div_1_r. done.
Qed.

(** The encoder, as sextets. *)
Lemma digit_char b0 b1 b2 k : byte b0 -> byte b1 -> byte b2 -> 0 <= k ->
  b64_digit (b64_word b0 b1 b2) k = b64_char ((b0 * 65536 + b1 * 256 + b2) / 2 ^ k mod 64).
Proof. intros H0 H1 H2 Hk. unfold byte, b64_digit in *. rewrite b64_word_val, b64_sextet by lia. done. Qed.

Lemma encode1 v0 v1 : sextet v0 -> sextet v1 -> v1 mod 16 = 0 ->
  b64_encode [v0 * 4 + v1 / 16] = [b64_char v0; b64_char v1; 61; 61].
Proof.
  unfold sextet. intros H0 H1 Hz. set (b0 := v0 * 4 + v1 / 16). assert (Hb : byte b0) by (unfold byte, b0; Z.to_euclidean_division_equations; lia).
  cbn [b64_encode]. rewrite !digit_char by (done || lia). change (2 ^ 18) with 262144. change (2 ^ 12) with 4096.
  unfold b0. repeat f_equal; Z.to_euclidean_division_equations; lia.
Qed.
Lemma encode2 v0 v1 v2 : sextet v0 -> sextet v1 -> sextet v2 -> v2 mod 4 = 0 ->
  b64_encode [v0 * 4 + v1 / 16; v1 mod 16 * 16 + v2 / 4] = [b64_char v0; b64_char v1; b64_char v2; 61].
Proof.
  unfold sextet. intros H0 H1 H2 Hz. cbn [b64_encode].
  rewrite !digit_char by (done || (unfold byte; Z.to_euclidean_division_equations; lia)).
  change (2 ^ 18) with 262144. change (2 ^ 12) with 4096. change (2 ^ 6) with 64.
  repeat f_equal; Z.to_euclidean_division_equations; lia.
Qed.
Lemma encode3 v0 v1 v2 v3 rest : sextet v0 -> sextet v1 -> sextet v2 -> sextet v3 ->
  b64_encode (v0 * 4 + v1 / 16 :: v1 mod 16 * 16 + v2 / 4 :: v2 mod 4 * 64 + v3 :: rest) =
    b64_char v0 :: b64_char v1 :: b64_char v2 :: b64_char v3 :: b64_encode rest.
Proof.
  unfold sextet. intros H0 H1 H2 H3. cbn [b64_encode].
  rewrite !digit_char by (done || (unfold byte; Z.to_euclidean_division_equations; lia)).
  change (2 ^ 18) with 262144. change (2 ^ 12) with 4096. change (2 ^ 6) with 64. change (2 ^ 0) with 1.
  cbn [app]. repeat f_equal; Z.to_euclidean_division_equations; lia.
Qed.

(** ** Whole texts *)

Definition plain (l : list Z) : list Z := List.filter (fun c => negb (is_ascii_whitespace c)) l.

Lemma stream_plain l : forall s, b64_stream s l = b64_stream s (plain l).
Proof.
  induction l as [|c l IH]; intros s; [done|]. unfold plain. cbn [b64_stream List.filter].
  destruct (is_ascii_whitespace c) eqn:E; cbn [negb].
  - unfold b64_stream_step. rewrite E. cbn [mbind result_mbind]. apply IH.
  - cbn [b64_stream]. destruct (b64_stream_step s c) as [s'|e]; [apply IH|done].
Qed.

Lemma step_data s c v : bs_pad s = 0 -> b64_val c = Ok v -> b64_stream_step s c = Ok (b64_push v s).
Proof.
  intros Hp Hv. destruct (b64_val_char _ _ Hv) as (_ & _ & Hne & Hw). unfold b64_stream_step.
  by rewrite Hw, (proj2 (Z.eqb_neq _ _) Hne), Hp, Hv.
Qed.
Lemma step_char s v : bs_pad s = 0 -> sextet v -> b64_stream_step s (b64_char v) = Ok (b64_push v s).
Proof. intros Hp Hv. by apply step_data, b64_val_of_char. Qed.

Lemma push_pad s v : bs_pad (b64_push v s) = bs_pad s /\ bs_chars (b64_push v s) = bs_chars s + 1.
Proof. unfold b64_push. by destruct (8 <=? _). Qed.
Lemma push_pad_0 s v : bs_pad s = 0 -> bs_pad (b64_push v s) = 0.
Proof. by rewrite (proj1 (push_pad s v)). Qed.
#[local] Hint Resolve push_pad_0 : core.

(** What the checks after the loop ask. *)
Definition done_ok (s : B64State) : Prop := Z.land (bs_acc s) (Z.shiftl 1 (bs_bits s) - 1) = 0.

Lemma done_low s k r : 0 <= k -> low s k r -> done_ok s <-> r = 0.
Proof.
  intros Hk (Ha & Hb & Hr). unfold done_ok. rewrite Hb, Z.shiftl_1_l. change (2 ^ k - 1) with (Z.pred (2 ^ k)).
  rewrite <- Z.ones_equiv, Z.land_ones, Hr by done. done.
Qed.

Lemma stream_char s v rest : bs_pad s = 0 -> sextet v -> b64_stream s (b64_char v :: rest) = b64_stream (b64_push v s) rest.
Proof. intros Hp Hv. cbn [b64_stream]. by rewrite step_char. Qed.

Lemma stream_group v0 v1 v2 v3 rest s : bs_pad s = 0 -> sextet v0 -> sextet v1 -> sextet v2 -> sextet v3 ->
  b64_stream s (b64_char v0 :: b64_char v1 :: b64_char v2 :: b64_char v3 :: rest) =
  b64_stream (b64_push v3 (b64_push v2 (b64_push v1 (b64_push v0 s)))) rest.
Proof. intros Hp H0 H1 H2 H3. by rewrite !stream_char by auto. Qed.

(** The padded last group. *)
Definition padded (s : B64State) (n : Z) : B64State :=
  {| bs_acc := bs_acc s; bs_bits := bs_bits s; bs_pad := bs_pad s + n; bs_chars := bs_chars s + n; bs_out := bs_out s |}.

Lemma stream_pads s : bs_pad s = 0 -> b64_stream s [61] = Ok (padded s 1) /\ b64_stream s [61; 61] = Ok (padded s 2).
Proof.
  intros Hp. unfold padded. cbn [b64_stream]. unfold b64_stream_step. change (is_ascii_whitespace 61) with false. change (61 =? 61) with true.
  cbn match. rewrite !Hp. change (2 <? 0 + 1) with false. cbn [mbind result_mbind bs_pad]. change (2 <? 0 + 1 + 1) with false.
  cbn [mbind result_mbind bs_acc bs_bits bs_chars bs_out]. split; [done|]. f_equal. f_equal. lia.
Qed.

Lemma stream_encode data : forall s, Forall byte data -> low s 0 0 -> bs_pad s = 0 ->
  exists s', b64_stream s (b64_encode data) = Ok s' /\ bs_out s' = bs_out s ++ data /\
    bs_chars s' mod 4 = bs_chars s mod 4 /\ done_ok s'.
Proof.
  remember (length data) as m eqn:Hm. revert data Hm. induction (lt_wf m) as [m _ IH]. intros data -> s Hd Hs Hp.
  destruct Hd as [|b0 data0 H0 [|b1 data1 H1 [|b2 data2 H2 Hd]]]; unfold byte in *.
  - exists s. rewrite app_nil_r. split_and!; try done. by apply (done_low s 0 0).
  - set (v0 := b0 / 4). set (v1 := b0 mod 4 * 16).
    assert (E0 : b0 = v0 * 4 + v1 / 16) by (unfold v0, v1; Z.to_euclidean_division_equations; lia).
    assert (S0 : sextet v0) by (unfold sextet, v0; Z.to_euclidean_division_equations; lia).
    assert (S1 : sextet v1) by (unfold sextet, v1; Z.to_euclidean_division_equations; lia).
    assert (Z1 : v1 mod 16 = 0) by (unfold v1; Z.to_euclidean_division_equations; lia).
    destruct (push2 s v0 v1 Hs S0 S1) as (acc & L & E). clearbody v0 v1. subst b0. rewrite encode1 by done.
    rewrite !stream_char by auto.
    destruct (stream_pads (b64_push v1 (b64_push v0 s))) as [_ Hpp]; [auto|]. rewrite Hpp.
    eexists. split; [done|]. rewrite E. cbn. split_and!; [done|Z.to_euclidean_division_equations; lia|].
    rewrite E in L. by apply (done_low _ 4 (v1 mod 16)) in L; [apply L in Z1|].
  - set (v0 := b0 / 4). set (v1 := b0 mod 4 * 16 + b1 / 16). set (v2 := b1 mod 16 * 4).
    assert (E0 : b0 = v0 * 4 + v1 / 16) by (unfold v0, v1; Z.to_euclidean_division_equations; lia).
    assert (E1 : b1 = v1 mod 16 * 16 + v2 / 4) by (unfold v1, v2; Z.to_euclidean_division_equations; lia).
    assert (S0 : sextet v0) by (unfold sextet, v0; Z.to_euclidean_division_equations; lia).
    assert (S1 : sextet v1) by (unfold sextet, v1; Z.to_euclidean_division_equations; lia).
    assert (S2 : sextet v2) by (unfold sextet, v2; Z.to_euclidean_division_equations; lia).
    assert (Z2 : v2 mod 4 = 0) by (unfold v2; Z.to_euclidean_division_equations; lia).
    destruct (push3 s v0 v1 v2 Hs S0 S1 S2) as (acc & L & E). clearbody v0 v1 v2. subst b0 b1. rewrite encode2 by done.
    rewrite !stream_char by auto.
    destruct (stream_pads (b64_push v2 (b64_push v1 (b64_push v0 s)))) as [Hpp _]; [auto|]. rewrite Hpp.
    eexists. split; [done|]. rewrite E. cbn. split_and!; [done|Z.to_euclidean_division_equations; lia|].
    rewrite E in L. by apply (done_low _ 2 (v2 mod 4)) in L; [apply L in Z2|].
  - set (v0 := b0 / 4). set (v1 := b0 mod 4 * 16 + b1 / 16). set (v2 := b1 mod 16 * 4 + b2 / 64). set (v3 := b2 mod 64).
    assert (E0 : b0 = v0 * 4 + v1 / 16) by (unfold v0, v1; Z.to_euclidean_division_equations; lia).
    assert (E1 : b1 = v1 mod 16 * 16 + v2 / 4) by (unfold v1, v2; Z.to_euclidean_division_equations; lia).
    assert (E2 : b2 = v2 mod 4 * 64 + v3) by (unfold v2, v3; Z.to_euclidean_division_equations; lia).
    assert (S0 : sextet v0) by (unfold sextet, v0; Z.to_euclidean_division_equations; lia).
    assert (S1 : sextet v1) by (unfold sextet, v1; Z.to_euclidean_division_equations; lia).
    assert (S2 : sextet v2) by (unfold sextet, v2; Z.to_euclidean_division_equations; lia).
    assert (S3 : sextet v3) by (unfold sextet, v3; Z.to_euclidean_division_equations; lia).
    destruct (push4 s v0 v1 v2 v3 Hs S0 S1 S2 S3) as (acc & L & E). clearbody v0 v1 v2 v3. subst b0 b1 b2. rewrite encode3, stream_group by done.
    destruct (IH (length data2) ltac:(simpl; lia) data2 eq_refl _ Hd L) as (s' & Hs' & Ho & Hc & Hdn); [auto|].
    exists s'. split; [done|]. rewrite Ho, Hc, E. cbn [b64_pushed bs_out bs_chars]. rewrite <- app_assoc.
    split_and!; [done|Z.to_euclidean_division_equations; lia|done].
Qed.

Lemma step_chars s c s' : is_ascii_whitespace c = false -> b64_stream_step s c = Ok s' -> bs_chars s' = bs_chars s + 1.
Proof.
  intros Hw. unfold b64_stream_step. rewrite Hw. destruct (c =? 61).
  - destruct (2 <? _); [done|]. by intros [= <-].
  - destruct (0 <? bs_pad s); [done|]. destruct (b64_val c); [|done]. intros [= <-]. apply push_pad.
Qed.
Lemma stream_chars l : forall s s', Forall (fun c => is_ascii_whitespace c = false) l -> b64_stream s l = Ok s' ->
  bs_chars s' = bs_chars s + len l.
Proof.
  induction l as [|c l IH]; intros s s' Hw; cbn [b64_stream].
  - intros [= <-]. unfold len. simpl. lia.
  - apply Forall_cons_1 in Hw as [Hc Hw]. destruct (b64_stream_step s c) as [s1|e] eqn:E; [|done]. cbn [mbind result_mbind].
    intros H. rewrite (IH _ _ Hw H), (step_chars _ _ _ Hc E). unfold len. simpl. lia.
Qed.

(** Once padding starts, only padding follows, and no more than two. *)
Lemma stream_after_pad l s s' : 0 < bs_pad s -> Forall (fun c => is_ascii_whitespace c = false) l -> b64_stream s l = Ok s' ->
  bs_pad s <= 2 -> l = [] \/ (l = [61] /\ bs_pad s = 1).
Proof.
  intros Hp Hw H Hle. destruct l as [|c l]; [by left|]. right. apply Forall_cons_1 in Hw as [Hc Hw]. cbn [b64_stream] in H.
  unfold b64_stream_step in H. rewrite Hc in H. destruct (Z.eqb_spec c 61) as [->|]; [|by rewrite (proj2 (Z.ltb_lt _ _) Hp) in H].
  destruct (Z.ltb_spec 2 (bs_pad s + 1)); [done|]. cbn [mbind result_mbind] in H. destruct l as [|c' l]; [split; [done|lia]|].
  exfalso. cbn [b64_stream] in H. apply Forall_cons_1 in Hw as [Hc' _]. unfold b64_stream_step in H. rewrite Hc' in H. cbn [bs_pad] in H.
  destruct (c' =? 61); [by rewrite (proj2 (Z.ltb_lt _ _)) in H by lia|]. by rewrite (proj2 (Z.ltb_lt _ _)) in H by lia.
Qed.

(** A character where no padding has been: padding or a sextet. *)
Lemma step_inv s c s' : bs_pad s = 0 -> is_ascii_whitespace c = false -> b64_stream_step s c = Ok s' ->
  (c = 61 /\ bs_pad s' = 1) \/ exists v, sextet v /\ c = b64_char v /\ s' = b64_push v s.
Proof.
  intros Hp Hw. unfold b64_stream_step. rewrite Hw, Hp. destruct (Z.eqb_spec c 61) as [->|].
  - intros [= <-]. by left.
  - cbn [Z.ltb Z.compare]. destruct (b64_val c) as [v|] eqn:E; [|done]. intros [= <-]. right.
    destruct (b64_val_char _ _ E) as (Hs & Hc & _). by exists v.
Qed.

Lemma stream_decode l : forall s s', Forall (fun c => is_ascii_whitespace c = false) l -> low s 0 0 -> bs_pad s = 0 ->
  b64_stream s l = Ok s' -> len l mod 4 = 0 -> done_ok s' ->
  exists data, Forall byte data /\ l = b64_encode data /\ bs_out s' = bs_out s ++ data.
Proof.
  remember (length l) as m eqn:Hm. revert l Hm. induction (lt_wf m) as [m _ IH]. intros l -> s s' Hw Hs Hp H Hl Hd.
  destruct l as [|c0 [|c1 [|c2 [|c3 rest]]]]; try (unfold len in Hl; simpl in Hl; done).
  { injection H as <-. exists []. by rewrite app_nil_r. }
  apply Forall_cons_1 in Hw as [W0 Hw]. apply Forall_cons_1 in Hw as [W1 Hw]. apply Forall_cons_1 in Hw as [W2 Hw].
  pose proof Hw as Hw3. apply Forall_cons_1 in Hw as [W3 Hw].
  cbn [b64_stream] in H. destruct (b64_stream_step s c0) as [s0|] eqn:E0; [|done]. cbn [mbind result_mbind] in H.
  destruct (step_inv _ _ _ Hp W0 E0) as [[-> Hp0]|(v0 & S0 & -> & ->)].
  { destruct (stream_after_pad (c1 :: c2 :: c3 :: rest) s0 s') as [?|[? _]]; [lia|by repeat constructor|done|lia|done|done]. }
  destruct (b64_stream_step (b64_push v0 s) c1) as [s1|] eqn:E1; [|done]. cbn [mbind result_mbind] in H.
  destruct (step_inv _ _ _ (push_pad_0 _ _ Hp) W1 E1) as [[-> Hp1]|(v1 & S1 & -> & ->)].
  { destruct (stream_after_pad (c2 :: c3 :: rest) s1 s') as [?|[? _]]; [lia|by repeat constructor|done|lia|done|done]. }
  destruct (b64_stream_step (b64_push v1 (b64_push v0 s)) c2) as [s2|] eqn:E2; [|done]. cbn [mbind result_mbind] in H.
  destruct (step_inv _ _ _ (push_pad_0 _ _ (push_pad_0 _ _ Hp)) W2 E2) as [[-> Hp2]|(v2 & S2 & -> & ->)].
  { destruct (stream_after_pad (c3 :: rest) s2 s') as [?|[Hr _]]; [lia|by repeat constructor|done|lia|done|].
    injection Hr as -> ->. destruct (push2 s v0 v1 Hs S0 S1) as (acc & L & E).
    assert (Hs' : s' = padded (b64_push v1 (b64_push v0 s)) 2).
    { destruct (stream_pads (b64_push v1 (b64_push v0 s))) as [_ Hpp]; [auto|]. cbn [b64_stream] in Hpp. rewrite E2 in Hpp.
      cbn [mbind result_mbind b64_stream] in Hpp, H. rewrite H in Hpp. by injection Hpp. }
    assert (Z1 : v1 mod 16 = 0). { apply (done_low _ 4 _ ltac:(lia) L). by rewrite Hs' in Hd. }
    exists [v0 * 4 + v1 / 16]. split_and!; [|by rewrite encode1|by rewrite Hs', E].
    repeat constructor; unfold sextet in *; Z.to_euclidean_division_equations; lia. }
  destruct (b64_stream_step (b64_push v2 (b64_push v1 (b64_push v0 s))) c3) as [s3|] eqn:E3; [|done]. cbn [mbind result_mbind] in H.
  destruct (step_inv _ _ _ (push_pad_0 _ _ (push_pad_0 _ _ (push_pad_0 _ _ Hp))) W3 E3) as [[-> Hp3]|(v3 & S3 & -> & ->)].
  { assert (rest = []) as ->.
    { destruct (stream_after_pad rest s3 s') as [?|[-> _]]; [lia|done|done|lia|done|]. unfold len in Hl. by simpl in Hl. }
    destruct (push3 s v0 v1 v2 Hs S0 S1 S2) as (acc & L & E).
    assert (Hs' : s' = padded (b64_push v2 (b64_push v1 (b64_push v0 s))) 1).
    { destruct (stream_pads (b64_push v2 (b64_push v1 (b64_push v0 s)))) as [Hpp _]; [auto|]. cbn [b64_stream] in Hpp. rewrite E3 in Hpp.
      cbn [mbind result_mbind b64_stream] in Hpp, H. rewrite H in Hpp. by injection Hpp. }
    assert (Z2 : v2 mod 4 = 0). { apply (done_low _ 2 _ ltac:(lia) L). by rewrite Hs' in Hd. }
    exists [v0 * 4 + v1 / 16; v1 mod 16 * 16 + v2 / 4]. split_and!; [|by rewrite encode2|by rewrite Hs', E].
    repeat constructor; unfold sextet in *; Z.to_euclidean_division_equations; lia. }
  destruct (push4 s v0 v1 v2 v3 Hs S0 S1 S2 S3) as (acc & L & E).
  destruct (IH (length rest) ltac:(simpl; lia) rest eq_refl _ s' Hw L) as (data & Hdata & -> & Ho);
    [auto|done|unfold len in *; simpl in Hl; Z.to_euclidean_division_equations; lia|done|].
  exists (v0 * 4 + v1 / 16 :: v1 mod 16 * 16 + v2 / 4 :: v2 mod 4 * 64 + v3 :: data). split_and!; [|by rewrite encode3|].
  - repeat constructor; try done; unfold sextet in *; Z.to_euclidean_division_equations; lia.
  - rewrite Ho, E. cbn [b64_pushed bs_out]. by rewrite <- app_assoc.
Qed.

Lemma plain_clean l : Forall (fun c => is_ascii_whitespace c = false) (plain l).
Proof. apply Forall_forall. intros c [_ Hc]%list_elem_of_In%filter_In. by apply negb_true_iff. Qed.
Lemma low_start : low b64_start 0 0.
Proof. done. Qed.

(** The decoder accepts exactly the canonical text of the bytes it answers, with ASCII
    white space anywhere in it. *)
Lemma x_base64_exact text data :
  x_base64_decode text = Ok data <-> Forall byte data /\ plain text = x_base64_encode data.
Proof.
  unfold x_base64_decode, x_base64_encode. rewrite stream_plain. split.
  - destruct (b64_stream b64_start (plain text)) as [s|] eqn:E; [|done]. cbn [mbind result_mbind]. unfold refuse_if.
    pose proof (stream_chars _ _ _ (plain_clean text) E) as Hc. cbn in Hc.
    destruct (Z.eqb_spec (bs_chars s mod 4) 0) as [Hm|]; [|done]. cbn [negb mbind result_mbind].
    destruct (Z.eqb_spec (Z.land (bs_acc s) (Z.shiftl 1 (bs_bits s) - 1)) 0) as [Hd|]; [|done]. cbn [negb mbind result_mbind].
    intros [= <-]. destruct (stream_decode _ _ _ (plain_clean text) low_start eq_refl E) as (data & Hb & Hp & Ho);
      [by rewrite Hc in Hm|done|]. rewrite Ho. done.
  - intros [Hb ->]. destruct (stream_encode data b64_start Hb low_start eq_refl) as (s & -> & Ho & Hc & Hd).
    cbn [mbind result_mbind]. unfold refuse_if. rewrite Hc. change (bs_chars b64_start mod 4 =? 0) with true. cbn [negb mbind result_mbind].
    unfold done_ok in Hd. rewrite Hd, Ho. done.
Qed.

(** ** The PEM reader, block by block *)

(** The lines that count. *)
Definition significant (text : list Z) : list (list Z) := List.filter (fun l => negb (is_empty l)) (map trim_bytes (lines_of text)).

(** One line that is trimmed and not empty. *)
Definition pem_token (st : list (list Z) * option (list Z)) (line : list Z) : Result (list (list Z) * option (list Z)) :=
  let '(out, body) := st in
  if bool_decide (line = PEM_BEGIN) then
    match body with Some _ => Err (Integrity [Lit "nested BEGIN CERTIFICATE in PEM"]) | None => Ok (out, Some []) end
  else if bool_decide (line = PEM_END) then
    match body with
    | None => Err (Integrity [Lit "END CERTIFICATE without BEGIN in PEM"])
    | Some b64 =>
        der ← x_base64_decode b64;
        _ ← refuse_if (is_empty der) (Integrity [Lit "empty CERTIFICATE block"]);
        Ok (out ++ [der], None)
    end
  else match body with
       | Some b => Ok (out, Some (b ++ line))
       | None => Err (Integrity [Lit "PEM holds a block that is not a CERTIFICATE"])
       end.
Fixpoint pem_tokens (st : list (list Z) * option (list Z)) (ls : list (list Z)) : Result (list (list Z) * option (list Z)) :=
  match ls with [] => Ok st | l :: ls' => st ← pem_token st l; pem_tokens st ls' end.

Lemma pem_lines_tokens ls : forall st,
  pem_lines st ls = pem_tokens st (List.filter (fun l => negb (is_empty l)) (map trim_bytes ls)).
Proof.
  induction ls as [|l ls IH]; intros st; [done|]. cbn [pem_lines map List.filter]. unfold pem_line. destruct st as [out body].
  destruct (is_empty (trim_bytes l)) eqn:E; cbn [negb]; [apply IH|]. cbn [pem_tokens].
  change (_ ≫= ?k) with (pem_token (out, body) (trim_bytes l) ≫= k).
  destruct (pem_token (out, body) (trim_bytes l)) as [st'|e]; [apply IH|done].
Qed.

Definition body_line (l : list Z) : Prop := l <> PEM_BEGIN /\ l <> PEM_END.
Definition block_lines (body : list (list Z)) : list (list Z) := PEM_BEGIN :: body ++ [PEM_END].
Definition block_reads (body : list (list Z)) (der : list Z) : Prop :=
  Forall body_line body /\ x_base64_decode (concat body) = Ok der /\ der <> [].

Lemma token_body out b l : body_line l -> pem_token (out, Some b) l = Ok (out, Some (b ++ l)).
Proof. intros [H1 H2]. unfold pem_token. by rewrite !bool_decide_false by done. Qed.

Lemma tokens_body body : forall out b rest, Forall body_line body ->
  pem_tokens (out, Some b) (body ++ rest) = pem_tokens (out, Some (b ++ concat body)) rest.
Proof.
  induction body as [|l body IH]; intros out b rest H; [by rewrite app_nil_r|]. apply Forall_cons_1 in H as [Hl H].
  cbn [app pem_tokens concat]. rewrite token_body by done. cbn [mbind result_mbind]. rewrite IH by done. by rewrite app_assoc.
Qed.

Lemma tokens_blocks bodies ders : Forall2 block_reads bodies ders -> forall out,
  pem_tokens (out, None) (concat (map block_lines bodies)) = Ok (out ++ ders, None).
Proof.
  induction 1 as [|body der bodies ders (Hb & Hd & Hne) _ IH]; intros out; [by rewrite app_nil_r|].
  cbn [map concat]. unfold block_lines at 1. cbn [app pem_tokens]. change (pem_token (out, None) PEM_BEGIN) with (Ok (E:=FerrumError) (out, Some (@nil Z))).
  cbn [mbind result_mbind]. rewrite <- app_assoc, tokens_body by done. cbn [app pem_tokens]. unfold pem_token.
  rewrite bool_decide_false by done. rewrite bool_decide_true by done. rewrite Hd. cbn [mbind result_mbind].
  unfold refuse_if. destruct der as [|z der]; [done|]. cbn [is_empty mbind result_mbind]. rewrite IH. by rewrite <- app_assoc.
Qed.

(** Every accepted text is blocks and nothing else. *)
Lemma tokens_inv ls : forall out body out', pem_tokens (out, body) ls = Ok (out', None) ->
  match body with
  | None => exists bodies ders, ls = concat (map block_lines bodies) /\ Forall2 block_reads bodies ders /\ out' = out ++ ders
  | Some b => exists tail der bodies ders, ls = tail ++ PEM_END :: concat (map block_lines bodies) /\ Forall body_line tail /\
                x_base64_decode (b ++ concat tail) = Ok der /\ der <> [] /\ Forall2 block_reads bodies ders /\ out' = out ++ der :: ders
  end.
Proof.
  induction ls as [|l ls IH]; intros out body out' H; cbn [pem_tokens] in H.
  { injection H as <- ->. exists [], []. rewrite app_nil_r. split_and!; [done|constructor|done]. }
  destruct (bool_decide_reflect (l = PEM_BEGIN)) as [->|Hb].
  { destruct body as [b|]; [done|]. apply (IH out (Some []) out') in H as (tail & der & bodies & ders & -> & Ht & Hd & Hne & Hf & ->).
    exists (tail :: bodies), (der :: ders). split_and!; [|by constructor|done]. cbn [map concat].
    set (R := concat (map block_lines bodies)). unfold block_lines. cbn [app]. by rewrite <- app_assoc. }
  destruct (bool_decide_reflect (l = PEM_END)) as [->|He].
  { destruct body as [b|]; [|done]. unfold pem_token in H. rewrite bool_decide_false in H by done. rewrite bool_decide_true in H by done.
    destruct (x_base64_decode b) as [der|] eqn:Ed; [|done]. cbn [mbind result_mbind] in H. unfold refuse_if in H.
    destruct der as [|z der]; [done|]. cbn [is_empty mbind result_mbind] in H.
    apply (IH _ None out') in H as (bodies & ders & -> & Hf & ->).
    exists [], (z :: der), bodies, ders. rewrite app_nil_r, <- app_assoc. split_and!; done. }
  unfold pem_token in H. rewrite !bool_decide_false in H by done. destruct body as [b|]; [|done]. cbn [mbind result_mbind] in H.
  apply (IH _ (Some (b ++ l)) out') in H as (tail & der & bodies & ders & -> & Ht & Hd & Hne & Hf & ->).
  exists (l :: tail), der, bodies, ders. rewrite <- app_assoc in Hd. split_and!; [done|by constructor|done..].
Qed.

(** The reader answers exactly the certificates of a text that is one or more blocks and
    nothing else: no block is skipped, none is invented, and every block is the canonical
    base64 of its bytes. *)
Lemma pem_certificates_exact pem ders : pem_certificates pem = Ok ders <->
  ders <> [] /\ exists bodies, significant (as_bytes pem) = concat (map block_lines bodies) /\ Forall2 block_reads bodies ders.
Proof.
  unfold pem_certificates, significant. rewrite pem_lines_tokens. split.
  - destruct (pem_tokens _ _) as [[out [b|]]|e] eqn:E; [done| |done]. cbn [mbind result_mbind refuse_if].
    destruct out as [|d out]; [done|]. cbn [is_empty refuse_if mbind result_mbind]. intros [= <-]. split; [done|].
    apply tokens_inv in E as (bodies & ders & Hl & Hf & Ho). exists bodies. cbn in Ho. by subst ders.
  - intros (Hne & bodies & -> & Hf). rewrite (tokens_blocks _ _ Hf). cbn [mbind result_mbind refuse_if app].
    by destruct ders.
Qed.

(** ** The chain *)

Section chain.
Context `{X : X509Lib}.

(** What a leaf and its CA have to say for the pair to be accepted. *)
Definition chain_holds (ca leaf : X509Certificate) (names : list string) : Prop :=
  xc_is_ca ca = true /\ xc_is_ca leaf = false /\ xn_raw (xc_issuer leaf) = xn_raw (xc_subject ca) /\
  xc_not_before ca <= xc_not_before leaf /\ xc_not_after leaf <= xc_not_after ca /\
  xc_extended_key_usage leaf = Ok (Some true) /\ dns_san leaf = Ok names /\ names <> [] /\
  xc_verify_signature leaf (xc_public_key ca) = Ok tt.

Definition one_certificate (pem : string) (cert : X509Certificate) : Prop :=
  exists der, pem_certificates pem = Ok [der] /\ from_der der = Ok cert.

Lemma single_one ders what der : single ders what = Ok der <-> ders = [der].
Proof. unfold single. destruct ders as [|d [|d' ders]]; split; try done; by intros [= ->]. Qed.

Lemma verify_chain_exact serving ca : verify_chain serving ca = Ok tt <->
  exists ca_cert leaf, one_certificate (ca_cert_pem ca) ca_cert /\ one_certificate (sv_cert_pem serving) leaf /\
    chain_holds ca_cert leaf (sv_dns_names serving).
Proof.
  unfold verify_chain, parse_certificate, refuse_if, chain_holds, one_certificate. split.
  - destruct (pem_certificates (ca_cert_pem ca)) as [cas|]; [|done]. cbn [mbind result_mbind].
    destruct (single cas "CA") as [cd|] eqn:Hc; [|done]. cbn [mbind result_mbind]. apply single_one in Hc as ->.
    destruct (pem_certificates (sv_cert_pem serving)) as [ls|]; [|done]. cbn [mbind result_mbind].
    destruct (single ls _) as [ld|] eqn:Hl; [|done]. cbn [mbind result_mbind]. apply single_one in Hl as ->.
    destruct (from_der cd) as [cc|] eqn:Ec; [|done]. cbn [map_err mbind result_mbind].
    destruct (from_der ld) as [leaf|] eqn:El; [|done]. cbn [map_err mbind result_mbind].
    destruct (xc_is_ca cc) eqn:H1; [|done]. cbn [negb mbind result_mbind]. destruct (xc_is_ca leaf) eqn:H2; [done|]. cbn [mbind result_mbind].
    destruct (bool_decide_reflect (xn_raw (xc_issuer leaf) = xn_raw (xc_subject cc))) as [H3|]; [|done]. cbn [negb mbind result_mbind].
    destruct (Z.ltb_spec (xc_not_before leaf) (xc_not_before cc)); [done|]. cbn [orb].
    destruct (Z.ltb_spec (xc_not_after cc) (xc_not_after leaf)); [done|]. cbn [mbind result_mbind].
    destruct (xc_extended_key_usage leaf) as [[[]|]|] eqn:H6; [|done..]. cbn [map_err mbind result_mbind].
    destruct (dns_san leaf) as [san|] eqn:H7; [|done]. cbn [mbind result_mbind]. destruct (is_empty san) eqn:H8; [done|]. cbn [mbind result_mbind].
    destruct (bool_decide_reflect (san = sv_dns_names serving)) as [->|]; [|done]. cbn [negb mbind result_mbind].
    destruct (xc_verify_signature leaf (xc_public_key cc)) as [[]|] eqn:H9; [|done]. intros _.
    exists cc, leaf. split; [by exists cd|]. split; [by exists ld|]. split_and!; try done. intros E. by rewrite E in H8.
  - intros (cc & leaf & (cd & -> & Ec) & (ld & -> & El) & H1 & H2 & H3 & H4 & H5 & H6 & H7 & H8 & H9).
    cbn [mbind result_mbind single]. rewrite Ec, El. cbn [map_err mbind result_mbind]. rewrite H1, H2, H3, bool_decide_true by done. cbn [negb mbind result_mbind].
    rewrite (proj2 (Z.ltb_ge _ _) H4), (proj2 (Z.ltb_ge _ _) H5). cbn [orb mbind result_mbind]. rewrite H6. cbn [map_err mbind result_mbind].
    rewrite H7. cbn [mbind result_mbind]. destruct (is_empty (sv_dns_names serving)) eqn:E8; [by apply is_empty_true in E8|].
    cbn [mbind result_mbind]. rewrite bool_decide_true by done. cbn [negb mbind result_mbind]. by rewrite H9.
Qed.

(** A pair that verifies also passes the check made of manifests, where only the two
    certificates are left, and the other way round for the names the leaf carries. *)
Lemma issued_pair_exact ca_cert leaf_cert : verify_issued_pair ca_cert leaf_cert = Ok tt <->
  exists ca leaf names, one_certificate ca_cert ca /\ one_certificate leaf_cert leaf /\ chain_holds ca leaf names.
Proof.
  unfold verify_issued_pair. split.
  - destruct (pem_certificates leaf_cert) as [ls|] eqn:El; [|done]. cbn [mbind result_mbind].
    destruct (single ls _) as [ld|] eqn:Hl; [|done]. cbn [mbind result_mbind]. apply single_one in Hl as ->.
    unfold parse_certificate. destruct (from_der ld) as [leaf|] eqn:Ef; [|done]. cbn [map_err mbind result_mbind].
    destruct (dns_san leaf) as [names|] eqn:En; [|done]. cbn [mbind result_mbind].
    intros (ca & leaf' & Hca & Hleaf & Hch)%verify_chain_exact. exists ca, leaf', names. done.
  - intros (ca & leaf & names & Hca & (ld & Hp & Hf) & Hch). rewrite Hp. cbn [mbind result_mbind single].
    unfold parse_certificate. rewrite Hf. cbn [map_err mbind result_mbind]. pose proof Hch as (_ & _ & _ & _ & _ & _ & Hn & _).
    rewrite Hn. cbn [mbind result_mbind]. apply verify_chain_exact. exists ca, leaf. split; [done|]. split; [by exists ld|done].
Qed.

(** Nothing is issued that does not verify; and what is issued carries the four names of
    its Service and is checked again by whoever reads the manifests. *)
Lemma issued_material_verifies `{B : CertBuilder} sha256 ca service namespace not_after now tb ts rng m :
  issue_serving_cert sha256 ca service namespace not_after now tb ts rng = Ok m ->
  verify_chain m ca = Ok tt /\ verify_issued_pair (ca_cert_pem ca) (sv_cert_pem m) = Ok tt /\
  sv_dns_names m = service_dns_names service namespace /\ now <= not_after < now + 399 * X509_DAY_SECS * NANOS.
Proof.
  unfold issue_serving_cert, check_lifetime, refuse_if. destruct (_ || _); [done|]. cbn [mbind result_mbind].
  destruct (existsb _ _); [done|]. cbn [mbind result_mbind]. destruct (Z.ltb_spec not_after now); [done|]. cbn [mbind result_mbind].
  destruct (Z.ltb_spec MAX_SERVING_CERT_DAYS ((not_after - now) / NANOS / X509_DAY_SECS)) as [|Hd]; [done|]. cbn [mbind result_mbind].
  destruct (load_ca ca) as [[issuer ik]|]; [|done]. cbn [mbind result_mbind]. destruct (try_map _ _); [|done]. cbn [mbind result_mbind].
  destruct (map_err _ (generate_key rng)) as [key|]; [|done]. cbn [mbind result_mbind].
  destruct (map_err _ (signed_by _ _ _ _)) as [cert|]; [|done]. cbn [mbind result_mbind].
  destruct (verify_chain _ ca) as [[]|] eqn:Hv; [|done]. cbn [mbind result_mbind]. intros [= <-]. split; [done|]. split.
  - apply verify_chain_exact in Hv as (cc & leaf & H1 & H2 & H3). apply issued_pair_exact. by exists cc, leaf, (service_dns_names service namespace).
  - split; [done|]. unfold MAX_SERVING_CERT_DAYS, X509_DAY_SECS, NANOS in *. Z.to_euclidean_division_equations. lia.
Qed.
End chain.

(** The maximum is compared in whole days: a lifetime one second short of 399 days is
    within the 398. *)
Lemma lifetime_overshoots now : check_lifetime (now + (398 * 86400 + 86399) * NANOS) now = Ok tt.
Proof.
  unfold check_lifetime, refuse_if. unfold NANOS. destruct (Z.ltb_spec (now + (398 * 86400 + 86399) * 1000000000) now); [lia|]. cbn [mbind result_mbind].
  replace (now + (398 * 86400 + 86399) * 1000000000 - now) with ((398 * 86400 + 86399) * 1000000000) by lia. reflexivity.
Qed.

(** ** Issuance under a CA succeeds

    What rcgen documents: a certificate says what its parameters say, is issued by the name
    and verifies under the key of its issuer. *)

Definition oid_of (ty : DnType) : list Z :=
  match ty with
  | CommonName => [2; 5; 4; 3] | CountryName => [2; 5; 4; 6] | LocalityName => [2; 5; 4; 7]
  | StateOrProvinceName => [2; 5; 4; 8] | OrganizationName => [2; 5; 4; 10] | OrganizationalUnitName => [2; 5; 4; 11]
  | CustomDnType oid => oid
  end.
Definition attr_of (e : DnType * string) : X509Attr := {| at_oid := Some (oid_of (fst e)); at_str := Ok (snd e) |}.

Record describes (dn_raw : DistinguishedName -> list Z) (p : CertificateParams) (pub : list Z) (cert : X509Certificate) : Prop := {
  d_ca : xc_is_ca cert = match cp_is_ca p with Ca _ => true | ExplicitNoCa => false end;
  d_raw : xn_raw (xc_subject cert) = dn_raw (cp_distinguished_name p);
  d_rdns : xn_rdns (xc_subject cert) = map (fun e => [attr_of e]) (cp_distinguished_name p);
  d_before : forall t, cp_not_before p = Some t -> xc_not_before cert = t / NANOS;
  d_after : forall t, cp_not_after p = Some t -> xc_not_after cert = t / NANOS;
  d_eku : xc_extended_key_usage cert = Ok (match cp_extended_key_usages p with [] => None | _ => Some true end);
  d_san : xc_subject_alternative_name cert = Ok (match cp_subject_alt_names p with [] => None | l => Some (map DNSName l) end);
  d_pub : xc_public_key cert = pub
}.

Class CertLaws {X : X509Lib} {B : CertBuilder} : Type := {
  dn_raw : DistinguishedName -> list Z;
  public_key : Key -> list Z;
  key_reads k : key_from_pem (key_pem k) = Ok k;
  self_signed_reads p k pem : self_signed p k = Ok pem -> NoDup (map fst (cp_distinguished_name p)) ->
    exists cert, one_certificate pem cert /\ describes dn_raw p (public_key k) cert;
  signed_by_reads p k ip ik pem : signed_by p k ip ik = Ok pem -> NoDup (map fst (cp_distinguished_name p)) ->
    exists cert, one_certificate pem cert /\ describes dn_raw p (public_key k) cert /\
      xn_raw (xc_issuer cert) = dn_raw (cp_distinguished_name ip) /\ xc_verify_signature cert (public_key ik) = Ok tt
}.

Section issuance.
Context `{L : CertLaws} (sha256 : list Z -> list Z).

(** A CA that can be reused: one certificate, CA:TRUE, whose name is rebuilt as the name its
    bytes encode, and a key that is the certificate's. *)
Definition usable_ca (ca : CaMaterial) (from to : Z) : Prop :=
  exists cert key dn, one_certificate (ca_cert_pem ca) cert /\ key_from_pem (ca_key_pem ca) = Ok key /\ xc_is_ca cert = true /\
    rebuild_dn (xc_subject cert) = Ok dn /\ xn_raw (xc_subject cert) = dn_raw dn /\ xc_public_key cert = public_key key /\
    xc_not_before cert = from / NANOS /\ xc_not_after cert = to / NANOS.

Lemma rebuild_ferrum_dn cn name : xn_rdns name = map (fun e => [attr_of e]) (ferrum_dn cn) -> rebuild_dn name = Ok (ferrum_dn cn).
Proof. intros H. unfold rebuild_dn. by rewrite H. Qed.
Lemma ferrum_dn_nodup cn : NoDup (map fst (ferrum_dn cn)).
Proof. cbn. repeat constructor; set_solver. Qed.

Lemma issued_ca_usable cn not_after tc tb ts rng ca :
  issue_ca sha256 cn not_after tc tb ts rng = Ok ca -> usable_ca ca (not_before tb) not_after.
Proof.
  unfold issue_ca, refuse_if. destruct (str_empty _); [done|]. cbn [mbind result_mbind].
  destruct (check_lifetime _ _); [|done]. cbn [mbind result_mbind]. destruct (generate_key rng) as [k|]; [|done]. cbn [map_err mbind result_mbind].
  destruct (self_signed _ k) as [pem|] eqn:Es; [|done]. cbn [map_err mbind result_mbind ca_cert_pem].
  destruct (self_signed_reads _ _ _ Es (ferrum_dn_nodup cn)) as (cert & H1 & []). cbn in *.
  destruct (pem_certificates pem) as [ds|] eqn:Ep; [|done]. cbn [mbind result_mbind]. destruct (single ds "CA"); [|done]. cbn [mbind result_mbind].
  destruct (parse_certificate _ _) as [parsed|]; [|done]. cbn [mbind result_mbind]. destruct (xc_is_ca parsed); [|done]. cbn [negb mbind result_mbind].
  intros [= <-]. exists cert, k, (ferrum_dn cn). cbn [ca_cert_pem ca_key_pem]. rewrite key_reads, (rebuild_ferrum_dn cn) by done.
  split_and!; auto.
Qed.

Lemma load_usable ca from to : usable_ca ca from to -> (forall p k, is_ok (self_signed p k) = true) ->
  exists p k, load_ca ca = Ok (p, k) /\ exists cert, one_certificate (ca_cert_pem ca) cert /\ xc_is_ca cert = true /\
    xn_raw (xc_subject cert) = dn_raw (cp_distinguished_name p) /\ xc_public_key cert = public_key k /\
    xc_not_before cert = from / NANOS /\ xc_not_after cert = to / NANOS.
Proof.
  intros (cert & k & dn & (der & Hp & Hd) & Hk & Hca & Hdn & Hraw & Hpub & Hf & Ht) Hss. unfold load_ca. rewrite Hk, Hp.
  cbn [map_err mbind result_mbind single]. unfold parse_certificate. rewrite Hd. cbn [map_err mbind result_mbind]. rewrite Hca.
  cbn [negb refuse_if mbind result_mbind]. rewrite Hdn. cbn [mbind result_mbind].
  match goal with |- context [self_signed ?p k] => specialize (Hss p k); destruct (self_signed p k); [|done] end.
  cbn [map_err mbind result_mbind]. eexists _, _. split; [done|]. exists cert. split; [by exists der|]. done.
Qed.

(** Under a usable CA, with the library's own steps succeeding, a leaf whose window lies in
    the CA's is issued; no check of the code refuses it. *)
Lemma issue_under_usable ca from to service namespace not_after tc tb ts rng :
  usable_ca ca from to -> (forall p k, is_ok (self_signed p k) = true) ->
  (forall p k ip ik, is_ok (signed_by p k ip ik) = true) -> is_ok (generate_key rng) = true ->
  str_empty (trim service) = false -> str_empty (trim namespace) = false ->
  Forall (fun n => str_empty (trim n) = false /\ ia5 n = Ok tt) (service_dns_names service namespace) ->
  check_lifetime not_after tc = Ok tt -> from <= not_before tb -> not_after <= to ->
  exists m, issue_serving_cert sha256 ca service namespace not_after tc tb ts rng = Ok m.
Proof.
  intros Hu Hss Hsb Hk Hs Hn Hnames Hl Hfrom Hto. unfold issue_serving_cert, refuse_if. rewrite Hs, Hn. cbn [orb mbind result_mbind].
  replace (existsb _ _) with false by (symmetry; apply not_true_iff_false; rewrite existsb_exists; intros (n & Hin & He);
    rewrite Forall_forall in Hnames; destruct (Hnames n) as [Hx _]; [by apply list_elem_of_In|congruence]).
  cbn [mbind result_mbind]. rewrite Hl. cbn [mbind result_mbind].
  destruct (load_usable _ _ _ Hu Hss) as (ip & ik & -> & cc & Hcc & Hca & Hraw & Hpub & Hf & Ht). cbn [mbind result_mbind].
  assert (Hsan : try_map dns_san_entry (service_dns_names service namespace) = Ok (service_dns_names service namespace)).
  { apply try_map_ok. clear -Hnames. induction Hnames as [|n l [_ Hi] _ IH]; constructor; [|done]. unfold dns_san_entry. by rewrite Hi. }
  rewrite Hsan. cbn [mbind result_mbind]. destruct (generate_key rng) as [k|]; [|done]. cbn [map_err mbind result_mbind].
  match goal with |- context [signed_by ?p k ip ik] => set (params := p); specialize (Hsb params k ip ik);
    destruct (signed_by params k ip ik) as [pem|] eqn:Es; [|done] end.
  destruct (signed_by_reads _ _ _ _ _ Es (ferrum_dn_nodup _)) as (leaf & Hleaf & [] & Hiss & Hsig). cbn [map_err mbind result_mbind].
  match goal with |- context [verify_chain ?m ca] => assert (Hv : verify_chain m ca = Ok tt) end.
  { apply verify_chain_exact. exists cc, leaf. cbn [sv_cert_pem sv_dns_names]. split; [done|]. split; [done|].
    unfold chain_holds. split_and!; try done; try congruence.
    - rewrite Hf, (d_before0 _ eq_refl). apply Z.div_le_mono; done.
    - rewrite Ht, (d_after0 _ eq_refl). apply Z.div_le_mono; done.
    - unfold dns_san. rewrite d_san0. done. }
  rewrite Hv. cbn [mbind result_mbind]. by eexists.
Qed.
End issuance.
