(* ===== verification/Mtls.v ===== *)
(** * mTLS material

    [crates/ferrum-crypto/src/mtls.rs]: what is loaded from PEM, that the private key is the
    leaf's, and the checks of a peer. Parsing PEM and certificates, building a path and
    signing (rustls-pki-types, webpki, ring) are a parameter. *)

From S2P Require Import Prelude RustStd Ids Compiler Wire Crypto.

Definition KEY_BIND_MSG : list Z := as_bytes "FERRUM-MTLS-KEY-BIND-v1".

Inductive SigAlg : Type :=
| ECDSA_P256_SHA256 | ECDSA_P256_SHA384 | ECDSA_P384_SHA256 | ECDSA_P384_SHA384 | ED25519
| RSA_PKCS1_SHA256 | RSA_PKCS1_SHA384 | RSA_PKCS1_SHA512
| RSA_PSS_SHA256_LEGACY | RSA_PSS_SHA384_LEGACY | RSA_PSS_SHA512_LEGACY.

Definition SUPPORTED_SIG_ALGS : list SigAlg :=
  [ECDSA_P256_SHA256; ECDSA_P256_SHA384; ECDSA_P384_SHA256; ECDSA_P384_SHA384; ED25519;
   RSA_PKCS1_SHA256; RSA_PKCS1_SHA384; RSA_PKCS1_SHA512;
   RSA_PSS_SHA256_LEGACY; RSA_PSS_SHA384_LEGACY; RSA_PSS_SHA512_LEGACY].

Record MtlsMaterial : Type := { mm_certs : list (list Z); mm_key : list Z; mm_ca : list (list Z) }.
Inductive PeerRole : Type := RoleClient | RoleServer.
Inductive KeyUsage : Type := server_auth | client_auth.

(** The key formats the code tries. *)
Inductive KeyFormat : Type := Pkcs8EcdsaP256 | Pkcs8EcdsaP384 | Pkcs8Ed25519 | Pkcs8Rsa | DerRsa.

(** The libraries. [sign_with] is the library's signature with a key read in one format,
    or none where the operation itself fails, on what the generator of random bytes yields. *)
Class TlsCrypto : Type := {
  EndEntity : Type;
  Anchor : Type;
  PrivateKey : Type;
  DnsName : Type;
  pem_certificates_of : list Z -> list (result string (list Z));
  pem_private_keys_of : list Z -> list (result string (list Z));
  end_entity : list Z -> result string EndEntity;
  anchor_from_trusted_cert : list Z -> result string Anchor;
  verify_for_usage : EndEntity -> list SigAlg -> list Anchor -> list (list Z) -> Z -> KeyUsage -> result string unit;
  dns_name_of : string -> option DnsName;
  valid_for_subject_name : EndEntity -> DnsName -> result string unit;
  read_key : KeyFormat -> list Z -> option PrivateKey;
  sign_with : PrivateKey -> Z -> list Z -> option (list Z);
  verify_signature : EndEntity -> SigAlg -> list Z -> list Z -> bool
}.

Section mtls.
Context `{T : TlsCrypto}.

(** [for item in iter { out.push(item.map_err(..)?) }]. *)
Definition pem_items (what : string) (items : list (result string (list Z))) : Result (list (list Z)) :=
  try_map (fun item => map_err (fun e => Integrity [Lit "truncated or invalid "; Lit what; Lit " PEM: "; Str e]) item) items.

Definition parse_pem_certs (pem : list Z) (empty missing : string) : Result (list (list Z)) :=
  _ ← refuse_if (is_empty pem) (Integrity [Str empty]);
  certs ← pem_items "certificate" (pem_certificates_of pem);
  _ ← refuse_if (is_empty certs) (Integrity [Str missing]);
  Ok certs.

Definition parse_pem_key (pem : list Z) : Result (list Z) :=
  _ ← refuse_if (is_empty pem) (Integrity [Lit "mTLS private key PEM is empty"]);
  keys ← pem_items "private key" (pem_private_keys_of pem);
  match keys with
  | [] => Err (Integrity [Lit "private key PEM contains no private key"])
  | [key] =>
      _ ← refuse_if (is_empty key || is_all_zero key) (Integrity [Lit "mTLS private key must not be empty or all zeros"]);
      Ok key
  | _ => Err (Integrity [Lit "private key PEM must contain exactly one private key"])
  end.

Definition load_mtls_pem (cert_pem key_pem ca_pem : list Z) : Result MtlsMaterial :=
  certs ← parse_pem_certs cert_pem "mTLS certificate PEM is empty" "certificate PEM contains no certificates";
  key ← parse_pem_key key_pem;
  ca ← parse_pem_certs ca_pem "mTLS CA PEM is empty" "CA PEM contains no certificates";
  Ok {| mm_certs := certs; mm_key := key; mm_ca := ca |}.

Definition key_mismatch : FerrumError := Integrity [Lit "mTLS private key does not match leaf certificate"].
Definition bound (ok : bool) : Result unit := refuse_if (negb ok) key_mismatch.

Definition ecdsa_bind (cert : EndEntity) (kp : PrivateKey) (rng : Z) (alg : SigAlg) : Result unit :=
  sig ← ok_or (sign_with kp rng KEY_BIND_MSG) (Integrity [Lit "failed to sign with mTLS ECDSA key"]);
  bound (verify_signature cert alg KEY_BIND_MSG sig).
Definition rsa_bind (cert : EndEntity) (kp : PrivateKey) (rng : Z) : Result unit :=
  sig ← ok_or (sign_with kp rng KEY_BIND_MSG) (Integrity [Lit "failed to sign with mTLS RSA key"]);
  bound (verify_signature cert RSA_PKCS1_SHA256 KEY_BIND_MSG sig).
(** Ed25519 signing does not fail; a library without an answer has no signature. *)
Definition ed25519_bind (cert : EndEntity) (kp : PrivateKey) : Result unit :=
  bound (verify_signature cert ED25519 KEY_BIND_MSG (default [] (sign_with kp 0 KEY_BIND_MSG))).

Definition verify_key_matches_leaf (leaf_der key_der : list Z) (rng : Z) : Result unit :=
  cert ← map_err (fun e => Integrity [Lit "invalid mTLS leaf certificate: "; Str e]) (end_entity leaf_der);
  match read_key Pkcs8EcdsaP256 key_der with Some kp => ecdsa_bind cert kp rng ECDSA_P256_SHA256 | None =>
  match read_key Pkcs8EcdsaP384 key_der with Some kp => ecdsa_bind cert kp rng ECDSA_P384_SHA384 | None =>
  match read_key Pkcs8Ed25519 key_der with Some kp => ed25519_bind cert kp | None =>
  match read_key Pkcs8Rsa key_der with Some kp => rsa_bind cert kp rng | None =>
  match read_key DerRsa key_der with Some kp => rsa_bind cert kp rng | None =>
  Err (Integrity [Lit "unsupported or invalid mTLS private key"]) end end end end end.

(** [SystemTime] before the epoch is refused; webpki is given whole seconds. *)
Definition unix_time (now : Z) : Result Z :=
  if now <? 0 then Err (Integrity [Lit "mTLS verification time is before unix epoch"]) else Ok (now / 1000000000).

Definition usage_of (role : PeerRole) : KeyUsage := match role with RoleServer => server_auth | RoleClient => client_auth end.

Definition verify_mtls_peer (leaf_der : list Z) (intermediates ca_ders : list (list Z)) (now : Z) (role : PeerRole) (dns_name : option string) : Result unit :=
  _ ← refuse_if (is_empty leaf_der) (Integrity [Lit "mTLS leaf certificate is empty"]);
  _ ← refuse_if (is_empty ca_ders) (Integrity [Lit "mTLS CA list is empty"]);
  ee ← map_err (fun e => Integrity [Lit "invalid mTLS leaf certificate: "; Str e]) (end_entity leaf_der);
  _ ← try_each (fun der => refuse_if (is_empty der) (Integrity [Lit "mTLS CA certificate is empty"])) ca_ders;
  anchors ← try_map (fun der => map_err (fun e => Integrity [Lit "invalid mTLS CA certificate: "; Str e]) (anchor_from_trusted_cert der)) ca_ders;
  time ← unix_time now;
  _ ← map_err (fun e => Integrity [Lit "mTLS certificate verification failed: "; Str e])
        (verify_for_usage ee SUPPORTED_SIG_ALGS anchors intermediates time (usage_of role));
  match dns_name with
  | None => Ok tt
  | Some name =>
      dns ← ok_or (dns_name_of name) (Integrity [Lit "invalid DNS name for mTLS SAN check: "; Str name]);
      map_err (fun e => Integrity [Lit "mTLS SAN mismatch: "; Str e]) (valid_for_subject_name ee dns)
  end.

Definition verify_mtls_material (m : MtlsMaterial) (now : Z) (role : PeerRole) (dns_name : option string) (rng : Z) : Result unit :=
  match mm_certs m with
  | [] => Err (Integrity [Lit "mTLS certificate chain is empty"])
  | leaf :: intermediates =>
      _ ← refuse_if (is_empty (mm_key m) || is_all_zero (mm_key m))
            (Integrity [Lit "mTLS private key is empty or all zeros; unsigned TLS is rejected"]);
      _ ← refuse_if (is_empty (mm_ca m)) (Integrity [Lit "mTLS CA list is empty"]);
      _ ← verify_key_matches_leaf leaf (mm_key m) rng;
      verify_mtls_peer leaf intermediates (mm_ca m) now role dns_name
  end.

(** ** What is accepted *)

(** The key whose signature binds it to the leaf: the first format that reads it decides. *)
Definition binding (key_der : list Z) : option (KeyFormat * PrivateKey * SigAlg) :=
  let f fmt alg := option_map (fun kp => (fmt, kp, alg)) (read_key fmt key_der) in
  match f Pkcs8EcdsaP256 ECDSA_P256_SHA256 with Some b => Some b | None =>
  match f Pkcs8EcdsaP384 ECDSA_P384_SHA384 with Some b => Some b | None =>
  match f Pkcs8Ed25519 ED25519 with Some b => Some b | None =>
  match f Pkcs8Rsa RSA_PKCS1_SHA256 with Some b => Some b | None => f DerRsa RSA_PKCS1_SHA256 end end end end.

Definition key_is_leafs (leaf key_der : list Z) (rng : Z) : Prop :=
  exists ee fmt kp alg sig, end_entity leaf = Ok ee /\ binding key_der = Some (fmt, kp, alg) /\
    (match fmt with Pkcs8Ed25519 => sig = default [] (sign_with kp 0 KEY_BIND_MSG) | _ => sign_with kp rng KEY_BIND_MSG = Some sig end) /\
    verify_signature ee alg KEY_BIND_MSG sig = true.

Lemma bound_ok b : bound b = Ok tt <-> b = true.
Proof. unfold bound. rewrite refuse_if_ok. apply negb_false_iff. Qed.
Lemma bind_sig_ok (o : option (list Z)) e k : (sig ← ok_or o e; bound (k sig)) = Ok tt <-> exists sig, o = Some sig /\ k sig = true.
Proof. destruct o as [sig|]; simpl; [rewrite bound_ok; naive_solver|naive_solver]. Qed.

Lemma key_matches_exact leaf key rng : verify_key_matches_leaf leaf key rng = Ok tt <-> key_is_leafs leaf key rng.
Proof.
  unfold verify_key_matches_leaf, key_is_leafs, binding. destruct (end_entity leaf) as [ee|e]; cbn [map_err mbind result_mbind]; [|naive_solver].
  destruct (read_key Pkcs8EcdsaP256 key); cbn [option_map]; [unfold ecdsa_bind; rewrite bind_sig_ok; naive_solver|].
  destruct (read_key Pkcs8EcdsaP384 key); cbn [option_map]; [unfold ecdsa_bind; rewrite bind_sig_ok; naive_solver|].
  destruct (read_key Pkcs8Ed25519 key); cbn [option_map]; [unfold ed25519_bind; rewrite bound_ok; naive_solver|].
  destruct (read_key Pkcs8Rsa key); cbn [option_map]; [unfold rsa_bind; rewrite bind_sig_ok; naive_solver|].
  destruct (read_key DerRsa key); cbn [option_map]; [unfold rsa_bind; rewrite bind_sig_ok; naive_solver|naive_solver].
Qed.

(** A peer is accepted exactly when the library builds a path from its leaf to one of the
    caller's own roots, at this time, for the usage of its role, and the name asked for, if
    one was, is a name of the leaf. *)
Definition peer_holds (leaf : list Z) (inter cas : list (list Z)) (now : Z) (role : PeerRole) (dns_name : option string) : Prop :=
  leaf <> [] /\ cas <> [] /\ [] ∉ cas /\ 0 <= now /\
  exists ee anchors, end_entity leaf = Ok ee /\ Forall2 (fun der a => anchor_from_trusted_cert der = Ok a) cas anchors /\
    verify_for_usage ee SUPPORTED_SIG_ALGS anchors inter (now / 1000000000) (usage_of role) = Ok tt /\
    forall name, dns_name = Some name -> exists dns, dns_name_of name = Some dns /\ valid_for_subject_name ee dns = Ok tt.

Lemma peer_exact leaf inter cas now role name : verify_mtls_peer leaf inter cas now role name = Ok tt <-> peer_holds leaf inter cas now role name.
Proof.
  unfold verify_mtls_peer, peer_holds. rewrite !bind_ok_unit, !refuse_if_ok, !is_empty_false. split.
  - intros (Hl & Hc & H). apply bind_ok in H as (ee & He & H). apply map_err_ok in He. apply bind_ok_unit in H as [Hne H].
    apply bind_ok in H as (anchors & Ha & H). apply bind_ok in H as (t & Ht & H). apply bind_ok_unit in H as [Hv H]. apply map_err_ok in Hv.
    unfold unix_time in Ht. destruct (Z.ltb_spec now 0); [done|]. injection Ht as <-. split_and!; try done.
    + intros Hin. apply try_each_ok in Hne. rewrite Forall_forall in Hne. specialize (Hne [] Hin). done.
    + exists ee, anchors. split_and!; try done.
      * apply try_map_ok in Ha. eapply Forall2_impl; [exact Ha|]. intros d a Hd. by apply map_err_ok in Hd.
      * intros n ->. destruct (dns_name_of n) as [dns|]; [|done]. exists dns. by apply map_err_ok in H.
  - intros (Hl & Hc & Hne & Hn & ee & anchors & He & Ha & Hv & Hd). split_and!; try done. rewrite He. cbn [map_err mbind result_mbind].
    rewrite bind_ok_unit. split.
    { apply try_each_ok, Forall_forall. intros d Hin. apply refuse_if_ok. destruct d; [done|done]. }
    rewrite bind_ok. exists anchors. split.
    { apply try_map_ok. eapply Forall2_impl; [exact Ha|]. intros d a Hx. by rewrite Hx. }
    unfold unix_time. destruct (Z.ltb_spec now 0); [lia|]. cbn [mbind result_mbind]. rewrite Hv. cbn [map_err mbind result_mbind].
    destruct name as [n|]; [|done]. destruct (Hd n eq_refl) as (dns & -> & Hs). cbn [ok_or mbind result_mbind]. by rewrite Hs.
Qed.

(** Material is accepted exactly when its key is the leaf's and its own leaf would be
    accepted as a peer under its own roots; and material that was loaded passes the checks
    that come before these. *)
Lemma material_exact m now role name rng : verify_mtls_material m now role name rng = Ok tt <->
  exists leaf inter, mm_certs m = leaf :: inter /\ is_empty (mm_key m) = false /\ is_all_zero (mm_key m) = false /\
    key_is_leafs leaf (mm_key m) rng /\ peer_holds leaf inter (mm_ca m) now role name.
Proof.
  unfold verify_mtls_material. destruct (mm_certs m) as [|leaf inter]; [naive_solver|].
  rewrite !bind_ok_unit, !refuse_if_ok, orb_false_iff, key_matches_exact, peer_exact. split.
  - intros ((H1 & H2) & _ & H3 & H4). by exists leaf, inter.
  - intros (l & i & [= <- <-] & H1 & H2 & H3 & H4). split_and!; try done. by apply is_empty_false, H4.
Qed.

Lemma loaded_material_is_checked_once cert key ca m now role name rng : load_mtls_pem cert key ca = Ok m ->
  (exists leaf inter, mm_certs m = leaf :: inter /\
     verify_mtls_material m now role name rng =
       (_ ← verify_key_matches_leaf leaf (mm_key m) rng; verify_mtls_peer leaf inter (mm_ca m) now role name)).
Proof.
  unfold load_mtls_pem. intros H. apply bind_ok in H as (certs & Hc & H). apply bind_ok in H as (k & Hk & H). apply bind_ok in H as (cas & Ha & [= <-]).
  assert (Hne : forall pem e miss l, parse_pem_certs pem e miss = Ok l -> l <> []).
  { intros pem e miss l Hp. unfold parse_pem_certs in Hp. apply bind_ok_unit in Hp as [_ Hp]. apply bind_ok in Hp as (l' & _ & Hp).
    rewrite bind_ok_unit, refuse_if_ok in Hp. destruct Hp as [Hp [= <-]]. by apply is_empty_false in Hp. }
  assert (Hkey : is_empty k = false /\ is_all_zero k = false).
  { unfold parse_pem_key in Hk. apply bind_ok_unit in Hk as [_ Hk]. apply bind_ok in Hk as (keys & _ & Hk).
    destruct keys as [|k0 [|k1 keys]]; try done. rewrite bind_ok_unit, refuse_if_ok, orb_false_iff in Hk. destruct Hk as [[? ?] [= <-]]. done. }
  apply Hne in Hc, Ha. destruct Hkey as [Hk1 Hk2]. destruct certs as [|leaf inter]; [done|]. exists leaf, inter. cbn [mm_certs mm_key mm_ca]. split; [done|].
  unfold verify_mtls_material. cbn [mm_certs mm_key mm_ca]. rewrite Hk1, Hk2. cbn [orb refuse_if mbind result_mbind]. by destruct cas.
Qed.

(** Only PKCS#8 and the DER of RSA are tried: a key in another format, SEC1 among them, is
    loaded from PEM and then refused, whatever the leaf. *)
Lemma other_key_formats_are_refused leaf key rng ee : end_entity leaf = Ok ee -> (forall fmt, read_key fmt key = None) ->
  verify_key_matches_leaf leaf key rng = Err (Integrity [Lit "unsupported or invalid mTLS private key"]).
Proof. intros He Hk. unfold verify_key_matches_leaf. rewrite He, !Hk. done. Qed.
End mtls.
