(* ===== verification/Cli.v ===== *)
(** * ferrumctl: validate, compile, sign, verify, break-glass

    [crates/ferrum-cli/src]: [validate.rs], [compile.rs], [fsig.rs], [sign.rs], [verify.rs]
    and [break_glass.rs]. The YAML parser is a parameter; a command reads the files it names
    through what the file system answers and returns what it prints and the file it writes. *)

From S2P Require Import Prelude RustStd RustText Ids Api Policy Wire Wasm Encode Febp Compiler.
From S2P Require Import Envelope Program Crypto Grant Journal BreakGlass Encoding Json Bundle AgentSource Webhook Publish.

(** [anyhow::Error]: a text, an error of the library, an I/O error, each with contexts. *)
Inductive CliError : Type :=
| Bail (m : msg)
| Lib (e : FerrumError)
| Io (e : string)
| Ctx (m : msg) (e : CliError).
Abbreviation CliResult := (result CliError).

Definition with_context {A} (m : msg) (r : CliResult A) : CliResult A := map_err (Ctx m) r.
Definition lib {A} (r : Result A) : CliResult A := map_err Lib r.

(** What the file system answers: the bytes of a path, and why a write of it fails. *)
Record CliFs : Type := { cf_read : string -> result string (list Z); cf_write : string -> option string }.

Definition read_bytes (fs : CliFs) (context : msg) (path : string) : CliResult (list Z) :=
  with_context context (map_err Io (cf_read fs path)).
Definition read_text (fs : CliFs) (context : msg) (path : string) : CliResult string :=
  bytes ← read_bytes fs context path;
  ok_or (from_utf8 bytes) (Ctx context (Io "stream did not contain valid UTF-8")).
Definition write_file (fs : CliFs) (path : string) (bytes : list Z) : CliResult (string * list Z) :=
  match cf_write fs path with
  | Some err => Err (Ctx [Lit "write "; Str path] (Io err))
  | None => Ok (path, bytes)
  end.

(** ** fsig.rs *)

Definition bail_of (e : FerrumError) : CliError := match e with Integrity m => Bail m | e => Lib e end.

Definition put_len_prefixed (out blob : list Z) : CliResult (list Z) :=
  if len blob <? U32 then Ok (out ++ le_bytes 4 (len blob) ++ blob)
  else Err (Ctx [Lit "blob exceeds u32 length"] (Bail [Lit "out of range integral type conversion attempted"])).

Definition cli_encode_fsig (raw signature public_key : list Z) : CliResult (list Z) :=
  _ ← refuse_if (negb (len signature =? ED25519_SIGNATURE_LEN))
        (Bail [Lit "Ed25519 signature must be "; Num ED25519_SIGNATURE_LEN; Lit " bytes, got "; Num (len signature)]);
  _ ← refuse_if (negb (len public_key =? ED25519_PUBLIC_KEY_LEN))
        (Bail [Lit "Ed25519 public key must be "; Num ED25519_PUBLIC_KEY_LEN; Lit " bytes, got "; Num (len public_key)]);
  out ← put_len_prefixed (SIGNED_MAGIC ++ le_bytes 4 SIGNED_FORMAT) public_key;
  out ← put_len_prefixed out signature;
  put_len_prefixed out raw.

(** [Reader]: a cursor with one error text; the same three reads as the controller's. *)
Definition cli_take (n : Z) : rd (list Z) := integrity "truncated signed bundle" (rd_take raw_texts n).
Definition cli_u32 : rd Z := b ← cli_take 4; mret (le_val b).
Definition cli_len_prefixed : rd (list Z) := n ← cli_u32; cli_take n.

Definition cli_fields : rd (list Z * list Z * list Z) :=
  magic ← cli_take 4;
  _ ← rd_try (refuse_if (negb (bool_decide (magic = SIGNED_MAGIC))) (Integrity [Lit "signed bundle magic is not FSIG"]));
  format ← cli_u32;
  _ ← rd_try (refuse_if (negb (format =? SIGNED_FORMAT)) (Integrity [Lit "unsupported signed bundle format "; Num format]));
  public_key ← cli_len_prefixed;
  signature ← cli_len_prefixed;
  raw ← cli_len_prefixed;
  mret (public_key, signature, raw).

Definition cli_decode_fsig (bytes : list Z) : CliResult (list Z * list Z * list Z) :=
  '(public_key, signature, raw) ← map_err bail_of (run_reader
     (x ← cli_fields; _ ← integrity "trailing bytes in signed bundle" (rd_finish raw_texts); mret x) bytes);
  _ ← refuse_if (negb (len public_key =? ED25519_PUBLIC_KEY_LEN))
        (Bail [Lit "Ed25519 public key must be "; Num ED25519_PUBLIC_KEY_LEN; Lit " bytes, got "; Num (len public_key)]);
  _ ← refuse_if (negb (len signature =? ED25519_SIGNATURE_LEN))
        (Bail [Lit "Ed25519 signature must be "; Num ED25519_SIGNATURE_LEN; Lit " bytes, got "; Num (len signature)]);
  Ok (public_key, signature, raw).

Definition cli_hex_nibble (b : Z) : CliResult Z :=
  if in_range 48 57 b then Ok (b - 48)
  else if in_range 97 102 b then Ok (b - 97 + 10)
  else if in_range 65 70 b then Ok (b - 65 + 10)
  else Err (Bail [Lit "invalid hex byte 0x"; Str (hex_encode [b])]).

Fixpoint cli_hex_pairs (bytes : list Z) : CliResult (list Z) :=
  match bytes with
  | b0 :: b1 :: rest =>
      hi ← with_context [Lit "invalid hex digit"] (cli_hex_nibble b0);
      lo ← with_context [Lit "invalid hex digit"] (cli_hex_nibble b1);
      out ← cli_hex_pairs rest;
      Ok (Z.lor (Z.shiftl hi 4) lo :: out)
  | _ => Ok []
  end.

Definition cli_hex_decode (s : string) : CliResult (list Z) :=
  let bytes := trim_bytes (as_bytes s) in
  _ ← refuse_if (negb (len bytes mod 2 =? 0)) (Bail [Lit "hex string must have even length"]);
  cli_hex_pairs bytes.

(** ** validate.rs and compile.rs *)

Record RuntimeProfileSpec : Type := { rp_source_policy : string; rp_window : string }.
Record FerrumClusterSpec : Type := { fc_kubeconfig_secret_ref : string; fc_labels : gmap string string }.
Record ComplianceSnapshotSpec : Type := { cn_frameworks : list string }.
Record TypedMeta : Type := { tm_api_version : string; tm_kind : string }.

(** [serde_yaml] on one text: the spec of a whole object, and the spec of a document of
    which only [spec] is read. *)
Class YamlOf (S : Type) : Type := { yaml_object : string -> result string S; yaml_spec : string -> result string S }.
Class YamlText : Type := {
  yaml_meta : string -> result string TypedMeta;
  yaml_csp :: YamlOf ClusterSecurityPolicySpec;
  yaml_sp :: YamlOf SecurityPolicySpec;
  yaml_pe :: YamlOf PolicyExceptionSpec;
  yaml_pl :: YamlOf PolicyLibrarySpec;
  yaml_rp :: YamlOf RuntimeProfileSpec;
  yaml_fc :: YamlOf FerrumClusterSpec;
  yaml_cs :: YamlOf ComplianceSnapshotSpec
}.

Section validate.
Context `{Y : YamlText}.

Definition typed_meta (raw : string) : CliResult TypedMeta :=
  meta ← with_context [Lit "parse apiVersion/kind"] (map_err Io (yaml_meta raw));
  _ ← refuse_if (negb (str_eqb (tm_api_version meta) "ferrum.io/v1")) (Bail [Lit "unsupported apiVersion "; Str (tm_api_version meta)]);
  Ok meta.

Definition extract_spec {S} `{YamlOf S} (raw : string) : CliResult S :=
  with_context [Lit "parse spec"] (map_err Io (yaml_spec raw)).
Definition parse_resource {S} `{YamlOf S} (raw : string) : CliResult S :=
  match yaml_object raw with Ok spec => Ok spec | Err _ => extract_spec raw end.

Definition require_non_empty (field value : string) : CliResult unit :=
  refuse_if (str_empty (trim value)) (Bail [Str field; Lit " пуст"]).
Definition is_sha256_hex (s : string) : bool := (slen s =? 64) && forallb is_ascii_hexdigit (as_bytes s).

Definition validate_policy_library (spec : PolicyLibrarySpec) : CliResult unit :=
  _ ← require_non_empty "PolicyLibrary.source" (pls_source spec);
  _ ← require_non_empty "PolicyLibrary.digest" (pls_digest spec);
  refuse_if (negb (is_sha256_hex (pls_digest spec))) (Bail [Lit "PolicyLibrary.digest должен быть 64 hex-символа (SHA-256)"]).
Definition validate_runtime_profile (spec : RuntimeProfileSpec) : CliResult unit :=
  _ ← require_non_empty "RuntimeProfile.sourcePolicy" (rp_source_policy spec);
  require_non_empty "RuntimeProfile.window" (rp_window spec).
Definition validate_ferrum_cluster (spec : FerrumClusterSpec) : CliResult unit :=
  require_non_empty "FerrumCluster.kubeconfigSecretRef" (fc_kubeconfig_secret_ref spec).
Definition validate_compliance_snapshot (spec : ComplianceSnapshotSpec) : CliResult unit :=
  refuse_if (existsb (fun name => str_empty (trim name)) (cn_frameworks spec))
    (Bail [Lit "ComplianceSnapshot.frameworks содержит пустую строку"]).

Definition validate_yaml (raw : string) (now : Z) : CliResult unit :=
  meta ← typed_meta raw;
  let kind := tm_kind meta in
  if str_eqb kind "ClusterSecurityPolicy" then
    spec ← parse_resource (S := ClusterSecurityPolicySpec) raw; lib (validate_cluster_policy spec)
  else if str_eqb kind "SecurityPolicy" then
    spec ← parse_resource (S := SecurityPolicySpec) raw; lib (validate_namespaced_policy spec)
  else if str_eqb kind "PolicyException" then
    spec ← parse_resource (S := PolicyExceptionSpec) raw; lib (validate_exception spec now)
  else if str_eqb kind "PolicyLibrary" then
    spec ← parse_resource (S := PolicyLibrarySpec) raw; validate_policy_library spec
  else if str_eqb kind "RuntimeProfile" then
    spec ← parse_resource (S := RuntimeProfileSpec) raw; validate_runtime_profile spec
  else if str_eqb kind "FerrumCluster" then
    spec ← parse_resource (S := FerrumClusterSpec) raw; validate_ferrum_cluster spec
  else if str_eqb kind "ComplianceSnapshot" then
    spec ← parse_resource (S := ComplianceSnapshotSpec) raw; validate_compliance_snapshot spec
  else Err (Bail [Lit "kind "; Str kind; Lit " validate ещё не подключён"]).

Definition validate_file (fs : CliFs) (path : string) (now : Z) : CliResult unit :=
  raw ← read_text fs [Lit "read "; Str path] path; validate_yaml raw now.

Context (sha256 : list Z -> list Z).

Definition compile_bundle (raw : string) : CliResult CompiledBundle :=
  meta ← typed_meta raw;
  if str_eqb (tm_kind meta) "ClusterSecurityPolicy" then
    spec ← parse_resource (S := ClusterSecurityPolicySpec) raw;
    _ ← lib (validate_cluster_policy spec); lib (compile_cluster_policy sha256 spec)
  else if str_eqb (tm_kind meta) "SecurityPolicy" then
    spec ← parse_resource (S := SecurityPolicySpec) raw;
    _ ← lib (validate_namespaced_policy spec); lib (compile_namespaced_policy sha256 spec)
  else Err (Bail [Lit "kind "; Str (tm_kind meta); Lit " не компилируется в PolicyBundle"]).

Definition compile_yaml (raw : string) : CliResult (list Z * string) :=
  bundle ← compile_bundle raw;
  frmb ← lib (bundle_digest_material AGENT_ABI ADMISSION_ABI (cb_admission_program bundle) (cb_ebpf_spec bundle) (cb_wasm bundle));
  let written := bundle_digest sha256 frmb in
  _ ← refuse_if (negb (str_eqb written (cb_digest bundle)))
        (Bail [Lit "digest расходится: compile="; Str (cb_digest bundle); Lit " material="; Str written]);
  Ok (frmb, cb_digest bundle).

(** The file written, and the digest printed. *)
Definition compile_file (fs : CliFs) (input output : string) : CliResult (string * list Z * string) :=
  raw ← read_text fs [Lit "read "; Str input] input;
  '(frmb, digest) ← compile_yaml raw;
  written ← write_file fs output frmb;
  Ok (written, digest).
End validate.

(** ** sign.rs and verify.rs *)

Section sign.
Context `{E : Ed25519} (sha256 : list Z -> list Z).

Definition read_secret_key (fs : CliFs) (path : string) : CliResult (list Z) :=
  hex ← read_text fs [Lit "read key "; Str path] path;
  secret ← cli_hex_decode hex;
  _ ← refuse_if (negb (len secret =? ED25519_SECRET_KEY_LEN))
        (Bail [Lit "key file must hold "; Num ED25519_SECRET_KEY_LEN; Lit " hex bytes, got "; Num (len secret)]);
  Ok secret.

Definition sign_file (fs : CliFs) (input key output : string) : CliResult (string * list Z * string) :=
  raw ← read_bytes fs [Lit "read "; Str input] input;
  _ ← refuse_if (prefixb SIGNED_MAGIC raw) (Bail [Str input; Lit " уже FSIG; подписывается FRMB, не обёртка"]);
  _ ← refuse_if (negb (prefixb BUNDLE_MAGIC raw)) (Bail [Str input; Lit " не FRMB PolicyBundle"]);
  secret ← read_secret_key fs key;
  public_key ← lib (public_key_from_secret secret);
  signature ← lib (sign_bundle raw secret);
  signed ← cli_encode_fsig raw signature public_key;
  written ← write_file fs output signed;
  Ok (written, bundle_digest sha256 raw).

Definition cli_parse_trust_root (hex : string) : CliResult (list Z) :=
  pin ← cli_hex_decode hex;
  _ ← refuse_if (negb (len pin =? ED25519_PUBLIC_KEY_LEN))
        (Bail [Lit "trust-root pin must be "; Num ED25519_PUBLIC_KEY_LEN; Lit " hex bytes, got "; Num (len pin)]);
  _ ← refuse_if (forallb (fun b => b =? 0) pin) (Bail [Lit "trust-root pin must not be all zeros"]);
  Ok pin.

(** The digest printed. *)
Definition verify_file (fs : CliFs) (input trust_root_hex : string) : CliResult string :=
  bytes ← read_bytes fs [Lit "read "; Str input] input;
  trust_root ← cli_parse_trust_root trust_root_hex;
  '(public_key, signature, raw) ← cli_decode_fsig bytes;
  _ ← refuse_if (negb (bool_decide (public_key = trust_root)))
        (Bail [Lit "embedded FSIG public key does not match caller trust-root pin"]);
  lib (verify_bundle_signature sha256 raw signature trust_root).

(** ** break_glass.rs *)

(** The file written, the grant printed and the trust root printed. *)
Definition sign_grant `{G : GrantJson} (fs : CliFs) (input key output : string) (now : Z) : CliResult (string * list Z * Grant * string) :=
  raw ← read_bytes fs [Lit "read "; Str input] input;
  grant ← with_context [Str input; Lit " is not a break-glass grant"] (map_err Io (grant_of_json raw));
  _ ← lib (check_invariants grant);
  _ ← refuse_if (g_expires_at grant <=? now)
        (Bail [Lit "grant "; Str (g_id grant); Lit " expires at "; Time (g_expires_at grant);
               Lit ", which is in the past: signing it would produce a document the webhook refuses on sight"]);
  secret ← read_secret_key fs key;
  public_key ← lib (public_key_from_secret secret);
  signature ← lib (sign_break_glass raw secret);
  written ← write_file fs output (as_bytes (hex_encode signature));
  Ok (written, grant, hex_encode public_key).
End sign.

Section journal.
Context `{J : EntryJson} (sha256 : list Z -> list Z).

(** The writers in the order they appear, and the lines of each. *)
Record Groups : Type := { gr_order : list string; gr_chains : gmap string (list (list Z)) }.

Definition group_line (path : string) (g : Groups) (n : Z) (line : list Z) : CliResult Groups :=
  entry ← with_context [Str path; Lit ":"; Num (n + 1); Lit ": not a journal entry"] (map_err Io (entry_of_json line));
  _ ← refuse_if (negb (str_eqb (e_schema entry) JOURNAL_SCHEMA))
        (Bail [Str path; Lit ":"; Num (n + 1); Lit ": schema "; Dbg (e_schema entry); Lit " is not "; Str JOURNAL_SCHEMA]);
  let component := e_component entry in
  Ok {| gr_order := match gr_chains g !! component with Some _ => gr_order g | None => gr_order g ++ [component] end;
        gr_chains := <[component := default [] (gr_chains g !! component) ++ [line]]> (gr_chains g) |}.

Fixpoint group_lines (path : string) (g : Groups) (n : Z) (lines : list (list Z)) : CliResult Groups :=
  match lines with [] => Ok g | line :: rest => g ← group_line path g n line; group_lines path g (n + 1) rest end.

Definition verify_group (g : Groups) (component : string) : CliResult (string * list Entry) :=
  entries ← with_context [Lit "chain of "; Str component]
              (lib (verify_lines sha256 (default [] (gr_chains g !! component))));
  Ok (component, entries).

(** The chains printed, in order. *)
Definition verify_journal (fs : CliFs) (input : string) : CliResult (list (string * list Entry)) :=
  text ← read_text fs [Lit "read "; Str input] input;
  let lines := List.filter not_blank (lines_of (as_bytes text)) in
  if is_empty lines then Ok []
  else g ← group_lines input {| gr_order := []; gr_chains := ∅ |} 0 lines; try_map (verify_group g) (gr_order g).
End journal.

(** ** One envelope, one hex, four readers *)

(** The CLI's copy of the envelope reader accepts exactly what the mounts accept. *)
Lemma cli_decode_agrees bytes x : cli_decode_fsig bytes = Ok x <-> decode_fsig bytes = Ok x.
Proof.
  rewrite <- envelope_decode_agrees. unfold cli_decode_fsig, decode_fsig_envelope. rewrite !bind_ok.
  change cli_fields with envelope_fields. split; intros ([[pk sig] raw] & H1 & H2); exists (pk, sig, raw).
  - apply map_err_ok in H1. split; [done|]. rewrite !bind_ok_unit, !refuse_if_ok in H2. destruct H2 as (? & Hs & [= <-]).
    rewrite !bind_ok_unit, !refuse_if_ok. split_and!; try done. by destruct sig.
  - apply map_err_ok with (f := bail_of) in H1. split; [done|]. rewrite !bind_ok_unit, !refuse_if_ok in H2.
    destruct H2 as (_ & ? & ? & [= <-]). rewrite !bind_ok_unit, !refuse_if_ok. done.
Qed.

Lemma cli_encode_agrees raw sig pk bytes : cli_encode_fsig raw sig pk = Ok bytes <-> encode_fsig raw sig pk = Ok bytes.
Proof.
  unfold cli_encode_fsig, encode_fsig. rewrite !bind_ok_unit, !refuse_if_ok.
  assert (Hb : forall out, (out ← put_len_prefixed out pk; out ← put_len_prefixed out sig; put_len_prefixed out raw) = Ok bytes <->
    (out ← append_blob out pk "public_key"; out ← append_blob out sig "signature"; append_blob out raw "raw") = Ok bytes).
  { intros out. unfold put_len_prefixed, append_blob. destruct (len pk <? U32); [|done]. cbn [mbind result_mbind].
    destruct (len sig <? U32); [|done]. cbn [mbind result_mbind]. destruct (len raw <? U32); [naive_solver|done]. }
  rewrite Hb. split; [|naive_solver]. intros (Hs & Hp & H). split_and!; try done. by destruct sig.
Qed.

Lemma cli_nibble_agrees b : cli_hex_nibble b = match hex_nibble b with Ok v => Ok v | Err _ => Err (Bail [Lit "invalid hex byte 0x"; Str (hex_encode [b])]) end.
Proof. unfold cli_hex_nibble, hex_nibble. by repeat case_match. Qed.
Lemma cli_hex_agrees s l : cli_hex_decode s = Ok l <-> hex_decode s = Ok l.
Proof.
  unfold cli_hex_decode, hex_decode. rewrite !bind_ok_unit, !refuse_if_ok. generalize (trim_bytes (as_bytes s)). intros bytes.
  assert (Hp : forall n bytes l, (length bytes < n)%nat -> cli_hex_pairs bytes = Ok l <-> hex_pairs bytes = Ok l); [|by rewrite (Hp (S (length bytes))) by lia].
  clear. induction n as [|n IH]; [lia|]. intros [|b0 [|b1 rest]] l Hn; simpl; [naive_solver..|]. rewrite !cli_nibble_agrees.
  destruct (hex_nibble b0); simpl; [|done]. destruct (hex_nibble b1); simpl; [|done]. rewrite !bind_ok.
  setoid_rewrite IH; [naive_solver|simpl in Hn; lia].
Qed.

(** The pin of the command line is a pin of the webhook, less the key of zeros. *)
Lemma cli_pin_agrees hex pin : cli_parse_trust_root hex = Ok pin <->
  parse_trust_root hex = Ok pin /\ forallb (fun b => b =? 0) pin = false.
Proof.
  unfold cli_parse_trust_root, parse_trust_root. rewrite !bind_ok. setoid_rewrite cli_hex_agrees. split.
  - intros (l & Hl & H). rewrite !bind_ok_unit, !refuse_if_ok in H. destruct H as (H1 & H2 & [= ->]). split; [|done].
    exists pin. split; [done|]. rewrite bind_ok_unit, refuse_if_ok. done.
  - intros [(l & Hl & H) Hz]. rewrite bind_ok_unit, refuse_if_ok in H. destruct H as [H1 [= ->]]. exists pin. split; [done|].
    rewrite !bind_ok_unit, !refuse_if_ok. done.
Qed.

(** ** The offline tool chain *)

Section toolchain.
Context `{E : Ed25519} `{!Ed25519Laws E} `{Y : YamlText} (sha256 : list Z -> list Z).
Context (Hsha : forall m, len (sha256 m) = 32 /\ Forall (fun b => 0 <= b < 256) (sha256 m)).

(** The effects of the policy a text states. *)
Definition yaml_states (raw : string) (fx : Effects) : Prop :=
  exists meta, typed_meta raw = Ok meta /\
    ((tm_kind meta = "ClusterSecurityPolicy" /\ exists spec, parse_resource raw = Ok spec /\
        validate_cluster_policy spec = Ok tt /\ fx = effects_of_cluster spec) \/
     (tm_kind meta = "SecurityPolicy" /\ exists spec, parse_resource raw = Ok spec /\
        validate_namespaced_policy spec = Ok tt /\ fx = effects_of_namespaced spec)).

Lemma compile_bundle_exact raw c : compile_bundle sha256 raw = Ok c <-> exists fx, yaml_states raw fx /\ emit_bundle sha256 fx = Ok c.
Proof.
  unfold compile_bundle, yaml_states, lib. destruct (typed_meta raw) as [meta|e] eqn:Em; [|naive_solver]. cbn [mbind result_mbind].
  destruct (str_eqb (tm_kind meta) "ClusterSecurityPolicy") eqn:E1; [apply str_eqb_true in E1 | apply str_eqb_false in E1;
    destruct (str_eqb (tm_kind meta) "SecurityPolicy") eqn:E2; [apply str_eqb_true in E2|apply str_eqb_false in E2; naive_solver]].
  - rewrite bind_ok. split.
    + intros (spec & Hs & H). rewrite bind_ok_unit, !map_err_ok in H. destruct H as [Hv H]. exists (effects_of_cluster spec).
      split; [naive_solver|]. unfold compile_cluster_policy in H. by rewrite Hv in H.
    + intros (fx & (m & [= <-] & [(_ & spec & Hs & Hv & ->)|(Hk & _)]) & He); [|congruence]. exists spec. split; [done|].
      rewrite bind_ok_unit, !map_err_ok. split; [done|]. unfold compile_cluster_policy. by rewrite Hv.
  - rewrite bind_ok. split.
    + intros (spec & Hs & H). rewrite bind_ok_unit, !map_err_ok in H. destruct H as [Hv H]. exists (effects_of_namespaced spec).
      split; [naive_solver|]. unfold compile_namespaced_policy in H. by rewrite Hv in H.
    + intros (fx & (m & [= <-] & [(Hk & _)|(_ & spec & Hs & Hv & ->)]) & He); [congruence|]. exists spec. split; [done|].
      rewrite bind_ok_unit, !map_err_ok. split; [done|]. unfold compile_namespaced_policy. by rewrite Hv.
Qed.

(** Compiling adds no digest check of its own: whenever the policy compiles, the material
    is written under the digest of the compiler. *)
Lemma compile_yaml_exact raw frmb d : compile_yaml sha256 raw = Ok (frmb, d) <->
  exists fx c, yaml_states raw fx /\ emit_bundle sha256 fx = Ok c /\
    bundle_digest_material AGENT_ABI ADMISSION_ABI (cb_admission_program c) (cb_ebpf_spec c) (cb_wasm c) = Ok frmb /\
    d = bundle_digest sha256 frmb /\ cb_digest c = d.
Proof.
  unfold compile_yaml, lib. rewrite bind_ok. setoid_rewrite compile_bundle_exact. split.
  - intros (c & (fx & Hy & He) & H). apply bind_ok in H as (m & Hm & H). apply map_err_ok in Hm.
    rewrite bind_ok_unit, refuse_if_ok in H. destruct H as [Hd [= <- <-]]. apply negb_false_iff, str_eqb_true in Hd. by exists fx, c.
  - intros (fx & c & Hy & He & Hm & -> & Hd). exists c. split; [by exists fx|]. rewrite bind_ok. exists frmb.
    rewrite map_err_ok. split; [done|]. by rewrite Hd, str_eqb_refl.
Qed.

(** A text that compiles validates. *)
Lemma compiled_text_validates raw now frmb d : compile_yaml sha256 raw = Ok (frmb, d) -> validate_yaml raw now = Ok tt.
Proof.
  intros (fx & c & (meta & Hm & Hk) & _)%compile_yaml_exact. unfold validate_yaml. rewrite Hm. cbn [mbind result_mbind]. unfold lib.
  destruct Hk as [(-> & spec & Hs & Hv & _)|(-> & spec & Hs & Hv & _)].
  - change (str_eqb "ClusterSecurityPolicy" "ClusterSecurityPolicy") with true. cbn match. rewrite Hs. cbn [mbind result_mbind]. by rewrite Hv.
  - change (str_eqb "SecurityPolicy" "ClusterSecurityPolicy") with false. change (str_eqb "SecurityPolicy" "SecurityPolicy") with true.
    cbn match. rewrite Hs. cbn [mbind result_mbind]. by rewrite Hv.
Qed.

(** [verify] accepts exactly the envelopes that carry the pinned key and its signature. *)
Lemma verify_file_exact fs input hex d : verify_file sha256 fs input hex = Ok d <->
  exists bytes root signature raw, cf_read fs input = Ok bytes /\ cli_parse_trust_root hex = Ok root /\
    decode_fsig bytes = Ok (root, signature, raw) /\ verify_bundle_signature sha256 raw signature root = Ok d.
Proof.
  unfold verify_file, read_bytes, with_context, lib. rewrite bind_ok. setoid_rewrite map_err_ok. setoid_rewrite map_err_ok. split.
  - intros (bytes & Hr & H). apply bind_ok in H as (root & Hp & H). apply bind_ok in H as ([[pk sig] raw] & Hd & H).
    apply cli_decode_agrees in Hd. rewrite bind_ok_unit, refuse_if_ok, map_err_ok in H. destruct H as [He Hv].
    apply negb_false_iff, bool_decide_eq_true in He as ->. by exists bytes, root, sig, raw.
  - intros (bytes & root & sig & raw & Hr & Hp & Hd & Hv). exists bytes. split; [done|]. rewrite bind_ok. exists root. split; [done|].
    rewrite bind_ok. exists (root, sig, raw). split; [by apply cli_decode_agrees|]. rewrite bind_ok_unit, refuse_if_ok, map_err_ok.
    split; [|done]. by rewrite bool_decide_true.
Qed.

Lemma public_pin seed root : public_key_from_secret seed = Ok root -> cli_parse_trust_root (hex_encode root) = Ok root.
Proof.
  intros (-> & Hlen & Hl & _ & _)%key_of_seed. destruct (ed_public_ok seed Hlen) as (_ & _ & Hex & Hb).
  apply cli_pin_agrees. split.
  - unfold parse_trust_root. rewrite (proj2 (text_encodings_roundtrip _ Hb)). cbn [mbind result_mbind]. by rewrite Hl.
  - apply not_true_iff_false. rewrite forallb_forall. intros Hz. apply Exists_exists in Hex as (b & Hin & Hne).
    apply Hne. specialize (Hz b). rewrite <- list_elem_of_In in Hz. specialize (Hz Hin). lia.
Qed.

(** What [sign] writes is the envelope the controller would have written. *)
Lemma sign_file_exact fs input key output path fsig d : sign_file sha256 fs input key output = Ok (path, fsig, d) ->
  exists raw seed root, cf_read fs input = Ok raw /\ prefixb BUNDLE_MAGIC raw = true /\ public_key_from_secret seed = Ok root /\
    path = output /\ d = bundle_digest sha256 raw /\ sb_encode (signed_over sha256 seed root raw) = Ok fsig.
Proof.
  unfold sign_file, read_bytes, with_context, lib. intros H. apply bind_ok in H as (raw & Hr & H). rewrite !map_err_ok in Hr.
  rewrite !bind_ok_unit, !refuse_if_ok in H. destruct H as (_ & Hm & H). apply bind_ok in H as (seed & _ & H).
  apply bind_ok in H as (root & Hk & H). apply map_err_ok in Hk. apply bind_ok in H as (sig & Hs & H). apply map_err_ok in Hs.
  apply bind_ok in H as (signed & He & H). apply cli_encode_agrees in He. apply bind_ok in H as ([p b] & Hw & [= <- <- <-]).
  unfold write_file in Hw. destruct (cf_write fs output); [done|]. injection Hw as <- <-.
  exists raw, seed, root. apply negb_false_iff in Hm. split_and!; try done. destruct (key_of_seed _ _ Hk) as (_ & _ & _ & _ & Hp).
  unfold sign_bundle in Hs. rewrite Hp in Hs. injection Hs as <-. done.
Qed.

(** From a text to the programs that run, offline: what [compile] wrote and [sign] signed
    is accepted by [verify] under the key of the seed with the digest all three print, and
    is loaded by the webhook and by the agent as exactly the policy the text states. *)
Lemma toolchain_bundle_loads `{T : JsonText} fs input output key frmb fsig_path signed fsig raw d d' fx fs' hex root :
  compile_yaml sha256 raw = Ok (frmb, d) -> yaml_states raw fx -> effects_ok fx ->
  cf_read fs input = Ok frmb -> sign_file sha256 fs input key output = Ok (fsig_path, fsig, d') ->
  cf_read fs' signed = Ok fsig -> cli_parse_trust_root hex = Ok root ->
  (exists secret, read_secret_key fs key = Ok secret /\ public_key_from_secret secret = Ok root) ->
  d' = d /\ verify_file sha256 fs' signed hex = Ok d /\ loads_as sha256 root fsig d fx.
Proof.
  intros Hc Hy Hok Hr Hs Hr' Hpin (secret & Hsec & Hroot). pose proof Hs as Hs0.
  apply sign_file_exact in Hs as (raw' & seed & root' & Hraw & _ & Hk & -> & -> & He). rewrite Hr in Hraw. injection Hraw as <-.
  assert (root' = root) as ->.
  { unfold sign_file, read_bytes, with_context, lib in Hs0. rewrite Hr, Hsec in Hs0. cbn [map_err mbind result_mbind] in Hs0.
    rewrite !bind_ok_unit in Hs0. destruct Hs0 as (_ & _ & Hs0). cbn [mbind result_mbind] in Hs0. rewrite Hroot in Hs0.
    cbn [map_err mbind result_mbind] in Hs0. apply bind_ok in Hs0 as (sig & _ & Hs0). apply bind_ok in Hs0 as (b & Hb & Hs0).
    apply bind_ok in Hs0 as ([p bs] & Hw & Hx). injection Hx as ? ?. subst p bs. unfold write_file in Hw. destruct (cf_write fs output); [done|]. injection Hw as ->.
    apply cli_encode_agrees in Hb. unfold sb_encode, encode_fsig_envelope in He. cbn in He.
    pose proof (fsig_fits _ _ _ _ Hb) as [Hl _]. destruct (fsig_roundtrip _ _ _ _ Hb Hl) as [H1 _]. destruct (fsig_roundtrip _ _ _ _ He Hl) as [H2 _].
    rewrite H1 in H2. by injection H2. }
  apply compile_yaml_exact in Hc as (fx' & c & Hy' & Hem & Hm & -> & Hd).
  assert (fx' = fx) as ->.
  { destruct Hy as (m & Hm1 & Hk1), Hy' as (m' & Hm2 & Hk2). rewrite Hm1 in Hm2. injection Hm2 as <-.
    destruct Hk1 as [(K1 & s1 & P1 & _ & ->)|(K1 & s1 & P1 & _ & ->)], Hk2 as [(K2 & s2 & P2 & _ & ->)|(K2 & s2 & P2 & _ & ->)]; congruence. }
  split; [done|]. split.
  - apply verify_file_exact. destruct (signed_envelope_of sha256 Hsha _ _ _ _ Hk He) as [_ Hdec]. eexists _, _, _, _. split_and!; [done..|].
    apply (signed_over_verifies sha256 seed root frmb Hk).
  - exact (published_loads sha256 Hsha fx c seed root frmb fsig Hok Hem Hk Hm He).
Qed.
End toolchain.

(** ** Break-glass by hand *)

Section by_hand.
Context `{E : Ed25519} `{!Ed25519Laws E} `{G : GrantJson} (sha256 : list Z -> list Z).
Context (Hbytes : forall seed m, Forall (fun b => 0 <= b < 256) (ed_sign seed m)).

(** A grant that is signed is one the webhook, armed with the printed trust root, honours
    at every instant of its window, and the window is still open when it is signed. *)
Lemma signed_grant_is_honoured fs input key output now path text grant root_hex :
  sign_grant fs input key output now = Ok (path, text, grant, root_hex) ->
  exists raw sig root, cf_read fs input = Ok raw /\ hex_decode (string_of_bytes text) = Ok sig /\ parse_trust_root root_hex = Ok root /\
    now < g_expires_at grant /\
    forall t, g_issued_at grant <= t < g_expires_at grant ->
      verify_grant sha256 raw sig root t = Ok {| vg_grant := grant; vg_digest := bundle_digest sha256 raw |}.
Proof.
  unfold sign_grant, read_bytes, with_context, lib. intros H. apply bind_ok in H as (raw & Hr & H). rewrite !map_err_ok in Hr.
  apply bind_ok in H as (g & Hg & H). rewrite !map_err_ok in Hg. rewrite !bind_ok_unit, map_err_ok, refuse_if_ok in H.
  destruct H as (Hi & Hx & H). apply bind_ok in H as (seed & _ & H). apply bind_ok in H as (root & Hk & H). apply map_err_ok in Hk.
  apply bind_ok in H as (sig & Hs & H). apply map_err_ok in Hs. apply bind_ok in H as ([p b] & Hw & Hres). injection Hres as <- <- <- <-.
  unfold write_file in Hw. destruct (cf_write fs output); [done|]. injection Hw as <- <-.
  pose proof (key_of_seed _ _ Hk) as (Er & Hlen & Hrl & _ & Hp). unfold sign_break_glass in Hs. rewrite Hp in Hs. injection Hs as <-.
  exists raw, (ed_sign seed (domain_message BREAK_GLASS_CONTEXT raw)), root. destruct (ed_public_ok seed Hlen) as (_ & _ & _ & Hb).
  split_and!; [done| | |lia|].
  - rewrite string_of_as_bytes. by apply text_encodings_roundtrip.
  - unfold parse_trust_root. rewrite (proj2 (text_encodings_roundtrip root ltac:(by rewrite Er))). cbn [mbind result_mbind]. by rewrite Hrl.
  - intros t Ht. apply verify_grant_ok. unfold honoured, covers. cbn [vg_grant vg_digest]. split_and!; try done.
    + destruct (signed_parts seed (domain_message BREAK_GLASS_CONTEXT raw) Hlen) as (Hk1 & Hs1 & Hv). subst root.
      unfold verify_break_glass_signature. rewrite Hk1, Hs1. cbn [mbind result_mbind]. by rewrite Hv.
    + by apply check_invariants_ok.
    + lia.
Qed.
End by_hand.

(** ** The journal, chain by chain *)

Section chains.
Context `{J : EntryJson} (sha256 : list Z -> list Z).

Definition writer (line : list Z) : string := match entry_of_json line with Ok e => e_component e | Err _ => "" end.
Definition entry_line (line : list Z) : Prop := exists e, entry_of_json line = Ok e /\ e_schema e = JOURNAL_SCHEMA.
Definition of_writer (c : string) (lines : list (list Z)) : list (list Z) := List.filter (fun l => bool_decide (writer l = c)) lines.
(** The distinct elements in the order of their first occurrence. *)
Definition firsts (l : list string) : list string := foldl (fun acc c => if base.decide (c ∈ acc) then acc else acc ++ [c]) [] l.

Lemma firsts_snoc l c : firsts (l ++ [c]) = if base.decide (c ∈ firsts l) then firsts l else firsts l ++ [c].
Proof. unfold firsts. by rewrite foldl_app. Qed.
Lemma elem_of_firsts l c : c ∈ firsts l <-> c ∈ l.
Proof.
  induction l as [|x l IH] using rev_ind; [done|]. rewrite firsts_snoc. destruct (base.decide (x ∈ firsts l)); set_solver.
Qed.
Lemma of_writer_nil c lines : of_writer c lines = [] <-> c ∉ map writer lines.
Proof.
  unfold of_writer. induction lines as [|l lines IH]; simpl; [set_solver|]. destruct (bool_decide_reflect (writer l = c)); set_solver.
Qed.

Record grouped (lines : list (list Z)) (g : Groups) : Prop := {
  g_order : gr_order g = firsts (map writer lines);
  g_chains c : gr_chains g !! c = match of_writer c lines with [] => None | l => Some l end
}.

Lemma group_line_grouped path lines g n line :
  grouped lines g ->
  match group_line path g n line with Ok g' => entry_line line /\ grouped (lines ++ [line]) g' | Err _ => ~ entry_line line end.
Proof.
  intros [Ho Hc]. unfold group_line, entry_line, with_context. destruct (entry_of_json line) as [e|] eqn:Ee; cbn [map_err mbind result_mbind]; [|naive_solver].
  unfold refuse_if. destruct (str_eqb (e_schema e) JOURNAL_SCHEMA) eqn:Es; cbn [negb mbind result_mbind].
  2: { apply str_eqb_false in Es. naive_solver. }
  apply str_eqb_true in Es. split; [by exists e|]. assert (Ew : writer line = e_component e) by (unfold writer; by rewrite Ee).
  split; cbn [gr_order gr_chains].
  - rewrite map_app. cbn [map]. rewrite firsts_snoc, Ew, Hc. destruct (of_writer (e_component e) lines) as [|l0 ls] eqn:Ef.
    + apply of_writer_nil in Ef. rewrite decide_False by (by rewrite elem_of_firsts). by rewrite Ho.
    + rewrite decide_True; [done|]. rewrite elem_of_firsts. destruct (base.decide (e_component e ∈ map writer lines)) as [|Hn]; [done|].
      apply of_writer_nil in Hn. congruence.
  - intros c. unfold of_writer. rewrite List.filter_app. fold (of_writer c lines). cbn [List.filter]. rewrite Ew.
    destruct (bool_decide_reflect (e_component e = c)) as [<-|Hne].
    + rewrite lookup_insert_eq, Hc. by destruct (of_writer (e_component e) lines).
    + rewrite lookup_insert_ne by done. rewrite app_nil_r. apply Hc.
Qed.

Lemma group_lines_grouped path rest : forall lines g n, grouped lines g ->
  match group_lines path g n rest with Ok g' => Forall entry_line rest /\ grouped (lines ++ rest) g' | Err _ => ~ Forall entry_line rest end.
Proof.
  induction rest as [|l rest IH]; intros lines g n Hg; cbn [group_lines].
  - rewrite app_nil_r. by split.
  - pose proof (group_line_grouped path lines g n l Hg) as H. destruct (group_line path g n l) as [g'|]; cbn [mbind result_mbind].
    2: { intros Hf. by apply Forall_cons_1 in Hf as [? _]. }
    destruct H as [Hl Hg']. specialize (IH _ _ (n + 1) Hg'). destruct (group_lines path g' (n + 1) rest).
    + destruct IH as [Hf Hg2]. rewrite <- app_assoc in Hg2. split; [by constructor|done].
    + intros Hf. by apply Forall_cons_1 in Hf as [_ ?].
Qed.

(** [verify-journal] accepts a file exactly when every line that is not blank is an entry
    of this schema and the lines of every writer, taken alone and in the order of the file,
    are a chain; and it prints those chains, one per writer, in the order of their first
    line. However the chains of several replicas are interleaved, they verify together if
    and only if each verifies alone. *)
Lemma verify_journal_exact fs input chains : verify_journal sha256 fs input = Ok chains <->
  exists bytes text, cf_read fs input = Ok bytes /\ from_utf8 bytes = Some text /\
    let lines := List.filter not_blank (lines_of (as_bytes text)) in
    Forall entry_line lines /\ map fst chains = firsts (map writer lines) /\
    Forall (fun ce => verify_lines sha256 (of_writer (fst ce) lines) = Ok (snd ce)) chains.
Proof.
  unfold verify_journal, read_text, read_bytes, with_context. rewrite bind_ok. setoid_rewrite bind_ok. setoid_rewrite map_err_ok. setoid_rewrite map_err_ok.
  assert (Hmain : forall lines, (if is_empty lines then Ok []
      else g ← group_lines input {| gr_order := []; gr_chains := ∅ |} 0 lines; try_map (verify_group sha256 g) (gr_order g)) = Ok chains <->
    Forall entry_line lines /\ map fst chains = firsts (map writer lines) /\
    Forall (fun ce => verify_lines sha256 (of_writer (fst ce) lines) = Ok (snd ce)) chains).
  { intros lines. destruct (is_empty lines) eqn:El.
    - apply is_empty_true in El as ->. split; [intros [= <-]; split_and!; constructor|]. intros (_ & Hm & _). by destruct chains.
    - pose proof (group_lines_grouped input lines [] {| gr_order := []; gr_chains := ∅ |} 0) as H.
      destruct (group_lines _ _ 0 lines) as [g|e]; cbn [mbind result_mbind].
      2: { split; [done|]. intros [Hf _]. by destruct H. }
      destruct H as [Hf [Ho Hc]]; [by split|]. cbn [app] in Ho, Hc. rewrite try_map_ok, Ho.
      assert (Hg : forall c ce, verify_group sha256 g c = Ok ce <-> c = fst ce /\ verify_lines sha256 (of_writer (fst ce) lines) = Ok (snd ce)).
      { intros c [c' es]. unfold verify_group, with_context, lib. rewrite bind_ok. setoid_rewrite map_err_ok. setoid_rewrite map_err_ok.
        cbn [fst snd]. rewrite Hc.
        assert (default [] (match of_writer c lines with [] => None | l => Some l end) = of_writer c lines) as -> by (by destruct (of_writer c lines)).
        split; [intros (es' & Hv & [= -> ->]); done|]. intros [-> Hv]. by exists es. }
      split.
      + intros H2. split; [done|]. split.
        * clear -H2 Hg. induction H2 as [|c ce cs ces Hc1 _ IH2]; [done|]. cbn [map]. apply Hg in Hc1 as [-> _]. by rewrite IH2.
        * clear -H2 Hg. induction H2 as [|c ce cs ces Hc1 _ IH2]; constructor; [|done]. by apply Hg in Hc1 as [_ ?].
      + intros (_ & <- & Hv). clear -Hv Hg. induction Hv as [|ce ces Hv _ IH2]; constructor; [|done]. by apply Hg. }
  split.
  - intros (text & (bytes & Hr & Ht) & H). exists bytes, text. split; [done|]. destruct (from_utf8 bytes); [|done]. injection Ht as ->.
    split; [done|]. by apply Hmain.
  - intros (bytes & text & Hr & Ht & H). exists text. split; [|by apply Hmain]. exists bytes. by rewrite Ht.
Qed.
End chains.

(** The line number of a refusal counts the lines that are not blank: here the second line
    of the file is reported as [journal:1]. *)
Lemma blank_lines_shift_the_report `{J : EntryJson} sha256 err (bytes := [10; 120; 10])
    (fs := {| cf_read := fun _ => Ok bytes; cf_write := fun _ => None |}) :
  entry_of_json [120] = Err err ->
  verify_journal sha256 fs "journal" = Err (Ctx [Str "journal"; Lit ":"; Num 1; Lit ": not a journal entry"] (Io err)).
Proof.
  intros H. unfold verify_journal, read_text, read_bytes, with_context. cbn [cf_read fs map_err mbind result_mbind].
  change (from_utf8 bytes) with (Some (string_of_bytes bytes)). cbn [ok_or mbind result_mbind].
  change (List.filter not_blank (lines_of (as_bytes (string_of_bytes bytes)))) with [[120]]. cbn [is_empty group_lines]. unfold group_line.
  rewrite H. reflexivity.
Qed.
