(* ===== verification/GenPki.v ===== *)
(** * ferrumctl gen-webhook-pki

    [crates/ferrum-cli/src/gen_pki.rs]: the CA and the serving certificate of the webhook,
    issued offline into a directory, and the rotation of the leaf under the CA the cluster
    trusts. Files are a map from paths to contents and whether only the owner may read
    them; what a write may meet is a fault per path. *)

From S2P Require Import Prelude RustStd RustText Ids Compiler Journal Encoding X509 Cli.

Definition WEBHOOK_TEMPLATE_FILE : string := "validatingwebhookconfiguration.tmpl.yaml".
Definition WEBHOOK_RENDERED_FILE : string := "validatingwebhookconfiguration.yaml".
Definition CA_CERT_FILE : string := "ca.crt".
Definition CA_KEY_FILE : string := "ca.key".
Definition CA_BUNDLE_PLACEHOLDER : string := "REPLACE_WITH_PEM_CA_BUNDLE_BASE64".
Definition WEBHOOK_TLS_SECRET_SUFFIX : string := "-tls".

Record GenPkiArgs : Type := {
  ga_service : string; ga_namespace : string; ga_days : Z; ga_out_dir : option string; ga_template : option string;
  ga_ca_cert : option string; ga_ca_key : option string; ga_webhook_config : option string
}.

(** ** Paths and text *)

(** [Path::join] of a relative name. *)
Definition join (dir name : string) : string :=
  if str_empty dir || bool_decide (last (as_bytes dir) = Some 47) then dir +:+ name else dir +:+ "/" +:+ name.

(** [Path::parent], without the repeated separators and the [.] it would keep: the
    components but the last; none is left of the root or of the empty path. *)
Definition components (p : string) : list (list Z) :=
  List.filter (fun c => negb (is_empty c) && negb (bool_decide (c = [46]))) (split_on 47 (as_bytes p)).
Definition parent (p : string) : option string :=
  let cs := components p in
  if is_empty cs then None
  else Some ((if prefixb [47] (as_bytes p) then "/" else "") +:+ String.concat "/" (map string_of_bytes (take (length cs - 1) cs))).

(** [str::replace]: every occurrence, from the left. *)
Fixpoint replace_from (pat by_ : list Z) (skip : nat) (l : list Z) : list Z :=
  match l with
  | [] => []
  | c :: l' =>
      match skip with
      | S k => replace_from pat by_ k l'
      | O => if prefixb pat l then by_ ++ replace_from pat by_ (length pat - 1) l' else c :: replace_from pat by_ 0 l'
      end
  end.
Definition replace_all (pat by_ text : string) : list Z := replace_from (as_bytes pat) (as_bytes by_) 0 (as_bytes text).

(** ** Files *)

Record PkiFile : Type := { pf_private : bool; pf_bytes : list Z }.
Record PkiFs : Type := { px_files : gmap string PkiFile; px_dirs : gset string }.

Definition is_dir (fs : PkiFs) (path : string) : bool := bool_decide (path ∈ px_dirs fs).
Definition is_file (fs : PkiFs) (path : string) : bool := match px_files fs !! path with Some _ => true | None => false end.
Definition path_exists (fs : PkiFs) (path : string) : bool := is_file fs path || is_dir fs path.
Definition put_file (path : string) (f : PkiFile) (fs : PkiFs) : PkiFs := {| px_files := <[path := f]> (px_files fs); px_dirs := px_dirs fs |}.

Definition read_to_string (fs : PkiFs) (context : msg) (path : string) : CliResult string :=
  match px_files fs !! path with
  | None => Err (Ctx context (Io "No such file or directory (os error 2)"))
  | Some f => ok_or (from_utf8 (pf_bytes f)) (Ctx context (Io "stream did not contain valid UTF-8"))
  end.

(** [write_private]: created for the owner only, and never over a file that is there. *)
Definition write_private (fs : PkiFs) (fault : IoFault) (path : string) (data : list Z) : PkiFs * CliResult unit :=
  if path_exists fs path then (fs, Err (Ctx [Lit "create "; Str path] (Io "File exists (os error 17)")))
  else match fault with
       | OpenFails err => (fs, Err (Ctx [Lit "create "; Str path] (Io err)))
       | WriteFails n err => (put_file path {| pf_private := true; pf_bytes := take n data |} fs, Err (Ctx [Lit "write "; Str path] (Io err)))
       | SyncFails err => (put_file path {| pf_private := true; pf_bytes := data |} fs, Err (Ctx [Lit "sync "; Str path] (Io err)))
       | NoFault => (put_file path {| pf_private := true; pf_bytes := data |} fs, Ok tt)
       end.

(** [fs::write]: created or truncated, then written; no sync. *)
Definition write_plain (fs : PkiFs) (fault : IoFault) (path : string) (data : list Z) : PkiFs * CliResult unit :=
  let private := match px_files fs !! path with Some f => pf_private f | None => false end in
  if is_dir fs path then (fs, Err (Ctx [Lit "write "; Str path] (Io "Is a directory (os error 21)")))
  else match fault with
       | OpenFails err => (fs, Err (Ctx [Lit "write "; Str path] (Io err)))
       | WriteFails n err => (put_file path {| pf_private := private; pf_bytes := take n data |} fs, Err (Ctx [Lit "write "; Str path] (Io err)))
       | _ => (put_file path {| pf_private := private; pf_bytes := data |} fs, Ok tt)
       end.

(** The next write, unless the last one failed. *)
Definition and_then (r : PkiFs * CliResult unit) (k : PkiFs -> PkiFs * CliResult unit) : PkiFs * CliResult unit :=
  match r with (fs, Ok _) => k fs | (fs, Err e) => (fs, Err e) end.

(** ** Manifests *)

Definition NL : string := string_of_bytes [10].
Definition unlines (ls : list string) : string := foldr (fun l rest => l +:+ NL +:+ rest) "" ls.
Definition base64_text (text : string) : string := string_of_bytes (x_base64_encode (as_bytes text)).

Definition secret_manifest (secret_name namespace service : string) (serving : ServingMaterial) : string :=
  unlines
    ["apiVersion: v1"; "kind: Secret"; "metadata:"; "  name: " +:+ secret_name; "  namespace: " +:+ namespace; "  labels:";
     "    app.kubernetes.io/name: " +:+ service; "    app.kubernetes.io/part-of: ferrum"; "type: kubernetes.io/tls"; "data:";
     "  tls.crt: " +:+ base64_text (sv_cert_pem serving); "  tls.key: " +:+ base64_text (sv_key_pem serving)].

Definition rotation_note (secret_name namespace : string) : string :=
  unlines
    ["# Rotation: same CA, new leaf. The caBundle and the applied";
     "# ValidatingWebhookConfiguration do not change.";
     "# kubectl -n " +:+ namespace +:+ " apply -f <this Secret>, then restart the webhook Pods";
     "# (or wait for kubelet to refresh the mount; the server reloads it in place).";
     "# Secret: " +:+ secret_name].

Definition ca_bundle_note (service ca_bundle secret_name namespace : string) : string :=
  unlines
    ["# caBundle for the ValidatingWebhookConfiguration; substitutes";
     "# " +:+ CA_BUNDLE_PLACEHOLDER +:+ " in " +:+ WEBHOOK_TEMPLATE_FILE +:+ ".";
     "# kubectl -n " +:+ namespace +:+ " create -f - <<< the Secret above, then apply the rendered file.";
     "# Secret: " +:+ secret_name +:+ "   Service: " +:+ service;
     "caBundle: " +:+ ca_bundle].

(** ** The applied configuration *)

Definition ca_dir (args : GenPkiArgs) : option string :=
  cert ← ga_ca_cert args; dir ← parent cert; Some (if str_empty dir then "." else dir).

(** The first [caBundle] of a configuration. *)
Definition ca_bundle_line (line : list Z) : option (list Z) := strip_prefix (as_bytes "caBundle:") (trim_bytes line).
Fixpoint find_map {A B} (f : A -> option B) (l : list A) : option B :=
  match l with [] => None | a :: l' => match f a with Some b => Some b | None => find_map f l' end end.
Definition rendered_ca_bundle (raw : string) : option string :=
  option_map (fun v => string_of_bytes (trim_bytes v)) (find_map ca_bundle_line (lines_of (as_bytes raw))).

Definition rendered_ca_bundle_matches (fs : PkiFs) (path ca_bundle : string) : CliResult unit :=
  raw ← read_to_string fs [Lit "read applied webhook configuration "; Str path] path;
  current ← ok_or (rendered_ca_bundle raw)
              (Bail [Str path; Lit ": carries no caBundle, so it cannot say which CA the cluster trusts"]);
  refuse_if (negb (str_eqb current ca_bundle))
    (Bail [Str path; Lit ": its caBundle is not the CA given as --ca-cert. Rotating the leaf under a different CA leaves the applied webhook trusting the wrong issuer"]).

(** The directories in which a rendered configuration may lie. *)
Definition check_dirs (args : GenPkiArgs) : list string :=
  match ca_dir args with Some d => [d] | None => [] end ++ match ga_out_dir args with Some d => [d] | None => [] end.

Fixpoint check_rendered (fs : PkiFs) (ca_bundle : string) (checked : bool) (dirs : list string) : CliResult bool :=
  match dirs with
  | [] => Ok checked
  | dir :: rest =>
      let path := join dir WEBHOOK_RENDERED_FILE in
      if negb (is_file fs path) then check_rendered fs ca_bundle checked rest
      else _ ← rendered_ca_bundle_matches fs path ca_bundle; check_rendered fs ca_bundle true rest
  end.

Definition require_applied_ca_bundle (fs : PkiFs) (args : GenPkiArgs) (ca_bundle : string) : CliResult unit :=
  match ga_webhook_config args with
  | Some path => rendered_ca_bundle_matches fs path ca_bundle
  | None =>
      checked ← check_rendered fs ca_bundle false (check_dirs args);
      refuse_if (negb checked)
        (Bail [Lit "no applied ValidatingWebhookConfiguration to check --ca-cert against: pass --webhook-config <the ";
               Str WEBHOOK_RENDERED_FILE; Lit " that is applied in the cluster>. Rotating a leaf under a CA the cluster does not trust leaves the API server rejecting every handshake, and with failurePolicy: Fail that stops Pod creation cluster-wide"])
  end.

(** ** The directory *)

Definition not_overwriting (fs : PkiFs) (text path : string) : CliResult unit :=
  refuse_if (path_exists fs path) (Bail [Str path; Lit ": refusing to overwrite existing PKI output; "; Lit text]).

Definition after_checks (fs : PkiFs) (checks : CliResult string) (k : string -> PkiFs * CliResult unit) : PkiFs * CliResult unit :=
  match checks with Ok raw => k raw | Err e => (fs, Err e) end.

Definition secret_path (dir secret_name : string) : string := join dir (secret_name +:+ ".secret.yaml").

(** The checks of a first issuance, up to the first write; the template's text. *)
Definition install_checks (args : GenPkiArgs) (fs : PkiFs) (dir secret_name : string) : CliResult string :=
  let template := default (join dir WEBHOOK_TEMPLATE_FILE) (ga_template args) in
  raw ← read_to_string fs [Lit "read webhook template "; Str template] template;
  _ ← refuse_if (negb (contains raw CA_BUNDLE_PLACEHOLDER))
        (Bail [Str template; Lit ": template does not carry the "; Str CA_BUNDLE_PLACEHOLDER; Lit " token, nothing to render"]);
  _ ← try_each (not_overwriting fs "remove it deliberately first")
        [secret_path dir secret_name; join dir WEBHOOK_RENDERED_FILE; join dir CA_CERT_FILE; join dir CA_KEY_FILE];
  Ok raw.

Definition write_out_dir (args : GenPkiArgs) (faults : string -> IoFault) (fs : PkiFs) (dir secret_name secret_yaml ca_bundle : string)
    (ca : CaMaterial) (rotating : bool) : PkiFs * CliResult unit :=
  if negb (is_dir fs dir) then (fs, Err (Bail [Str dir; Lit ": --out-dir must be an existing directory"]))
  else
    let secret := secret_path dir secret_name in
    if rotating then
      match not_overwriting fs "rotate into an empty directory" secret with
      | Err e => (fs, Err e)
      | Ok _ => write_private fs (faults secret) secret (as_bytes secret_yaml)
      end
    else
      after_checks fs (install_checks args fs dir secret_name) (fun raw =>
        and_then (write_private fs (faults secret) secret (as_bytes secret_yaml)) (fun fs =>
        and_then (write_plain fs (faults (join dir WEBHOOK_RENDERED_FILE)) (join dir WEBHOOK_RENDERED_FILE)
                    (replace_all CA_BUNDLE_PLACEHOLDER ca_bundle raw)) (fun fs =>
        and_then (write_plain fs (faults (join dir CA_CERT_FILE)) (join dir CA_CERT_FILE) (as_bytes (ca_cert_pem ca))) (fun fs =>
        write_private fs (faults (join dir CA_KEY_FILE)) (join dir CA_KEY_FILE) (as_bytes (ca_key_pem ca)))))).

(** ** The command *)

(** Every reading of the clock, and the two keys drawn. *)
Record PkiClock : Type := {
  k_now : Z; k_ca_check : Z; k_ca_before : Z; k_ca_serial : Z; k_left : Z;
  k_check : Z; k_before : Z; k_serial : Z; k_rng_ca : Z; k_rng : Z
}.

Section gen_pki.
Context `{X : X509Lib} `{B : CertBuilder} (sha256 : list Z -> list Z).

Definition reusable_ca (fs : PkiFs) (clock : PkiClock) (cert_path key_path : string) (days : Z) : CliResult CaMaterial :=
  cert ← read_to_string fs [Lit "read CA certificate "; Str cert_path] cert_path;
  key ← read_to_string fs [Lit "read CA key "; Str key_path] key_path;
  left ← with_context [Lit "read validity of "; Str cert_path] (lib (days_until_expiry cert (k_left clock)));
  _ ← refuse_if (left <? 2)
        (Bail [Str cert_path; Lit ": this CA has "; Num left; Lit " day(s) of validity left; a leaf can no longer be rotated under it — reissue the CA, and the caBundle in the ValidatingWebhookConfiguration with it"]);
  _ ← refuse_if (left <=? Z.min (2 ^ 63 - 1) days)
        (Bail [Str cert_path; Lit ": this CA has "; Num left; Lit " day(s) left and a leaf may not outlive its issuer; rotate with --days "; Num (left - 1);
               Lit " or fewer, or reissue the CA and the caBundle with it"]);
  Ok {| ca_cert_pem := cert; ca_key_pem := key |}.

Definition choose_ca (fs : PkiFs) (clock : PkiClock) (args : GenPkiArgs) (ca_not_after : Z) : CliResult CaMaterial :=
  match ga_ca_cert args, ga_ca_key args with
  | None, None => with_context [Lit "issue CA for "; Str (ga_service args)]
      (lib (issue_ca sha256 (ga_service args +:+ "-ca") ca_not_after (k_ca_check clock) (k_ca_before clock) (k_ca_serial clock) (k_rng_ca clock)))
  | Some cert, Some key => reusable_ca fs clock cert key (ga_days args)
  | _, _ => Err (Bail [Lit "--ca-cert and --ca-key must be given together"])
  end.

Definition rotating (args : GenPkiArgs) : bool := match ga_ca_cert args with Some _ => true | None => false end.
Definition pki_secret_name (args : GenPkiArgs) : string := ga_service args +:+ WEBHOOK_TLS_SECRET_SUFFIX.

(** Everything up to the output: the CA and the leaf. *)
Definition pki_material (fs : PkiFs) (clock : PkiClock) (args : GenPkiArgs) : CliResult (CaMaterial * ServingMaterial) :=
  _ ← refuse_if (ga_days args =? 0) (Bail [Lit "--days must be at least 1"]);
  _ ← refuse_if (MAX_SERVING_CERT_DAYS <? ga_days args)
        (Bail [Lit "--days "; Num (ga_days args); Lit " exceeds the "; Num MAX_SERVING_CERT_DAYS; Lit "-day maximum for a serving certificate"]);
  let not_after := k_now clock + ga_days args * X509_DAY_SECS * NANOS in
  let ca_not_after := Z.max not_after (k_now clock + MAX_SERVING_CERT_DAYS * X509_DAY_SECS * NANOS) in
  ca ← choose_ca fs clock args ca_not_after;
  serving ← with_context [Lit "issue serving certificate for "; Str (ga_service args)]
              (lib (issue_serving_cert sha256 ca (ga_service args) (ga_namespace args) not_after
                      (k_check clock) (k_before clock) (k_serial clock) (k_rng clock)));
  _ ← with_context [Lit "issued chain failed verification"] (lib (verify_chain serving ca));
  _ ← (if rotating args then require_applied_ca_bundle fs args (base64_text (ca_cert_pem ca)) else Ok tt);
  Ok (ca, serving).

(** The files after the command, and what it printed; with [--out-dir] only the notes. *)
Definition gen_webhook_pki (args : GenPkiArgs) (faults : string -> IoFault) (clock : PkiClock) (fs : PkiFs) : PkiFs * CliResult string :=
  match pki_material fs clock args with
  | Err e => (fs, Err e)
  | Ok (ca, serving) =>
      let secret_name := pki_secret_name args in
      let secret_yaml := secret_manifest secret_name (ga_namespace args) (ga_service args) serving in
      let ca_bundle := base64_text (ca_cert_pem ca) in
      match ga_out_dir args with
      | None =>
          (fs, Ok (secret_yaml +:+ if rotating args then rotation_note secret_name (ga_namespace args)
                                   else unlines ["---"] +:+ ca_bundle_note (ga_service args) ca_bundle secret_name (ga_namespace args)))
      | Some dir =>
          match write_out_dir args faults fs dir secret_name secret_yaml ca_bundle ca (rotating args) with
          | (fs', Err e) => (fs', Err e)
          | (fs', Ok _) => (fs', Ok (if rotating args then rotation_note secret_name (ga_namespace args) else ""))
          end
      end
  end.
End gen_pki.

(** ** What was there stays *)

Definition keeps (fs fs' : PkiFs) : Prop := px_dirs fs' = px_dirs fs /\ forall p f, px_files fs !! p = Some f -> px_files fs' !! p = Some f.

#[global] Instance keeps_refl : Reflexive keeps.
Proof. by split. Qed.
#[global] Instance keeps_trans : Transitive keeps.
Proof. intros a b c [D1 F1] [D2 F2]. split; [congruence|eauto]. Qed.

Lemma keeps_put fs fs' path f : keeps fs fs' -> px_files fs !! path = None -> keeps fs (put_file path f fs').
Proof.
  intros [D F] Hn. split; [done|]. intros p g Hp. cbn [put_file px_files]. rewrite lookup_insert_ne; [eauto|]. intros ->. by rewrite Hn in Hp.
Qed.

Lemma exists_false fs path : path_exists fs path = false -> px_files fs !! path = None /\ is_dir fs path = false.
Proof. unfold path_exists, is_file. intros [H1 H2]%orb_false_iff. split; [|done]. by destruct (px_files fs !! path) as [?|]. Qed.

Lemma write_private_keeps fs fs' fault path data : keeps fs fs' -> keeps fs (fst (write_private fs' fault path data)).
Proof.
  intros H. unfold write_private. destruct (path_exists fs' path) eqn:E; [done|]. apply exists_false in E as [E _].
  assert (Hn : px_files fs !! path = None).
  { destruct (px_files fs !! path) as [f|] eqn:Ef; [|done]. apply (proj2 H) in Ef. congruence. }
  destruct fault; cbn [fst]; try done; by apply keeps_put.
Qed.
Lemma write_plain_keeps fs fs' fault path data : keeps fs fs' -> px_files fs !! path = None -> keeps fs (fst (write_plain fs' fault path data)).
Proof. intros H Hn. unfold write_plain. destruct (is_dir fs' path); [done|]. destruct fault; cbn [fst]; try done; by apply keeps_put. Qed.
Lemma and_then_keeps fs r k : keeps fs (fst r) -> (forall fs', keeps fs fs' -> keeps fs (fst (k fs'))) -> keeps fs (fst (and_then r k)).
Proof. destruct r as [fs' [u|e]]; cbn; auto. Qed.

Lemma install_checks_inv args fs dir name raw : install_checks args fs dir name = Ok raw ->
  contains raw CA_BUNDLE_PLACEHOLDER = true /\
  Forall (fun p => path_exists fs p = false) [secret_path dir name; join dir WEBHOOK_RENDERED_FILE; join dir CA_CERT_FILE; join dir CA_KEY_FILE].
Proof.
  unfold install_checks. intros H. apply bind_ok in H as (raw' & _ & H). rewrite !bind_ok_unit, refuse_if_ok, try_each_ok in H.
  destruct H as (Hc & Hf & [= ->]). apply negb_false_iff in Hc. split; [done|]. eapply Forall_impl; [exact Hf|].
  intros p Hp. unfold not_overwriting in Hp. by apply refuse_if_ok in Hp.
Qed.

Lemma write_out_dir_keeps args faults fs dir name yaml bundle ca rot : keeps fs (fst (write_out_dir args faults fs dir name yaml bundle ca rot)).
Proof.
  unfold write_out_dir. destruct (negb _); [done|]. destruct rot.
  { destruct (not_overwriting _ _ _); [by apply write_private_keeps|done]. }
  unfold after_checks. destruct (install_checks args fs dir name) as [raw|] eqn:E; [|done].
  apply install_checks_inv in E as [_ Hf]. apply Forall_cons_1 in Hf as [_ Hf]. apply Forall_cons_1 in Hf as [H2 Hf].
  apply Forall_cons_1 in Hf as [H3 _]. apply exists_false in H2 as [H2 _]. apply exists_false in H3 as [H3 _].
  repeat (apply and_then_keeps; [|intros ? ?]); auto using write_private_keeps, write_plain_keeps. by apply write_private_keeps.
Qed.

(** ** The four paths are four files *)

Lemma join_inj dir a b : join dir a = join dir b -> a = b.
Proof.
  unfold join. intros H. apply as_bytes_inj. apply (f_equal as_bytes) in H.
  destruct (_ || _); rewrite !as_bytes_app in H; by repeat apply app_inv_head in H.
Qed.
Lemma suffix_ne name tail other : take (length (as_bytes tail)) (rev (as_bytes other)) <> rev (as_bytes tail) -> name +:+ tail <> other.
Proof.
  intros H E. apply H. rewrite <- E, as_bytes_app, rev_app_distr. rewrite <- (length_rev (as_bytes tail)). apply take_app_length.
Qed.
Lemma secret_apart dir name other : In other [WEBHOOK_RENDERED_FILE; CA_CERT_FILE; CA_KEY_FILE] -> secret_path dir name <> join dir other.
Proof.
  intros Hin E. apply join_inj in E. revert E. apply suffix_ne. destruct Hin as [<-|[<-|[<-|[]]]]; vm_compute; discriminate.
Qed.
Lemma files_apart dir : join dir WEBHOOK_RENDERED_FILE <> join dir CA_CERT_FILE /\ join dir WEBHOOK_RENDERED_FILE <> join dir CA_KEY_FILE /\
  join dir CA_CERT_FILE <> join dir CA_KEY_FILE.
Proof. split_and!; intros E%join_inj; discriminate E. Qed.

(** ** The outcome *)

Definition private_file (text : string) : PkiFile := {| pf_private := true; pf_bytes := as_bytes text |}.
Definition public_file (bytes : list Z) : PkiFile := {| pf_private := false; pf_bytes := bytes |}.

(** The directory after a first issuance. *)
Definition installed (fs : PkiFs) (dir name yaml bundle raw : string) (ca : CaMaterial) : PkiFs :=
  put_file (join dir CA_KEY_FILE) (private_file (ca_key_pem ca))
    (put_file (join dir CA_CERT_FILE) (public_file (as_bytes (ca_cert_pem ca)))
      (put_file (join dir WEBHOOK_RENDERED_FILE) (public_file (replace_all CA_BUNDLE_PLACEHOLDER bundle raw))
        (put_file (secret_path dir name) (private_file yaml) fs))).

Lemma private_ok fs fault path data fs' : write_private fs fault path (as_bytes data) = (fs', Ok tt) -> fs' = put_file path (private_file data) fs.
Proof. unfold write_private. destruct (path_exists fs path); [done|]. destruct fault; try done. by intros [= <-]. Qed.
Lemma plain_ok fs fault path data fs' : write_plain fs fault path data = (fs', Ok tt) -> px_files fs !! path = None -> fs' = put_file path (public_file data) fs.
Proof. unfold write_plain. intros H Hn. rewrite Hn in H. destruct (is_dir fs path); [done|]. destruct fault; try done; by injection H as <-. Qed.
Lemma and_then_ok r k fs' : and_then r k = (fs', Ok tt) -> exists fs1, r = (fs1, Ok tt) /\ k fs1 = (fs', Ok tt).
Proof. destruct r as [fs1 [[]|e]]; cbn; [by eexists|done]. Qed.
Lemma and_then_err r k fs' e : and_then r k = (fs', Err e) -> r = (fs', Err e) \/ exists fs1, r = (fs1, Ok tt) /\ k fs1 = (fs', Err e).
Proof. destruct r as [fs1 [[]|e']]; cbn; [by right; eexists|left; congruence]. Qed.

Lemma put_lookup_ne path path' f fs : path <> path' -> px_files (put_file path f fs) !! path' = px_files fs !! path'.
Proof. intros H. cbn. by rewrite lookup_insert_ne. Qed.

Lemma first_issue_written args faults fs dir name yaml bundle ca fs' :
  write_out_dir args faults fs dir name yaml bundle ca false = (fs', Ok tt) ->
  exists raw, install_checks args fs dir name = Ok raw /\ fs' = installed fs dir name yaml bundle raw ca.
Proof.
  unfold write_out_dir. destruct (negb _); [done|]. unfold after_checks. destruct (install_checks args fs dir name) as [raw|] eqn:E; [|done].
  apply install_checks_inv in E as Hc. destruct Hc as [_ Hf]. apply Forall_cons_1 in Hf as [H1 Hf]. apply Forall_cons_1 in Hf as [H2 Hf].
  apply Forall_cons_1 in Hf as [H3 Hf]. apply exists_false in H2 as [H2 _]. apply exists_false in H3 as [H3 _].
  intros (f1 & ->%private_ok & (f2 & W2 & (f3 & W3 & W4)%and_then_ok)%and_then_ok)%and_then_ok.
  destruct (files_apart dir) as (A1 & A2 & A3).
  apply plain_ok in W2 as ->. 2: { rewrite put_lookup_ne; [done|]. apply secret_apart. simpl. auto. }
  apply plain_ok in W3 as ->. 2: { rewrite !put_lookup_ne; [done| |done]. apply secret_apart. simpl. auto. }
  apply private_ok in W4 as ->. by exists raw.
Qed.

(** Without faults of the file system a refusal leaves everything as it was. *)
Lemma no_fault_private fs path data fs' e : write_private fs NoFault path data = (fs', Err e) -> fs' = fs /\ path_exists fs path = true.
Proof. unfold write_private. destruct (path_exists fs path); [by intros [= <- _]|done]. Qed.
Lemma no_fault_plain fs path data fs' e : write_plain fs NoFault path data = (fs', Err e) -> is_dir fs path = true.
Proof. unfold write_plain. by destruct (is_dir fs path). Qed.
Lemma put_exists_ne path path' f fs : path <> path' -> path_exists (put_file path f fs) path' = path_exists fs path'.
Proof. intros H. unfold path_exists, is_file. rewrite put_lookup_ne by done. done. Qed.

Lemma refused_untouched args faults fs dir name yaml bundle ca rot fs' e : (forall p, faults p = NoFault) ->
  write_out_dir args faults fs dir name yaml bundle ca rot = (fs', Err e) -> fs' = fs.
Proof.
  intros Hnf. unfold write_out_dir. rewrite !Hnf. destruct (negb _); [by intros [= <- _]|]. destruct rot.
  { destruct (not_overwriting _ _ _); [by intros [-> _]%no_fault_private|by intros [= <- _]]. }
  unfold after_checks. destruct (install_checks args fs dir name) as [raw|] eqn:E; [|by intros [= <- _]].
  apply install_checks_inv in E as [_ Hf]. apply Forall_cons_1 in Hf as [H1 Hf]. apply Forall_cons_1 in Hf as [H2 Hf].
  apply Forall_cons_1 in Hf as [H3 Hf]. apply Forall_cons_1 in Hf as [H4 _].
  intros [W|(f1 & ->%private_ok & W)]%and_then_err; [by apply no_fault_private in W as [-> _]|]. exfalso.
  assert (S : forall o, In o [WEBHOOK_RENDERED_FILE; CA_CERT_FILE; CA_KEY_FILE] -> secret_path dir name <> join dir o) by apply secret_apart.
  destruct (files_apart dir) as (A1 & A2 & A3). pose proof (exists_false _ _ H2) as [L2 D2]. pose proof (exists_false _ _ H3) as [L3 D3].
  apply and_then_err in W as [W|(f2 & W2 & W)]; [apply no_fault_plain in W; cbn in W; unfold is_dir in *; cbn in W; congruence|].
  apply plain_ok in W2 as ->. 2: { rewrite put_lookup_ne; [done|apply S; simpl; auto]. }
  apply and_then_err in W as [W|(f3 & W3 & W)]; [apply no_fault_plain in W; unfold is_dir in *; cbn in W; congruence|].
  apply plain_ok in W3 as ->. 2: { rewrite !put_lookup_ne; [done|apply S; simpl; auto|done]. }
  apply no_fault_private in W as [_ W]. rewrite !put_exists_ne in W; [congruence|apply S; simpl; auto|done|done].
Qed.

Lemma b64_own_text d : Forall (fun b => 0 <= b < 256) d -> x_base64_decode (b64_encode d) = Ok d.
Proof.
  intros Hb. destruct (b64_encode_shape d Hb) as (Hp & _). apply x_base64_exact. split; [done|]. unfold plain, x_base64_encode.
  induction Hp as [|c l Hc _ IH]; [done|]. cbn [List.filter]. replace (is_ascii_whitespace c) with false; [cbn [negb]; by f_equal|].
  symmetry. unfold is_ascii_whitespace. repeat case_match; lia.
Qed.

Lemma base64_text_reads text : x_base64_decode (as_bytes (base64_text text)) = Ok (as_bytes text).
Proof.
  pose proof (as_bytes_range text) as Hb. destruct (b64_encode_shape (as_bytes text) Hb) as (Hp & _).
  unfold base64_text, x_base64_encode. rewrite as_bytes_of_string by (eapply Forall_impl; [exact Hp|simpl; lia]). by apply b64_own_text.
Qed.

Section outcome.
Context `{X : X509Lib} `{B : CertBuilder} (sha256 : list Z -> list Z).

(** The configuration that says which CA the cluster trusts carries this CA. *)
Definition applied_trusts (fs : PkiFs) (args : GenPkiArgs) (ca : CaMaterial) : Prop :=
  exists path f raw, px_files fs !! path = Some f /\ from_utf8 (pf_bytes f) = Some raw /\
    rendered_ca_bundle raw = Some (base64_text (ca_cert_pem ca)) /\
    match ga_webhook_config args with
    | Some p => path = p
    | None => exists dir, dir ∈ check_dirs args /\ path = join dir WEBHOOK_RENDERED_FILE
    end.

Lemma matches_inv fs path bundle : rendered_ca_bundle_matches fs path bundle = Ok tt ->
  exists f raw, px_files fs !! path = Some f /\ from_utf8 (pf_bytes f) = Some raw /\ rendered_ca_bundle raw = Some bundle.
Proof.
  unfold rendered_ca_bundle_matches, read_to_string. intros H. apply bind_ok in H as (raw & Hr & H). apply bind_ok in H as (cur & Hc & H).
  apply refuse_if_ok, negb_false_iff, str_eqb_true in H as ->. destruct (px_files fs !! path) as [f|]; [|done].
  destruct (from_utf8 (pf_bytes f)) eqn:Ef; [|done]. injection Hr as ->. exists f, raw. split_and!; try done.
  destruct (rendered_ca_bundle raw); [by injection Hc as ->|done].
Qed.
Lemma check_rendered_inv fs bundle dirs : forall checked, check_rendered fs bundle checked dirs = Ok true -> checked = false ->
  exists dir, dir ∈ dirs /\ rendered_ca_bundle_matches fs (join dir WEBHOOK_RENDERED_FILE) bundle = Ok tt.
Proof.
  induction dirs as [|d dirs IH]; intros checked; cbn [check_rendered]; [by intros [= ->]|]. destruct (negb (is_file fs _)).
  - intros H Hc. destruct (IH _ H Hc) as (dir & Hin & Hm). exists dir. split; [by right|done].
  - intros [Hm _]%bind_ok_unit _. exists d. split; [by left|done].
Qed.

Lemma pki_material_inv fs clock args ca serving : pki_material sha256 fs clock args = Ok (ca, serving) ->
  (ga_days args <> 0 /\ ga_days args <= MAX_SERVING_CERT_DAYS) /\ verify_chain serving ca = Ok tt /\
  verify_issued_pair (ca_cert_pem ca) (sv_cert_pem serving) = Ok tt /\
  sv_dns_names serving = service_dns_names (ga_service args) (ga_namespace args) /\
  (rotating args = true -> applied_trusts fs args ca /\
     exists cert_path f, ga_ca_cert args = Some cert_path /\ px_files fs !! cert_path = Some f /\ from_utf8 (pf_bytes f) = Some (ca_cert_pem ca)).
Proof.
  unfold pki_material, with_context, lib. rewrite !bind_ok_unit, !refuse_if_ok. intros (Hd0 & Hd & H).
  apply bind_ok in H as (ca' & Hca & H). apply bind_ok in H as (sv & Hsv & H). rewrite !map_err_ok in Hsv.
  rewrite !bind_ok_unit, !map_err_ok in H. destruct H as (Hv & Hrot & Hres). injection Hres as <- <-.
  destruct (issued_material_verifies _ _ _ _ _ _ _ _ _ _ Hsv) as (_ & Hp & Hn & _). split_and!; try done; [lia|lia|].
  intros Hr. rewrite Hr in Hrot. split.
  - unfold require_applied_ca_bundle in Hrot. unfold applied_trusts. destruct (ga_webhook_config args) as [p|].
    + apply matches_inv in Hrot as (f & raw & H1 & H2 & H3). by exists p, f, raw.
    + apply bind_ok in Hrot as (checked & Hc & Hx). apply refuse_if_ok, negb_false_iff in Hx as ->.
      apply check_rendered_inv in Hc as (dir & Hin & (f & raw & H1 & H2 & H3)%matches_inv); [|done].
      exists (join dir WEBHOOK_RENDERED_FILE), f, raw. split_and!; try done. by exists dir.
  - unfold rotating in Hr. unfold choose_ca in Hca. destruct (ga_ca_cert args) as [cp|]; [|done]. destruct (ga_ca_key args) as [kp|]; [|done].
    unfold reusable_ca, read_to_string in Hca. apply bind_ok in Hca as (cert & Hc & Hca). apply bind_ok in Hca as (key & _ & Hca).
    apply bind_ok in Hca as (left & _ & Hca). rewrite !bind_ok_unit in Hca. destruct Hca as (_ & _ & [= <-]).
    destruct (px_files fs !! cp) as [f|] eqn:Ef; [|done]. destruct (from_utf8 (pf_bytes f)) as [t|] eqn:Eu; [|done]. injection Hc as ->.
    by exists cp, f.
Qed.

End outcome.

(** ** Issuance and rotation succeed *)

Section liveness.
Context `{L : CertLaws} (sha256 : list Z -> list Z).
Context (Hself : forall p k, is_ok (self_signed p k) = true) (Hsigned : forall p k ip ik, is_ok (signed_by p k ip ik) = true)
        (Hkeys : forall rng, is_ok (generate_key rng) = true).

(** Arguments the certificate library takes: ASCII names that are not blank. *)
Record names_ok (args : GenPkiArgs) : Prop := {
  n_service : str_empty (trim (ga_service args)) = false;
  n_namespace : str_empty (trim (ga_namespace args)) = false;
  n_cn : str_empty (trim (ga_service args +:+ "-ca")) = false;
  n_dns : Forall (fun n => str_empty (trim n) = false /\ ia5 n = Ok tt) (service_dns_names (ga_service args) (ga_namespace args))
}.

Lemma lifetime_ok not_after now t days : 0 <= days <= MAX_SERVING_CERT_DAYS -> not_after = now + days * X509_DAY_SECS * NANOS ->
  now <= t <= not_after -> check_lifetime not_after t = Ok tt.
Proof.
  intros Hd -> Ht. unfold check_lifetime, refuse_if. destruct (Z.ltb_spec (now + days * X509_DAY_SECS * NANOS) t); [lia|]. cbn [mbind result_mbind].
  destruct (Z.ltb_spec MAX_SERVING_CERT_DAYS ((now + days * X509_DAY_SECS * NANOS - t) / NANOS / X509_DAY_SECS)); [|done].
  unfold MAX_SERVING_CERT_DAYS, X509_DAY_SECS, NANOS in *. Z.to_euclidean_division_equations. lia.
Qed.

Lemma not_before_mono a b : a <= b -> 0 <= a -> not_before a <= not_before b.
Proof.
  intros H Ha. unfold not_before, NOT_BEFORE_BACKDATE, NANOS. destruct (Z.ltb_spec (a - 300 * 1000000000) (- 2 ^ 63 * 1000000000)); [lia|].
  destruct (Z.ltb_spec (b - 300 * 1000000000) (- 2 ^ 63 * 1000000000)); lia.
Qed.

(** The number of days a rotation is allowed always nests the leaf in its CA. *)
Lemma rotation_nests fs clock cert key days ca from to :
  reusable_ca fs clock cert key days = Ok ca -> usable_ca ca from to -> k_now clock <= k_left clock -> days < 2 ^ 63 ->
  k_now clock + days * X509_DAY_SECS * NANOS <= to.
Proof.
  unfold reusable_ca, with_context, lib. intros H (xc & k & dn & (der & Hp & Hd) & _ & _ & _ & _ & _ & _ & Hto) Hnow Hdays.
  apply bind_ok in H as (c & _ & H). apply bind_ok in H as (kk & _ & H). apply bind_ok in H as (left & Hl & H). rewrite !map_err_ok in Hl.
  rewrite !bind_ok_unit, !refuse_if_ok in H. destruct H as (Hl2 & Hld & [= <-]). cbn [ca_cert_pem] in Hp.
  unfold days_until_expiry in Hl. rewrite Hp in Hl. cbn [mbind result_mbind single] in Hl. rewrite Hd in Hl. cbn [map_err mbind result_mbind] in Hl.
  unfold clock_secs in Hl. destruct (k_left clock <? 0); [done|]. cbn [mbind result_mbind] in Hl. injection Hl as <-.
  rewrite Hto in *. unfold X509_DAY_SECS, NANOS in *. rewrite Z.min_r in Hld by lia.
  Z.to_euclidean_division_equations. lia.
Qed.

(** A first issuance succeeds: the CA outlives the leaf, and every check passes. *)
Lemma first_issuance_succeeds fs clock args :
  names_ok args -> ga_ca_cert args = None -> ga_ca_key args = None -> 1 <= ga_days args <= MAX_SERVING_CERT_DAYS ->
  0 <= k_now clock <= k_ca_check clock -> 0 <= k_ca_before clock <= k_before clock ->
  k_now clock <= k_check clock <= k_now clock + ga_days args * X509_DAY_SECS * NANOS ->
  k_ca_check clock <= k_now clock + ga_days args * X509_DAY_SECS * NANOS ->
  exists ca serving, pki_material sha256 fs clock args = Ok (ca, serving).
Proof.
  intros [Ns Nn Nc Nd] Hc Hk Hdays Hcc Hb Hch Hcc2. unfold pki_material, with_context, lib, refuse_if, choose_ca, rotating. rewrite Hc, Hk.
  destruct (Z.eqb_spec (ga_days args) 0); [lia|]. cbn [mbind result_mbind]. destruct (Z.ltb_spec MAX_SERVING_CERT_DAYS (ga_days args)); [lia|].
  cbn [mbind result_mbind]. set (na := k_now clock + ga_days args * X509_DAY_SECS * NANOS) in *.
  set (ca_na := Z.max na _). assert (Hcana : ca_na = k_now clock + MAX_SERVING_CERT_DAYS * X509_DAY_SECS * NANOS).
  { unfold ca_na, na, MAX_SERVING_CERT_DAYS, X509_DAY_SECS, NANOS in *. lia. }
  assert (Hca : exists ca, issue_ca sha256 (ga_service args +:+ "-ca") ca_na (k_ca_check clock) (k_ca_before clock) (k_ca_serial clock) (k_rng_ca clock) = Ok ca).
  { unfold issue_ca, refuse_if. rewrite Nc. cbn [mbind result_mbind].
    rewrite (lifetime_ok ca_na (k_now clock) (k_ca_check clock) MAX_SERVING_CERT_DAYS) by (unfold MAX_SERVING_CERT_DAYS in *; done || lia).
    cbn [mbind result_mbind]. specialize (Hkeys (k_rng_ca clock)). destruct (generate_key (k_rng_ca clock)) as [key|]; [|done]. cbn [map_err mbind result_mbind].
    match goal with |- context [self_signed ?p key] => specialize (Hself p key); destruct (self_signed p key) as [pem|] eqn:Es; [|done] end.
    destruct (self_signed_reads _ _ _ Es (ferrum_dn_nodup _)) as (cert & (der & Hp & Hd) & []). cbn [map_err mbind result_mbind ca_cert_pem].
    rewrite Hp. cbn [mbind result_mbind single]. unfold parse_certificate. rewrite Hd. cbn [map_err mbind result_mbind].
    rewrite d_ca. cbn [cp_is_ca negb mbind result_mbind]. by eexists. }
  destruct Hca as [ca Hca]. rewrite Hca. cbn [map_err mbind result_mbind].
  destruct (issue_under_usable sha256 ca (not_before (k_ca_before clock)) ca_na (ga_service args) (ga_namespace args) na
    (k_check clock) (k_before clock) (k_serial clock) (k_rng clock)) as [serving Hs]; try done.
  - by eapply issued_ca_usable.
  - by apply (lifetime_ok na (k_now clock) (k_check clock) (ga_days args)); [lia|done|].
  - apply not_before_mono; lia.
  - unfold ca_na. lia.
  - unfold with_context, lib. cbn [map_err mbind result_mbind]. rewrite Hs. cbn [map_err mbind result_mbind]. destruct (issued_material_verifies _ _ _ _ _ _ _ _ _ _ Hs) as (Hv & _). rewrite Hv.
    cbn [map_err mbind result_mbind]. by exists ca, serving.
Qed.

(** So does a rotation under a CA that is the caller's own, is the applied one and was
    issued before. *)
Lemma rotation_succeeds fs clock args cert key ca from to :
  names_ok args -> ga_ca_cert args = Some cert -> ga_ca_key args = Some key -> 1 <= ga_days args <= MAX_SERVING_CERT_DAYS ->
  reusable_ca fs clock cert key (ga_days args) = Ok ca -> usable_ca ca from to ->
  require_applied_ca_bundle fs args (base64_text (ca_cert_pem ca)) = Ok tt ->
  k_now clock <= k_left clock -> from <= not_before (k_before clock) ->
  k_now clock <= k_check clock <= k_now clock + ga_days args * X509_DAY_SECS * NANOS ->
  exists serving, pki_material sha256 fs clock args = Ok (ca, serving).
Proof.
  intros [Ns Nn Nc Nd] Hc Hk Hdays Hre Hu Happ Hl Hb Hch. unfold pki_material, with_context, lib, refuse_if, choose_ca, rotating. rewrite Hc, Hk.
  destruct (Z.eqb_spec (ga_days args) 0); [lia|]. cbn [mbind result_mbind]. destruct (Z.ltb_spec MAX_SERVING_CERT_DAYS (ga_days args)); [lia|].
  cbn [mbind result_mbind]. rewrite Hre. cbn [mbind result_mbind].
  destruct (issue_under_usable sha256 ca from to (ga_service args) (ga_namespace args) (k_now clock + ga_days args * X509_DAY_SECS * NANOS)
    (k_check clock) (k_before clock) (k_serial clock) (k_rng clock)) as [serving Hs]; try done.
  - eapply lifetime_ok; [|done|done]. lia.
  - eapply rotation_nests; try done. unfold MAX_SERVING_CERT_DAYS in Hdays. lia.
  - rewrite Hs. cbn [map_err mbind result_mbind]. destruct (issued_material_verifies _ _ _ _ _ _ _ _ _ _ Hs) as (Hv & _). rewrite Hv.
    cbn [map_err mbind result_mbind]. rewrite Happ. cbn [mbind result_mbind]. by exists serving.
Qed.
End liveness.

(** ** A certificate library that keeps the laws

    A certificate is its fields in bits; a key is a number. *)

Module ToyPki.
Record Fields : Type := { t_ca : bool; t_dn : list (list Z * string); t_from : Z; t_to : Z; t_eku : bool; t_names : list string;
                          t_pub : Z; t_issuer : list (list Z * string); t_issuer_pub : Z }.
Definition pack_fields (t : Fields) : list positive :=
  [encode (t_ca t); encode (t_dn t); encode (t_from t); encode (t_to t); encode (t_eku t); encode (t_names t); encode (t_pub t);
   encode (t_issuer t); encode (t_issuer_pub t)].
Definition unpack_fields (l : list positive) : option Fields :=
  match l with
  | [a; b; c; d; e; f; g; h; i] =>
      a ← decode a; b ← decode b; c ← decode c; d ← decode d; e ← decode e; f ← decode f; g ← decode g; h ← decode h; i ← decode i;
      Some {| t_ca := a; t_dn := b; t_from := c; t_to := d; t_eku := e; t_names := f; t_pub := g; t_issuer := h; t_issuer_pub := i |}
  | _ => None
  end.
Lemma unpack_pack_fields t : unpack_fields (pack_fields t) = Some t.
Proof. unfold unpack_fields, pack_fields. rewrite !decode_encode. cbn [mbind option_bind]. by destruct t. Qed.

Definition der (t : Fields) : list Z := 49 :: bits (encode (pack_fields t)).
Definition of_der (b : list Z) : option Fields := match b with _ :: l => decode (of_bits l) ≫= unpack_fields | [] => None end.
Lemma of_der_der t : of_der (der t) = Some t.
Proof. unfold of_der, der. rewrite of_bits_bits, decode_encode. cbn [mbind option_bind]. apply unpack_pack_fields. Qed.

Definition raw_of (dn : list (list Z * string)) : list Z := bits (encode dn).
Definition name_of (dn : list (list Z * string)) : X509Name :=
  {| xn_raw := raw_of dn; xn_text := "name"; xn_rdns := map (fun e => [{| at_oid := Some (fst e); at_str := Ok (snd e) |}]) dn |}.
Definition pub_bytes (k : Z) : list Z := bits (encode k).
Definition cert_of (t : Fields) : X509Certificate :=
  {| xc_is_ca := t_ca t; xc_issuer := name_of (t_issuer t); xc_subject := name_of (t_dn t); xc_not_before := t_from t;
     xc_not_after := t_to t; xc_extended_key_usage := Ok (if t_eku t then Some true else None);
     xc_subject_alternative_name := Ok (match t_names t with [] => None | l => Some (map DNSName l) end);
     xc_public_key := pub_bytes (t_pub t);
     xc_verify_signature := fun pub => if bool_decide (pub = pub_bytes (t_issuer_pub t)) then Ok tt else Err "bad signature" |}.

Definition pem_lines_of (t : Fields) : list (list Z) := [PEM_BEGIN; b64_encode (der t); PEM_END].
Definition pem (t : Fields) : string := string_of_bytes (concat (map (fun l => l ++ [10]) (pem_lines_of t))).

Definition oids (dn : DistinguishedName) : list (list Z * string) := map (fun e => (oid_of (fst e), snd e)) dn.
Definition secs (t : option Z) : Z := match t with Some t => t / NANOS | None => 0 end.
Definition fields (p : CertificateParams) (k : Z) (issuer : DistinguishedName) (issuer_pub : Z) : Fields :=
  {| t_ca := match cp_is_ca p with Ca _ => true | ExplicitNoCa => false end; t_dn := oids (cp_distinguished_name p);
     t_from := secs (cp_not_before p); t_to := secs (cp_not_after p);
     t_eku := match cp_extended_key_usages p with [] => false | _ => true end; t_names := cp_subject_alt_names p;
     t_pub := k; t_issuer := oids issuer; t_issuer_pub := issuer_pub |}.

#[global] Instance toy_x509 : X509Lib := { from_der b := match of_der b with Some t => Ok (cert_of t) | None => Err "not a certificate" end }.
#[global] Instance toy_builder : CertBuilder := {
  Key := Z;
  generate_key rng := Ok rng;
  key_pem k := string_of_bytes (bits (encode k));
  key_from_pem s := match decode (of_bits (as_bytes s)) with Some k => Ok k | None => Err "not a key" end;
  ia5 s := if forallb (fun b => b <? 128) (as_bytes s) then Ok tt else Err "not ASCII";
  self_signed p k := Ok (pem (fields p k (cp_distinguished_name p) k));
  signed_by p k ip ik := Ok (pem (fields p k (cp_distinguished_name ip) ik))
}.

Lemma bits_ascii p : Forall (fun b => 0 <= b < 128) (bits p).
Proof. induction p; cbn; constructor; try done; lia. Qed.
Lemma der_bytes t : Forall (fun b => 0 <= b < 256) (der t).
Proof. constructor; [lia|]. eapply Forall_impl; [apply bits_ascii|]. simpl. lia. Qed.

(** A clean line of text is one line of the file. *)
Lemma lines_of_three a b c : Forall (Forall (fun x => 33 <= x < 128 \/ x = 32)) [a; b; c] ->
  lines_of (concat (map (fun l => l ++ [10]) [a; b; c])) = [a; b; c].
Proof.
  intros H. assert (Hc : forall l, l ∈ [a; b; c] -> 10 ∉ l /\ 13 ∉ l).
  { intros l Hl. rewrite Forall_forall in H. specialize (H l Hl). rewrite Forall_forall in H. split; intros Hin%H; lia. }
  cbn [map concat app]. rewrite app_nil_r. rewrite app_assoc.
  rewrite (lines_of_clean ((a ++ [10]) ++ b ++ [10]) c); [|right; by rewrite app_assoc, last_snoc|apply Hc; set_solver|apply Hc; set_solver].
  rewrite (lines_of_clean (a ++ [10]) b); [|right; by rewrite last_snoc|apply Hc; set_solver|apply Hc; set_solver].
  pose proof (lines_of_clean [] a) as Ha. cbn [app] in Ha. rewrite Ha; [done|by left|apply Hc; set_solver|apply Hc; set_solver].
Qed.

Lemma printable_line l : forallb (fun x => (33 <=? x) && (x <? 128) || (x =? 32)) l = true -> Forall (fun x => 33 <= x < 128 \/ x = 32) l.
Proof. rewrite forallb_forall, Forall_forall. intros H x Hx%list_elem_of_In%H. lia. Qed.

Lemma pem_reads t : one_certificate (pem t) (cert_of t).
Proof.
  exists (der t). split; [|unfold from_der, toy_x509; by rewrite of_der_der]. pose proof (der_bytes t) as Hd. destruct (b64_encode_shape _ Hd) as (Hp & _).
  assert (Hlines : Forall (Forall (fun x => 33 <= x < 128 \/ x = 32)) (pem_lines_of t)).
  { constructor; [by apply printable_line|]. constructor; [|constructor; [by apply printable_line|constructor]].
    eapply Forall_impl; [exact Hp|]. simpl. lia. }
  apply pem_certificates_exact. split; [done|]. exists [[b64_encode (der t)]]. split.
  - unfold significant, pem. rewrite as_bytes_of_string.
    2: { apply Forall_concat, Forall_map. eapply Forall_impl; [exact Hlines|]. intros l Hl. apply Forall_app. split; [|repeat constructor; lia].
         eapply Forall_impl; [exact Hl|]. simpl. lia. }
    unfold pem_lines_of in *. rewrite lines_of_three by done. cbn [map]. rewrite (trim_printable (b64_encode (der t))) by done.
    change (trim_bytes PEM_BEGIN) with PEM_BEGIN. change (trim_bytes PEM_END) with PEM_END. cbn [List.filter].
    change (is_empty PEM_BEGIN) with false. change (is_empty PEM_END) with false. cbn [negb].
    destruct (b64_encode (der t)) as [|c l] eqn:E; [|done]. pose proof (b64_own_text _ Hd) as Hx. rewrite E in Hx. discriminate Hx.
  - constructor; [|constructor]. split_and!; [|cbn [concat]; rewrite app_nil_r; by apply b64_own_text|done].
    constructor; [|constructor]. pose proof (b64_own_text _ Hd) as Hx. split; intros E; rewrite E in Hx; discriminate Hx.
Qed.

Lemma cert_describes p k issuer ik : describes (fun dn => raw_of (oids dn)) p (pub_bytes k) (cert_of (fields p k issuer ik)).
Proof.
  split; cbn; try done.
  - unfold oids. rewrite map_map. done.
  - by intros t ->.
  - by intros t ->.
  - by destruct (cp_extended_key_usages p).
Qed.

#[global, refine] Instance toy_laws : CertLaws := { dn_raw dn := raw_of (oids dn); public_key := pub_bytes }.
Proof.
  - intros k. cbn [key_from_pem key_pem toy_builder]. rewrite as_bytes_of_string by (eapply Forall_impl; [apply bits_ascii|simpl; lia]). by rewrite of_bits_bits, decode_encode.
  - intros p k text [= <-] _. eexists. split; [apply pem_reads|apply cert_describes].
  - intros p k ip ik text [= <-] _. eexists. split; [apply pem_reads|]. split; [apply cert_describes|]. split; [done|]. cbn. by rewrite bool_decide_true.
Defined.

Definition toy_clock (now : Z) : PkiClock :=
  {| k_now := now; k_ca_check := now + 1; k_ca_before := now + 2; k_ca_serial := now + 3; k_left := now + 4; k_check := now + 5;
     k_before := now + 6; k_serial := now + 7; k_rng_ca := 11; k_rng := 12 |}.
Definition install_args : GenPkiArgs :=
  {| ga_service := "ferrum-admission"; ga_namespace := "ferrum"; ga_days := 90; ga_out_dir := Some "pki"; ga_template := None;
     ga_ca_cert := None; ga_ca_key := None; ga_webhook_config := None |}.

Lemma toy_issuance fs now : 0 <= now -> exists ca serving, pki_material toy_sha fs (toy_clock now) install_args = Ok (ca, serving).
Proof.
  intros Hn. apply (first_issuance_succeeds (X := toy_x509) (B := toy_builder) toy_sha); try done; unfold MAX_SERVING_CERT_DAYS, X509_DAY_SECS, NANOS; cbn; try lia.
  split; [by vm_compute..|]. repeat constructor; by vm_compute.
Qed.
End ToyPki.
