(* ===== verification/AdmissionMain.v ===== *)
(** * The webhook process from its command line

    [crates/ferrum-admission/src/main.rs]: the flags, the cluster labels an operator states,
    and the three commands: the offline evaluator, one review, and the start of the server up
    to its first request. What the outside answers (files, ports, the environment) is a
    record; an exit with status 2 is an error with its text. *)

From S2P Require Import Prelude RustStd RustText Ids Api Policy Wire Compiler Program Admit Crypto Grant Journal.
From S2P Require Import BreakGlass Encoding Json Bundle Subject Review Webhook Proto Labels Watch Http ApiClient Der ServingCert.

(** ** Flags *)

(** [None] is a flag whose value was eaten by the next flag or by the end of the line. *)
Record Flags : Type := { fl_occurrences : gmap string (list (option string)); fl_positional : list string }.

Definition flag_get (f : Flags) (name : string) : option string :=
  all ← fl_occurrences f !! name; value ← last all; Some (default "" value).
Definition flag_occurrences (f : Flags) (name : string) : list (option string) := default [] (fl_occurrences f !! name).

Definition push_flag (key : string) (value : option string) (f : Flags) : Flags :=
  {| fl_occurrences := <[key := flag_occurrences f key ++ [value]]> (fl_occurrences f); fl_positional := fl_positional f |}.
Definition push_positional (a : string) (f : Flags) : Flags :=
  {| fl_occurrences := fl_occurrences f; fl_positional := fl_positional f ++ [a] |}.

Definition flag_body (a : string) : option string := option_map string_of_bytes (strip_prefix (as_bytes "--") (as_bytes a)).
Definition split_equals (s : string) : option (string * string) :=
  option_map (fun kv => (string_of_bytes (fst kv), string_of_bytes (snd kv))) (split_once_str [61] (as_bytes s)).

Fixpoint parse_flags_from (f : Flags) (args : list string) : Flags :=
  match args with
  | [] => f
  | a :: rest =>
      match flag_body a with
      | None => parse_flags_from (push_positional a f) rest
      | Some body =>
          match split_equals body with
          | Some (k, v) => parse_flags_from (push_flag k (Some v) f) rest
          | None =>
              match rest with
              | val :: rest' =>
                  if starts_with val "--" then parse_flags_from (push_flag body None f) rest
                  else parse_flags_from (push_flag body (Some val) f) rest'
              | [] => push_flag body None f
              end
          end
      end
  end.
Definition no_flags : Flags := {| fl_occurrences := ∅; fl_positional := [] |}.
Definition parse_flags (args : list string) : Flags := parse_flags_from no_flags args.

(** [.filter(|s| !s.is_empty())]. *)
Definition flag_value (f : Flags) (name : string) : option string :=
  v ← flag_get f name; if str_empty v then None else Some v.
Definition require_flag (f : Flags) (name : string) : result msg string :=
  ok_or (flag_value f name) [Lit "missing --"; Str name].

(** ** Cluster labels *)

Definition label_pair (raw : list Z) : result msg (string * string) :=
  let bad := [Lit "--cluster-label expects k=v, got "; Dbg (string_of_bytes raw)] in
  match split_once_str [61] raw with
  | Some (k, v) => if is_empty (trim_bytes k) then Err bad else Ok (string_of_bytes (trim_bytes k), string_of_bytes (trim_bytes v))
  | None => Err bad
  end.

Definition add_label (out : gmap string string) (kv : string * string) : result msg (gmap string string) :=
  match out !! fst kv with
  | Some previous =>
      if str_eqb previous (snd kv) then Ok (<[fst kv := snd kv]> out)
      else Err [Lit "--cluster-label states "; Str (fst kv); Lit "="; Dbg previous; Lit " and "; Str (fst kv); Lit "="; Dbg (snd kv);
                Lit ": one of the two is a label this cluster does not carry"]
  | None => Ok (<[fst kv := snd kv]> out)
  end.

(** [raw.split(',').filter(|s| !s.trim().is_empty())]. *)
Definition label_texts (raw : string) : list (list Z) := List.filter (fun s => negb (is_empty (trim_bytes s))) (split_on 44 (as_bytes raw)).

Fixpoint add_texts (out : gmap string string) (texts : list (list Z)) : result msg (gmap string string) :=
  match texts with
  | [] => Ok out
  | text :: rest => kv ← label_pair text; out ← add_label out kv; add_texts out rest
  end.

Definition no_value : msg :=
  [Lit "--cluster-label was given no value: the next argument is another flag, or the                  flag ends the command line. To state a cluster that carries no labels, write                  --cluster-label='' — silently reading a typo as that is how a fail-closed                  cluster selector becomes a miss"].

Fixpoint add_occurrences (out : gmap string string) (occurrences : list (option string)) : result msg (gmap string string) :=
  match occurrences with
  | [] => Ok out
  | None :: _ => Err no_value
  | Some raw :: rest => out ← add_texts out (label_texts raw); add_occurrences out rest
  end.

(** [None] is [ClusterLabels::unstated()]. *)
Definition parse_cluster_labels (occurrences : list (option string)) : result msg (option (gmap string string)) :=
  if is_empty occurrences then Ok None else out ← add_occurrences ∅ occurrences; Ok (Some out).

Definition cluster_labels (f : Flags) : result msg (option (gmap string string)) :=
  parse_cluster_labels (flag_occurrences f "cluster-label").

(** [StaticLabels::cluster]: never warm. *)
Definition static_cluster (cluster : option (gmap string string)) : LabelSource :=
  static_source {| sl_cluster := cluster; sl_namespaces := ∅; sl_service_accounts := ∅; sl_warmth := Cold |}.

(** What the process is started in. [se_watched] is what the label watch started with a
    configuration answers; [se_exceptions_mount] reads a
    file, or the list inside a directory; [se_tls] the files of a certificate and a key. *)
Record ServeEnv : Type := {
  se_source : string -> Result (list Z * option string);
  se_read : string -> FileRead;
  se_exceptions_mount : string -> FileRead;
  se_exists : string -> bool;
  se_var : string -> option string;
  se_watched : ApiserverConfig -> option (gmap string string) -> LabelSource;
  se_tls : string -> string -> Files;
  se_now : Z;
  se_journal : string -> option (list Z);
  se_cannot_open : option string;
  se_probe : IoFault;
  se_grant_mount : string -> Mount;
  se_bind : string -> option string
}.

(** [label_source], built with the [apiserver] feature. *)
Definition with_target (target : string) (c : ApiserverConfig) : result msg ApiserverConfig :=
  let at_ host port := {| ac_host := host; ac_port := port; ac_server_name := ac_server_name c; ac_node_name := ac_node_name c;
                          ac_token_path := ac_token_path c; ac_ca_path := ac_ca_path c |} in
  if str_empty target then Ok c
  else match rsplit_once_str [58] (as_bytes target) with
       | Some (host, port) => port ← ok_or (parse_u16 port) [Lit "invalid --apiserver port"]; Ok (at_ (string_of_bytes host) port)
       | None => Ok (at_ target (ac_port c))
       end.

Definition label_source (env : ServeEnv) (f : Flags) : result msg LabelSource :=
  cluster ← cluster_labels f;
  match flag_get f "apiserver" with
  | None => Ok (static_cluster cluster)
  | Some target =>
      config ← map_err (fun e => Lit "apiserver: " :: error_to_string e) (cluster_wide (se_exists env) (se_var env));
      config ← with_target target config;
      Ok (se_watched env config cluster)
  end.

(** [label_source] of a build without the feature. *)
Definition label_source_static (f : Flags) : result msg LabelSource :=
  _ ← refuse_if (match flag_get f "apiserver" with Some _ => true | None => false end)
        [Lit "--apiserver requires the `apiserver` feature at build time"];
  cluster ← cluster_labels f; Ok (static_cluster cluster).

Definition review_config (f : Flags) (labels : LabelSource) : ReviewConfig :=
  {| rc_policy_name := default "" (flag_get f "policy-name"); rc_policy_namespace := default "" (flag_get f "policy-namespace");
     rc_labels := labels |}.

(** ** The commands *)

(** [serde_json] on a subject. *)
Class SubjectJson : Type := { subject_of_json : list Z -> result string AdmissionSubject }.

Definition file_bytes (r : FileRead) : result string (list Z) :=
  match r with ReadOk b => Ok b | ReadNotFound => Err "No such file or directory (os error 2)" | ReadFailed e => Err e end.
Definition read_file (env : ServeEnv) (path : string) : result msg (list Z) :=
  map_err (fun e => [Lit "read "; Str path; Lit ": "; Str e]) (file_bytes (se_read env path)).

(** The exit status: 0 admitted, 1 denied. *)
Definition exit_code (allowed : bool) : Z := if allowed then 0 else 1.

Definition cmd_eval `{S : SubjectJson} (env : ServeEnv) (args : list string) : result msg (AdmissionDecision * Z) :=
  match args with
  | [_; program_path; subject_path] =>
      program ← read_file env program_path;
      subject_raw ← read_file env subject_path;
      text ← ok_or (from_utf8 subject_raw) [Lit "read "; Str subject_path; Lit ": stream did not contain valid UTF-8"];
      subject ← map_err (fun e => [Lit "subject json: "; Str e]) (subject_of_json (as_bytes text));
      let decision := admit_bytes program subject [] (se_now env) in
      Ok (decision, exit_code (dec_allowed decision))
  | _ => Err [Lit "usage: ferrum-admission <program.fadm> <subject.json>"]
  end.

Section commands.
Context `{E : Ed25519} `{T : JsonText} `{X : ExceptionsJson} `{G : GrantJson} `{J : EntryJson} {Config : Type} `{L : TlsLib Config} `{TT : TimeText}.
Context (sha256 : list Z -> list Z) (fmt : msg -> string).

Definition trust_root_flag (what hex : string) : result msg (list Z) :=
  map_err (fun e => Lit what :: Lit ": " :: error_to_string e) (parse_trust_root hex).

(** [load_path]. *)
Definition load_path (env : ServeEnv) (path : string) (root : list Z) : Result (AdmissionProgram * string) :=
  '(bytes, digest) ← se_source env path; load_source_with_digest sha256 bytes root digest.

Definition load_exceptions (env : ServeEnv) (path : option string) (root : list Z) : result msg (list PolicyExceptionSpec) :=
  match path with
  | None => Ok []
  | Some path =>
      if str_empty path then Ok []
      else raw ← read_file env path;
           payload ← map_err (fun e => Lit "exceptions: " :: error_to_string e) (verify_exceptions_fsig sha256 raw root);
           map_err (fun e => [Lit "exceptions payload json: "; Str e]) (exceptions_of_json payload)
  end.

Definition policy_name_required : msg := [Lit "--policy-name is required when --exceptions is set"].

Definition exceptions_and_config (env : ServeEnv) (f : Flags) (root : list Z) : result msg (list PolicyExceptionSpec * ReviewConfig) :=
  exceptions ← load_exceptions env (flag_get f "exceptions") root;
  let cfg := review_config f cold_labels in
  _ ← refuse_if (negb (is_empty exceptions) && str_empty (rc_policy_name cfg)) policy_name_required;
  Ok (exceptions, cfg).

(** What [allowed] reads out of a reply. *)
Definition reply_allowed (r : ReviewReply) : bool :=
  (rr_status r =? 200) &&
  match json_of_bytes (rr_body r) with
  | Ok v => default false (pointer v ["response"; "allowed"] ≫= as_bool)
  | Err _ => false
  end.

Definition cmd_review (env : ServeEnv) (args : list string) : result msg (ReviewReply * Z) :=
  let f := parse_flags args in
  bundle_path ← require_flag f "bundle";
  trust_hex ← require_flag f "trust-root";
  review_path ← ok_or (head (fl_positional f)) [Lit "usage: review --bundle <fsig> --trust-root <hex> <admissionreview.json>"];
  root ← trust_root_flag "trust-root" trust_hex;
  '(program, _) ← map_err (fun e => Lit "bundle: " :: error_to_string e) (load_path env bundle_path root);
  '(exceptions, cfg) ← exceptions_and_config env f root;
  body ← read_file env review_path;
  let reply := handle_with sha256 fmt cfg body (Some program) exceptions None (se_now env) in
  Ok (reply, exit_code (reply_allowed reply)).

(** The server when it is about to accept its first connection, and the paths its watches
    poll every [sp_reload_ms]. *)
Record ServePlan : Type := {
  sp_listen : string; sp_state : WebhookState; sp_root : list Z; sp_bundle : string; sp_exceptions : option string;
  sp_tls : option (TlsSource (Config := Config)); sp_reload_ms : Z; sp_metrics : option string; sp_break_glass_dir : option string
}.

Definition serve_tls (env : ServeEnv) (f : Flags) : result msg (option (TlsSource (Config := Config))) :=
  match flag_get f "tls-cert", flag_get f "tls-key" with
  | Some cert, Some key =>
      if negb (str_empty cert) && negb (str_empty key)
      then Some <$> map_err (fun e => Lit "tls: " :: e) (tls_load (se_tls env cert key) (se_now env) (se_now env))
      else Err [Lit "--tls-cert and --tls-key must be provided together"]
  | None, None => Ok None
  | _, _ => Err [Lit "--tls-cert and --tls-key must be provided together"]
  end.

Definition serve_reload_ms (f : Flags) : result msg Z :=
  match flag_value f "reload-ms" with
  | Some s => ok_or (parse_u64 (as_bytes s)) [Lit "invalid --reload-ms"]
  | None => Ok 1000
  end.

(** Armed before anything is bound: the mount, the pinned root and the state. *)
Definition serve_break_glass (env : ServeEnv) (f : Flags) : result msg (option (string * list Z * BreakGlass)) :=
  match flag_value f "break-glass", flag_value f "break-glass-journal", flag_value f "break-glass-root" with
  | None, None, None => Ok None
  | Some dir, Some journal, Some root_hex =>
      root ← trust_root_flag "break-glass-root" root_hex;
      let component := "ferrum-admission/" +:+ default "unnamed" (se_var env "POD_NAME") in
      bg ← map_err (fun e => Lit "break-glass: " :: error_to_string e)
             (arm sha256 journal component root (se_journal env journal) (se_cannot_open env) (se_probe env));
      Ok (Some (dir, root, bg))
  | _, _, _ => Err [Lit "--break-glass, --break-glass-journal and --break-glass-root must be given together; a mount with no journal is a suspension nobody could account for, and a journal with no trust root is one anybody could open"]
  end.

Definition bind_port (env : ServeEnv) (context : msg) (addr : string) : result msg unit :=
  match se_bind env addr with Some e => Err (context ++ [Str addr; Lit ": "; Str e]) | None => Ok tt end.

Definition cmd_serve (labels_of : ServeEnv -> Flags -> result msg LabelSource) (env : ServeEnv) (args : list string) : result msg ServePlan :=
  let f := parse_flags args in
  bundle_path ← require_flag f "bundle";
  trust_hex ← require_flag f "trust-root";
  let listen := default "127.0.0.1:8443" (flag_value f "listen") in
  root ← trust_root_flag "trust-root" trust_hex;
  '(program, _) ← map_err (fun e => Lit "bundle: " :: error_to_string e) (load_path env bundle_path root);
  labels ← labels_of env f;
  let cfg := review_config f labels in
  let exceptions_path := flag_value f "exceptions" in
  _ ← refuse_if (match exceptions_path with Some _ => str_empty (rc_policy_name cfg) | None => false end) policy_name_required;
  tls ← serve_tls env f;
  reload_ms ← serve_reload_ms f;
  break_glass ← serve_break_glass env f;
  let state := webhook_new program root [] cfg in
  let state := match break_glass with Some (_, _, bg) => with_break_glass state bg | None => state end in
  let state := match exceptions_path with
               | Some path => snd (try_reload_exceptions_path sha256 state path (se_exceptions_mount env path))
               | None => state
               end in
  _ ← bind_port env [Lit "bind "] listen;
  let metrics := flag_value f "metrics-listen" in
  _ ← match metrics with Some addr => bind_port env [Lit "bind --metrics-listen "] addr | None => Ok tt end;
  let state := match break_glass with
               | Some (dir, _, bg) => set_break_glass (Some (poll sha256 fmt bg (se_grant_mount env dir) (se_now env))) state
               | None => state
               end in
  Ok {| sp_listen := listen; sp_state := state; sp_root := root; sp_bundle := bundle_path; sp_exceptions := exceptions_path;
        sp_tls := tls; sp_reload_ms := reload_ms; sp_metrics := metrics;
        sp_break_glass_dir := match break_glass with Some (dir, _, _) => Some dir | None => None end |}.
End commands.

(** ** Nothing stated on the command line is lost *)

Definition extends (out : gmap string string) (kvs : list (string * string)) (m : gmap string string) : Prop :=
  forall k v, m !! k = Some v <-> out !! k = Some v \/ (k, v) ∈ kvs.

Lemma extends_nil out m : extends out [] m <-> m = out.
Proof.
  split; [|intros ->; intros k v; set_solver]. intros H. apply map_eq. intros k.
  destruct (m !! k) as [v|] eqn:Em; [apply H in Em as [->|Hin]; [done|by apply elem_of_nil in Hin]|].
  destruct (out !! k) as [v|] eqn:Eo; [|done]. assert (m !! k = Some v) by (apply H; by left). congruence.
Qed.

Lemma add_label_extends out kv rest m :
  match add_label out kv with Ok out' => extends out' rest m <-> extends out (kv :: rest) m | Err _ => ~ extends out (kv :: rest) m end.
Proof.
  destruct kv as [k v]. unfold add_label. cbn [fst snd]. destruct (out !! k) as [prev|] eqn:Eo.
  - destruct (str_eqb prev v) eqn:Ev.
    + apply str_eqb_true in Ev as ->. rewrite insert_id by done. unfold extends. setoid_rewrite elem_of_cons. split; intros H k' v'; rewrite H; naive_solver.
    + apply str_eqb_false in Ev. intros H. assert (m !! k = Some prev) by (apply H; by left). assert (m !! k = Some v) by (apply H; right; by left). congruence.
  - unfold extends. setoid_rewrite elem_of_cons. setoid_rewrite lookup_insert_Some. split; intros H k' v'; rewrite H; naive_solver.
Qed.

Lemma add_texts_exact texts : forall out m,
  add_texts out texts = Ok m <-> exists kvs, Forall2 (fun t kv => label_pair t = Ok kv) texts kvs /\ extends out kvs m.
Proof.
  induction texts as [|t texts IH]; intros out m; cbn [add_texts].
  - split.
    + intros [= <-]. exists []. split; [constructor|by apply extends_nil].
    + intros (kvs & Hf & He). inversion Hf; subst. by apply extends_nil in He as ->.
  - destruct (label_pair t) as [kv|e] eqn:Ep; cbn [mbind result_mbind].
    2: { split; [done|]. intros (kvs & Hf & _). inversion Hf; subst. congruence. }
    split.
    + intros H. destruct (add_label out kv) as [out'|] eqn:Ea; [|done]. cbn [mbind result_mbind] in H. apply IH in H as (kvs & Hf & He).
      exists (kv :: kvs). split; [by constructor|]. pose proof (add_label_extends out kv kvs m) as Hx. rewrite Ea in Hx. by apply Hx.
    + intros (kvs & Hf & He). inversion Hf as [|? kv' ? kvs' Hkv Hf' E1 E2]; subst. rewrite Ep in Hkv. injection Hkv as <-.
      pose proof (add_label_extends out kv kvs' m) as Hx. destruct (add_label out kv) as [out'|]; [|done]. cbn [mbind result_mbind].
      apply IH. exists kvs'. split; [done|]. by apply Hx.
Qed.

Lemma extends_app out k1 k2 m : extends out (k1 ++ k2) m -> exists m1, extends out k1 m1 /\ extends m1 k2 m.
Proof.
  intros H. revert out H. induction k1 as [|kv k1 IH]; intros out H; [exists out; split; [by apply extends_nil|done]|].
  pose proof (add_label_extends out kv (k1 ++ k2) m) as Hx. destruct (add_label out kv) as [out'|] eqn:Ea; [|by destruct (Hx H)].
  destruct (IH out' (proj2 Hx H)) as (m1 & H1 & H2). exists m1. split; [|done]. pose proof (add_label_extends out kv k1 m1) as Hy. rewrite Ea in Hy. by apply Hy.
Qed.
Lemma extends_trans out k1 k2 m1 m : extends out k1 m1 -> extends m1 k2 m -> extends out (k1 ++ k2) m.
Proof. intros H1 H2 k v. rewrite (H2 k v), (H1 k v), elem_of_app. naive_solver. Qed.

Lemma add_occurrences_exact occ : forall out m,
  add_occurrences out occ = Ok m <-> exists raws kvs, occ = map Some raws /\
    Forall2 (fun t kv => label_pair t = Ok kv) (concat (map label_texts raws)) kvs /\ extends out kvs m.
Proof.
  induction occ as [|[raw|] occ IH]; intros out m; cbn [add_occurrences].
  - split; [intros [= <-]; exists [], []; split_and!; [done|constructor|by apply extends_nil]|].
    intros ([|r raws] & kvs & Ho & Hf & He); [|done]. inversion Hf; subst. by apply extends_nil in He as ->.
  - split.
    + intros (m1 & (k1 & Hf1 & He1)%add_texts_exact & (raws & k2 & -> & Hf2 & He2)%IH)%bind_ok. exists (raw :: raws), (k1 ++ k2).
      split_and!; [done|by apply Forall2_app|by eapply extends_trans].
    + intros ([|r raws] & kvs & Ho & Hf & He); [done|]. injection Ho as <- ->. cbn [map concat] in Hf.
      apply Forall2_app_inv_l in Hf as (k1 & k2 & Hf1 & Hf2 & ->). apply extends_app in He as (m1 & He1 & He2).
      apply bind_ok. exists m1. split; [apply add_texts_exact; by exists k1|]. apply IH. by exists raws, k2.
  - split; [done|]. by intros ([|r raws] & kvs & Ho & _).
Qed.

(** The labels of the cluster are unstated exactly when the flag never occurred; otherwise
    they are accepted exactly when every occurrence has a value, every text between commas
    that is not blank is [key=value] with a key, and no key is given two values, and then
    they are all the pairs that were written and no other. *)
Lemma cluster_labels_exact occ :
  (parse_cluster_labels occ = Ok None <-> occ = []) /\
  (forall m, parse_cluster_labels occ = Ok (Some m) <-> occ <> [] /\ exists raws kvs, occ = map Some raws /\
     Forall2 (fun t kv => label_pair t = Ok kv) (concat (map label_texts raws)) kvs /\
     forall k v, m !! k = Some v <-> (k, v) ∈ kvs).
Proof.
  unfold parse_cluster_labels. destruct (is_empty occ) eqn:Eo.
  - apply is_empty_true in Eo as ->. split; [done|]. intros m. naive_solver.
  - apply is_empty_false in Eo. split; [split; [intros (m & _ & ?)%bind_ok; done|done]|]. intros m. rewrite bind_ok. split.
    + intros (out & (raws & kvs & Ho & Hf & He)%add_occurrences_exact & [= ->]). split; [done|]. exists raws, kvs. split_and!; try done.
      intros k v. specialize (He k v). rewrite ?lookup_empty in *. naive_solver.
    + intros (_ & raws & kvs & Ho & Hf & He). exists m. split; [|done]. apply add_occurrences_exact. exists raws, kvs. split_and!; try done.
      intros k v. specialize (He k v). rewrite ?lookup_empty in *. naive_solver.
Qed.

(** ** Flags are read back *)

(** One argument as an operator writes it. *)
Inductive Written : Type := AsOne (k v : string) | AsTwo (k v : string) | Bare (k : string) | Plain (a : string).

Definition argv_of (w : Written) : list string :=
  match w with
  | AsOne k v => ["--" +:+ k +:+ "=" +:+ v]
  | AsTwo k v => ["--" +:+ k; v]
  | Bare k => ["--" +:+ k]
  | Plain a => [a]
  end.
Definition meaning (f : Flags) (w : Written) : Flags :=
  match w with
  | AsOne k v | AsTwo k v => push_flag k (Some v) f
  | Bare k => push_flag k None f
  | Plain a => push_positional a f
  end.
Definition key_ok (k : string) : Prop := 61 ∉ as_bytes k.
Definition written_ok (w : Written) : Prop :=
  match w with
  | AsOne k _ => key_ok k
  | AsTwo k v => key_ok k /\ starts_with v "--" = false
  | Bare k => key_ok k
  | Plain a => starts_with a "--" = false
  end.
(** A flag without a value stands before another flag or at the end. *)
Fixpoint line_ok (l : list Written) : Prop :=
  match l with
  | [] => True
  | w :: rest =>
      written_ok w /\ (match w, rest with Bare _, (Plain _ :: _) => False | _, _ => True end) /\ line_ok rest
  end.

Lemma split_equals_none k : key_ok k -> split_equals k = None.
Proof.
  unfold split_equals, key_ok. intros H. assert (E : split_once_str [61] (as_bytes k) = None); [|by rewrite E].
  induction (as_bytes k) as [|b l IH]; [done|]. cbn [split_once_str prefixb]. destruct (Z.eqb_spec b 61) as [->|Hb]; [set_solver|].
  cbn [prefixb]. rewrite (proj2 (Z.eqb_neq _ _)) by congruence. cbn [andb]. rewrite IH by set_solver. done.
Qed.
Lemma split_equals_some k v : key_ok k -> split_equals (k +:+ "=" +:+ v) = Some (k, v).
Proof.
  unfold split_equals, key_ok. intros H. rewrite !as_bytes_app. change (as_bytes "=") with [61].
  pose proof (split_once_str_at 61 [] (as_bytes k) (as_bytes v) H) as E. cbn [app] in *.
  rewrite E. cbn [option_map fst snd]. by rewrite !string_of_as_bytes.
Qed.
Lemma flag_body_some s : flag_body ("--" +:+ s) = Some s.
Proof. unfold flag_body. rewrite as_bytes_app, strip_prefix_app. cbn [option_map]. by rewrite string_of_as_bytes. Qed.
Lemma flag_body_none s : starts_with s "--" = false -> flag_body s = None.
Proof. unfold flag_body, strip_prefix, starts_with. by intros ->. Qed.
Lemma dashed s : starts_with ("--" +:+ s) "--" = true.
Proof. unfold starts_with. apply prefixb_spec. exists (as_bytes s). apply as_bytes_app. Qed.

(** Every occurrence of every flag is kept, in order, with its value, and an eaten value is
    told from an empty one. *)
Lemma flags_read_back l : line_ok l -> parse_flags (concat (map argv_of l)) = foldl meaning no_flags l.
Proof.
  unfold parse_flags. generalize no_flags. induction l as [|w l IH]; intros f; [done|]. cbn [line_ok]. intros (Hw & Hb & Hl).
  cbn [map concat foldl]. rewrite <- (IH (meaning f w) Hl). destruct w as [k v|k v|k|a]; cbn [argv_of app parse_flags_from meaning].
  - rewrite flag_body_some, split_equals_some by done. done.
  - destruct Hw as [Hk Hv]. rewrite flag_body_some, split_equals_none, Hv by done. done.
  - rewrite flag_body_some, split_equals_none by done. destruct l as [|w' l']; [done|]. destruct w'; cbn [map concat argv_of app]; rewrite ?dashed; done.
  - rewrite flag_body_none by done. done.
Qed.

(** ** The server starts in a state the invariants speak of *)

Section start.
Context `{E : Ed25519} `{T : JsonText} `{X : ExceptionsJson} `{G : GrantJson} `{J : EntryJson} {Config : Type} `{L : TlsLib Config} `{TT : TimeText}.
Context (sha256 : list Z -> list Z) (fmt : msg -> string).

Lemma serve_break_glass_inv env f dir root b : serve_break_glass sha256 env f = Ok (Some (dir, root, b)) ->
  exists journal root_hex, flag_value f "break-glass" = Some dir /\ flag_value f "break-glass-journal" = Some journal /\
    flag_value f "break-glass-root" = Some root_hex /\
    exists component, arm sha256 journal component root (se_journal env journal) (se_cannot_open env) (se_probe env) = Ok b.
Proof.
  unfold serve_break_glass. destruct (flag_value f "break-glass") as [d|], (flag_value f "break-glass-journal") as [j|],
    (flag_value f "break-glass-root") as [h|]; try done. intros H. apply bind_ok in H as (r & _ & H). apply bind_ok in H as (b' & Ha & Hres).
  injection Hres as -> -> ->. exists j, h. split_and!; try done.
  match type of Ha with map_err _ ?m = _ => destruct m as [x|] eqn:Ea; [|done] end. injection Ha as ->. by eexists.
Qed.

(** A server that gets as far as accepting connections is a reachable state of the webhook
    under the pinned root; suspension is possible only when the mount, the journal and the
    root were all given; and waivers are watched only for a named policy. *)
Lemma serve_starts_reachable labels_of env args plan : cmd_serve sha256 fmt labels_of env args = Ok plan ->
  (exists hex, flag_value (parse_flags args) "trust-root" = Some hex /\ parse_trust_root hex = Ok (sp_root plan)) /\
  (exists bg_root, webhook_reach sha256 fmt (sp_root plan) bg_root (sp_state plan) /\ trustworthy sha256 fmt (sp_root plan) bg_root (sp_state plan)) /\
  (sp_break_glass_dir plan = None -> wh_break_glass (sp_state plan) = None) /\
  (forall dir, sp_break_glass_dir plan = Some dir -> exists journal root_hex, flag_value (parse_flags args) "break-glass" = Some dir /\
     flag_value (parse_flags args) "break-glass-journal" = Some journal /\ flag_value (parse_flags args) "break-glass-root" = Some root_hex) /\
  (forall path, sp_exceptions plan = Some path -> rc_policy_name (wh_config (sp_state plan)) <> "").
Proof.
  unfold cmd_serve. set (f := parse_flags args). intros H. apply bind_ok in H as (bp & _ & H). apply bind_ok in H as (hex & Hh & H).
  apply bind_ok in H as (root & Hr & H). apply bind_ok in H as ([program digest] & Hp & H). apply bind_ok in H as (labels & _ & H).
  apply bind_ok_unit in H as [Hn H]. apply refuse_if_ok in Hn. apply bind_ok in H as (tls & _ & H). apply bind_ok in H as (ms & _ & H).
  apply bind_ok in H as (bg & Hbg & H). apply bind_ok_unit in H as [_ H]. apply bind_ok_unit in H as [_ H]. injection H as <-. cbn [sp_root sp_state sp_break_glass_dir sp_exceptions].
  assert (Hroot : parse_trust_root hex = Ok root) by (unfold trust_root_flag in Hr; by destruct (parse_trust_root hex); [injection Hr as ->|]).
  assert (Hload : exists bytes expected, load_source_with_digest sha256 bytes root expected = Ok (program, digest)).
  { unfold load_path in Hp. destruct (se_source env bp) as [[bytes ex]|]; [|done]. cbn [mbind result_mbind] in Hp. exists bytes, ex.
    destruct (load_source_with_digest _ _ _ _); [by injection Hp as ->|done]. }
  destruct Hload as (bytes & expected & Hload).
  set (cfg := review_config f labels) in *. set (exc := flag_value f "exceptions") in *.
  pose (w0 := webhook_new program root [] cfg).
  assert (Hcfg : forall w path o, wh_config (snd (try_reload_exceptions_path sha256 w path o)) = wh_config w /\
                                  wh_break_glass (snd (try_reload_exceptions_path sha256 w path o)) = wh_break_glass w).
  { intros w path o. unfold try_reload_exceptions_path, try_reload_exceptions. repeat case_match; done. }
  assert (Hreach : exists bg_root, webhook_reach sha256 fmt root bg_root
     (match bg with Some (dir, _, b) => set_break_glass (Some (poll sha256 fmt b (se_grant_mount env dir) (se_now env)))
        (match exc with Some path => snd (try_reload_exceptions_path sha256 (with_break_glass w0 b) path (se_exceptions_mount env path)) | None => with_break_glass w0 b end)
      | None => match exc with Some path => snd (try_reload_exceptions_path sha256 w0 path (se_exceptions_mount env path)) | None => w0 end end)).
  { destruct bg as [[[dir bg_root] b]|].
    - exists bg_root. assert (Hb : reachable sha256 fmt bg_root b).
      { apply serve_break_glass_inv in Hbg as (journal & root_hex & _ & _ & _ & component & Ha). by eapply reach_arm. }
      assert (Hw : webhook_reach sha256 fmt root bg_root (with_break_glass w0 b)) by (eapply wr_arm; [by eapply wr_start|done|done]).
      destruct exc as [path|]; (apply wr_poll; [try apply wr_load_exceptions; done|]); [by rewrite (proj2 (Hcfg _ _ _))|done].
    - exists []. assert (Hw : webhook_reach sha256 fmt root [] w0) by (by eapply wr_start). destruct exc as [path|]; [by apply wr_load_exceptions|done]. }
  split; [exists hex; split; [|done]; unfold require_flag in Hh; destruct (flag_value f "trust-root"); [by injection Hh as ->|done]|].
  split; [|split; [|split]].
  - destruct Hreach as (bg_root & Hreach). exists bg_root. destruct bg as [[[dir r] b]|]; (split; [exact Hreach|by eapply reach_trustworthy]).
  - destruct bg as [[[dir r] b]|]; [done|]. intros _. destruct exc; [by rewrite (proj2 (Hcfg _ _ _))|done].
  - intros dir Hd. destruct bg as [[[d r] b]|]; [|done]. injection Hd as ->.
    apply serve_break_glass_inv in Hbg as (journal & root_hex & H1 & H2 & H3 & _). by exists journal, root_hex.
  - intros path He. rewrite He in *.
    assert (Hc : wh_config (match bg with Some (dir, _, b) => set_break_glass (Some (poll sha256 fmt b (se_grant_mount env dir) (se_now env)))
        (snd (try_reload_exceptions_path sha256 (with_break_glass w0 b) path (se_exceptions_mount env path)))
      | None => snd (try_reload_exceptions_path sha256 w0 path (se_exceptions_mount env path)) end) = cfg).
    { destruct bg as [[[d r] b]|]; cbn; [rewrite (proj1 (Hcfg _ _ _))|rewrite (proj1 (Hcfg _ _ _))]; done. }
    intros Hempty. apply str_empty_false in Hn. apply Hn. apply (f_equal rc_policy_name) in Hc. rewrite <- Hc.
    destruct bg as [[[d r] b]|]; exact Hempty.
Qed.
End start.
